(* ===== verification/_CoqProject ===== *)
-Q . S2P
Prelude.v
Utf8.v
Numbers.v
Json.v
JsonText.v
AdaptivePublisher.v
Truncate.v
OutputCapture.v
OutputAccumulator.v
ShellExec.v
BashTool.v
ShellTool.v
NodePath.v
FileSystem.v
NodeEnv.v
MutationQueue.v
EditDiff.v
SearchTools.v
PluginBridge.v
CodeRunner.v
Messages.v
TransformMessages.v
Regex.v
ProviderErrors.v
JsonRepair.v
Sse.v
ConstrainedSampling.v
EventStream.v
Models.v
Faux.v
Estimate.v
AnthropicMessages.v
AnthropicStream.v
StreamMonad.v
OpenaiCommon.v
OpenaiCompletions.v
OpenaiStream.v
OpenaiReplay.v
OpenaiResponses.v
ResponsesStream.v
ResponsesReplay.v
GoogleMessages.v
GoogleStream.v
MistralMessages.v
MistralSse.v
MistralStream.v
CodexSockets.v
PiBridge.v
WorkspaceLock.v
Generation.v
Validation.v
FileTools.v
CodexRequest.v
CodexEvents.v
CodexStream.v
Providers.v
