(* ===== verification/Prelude.v ===== *)
(** * Atoll: a verification of its JavaScript

    Atoll is a platform written in Go.  Three of its parts run as JavaScript
    processes beside it, and these are what this library models:

    - the plugin bridge, src/tools/plugin-bridge/cli.js, which forwards the
      WebSockets of local browser plugins to remote adapters;
    - the code-mode runtime, src/drivers/tools/coderunner/runner.mjs, which runs
      a program and speaks JSON-RPC over stdio with the Go host;
    - the pi bridge, src/drivers/tools/pibridge/bridge.ts, which serves language
      model requests and workspace tools over stdio.  What runs is
      src/drivers/tools/pibridge/bridge.mjs, one file that holds bridge.ts
      (lines 116485 and following) and the pi packages it calls.  The manifest
      gives the lines of bridge.ts for the bridge itself and those of bridge.mjs
      for the packages.

    ** How the program is modelled

    A JavaScript string is its list of UTF-16 code units ([jstr]); bytes are
    integers below 256; numbers are doubles ([Numbers.jsnum], with exact
    rationals for finite values, rounding and parsing written out), or [Z]
    where the code only keeps integers.  A call that may throw returns a
    [result].  Objects are ordered lists of fields, [Map]s of which only lookups
    matter are [gmap]s.  Asynchronous code is a step relation: a state holds the
    variables of the process and the handlers that are suspended, an event is
    one turn of the event loop (an input line, a socket event, the settling of a
    promise), and a step function gives the state after it.  Every property of
    such a process holds for all sequences of events.  Loops whose recursion is
    not structural carry fuel; a lemma or a theorem says which fuel is enough
    (the length of the input, the depth of a schema), and the definitions start
    with it.

    Code outside the repository (the [ws], [typebox] and [diff] packages,
    [partial-json], the provider SDKs) and functions of the engine whose result
    the claims do not depend on ([Math.random], [Date.now], Unicode
    normalisation, case mapping, printing of non-integral doubles) are
    parameters; what is assumed of them is stated as a hypothesis and shown to
    be satisfiable by a witness.

    ** The files

    - [Prelude]: exceptions, strings, tactics, hint databases, lists.
      [Utf8]: UTF-8 encoding and the streaming decoder.  [Numbers]: doubles,
      [Number(s)], [parseFloat].  [Json]: values, printing, parsing;
      [JsonText]: that parsing what was printed gives the value back.
      [Regex]: a parser of the patterns used and a derivative matcher.
    - [PluginBridge]: argument parsing, address checks, the state machine of a
      route (slot, pairs, backlog), the process and its exit codes.
    - [CodeRunner]: requests and their table, line framing, the [atoll] object
      with its worker pool, the phases of [main], exit codes.
    - [PiBridge]: the bridge process: frames, model resolution, generation,
      error classification, environments, input lines.  [WorkspaceLock]: the
      abstract first-come first-served lock over the process environment and
      its refinement by the bridge.  [Generation]: what a failed generation lets
      out, and that a frame is one line.
    - [Messages]: the data of packages/ai.  [TransformMessages]: replay of a
      conversation to another model.  [ProviderErrors]: overflow and retry
      classification, the retry loop, error texts.  [JsonRepair]: repair of
      streamed JSON.  [ConstrainedSampling]: strict schemas and grammar input.
      [EventStream]: the queue between providers and consumers and the streams
      that forward one.  [Models]: registry, prices, thinking levels,
      credentials and request authentication.  [Faux]: the scripted provider.
      [Sse], [AnthropicMessages], [AnthropicStream]: the Anthropic provider: the
      reader of its event stream, its requests, and the assembly of a response.
      [OpenaiCommon], [OpenaiCompletions], [OpenaiStream], [OpenaiReplay]: the
      chat completions providers: shared helpers, requests with the detection of
      what a provider supports, the assembly of a response in a state monad, and
      the way of reasoning details from a response into the next request.
      [OpenaiResponses], [ResponsesStream], [ResponsesReplay]: the same for the
      OpenAI responses API, with its Azure variant.  [StreamMonad]: the monad of
      these streams, its laws and the invariants its programs keep.
      [GoogleMessages], [GoogleStream]: requests and responses of the Google
      Generative AI and Vertex providers.  [MistralMessages], [MistralSse],
      [MistralStream]: requests of Mistral with the renaming of calls and the
      names on the wire, its own reader of server-sent events, and responses.
      [CodexSockets], [CodexRequest], [CodexEvents], [CodexStream]: the Codex
      provider: the cache of its WebSockets as a state machine with the requests
      that continue a response, its requests, the readers of both transports, and
      the attempts, retries and the fallback of a call.
      [Providers]: the interface [StreamSource], what a provider promises, its
      instances, and what the bridge reads from any source.  [Estimate]: context
      estimates and token budgets.  [Validation]: coercion and validation of
      tool arguments.
    - [Truncate], [EditDiff], [FileTools]: output truncation (two copies),
      matching and replacement of the edit tool, and the read, write and edit
      tools with their image handling.  [MutationQueue]: the queue that orders
      the changes of a file by its key, the files being where the keys lead.
    - [FileSystem]: the file calls of Node on a tree of files, directories, links
      and devices.  [NodeEnv]: the file methods of the execution environment on
      it, with aborts and faults at any call.
    - The bash tool: [AdaptivePublisher] (pacing of updates), [OutputCapture]
      (the bounded tail of the output and its incremental updates), [ShellExec]
      (a child process with its streams, timers, signal and spill file as one
      step function), [BashTool] (shell lookup, environment, timeout, answer).
    - The coding agent's tools: [OutputAccumulator] (rolling tail and temporary
      file), [ShellTool] (the powershell tool), [NodePath] (the posix path module
      and the resolution of paths), [SearchTools] (ls, find and grep with the
      runs of fd and rg as events).

    ** What the theorems show

    - Accounting of asynchronous work: every request the pi bridge takes on gets
      exactly one reply ([PiBridge.replies_accounted]); every request of the code
      runner is pending or settled once ([CodeRunner.requests_accounted]); event
      streams deliver every accepted event once and in order
      ([EventStream.stream_exactly_once]); the plugin bridge forwards frames in
      order without loss ([PluginBridge.route_forwards_in_order]); changes with
      one key of the mutation queue run one after the other in the order of the
      calls, nothing is lost when no other key is in use for the file, and none is
      blocked ([MutationQueue.mutations_serialized], [mutations_progress]).
    - Commands, for every interleaving of output, timers, the signal, the process
      and the file of the full output: what is shown is the tail of the complete
      output and what is cut is in the file ([ShellExec.exec_output_faithful],
      [BashTool.bash_answer_faithful], [ShellTool.shell_answer_faithful]); the
      outcome says why the command ended and the exit code is the one the child
      reported ([ShellExec.exec_outcome_truthful]); the promise is settled ([ShellExec.exec_settles]); the two copies of the wait
      for a process agree ([ShellTool.waits_agree]).
    - Searches: ls, find and grep show what there is, whole lines up to the
      limits, and say what they cut ([SearchTools.ls_lists_directory],
      [find_shows_files], [grep_shows_matches], [grep_context_window]); an abort
      ends a search ([find_abort_ends]); arguments are never read as options
      ([search_arguments_are_data]).
    - Isolation and ordering: workspace requests see the environment they asked
      for, one at a time, in order, and leave the process environment as it was
      ([WorkspaceLock.workspace_isolated], [bridge_refines_lock],
      [workspace_progress]); one plugin per route
      ([PluginBridge.route_single_slot]).
    - Safety: only loopback listeners ([PluginBridge.main_starts_checked]), only
      tools the host declared ([CodeRunner.only_declared_tools]), exit codes that are
      truthful while the host listens ([CodeRunner.exit_reported]), failed
      generations reported by codes, with what of them is passed on
      ([Generation.failed_generation_reported]).
    - Functional correctness of the tools: truncation keeps the longest prefix or
      suffix of whole lines that fits, edits replace exactly what they matched,
      line endings survive, pages of a file add up to the file, images survive
      base64 and are accepted back.
    - The Anthropic provider: a request answers every tool call right after it
      ([AnthropicMessages.anthropic_request_pairs]), carries at most four cache
      markers ([anthropic_cache_markers]), and offers every tool it refers to
      ([anthropic_tools_loadable]); events survive the wire
      format (with LF line ends) however it is cut into chunks
      ([Sse.sse_roundtrip]); a response
      becomes the message it describes
      ([AnthropicStream.anthropic_message_faithful]) and one that is cut short is
      an error ([truncated_response_fails]).
    - The chat completions providers: a request answers every tool call right
      after it ([OpenaiCompletions.openai_request_pairs]), separates results from
      user messages where that is asked for ([openai_results_processed]), and
      offers every tool ([openai_tools_offered]); a response becomes the message
      it describes whatever the order of its pieces
      ([OpenaiStream.openai_message_faithful]), [done] is only said of complete
      ones ([openai_done_complete]), and reasoning details are sent back as they
      came ([OpenaiReplay.reasoning_details_replayed]).
    - The responses providers: calls are answered in their turn
      ([OpenaiResponses.responses_request_pairs]), every tool is offered once
      ([responses_tools_offered]), identifiers are acceptable
      ([response_ids_accepted]); a response becomes the message it describes
      ([ResponsesStream.responses_message_faithful]), [done] is only said of
      complete ones ([responses_done_complete]), and its items come back with
      the next request, encrypted reasoning that only its end carries included
      ([ResponsesReplay.response_replayed]).
    - The Google providers: calls are answered by the next content
      ([GoogleMessages.google_request_pairs]), the two copies ask for the same
      thinking ([google_copies_agree]) and retry alike ([google_errors_retried]);
      a response becomes the message it describes however it is cut
      ([GoogleStream.google_message_faithful]), with distinct identifiers for its
      calls ([google_ids_distinct]).
    - Mistral: calls are answered right after them
      ([MistralMessages.mistral_request_pairs]), their new identifiers are
      distinct ([mistral_ids_distinct]), options go out under their wire names
      ([mistral_wire_payload]); what the server writes is what is read, whichever
      line breaks it uses and however the bytes are cut
      ([MistralSse.mistral_sse_roundtrip], [mistral_chunking]); a response becomes
      the message it describes ([MistralStream.mistral_message_faithful]) and one
      without a reason to stop is an error ([mistral_unfinished_fails]).
    - Codex, for every interleaving of requests, timers and closing connections: a
      connection is in the hands of one request of the session and account it was
      opened for ([CodexSockets.codex_sockets_exclusive]), none is forgotten
      ([codex_sockets_drain]), and a request that continues a response stands for
      the whole conversation ([codex_context_complete], where the server has the
      responses it gave and the client what [convertResponsesMessages] makes of
      them); the account comes from
      the token, headers and address are its own, and the body is complete
      ([CodexRequest.codex_account_read], [codex_headers_own],
      [codex_url_resolved], [codex_body_complete]); what is written is read, over
      HTTP ([CodexEvents.codex_sse_roundtrip]) and over a WebSocket
      ([codex_socket_read]); whichever transport answers, what is streamed is the
      last answer, unless an earlier one was cut short in the way of a finding
      ([CodexStream.codex_transports_agree], [repeated_after_a_part]), with
      bounded attempts, retries and sleeps ([codex_stream_orderly], which also
      shows that the three turns the loop of attempts is given are enough).
    - Files: what was written to a file is what is read and no other file changes
      ([NodeEnv.env_write_read]), renaming moves a file ([env_rename_moves]), a
      temporary file is new ([env_temp_fresh]), a listing is complete
      ([env_list_complete]), lines are those of the text ([env_lines_prefix]),
      [exists] tells the truth ([env_exists_truthful]), and an aborted call
      changes nothing ([env_aborted_untouched]).
    - Correctness of the model layer: replayed conversations pair calls and
      results, strict schemas are strict, repaired JSON is unchanged when valid,
      retries are bounded, budgets fit the context window, authentication
      respects precedence, validation returns only arguments the tool's validator
      accepts ([Validation.validate_sound]).

    Lemmas that name a defect ([Validation.primitive_arguments_unchecked],
    [Generation.diagnostics_exposed], [JsonRepair.malformed_unicode_escape_kept],
    [MutationQueue.two_keys_lose], [CodeRunner.no_exit_after_end] and others) prove what the manifest records as findings.

    ** What is not modelled

    The Go and Python code; the third-party packages inside the bundle; the
    provider catalogues.  Of the pi packages: the wire formats of the Bedrock and
    pi-messages providers, the counters for debugging and the compression of
    requests of Codex, the diff text of an edit, model refresh and deferred
    responses (the bridge calls neither), the custom operations of the search
    tools (the bridge passes none). *)
From stdpp Require Export base list gmap strings numbers pretty.
From Stdlib Require Export ZArith Lia.
Open Scope Z_scope.

(** * Tactics *)

(** Case analysis on the innermost [match]/[if] scrutinee of the goal. *)
Ltac case_goal :=
  match goal with
  | |- context [match ?e with _ => _ end] =>
      lazymatch e with
      | context [match _ with _ => _ end] => fail
      | _ => destruct e eqn:?
      end
  end.

Ltac case_hyp H :=
  match type of H with
  | context [match ?e with _ => _ end] =>
      lazymatch e with
      | context [match _ with _ => _ end] => fail
      | _ => destruct e eqn:?
      end
  end.

(** Boolean tests on [Z] to propositions, everywhere. *)
Ltac bool_to_prop :=
  repeat match goal with
  | H : (_ && _) = true |- _ => apply andb_true_iff in H as [? ?]
  | H : (_ || _) = false |- _ => apply orb_false_iff in H as [? ?]
  | H : (_ && _) = false |- _ => apply andb_false_iff in H
  | H : (_ || _) = true |- _ => apply orb_true_iff in H
  | H : negb _ = true |- _ => apply negb_true_iff in H
  | H : negb _ = false |- _ => apply negb_false_iff in H
  | H : (_ <=? _) = true |- _ => apply Z.leb_le in H
  | H : (_ <=? _) = false |- _ => apply Z.leb_gt in H
  | H : (_ <? _) = true |- _ => apply Z.ltb_lt in H
  | H : (_ <? _) = false |- _ => apply Z.ltb_ge in H
  | H : (_ =? _) = true |- _ => apply Z.eqb_eq in H
  | H : (_ =? _) = false |- _ => apply Z.eqb_neq in H
  | H : bool_decide _ = true |- _ => apply bool_decide_eq_true in H
  | H : bool_decide _ = false |- _ => apply bool_decide_eq_false in H
  end.

(** * Exceptions: a JavaScript call either returns or throws *)

Inductive result (E A : Type) : Type :=
| Ok (a : A)
| Throw (e : E).
Arguments Ok {E A} a.
Arguments Throw {E A} e.

Definition bind {E A B} (m : result E A) (k : A -> result E B) : result E B :=
  match m with
  | Ok a => k a
  | Throw e => Throw e
  end.

Declare Scope js_scope.
Delimit Scope js_scope with js.
Notation "'let!' x := m 'in' k" := (bind m (fun x => k))
  (at level 10, x pattern, m at level 100, k at level 200) : js_scope.
Open Scope js_scope.

(** * Strings: a JavaScript string is its sequence of UTF-16 code units *)

Abbreviation jstr := (list Z).

(** ASCII literals. *)
Definition js (s : string) : jstr :=
  map (fun c => Z.of_N (Ascii.N_of_ascii c)) (String.list_ascii_of_string s).
Arguments js s%_string_scope.

Definition LF : Z := 10.
Definition CR : Z := 13.

(** [String(n)] of an integer-valued number. *)
Definition num_str (n : Z) : jstr := js (pretty n).

(** [s.startsWith(p)] *)
Fixpoint starts_with (p s : jstr) : bool :=
  match p, s with
  | [], _ => true
  | _ :: _, [] => false
  | a :: p', b :: s' => (a =? b) && starts_with p' s'
  end.

(** [s.endsWith(p)] *)
Definition ends_with (p s : jstr) : bool := starts_with (rev p) (rev s).

(** [s.indexOf(p)]; [None] is [-1]. *)
Fixpoint index_of (p s : jstr) : option nat :=
  if starts_with p s then Some O
  else match s with
       | [] => None
       | _ :: s' => S <$> index_of p s'
       end.

Definition includes (p s : jstr) : bool :=
  match index_of p s with Some _ => true | None => false end.

(** [s.split(c)] for a one-unit separator. *)
Fixpoint split_char (c : Z) (s : jstr) : list jstr :=
  match s with
  | [] => [[]]
  | x :: r =>
      if x =? c then [] :: split_char c r
      else match split_char c r with
           | l :: ls => (x :: l) :: ls
           | [] => [[x]]
           end
  end.

(** [ls.join(sep)] *)
Fixpoint join (sep : jstr) (ls : list jstr) : jstr :=
  match ls with
  | [] => []
  | [l] => l
  | l :: ls' => l ++ sep ++ join sep ls'
  end.

(** [s.slice(a, b)] and [s.substring(a, b)] for [0 <= a], [0 <= b]; an end
    before the start is the empty string for [slice] (and never arises for the
    calls to [substring] modelled here). *)
Definition slice (a b : nat) (s : jstr) : jstr := take (b - a) (drop a s).

(** ECMAScript white space and line terminators, what [trim] removes. *)
Definition is_space (c : Z) : bool :=
  ((9 <=? c) && (c <=? 13)) || (c =? 32) || (c =? 160) || (c =? 5760) ||
  ((8192 <=? c) && (c <=? 8202)) || (c =? 8232) || (c =? 8233) ||
  (c =? 8239) || (c =? 8287) || (c =? 12288) || (c =? 65279).

Fixpoint drop_while {A} (f : A -> bool) (l : list A) : list A :=
  match l with
  | [] => []
  | x :: r => if f x then drop_while f r else l
  end.

Definition trim_start (s : jstr) : jstr := drop_while is_space s.
Definition trim_end (s : jstr) : jstr := rev (drop_while is_space (rev s)).
Definition trim (s : jstr) : jstr := trim_end (trim_start s).

(** [s.replace(/c/g, t)] for one code unit [c]. *)
Definition replace_unit (c : Z) (t : jstr) (s : jstr) : jstr :=
  s ≫= fun x => if x =? c then t else [x].

(** Truthiness of a string: [""] is falsy. *)
Definition truthy (s : jstr) : bool :=
  match s with [] => false | _ => true end.

(** Equality of strings, as [===] decides it. *)
Definition streq (s t : jstr) : bool := bool_decide (s = t).

(** [??] and [||] on a value that may be [undefined]. *)
Definition nullish {A} (o : option A) (d : A) : A :=
  match o with Some a => a | None => d end.

(** [s.padStart(n, " ")] *)
Definition pad_start (n : nat) (s : jstr) : jstr := replicate (n - length s) 32 ++ s.

(** [s.substring(0, i)] and [s.substring(i)]: a negative index counts as 0. *)
Definition substring_to (i : Z) (s : jstr) : jstr := take (Z.to_nat i) s.
Definition substring_from (i : Z) (s : jstr) : jstr := drop (Z.to_nat i) s.

(** [l.sort((a, b) => key(a) - key(b))]; the sort of the language is stable. *)
Fixpoint insert_by {A} (key : A -> Z) (x : A) (l : list A) : list A :=
  match l with
  | [] => [x]
  | y :: r => if key x <=? key y then x :: l else y :: insert_by key x r
  end.

Definition sort_by {A} (key : A -> Z) (l : list A) : list A :=
  foldr (insert_by key) [] l.

(** [arr.map(f)] for an [f] that may throw. *)
Fixpoint map_throw {E A B} (f : A -> result E B) (l : list A) : result E (list B) :=
  match l with
  | [] => Ok []
  | x :: r => let! y := f x in let! ys := map_throw f r in Ok (y :: ys)
  end.

(** * Lemmas on strings *)

Lemma streq_true (s t : jstr) : streq s t = true <-> s = t.
Proof. apply bool_decide_eq_true. Qed.

Lemma streq_false (s t : jstr) : streq s t = false <-> s ≠ t.
Proof. apply bool_decide_eq_false. Qed.

Lemma streq_refl (s : jstr) : streq s s = true.
Proof. by apply streq_true. Qed.

Lemma starts_with_spec (p s : jstr) :
  starts_with p s = true <-> exists r, s = p ++ r.
Proof.
  revert s; induction p as [|a p IH]; intros s; simpl.
  - split; [by exists s | done].
  - destruct s as [|b s].
    + split; [done | intros [r Hr]; discriminate].
    + rewrite andb_true_iff, Z.eqb_eq, IH. split.
      * intros [-> [r ->]]. by exists r.
      * intros [r [= -> ->]]. eauto.
Qed.

Lemma starts_with_app (p r : jstr) : starts_with p (p ++ r) = true.
Proof. apply starts_with_spec. by exists r. Qed.

Lemma ends_with_spec (p s : jstr) :
  ends_with p s = true <-> exists r, s = r ++ p.
Proof.
  unfold ends_with. rewrite starts_with_spec. split.
  - intros [r Hr]. exists (rev r).
    by rewrite <- (rev_involutive s), Hr, rev_app_distr, rev_involutive.
  - intros [r ->]. exists (rev r). apply rev_app_distr.
Qed.

Lemma split_char_not_nil c s : split_char c s ≠ [].
Proof. destruct s as [|x s]; simpl; [done|]. repeat case_match; done. Qed.

Lemma join_cons sep l ls :
  ls ≠ [] -> join sep (l :: ls) = l ++ sep ++ join sep ls.
Proof. by destruct ls. Qed.

(** [join] undoes [split]. *)
Lemma join_split c s : join [c] (split_char c s) = s.
Proof.
  induction s as [|x s IH]; simpl; [done|].
  pose proof (split_char_not_nil c s) as Hn.
  destruct (Z.eqb_spec x c) as [->|].
  - rewrite join_cons by done. simpl. by rewrite IH.
  - destruct (split_char c s) as [|l ls]; [done|].
    destruct ls; simpl in *; by rewrite <- IH.
Qed.

Lemma split_char_no_sep c s : Forall (fun l => c ∉ l) (split_char c s).
Proof.
  induction s as [|x s IH]; simpl.
  - repeat constructor. set_solver.
  - destruct (Z.eqb_spec x c) as [->|Hne].
    + constructor; [set_solver | done].
    + destruct (split_char c s) as [|l ls].
      * repeat constructor. set_solver.
      * inversion IH; subst. constructor; [set_solver | done].
Qed.

(** [split] undoes [join] on pieces without the separator. *)
Lemma split_app_sep c l s :
  c ∉ l -> split_char c (l ++ c :: s) = l :: split_char c s.
Proof.
  induction l as [|x l IH]; simpl; intros Hl.
  - by rewrite Z.eqb_refl.
  - rewrite (proj2 (Z.eqb_neq x c)) by set_solver.
    rewrite IH by set_solver. done.
Qed.

Lemma split_no_sep c l : c ∉ l -> split_char c l = [l].
Proof.
  induction l as [|x l IH]; simpl; intros Hl; [done|].
  rewrite (proj2 (Z.eqb_neq x c)) by set_solver.
  by rewrite IH by set_solver.
Qed.

Lemma split_join c ls :
  ls ≠ [] -> Forall (fun l => c ∉ l) ls -> split_char c (join [c] ls) = ls.
Proof.
  intros Hn HF; induction HF as [|l ls Hl HF IH]; [done|].
  destruct ls as [|l' ls].
  - simpl. by apply split_no_sep.
  - rewrite join_cons by done.
    etrans; [by apply (split_app_sep c l (join [c] (l' :: ls)))|].
    by rewrite IH.
Qed.

Lemma split_snoc c s : split_char c (s ++ [c]) = split_char c s ++ [[]].
Proof.
  induction s as [|x s IH]; simpl; [by rewrite Z.eqb_refl|].
  rewrite IH. destruct (x =? c); [done|].
  pose proof (split_char_not_nil c s). by destruct (split_char c s).
Qed.

Lemma split_char_Forall (P : Z -> Prop) c s :
  Forall P s -> Forall (Forall P) (split_char c s).
Proof.
  induction 1 as [|x s Hx HF IH]; simpl; [repeat constructor|].
  destruct (x =? c); [by repeat constructor|].
  destruct (split_char c s); [by repeat constructor|].
  inversion IH; subst. by repeat constructor.
Qed.

Lemma join_snoc sep ls l :
  ls ≠ [] -> join sep (ls ++ [l]) = join sep ls ++ sep ++ l.
Proof.
  induction ls as [|x ls IH]; intros Hn; [done|].
  destruct ls as [|y ls]; [done|].
  change ((x :: y :: ls) ++ [l]) with (x :: ((y :: ls) ++ [l])).
  rewrite join_cons by (by destruct ls). rewrite IH by done.
  rewrite (join_cons sep x (y :: ls)) by done. by rewrite <- !app_assoc.
Qed.

(** The first [k] pieces joined are a prefix of all of them joined. *)
Lemma join_take_prefix sep k ls : join sep (take k ls) `prefix_of` join sep ls.
Proof.
  revert ls; induction k as [|k IH]; intros ls; [apply prefix_nil|].
  destruct ls as [|l ls]; [done|]. simpl take.
  destruct ls as [|l' ls]; [by rewrite take_nil|].
  rewrite (join_cons sep l (l' :: ls)) by done.
  destruct k as [|k]; [simpl; by apply prefix_app_r|].
  rewrite join_cons by done.
  apply prefix_app, prefix_app, IH.
Qed.

Lemma join_drop_suffix sep k ls :
  join sep (drop k ls) `suffix_of` join sep ls.
Proof.
  revert ls; induction k as [|k IH]; intros ls; [done|].
  destruct ls as [|l ls]; [done|]. simpl drop.
  destruct ls as [|l' ls]; [rewrite drop_nil; apply suffix_nil|].
  rewrite (join_cons sep l (l' :: ls)) by done.
  by apply suffix_app_r, suffix_app_r.
Qed.

Lemma index_of_Some p s i :
  index_of p s = Some i ->
  exists r, s = take i s ++ p ++ r /\ (i + length p <= length s)%nat.
Proof.
  revert i; induction s as [|x s IH]; intros i; simpl.
  - destruct p; [|done]. intros [= <-]. exists []. simpl. split; [done|lia].
  - destruct (starts_with p (x :: s)) eqn:Hs.
    + intros [= <-]. apply starts_with_spec in Hs as [r Hr]. exists r.
      simpl. split; [done|].
      apply (f_equal length) in Hr. rewrite length_app in Hr. simpl in Hr. lia.
    + destruct (index_of p s) as [j|] eqn:Hj; [|done]. simpl. intros [= <-].
      destruct (IH j eq_refl) as (r & Hr & Hle). exists r. simpl.
      split; [by rewrite <- Hr | lia].
Qed.

Lemma index_of_None p s :
  index_of p s = None -> forall a b, s ≠ a ++ p ++ b.
Proof.
  induction s as [|x s IH]; simpl; intros H a b Heq.
  - destruct p; [done|]. destruct a; discriminate.
  - destruct (starts_with p (x :: s)) eqn:Hs; [done|].
    destruct (index_of p s) eqn:Hj; [done|].
    destruct a as [|y a]; simpl in Heq.
    + rewrite Heq, starts_with_app in Hs. done.
    + injection Heq as -> Heq. by eapply IH.
Qed.

Lemma index_of_first p s i j :
  index_of p s = Some i -> (j < i)%nat -> starts_with p (drop j s) = false.
Proof.
  revert i j; induction s as [|x s IH]; intros i j; simpl.
  - destruct p; [|done]. intros [= <-]. lia.
  - destruct (starts_with p (x :: s)) eqn:Hs; [intros [= <-]; lia|].
    destruct (index_of p s) as [k|] eqn:Hk; [|done]. simpl. intros [= <-] Hlt.
    destruct j as [|j]; [done|]. simpl. apply (IH k); [done|lia].
Qed.

Lemma includes_spec p s :
  includes p s = true <-> exists a b, s = a ++ p ++ b.
Proof.
  unfold includes. destruct (index_of p s) as [i|] eqn:H; split; intros H'.
  - apply index_of_Some in H as (r & Hr & _). eauto.
  - done.
  - done.
  - destruct H' as (a & b & Hab). exfalso. by eapply index_of_None.
Qed.

Lemma drop_while_app_length {A} (f : A -> bool) l :
  exists p, l = p ++ drop_while f l /\ Forall (fun x => f x = true) p.
Proof.
  induction l as [|x l (p & Hp & HF)]; simpl; [by exists []|].
  destruct (f x) eqn:Hx.
  - exists (x :: p). simpl. split; [by f_equal | by constructor].
  - by exists [].
Qed.

Lemma drop_while_head {A} (f : A -> bool) l x r :
  drop_while f l = x :: r -> f x = false.
Proof.
  induction l as [|y l IH]; simpl; [done|].
  destruct (f y) eqn:Hy; [apply IH | by intros [= -> _]].
Qed.

(** * Sorting *)

Fixpoint sorted_by {A} (key : A -> Z) (l : list A) : Prop :=
  match l with
  | [] => True
  | x :: r => Forall (fun y => key x <= key y) r /\ sorted_by key r
  end.

Lemma insert_by_perm {A} (key : A -> Z) x l : insert_by key x l ≡ₚ x :: l.
Proof.
  induction l as [|y l IH]; simpl; [done|].
  destruct (key x <=? key y); [done|]. rewrite IH. constructor.
Qed.

Lemma sort_by_perm {A} (key : A -> Z) l : sort_by key l ≡ₚ l.
Proof. induction l as [|x l IH]; simpl; [done|]. by rewrite insert_by_perm, IH. Qed.

Lemma insert_by_sorted {A} (key : A -> Z) x l :
  sorted_by key l -> sorted_by key (insert_by key x l).
Proof.
  induction l as [|y l IH]; simpl; [by intros; split|].
  intros [HF Hs]. destruct (Z.leb_spec (key x) (key y)) as [Hle|Hgt]; simpl.
  - repeat split; try done. constructor; [done|].
    eapply Forall_impl; [exact HF|]. simpl. lia.
  - split; [|by apply IH]. rewrite insert_by_perm. constructor; [lia|done].
Qed.

Lemma sort_by_sorted {A} (key : A -> Z) l : sorted_by key (sort_by key l).
Proof. induction l as [|x l IH]; simpl; [done|]. by apply insert_by_sorted. Qed.

(** Sorting a sorted list is the identity (the sort is stable). *)
Lemma sort_by_id {A} (key : A -> Z) l : sorted_by key l -> sort_by key l = l.
Proof.
  induction l as [|x l IH]; simpl; [done|]. intros [HF Hs]. rewrite IH by done.
  destruct l as [|y l]; simpl; [done|].
  inversion HF; subst. by rewrite (proj2 (Z.leb_le _ _)).
Qed.

Lemma map_throw_Ok {E A B} (f : A -> result E B) l ys :
  map_throw f l = Ok ys -> Forall2 (fun x y => f x = Ok y) l ys.
Proof.
  revert ys; induction l as [|x l IH]; simpl; intros ys; [intros [= <-]; constructor|].
  destruct (f x) eqn:Hf; simpl; [|done].
  destruct (map_throw f l) eqn:Hm; simpl; [|done].
  intros [= <-]. constructor; [done|by apply IH].
Qed.

Lemma seqZ_snoc m n : 0 <= n -> seqZ m (n + 1) = seqZ m n ++ [m + n].
Proof.
  intros Hn. rewrite <- (Z2Nat.id n) by done.
  replace (Z.of_nat (Z.to_nat n) + 1) with (Z.of_nat (S (Z.to_nat n))) by lia. apply seqZ_S.
Qed.

Create HintDb jsdb.
Create Rewrite HintDb jsdb.
#[export] Hint Resolve streq_refl starts_with_app split_char_not_nil : jsdb.
#[export] Hint Rewrite join_split @length_app @length_take @length_drop : jsdb.
