(* ===== verification/Utf8.v ===== *)
(** UTF-16 strings and their UTF-8 bytes: what [Buffer.byteLength],
    [Buffer.from(s, "utf8")], [TextEncoder], [buf.toString("utf8")] and
    [TextDecoder] compute on the strings of this program.  An unpaired surrogate
    encodes as U+FFFD, as the Encoding standard says; the decoder is the
    standard's state machine, so that malformed input is decoded too and a
    decoder can be fed chunk by chunk ([stream: true]). *)
From S2P Require Import Prelude.
Open Scope Z_scope.

Definition is_high (c : Z) : bool := (55296 <=? c) && (c <=? 56319).
Definition is_low (c : Z) : bool := (56320 <=? c) && (c <=? 57343).
Definition REPLACEMENT : Z := 65533.

(** A string of UTF-16 code units. *)
Definition is_unit (c : Z) : Prop := 0 <= c < 65536.

(** ** Code points of a string *)

(** The code point of a surrogate pair. *)
Definition pair_cp (h l : Z) : Z := 65536 + (h - 55296) * 1024 + (l - 56320).

Fixpoint code_points (s : jstr) : list Z :=
  match s with
  | [] => []
  | c :: r =>
      if is_high c then
        match r with
        | d :: r' =>
            if is_low d then pair_cp c d :: code_points r'
            else REPLACEMENT :: code_points r
        | [] => [REPLACEMENT]
        end
      else if is_low c then REPLACEMENT :: code_points r
      else c :: code_points r
  end.

Definition cp_units (cp : Z) : jstr :=
  if cp <=? 65535 then [cp]
  else [55296 + (cp - 65536) / 1024; 56320 + (cp - 65536) mod 1024].

Definition units_of (cps : list Z) : jstr := cps ≫= cp_units.

(** ** Encoding *)

Definition cp_size (cp : Z) : Z :=
  if cp <=? 127 then 1 else if cp <=? 2047 then 2
  else if cp <=? 65535 then 3 else 4.

Definition cp_bytes (cp : Z) : list Z :=
  if cp <=? 127 then [cp]
  else if cp <=? 2047 then [192 + cp / 64; 128 + cp mod 64]
  else if cp <=? 65535 then
    [224 + cp / 4096; 128 + (cp / 64) mod 64; 128 + cp mod 64]
  else
    [240 + cp / 262144; 128 + (cp / 4096) mod 64;
     128 + (cp / 64) mod 64; 128 + cp mod 64].

(** [Buffer.from(s, "utf8")], [new TextEncoder().encode(s)] *)
Definition utf8_encode (s : jstr) : list Z := code_points s ≫= cp_bytes.

(** [Buffer.byteLength(s, "utf8")] *)
Definition Buffer_byteLength (s : jstr) : Z := Z.of_nat (length (utf8_encode s)).

(** ** Decoding *)

(** The decoder's state: bytes still needed, the bounds of the next
    continuation byte and the code point read so far. *)
Record dec_state := DecState {
  d_need : nat; d_lo : Z; d_hi : Z; d_cp : Z }.

Definition dec_init : dec_state := DecState 0 128 191 0.

(** A byte at the start of a character. *)
Definition dec_start (b : Z) : list Z * dec_state :=
  if b <=? 127 then ([b], dec_init)
  else if (194 <=? b) && (b <=? 223) then ([], DecState 1 128 191 (b - 192))
  else if (224 <=? b) && (b <=? 239) then
    ([], DecState 2 (if b =? 224 then 160 else 128)
                    (if b =? 237 then 159 else 191) (b - 224))
  else if (240 <=? b) && (b <=? 244) then
    ([], DecState 3 (if b =? 240 then 144 else 128)
                    (if b =? 244 then 143 else 191) (b - 240))
  else ([REPLACEMENT], dec_init).

Definition dec_byte (st : dec_state) (b : Z) : list Z * dec_state :=
  match d_need st with
  | O => dec_start b
  | S n =>
      if (d_lo st <=? b) && (b <=? d_hi st) then
        let cp := d_cp st * 64 + (b - 128) in
        match n with
        | O => ([cp], dec_init)
        | _ => ([], DecState n 128 191 cp)
        end
      else let '(out, st') := dec_start b in (REPLACEMENT :: out, st')
  end.

(** [decoder.decode(bytes, { stream: true })]: the characters completed by
    these bytes and the state kept for the next chunk. *)
Fixpoint dec_run (st : dec_state) (bs : list Z) : list Z * dec_state :=
  match bs with
  | [] => ([], st)
  | b :: r =>
      let '(o1, st1) := dec_byte st b in
      let '(o2, st2) := dec_run st1 r in
      (o1 ++ o2, st2)
  end.

(** The end of the input: an unfinished character is one U+FFFD. *)
Definition dec_flush (st : dec_state) : list Z :=
  match d_need st with O => [] | _ => [REPLACEMENT] end.

Definition decode_cps (bs : list Z) : list Z :=
  let '(out, st) := dec_run dec_init bs in out ++ dec_flush st.

(** [buf.toString("utf8")] *)
Definition utf8_decode (bs : list Z) : jstr := units_of (decode_cps bs).

(** ** Sizes *)

Lemma length_cp_bytes cp : Z.of_nat (length (cp_bytes cp)) = cp_size cp.
Proof. unfold cp_bytes, cp_size. repeat case_match; done. Qed.

Fixpoint sum_sizes (cps : list Z) : Z :=
  match cps with [] => 0 | c :: r => cp_size c + sum_sizes r end.

Lemma cp_size_pos cp : 1 <= cp_size cp <= 4.
Proof. unfold cp_size. repeat case_match; lia. Qed.

Lemma sum_sizes_nonneg cps : 0 <= sum_sizes cps.
Proof. induction cps as [|c r IH]; simpl; [lia|]. pose proof (cp_size_pos c). lia. Qed.

Lemma sum_sizes_app a b : sum_sizes (a ++ b) = sum_sizes a + sum_sizes b.
Proof. induction a as [|c a IH]; simpl; [lia|]. rewrite IH. lia. Qed.

Lemma length_bind_bytes cps :
  Z.of_nat (length (cps ≫= cp_bytes)) = sum_sizes cps.
Proof.
  induction cps as [|c r IH]; [done|].
  rewrite bind_cons, length_app, Nat2Z.inj_add, IH, length_cp_bytes. done.
Qed.

Lemma byteLength_sum s : Buffer_byteLength s = sum_sizes (code_points s).
Proof. apply length_bind_bytes. Qed.

Lemma byteLength_nonneg s : 0 <= Buffer_byteLength s.
Proof. unfold Buffer_byteLength. lia. Qed.

Lemma byteLength_nil : Buffer_byteLength [] = 0.
Proof. done. Qed.

(** Whether cutting before [s] would split a surrogate pair after [c]. *)
Definition glued (c : Z) (s : jstr) : bool :=
  is_high c && match s with d :: _ => is_low d | [] => false end.

Lemma high_not_low c : is_high c = true -> is_low c = false.
Proof. unfold is_high, is_low. intros; bool_to_prop. lia. Qed.

Lemma code_points_cons c s :
  glued c s = false -> code_points (c :: s) = code_points [c] ++ code_points s.
Proof.
  unfold glued. intros Hg. simpl.
  destruct (is_high c); simpl in *.
  - destruct s as [|d s]; [done|]. by rewrite Hg.
  - by destruct (is_low c).
Qed.

Lemma code_points_pair h l s :
  is_high h = true -> is_low l = true ->
  code_points (h :: l :: s) = pair_cp h l :: code_points s.
Proof. simpl. by intros -> ->. Qed.

(** Strong induction on a string two units at a time. *)
Lemma jstr_ind2 (P : jstr -> Prop) :
  P [] -> (forall c, P [c]) ->
  (forall c d s, P s -> P (d :: s) -> P (c :: d :: s)) -> forall s, P s.
Proof.
  intros H0 H1 H2 s. cut (P s /\ forall c, P (c :: s)); [tauto|].
  induction s as [|c s [IH IH']]; [by split|]. split; [apply IH'|].
  intros c'. by apply H2.
Qed.

(** No pair is split when the left part does not end in a high surrogate. *)
Lemma code_points_app s t :
  (match last s with Some c => glued c t | None => false end) = false ->
  code_points (s ++ t) = code_points s ++ code_points t.
Proof.
  induction s as [|c|c d s IH IH'] using jstr_ind2; intros Hl.
  - done.
  - cbn [app]. by apply code_points_cons.
  - destruct (glued c (d :: s)) eqn:Hg.
    + unfold glued in Hg. apply andb_true_iff in Hg as [Hh Hd].
      cbn [app]. rewrite !code_points_pair by done. cbn [app]. f_equal.
      apply IH. rewrite last_cons_cons in Hl.
      destruct s as [|e s]; [done | by rewrite last_cons_cons in Hl].
    + change ((c :: d :: s) ++ t) with (c :: (d :: s) ++ t).
      rewrite (code_points_cons c (d :: s)) by done.
      rewrite code_points_cons by done.
      rewrite <- app_assoc. f_equal. apply IH'. by rewrite last_cons_cons in Hl.
Qed.

Lemma byteLength_app s t :
  (match last s with Some c => glued c t | None => false end) = false ->
  Buffer_byteLength (s ++ t) = Buffer_byteLength s + Buffer_byteLength t.
Proof.
  intros H. rewrite !byteLength_sum, code_points_app by done. apply sum_sizes_app.
Qed.

Lemma glued_sep c t x : is_low x = false -> glued c (x :: t) = false.
Proof. intros H. unfold glued. rewrite H. apply andb_false_r. Qed.

(** A one-byte separator such as a line feed never splits a pair. *)
Lemma byteLength_join_sep s t :
  Buffer_byteLength (s ++ LF :: t) = Buffer_byteLength s + 1 + Buffer_byteLength t.
Proof.
  rewrite byteLength_app.
  - rewrite (byteLength_sum (LF :: t)), byteLength_sum, byteLength_sum. simpl.
    unfold cp_size, LF. simpl. lia.
  - destruct (last s); [by apply glued_sep | done].
Qed.

(** ** The decoder on encoded text *)

(** Unicode scalar values. *)
Definition is_scalar (cp : Z) : Prop := 0 <= cp <= 1114111 /\ ~ (55296 <= cp <= 57343).

Lemma dec_run_app st a b :
  dec_run st (a ++ b) =
  let '(o1, s1) := dec_run st a in
  let '(o2, s2) := dec_run s1 b in (o1 ++ o2, s2).
Proof.
  revert st; induction a as [|x a IH]; intros st; simpl.
  - by destruct (dec_run st b).
  - destruct (dec_byte st x) as [o1 s1]. rewrite IH.
    destruct (dec_run s1 a) as [o2 s2]. destruct (dec_run s2 b) as [o3 s3].
    by rewrite app_assoc.
Qed.

Ltac solve_tests :=
  repeat match goal with
  | |- context [?a <=? ?b] =>
      first [ rewrite (proj2 (Z.leb_le a b)) by lia
            | rewrite (proj2 (Z.leb_gt a b)) by lia ]
  | |- context [?a =? ?b] =>
      first [ rewrite (proj2 (Z.eqb_eq a b)) by lia
            | rewrite (proj2 (Z.eqb_neq a b)) by lia ]
  end.

Ltac euclid := Z.to_euclidean_division_equations; lia.

Lemma dec_run_cons st b r o s' :
  dec_byte st b = (o, s') ->
  dec_run st (b :: r) = (o ++ (dec_run s' r).1, (dec_run s' r).2).
Proof. intros H. simpl. rewrite H. by destruct (dec_run s' r). Qed.

(** A continuation byte within bounds. *)
Lemma dec_byte_last lo hi cp b :
  lo <= b <= hi ->
  dec_byte (DecState 1 lo hi cp) b = ([cp * 64 + (b - 128)], dec_init).
Proof. intros H. unfold dec_byte. simpl. by solve_tests. Qed.

Lemma dec_byte_more n lo hi cp b :
  lo <= b <= hi ->
  dec_byte (DecState (S (S n)) lo hi cp) b =
  ([], DecState (S n) 128 191 (cp * 64 + (b - 128))).
Proof. intros H. unfold dec_byte. simpl. by solve_tests. Qed.

Lemma dec_run_cp cp :
  is_scalar cp -> dec_run dec_init (cp_bytes cp) = ([cp], dec_init).
Proof.
  intros [Hr Hs]. unfold cp_bytes.
  destruct (Z.leb_spec cp 127).
  { simpl. unfold dec_byte, dec_start. simpl. by solve_tests. }
  destruct (Z.leb_spec cp 2047).
  { erewrite dec_run_cons by
      (unfold dec_byte, dec_start; simpl;
       assert (2 <= cp / 64 <= 31) by euclid; solve_tests; reflexivity).
    erewrite dec_run_cons by (first [apply dec_byte_last | apply dec_byte_more]; euclid).
    simpl. repeat f_equal. euclid. }
  destruct (Z.leb_spec cp 65535).
  { assert (0 <= cp / 4096 <= 15) by euclid.
    erewrite dec_run_cons by
      (unfold dec_byte, dec_start; simpl; solve_tests; simpl; reflexivity).
    erewrite dec_run_cons by
      (first [apply dec_byte_last | apply dec_byte_more]; destruct (224 + cp / 4096 =? 224) eqn:?;
       destruct (224 + cp / 4096 =? 237) eqn:?; bool_to_prop; euclid).
    erewrite dec_run_cons by (first [apply dec_byte_last | apply dec_byte_more]; euclid).
    simpl. repeat f_equal. euclid. }
  assert (0 <= cp / 262144 <= 4) by euclid.
  erewrite dec_run_cons by
    (unfold dec_byte, dec_start; simpl; solve_tests; simpl; reflexivity).
  erewrite dec_run_cons by
    (first [apply dec_byte_last | apply dec_byte_more]; destruct (240 + cp / 262144 =? 240) eqn:?;
     destruct (240 + cp / 262144 =? 244) eqn:?; bool_to_prop; euclid).
  erewrite dec_run_cons by (first [apply dec_byte_last | apply dec_byte_more]; euclid).
  erewrite dec_run_cons by (first [apply dec_byte_last | apply dec_byte_more]; euclid).
  simpl. repeat f_equal. euclid.
Qed.

Lemma dec_run_cps cps :
  Forall is_scalar cps -> dec_run dec_init (cps ≫= cp_bytes) = (cps, dec_init).
Proof.
  induction 1 as [|c r Hc HF IH]; [done|].
  rewrite bind_cons, dec_run_app, dec_run_cp by done. simpl.
  change (flat_map cp_bytes r) with (r ≫= cp_bytes). by rewrite IH.
Qed.

Lemma code_points_scalar1 c : is_unit c -> Forall is_scalar (code_points [c]).
Proof.
  unfold is_unit. intros Hc. simpl.
  destruct (is_high c) eqn:E1; [|destruct (is_low c) eqn:E2];
    (constructor; [|constructor]); unfold is_scalar, REPLACEMENT; [lia|lia|].
  unfold is_high, is_low in *. bool_to_prop. lia.
Qed.

Lemma code_points_scalar s : Forall is_unit s -> Forall is_scalar (code_points s).
Proof.
  induction s as [|c|c d s IH IH'] using jstr_ind2; intros HF.
  - constructor.
  - inversion HF; subst. by apply code_points_scalar1.
  - inversion HF as [|? ? Hc HF']; subst. inversion HF' as [|? ? Hd HF'']; subst.
    destruct (glued c (d :: s)) eqn:Hg.
    + unfold glued in Hg. apply andb_true_iff in Hg as [Hh Hl].
      rewrite code_points_pair by done. constructor; [|by apply IH].
      unfold is_scalar, pair_cp, is_high, is_low in *. bool_to_prop. lia.
    + rewrite code_points_cons by done.
      apply Forall_app. split; [by apply code_points_scalar1 | by apply IH'].
Qed.

(** Decoding what was encoded gives the string back with every unpaired
    surrogate replaced by U+FFFD. *)
Theorem utf8_decode_encode s :
  Forall is_unit s -> utf8_decode (utf8_encode s) = units_of (code_points s).
Proof.
  intros HF. unfold utf8_decode, decode_cps, utf8_encode.
  rewrite dec_run_cps by (by apply code_points_scalar). simpl.
  by rewrite app_nil_r.
Qed.

(** ** Byte length one character at a time *)

(** Bytes of a code unit that is not half of a pair. *)
Definition unit_size (c : Z) : Z :=
  if c <=? 127 then 1 else if c <=? 2047 then 2 else 3.

Lemma byteLength_pair h l s :
  is_high h = true -> is_low l = true ->
  Buffer_byteLength (h :: l :: s) = 4 + Buffer_byteLength s.
Proof.
  intros Hh Hl. rewrite !byteLength_sum, code_points_pair by done. simpl.
  unfold cp_size, pair_cp, is_high, is_low in *. bool_to_prop. solve_tests. lia.
Qed.

Lemma byteLength_cons c s :
  is_unit c -> glued c s = false ->
  Buffer_byteLength (c :: s) = unit_size c + Buffer_byteLength s.
Proof.
  intros Hc Hg. rewrite !byteLength_sum, code_points_cons, sum_sizes_app by done.
  f_equal. unfold unit_size, is_unit in *. simpl.
  destruct (is_high c) eqn:E1; [|destruct (is_low c) eqn:E2]; simpl;
    unfold cp_size, REPLACEMENT, is_high, is_low in *; bool_to_prop;
    repeat case_match; bool_to_prop; lia.
Qed.

Lemma unit_size_surrogate c : 55296 <= c -> unit_size c = 3.
Proof. intros. unfold unit_size. by solve_tests. Qed.

Lemma unit_size_pos c : 1 <= unit_size c <= 3.
Proof. unfold unit_size. repeat case_match; lia. Qed.

Lemma glued_true c s :
  glued c s = true -> exists d r, s = d :: r /\ is_high c = true /\ is_low d = true.
Proof.
  unfold glued. intros H. apply andb_true_iff in H as [? H].
  destruct s as [|d r]; [done|]. by exists d, r.
Qed.

(** A string of code units is in one of two shapes at its head. *)
Lemma jstr_char_ind (P : jstr -> Prop) :
  P [] ->
  (forall h l s, is_high h = true -> is_low l = true -> P s -> P (h :: l :: s)) ->
  (forall c s, glued c s = false -> P s -> P (c :: s)) ->
  forall s, P s.
Proof.
  intros H0 H1 H2 s. induction s as [|c|c d s IH IH'] using jstr_ind2.
  - done.
  - apply H2; [|done]. unfold glued. by rewrite andb_false_r.
  - destruct (glued c (d :: s)) eqn:Hg; [|by apply H2].
    apply glued_true in Hg as (? & ? & [= <- <-] & ? & ?). by apply H1.
Qed.

(** Deciding that a list is a string of code units. *)
Definition all_units (s : jstr) : bool := forallb (fun c => (0 <=? c) && (c <? 65536)) s.

Lemma all_units_spec s : all_units s = true -> Forall is_unit s.
Proof.
  unfold all_units. intros H. rewrite forallb_forall in H.
  apply Forall_forall. intros c Hc. apply list_elem_of_In, H in Hc.
  unfold is_unit. bool_to_prop. lia.
Qed.

(** ** Strings rebuilt from code points *)

Lemma units_of_app a b : units_of (a ++ b) = units_of a ++ units_of b.
Proof. apply bind_app. Qed.

Lemma cp_units_pair h l :
  is_high h = true -> is_low l = true -> cp_units (pair_cp h l) = [h; l].
Proof.
  intros Hh Hl. unfold cp_units, pair_cp, is_high, is_low in *. bool_to_prop.
  solve_tests. f_equal; [|f_equal]; euclid.
Qed.

Lemma cp_units_last cp t :
  is_scalar cp ->
  match last (cp_units cp) with Some c => glued c t | None => false end = false.
Proof.
  intros [Hr Hs]. unfold cp_units, glued, is_high.
  destruct (Z.leb_spec cp 65535); simpl.
  - destruct (Z.leb_spec 55296 cp), (Z.leb_spec cp 56319); simpl; try done. lia.
  - assert (0 <= (cp - 65536) mod 1024) by euclid.
    destruct (Z.leb_spec (56320 + (cp - 65536) mod 1024) 56319); [lia|].
    by rewrite andb_false_r.
Qed.

Lemma code_points_cp_units cp : is_scalar cp -> code_points (cp_units cp) = [cp].
Proof.
  intros [Hr Hs]. unfold cp_units. destruct (Z.leb_spec cp 65535).
  - simpl. unfold is_high, is_low.
    destruct (Z.leb_spec 55296 cp), (Z.leb_spec cp 56319),
      (Z.leb_spec 56320 cp), (Z.leb_spec cp 57343); simpl; try done; lia.
  - rewrite code_points_pair; unfold is_high, is_low, pair_cp;
      [|rewrite andb_true_iff, !Z.leb_le; euclid..].
    simpl. f_equal. euclid.
Qed.

Lemma code_points_units_of cps :
  Forall is_scalar cps -> code_points (units_of cps) = cps.
Proof.
  induction 1 as [|cp cps Hc HF IH]; [done|].
  unfold units_of. rewrite bind_cons, code_points_app by (by apply cp_units_last).
  rewrite code_points_cp_units by done. simpl. f_equal. apply IH.
Qed.

Lemma byteLength_units_of cps :
  Forall is_scalar cps -> Buffer_byteLength (units_of cps) = sum_sizes cps.
Proof. intros H. by rewrite byteLength_sum, code_points_units_of. Qed.

(** The longest suffix of whole characters within a byte budget. *)
Fixpoint longest_fit (budget : Z) (cps : list Z) : list Z :=
  match cps with
  | [] => []
  | _ :: r => if sum_sizes cps <=? budget then cps else longest_fit budget r
  end.

Lemma longest_fit_suffix budget cps : longest_fit budget cps `suffix_of` cps.
Proof.
  induction cps as [|c r IH]; [done|]. cbn [longest_fit].
  destruct (sum_sizes (c :: r) <=? budget); [done|]. by apply suffix_cons_r.
Qed.

Lemma longest_fit_size budget cps :
  0 <= budget -> sum_sizes (longest_fit budget cps) <= budget.
Proof.
  intros Hb. induction cps as [|c r IH]; [done|]. cbn [longest_fit].
  destruct (Z.leb_spec (sum_sizes (c :: r)) budget); done.
Qed.

(** A suffix that fits while one more character would not is the longest. *)
Lemma longest_fit_unique budget a cp b :
  sum_sizes b <= budget -> budget < cp_size cp + sum_sizes b ->
  longest_fit budget (a ++ cp :: b) = b.
Proof.
  intros Hb Hc. induction a as [|x a IH]; cbn [longest_fit app].
  - rewrite (proj2 (Z.leb_gt _ _)) by (simpl; lia).
    destruct b as [|y b]; [done|]. cbn [longest_fit].
    by rewrite (proj2 (Z.leb_le _ _)).
  - rewrite (proj2 (Z.leb_gt _ _)); [apply IH|].
    simpl. rewrite sum_sizes_app. simpl.
    pose proof (sum_sizes_nonneg a). pose proof (cp_size_pos x). lia.
Qed.

Lemma longest_fit_all budget cps :
  sum_sizes cps <= budget -> longest_fit budget cps = cps.
Proof.
  intros H. destruct cps as [|c r]; [done|]. cbn [longest_fit].
  by rewrite (proj2 (Z.leb_le _ _)).
Qed.

Lemma longest_fit_none budget cps : budget <= 0 -> longest_fit budget cps = [].
Proof.
  intros Hb. induction cps as [|c r IH]; [done|]. cbn [longest_fit].
  rewrite (proj2 (Z.leb_gt _ _)); [done|]. simpl.
  pose proof (sum_sizes_nonneg r). pose proof (cp_size_pos c). lia.
Qed.

(** ** Cutting the encoded bytes at a character boundary *)

(** [(b & 192) === 128] *)
Definition is_continuation (b : Z) : bool := Z.land b 192 =? 128.

Lemma is_continuation_spec b :
  0 <= b < 256 -> is_continuation b = (128 <=? b) && (b <? 192).
Proof.
  intros Hb.
  assert (H : forallb (fun n => Bool.eqb (is_continuation (Z.of_nat n))
                ((128 <=? Z.of_nat n) && (Z.of_nat n <? 192))) (seq 0 256) = true)
    by (vm_compute; reflexivity).
  rewrite forallb_forall in H. specialize (H (Z.to_nat b)).
  rewrite Z2Nat.id in H by lia. apply Bool.eqb_prop, H, in_seq. lia.
Qed.

Lemma cp_bytes_shape cp :
  is_scalar cp -> exists lead conts, cp_bytes cp = lead :: conts /\
    is_continuation lead = false /\ Forall (fun b => is_continuation b = true) conts.
Proof.
  intros [Hr Hs]. unfold cp_bytes.
  destruct (Z.leb_spec cp 127); [|destruct (Z.leb_spec cp 2047);
    [|destruct (Z.leb_spec cp 65535)]]; eexists _, _; (split; [reflexivity|]);
    (split; [|repeat constructor]);
    rewrite is_continuation_spec by euclid;
    rewrite ?andb_true_iff, ?andb_false_iff, ?Z.leb_le, ?Z.ltb_lt, ?Z.leb_gt, ?Z.ltb_ge;
    euclid.
Qed.

Lemma skip_continuation_lead cps :
  Forall is_scalar cps ->
  drop_while is_continuation (cps ≫= cp_bytes) = cps ≫= cp_bytes.
Proof.
  intros HF. destruct HF as [|c r Hc HF]; [done|]. rewrite bind_cons.
  destruct (cp_bytes_shape c Hc) as (lead & conts & -> & Hl & _). simpl. by rewrite Hl.
Qed.

Lemma drop_while_all {A} (f : A -> bool) p l :
  Forall (fun x => f x = true) p -> drop_while f (p ++ l) = drop_while f l.
Proof. induction 1 as [|x p Hx HF IH]; [done|]. simpl. by rewrite Hx. Qed.

(** Dropping bytes off the front and then the rest of the character they cut
    leaves the longest run of whole characters within the budget. *)
Lemma skip_continuation_fit max cps :
  Forall is_scalar cps -> 0 <= max < sum_sizes cps ->
  drop_while is_continuation
    (drop (Z.to_nat (sum_sizes cps - max)) (cps ≫= cp_bytes)) =
  longest_fit max cps ≫= cp_bytes.
Proof.
  induction 1 as [|c r Hc HF IH]; intros Hm; [simpl in Hm; lia|].
  cbn [longest_fit]. rewrite (proj2 (Z.leb_gt _ _)) by lia. rewrite bind_cons.
  pose proof (length_cp_bytes c) as Hlen. cbn [sum_sizes] in *.
  pose proof (sum_sizes_nonneg r).
  destruct (Z_lt_le_dec max (sum_sizes r)) as [Hlt|Hge].
  - rewrite drop_app_ge by lia. rewrite <- IH by lia. do 2 f_equal. lia.
  - rewrite longest_fit_all by done.
    destruct (cp_bytes_shape c Hc) as (lead & conts & Hb & Hl & Hconts).
    rewrite drop_app_le by lia. rewrite drop_while_all; [by apply skip_continuation_lead|].
    rewrite Hb. replace (Z.to_nat (cp_size c + sum_sizes r - max))
      with (S (Z.to_nat (cp_size c + sum_sizes r - max - 1))) by lia.
    simpl. by apply Forall_drop.
Qed.

(** ** [TextDecoder] *)

(** [new TextDecoder()] removes a byte order mark at the start of a stream; it
    keeps the state of a character that is not complete and whether the start
    of the stream is behind it. *)
Record text_decoder := TextDecoder { td_state : dec_state; td_bomSeen : bool }.

Definition td_new : text_decoder := TextDecoder dec_init false.

Definition BOM : Z := 65279.

(** What is left of the characters of one call, and [BOM seen] after it. *)
Definition strip_bom (bomSeen : bool) (cps : list Z) : list Z * bool :=
  if bomSeen then (cps, true)
  else match cps with
       | [] => ([], false)
       | cp :: r => if cp =? BOM then (r, true) else (cps, true)
       end.

(** [decoder.decode(chunk, { stream: true })] *)
Definition td_stream (d : text_decoder) (chunk : list Z) : jstr * text_decoder :=
  let '(out, st) := dec_run (td_state d) chunk in
  let '(kept, seen) := strip_bom (td_bomSeen d) out in
  (units_of kept, TextDecoder st seen).

(** [decoder.decode()] ends the stream; the next call starts another. *)
Definition td_end (d : text_decoder) : jstr * text_decoder :=
  (units_of (strip_bom (td_bomSeen d) (dec_flush (td_state d))).1, td_new).

(** [new TextDecoder().decode(bytes)] of a whole input. *)
Definition td_decode (bytes : list Z) : jstr := units_of (strip_bom false (decode_cps bytes)).1.

Lemma strip_bom_app seen a b :
  strip_bom seen (a ++ b) =
  let '(o1, s1) := strip_bom seen a in
  let '(o2, s2) := strip_bom s1 b in (o1 ++ o2, s2).
Proof.
  destruct seen; [done|]. destruct a as [|x a]; simpl; [by destruct b as [|y b]; simpl; [|destruct (y =? BOM)]|].
  by destruct (x =? BOM).
Qed.

Lemma strip_bom_suffix seen cps : (strip_bom seen cps).1 `suffix_of` cps.
Proof.
  destruct seen, cps as [|c r]; simpl; try done.
  destruct (c =? BOM); simpl; [by apply suffix_cons_r|done].
Qed.

(** A suffix of a sequence of characters loses at most one mark of three bytes. *)
Lemma strip_bom_size seen cps : sum_sizes cps - 3 <= sum_sizes (strip_bom seen cps).1.
Proof.
  destruct seen, cps as [|c r]; cbn [strip_bom fst sum_sizes]; try lia.
  destruct (Z.eqb_spec c BOM) as [->|]; cbn [fst sum_sizes]; [|lia].
  change (cp_size BOM) with 3. lia.
Qed.

(** What the decoder puts out are scalar values. *)
Definition dec_inv (st : dec_state) : Prop :=
  match d_need st with
  | O => True
  | S n => (n <= 2)%nat /\ 0 <= d_cp st /\ 128 <= d_lo st /\ d_hi st <= 191 /\
      forall b, d_lo st <= b <= d_hi st ->
        let lo := (d_cp st * 64 + (b - 128)) * 64 ^ Z.of_nat n in
        let hi := (d_cp st * 64 + (b - 128) + 1) * 64 ^ Z.of_nat n in
        hi <= 1114112 /\ (hi <= 55296 \/ 57344 <= lo)
  end.

Lemma dec_start_inv b :
  0 <= b -> Forall is_scalar (dec_start b).1 /\ dec_inv (dec_start b).2.
Proof.
  intros Hb. unfold dec_start.
  destruct (Z.leb_spec b 127).
  { split; [|done]. constructor; [unfold is_scalar; lia|constructor]. }
  destruct ((194 <=? b) && (b <=? 223)) eqn:E2.
  { bool_to_prop. split; [constructor|]. unfold dec_inv. simpl. repeat split; lia. }
  destruct ((224 <=? b) && (b <=? 239)) eqn:E3.
  { bool_to_prop. split; [constructor|]. unfold dec_inv. simpl.
    destruct (Z.eqb_spec b 224), (Z.eqb_spec b 237); repeat split; try lia; intros; lia. }
  destruct ((240 <=? b) && (b <=? 244)) eqn:E4.
  { bool_to_prop. split; [constructor|]. unfold dec_inv. simpl.
    destruct (Z.eqb_spec b 240), (Z.eqb_spec b 244); repeat split; try lia; intros; lia. }
  split; [|done]. constructor; [unfold is_scalar, REPLACEMENT; lia|constructor].
Qed.

Lemma dec_byte_inv st b :
  0 <= b -> dec_inv st -> Forall is_scalar (dec_byte st b).1 /\ dec_inv (dec_byte st b).2.
Proof.
  intros Hb Hst. unfold dec_byte. destruct (d_need st) as [|n] eqn:En; [by apply dec_start_inv|].
  unfold dec_inv in Hst. rewrite En in Hst. destruct Hst as (Hn & Hcp & Hlo & Hhi & Hall).
  destruct ((d_lo st <=? b) && (b <=? d_hi st)) eqn:Hr.
  - bool_to_prop. specialize (Hall b ltac:(lia)). cbv zeta in Hall.
    destruct n as [|[|[|n]]]; try lia; cbn [fst snd]; (split; [|try done]).
    + simpl in Hall. constructor; [unfold is_scalar; lia|constructor].
    + constructor.
    + unfold dec_inv. simpl in *. repeat split; try lia; intros; lia.
    + constructor.
    + unfold dec_inv. simpl in *. repeat split; try lia; intros; lia.
  - destruct (dec_start_inv b Hb) as [H1 H2]. destruct (dec_start b) as [o s].
    split; [|done]. constructor; [unfold is_scalar, REPLACEMENT; lia|done].
Qed.

Lemma dec_run_inv st bs :
  Forall (fun b => 0 <= b) bs -> dec_inv st ->
  Forall is_scalar (dec_run st bs).1 /\ dec_inv (dec_run st bs).2.
Proof.
  intros HF; revert st; induction HF as [|b bs Hb HF IH]; intros st Hst; [done|].
  simpl. destruct (dec_byte_inv st b Hb Hst) as [H1 H2].
  destruct (dec_byte st b) as [o1 s1]. destruct (IH s1 H2) as [H3 H4].
  destruct (dec_run s1 bs) as [o2 s2]. split; [by apply Forall_app|done].
Qed.

Lemma dec_flush_scalar st : Forall is_scalar (dec_flush st).
Proof.
  unfold dec_flush. destruct (d_need st); [constructor|].
  constructor; [unfold is_scalar, REPLACEMENT; lia|constructor].
Qed.

Lemma decode_cps_scalar bs : Forall (fun b => 0 <= b) bs -> Forall is_scalar (decode_cps bs).
Proof.
  intros HF. unfold decode_cps. destruct (dec_run_inv dec_init bs HF) as [H _]; [done|].
  destruct (dec_run dec_init bs). apply Forall_app. split; [done|apply dec_flush_scalar].
Qed.
