(* ===== verification/Numbers.v ===== *)
(** Numbers: the IEEE double a numeric string denotes, as JavaScript's
    [Number(s)] computes it, with the predicates and roundings the modelled
    code applies to the result.  A finite double is its exact rational value;
    the two zeros are one value, since no modelled code tells them apart. *)
From S2P Require Import Prelude.
From Stdlib Require Export QArith Qround.
Open Scope Z_scope.

Inductive jsnum : Type :=
| NaN
| Infinite (negative : bool)
| Finite (q : Q).

#[export] Instance Q_eq_dec : EqDecision Q.
Proof. intros [n d] [n' d']. unfold Decision. decide equality; solve_decision. Defined.
#[export] Instance jsnum_eq_dec : EqDecision jsnum.
Proof. solve_decision. Defined.

(** * Rounding to the nearest double *)

(** [num / den] rounded to an integer, ties to even; [den] is positive. *)
Definition round_even (num den : Z) : Z :=
  let f := num / den in
  let r := 2 * (num mod den) in
  if r <? den then f
  else if den <? r then f + 1
  else if Z.even f then f else f + 1.

(** [m * 2^e] *)
Definition scale2 (m e : Z) : Q :=
  if 0 <=? e then inject_Z (m * 2 ^ e) else Qred (m # Z.to_pos (2 ^ (- e))).

(** The exponent of the last place of the double nearest to [num / den > 0]:
    a 53-bit significand, no smaller than the subnormals allow. *)
Definition ulp_exponent (num den : Z) : Z :=
  let e0 := Z.log2 num - Z.log2 den - 52 in
  let small := (* num / den < 2^(e0 + 52) *)
    if 0 <=? e0 + 52 then num <? den * 2 ^ (e0 + 52) else num * 2 ^ (- (e0 + 52)) <? den in
  Z.max (-1074) (if small then e0 - 1 else e0).

Definition round_double (negative : bool) (num den : Z) : jsnum :=
  if num =? 0 then Finite 0
  else
    let e := ulp_exponent num den in
    let m := if 0 <=? e then round_even num (den * 2 ^ e) else round_even (num * 2 ^ (- e)) den in
    if 2 ^ 1024 <=? (if 0 <=? e then m * 2 ^ e else m / 2 ^ (- e)) then Infinite negative
    else Finite (scale2 (if negative then - m else m) e).

(** * [Number(s)] *)

Definition is_digit (c : Z) : bool := (48 <=? c) && (c <=? 57).

(** Value of a digit in bases up to 16. *)
Definition digit_value (c : Z) : option Z :=
  if is_digit c then Some (c - 48)
  else if (97 <=? c) && (c <=? 102) then Some (c - 87)
  else if (65 <=? c) && (c <=? 70) then Some (c - 55)
  else None.

Fixpoint parse_base (base acc : Z) (s : jstr) : option Z :=
  match s with
  | [] => Some acc
  | c :: r =>
      match digit_value c with
      | Some d => if d <? base then parse_base base (acc * base + d) r else None
      | None => None
      end
  end.

(** The longest prefix of decimal digits, and the rest. *)
Fixpoint span_digits (s : jstr) : jstr * jstr :=
  match s with
  | c :: r => if is_digit c then let '(d, t) := span_digits r in (c :: d, t) else ([], s)
  | [] => ([], [])
  end.

Definition digits_value (s : jstr) : Z := foldl (fun acc c => acc * 10 + (c - 48)) 0 s.

(** An optional sign: [true] for minus. *)
Definition parse_sign (s : jstr) : bool * jstr :=
  match s with
  | 43 :: r => (false, r)
  | 45 :: r => (true, r)
  | _ => (false, s)
  end.

(** The exponent part; [None] when what is left is not one. *)
Definition parse_exponent (s : jstr) : option Z :=
  match s with
  | [] => Some 0
  | c :: r =>
      if (c =? 101) || (c =? 69) then
        let '(neg, r') := parse_sign r in
        let '(d, t) := span_digits r' in
        match d, t with
        | _ :: _, [] => Some (if neg then - digits_value d else digits_value d)
        | _, _ => None
        end
      else None
  end.

Definition parse_unsigned (negative : bool) (s : jstr) : jsnum :=
  if streq s (js "Infinity") then Infinite negative
  else
    let '(ip, r) := span_digits s in
    let '(fp, r') := match r with 46 :: t => span_digits t | _ => ([], r) end in
    match ip ++ fp with
    | [] => NaN
    | ds =>
        match parse_exponent r' with
        | None => NaN
        | Some x =>
            let e := x - Z.of_nat (length fp) in
            let n := digits_value ds in
            if 0 <=? e then round_double negative (n * 10 ^ e) 1
            else round_double negative n (10 ^ (- e))
        end
    end.

Definition Number (str : jstr) : jsnum :=
  let s := trim str in
  let radix base t :=
    match t with
    | [] => NaN
    | _ => match parse_base base 0 t with Some n => round_double false n 1 | None => NaN end
    end in
  match s with
  | [] => Finite 0
  | 48 :: c :: t =>
      if (c =? 120) || (c =? 88) then radix 16 t
      else if (c =? 111) || (c =? 79) then radix 8 t
      else if (c =? 98) || (c =? 66) then radix 2 t
      else parse_unsigned false s
  | _ => let '(neg, r) := parse_sign s in parse_unsigned neg r
  end.

(** [Number.parseFloat(s)]: the longest prefix that is a decimal literal. *)
Definition parseFloat (str : jstr) : jsnum :=
  let '(neg, s) := parse_sign (trim_start str) in
  if starts_with (js "Infinity") s then Infinite neg
  else
    let '(ip, r) := span_digits s in
    let '(fp, r') := match r with 46 :: t => span_digits t | _ => ([], r) end in
    match ip ++ fp with
    | [] => NaN
    | ds =>
        let x := match r' with
                 | c :: t =>
                     if (c =? 101) || (c =? 69) then
                       let '(xneg, t1) := parse_sign t in
                       let '(d, _) := span_digits t1 in
                       if xneg then - digits_value d else digits_value d
                     else 0
                 | [] => 0
                 end in
        let e := x - Z.of_nat (length fp) in
        let n := digits_value ds in
        if 0 <=? e then round_double neg (n * 10 ^ e) 1 else round_double neg n (10 ^ (- e))
    end.

(** The double nearest to a rational: the result of one arithmetic operation. *)
Definition fl (q : Q) : jsnum := round_double (Qnum q <? 0) (Z.abs (Qnum q)) (Zpos (Qden q)).

(** [a * b], [a + b], [a - b] on finite doubles. *)
Definition fmul (a b : Q) : jsnum := fl (a * b).
Definition fadd (a b : Q) : jsnum := fl (a + b).
Definition fsub (a b : Q) : jsnum := fl (a - b).
Definition fdiv (a b : Q) : jsnum := fl (a / b).

(** [a > b], [a >= b] on numbers; comparisons with [NaN] are false. *)
Definition num_gt (a b : jsnum) : bool :=
  match a, b with
  | Finite x, Finite y => negb (Qle_bool x y)
  | Infinite false, Finite _ | Infinite false, Infinite true | Finite _, Infinite true => true
  | _, _ => false
  end.
Definition num_ge (a b : jsnum) : bool :=
  match a, b with
  | Finite x, Finite y => Qle_bool y x
  | Infinite false, Finite _ | Infinite false, Infinite _ => true
  | Finite _, Infinite true | Infinite true, Infinite true => true
  | _, _ => false
  end.

Definition isInteger (n : jsnum) : bool :=
  match n with Finite q => (Qnum q mod Zpos (Qden q) =? 0) | _ => false end.
Definition isFinite (n : jsnum) : bool := match n with Finite _ => true | _ => false end.

(** [Math.floor], [Math.ceil] of a finite value. *)
Definition floor (q : Q) : Z := Qfloor q.
Definition ceil (q : Q) : Z := Qceiling q.

(** * Facts *)

Example number_ex1 : Number (js "8090") = Finite (8090 # 1). Proof. reflexivity. Qed.
Example number_ex2 : Number (js " 0x1F90 ") = Finite (8080 # 1). Proof. reflexivity. Qed.
Example number_ex3 : Number (js "") = Finite 0. Proof. reflexivity. Qed.
Example number_ex4 : Number (js "12a") = NaN. Proof. reflexivity. Qed.
Example number_ex5 : Number (js "8e1") = Finite (80 # 1). Proof. reflexivity. Qed.
Example number_ex6 : Number (js "0.1") = Finite (3602879701896397 # 36028797018963968).
Proof. vm_compute. reflexivity. Qed.
Example number_ex7 : Number (js "-1.5e-1") = Finite (- 5404319552844595 # 36028797018963968).
Proof. vm_compute. reflexivity. Qed.
Example number_ex8 : Number (js "1e400") = Infinite false. Proof. vm_compute. reflexivity. Qed.
Example number_ex9 : Number (js "9007199254740993") = Finite (9007199254740992 # 1).
Proof. vm_compute. reflexivity. Qed.
Example number_ex10 : Number (js "5e-324") = Finite (scale2 1 (-1074)).
Proof. vm_compute. reflexivity. Qed.

Lemma round_even_div num den : 0 < den -> num mod den = 0 -> round_even num den = num / den.
Proof.
  intros Hd Hm. unfold round_even. rewrite Hm, Z.mul_0_r.
  by rewrite (proj2 (Z.ltb_lt 0 den)).
Qed.

(** Integers of at most 53 bits are doubles. *)
Lemma round_double_int n :
  0 <= n < 2 ^ 53 -> round_double false n 1 = Finite (inject_Z n).
Proof.
  intros Hn. unfold round_double.
  destruct (Z.eqb_spec n 0) as [->|Hnz]; [done|].
  assert (0 < n) as Hpos by lia.
  pose proof (Z.log2_spec n Hpos) as [Hlo Hhi].
  assert (Z.log2 n <= 52) as Hlog.
  { assert (Z.log2 n < 53); [|lia]. apply Z.log2_lt_pow2; lia. }
  pose proof (Z.log2_nonneg n).
  set (e := ulp_exponent n 1).
  assert (e = Z.log2 n - 52) as He.
  { unfold e, ulp_exponent. change (Z.log2 1) with 0.
    replace (Z.log2 n - 0 - 52 + 52) with (Z.log2 n) by lia.
    rewrite (proj2 (Z.leb_le 0 (Z.log2 n))) by lia. rewrite Z.mul_1_l.
    rewrite (proj2 (Z.ltb_ge n (2 ^ Z.log2 n))) by lia. lia. }
  assert (forall k, 0 <= k -> (n * 2 ^ k) mod 1 = 0) as Hmod by (intros; apply Z.mod_1_r).
  assert (n < 2 ^ 1024) as Hbig.
  { assert (2 ^ 53 < 2 ^ 1024) by (apply Z.pow_lt_mono_r; lia). lia. }
  destruct (Z.leb_spec 0 e) as [Hge|Hlt].
  - assert (e = 0) as -> by lia. rewrite round_even_div by (rewrite ?Z.mod_1_r; lia).
    rewrite Z.mul_1_l, Z.div_1_r. change (2 ^ 0) with 1. rewrite Z.mul_1_r.
    rewrite (proj2 (Z.leb_gt _ _)) by lia. unfold scale2. simpl. by rewrite Z.mul_1_r.
  - assert (0 < 2 ^ (- e)) by (apply Z.pow_pos_nonneg; lia).
    rewrite round_even_div by (rewrite ?Z.mod_1_r; lia). rewrite Z.div_1_r.
    rewrite Z.div_mul by lia. rewrite (proj2 (Z.leb_gt _ _)) by lia.
    unfold scale2. rewrite (proj2 (Z.leb_gt 0 e)) by lia. f_equal.
    transitivity (Qred (inject_Z n)).
    + apply Qred_complete. unfold Qeq, inject_Z. simpl. rewrite Z2Pos.id by lia. lia.
    + unfold Qred, inject_Z. pose proof (Z.ggcd_gcd n 1) as Hg.
      pose proof (Z.ggcd_correct_divisors n 1) as Hc.
      destruct (Z.ggcd n 1) as [g [aa bb]]. simpl in *.
      rewrite Z.gcd_1_r in Hg. subst g. destruct Hc as [-> Hb].
      rewrite Z.mul_1_l in *. by subst bb.
Qed.

(** ** Decimal numerals *)

Definition is_digits (s : jstr) : Prop := Forall (fun c => is_digit c = true) s.

Lemma js_cons c s : js (String.String c s) = Z.of_N (Ascii.N_of_ascii c) :: js s.
Proof. done. Qed.

Lemma digits_value_snoc ds c : digits_value (ds ++ [c]) = digits_value ds * 10 + (c - 48).
Proof. unfold digits_value. by rewrite foldl_app. Qed.

Lemma pretty_N_char_code d :
  (d < 10)%N -> Z.of_N (Ascii.N_of_ascii (pretty_N_char d)) = 48 + Z.of_N d.
Proof.
  intros Hd. destruct d as [|d]; [done|].
  do 4 (destruct d as [d|d|]; try done; try lia).
Qed.

Lemma pretty_N_go_digits (x : N) s :
  exists ds, js (pretty_N_go x s) = ds ++ js s /\ is_digits ds /\
    digits_value ds = Z.of_N x /\ (x ≠ 0%N -> exists c r, ds = c :: r /\ c ≠ 48).
Proof.
  revert s. induction (N.lt_wf_0 x) as [x _ IH]; intros s.
  destruct (decide (x = 0)%N) as [->|Hx].
  - exists []. rewrite pretty_N_go_0. repeat split; try done. constructor.
  - rewrite pretty_N_go_step by lia.
    destruct (IH (x / 10)%N) with (s := String.String (pretty_N_char (x mod 10)) s)
      as (ds & Hds & HF & Hv & Hnz).
    { apply N.div_lt; lia. }
    assert (x mod 10 < 10)%N by (apply N.mod_lt; lia).
    pose proof (N.div_mod x 10 ltac:(lia)) as Hdm.
    remember (x mod 10)%N as d eqn:Hd; clear Hd.
    rewrite js_cons, pretty_N_char_code in Hds by done.
    exists (ds ++ [48 + Z.of_N d]). split; [by rewrite Hds, <- app_assoc|].
    split; [|split].
    + apply Forall_app. split; [done|]. constructor; [|constructor].
      unfold is_digit. apply andb_true_iff. split; apply Z.leb_le; lia.
    + rewrite digits_value_snoc, Hv.
      lia.
    + intros _. destruct (decide (x / 10 = 0)%N) as [Hq|Hq].
      * rewrite Hq in Hds, Hv. destruct ds as [|c r].
        -- exists (48 + Z.of_N d), []. split; [done|].
           lia.
        -- exfalso. rewrite pretty_N_go_0, js_cons in Hds.
           apply (f_equal length) in Hds. rewrite length_app in Hds. cbn [length] in Hds. lia.
      * destruct (Hnz Hq) as (c & r & -> & Hc). by exists c, (r ++ [48 + Z.of_N d]).
Qed.

(** What [String(n)] prints for [n >= 0]: its decimal digits. *)
Lemma num_str_digits n :
  0 <= n -> is_digits (num_str n) /\ digits_value (num_str n) = n /\ num_str n ≠ [] /\
    (n ≠ 0 -> exists c r, num_str n = c :: r /\ c ≠ 48).
Proof.
  intros Hn. destruct n as [|p|p]; [|clear Hn|lia].
  - change (num_str 0) with [48]. repeat split; try done. by repeat constructor.
  - change (num_str (Z.pos p)) with (js (pretty_N_go (N.pos p) "")).
    destruct (pretty_N_go_digits (N.pos p) "") as (ds & Hds & HF & Hv & Hnz).
    change (js "") with (@nil Z) in Hds. rewrite app_nil_r in Hds. rewrite Hds.
    destruct Hnz as (c & r & -> & Hc); [done|].
    repeat split; try done. intros _. eauto.
Qed.

Lemma span_digits_all s : is_digits s -> span_digits s = (s, []).
Proof. induction 1 as [|c s Hc HF IH]; simpl; [done|]. by rewrite Hc, IH. Qed.

Lemma is_digit_not_space c : is_digit c = true -> is_space c = false.
Proof.
  unfold is_digit, is_space. intros H. bool_to_prop.
  repeat (apply orb_false_iff; split); first [apply andb_false_iff | idtac];
    rewrite ?Z.leb_gt, ?Z.eqb_neq; lia.
Qed.

Lemma trim_digits s : is_digits s -> trim s = s.
Proof.
  intros HF. assert (forall t, is_digits t -> drop_while is_space t = t) as Hd.
  { intros t Ht. destruct Ht as [|c t Hc Ht]; simpl; [done|]. by rewrite is_digit_not_space. }
  unfold trim, trim_end, trim_start. rewrite (Hd s) by done.
  rewrite Hd by (by apply Forall_rev). apply rev_involutive.
Qed.

Lemma num_str_no c n : 0 <= n -> is_digit c = false -> c ∉ num_str n.
Proof.
  intros Hn Hc Hin. destruct (num_str_digits n Hn) as (HF & _).
  unfold is_digits in HF. rewrite Forall_forall in HF. by rewrite (HF c Hin) in Hc.
Qed.

(** [Number] reads back the integers [String] prints. *)
Lemma Number_num_str n : 0 <= n < 2 ^ 53 -> Number (num_str n) = Finite (inject_Z n).
Proof.
  intros Hn. destruct (num_str_digits n) as (HF & Hv & Hne & Hz); [lia|].
  unfold Number. rewrite trim_digits by done.
  assert (parse_unsigned false (num_str n) = Finite (inject_Z n)) as Hp.
  { unfold parse_unsigned.
    destruct (streq (num_str n) (js "Infinity")) eqn:Hs.
    { apply streq_true in Hs. rewrite Hs in HF. inversion HF; subst. discriminate. }
    rewrite span_digits_all by done. rewrite app_nil_r. simpl.
    destruct (num_str n) as [|c r] eqn:E; [done|]. rewrite Hv.
    change (10 ^ 0) with 1. rewrite Z.mul_1_r. by apply round_double_int. }
  destruct (decide (n = 0)) as [->|Hnz]; [done|].
  destruct (Hz Hnz) as (c & r & E & Hc). rewrite E in *.
  assert (parse_sign (c :: r) = (false, c :: r)) as Hsg.
  { inversion HF; subst. unfold is_digit in *. bool_to_prop. unfold parse_sign.
    repeat case_match; try done; lia. }
  destruct (decide (c = 48)); [done|]. 
  repeat (case_match; try done; try (by rewrite Hsg)).
Qed.

Lemma num_str_inj_nonneg a b : 0 <= a -> 0 <= b -> num_str a = num_str b -> a = b.
Proof.
  intros Ha Hb E. destruct (num_str_digits a Ha) as (_ & <- & _).
  destruct (num_str_digits b Hb) as (_ & <- & _). by rewrite E.
Qed.

(** ** Rounding does not cross an integer *)

Lemma round_even_le num den k : 0 < den -> num <= k * den -> round_even num den <= k.
Proof.
  intros Hd Hn. unfold round_even. pose proof (Z.div_mod num den ltac:(lia)).
  pose proof (Z.mod_pos_bound num den Hd).
  destruct (Z.eq_dec (num / den) k) as [E|E].
  - assert (num mod den = 0) as -> by nia. rewrite (proj2 (Z.ltb_lt _ _)) by lia. lia.
  - assert (num / den < k) by nia. destruct (_ <? den); [lia|]. destruct (den <? _); [lia|].
    destruct (Z.even _); lia.
Qed.

Lemma round_even_nonneg num den : 0 < den -> 0 <= num -> 0 <= round_even num den.
Proof.
  intros Hd Hn. unfold round_even. pose proof (Z.div_pos num den Hn Hd).
  destruct (_ <? den); [lia|]. destruct (den <? _); [lia|]. destruct (Z.even _); lia.
Qed.

Lemma ulp_exponent_nonpos num den :
  0 < num -> 0 < den -> num < den * 2 ^ 53 -> ulp_exponent num den <= 0.
Proof.
  intros Hn Hd Hlt. unfold ulp_exponent.
  assert (Z.log2 num <= Z.log2 den + 53) as Hlog.
  { rewrite Z.add_comm, <- (Z.log2_mul_pow2 den 53) by lia. apply Z.log2_le_mono. lia. }
  apply Z.max_lub; [lia|].
  destruct (Z.eq_dec (Z.log2 num - Z.log2 den - 52) 1) as [->|Hne].
  - change (0 <=? 1 + 52) with true. cbn iota. change (1 + 52) with 53.
    rewrite (proj2 (Z.ltb_lt _ _)) by done. lia.
  - repeat case_match; lia.
Qed.

(** A positive result of an operation whose exact value is at most [n] is at
    most [n]. *)
Lemma fl_le (q : Q) (n : Z) :
  (0 < q)%Q -> (q <= inject_Z n)%Q -> n < 2 ^ 53 -> num_gt (fl q) (Finite (inject_Z n)) = false.
Proof.
  destruct q as [num den]. unfold Qlt, Qle. cbn [Qnum Qden inject_Z]. rewrite Z.mul_1_r. intros Hp Hle Hn.
  unfold fl. cbn [Qnum Qden]. rewrite (proj2 (Z.ltb_ge _ _)) by lia. rewrite Z.abs_eq by lia.
  unfold round_double. rewrite (proj2 (Z.eqb_neq _ _)) by lia.
  pose proof (ulp_exponent_nonpos num (Zpos den) ltac:(lia) ltac:(lia) ltac:(nia)) as He.
  set (e := ulp_exponent num (Zpos den)) in *. clearbody e.
  destruct (Z.eq_dec e 0) as [->|Hne].
  - cbn [Z.leb]. change (2 ^ 0) with 1. rewrite !Z.mul_1_r.
    pose proof (round_even_le num (Zpos den) n ltac:(lia) ltac:(lia)) as Hm.
    destruct (2 ^ 1024 <=? round_even num (Zpos den)) eqn:Eo.
    { apply Z.leb_le in Eo. assert (2 ^ 53 <= 2 ^ 1024) by (apply Z.pow_le_mono_r; lia). lia. }
    unfold scale2. change (0 <=? 0) with true. cbn iota. change (2 ^ 0) with 1. rewrite Z.mul_1_r, ?Eo.
    unfold num_gt. apply negb_false_iff, Qle_bool_iff. unfold Qle. cbn. lia.
  - rewrite (proj2 (Z.leb_gt 0 e)) by lia. assert (0 < 2 ^ (- e)) as Hpow by (apply Z.pow_pos_nonneg; lia).
    pose proof (round_even_le (num * 2 ^ (- e)) (Zpos den) (n * 2 ^ (- e)) ltac:(lia) ltac:(nia)) as Hm.
    set (m := round_even (num * 2 ^ (- e)) (Zpos den)) in *.
    assert (m / 2 ^ (- e) <= n) as Hq by (apply Z.div_le_upper_bound; lia).
    destruct (2 ^ 1024 <=? m / 2 ^ (- e)) eqn:Eo.
    { apply Z.leb_le in Eo. assert (2 ^ 53 <= 2 ^ 1024) by (apply Z.pow_le_mono_r; lia). lia. }
    unfold scale2. rewrite (proj2 (Z.leb_gt 0 e)) by lia.
    unfold num_gt. apply negb_false_iff, Qle_bool_iff. rewrite Qred_correct. unfold Qle. cbn [Qnum Qden inject_Z].
    rewrite Z2Pos.id by lia. lia.
Qed.

(** ** Operations on integers of at most 53 bits are exact *)

Lemma fl_int (q : Q) z : Qden q = 1%positive -> Qnum q = z -> 0 <= z < 2 ^ 53 -> fl q = Finite (inject_Z z).
Proof.
  intros Hd Hq Hz. unfold fl. rewrite Hq, Hd, (proj2 (Z.ltb_ge z 0)), Z.abs_eq by lia.
  by apply round_double_int.
Qed.

Lemma fadd_int a b : 0 <= a + b < 2 ^ 53 -> fadd (inject_Z a) (inject_Z b) = Finite (inject_Z (a + b)).
Proof. intros H. apply fl_int; [done|simpl; lia|done]. Qed.

Lemma fsub_int a b : 0 <= a - b < 2 ^ 53 -> fsub (inject_Z a) (inject_Z b) = Finite (inject_Z (a - b)).
Proof. intros H. apply fl_int; [done|simpl; lia|done]. Qed.

(** Rounding keeps the sign: a result is not positive when the exact value is
    not. *)
Lemma fl_nonpos (q : Q) (n : Z) : (q <= 0)%Q -> 0 <= n -> num_gt (fl q) (Finite (inject_Z n)) = false.
Proof.
  destruct q as [num den]. unfold Qle. cbn [Qnum Qden]. rewrite Z.mul_0_l, Z.mul_1_r. intros Hq Hn.
  unfold fl. cbn [Qnum Qden]. unfold round_double.
  assert (Hz : forall m, m <= 0 -> num_gt (Finite (inject_Z m)) (Finite (inject_Z n)) = false).
  { intros m Hm. unfold num_gt. apply negb_false_iff, Qle_bool_iff. unfold Qle. simpl. lia. }
  destruct (Z.eqb_spec (Z.abs num) 0) as [|Hne]; [apply (Hz 0); lia|].
  rewrite (proj2 (Z.ltb_lt num 0)) by lia. set (e := ulp_exponent _ _). clearbody e. cbv zeta.
  set (m := if 0 <=? e then round_even _ _ else round_even _ _).
  assert (0 <= m) as Hm.
  { unfold m. destruct (Z.leb_spec 0 e); apply round_even_nonneg; lia. }
  destruct (2 ^ 1024 <=? _); [done|]. unfold scale2. destruct (Z.leb_spec 0 e).
  - apply Hz. assert (0 < 2 ^ e) by (apply Z.pow_pos_nonneg; lia). lia.
  - unfold num_gt. apply negb_false_iff, Qle_bool_iff. rewrite Qred_correct. unfold Qle. cbn [Qnum Qden inject_Z].
    assert (0 < 2 ^ (- e)) by (apply Z.pow_pos_nonneg; lia). nia.
Qed.

Lemma num_ge_int a b : num_ge (Finite (inject_Z a)) (Finite (inject_Z b)) = (b <=? a).
Proof.
  unfold num_ge. destruct (Z.leb_spec b a); [by apply Qle_bool_iff; rewrite <- Zle_Qle|].
  apply not_true_iff_false. rewrite Qle_bool_iff, <- Zle_Qle. lia.
Qed.

Lemma num_gt_int a b : num_gt (Finite (inject_Z a)) (Finite (inject_Z b)) = (b <? a).
Proof.
  unfold num_gt. rewrite Z.ltb_antisym. f_equal.
  apply (num_ge_int b a).
Qed.
