(* ===== verification/Json.v ===== *)
(** JSON values, [JSON.stringify] and [JSON.parse], and the conversions the
    modelled code applies to JSON values.  How [Number.prototype.toString] prints
    a finite double is a parameter of the printer. *)
From S2P Require Import Prelude Numbers.
Open Scope Z_scope.

Inductive json : Type :=
| JNull
| JBool (b : bool)
| JNum (n : jsnum)
| JStr (s : jstr)
| JArr (l : list json)
| JObj (fields : list (jstr * json)).

(** Induction over the nested lists. *)
Section JsonInd.
Context (P : json -> Prop).
Context (Hnull : P JNull) (Hbool : forall b, P (JBool b)) (Hnum : forall n, P (JNum n))
  (Hstr : forall s, P (JStr s))
  (Harr : forall l, Forall P l -> P (JArr l))
  (Hobj : forall fs, Forall (fun kv => P kv.2) fs -> P (JObj fs)).

Fixpoint json_ind' (j : json) : P j :=
  match j with
  | JNull => Hnull
  | JBool b => Hbool b
  | JNum n => Hnum n
  | JStr s => Hstr s
  | JArr l =>
      Harr l ((fix go l : Forall P l :=
        match l with [] => Forall_nil_2 _ | x :: r => Forall_cons_2 _ x r (json_ind' x) (go r) end) l)
  | JObj fs =>
      Hobj fs ((fix go fs : Forall (fun kv => P kv.2) fs :=
        match fs with
        | [] => Forall_nil_2 _
        | (k, x) :: r => Forall_cons_2 (fun kv => P kv.2) (k, x) r (json_ind' x) (go r)
        end) fs)
  end.
End JsonInd.

(** Decidable equality (of the representation of numbers). *)
#[global] Instance json_eq_dec : EqDecision json.
Proof.
  refine (fix go (x y : json) {struct x} : {x = y} + {x ≠ y} := _).
  assert (goL : forall l l' : list json, {l = l'} + {l ≠ l'}).
  { intros l l'. revert l'.
    refine ((fix goL (l : list json) : forall l', {l = l'} + {l ≠ l'} := _) l).
    destruct l as [|a l]; intros [|b l']; [by left|by right|by right|].
    destruct (go a b) as [->|]; [|right; congruence].
    destruct (goL l l') as [->|]; [by left|right; congruence]. }
  assert (goF : forall l l' : list (jstr * json), {l = l'} + {l ≠ l'}).
  { intros l l'. revert l'.
    refine ((fix goF (l : list (jstr * json)) : forall l', {l = l'} + {l ≠ l'} := _) l).
    destruct l as [|[k a] l]; intros [|[k' b] l']; [by left|by right|by right|].
    destruct (decide (k = k')) as [->|]; [|right; congruence].
    destruct (go a b) as [->|]; [|right; congruence].
    destruct (goF l l') as [->|]; [by left|right; congruence]. }
  destruct x as [|b|q|s|l|fs], y as [|b'|q'|s'|l'|fs']; try (by right); [by left|..].
  - destruct (decide (b = b')) as [->|]; [by left|right; congruence].
  - destruct (decide (q = q')) as [->|]; [by left|right; congruence].
  - destruct (decide (s = s')) as [->|]; [by left|right; congruence].
  - destruct (goL l l') as [->|]; [by left|right; congruence].
  - destruct (goF fs fs') as [->|]; [by left|right; congruence].
Defined.

(** [o[key]] on an object: the last write of a key is the one field it has. *)
Fixpoint lookup_field (key : jstr) (fields : list (jstr * json)) : option json :=
  match fields with
  | [] => None
  | (k, v) :: r => if streq k key then Some v else lookup_field key r
  end.

(** Property access with optional chaining: [undefined] off an object. *)
Definition get (key : jstr) (j : json) : option json :=
  match j with JObj fs => lookup_field key fs | _ => None end.

(** ** Printing *)

Definition hex_digit (n : Z) : Z := if n <? 10 then 48 + n else 87 + n.

(** The escapes of [JSON.stringify] inside a string; unpaired surrogates are
    escaped too, which [quote_units] handles. *)
Definition escape_u (c : Z) : jstr :=
  js "\u" ++ [hex_digit (c / 4096); hex_digit (c / 256 mod 16);
              hex_digit (c / 16 mod 16); hex_digit (c mod 16)].

Definition quote_unit (c : Z) : jstr :=
  if c =? 34 then [92; 34]
  else if c =? 92 then [92; 92]
  else if c =? 8 then js "\b"
  else if c =? 12 then js "\f"
  else if c =? 10 then js "\n"
  else if c =? 13 then js "\r"
  else if c =? 9 then js "\t"
  else if c <? 32 then escape_u c
  else [c].

Definition is_surrogate (c : Z) : bool := (55296 <=? c) && (c <=? 57343).

Fixpoint quote_units (s : jstr) : jstr :=
  match s with
  | [] => []
  | c :: r =>
      if (55296 <=? c) && (c <=? 56319) then
        match r with
        | d :: r' =>
            if (56320 <=? d) && (d <=? 57343) then c :: d :: quote_units r'
            else escape_u c ++ quote_units r
        | [] => escape_u c
        end
      else if (56320 <=? c) && (c <=? 57343) then escape_u c ++ quote_units r
      else quote_unit c ++ quote_units r
  end.

Definition quote (s : jstr) : jstr := [34] ++ quote_units s ++ [34].

Section Stringify.
(** [String(x)] of a finite double. *)
Context (num_to_string : Q -> jstr).

Fixpoint JSON_stringify (j : json) : jstr :=
  match j with
  | JNull => js "null"
  | JBool true => js "true"
  | JBool false => js "false"
  | JNum (Finite q) => num_to_string q
  | JNum _ => js "null"
  | JStr s => quote s
  | JArr l => js "[" ++ join (js ",") (map JSON_stringify l) ++ js "]"
  | JObj fs =>
      js "{" ++
      join (js ",") (map (fun kv => quote kv.1 ++ js ":" ++ JSON_stringify kv.2) fs) ++
      js "}"
  end.
End Stringify.

(** Integers print in decimal. *)
Definition int_num_str (q : Q) : jstr := num_str (Qnum q).

(** * Conversions *)

(** Truthiness of a value that may be [undefined]. *)
Definition truthy_json (v : option json) : bool :=
  match v with
  | None | Some JNull | Some (JBool false) | Some (JNum NaN) => false
  | Some (JNum (Finite q)) => negb (Qnum q =? 0)
  | Some (JStr s) => truthy s
  | _ => true
  end.

(** [a || b], [a ?? b] *)
Definition or_else (a b : option json) : option json := if truthy_json a then a else b.
Definition or_nullish (a b : option json) : option json :=
  match a with None | Some JNull => b | _ => a end.

Definition is_object (v : option json) : bool :=
  match v with Some (JObj _) => true | _ => false end.

Section ToString.
Context (num_to_string : Q -> jstr).

Definition jsnum_string (n : jsnum) : jstr :=
  match n with
  | NaN => js "NaN"
  | Infinite false => js "Infinity"
  | Infinite true => js "-Infinity"
  | Finite q => num_to_string q
  end.

(** [String(v)]; an array joins its elements, [null] ones empty. *)
Fixpoint to_string (j : json) : jstr :=
  match j with
  | JNull => js "null"
  | JBool true => js "true"
  | JBool false => js "false"
  | JNum n => jsnum_string n
  | JStr s => s
  | JArr l => join (js ",") (map (fun x => match x with JNull => [] | _ => to_string x end) l)
  | JObj _ => js "[object Object]"
  end.

Definition to_string_opt (v : option json) : jstr :=
  match v with None => js "undefined" | Some j => to_string j end.
End ToString.

(** * Objects *)

(** [o[key] = v]: an existing field keeps its place. *)
Fixpoint set_field (key : jstr) (v : json) (fields : list (jstr * json)) : list (jstr * json) :=
  match fields with
  | [] => [(key, v)]
  | (k, w) :: r => if streq k key then (k, v) :: r else (k, w) :: set_field key v r
  end.

(** [delete o[key]] *)
Definition delete_field (key : jstr) (fields : list (jstr * json)) : list (jstr * json) :=
  List.filter (fun kv => negb (streq kv.1 key)) fields.

(** Array-index keys come first in an object, in ascending order. *)
Definition is_index_key (k : jstr) : bool :=
  forallb is_digit k && streq k (num_str (digits_value k)) && (digits_value k <? 4294967295).

Definition own_order {A} (fields : list (jstr * A)) : list (jstr * A) :=
  sort_by (fun kv => digits_value kv.1) (List.filter (fun kv => is_index_key kv.1) fields) ++
  List.filter (fun kv => negb (is_index_key kv.1)) fields.

(** * [JSON.parse] *)

Definition json_space (c : Z) : bool := (c =? 32) || (c =? 9) || (c =? 10) || (c =? 13).
Definition skip_space (s : jstr) : jstr := drop_while json_space s.

Fixpoint parse_hex (n : nat) (acc : Z) (s : jstr) : option (Z * jstr) :=
  match n, s with
  | O, _ => Some (acc, s)
  | S m, c :: r => d ← digit_value c; parse_hex m (acc * 16 + d) r
  | S _, [] => None
  end.

(** The units of a string after its opening quote, and what follows it. *)
Fixpoint parse_string (fuel : nat) (s : jstr) : option (jstr * jstr) :=
  match fuel, s with
  | S f, c :: r =>
      if c =? 34 then Some ([], r)
      else if c <? 32 then None
      else if c =? 92 then
        match r with
        | 117 :: r1 =>
            '(u, r2) ← parse_hex 4 0 r1; '(t, rest) ← parse_string f r2; Some (u :: t, rest)
        | e :: r1 =>
            u ← (if (e =? 34) || (e =? 92) || (e =? 47) then Some e
                 else if e =? 98 then Some 8 else if e =? 102 then Some 12
                 else if e =? 110 then Some 10 else if e =? 114 then Some 13
                 else if e =? 116 then Some 9 else None);
            '(t, rest) ← parse_string f r1; Some (u :: t, rest)
        | [] => None
        end
      else '(t, rest) ← parse_string f r; Some (c :: t, rest)
  | _, _ => None
  end.

(** A number token: no leading zeros, digits after a point and an exponent. *)
Definition parse_number (s : jstr) : option (jsnum * jstr) :=
  let '(neg, r) := match s with 45 :: t => (true, t) | _ => (false, s) end in
  let '(ip, r1) := span_digits r in
  let ok_int := match ip with [] => false | 48 :: _ :: _ => false | _ => true end in
  if negb ok_int then None
  else
    '(fp, r2) ← match r1 with
                | 46 :: t => let '(d, t') := span_digits t in
                             match d with [] => None | _ => Some (d, t') end
                | _ => Some ([], r1)
                end;
    '(x, r3) ← match r2 with
               | c :: t =>
                   if (c =? 101) || (c =? 69) then
                     let '(xneg, t1) := parse_sign t in
                     let '(d, t2) := span_digits t1 in
                     match d with
                     | [] => None
                     | _ => Some (if xneg then - digits_value d else digits_value d, t2)
                     end
                   else Some (0, r2)
               | [] => Some (0, r2)
               end;
    let e := x - Z.of_nat (length fp) in
    let n := digits_value (ip ++ fp) in
    Some (if 0 <=? e then round_double neg (n * 10 ^ e) 1 else round_double neg n (10 ^ (- e)), r3).

Definition parse_literal (lit : jstr) (v : json) (s : jstr) : option (json * jstr) :=
  if starts_with lit s then Some (v, drop (length lit) s) else None.

Fixpoint parse_value (fuel : nat) (s0 : jstr) : option (json * jstr) :=
  match fuel with
  | O => None
  | S f =>
      match skip_space s0 with
      | [] => None
      | c :: r =>
          if c =? 34 then '(t, rest) ← parse_string (length r) r; Some (JStr t, rest)
          else if c =? 91 then
            match skip_space r with
            | 93 :: rest => Some (JArr [], rest)
            | _ => '(l, rest) ← parse_elements f r; Some (JArr l, rest)
            end
          else if c =? 123 then
            match skip_space r with
            | 125 :: rest => Some (JObj [], rest)
            | _ => '(fs, rest) ← parse_members f [] r; Some (JObj (own_order fs), rest)
            end
          else if c =? 116 then parse_literal (js "true") (JBool true) (c :: r)
          else if c =? 102 then parse_literal (js "false") (JBool false) (c :: r)
          else if c =? 110 then parse_literal (js "null") JNull (c :: r)
          else '(n, rest) ← parse_number (c :: r); Some (JNum n, rest)
      end
  end
with parse_elements (fuel : nat) (s : jstr) : option (list json * jstr) :=
  match fuel with
  | O => None
  | S f =>
      '(v, r) ← parse_value f s;
      match skip_space r with
      | 44 :: r' => '(l, rest) ← parse_elements f r'; Some (v :: l, rest)
      | 93 :: rest => Some ([v], rest)
      | _ => None
      end
  end
with parse_members (fuel : nat) (acc : list (jstr * json)) (s : jstr)
  : option (list (jstr * json) * jstr) :=
  match fuel with
  | O => None
  | S f =>
      match skip_space s with
      | 34 :: r =>
          '(k, r1) ← parse_string (length r) r;
          match skip_space r1 with
          | 58 :: r2 =>
              '(v, r3) ← parse_value f r2;
              let acc' := set_field k v acc in
              match skip_space r3 with
              | 44 :: r4 => parse_members f acc' r4
              | 125 :: rest => Some (acc', rest)
              | _ => None
              end
          | _ => None
          end
      | _ => None
      end
  end.

(** [None] when the text is not JSON.  Each nesting level and each element
    consumes a character, so twice the length is enough fuel. *)
Definition JSON_parse (s : jstr) : option json :=
  match parse_value (2 * length s + 2) s with
  | Some (v, rest) => match skip_space rest with [] => Some v | _ => None end
  | None => None
  end.

(** An object literal: fields whose value is [undefined] are not printed. *)
Definition fields_of (l : list (jstr * option json)) : list (jstr * json) :=
  omap (fun kv => pair kv.1 <$> kv.2) l.
Definition obj (l : list (jstr * option json)) : json := JObj (fields_of l).

Example stringify_ex :
  JSON_stringify int_num_str
    (JObj [(js "a", JNum (Finite 3)); (js "b", JArr [JStr [34; 10]; JNull])]) =
  js "{" ++ [34] ++ js "a" ++ [34] ++ js ":3," ++ [34] ++ js "b" ++ [34] ++ js ":[" ++ [34] ++ [92; 34] ++ js "\n" ++ [34] ++ js ",null]}".
Proof. vm_compute. reflexivity. Qed.

Example parse_ex :
  let j := JObj [(js "a", JNum (Finite 3)); (js "b", JArr [JStr [34; 10; 7; 55296]; JNull; JObj []])] in
  JSON_parse (JSON_stringify int_num_str j) = Some j.
Proof. vm_compute. reflexivity. Qed.

Example parse_ex2 : JSON_parse (js "[1,]") = None /\ JSON_parse (js "01") = None /\
  JSON_parse (js " [ -1.5e0 , 1E400 ] ") = Some (JArr [JNum (Finite (-3 # 2)); JNum (Infinite false)]).
Proof. vm_compute. auto. Qed.

(** * Facts on fields *)

Lemma lookup_set_field_eq k v fs : lookup_field k (set_field k v fs) = Some v.
Proof.
  induction fs as [|[k' w] fs IH]; simpl; [by rewrite streq_refl|].
  destruct (streq k' k) eqn:E; simpl; by rewrite E.
Qed.

Lemma lookup_set_field_ne k k' v fs :
  k ≠ k' -> lookup_field k (set_field k' v fs) = lookup_field k fs.
Proof.
  intros Hne. induction fs as [|[k0 w] fs IH]; simpl.
  - by rewrite (proj2 (streq_false k' k)).
  - destruct (streq k0 k') eqn:E; simpl.
    + apply streq_true in E as ->. by rewrite (proj2 (streq_false k' k)).
    + by rewrite IH.
Qed.

Lemma own_order_elem {A} (fs : list (jstr * A)) x : x ∈ own_order fs -> x ∈ fs.
Proof.
  unfold own_order. rewrite elem_of_app, sort_by_perm, !list_elem_of_In, !filter_In. tauto.
Qed.

(** * Strings survive printing and parsing *)

Lemma parse_string_mono f f' s r :
  parse_string f s = Some r -> (f <= f')%nat -> parse_string f' s = Some r.
Proof.
  revert f' s r; induction f as [|f IH]; intros f' s r; [by destruct s|].
  destruct f' as [|f']; [lia|]. destruct s as [|c s]; [done|]. intros H Hle.
  assert (forall s0 r0, parse_string f s0 = Some r0 -> parse_string f' s0 = Some r0) as IH'.
  { intros s0 r0 H0. apply (IH f'); [done|lia]. }
  clear IH Hle. cbn [parse_string] in *.
  destruct (c =? 34); [done|]. destruct (c <? 32); [done|]. destruct (c =? 92).
  - destruct s as [|e s1]; [done|].
    assert (forall u s0, ('(t, rest) ← parse_string f s0; Some (u :: t, rest)) = Some r ->
      ('(t, rest) ← parse_string f' s0; Some (u :: t, rest)) = Some r) as Hk.
    { intros u s0. destruct (parse_string f s0) as [[t rest]|] eqn:E; [|done].
      by rewrite (IH' _ _ E). }
    destruct (decide (e = 117)) as [->|He].
    + destruct (parse_hex 4 0 s1) as [[u r2]|]; [|done]. cbn [mbind option_bind] in *. by apply Hk.
    + repeat (case_match; try lia); cbn [mbind option_bind] in *; try done; by apply Hk.
  - destruct (parse_string f s) as [[t rest]|] eqn:E; [|done]. by rewrite (IH' _ _ E).
Qed.

Lemma digit_value_hex_digit n : 0 <= n < 16 -> digit_value (hex_digit n) = Some n.
Proof.
  intros Hn. destruct n as [|p|p]; [done| |lia]. do 4 (destruct p as [p|p|]; try lia; try done).
Qed.

Lemma parse_hex_escape c x :
  0 <= c < 65536 ->
  parse_hex 4 0 ([hex_digit (c / 4096); hex_digit (c / 256 mod 16); hex_digit (c / 16 mod 16);
                  hex_digit (c mod 16)] ++ x) = Some (c, x).
Proof.
  intros Hc. cbn [app parse_hex].
  assert (0 <= c / 4096 < 16) by (split; [apply Z.div_pos; lia|apply Z.div_lt_upper_bound; lia]).
  assert (0 <= c / 256 mod 16 < 16) by (apply Z.mod_pos_bound; lia).
  assert (0 <= c / 16 mod 16 < 16) by (apply Z.mod_pos_bound; lia).
  assert (0 <= c mod 16 < 16) by (apply Z.mod_pos_bound; lia).
  rewrite !digit_value_hex_digit by done. cbn [mbind option_bind]. do 2 f_equal.
  rewrite (Z.div_mod c 16) at 5 by lia. rewrite (Z.div_mod (c / 16) 16) at 2 by lia.
  rewrite Z.div_div by lia. change (16 * 16) with 256.
  rewrite (Z.div_mod (c / 256) 16) at 2 by lia.
  rewrite (Z.div_div c 256 16) by lia. change (256 * 16) with 4096. lia.
Qed.

Definition unit_range (s : jstr) : Prop := Forall (fun c => 0 <= c < 65536) s.

(** Prepending a decoded unit to what the parser reads next. *)
Definition then_unit (c : Z) (k : option (jstr * jstr)) : option (jstr * jstr) :=
  '(t, rest) ← k; Some (c :: t, rest).

Lemma parse_raw_unit c f x :
  32 <= c -> c ≠ 34 -> c ≠ 92 -> parse_string (S f) (c :: x) = then_unit c (parse_string f x).
Proof.
  intros H1 H2 H3. cbn [parse_string].
  by rewrite (proj2 (Z.eqb_neq c 34)), (proj2 (Z.ltb_ge c 32)), (proj2 (Z.eqb_neq c 92)).
Qed.

Lemma parse_escape_u c f x :
  0 <= c < 65536 -> parse_string (S f) (escape_u c ++ x) = then_unit c (parse_string f x).
Proof.
  intros Hc. unfold escape_u. rewrite <- app_assoc.
  set (h := [hex_digit (c / 4096); _; _; _]).
  change (parse_string (S f) (js "\u" ++ h ++ x)) with
    ('(u, r2) ← parse_hex 4 0 (h ++ x); '(t, rest) ← parse_string f r2; Some (u :: t, rest)).
  unfold h. by rewrite parse_hex_escape.
Qed.

Lemma parse_quote_unit c f x :
  0 <= c < 65536 -> parse_string (S f) (quote_unit c ++ x) = then_unit c (parse_string f x).
Proof.
  intros Hc. unfold quote_unit.
  repeat match goal with |- context [if ?b then _ else _] => destruct b eqn:? end;
    bool_to_prop; subst; try reflexivity.
  - by apply parse_escape_u.
  - by apply parse_raw_unit.
Qed.

Lemma then_unit_app c s k :
  then_unit c ('(t, rest) ← k; Some (s ++ t, rest)) = ('(t, rest) ← k; Some ((c :: s) ++ t, rest)).
Proof. by destruct k as [[t rest]|]. Qed.

(** The parser reads back what [JSON.stringify] prints for a string. *)
Lemma parse_quote_units s f x :
  unit_range s ->
  parse_string (length s + f) (quote_units s ++ x) = ('(t, rest) ← parse_string f x; Some (s ++ t, rest)).
Proof.
  remember (length s) as n eqn:Hn. revert s Hn.
  induction n as [n IH] using lt_wf_ind; intros s -> HF.
  destruct s as [|c s]; [simpl; by destruct (parse_string f x) as [[? ?]|]|].
  apply Forall_cons in HF as [Hc HF].
  assert (parse_string (length s + f) (quote_units s ++ x) =
    ('(t, rest) ← parse_string f x; Some (s ++ t, rest))) as Hs by (apply (IH (length s)); simpl; try lia; done).
  cbn [quote_units length Nat.add]. destruct ((55296 <=? c) && (c <=? 56319)) eqn:Eh.
  - destruct s as [|d s].
    + rewrite parse_escape_u, <- then_unit_app by done. f_equal. exact Hs.
    + destruct ((56320 <=? d) && (d <=? 57343)) eqn:El.
      * apply Forall_cons in HF as [Hd HF]. bool_to_prop. cbn [app length Nat.add].
        rewrite parse_raw_unit, parse_raw_unit by lia.
        rewrite (IH (length s)) by (simpl; done || lia). by rewrite !then_unit_app.
      * rewrite <- app_assoc, parse_escape_u, Hs by done. by rewrite then_unit_app.
  - destruct ((56320 <=? c) && (c <=? 57343)).
    + rewrite <- app_assoc, parse_escape_u, Hs by done. by rewrite then_unit_app.
    + rewrite <- app_assoc, parse_quote_unit, Hs by done. by rewrite then_unit_app.
Qed.

Lemma parse_value_string f r :
  parse_value (S f) (34 :: r) = ('(t, rest) ← parse_string (length r) r; Some (JStr t, rest)).
Proof. reflexivity. Qed.

Lemma quote_units_length s : (length s <= length (quote_units s))%nat.
Proof.
  remember (length s) as n eqn:Hn. revert s Hn. induction n as [n IH] using lt_wf_ind; intros s ->.
  destruct s as [|c s]; [done|]. cbn [quote_units length].
  assert (length s <= length (quote_units s))%nat as Hs by (apply (IH (length s)); simpl; lia).
  assert (forall d, 1 <= length (quote_unit d))%nat as Hq
    by (intros d; unfold quote_unit; repeat case_match; simpl; lia).
  assert (forall t, length (escape_u c ++ t) = 6 + length t)%nat as He
    by (intros t; by rewrite length_app).
  destruct (_ && _); [destruct s as [|d s]; [simpl; lia|]|destruct (_ && _)].
  - destruct (_ && _).
    + assert (length s <= length (quote_units s))%nat by (apply (IH (length s)); simpl; lia).
      simpl. lia.
    + rewrite He. lia.
  - rewrite He. lia.
  - rewrite length_app. specialize (Hq c). lia.
Qed.
