(* ===== verification/JsonText.v ===== *)
(** Values survive [JSON.stringify] and [JSON.parse].  Which text prints a number
    is a parameter of the printer; what is needed of it is that the parser reads
    the number back. *)
From S2P Require Import Prelude Numbers Json.
Open Scope Z_scope.

(** What may follow a value inside a text. *)
Definition closes (rest : jstr) : Prop :=
  match rest with [] => True | c :: _ => c = 44 \/ c = 93 \/ c = 125 end.

(** [t] prints [q]. *)
Definition number_text (q : Q) (t : jstr) : Prop :=
  (exists c r, t = c :: r /\ (is_digit c = true \/ c = 45)) /\
  forall rest, closes rest -> parse_number (t ++ rest) = Some (Finite q, rest).

Section Text.
Context (num_to_string : Q -> jstr).
#[local] Abbreviation text := (JSON_stringify num_to_string).

(** A value the engine can hold and print: finite numbers, strings of code units,
    objects whose keys are distinct and in the order of the engine. *)
Inductive printable : json -> Prop :=
| printable_null : printable JNull
| printable_bool b : printable (JBool b)
| printable_num q : number_text q (num_to_string q) -> printable (JNum (Finite q))
| printable_str s : unit_range s -> printable (JStr s)
| printable_arr l : Forall printable l -> printable (JArr l)
| printable_obj fs :
    NoDup (map fst fs) -> own_order fs = fs -> Forall (fun kv => unit_range kv.1 /\ printable kv.2) fs ->
    printable (JObj fs).

(** The text of a value starts with none of the characters the parser skips or
    takes for the end of a list. *)
Definition head_ok (s : jstr) : Prop :=
  match s with [] => False | c :: _ => json_space c = false /\ c ≠ 93 /\ c ≠ 125 end.

Lemma digit_head c : is_digit c = true \/ c = 45 ->
  json_space c = false /\ c ≠ 34 /\ c ≠ 91 /\ c ≠ 123 /\ c ≠ 116 /\ c ≠ 102 /\ c ≠ 110 /\ c ≠ 93 /\ c ≠ 125.
Proof.
  intros H. assert (Hr : 48 <= c <= 57 \/ c = 45) by (destruct H as [H|H]; [unfold is_digit in H; bool_to_prop; lia|lia]).
  split; [unfold json_space; repeat (apply orb_false_iff; split); apply Z.eqb_neq|]; lia.
Qed.

Lemma text_head j : printable j -> head_ok (text j).
Proof.
  destruct 1 as [|[]|q [(c & r & Ht & Hc) _]|s Hs|l Hl|fs HN Ho Hf]; simpl; try done.
  rewrite Ht. apply digit_head in Hc. naive_solver.
Qed.

Lemma skip_head s rest : head_ok s -> skip_space (s ++ rest) = s ++ rest.
Proof. destruct s as [|c s]; [done|]. intros (H & _). cbn. by rewrite H. Qed.

(** A quoted string is read back. *)
Lemma parse_quoted s rest :
  unit_range s -> parse_string (length (quote_units s ++ [34] ++ rest)) (quote_units s ++ [34] ++ rest) = Some (s, rest).
Proof.
  intros Hs. pose proof (parse_quote_units s 1 ([34] ++ rest) Hs) as H. cbn [app parse_string] in H.
  rewrite Z.eqb_refl in H. cbn [mbind option_bind] in H. rewrite app_nil_r in H. eapply parse_string_mono; [exact H|].
  pose proof (quote_units_length s). rewrite length_app. simpl. lia.
Qed.

Definition member (kv : jstr * json) : jstr := quote kv.1 ++ js ":" ++ text kv.2.

(** The parser reads a value back, whatever follows it. *)
Definition reads (j : json) : Prop :=
  forall f rest, closes rest -> (2 * length (text j) <= f)%nat -> parse_value f (text j ++ rest) = Some (j, rest).

Lemma parse_elements_text l f rest :
  l ≠ [] -> Forall printable l -> Forall reads l ->
  (2 * length (join (js ",") (map text l)) < f)%nat ->
  parse_elements f (join (js ",") (map text l) ++ 93 :: rest) = Some (l, rest).
Proof.
  revert f. induction l as [|j l IH]; [done|]. intros f _ HP HR Hf.
  apply Forall_cons in HP as [Hj HP], HR as [Hr HR]. destruct f as [|f]; [lia|]. cbn [parse_elements].
  destruct l as [|j' l]; cbn [map join] in *.
  - rewrite Hr; [|by simpl; auto|lia]. reflexivity.
  - rewrite !length_app in Hf. simpl in Hf. rewrite <- !app_assoc, Hr; [|by simpl; auto|lia].
    cbn [mbind option_bind]. change (skip_space (js "," ++ ?x)) with (44 :: x). cbn match.
    rewrite (IH f); [done|done|done|done|]. simpl. lia.
Qed.

Lemma set_field_fresh k v fs : k ∉ map fst fs -> set_field k v fs = fs ++ [(k, v)].
Proof.
  induction fs as [|[k' w] fs IH]; intros Hk; [done|]. cbn in *. rewrite not_elem_of_cons in Hk.
  rewrite (proj2 (streq_false _ _)) by naive_solver. f_equal. apply IH. naive_solver.
Qed.

Lemma parse_members_text fs acc f rest :
  fs ≠ [] -> NoDup (map fst (acc ++ fs)) ->
  Forall (fun kv => unit_range kv.1 /\ printable kv.2) fs -> Forall (fun kv => reads kv.2) fs ->
  (2 * length (join (js ",") (map member fs)) < f)%nat ->
  parse_members f acc (join (js ",") (map member fs) ++ 125 :: rest) = Some (acc ++ fs, rest).
Proof.
  revert acc f. induction fs as [|[k v] fs IH]; [done|]. intros acc f _ HN HP HR Hf.
  apply Forall_cons in HP as [[Hk Hv] HP], HR as [Hr HR]. cbn [fst snd] in *. destruct f as [|f]; [lia|].
  assert (Hset : set_field k v acc = acc ++ [(k, v)]).
  { apply set_field_fresh. rewrite map_app in HN. apply NoDup_app in HN as (_ & Hd & _). intros Hin. apply (Hd k Hin). left. }
  assert (Hmember : forall tail, closes tail -> (2 * length (member (k, v)) <= f)%nat ->
    parse_members (S f) acc (member (k, v) ++ tail) =
    match skip_space tail with
    | 44 :: r4 => parse_members f (acc ++ [(k, v)]) r4
    | 125 :: rest => Some (acc ++ [(k, v)], rest)
    | _ => None
    end).
  { intros tail Ht Hl. unfold member, quote in *. cbn [fst snd] in *. rewrite !length_app in Hl. simpl in Hl.
    rewrite <- !app_assoc. cbn [parse_members]. change (skip_space ([34] ++ ?x)) with (34 :: x). cbn match.
    rewrite parse_quoted by done. cbn [mbind option_bind]. change (skip_space (js ":" ++ ?x)) with (58 :: x). cbn match.
    rewrite Hr by (done || lia). cbn [mbind option_bind]. by rewrite Hset. }
  destruct fs as [|kv fs]; cbn [map join] in *.
  - rewrite Hmember; [reflexivity|by simpl; auto|]. lia.
  - rewrite !length_app in Hf. rewrite <- !app_assoc, Hmember; [|by simpl; auto|simpl in *; lia].
    change (skip_space (js "," ++ ?x)) with (44 :: x). cbn match.
    rewrite (IH (acc ++ [(k, v)])); [by rewrite <- app_assoc|done|by rewrite <- app_assoc|done|done|]. simpl in *. lia.
Qed.

Lemma text_reads j : printable j -> reads j.
Proof.
  induction j as [|b|n|s|l IH|fs IH] using json_ind'; intros Hp f rest Hrest Hf.
  - destruct f; [simpl in Hf; lia|]. reflexivity.
  - destruct f; [destruct b; simpl in Hf; lia|]. by destruct b.
  - inversion Hp as [| |q [(c & r & Ht & Hc) Hq]| | |]; subst. cbn [JSON_stringify] in *. rewrite Ht in *.
    destruct f as [|f]; [simpl in Hf; lia|]. specialize (Hq rest Hrest). apply digit_head in Hc as (Hs & Hc).
    cbn [parse_value app]. unfold skip_space. cbn [drop_while app]. rewrite Hs.
    rewrite !(proj2 (Z.eqb_neq _ _)) by naive_solver. cbn [app] in Hq. rewrite Hq. reflexivity.
  - inversion Hp; subst. cbn [JSON_stringify] in *. destruct f as [|f]; [unfold quote in Hf; simpl in Hf; lia|].
    unfold quote. rewrite <- !app_assoc. cbn [app]. rewrite parse_value_string.
    pose proof (parse_quoted s rest) as H. cbn [app] in H. rewrite H by done. reflexivity.
  - inversion Hp as [| | | |l' Hl|]; subst. cbn [JSON_stringify] in *. rewrite !length_app in Hf. simpl in Hf.
    destruct f as [|f]; [lia|]. rewrite <- !app_assoc. cbn [parse_value].
    change (skip_space (js "[" ++ ?x)) with (91 :: x). cbn match. cbn [Z.eqb Pos.eqb].
    assert (HR : Forall reads l) by (rewrite Forall_forall in *; naive_solver).
    destruct l as [|j l]; [reflexivity|].
    assert (Hh : head_ok (join (js ",") (map text (j :: l)))).
    { apply Forall_cons in Hl as [Hj _]. apply text_head in Hj. cbn [map join]. destruct (map text l); [done|].
      by destruct (text j). }
    rewrite skip_head by done. change (js "]" ++ rest) with (93 :: rest). rewrite parse_elements_text; [|done|done|done|lia].
    destruct (join (js ",") (map text (j :: l))) as [|c r]; [done|]. destruct Hh as (_ & H93 & _). cbn [app].
    cbn [mbind option_bind]. repeat case_match; try done; congruence.
  - inversion Hp as [| | | | |fs' HN Ho HF]; subst.
    change (text (JObj fs)) with (js "{" ++ join (js ",") (map member fs) ++ js "}") in *.
    rewrite !length_app in Hf. change (length (js "{")) with 1%nat in Hf. change (length (js "}")) with 1%nat in Hf.
    destruct f as [|f]; [lia|]. rewrite <- !app_assoc. cbn [parse_value].
    change (skip_space (js "{" ++ ?x)) with (123 :: x). cbn match. cbn [Z.eqb Pos.eqb].
    assert (HR : Forall (fun kv => reads kv.2) fs) by (rewrite Forall_forall in *; intros kv Hin; apply (IH kv Hin); by apply HF).
    destruct fs as [|kv fs]; [reflexivity|].
    assert (Hh : head_ok (join (js ",") (map member (kv :: fs)))) by (cbn [map join]; by destruct (map member fs)).
    rewrite skip_head by done. change (js "}" ++ rest) with (125 :: rest). rewrite (parse_members_text (kv :: fs) []); [|done|done|done|done|lia].
    destruct (join (js ",") (map member (kv :: fs))) as [|c r]; [done|]. destruct Hh as (_ & _ & H125). cbn [app].
    cbn [mbind option_bind]. rewrite Ho. repeat case_match; try done; congruence.
Qed.

(** A value that the engine can print is what [JSON.parse] gives back for its text. *)
Theorem json_roundtrip j : printable j -> JSON_parse (text j) = Some j.
Proof.
  intros Hp. unfold JSON_parse. pose proof (text_reads j Hp (2 * length (text j) + 2)%nat []) as H.
  rewrite app_nil_r in H. rewrite H; [done|done|lia].
Qed.
End Text.

(** ** Literals *)

Lemma js_range s : unit_range (js s).
Proof.
  unfold js. apply Forall_map, Forall_true. intros c. pose proof (Ascii.N_ascii_bounded c). lia.
Qed.

(** ** Integers *)

Lemma scale2_opp m e : scale2 (- m) e = (- scale2 m e)%Q.
Proof.
  unfold scale2. destruct (0 <=? e).
  - unfold inject_Z, Qopp. simpl. f_equal. lia.
  - change (- m # Z.to_pos (2 ^ (- e)))%Q with (- (m # Z.to_pos (2 ^ (- e))))%Q. apply Qred_opp.
Qed.

Lemma round_double_negative n :
  0 <= n < 2 ^ 53 -> round_double true n 1 = Finite (inject_Z (- n)).
Proof.
  intros Hn. pose proof (round_double_int n Hn) as H. unfold round_double in *.
  destruct (Z.eqb_spec n 0) as [->|Hz]; [done|]. destruct (2 ^ 1024 <=? _); [done|].
  rewrite scale2_opp. injection H as ->. done.
Qed.

Lemma span_digits_then ds rest : is_digits ds -> closes rest -> span_digits (ds ++ rest) = (ds, rest).
Proof.
  intros HF Hr. induction HF as [|c ds Hc HF IH]; cbn [app span_digits].
  - destruct rest as [|c rest]; [done|]. cbn. by destruct Hr as [->|[->| ->]].
  - by rewrite Hc, IH.
Qed.

Lemma parse_number_digits (negative : bool) n rest :
  0 <= n < 2 ^ 53 -> closes rest ->
  parse_number ((if negative then [45] else []) ++ num_str n ++ rest) = Some (round_double negative n 1, rest).
Proof.
  intros Hn Hr. destruct (num_str_digits n) as (HF & Hv & Hne & Hz); [lia|].
  pose proof (span_digits_then (num_str n) rest HF Hr) as Hs.
  assert (Hsign : match (if negative then [45] else []) ++ num_str n ++ rest with
    | 45 :: t => (true, t) | _ => (false, (if negative then [45] else []) ++ num_str n ++ rest) end =
    (negative, num_str n ++ rest)).
  { destruct negative; [done|]. destruct (num_str n) as [|c r] eqn:E; [done|]. apply Forall_cons in HF as [Hc _].
    unfold is_digit in Hc. bool_to_prop. cbn [app]. repeat (case_match; try lia); done. }
  unfold parse_number. rewrite Hsign, Hs.
  assert (Hok : match num_str n with [] => false | 48 :: _ :: _ => false | _ => true end = true).
  { destruct (decide (n = 0)) as [->|Hnz]; [done|]. destruct (Hz Hnz) as (c & r & -> & Hc). repeat case_match; congruence. }
  rewrite Hok. cbn [negb].
  assert (Hnum : Some (if 0 <=? 0 - Z.of_nat (@length Z []) then round_double negative (digits_value (num_str n ++ []) * 10 ^ (0 - Z.of_nat (@length Z []))) 1
     else round_double negative (digits_value (num_str n ++ [])) (10 ^ (- (0 - Z.of_nat (@length Z [])))), rest) = Some (round_double negative n 1, rest)).
  { cbn [length Z.of_nat Z.sub Z.leb Z.compare]. rewrite app_nil_r, Hv. by rewrite Z.mul_1_r. }
  destruct rest as [|c rest]; [exact Hnum|]. by destruct Hr as [->|[->| ->]].
Qed.

(** Integers below 2^53 are printed in decimal and read back. *)
Lemma int_number_text n : - 2 ^ 53 < n < 2 ^ 53 -> number_text (inject_Z n) (int_num_str (inject_Z n)).
Proof.
  intros Hn. unfold int_num_str. cbn [inject_Z Qnum].
  assert (Hhead : forall k, 0 <= k -> exists c r, num_str k = c :: r /\ is_digit c = true).
  { intros k Hk. destruct (num_str_digits k Hk) as (HF & _ & Hne & _). destruct HF as [|c r Hc HF]; [done|]. eauto. }
  destruct (Z.le_gt_cases 0 n) as [Hp|Hp].
  - split; [destruct (Hhead n Hp) as (c & r & -> & Hc); eauto|]. intros rest Hr.
    pose proof (parse_number_digits false n rest) as H. rewrite round_double_int in H by lia. apply H; [lia|done].
  - assert (Es : num_str n = [45] ++ num_str (- n)) by (by destruct n).
    rewrite Es. split; [exists 45, (num_str (- n)); auto|]. intros rest Hr.
    pose proof (parse_number_digits true (- n) rest) as H. rewrite round_double_negative, Z.opp_involutive in H by lia.
    rewrite <- app_assoc. apply H; [lia|done].
Qed.
