(* ===== verification/AdaptivePublisher.v ===== *)
(** The publisher that paces progress updates
    (pi [packages/agent/dist/harness/utils/adaptive-publisher.js]): it sends a
    consumer the difference between what it last published and the current
    snapshot, at most once per interval, and the longer the larger the last
    update was.  What a consumer can do with the updates is the interface
    [UpdateCodec]; the theorems about the publisher are proved against it.
    Times are milliseconds, as doubles.  The clock does not advance within one
    call. *)
From S2P Require Import Prelude Numbers.
Open Scope Z_scope.

(** What an [update] function promises to the consumer that applies its results. *)
Class UpdateCodec (A U : Type) := {
  update : option A -> A -> option U;
  apply_update : option A -> U -> A;
  update_first : forall c, update None c ≠ None;
  update_unchanged : forall p c, update (Some p) c = None -> p = c;
  update_applied : forall p c u, update p c = Some u -> apply_update p u = c
}.

(** Arithmetic on numbers of which only finite ones arise. *)
Definition num_op (f : Q -> Q -> jsnum) (a b : jsnum) : jsnum :=
  match a, b with Finite x, Finite y => f x y | _, _ => NaN end.

Definition num_of (n : Z) : jsnum := Finite (inject_Z n).

Section Publisher.
Context {A U : Type} `{!UpdateCodec A U}.
Context (measure : U -> Z) (minIntervalMs targetBytesPerSecond : Z).

(** The private fields; [timer] is whether one is armed. *)
Record publisher := Publisher {
  published : option A;
  dirty : bool;
  nextEmitAt : jsnum;
  timer : bool;
  p_disposed : bool
}.

Definition new_publisher : publisher := Publisher None false (num_of 0) false false.

(** [Math.max(minIntervalMs, encodedBytes * 1e3 / targetBytesPerSecond)] *)
Definition emit_delay (encodedBytes : Z) : jsnum :=
  let paced := num_op fdiv (num_op fmul (num_of encodedBytes) (num_of 1000)) (num_of targetBytesPerSecond) in
  if num_gt paced (num_of minIntervalMs) then paced else num_of minIntervalMs.

Definition armTimer (p : publisher) : publisher :=
  Publisher (published p) (dirty p) (nextEmitAt p) true (p_disposed p).

(** [flush(force)] at the time [now], where [options.snapshot()] is [current]:
    the publisher after it and the update it hands to [options.publish]. *)
Definition flush (force : bool) (now : Z) (current : A) (p : publisher) : publisher * option U :=
  if p_disposed p || negb (dirty p) then (p, None)
  else if negb force && num_gt (nextEmitAt p) (num_of now) then (armTimer p, None)
  else
    match update (published p) current with
    | None => (Publisher (Some current) false (nextEmitAt p) false (p_disposed p), None)
    | Some u =>
        (Publisher (Some current) false (num_op fadd (num_of now) (emit_delay (measure u))) false
           (p_disposed p), Some u)
    end.

Definition markDirty (now : Z) (current : A) (p : publisher) : publisher * option U :=
  if p_disposed p then (p, None)
  else
    let p := Publisher (published p) true (nextEmitAt p) (timer p) (p_disposed p) in
    if num_ge (num_of 0) (num_op fsub (nextEmitAt p) (num_of now)) then flush false now current p
    else (armTimer p, None).

(** The callback of the armed timer. *)
Definition timer_fires (now : Z) (current : A) (p : publisher) : publisher * option U :=
  if timer p then
    flush false now current
      (Publisher (published p) (dirty p) (nextEmitAt p) false (p_disposed p))
  else (p, None).

Definition dispose (p : publisher) : publisher :=
  Publisher (published p) (dirty p) (nextEmitAt p) false true.

(** ** Runs *)

(** What happens to a publisher: its source takes a new value and says so, the
    timer fires, the owner forces a flush or disposes of it. *)
Inductive pub_event :=
| Changed (a : A)
| TimerFires
| ForceFlush
| Disposed.

Record emission := Emission { em_at : Z; em_forced : bool; em_update : U }.

Definition emitted (now : Z) (forced : bool) (o : option U) : list emission :=
  match o with Some u => [Emission now forced u] | None => [] end.

(** The source's value, the publisher and what was published. *)
Record pub_world := PubWorld { w_source : A; w_pub : publisher; w_log : list emission }.

Definition pub_step (w : pub_world) (ev : Z * pub_event) : pub_world :=
  let '(now, e) := ev in
  match e with
  | Changed a =>
      let '(p, o) := markDirty now a (w_pub w) in
      PubWorld a p (w_log w ++ emitted now false o)
  | TimerFires =>
      let '(p, o) := timer_fires now (w_source w) (w_pub w) in
      PubWorld (w_source w) p (w_log w ++ emitted now false o)
  | ForceFlush =>
      let '(p, o) := flush true now (w_source w) (w_pub w) in
      PubWorld (w_source w) p (w_log w ++ emitted now true o)
  | Disposed => PubWorld (w_source w) (dispose (w_pub w)) (w_log w)
  end.

Definition pub_run (a : A) (evs : list (Z * pub_event)) : pub_world :=
  foldl pub_step (PubWorld a new_publisher []) evs.

(** What a consumer has after applying the updates in order. *)
Definition view_of (us : list U) : option A :=
  foldl (fun v u => Some (apply_update v u)) None us.

(** Every update that was not forced waited for the delay its predecessor
    asked for; [gate] is that of the last one. *)
Fixpoint paced (gate : option jsnum) (log : list emission) : Prop :=
  match log with
  | [] => True
  | e :: r =>
      match gate with
      | Some g => em_forced e = false -> num_gt g (num_of (em_at e)) = false
      | None => True
      end /\ paced (Some (num_op fadd (num_of (em_at e)) (emit_delay (measure (em_update e))))) r
  end.

Definition gate_of (log : list emission) : option jsnum :=
  (fun e => (num_op fadd (num_of (em_at e)) (emit_delay (measure (em_update e))))) <$> last log.

Lemma paced_snoc gate log e :
  paced gate log ->
  (match match gate_of log with Some g => Some g | None => gate end with
   | Some g => em_forced e = false -> num_gt g (num_of (em_at e)) = false
   | None => True
   end) -> paced gate (log ++ [e]).
Proof.
  revert gate; induction log as [|x log IH]; intros gate Hp Hg; [done|].
  destruct Hp as [H1 H2]. split; [done|]. apply IH; [done|].
  destruct log as [|y log]; [exact Hg|].
  assert (E : gate_of (x :: y :: log) = gate_of (y :: log)) by done. rewrite E in Hg.
  destruct (gate_of (y :: log)) eqn:Eg; [done|].
  unfold gate_of in Eg. destruct (last (y :: log)) eqn:El; [done|]. by apply last_None in El.
Qed.

(** The invariant of every reachable state. *)
Record pub_inv (w : pub_world) : Prop := {
  pi_view : view_of (em_update <$> w_log w) = published (w_pub w);
  pi_armed : p_disposed (w_pub w) = false -> dirty (w_pub w) = true -> timer (w_pub w) = true;
  pi_fresh : p_disposed (w_pub w) = false -> dirty (w_pub w) = false ->
    published (w_pub w) = None /\ w_log w = [] \/ published (w_pub w) = Some (w_source w);
  pi_paced : paced None (w_log w);
  pi_gate : forall g, gate_of (w_log w) = Some g -> nextEmitAt (w_pub w) = g
}.

Lemma view_of_snoc us u : view_of (us ++ [u]) = Some (apply_update (view_of us) u).
Proof. unfold view_of. by rewrite foldl_app. Qed.

(** A flush keeps the invariant, except that [dirty] need not be armed before. *)
Lemma flush_inv force now a p log :
  view_of (em_update <$> log) = published p ->
  (p_disposed p = false -> dirty p = false ->
    published p = None /\ log = [] \/ published p = Some a) ->
  paced None log -> (forall g, gate_of log = Some g -> nextEmitAt p = g) ->
  pub_inv (let '(p', o) := flush force now a p in PubWorld a p' (log ++ emitted now force o)).
Proof.
  intros Hv Hf Hp Hg. unfold flush.
  destruct (p_disposed p) eqn:Hd; simpl; [rewrite app_nil_r; split; simpl; intros; auto; congruence|].
  destruct (dirty p) eqn:Hdirty; simpl;
    [|rewrite app_nil_r; split; simpl; intros; auto; congruence].
  destruct (negb force && num_gt (nextEmitAt p) (num_of now)) eqn:Hw.
  { rewrite app_nil_r. split; simpl; try done. intros _ H. congruence. }
  destruct (update (published p) a) as [u|] eqn:Hu; simpl.
  - split; simpl; try done.
    + rewrite fmap_app. cbn [fmap list_fmap em_update]. rewrite view_of_snoc, Hv. f_equal. by apply update_applied.
    + intros; by right.
    + apply paced_snoc; [done|]. destruct (gate_of log) as [g|] eqn:Eg; [|done].
      rewrite <- (Hg g eq_refl). simpl. by intros ->.
    + unfold gate_of. rewrite last_snoc. simpl. by intros g [= <-].
  - rewrite app_nil_r. split; simpl; try done.
    + rewrite Hv. destruct (published p) as [x|]; [|by apply update_first in Hu].
      f_equal. by apply update_unchanged in Hu.
    + intros; by right.
Qed.

Lemma pub_step_inv w ev : pub_inv w -> pub_inv (pub_step w ev).
Proof.
  intros [Hv Ha Hf Hp Hg]. destruct w as [a p log], ev as [now e]; simpl in *. destruct e as [b| | |].
  - unfold markDirty. destruct (p_disposed p) eqn:Hd.
    { simpl. rewrite app_nil_r. split; simpl; auto; congruence. }
    destruct (num_ge _ _) eqn:Hq.
    + apply flush_inv; simpl; try done.
    + simpl. rewrite app_nil_r. split; simpl; try done.
  - unfold timer_fires. destruct (timer p) eqn:Ht; [by apply flush_inv|].
    simpl. rewrite app_nil_r. split; simpl; auto. intros H1 H2. rewrite Ha in Ht by done. done.
  - by apply flush_inv.
  - split; simpl; auto; congruence.
Qed.

Lemma pub_run_inv a evs : pub_inv (pub_run a evs).
Proof.
  unfold pub_run. assert (H : pub_inv (PubWorld a new_publisher [])).
  { split; simpl; try done. auto. }
  revert H. generalize (PubWorld a new_publisher []).
  induction evs as [|e evs IH]; intros w Hw; [done|]. simpl. by apply IH, pub_step_inv.
Qed.

(** for every sequence of changes, timer callbacks and forced flushes, a
    consumer that applies the published updates holds what was published
    last; while the publisher has not been disposed of, that is the current
    value, or else a timer is armed that will publish it (unless nothing was
    ever marked dirty); and an update that was not forced comes no earlier
    than the pacing of the previous update allows. *)
Theorem publisher_faithful a evs :
  let w := pub_run a evs in
  view_of (em_update <$> w_log w) = published (w_pub w) /\
  (p_disposed (w_pub w) = false ->
     (timer (w_pub w) = true /\ dirty (w_pub w) = true) \/
     (published (w_pub w) = None /\ w_log w = []) \/ published (w_pub w) = Some (w_source w)) /\
  paced None (w_log w).
Proof.
  destruct (pub_run_inv a evs) as [Hv Ha Hf Hp _]. cbv zeta. split; [done|]. split; [|done].
  intros Hd. destruct (dirty (w_pub (pub_run a evs))) eqn:E; [left; auto|right; auto].
Qed.

(** A flush that the pacing allows, or a forced one, leaves nothing pending. *)
Lemma flush_publishes force now a p :
  p_disposed p = false -> dirty p = true ->
  force = true \/ num_gt (nextEmitAt p) (num_of now) = false ->
  published (flush force now a p).1 = Some a /\ dirty (flush force now a p).1 = false.
Proof.
  intros Hd Hdirty Hn. unfold flush. rewrite Hd, Hdirty. simpl.
  assert (negb force && num_gt (nextEmitAt p) (num_of now) = false) as ->.
  { destruct Hn as [->|Hle]; [done|]. apply andb_false_iff. by right. }
  by destruct (update (published p) a).
Qed.

Lemma flush_disposed force now a p : p_disposed (flush force now a p).1 = p_disposed p.
Proof.
  unfold flush. destruct (p_disposed p || _); [done|]. destruct (_ && _); [done|].
  by destruct (update _ _).
Qed.

Lemma markDirty_disposed now a p : p_disposed (markDirty now a p).1 = p_disposed p.
Proof.
  unfold markDirty. destruct (p_disposed p) eqn:E; [done|].
  destruct (num_ge _ _); [by rewrite flush_disposed|by cbn].
Qed.

Lemma timer_disposed now a p : p_disposed (timer_fires now a p).1 = p_disposed p.
Proof. unfold timer_fires. destruct (timer p); [by rewrite flush_disposed|done]. Qed.

(** Whether anything was ever marked dirty. *)
Definition touched (p : publisher) : Prop := published p ≠ None \/ dirty p = true.

Lemma flush_touched force now a p : touched p -> touched (flush force now a p).1.
Proof.
  intros H. unfold flush. destruct (p_disposed p || _); [done|]. destruct (_ && _); [done|].
  destruct (update _ _); by left.
Qed.

Lemma markDirty_touched now a p :
  p_disposed p = false -> touched (markDirty now a p).1.
Proof.
  intros Hd. unfold markDirty. rewrite Hd. destruct (num_ge _ _); [|by right].
  apply flush_touched. by right.
Qed.

Lemma timer_touched now a p : touched p -> touched (timer_fires now a p).1.
Proof. intros H. unfold timer_fires. destruct (timer p); [by apply flush_touched|done]. Qed.

End Publisher.
Arguments publisher : clear implicits.
Arguments pub_world : clear implicits.
Arguments pub_event : clear implicits.
Arguments emission : clear implicits.
