(* ===== verification/Truncate.v ===== *)
(** Output truncation of the workspace tools: the harness copy
    (pi [packages/agent/dist/harness/utils/truncate.js]) and the coding-agent
    copy (pi [packages/coding-agent/src/core/tools/truncate.ts]), both as they
    stand in [drivers/tools/pibridge/bridge.mjs].  Strings are UTF-16, limits
    count UTF-8 bytes and lines. *)
From S2P Require Import Prelude Utf8.
Open Scope Z_scope.

Inductive cause := ByLines | ByBytes.

(** The object both [truncateHead] and [truncateTail] return. *)
Record truncation := Truncation {
  content : jstr;
  truncated : bool;
  truncatedBy : option cause;
  totalLines : Z;
  totalBytes : Z;
  outputLines : Z;
  outputBytes : Z;
  lastLinePartial : bool;
  firstLineExceedsLimit : bool;
  maxLines : Z;
  maxBytes : Z }.

Inductive js_error := TypeError.

Definition DEFAULT_MAX_LINES : Z := 2000.
Definition DEFAULT_MAX_BYTES : Z := 50 * 1024.

(** * The harness copy *)

Module Harness.

(** The portable loop of [utf8ByteLength], for a runtime without [Buffer]. *)
Fixpoint utf8ByteLength_loop (s : jstr) (bytes : Z) : Z :=
  match s with
  | [] => bytes
  | code :: r =>
      if code <=? 127 then utf8ByteLength_loop r (bytes + 1)
      else if code <=? 2047 then utf8ByteLength_loop r (bytes + 2)
      else if is_high code then
        match r with
        | next :: r' =>
            if is_low next then utf8ByteLength_loop r' (bytes + 4)
            else utf8ByteLength_loop r (bytes + 3)
        | [] => bytes + 3
        end
      else utf8ByteLength_loop r (bytes + 3)
  end.

(** [content.search(/[^\x00-\x7f]/)] *)
Fixpoint search_nonAscii (s : jstr) : option nat :=
  match s with
  | [] => None
  | c :: r => if 127 <? c then Some O else S <$> search_nonAscii r
  end.

Definition utf8ByteLength (runtimeBuffer : bool) (s : jstr) : Z :=
  if runtimeBuffer then Buffer_byteLength s
  else match search_nonAscii s with
       | None => Z.of_nat (length s)
       | Some firstNonAscii =>
           utf8ByteLength_loop (drop firstNonAscii s) (Z.of_nat firstNonAscii)
       end.

Definition splitLinesForCounting (content : jstr) : list jstr :=
  match content with
  | [] => []
  | _ =>
      let lines := split_char LF content in
      if ends_with [LF] content then removelast lines else lines
  end.

Fixpoint replaceUnpairedSurrogates (content : jstr) : jstr :=
  match content with
  | [] => []
  | code :: r =>
      if is_high code then
        match r with
        | next :: r' =>
            if is_low next then code :: next :: replaceUnpairedSurrogates r'
            else REPLACEMENT :: replaceUnpairedSurrogates r
        | [] => [REPLACEMENT]
        end
      else if is_low code then REPLACEMENT :: replaceUnpairedSurrogates r
      else code :: replaceUnpairedSurrogates r
  end.

(** The backward scan of [truncateStringToBytesFromEnd] over the reversed
    units before [start]: [out] is [str.slice(start)], [need] is
    [needsReplacement]. *)
Fixpoint scan_back (r : jstr) (maxBytes outputBytes : Z) (out : jstr) (need : bool)
  : jstr * bool :=
  match r with
  | [] => (out, need)
  | code :: r' =>
      match r' with
      | previous :: r'' =>
          if is_low code then
            if is_high previous then
              if maxBytes <? outputBytes + 4 then (out, need)
              else scan_back r'' maxBytes (outputBytes + 4) (previous :: code :: out) need
            else
              if maxBytes <? outputBytes + 3 then (out, need)
              else scan_back r' maxBytes (outputBytes + 3) (code :: out) true
          else if (55296 <=? code) && (code <=? 57343) then
            if maxBytes <? outputBytes + 3 then (out, need)
            else scan_back r' maxBytes (outputBytes + 3) (code :: out) true
          else
            let characterBytes := if code <=? 127 then 1 else if code <=? 2047 then 2 else 3 in
            if maxBytes <? outputBytes + characterBytes then (out, need)
            else scan_back r' maxBytes (outputBytes + characterBytes) (code :: out) need
      | [] =>
          if (55296 <=? code) && (code <=? 57343) then
            if maxBytes <? outputBytes + 3 then (out, need)
            else (code :: out, true)
          else
            let characterBytes := if code <=? 127 then 1 else if code <=? 2047 then 2 else 3 in
            if maxBytes <? outputBytes + characterBytes then (out, need)
            else (code :: out, need)
      end
  end.

Definition truncateStringToBytesFromEnd (str : jstr) (maxBytes : Z) : jstr :=
  if maxBytes <=? 0 then []
  else
    let '(output, needsReplacement) := scan_back (rev str) maxBytes 0 [] false in
    if needsReplacement then replaceUnpairedSurrogates output else output.

Section Truncation.
(** Whether the runtime has [Buffer]; Node does. *)
Context (runtimeBuffer : bool).

(** The line loop of [truncateHead]. *)
Fixpoint head_loop (lines : list jstr) (i maxLines maxBytes : Z)
    (outputLinesArr : list jstr) (outputBytesCount : Z) : list jstr * Z * cause :=
  match lines with
  | [] => (outputLinesArr, outputBytesCount, ByLines)
  | line :: rest =>
      if i <? maxLines then
        let lineBytes := utf8ByteLength runtimeBuffer line + (if 0 <? i then 1 else 0) in
        if maxBytes <? outputBytesCount + lineBytes
        then (outputLinesArr, outputBytesCount, ByBytes)
        else head_loop rest (i + 1) maxLines maxBytes
               (outputLinesArr ++ [line]) (outputBytesCount + lineBytes)
      else (outputLinesArr, outputBytesCount, ByLines)
  end.

Definition truncateHead (content : jstr) (optMaxLines optMaxBytes : option Z)
  : result js_error truncation :=
  let maxLines := nullish optMaxLines DEFAULT_MAX_LINES in
  let maxBytes := nullish optMaxBytes DEFAULT_MAX_BYTES in
  let totalBytes := utf8ByteLength runtimeBuffer content in
  let lines := splitLinesForCounting content in
  let totalLines := Z.of_nat (length lines) in
  if (totalLines <=? maxLines) && (totalBytes <=? maxBytes) then
    Ok (Truncation content false None totalLines totalBytes totalLines totalBytes
          false false maxLines maxBytes)
  else match lines with
  | [] => Throw TypeError
  | line0 :: _ =>
      let firstLineBytes := utf8ByteLength runtimeBuffer line0 in
      if maxBytes <? firstLineBytes then
        Ok (Truncation [] true (Some ByBytes) totalLines totalBytes 0 0
              false true maxLines maxBytes)
      else
        let '(outputLinesArr, outputBytesCount, by0) :=
          head_loop lines 0 maxLines maxBytes [] 0 in
        let outputLines := Z.of_nat (length outputLinesArr) in
        let by1 := if (maxLines <=? outputLines) && (outputBytesCount <=? maxBytes)
                   then ByLines else by0 in
        let outputContent := join [LF] outputLinesArr in
        Ok (Truncation outputContent true (Some by1) totalLines totalBytes outputLines
              (utf8ByteLength runtimeBuffer outputContent) false false maxLines maxBytes)
  end.

(** The line loop of [truncateTail], over the lines from the last one. *)
Fixpoint tail_loop (rlines : list jstr) (maxLines maxBytes : Z)
    (outputLinesArr : list jstr) (outputBytesCount : Z)
  : list jstr * Z * cause * bool :=
  match rlines with
  | [] => (outputLinesArr, outputBytesCount, ByLines, false)
  | line :: rest =>
      if Z.of_nat (length outputLinesArr) <? maxLines then
        let lineBytes := utf8ByteLength runtimeBuffer line +
          (if 0 <? Z.of_nat (length outputLinesArr) then 1 else 0) in
        if maxBytes <? outputBytesCount + lineBytes then
          match outputLinesArr with
          | [] =>
              let truncatedLine := truncateStringToBytesFromEnd line maxBytes in
              ([truncatedLine], utf8ByteLength runtimeBuffer truncatedLine, ByBytes, true)
          | _ => (outputLinesArr, outputBytesCount, ByBytes, false)
          end
        else tail_loop rest maxLines maxBytes (line :: outputLinesArr)
               (outputBytesCount + lineBytes)
      else (outputLinesArr, outputBytesCount, ByLines, false)
  end.

Definition truncateTail (content : jstr) (optMaxLines optMaxBytes : option Z) : truncation :=
  let maxLines := nullish optMaxLines DEFAULT_MAX_LINES in
  let maxBytes := nullish optMaxBytes DEFAULT_MAX_BYTES in
  let totalBytes := utf8ByteLength runtimeBuffer content in
  let lines := splitLinesForCounting content in
  let totalLines := Z.of_nat (length lines) in
  if (totalLines <=? maxLines) && (totalBytes <=? maxBytes) then
    Truncation content false None totalLines totalBytes totalLines totalBytes
      false false maxLines maxBytes
  else
    let '(outputLinesArr, outputBytesCount, by0, lastLinePartial) :=
      tail_loop (rev lines) maxLines maxBytes [] 0 in
    let outputLines := Z.of_nat (length outputLinesArr) in
    let by1 := if (maxLines <=? outputLines) && (outputBytesCount <=? maxBytes)
               then ByLines else by0 in
    let outputContent := join [LF] outputLinesArr in
    Truncation outputContent true (Some by1) totalLines totalBytes outputLines
      (utf8ByteLength runtimeBuffer outputContent) lastLinePartial false maxLines maxBytes.
End Truncation.

(** [(x).toFixed(1)] of the exact quotient [bytes / unit], [0 <= bytes]: the
    nearest tenth, the larger one on a tie (the quotients by a power of two
    are exact doubles). *)
Definition toFixed1 (bytes unit : Z) : jstr :=
  let tenths := (20 * bytes + unit) / (2 * unit) in
  num_str (tenths / 10) ++ js "." ++ num_str (tenths mod 10).

Definition formatSize (bytes : Z) : jstr :=
  if bytes <? 1024 then num_str bytes ++ js "B"
  else if bytes <? 1024 * 1024 then toFixed1 bytes 1024 ++ js "KB"
  else toFixed1 bytes (1024 * 1024) ++ js "MB".

(** ** Byte counting *)

Lemma utf8ByteLength_loop_spec s bytes :
  Forall is_unit s -> utf8ByteLength_loop s bytes = bytes + Buffer_byteLength s.
Proof.
  revert bytes; induction s as [|h l s Hh Hl IH|c s Hg IH] using jstr_char_ind;
    intros bytes HF.
  - rewrite byteLength_nil. simpl. lia.
  - inversion HF as [|? ? _ HF']; subst. inversion HF'; subst.
    rewrite byteLength_pair by done. simpl. rewrite Hh, Hl.
    unfold is_high in Hh. bool_to_prop. solve_tests. rewrite IH by done. lia.
  - inversion HF as [|? ? Hc HF']; subst. rewrite byteLength_cons by done.
    unfold unit_size. simpl. destruct (c <=? 127); [by rewrite IH by done; lia|].
    destruct (c <=? 2047); [rewrite IH by done; lia|].
    unfold glued in Hg. destruct (is_high c); simpl in Hg.
    + destruct s as [|d s]; [rewrite byteLength_nil; lia|].
      rewrite Hg, IH by done. lia.
    + rewrite IH by done. lia.
Qed.

Lemma search_nonAscii_spec s :
  match search_nonAscii s with
  | None => Forall (fun c => c <= 127) s
  | Some i => Forall (fun c => c <= 127) (take i s) /\ (i <= length s)%nat
  end.
Proof.
  induction s as [|c s IH]; simpl; [constructor|].
  destruct (Z.ltb_spec 127 c); [split; [constructor|lia]|].
  destruct (search_nonAscii s); simpl.
  - destruct IH. split; [by constructor | lia].
  - by constructor.
Qed.

Lemma byteLength_ascii s t :
  Forall is_unit s -> Forall (fun c => c <= 127) s ->
  Buffer_byteLength (s ++ t) = Z.of_nat (length s) + Buffer_byteLength t.
Proof.
  intros HF. induction HF as [|c s Hc HF IH]; intros HA; [done|].
  inversion HA as [|? ? Hle HA']; subst. cbn [app length].
  rewrite byteLength_cons, IH by (done || (unfold glued, is_high; solve_tests; done)).
  unfold unit_size. solve_tests. lia.
Qed.

(** The portable count agrees with [Buffer.byteLength] on every string. *)
Lemma utf8ByteLength_buffer b s :
  Forall is_unit s -> utf8ByteLength b s = Buffer_byteLength s.
Proof.
  intros HF. destruct b; [done|]. unfold utf8ByteLength.
  pose proof (search_nonAscii_spec s) as Hs.
  destruct (search_nonAscii s) as [i|].
  - destruct Hs as [Ha Hi]. rewrite utf8ByteLength_loop_spec by (by apply Forall_drop).
    rewrite <- (take_drop i s) at 2.
    rewrite byteLength_ascii by (done || by apply Forall_take).
    by rewrite length_take, Nat.min_l.
  - pose proof (byteLength_ascii s [] HF Hs) as H.
    by rewrite app_nil_r, byteLength_nil, Z.add_0_r in H.
Qed.

(** ** Lines *)

Lemma ends_with_LF s : ends_with [LF] s = true <-> exists p, s = p ++ [LF].
Proof. apply ends_with_spec. Qed.

(** The counted lines joined are the content without its final line feed. *)
Lemma splitLines_join s :
  s = join [LF] (splitLinesForCounting s) ++ (if ends_with [LF] s then [LF] else []).
Proof.
  unfold splitLinesForCounting. destruct s as [|c s]; [done|].
  destruct (ends_with [LF] (c :: s)) eqn:He.
  - apply ends_with_LF in He as [p Hp]. rewrite Hp, split_snoc, removelast_last.
    by rewrite join_split.
  - by rewrite join_split, app_nil_r.
Qed.

Lemma splitLines_Forall (P : Z -> Prop) s :
  Forall P s -> Forall (Forall P) (splitLinesForCounting s).
Proof.
  intros HF. unfold splitLinesForCounting. destruct s as [|c s]; [constructor|].
  pose proof (split_char_Forall P LF (c :: s) HF) as H.
  destruct (ends_with [LF] (c :: s)) eqn:He; [|done].
  apply ends_with_LF in He as [p Hp]. rewrite Hp in *.
  rewrite split_snoc, removelast_last in *. by apply Forall_app in H as [H _].
Qed.

Lemma splitLines_not_nil s : s ≠ [] -> splitLinesForCounting s ≠ [].
Proof.
  unfold splitLinesForCounting. destruct s as [|c s]; intros Hs; [done|].
  destruct (ends_with [LF] (c :: s)) eqn:He; [|apply split_char_not_nil].
  apply ends_with_LF in He as [p Hp]. rewrite Hp, split_snoc, removelast_last.
  apply split_char_not_nil.
Qed.

Lemma join_lines_prefix k s : join [LF] (take k (splitLinesForCounting s)) `prefix_of` s.
Proof.
  rewrite (splitLines_join s) at 2.
  eapply transitivity; [apply join_take_prefix | by apply prefix_app_r].
Qed.

(** Bytes of joined lines, one more line at either end. *)
Lemma byteLength_join_snoc ls l :
  Buffer_byteLength (join [LF] (ls ++ [l])) =
  Buffer_byteLength (join [LF] ls) + Buffer_byteLength l
  + (if bool_decide (ls = []) then 0 else 1).
Proof.
  destruct ls as [|x ls].
  - simpl. rewrite byteLength_nil. lia.
  - rewrite join_snoc by done. rewrite bool_decide_false by done.
    cbn [app]. rewrite byteLength_join_sep. lia.
Qed.

Lemma byteLength_join_cons l ls :
  Buffer_byteLength (join [LF] (l :: ls)) =
  Buffer_byteLength l + Buffer_byteLength (join [LF] ls)
  + (if bool_decide (ls = []) then 0 else 1).
Proof.
  destruct ls as [|x ls].
  - simpl. rewrite byteLength_nil. lia.
  - rewrite join_cons by done. rewrite bool_decide_false by done.
    cbn [app]. rewrite byteLength_join_sep. lia.
Qed.

(** ** The head loop *)

(** What the loop leaves: [out'] are the lines already kept and [k] more, their
    joined bytes are within the limit, and nothing more could be kept. *)
Lemma head_loop_spec b lines maxL maxB out count out' count' by' :
  Forall (Forall is_unit) lines ->
  count = Buffer_byteLength (join [LF] out) -> count <= maxB ->
  Z.of_nat (length out) <= maxL ->
  head_loop b lines (Z.of_nat (length out)) maxL maxB out count = (out', count', by') ->
  exists k, out' = out ++ take k lines /\ (k <= length lines)%nat /\
    count' = Buffer_byteLength (join [LF] out') /\ count' <= maxB /\
    Z.of_nat (length out') <= maxL /\
    match by' with
    | ByLines => k = length lines \/ Z.of_nat (length out') = maxL
    | ByBytes => exists line, lines !! k = Some line /\
                   maxB < Buffer_byteLength (join [LF] (out' ++ [line]))
    end.
Proof.
  intros HF; revert out count; induction HF as [|line rest Hl HF IH];
    intros out count Hc Hle Hlen Heq; simpl in Heq.
  - injection Heq as <- <- <-. exists O. rewrite app_nil_r. simpl. auto 10 with lia.
  - destruct (Z.ltb_spec (Z.of_nat (length out)) maxL) as [Hlt|Hge].
    2:{ injection Heq as <- <- <-. exists O. simpl. rewrite app_nil_r.
        repeat split; try done; lia. }
    rewrite utf8ByteLength_buffer in Heq by done.
    pose proof (byteLength_join_snoc out line) as Hsnoc.
    assert (Hgap : (if 0 <? Z.of_nat (length out) then 1 else 0) =
                   (if bool_decide (out = []) then 0 else 1)).
    { by destruct out. }
    rewrite Hgap in Heq.
    destruct (Z.ltb_spec maxB (count + (Buffer_byteLength line +
                (if bool_decide (out = []) then 0 else 1)))) as [Hgt|Hfit].
    + injection Heq as <- <- <-. exists O. simpl. rewrite app_nil_r.
      repeat split; try done; try lia. exists line. split; [done|]. lia.
    + replace (Z.of_nat (length out) + 1) with (Z.of_nat (length (out ++ [line]))) in Heq
        by (rewrite length_app; simpl; lia).
      apply IH in Heq as (k & -> & Hk & Hc' & Hle' & Hlen' & Hby);
        [|lia|lia|rewrite length_app; simpl; lia].
      exists (S k). simpl. rewrite <- !app_assoc in *. simpl in *.
      repeat split; try done; try lia.
      destruct by'; [destruct Hby as [->|]; auto|].
      destruct Hby as (l' & ? & ?). exists l'. split; [done|].
      rewrite <- !app_assoc in *. done.
Qed.

Lemma truncateHead_fits b s ml mb :
  let maxL := nullish ml DEFAULT_MAX_LINES in
  let maxB := nullish mb DEFAULT_MAX_BYTES in
  Forall is_unit s ->
  Z.of_nat (length (splitLinesForCounting s)) <= maxL -> Buffer_byteLength s <= maxB ->
  truncateHead b s ml mb =
  Ok (Truncation s false None (Z.of_nat (length (splitLinesForCounting s)))
        (Buffer_byteLength s) (Z.of_nat (length (splitLinesForCounting s)))
        (Buffer_byteLength s) false false maxL maxB).
Proof.
  intros maxL maxB HF Hl Hb. unfold truncateHead. fold maxL maxB.
  rewrite utf8ByteLength_buffer by done.
  by rewrite (proj2 (Z.leb_le _ maxL)), (proj2 (Z.leb_le _ maxB)) by done.
Qed.

Lemma join_Forall (P : Z -> Prop) sep ls :
  Forall P sep -> Forall (Forall P) ls -> Forall P (join sep ls).
Proof.
  intros Hs. induction 1 as [|l ls Hl HF IH]; [constructor|].
  destruct ls as [|l' ls]; [done|]. rewrite join_cons by done.
  by repeat (apply Forall_app; split).
Qed.

Lemma LF_unit : Forall is_unit [LF].
Proof. repeat constructor; unfold LF; lia. Qed.

(** The cut case: some number of whole lines is kept. *)
Lemma truncateHead_cut b s ml mb :
  let maxL := nullish ml DEFAULT_MAX_LINES in
  let maxB := nullish mb DEFAULT_MAX_BYTES in
  let lines := splitLinesForCounting s in
  Forall is_unit s -> 0 <= maxL -> 0 <= maxB ->
  ~ (Z.of_nat (length lines) <= maxL /\ Buffer_byteLength s <= maxB) ->
  exists t k, truncateHead b s ml mb = Ok t /\ truncated t = true /\
    outputLines t = Z.of_nat k /\ (k <= length lines)%nat /\ Z.of_nat k <= maxL /\
    content t = join [LF] (take k lines) /\
    outputBytes t = Buffer_byteLength (content t) /\ outputBytes t <= maxB /\
    (k = length lines \/ Z.of_nat k = maxL \/
     maxB < Buffer_byteLength (join [LF] (take (S k) lines))).
Proof.
  intros maxL maxB lines HF HL HB Hcut.
  assert (HFl : Forall (Forall is_unit) lines) by (by apply splitLines_Forall).
  unfold truncateHead. fold maxL maxB lines. rewrite utf8ByteLength_buffer by done.
  destruct ((Z.of_nat (length lines) <=? maxL) && (Buffer_byteLength s <=? maxB)) eqn:Hfit;
    [bool_to_prop; tauto|].
  destruct lines as [|line0 rest] eqn:Hlines.
  { exfalso. destruct s; [apply Hcut; simpl; rewrite byteLength_nil; lia|].
    by apply (splitLines_not_nil (z :: s)). }
  inversion HFl; subst. rewrite utf8ByteLength_buffer by done.
  destruct (Z.ltb_spec maxB (Buffer_byteLength line0)) as [Hbig|Hsmall].
  { eexists _, O. split; [done|]. simpl. rewrite byteLength_nil. auto 10 with lia. }
  destruct (head_loop b (line0 :: rest) 0 maxL maxB [] 0) as [[out count] by'] eqn:Hloop.
  apply (head_loop_spec b (line0 :: rest) maxL maxB [] 0) in Hloop
    as (k & -> & Hk & -> & Hle & Hlen & Hby); [|done|done|lia|simpl; lia].
  cbn [app] in *. assert (Hkl : length (take k (line0 :: rest)) = k)
    by (rewrite length_take; lia).
  eexists _, k. split; [done|]. simpl truncated. simpl outputLines. simpl content.
  simpl outputBytes. rewrite Hkl in *.
  rewrite utf8ByteLength_buffer
    by (apply join_Forall; [apply LF_unit | by apply Forall_take]).
  repeat split; try done; try lia.
  destruct by'; [tauto|]. destruct Hby as (l' & Hl' & Hgt). right. right.
  by rewrite (take_S_r _ _ l').
Qed.

(** [truncateHead] returns for every string and every pair of
    non-negative limits; what it keeps is a prefix of the content made of whole
    lines, never more than [maxLines] lines or [maxBytes] UTF-8 bytes; the
    content is untouched exactly when both limits hold; and when it is cut, no
    further line would have fitted within the limits. *)
Theorem truncateHead_correct b s ml mb :
  let maxL := nullish ml DEFAULT_MAX_LINES in
  let maxB := nullish mb DEFAULT_MAX_BYTES in
  let lines := splitLinesForCounting s in
  Forall is_unit s -> 0 <= maxL -> 0 <= maxB ->
  exists t, truncateHead b s ml mb = Ok t /\
    content t `prefix_of` s /\
    outputBytes t = Buffer_byteLength (content t) /\ outputBytes t <= maxB /\
    outputLines t <= maxL /\
    (truncated t = false <-> Z.of_nat (length lines) <= maxL /\ Buffer_byteLength s <= maxB) /\
    (truncated t = false -> content t = s) /\
    (truncated t = true ->
       content t = join [LF] (take (Z.to_nat (outputLines t)) lines) /\
       (outputLines t = Z.of_nat (length lines) \/ outputLines t = maxL \/
        maxB < Buffer_byteLength (join [LF] (take (S (Z.to_nat (outputLines t))) lines)))).
Proof.
  intros maxL maxB lines HF HL HB.
  destruct (decide (Z.of_nat (length lines) <= maxL /\ Buffer_byteLength s <= maxB))
    as [[Hl Hb]|Hcut].
  - eexists. split; [by apply truncateHead_fits|]. simpl. split; [done|].
    fold lines. repeat split; auto with lia.
  - destruct (truncateHead_cut b s ml mb HF HL HB Hcut)
      as (t & k & Ht & Htr & Hol & Hk & HkL & Hc & Hob & HobL & Hmax).
    exists t. split; [done|]. rewrite Hc, Hol, Htr, Nat2Z.id.
    split; [apply join_lines_prefix|]. rewrite Hob, Hc in *.
    repeat split; try done; try lia; try tauto. destruct Hmax as [->|[?|?]]; auto.
Qed.

Lemma truncateHead_correct_witness :
  exists t, truncateHead false (js "abc" ++ [LF] ++ js "de" ++ [LF] ++ js "f") (Some 2) (Some 5)
            = Ok t /\ outputBytes t <= 5.
Proof.
  destruct (truncateHead_correct false (js "abc" ++ [LF] ++ js "de" ++ [LF] ++ js "f")
              (Some 2) (Some 5)) as (t & Ht & _ & _ & Hb & _).
  - by apply all_units_spec.
  - simpl; lia.
  - simpl; lia.
  - exists t. split; [exact Ht | exact Hb].
Defined.

(** ** The backward scan *)

Lemma replaceUnpaired_spec s :
  Forall is_unit s -> replaceUnpairedSurrogates s = units_of (code_points s).
Proof.
  induction s as [|h l s Hh Hl IH|c s Hg IH] using jstr_char_ind; intros HF; [done| |].
  - inversion HF as [|? ? _ HF']; subst. inversion HF'; subst.
    rewrite code_points_pair by done. unfold units_of.
    rewrite bind_cons, cp_units_pair by done. simpl. rewrite Hh, Hl. by rewrite IH.
  - inversion HF as [|? ? Hc HF']; subst.
    rewrite code_points_cons, units_of_app, <- IH by done. clear IH.
    unfold glued in Hg. simpl. destruct (is_high c) eqn:Eh; simpl in Hg.
    + destruct s as [|d s]; [done|]. by rewrite Hg.
    + destruct (is_low c) eqn:El; [done|]. simpl. unfold cp_units, is_unit in *.
      by rewrite (proj2 (Z.leb_le _ _)) by lia.
Qed.

(** The unit before [s] (the head of the reversed rest) does not pair with its
    first unit. *)
Definition no_split (r s : jstr) : Prop :=
  match r with c :: _ => glued c s | [] => false end = false.

Lemma code_points_rev_app r s :
  no_split r s -> code_points (rev r ++ s) = code_points (rev r) ++ code_points s.
Proof.
  intros H. apply code_points_app. destruct r as [|c r]; [done|].
  simpl rev. by rewrite last_snoc.
Qed.

Lemma single_code_point c :
  is_unit c -> exists cp, code_points [c] = [cp] /\ cp_size cp = unit_size c /\
    (is_high c || is_low c = false -> cp_units cp = [c]).
Proof.
  intros Hc. unfold unit_size, is_unit in *. simpl.
  destruct (is_high c) eqn:E1; [|destruct (is_low c) eqn:E2]; eexists; (split; [done|]);
    unfold is_high, is_low, cp_size, REPLACEMENT in *; bool_to_prop; simpl.
  1,2: split; [|done]; repeat case_match; bool_to_prop; lia.
  split.
  - by rewrite (proj2 (Z.leb_le c 65535)) by lia.
  - intros _. unfold cp_units. by rewrite (proj2 (Z.leb_le _ _)) by lia.
Qed.

(** One step of the scan takes one character [ch] off the end of what is left. *)
Lemma scan_step r max ob out need :
  r ≠ [] -> Forall is_unit r -> no_split r out ->
  exists ch r2 cp u, r = rev ch ++ r2 /\ ch ≠ [] /\
    code_points (ch ++ out) = cp :: code_points out /\ no_split r2 (ch ++ out) /\
    (u = false -> cp_units cp = ch) /\
    scan_back r max ob out need =
      if max <? ob + cp_size cp then (out, need)
      else scan_back r2 max (ob + cp_size cp) (ch ++ out) (need || u).
Proof.
  intros Hr HF Hns. destruct r as [|c r']; [done|]. clear Hr.
  inversion HF as [|? ? Hc HF']; subst.
  destruct (single_code_point c Hc) as (cp & Hcp & Hsz & Hu).
  assert (Hsingle : no_split r' (c :: out) ->
    scan_back (c :: r') max ob out need =
      (if max <? ob + cp_size cp then (out, need)
       else scan_back r' max (ob + cp_size cp) (c :: out) (need || (is_high c || is_low c))) ->
    exists ch r2 cp u, c :: r' = rev ch ++ r2 /\ ch ≠ [] /\
      code_points (ch ++ out) = cp :: code_points out /\ no_split r2 (ch ++ out) /\
      (u = false -> cp_units cp = ch) /\
      scan_back (c :: r') max ob out need =
        if max <? ob + cp_size cp then (out, need)
        else scan_back r2 max (ob + cp_size cp) (ch ++ out) (need || u)).
  { intros Hn2 Heq. exists [c], r', cp, (is_high c || is_low c).
    repeat split; try done. cbn [app].
    rewrite code_points_cons by done. by rewrite Hcp. }
  assert (Hrange : (55296 <=? c) && (c <=? 57343) = is_high c || is_low c).
  { unfold is_high, is_low. destruct (Z.leb_spec 55296 c), (Z.leb_spec c 57343),
      (Z.leb_spec c 56319), (Z.leb_spec 56320 c); simpl; done || lia. }
  destruct r' as [|p r''].
  - apply Hsingle; [done|]. cbn [scan_back]. rewrite Hrange, Hsz.
    destruct (is_high c || is_low c) eqn:Hs.
    + rewrite unit_size_surrogate by (rewrite <- Hrange in Hs; bool_to_prop; lia).
      by rewrite orb_true_r.
    + by rewrite orb_false_r.
  - destruct (is_low c) eqn:Hlow; [destruct (is_high p) eqn:Hhigh|].
    + exists [p; c], r'', (pair_cp p c), false. repeat split; try done.
      * by apply code_points_pair.
      * destruct r''; [done|]. apply glued_sep. by apply high_not_low.
      * intros _. by apply cp_units_pair.
      * cbn [scan_back]. rewrite Hlow, Hhigh, orb_false_r.
        assert (cp_size (pair_cp p c) = 4) as ->; [|done].
        unfold cp_size, pair_cp, is_high, is_low in *. bool_to_prop. by solve_tests.
    + apply Hsingle; [unfold no_split, glued; by rewrite Hhigh|].
      cbn [scan_back]. rewrite Hlow, Hhigh, Hsz, !orb_true_r.
      by rewrite unit_size_surrogate by (unfold is_low in Hlow; bool_to_prop; lia).
    + apply Hsingle; [by apply glued_sep|].
      cbn [scan_back]. rewrite Hrange, Hlow, Hsz, orb_false_r.
      destruct (is_high c) eqn:Hh; simpl.
      * rewrite unit_size_surrogate by (unfold is_high in Hh; bool_to_prop; lia).
        by rewrite orb_true_r.
      * by rewrite orb_false_r.
Qed.

Lemma scan_back_spec r max ob out need out' need' :
  Forall is_unit r -> no_split r out ->
  ob = sum_sizes (code_points out) -> ob <= max ->
  (need = false -> units_of (code_points out) = out) ->
  scan_back r max ob out need = (out', need') ->
  code_points out' = longest_fit max (code_points (rev r ++ out)) /\
  (exists q, rev r ++ out = q ++ out') /\
  (need' = false -> units_of (code_points out') = out').
Proof.
  remember (length r) as n eqn:Hn. revert r ob out need Hn.
  induction n as [n IH] using lt_wf_ind. intros r ob out need Hn HF Hns Hob Hle Hneed Heq.
  destruct (decide (r = [])) as [->|Hr].
  { cbn in Heq. injection Heq as <- <-. simpl. split; [|split; [by exists []|done]].
    symmetry. apply longest_fit_all. lia. }
  destruct (scan_step r max ob out need Hr HF Hns)
    as (ch & r2 & cp & u & -> & Hch & Hcps & Hns2 & Hu & Hstep).
  rewrite Hstep in Heq. rewrite rev_app_distr, rev_involutive, <- app_assoc.
  apply Forall_app in HF as [_ HF2].
  destruct (Z.ltb_spec max (ob + cp_size cp)) as [Hgt|Hfit].
  - injection Heq as <- <-.
    rewrite code_points_rev_app, Hcps by done.
    split; [symmetry; apply longest_fit_unique; lia|].
    split; [|done]. exists (rev r2 ++ ch). by rewrite app_assoc.
  - eapply IH; try exact Heq; try done.
    + rewrite Hn, length_app, length_rev. destruct ch; [done|simpl; lia].
    + rewrite Hcps. simpl. lia.
    + intros [-> ->]%orb_false_iff. rewrite Hcps. unfold units_of.
      rewrite bind_cons, Hu by done. f_equal. by apply Hneed.
Qed.

(** What is kept is the longest run of whole characters at the end. *)
Lemma truncateStringToBytesFromEnd_spec s max :
  Forall is_unit s ->
  truncateStringToBytesFromEnd s max = units_of (longest_fit max (code_points s)).
Proof.
  intros HF. unfold truncateStringToBytesFromEnd.
  destruct (Z.leb_spec max 0); [by rewrite longest_fit_none|].
  destruct (scan_back (rev s) max 0 [] false) as [out need] eqn:Hscan.
  pose proof Hscan as Hscan'.
  apply scan_back_spec in Hscan as (Hcps & [q Hq] & Hneed); try done; try lia.
  2: by apply Forall_rev.
  2: by destruct (rev s) as [|c ?]; [|unfold no_split, glued; rewrite andb_false_r].
  rewrite rev_involutive, app_nil_r in *. rewrite <- Hcps.
  destruct need; [|symmetry; by apply Hneed].
  apply replaceUnpaired_spec. rewrite Hq in HF. by apply Forall_app in HF as [_ HF].
Qed.

(** ** The tail loop *)

Lemma byteLength_fit max s :
  Forall is_unit s -> 0 <= max ->
  Buffer_byteLength (units_of (longest_fit max (code_points s))) <= max.
Proof.
  intros HF Hm. rewrite byteLength_units_of; [by apply longest_fit_size|].
  destruct (longest_fit_suffix max (code_points s)) as [q Hq].
  pose proof (code_points_scalar s HF) as H. rewrite Hq in H.
  by apply Forall_app in H as [_ H].
Qed.

Lemma units_of_units cps : Forall is_scalar cps -> Forall is_unit (units_of cps).
Proof.
  induction 1 as [|cp cps [Hr Hs] HF IH]; [constructor|].
  unfold units_of. rewrite bind_cons. apply Forall_app. split; [|done].
  unfold cp_units, is_unit. destruct (Z.leb_spec cp 65535).
  - repeat constructor; lia.
  - repeat constructor; euclid.
Qed.

Lemma fit_units max s :
  Forall is_unit s -> Forall is_unit (units_of (longest_fit max (code_points s))).
Proof.
  intros HF. apply units_of_units.
  destruct (longest_fit_suffix max (code_points s)) as [q Hq].
  pose proof (code_points_scalar s HF) as H. rewrite Hq in H.
  by apply Forall_app in H as [_ H].
Qed.

Lemma tail_loop_spec b rlines maxL maxB out count out' count' by' part :
  Forall (Forall is_unit) rlines ->
  count = Buffer_byteLength (join [LF] out) -> 0 <= count <= maxB ->
  Z.of_nat (length out) <= maxL ->
  tail_loop b rlines maxL maxB out count = (out', count', by', part) ->
  count' = Buffer_byteLength (join [LF] out') /\ count' <= maxB /\
  Z.of_nat (length out') <= maxL /\
  (if part then
     out = [] /\ exists line rest, rlines = line :: rest /\
       maxB < Buffer_byteLength line /\
       out' = [units_of (longest_fit maxB (code_points line))]
   else exists k, out' = rev (take k rlines) ++ out /\ (k <= length rlines)%nat /\
     match by' with
     | ByLines => k = length rlines \/ Z.of_nat (length out') = maxL
     | ByBytes => exists line, rlines !! k = Some line /\
                    maxB < Buffer_byteLength (join [LF] (line :: out'))
     end).
Proof.
  intros HF; revert out count; induction HF as [|line rest Hl HF IH];
    intros out count Hc Hle Hlen Heq; simpl in Heq.
  { injection Heq as <- <- <- <-. repeat split; try done; try lia.
    exists O. simpl. auto with lia. }
  destruct (Z.ltb_spec (Z.of_nat (length out)) maxL) as [Hlt|Hge].
  2:{ injection Heq as <- <- <- <-. repeat split; try done; try lia.
      exists O. simpl. repeat split; try done; lia. }
  rewrite utf8ByteLength_buffer in Heq by done.
  pose proof (byteLength_join_cons line out) as Hcons.
  assert (Hgap : (if 0 <? Z.of_nat (length out) then 1 else 0) =
                 (if bool_decide (out = []) then 0 else 1)) by (by destruct out).
  rewrite Hgap in Heq. clear Hgap.
  destruct (Z.ltb_spec maxB (count + (Buffer_byteLength line +
              (if bool_decide (out = []) then 0 else 1)))) as [Hgt|Hfit].
  - destruct out as [|l0 out].
    + injection Heq as <- <- <- <-. rewrite truncateStringToBytesFromEnd_spec by done.
      rewrite utf8ByteLength_buffer by (by apply fit_units). cbn [join length].
      repeat split; try lia; [apply byteLength_fit; [done|lia]|].
      exists line, rest. simpl in Hgt. cbn [join] in Hc. rewrite byteLength_nil in Hc.
      repeat split; try done; lia.
    + injection Heq as <- <- <- <-. repeat split; try done; try lia.
      exists O. split; [done|]. split; [lia|]. exists line. split; [done|]. lia.
  - apply IH in Heq as (Hc' & Hle' & Hlen' & Hres); [|lia| |cbn [length]; lia].
    2:{ pose proof (byteLength_nonneg (join [LF] (line :: out))). lia. }
    repeat split; try done. destruct part.
    + by destruct Hres as [? _].
    + destruct Hres as (k & -> & Hk & Hby). exists (S k). cbn [take rev length].
      rewrite <- app_assoc. split; [done|]. split; [lia|].
      destruct by'; [destruct Hby as [->|?]; auto|]. done.
Qed.

Lemma rev_take_rev {A} k (l : list A) : rev (take k (rev l)) = drop (length l - k) l.
Proof. by rewrite firstn_rev, rev_involutive. Qed.

(** [truncateTail] keeps at most [maxLines] lines and [maxBytes] UTF-8
    bytes of the end of the content; the content is untouched exactly when it
    fits; otherwise it is the longest run of whole final lines that fits, or,
    when even the last line does not fit, the longest run of whole characters
    at the end of that line (with unpaired surrogates replaced). *)
Theorem truncateTail_correct b s ml mb :
  let maxL := nullish ml DEFAULT_MAX_LINES in
  let maxB := nullish mb DEFAULT_MAX_BYTES in
  let lines := splitLinesForCounting s in
  let t := truncateTail b s ml mb in
  let k := Z.to_nat (outputLines t) in
  Forall is_unit s -> 0 <= maxL -> 0 <= maxB ->
  outputBytes t = Buffer_byteLength (content t) /\ outputBytes t <= maxB /\
  outputLines t <= maxL /\
  (truncated t = false <-> Z.of_nat (length lines) <= maxL /\ Buffer_byteLength s <= maxB) /\
  (truncated t = false -> content t = s) /\
  (truncated t = true -> lastLinePartial t = false ->
     content t = join [LF] (drop (length lines - k) lines) /\
     (k = length lines \/ Z.of_nat k = maxL \/
      maxB < Buffer_byteLength (join [LF] (drop (length lines - S k) lines)))) /\
  (lastLinePartial t = true ->
     exists front line, lines = front ++ [line] /\ maxB < Buffer_byteLength line /\
       content t = units_of (longest_fit maxB (code_points line))).
Proof.
  intros maxL maxB lines t k HF HL HB. subst k.
  assert (HFl : Forall (Forall is_unit) (rev lines)) by (by apply Forall_rev, splitLines_Forall).
  subst t. unfold truncateTail. fold maxL maxB lines. rewrite utf8ByteLength_buffer by done.
  destruct ((Z.of_nat (length lines) <=? maxL) && (Buffer_byteLength s <=? maxB)) eqn:Hfit.
  { bool_to_prop. simpl. repeat split; done || lia. }
  destruct (tail_loop b (rev lines) maxL maxB [] 0) as [[[out count] by'] part] eqn:Hloop.
  apply tail_loop_spec in Hloop as (-> & Hle & Hlen & Hres); try done; try (simpl; lia).
  assert (Hou : Forall is_unit (join [LF] out)).
  { apply join_Forall; [apply LF_unit|]. destruct part.
    - destruct Hres as (_ & line & rest & Hrl & _ & ->).
      repeat constructor. apply fit_units. rewrite Hrl in HFl. by inversion HFl.
    - destruct Hres as (k & -> & _). rewrite app_nil_r.
      by apply Forall_rev, Forall_take. }
  cbn [content outputBytes outputLines truncated lastLinePartial].
  rewrite utf8ByteLength_buffer, Nat2Z.id by done.
  split; [done|]. split; [done|]. split; [done|].
  split; [split; [done | intros [? ?]; bool_to_prop; lia]|].
  split; [done|]. destruct part; (split; intros; try done).
  - destruct Hres as (_ & line & rest & Hrl & Hbig & ->). exists (rev rest), line.
    split; [|done]. by rewrite <- (rev_involutive lines), Hrl.
  - destruct Hres as (k & -> & Hk & Hby). rewrite length_rev in *.
    rewrite app_nil_r in *.
    assert (Hkl : length (rev (take k (rev lines))) = k)
      by (rewrite length_rev, length_take, length_rev; lia).
    rewrite Hkl in *. split; [by rewrite rev_take_rev|].
    destruct by'; [tauto|]. destruct Hby as (line & Hline & Hgt). right; right.
    by rewrite <- rev_take_rev, (take_S_r _ _ line), rev_app_distr.
Qed.

Lemma truncateTail_correct_witness :
  outputBytes (truncateTail true (js "abc" ++ [LF] ++ js "de" ++ [LF] ++ [55357; 56832])
                 (Some 2) (Some 3)) <= 3.
Proof.
  destruct (truncateTail_correct true (js "abc" ++ [LF] ++ js "de" ++ [LF] ++ [55357; 56832])
              (Some 2) (Some 3)) as (_ & Hb & _).
  - by apply all_units_spec.
  - simpl; lia.
  - simpl; lia.
  - exact Hb.
Defined.

(** Both loops only move code units around. *)
Lemma head_loop_units b lines i maxL maxB out count :
  Forall (Forall is_unit) lines -> Forall (Forall is_unit) out ->
  Forall (Forall is_unit) (head_loop b lines i maxL maxB out count).1.1.
Proof.
  intros HF; revert i out count; induction HF as [|l ls Hl HF IH]; intros i out count Ho;
    simpl; [done|].
  destruct (i <? maxL); [|done]. destruct (_ <? _); [done|].
  apply IH. apply Forall_app. by repeat constructor.
Qed.

Lemma tail_loop_units b rlines maxL maxB out count :
  Forall (Forall is_unit) rlines -> Forall (Forall is_unit) out ->
  Forall (Forall is_unit) (tail_loop b rlines maxL maxB out count).1.1.1.
Proof.
  intros HF; revert out count; induction HF as [|l ls Hl HF IH]; intros out count Ho;
    simpl; [done|].
  destruct (_ <? maxL); [|done]. destruct (_ <? _); [|by apply IH; constructor].
  destruct out; [|done]. repeat constructor.
  rewrite truncateStringToBytesFromEnd_spec by done. by apply fit_units.
Qed.

End Harness.

(** * The coding-agent copy *)

Module CodingAgent.

Definition DEFAULT_MAX_LINES2 : Z := 2000.
Definition DEFAULT_MAX_BYTES2 : Z := 50 * 1024.
Definition GREP_MAX_LINE_LENGTH2 : Z := 500.

Definition splitLinesForCounting2 (content : jstr) : list jstr :=
  if Z.of_nat (length content) =? 0 then []
  else
    let lines := split_char LF content in
    if ends_with [LF] content then removelast lines else lines.

Definition formatSize2 (bytes : Z) : jstr :=
  if bytes <? 1024 then num_str bytes ++ js "B"
  else if bytes <? 1024 * 1024 then Harness.toFixed1 bytes 1024 ++ js "KB"
  else Harness.toFixed1 bytes (1024 * 1024) ++ js "MB".

(** The line loop of [truncateHead2]. *)
Fixpoint head_loop2 (lines : list jstr) (i maxLines maxBytes : Z)
    (outputLinesArr : list jstr) (outputBytesCount : Z) (truncatedBy : cause)
  : list jstr * Z * cause :=
  match lines with
  | [] => (outputLinesArr, outputBytesCount, truncatedBy)
  | line :: rest =>
      if negb (i <? maxLines) then (outputLinesArr, outputBytesCount, truncatedBy)
      else
        let lineBytes := Buffer_byteLength line + (if 0 <? i then 1 else 0) in
        if maxBytes <? outputBytesCount + lineBytes
        then (outputLinesArr, outputBytesCount, ByBytes)
        else head_loop2 rest (i + 1) maxLines maxBytes (outputLinesArr ++ [line])
               (outputBytesCount + lineBytes) truncatedBy
  end.

Definition truncateHead2 (content : jstr) (optMaxLines optMaxBytes : option Z)
  : result js_error truncation :=
  let maxLines := nullish optMaxLines DEFAULT_MAX_LINES2 in
  let maxBytes := nullish optMaxBytes DEFAULT_MAX_BYTES2 in
  let totalBytes := Buffer_byteLength content in
  let lines := splitLinesForCounting2 content in
  let totalLines := Z.of_nat (length lines) in
  if (totalLines <=? maxLines) && (totalBytes <=? maxBytes) then
    Ok (Truncation content false None totalLines totalBytes totalLines totalBytes
          false false maxLines maxBytes)
  else match lines with
  | [] => Throw TypeError
  | line0 :: _ =>
      if maxBytes <? Buffer_byteLength line0 then
        Ok (Truncation [] true (Some ByBytes) totalLines totalBytes 0 0
              false true maxLines maxBytes)
      else
        let '(outputLinesArr, outputBytesCount, by0) :=
          head_loop2 lines 0 maxLines maxBytes [] 0 ByLines in
        let outputLines := Z.of_nat (length outputLinesArr) in
        let by1 := if (maxLines <=? outputLines) && (outputBytesCount <=? maxBytes)
                   then ByLines else by0 in
        let outputContent := join [LF] outputLinesArr in
        Ok (Truncation outputContent true (Some by1) totalLines totalBytes outputLines
              (Buffer_byteLength outputContent) false false maxLines maxBytes)
  end.

(** Cuts the encoded bytes and moves forward to a character boundary. *)
Definition truncateStringToBytesFromEnd2 (str : jstr) (maxBytes : Z) : jstr :=
  let buf := utf8_encode str in
  if Z.of_nat (length buf) <=? maxBytes then str
  else
    let start := Z.of_nat (length buf) - maxBytes in
    utf8_decode (drop_while is_continuation (drop (Z.to_nat start) buf)).

(** The line loop of [truncateTail2], over the lines from the last one. *)
Fixpoint tail_loop2 (rlines : list jstr) (maxLines maxBytes : Z)
    (outputLinesArr : list jstr) (outputBytesCount : Z) : list jstr * Z * cause * bool :=
  match rlines with
  | [] => (outputLinesArr, outputBytesCount, ByLines, false)
  | line :: rest =>
      if Z.of_nat (length outputLinesArr) <? maxLines then
        let lineBytes := Buffer_byteLength line +
          (if 0 <? Z.of_nat (length outputLinesArr) then 1 else 0) in
        if maxBytes <? outputBytesCount + lineBytes then
          match outputLinesArr with
          | [] =>
              let truncatedLine := truncateStringToBytesFromEnd2 line maxBytes in
              ([truncatedLine], Buffer_byteLength truncatedLine, ByBytes, true)
          | _ => (outputLinesArr, outputBytesCount, ByBytes, false)
          end
        else tail_loop2 rest maxLines maxBytes (line :: outputLinesArr)
               (outputBytesCount + lineBytes)
      else (outputLinesArr, outputBytesCount, ByLines, false)
  end.

Definition truncateTail2 (content : jstr) (optMaxLines optMaxBytes : option Z) : truncation :=
  let maxLines := nullish optMaxLines DEFAULT_MAX_LINES2 in
  let maxBytes := nullish optMaxBytes DEFAULT_MAX_BYTES2 in
  let totalBytes := Buffer_byteLength content in
  let lines := splitLinesForCounting2 content in
  let totalLines := Z.of_nat (length lines) in
  if (totalLines <=? maxLines) && (totalBytes <=? maxBytes) then
    Truncation content false None totalLines totalBytes totalLines totalBytes
      false false maxLines maxBytes
  else
    let '(outputLinesArr, outputBytesCount, by0, lastLinePartial) :=
      tail_loop2 (rev lines) maxLines maxBytes [] 0 in
    let outputLines := Z.of_nat (length outputLinesArr) in
    let by1 := if (maxLines <=? outputLines) && (outputBytesCount <=? maxBytes)
               then ByLines else by0 in
    let outputContent := join [LF] outputLinesArr in
    Truncation outputContent true (Some by1) totalLines totalBytes outputLines
      (Buffer_byteLength outputContent) lastLinePartial false maxLines maxBytes.

(** [truncateLine]: the text and whether it was cut ([0 <= maxChars]). *)
Definition truncateLine (line : jstr) (maxChars : option Z) : jstr * bool :=
  let maxChars := nullish maxChars GREP_MAX_LINE_LENGTH2 in
  if Z.of_nat (length line) <=? maxChars then (line, false)
  else (slice 0 (Z.to_nat maxChars) line ++ js "... [truncated]", true).

(** ** The two copies agree *)

Lemma splitLines2_eq s : splitLinesForCounting2 s = Harness.splitLinesForCounting s.
Proof. unfold splitLinesForCounting2, Harness.splitLinesForCounting. by destruct s. Qed.

Lemma head_loop2_eq b lines i maxL maxB out count :
  Forall (Forall is_unit) lines ->
  head_loop2 lines i maxL maxB out count ByLines =
  Harness.head_loop b lines i maxL maxB out count.
Proof.
  intros HF; revert i out count; induction HF as [|l ls Hl HF IH]; intros i out count; [done|].
  simpl. rewrite Harness.utf8ByteLength_buffer by done.
  destruct (i <? maxL); simpl; [|done]. destruct (_ <? _); [done | apply IH].
Qed.

(** The byte cut and the unit scan keep the same text. *)
Lemma truncateString2_eq s max :
  Forall is_unit s -> max < Buffer_byteLength s ->
  truncateStringToBytesFromEnd2 s max = Harness.truncateStringToBytesFromEnd s max.
Proof.
  intros HF Hm. rewrite Harness.truncateStringToBytesFromEnd_spec by done.
  unfold truncateStringToBytesFromEnd2. unfold Buffer_byteLength in Hm.
  rewrite (proj2 (Z.leb_gt _ _)) by done.
  pose proof (code_points_scalar s HF) as Hs.
  unfold utf8_encode in *. rewrite length_bind_bytes in *.
  destruct (Z_lt_le_dec max 0) as [Hneg|Hpos].
  - rewrite drop_ge by (pose proof (length_bind_bytes (code_points s)); lia).
    by rewrite longest_fit_none by lia.
  - rewrite skip_continuation_fit by done. unfold utf8_decode, decode_cps.
    rewrite dec_run_cps; [by rewrite app_nil_r|].
    destruct (longest_fit_suffix max (code_points s)) as [q Hq].
    rewrite Hq in Hs. by apply Forall_app in Hs as [_ Hs].
Qed.

Lemma tail_loop2_eq b rlines maxL maxB out count :
  Forall (Forall is_unit) rlines -> (out = [] -> count = 0) ->
  tail_loop2 rlines maxL maxB out count = Harness.tail_loop b rlines maxL maxB out count.
Proof.
  intros HF; revert out count; induction HF as [|l ls Hl HF IH]; intros out count Hc; [done|].
  cbn [tail_loop2 Harness.tail_loop]. rewrite Harness.utf8ByteLength_buffer by done.
  destruct (_ <? maxL); [|done].
  destruct (Z.ltb_spec maxB (count + (Buffer_byteLength l +
    (if 0 <? Z.of_nat (length out) then 1 else 0)))); [|by apply IH].
  destruct out; [|done]. simpl in *. rewrite Hc in * by done.
  rewrite truncateString2_eq by (done || lia). rewrite Harness.utf8ByteLength_buffer; [done|].
  rewrite Harness.truncateStringToBytesFromEnd_spec by done. by apply Harness.fit_units.
Qed.

Lemma truncateHead2_eq b s ml mb :
  Forall is_unit s -> truncateHead2 s ml mb = Harness.truncateHead b s ml mb.
Proof.
  intros HF. pose proof (Harness.splitLines_Forall _ s HF) as HFl.
  unfold truncateHead2, Harness.truncateHead.
  rewrite splitLines2_eq, Harness.utf8ByteLength_buffer by done.
  set (maxL := nullish ml _). set (maxB := nullish mb _).
  destruct (_ && _); [done|].
  destruct (Harness.splitLinesForCounting s) as [|l0 ls]; [done|].
  rewrite (head_loop2_eq b) by done.
  rewrite Harness.utf8ByteLength_buffer by (by inversion HFl).
  destruct (maxB <? _); [done|].
  pose proof (Harness.head_loop_units b (l0 :: ls) 0 maxL maxB [] 0 HFl (Forall_nil_2 _)) as Ho.
  destruct (Harness.head_loop _ _ _ _ _ _ _) as [[out c] by'].
  by rewrite Harness.utf8ByteLength_buffer by (apply Harness.join_Forall;
    [apply Harness.LF_unit | done]).
Qed.

Lemma truncateTail2_eq b s ml mb :
  Forall is_unit s -> truncateTail2 s ml mb = Harness.truncateTail b s ml mb.
Proof.
  intros HF. pose proof (Harness.splitLines_Forall _ s HF) as HFl.
  unfold truncateTail2, Harness.truncateTail.
  rewrite splitLines2_eq, Harness.utf8ByteLength_buffer by done.
  set (maxL := nullish ml _). set (maxB := nullish mb _).
  destruct (_ && _); [done|].
  assert (HFr : Forall (Forall is_unit) (rev (Harness.splitLinesForCounting s)))
    by (by apply Forall_rev).
  rewrite (tail_loop2_eq b) by done.
  pose proof (Harness.tail_loop_units b _ maxL maxB [] 0 HFr (Forall_nil_2 _)) as Ho.
  destruct (Harness.tail_loop _ _ _ _ _ _) as [[[out c] by'] part].
  by rewrite Harness.utf8ByteLength_buffer by (apply Harness.join_Forall;
    [apply Harness.LF_unit | done]).
Qed.

(** The two independently written truncation modules compute the same
    result on every string and every pair of limits (negative ones included,
    the [TypeError] on an empty content included), although one cuts encoded
    bytes and decodes them again and the other scans UTF-16 units backwards. *)
Theorem truncation_copies_agree b s ml mb :
  Forall is_unit s ->
  truncateHead2 s ml mb = Harness.truncateHead b s ml mb /\
  truncateTail2 s ml mb = Harness.truncateTail b s ml mb.
Proof. intros HF. split; [by apply truncateHead2_eq | by apply truncateTail2_eq]. Qed.

Lemma truncation_copies_agree_witness :
  truncateTail2 (js "abc" ++ [LF] ++ [8364; 55357; 56832; 55357]) (Some 5) (Some 8) =
  Harness.truncateTail false (js "abc" ++ [LF] ++ [8364; 55357; 56832; 55357]) (Some 5) (Some 8).
Proof. apply truncation_copies_agree. by apply all_units_spec. Defined.

End CodingAgent.
