(* ===== verification/OutputCapture.v ===== *)
(** What a shell command prints, as its caller sees it
    (pi [packages/agent/dist/harness/utils/output-capture.js]): a capture
    decodes the bytes, counts them, keeps a bounded part of the text and
    publishes the difference between successive snapshots of it.  The theorems
    say that the bounded buffer loses nothing a snapshot shows, that the
    counters are those of the whole output, and that a consumer that applies
    the updates holds the last snapshot. *)
From S2P Require Import Prelude Utf8 Numbers Json AdaptivePublisher Truncate.
Open Scope Z_scope.

Definition OUTPUT_MIN_EMIT_INTERVAL_MS : Z := 100.
Definition OUTPUT_TARGET_BYTES_PER_SECOND : Z := 100 * 1024.

(** * Snapshots and updates *)

(** [truncation] of a snapshot: what truncation returns, less the content. *)
Record metadata := Metadata {
  md_truncated : bool;
  md_truncatedBy : option cause;
  md_totalLines : Z;
  md_totalBytes : Z;
  md_outputLines : Z;
  md_outputBytes : Z;
  md_lastLinePartial : bool;
  md_firstLineExceedsLimit : bool;
  md_maxLines : Z;
  md_maxBytes : Z }.

(** The fields of a snapshot beside its text. *)
Record output_info := OutputInfo {
  i_truncation : metadata;
  i_spillPath : option jstr;
  i_lastLineBytes : option Z }.

Record snapshot := Snapshot { s_text : jstr; s_info : output_info }.

#[export] Instance cause_eq_dec : EqDecision cause.
Proof. solve_decision. Defined.
#[export] Instance metadata_eq_dec : EqDecision metadata.
Proof. solve_decision. Defined.
#[export] Instance output_info_eq_dec : EqDecision output_info.
Proof. solve_decision. Defined.
#[export] Instance snapshot_eq_dec : EqDecision snapshot.
Proof. solve_decision. Defined.

Inductive output_update :=
| UReplace (output : snapshot)
| UAppend (text : jstr) (info : output_info)
| USlide (drop : nat) (text : jstr) (info : output_info)
| UMetadata (info : output_info).

Definition applyShellOutputUpdate (current : option snapshot) (u : output_update) : snapshot :=
  let text := match current with Some c => s_text c | None => [] end in
  match u with
  | UReplace output => output
  | UAppend t info => Snapshot (text ++ t) info
  | USlide n t info => Snapshot (drop n text ++ t) info
  | UMetadata info => Snapshot text info
  end.

(** [tail.indexOf(probe, from)] *)
Definition index_of_from (probe tail : jstr) (from : nat) : option nat :=
  Nat.add from <$> index_of probe (drop from tail).

(** The candidates for one probe; at most [candidates] more are looked at. *)
Fixpoint probe_loop (candidates : nat) (probe tail after : jstr) (from : nat) : option nat :=
  match index_of_from probe tail from with
  | None => None
  | Some index =>
      match candidates with
      | O => None
      | S n =>
          let overlapLength := (length tail - index)%nat in
          if (overlapLength <=? length after)%nat && streq (drop index tail) (take overlapLength after)
          then Some overlapLength
          else probe_loop n probe tail after (S index)
      end
  end.

(** The length of a suffix of [before], within its last [scan] units, that is a
    prefix of [after]; 0 when none is found among the candidates. *)
Definition suffixPrefixOverlap (before after : jstr) (scan : nat) : nat :=
  match before, after, scan with
  | [], _, _ | _, [], _ | _, _, O => O
  | _, _, _ =>
      let tail := if (scan <? length before)%nat then drop (length before - scan) before else before in
      let probeLength := Nat.min 64 (length after) in
      match probe_loop 8 (take probeLength after) tail after 0 with
      | Some n => n
      | None =>
          if (probeLength =? 1)%nat then O
          else nullish (probe_loop 8 (take 1 after) tail after 0) O
      end
  end.

Definition updateFrom (previous : option snapshot) (current : snapshot) : output_update :=
  match previous with
  | None => UReplace current
  | Some prev =>
      let before := s_text prev in
      let after := s_text current in
      let info := s_info current in
      if streq after before then UMetadata info
      else if (length before <? length after)%nat && streq (take (length before) after) before
      then UAppend (drop (length before) after) info
      else
        let scan := Z.to_nat (Z.min (Z.min (Z.of_nat (length before)) (Z.of_nat (length after)))
                                (md_maxBytes (i_truncation info) * 2)) in
        let shared := suffixPrefixOverlap before after scan in
        if (0 <? shared)%nat then USlide (length before - shared) (drop shared after) info
        else UReplace current
  end.

(** ** Updates as JSON, for their size *)

Definition jnum (n : Z) : json := JNum (Finite (inject_Z n)).

Definition metadata_json (m : metadata) : json :=
  obj [(js "truncated", Some (JBool (md_truncated m)));
       (js "truncatedBy", Some match md_truncatedBy m with
                               | None => JNull
                               | Some ByLines => JStr (js "lines")
                               | Some ByBytes => JStr (js "bytes") end);
       (js "totalLines", Some (jnum (md_totalLines m)));
       (js "totalBytes", Some (jnum (md_totalBytes m)));
       (js "outputLines", Some (jnum (md_outputLines m)));
       (js "outputBytes", Some (jnum (md_outputBytes m)));
       (js "lastLinePartial", Some (JBool (md_lastLinePartial m)));
       (js "firstLineExceedsLimit", Some (JBool (md_firstLineExceedsLimit m)));
       (js "maxLines", Some (jnum (md_maxLines m)));
       (js "maxBytes", Some (jnum (md_maxBytes m)))].

Definition info_fields (i : output_info) : list (jstr * option json) :=
  [(js "truncation", Some (metadata_json (i_truncation i)));
   (js "spillPath", JStr <$> i_spillPath i);
   (js "lastLineBytes", jnum <$> i_lastLineBytes i)].

Definition update_json (u : output_update) : json :=
  match u with
  | UReplace o =>
      obj [(js "kind", Some (JStr (js "replace")));
           (js "output", Some (obj ((js "text", Some (JStr (s_text o))) :: info_fields (s_info o))))]
  | UAppend t i =>
      obj [(js "kind", Some (JStr (js "append"))); (js "text", Some (JStr t));
           (js "metadata", Some (obj (info_fields i)))]
  | USlide n t i =>
      obj [(js "kind", Some (JStr (js "slide"))); (js "drop", Some (jnum (Z.of_nat n)));
           (js "text", Some (JStr t)); (js "metadata", Some (obj (info_fields i)))]
  | UMetadata i =>
      obj [(js "kind", Some (JStr (js "metadata"))); (js "metadata", Some (obj (info_fields i)))]
  end.

Definition measure_update (u : output_update) : Z :=
  Harness.utf8ByteLength true (JSON_stringify int_num_str (update_json u)).

(** ** Applying an update *)

Lemma probe_loop_sound n probe tail after from k :
  probe_loop n probe tail after from = Some k ->
  (k <= length tail)%nat /\ (k <= length after)%nat /\ drop (length tail - k) tail = take k after.
Proof.
  revert from; induction n as [|n IH]; intros from; simpl;
    destruct (index_of_from probe tail from) as [i|] eqn:Ei; try done.
  destruct ((length tail - i <=? length after)%nat && streq _ _) eqn:Hc; [|by apply IH].
  intros [= <-]. bool_to_prop. apply Nat.leb_le in H. apply streq_true in H0.
  split; [lia|]. split; [done|]. rewrite <- H0.
  destruct (decide (i <= length tail)%nat) as [Hi|Hi]; [f_equal; lia|].
  rewrite !drop_ge by lia. done.
Qed.

Lemma suffixPrefixOverlap_sound before after scan k :
  suffixPrefixOverlap before after scan = k -> (0 < k)%nat ->
  (k <= length before)%nat /\ drop (length before - k) before = take k after.
Proof.
  intros H Hk. unfold suffixPrefixOverlap in H.
  destruct before as [|x before]; [lia|]. destruct after as [|y after]; [lia|].
  destruct scan as [|scan]; [lia|].
  set (bef := x :: before) in *. set (aft := y :: after) in *.
  set (tail := if (S scan <? length bef)%nat then drop (length bef - S scan) bef else bef) in *.
  assert (exists m, tail = drop m bef /\ (m <= length bef)%nat) as (m & Hm & Hle).
  { unfold tail. destruct (Nat.ltb_spec (S scan) (length bef)).
    - exists (length bef - S scan)%nat. split; [done|lia].
    - exists O. split; [done|lia]. }
  assert (exists n probe, probe_loop n probe tail aft 0 = Some k) as (n & probe & Hp).
  { destruct (probe_loop 8 (take (Nat.min 64 (length aft)) aft) tail aft 0) eqn:E1; [subst; eauto|].
    destruct (_ =? 1)%nat; [lia|].
    destruct (probe_loop 8 (take 1 aft) tail aft 0) eqn:E2; simpl in H; [|lia].
    subst. eauto. }
  apply probe_loop_sound in Hp as (H1 & H2 & H3). rewrite Hm in *.
  rewrite drop_drop, length_drop in *. split; [lia|].
  rewrite <- H3. f_equal. lia.
Qed.

Lemma updateFrom_applied previous current :
  applyShellOutputUpdate previous (updateFrom previous current) = current.
Proof.
  destruct previous as [[before pinfo]|]; [|done]. destruct current as [after info]. unfold updateFrom.
  cbn [s_text s_info]. destruct (streq after before) eqn:E1; [apply streq_true in E1 as ->; done|].
  destruct ((length before <? length after)%nat && streq _ _) eqn:E2.
  { bool_to_prop. apply streq_true in H0. cbn [applyShellOutputUpdate s_text]. f_equal.
    rewrite <- (take_drop (length before) after) at 2. by rewrite H0. }
  destruct (Nat.ltb_spec 0 (suffixPrefixOverlap before after
    (Z.to_nat (Z.min (Z.min (Z.of_nat (length before)) (Z.of_nat (length after)))
                 (md_maxBytes (i_truncation info) * 2))))) as [Hk|_]; [|done].
  destruct (suffixPrefixOverlap_sound _ _ _ _ eq_refl Hk) as [_ Hd].
  cbn [applyShellOutputUpdate s_text]. f_equal. by rewrite Hd, take_drop.
Qed.

(** The updates of shell output keep the promise the publisher relies on. *)
#[export] Instance shell_output_codec : UpdateCodec snapshot output_update.
Proof.
  refine {| update := fun p c => Some (updateFrom p c); apply_update := applyShellOutputUpdate |}.
  - done.
  - done.
  - intros p c u [= <-]. apply updateFrom_applied.
Defined.

(** whatever a consumer holds, applying the update computed against it gives
    the current snapshot, so no update form (append, slide over a shared
    overlap, metadata only, replacement) loses or repeats text. *)
Theorem shell_update_roundtrip previous current :
  applyShellOutputUpdate previous (updateFrom previous current) = current.
Proof. apply updateFrom_applied. Qed.

(** * The capture *)

Inductive retain_side := RetainHead | RetainTail.

Record limits := Limits { l_maxBytes : Z; l_maxLines : Z; l_retain : retain_side }.

Record capture := Capture {
  c_decoder : text_decoder;
  c_buffer : jstr;
  c_bufferBytes : Z;
  c_totalBytes : Z;
  c_newlines : Z;
  c_endsWithNewline : bool;
  c_currentLineBytes : Z;
  c_spillPath : option jstr;
  c_disposed : bool;
  c_publisher : publisher snapshot
}.

Definition empty_capture : capture :=
  Capture td_new [] 0 0 0 true 0 None false new_publisher.

Inductive capture_error := MaxBytesError | MaxLinesError.

(** The constructor, for integral limits; an absent option takes its default. *)
Definition OutputCapture (maxBytes maxLines : option Z) (retain : option retain_side)
  : result capture_error (limits * capture) :=
  let mb := nullish maxBytes DEFAULT_MAX_BYTES in
  let ml := nullish maxLines DEFAULT_MAX_LINES in
  if mb <=? 0 then Throw MaxBytesError
  else if ml <=? 0 then Throw MaxLinesError
  else Ok (Limits mb ml (nullish retain RetainTail), empty_capture).

(** [INVALID_SHELL_OUTPUT], without tab and line feed. *)
Definition invalid_shell_output (c : Z) : bool :=
  ((0 <=? c) && (c <=? 8)) || ((11 <=? c) && (c <=? 31)) || ((65529 <=? c) && (c <=? 65531)).

Definition sanitizeShellOutput (text : jstr) : jstr :=
  filter (fun c => invalid_shell_output c = false) text.

(** The loop over [indexOf("\n", ...)] counts the line feeds. *)
Fixpoint countNewlines (text : jstr) : Z :=
  match text with
  | [] => 0
  | c :: r => (if c =? LF then 1 else 0) + countNewlines r
  end.

Definition trimToLastUtf8Bytes (text : jstr) (maxBytes : Z) : jstr :=
  let bytes := utf8_encode text in
  if Z.of_nat (length bytes) <=? maxBytes then text
  else td_decode (drop_while is_continuation (drop (Z.to_nat (Z.of_nat (length bytes) - maxBytes)) bytes)).

(** [while (end > 0 && ((bytes[end] ?? 0) & 192) === 128) end--] *)
Fixpoint back_to_boundary (bytes : list Z) (end_ : nat) : nat :=
  match end_ with
  | O => O
  | S n => if is_continuation (nth end_ bytes 0) then back_to_boundary bytes n else end_
  end.

Definition trimToFirstUtf8Bytes (text : jstr) (maxBytes : Z) : jstr :=
  let bytes := utf8_encode text in
  if Z.of_nat (length bytes) <=? maxBytes then text
  else td_decode (take (back_to_boundary bytes (Z.to_nat maxBytes)) bytes).

(** The units after the last line feed: [text.slice(lastNewline + 1)]. *)
Definition after_last_newline (text : jstr) : jstr := List.last (split_char LF text) [].

Definition capture_totalLines (c : capture) : Z :=
  c_newlines c + (if c_endsWithNewline c || (c_totalBytes c =? 0) then 0 else 1).

Section Capture.
Context (lim : limits).

Definition capture_truncated (c : capture) : bool :=
  (l_maxBytes lim <? c_totalBytes c) || (l_maxLines lim <? capture_totalLines c).

(** What truncation keeps of the buffer; with the positive limits of the
    constructor [truncateHead] does not throw ([retained_head_ok]). *)
Definition retained (c : capture) : truncation :=
  let tail := Harness.truncateTail true (c_buffer c) (Some (l_maxLines lim)) (Some (l_maxBytes lim)) in
  match l_retain lim with
  | RetainHead =>
      match Harness.truncateHead true (c_buffer c) (Some (l_maxLines lim)) (Some (l_maxBytes lim)) with
      | Ok t => t
      | Throw _ => tail
      end
  | RetainTail => tail
  end.

Definition take_snapshot (c : capture) : snapshot :=
  let r := retained c in
  let totalLines := capture_totalLines c in
  let truncated := capture_truncated c in
  Snapshot (sanitizeShellOutput (content r))
    (OutputInfo
       (Metadata truncated
          (if truncated then Some (if l_maxLines lim <? totalLines then ByLines else ByBytes) else None)
          totalLines (c_totalBytes c) (outputLines r) (outputBytes r) (lastLinePartial r)
          (firstLineExceedsLimit r) (maxLines r) (maxBytes r))
       (c_spillPath c)
       (if lastLinePartial r then Some (c_currentLineBytes c) else None)).

Definition set_publisher (c : capture) (p : publisher snapshot) : capture :=
  Capture (c_decoder c) (c_buffer c) (c_bufferBytes c) (c_totalBytes c) (c_newlines c)
    (c_endsWithNewline c) (c_currentLineBytes c) (c_spillPath c) (c_disposed c) p.

(** [this.#publisher.markDirty()], [flush(force)] and the timer's callback: the
    capture after it and what was handed to [onUpdate]. *)
Definition publish (f : snapshot -> publisher snapshot -> publisher snapshot * option output_update)
    (c : capture) : capture * list output_update :=
  let '(p, o) := f (take_snapshot c) (c_publisher c) in
  (set_publisher c p, match o with Some u => [u] | None => [] end).

Definition pub_mark (now : Z) :=
  markDirty measure_update OUTPUT_MIN_EMIT_INTERVAL_MS OUTPUT_TARGET_BYTES_PER_SECOND now.
Definition pub_flush (force : bool) (now : Z) :=
  flush measure_update OUTPUT_MIN_EMIT_INTERVAL_MS OUTPUT_TARGET_BYTES_PER_SECOND force now.
Definition pub_timer (now : Z) :=
  timer_fires measure_update OUTPUT_MIN_EMIT_INTERVAL_MS OUTPUT_TARGET_BYTES_PER_SECOND now.

(** The text of [#appendText] before it marks the publisher dirty. *)
Definition store_text (text : jstr) (c : capture) : capture :=
  let textBytes := Harness.utf8ByteLength true text in
  let currentLineBytes :=
    if existsb (Z.eqb LF) text then Harness.utf8ByteLength true (after_last_newline text)
    else c_currentLineBytes c + textBytes in
  let buffer := c_buffer c ++ text in
  let bufferBytes := c_bufferBytes c + textBytes in
  let guard := l_maxBytes lim * 2 in
  let '(buffer, bufferBytes) :=
    if guard * 2 <? bufferBytes then
      let b := match l_retain lim with
               | RetainTail => trimToLastUtf8Bytes buffer guard
               | RetainHead => trimToFirstUtf8Bytes buffer guard end in
      (b, Harness.utf8ByteLength true b)
    else (buffer, bufferBytes) in
  Capture (c_decoder c) buffer bufferBytes (c_totalBytes c + textBytes)
    (c_newlines c + countNewlines text) (ends_with [LF] text) currentLineBytes
    (c_spillPath c) (c_disposed c) (c_publisher c).

Definition appendText (now : Z) (text : jstr) (c : capture) : capture * list output_update :=
  match text with
  | [] => (c, [])
  | _ => publish (pub_mark now) (store_text text c)
  end.

Definition set_decoder (c : capture) (d : text_decoder) : capture :=
  Capture d (c_buffer c) (c_bufferBytes c) (c_totalBytes c) (c_newlines c)
    (c_endsWithNewline c) (c_currentLineBytes c) (c_spillPath c) (c_disposed c) (c_publisher c).

Inductive chunk := CBytes (bytes : list Z) | CText (text : jstr).

Definition push (now : Z) (ch : chunk) (c : capture) : capture * list output_update :=
  if c_disposed c then (c, [])
  else match ch with
  | CText text =>
      let '(rest, d) := td_end (c_decoder c) in
      let '(c1, u1) := appendText now rest (set_decoder c d) in
      let '(c2, u2) := appendText now text c1 in
      (c2, u1 ++ u2)
  | CBytes bytes =>
      let '(text, d) := td_stream (c_decoder c) bytes in
      appendText now text (set_decoder c d)
  end.

Definition finish (now : Z) (c : capture) : capture * list output_update :=
  if c_disposed c then (c, [])
  else let '(text, d) := td_end (c_decoder c) in appendText now text (set_decoder c d).

Definition flush_capture (now : Z) (c : capture) : capture * list output_update :=
  if c_disposed c then (c, []) else publish (pub_flush true now) c.

Definition setSpillPath (now : Z) (path : jstr) (c : capture) : capture * list output_update :=
  if c_disposed c || bool_decide (c_spillPath c = Some path) then (c, [])
  else
    let c := Capture (c_decoder c) (c_buffer c) (c_bufferBytes c) (c_totalBytes c) (c_newlines c)
      (c_endsWithNewline c) (c_currentLineBytes c) (Some path) (c_disposed c) (c_publisher c) in
    let '(c1, u1) := publish (pub_mark now) c in
    let '(c2, u2) := flush_capture now c1 in
    (c2, u1 ++ u2).

Definition capture_timer (now : Z) (c : capture) : capture * list output_update :=
  publish (pub_timer now) c.

Definition dispose_capture (c : capture) : capture :=
  Capture (c_decoder c) (c_buffer c) (c_bufferBytes c) (c_totalBytes c) (c_newlines c)
    (c_endsWithNewline c) (c_currentLineBytes c) (c_spillPath c) true (dispose (c_publisher c)).

End Capture.

(** ** Truncating a long enough suffix *)

Lemma split_char_parts c p b :
  exists front pl l0 ls, split_char c p = front ++ [pl] /\ split_char c b = l0 :: ls /\
    split_char c (p ++ b) = front ++ (pl ++ l0) :: ls.
Proof.
  induction p as [|x p IH]; simpl.
  - destruct (split_char c b) as [|l0 ls] eqn:E; [by apply split_char_not_nil in E|].
    by exists [], [], l0, ls.
  - destruct IH as (front & pl & l0 & ls & H1 & H2 & H3). rewrite H1, H3. destruct (x =? c).
    + by exists ([] :: front), pl, l0, ls.
    + destruct front as [|f front]; [by exists [], (x :: pl), l0, ls|].
      by exists ((x :: f) :: front), pl, l0, ls.
Qed.

Lemma ends_with_app_r c p b : b ≠ [] -> ends_with [c] (p ++ b) = ends_with [c] b.
Proof.
  intros Hb. unfold ends_with. rewrite rev_app_distr.
  destruct (rev b) as [|x r] eqn:E; [by apply (f_equal (@rev Z)) in E; rewrite rev_involutive in E|].
  by destruct (rev p).
Qed.

Lemma removelast_app_cons {A} (l : list A) x r : r ≠ [] -> removelast (l ++ x :: r) = l ++ x :: removelast r.
Proof.
  intros Hr. rewrite removelast_app by done. by destruct r.
Qed.

(** The lines of a text and of a suffix of it differ in the first line of the
    suffix and before. *)
Lemma splitLines_app p b :
  b ≠ [] -> exists front pl l0 ls,
    Harness.splitLinesForCounting b = l0 :: ls /\
    Harness.splitLinesForCounting (p ++ b) = front ++ (pl ++ l0) :: ls /\
    (exists q, p = q ++ pl).
Proof.
  intros Hb. destruct (split_char_parts LF p b) as (front & pl & l0 & ls & H1 & H2 & H3).
  assert (Hpl : exists q, p = q ++ pl).
  { pose proof (join_split LF p) as Hj. rewrite H1 in Hj.
    destruct front as [|f front]; [exists []; by rewrite <- Hj|].
    rewrite join_snoc in Hj by done. eexists. rewrite app_assoc in Hj. by rewrite <- Hj. }
  unfold Harness.splitLinesForCounting. destruct b as [|x b]; [done|].
  destruct (p ++ x :: b) as [|y r] eqn:Epb; [by destruct p|]. rewrite <- Epb in *. clear Epb y r.
  rewrite ends_with_app_r by done. destruct (ends_with [LF] (x :: b)) eqn:He.
  - assert (Hls : ls ≠ []).
    { intros ->. apply ends_with_spec in He as [q Hq]. rewrite Hq, split_snoc in H2.
      pose proof (split_char_not_nil LF q). destruct (split_char LF q) as [|? []]; done. }
    rewrite H3, H2, removelast_app_cons by done.
    exists front, pl, l0, (removelast ls). by destruct ls.
  - rewrite H3, H2. by exists front, pl, l0, ls.
Qed.

Definition line_cost (l : jstr) : Z := Buffer_byteLength l + 1.

Fixpoint lines_cost (ls : list jstr) : Z :=
  match ls with [] => 0 | l :: r => line_cost l + lines_cost r end.

Lemma lines_cost_app a b : lines_cost (a ++ b) = lines_cost a + lines_cost b.
Proof. induction a as [|x a IH]; simpl; [lia|]. rewrite IH. lia. Qed.

Lemma lines_cost_rev l : lines_cost (rev l) = lines_cost l.
Proof. induction l as [|x l IH]; [done|]. simpl. rewrite lines_cost_app, IH. simpl. lia. Qed.

Lemma join_cost ls : Buffer_byteLength (join [LF] ls) <= lines_cost ls - 1 \/ ls = [].
Proof.
  destruct ls as [|l ls]; [by right|]. left.
  revert l; induction ls as [|l' ls IH]; intros l; [simpl; unfold line_cost; lia|].
  rewrite Harness.byteLength_join_cons. rewrite bool_decide_false by done.
  specialize (IH l'). cbn [lines_cost] in *. unfold line_cost in *. lia.
Qed.

(** The lines of a text account for its bytes, a final line feed included. *)
Lemma byteLength_lines_cost s :
  Buffer_byteLength s <= lines_cost (Harness.splitLinesForCounting s).
Proof.
  rewrite (Harness.splitLines_join s) at 1.
  destruct (join_cost (Harness.splitLinesForCounting s)) as [H|H].
  - destruct (ends_with [LF] s); [|rewrite app_nil_r; lia].
    rewrite byteLength_join_sep, byteLength_nil. lia.
  - destruct s as [|x s]; [done|]. by apply Harness.splitLines_not_nil in H.
Qed.

Lemma longest_fit_app budget a b :
  budget < sum_sizes b -> longest_fit budget (a ++ b) = longest_fit budget b.
Proof.
  intros H. induction a as [|x a IH]; [done|]. cbn [app longest_fit].
  rewrite (proj2 (Z.leb_gt _ _)); [done|]. cbn [sum_sizes]. rewrite sum_sizes_app.
  pose proof (sum_sizes_nonneg a). pose proof (cp_size_pos x). lia.
Qed.

(** Once the budget ends within [l0], what is before it does not matter. *)
Lemma tail_loop_cut b rls l0 pl rest maxL maxB out count :
  Forall (Forall is_unit) (rls ++ [l0]) -> Forall is_unit (pl ++ l0) ->
  (forall t, match last pl with Some c => glued c t | None => false end = false) ->
  0 <= count -> (out = [] -> count = 0) ->
  maxB + (if bool_decide (out = []) then 1 else 0) < count + lines_cost (rls ++ [l0]) ->
  Harness.tail_loop b (rls ++ [l0]) maxL maxB out count =
  Harness.tail_loop b (rls ++ (pl ++ l0) :: rest) maxL maxB out count.
Proof.
  intros HF Hpl Hglue. revert out count.
  induction rls as [|l rls IH]; intros out count H0 Hout Hc.
  - cbn [app] in *. inversion HF as [|? ? Hl0 _]; subst. cbn [Harness.tail_loop].
    destruct (Z.of_nat (length out) <? maxL); [|done].
    rewrite (Harness.utf8ByteLength_buffer b l0), (Harness.utf8ByteLength_buffer b (pl ++ l0)) by done.
    rewrite (byteLength_app pl l0) by apply Hglue.
    cbn [lines_cost] in Hc. unfold line_cost in Hc. pose proof (byteLength_nonneg pl).
    assert (Hsep : (if bool_decide (out = []) then 1 else 0) +
                   (if 0 <? Z.of_nat (length out) then 1 else 0) = 1) by (by destruct out).
    rewrite !(proj2 (Z.ltb_lt _ _)) by lia. destruct out as [|o out]; [|done].
    rewrite Hout in Hc by done. rewrite bool_decide_true in Hc by done.
    assert (Harness.truncateStringToBytesFromEnd l0 maxB =
            Harness.truncateStringToBytesFromEnd (pl ++ l0) maxB) as ->; [|done].
    rewrite !Harness.truncateStringToBytesFromEnd_spec by done.
    rewrite code_points_app by apply Hglue. rewrite longest_fit_app; [done|].
    rewrite <- byteLength_sum. lia.
  - cbn [app Harness.tail_loop] in *. inversion HF as [|? ? Hl HF']; subst.
    destruct (Z.of_nat (length out) <? maxL); [|done].
    rewrite Harness.utf8ByteLength_buffer by done.
    destruct (maxB <? _); [done|]. pose proof (byteLength_nonneg l).
    cbn [lines_cost] in Hc. unfold line_cost in Hc at 1.
    apply IH; [done| |done|].
    + destruct out; simpl; lia.
    + rewrite bool_decide_false by done. destruct out; simpl in *; lia.
Qed.

Lemma glued_units_of cps pl q :
  Forall is_scalar cps -> units_of cps = q ++ pl ->
  forall t, match last pl with Some c => glued c t | None => false end = false.
Proof.
  intros HF Hq t. destruct pl as [|x pl _] using rev_ind; [done|].
  rewrite last_snoc. destruct cps as [|cp cps _] using rev_ind.
  { apply (f_equal length) in Hq. rewrite !length_app in Hq. simpl in Hq. lia. }
  apply Forall_app in HF as [_ HF]. inversion HF as [|? ? Hcp _]; subst.
  pose proof (cp_units_last cp t Hcp) as H. unfold units_of in Hq. rewrite bind_app in Hq.
  simpl in Hq. rewrite app_nil_r in Hq. apply (f_equal last) in Hq.
  rewrite app_assoc, last_snoc in Hq.
  assert (cp_units cp ≠ []) as Hne by (unfold cp_units; by destruct (cp <=? 65535)).
  revert H Hq Hne. destruct (cp_units cp) as [|y u _] using rev_ind; [done|]. intros H Hq _.
  rewrite app_assoc, last_snoc in Hq. injection Hq as ->. by rewrite last_snoc in H.
Qed.

(** A suffix that exceeds the byte limit is truncated as the whole text is. *)
Lemma truncateTail_suffix b pc bc ml mb :
  Forall is_scalar (pc ++ bc) -> 0 <= nullish mb DEFAULT_MAX_BYTES ->
  nullish mb DEFAULT_MAX_BYTES + 2 <= sum_sizes bc ->
  let whole := Harness.truncateTail b (units_of (pc ++ bc)) ml mb in
  let part := Harness.truncateTail b (units_of bc) ml mb in
  content part = content whole /\ outputLines part = outputLines whole /\
  outputBytes part = outputBytes whole /\ lastLinePartial part = lastLinePartial whole /\
  truncated part = true /\ truncated whole = true /\
  firstLineExceedsLimit part = firstLineExceedsLimit whole.
Proof.
  intros HF Hmb Hsz. apply Forall_app in HF as [HFp HFb].
  assert (Hub : Forall is_unit (units_of bc)) by (by apply Harness.units_of_units).
  assert (Hup : Forall is_unit (units_of pc)) by (by apply Harness.units_of_units).
  assert (Hsb : Buffer_byteLength (units_of bc) = sum_sizes bc) by (by apply byteLength_units_of).
  assert (Hsw : Buffer_byteLength (units_of (pc ++ bc)) = sum_sizes pc + sum_sizes bc).
  { rewrite byteLength_units_of by (by apply Forall_app). apply sum_sizes_app. }
  pose proof (sum_sizes_nonneg pc) as Hp0.
  assert (Hne : units_of bc ≠ []) by (intros E; rewrite E, byteLength_nil in Hsb; lia).
  rewrite units_of_app in *.
  destruct (splitLines_app (units_of pc) (units_of bc) Hne)
    as (front & pl & l0 & ls & Hlb & Hlw & q & Hq).
  assert (Hloop : forall maxL, Harness.tail_loop b (rev (Harness.splitLinesForCounting (units_of bc)))
      maxL (nullish mb DEFAULT_MAX_BYTES) [] 0 =
    Harness.tail_loop b (rev (Harness.splitLinesForCounting (units_of pc ++ units_of bc)))
      maxL (nullish mb DEFAULT_MAX_BYTES) [] 0).
  { intros maxL. rewrite Hlb, Hlw. rewrite rev_app_distr. cbn [rev]. rewrite <- app_assoc. cbn [app].
    pose proof (byteLength_lines_cost (units_of bc)) as Hcost.
    pose proof (Harness.splitLines_Forall _ _ Hub) as HFl. rewrite Hlb in HFl, Hcost.
    apply tail_loop_cut; try done.
    - change (rev ls ++ [l0]) with (rev (l0 :: ls)). by apply Forall_rev.
    - apply Forall_app. split; [|by inversion HFl]. rewrite Hq in Hup. by apply Forall_app in Hup as [_ ?].
    - by apply (glued_units_of pc pl q).
    - rewrite bool_decide_true by done. change (rev ls ++ [l0]) with (rev (l0 :: ls)).
      rewrite lines_cost_rev. lia. }
  unfold Harness.truncateTail. rewrite !Harness.utf8ByteLength_buffer by (done || by apply Forall_app).
  rewrite Hsb, Hsw. rewrite !(proj2 (Z.leb_gt _ (nullish mb DEFAULT_MAX_BYTES))) by lia.
  rewrite !andb_false_r, Hloop.
  by destruct (Harness.tail_loop _ _ _ _ _ _) as [[[out c] by'] part].
Qed.

(** ** Counting *)

Lemma countNewlines_app a b : countNewlines (a ++ b) = countNewlines a + countNewlines b.
Proof. induction a as [|x a IH]; simpl; [lia|]. rewrite IH. lia. Qed.

Lemma length_split_LF s : Z.of_nat (length (split_char LF s)) = countNewlines s + 1.
Proof.
  induction s as [|x s IH]; [done|]. cbn [split_char countNewlines].
  destruct (x =? LF); [cbn [length]; lia|].
  pose proof (split_char_not_nil LF s). destruct (split_char LF s); [done|]. simpl in *. lia.
Qed.

Lemma byteLength_pos s : s ≠ [] -> 0 < Buffer_byteLength s.
Proof.
  intros Hs. rewrite byteLength_sum. destruct s as [|x s]; [done|].
  assert (code_points (x :: s) ≠ []) as Hne by (cbn [code_points]; repeat case_match; done).
  destruct (code_points (x :: s)) as [|c r]; [done|]. cbn [sum_sizes].
  pose proof (cp_size_pos c). pose proof (sum_sizes_nonneg r). lia.
Qed.

Lemma length_splitLines s :
  Z.of_nat (length (Harness.splitLinesForCounting s)) =
  countNewlines s + (if ends_with [LF] s || (Buffer_byteLength s =? 0) then 0 else 1).
Proof.
  unfold Harness.splitLinesForCounting. destruct s as [|x s]; [done|].
  assert (Hz : (Buffer_byteLength (x :: s) =? 0) = false).
  { apply Z.eqb_neq. pose proof (byteLength_pos (x :: s) ltac:(done)). lia. }
  rewrite Hz, orb_false_r. destruct (ends_with [LF] (x :: s)) eqn:He.
  - apply ends_with_spec in He as [p ->]. rewrite split_snoc, removelast_last, countNewlines_app.
    rewrite length_split_LF. simpl. lia.
  - rewrite length_split_LF. lia.
Qed.

Lemma existsb_LF text : existsb (Z.eqb LF) text = true <-> LF ∈ text.
Proof.
  rewrite existsb_exists. split.
  - intros (x & Hx & E). apply Z.eqb_eq in E as <-. by apply list_elem_of_In.
  - intros H. exists LF. split; [by apply list_elem_of_In|apply Z.eqb_refl].
Qed.

Lemma List_last_app {A} (a r : list A) d : r ≠ [] -> List.last (a ++ r) d = List.last r d.
Proof.
  intros Hr. induction a as [|x a IH]; [done|]. simpl. rewrite IH.
  destruct (a ++ r) eqn:E; [|done]. by apply app_eq_nil in E as [_ ->].
Qed.

Lemma after_last_newline_app a b :
  after_last_newline (a ++ b) =
  if existsb (Z.eqb LF) b then after_last_newline b else after_last_newline a ++ b.
Proof.
  unfold after_last_newline.
  destruct (split_char_parts LF a b) as (front & pl & l0 & ls & H1 & H2 & H3).
  rewrite H1, H3, last_last. destruct (existsb (Z.eqb LF) b) eqn:E.
  - rewrite H2. destruct ls as [|l ls]; [|by rewrite List_last_app].
    exfalso. apply existsb_LF in E. pose proof (split_char_no_sep LF b) as HF.
    pose proof (join_split LF b) as Hj. rewrite H2 in *. simpl in Hj. subst.
    inversion HF; subst; done.
  - assert (b = l0 /\ ls = []) as [-> ->]; [|by rewrite last_last].
    assert (LF ∉ b) as Hb by (rewrite <- existsb_LF; congruence).
    rewrite split_no_sep in H2 by done. by injection H2 as <- <-.
Qed.

(** ** Trimming the buffer *)

Lemma longest_fit_large m cps : m < sum_sizes cps -> m - 3 <= sum_sizes (longest_fit m cps).
Proof.
  induction cps as [|c r IH]; intros Hm; [simpl in *; lia|]. cbn [longest_fit].
  rewrite (proj2 (Z.leb_gt _ _)) by done. pose proof (cp_size_pos c). cbn [sum_sizes] in Hm.
  destruct (Z_lt_le_dec m (sum_sizes r)); [auto|]. rewrite longest_fit_all by done. lia.
Qed.

Lemma trimToLast_spec cps max :
  Forall is_scalar cps -> 0 <= max < sum_sizes cps ->
  trimToLastUtf8Bytes (units_of cps) max = units_of (strip_bom false (longest_fit max cps)).1.
Proof.
  intros HF Hm. unfold trimToLastUtf8Bytes, utf8_encode. rewrite code_points_units_of by done.
  rewrite length_bind_bytes, (proj2 (Z.leb_gt _ _)) by lia.
  rewrite skip_continuation_fit by (done || lia). unfold td_decode, decode_cps.
  rewrite dec_run_cps; [by rewrite app_nil_r|].
  destruct (longest_fit_suffix max cps) as [q Hq]. rewrite Hq in HF. by apply Forall_app in HF as [_ ?].
Qed.

Lemma trimToLast_suffix cps max :
  Forall is_scalar cps -> 0 <= max < sum_sizes cps ->
  exists b, trimToLastUtf8Bytes (units_of cps) max = units_of b /\ b `suffix_of` cps /\
    max - 6 <= sum_sizes b.
Proof.
  intros HF Hm. eexists. split; [by apply trimToLast_spec|]. split.
  - etransitivity; [apply strip_bom_suffix|apply longest_fit_suffix].
  - pose proof (strip_bom_size false (longest_fit max cps)).
    pose proof (longest_fit_large max cps ltac:(lia)). lia.
Qed.

(** ** What a capture knows of the text it was given *)

Record capture_inv (lim : limits) (w : list Z) (c : capture) : Prop := {
  ci_scalar : Forall is_scalar w;
  ci_buffer : exists b, c_buffer c = units_of b /\ c_bufferBytes c = sum_sizes b /\
    b `suffix_of` w /\ (b = w \/ l_maxBytes lim + 2 <= sum_sizes b);
  ci_total : c_totalBytes c = sum_sizes w;
  ci_newlines : c_newlines c = countNewlines (units_of w);
  ci_ends : c_endsWithNewline c = ends_with [LF] (units_of w) || bool_decide (w = []);
  ci_line : c_currentLineBytes c = Buffer_byteLength (after_last_newline (units_of w))
}.

Lemma units_of_nil w : units_of w = [] -> w = [].
Proof.
  destruct w as [|c w]; [done|]. unfold units_of. rewrite bind_cons. unfold cp_units.
  by destruct (c <=? 65535).
Qed.

Lemma scalar_suffix b w : b `suffix_of` w -> Forall is_scalar w -> Forall is_scalar b.
Proof. intros [q ->] H. by apply Forall_app in H as [_ ?]. Qed.

Lemma after_last_suffix s : exists q, s = q ++ after_last_newline s.
Proof.
  unfold after_last_newline. pose proof (join_split LF s) as Hj.
  pose proof (split_char_not_nil LF s) as Hn.
  destruct (split_char LF s) as [|l ls _] using rev_ind; [done|]. rewrite last_last.
  destruct ls as [|x ls]; [by exists []|]. rewrite join_snoc in Hj by done.
  eexists. rewrite app_assoc in Hj. by symmetry.
Qed.

Lemma store_text_inv lim w c t :
  l_retain lim = RetainTail -> 8 <= l_maxBytes lim -> t ≠ [] -> Forall is_scalar t ->
  capture_inv lim w c -> capture_inv lim (w ++ t) (store_text lim (units_of t) c).
Proof.
  intros Hr Hmax Ht HF [Hsc (b & Hb & Hbb & Hsuf & Hbig) Htot Hnl Hends Hline].
  assert (HFw : Forall is_scalar (w ++ t)) by (by apply Forall_app).
  assert (Hbt : Buffer_byteLength (units_of t) = sum_sizes t) by (by apply byteLength_units_of).
  unfold store_text. rewrite Hr. change (Harness.utf8ByteLength true) with Buffer_byteLength.
  rewrite Hbt, Hb, <- units_of_app. set (bt := b ++ t).
  assert (Hbt' : bt `suffix_of` w ++ t) by (destruct Hsuf as [q ->]; exists q; by rewrite <- app_assoc).
  destruct (Z.ltb_spec (l_maxBytes lim * 2 * 2) (c_bufferBytes c + sum_sizes t)) as [Hover|Hfit];
    (split; cbn [c_buffer c_bufferBytes c_totalBytes c_newlines c_endsWithNewline c_currentLineBytes]; try done).
  all: try (rewrite Htot, sum_sizes_app; lia).
  all: try (rewrite Hnl, units_of_app, countNewlines_app; lia).
  all: try (rewrite units_of_app, ends_with_app_r by (intros E; by apply units_of_nil in E);
            rewrite bool_decide_false by (by destruct w); by rewrite orb_false_r).
  all: try (rewrite units_of_app, after_last_newline_app; destruct (existsb _ _); [done|];
            rewrite Hline, byteLength_app, Hbt; [done|];
            destruct (after_last_suffix (units_of w)) as [q Hq];
            by apply (glued_units_of w _ q)).
  - destruct (trimToLast_suffix bt (l_maxBytes lim * 2)) as (b' & Heq & Hs & Hsz).
    + by apply (scalar_suffix _ (w ++ t)).
    + unfold bt. rewrite sum_sizes_app. lia.
    + exists b'. rewrite Heq. split; [done|].
      split; [apply byteLength_units_of, (scalar_suffix _ (w ++ t)); [by etransitivity|done]|].
      split; [by etransitivity|]. right. lia.
  - exists bt. split; [done|]. unfold bt. rewrite sum_sizes_app. split; [lia|]. split; [done|].
    destruct Hbig as [->|?]; [by left|]. right. pose proof (sum_sizes_nonneg t). lia.
Qed.

(** ** Runs of a capture *)

Inductive capture_op :=
| OPush (ch : chunk)
| OFinish
| OSpill (path : jstr)
| OFlush
| OTimer
| ODispose.

Definition capture_step (lim : limits) (c : capture) (op : Z * capture_op)
  : capture * list output_update :=
  let '(now, o) := op in
  match o with
  | OPush ch => push lim now ch c
  | OFinish => finish lim now c
  | OSpill path => setSpillPath lim now path c
  | OFlush => flush_capture lim now c
  | OTimer => capture_timer lim now c
  | ODispose => (dispose_capture c, [])
  end.

(** The capture after some operations, and what was handed to [onUpdate]. *)
Definition capture_run_from (lim : limits) (st : capture * list output_update)
    (ops : list (Z * capture_op)) : capture * list output_update :=
  foldl (fun st op => let '(c, us) := capture_step lim st.1 op in (c, st.2 ++ us)) st ops.

Definition capture_run (lim : limits) (ops : list (Z * capture_op)) : capture * list output_update :=
  capture_run_from lim (empty_capture, []) ops.

Section Shown.
Context (lim : limits).
Hypothesis Hretain : l_retain lim = RetainTail.
Hypothesis Hmax : 8 <= l_maxBytes lim.

(** The operations of a command's output: bytes, timers, flushes, the path. *)
Definition output_op (o : Z * capture_op) : Prop :=
  match o.2 with
  | OPush (CBytes b) => Forall (fun x => 0 <= x) b
  | OPush (CText _) | OFinish | ODispose => False
  | _ => True
  end.

Definition bytes_of (ops : list (Z * capture_op)) : list Z :=
  ops ≫= fun o => match o.2 with OPush (CBytes b) => b | _ => [] end.

(** The characters given to the buffer while a stream is decoded, and the
    decoder's state, after the bytes [bs]. *)
Record streaming (bs : list Z) (c : capture) : Prop := {
  st_text : capture_inv lim (strip_bom false (dec_run dec_init bs).1).1 c;
  st_decoder : c_decoder c =
    TextDecoder (dec_run dec_init bs).2 (strip_bom false (dec_run dec_init bs).1).2;
  st_bytes : Forall (fun x => 0 <= x) bs;
  st_live : c_disposed c = false
}.

Lemma publish_text f w c : capture_inv lim w c -> capture_inv lim w (publish lim f c).1.
Proof. intros [? ? ? ? ? ?]. unfold publish. destruct (f _ _). by split. Qed.

Lemma publish_decoder f c : c_decoder (publish lim f c).1 = c_decoder c.
Proof. unfold publish. by destruct (f _ _). Qed.

Lemma publish_disposed f c : c_disposed (publish lim f c).1 = c_disposed c.
Proof. unfold publish. by destruct (f _ _). Qed.

Lemma streaming_publish f bs c : streaming bs c -> streaming bs (publish lim f c).1.
Proof.
  intros [H1 H2 H3 H4]. split; [by apply publish_text|by rewrite publish_decoder|done|].
  by rewrite publish_disposed.
Qed.

Lemma store_text_fields text c :
  c_decoder (store_text lim text c) = c_decoder c /\ c_disposed (store_text lim text c) = c_disposed c.
Proof. unfold store_text. by destruct (if _ <? _ then _ else _). Qed.

Lemma set_decoder_text w c d : capture_inv lim w c -> capture_inv lim w (set_decoder c d).
Proof. by intros [? ? ? ? ? ?]. Qed.

Lemma appendText_inv now w t c :
  Forall is_scalar t -> capture_inv lim w c ->
  capture_inv lim (w ++ t) (appendText lim now (units_of t) c).1 /\
  c_decoder (appendText lim now (units_of t) c).1 = c_decoder c /\
  c_disposed (appendText lim now (units_of t) c).1 = c_disposed c.
Proof.
  intros HF Hc. unfold appendText. destruct (units_of t) as [|x r] eqn:E.
  - apply units_of_nil in E as ->. by rewrite app_nil_r.
  - rewrite <- E. rewrite publish_decoder, publish_disposed.
    destruct (store_text_fields (units_of t) c) as [-> ->]. split; [|done].
    apply publish_text, store_text_inv; try done. by intros ->.
Qed.

Lemma empty_streaming : streaming [] empty_capture.
Proof.
  split; try done. split; try done. exists []. repeat split; try done. by left.
Qed.

Lemma push_streaming now bs b c :
  Forall (fun x => 0 <= x) b -> streaming bs c ->
  streaming (bs ++ b) (push lim now (CBytes b) c).1.
Proof.
  intros Hb [Ht Hd Hbs Hl]. unfold push. rewrite Hl. unfold td_stream. rewrite Hd. cbn [td_state td_bomSeen].
  destruct (dec_run_inv dec_init bs Hbs) as [Hs Hi]; [done|].
  destruct (dec_run_inv (dec_run dec_init bs).2 b Hb Hi) as [Hs2 _].
  pose proof (dec_run_app dec_init bs b) as Happ.
  destruct (dec_run dec_init bs) as [o1 s1]. cbn [fst snd] in *.
  destruct (dec_run s1 b) as [o2 s2]. cbn [fst snd] in *.
  pose proof (strip_bom_app false o1 o2) as Hstrip.
  destruct (strip_bom false o1) as [k1 f1]. cbn [fst snd] in *.
  pose proof (strip_bom_suffix f1 o2) as Hsuf.
  destruct (strip_bom f1 o2) as [k2 f2]. cbn [fst snd] in *.
  destruct (appendText_inv now k1 k2 (set_decoder c (TextDecoder s2 f2))) as (H1 & H2 & H3);
    [by apply (scalar_suffix _ o2)|by apply set_decoder_text|].
  split; rewrite ?Happ; cbn [fst snd]; rewrite ?Hstrip; try done.
  - by apply Forall_app.
  - by rewrite H3.
Qed.

Lemma setSpillPath_streaming now path bs c :
  streaming bs c -> streaming bs (setSpillPath lim now path c).1.
Proof.
  intros H. unfold setSpillPath, flush_capture.
  destruct (c_disposed c || _); [done|].
  match goal with |- context [publish lim (pub_mark now) ?c'] => set (c0 := c') end.
  assert (H0 : streaming bs c0) by (by destruct H as [[] ? ?]).
  pose proof (streaming_publish (pub_mark now) bs c0 H0) as H1.
  destruct (publish lim (pub_mark now) c0) as [c1 u1]. cbn [fst] in *.
  destruct (c_disposed c1); [done|]. pose proof (streaming_publish (pub_flush true now) bs c1 H1) as H2.
  by destruct (publish lim (pub_flush true now) c1).
Qed.

Lemma capture_step_streaming bs c op :
  output_op op -> streaming bs c -> streaming (bs ++ bytes_of [op]) (capture_step lim c op).1.
Proof.
  destruct op as [now [[b|t]| |path| | |]]; unfold output_op; cbn; try done; rewrite ?app_nil_r; intros Ho H.
  - by apply push_streaming.
  - by apply setSpillPath_streaming.
  - unfold flush_capture. destruct (c_disposed c); [done|]. by apply streaming_publish.
  - by apply streaming_publish.
Qed.

Lemma capture_run_streaming bs st ops :
  Forall output_op ops -> streaming bs st.1 ->
  streaming (bs ++ bytes_of ops) (capture_run_from lim st ops).1.
Proof.
  intros HF; revert bs st; induction HF as [|op ops Ho HF IH]; intros bs st H.
  - by rewrite app_nil_r.
  - unfold capture_run_from. cbn [foldl].
    pose proof (capture_step_streaming bs st.1 op Ho H) as Hs.
    destruct (capture_step lim st.1 op) as [c us].
    unfold bytes_of in *. rewrite bind_cons. cbn [fst] in Hs.
    replace (bs ++ _) with ((bs ++ ([op] ≫= fun o => match o.2 with OPush (CBytes b) => b | _ => [] end))
      ++ (ops ≫= fun o => match o.2 with OPush (CBytes b) => b | _ => [] end)).
    + by apply (IH _ (c, st.2 ++ us)).
    + by rewrite bind_cons, <- !app_assoc.
Qed.

Lemma finish_text now bs c :
  streaming bs c ->
  capture_inv lim (strip_bom false (decode_cps bs)).1 (finish lim now c).1.
Proof.
  intros [Ht Hd Hbs Hl]. unfold finish. rewrite Hl. unfold td_end. rewrite Hd. cbn [td_state td_bomSeen].
  unfold decode_cps. destruct (dec_run dec_init bs) as [o1 s1]. cbn [fst snd] in *.
  pose proof (strip_bom_app false o1 (dec_flush s1)) as Hstrip.
  destruct (strip_bom false o1) as [k1 f1]. cbn [fst snd] in *.
  pose proof (strip_bom_suffix f1 (dec_flush s1)) as Hsuf.
  destruct (strip_bom f1 (dec_flush s1)) as [k2 f2]. rewrite Hstrip. cbn [fst snd] in *.
  apply appendText_inv; [|by apply set_decoder_text].
  apply (scalar_suffix _ (dec_flush s1)); [done|apply dec_flush_scalar].
Qed.
End Shown.

(** With the limits of the constructor, truncating the head never throws. *)
Lemma retained_head_ok s maxL maxB :
  0 < maxL -> 0 < maxB -> exists t, Harness.truncateHead true s (Some maxL) (Some maxB) = Ok t.
Proof.
  intros HL HB. unfold Harness.truncateHead. cbn [nullish].
  destruct (_ && _) eqn:E; [eauto|].
  destruct (Harness.splitLinesForCounting s) as [|l ls] eqn:Es.
  - destruct s as [|x s]; [|by apply Harness.splitLines_not_nil in Es].
    apply andb_false_iff in E as [E|E]; apply Z.leb_gt in E;
      [cbn in E|change (Harness.utf8ByteLength true []) with 0 in E]; lia.
  - destruct (maxB <? _); [eauto|]. destruct (Harness.head_loop _ _ _ _ _ _ _) as [[? ?] ?]. eauto.
Qed.

(** The counters of a capture are those of the text it was given. *)
Lemma capture_counters lim w c :
  capture_inv lim w c ->
  c_totalBytes c = Buffer_byteLength (units_of w) /\
  capture_totalLines c = Z.of_nat (length (Harness.splitLinesForCounting (units_of w))) /\
  capture_truncated lim c =
    (l_maxBytes lim <? Buffer_byteLength (units_of w)) ||
    (l_maxLines lim <? Z.of_nat (length (Harness.splitLinesForCounting (units_of w)))).
Proof.
  intros [Hsc _ Htot Hnl Hends _]. rewrite <- byteLength_units_of in Htot by done.
  split; [done|]. assert (capture_totalLines c =
    Z.of_nat (length (Harness.splitLinesForCounting (units_of w)))) as Hl.
  { unfold capture_totalLines. rewrite length_splitLines, Hnl, Hends, Htot.
    destruct w as [|x w]; [done|]. by rewrite (bool_decide_false (x :: w = [])), orb_false_r by done. }
  split; [done|]. unfold capture_truncated. by rewrite Hl, Htot.
Qed.

Lemma truncateTail_truncated s maxL maxB :
  truncated (Harness.truncateTail true s (Some maxL) (Some maxB)) =
  (maxB <? Buffer_byteLength s) || (maxL <? Z.of_nat (length (Harness.splitLinesForCounting s))).
Proof.
  unfold Harness.truncateTail. cbn [nullish]. change (Harness.utf8ByteLength true) with Buffer_byteLength.
  rewrite !Z.leb_antisym, <- negb_orb, orb_comm.
  destruct ((maxB <? _) || _); simpl; [|done].
  by destruct (Harness.tail_loop _ _ _ _ _ _) as [[[out c] by'] part].
Qed.

(** A snapshot shows the tail of the whole text. *)
Lemma snapshot_tail lim w c :
  l_retain lim = RetainTail -> 8 <= l_maxBytes lim ->
  capture_inv lim w c ->
  let t := Harness.truncateTail true (units_of w) (Some (l_maxLines lim)) (Some (l_maxBytes lim)) in
  let s := take_snapshot lim c in
  let m := i_truncation (s_info s) in
  s_text s = sanitizeShellOutput (content t) /\
  md_truncated m = truncated t /\
  md_totalLines m = Z.of_nat (length (Harness.splitLinesForCounting (units_of w))) /\
  md_totalBytes m = Buffer_byteLength (units_of w) /\
  md_outputLines m = outputLines t /\ md_outputBytes m = outputBytes t /\
  md_lastLinePartial m = lastLinePartial t.
Proof.
  intros Hr Hmax Hc. cbv zeta. destruct (capture_counters lim w c Hc) as (Htot & Hlines & Htr).
  unfold take_snapshot. cbn. rewrite Htot, Hlines, Htr, truncateTail_truncated.
  unfold retained. rewrite Hr. destruct Hc as [Hsc (b & -> & _ & [q ->] & Hbig) _ _ _ _].
  destruct Hbig as [Hw|Hbig].
  { rewrite <- Hw. by repeat split. }
  destruct (truncateTail_suffix true q b (Some (l_maxLines lim)) (Some (l_maxBytes lim)))
    as (H1 & H2 & H3 & H4 & _ & _ & _); try done; try (cbn; lia).
  rewrite H1, H2, H3, H4. by repeat split.
Qed.

(** although a capture keeps only a bounded suffix of the output and never
    sees it whole, its final snapshot is what truncating the complete decoded
    output would give: the same text, whether it was truncated and how much
    of it is shown, with the totals of the complete output; for every way the
    output is cut into chunks and every interleaving with timers, flushes and
    the path of the full output. *)
Theorem capture_shows_tail lim ops now :
  l_retain lim = RetainTail -> 8 <= l_maxBytes lim -> Forall output_op ops ->
  let output := td_decode (bytes_of ops) in
  let t := Harness.truncateTail true output (Some (l_maxLines lim)) (Some (l_maxBytes lim)) in
  let s := take_snapshot lim (capture_run lim (ops ++ [(now, OFinish)])).1 in
  let m := i_truncation (s_info s) in
  s_text s = sanitizeShellOutput (content t) /\
  md_truncated m = truncated t /\
  md_totalLines m = Z.of_nat (length (Harness.splitLinesForCounting output)) /\
  md_totalBytes m = Buffer_byteLength output /\
  md_outputLines m = outputLines t /\ md_outputBytes m = outputBytes t /\
  md_lastLinePartial m = lastLinePartial t.
Proof.
  intros Hr Hmax HF. unfold capture_run, capture_run_from. rewrite foldl_app. cbn [foldl].
  pose proof (capture_run_streaming lim Hr Hmax [] (empty_capture, []) ops HF (empty_streaming lim)) as Hs.
  unfold capture_run_from in Hs.
  pose proof (finish_text lim Hr Hmax now _ _ Hs) as Hfin. cbn [capture_step].
  destruct (finish lim now _) as [c us]. cbn [fst] in *.
  by apply (snapshot_tail lim).
Qed.

Lemma capture_shows_tail_witness :
  let lim := Limits 8 2 RetainTail in
  let ops := [(0, OPush (CBytes (utf8_encode (js "first line"))));
              (1, OPush (CBytes (LF :: utf8_encode (js "second") ++ [LF; 226; 130])));
              (5, OTimer); (6, OPush (CBytes [172; 120; 255]))] in
  s_text (take_snapshot lim (capture_run lim (ops ++ [(7, OFinish)])).1) = [8364; 120; 65533].
Proof.
  intros lim ops. destruct (capture_shows_tail lim ops 7) as [-> _]; try done.
  vm_compute. repeat (constructor || (intro; discriminate)).
Defined.

(** ** The view of a consumer *)

Record shown_inv (lim : limits) (c : capture) (us : list output_update) : Prop := {
  si_log : exists log, em_update <$> log = us /\
    pub_inv measure_update OUTPUT_MIN_EMIT_INTERVAL_MS OUTPUT_TARGET_BYTES_PER_SECOND
      (PubWorld (take_snapshot lim c) (c_publisher c) log);
  si_disposed : p_disposed (c_publisher c) = c_disposed c
}.

(** The three ways the capture drives its publisher are steps of it. *)
Lemma mark_shown lim now c c0 us :
  c_publisher c = c_publisher c0 -> c_disposed c = c_disposed c0 -> shown_inv lim c0 us ->
  shown_inv lim (publish lim (pub_mark now) c).1 (us ++ (publish lim (pub_mark now) c).2).
Proof.
  intros Hp Hd [(log & Hlog & Hinv) Hdis].
  apply (fun H => pub_step_inv _ _ _ _ (now, Changed (take_snapshot lim c)) H) in Hinv.
  pose proof (markDirty_disposed measure_update OUTPUT_MIN_EMIT_INTERVAL_MS
    OUTPUT_TARGET_BYTES_PER_SECOND now (take_snapshot lim c) (c_publisher c0)) as Hpd.
  unfold publish, pub_mark. rewrite Hp. cbn in Hinv. destruct (markDirty _ _ _ _ _ _) as [p' o].
  split; [|by cbn in *; rewrite Hpd, Hdis].
  eexists. split; [|exact Hinv]. rewrite fmap_app, Hlog. f_equal. by destruct o.
Qed.

Lemma flush_shown lim now c us :
  shown_inv lim c us ->
  shown_inv lim (publish lim (pub_flush true now) c).1 (us ++ (publish lim (pub_flush true now) c).2).
Proof.
  intros [(log & Hlog & Hinv) Hdis].
  apply (fun H => pub_step_inv _ _ _ _ (now, ForceFlush) H) in Hinv.
  pose proof (flush_disposed measure_update OUTPUT_MIN_EMIT_INTERVAL_MS
    OUTPUT_TARGET_BYTES_PER_SECOND true now (take_snapshot lim c) (c_publisher c)) as Hpd.
  unfold publish, pub_flush. cbn in Hinv. destruct (flush _ _ _ _ _ _ _) as [p' o].
  split; [|by cbn in *; rewrite Hpd, Hdis].
  eexists. split; [|exact Hinv]. rewrite fmap_app, Hlog. f_equal. by destruct o.
Qed.

Lemma timer_shown lim now c us :
  shown_inv lim c us ->
  shown_inv lim (publish lim (pub_timer now) c).1 (us ++ (publish lim (pub_timer now) c).2).
Proof.
  intros [(log & Hlog & Hinv) Hdis].
  apply (fun H => pub_step_inv _ _ _ _ (now, TimerFires) H) in Hinv.
  pose proof (timer_disposed measure_update OUTPUT_MIN_EMIT_INTERVAL_MS
    OUTPUT_TARGET_BYTES_PER_SECOND now (take_snapshot lim c) (c_publisher c)) as Hpd.
  unfold publish, pub_timer. cbn in Hinv. destruct (timer_fires _ _ _ _ _ _) as [p' o].
  split; [|by cbn in *; rewrite Hpd, Hdis].
  eexists. split; [|exact Hinv]. rewrite fmap_app, Hlog. f_equal. by destruct o.
Qed.

Lemma appendText_shown lim now text c us :
  shown_inv lim c us ->
  shown_inv lim (appendText lim now text c).1 (us ++ (appendText lim now text c).2).
Proof.
  intros H. unfold appendText. destruct text as [|x r]; [by rewrite app_nil_r|].
  apply (mark_shown lim now _ c); [| |done]; unfold store_text; by destruct (if _ <? _ then _ else _).
Qed.

(** The decoder is no part of a snapshot. *)
Lemma set_decoder_shown lim c d us : shown_inv lim c us -> shown_inv lim (set_decoder c d) us.
Proof. by intros [? ?]. Qed.

Lemma capture_step_shown lim c op us :
  shown_inv lim c us ->
  shown_inv lim (capture_step lim c op).1 (us ++ (capture_step lim c op).2).
Proof.
  intros H. destruct op as [now [[b|t]| |path| | |]]; cbn [capture_step].
  - unfold push. destruct (c_disposed c); [by rewrite app_nil_r|].
    destruct (td_stream _ _). by apply appendText_shown, set_decoder_shown.
  - unfold push. destruct (c_disposed c); [by rewrite app_nil_r|]. destruct (td_end _) as [rest d].
    pose proof (appendText_shown lim now rest _ us (set_decoder_shown lim c d us H)) as H1.
    destruct (appendText lim now rest _) as [c1 u1].
    pose proof (appendText_shown lim now t c1 _ H1) as H2. cbn [snd] in H2.
    destruct (appendText lim now t c1) as [c2 u2]. cbn [fst snd]. by rewrite app_assoc.
  - unfold finish. destruct (c_disposed c); [by rewrite app_nil_r|].
    destruct (td_end _). by apply appendText_shown, set_decoder_shown.
  - unfold setSpillPath, flush_capture. destruct (c_disposed c || _); [by rewrite app_nil_r|].
    match goal with |- context [publish lim (pub_mark now) ?c'] => set (c0 := c') end.
    pose proof (mark_shown lim now c0 c us eq_refl eq_refl H) as H1.
    destruct (publish lim (pub_mark now) c0) as [c1 u1]. cbn [fst snd] in H1.
    destruct (c_disposed c1); [cbn [fst snd]; by rewrite app_nil_r|].
    pose proof (flush_shown lim now c1 _ H1) as H2.
    destruct (publish lim (pub_flush true now) c1) as [c2 u2]. cbn [fst snd]. by rewrite app_assoc.
  - unfold flush_capture. destruct (c_disposed c); [by rewrite app_nil_r|]. by apply flush_shown.
  - by apply timer_shown.
  - rewrite app_nil_r. destruct H as [(log & Hlog & [? ? ? ? ?]) Hd]. split; [|done].
    exists log. split; [done|]. split; cbn in *; try done.
Qed.

Lemma capture_run_shown lim ops :
  shown_inv lim (capture_run lim ops).1 (capture_run lim ops).2.
Proof.
  unfold capture_run, capture_run_from.
  assert (H : shown_inv lim (empty_capture, @nil output_update).1 (empty_capture, @nil output_update).2).
  { split; [|done]. exists []. split; [done|]. split; cbn; auto; done. }
  revert H. generalize (empty_capture, @nil output_update).
  induction ops as [|op ops IH]; intros st H; [done|]. cbn [foldl]. apply IH.
  pose proof (capture_step_shown lim st.1 op st.2 H) as Hs.
  by destruct (capture_step lim st.1 op).
Qed.

(** A capture that took text has marked its publisher. *)
Definition marked (c : capture) : Prop :=
  p_disposed (c_publisher c) = c_disposed c /\
  (c_disposed c = true \/ touched (c_publisher c) \/ c_totalBytes c = 0).

Lemma mark_marked lim now c :
  p_disposed (c_publisher c) = c_disposed c -> marked (publish lim (pub_mark now) c).1.
Proof.
  intros Hd. unfold publish, pub_mark.
  pose proof (markDirty_disposed measure_update OUTPUT_MIN_EMIT_INTERVAL_MS
    OUTPUT_TARGET_BYTES_PER_SECOND now (take_snapshot lim c) (c_publisher c)) as H1.
  pose proof (markDirty_touched measure_update OUTPUT_MIN_EMIT_INTERVAL_MS
    OUTPUT_TARGET_BYTES_PER_SECOND now (take_snapshot lim c) (c_publisher c)) as H2.
  destruct (markDirty _ _ _ _ _ _) as [p o]. cbn [fst] in *. split; cbn; [congruence|].
  destruct (c_disposed c); [by left|]. right; left. apply H2. congruence.
Qed.

Lemma flush_marked lim now c : marked c -> marked (publish lim (pub_flush true now) c).1.
Proof.
  intros [Hd H]. unfold publish, pub_flush.
  pose proof (flush_disposed measure_update OUTPUT_MIN_EMIT_INTERVAL_MS
    OUTPUT_TARGET_BYTES_PER_SECOND true now (take_snapshot lim c) (c_publisher c)) as H1.
  pose proof (flush_touched measure_update OUTPUT_MIN_EMIT_INTERVAL_MS
    OUTPUT_TARGET_BYTES_PER_SECOND true now (take_snapshot lim c) (c_publisher c)) as H2.
  destruct (flush _ _ _ _ _ _ _) as [p o]. cbn [fst] in *. split; cbn; [congruence|tauto].
Qed.

Lemma timer_marked lim now c : marked c -> marked (publish lim (pub_timer now) c).1.
Proof.
  intros [Hd H]. unfold publish, pub_timer.
  pose proof (timer_disposed measure_update OUTPUT_MIN_EMIT_INTERVAL_MS
    OUTPUT_TARGET_BYTES_PER_SECOND now (take_snapshot lim c) (c_publisher c)) as H1.
  pose proof (timer_touched measure_update OUTPUT_MIN_EMIT_INTERVAL_MS
    OUTPUT_TARGET_BYTES_PER_SECOND now (take_snapshot lim c) (c_publisher c)) as H2.
  destruct (timer_fires _ _ _ _ _ _) as [p o]. cbn [fst] in *. split; cbn; [congruence|tauto].
Qed.

Lemma appendText_marked lim now text c : marked c -> marked (appendText lim now text c).1.
Proof.
  intros [Hd H]. unfold appendText. destruct text as [|x r]; [done|]. apply mark_marked.
  unfold store_text. by destruct (if _ <? _ then _ else _).
Qed.

Lemma capture_step_marked lim c op : marked c -> marked (capture_step lim c op).1.
Proof.
  intros H. destruct op as [now [[b|t]| |path| | |]]; cbn [capture_step].
  - unfold push. destruct (c_disposed c); [done|]. destruct (td_stream _ _). by apply appendText_marked.
  - unfold push. destruct (c_disposed c); [done|]. destruct (td_end _) as [rest d].
    pose proof (appendText_marked lim now rest (set_decoder c d) H) as H1.
    destruct (appendText lim now rest _) as [c1 u1]. pose proof (appendText_marked lim now t c1 H1) as H2.
    by destruct (appendText lim now t c1).
  - unfold finish. destruct (c_disposed c); [done|]. destruct (td_end _). by apply appendText_marked.
  - unfold setSpillPath, flush_capture. destruct (c_disposed c || _); [done|].
    match goal with |- context [publish lim (pub_mark now) ?c'] => set (c0 := c') end.
    pose proof (mark_marked lim now c0 (proj1 H)) as H1.
    destruct (publish lim (pub_mark now) c0) as [c1 u1]. cbn [fst] in H1.
    destruct (c_disposed c1); [done|]. pose proof (flush_marked lim now c1 H1) as H2.
    by destruct (publish lim (pub_flush true now) c1).
  - unfold flush_capture. destruct (c_disposed c); [done|]. by apply flush_marked.
  - by apply timer_marked.
  - split; [done|]. by left.
Qed.

Lemma capture_run_marked lim ops : marked (capture_run lim ops).1.
Proof.
  unfold capture_run, capture_run_from.
  assert (H : marked (empty_capture, @nil output_update).1) by (split; [done|]; by right; right).
  revert H. generalize (empty_capture, @nil output_update).
  induction ops as [|op ops IH]; intros st H; [done|]. cbn [foldl]. apply IH.
  pose proof (capture_step_marked lim st.1 op H) as Hs. by destruct (capture_step lim st.1 op).
Qed.

(** A forced flush leaves nothing dirty. *)
Lemma flush_not_dirty lim ops now :
  let st := capture_run lim (ops ++ [(now, OFlush)]) in
  c_disposed st.1 = false -> dirty (c_publisher st.1) = false.
Proof.
  pose proof (capture_run_marked lim ops) as Hm.
  unfold capture_run, capture_run_from in *. rewrite foldl_app. cbn [foldl].
  destruct (foldl _ _ ops) as [c us]. cbn [fst snd capture_step] in *. unfold flush_capture.
  destruct (c_disposed c) eqn:E; [cbn; congruence|]. unfold publish, pub_flush.
  pose proof (flush_publishes measure_update OUTPUT_MIN_EMIT_INTERVAL_MS OUTPUT_TARGET_BYTES_PER_SECOND
    true now (take_snapshot lim c) (c_publisher c)) as Hfl.
  destruct Hm as [Hd _]. destruct (dirty (c_publisher c)) eqn:Ed.
  - destruct (flush _ _ _ _ _ _ _) as [p o]. cbn in *. intros _. apply Hfl; auto; congruence.
  - unfold flush. by rewrite Ed, orb_true_r.
Qed.

(** What a consumer has after a forced flush: the snapshot, or nothing when
    there never was any text. *)
Lemma flush_shows lim ops now :
  let st := capture_run lim (ops ++ [(now, OFlush)]) in
  c_disposed st.1 = false ->
  (view_of st.2 = None /\ c_totalBytes st.1 = 0) \/ view_of st.2 = Some (take_snapshot lim st.1).
Proof.
  intros st Hd. pose proof (flush_not_dirty lim ops now Hd) as Hdirty. fold st in Hdirty.
  destruct (capture_run_shown lim (ops ++ [(now, OFlush)])) as [(log & Hlog & Hinv) Hpd].
  pose proof (capture_run_marked lim (ops ++ [(now, OFlush)])) as [_ Hm].
  fold st in Hlog, Hinv, Hpd, Hm. destruct Hinv as [Hv _ Hf _ _].
  cbn [w_pub w_log w_source] in *. rewrite Hlog in Hv. rewrite Hv.
  destruct (Hf ltac:(congruence) Hdirty) as [[E1 E2]|E]; [left|by right].
  split; [done|]. destruct Hm as [?|[[?|?]|?]]; congruence.
Qed.

(** a consumer that applies every update holds, after a forced flush of a
    capture that was not disposed of, exactly the capture's snapshot (or
    nothing, when there was never any text to show). *)
Theorem capture_flush_shows lim ops now :
  let st := capture_run lim (ops ++ [(now, OFlush)]) in
  c_disposed st.1 = false ->
  (view_of st.2 = None /\ c_totalBytes st.1 = 0) \/ view_of st.2 = Some (take_snapshot lim st.1).
Proof. apply flush_shows. Qed.

Lemma capture_flush_shows_witness :
  let st := capture_run (Limits 8 2 RetainTail) [(0, OPush (CBytes (js "ab"))); (1, OPush (CBytes (js "cd"))); (2, OFlush)] in
  view_of st.2 = Some (take_snapshot (Limits 8 2 RetainTail) st.1).
Proof.
  intros st. destruct (capture_flush_shows (Limits 8 2 RetainTail)
    [(0, OPush (CBytes (js "ab"))); (1, OPush (CBytes (js "cd")))] 2) as [[_ H]|H]; [done| |exact H].
  vm_compute in H. discriminate.
Defined.
