(* ===== verification/OutputAccumulator.v ===== *)
(** The output of the coding agent's shell tools:
    [OutputAccumulator] (packages/coding-agent/src/core/tools/output-accumulator.ts,
    as bundled in src/drivers/tools/pibridge/bridge.mjs).  It keeps the decoded
    tail of the output and writes all of it to a temporary file once it exceeds
    the limits. *)
From S2P Require Import Prelude Utf8 Numbers Json AdaptivePublisher Truncate OutputCapture.
Import Truncate.CodingAgent.
Open Scope Z_scope.

(** [tempFilePath] and what was written to the stream it names; [open_] until
    [closeTempFile]. *)
Record temp_file := TempFile { tf_path : jstr; tf_chunks : list (list Z); tf_open : bool }.

Record accumulator := Accumulator {
  decoder : text_decoder;
  rawChunks : list (list Z);
  tailText : jstr;
  tailBytes : Z;
  tailStartsAtLineBoundary : bool;
  totalRawBytes : Z;
  totalDecodedBytes : Z;
  completedLines : Z;
  totalLines_ : Z;
  currentLineBytes : Z;
  hasOpenLine : bool;
  finished : bool;
  temp : option temp_file
}.

Definition new_accumulator : accumulator :=
  Accumulator td_new [] [] 0 true 0 0 0 0 0 false false None.

(** What [snapshot] returns. *)
Record acc_snapshot := AccSnapshot { sn_truncation : truncation; sn_fullOutputPath : option jstr }.

Section Accumulator.
(** The options, and the name [defaultTempFilePath] makes up. *)
Context (optMaxLines optMaxBytes : option Z) (tempFilePath : jstr).

Definition maxLines_ : Z := nullish optMaxLines DEFAULT_MAX_LINES2.
Definition maxBytes_ : Z := nullish optMaxBytes DEFAULT_MAX_BYTES2.
Definition maxRollingBytes : Z := Z.max (maxBytes_ * 2) 1.

Definition shouldUseTempFile (a : accumulator) : bool :=
  (maxBytes_ <? totalRawBytes a) || (maxBytes_ <? totalDecodedBytes a) || (maxLines_ <? totalLines_ a).

Definition set_temp (raw : list (list Z)) (t : option temp_file) (a : accumulator) : accumulator :=
  Accumulator (decoder a) raw (tailText a) (tailBytes a) (tailStartsAtLineBoundary a) (totalRawBytes a)
    (totalDecodedBytes a) (completedLines a) (totalLines_ a) (currentLineBytes a) (hasOpenLine a) (finished a) t.

Definition ensureTempFile (a : accumulator) : accumulator :=
  match temp a with
  | Some _ => a
  | None => set_temp [] (Some (TempFile tempFilePath (rawChunks a) true)) a
  end.

(** [this.tempFileStream?.write(data)] *)
Definition write_temp (data : list Z) (a : accumulator) : accumulator :=
  match temp a with
  | Some (TempFile path chunks true) => set_temp (rawChunks a) (Some (TempFile path (chunks ++ [data]) true)) a
  | _ => a
  end.

(** [trimTail]: the text, its bytes and whether it starts a line. *)
Definition trimTail (text : jstr) (atBoundary : bool) : jstr * Z * bool :=
  let buffer := utf8_encode text in
  let len := Z.of_nat (length buffer) in
  if len <=? maxRollingBytes then (text, len, atBoundary)
  else
    let kept := drop_while is_continuation (drop (Z.to_nat (len - maxRollingBytes)) buffer) in
    let start := (length buffer - length kept)%nat in
    let text' := utf8_decode kept in
    (text', Buffer_byteLength text',
     if (start =? 0)%nat then atBoundary
     else match buffer !! (start - 1)%nat with Some c => c =? 10 | None => false end).

Definition appendDecodedText (text : jstr) (a : accumulator) : accumulator :=
  match text with
  | [] => a
  | _ =>
      let bytes := Buffer_byteLength text in
      let tail := tailText a ++ text in
      let '(tail, tailB, boundary) :=
        if maxRollingBytes * 2 <? tailBytes a + bytes
        then trimTail tail (tailStartsAtLineBoundary a)
        else (tail, tailBytes a + bytes, tailStartsAtLineBoundary a) in
      let newlines := countNewlines text in
      let rest := after_last_newline text in
      let completed := completedLines a + newlines in
      let open_ := if newlines =? 0 then true else truthy rest in
      Accumulator (decoder a) (rawChunks a) tail tailB boundary (totalRawBytes a)
        (totalDecodedBytes a + bytes) completed (completed + if open_ then 1 else 0)
        (if newlines =? 0 then currentLineBytes a + bytes else Buffer_byteLength rest)
        open_ (finished a) (temp a)
  end.

Definition set_decoding (d : text_decoder) (raw : Z) (fin : bool) (a : accumulator) : accumulator :=
  Accumulator d (rawChunks a) (tailText a) (tailBytes a) (tailStartsAtLineBoundary a) raw (totalDecodedBytes a)
    (completedLines a) (totalLines_ a) (currentLineBytes a) (hasOpenLine a) fin (temp a).

Definition append (data : list Z) (a : accumulator) : result jstr accumulator :=
  if finished a then Throw (js "Cannot append to a finished output accumulator")
  else
    let '(text, d) := td_stream (decoder a) data in
    let a := appendDecodedText text (set_decoding d (totalRawBytes a + Z.of_nat (length data)) false a) in
    let streaming := match temp a with Some t => tf_open t | None => false end in
    Ok (if streaming || shouldUseTempFile a then write_temp data (ensureTempFile a)
        else match data with
             | [] => a
             | _ => set_temp (rawChunks a ++ [data]) (temp a) a
             end).

Definition acc_finish (a : accumulator) : accumulator :=
  if finished a then a
  else
    let '(text, d) := td_end (decoder a) in
    let a := appendDecodedText text (set_decoding d (totalRawBytes a) true a) in
    if shouldUseTempFile a then ensureTempFile a else a.

Definition getSnapshotText (a : accumulator) : jstr :=
  if tailStartsAtLineBoundary a then tailText a
  else match index_of [LF] (tailText a) with
       | None => tailText a
       | Some i => drop (i + 1) (tailText a)
       end.

Definition acc_snapshot_of (persistIfTruncated : bool) (a : accumulator) : acc_snapshot * accumulator :=
  let t := truncateTail2 (getSnapshotText a) (Some maxLines_) (Some maxBytes_) in
  let truncated' := (maxLines_ <? totalLines_ a) || (maxBytes_ <? totalDecodedBytes a) in
  let truncatedBy' :=
    if truncated' then
      match truncatedBy t with
      | Some by_ => Some by_
      | None => Some (if maxBytes_ <? totalDecodedBytes a then ByBytes else ByLines)
      end
    else None in
  let a := if persistIfTruncated && truncated' then ensureTempFile a else a in
  (AccSnapshot
     (Truncation (content t) truncated' truncatedBy' (totalLines_ a) (totalDecodedBytes a) (outputLines t)
        (outputBytes t) (lastLinePartial t) (firstLineExceedsLimit t) maxLines_ maxBytes_)
     (tf_path <$> temp a), a).

(** [closeTempFile], once the stream has finished. *)
Definition closeTempFile (a : accumulator) : accumulator :=
  match temp a with
  | Some (TempFile path chunks true) => set_temp (rawChunks a) (Some (TempFile path chunks false)) a
  | _ => a
  end.

Definition getLastLineBytes (a : accumulator) : Z := currentLineBytes a.

(** The uses of an accumulator before its end: output, and snapshots for
    progress reports, which make sure of the file. *)
Inductive acc_op := AData (data : list Z) | ASnapshot.

Definition acc_step (a : accumulator) (op : acc_op) : result jstr accumulator :=
  match op with
  | AData data => append data a
  | ASnapshot => Ok (acc_snapshot_of true a).2
  end.

Fixpoint acc_run (a : accumulator) (ops : list acc_op) : result jstr accumulator :=
  match ops with
  | [] => Ok a
  | op :: r => let! a := acc_step a op in acc_run a r
  end.
End Accumulator.

(** * Facts *)

(** A command whose output is one long line: nothing of it is shown. *)
Example long_line_ex :
  let a := match append (Some 10) (Some 4) (js "/tmp/x") (replicate 17 120 ++ [LF]) new_accumulator with
           | Ok a => acc_finish (Some 10) (Some 4) (js "/tmp/x") a | Throw _ => new_accumulator end in
  let t := sn_truncation (acc_snapshot_of (Some 10) (Some 4) (js "/tmp/x") true a).1 in
  (content t, outputLines t, totalLines t, truncated t) = ([], 0, 1, true).
Proof. vm_compute. reflexivity. Qed.

Section Tail.
Context (optMaxLines optMaxBytes : option Z) (path : jstr).
#[local] Abbreviation rolling := (maxRollingBytes optMaxBytes).
#[local] Abbreviation maxB := (maxBytes_ optMaxBytes).

(** The kept tail: the text is [q] and it, it is long when [q] is not empty, and
    it starts a line when it is marked so. *)
Record tail_inv (w : list Z) (text : jstr) (bytes : Z) (boundary : bool) : Prop := {
  ti_tail : exists q b, w = q ++ b /\ text = units_of b /\ bytes = sum_sizes b /\
    (q = [] \/ rolling - 3 <= sum_sizes b) /\ (boundary = true -> q = [] \/ last q = Some LF) /\
    (boundary = false -> q ≠ []) }.

Lemma last_byte_LF d :
  Forall is_scalar d -> d ≠ [] ->
  match last (d ≫= cp_bytes) with Some x => x =? 10 | None => false end = bool_decide (last d = Some LF).
Proof.
  intros HF Hd. destruct d as [|c d _] using rev_ind; [done|].
  apply Forall_app in HF as [_ Hc%Forall_singleton]. rewrite bind_app, bind_cons, last_snoc. cbn [mbind list_bind].
  rewrite app_nil_r, last_app.
  assert (match last (cp_bytes c) with Some x => x =? 10 | None => false end = (c =? 10)) as H.
  { unfold cp_bytes. pose proof (Z.mod_pos_bound c 64 ltac:(lia)).
    destruct (Z.leb_spec c 127); [done|]. destruct (c <=? 2047); [|destruct (c <=? 65535)]; cbn [last]; lia. }
  destruct (last (cp_bytes c)) eqn:E;
    [|by unfold cp_bytes in E; repeat case_match].
  rewrite H. destruct (Z.eqb_spec c 10) as [->|]; [by rewrite bool_decide_true|].
  rewrite bool_decide_false; [done|]. unfold LF. congruence.
Qed.

Lemma trimTail_spec cps boundary :
  Forall is_scalar cps -> rolling < sum_sizes cps ->
  exists d b, cps = d ++ b /\ d ≠ [] /\ rolling - 3 <= sum_sizes b /\
    trimTail optMaxBytes (units_of cps) boundary =
    (units_of b, sum_sizes b, bool_decide (last d = Some LF)).
Proof.
  intros HF Hlen. assert (1 <= rolling) by (unfold maxRollingBytes; lia).
  pose proof (longest_fit_large rolling cps Hlen) as Hlarge.
  pose proof (longest_fit_size rolling cps ltac:(lia)) as Hsize.
  destruct (longest_fit_suffix rolling cps) as [d Hd]. set (b := longest_fit rolling cps) in *.
  assert (HFb : Forall is_scalar b) by (apply (scalar_suffix _ cps); [by exists d|done]).
  assert (Hdn : d ≠ []) by (intros ->; simpl in Hd; rewrite <- Hd in *; lia).
  exists d, b. split_and!; [done..|]. unfold trimTail, utf8_encode. rewrite code_points_units_of by done.
  rewrite length_bind_bytes, (proj2 (Z.leb_gt _ _)) by lia.
  rewrite skip_continuation_fit by (done || lia). fold b.
  assert (utf8_decode (b ≫= cp_bytes) = units_of b) as ->.
  { unfold utf8_decode, decode_cps. rewrite dec_run_cps by done. by rewrite app_nil_r. }
  rewrite byteLength_units_of by done. f_equal.
  assert (HFd : Forall is_scalar d) by (rewrite Hd in HF; by apply Forall_app in HF as [? _]).
  assert (Hbuf : cps ≫= cp_bytes = (d ≫= cp_bytes) ++ (b ≫= cp_bytes)) by (rewrite Hd at 1; apply bind_app).
  rewrite <- last_byte_LF by done. rewrite !Hbuf, length_app.
  replace (length (d ≫= cp_bytes) + length (b ≫= cp_bytes) - length (b ≫= cp_bytes))%nat
    with (length (d ≫= cp_bytes)) by lia.
  rewrite last_lookup. pose proof (length_bind_bytes d) as Hl.
  assert (0 < sum_sizes d) as Hpos
    by (destruct d as [|c d']; [done|]; cbn [sum_sizes]; pose proof (cp_size_pos c); pose proof (sum_sizes_nonneg d'); lia).
  destruct (length (d ≫= cp_bytes)) as [|n] eqn:En; [simpl in *; lia|].
  cbn [Nat.eqb Nat.pred]. rewrite Nat.sub_succ, Nat.sub_0_r.
  by rewrite lookup_app_l by lia.
Qed.

(** ** Counting lines *)

Lemma countNewlines_zero t : (countNewlines t =? 0) = negb (existsb (Z.eqb LF) t).
Proof.
  assert (H : 0 <= countNewlines t /\ (countNewlines t =? 0) = negb (existsb (Z.eqb LF) t)); [|apply H].
  induction t as [|x t [IH0 IH]]; [done|]. cbn [countNewlines existsb]. rewrite (Z.eqb_sym LF x).
  destruct (x =? LF); cbn [orb negb]; [split; lia|split; [lia|]]. by rewrite Z.add_0_l.
Qed.

Lemma after_last_truthy s : s ≠ [] -> truthy (after_last_newline s) = negb (ends_with [LF] s).
Proof.
  intros Hs. destruct s as [|x s _] using rev_ind; [done|].
  rewrite after_last_newline_app, ends_with_app_r by done.
  cbn [existsb]. rewrite (Z.eqb_sym LF x), orb_false_r.
  destruct (Z.eqb_spec x LF) as [->|Hx]; [done|].
  unfold ends_with. cbn [rev app starts_with]. rewrite (proj2 (Z.eqb_neq LF x)) by done.
  by destruct (after_last_newline s).
Qed.

(** ** The text of an accumulator *)

Record acc_text (w : list Z) (a : accumulator) : Prop := {
  at_scalar : Forall is_scalar w;
  at_tail : tail_inv w (tailText a) (tailBytes a) (tailStartsAtLineBoundary a);
  at_total : totalDecodedBytes a = sum_sizes w;
  at_completed : completedLines a = countNewlines (units_of w);
  at_lines : totalLines_ a = Z.of_nat (length (Harness.splitLinesForCounting (units_of w)));
  at_line : currentLineBytes a = Buffer_byteLength (after_last_newline (units_of w))
}.

Lemma append_tail_inv w t text bytes boundary :
  Forall is_scalar (w ++ t) -> tail_inv w text bytes boundary ->
  let '(text', bytes', boundary') :=
    if rolling * 2 <? bytes + Buffer_byteLength (units_of t)
    then trimTail optMaxBytes (text ++ units_of t) boundary
    else (text ++ units_of t, bytes + Buffer_byteLength (units_of t), boundary) in
  tail_inv (w ++ t) text' bytes' boundary'.
Proof.
  intros HF [(q & b & -> & -> & -> & Hq & Hb & Hb')].
  assert (HFb : Forall is_scalar (b ++ t)) by (rewrite <- app_assoc in HF; by apply Forall_app in HF as [_ ?]).
  rewrite byteLength_units_of by (by apply Forall_app in HFb as [_ ?]).
  rewrite <- units_of_app, <- sum_sizes_app. rewrite <- app_assoc.
  destruct (Z.ltb_spec (rolling * 2) (sum_sizes (b ++ t))) as [Hover|Hfit].
  - assert (1 <= rolling) by (unfold maxRollingBytes; lia).
    destruct (trimTail_spec (b ++ t) boundary HFb ltac:(lia)) as (d & b' & Heq & Hd & Hsz & ->).
    split. exists (q ++ d), b'. rewrite Heq, app_assoc. split_and!; [done..| | |].
    + by right.
    + intros Hl%bool_decide_eq_true. right. rewrite last_app. by rewrite Hl.
    + intros _ E. by apply app_eq_nil in E as [_ E].
  - split. exists q, (b ++ t). split_and!; [done..| |done|done].
    destruct Hq as [->|Hq]; [by left|right]. rewrite sum_sizes_app. pose proof (sum_sizes_nonneg t). lia.
Qed.

Lemma appendDecodedText_text w t a :
  Forall is_scalar t -> acc_text w a -> acc_text (w ++ t) (appendDecodedText optMaxBytes (units_of t) a).
Proof.
  intros HFt [Hsc Htail Htot Hcomp Hlines Hline].
  assert (HF : Forall is_scalar (w ++ t)) by (by apply Forall_app).
  destruct (decide (t = [])) as [->|Hne]; [rewrite app_nil_r; by split|].
  assert (Hut : units_of t ≠ []) by (intros E; by apply units_of_nil in E).
  pose proof (append_tail_inv w t _ _ _ HF Htail) as Ht.
  unfold appendDecodedText. destruct (units_of t) as [|x r] eqn:Et; [done|]. rewrite <- Et in *. clear x r Et.
  destruct (if rolling * 2 <? _ then _ else _) as [[tail tailB] boundary].
  assert (Hopen : (if countNewlines (units_of t) =? 0 then true else truthy (after_last_newline (units_of t))) =
    negb (ends_with [LF] (units_of t))).
  { rewrite <- after_last_truthy, countNewlines_zero by done.
    pose proof (after_last_newline_app [] (units_of t)) as E. cbn [app] in E.
    destruct (existsb (Z.eqb LF) (units_of t)) eqn:Ex; [done|].
    rewrite E. cbn. by destruct (units_of t). }
  split; cbn [tailText tailBytes tailStartsAtLineBoundary totalDecodedBytes completedLines totalLines_ currentLineBytes];
    try done.
  - rewrite Htot, sum_sizes_app, byteLength_units_of by done. lia.
  - rewrite Hcomp, units_of_app, countNewlines_app. lia.
  - rewrite Hopen, Hcomp, length_splitLines, units_of_app, countNewlines_app, ends_with_app_r by done.
    assert ((Buffer_byteLength (units_of w ++ units_of t) =? 0) = false) as ->.
    { apply Z.eqb_neq. pose proof (byteLength_pos (units_of w ++ units_of t)) as Hp.
      rewrite app_nil in Hp. intuition lia. }
    rewrite orb_false_r. by destruct (ends_with [LF] (units_of t)).
  - rewrite units_of_app, after_last_newline_app, countNewlines_zero.
    destruct (existsb (Z.eqb LF) (units_of t)); [done|]. cbn [negb].
    rewrite Hline, byteLength_app; [done|].
    destruct (after_last_suffix (units_of w)) as [q Hq]. by apply (glued_units_of w _ q).
Qed.

(** ** Output as it arrives *)

#[local] Abbreviation ensure := (ensureTempFile path).
#[local] Abbreviation shouldUse := (shouldUseTempFile optMaxLines optMaxBytes).

(** All the output is kept, in memory or in the file. *)
Definition kept (data : list (list Z)) (a : accumulator) : Prop :=
  match temp a with
  | None => concat (rawChunks a) = concat data
  | Some f => tf_path f = path /\ tf_open f = true /\ concat (tf_chunks f) = concat data
  end.

Lemma set_temp_text w raw t a : acc_text w a -> acc_text w (set_temp raw t a).
Proof. by intros []. Qed.
Lemma ensure_text w a : acc_text w a -> acc_text w (ensure a).
Proof. intros H. unfold ensureTempFile. destruct (temp a); [done|by apply set_temp_text]. Qed.
Lemma write_temp_text w data a : acc_text w a -> acc_text w (write_temp data a).
Proof. intros H. unfold write_temp. destruct (temp a) as [[? ? []]|]; try done; by apply set_temp_text. Qed.

Lemma ensure_fields a :
  decoder (ensure a) = decoder a /\ totalRawBytes (ensure a) = totalRawBytes a /\ finished (ensure a) = finished a.
Proof. unfold ensureTempFile. by destruct (temp a). Qed.
Lemma write_temp_fields data a :
  decoder (write_temp data a) = decoder a /\ totalRawBytes (write_temp data a) = totalRawBytes a /\
  finished (write_temp data a) = finished a.
Proof. unfold write_temp. by destruct (temp a) as [[? ? []]|]. Qed.
Lemma appendDecodedText_fields text a :
  let a' := appendDecodedText optMaxBytes text a in
  decoder a' = decoder a /\ totalRawBytes a' = totalRawBytes a /\ finished a' = finished a /\
  temp a' = temp a /\ rawChunks a' = rawChunks a.
Proof. unfold appendDecodedText. destruct text; [done|]. by destruct (if _ <? _ then _ else _) as [[? ?] ?]. Qed.

Lemma ensure_kept data a :
  kept data a -> kept data (ensure a) /\ exists f, temp (ensure a) = Some f.
Proof.
  unfold kept, ensureTempFile. destruct (temp a) as [f|] eqn:E; [rewrite E; eauto|]. simpl. eauto.
Qed.

Lemma write_kept data d a f :
  kept data a -> temp a = Some f -> kept (data ++ [d]) (write_temp d a).
Proof.
  unfold kept, write_temp. intros H E. rewrite E in *. destruct f as [p cs o]. destruct H as (Hp & Ho & Hc). simpl in *. subst o.
  simpl. split_and!; [done|done|]. by rewrite !concat_app, Hc.
Qed.

Record acc_inv (data : list (list Z)) (a : accumulator) : Prop := {
  ai_text : acc_text (strip_bom false (dec_run dec_init (concat data)).1).1 a;
  ai_decoder : decoder a =
    TextDecoder (dec_run dec_init (concat data)).2 (strip_bom false (dec_run dec_init (concat data)).1).2;
  ai_bytes : Forall (fun x => 0 <= x) (concat data);
  ai_live : finished a = false;
  ai_kept : kept data a
}.

Lemma new_acc_inv : acc_inv [] new_accumulator.
Proof. split; try done. split; try done. split. exists [], []. split_and!; try done; auto. Qed.

Lemma acc_append_inv data d a :
  Forall (fun x => 0 <= x) d -> acc_inv data a ->
  exists a', append optMaxLines optMaxBytes path d a = Ok a' /\ acc_inv (data ++ [d]) a'.
Proof.
  intros Hd [Ht Hdec Hbs Hl Hk]. unfold append. rewrite Hl. unfold td_stream. rewrite Hdec. cbn [td_state td_bomSeen].
  destruct (dec_run_inv dec_init (concat data) Hbs) as [Hs Hi]; [done|].
  destruct (dec_run_inv (dec_run dec_init (concat data)).2 d Hd Hi) as [Hs2 _].
  pose proof (dec_run_app dec_init (concat data) d) as Happ.
  assert (Hcat : concat (data ++ [d]) = concat data ++ d) by (rewrite concat_app; simpl; by rewrite app_nil_r).
  destruct (dec_run dec_init (concat data)) as [o1 s1]. cbn [fst snd] in *.
  destruct (dec_run s1 d) as [o2 s2]. cbn [fst snd] in *.
  pose proof (strip_bom_app false o1 o2) as Hstrip.
  destruct (strip_bom false o1) as [k1 f1]. cbn [fst snd] in *.
  pose proof (strip_bom_suffix f1 o2) as Hsuf.
  destruct (strip_bom f1 o2) as [k2 f2]. cbn [fst snd] in *.
  set (a0 := set_decoding _ _ _ a).
  assert (Ht1 : acc_text (k1 ++ k2) (appendDecodedText optMaxBytes (units_of k2) a0)).
  { apply appendDecodedText_text; [by apply (scalar_suffix _ o2)|]. by destruct Ht. }
  destruct (appendDecodedText_fields (units_of k2) a0) as (Hd1 & _ & Hf1 & Htemp & Hraw).
  set (a1 := appendDecodedText optMaxBytes (units_of k2) a0) in *.
  assert (Hk1 : kept data a1) by (unfold kept; by rewrite Htemp, Hraw).
  assert (Hdone : forall a2, acc_text (k1 ++ k2) a2 -> decoder a2 = decoder a1 -> finished a2 = finished a1 ->
    kept (data ++ [d]) a2 -> acc_inv (data ++ [d]) a2).
  { intros a2 H1 H2 H3 H4. split; rewrite ?Hcat, ?Happ; cbn [fst snd]; rewrite ?Hstrip; try done.
    - by rewrite H2, Hd1.
    - by apply Forall_app.
    - by rewrite H3, Hf1. }
  eexists. split; [done|]. destruct (match temp a1 with Some t => tf_open t | None => false end || _) eqn:E.
  - destruct (ensure_kept data a1 Hk1) as (Hk2 & f & Hf).
    destruct (ensure_fields a1) as (He1 & _ & He2). destruct (write_temp_fields d (ensure a1)) as (Hw1 & _ & Hw2).
    apply Hdone; [by apply write_temp_text, ensure_text|congruence|congruence|by eapply write_kept].
  - apply orb_false_iff in E as [E _].
    assert (Hn : temp a1 = None).
    { unfold kept in Hk1. destruct (temp a1) as [f|]; [|done]. destruct Hk1 as (_ & Ho & _). congruence. }
    destruct d as [|x d].
    + apply Hdone; [done..|]. unfold kept in *. rewrite Hn in *. by rewrite Hcat, app_nil_r.
    + apply Hdone; [by apply set_temp_text|done..|]. unfold kept in *. simpl. rewrite Hn in *.
      by rewrite !concat_app, Hk1.
Qed.

Lemma snapshot_acc_inv data a :
  acc_inv data a -> acc_inv data (acc_snapshot_of optMaxLines optMaxBytes path true a).2.
Proof.
  intros [Ht Hdec Hbs Hl Hk]. unfold acc_snapshot_of. cbn [snd].
  destruct (true && _); [|by split]. destruct (ensure_fields a) as (H1 & _ & H2).
  split; [by apply ensure_text|by rewrite H1|done|by rewrite H2|by apply ensure_kept].
Qed.

(** The output of a sequence of uses. *)
Definition data_of (ops : list acc_op) : list (list Z) :=
  omap (fun op => match op with AData d => Some d | ASnapshot => None end) ops.

Lemma acc_run_inv ops data a :
  Forall (Forall (fun x => 0 <= x)) (data_of ops) -> acc_inv data a ->
  exists a', acc_run optMaxLines optMaxBytes path a ops = Ok a' /\ acc_inv (data ++ data_of ops) a'.
Proof.
  revert data a. induction ops as [|[d|] ops IH]; intros data a HF Ha.
  - exists a. by rewrite app_nil_r.
  - cbn [acc_run acc_step]. unfold data_of in HF. cbn [omap list_omap] in HF. inversion HF as [|? ? Hd HF']; subst.
    destruct (acc_append_inv data d a Hd Ha) as (a1 & -> & H1). cbn [bind].
    destruct (IH _ _ HF' H1) as (a2 & H2 & H3). exists a2. split; [done|]. by rewrite <- app_assoc in H3.
  - cbn [acc_run acc_step bind]. by apply IH; [|apply snapshot_acc_inv].
Qed.
End Tail.

(** ** Dropping a line that does not fit *)

Lemma join_cost_eq ls : ls ≠ [] -> Buffer_byteLength (join [LF] ls) = lines_cost ls - 1.
Proof.
  induction ls as [|l ls IH]; intros Hn; [done|]. rewrite Harness.byteLength_join_cons.
  destruct ls as [|l' ls]; [cbn [join lines_cost]; unfold line_cost; rewrite byteLength_nil, bool_decide_true by done; lia|].
  rewrite bool_decide_false, IH by done. cbn [lines_cost]. unfold line_cost. lia.
Qed.

(** Lines that fit are all kept. *)
Lemma tail_loop_fits rls maxL maxB out count :
  Forall (Forall is_unit) rls -> (out = [] -> count = 0) ->
  Z.of_nat (length out + length rls) <= maxL ->
  count + lines_cost rls - (if bool_decide (out = []) then 1 else 0) <= maxB ->
  exists c, Harness.tail_loop true rls maxL maxB out count = (rev rls ++ out, c, ByLines, false).
Proof.
  intros HF. revert out count. induction HF as [|l rls Hl HF IH]; intros out count Hout Hlen Hcost; [by eexists|].
  cbn [Harness.tail_loop]. cbn [length lines_cost] in *. unfold line_cost in Hcost at 1.
  rewrite (proj2 (Z.ltb_lt _ _)) by lia. rewrite Harness.utf8ByteLength_buffer by done.
  assert (0 <= lines_cost rls) as H0.
  { clear. induction rls as [|x r IH]; cbn [lines_cost]; [lia|]. unfold line_cost.
    pose proof (byteLength_nonneg x). lia. }
  assert (Hsep : (if bool_decide (out = []) then 1 else 0) + (if 0 <? Z.of_nat (length out) then 1 else 0) = 1)
    by (by destruct out).
  rewrite (proj2 (Z.ltb_ge _ _)) by lia.
  destruct (IH (l :: out) (count + (Buffer_byteLength l + (if 0 <? Z.of_nat (length out) then 1 else 0)))) as (c & Hc).
  - done.
  - cbn [length]. lia.
  - rewrite bool_decide_false by done. lia.
  - exists c. rewrite Hc. simpl. by rewrite <- app_assoc.
Qed.

(** A line in front that does not fit changes nothing but the reason. *)
Lemma tail_loop_drop rls d maxL maxB out count :
  Forall (Forall is_unit) (rls ++ [d]) -> (out = [] -> count = 0 /\ rls ≠ []) ->
  maxB + (if bool_decide (out = []) then 1 else 0) < count + lines_cost (rls ++ [d]) ->
  let '(out1, c1, _, p1) := Harness.tail_loop true rls maxL maxB out count in
  let '(out2, c2, _, p2) := Harness.tail_loop true (rls ++ [d]) maxL maxB out count in
  out1 = out2 /\ c1 = c2 /\ p1 = p2.
Proof.
  revert out count. induction rls as [|l rls IH]; intros out count HF Hout Hcost.
  - cbn [app Harness.tail_loop lines_cost] in *. destruct out as [|o out]; [by destruct Hout|].
    inversion HF; subst. rewrite Harness.utf8ByteLength_buffer by done.
    unfold line_cost in Hcost. rewrite bool_decide_false in Hcost by done.
    destruct (_ <? maxL); [|done]. rewrite (proj2 (Z.ltb_lt 0 _)) by (cbn [length]; lia).
    by rewrite (proj2 (Z.ltb_lt maxB _)) by lia.
  - cbn [app Harness.tail_loop lines_cost] in *. inversion HF; subst. unfold line_cost in Hcost at 1.
    destruct (_ <? maxL); [|done]. rewrite Harness.utf8ByteLength_buffer by done.
    destruct (maxB <? _); [by destruct out|]. apply IH; [done|done|].
    rewrite bool_decide_false by done. destruct out; simpl in *; [destruct Hout as [-> _]; [done|]|]; lia.
Qed.

Lemma splitLines_cons D S :
  LF ∉ D -> S ≠ [] ->
  Harness.splitLinesForCounting (D ++ LF :: S) = D :: Harness.splitLinesForCounting S.
Proof.
  intros HD HS. unfold Harness.splitLinesForCounting.
  assert (Hn : forall A (x y : A) (l : jstr), l ≠ [] -> match l with [] => x | _ :: _ => y end = y)
    by (intros A x y [|]; done).
  rewrite !Hn by (by destruct D). rewrite split_app_sep by done.
  rewrite (app_assoc D [LF] S : D ++ LF :: S = (D ++ [LF]) ++ S), ends_with_app_r by done.
  destruct (ends_with [LF] S); [|done]. pose proof (split_char_not_nil LF S). by destruct (split_char LF S).
Qed.

(** Without its first line, when that line does not fit with the others, a text
    is truncated to the same lines; a final line feed may stay. *)
Lemma truncateTail_drop_line D S ml mb :
  let whole := Harness.truncateTail true (D ++ LF :: S) ml mb in
  let part := Harness.truncateTail true S ml mb in
  Forall is_unit (D ++ LF :: S) -> LF ∉ D -> S ≠ [] -> 0 <= nullish mb DEFAULT_MAX_BYTES ->
  nullish mb DEFAULT_MAX_BYTES + 2 <= Buffer_byteLength (D ++ LF :: S) ->
  (content part = content whole \/ content part = content whole ++ [LF]) /\
  outputLines part = outputLines whole /\ lastLinePartial part = lastLinePartial whole.
Proof.
  intros whole part HF HD HS Hmb Hbig. subst whole part. unfold Harness.truncateTail.
  set (maxL := nullish ml DEFAULT_MAX_LINES). set (maxB := nullish mb DEFAULT_MAX_BYTES) in *.
  apply Forall_app in HF as [HFD HFS']. inversion HFS' as [|? ? HLF HFS]; subst.
  rewrite !Harness.utf8ByteLength_buffer by (done || by apply Forall_app).
  rewrite splitLines_cons by done. rewrite (proj2 (Z.leb_gt (Buffer_byteLength (D ++ LF :: S)) maxB)) by lia.
  rewrite andb_false_r. cbn [rev].
  pose proof (Harness.splitLines_not_nil S HS) as Hne. pose proof (Harness.splitLines_join S) as HSj.
  pose proof (Harness.splitLines_Forall _ S HFS) as HFl. set (ls := Harness.splitLinesForCounting S) in *.
  assert (HFr : Forall (Forall is_unit) (rev ls ++ [D])) by (apply Forall_app; split; [by apply Forall_rev|by repeat constructor]).
  assert (Hcost : maxB + 1 < 0 + lines_cost (rev ls ++ [D])).
  { rewrite lines_cost_app, lines_cost_rev. cbn [lines_cost]. unfold line_cost.
    rewrite byteLength_join_sep in Hbig. pose proof (byteLength_lines_cost S) as Hc. fold ls in Hc. lia. }
  pose proof (tail_loop_drop (rev ls) D maxL maxB [] 0 HFr) as Hdrop.
  destruct ((Z.of_nat (length ls) <=? maxL) && (Buffer_byteLength S <=? maxB)) eqn:Hfit.
  - bool_to_prop.
    assert (Buffer_byteLength (join [LF] ls) <= Buffer_byteLength S) as Hjs.
    { rewrite (f_equal Buffer_byteLength HSj). destruct (ends_with [LF] S); [rewrite byteLength_join_sep, byteLength_nil; lia|].
      rewrite app_nil_r. lia. }
    rewrite join_cost_eq in Hjs by done.
    destruct (tail_loop_fits (rev ls) maxL maxB [] 0) as (c & Hc);
      [by apply Forall_rev|done|rewrite length_rev; simpl; lia|rewrite lines_cost_rev, bool_decide_true by done; lia|].
    rewrite Hc, app_nil_r, rev_involutive in Hdrop.
    destruct (Harness.tail_loop true (rev ls ++ [D]) maxL maxB [] 0) as [[[out2 c2] by2] p2].
    destruct Hdrop as (<- & _ & <-); [split; [done|by intros E%(f_equal (@rev jstr)); rewrite rev_involutive in E]|
      by rewrite bool_decide_true|].
    cbn [content outputLines lastLinePartial]. split; [|done].
    destruct (ends_with [LF] S); [by right|left]. by rewrite app_nil_r in HSj.
  - destruct (Harness.tail_loop true (rev ls) maxL maxB [] 0) as [[[out1 c1] by1] p1].
    destruct (Harness.tail_loop true (rev ls ++ [D]) maxL maxB [] 0) as [[[out2 c2] by2] p2].
    destruct Hdrop as (<- & <- & <-); [split; [done|by intros E%(f_equal (@rev jstr)); rewrite rev_involutive in E]|
      by rewrite bool_decide_true|].
    cbn [content outputLines lastLinePartial]. auto.
Qed.

(** ** What a snapshot shows *)

Section Shown.
Context (optMaxLines optMaxBytes : option Z) (path : jstr).
#[local] Abbreviation maxL := (maxLines_ optMaxLines).
#[local] Abbreviation maxB := (maxBytes_ optMaxBytes).
Hypothesis Hmax : 8 <= maxB.

(** The last line is short enough to be kept with its line feed. *)
Definition last_line_short (s : jstr) : Prop :=
  ends_with [LF] s = true -> Buffer_byteLength (List.last (Harness.splitLinesForCounting s) []) <= maxB.

Lemma last_line_ge q D :
  Forall is_scalar q -> LF ∉ D ->
  Buffer_byteLength D <=
  Buffer_byteLength (List.last (Harness.splitLinesForCounting (units_of q ++ D ++ [LF])) []).
Proof.
  intros HF HD. rewrite app_assoc. unfold Harness.splitLinesForCounting.
  destruct ((units_of q ++ D) ++ [LF]) as [|x r] eqn:E; [by destruct (units_of q ++ D)|]. rewrite <- E. clear x r E.
  rewrite ends_with_app_r by done. change (ends_with [LF] [LF]) with true. cbv iota.
  rewrite split_snoc, removelast_last.
  destruct (split_char_parts LF (units_of q) D) as (front & pl & l0 & ls & H1 & H2 & H3).
  rewrite split_no_sep in H2 by done. injection H2 as <- <-. rewrite H3, last_last.
  assert (exists r, units_of q = r ++ pl) as (r & Hr).
  { pose proof (join_split LF (units_of q)) as Hj. rewrite H1 in Hj.
    destruct front as [|f front]; [exists []; by rewrite <- Hj|].
    rewrite join_snoc in Hj by done. eexists. rewrite app_assoc in Hj. by rewrite <- Hj. }
  rewrite byteLength_app by (by apply (glued_units_of q pl r)). pose proof (byteLength_nonneg pl). lia.
Qed.

(** Two truncations show the same lines; a final line feed may stay. *)
Definition same_lines (p t : truncation) : Prop :=
  (content p = content t \/ content p = content t ++ [LF]) /\ outputLines p = outputLines t /\
  lastLinePartial p = lastLinePartial t.

Lemma first_LF_at s i :
  index_of [LF] s = Some i -> exists D, s = D ++ LF :: drop (i + 1) s /\ LF ∉ D.
Proof.
  revert i. induction s as [|x s IH]; intros i H; [done|]. cbn [index_of starts_with] in H.
  rewrite andb_true_r in H. destruct (Z.eqb_spec LF x) as [<-|Hx].
  - injection H as <-. exists []. split; [done|set_solver].
  - destruct (index_of [LF] s) as [j|]; [|done]. injection H as <-.
    destruct (IH j eq_refl) as (D & HD & Hn). exists (x :: D). simpl. split; [by f_equal|set_solver].
Qed.

Lemma snapshot_shows w a :
  acc_text optMaxBytes w a -> last_line_short (units_of w) ->
  same_lines (truncateTail2 (getSnapshotText a) (Some maxL) (Some maxB))
    (Harness.truncateTail true (units_of w) (Some maxL) (Some maxB)).
Proof.
  intros [Hsc [(q & b & -> & Htext & Hbytes & Hq & Hb & Hb')] _ _ _ _] Hlast.
  apply Forall_app in Hsc as HFqb. destruct HFqb as [HFq HFb].
  assert (Hub : Forall is_unit (units_of b)) by (by apply Harness.units_of_units).
  assert (Hbl : Buffer_byteLength (units_of b) = sum_sizes b) by (by apply byteLength_units_of).
  unfold getSnapshotText. rewrite Htext.
  destruct (decide (q = [])) as [->|Hqn].
  { destruct (tailStartsAtLineBoundary a); [|by destruct Hb'].
    rewrite (truncateTail2_eq true) by done. split; auto. }
  assert (Hsz : 2 * maxB - 3 <= sum_sizes b).
  { destruct Hq as [->|Hq]; [done|]. unfold maxRollingBytes in Hq. lia. }
  destruct (truncateTail_suffix true q b (Some maxL) (Some maxB)) as (H1 & H2 & _ & H4 & _);
    [done|cbn; lia|cbn; lia|].
  assert (Hsame : same_lines (truncateTail2 (units_of b) (Some maxL) (Some maxB))
    (Harness.truncateTail true (units_of (q ++ b)) (Some maxL) (Some maxB)))
    by (unfold same_lines; rewrite (truncateTail2_eq true), H1, H2, H4 by done; auto).
  destruct (tailStartsAtLineBoundary a); [done|].
  destruct (index_of [LF] (units_of b)) as [i|] eqn:Ei; [|done]. clear Hsame.
  apply first_LF_at in Ei as (D & HD & Hn). set (S := drop (i + 1) (units_of b)) in *.
  assert (HS : S ≠ []).
  { intros E. rewrite E in HD. rewrite units_of_app, HD in Hlast.
    pose proof (last_line_ge q D HFq Hn) as Hge.
    assert (ends_with [LF] (units_of q ++ D ++ [LF]) = true) as He
      by (rewrite app_assoc, ends_with_app_r; done).
    apply Hlast in He. rewrite HD, byteLength_join_sep, byteLength_nil in Hbl. lia. }
  assert (HFS : Forall is_unit (D ++ LF :: S)) by (by rewrite <- HD).
  destruct (truncateTail_drop_line D S (Some maxL) (Some maxB)) as (Hc & Ho & Hp);
    [done|done|done|cbn; lia|rewrite <- HD, Hbl; cbn; lia|].
  rewrite <- HD in Hc, Ho, Hp. unfold same_lines.
  rewrite (truncateTail2_eq true) by (by apply Forall_app in HFS as [_ HFS]; inversion HFS).
  by rewrite <- H1, <- H2, <- H4.
Qed.

Lemma finish_acc data a :
  acc_inv optMaxBytes path data a ->
  let a' := acc_finish optMaxLines optMaxBytes path a in
  acc_text optMaxBytes (strip_bom false (decode_cps (concat data))).1 a' /\ kept path data a' /\
  (shouldUseTempFile optMaxLines optMaxBytes a' = true -> exists f, temp a' = Some f).
Proof.
  intros [Ht Hd Hbs Hl Hk]. unfold acc_finish. rewrite Hl. unfold td_end. rewrite Hd. cbn [td_state td_bomSeen].
  unfold decode_cps. destruct (dec_run dec_init (concat data)) as [o1 s1]. cbn [fst snd] in *.
  pose proof (strip_bom_app false o1 (dec_flush s1)) as Hstrip.
  destruct (strip_bom false o1) as [k1 f1]. cbn [fst snd] in *.
  pose proof (strip_bom_suffix f1 (dec_flush s1)) as Hsuf.
  destruct (strip_bom f1 (dec_flush s1)) as [k2 f2]. rewrite Hstrip. cbn [fst snd] in *.
  set (a0 := set_decoding _ _ _ a).
  assert (Ht1 : acc_text optMaxBytes (k1 ++ k2) (appendDecodedText optMaxBytes (units_of k2) a0)).
  { apply appendDecodedText_text; [apply (scalar_suffix _ (dec_flush s1)); [done|apply dec_flush_scalar]|].
    by destruct Ht. }
  destruct (appendDecodedText_fields optMaxBytes (units_of k2) a0) as (_ & _ & _ & Htemp & Hraw).
  set (a1 := appendDecodedText optMaxBytes (units_of k2) a0) in *.
  assert (Hk1 : kept path data a1) by (unfold kept; by rewrite Htemp, Hraw).
  destruct (shouldUseTempFile optMaxLines optMaxBytes a1) eqn:E; cbv zeta.
  - destruct (ensure_kept path data a1 Hk1) as (Hk2 & f & Hf).
    split_and!; [by apply ensure_text|done|by exists f].
  - split_and!; [done|done|congruence].
Qed.

Lemma untruncated_shown w a :
  acc_text optMaxBytes w a -> sum_sizes w <= maxB -> getSnapshotText a = units_of w.
Proof.
  intros [Hsc [(q & b & -> & Htext & _ & Hq & _ & Hb')] _ _ _ _] Hfit.
  rewrite sum_sizes_app in Hfit. pose proof (sum_sizes_nonneg q). pose proof (sum_sizes_nonneg b).
  assert (q = []) as -> by (destruct Hq as [?|Hq]; [done|]; unfold maxRollingBytes in Hq; lia).
  unfold getSnapshotText. rewrite Htext. destruct (tailStartsAtLineBoundary a); [done|]. by destruct Hb'.
Qed.

(** What the final snapshot says of the output. *)
Record final_snapshot (data : list (list Z)) (s : acc_snapshot) (a : accumulator) : Prop := {
  fs_bytes : totalBytes (sn_truncation s) = Buffer_byteLength (td_decode (concat data));
  fs_lines : totalLines (sn_truncation s) = Z.of_nat (length (Harness.splitLinesForCounting (td_decode (concat data))));
  fs_truncated : truncated (sn_truncation s) =
    truncated (Harness.truncateTail true (td_decode (concat data)) (Some maxL) (Some maxB));
  fs_whole : truncated (sn_truncation s) = false -> content (sn_truncation s) = td_decode (concat data);
  fs_tail : last_line_short (td_decode (concat data)) ->
    same_lines (sn_truncation s) (Harness.truncateTail true (td_decode (concat data)) (Some maxL) (Some maxB));
  fs_file : truncated (sn_truncation s) = true -> sn_fullOutputPath s = Some path /\
    exists f, temp a = Some f /\ concat (tf_chunks f) = concat data
}.

Lemma final_snapshot_spec data a :
  acc_inv optMaxBytes path data a ->
  let '(s, a') := acc_snapshot_of optMaxLines optMaxBytes path true (acc_finish optMaxLines optMaxBytes path a) in
  final_snapshot data s a'.
Proof.
  intros Ha. destruct (finish_acc data a Ha) as (Ht & Hk & Hf).
  set (output := td_decode (concat data)). set (a1 := acc_finish optMaxLines optMaxBytes path a) in *.
  pose proof (snapshot_shows _ a1 Ht) as Hshow. pose proof (untruncated_shown _ a1 Ht) as Hwhole.
  destruct Ht as [Hsc _ Htot _ Hlines _].
  assert (Htb : totalDecodedBytes a1 = Buffer_byteLength output)
    by (rewrite Htot; symmetry; by apply byteLength_units_of).
  change (units_of (strip_bom false (decode_cps (concat data))).1) with output in *.
  set (t := Harness.truncateTail true output (Some maxL) (Some maxB)) in *.
  assert (Htr : (maxL <? totalLines_ a1) || (maxB <? totalDecodedBytes a1) = truncated t).
  { unfold t. by rewrite truncateTail_truncated, Htb, Hlines, orb_comm. }
  unfold acc_snapshot_of. rewrite Htr. cbn [andb].
  assert (Hfields : forall b : bool, totalLines_ (if b then ensureTempFile path a1 else a1) = totalLines_ a1 /\
    totalDecodedBytes (if b then ensureTempFile path a1 else a1) = totalDecodedBytes a1)
    by (intros []; [unfold ensureTempFile; by destruct (temp a1)|done]).
  split; cbn [sn_truncation sn_fullOutputPath totalBytes totalLines truncated content];
    destruct (Hfields (truncated t)) as [Hf1 Hf2]; [by rewrite Hf2|by rewrite Hf1|done| |exact Hshow|].
  - intros Hcut. rewrite Hcut, Htb in Htr. apply orb_false_iff in Htr as [Hl1 Hl2%Z.ltb_ge].
    rewrite Hwhole by (rewrite <- Htot, Htb; done).
    assert (Forall is_unit output) by (by apply Harness.units_of_units).
    rewrite (truncateTail2_eq true) by done. rewrite Hlines in Hl1. apply Z.ltb_ge in Hl1.
    unfold Harness.truncateTail. rewrite Harness.utf8ByteLength_buffer by done. cbn [nullish].
    rewrite (proj2 (Z.leb_le (Z.of_nat _) _)), (proj2 (Z.leb_le (Buffer_byteLength _) _)) by done. done.
  - intros Hcut. rewrite Hcut in *. destruct (ensure_kept path data a1 Hk) as (Hk2 & f & Hf3).
    unfold kept in Hk2. rewrite Hf3 in *. destruct Hk2 as (Hp & _ & Hc). simpl. split; [by rewrite Hp|by exists f].
Qed.

(** The final snapshot of a command's output, however it was cut into chunks
    and whatever snapshots were taken on the way: its totals are those of the
    complete decoded output, it is marked truncated exactly when the output exceeds
    a limit, and is the output itself otherwise; it shows the lines that truncating
    the complete output would leave, except when the output ends with a line longer
    than the limit; when it is truncated, the file it names holds every byte of
    the output. *)
Theorem accumulator_faithful ops :
  Forall (Forall (fun x => 0 <= x)) (data_of ops) ->
  exists a, acc_run optMaxLines optMaxBytes path new_accumulator ops = Ok a /\
    let '(s, a') := acc_snapshot_of optMaxLines optMaxBytes path true (acc_finish optMaxLines optMaxBytes path a) in
    final_snapshot (data_of ops) s a'.
Proof.
  intros HF.
  destruct (acc_run_inv optMaxLines optMaxBytes path ops [] new_accumulator HF (new_acc_inv optMaxBytes path))
    as (a & Hrun & Ha). exists a. split; [done|]. by apply final_snapshot_spec.
Qed.
End Shown.

Lemma accumulator_faithful_witness :
  exists a, acc_run (Some 10) (Some 8) (js "/tmp/x") new_accumulator
    [AData (utf8_encode (js "first")); ASnapshot; AData (LF :: utf8_encode (js "second"))] = Ok a /\
    sn_fullOutputPath (acc_snapshot_of (Some 10) (Some 8) (js "/tmp/x") true
      (acc_finish (Some 10) (Some 8) (js "/tmp/x") a)).1 = Some (js "/tmp/x").
Proof.
  destruct (accumulator_faithful (Some 10) (Some 8) (js "/tmp/x") ltac:(vm_compute; discriminate)
    [AData (utf8_encode (js "first")); ASnapshot; AData (LF :: utf8_encode (js "second"))]) as (a & Ha & H).
  - vm_compute. repeat (constructor || (intro; discriminate)).
  - exists a. split; [exact Ha|]. destruct (acc_snapshot_of _ _ _ _ _) as [s a'].
    destruct H as [_ _ Ht _ _ Hf]. apply Hf. rewrite Ht. vm_compute. reflexivity.
Defined.

(** The last line of the output, when it is longer than what is kept of the
    output and ends with a line feed, is not shown at all: the answer is empty
    although the output is not. *)
Lemma long_line_lost :
  match append None None (js "/tmp/x") (replicate (Z.to_nat 204801) 120 ++ [LF]) new_accumulator with
  | Ok a =>
      let t := sn_truncation (acc_snapshot_of None None (js "/tmp/x") true
                 (acc_finish None None (js "/tmp/x") a)).1 in
      (content t, outputLines t, totalLines t, truncated t) = ([], 0, 1, true)
  | Throw _ => False
  end.
Proof. vm_compute. reflexivity. Qed.
