(* ===== verification/ShellExec.v ===== *)
(** Running a shell command (pi [packages/agent/dist/harness/env/nodejs.js]):
    [waitForChildProcess] and [NodeExecutionEnv.exec] as state machines over the
    events of the child process, its output streams, the timers, the abort
    signal and the file that keeps the full output.  Every theorem holds for all
    sequences of events.  [pause] and [resume] of the child's streams only decide
    when data arrives and leave no trace in the state; a [data] event may come at
    any time before the streams are destroyed. *)
From S2P Require Import Prelude Utf8 Numbers Json AdaptivePublisher Truncate OutputCapture.
Open Scope Z_scope.

(** * Waiting for the child *)

Inductive wait_outcome :=
| WPending
| WResolved (code : option Z) (signal : option jstr)
| WRejected (message : jstr).

Record child_wait := ChildWait {
  wt_exited : bool;
  wt_code : option Z;
  wt_signal : option jstr;
  wt_timer : bool;
  wt_stdoutEnded : bool;
  wt_stderrEnded : bool;
  wt_outcome : wait_outcome
}.

(** Both output streams are pipes. *)
Definition new_wait : child_wait := ChildWait false None None false false false WPending.

Definition wt_settled (w : child_wait) : bool :=
  match wt_outcome w with WPending => false | _ => true end.

(** [finalize]: the promise resolves once; [cleanup] clears the timer. *)
Definition finalize (w : child_wait) : child_wait :=
  if wt_settled w then w
  else ChildWait (wt_exited w) (wt_code w) (wt_signal w) false (wt_stdoutEnded w) (wt_stderrEnded w)
         (WResolved (wt_code w) (wt_signal w)).

Definition maybeFinalizeAfterExit (w : child_wait) : child_wait :=
  if wt_exited w && wt_stdoutEnded w && wt_stderrEnded w then finalize w else w.

Definition set_timer (w : child_wait) (b : bool) : child_wait :=
  ChildWait (wt_exited w) (wt_code w) (wt_signal w) b (wt_stdoutEnded w) (wt_stderrEnded w) (wt_outcome w).

Definition armIdleTimer (w : child_wait) : child_wait := set_timer w true.

Inductive wait_event :=
| EvData
| EvStdoutEnd
| EvStderrEnd
| EvExit (code : option Z) (signal : option jstr)
| EvClose (code : option Z) (signal : option jstr)
| EvError (message : jstr)
| EvIdle.

(** The listeners; [cleanup] removes them once the promise has settled.
    [draining] is what [spillIsDraining()] answers. *)
Definition wait_step (draining : bool) (w : child_wait) (ev : wait_event) : child_wait :=
  if wt_settled w then w
  else match ev with
  | EvData => if wt_exited w then armIdleTimer w else w
  | EvStdoutEnd =>
      maybeFinalizeAfterExit
        (ChildWait (wt_exited w) (wt_code w) (wt_signal w) (wt_timer w) true (wt_stderrEnded w) (wt_outcome w))
  | EvStderrEnd =>
      maybeFinalizeAfterExit
        (ChildWait (wt_exited w) (wt_code w) (wt_signal w) (wt_timer w) (wt_stdoutEnded w) true (wt_outcome w))
  | EvExit code signal =>
      let w := maybeFinalizeAfterExit
        (ChildWait true code signal (wt_timer w) (wt_stdoutEnded w) (wt_stderrEnded w) (wt_outcome w)) in
      if wt_settled w then w else armIdleTimer w
  | EvClose code signal =>
      finalize (ChildWait (wt_exited w) code signal (wt_timer w) (wt_stdoutEnded w) (wt_stderrEnded w) (wt_outcome w))
  | EvError message =>
      ChildWait (wt_exited w) (wt_code w) (wt_signal w) false (wt_stdoutEnded w) (wt_stderrEnded w)
        (WRejected message)
  | EvIdle =>
      if wt_timer w then if draining then armIdleTimer w else finalize w
      else w
  end.

(** * [exec] *)

Inductive exec_code := Aborted | TimedOut | ShellUnavailable | SpawnError | CallbackError | UnknownError.

#[export] Instance exec_code_eq_dec : EqDecision exec_code.
Proof. solve_decision. Defined.

Record exec_error := ExecutionError { ee_code : exec_code; ee_message : jstr }.

(** The value of a finished command. *)
Record exec_value := ExecValue { ev_exitCode : Z; ev_info : output_info }.

Definition exec_result : Type := result exec_error exec_value.

(** [spillStart]: the promise that creates the file of the full output. *)
Inductive spill_start := NoSpill | SpillPending | SpillSettled.

(** Where the continuation of [waitForChildProcess(...).then] stands. *)
Inductive exec_phase :=
| Running
| AwaitSpillStart (code : option Z) (signal : option jstr)
| AwaitFinish (code : option Z) (signal : option jstr)
| Settled (r : exec_result).

Record exec_state := ExecState {
  x_capture : capture;
  x_updates : list output_update;      (* what [options.onUpdate] was called with *)
  x_wait : child_wait;
  x_phase : exec_phase;
  x_timedOut : bool;
  x_aborted : bool;                    (* [signal.aborted] *)
  x_callbackError : option exec_error;
  x_spillError : option exec_error;
  x_spillPrefix : list (list Z);
  x_spillPath : option jstr;
  x_spillQueue : list (list Z);
  x_spillStart : spill_start;
  x_stream : option (list (list Z));   (* [spillStream] and what was written to it *)
  x_backpressured : bool;
  x_kills : nat                        (* calls of [killProcessTree] for the child *)
}.

Inductive exec_event :=
| Data (bytes : list Z)
| StdoutEnd
| StderrEnd
| Exit (code : option Z) (signal : option jstr)
| Close (code : option Z) (signal : option jstr)
| ChildError (message : jstr)
| IdleTimer
| TimeoutFires
| AbortSignal
| PublisherTimer
| SpillCreated (path : jstr)
| SpillFailed (message : jstr)
| StreamError (message : jstr)
| StreamDrain
| StreamFinish
| Continue.                            (* the next turn of the continuation *)

Section Exec.
(** What the caller asked for; [spill] is [options.capture.spill]. *)
Context (lim : limits) (spill : bool).
(** [options.onUpdate]: the message of what it throws, if it does. *)
Context (onUpdate : output_update -> option jstr).
(** Whether [stream.write(chunk)] asks for more, given what was written before. *)
Context (write_accepts : list (list Z) -> list Z -> bool).
(** [osConstants.signals]. *)
Context (signals : jstr -> option Z).
(** [String(options.timeout)] *)
Context (timeout_string : jstr).

(** The error a call of [onUpdate] raised; one call of the capture makes at
    most one ([one_update]). *)
Fixpoint raised (us : list output_update) : option jstr :=
  match us with
  | [] => None
  | u :: r => match onUpdate u with Some e => Some e | None => raised r end
  end.

(** [onAbort]: the child has a pid. *)
Definition kill_child (x : exec_state) : exec_state :=
  ExecState (x_capture x) (x_updates x) (x_wait x) (x_phase x) (x_timedOut x) (x_aborted x)
    (x_callbackError x) (x_spillError x) (x_spillPrefix x) (x_spillPath x) (x_spillQueue x)
    (x_spillStart x) (x_stream x) (x_backpressured x) (S (x_kills x)).

Definition failCallback (message : jstr) (x : exec_state) : exec_state :=
  match x_callbackError x with
  | Some _ => x
  | None =>
      kill_child
        (ExecState (x_capture x) (x_updates x) (x_wait x) (x_phase x) (x_timedOut x) (x_aborted x)
           (Some (ExecutionError CallbackError message)) (x_spillError x) (x_spillPrefix x) (x_spillPath x)
           (x_spillQueue x) (x_spillStart x) (x_stream x) (x_backpressured x) (x_kills x))
  end.

Definition failSpill (message : jstr) (x : exec_state) : exec_state :=
  match x_spillError x with
  | Some _ => x
  | None =>
      kill_child
        (ExecState (x_capture x) (x_updates x) (x_wait x) (x_phase x) (x_timedOut x) (x_aborted x)
           (x_callbackError x)
           (Some (ExecutionError UnknownError (js "Failed to preserve complete shell output: " ++ message)))
           (x_spillPrefix x) (x_spillPath x) (x_spillQueue x) (x_spillStart x) (x_stream x) false (x_kills x))
  end.

Definition set_capture (c : capture) (us : list output_update) (x : exec_state) : exec_state :=
  ExecState c (x_updates x ++ us) (x_wait x) (x_phase x) (x_timedOut x) (x_aborted x)
    (x_callbackError x) (x_spillError x) (x_spillPrefix x) (x_spillPath x) (x_spillQueue x)
    (x_spillStart x) (x_stream x) (x_backpressured x) (x_kills x).

Definition set_spill (prefix queue : list (list Z)) (start : spill_start) (stream : option (list (list Z)))
    (backpressured : bool) (x : exec_state) : exec_state :=
  ExecState (x_capture x) (x_updates x) (x_wait x) (x_phase x) (x_timedOut x) (x_aborted x)
    (x_callbackError x) (x_spillError x) prefix (x_spillPath x) queue start stream backpressured (x_kills x).

Definition set_path (path : jstr) (x : exec_state) : exec_state :=
  ExecState (x_capture x) (x_updates x) (x_wait x) (x_phase x) (x_timedOut x) (x_aborted x)
    (x_callbackError x) (x_spillError x) (x_spillPrefix x) (Some path) (x_spillQueue x)
    (x_spillStart x) (x_stream x) (x_backpressured x) (x_kills x).

Definition set_wait (w : child_wait) (x : exec_state) : exec_state :=
  ExecState (x_capture x) (x_updates x) w (x_phase x) (x_timedOut x) (x_aborted x)
    (x_callbackError x) (x_spillError x) (x_spillPrefix x) (x_spillPath x) (x_spillQueue x)
    (x_spillStart x) (x_stream x) (x_backpressured x) (x_kills x).

Definition set_phase (p : exec_phase) (x : exec_state) : exec_state :=
  ExecState (x_capture x) (x_updates x) (x_wait x) p (x_timedOut x) (x_aborted x)
    (x_callbackError x) (x_spillError x) (x_spillPrefix x) (x_spillPath x) (x_spillQueue x)
    (x_spillStart x) (x_stream x) (x_backpressured x) (x_kills x).

Definition set_ended (timedOut aborted : bool) (x : exec_state) : exec_state :=
  ExecState (x_capture x) (x_updates x) (x_wait x) (x_phase x) timedOut aborted
    (x_callbackError x) (x_spillError x) (x_spillPrefix x) (x_spillPath x) (x_spillQueue x)
    (x_spillStart x) (x_stream x) (x_backpressured x) (x_kills x).

Definition writeSpill (ch : list Z) (x : exec_state) : exec_state :=
  match x_stream x with
  | None => x
  | Some written =>
      match ch with
      | [] => x
      | _ =>
          set_spill (x_spillPrefix x) (x_spillQueue x) (x_spillStart x) (Some (written ++ [ch]))
            (x_backpressured x || negb (write_accepts written ch)) x
      end
  end.

Definition startSpill (ch : list Z) (x : exec_state) : exec_state :=
  match x_stream x with
  | Some _ => writeSpill ch x
  | None =>
      set_spill (x_spillPrefix x) (x_spillQueue x ++ [ch])
        (match x_spillStart x with NoSpill => SpillPending | s => s end) None (x_backpressured x) x
  end.

Definition feed (now : Z) (ch : list Z) (x : exec_state) : exec_state :=
  let wasTruncated := capture_truncated lim (x_capture x) in
  let '(c, us) := push lim now (CBytes ch) (x_capture x) in
  let x := set_capture c us x in
  match raised us with
  | Some e => failCallback e x
  | None =>
      match ch with
      | [] => x
      | _ =>
          if negb spill then x
          else if (match x_spillPath x with Some _ => true | None => false end) || wasTruncated
          then startSpill ch x
          else if capture_truncated lim c then
            let x := foldl (fun x p => startSpill p x) x (x_spillPrefix x) in
            startSpill ch (set_spill [] (x_spillQueue x) (x_spillStart x) (x_stream x) (x_backpressured x) x)
          else
            set_spill (x_spillPrefix x ++ [ch]) (x_spillQueue x) (x_spillStart x) (x_stream x)
              (x_backpressured x) x
      end
  end.

(** [spillIsDraining]. *)
Definition spill_draining (x : exec_state) : bool :=
  match x_spillError x with
  | Some _ => false
  | None =>
      match x_spillStart x with
      | NoSpill => false
      | _ => match x_stream x with None => true | Some _ => x_backpressured x end
      end
  end.

(** [code ?? (exitSignal ? 128 + (signals[exitSignal] ?? 0) : 1)] *)
Definition exit_code (code : option Z) (signal : option jstr) : Z :=
  match code with
  | Some c => c
  | None =>
      match signal with
      | Some s => if truthy s then 128 + nullish (signals s) 0 else 1
      | None => 1
      end
  end.

(** [settle]: the capture is disposed of and the promise resolves. *)
Definition settle (r : exec_result) (x : exec_state) : exec_state :=
  set_phase (Settled r) (set_capture (dispose_capture (x_capture x)) [] x).

(** The rest of the continuation, after [finishSpill]. *)
Definition complete (now : Z) (code : option Z) (signal : option jstr) (x : exec_state) : exec_state :=
  let '(c1, u1) := finish lim now (x_capture x) in
  let x1 := set_capture c1 u1 x in
  let x2 :=
    match raised u1 with
    | Some e => failCallback e x1
    | None =>
        let '(c2, u2) := flush_capture lim now c1 in
        let x2 := set_capture c2 u2 x1 in
        match raised u2 with Some e => failCallback e x2 | None => x2 end
    end in
  settle
    match x_callbackError x2 with
    | Some e => Throw e
    | None =>
        if x_timedOut x2 then Throw (ExecutionError TimedOut (js "timeout:" ++ timeout_string))
        else if x_aborted x2 then Throw (ExecutionError Aborted (js "aborted"))
        else match x_spillError x2 with
             | Some e => Throw e
             | None => Ok (ExecValue (exit_code code signal) (s_info (take_snapshot lim (x_capture x2))))
             end
    end x2.

(** What the child's promise does to the continuation. *)
Definition after_wait (x : exec_state) : exec_state :=
  match x_phase x, wt_outcome (x_wait x) with
  | Running, WResolved code signal => set_phase (AwaitSpillStart code signal) x
  | Running, WRejected message => settle (Throw (ExecutionError SpawnError message)) x
  | _, _ => x
  end.

Definition child_event (ev : wait_event) (x : exec_state) : exec_state :=
  after_wait (set_wait (wait_step (spill_draining x) (x_wait x) ev) x).

Definition settled (x : exec_state) : bool := match x_phase x with Settled _ => true | _ => false end.

Definition exec_step (x : exec_state) (ev : Z * exec_event) : exec_state :=
  let '(now, e) := ev in
  match e with
  | Data ch => if wt_settled (x_wait x) then x else child_event EvData (feed now ch x)
  | StdoutEnd => child_event EvStdoutEnd x
  | StderrEnd => child_event EvStderrEnd x
  | Exit code signal => child_event (EvExit code signal) x
  | Close code signal => child_event (EvClose code signal) x
  | ChildError message => child_event (EvError message) x
  | IdleTimer => child_event EvIdle x
  | TimeoutFires => if settled x then x else kill_child (set_ended true (x_aborted x) x)
  | AbortSignal =>
      if settled x || x_aborted x then x else kill_child (set_ended (x_timedOut x) true x)
  | PublisherTimer =>
      let '(c, us) := capture_timer lim now (x_capture x) in
      let x := set_capture c us x in
      match raised us with Some e => failCallback e x | None => x end
  | SpillCreated path =>
      match x_spillStart x with
      | SpillPending =>
          let x := set_path path x in
          let '(c, us) := setSpillPath lim now path (x_capture x) in
          let x := set_capture c us x in
          let x := set_spill (x_spillPrefix x) (x_spillQueue x) SpillSettled (x_stream x) (x_backpressured x) x in
          match raised us with
          | Some e => failSpill e x
          | None =>
              let x := set_spill (x_spillPrefix x) (x_spillQueue x) SpillSettled (Some []) (x_backpressured x) x in
              let x := foldl (fun x q => writeSpill q x) x (x_spillQueue x) in
              set_spill (x_spillPrefix x) [] (x_spillStart x) (x_stream x) (x_backpressured x) x
          end
      | _ => x
      end
  | SpillFailed message =>
      match x_spillStart x with
      | SpillPending =>
          failSpill message
            (set_spill (x_spillPrefix x) (x_spillQueue x) SpillSettled (x_stream x) (x_backpressured x) x)
      | _ => x
      end
  | StreamError message =>
      match x_stream x with
      | Some _ =>
          let x := failSpill message x in
          match x_phase x with AwaitFinish code signal => complete now code signal x | _ => x end
      | None => x
      end
  | StreamDrain =>
      set_spill (x_spillPrefix x) (x_spillQueue x) (x_spillStart x) (x_stream x) false x
  | StreamFinish =>
      match x_phase x with AwaitFinish code signal => complete now code signal x | _ => x end
  | Continue =>
      match x_phase x with
      | AwaitSpillStart code signal =>
          match x_spillStart x with
          | SpillPending => x
          | _ =>
              match x_stream x, x_spillError x with
              | Some _, None => set_phase (AwaitFinish code signal) x
              | _, _ => complete now code signal x
              end
          end
      | _ => x
      end
  end.

Definition exec_init : exec_state :=
  ExecState empty_capture [] new_wait Running false false None None [] None [] NoSpill None false 0.

Definition exec_run (evs : list (Z * exec_event)) : exec_state := foldl exec_step exec_init evs.
End Exec.

(** * What a capture keeps while it is published *)

Lemma publish_fields lim f c :
  c_totalBytes (publish lim f c).1 = c_totalBytes c /\ c_newlines (publish lim f c).1 = c_newlines c /\
  c_endsWithNewline (publish lim f c).1 = c_endsWithNewline c /\
  c_spillPath (publish lim f c).1 = c_spillPath c.
Proof. unfold publish. by destruct (f _ _). Qed.

Lemma publish_truncated lim f c : capture_truncated lim (publish lim f c).1 = capture_truncated lim c.
Proof.
  unfold capture_truncated, capture_totalLines. destruct (publish_fields lim f c) as (-> & -> & -> & _). done.
Qed.

Lemma setSpillPath_fields lim now path c :
  c_disposed c = false ->
  c_spillPath (setSpillPath lim now path c).1 = Some path /\
  capture_truncated lim (setSpillPath lim now path c).1 = capture_truncated lim c.
Proof.
  intros Hd. unfold setSpillPath. rewrite Hd. cbn [orb].
  destruct (bool_decide _) eqn:E; [bool_to_prop; done|].
  match goal with |- context [publish lim (pub_mark now) ?c'] => set (c0 := c') end.
  destruct (publish_fields lim (pub_mark now) c0) as (_ & _ & _ & Hp).
  pose proof (publish_truncated lim (pub_mark now) c0) as Ht.
  destruct (publish lim (pub_mark now) c0) as [c1 u1]. cbn [fst] in *. unfold flush_capture.
  assert (H0 : c_spillPath c0 = Some path /\ capture_truncated lim c0 = capture_truncated lim c) by done.
  destruct H0 as [Hp0 Ht0]. destruct (c_disposed c1); cbn [fst]; [by rewrite Hp, Ht|].
  destruct (publish_fields lim (pub_flush true now) c1) as (_ & _ & _ & Hp1).
  pose proof (publish_truncated lim (pub_flush true now) c1) as Ht1.
  destruct (publish lim (pub_flush true now) c1) as [c2 u2]. cbn [fst] in *. by rewrite Hp1, Ht1, Hp, Ht.
Qed.

Lemma countNewlines_nonneg s : 0 <= countNewlines s.
Proof. induction s as [|x s IH]; simpl; [lia|]. destruct (x =? LF); lia. Qed.

Lemma store_text_spillPath lim t c : c_spillPath (store_text lim t c) = c_spillPath c.
Proof. unfold store_text. by destruct (if _ <? _ then _ else _). Qed.

(** More text never makes a truncated capture fit again. *)
Lemma store_text_truncated lim t c :
  t ≠ [] -> capture_truncated lim c = true -> 0 <= c_totalBytes c ->
  capture_truncated lim (store_text lim t c) = true.
Proof.
  intros Hne Ht H0. unfold capture_truncated in *.
  pose proof (byteLength_nonneg t) as Hb. pose proof (countNewlines_nonneg t) as Hn.
  assert (c_totalBytes (store_text lim t c) = c_totalBytes c + Buffer_byteLength t) as ->
    by (unfold store_text; by destruct (if _ <? _ then _ else _)).
  assert (capture_totalLines c <= capture_totalLines (store_text lim t c)) as Hl; [|
    apply orb_true_iff in Ht as [Ht|Ht]; apply Z.ltb_lt in Ht;
    apply orb_true_iff; [left|right]; apply Z.ltb_lt; lia].
  assert (capture_totalLines (store_text lim t c) = c_newlines c + countNewlines t +
    (if ends_with [LF] t || (c_totalBytes c + Buffer_byteLength t =? 0) then 0 else 1)) as ->
    by (unfold store_text, capture_totalLines; by destruct (if _ <? _ then _ else _)).
  unfold capture_totalLines. destruct (ends_with [LF] t) eqn:He; cbn [orb].
  - apply ends_with_spec in He as [p ->]. rewrite countNewlines_app in *. pose proof (countNewlines_nonneg p).
    change (countNewlines [LF]) with 1 in *. destruct (c_endsWithNewline c || _); lia.
  - pose proof (byteLength_pos t Hne) as Hz.
    rewrite (proj2 (Z.eqb_neq (c_totalBytes c + _) 0)) by lia. destruct (c_endsWithNewline c || _); lia.
Qed.

(** * Invariants of a running command *)

Definition nonempty (ch : list Z) : bool := match ch with [] => false | _ => true end.

Lemma concat_nonempty (f : list (list Z)) : concat (List.filter nonempty f) = concat f.
Proof. induction f as [|[|x ch] f IH]; simpl; [done|done|by rewrite IH]. Qed.

Section ExecProofs.
Context (lim : limits) (spill : bool) (onUpdate : output_update -> option jstr)
  (write_accepts : list (list Z) -> list Z -> bool) (signals : jstr -> option Z) (timeout_string : jstr).
Hypothesis Hretain : l_retain lim = RetainTail.
Hypothesis Hmax : 8 <= l_maxBytes lim.
Hypothesis Hlines : 0 <= l_maxLines lim.

Abbreviation step := (exec_step lim spill onUpdate write_accepts signals timeout_string).

(** Where the chunks received so far, [f], are kept. *)
Definition spill_ok (f : list (list Z)) (x : exec_state) : Prop :=
  match x_spillStart x with
  | NoSpill =>
      x_spillPrefix x = (if spill then f else []) /\ x_spillQueue x = [] /\ x_stream x = None /\
      x_spillPath x = None /\ c_spillPath (x_capture x) = None /\
      (spill = true -> capture_truncated lim (x_capture x) = false)
  | SpillPending =>
      x_spillPrefix x = [] /\ x_spillQueue x = f /\ x_stream x = None /\ x_spillPath x = None /\
      capture_truncated lim (x_capture x) = true /\ spill = true
  | SpillSettled =>
      x_spillPrefix x = [] /\ x_spillQueue x = [] /\ x_stream x = Some f /\ spill = true /\
      exists path, x_spillPath x = Some path /\ c_spillPath (x_capture x) = Some path
  end.

Record exec_inv (f : list (list Z)) (x : exec_state) : Prop := {
  xi_run : exists ops, capture_run lim ops = (x_capture x, x_updates x) /\
    Forall output_op ops /\ bytes_of ops = concat f;
  xi_spill : x_callbackError x = None -> x_spillError x = None ->
    spill_ok (List.filter nonempty f) x
}.

(** A capture whose operations are output operations is streaming them. *)
Lemma run_streaming ops c us :
  Forall output_op ops -> capture_run lim ops = (c, us) -> streaming lim (bytes_of ops) c.
Proof.
  intros HF E. pose proof (capture_run_streaming lim Hretain Hmax [] (empty_capture, []) ops HF
    (empty_streaming lim)) as H. unfold capture_run in E. by rewrite E in H.
Qed.

Lemma exec_inv_live f x : exec_inv f x -> c_disposed (x_capture x) = false.
Proof. intros [(ops & E & HF & _) _]. by destruct (run_streaming ops _ _ HF E). Qed.

Lemma exec_inv_total f x : exec_inv f x -> 0 <= c_totalBytes (x_capture x).
Proof.
  intros [(ops & E & HF & _) _]. destruct (run_streaming ops _ _ HF E) as [[_ _ -> _ _ _] _ _ _].
  apply sum_sizes_nonneg.
Qed.

(** One more operation of the capture. *)
Lemma capture_run_snoc ops op c us :
  capture_run lim ops = (c, us) ->
  capture_run lim (ops ++ [op]) = ((capture_step lim c op).1, us ++ (capture_step lim c op).2).
Proof.
  intros E. unfold capture_run, capture_run_from in *. rewrite foldl_app, E. cbn [foldl fst snd].
  by destruct (capture_step lim c op).
Qed.

Lemma xi_run_step f x ch op c us :
  exec_inv f x -> output_op op -> bytes_of [op] = ch -> capture_step lim (x_capture x) op = (c, us) ->
  exists ops, capture_run lim ops = (c, x_updates x ++ us) /\ Forall output_op ops /\
    bytes_of ops = concat (f ++ [ch]).
Proof.
  intros [(ops & E & HF & Hb) _] Ho Hch Hs. exists (ops ++ [op]).
  rewrite (capture_run_snoc _ _ _ _ E), Hs. split; [done|].
  split; [apply Forall_app; by repeat constructor|].
  unfold bytes_of in *. rewrite bind_app, Hb, concat_app, Hch. simpl. by rewrite app_nil_r.
Qed.

(** ** Feeding a chunk *)

Lemma push_truncated now ch c :
  c_disposed c = false -> 0 <= c_totalBytes c -> capture_truncated lim c = true ->
  capture_truncated lim (push lim now (CBytes ch) c).1 = true.
Proof.
  intros Hd H0 Ht. unfold push. rewrite Hd. destruct (td_stream (c_decoder c) ch) as [text d].
  unfold appendText. destruct text as [|y text]; [done|]. rewrite publish_truncated.
  by apply store_text_truncated.
Qed.

Lemma push_empty now c :
  c_disposed c = false -> exists d, push lim now (CBytes []) c = (set_decoder c d, []).
Proof.
  intros Hd. unfold push. rewrite Hd. unfold td_stream. cbn. destruct (td_bomSeen (c_decoder c)); cbn; eauto.
Qed.

Lemma push_spillPath now ch c : c_spillPath (push lim now (CBytes ch) c).1 = c_spillPath c.
Proof.
  unfold push. destruct (c_disposed c); [done|]. destruct (td_stream (c_decoder c) ch) as [text d].
  unfold appendText. destruct text as [|y text]; [done|].
  destruct (publish_fields lim (pub_mark now) (store_text lim (y :: text) (set_decoder c d)))
    as (_ & _ & _ & ->). by rewrite store_text_spillPath.
Qed.

Lemma foldl_startSpill x ps :
  x_stream x = None ->
  foldl (fun x p => startSpill write_accepts p x) x ps =
  set_spill (x_spillPrefix x) (x_spillQueue x ++ ps)
    (match ps with [] => x_spillStart x | _ => match x_spillStart x with NoSpill => SpillPending | s => s end end)
    None (x_backpressured x) x.
Proof.
  revert x; induction ps as [|p ps IH]; intros x Hs; cbn [foldl].
  - rewrite app_nil_r. destruct x; cbn in *; by subst.
  - unfold startSpill at 2. rewrite Hs, IH by done. cbn. rewrite <- app_assoc. cbn.
    destruct ps, (x_spillStart x); done.
Qed.

Lemma foldl_startSpill_frame x ps :
  let y := foldl (fun x p => startSpill write_accepts p x) x ps in
  x_capture y = x_capture x /\ x_updates y = x_updates x /\
  x_callbackError y = x_callbackError x /\ x_spillError y = x_spillError x.
Proof.
  revert x; induction ps as [|p ps IH]; intros x; [done|]. cbn [foldl].
  destruct (IH (startSpill write_accepts p x)) as (-> & -> & -> & ->).
  unfold startSpill, writeSpill. destruct (x_stream x); [destruct p|]; done.
Qed.

Lemma foldl_writeSpill x qs ws :
  x_stream x = Some ws -> forallb nonempty qs = true ->
  exists bp, foldl (fun x q => writeSpill write_accepts q x) x qs =
    set_spill (x_spillPrefix x) (x_spillQueue x) (x_spillStart x) (Some (ws ++ qs)) bp x.
Proof.
  revert x ws; induction qs as [|q qs IH]; intros x ws Hs Hne; cbn [foldl].
  - exists (x_backpressured x). rewrite app_nil_r. destruct x; cbn in *; by subst.
  - cbn in Hne. apply andb_true_iff in Hne as [Hq Hqs]. unfold writeSpill at 2. rewrite Hs.
    destruct q as [|y q]; [done|].
    match goal with |- context [foldl _ ?x' qs] => destruct (IH x' (ws ++ [y :: q])) as [bp Hbp] end;
      [done|done|]. exists bp. rewrite Hbp. cbn. by rewrite <- app_assoc.
Qed.

Lemma foldl_writeSpill_frame x qs :
  let y := foldl (fun x q => writeSpill write_accepts q x) x qs in
  x_phase y = x_phase x /\ x_wait y = x_wait x /\ x_spillStart y = x_spillStart x /\
  x_capture y = x_capture x /\ x_updates y = x_updates x /\
  x_callbackError y = x_callbackError x /\ x_spillError y = x_spillError x.
Proof.
  revert x; induction qs as [|q qs IH]; intros x; [done|]. cbn [foldl].
  destruct (IH (writeSpill write_accepts q x)) as (-> & -> & -> & -> & -> & -> & ->).
  unfold writeSpill. destruct (x_stream x); [destruct q|]; done.
Qed.

Lemma nonempty_all f : forallb nonempty (List.filter nonempty f) = true.
Proof. induction f as [|ch f IH]; [done|]. simpl. destruct (nonempty ch) eqn:E; [|done]. simpl. by rewrite E. Qed.

(** A step of the capture that takes no bytes. *)
Lemma xi_run_silent f x op c us :
  exec_inv f x -> output_op op -> bytes_of [op] = [] -> capture_step lim (x_capture x) op = (c, us) ->
  exists ops, capture_run lim ops = (c, x_updates x ++ us) /\ Forall output_op ops /\
    bytes_of ops = concat f.
Proof.
  intros Hx Ho Hb Hs. destruct (xi_run_step f x [] op c us Hx Ho Hb Hs) as (ops & E & HF & Hops).
  exists ops. split; [done|]. split; [done|]. by rewrite Hops, concat_app, app_nil_r.
Qed.

Lemma failCallback_error e x : x_callbackError (failCallback e x) ≠ None.
Proof. unfold failCallback. destruct (x_callbackError x) eqn:E; [by rewrite E|done]. Qed.

Lemma failSpill_error e x : x_spillError (failSpill e x) ≠ None.
Proof. unfold failSpill. destruct (x_spillError x) eqn:E; [by rewrite E|done]. Qed.

Lemma failCallback_run e x :
  x_capture (failCallback e x) = x_capture x /\ x_updates (failCallback e x) = x_updates x.
Proof. unfold failCallback. by destruct (x_callbackError x). Qed.

Lemma failSpill_run e x :
  x_capture (failSpill e x) = x_capture x /\ x_updates (failSpill e x) = x_updates x.
Proof. unfold failSpill. by destruct (x_spillError x). Qed.

(** A failed callback leaves nothing to say about the file. *)
Lemma failCallback_inv f e x :
  (exists ops, capture_run lim ops = (x_capture x, x_updates x) /\
    Forall output_op ops /\ bytes_of ops = concat f) -> exec_inv f (failCallback e x).
Proof.
  intros H. destruct (failCallback_run e x) as [H1 H2]. split; [by rewrite H1, H2|].
  intros Hc. by apply failCallback_error in Hc.
Qed.

Lemma failSpill_inv f e x :
  (exists ops, capture_run lim ops = (x_capture x, x_updates x) /\
    Forall output_op ops /\ bytes_of ops = concat f) -> exec_inv f (failSpill e x).
Proof.
  intros H. destruct (failSpill_run e x) as [H1 H2]. split; [by rewrite H1, H2|].
  intros _ Hc. by apply failSpill_error in Hc.
Qed.

Lemma filter_nonempty_snoc f ch :
  List.filter nonempty (f ++ [ch]) = List.filter nonempty f ++ (if nonempty ch then [ch] else []).
Proof. rewrite List.filter_app. simpl. by destruct (nonempty ch). Qed.

(** How the place of the chunks changes, when the capture became [c] with a
    chunk that is not empty. *)
Section Chunk.
Context (x : exec_state) (c : capture) (us : list output_update) (g : list (list Z)) (ch : list Z).
Hypothesis Hmono : capture_truncated lim (x_capture x) = true -> capture_truncated lim c = true.
Hypothesis Hpath : c_spillPath c = c_spillPath (x_capture x).

Lemma spill_ok_off : spill = false -> spill_ok g x -> spill_ok (g ++ [ch]) (set_capture c us x).
Proof.
  intros Hoff. unfold spill_ok. cbn. rewrite Hoff. destruct (x_spillStart x).
  - intros (H1 & H2 & H3 & H4 & H5 & H6). rewrite Hpath. by repeat split.
  - intros (? & ? & ? & ? & ? & ?); congruence.
  - intros (? & ? & ? & ? & ?); congruence.
Qed.

Lemma spill_ok_more :
  spill = true -> ch ≠ [] ->
  (match x_spillPath x with Some _ => true | None => false end) || capture_truncated lim (x_capture x) = true ->
  spill_ok g x -> spill_ok (g ++ [ch]) (startSpill write_accepts ch (set_capture c us x)).
Proof.
  intros Hon Hne Hcase. unfold spill_ok, startSpill, writeSpill. cbn. destruct (x_spillStart x).
  - intros (H1 & H2 & H3 & H4 & H5 & H6). rewrite H4, H6 in Hcase by done. done.
  - intros (H1 & H2 & H3 & H4 & H5 & H6). rewrite H3. cbn. rewrite Hmono by done. rewrite H2. by repeat split.
  - intros (H1 & H2 & H3 & H4 & path & H5 & H6). rewrite H3. destruct ch; [done|]. cbn. repeat split; try done.
    exists path. by rewrite Hpath.
Qed.

(** Nothing was spilled yet. *)
Lemma spill_ok_none :
  (match x_spillPath x with Some _ => true | None => false end) || capture_truncated lim (x_capture x) = false ->
  spill_ok g x ->
  x_spillStart x = NoSpill /\ x_spillPrefix x = (if spill then g else []) /\ x_spillQueue x = [] /\
  x_stream x = None /\ x_spillPath x = None /\ c_spillPath (x_capture x) = None.
Proof.
  intros Hcase. apply orb_false_iff in Hcase as [Hp Ht]. unfold spill_ok. destruct (x_spillStart x).
  - intros (H1 & H2 & H3 & H4 & H5 & H6). done.
  - intros (H1 & H2 & H3 & H4 & H5 & H6). congruence.
  - intros (H1 & H2 & H3 & H4 & path & H5 & H6). by rewrite H5 in Hp.
Qed.
End Chunk.

(** The invariant after a chunk, from the place of the chunks after it. *)
Lemma exec_inv_next f x ch c us ops y :
  capture_run lim ops = (c, x_updates x ++ us) -> Forall output_op ops -> bytes_of ops = concat (f ++ [ch]) ->
  x_capture y = c -> x_updates y = x_updates x ++ us ->
  x_callbackError y = x_callbackError x -> x_spillError y = x_spillError x ->
  exec_inv f x ->
  (spill_ok (List.filter nonempty f) x -> spill_ok (List.filter nonempty (f ++ [ch])) y) ->
  exec_inv (f ++ [ch]) y.
Proof.
  intros Hrun HF Hb Hc Hu Hcb Hse [_ Hsp] Hok. split; [by exists ops; rewrite Hc, Hu|].
  rewrite Hcb, Hse. auto.
Qed.

(** An empty chunk changes nothing of what is kept. *)
Lemma spill_ok_empty now x c us g :
  c_disposed (x_capture x) = false -> push lim now (CBytes []) (x_capture x) = (c, us) ->
  spill_ok g x -> spill_ok g (set_capture c us x).
Proof.
  intros Hd Hp. destruct (push_empty now (x_capture x) Hd) as [d Hpd].
  rewrite Hpd in Hp. injection Hp as <- _. done.
Qed.

Lemma startSpill_frame p y :
  x_capture (startSpill write_accepts p y) = x_capture y /\ x_updates (startSpill write_accepts p y) = x_updates y /\
  x_callbackError (startSpill write_accepts p y) = x_callbackError y /\
  x_spillError (startSpill write_accepts p y) = x_spillError y.
Proof. unfold startSpill, writeSpill. destruct (x_stream y); [destruct p|]; done. Qed.

Lemma feed_inv now ch f x :
  Forall (fun b => 0 <= b) ch -> exec_inv f x ->
  exec_inv (f ++ [ch]) (feed lim spill onUpdate write_accepts now ch x).
Proof.
  intros Hch Hx. pose proof (exec_inv_live f x Hx) as Hd. pose proof (exec_inv_total f x Hx) as H0.
  pose proof (push_truncated now ch (x_capture x) Hd H0) as Hmono.
  pose proof (push_spillPath now ch (x_capture x)) as Hpath.
  unfold feed. destruct (push lim now (CBytes ch) (x_capture x)) as [c us] eqn:Hp.
  destruct (xi_run_step f x ch (now, OPush (CBytes ch)) c us Hx) as (ops & Hrun & HF & Hb);
    [done|cbn; by rewrite app_nil_r|done|]. cbn [fst] in *.
  destruct (raised onUpdate us) as [e|]; [apply failCallback_inv; by exists ops|].
  pose proof (fun y => exec_inv_next f x ch c us ops y Hrun HF Hb) as Hnext.
  rewrite filter_nonempty_snoc in Hnext.
  destruct ch as [|b0 ch0].
  { apply Hnext; try done. rewrite app_nil_r. by apply (spill_ok_empty now). }
  cbn [nonempty] in *. destruct spill eqn:Espill; cbn [negb].
  2: { apply Hnext; try done. by apply spill_ok_off. }
  cbn [x_spillPath set_capture].
  destruct ((match x_spillPath x with Some _ => true | None => false end) ||
            capture_truncated lim (x_capture x)) eqn:Ecase.
  { destruct (startSpill_frame (b0 :: ch0) (set_capture c us x)) as (F1 & F2 & F3 & F4).
    apply Hnext; try done. by apply spill_ok_more. }
  pose proof (fun g => spill_ok_none x g Ecase) as Hnone.
  destruct (capture_truncated lim c) eqn:Ec.
  - cbn [x_spillPrefix set_capture].
    destruct (foldl_startSpill_frame (set_capture c us x) (x_spillPrefix x)) as (F1 & F2 & F3 & F4).
    match goal with |- exec_inv _ (startSpill _ ?p ?z) => destruct (startSpill_frame p z) as (G1 & G2 & G3 & G4) end.
    apply Hnext; [by rewrite ?G1, ?G2, ?G3, ?G4..|done|]. intros Hok.
    destruct (Hnone _ Hok) as (Es & H1 & H2 & H3 & H4 & H5). rewrite foldl_startSpill by done.
    unfold spill_ok, startSpill. cbn. rewrite H1, H2, Es, Espill. cbn.
    destruct (List.filter nonempty f); by repeat split.
  - apply Hnext; try done. intros Hok. destruct (Hnone _ Hok) as (Es & H1 & H2 & H3 & H4 & H5).
    unfold spill_ok. cbn. rewrite Es, H1, Hpath, Espill. by repeat split.
Qed.

(** ** Everything else *)

Lemma feed_frame now ch x :
  let y := feed lim spill onUpdate write_accepts now ch x in
  x_phase y = x_phase x /\ x_wait y = x_wait x.
Proof.
  assert (Hs : forall p y, x_phase (startSpill write_accepts p y) = x_phase y /\
    x_wait (startSpill write_accepts p y) = x_wait y).
  { intros p y. unfold startSpill, writeSpill. destruct (x_stream y); [destruct p|]; done. }
  assert (Hfold : forall ps y, x_phase (foldl (fun x p => startSpill write_accepts p x) y ps) = x_phase y /\
    x_wait (foldl (fun x p => startSpill write_accepts p x) y ps) = x_wait y).
  { induction ps as [|p ps IH]; intros y; [done|]. cbn [foldl].
    destruct (IH (startSpill write_accepts p y)) as [-> ->]. apply Hs. }
  unfold feed. destruct (push _ _ _ _) as [c us]. destruct (raised onUpdate us).
  { unfold failCallback. cbn. by destruct (x_callbackError x). }
  destruct ch as [|b ch]; [done|]. destruct (negb spill); [done|].
  destruct (_ || _); [exact (Hs _ (set_capture c us x))|].
  destruct (capture_truncated lim c); [|done]. cbv zeta.
  match goal with |- context [startSpill _ _ ?z] => destruct (Hs (b :: ch) z) as [-> ->] end.
  exact (Hfold _ (set_capture c us x)).
Qed.

(** The outcome of a command whose chunks were [f]. *)
Definition result_ok (f : list (list Z)) (x : exec_state) (v : exec_value) : Prop :=
  exists ops now, Forall output_op ops /\ bytes_of ops = concat f /\
    let st := capture_run lim (ops ++ [(now, OFinish); (now, OFlush)]) in
    x_updates x = st.2 /\ ev_info v = s_info (take_snapshot lim st.1) /\ c_disposed st.1 = false /\
    x_spillStart x ≠ SpillPending /\
    (x_stream x = None /\ i_spillPath (ev_info v) = None /\
       (spill = true -> capture_truncated lim (capture_run lim ops).1 = false) \/
     exists path, spill = true /\ x_stream x = Some (List.filter nonempty f) /\
       i_spillPath (ev_info v) = Some path /\ x_spillPath x = Some path).

Record exec_ok (f : list (list Z)) (x : exec_state) : Prop := {
  xo_phase : match x_phase x with
    | Running => exec_inv f x /\ wt_settled (x_wait x) = false
    | AwaitSpillStart _ _ => exec_inv f x /\ wt_settled (x_wait x) = true
    | AwaitFinish _ _ => exec_inv f x /\ wt_settled (x_wait x) = true /\ x_spillStart x ≠ SpillPending
    | Settled r => wt_settled (x_wait x) = true /\
        (c_disposed (x_capture x) = true /\ timer (c_publisher (x_capture x)) = false) /\
        match r with Ok v => result_ok f x v | Throw _ => True end
    end
}.

Lemma maybeFinalize_settled w : wt_settled w = true -> maybeFinalizeAfterExit w = w.
Proof. intros H. unfold maybeFinalizeAfterExit, finalize. rewrite H. by destruct (_ && _). Qed.

Lemma wait_step_settled d w ev : wt_settled w = true -> wait_step d w ev = w.
Proof. intros H. unfold wait_step. by rewrite H. Qed.

Lemma child_event_ok ev f x : exec_ok f x -> exec_ok f (child_event ev x).
Proof.
  intros [H]. unfold child_event, after_wait. cbn.
  destruct (x_phase x) as [|code sig|code sig|r] eqn:Ep; cbn.
  - destruct (wt_outcome (wait_step _ _ _)) as [|code sig|m] eqn:Eo; split; cbn; rewrite ?Ep.
    + split; [by destruct H as [[? ?] _]|]. unfold wt_settled. by rewrite Eo.
    + split; [by destruct H as [[? ?] _]|]. unfold wt_settled. by rewrite Eo.
    + split; [unfold wt_settled; by rewrite Eo|]. done.
  - destruct H as [H Hw]. split; cbn. rewrite Ep. rewrite wait_step_settled by done. split; [|done].
    by destruct H.
  - destruct H as (H & Hw & Hs). split; cbn. rewrite Ep. rewrite wait_step_settled by done.
    split; [by destruct H|done].
  - split; cbn. rewrite Ep. rewrite wait_step_settled by apply H. apply H.
Qed.

Lemma finish_spillPath now c : c_spillPath (finish lim now c).1 = c_spillPath c.
Proof.
  unfold finish. destruct (c_disposed c); [done|]. destruct (td_end (c_decoder c)) as [text d].
  unfold appendText. destruct text as [|y text]; [done|].
  destruct (publish_fields lim (pub_mark now) (store_text lim (y :: text) (set_decoder c d)))
    as (_ & _ & _ & ->). by rewrite store_text_spillPath.
Qed.

Lemma finish_disposed now c : c_disposed (finish lim now c).1 = c_disposed c.
Proof.
  unfold finish. destruct (c_disposed c) eqn:Hd; [done|]. destruct (td_end (c_decoder c)) as [text d].
  unfold appendText. destruct text as [|y text]; [done|]. rewrite publish_disposed.
  by destruct (store_text_fields lim (y :: text) (set_decoder c d)) as [_ ->].
Qed.

Lemma flush_capture_fields now c :
  c_spillPath (flush_capture lim now c).1 = c_spillPath c /\
  c_disposed (flush_capture lim now c).1 = c_disposed c.
Proof.
  unfold flush_capture. destruct (c_disposed c) eqn:Hd; [done|]. rewrite publish_disposed.
  by destruct (publish_fields lim (pub_flush true now) c) as (_ & _ & _ & ->).
Qed.

Lemma complete_ok now code sig f x :
  exec_inv f x -> wt_settled (x_wait x) = true -> x_spillStart x ≠ SpillPending ->
  exec_ok f (complete lim onUpdate signals timeout_string now code sig x).
Proof.
  intros Hx Hw Hs. pose proof (exec_inv_live f x Hx) as Hd. unfold complete.
  pose proof (finish_spillPath now (x_capture x)) as Hp1. pose proof (finish_disposed now (x_capture x)) as Hd1.
  destruct (finish lim now (x_capture x)) as [c1 u1] eqn:E1. cbn [fst] in *.
  destruct (raised onUpdate u1) as [e|] eqn:R1.
  { unfold failCallback. cbn. destruct (x_callbackError x) eqn:Ec; split; cbn; rewrite ?Ec; by repeat split. }
  pose proof (flush_capture_fields now c1) as [Hp2 Hd2].
  destruct (flush_capture lim now c1) as [c2 u2] eqn:E2. cbn [fst] in *.
  destruct (raised onUpdate u2) as [e|] eqn:R2.
  { unfold failCallback. cbn. destruct (x_callbackError x) eqn:Ec; split; cbn; rewrite ?Ec; by repeat split. }
  split. cbn. split; [done|]. split; [done|].
  destruct (x_callbackError x) eqn:Ec; [done|]. destruct (x_timedOut x); [done|].
  destruct (x_aborted x); [done|]. destruct (x_spillError x) eqn:Ese; [done|].
  destruct Hx as [(ops & Hrun & HF & Hb) Hsp]. specialize (Hsp Ec Ese).
  exists ops, now. split; [done|]. split; [done|]. cbv zeta.
  change (ops ++ [(now, OFinish); (now, OFlush)]) with (ops ++ ([(now, OFinish)] ++ [(now, OFlush)])).
  rewrite app_assoc. erewrite capture_run_snoc by (apply capture_run_snoc, Hrun).
  cbn [capture_step fst snd]. rewrite E1. cbn [fst snd]. rewrite E2. cbn [fst snd].
  split; [cbn; by rewrite app_nil_r|]. split; [done|]. split; [by rewrite Hd2, Hd1|]. split; [done|]. cbn.
  rewrite Hp2, Hp1, Hrun. unfold spill_ok in Hsp. cbn [fst]. destruct (x_spillStart x); [left| done |right].
  - destruct Hsp as (? & ? & ? & ? & ? & ?). by repeat split.
  - destruct Hsp as (_ & _ & Hst & Hspill & path & Hpath & Hcp). exists path. by repeat split.
Qed.

Lemma set_spill_inv f x queue start stream bp :
  exec_inv f x ->
  (spill_ok (List.filter nonempty f) x ->
   spill_ok (List.filter nonempty f) (set_spill (x_spillPrefix x) queue start stream bp x)) ->
  exec_inv f (set_spill (x_spillPrefix x) queue start stream bp x).
Proof. intros [H1 H2] H. split; [done|]. intros Ha Hb. apply H. by apply H2. Qed.

(** The file of the full output has been created. *)
Lemma spill_created_inv now path f x :
  exec_inv f x -> x_spillStart x = SpillPending ->
  exec_inv f (exec_step lim spill onUpdate write_accepts signals timeout_string x (now, SpillCreated path)).
Proof.
  intros Hx Hstart. pose proof (exec_inv_live f x Hx) as Hd. cbn [exec_step]. rewrite Hstart.
  destruct (setSpillPath_fields lim now path (x_capture x) Hd) as [Hp Ht].
  cbn [x_capture set_path]. destruct (setSpillPath lim now path (x_capture x)) as [c us] eqn:Es. cbn [fst] in *.
  destruct (xi_run_silent f x (now, OSpill path) c us Hx) as (ops & Hrun & HF & Hb); try done.
  destruct (raised onUpdate us) as [e|]; [apply failSpill_inv; by exists ops|].
  cbn [x_spillPrefix x_spillQueue x_stream x_backpressured set_spill set_capture set_path x_spillStart].
  match goal with |- context [foldl _ ?y (x_spillQueue x)] => set (x0 := y) end.
  destruct (foldl_writeSpill_frame x0 (x_spillQueue x)) as (_ & _ & _ & F1 & F2 & F3 & F4).
  split; [exists ops; cbn; by rewrite F1, F2|].
  cbn. rewrite F3, F4. intros Ha Hb'. destruct Hx as [_ Hsp].
  specialize (Hsp Ha Hb'). unfold spill_ok in Hsp. rewrite Hstart in Hsp. destruct Hsp as (H1 & H2 & H3 & H4 & H5 & H6).
  rewrite H2 in *. destruct (foldl_writeSpill x0 (List.filter nonempty f) [] eq_refl (nonempty_all f)) as [bp Hbp].
  rewrite Hbp in *. unfold spill_ok. cbn. repeat split; try done. by exists path.
Qed.

Lemma publisher_timer_ok now f x :
  exec_ok f x -> exec_ok f (step x (now, PublisherTimer)).
Proof.
  intros [H]. cbn [exec_step].
  assert (Hrun : exec_inv f x -> forall c us, capture_timer lim now (x_capture x) = (c, us) ->
    exec_inv f (match raised onUpdate us with Some e => failCallback e (set_capture c us x) | None => set_capture c us x end)).
  { intros Hx c us E. destruct (xi_run_silent f x (now, OTimer) c us Hx) as (ops & Hrun & HF & Hb); try done.
    destruct (raised onUpdate us) as [e|]; [apply failCallback_inv; by exists ops|].
    split; [by exists ops|]. intros Ha Hb'. destruct Hx as [_ Hsp]. specialize (Hsp Ha Hb').
    pose proof (publish_truncated lim (pub_timer now) (x_capture x)) as Ht.
    destruct (publish_fields lim (pub_timer now) (x_capture x)) as (_ & _ & _ & Hp).
    unfold capture_timer in E. rewrite E in Ht, Hp. cbn [fst] in *. unfold spill_ok in *. cbn. by rewrite Ht, Hp. }
  destruct (capture_timer lim now (x_capture x)) as [c us] eqn:E. specialize (fun Hx => Hrun Hx c us eq_refl).
  assert (Hframe : let y := match raised onUpdate us with Some e => failCallback e (set_capture c us x) | None => set_capture c us x end in
    x_phase y = x_phase x /\ x_wait y = x_wait x /\ x_spillStart y = x_spillStart x).
  { destruct (raised onUpdate us); [|done]. unfold failCallback. cbn. by destruct (x_callbackError x). }
  destruct Hframe as (F1 & F2 & F3). split. rewrite F1, F2, F3.
  destruct (x_phase x) as [|? ?|? ?|r]; [tauto|tauto|tauto|]. destruct H as (Hw & Ht & Hr).
  unfold capture_timer, publish, pub_timer, timer_fires in E. rewrite (proj2 Ht) in E. injection E as <- <-. cbn.
  split; [done|]. split; [done|]. destruct r as [v|]; [|done].
  destruct Hr as (ops & n & Hr). exists ops, n. cbn. by rewrite app_nil_r.
Qed.

Lemma failSpill_frame m x :
  x_phase (failSpill m x) = x_phase x /\ x_wait (failSpill m x) = x_wait x /\
  x_spillStart (failSpill m x) = x_spillStart x /\ x_stream (failSpill m x) = x_stream x /\
  x_spillPath (failSpill m x) = x_spillPath x /\ x_capture (failSpill m x) = x_capture x /\
  x_updates (failSpill m x) = x_updates x.
Proof. unfold failSpill. by destruct (x_spillError x). Qed.

(** An event that touches neither the capture nor what was written. *)
Lemma exec_ok_frame f x y :
  x_phase y = x_phase x -> x_wait y = x_wait x -> x_spillStart y = x_spillStart x ->
  x_stream y = x_stream x -> x_spillPath y = x_spillPath x -> x_capture y = x_capture x ->
  x_updates y = x_updates x -> (exec_inv f x -> exec_inv f y) -> exec_ok f x -> exec_ok f y.
Proof.
  intros F1 F2 F3 F4 F5 F6 F7 Hi [H]. split. rewrite F1, F2, F3, F6.
  destruct (x_phase x) as [|? ?|? ?|r]; [tauto|tauto|tauto|]. destruct H as (Hw & Ht & Hr).
  split; [done|]. split; [done|]. destruct r; [|done]. unfold result_ok in *. by rewrite F3, F4, F5, F7.
Qed.

Lemma spill_failed_inv m f x :
  exec_inv f x -> exec_inv f (failSpill m x).
Proof. intros [H _]. by apply failSpill_inv. Qed.

Lemma spill_created_ok now path f x :
  exec_ok f x -> exec_ok f (step x (now, SpillCreated path)).
Proof.
  intros Hok. pose proof (spill_created_inv now path f x) as Hc. cbn [exec_step] in *.
  destruct (x_spillStart x) eqn:Es; [done| |done].
  destruct Hok as [H]. specialize (fun Hx => Hc Hx eq_refl). cbn [x_capture set_path] in *.
  destruct (setSpillPath lim now path (x_capture x)) as [c us] eqn:Ec.
  match type of Hc with exec_inv f x -> exec_inv f ?y => set (y0 := y) in * end.
  assert (Hfr : x_phase y0 = x_phase x /\ x_wait y0 = x_wait x /\ x_spillStart y0 = SpillSettled /\ x_capture y0 = c).
  { subst y0. destruct (raised onUpdate us) as [e|].
    - unfold failSpill. cbn. by destruct (x_spillError x).
    - cbn. match goal with |- context [foldl _ ?z (x_spillQueue x)] =>
        destruct (foldl_writeSpill_frame z (x_spillQueue x)) as (-> & -> & -> & -> & _) end. done. }
  destruct Hfr as (F1 & F2 & F3 & F4). split. rewrite F1, F2, F3, F4. destruct (x_phase x) as [|? ?|? ?|r].
  - split; [apply Hc, H|apply H].
  - split; [apply Hc, H|apply H].
  - destruct H as (H & Hw & Hs). split; [by apply Hc|]. done.
  - destruct H as (Hw & [Hd Ht] & Hr). split; [done|].
    assert (c = x_capture x) as -> by (unfold setSpillPath in Ec; rewrite Hd in Ec; by injection Ec).
    split; [done|]. destruct r as [v|]; [|done]. destruct Hr as (ops & n & _ & _ & _ & _ & _ & Hns & _). congruence.
Qed.

Lemma stream_error_ok now m f x :
  exec_ok f x -> exec_ok f (step x (now, StreamError m)).
Proof.
  intros Hok. cbn [exec_step]. destruct (x_stream x); [|done].
  destruct (failSpill_frame m x) as (F1 & F2 & F3 & F4 & F5 & F6 & F7). rewrite F1.
  assert (Hok' : exec_ok f (failSpill m x)).
  { apply (exec_ok_frame f x); try done. apply spill_failed_inv. }
  destruct (x_phase x) as [|? ?|code sig|r] eqn:Ep; try done.
  destruct Hok as [H]. rewrite Ep in H. destruct H as (H & Hw & Hs).
  apply complete_ok; [by apply spill_failed_inv|by rewrite F2|by rewrite F3].
Qed.

Lemma spill_failed_ok now m f x :
  exec_ok f x -> exec_ok f (step x (now, SpillFailed m)).
Proof.
  intros Hok. cbn [exec_step]. destruct (x_spillStart x) eqn:Es; [done| |done]. destruct Hok as [H].
  match goal with |- exec_ok f (failSpill m ?y) => set (x0 := y) end.
  destruct (failSpill_frame m x0) as (F1 & F2 & F3 & F4 & F5 & F6 & F7).
  assert (Hi : exec_inv f x -> exec_inv f (failSpill m x0)).
  { intros [Hrun _]. by apply failSpill_inv. }
  split. rewrite F1, F2, F3, F6. subst x0. cbn in *. destruct (x_phase x) as [|? ?|? ?|r].
  - tauto.
  - tauto.
  - destruct H as (H & Hw & _). split; [auto|done].
  - destruct H as (Hw & Hd & Hr). split; [done|]. split; [done|]. destruct r as [v|]; [|done].
    destruct Hr as (ops & n & _ & _ & _ & _ & _ & Hns & _). congruence.
Qed.

Lemma continue_ok now f x : exec_ok f x -> exec_ok f (step x (now, Continue)).
Proof.
  intros Hok. cbn [exec_step]. destruct (x_phase x) as [|code sig|code sig|r] eqn:Ep; try done.
  destruct Hok as [H]. rewrite Ep in H. destruct H as [H Hw].
  destruct (x_spillStart x) eqn:Es.
  - destruct (x_stream x), (x_spillError x); try (apply complete_ok; [done|done|congruence]).
    split. cbn. split; [by destruct H|]. rewrite Es. done.
  - by split; rewrite Ep.
  - destruct (x_stream x), (x_spillError x); try (apply complete_ok; [done|done|congruence]).
    split. cbn. split; [by destruct H|]. rewrite Es. done.
Qed.

Lemma exec_step_ok f x now e :
  (forall ch, e = Data ch -> Forall (fun b => 0 <= b) ch) ->
  exec_ok f x ->
  exec_ok (f ++ match e with Data ch => if wt_settled (x_wait x) then [] else [ch] | _ => [] end)
    (step x (now, e)).
Proof.
  intros Hdata Hok. destruct e; rewrite ?app_nil_r; try (cbn [exec_step]; by apply child_event_ok);
    [| | |by apply publisher_timer_ok|by apply spill_created_ok|by apply spill_failed_ok
     |by apply stream_error_ok| | |by apply continue_ok]; cbn [exec_step].
  - destruct (wt_settled (x_wait x)) eqn:Ew; [by rewrite app_nil_r|]. apply child_event_ok.
    destruct Hok as [H]. destruct (feed_frame now bytes x) as [F1 F2].
    destruct (x_phase x) as [|? ?|? ?|r] eqn:Ep; [|destruct_and? H; congruence..].
    split. rewrite F1, F2. split; [|done]. apply feed_inv; [by apply Hdata|apply H].
  - destruct (settled x); [done|]. eapply exec_ok_frame; [..|exact Hok]; try done. by intros [? ?].
  - destruct (settled x || x_aborted x); [done|]. eapply exec_ok_frame; [..|exact Hok]; try done. by intros [? ?].
  - eapply exec_ok_frame; [..|exact Hok]; try done. by intros [? ?].
  - destruct (x_phase x) as [|? ?|code sig|r] eqn:Ep; try done. destruct Hok as [H]. rewrite Ep in H.
    destruct H as (H & Hw & Hs). by apply complete_ok.
Qed.

(** The chunks a command received before its streams were destroyed. *)
Fixpoint fed (x : exec_state) (evs : list (Z * exec_event)) : list (list Z) :=
  match evs with
  | [] => []
  | ev :: r =>
      match ev.2 with Data ch => if wt_settled (x_wait x) then [] else [ch] | _ => [] end ++
      fed (step x ev) r
  end.

Definition byte_event (ev : Z * exec_event) : Prop :=
  match ev.2 with Data ch => Forall (fun b => 0 <= b) ch | _ => True end.

Lemma exec_run_ok f x evs :
  Forall byte_event evs -> exec_ok f x -> exec_ok (f ++ fed x evs) (foldl step x evs).
Proof.
  intros HF; revert f x; induction HF as [|[now e] evs He HF IH]; intros f x Hx; cbn [fed foldl].
  - by rewrite app_nil_r.
  - rewrite app_assoc. apply IH. apply exec_step_ok; [|done]. intros ch ->. exact He.
Qed.

Lemma exec_init_ok : exec_ok [] exec_init.
Proof.
  split. cbn. split; [|done]. split; [by exists []|]. intros _ _. unfold spill_ok. cbn. repeat split; try done.
  - by destruct spill.
  - intros _. apply orb_false_iff. split; apply Z.ltb_ge; [change (0 <= l_maxBytes lim)|change (0 <= l_maxLines lim)]; lia.
Qed.

Lemma exec_run_reachable evs :
  Forall byte_event evs ->
  exec_ok (fed exec_init evs) (exec_run lim spill onUpdate write_accepts signals timeout_string evs).
Proof. intros HF. by apply (exec_run_ok [] exec_init evs HF), exec_init_ok. Qed.

(** ** Outcomes *)

(** Why the child is killed, and what the outcome says of it. *)
Record outcome_inv (x : exec_state) : Prop := {
  oi_killed : x_timedOut x = true \/ x_aborted x = true \/ x_callbackError x ≠ None \/
    x_spillError x ≠ None -> (0 < x_kills x)%nat;
  oi_callback : forall e, x_callbackError x = Some e -> ee_code e = CallbackError;
  oi_spill : forall e, x_spillError x = Some e -> ee_code e = UnknownError;
  oi_result : forall r, x_phase x = Settled r ->
    match r with
    | Ok _ => x_callbackError x = None /\ x_timedOut x = false /\ x_aborted x = false
    | Throw e =>
        (exists m, e = ExecutionError SpawnError m) \/
        x_callbackError x = Some e \/
        (x_callbackError x = None /\ x_timedOut x = true /\ ee_code e = TimedOut) \/
        (x_callbackError x = None /\ x_timedOut x = false /\ x_aborted x = true /\ ee_code e = Aborted) \/
        (x_callbackError x = None /\ x_timedOut x = false /\ x_aborted x = false /\ x_spillError x = Some e)
    end
}.

Lemma outcome_frame x y :
  x_phase y = x_phase x -> x_timedOut y = x_timedOut x -> x_aborted y = x_aborted x ->
  x_callbackError y = x_callbackError x -> x_spillError y = x_spillError x -> x_kills y = x_kills x ->
  outcome_inv x -> outcome_inv y.
Proof. intros F1 F2 F3 F4 F5 F6 [H1 H2 H3 H4]. split; by rewrite ?F1, ?F2, ?F3, ?F4, ?F5, ?F6. Qed.

Lemma failCallback_outcome e x : settled x = false -> outcome_inv x -> outcome_inv (failCallback e x).
Proof.
  intros Hs [H1 H2 H3 H4]. unfold failCallback. destruct (x_callbackError x) eqn:E.
  - split; rewrite ?E; auto.
  - split; cbn; [lia|by intros ? [= <-]|done|]. intros r Hr. unfold settled in Hs. by rewrite Hr in Hs.
Qed.

Lemma failSpill_outcome e x : outcome_inv x -> outcome_inv (failSpill e x).
Proof.
  intros [H1 H2 H3 H4]. unfold failSpill. destruct (x_spillError x) eqn:E.
  - split; rewrite ?E; auto.
  - split; cbn; [lia|done|by intros ? [= <-]|]. intros [v|e'] Hr; specialize (H4 _ Hr); cbn in H4; [done|].
    intuition congruence.
Qed.

Lemma raised_outcome us x :
  settled x = false -> outcome_inv x ->
  outcome_inv (match raised onUpdate us with Some e => failCallback e x | None => x end).
Proof. intros. destruct (raised onUpdate us); [by apply failCallback_outcome|done]. Qed.

Lemma settle_outcome r x :
  settled x = false -> outcome_inv x ->
  match r with
  | Ok _ => x_callbackError x = None /\ x_timedOut x = false /\ x_aborted x = false
  | Throw e =>
      (exists m, e = ExecutionError SpawnError m) \/ x_callbackError x = Some e \/
      (x_callbackError x = None /\ x_timedOut x = true /\ ee_code e = TimedOut) \/
      (x_callbackError x = None /\ x_timedOut x = false /\ x_aborted x = true /\ ee_code e = Aborted) \/
      (x_callbackError x = None /\ x_timedOut x = false /\ x_aborted x = false /\ x_spillError x = Some e)
  end -> outcome_inv (settle r x).
Proof. intros Hs [H1 H2 H3 _] Hr. split; cbn; [done..|]. by intros ? [= <-]. Qed.

Lemma complete_outcome now code sig x :
  settled x = false -> outcome_inv x ->
  outcome_inv (complete lim onUpdate signals timeout_string now code sig x).
Proof.
  intros Hs Hx. unfold complete. destruct (finish lim now (x_capture x)) as [c1 u1].
  match goal with |- outcome_inv (settle _ ?y) => set (x2 := y) end.
  assert (Hx2 : outcome_inv x2 /\ settled x2 = false).
  { assert (Hcb : forall e y, settled (failCallback e y) = settled y).
    { intros e y. unfold failCallback. by destruct (x_callbackError y). }
    assert (outcome_inv (set_capture c1 u1 x)) as H1 by (by eapply outcome_frame; [..|exact Hx]).
    subst x2. destruct (raised onUpdate u1); [split; [by apply failCallback_outcome|by rewrite Hcb]|].
    destruct (flush_capture lim now c1) as [c2 u2].
    assert (outcome_inv (set_capture c2 u2 (set_capture c1 u1 x))) as H2 by (by eapply outcome_frame; [..|exact H1]).
    destruct (raised onUpdate u2); [split; [by apply failCallback_outcome|by rewrite Hcb]|done]. }
  destruct Hx2 as [Hx2 Hs2]. apply settle_outcome; [done|done|].
  destruct (x_callbackError x2) eqn:E1; [auto|]. destruct (x_timedOut x2) eqn:E2; [auto 6|].
  destruct (x_aborted x2) eqn:E3; [auto 8|]. destruct (x_spillError x2) eqn:E4; [auto 8|done].
Qed.

Lemma child_event_outcome ev x : outcome_inv x -> outcome_inv (child_event ev x).
Proof.
  intros Hx. unfold child_event, after_wait. cbn.
  assert (H0 : outcome_inv (set_wait (wait_step (spill_draining x) (x_wait x) ev) x))
    by (by eapply outcome_frame; [..|exact Hx]).
  destruct (x_phase x) eqn:Ep; try done. destruct (wt_outcome _); [done| |].
  - destruct H0 as [H1 H2 H3 _]. split; cbn; done.
  - apply settle_outcome; [|done|]; [unfold settled; cbn; by rewrite Ep|]. eauto.
Qed.

Lemma feed_outcome now ch x :
  settled x = false -> outcome_inv x -> outcome_inv (feed lim spill onUpdate write_accepts now ch x).
Proof.
  intros Hs Hx. assert (Hst : forall p y, outcome_inv y -> outcome_inv (startSpill write_accepts p y)).
  { intros p y Hy. unfold startSpill, writeSpill. destruct (x_stream y); [destruct p; [done|]|];
      by eapply outcome_frame; [..|exact Hy]. }
  unfold feed. destruct (push _ _ _ _) as [c us].
  assert (H0 : outcome_inv (set_capture c us x)) by (by eapply outcome_frame; [..|exact Hx]).
  destruct (raised onUpdate us); [by apply failCallback_outcome|].
  destruct ch as [|b ch]; [done|]. destruct (negb spill); [done|]. destruct (_ || _); [by apply Hst|].
  destruct (capture_truncated lim c); [|by eapply outcome_frame; [..|exact H0]].
  cbv zeta. apply Hst. eapply outcome_frame; cycle -1.
  - instantiate (1 := foldl (fun x p => startSpill write_accepts p x) (set_capture c us x) (x_spillPrefix x)).
    revert H0. generalize (set_capture c us x). induction (x_spillPrefix x) as [|p ps IH]; intros y Hy; [done|].
    cbn [foldl]. apply IH. by apply Hst.
  - done. - done. - done. - done. - done. - done.
Qed.

Lemma exec_step_outcome f x ev : exec_ok f x -> outcome_inv x -> outcome_inv (step x ev).
Proof.
  intros Hok Hx. destruct ev as [now e]. destruct e; cbn [exec_step];
    try (by apply child_event_outcome).
  - destruct (wt_settled (x_wait x)) eqn:Ew; [done|]. apply child_event_outcome, feed_outcome; [|done].
    destruct Hok as [H]. unfold settled. destruct (x_phase x); try done. destruct H. congruence.
  - unfold settled. destruct (x_phase x) eqn:Ep; [| | |done]; destruct Hx as [? ? ? ?];
      (split; cbn; [lia|done|done|congruence]).
  - unfold settled. destruct (x_phase x) eqn:Ep; cbn; [| | |done]; (destruct (x_aborted x); [done|]);
      destruct Hx as [? ? ? ?]; (split; cbn; [lia|done|done|congruence]).
  - destruct (capture_timer lim now (x_capture x)) as [c us] eqn:E.
    assert (H0 : outcome_inv (set_capture c us x)) by (by eapply outcome_frame; [..|exact Hx]).
    destruct (settled x) eqn:Es; [|by apply raised_outcome].
    destruct Hok as [H]. unfold settled in Es. destruct (x_phase x) as [| | |r]; try done.
    destruct H as (_ & [_ Ht] & _). unfold capture_timer, publish, pub_timer, timer_fires in E.
    rewrite Ht in E. by injection E as <- <-.
  - destruct (x_spillStart x); [done| |done]. cbn [x_capture set_path].
    destruct (setSpillPath lim now path (x_capture x)) as [c us].
    destruct (raised onUpdate us).
    + apply failSpill_outcome. by eapply outcome_frame; [..|exact Hx].
    + cbn. match goal with |- context [foldl _ ?z (x_spillQueue x)] => set (z0 := z) end.
      assert (H0 : outcome_inv z0) by (by eapply outcome_frame; [..|exact Hx]).
      assert (H1 : outcome_inv (foldl (fun y q => writeSpill write_accepts q y) z0 (x_spillQueue x))).
      { revert H0. generalize z0. induction (x_spillQueue x) as [|q qs IH]; intros y Hy; [done|].
        cbn [foldl]. apply IH. unfold writeSpill. destruct (x_stream y); [destruct q; [done|]|done].
        by eapply outcome_frame; [..|exact Hy]. }
      by eapply outcome_frame; [..|exact H1].
  - destruct (x_spillStart x); [done| |done]. apply failSpill_outcome. by eapply outcome_frame; [..|exact Hx].
  - destruct (x_stream x); [|done]. pose proof (failSpill_outcome message x Hx) as H0.
    destruct (failSpill_frame message x) as (F1 & _). rewrite F1. destruct (x_phase x) eqn:Ep; try done.
    apply complete_outcome; [|done]. unfold settled. by rewrite F1.
  - by eapply outcome_frame; [..|exact Hx].
  - destruct (x_phase x) eqn:Ep; try done. apply complete_outcome; [|done]. unfold settled. by rewrite Ep.
  - destruct (x_phase x) eqn:Ep; try done. destruct (x_spillStart x); [|done|];
      destruct (x_stream x), (x_spillError x) eqn:Ese;
      try (apply complete_outcome; [unfold settled; by rewrite Ep|done]);
      destruct Hx as [H1 H2 H3 _]; split; cbn; rewrite ?Ese in *; done.
Qed.

Lemma exec_run_outcome f x evs :
  Forall byte_event evs -> exec_ok f x -> outcome_inv x -> outcome_inv (foldl step x evs).
Proof.
  intros HF; revert f x; induction HF as [|[now e] evs He HF IH]; intros f x Hok Hx; [done|]. cbn [foldl].
  eapply IH; [|by eapply exec_step_outcome].
  apply exec_step_ok; [|done]. intros ch ->. exact He.
Qed.
End ExecProofs.

(** ** Causes *)

(** The child reported that it ended with [code] and [signal]. *)
Definition child_ended (evs : list (Z * exec_event)) (code : option Z) (signal : option jstr) : Prop :=
  exists t, (t, Exit code signal) ∈ evs \/ (t, Close code signal) ∈ evs.

Definition seen (evs : list (Z * exec_event)) (e : exec_event) : Prop := exists t, (t, e) ∈ evs.

(** What the promise of the child rests on. *)
Record wait_caused (evs : list (Z * exec_event)) (w : child_wait) : Prop := {
  wc_timer : wt_timer w = true -> wt_exited w = true;
  wc_exited : wt_exited w = true -> child_ended evs (wt_code w) (wt_signal w);
  wc_outcome : match wt_outcome w with
    | WPending => True
    | WResolved code signal => child_ended evs code signal
    | WRejected message => seen evs (ChildError message)
    end
}.

Lemma child_ended_snoc evs ev c s : child_ended evs c s -> child_ended (evs ++ [ev]) c s.
Proof. intros [t Ht]. exists t. set_solver. Qed.

Lemma seen_snoc evs ev e : seen evs e -> seen (evs ++ [ev]) e.
Proof. intros [t Ht]. exists t. set_solver. Qed.

Lemma seen_last evs t e : seen (evs ++ [(t, e)]) e.
Proof. exists t. set_solver. Qed.

Lemma wait_caused_snoc evs ev w : wait_caused evs w -> wait_caused (evs ++ [ev]) w.
Proof.
  intros [H1 H2 H3]. split; [done|intros H; apply child_ended_snoc; auto|].
  destruct (wt_outcome w); [done|by apply child_ended_snoc|by apply seen_snoc].
Qed.

Lemma finalize_caused evs w : wt_exited w = true -> wait_caused evs w -> wait_caused evs (finalize w).
Proof.
  intros He [H1 H2 H3]. unfold finalize. destruct (wt_settled w); [done|]. split; cbn; [done|done|auto].
Qed.

Lemma maybeFinalize_caused evs w : wait_caused evs w -> wait_caused evs (maybeFinalizeAfterExit w).
Proof.
  intros H. unfold maybeFinalizeAfterExit. destruct (_ && _) eqn:E; [|done]. bool_to_prop.
  apply finalize_caused; tauto.
Qed.

Lemma armIdleTimer_caused evs w : wt_exited w = true -> wait_caused evs w -> wait_caused evs (armIdleTimer w).
Proof. intros He [H1 H2 H3]. split; cbn; auto. Qed.

Definition wait_cause (evs : list (Z * exec_event)) (ev : wait_event) : Prop :=
  match ev with
  | EvExit code signal | EvClose code signal => child_ended evs code signal
  | EvError message => seen evs (ChildError message)
  | _ => True
  end.

Lemma wait_step_caused evs d w ev : wait_cause evs ev -> wait_caused evs w -> wait_caused evs (wait_step d w ev).
Proof.
  intros Hev Hw. unfold wait_step. destruct (wt_settled w) eqn:Es; [done|]. pose proof Hw as [H1 H2 H3].
  assert (Ho : wt_outcome w = WPending) by (unfold wt_settled in Es; by destruct (wt_outcome w)).
  destruct ev; cbn in Hev.
  - destruct (wt_exited w) eqn:E; [by apply armIdleTimer_caused|done].
  - by apply maybeFinalize_caused.
  - by apply maybeFinalize_caused.
  - set (w' := ChildWait true _ _ _ _ _ _). assert (Hw' : wait_caused evs w') by (split; cbn; auto).
    destruct (wt_settled (maybeFinalizeAfterExit w')); [by apply maybeFinalize_caused|].
    apply armIdleTimer_caused; [|by apply maybeFinalize_caused].
    unfold maybeFinalizeAfterExit, finalize. destruct (_ && _); [|done]. by destruct (wt_settled w').
  - unfold finalize. destruct (wt_settled _); [split; cbn; rewrite ?Ho; auto|]. by split; cbn.
  - split; cbn; [done|exact H2|exact Hev].
  - destruct (wt_timer w) eqn:Et; [|done]. destruct d; [by apply armIdleTimer_caused; auto|].
    apply finalize_caused; auto.
Qed.

Section ExecCauses.
Context (lim : limits) (spill : bool) (onUpdate : output_update -> option jstr)
  (write_accepts : list (list Z) -> list Z -> bool) (signals : jstr -> option Z) (timeout_string : jstr).

Abbreviation step := (exec_step lim spill onUpdate write_accepts signals timeout_string).

(** A call of [onUpdate] threw [message]. *)
Definition threw (x : exec_state) (message : jstr) : Prop :=
  exists u, u ∈ x_updates x /\ onUpdate u = Some message.

Definition spill_failure (evs : list (Z * exec_event)) (x : exec_state) (message : jstr) : Prop :=
  exists m, message = js "Failed to preserve complete shell output: " ++ m /\
    (seen evs (SpillFailed m) \/ seen evs (StreamError m) \/ threw x m).

Definition phase_caused (x : exec_state) : Prop :=
  match x_phase x with
  | Running => True
  | AwaitSpillStart code signal | AwaitFinish code signal => wt_outcome (x_wait x) = WResolved code signal
  | Settled (Ok v) =>
      exists code signal, wt_outcome (x_wait x) = WResolved code signal /\
        ev_exitCode v = exit_code signals code signal
  | Settled (Throw e) =>
      match ee_code e with
      | SpawnError => wt_outcome (x_wait x) = WRejected (ee_message e)
      | TimedOut => ee_message e = js "timeout:" ++ timeout_string
      | Aborted => ee_message e = js "aborted"
      | _ => True
      end
  end.

(** Everything the state holds against the command has happened. *)
Record caused (evs : list (Z * exec_event)) (x : exec_state) : Prop := {
  ca_wait : wait_caused evs (x_wait x);
  ca_timedOut : x_timedOut x = true -> seen evs TimeoutFires;
  ca_aborted : x_aborted x = true -> seen evs AbortSignal;
  ca_callback : forall e, x_callbackError x = Some e -> ee_code e = CallbackError /\ threw x (ee_message e);
  ca_spill : forall e, x_spillError x = Some e -> ee_code e = UnknownError /\ spill_failure evs x (ee_message e);
  ca_phase : phase_caused x
}.

Lemma caused_snoc evs ev x : caused evs x -> caused (evs ++ [ev]) x.
Proof.
  intros [H1 H2 H3 H4 H5 H6]. split; [by apply wait_caused_snoc|..]; try (by eauto using seen_snoc).
  intros e He. destruct (H5 e He) as (Hc & m & Hm & Hw). split; [done|]. exists m. split; [done|].
  destruct Hw as [?|[?|?]]; eauto using seen_snoc.
Qed.

(** A state that differs in nothing the record speaks of but more updates. *)
Lemma caused_frame evs x y :
  x_phase y = x_phase x -> x_wait y = x_wait x -> x_timedOut y = x_timedOut x -> x_aborted y = x_aborted x ->
  x_callbackError y = x_callbackError x -> x_spillError y = x_spillError x ->
  (forall u, u ∈ x_updates x -> u ∈ x_updates y) -> caused evs x -> caused evs y.
Proof.
  intros F1 F2 F3 F4 F5 F6 F7 [H1 H2 H3 H4 H5 H6].
  assert (Ht : forall m, threw x m -> threw y m) by (intros m (u & Hu & Hm); exists u; auto).
  split; rewrite ?F2, ?F3, ?F4, ?F5, ?F6; [done|done|done| | |].
  - intros e He. destruct (H4 e He). auto.
  - intros e He. destruct (H5 e He) as (Hc & m & Hm & Hw). split; [done|]. exists m. split; [done|]. intuition auto.
  - unfold phase_caused in *. by rewrite F1, F2.
Qed.

Lemma raised_threw us x m c : raised onUpdate us = Some m -> threw (set_capture c us x) m.
Proof.
  intros H. assert (exists u, u ∈ us /\ onUpdate u = Some m) as (u & Hu & Hm).
  { induction us as [|u us IH]; [done|]. cbn in H. destruct (onUpdate u) eqn:E.
    - injection H as ->. exists u. set_solver.
    - destruct (IH H) as (u' & ? & ?). exists u'. set_solver. }
  exists u. split; [|done]. cbn. set_solver.
Qed.

Lemma set_capture_caused evs c us x : caused evs x -> caused evs (set_capture c us x).
Proof. apply caused_frame; try done. cbn. set_solver. Qed.

Lemma failCallback_caused evs m x : threw x m -> caused evs x -> caused evs (failCallback m x).
Proof.
  intros Hm Hx. unfold failCallback. destruct (x_callbackError x) eqn:E; [done|].
  destruct Hx as [H1 H2 H3 H4 H5 H6]. split; cbn; try done. by intros e [= <-].
Qed.

Lemma failSpill_caused evs m x :
  seen evs (SpillFailed m) \/ seen evs (StreamError m) \/ threw x m -> caused evs x -> caused evs (failSpill m x).
Proof.
  intros Hm Hx. unfold failSpill. destruct (x_spillError x) eqn:E; [done|].
  destruct Hx as [H1 H2 H3 H4 H5 H6]. split; cbn; try done. intros e [= <-]. split; [done|]. by exists m.
Qed.

Lemma raised_caused evs c us x :
  caused evs x ->
  caused evs (match raised onUpdate us with Some e => failCallback e (set_capture c us x) | None => set_capture c us x end).
Proof.
  intros Hx. destruct (raised onUpdate us) eqn:E; [|by apply set_capture_caused].
  apply failCallback_caused; [by apply raised_threw|by apply set_capture_caused].
Qed.

Lemma failCallback_frame m x :
  x_phase (failCallback m x) = x_phase x /\ x_wait (failCallback m x) = x_wait x /\
  x_spillError (failCallback m x) = x_spillError x.
Proof. unfold failCallback. by destruct (x_callbackError x). Qed.

Lemma settle_caused evs r x :
  phase_caused (set_phase (Settled r) x) -> caused evs x -> caused evs (settle r x).
Proof.
  intros Hr Hx. apply (caused_frame _ (set_phase (Settled r) x)); try done; [cbn; set_solver|].
  destruct Hx as [H1 H2 H3 H4 H5 H6]. by split.
Qed.

(** The state in which [complete] chooses the outcome. *)
Lemma complete_state now code signal x :
  exists y, complete lim onUpdate signals timeout_string now code signal x =
    settle
      match x_callbackError y with
      | Some e => Throw e
      | None =>
          if x_timedOut y then Throw (ExecutionError TimedOut (js "timeout:" ++ timeout_string))
          else if x_aborted y then Throw (ExecutionError Aborted (js "aborted"))
          else match x_spillError y with
               | Some e => Throw e
               | None => Ok (ExecValue (exit_code signals code signal) (s_info (take_snapshot lim (x_capture y))))
               end
      end y /\
    x_wait y = x_wait x /\ x_spillError y = x_spillError x /\ (forall evs, caused evs x -> caused evs y).
Proof.
  unfold complete. destruct (finish lim now (x_capture x)) as [c1 u1].
  eexists. split; [reflexivity|]. destruct (raised onUpdate u1) as [m|] eqn:E1.
  { destruct (failCallback_frame m (set_capture c1 u1 x)) as (_ & -> & ->). split; [done|]. split; [done|].
    intros evs Hx. pose proof (raised_caused evs c1 u1 x Hx) as H. by rewrite E1 in H. }
  destruct (flush_capture lim now c1) as [c2 u2]. split; [|split].
  - destruct (raised onUpdate u2) as [m|]; [|done]. by destruct (failCallback_frame m (set_capture c2 u2 (set_capture c1 u1 x))) as (_ & -> & _).
  - destruct (raised onUpdate u2) as [m|]; [|done]. by destruct (failCallback_frame m (set_capture c2 u2 (set_capture c1 u1 x))) as (_ & _ & ->).
  - intros evs Hx. apply raised_caused. by apply set_capture_caused.
Qed.

Lemma complete_caused evs now code signal x :
  wt_outcome (x_wait x) = WResolved code signal -> caused evs x ->
  caused evs (complete lim onUpdate signals timeout_string now code signal x).
Proof.
  intros Hw Hx. destruct (complete_state now code signal x) as (y & -> & Hwy & _ & Hy).
  specialize (Hy evs Hx). apply settle_caused; [|done]. unfold phase_caused. cbn. rewrite Hwy, Hw.
  destruct (x_callbackError y) as [e|] eqn:E1; [by destruct (ca_callback evs y Hy e E1) as [-> _]|].
  destruct (x_timedOut y); [done|]. destruct (x_aborted y); [done|].
  destruct (x_spillError y) as [e|] eqn:E2; [by destruct (ca_spill evs y Hy e E2) as [-> _]|]. eauto.
Qed.

Lemma child_event_caused evs ev x :
  wait_cause evs ev -> caused evs x -> caused evs (child_event ev x).
Proof.
  intros Hev Hx. pose proof Hx as [H1 H2 H3 H4 H5 H6]. unfold child_event, after_wait. cbn.
  pose proof (wait_step_caused evs (spill_draining x) (x_wait x) ev Hev H1) as Hw.
  assert (Hold : x_phase x ≠ Running -> (exists c s, wt_outcome (x_wait x) = WResolved c s) \/
     (exists m, wt_outcome (x_wait x) = WRejected m) ->
     wait_step (spill_draining x) (x_wait x) ev = x_wait x).
  { intros _ Hs. unfold wait_step, wt_settled. by destruct Hs as [(c & s & ->)|(m & ->)]. }
  assert (H0 : phase_caused (set_wait (wait_step (spill_draining x) (x_wait x) ev) x)).
  { unfold phase_caused in *. cbn. destruct (x_phase x) as [|c s|c s|[v|e]] eqn:Ep; [done| | | |].
    - rewrite Hold; eauto; congruence.
    - rewrite Hold; eauto; congruence.
    - destruct H6 as (c & s & Ho & Hc). rewrite Hold; eauto; congruence.
    - destruct (ee_code e); try done. rewrite Hold; eauto; congruence. }
  assert (Hx0 : caused evs (set_wait (wait_step (spill_draining x) (x_wait x) ev) x)) by (by split).
  clear Hold. destruct (x_phase x) eqn:Ep; try done. destruct (wt_outcome _) as [|c s|m] eqn:Eo; [done| |].
  - destruct Hx0 as [? ? ? ? ? _]. by split.
  - apply settle_caused; [|done]. unfold phase_caused. cbn. exact Eo.
Qed.

Lemma startSpill_caused evs p x : caused evs x -> caused evs (startSpill write_accepts p x).
Proof.
  intros Hx. unfold startSpill, writeSpill. destruct (x_stream x); [destruct p; [done|]|]; by eapply caused_frame; [..|exact Hx].
Qed.

Lemma feed_caused evs now ch x : caused evs x -> caused evs (feed lim spill onUpdate write_accepts now ch x).
Proof.
  intros Hx. unfold feed. destruct (push _ _ _ _) as [c us].
  pose proof (raised_caused evs c us x Hx) as H0. destruct (raised onUpdate us); [done|].
  destruct ch as [|b ch]; [done|]. destruct (negb spill); [done|].
  destruct (_ || _); [by apply startSpill_caused|].
  destruct (capture_truncated lim c); [|by eapply caused_frame; [..|exact H0]].
  cbv zeta. apply startSpill_caused.
  assert (H1 : caused evs (foldl (fun x p => startSpill write_accepts p x) (set_capture c us x) (x_spillPrefix x))).
  { revert H0. generalize (set_capture c us x). induction (x_spillPrefix x) as [|p ps IH]; intros y Hy; [done|].
    cbn [foldl]. by apply IH, startSpill_caused. }
  by eapply caused_frame; [..|exact H1].
Qed.

Lemma spill_created_caused evs now path x :
  caused evs x -> caused evs (step x (now, SpillCreated path)).
Proof.
  intros Hx. cbn [exec_step]. destruct (x_spillStart x); [done| |done]. cbn [x_capture set_path].
  destruct (setSpillPath lim now path (x_capture x)) as [c us].
  assert (Hc : caused evs (set_capture c us (set_path path x)))
    by (apply set_capture_caused; by eapply caused_frame; [..|exact Hx]).
  destruct (raised onUpdate us) as [m|] eqn:E.
  - apply failSpill_caused; [|by eapply caused_frame; [..|exact Hc]].
    right; right. destruct (raised_threw us (set_path path x) m c E) as (u & Hu & Hm). by exists u.
  - cbv zeta.
    match goal with |- context [foldl _ ?z _] => assert (H0 : caused evs z) by (by eapply caused_frame; [..|exact Hc]);
      revert H0; generalize z end.
    intros z Hz. set (qs := x_spillQueue _). clearbody qs.
    assert (H1 : caused evs (foldl (fun y q => writeSpill write_accepts q y) z qs)).
    { revert z Hz. induction qs as [|q qs IH]; intros y Hy; [done|]. cbn [foldl]. apply IH.
      unfold writeSpill. destruct (x_stream y); [destruct q; [done|]|done]. by eapply caused_frame; [..|exact Hy]. }
    by eapply caused_frame; [..|exact H1].
Qed.

Lemma stream_error_caused evs now m x :
  seen evs (StreamError m) -> caused evs x -> caused evs (step x (now, StreamError m)).
Proof.
  intros Hm Hx. cbn [exec_step]. destruct (x_stream x); [|done].
  pose proof (failSpill_caused evs m x (or_intror (or_introl Hm)) Hx) as H0.
  pose proof (ca_phase _ _ H0) as Hp. unfold phase_caused in Hp.
  destruct (x_phase (failSpill m x)); try done. by apply complete_caused.
Qed.

Lemma continue_caused evs now x : caused evs x -> caused evs (step x (now, Continue)).
Proof.
  intros Hx. cbn [exec_step]. pose proof (ca_phase _ _ Hx) as Hp. unfold phase_caused in Hp.
  destruct (x_phase x) eqn:Ep; try done.
  assert (Ha : caused evs (set_phase (AwaitFinish code signal) x)) by (destruct Hx as [? ? ? ? ? _]; by split).
  pose proof (complete_caused evs now code signal x Hp Hx) as Hc.
  destruct (x_spillStart x); [|done|]; destruct (x_stream x), (x_spillError x); done.
Qed.

Lemma exec_step_caused evs x ev : caused evs x -> caused (evs ++ [ev]) (step x ev).
Proof.
  intros Hx. apply (caused_snoc evs ev) in Hx. destruct ev as [now e].
  assert (Hseen : seen (evs ++ [(now, e)]) e) by apply seen_last. revert Hx Hseen.
  generalize (evs ++ [(now, e)]). clear evs. intros evs Hx Hseen.
  destruct e; try (by apply spill_created_caused || by apply stream_error_caused || by apply continue_caused);
    cbn [exec_step]; try (by apply child_event_caused).
  - destruct (wt_settled (x_wait x)); [done|]. by apply child_event_caused, feed_caused.
  - destruct Hseen as [t Ht]. apply child_event_caused; [|done]. exists t. by left.
  - destruct Hseen as [t Ht]. apply child_event_caused; [|done]. exists t. by right.
  - destruct (settled x); [done|]. destruct Hx as [? ? ? ? ? ?]. by split.
  - destruct (_ || _); [done|]. destruct Hx as [? ? ? ? ? ?]. by split.
  - destruct (capture_timer lim now (x_capture x)) as [c us]. by apply raised_caused.
  - destruct (x_spillStart x); [done| |done]. apply failSpill_caused; [by left|]. by eapply caused_frame; [..|exact Hx].
  - by eapply caused_frame; [..|exact Hx].
  - pose proof (ca_phase _ _ Hx) as Hp. unfold phase_caused in Hp. destruct (x_phase x); try done. by apply complete_caused.
Qed.

Lemma exec_init_caused : caused [] exec_init.
Proof. by split. Qed.

Lemma exec_run_caused evs : caused evs (exec_run lim spill onUpdate write_accepts signals timeout_string evs).
Proof.
  induction evs as [|ev evs IH] using rev_ind; [apply exec_init_caused|].
  unfold exec_run in *. rewrite foldl_app. by apply exec_step_caused.
Qed.

(** *** The moment of the outcome *)

Lemma after_wait_frame x : x_spillError (after_wait x) = x_spillError x.
Proof. unfold after_wait. destruct (x_phase x); try done. by destruct (wt_outcome (x_wait x)). Qed.

Lemma child_event_spillError ev x : x_spillError (child_event ev x) = x_spillError x.
Proof. unfold child_event. by rewrite after_wait_frame. Qed.

Lemma child_event_settled ev x r : x_phase x = Settled r -> x_phase (child_event ev x) = Settled r.
Proof. intros H. unfold child_event, after_wait. cbn. rewrite H. cbn. exact H. Qed.

Lemma child_event_ok_outcome ev x v : settled x = false -> x_phase (child_event ev x) ≠ Settled (Ok v).
Proof.
  intros Hs. unfold child_event, after_wait, settled in *. cbn. destruct (x_phase x) eqn:Ep; cbn; rewrite ?Ep; try done.
  destruct (wt_outcome _); cbn; congruence.
Qed.

Lemma feed_spillError now ch x : x_spillError (feed lim spill onUpdate write_accepts now ch x) = x_spillError x.
Proof.
  unfold feed. destruct (push _ _ _ _) as [c us]. destruct (raised onUpdate us) as [m|].
  { by destruct (failCallback_frame m (set_capture c us x)) as (_ & _ & ->). }
  destruct ch as [|b ch]; [done|]. destruct (negb spill); [done|].
  destruct (_ || _); [by destruct (startSpill_frame write_accepts (b :: ch) (set_capture c us x)) as (_ & _ & _ & ->)|].
  destruct (capture_truncated lim c); [|done]. cbv zeta.
  match goal with |- context [startSpill _ _ ?z] =>
    destruct (startSpill_frame write_accepts (b :: ch) z) as (_ & _ & _ & ->) end. cbn.
  by destruct (foldl_startSpill_frame write_accepts (set_capture c us x) (x_spillPrefix x)) as (_ & _ & _ & ->).
Qed.

Lemma complete_spillError now code signal x :
  x_spillError (complete lim onUpdate signals timeout_string now code signal x) = x_spillError x.
Proof. by destruct (complete_state now code signal x) as (y & -> & _ & H & _). Qed.

Lemma complete_ok_outcome now code signal x v :
  x_phase (complete lim onUpdate signals timeout_string now code signal x) = Settled (Ok v) -> x_spillError x = None.
Proof.
  destruct (complete_state now code signal x) as (y & -> & _ & <- & _). cbn.
  destruct (x_callbackError y); [done|]. destruct (x_timedOut y); [done|]. destruct (x_aborted y); [done|].
  by destruct (x_spillError y).
Qed.

Lemma failSpill_some m x : x_spillError (failSpill m x) ≠ None.
Proof. unfold failSpill. destruct (x_spillError x) eqn:E; cbn; congruence. Qed.

Lemma failCallback_phase m x : x_phase (failCallback m x) = x_phase x.
Proof. by destruct (failCallback_frame m x). Qed.

Lemma step_keeps_spillError x ev : x_spillError x ≠ None -> x_spillError (step x ev) ≠ None.
Proof.
  intros H. destruct ev as [now e]. destruct e; cbn [exec_step]; rewrite ?child_event_spillError; try done.
  - destruct (wt_settled (x_wait x)); [done|]. by rewrite child_event_spillError, feed_spillError.
  - by destruct (settled x).
  - by destruct (_ || _).
  - destruct (capture_timer lim now (x_capture x)) as [c us]. destruct (raised onUpdate us) as [m|]; [|done].
    by destruct (failCallback_frame m (set_capture c us x)) as (_ & _ & ->).
  - destruct (x_spillStart x); [done| |done]. cbn [x_capture set_path].
    destruct (setSpillPath lim now path (x_capture x)) as [c us].
    destruct (raised onUpdate us); [apply failSpill_some|]. cbn.
    match goal with |- context [foldl _ ?z ?qs] =>
      destruct (foldl_writeSpill_frame write_accepts z qs) as (_ & _ & _ & _ & _ & _ & ->) end. done.
  - destruct (x_spillStart x); [done|apply failSpill_some|done].
  - destruct (x_stream x); [|done]. destruct (x_phase (failSpill message x)); try apply failSpill_some.
    rewrite complete_spillError. apply failSpill_some.
  - destruct (x_phase x); try done. by rewrite complete_spillError.
  - destruct (x_phase x); try done. destruct (x_spillStart x); [|done|];
      destruct (x_stream x), (x_spillError x) eqn:Es; by rewrite ?complete_spillError, ?Es.
Qed.

Lemma step_settled x ev r : x_phase x = Settled r -> x_phase (step x ev) = Settled r.
Proof.
  intros H. destruct ev as [now e]. destruct e; cbn [exec_step]; try (by apply child_event_settled).
  - destruct (wt_settled (x_wait x)); [done|]. apply child_event_settled.
    by destruct (feed_frame lim spill onUpdate write_accepts now bytes x) as [-> _].
  - by destruct (settled x).
  - by destruct (_ || _).
  - destruct (capture_timer lim now (x_capture x)) as [c us]. destruct (raised onUpdate us) as [m|]; [|done].
    by rewrite failCallback_phase.
  - destruct (x_spillStart x); [done| |done]. cbn [x_capture set_path].
    destruct (setSpillPath lim now path (x_capture x)) as [c us]. destruct (raised onUpdate us) as [m|].
    + match goal with |- context [failSpill m ?z] => by destruct (failSpill_frame m z) as (-> & _) end.
    + cbn. match goal with |- context [foldl _ ?z ?qs] =>
        by destruct (foldl_writeSpill_frame write_accepts z qs) as (-> & _) end.
  - destruct (x_spillStart x); [done| |done].
    match goal with |- context [failSpill message ?z] => by destruct (failSpill_frame message z) as (-> & _) end.
  - destruct (x_stream x); [|done]. destruct (failSpill_frame message x) as (F & _). by rewrite F, H, F.
  - done.
  - by rewrite H, H.
  - by rewrite H, H.
Qed.

(** A value is only reported while no failure to keep the output is known. *)
Lemma step_ok_outcome x ev v :
  settled x = false -> x_phase (step x ev) = Settled (Ok v) -> x_spillError (step x ev) = None.
Proof.
  intros Hs. assert (Hx : x_phase x ≠ Settled (Ok v)) by (unfold settled in Hs; by destruct (x_phase x)).
  destruct ev as [now e]. destruct e; cbn [exec_step]; intros Hp;
    try (by destruct (child_event_ok_outcome _ x v Hs Hp)); try done.
  - destruct (wt_settled (x_wait x)); [done|]. exfalso. revert Hp. apply child_event_ok_outcome.
    unfold settled. by destruct (feed_frame lim spill onUpdate write_accepts now bytes x) as [-> _].
  - by rewrite Hs in Hp.
  - by destruct (_ || _).
  - exfalso. destruct (capture_timer lim now (x_capture x)) as [c us]. destruct (raised onUpdate us) as [m|]; [|done].
    by rewrite failCallback_phase in Hp.
  - exfalso. destruct (x_spillStart x); [done| |done]. cbn [x_capture set_path] in Hp.
    destruct (setSpillPath lim now path (x_capture x)) as [c us]. destruct (raised onUpdate us) as [m|].
    + match type of Hp with context [failSpill m ?z] => destruct (failSpill_frame m z) as (F & _) end.
      by rewrite F in Hp.
    + cbn in Hp. match type of Hp with context [foldl _ ?z ?qs] =>
        destruct (foldl_writeSpill_frame write_accepts z qs) as (F & _) end. by rewrite F in Hp.
  - exfalso. destruct (x_spillStart x); [done| |done].
    match type of Hp with context [failSpill message ?z] => destruct (failSpill_frame message z) as (F & _) end.
    by rewrite F in Hp.
  - destruct (x_stream x); [|done]. destruct (failSpill_frame message x) as (F & _).
    destruct (x_phase (failSpill message x)) eqn:Ep; try congruence.
    apply complete_ok_outcome in Hp. by destruct (failSpill_some message x).
  - destruct (x_phase x) eqn:Ep; try congruence. rewrite complete_spillError. by eapply complete_ok_outcome.
  - destruct (x_phase x) eqn:Ep; try congruence. destruct (x_spillStart x); [|congruence|];
      destruct (x_stream x), (x_spillError x) eqn:Es; try done; rewrite complete_spillError;
      by eapply complete_ok_outcome.
Qed.

Abbreviation run := (exec_run lim spill onUpdate write_accepts signals timeout_string).

Lemma run_snoc evs ev : run (evs ++ [ev]) = step (run evs) ev.
Proof. unfold exec_run. by rewrite foldl_app. Qed.

Lemma run_keeps_spillError evs more : x_spillError (run evs) ≠ None -> x_spillError (run (evs ++ more)) ≠ None.
Proof.
  intros H. induction more as [|ev more IH] using rev_ind; [by rewrite app_nil_r|].
  rewrite app_assoc, run_snoc. by apply step_keeps_spillError.
Qed.

(** The events up to the outcome. *)
Lemma outcome_moment evs v :
  x_phase (run evs) = Settled (Ok v) ->
  exists before after, evs = before ++ after /\ x_phase (run before) = Settled (Ok v) /\
    x_spillError (run before) = None.
Proof.
  induction evs as [|ev evs IH] using rev_ind; [done|]. intros H.
  destruct (settled (run evs)) eqn:Es.
  - unfold settled in Es. destruct (x_phase (run evs)) as [| | |r] eqn:Ep; try done.
    rewrite run_snoc, (step_settled _ _ r Ep) in H. rewrite H in IH.
    destruct (IH eq_refl) as (b & a & -> & Hb). exists b, (a ++ [ev]). by rewrite app_assoc.
  - exists (evs ++ [ev]), []. rewrite app_nil_r. split; [done|]. split; [done|].
    rewrite run_snoc in *. by eapply step_ok_outcome.
Qed.

(** No failure to keep the output came before it. *)
Lemma no_spill_failure before :
  x_spillError (run before) = None ->
  forall p t e q, before = p ++ (t, e) :: q ->
    match e with
    | StreamError _ => x_stream (run p) = None
    | SpillFailed _ => x_spillStart (run p) ≠ SpillPending
    | _ => True
    end.
Proof.
  intros H p t e q ->. assert (Hs : x_spillError (step (run p) (t, e)) = None).
  { destruct (x_spillError (step (run p) (t, e))) eqn:E; [|done]. exfalso.
    apply (run_keeps_spillError (p ++ [(t, e)]) q); [by rewrite run_snoc, E|]. by rewrite <- app_assoc. }
  destruct e; try done; cbn [exec_step] in Hs.
  - intros E. rewrite E in Hs. by apply failSpill_some in Hs.
  - destruct (x_stream (run p)); [|done]. exfalso. revert Hs.
    destruct (x_phase (failSpill message (run p))); rewrite ?complete_spillError; apply failSpill_some.
Qed.
End ExecCauses.

(** The text a caller has after applying the updates: [view?.text ?? ""]. *)
Definition view_text (us : list output_update) : jstr :=
  match view_of us with Some s => s_text s | None => [] end.

(** What a finished run shows: the text is the tail of the output and the
    counters are those of the output. *)
Lemma result_shows lim f v us ops now :
  l_retain lim = RetainTail -> 8 <= l_maxBytes lim ->
  Forall output_op ops -> bytes_of ops = concat f ->
  let st := capture_run lim (ops ++ [(now, OFinish); (now, OFlush)]) in
  us = st.2 -> ev_info v = s_info (take_snapshot lim st.1) -> c_disposed st.1 = false ->
  let output := td_decode (concat f) in
  let t := Harness.truncateTail true output (Some (l_maxLines lim)) (Some (l_maxBytes lim)) in
  let m := i_truncation (ev_info v) in
  view_text us = sanitizeShellOutput (content t) /\ md_truncated m = truncated t /\
  md_totalLines m = Z.of_nat (length (Harness.splitLinesForCounting output)) /\
  md_totalBytes m = Buffer_byteLength output /\
  md_outputLines m = outputLines t /\ md_outputBytes m = outputBytes t /\
  md_lastLinePartial m = lastLinePartial t.
Proof.
  intros Hr Hmax HF Hb st -> Hv Hd.
  assert (Happ : ops ++ [(now, OFinish); (now, OFlush)] = (ops ++ [(now, OFinish)]) ++ [(now, OFlush)])
    by (by rewrite <- app_assoc).
  assert (Hinv : capture_inv lim (strip_bom false (decode_cps (concat f))).1 st.1).
  { subst st. rewrite <- Hb. unfold capture_run, capture_run_from. rewrite foldl_app. cbn [foldl].
    pose proof (capture_run_streaming lim Hr Hmax [] (empty_capture, []) ops HF (empty_streaming lim)) as Hs.
    unfold capture_run_from in Hs.
    pose proof (finish_text lim Hr Hmax now _ _ Hs) as Hfin. cbn [capture_step].
    destruct (finish lim now _) as [c1 u1]. cbn [fst snd] in *. unfold flush_capture.
    destruct (c_disposed c1); [done|].
    pose proof (publish_text lim (pub_flush true now) _ _ Hfin) as Hp.
    by destruct (publish lim (pub_flush true now) c1). }
  pose proof (snapshot_tail lim _ _ Hr Hmax Hinv) as Hsnap. cbv zeta in *. rewrite Hv. unfold td_decode.
  destruct Hsnap as [Htext Hsnap]. split; [|exact Hsnap].
  subst st. rewrite Happ in *. unfold view_text.
  destruct (flush_shows lim (ops ++ [(now, OFinish)]) now Hd) as [[-> H0]| ->]; [|done].
  rewrite <- Htext. destruct Hinv as [Hsc (b & Hbuf & Hbb & [q Hq] & _) Htot _ _ _]. rewrite H0 in Htot.
  unfold take_snapshot, retained. cbn. rewrite Hr, Hbuf.
  assert (b = []) as ->; [|unfold Harness.truncateTail; by destruct (_ && _)].
  destruct b as [|y b]; [done|]. rewrite Hq, sum_sizes_app in Htot. cbn [sum_sizes] in Htot.
  pose proof (sum_sizes_nonneg q). pose proof (sum_sizes_nonneg b). pose proof (cp_size_pos y). lia.
Qed.


Definition quiet (_ : output_update) : option jstr := None.
Definition always_accepts (_ : list (list Z)) (_ : list Z) : bool := true.

Definition spill_events : list (Z * exec_event) :=
  [(0, Data (js "first line" ++ [LF])); (1, Data (js "second line")); (2, SpillCreated (js "/tmp/out"));
   (3, Data (js "!")); (4, StdoutEnd); (5, StderrEnd); (6, Exit (Some 0) None); (7, Continue);
   (8, StreamFinish)].

Definition spill_value : exec_value :=
  ExecValue 0 (OutputInfo (Metadata true (Some ByBytes) 2 23 1 8 true false 5 8) (Some (js "/tmp/out")) (Some 12)).


(** What a value rests on. *)
Lemma ok_outcome_caused lim spill onUpdate accepts signals tmo evs v :
  let run := exec_run lim spill onUpdate accepts signals tmo in
  x_phase (run evs) = Settled (Ok v) ->
  exists before after code signal, evs = before ++ after /\ x_phase (run before) = Settled (Ok v) /\
    child_ended before code signal /\
    (forall n, code = Some n -> ev_exitCode v = n) /\
    (forall s, code = None -> signal = Some s -> s ≠ [] -> ev_exitCode v = 128 + nullish (signals s) 0) /\
    (code = None -> nullish signal [] = [] -> ev_exitCode v = 1) /\
    (forall p t e q, before = p ++ (t, e) :: q ->
       match e with
       | StreamError _ => x_stream (run p) = None
       | SpillFailed _ => x_spillStart (run p) ≠ SpillPending
       | _ => True
       end).
Proof.
  intros run Hph. destruct (outcome_moment lim spill onUpdate accepts signals tmo evs v Hph) as (b & a & -> & Hb & Hs).
  destruct (exec_run_caused lim spill onUpdate accepts signals tmo b) as [[_ _ Co] _ _ _ _ Cp].
  unfold phase_caused in Cp. rewrite Hb in Cp. destruct Cp as (code & signal & Ho & Hv). rewrite Ho in Co.
  exists b, a, code, signal. split; [done|]. split; [done|]. split; [done|]. rewrite Hv. unfold exit_code.
  split; [by intros n ->|]. split; [by intros [|] -> -> ?|].
  split; [intros -> Hn; destruct signal as [[|]|]; done|]. by apply no_spill_failure.
Qed.



Lemma complete_settled lim onUpdate signals tmo now code sig x :
  exists r, x_phase (complete lim onUpdate signals tmo now code sig x) = Settled r.
Proof. unfold complete. destruct (finish lim now (x_capture x)). eexists. reflexivity. Qed.



(** * Limits of what is reported *)

(** A character left unfinished is only counted when the stream ends, after the
    last chunk: output that exceeds the limit by it alone is reported as
    truncated although no file keeps it. *)
Lemma truncated_without_file :
  exists v, x_phase (exec_run (Limits 8 5 RetainTail) true quiet always_accepts (fun _ => None) []
      [(0, Data (js "1234567" ++ [226])); (1, Close (Some 0) None); (2, Continue)]) = Settled (Ok v) /\
    md_truncated (i_truncation (ev_info v)) = true /\ i_spillPath (ev_info v) = None.
Proof. eexists. split; [vm_compute; reflexivity|]. split; reflexivity. Qed.

(** The size reported for a partial last line is that of the text after the
    last line feed: zero when the long line is terminated. *)
Lemma last_line_size_lost :
  exists v, x_phase (exec_run (Limits 8 5 RetainTail) false quiet always_accepts (fun _ => None) []
      [(0, Data (js "a line of 19 bytes." ++ [LF])); (1, Close (Some 0) None); (2, Continue)]) = Settled (Ok v) /\
    md_lastLinePartial (i_truncation (ev_info v)) = true /\ i_lastLineBytes (ev_info v) = Some 0.
Proof. eexists. split; [vm_compute; reflexivity|]. split; reflexivity. Qed.
