(* ===== verification/BashTool.v ===== *)
(** The bash tool of the bridge: [createBashTool] of
    pi [packages/agent/dist/harness/tools/bash.js], the start of
    [NodeExecutionEnv.exec] (timeouts, the shell, its environment) and what the
    bridge configures (src/drivers/tools/pibridge/bridge.ts,
    [configuredHarnessTool]). *)
From S2P Require Import Prelude Utf8 Numbers Json AdaptivePublisher Truncate OutputCapture ShellExec.
Open Scope Z_scope.

(** * Starting a command *)

Definition MAX_TIMEOUT_MS : jsnum := num_of 2147483647.
Definition MAX_TIMEOUT_SECONDS : jsnum := num_op fdiv MAX_TIMEOUT_MS (num_of 1000).
(** How the limit prints. *)
Definition MAX_TIMEOUT_TEXT : jstr := js "2147483.647".

Definition invalid_timeout : jstr := js "Invalid timeout: must be a finite number of seconds".
Definition timeout_too_long : jstr := js "Invalid timeout: maximum is " ++ MAX_TIMEOUT_TEXT ++ js " seconds".

(** [validateTimeout] of the tool. *)
Definition validateTimeout (timeout : option jsnum) : result jstr unit :=
  match timeout with
  | None => Ok tt
  | Some t =>
      if negb (isFinite t) || num_ge (num_of 0) t then Throw invalid_timeout
      else if num_gt t MAX_TIMEOUT_SECONDS then Throw timeout_too_long
      else Ok tt
  end.

(** [resolveTimeoutMs] of the environment. *)
Definition resolveTimeoutMs (timeout : option jsnum) : result exec_error (option jsnum) :=
  match timeout with
  | None => Ok None
  | Some t =>
      if negb (isFinite t) || num_ge (num_of 0) t then Throw (ExecutionError TimedOut invalid_timeout)
      else
        let timeoutMs := num_op fmul t (num_of 1000) in
        if num_gt timeoutMs MAX_TIMEOUT_MS then Throw (ExecutionError TimedOut timeout_too_long)
        else Ok (Some timeoutMs)
  end.

Definition environment : Type := list (jstr * jstr).

(** [{ ...a, ...b }] on environments: a name keeps its first place and takes
    its last value. *)
Fixpoint env_set (name value : jstr) (e : environment) : environment :=
  match e with
  | [] => [(name, value)]
  | (n, v) :: r => if streq n name then (n, value) :: r else (n, v) :: env_set name value r
  end.

Definition env_merge (a b : environment) : environment :=
  foldl (fun e kv => env_set kv.1 kv.2 e) a b.

Definition getShellEnv (processEnv : environment) (baseEnv extraEnv : option environment)
    (inheritEnv : option bool) : environment :=
  if nullish inheritEnv true
  then env_merge (env_merge processEnv (nullish baseEnv [])) (nullish extraEnv [])
  else nullish extraEnv [].

Record shell_config := ShellConfig { sc_shell : jstr; sc_args : list jstr; sc_stdin : bool }.

Section Start.
(** The platform, case mapping, the file system and the answer of
    [which bash] or [where bash.exe]. *)
Context (win32 : bool) (toLowerCase : jstr -> jstr) (pathExists : jstr -> bool)
  (which_stdout : jstr) (which_status : option Z) (processEnv : environment).

Definition process_env (name : jstr) : option jstr := snd <$> List.find (fun kv => streq kv.1 name) processEnv.

Definition isLegacyWslBashPath (path : jstr) : bool :=
  match toLowerCase (replace_unit 47 [92] path) with
  | drive :: rest =>
      (97 <=? drive) && (drive <=? 122) &&
      (streq rest (js ":\windows\system32\bash.exe") || streq rest (js ":\windows\sysnative\bash.exe"))
  | [] => false
  end.

Definition getBashShellConfig (shell : jstr) : shell_config :=
  if isLegacyWslBashPath shell then ShellConfig shell [js "-s"] true else ShellConfig shell [js "-c"] false.

(** The first line of what [which] printed: [trim().split(/\r?\n/)[0]]. *)
Definition first_line (s : jstr) : jstr :=
  let l := match split_char LF (trim s) with l :: _ => l | [] => [] end in
  if (length l <? length (trim s))%nat && ends_with [CR] l then removelast l else l.

Definition findBashOnPath : option jstr :=
  if negb (bool_decide (which_status = Some 0)) || negb (truthy which_stdout) then None
  else
    let firstMatch := first_line which_stdout in
    if truthy firstMatch && pathExists firstMatch then Some firstMatch else None.

Definition win_candidates : list jstr :=
  match process_env (js "ProgramFiles") with
  | Some p => if truthy p then [p ++ js "\Git\bin\bash.exe"] else []
  | None => [] end ++
  match process_env (js "ProgramFiles(x86)") with
  | Some p => if truthy p then [p ++ js "\Git\bin\bash.exe"] else []
  | None => [] end.

Definition no_bash_message : jstr :=
  js "No bash shell found. Options:" ++ [LF] ++
  js "  1. Install Git for Windows: https://git-scm.com/download/win" ++ [LF] ++
  js "  2. Add your bash to PATH (Cygwin, MSYS2, etc.)" ++ [LF] ++
  js "  3. Configure an explicit shellPath" ++ [LF; LF] ++
  js "Searched Git Bash in:" ++ [LF] ++ join [LF] (map (fun p => js "  " ++ p) win_candidates).

Definition getShellConfig (customShellPath : option jstr) : result exec_error shell_config :=
  let custom := nullish customShellPath [] in
  if truthy custom then
    if pathExists custom then Ok (getBashShellConfig custom)
    else Throw (ExecutionError ShellUnavailable (js "Custom shell path not found: " ++ custom))
  else if win32 then
    match List.find pathExists win_candidates with
    | Some candidate => Ok (getBashShellConfig candidate)
    | None =>
        match findBashOnPath with
        | Some b => Ok (getBashShellConfig b)
        | None => Throw (ExecutionError ShellUnavailable no_bash_message)
        end
    end
  else if pathExists (js "/bin/bash") then Ok (getBashShellConfig (js "/bin/bash"))
  else match findBashOnPath with
       | Some b => Ok (getBashShellConfig b)
       | None => Ok (ShellConfig (js "sh") [js "-c"] false)
       end.

(** What [spawn] is called with. *)
Record spawn_call := SpawnCall {
  sp_shell : jstr; sp_args : list jstr; sp_stdin : option jstr; sp_cwd : jstr; sp_env : environment;
  sp_timeoutMs : option jsnum }.

(** [exec] until the child runs; [cwd] is the resolved working directory. *)
Definition exec_start (aborted : bool) (shellPath : option jstr) (shellEnv : option environment)
    (command cwd : jstr) (extraEnv : option environment) (inheritEnv : option bool)
    (timeout : option jsnum) : result exec_error spawn_call :=
  if aborted then Throw (ExecutionError Aborted (js "aborted"))
  else
    let! timeoutMs := resolveTimeoutMs timeout in
    let! config := getShellConfig shellPath in
    if negb (pathExists cwd) then
      Throw (ExecutionError SpawnError
        (js "Working directory does not exist: " ++ cwd ++ [LF] ++ js "Cannot execute bash commands."))
    else
      Ok (SpawnCall (sc_shell config)
            (if sc_stdin config then sc_args config else sc_args config ++ [command])
            (if sc_stdin config then Some command else None)
            cwd (getShellEnv processEnv shellEnv extraEnv inheritEnv) timeoutMs).
End Start.

(** * The tool *)

(** What [execute] hands to [env.exec]; [prepare] of the bridge replaces the
    environment of the command by the branch's and inherits nothing. *)
Record execution := Execution {
  e_command : jstr; e_cwd : jstr; e_env : environment; e_inheritEnv : bool }.

Definition initial_execution (commandPrefix : option jstr) (command cwd : jstr) : execution :=
  Execution
    (match commandPrefix with
     | Some p => if truthy p then p ++ [LF] ++ command else command
     | None => command end) cwd [] true.

(** [prepare] of [configuredHarnessTool]. *)
Definition bridge_prepare (shellEnv : environment) (e : execution) : execution :=
  Execution (e_command e) (e_cwd e) shellEnv false.

Record details := Details { d_truncation : option metadata; d_fullOutputPath : option jstr }.

(** A progress report: the content's text, or none for the first one. *)
Record progress := Progress { pr_text : option jstr; pr_details : option details; pr_checkpoint : bool }.

Definition BASH_CHECKPOINT_INTERVAL_MS : Z := 2000.

(** The closure state of [execute]'s [onUpdate]. *)
Record bash_view := BashView {
  bv_view : option snapshot; bv_lastCheckpointAt : Z; bv_lastCheckpoint : option jstr;
  bv_accepting : bool }.

Definition opt_string (o : option jstr) : jstr := match o with Some s => s | None => js "undefined" end.

Section Tool.
(** [JSON.stringify] of a progress report, compared for equality only. *)
Context (encode : jstr -> details -> jstr).

Definition bash_onUpdate (now : Z) (u : output_update) (b : bash_view) : bash_view * list progress :=
  if negb (bv_accepting b) then (b, [])
  else
    let view := applyShellOutputUpdate (bv_view b) u in
    let m := i_truncation (s_info view) in
    let d := Details (if md_truncated m then Some m else None) (i_spillPath (s_info view)) in
    let encoded := encode (s_text view) d in
    let checkpoint := (BASH_CHECKPOINT_INTERVAL_MS <=? now - bv_lastCheckpointAt b) &&
                      negb (bool_decide (Some encoded = bv_lastCheckpoint b)) in
    (if checkpoint then BashView (Some view) now (Some encoded) true
     else BashView (Some view) (bv_lastCheckpointAt b) (bv_lastCheckpoint b) true,
     [Progress (Some (s_text view)) (Some d) checkpoint]).
End Tool.

(** The note under truncated output. *)
Definition truncation_note (m : metadata) (lastLineBytes : option Z) (spillPath : option jstr) : jstr :=
  let startLine := md_totalLines m - md_outputLines m + 1 in
  let endLine := md_totalLines m in
  [LF; LF] ++
  if md_lastLinePartial m then
    js "[Showing last " ++ Harness.formatSize (md_outputBytes m) ++ js " of line " ++ num_str endLine ++
    js " (line is " ++ Harness.formatSize (nullish lastLineBytes (md_outputBytes m)) ++
    js "). Full output: " ++ opt_string spillPath ++ js "]"
  else if bool_decide (md_truncatedBy m = Some ByLines) then
    js "[Showing lines " ++ num_str startLine ++ js "-" ++ num_str endLine ++ js " of " ++
    num_str (md_totalLines m) ++ js ". Full output: " ++ opt_string spillPath ++ js "]"
  else
    js "[Showing lines " ++ num_str startLine ++ js "-" ++ num_str endLine ++ js " of " ++
    num_str (md_totalLines m) ++ js " (" ++ Harness.formatSize DEFAULT_MAX_BYTES ++
    js " limit). Full output: " ++ opt_string spillPath ++ js "]".

Record bash_answer := BashAnswer { ba_text : jstr; ba_details : option details }.

(** The end of [execute]: from the caller's view of the output and the outcome
    of [env.exec] to the answer or the message of the error thrown. *)
Definition bash_finish (timeout_string : jstr) (view : option snapshot) (r : exec_result)
  : result jstr bash_answer :=
  let text := match view with Some s => s_text s | None => [] end in
  let capture :=
    match r with
    | Ok v => Some (ev_info v)
    | Throw _ => s_info <$> view
    end in
  let '(outputText, dets) :=
    match capture with
    | Some i =>
        if md_truncated (i_truncation i)
        then (text ++ truncation_note (i_truncation i) (i_lastLineBytes i) (i_spillPath i),
              Some (Details (Some (i_truncation i)) (i_spillPath i)))
        else (text, None)
    | None => (text, None)
    end in
  match r with
  | Throw e =>
      let status :=
        match ee_code e with
        | TimedOut => js "Command timed out after " ++ timeout_string ++ js " seconds"
        | Aborted => js "Command aborted"
        | _ => ee_message e
        end in
      Throw (if truthy outputText then outputText ++ [LF; LF] ++ status else status)
  | Ok v =>
      if ev_exitCode v =? 0
      then Ok (BashAnswer (if truthy outputText then outputText else js "(no output)") dets)
      else Throw ((if truthy outputText then outputText ++ [LF; LF] else []) ++
                  js "Command exited with code " ++ num_str (ev_exitCode v))
  end.

(** The limits the tool asks for. *)
Definition bash_limits : limits := Limits DEFAULT_MAX_BYTES DEFAULT_MAX_LINES RetainTail.

(** * Theorems *)

(** What the tool accepts as a timeout the environment accepts too: no valid
    command is refused under the name of a timeout. *)
Lemma timeout_checks_agree t :
  validateTimeout t = Ok tt -> exists ms, resolveTimeoutMs t = Ok ms.
Proof.
  destruct t as [t|]; [|by exists None]. unfold validateTimeout, resolveTimeoutMs.
  destruct (negb (isFinite t) || num_ge (num_of 0) t) eqn:E1; [done|].
  destruct (num_gt t MAX_TIMEOUT_SECONDS) eqn:E2; [done|]. intros _.
  apply orb_false_iff in E1 as [Hf Hg]. destruct t as [| |q]; try done. clear Hf.
  assert (Hq : (0 < q)%Q).
  { apply Qnot_le_lt. intros H. apply Qle_bool_iff in H.
    change (Qle_bool q 0 = false) in Hg. congruence. }
  assert (HM : MAX_TIMEOUT_SECONDS = Finite (144115188008747 # 67108864)) by (vm_compute; reflexivity).
  rewrite HM in E2. unfold num_gt in E2. apply negb_false_iff, Qle_bool_iff in E2.
  assert (Hle : (q * inject_Z 1000 <= inject_Z 2147483647)%Q).
  { apply Qle_trans with ((144115188008747 # 67108864) * inject_Z 1000)%Q.
    - apply Qmult_le_compat_r; [done|]. discriminate.
    - discriminate. }
  assert (Hpos : (0 < q * inject_Z 1000)%Q).
  { apply Qmult_lt_0_compat; [done|]. reflexivity. }
  pose proof (fl_le (q * inject_Z 1000) 2147483647 Hpos Hle ltac:(lia)) as Hfl.
  change (num_op fmul (Finite q) (num_of 1000)) with (fl (q * inject_Z 1000)).
  change MAX_TIMEOUT_MS with (Finite (inject_Z 2147483647)). rewrite Hfl. eauto.
Qed.

(** The view of the tool is the consumer's view of the updates. *)
Lemma bash_view_follows encode us b :
  bv_accepting b = true ->
  bv_view (foldl (fun b u => (bash_onUpdate encode u.1 u.2 b).1) b us) =
  foldl (fun v u => Some (apply_update v u)) (bv_view b) (snd <$> us).
Proof.
  revert b; induction us as [|[now u] us IH]; intros b Hb; [done|]. cbn [foldl fmap list_fmap fst snd].
  unfold bash_onUpdate at 2. rewrite Hb. cbn [negb fst].
  destruct ((_ <=? _) && _); rewrite IH by done; done.
Qed.

(** the timeout check of the tool and that of the environment agree although
    one compares seconds and the other milliseconds in floating point: every
    timeout the tool lets through is accepted by the environment. *)
Theorem validated_timeout_accepted t :
  validateTimeout t = Ok tt -> exists ms, resolveTimeoutMs t = Ok ms.
Proof. apply timeout_checks_agree. Qed.

Lemma validated_timeout_accepted_witness :
  exists ms, resolveTimeoutMs (Some MAX_TIMEOUT_SECONDS) = Ok ms.
Proof. apply validated_timeout_accepted. vm_compute. reflexivity. Defined.

(** what the bash tool answers when its command has exited: success exactly
    for exit code 0, with the sanitized tail of the complete output as its text
    and a note exactly when the output was truncated; any other exit code is an
    error whose message is that text followed by the code. *)
Theorem bash_answer_faithful encode (updates : list (Z * output_update)) onUpdate accepts signals tmo evs v :
  Forall byte_event evs ->
  let x := exec_run bash_limits true onUpdate accepts signals tmo evs in
  x_phase x = Settled (Ok v) -> snd <$> updates = x_updates x ->
  let bytes := concat (fed bash_limits true onUpdate accepts signals tmo exec_init evs) in
  let t := Harness.truncateTail true (td_decode bytes) (Some DEFAULT_MAX_LINES) (Some DEFAULT_MAX_BYTES) in
  let i := ev_info v in
  let shown := sanitizeShellOutput (content t) in
  let text := if truncated t then shown ++ truncation_note (i_truncation i) (i_lastLineBytes i) (i_spillPath i)
              else shown in
  let view := bv_view (foldl (fun b u => (bash_onUpdate encode u.1 u.2 b).1) (BashView None 0 None true) updates) in
  bash_finish tmo view (Ok v) =
    if ev_exitCode v =? 0 then
      Ok (BashAnswer (if truthy text then text else js "(no output)")
            (if truncated t then Some (Details (Some (i_truncation i)) (i_spillPath i)) else None))
    else Throw ((if truthy text then text ++ [LF; LF] else []) ++
                js "Command exited with code " ++ num_str (ev_exitCode v)).
Proof.
  intros HF x Hph Hus. cbv zeta. rewrite bash_view_follows, Hus by done.
  destruct (exec_run_reachable bash_limits true onUpdate accepts signals tmo eq_refl ltac:(vm_compute; discriminate)
    ltac:(vm_compute; discriminate) evs HF) as [Hok]. fold x in Hok. rewrite Hph in Hok.
  destruct Hok as (_ & _ & ops & now & HFo & Hb & Hu & Hv & Hd & _).
  destruct (result_shows bash_limits (fed bash_limits true onUpdate accepts signals tmo exec_init evs) v
    (x_updates x) ops now eq_refl ltac:(vm_compute; discriminate) HFo Hb Hu Hv Hd) as (H1 & H2 & _).
  unfold bash_finish, view_text, view_of in *. cbn [bv_view l_maxLines l_maxBytes bash_limits] in *. rewrite H1, H2.
  destruct (truncated _); done.
Qed.

Lemma bash_answer_faithful_witness :
  let evs := [(0, Data (js "hi" ++ [LF])); (5, Close (Some 3) None); (6, Continue)] in
  let v := ExecValue 3 (OutputInfo (Metadata false None 1 3 1 3 false false 2000 51200) None None) in
  let x := exec_run bash_limits true quiet always_accepts (fun _ => None) [] evs in
  bash_finish [] (bv_view (foldl (fun b u => (bash_onUpdate (fun t _ => t) u.1 u.2 b).1) (BashView None 0 None true)
      (map (pair 7) (x_updates x)))) (Ok v) =
    Throw (js "hi" ++ [LF; LF; LF] ++ js "Command exited with code 3").
Proof.
  intros evs v x.
  assert (Hbytes : Forall byte_event evs) by (vm_compute; repeat (constructor || (intro; discriminate))).
  assert (Hph : x_phase x = Settled (Ok v)) by (vm_compute; reflexivity).
  assert (Hus : snd <$> map (pair 7) (x_updates x) = x_updates x) by (vm_compute; reflexivity).
  etransitivity; [exact (bash_answer_faithful (fun t _ => t) (map (pair 7) (x_updates x)) quiet always_accepts
    (fun _ => None) [] evs v Hbytes Hph Hus)|]. vm_compute. reflexivity.
Defined.

(** the environment of a workspace command is the branch's: whatever the
    environment of the bridge process and of the shell configuration, the
    child the bridge starts gets exactly the variables of the request, and the
    command unchanged. *)
Theorem bash_environment_exact win32 lower exists_ out status processEnv aborted shellPath baseEnv
    shellEnv command cwd timeout call :
  let e := bridge_prepare shellEnv (initial_execution None command cwd) in
  exec_start win32 lower exists_ out status processEnv aborted shellPath baseEnv (e_command e) (e_cwd e)
    (Some (e_env e)) (Some (e_inheritEnv e)) timeout = Ok call ->
  sp_env call = shellEnv /\ sp_cwd call = cwd /\ exists_ cwd = true /\
  (exists pre, sp_args call = pre ++ [command] /\ sp_stdin call = None \/
               sp_args call = pre /\ sp_stdin call = Some command).
Proof.
  cbn. unfold exec_start. destruct aborted; [done|]. destruct (resolveTimeoutMs timeout) as [ms|]; [|done].
  destruct (getShellConfig _ _ _ _ _ _ _) as [cfg|]; cbn; [|done].
  destruct (exists_ cwd); cbn; [|done]. intros [= <-]. cbn. split; [done|]. split; [done|]. split; [done|].
  exists (sc_args cfg). destruct (sc_stdin cfg); auto.
Qed.

Lemma bash_environment_exact_witness :
  exists call,
    exec_start false (fun s => s) (fun _ => true) [] None [(js "SECRET", js "1")] false None
      (Some [(js "HOME", js "/root")]) (js "env") (js "/work") (Some [(js "A", js "b")]) (Some false) None = Ok call /\
    sp_env call = [(js "A", js "b")].
Proof.
  eexists. split; [reflexivity|].
  eapply (bash_environment_exact false (fun s => s) (fun _ => true) [] None [(js "SECRET", js "1")] false None
    (Some [(js "HOME", js "/root")]) [(js "A", js "b")] (js "env") (js "/work") None). reflexivity.
Defined.
