(* ===== verification/ShellTool.v ===== *)
(** The shell tool of the coding agent, which the bridge offers as [powershell]
    (packages/coding-agent/src/core/tools/bash.ts and powershell.ts, utils/shell.ts
    and utils/child-process.ts, as bundled in src/drivers/tools/pibridge/bridge.mjs):
    waiting for the process, the environment and the command line, and the
    collection and the report of its output, as a state machine over the events of
    the process, the timers, the abort signal and the temporary file. *)
From S2P Require Import Prelude Utf8 Numbers Json AdaptivePublisher Truncate OutputCapture OutputAccumulator ShellExec BashTool.
Import Truncate.CodingAgent.
Open Scope Z_scope.

(** * Waiting for the child *)

Inductive wait2_outcome := W2Pending | W2Resolved (code : option Z) | W2Rejected (message : jstr).

(** The closure of [waitForChildProcess2]. *)
Record child_wait2 := ChildWait2 {
  w2_exited : bool;
  w2_exitCode : option Z;
  w2_timer : bool;
  w2_stdoutEnded : bool;
  w2_stderrEnded : bool;
  w2_outcome : wait2_outcome
}.

Definition new_wait2 : child_wait2 := ChildWait2 false None false false false W2Pending.

Definition w2_settled (w : child_wait2) : bool :=
  match w2_outcome w with W2Pending => false | _ => true end.

Definition finalize2 (code : option Z) (w : child_wait2) : child_wait2 :=
  if w2_settled w then w
  else ChildWait2 (w2_exited w) (w2_exitCode w) false (w2_stdoutEnded w) (w2_stderrEnded w) (W2Resolved code).

Definition maybeFinalizeAfterExit2 (w : child_wait2) : child_wait2 :=
  if negb (w2_exited w) || w2_settled w then w
  else if w2_stdoutEnded w && w2_stderrEnded w then finalize2 (w2_exitCode w) w else w.

Definition armIdleTimer2 (w : child_wait2) : child_wait2 :=
  ChildWait2 (w2_exited w) (w2_exitCode w) true (w2_stdoutEnded w) (w2_stderrEnded w) (w2_outcome w).

Definition wait_step2 (w : child_wait2) (ev : wait_event) : child_wait2 :=
  if w2_settled w then w
  else match ev with
  | EvData => if w2_exited w then armIdleTimer2 w else w
  | EvStdoutEnd =>
      maybeFinalizeAfterExit2
        (ChildWait2 (w2_exited w) (w2_exitCode w) (w2_timer w) true (w2_stderrEnded w) (w2_outcome w))
  | EvStderrEnd =>
      maybeFinalizeAfterExit2
        (ChildWait2 (w2_exited w) (w2_exitCode w) (w2_timer w) (w2_stdoutEnded w) true (w2_outcome w))
  | EvExit code _ =>
      let w := maybeFinalizeAfterExit2
        (ChildWait2 true code (w2_timer w) (w2_stdoutEnded w) (w2_stderrEnded w) (w2_outcome w)) in
      if w2_settled w then w else armIdleTimer2 w
  | EvClose code _ => finalize2 code w
  | EvError message =>
      ChildWait2 (w2_exited w) (w2_exitCode w) false (w2_stdoutEnded w) (w2_stderrEnded w) (W2Rejected message)
  | EvIdle => if w2_timer w then finalize2 (w2_exitCode w) w else w
  end.

(** * Starting a command *)

Definition resolveTimeoutMs2 (timeout : option jsnum) : result jstr (option jsnum) :=
  match timeout with
  | None => Ok None
  | Some t =>
      if negb (isFinite t) || num_ge (num_of 0) t then Throw invalid_timeout
      else
        let timeoutMs := num_op fmul t (num_of 1000) in
        if num_gt timeoutMs MAX_TIMEOUT_MS then Throw timeout_too_long else Ok (Some timeoutMs)
  end.

Definition POWERSHELL_ARGS : list jstr :=
  map js ["-NoProfile"; "-NonInteractive"; "-ExecutionPolicy"; "Bypass"; "-Command"].

Definition UTF8_OUTPUT_PREFIX : jstr :=
  js "try { [Console]::OutputEncoding=[System.Text.Encoding]::UTF8 } catch {}" ++ [LF].

Section Start.
(** The platform; [toLowerCase]; the path delimiter; what [findExecutableOnPath]
    and the file system answer; [getBinDir()]; the environment of the process. *)
Context (win32 : bool) (lower : jstr -> jstr) (delimiter : Z).
Context (findExecutableOnPath : jstr -> option jstr) (pathExists : jstr -> bool) (binDir : jstr).
Context (processEnv : environment).

Definition getPowerShellConfig : result jstr shell_config :=
  if negb win32 then Throw (js "The powershell tool is only available on Windows.")
  else
    let shell := match findExecutableOnPath (js "pwsh.exe") with
                 | Some s => Some s
                 | None => findExecutableOnPath (js "powershell.exe") end in
    match shell with
    | Some (c :: s) => Ok (ShellConfig (c :: s) POWERSHELL_ARGS false)
    | _ => Throw (js "No PowerShell executable found. Install PowerShell or add powershell.exe/pwsh.exe to PATH.")
    end.

(** [getShellEnv2()]: the process environment with the directory of the helper
    binaries on the path. *)
Definition getShellEnv2 : environment :=
  let pathKey := match List.find (fun kv => streq (lower kv.1) (js "path")) processEnv with
                 | Some kv => kv.1 | None => js "PATH" end in
  let currentPath := match List.find (fun kv => streq kv.1 pathKey) processEnv with
                     | Some kv => kv.2 | None => [] end in
  let pathEntries := List.filter truthy (split_char delimiter currentPath) in
  let updatedPath := if existsb (streq binDir) pathEntries then currentPath
                     else join [delimiter] (List.filter truthy [binDir; currentPath]) in
  env_set pathKey updatedPath processEnv.

Definition SESSION_VARIABLES : list jstr :=
  map js ["PI_SESSION_ID"; "PI_SESSION_FILE"; "PI_PROVIDER"; "PI_MODEL"; "PI_REASONING_LEVEL"].

(** [resolveSpawnContext] without a context or hook, as the bridge calls it. *)
Definition spawn_environment : environment :=
  List.filter (fun kv => negb (existsb (streq kv.1) SESSION_VARIABLES)) getShellEnv2.

(** [exec] until the process runs; [aborted] is the signal at the start. *)
Definition shell_start (aborted : bool) (command cwd : jstr) (timeout : option jsnum) : result jstr spawn_call :=
  let command := UTF8_OUTPUT_PREFIX ++ command in
  let! timeoutMs := resolveTimeoutMs2 timeout in
  if aborted then Throw (js "aborted")
  else
    let! config := getPowerShellConfig in
    if negb (pathExists cwd) then
      Throw (js "Working directory does not exist: " ++ cwd ++ [LF] ++ js "Cannot execute PowerShell commands.")
    else
      Ok (SpawnCall (sc_shell config)
            (if sc_stdin config then sc_args config else sc_args config ++ [command])
            (if sc_stdin config then Some command else None)
            cwd spawn_environment timeoutMs).
End Start.

(** * The tool *)

Definition BASH_UPDATE_THROTTLE_MS : Z := 100.

Record shell_details := ShellDetails { sd_truncation : option truncation; sd_fullOutputPath : option jstr }.
(** The report of progress; the first one is empty. *)
Record shell_update := ShellUpdate { su_text : option jstr; su_details : option shell_details }.
Record shell_answer := ShellAnswer { sa_text : jstr; sa_details : option shell_details }.

(** What [ops.exec] ends with: an exit code, or the message of its error. *)
Definition shell_exit : Type := result jstr (option Z).

Inductive shell_phase :=
| ShRunning
| ShClosing (r : shell_exit) (s : acc_snapshot)
| ShDone (r : result jstr shell_answer).

Record shell_state := ShellState {
  sh_output : accumulator;
  sh_accepting : bool;
  sh_timer : bool;
  sh_dirty : bool;
  sh_lastUpdateAt : Z;
  sh_updates : list shell_update;
  sh_wait : child_wait2;
  sh_timedOut : bool;
  sh_aborted : bool;
  sh_kills : nat;
  sh_phase : shell_phase
}.

Inductive shell_event :=
| ShData (data : list Z)
| ShChild (ev : wait_event)
| ShTimeout
| ShAbort
| ShUpdateTimer
| ShFileFinish
| ShFileError (message : jstr).

(** The note under truncated output. *)
Definition formatOutput (lastLineBytes : Z) (s : acc_snapshot) (emptyText : jstr) : jstr * option shell_details :=
  let t := sn_truncation s in
  let text := if truthy (content t) then content t else emptyText in
  if truncated t then
    let startLine := totalLines t - outputLines t + 1 in
    let endLine := totalLines t in
    let full := js ". Full output: " ++ opt_string (sn_fullOutputPath s) ++ js "]" in
    let range := js "[Showing lines " ++ num_str startLine ++ js "-" ++ num_str endLine ++ js " of " ++
                 num_str (totalLines t) in
    (text ++ [LF; LF] ++
     (if lastLinePartial t then
        js "[Showing last " ++ formatSize2 (outputBytes t) ++ js " of line " ++ num_str endLine ++
        js " (line is " ++ formatSize2 lastLineBytes ++ js ")" ++ full
      else if bool_decide (truncatedBy t = Some ByLines) then range ++ full
      else range ++ js " (" ++ formatSize2 DEFAULT_MAX_BYTES2 ++ js " limit)" ++ full),
     Some (ShellDetails (Some t) (sn_fullOutputPath s)))
  else (text, None).

Definition appendStatus (text status : jstr) : jstr :=
  (if truthy text then text ++ [LF; LF] else []) ++ status.

(** The end of [execute], after the output is finished. *)
Definition shell_finish (lastLineBytes : Z) (r : shell_exit) (s : acc_snapshot) : result jstr shell_answer :=
  match r with
  | Throw message =>
      let text := (formatOutput lastLineBytes s []).1 in
      if streq message (js "aborted") then Throw (appendStatus text (js "Command aborted"))
      else if starts_with (js "timeout:") message then
        Throw (appendStatus text (js "Command timed out after " ++ nth 1 (split_char 58 message) (js "undefined") ++ js " seconds"))
      else Throw message
  | Ok code =>
      let '(text, details) := formatOutput lastLineBytes s (js "(no output)") in
      match code with
      | Some c => if c =? 0 then Ok (ShellAnswer text details)
                  else Throw (appendStatus text (js "Command exited with code " ++ num_str c))
      | None => Ok (ShellAnswer text details)
      end
  end.

Section Run.
(** The name of the temporary file and [`${timeout}`]. *)
Context (tempPath timeout_string : jstr).

#[local] Abbreviation snapshot_of := (acc_snapshot_of None None tempPath true).

Definition emitOutputUpdate (now : Z) (x : shell_state) : shell_state :=
  if sh_dirty x then
    let '(s, a) := snapshot_of (sh_output x) in
    let t := sn_truncation s in
    let u := ShellUpdate (Some (content t))
               (Some (ShellDetails (if truncated t then Some t else None) (sn_fullOutputPath s))) in
    ShellState a (sh_accepting x) (sh_timer x) false now (sh_updates x ++ [u]) (sh_wait x) (sh_timedOut x)
      (sh_aborted x) (sh_kills x) (sh_phase x)
  else x.

Definition sh_set_timer (b : bool) (x : shell_state) : shell_state :=
  ShellState (sh_output x) (sh_accepting x) b (sh_dirty x) (sh_lastUpdateAt x) (sh_updates x) (sh_wait x)
    (sh_timedOut x) (sh_aborted x) (sh_kills x) (sh_phase x).

Definition scheduleOutputUpdate (now : Z) (x : shell_state) : shell_state :=
  let x := ShellState (sh_output x) (sh_accepting x) (sh_timer x) true (sh_lastUpdateAt x) (sh_updates x)
             (sh_wait x) (sh_timedOut x) (sh_aborted x) (sh_kills x) (sh_phase x) in
  if BASH_UPDATE_THROTTLE_MS - (now - sh_lastUpdateAt x) <=? 0
  then emitOutputUpdate now (sh_set_timer false x)
  else sh_set_timer true x.

Definition sh_set_output (a : accumulator) (x : shell_state) : shell_state :=
  ShellState a (sh_accepting x) (sh_timer x) (sh_dirty x) (sh_lastUpdateAt x) (sh_updates x) (sh_wait x)
    (sh_timedOut x) (sh_aborted x) (sh_kills x) (sh_phase x).

(** [handleData]; [append] only throws on a finished accumulator. *)
Definition handleData (now : Z) (data : list Z) (x : shell_state) : option shell_state :=
  if sh_accepting x then
    match append None None tempPath data (sh_output x) with
    | Ok a => Some (scheduleOutputUpdate now (sh_set_output a x))
    | Throw _ => None
    end
  else Some x.

Definition set_sh_phase (p : shell_phase) (x : shell_state) : shell_state :=
  ShellState (sh_output x) (sh_accepting x) (sh_timer x) (sh_dirty x) (sh_lastUpdateAt x) (sh_updates x) (sh_wait x)
    (sh_timedOut x) (sh_aborted x) (sh_kills x) p.

(** [finishOutput] up to the closing of the file. *)
Definition finishOutput (now : Z) (r : shell_exit) (x : shell_state) : shell_state :=
  let x := ShellState (acc_finish None None tempPath (sh_output x)) false false (sh_dirty x) (sh_lastUpdateAt x)
             (sh_updates x) (sh_wait x) (sh_timedOut x) (sh_aborted x) (sh_kills x) (sh_phase x) in
  let x := emitOutputUpdate now x in
  let '(s, a) := snapshot_of (sh_output x) in
  let x := sh_set_output a x in
  match temp a with
  | Some (TempFile _ _ true) => set_sh_phase (ShClosing r s) x
  | _ => set_sh_phase (ShDone (shell_finish (getLastLineBytes a) r s)) x
  end.

(** What follows [await waitForChildProcess2(child)]. *)
Definition after_wait2 (now : Z) (x : shell_state) : shell_state :=
  match sh_phase x, w2_outcome (sh_wait x) with
  | ShRunning, W2Resolved code =>
      finishOutput now
        (if sh_aborted x then Throw (js "aborted")
         else if sh_timedOut x then Throw (js "timeout:" ++ timeout_string)
         else Ok code) x
  | ShRunning, W2Rejected message => finishOutput now (Throw message) x
  | _, _ => x
  end.

Definition sh_child (now : Z) (ev : wait_event) (x : shell_state) : shell_state :=
  after_wait2 now
    (ShellState (sh_output x) (sh_accepting x) (sh_timer x) (sh_dirty x) (sh_lastUpdateAt x) (sh_updates x)
       (wait_step2 (sh_wait x) ev) (sh_timedOut x) (sh_aborted x) (sh_kills x) (sh_phase x)).

(** One event; [None] is an exception that nobody catches: an error of the
    temporary file while it is written. *)
Definition shell_step (x : shell_state) (ev : Z * shell_event) : option shell_state :=
  let '(now, e) := ev in
  match e, sh_phase x with
  | ShData data, ShRunning => x ← handleData now data x; Some (sh_child now EvData x)
  | ShChild ev, ShRunning => Some (sh_child now ev x)
  | ShTimeout, ShRunning =>
      Some (ShellState (sh_output x) (sh_accepting x) (sh_timer x) (sh_dirty x) (sh_lastUpdateAt x) (sh_updates x)
              (sh_wait x) true (sh_aborted x) (S (sh_kills x)) (sh_phase x))
  | ShAbort, ShRunning =>
      Some (ShellState (sh_output x) (sh_accepting x) (sh_timer x) (sh_dirty x) (sh_lastUpdateAt x) (sh_updates x)
              (sh_wait x) (sh_timedOut x) true (S (sh_kills x)) (sh_phase x))
  | ShUpdateTimer, ShRunning =>
      if sh_timer x then Some (emitOutputUpdate now (sh_set_timer false x)) else Some x
  | ShFileError _, ShRunning =>
      match temp (sh_output x) with Some _ => None | None => Some x end
  | ShFileFinish, ShClosing r s =>
      let a := closeTempFile (sh_output x) in
      Some (set_sh_phase (ShDone (shell_finish (getLastLineBytes a) r s)) (sh_set_output a x))
  | ShFileError message, ShClosing _ _ => Some (set_sh_phase (ShDone (Throw message)) x)
  | _, _ => Some x
  end.

Definition shell_init : shell_state :=
  ShellState new_accumulator true false false 0 [ShellUpdate None None] new_wait2 false false 0 ShRunning.

Fixpoint shell_run_from (x : shell_state) (evs : list (Z * shell_event)) : option shell_state :=
  match evs with
  | [] => Some x
  | ev :: r => x ← shell_step x ev; shell_run_from x r
  end.
Definition shell_run (evs : list (Z * shell_event)) : option shell_state := shell_run_from shell_init evs.
End Run.

(** * Theorems *)

(** ** The two copies of the wait *)

Definition exit_of (o : wait_outcome) : wait2_outcome :=
  match o with
  | WPending => W2Pending
  | WResolved code _ => W2Resolved code
  | WRejected m => W2Rejected m
  end.

(** The same closure state, as long as the promise is pending. *)
Definition same_wait (w : child_wait) (w2 : child_wait2) : Prop :=
  w2_outcome w2 = exit_of (wt_outcome w) /\
  (wt_outcome w = WPending ->
   w2 = ChildWait2 (wt_exited w) (wt_code w) (wt_timer w) (wt_stdoutEnded w) (wt_stderrEnded w) W2Pending).

Lemma same_wait_step w w2 ev : same_wait w w2 -> same_wait (wait_step false w ev) (wait_step2 w2 ev).
Proof.
  intros [Ho Hp]. unfold wait_step, wait_step2, wt_settled, w2_settled. rewrite Ho.
  destruct w as [ex code sig timer o1 o2 []]; cbn [wt_outcome exit_of] in *; [|by split..].
  rewrite (Hp eq_refl). clear w2 Ho Hp.
  destruct ev; unfold same_wait, maybeFinalizeAfterExit, maybeFinalizeAfterExit2, armIdleTimer, armIdleTimer2,
    set_timer, finalize, finalize2, wt_settled, w2_settled; cbn; destruct ex, timer, o1, o2; cbn; done.
Qed.

(** The two copies of the wait for a child process settle alike: for every
    sequence of events the coding agent's promise is pending, resolved or rejected
    exactly when the harness's is, with the same exit code or error. *)
Theorem waits_agree evs :
  w2_outcome (foldl wait_step2 new_wait2 evs) = exit_of (wt_outcome (foldl (wait_step false) new_wait evs)).
Proof.
  assert (H : forall w w2, same_wait w w2 -> same_wait (foldl (wait_step false) w evs) (foldl wait_step2 w2 evs)).
  { induction evs as [|ev evs IH]; intros w w2 H; [done|]. simpl. by apply IH, same_wait_step. }
  by apply H.
Qed.

(** ** What a command is answered *)

Section Answer.
Context (tempPath timeout_string : jstr).
#[local] Abbreviation step := (shell_step tempPath timeout_string).
#[local] Abbreviation snapshot_of := (acc_snapshot_of None None tempPath true).
#[local] Abbreviation acc_ok := (acc_inv None tempPath).

(** The output that arrives before the process is done. *)
Fixpoint received (x : shell_state) (evs : list (Z * shell_event)) : list (list Z) :=
  match evs with
  | [] => []
  | ev :: r =>
      match ev.2, sh_phase x with ShData d, ShRunning => [d] | _, _ => [] end ++
      match step x ev with Some x' => received x' r | None => [] end
  end.

Definition byte_data (ev : Z * shell_event) : Prop :=
  match ev.2 with ShData d => Forall (fun x => 0 <= x) d | _ => True end.

Lemma snapshot_again a : snapshot_of (snapshot_of a).2 = ((snapshot_of a).1, (snapshot_of a).2).
Proof.
  unfold acc_snapshot_of. cbn [fst snd andb].
  destruct ((maxLines_ None <? totalLines_ a) || (maxBytes_ None <? totalDecodedBytes a)) eqn:E.
  - assert (Hs : forall b, getSnapshotText (ensureTempFile tempPath b) = getSnapshotText b /\
      totalLines_ (ensureTempFile tempPath b) = totalLines_ b /\
      totalDecodedBytes (ensureTempFile tempPath b) = totalDecodedBytes b /\
      ensureTempFile tempPath (ensureTempFile tempPath b) = ensureTempFile tempPath b)
      by (intros b; unfold ensureTempFile; destruct (temp b) eqn:Eb; by rewrite ?Eb).
    destruct (Hs a) as (H1 & H2 & H3 & H4). by rewrite H1, H2, H3, E, H4, H2, H3.
  - by rewrite E.
Qed.

(** Why the process ended, as [ops.exec] reports it. *)
Definition exit_of_state (x : shell_state) (r : shell_exit) : Prop :=
  match w2_outcome (sh_wait x) with
  | W2Pending => False
  | W2Rejected m => r = Throw m
  | W2Resolved code =>
      r = if sh_aborted x then Throw (js "aborted")
          else if sh_timedOut x then Throw (js "timeout:" ++ timeout_string) else Ok code
  end.

Definition shell_inv (data : list (list Z)) (x : shell_state) : Prop :=
  match sh_phase x with
  | ShRunning => acc_ok data (sh_output x) /\ sh_accepting x = true /\ w2_outcome (sh_wait x) = W2Pending
  | ShClosing r s => final_snapshot None None tempPath data s (sh_output x) /\ exit_of_state x r /\
                       temp (sh_output x) ≠ None
  | ShDone (Ok ans) => exists r s n, final_snapshot None None tempPath data s (sh_output x) /\ exit_of_state x r /\
                         Ok ans = shell_finish n r s
  | ShDone (Throw m) =>
      (exists r s n, exit_of_state x r /\ Throw m = shell_finish n r s) \/ temp (sh_output x) ≠ None
  end.

Lemma emit_inv now x data :
  sh_phase x = ShRunning -> acc_ok data (sh_output x) ->
  acc_ok data (sh_output (emitOutputUpdate tempPath now x)) /\
  sh_phase (emitOutputUpdate tempPath now x) = ShRunning /\
  sh_accepting (emitOutputUpdate tempPath now x) = sh_accepting x /\
  sh_wait (emitOutputUpdate tempPath now x) = sh_wait x.
Proof.
  intros Hp Ha. unfold emitOutputUpdate. destruct (sh_dirty x); [|done].
  pose proof (snapshot_acc_inv None None tempPath data (sh_output x) Ha) as H.
  destruct (snapshot_of (sh_output x)) as [s a]. done.
Qed.

Lemma finishOutput_inv now r x data :
  sh_phase x = ShRunning -> acc_ok data (sh_output x) -> exit_of_state x r ->
  shell_inv data (finishOutput tempPath now r x).
Proof.
  intros Hp Ha Hr. unfold finishOutput.
  pose proof (final_snapshot_spec None None tempPath ltac:(vm_compute; discriminate) data (sh_output x) Ha) as Hfin.
  set (fin := acc_finish None None tempPath (sh_output x)) in *.
  set (x1 := ShellState fin _ _ _ _ _ _ _ _ _ _).
  assert (He : snapshot_of (sh_output (emitOutputUpdate tempPath now x1)) = snapshot_of fin).
  { unfold emitOutputUpdate. destruct (sh_dirty x1); [|done]. cbn [sh_output x1].
    pose proof (snapshot_again fin) as Hs. destruct (snapshot_of fin) as [s a]. exact Hs. }
  assert (Hst : exit_of_state (emitOutputUpdate tempPath now x1) r).
  { unfold emitOutputUpdate. destruct (sh_dirty x1); [|done]. by destruct (snapshot_of (sh_output x1)). }
  rewrite He. destruct (snapshot_of fin) as [s a].
  destruct (temp a) as [[? ? []]|] eqn:Et; unfold shell_inv; cbn [sh_phase set_sh_phase].
  { split_and!; [done|done|]. cbn [sh_output set_sh_phase sh_set_output]. by rewrite Et. }
  all: destruct (shell_finish _ r s) as [ans|m] eqn:E; [by eauto 10|left; by eauto 10].
Qed.

Lemma sh_child_inv now ev x data :
  sh_phase x = ShRunning -> acc_ok data (sh_output x) -> sh_accepting x = true ->
  shell_inv data (sh_child tempPath timeout_string now ev x).
Proof.
  intros Hp Ha Hacc. unfold sh_child, after_wait2.
  set (x1 := ShellState _ _ _ _ _ _ _ _ _ _ _). change (sh_phase x1) with (sh_phase x). rewrite Hp.
  destruct (w2_outcome (sh_wait x1)) as [|code|m] eqn:Ew.
  - unfold shell_inv. change (sh_phase x1) with (sh_phase x). by rewrite Hp.
  - apply finishOutput_inv; [done|done|]. unfold exit_of_state. by rewrite Ew.
  - apply finishOutput_inv; [done|done|]. unfold exit_of_state. by rewrite Ew.
Qed.

Lemma shell_step_inv x ev x' data :
  shell_inv data x -> byte_data ev -> step x ev = Some x' ->
  shell_inv (data ++ match ev.2, sh_phase x with ShData d, ShRunning => [d] | _, _ => [] end) x'.
Proof.
  intros Hx Hb Hstep. destruct ev as [now e]. unfold shell_step in Hstep. cbn [snd].
  destruct (sh_phase x) as [|r s|r] eqn:Hp.
  - unfold shell_inv in Hx. rewrite Hp in Hx. destruct Hx as (Ha & Hacc & Hw).
    destruct e as [d|cev| | | | |m]; rewrite ?app_nil_r; try (simplify_eq; unfold shell_inv; cbn [sh_phase]; rewrite ?Hp; done).
    + unfold handleData in Hstep. rewrite Hacc in Hstep.
      destruct (acc_append_inv None None tempPath data d (sh_output x) Hb Ha) as (a & Happ & Ha'). rewrite Happ in Hstep.
      cbn [mbind option_bind] in Hstep. injection Hstep as <-.
      set (x1 := ShellState a (sh_accepting x) (sh_timer x) true (sh_lastUpdateAt x) (sh_updates x) (sh_wait x)
        (sh_timedOut x) (sh_aborted x) (sh_kills x) (sh_phase x)).
      assert (Hx1 : sh_phase (scheduleOutputUpdate tempPath now (sh_set_output a x)) = ShRunning /\
        acc_ok (data ++ [d]) (sh_output (scheduleOutputUpdate tempPath now (sh_set_output a x))) /\
        sh_accepting (scheduleOutputUpdate tempPath now (sh_set_output a x)) = true).
      { unfold scheduleOutputUpdate. destruct (_ <=? 0); [|done].
        destruct (emit_inv now (sh_set_timer false x1) (data ++ [d]) Hp Ha') as (H1 & H2 & H3 & _).
        split_and!; [exact H2|exact H1|exact (eq_trans H3 Hacc)]. }
      destruct Hx1 as (H1 & H2 & H3). by apply sh_child_inv.
    + injection Hstep as <-. by apply sh_child_inv.
    + destruct (sh_timer x); simplify_eq; [|unfold shell_inv; by rewrite Hp].
      destruct (emit_inv now (sh_set_timer false x) data Hp Ha) as (H1 & H2 & H3 & H4).
      unfold shell_inv. rewrite H2, H3, H4. done.
    + destruct (temp (sh_output x)); simplify_eq. unfold shell_inv. by rewrite Hp.
  - assert (Hdata : match e with ShData _ => @nil (list Z) | _ => [] end = []) by (by destruct e).
    rewrite Hdata, app_nil_r. pose proof Hx as Hx'. unfold shell_inv in Hx'. rewrite Hp in Hx'. destruct Hx' as (Hs & Hr & Htemp).
    destruct e; simplify_eq; try done; unfold shell_inv; cbn [sh_phase set_sh_phase].
    + destruct (shell_finish _ r s) as [ans|m] eqn:E; [|left; by eauto 10].
      eexists r, s, _. split_and!; [|done|done]. destruct Hs as [H1 H2 H3 H4 H5 H6]. split; try done.
      intros Ht. destruct (H6 Ht) as (Hpath & f & Hf & Hc). split; [done|].
      cbn [sh_output sh_set_output set_sh_phase]. unfold closeTempFile. rewrite Hf.
      destruct f as [p cs []]; cbn [tf_chunks] in *; [by eexists|by exists (TempFile p cs false)].
    + by right.
  - assert (Hdata : match e with ShData _ => @nil (list Z) | _ => [] end = []) by (by destruct e).
    rewrite Hdata, app_nil_r. destruct e; by simplify_eq.
Qed.

Lemma shell_run_inv evs x x' data :
  shell_inv data x -> Forall byte_data evs -> shell_run_from tempPath timeout_string x evs = Some x' ->
  shell_inv (data ++ received x evs) x'.
Proof.
  intros Hx HF. revert x data Hx. induction HF as [|ev evs Hev HF IH]; intros x data Hx Hrun.
  - simplify_eq/=. by rewrite app_nil_r.
  - cbn [shell_run_from received] in *. destruct (step x ev) as [x1|] eqn:E; [|done].
    cbn [mbind option_bind] in Hrun. rewrite app_assoc. apply (IH x1); [|done].
    by apply (shell_step_inv x ev).
Qed.

Lemma shell_init_inv : shell_inv [] shell_init.
Proof. split; [apply new_acc_inv|done]. Qed.

(** What a result of [shell_finish] without an error says. *)
Lemma shell_finish_ok n r s ans :
  Ok ans = shell_finish n r s ->
  (r = Ok None \/ r = Ok (Some 0)) /\
  let text := if truthy (content (sn_truncation s)) then content (sn_truncation s) else js "(no output)" in
  (truncated (sn_truncation s) = false -> ans = ShellAnswer text None) /\
  (truncated (sn_truncation s) = true -> exists note,
     ans = ShellAnswer (text ++ note) (Some (ShellDetails (Some (sn_truncation s)) (sn_fullOutputPath s)))).
Proof.
  unfold shell_finish. destruct r as [code|m]; [|by destruct (streq m (js "aborted")), (starts_with (js "timeout:") m)].
  destruct (formatOutput n s (js "(no output)")) as [text det] eqn:Ef. intros H.
  assert ((code = None \/ code = Some 0) /\ ans = ShellAnswer text det) as [Hc ->].
  { destruct code as [c|]; [|simplify_eq; auto]. destruct (Z.eqb_spec c 0) as [->|]; simplify_eq; auto. }
  split; [destruct Hc as [->| ->]; auto|]. cbv zeta. unfold formatOutput in Ef.
  destruct (truncated (sn_truncation s)); simplify_eq; (split; [done|]); try done; intros _; by eexists.
Qed.

(** A command that is answered, not failed, was neither aborted nor timed out
    and its process ended with code 0 (or without one).  The answer is its complete
    decoded output when that is within the limits; otherwise it is its last lines
    with a note and the path of a file that holds all of it, byte for byte.  This
    holds for every interleaving of output, timers, the signal and the file. *)
Theorem shell_answer_faithful evs x ans :
  Forall byte_data evs -> shell_run tempPath timeout_string evs = Some x -> sh_phase x = ShDone (Ok ans) ->
  let data := received shell_init evs in
  let output := td_decode (concat data) in
  let t := Harness.truncateTail true output (Some DEFAULT_MAX_LINES2) (Some DEFAULT_MAX_BYTES2) in
  sh_aborted x = false /\ sh_timedOut x = false /\
  (w2_outcome (sh_wait x) = W2Resolved None \/ w2_outcome (sh_wait x) = W2Resolved (Some 0)) /\
  (truncated t = false -> ans = ShellAnswer (if truthy output then output else js "(no output)") None) /\
  (truncated t = true -> exists m note f,
     sa_text ans = (if truthy (content m) then content m else js "(no output)") ++ note /\
     sa_details ans = Some (ShellDetails (Some m) (Some tempPath)) /\
     (last_line_short None output -> same_lines m t) /\
     totalLines m = Z.of_nat (length (Harness.splitLinesForCounting output)) /\
     temp (sh_output x) = Some f /\ concat (tf_chunks f) = concat data).
Proof.
  intros HF Hrun Hp data output t.
  pose proof (shell_run_inv evs shell_init x [] shell_init_inv HF Hrun) as Hinv. cbn [app] in Hinv. fold data in Hinv.
  unfold shell_inv in Hinv. rewrite Hp in Hinv. destruct Hinv as (r & s & n & [Hby Hln Htr Hwh Htl Hfl] & Hr & Hans).
  apply shell_finish_ok in Hans as (Hr0 & Hshort & Hlong). cbv zeta in Hshort, Hlong.
  unfold exit_of_state in Hr. fold output in Hby, Hln, Htr, Hwh, Htl.
  change (Harness.truncateTail true output (Some (maxLines_ None)) (Some (maxBytes_ None))) with t in *.
  destruct (w2_outcome (sh_wait x)) as [|code|m]; [done| |by destruct Hr0; simplify_eq].
  destruct (sh_aborted x); [by destruct Hr0; simplify_eq|].
  destruct (sh_timedOut x); [by destruct Hr0; simplify_eq|].
  split_and!; [done|done|by destruct Hr0; simplify_eq; auto| |].
  - intros Ht. rewrite <- Htr in Ht. rewrite Hshort, Hwh by done. done.
  - intros Ht. rewrite <- Htr in Ht. destruct (Hlong Ht) as (note & ->). destruct (Hfl Ht) as (Hpath & f & Hf & Hc).
    exists (sn_truncation s), note, f. cbn [sa_text sa_details]. rewrite Hpath. split_and!; try done.
Qed.
End Answer.

(** A command that prints before and after its process exits. *)
Definition shell_events : list (Z * shell_event) :=
  [(0, ShData (utf8_encode (js "hello"))); (1, ShUpdateTimer); (2, ShChild (EvExit (Some 0) None));
   (3, ShData [LF]); (4, ShChild (EvClose (Some 0) None))].

Lemma shell_answer_faithful_witness :
  exists x, shell_run (js "/tmp/x") (js "5") shell_events = Some x /\
    sh_phase x = ShDone (Ok (ShellAnswer (js "hello" ++ [LF]) None)) /\ sh_timedOut x = false.
Proof.
  eexists. split; [vm_compute; reflexivity|]. split; [reflexivity|].
  apply (shell_answer_faithful (js "/tmp/x") (js "5") shell_events _ (ShellAnswer (js "hello" ++ [LF]) None)).
  - vm_compute. repeat (constructor || (intro; discriminate)).
  - vm_compute. reflexivity.
  - reflexivity.
Defined.

(** ** Failures *)

(** A process that a signal ended, which has no exit code, is reported as a
    success; the bash tool of the harness reports 128 and the signal. *)
Lemma killed_process_succeeds :
  sh_phase <$> shell_run (js "/tmp/x") (js "5")
    [(0, ShData (utf8_encode (js "half"))); (1, ShChild (EvClose None (Some (js "SIGKILL"))))] =
  Some (ShDone (Ok (ShellAnswer (js "half") None))).
Proof. vm_compute. reflexivity. Qed.

(** Without Windows the tool always fails, whatever is installed. *)
Lemma powershell_needs_windows lower delimiter find exists_ binDir processEnv command cwd timeout c :
  shell_start false lower delimiter find exists_ binDir processEnv false command cwd timeout ≠ Ok c.
Proof. unfold shell_start. by destruct (resolveTimeoutMs2 timeout). Qed.
