(* ===== verification/NodePath.v ===== *)
(** POSIX paths: what the modelled code uses of the [path] module of Node
    ([isAbsolute], [resolve], [join], [relative], [dirname], [basename]), and the
    two path resolutions of the bundle: [resolvePath2] of the harness environment
    (packages/agent/dist/harness/env/nodejs.js) and [resolveToCwd] of the
    coding-agent tools (packages/coding-agent/src/utils/paths.ts and
    core/tools/path-utils.ts). *)
From S2P Require Import Prelude.
Open Scope Z_scope.

(** * The [path] module *)

Definition SLASH : Z := 47.
Definition BACKSLASH : Z := 92.
Definition DOTDOT : jstr := js "..".

Definition isAbsolute (path : jstr) : bool := starts_with [SLASH] path.

(** One component of a path onto the components before it, the last first. *)
Definition push_component (allowAboveRoot : bool) (stack : list jstr) (c : jstr) : list jstr :=
  if streq c [] || streq c (js ".") then stack
  else if streq c DOTDOT then
    match stack with
    | top :: r => if streq top DOTDOT then (if allowAboveRoot then c :: stack else stack) else r
    | [] => if allowAboveRoot then [c] else []
    end
  else c :: stack.

(** The components of a path with [.] and [..] resolved. *)
Definition components (allowAboveRoot : bool) (path : jstr) : list jstr :=
  rev (foldl (push_component allowAboveRoot) [] (split_char SLASH path)).

Definition absolute_path (cs : list jstr) : jstr := SLASH :: join [SLASH] cs.

(** [path.normalize] *)
Definition path_normalize (path : jstr) : jstr :=
  match path with
  | [] => js "."
  | _ =>
      let absolute := isAbsolute path in
      let trailing := ends_with [SLASH] path in
      let p := join [SLASH] (components (negb absolute) path) in
      match p with
      | [] => if absolute then [SLASH] else if trailing then js "./" else js "."
      | _ =>
          let p := if trailing then p ++ [SLASH] else p in
          if absolute then SLASH :: p else p
      end
  end.

(** [path.join] *)
Definition path_join (parts : list jstr) : jstr :=
  path_normalize (join [SLASH] (List.filter truthy parts)).

(** The arguments of [path.resolve] from the last one, until one is absolute. *)
Fixpoint resolve_from (cwd : jstr) (rpaths : list jstr) (resolved : jstr) : jstr :=
  match rpaths with
  | [] => cwd ++ [SLASH] ++ resolved
  | p :: r =>
      match p with
      | [] => resolve_from cwd r resolved
      | _ =>
          let resolved := p ++ [SLASH] ++ resolved in
          if isAbsolute p then resolved else resolve_from cwd r resolved
      end
  end.

(** [path.resolve(...paths)] in a process whose working directory is [cwd], an
    absolute path. *)
Definition path_resolve (cwd : jstr) (paths : list jstr) : jstr :=
  absolute_path (components false (resolve_from cwd (rev paths) [])).

(** How many leading components two paths share. *)
Fixpoint shared (a b : list jstr) : nat :=
  match a, b with
  | x :: a', y :: b' => if streq x y then S (shared a' b') else O
  | _, _ => O
  end.

(** [path.relative(from, to)] *)
Definition path_relative (cwd from to : jstr) : jstr :=
  let f := components false (resolve_from cwd [from] []) in
  let t := components false (resolve_from cwd [to] []) in
  let k := shared f t in
  join [SLASH] (replicate (length f - k) DOTDOT ++ drop k t).

(** [path.dirname]: what is before the last slash that a name follows. *)
Definition path_dirname (path : jstr) : jstr :=
  match path with
  | [] => js "."
  | _ =>
      match drop_while (fun c => negb (c =? SLASH)) (drop_while (fun c => c =? SLASH) (rev path)) with
      | [] | [_] => if isAbsolute path then [SLASH] else js "."
      | _ :: r => if isAbsolute path && (length r =? 1)%nat then js "//" else rev r
      end
  end.

(** [path.basename] *)
Definition path_basename (path : jstr) : jstr :=
  let r := drop_while (fun c => c =? SLASH) (rev path) in
  rev (take (length r - length (drop_while (fun c => negb (c =? SLASH)) r)) r).

Example dirname_ex :
  map path_dirname [js "/a/b"; js "/a"; js "/"; js "a"; js "a/b/"; js "//x"; js "//"; js "/a//b"; []] =
  [js "/a"; js "/"; js "/"; js "."; js "a"; js "//"; js "/"; js "/a/"; js "."].
Proof. reflexivity. Qed.
Example basename_ex :
  map path_basename [js "/a/b"; js "/a/"; js "/"; js "a"; []] = [js "b"; js "a"; []; js "a"; []].
Proof. reflexivity. Qed.
Example relative_ex :
  map (fun p => path_relative (js "/w") p.1 p.2)
    [(js "/a/b", js "/a/c/d"); (js "/a", js "/a/b"); (js "/a/b", js "/a"); (js "/", js "/x"); (js "q", js "/w/q")] =
  [js "../c/d"; js "b"; js ".."; js "x"; []].
Proof. reflexivity. Qed.
Example join_ex :
  map path_join [[js "/a"; js ".git"]; [[]; []]; [js "a/"; js "../b/"]; [js ".."; js "x"]] =
  [js "/a/.git"; js "."; js "b/"; js "../x"].
Proof. reflexivity. Qed.

(** * Resolving the paths of tool calls *)

Section Resolve.
(** [process.cwd()], [os.homedir()], whether the platform is win32, and
    [fileURLToPath], which throws on a URL that names no local file. *)
Context (cwd home : jstr) (win32 : bool) (fileURLToPath : jstr -> result jstr jstr).

(** [resolvePath2(base, path)] of the harness. *)
Definition resolvePath2 (base path : jstr) : jstr :=
  let normalized :=
    if streq path (js "~") then home
    else if starts_with (js "~/") path || (win32 && starts_with [126; BACKSLASH] path)
    then path_join [home; drop 2 path]
    else if starts_with (js "file://") path then
      match fileURLToPath path with Ok p => p | Throw _ => path end
    else path in
  if isAbsolute normalized then path_resolve cwd [normalized] else path_resolve cwd [base; normalized].

(** [/[\u00A0\u2000-\u200A\u202F\u205F\u3000]/g] to a space. *)
Definition plain_spaces (s : jstr) : jstr :=
  map (fun c => if (c =? 160) || ((8192 <=? c) && (c <=? 8202)) || (c =? 8239) || (c =? 8287) || (c =? 12288)
                then 32 else c) s.

Definition ascii_lower (c : Z) : Z := if (65 <=? c) && (c <=? 90) then c + 32 else c.
Definition ascii_upper (c : Z) : Z := if (97 <=? c) && (c <=? 122) then c - 32 else c.
Definition is_letter (c : Z) : bool := (97 <=? ascii_lower c) && (ascii_lower c <=? 122).
Definition line_terminator (c : Z) : bool := (c =? 10) || (c =? 13) || (c =? 8232) || (c =? 8233).

(** The end of the pattern: a drive letter, and possibly a slash and one line of
    anything. *)
Definition drive_and_rest (s : jstr) : option (Z * option jstr) :=
  match s with
  | [d] => if is_letter d then Some (d, None) else None
  | d :: c :: r =>
      if is_letter d && (c =? SLASH) && negb (existsb line_terminator r) then Some (d, Some r) else None
  | [] => None
  end.

(** The match of the case-insensitive pattern: a slash, possibly [mnt/] or
    [cygdrive/], the drive letter and the rest. *)
Definition match_drive (path : jstr) : option (Z * option jstr) :=
  let after := drop 1 path in
  let under p := if starts_with p (map ascii_lower after) then drive_and_rest (drop (length p) after) else None in
  match under (js "mnt/") with
  | Some m => Some m
  | None => match under (js "cygdrive/") with Some m => Some m | None => drive_and_rest after end
  end.

Definition normalizeWindowsShellPath (filePath : jstr) : jstr :=
  if negb (starts_with [SLASH] filePath) || starts_with (js "//") filePath || includes [BACKSLASH] filePath
  then filePath
  else match match_drive filePath with
       | None => filePath
       | Some (d, rest) =>
           ascii_upper d :: 58 :: BACKSLASH ::
           match rest with Some r => replace_unit SLASH [BACKSLASH] r | None => [] end
       end.

(** [normalizePath(input, options)] with the options the tools give. *)
Definition normalizePath (normalizeUnicodeSpaces stripAtPrefix : bool) (input : jstr) : result jstr jstr :=
  let normalized := if normalizeUnicodeSpaces then plain_spaces input else input in
  let normalized := if stripAtPrefix && starts_with (js "@") normalized then drop 1 normalized else normalized in
  let normalized := if win32 then normalizeWindowsShellPath normalized else normalized in
  if streq normalized (js "~") then Ok home
  else if starts_with (js "~/") normalized || (win32 && starts_with [126; BACKSLASH] normalized)
  then Ok (path_join [home; drop 2 normalized])
  else if starts_with (js "file://") normalized then fileURLToPath normalized
  else Ok normalized.

(** [resolvePath3(input, baseDir, options)] *)
Definition resolvePath3 (spaces at_prefix : bool) (input baseDir : jstr) : result jstr jstr :=
  let! normalized := normalizePath spaces at_prefix input in
  let! normalizedBaseDir := normalizePath false false baseDir in
  Ok (if isAbsolute normalized then path_resolve cwd [normalized]
      else path_resolve cwd [normalizedBaseDir; normalized]).

Definition resolveToCwd (filePath base : jstr) : result jstr jstr := resolvePath3 true true filePath base.
End Resolve.

(** * Paths and their components *)

(** A component that [normalize] keeps. *)
Definition clean (c : jstr) : Prop := c ≠ [] /\ c ≠ js "." /\ c ≠ DOTDOT /\ SLASH ∉ c.

Lemma push_clean b stack c : clean c -> push_component b stack c = c :: stack.
Proof.
  intros (H1 & H2 & H3 & _). unfold push_component.
  by rewrite !(proj2 (streq_false _ _)) by done.
Qed.

Lemma push_cleans b cs stack :
  Forall clean cs -> foldl (push_component b) stack cs = rev cs ++ stack.
Proof.
  intros HF. revert stack. induction HF as [|c cs Hc HF IH]; intros stack; [done|].
  simpl. by rewrite push_clean, IH, <- app_assoc.
Qed.

Lemma push_up b stack n :
  Forall clean stack -> (n <= length stack)%nat ->
  foldl (push_component b) stack (replicate n DOTDOT) = drop n stack.
Proof.
  revert stack. induction n as [|n IH]; intros stack HF Hn; [done|].
  destruct HF as [|c stack (_ & _ & Hc & _) HF]; simpl in *; [lia|].
  unfold push_component at 2. simpl. rewrite (proj2 (streq_false c DOTDOT)) by done.
  apply IH; [done|lia].
Qed.

Lemma push_keeps_clean stack c :
  SLASH ∉ c -> Forall clean stack -> Forall clean (push_component false stack c).
Proof.
  intros Hs HF. unfold push_component.
  destruct (streq c []) eqn:E1; [done|]. destruct (streq c (js ".")) eqn:E2; [done|].
  destruct (streq c DOTDOT) eqn:E3; simpl.
  - destruct HF as [|top r Ht HF]; [constructor|]. case_goal; [by constructor|done].
  - rewrite streq_false in E1, E2, E3. by constructor.
Qed.

Lemma foldl_push_clean cs stack :
  Forall (fun c => SLASH ∉ c) cs -> Forall clean stack ->
  Forall clean (foldl (push_component false) stack cs).
Proof.
  intros HF. revert stack. induction HF as [|c cs Hc HF IH]; intros stack Hs; [done|].
  simpl. by apply IH, push_keeps_clean.
Qed.

Lemma components_clean path : Forall clean (components false path).
Proof. apply Forall_rev, foldl_push_clean; [apply split_char_no_sep|constructor]. Qed.

Lemma split_app c a b : split_char c (a ++ c :: b) = split_char c a ++ split_char c b.
Proof.
  induction a as [|x a IH]; simpl.
  - by rewrite Z.eqb_refl.
  - destruct (x =? c); [by rewrite IH|]. rewrite IH.
    destruct (split_char c a) eqn:E; [by apply split_char_not_nil in E|done].
Qed.

Lemma split_join_clean cs : cs ≠ [] -> Forall clean cs -> split_char SLASH (join [SLASH] cs) = cs.
Proof.
  intros Hn HF. apply split_join; [done|]. eapply Forall_impl; [exact HF|]. by intros c (_ & _ & _ & ?).
Qed.

Lemma components_absolute cs : Forall clean cs -> components false (absolute_path cs) = cs.
Proof.
  intros HF. unfold components, absolute_path.
  change (SLASH :: join [SLASH] cs) with ([] ++ SLASH :: join [SLASH] cs). rewrite split_app.
  destruct cs as [|c cs]; [done|]. rewrite split_join_clean by done.
  rewrite foldl_app, push_cleans by done. by rewrite app_nil_r, rev_involutive.
Qed.

Lemma resolve_from_app cwd rps r : resolve_from cwd rps r = resolve_from cwd rps [] ++ r.
Proof.
  revert r. induction rps as [|p rps IH]; intros r; cbn [resolve_from].
  - by rewrite <- !app_assoc.
  - destruct p as [|x p]; [apply IH|]. destruct (isAbsolute (x :: p)).
    + by rewrite <- !app_assoc.
    + rewrite IH, (IH (_ ++ [SLASH] ++ [])), <- !app_assoc. done.
Qed.

Lemma resolve_from_step cwd p rps r :
  p ≠ [] -> isAbsolute p = false -> resolve_from cwd (p :: rps) r = resolve_from cwd rps (p ++ SLASH :: r).
Proof. intros Hn Ha. cbn [resolve_from]. rewrite Ha. by destruct p. Qed.

Lemma resolve_from_slash cwd rps : exists a, resolve_from cwd rps [] = a ++ [SLASH].
Proof.
  induction rps as [|p rps IH]; cbn [resolve_from]; [by exists cwd|].
  destruct p as [|x p]; [done|]. destruct (isAbsolute (x :: p)); [by exists (x :: p)|].
  rewrite resolve_from_app. exists (resolve_from cwd rps [] ++ x :: p). by rewrite <- !app_assoc.
Qed.

(** A path that is not absolute, resolved against a base. *)
Lemma resolve_relative_path cwd base rel :
  rel ≠ [] -> isAbsolute rel = false ->
  path_resolve cwd [base; rel] = absolute_path (rev
    (foldl (push_component false) (rev (components false (resolve_from cwd [base] [])))
       (split_char SLASH rel))).
Proof.
  intros Hn Ha. unfold path_resolve, components. simpl rev at 2.
  rewrite resolve_from_step by done. rewrite resolve_from_app.
  destruct (resolve_from_slash cwd [base]) as (a & ->). rewrite rev_involutive.
  replace ((a ++ [SLASH]) ++ rel ++ [SLASH]) with (a ++ SLASH :: (rel ++ SLASH :: []))
    by (by rewrite <- !app_assoc).
  by rewrite !split_app, !foldl_app.
Qed.

Lemma shared_spec a b :
  take (shared a b) a = take (shared a b) b /\ (shared a b <= length a)%nat /\ (shared a b <= length b)%nat.
Proof.
  revert b. induction a as [|x a IH]; intros [|y b]; simpl; try (split; [done|lia]).
  destruct (streq x y) eqn:E; simpl; [|split; [done|lia]].
  apply streq_true in E as ->. destruct (IH b) as (-> & ? & ?). split; [done|lia].
Qed.

Lemma relative_not_absolute cs : Forall (fun c => c ≠ [] /\ SLASH ∉ c) cs -> isAbsolute (join [SLASH] cs) = false.
Proof.
  intros HF. destruct HF as [|c cs (Hn & Hs) HF]; [done|].
  destruct c as [|x c]; [done|].
  assert (x ≠ SLASH) by set_solver.
  unfold isAbsolute. destruct cs; cbn [join starts_with app];
    by rewrite (proj2 (Z.eqb_neq SLASH x)) by done.
Qed.

Lemma join_parts_not_nil cs :
  cs ≠ [] -> Forall (fun c => c ≠ [] /\ SLASH ∉ c) cs -> join [SLASH] cs ≠ [].
Proof. intros Hn HF. destruct HF as [|[|x c] [|c' cs] (? & _) HF]; done. Qed.

Lemma relative_parts n cs : Forall clean cs -> Forall (fun c => c ≠ [] /\ SLASH ∉ c) (replicate n DOTDOT ++ cs).
Proof.
  intros HF. apply Forall_app; split; [apply Forall_replicate; split; [done|by vm_compute; set_solver]|].
  eapply Forall_impl; [exact HF|]. by intros c (? & _ & _ & ?).
Qed.

Lemma path_relative_not_absolute cwd from to : isAbsolute (path_relative cwd from to) = false.
Proof. apply relative_not_absolute, relative_parts, Forall_drop, components_clean. Qed.

(** The relative path from one place to another leads from the one to the
    other. *)
Lemma resolve_relative cwd from to :
  path_resolve cwd [from; path_relative cwd from to] = path_resolve cwd [to].
Proof.
  unfold path_relative. set (f := components false (resolve_from cwd [from] [])).
  set (t := components false (resolve_from cwd [to] [])).
  assert (Hf : Forall clean f) by apply components_clean.
  assert (Ht : Forall clean t) by apply components_clean.
  destruct (shared_spec f t) as (Heq & Hkf & Hkt). set (k := shared f t) in *.
  set (parts := replicate (length f - k) DOTDOT ++ drop k t).
  assert (HP : Forall (fun c => c ≠ [] /\ SLASH ∉ c) parts).
  { by apply relative_parts, Forall_drop. }
  change (path_resolve cwd [to]) with (absolute_path t).
  destruct (decide (parts = [])) as [Hnil|Hne].
  - rewrite Hnil. apply app_eq_nil in Hnil as [H1 H2].
    assert (length f - k = 0)%nat by (destruct (length f - k)%nat; [done|discriminate]).
    assert (length (drop k t) = 0)%nat as H3 by (by rewrite H2). rewrite length_drop in H3.
    rewrite !take_ge in Heq by lia.
    change (absolute_path f = absolute_path t). by rewrite Heq.
  - rewrite resolve_relative_path; [|by apply join_parts_not_nil|by apply relative_not_absolute].
    fold f. f_equal. rewrite split_join; [|done|eapply Forall_impl; [exact HP|by intros c (_ & ?)]].
    unfold parts. rewrite foldl_app, push_up; [|by apply Forall_rev|rewrite length_rev; lia].
    rewrite push_cleans by (by apply Forall_drop).
    rewrite skipn_rev, !rev_app_distr, !rev_involutive.
    replace (length f - (length f - k))%nat with k by lia. rewrite Heq. apply take_drop.
Qed.

(** A final slash does not change where a relative path leads. *)
Lemma resolve_final_slash cwd base rel :
  rel ≠ [] -> isAbsolute rel = false -> path_resolve cwd [base; rel ++ [SLASH]] = path_resolve cwd [base; rel].
Proof.
  intros Hn Ha. rewrite !resolve_relative_path; [|done..|by destruct rel|by destruct rel].
  by rewrite split_snoc, foldl_app.
Qed.

(** ** Characters of components *)

Lemma push_component_Forall (P : Z -> Prop) b stack c :
  Forall P c -> Forall (Forall P) stack -> Forall (Forall P) (push_component b stack c).
Proof.
  intros Hc HF. unfold push_component.
  repeat first [done | case_goal]; auto; by inversion HF; subst; auto.
Qed.

Lemma components_Forall (P : Z -> Prop) b s : Forall P s -> Forall (Forall P) (components b s).
Proof.
  intros HF. apply Forall_rev. apply (split_char_Forall P SLASH) in HF. revert HF.
  generalize (split_char SLASH s) as cs. intros cs.
  assert (forall stack, Forall (Forall P) stack -> Forall (Forall P) cs ->
    Forall (Forall P) (foldl (push_component b) stack cs)) as H; [|by apply H; constructor].
  induction cs as [|c cs IH]; intros stack Hs Hcs; simpl; [done|].
  inversion Hcs; subst. apply IH; [by apply push_component_Forall|done].
Qed.

Lemma resolve_from_Forall (P : Z -> Prop) cwd rps r :
  P SLASH -> Forall P cwd -> Forall (Forall P) rps -> Forall P r -> Forall P (resolve_from cwd rps r).
Proof.
  intros HS Hcwd HF. revert r. induction HF as [|p rps Hp HF IH]; intros r Hr; cbn [resolve_from].
  - repeat (apply Forall_app; split); auto.
  - destruct p as [|x p]; [by apply IH|].
    assert (Forall P ((x :: p) ++ [SLASH] ++ r)) by (repeat (apply Forall_app; split); auto).
    destruct (isAbsolute (x :: p)); [done|by apply IH].
Qed.

Lemma join_slash_Forall (P : Z -> Prop) cs : P SLASH -> Forall (Forall P) cs -> Forall P (join [SLASH] cs).
Proof.
  intros HS. induction 1 as [|l ls Hl HF IH]; [constructor|].
  destruct ls as [|l' ls]; [done|]. rewrite join_cons by done.
  repeat (apply Forall_app; split); auto.
Qed.

Lemma path_relative_Forall (P : Z -> Prop) cwd from to :
  P SLASH -> P 46 -> Forall P cwd -> Forall P from -> Forall P to -> Forall P (path_relative cwd from to).
Proof.
  intros HS HD Hc Hf Ht. unfold path_relative. apply join_slash_Forall; [done|].
  apply Forall_app. split.
  - apply Forall_replicate. by repeat constructor.
  - apply Forall_drop, components_Forall, resolve_from_Forall; auto.
Qed.

(** ** The directories above a path *)

Lemma dirname_above path :
  isAbsolute path = true -> path ≠ [SLASH] ->
  isAbsolute (path_dirname path) = true /\ (length (path_dirname path) < length path)%nat.
Proof.
  intros Ha Hn. unfold path_dirname. destruct path as [|x p]; [done|]. rewrite Ha.
  assert (1 < length (x :: p))%nat as Hlen.
  { destruct p; [|simpl; lia]. apply starts_with_spec in Ha as (r & Hr). destruct r; naive_solver. }
  set (path := x :: p) in *.
  destruct (drop_while_app_length (fun c => c =? SLASH) (rev path)) as (a & Hd1 & _).
  destruct (drop_while_app_length (fun c => negb (c =? SLASH)) (drop_while (fun c => c =? SLASH) (rev path)))
    as (b & Hd2 & _).
  set (d1 := drop_while (fun c => c =? SLASH) (rev path)) in *.
  set (d2 := drop_while (fun c => negb (c =? SLASH)) d1) in *.
  assert (Hsplit : rev path = (a ++ b) ++ d2) by (by rewrite <- app_assoc, <- Hd2).
  assert (Hab : a ++ b ≠ []).
  { intros E. apply app_eq_nil in E as [-> ->]. cbn [app] in *.
    destruct d2 as [|y r] eqn:Ed2; [by apply (f_equal length) in Hsplit; rewrite length_rev in Hsplit|].
    pose proof (drop_while_head _ _ _ _ Ed2). pose proof (drop_while_head _ _ _ _ Hd2). simpl in *.
    by destruct (y =? SLASH). }
  destruct (a ++ b) as [|y l] eqn:Hl; [done|]. clear Hab.
  assert (Hlp : (length path = S (length l) + length d2)%nat)
    by (rewrite <- length_rev, Hsplit, length_app; done).
  destruct d2 as [|z [|z' r]]; [by split..|].
  destruct (length (z' :: r) =? 1)%nat eqn:E; simpl andb; cbv iota.
  - apply Nat.eqb_eq in E. simpl in *. split; [done|lia].
  - assert (Hp : path = rev (z' :: r) ++ z :: rev (y :: l)).
    { rewrite <- (rev_involutive path), Hsplit. rewrite rev_app_distr. simpl. by rewrite <- !app_assoc. }
    split; [|rewrite length_rev; simpl in *; lia].
    rewrite Hp in Ha. destruct (rev (z' :: r)) as [|w t] eqn:Ew; [|exact Ha].
    apply (f_equal length) in Ew. rewrite length_rev in Ew. done.
Qed.
