(* ===== verification/FileSystem.v ===== *)
(** The file system that the execution environment of the tools works on: a tree of
    files, directories and symbolic links, and the functions of node:fs/promises and
    node:readline that src/drivers/tools/pibridge/bridge.mjs uses (class
    NodeExecutionEnv), on a POSIX system.  Every call may in addition fail with an
    error of the system's choosing: faults are arguments of the methods that call. *)
From S2P Require Import Prelude Utf8 NodePath.
Open Scope Z_scope.

(** ** The tree *)

Inductive node := NFile (bytes : list Z) | NDir | NLink (target : jstr) | NOther.

#[export] Instance node_eq_dec : EqDecision node.
Proof. solve_decision. Defined.

(** Nodes by the names on the way to them; the root is always there. *)
Abbreviation tree := (gmap (list jstr) node).

Definition node_at (t : tree) (p : list jstr) : option node := match p with [] => Some NDir | _ => t !! p end.

Inductive errno := ENOENT | EACCES | EPERM | ENOTDIR | EISDIR | EINVAL | EEXIST | ENOTEMPTY | ELOOP | ABORT_ERR | OtherErrno (code : jstr).

#[export] Instance errno_eq_dec : EqDecision errno.
Proof. solve_decision. Defined.

(** ** Looking up a path *)

(** The names in the target of a link; [..] is resolved on the way. *)
Definition link_names (target : jstr) : list jstr :=
  List.filter (fun c => negb (streq c [] || streq c (js "."))) (split_char SLASH target).

(** From a directory along names, through at most [links] symbolic links; the last
    one is followed when [follow] says so.  The last name need not exist. *)
Fixpoint walk (links : nat) (t : tree) (follow : bool) : list jstr -> list jstr -> result errno (list jstr) :=
  fix go (todo base : list jstr) :=
    match todo with
    | [] => Ok base
    | c :: rest =>
        if streq c DOTDOT then go rest (removelast base)
        else
          match node_at t (base ++ [c]) with
          | None => match rest with [] => Ok (base ++ [c]) | _ => Throw ENOENT end
          | Some NDir => go rest (base ++ [c])
          | Some (NLink target) =>
              if negb follow && bool_decide (rest = []) then Ok (base ++ [c])
              else match links with
                   | O => Throw ELOOP
                   | S l => walk l t follow (link_names target ++ rest) (if isAbsolute target then [] else base)
                   end
          | Some _ => match rest with [] => Ok (base ++ [c]) | _ => Throw ENOTDIR end
          end
    end.

Definition MAX_LINKS : nat := 40.

Definition locate (t : tree) (follow : bool) (path : jstr) : result errno (list jstr) :=
  walk MAX_LINKS t follow (components false path) [].

(** ** The calls *)

Section Calls.
(** What reading and writing a device or a pipe does. *)
Context (device_read : list jstr -> result errno (list Z)) (device_write : list jstr -> list Z -> option errno).

Definition fs_readFile (t : tree) (path : jstr) : result errno (list Z) :=
  let! p := locate t true path in
  match node_at t p with
  | Some (NFile b) => Ok b
  | Some NDir => Throw EISDIR
  | Some NOther => device_read p
  | Some (NLink _) => Throw ELOOP
  | None => Throw ENOENT
  end.

(** [update] makes the new bytes of those before. *)
Definition fs_update (t : tree) (path : jstr) (update : list Z -> list Z) : result errno tree :=
  let! p := locate t true path in
  match node_at t p with
  | Some (NFile b) => Ok (<[p := NFile (update b)]> t)
  | None => Ok (<[p := NFile (update [])]> t)
  | Some NDir => Throw EISDIR
  | Some NOther => match device_write p (update []) with Some e => Throw e | None => Ok t end
  | Some (NLink _) => Throw ELOOP
  end.

Definition fs_writeFile (t : tree) (path : jstr) (bytes : list Z) : result errno tree := fs_update t path (fun _ => bytes).
Definition fs_appendFile (t : tree) (path : jstr) (bytes : list Z) : result errno tree := fs_update t path (fun b => b ++ bytes).

Definition fs_lstat (t : tree) (path : jstr) : result errno (list jstr * node) :=
  let! p := locate t false path in match node_at t p with Some n => Ok (p, n) | None => Throw ENOENT end.

Definition fs_exists (t : tree) (path : jstr) : bool :=
  match locate t true path with Ok p => bool_decide (is_Some (node_at t p)) | Throw _ => false end.

Definition fs_realpath (t : tree) (path : jstr) : result errno jstr :=
  let! p := locate t true path in match node_at t p with Some _ => Ok (absolute_path p) | None => Throw ENOENT end.

(** [mkdir] of one directory. *)
Definition fs_mkdir (t : tree) (path : jstr) : result errno tree :=
  let! p := locate t false path in
  match node_at t p with Some _ => Throw EEXIST | None => Ok (<[p := NDir]> t) end.

(** [mkdir] with [recursive]: directories that are missing on the way are made;
    [over] are the names before [todo]. *)
Fixpoint make_dirs (t : tree) (over todo : list jstr) : result errno tree :=
  match todo with
  | [] => Ok t
  | c :: rest =>
      let in_the_way := match rest with [] => EEXIST | _ => ENOTDIR end in
      let! p := walk MAX_LINKS t false (over ++ [c]) [] in
      match node_at t p with
      | None => make_dirs (<[p := NDir]> t) (over ++ [c]) rest
      | Some NDir => make_dirs t (over ++ [c]) rest
      | Some (NLink _) =>
          let! q := walk MAX_LINKS t true (over ++ [c]) [] in
          match node_at t q with
          | Some NDir => make_dirs t (over ++ [c]) rest
          | None => Throw ENOENT
          | Some _ => Throw in_the_way
          end
      | Some _ => Throw in_the_way
      end
  end.

Definition fs_mkdirp (t : tree) (path : jstr) : result errno tree := make_dirs t [] (components false path).

(** The names in a directory, in the order of the map. *)
Definition entry_name (p k : list jstr) : option jstr :=
  match decide (length k = S (length p) /\ p `prefix_of` k) with left _ => last k | right _ => None end.

Definition names_in (t : tree) (p : list jstr) : list jstr := omap (fun kv : list jstr * node => entry_name p kv.1) (map_to_list t).

Definition fs_readdir (t : tree) (path : jstr) : result errno (list jstr) :=
  let! p := locate t true path in
  match node_at t p with Some NDir => Ok (names_in t p) | Some _ => Throw ENOTDIR | None => Throw ENOENT end.

Definition below (p k : list jstr) : bool := bool_decide (p `prefix_of` k).

Definition without (t : tree) (p : list jstr) : tree := filter (fun kv : list jstr * node => below p kv.1 = false) t.

(** What is at [source] and below is moved to [destination]. *)
Definition move (t : tree) (source destination : list jstr) : tree :=
  list_to_map
    (map (fun kv : list jstr * node => (if below source kv.1 then destination ++ drop (length source) kv.1 else kv.1, kv.2))
       (map_to_list (without t destination))).

Definition fs_rename (t : tree) (source destination : jstr) : result errno tree :=
  let! ps := locate t false source in
  let! pd := locate t false destination in
  match node_at t ps with
  | None => Throw ENOENT
  | Some n =>
      if bool_decide (ps = pd) then Ok t
      else if below ps pd then Throw EINVAL
      else
        match n, node_at t pd with
        | _, None => Ok (move t ps pd)
        | NDir, Some NDir => match names_in t pd with [] => Ok (move t ps pd) | _ => Throw ENOTEMPTY end
        | NDir, Some _ => Throw ENOTDIR
        | _, Some NDir => Throw EISDIR
        | _, Some _ => Ok (move t ps pd)
        end
  end.

Definition fs_rm (t : tree) (path : jstr) (recursive force : bool) : result errno tree :=
  match locate t false path with
  | Throw e => if force && bool_decide (e = ENOENT) then Ok t else Throw e
  | Ok p =>
      match node_at t p with
      | None => if force then Ok t else Throw ENOENT
      | Some NDir =>
          if bool_decide (p = []) then Throw EPERM
          else if recursive then Ok (without t p) else Throw (OtherErrno (js "ERR_FS_EISDIR"))
      | Some _ => Ok (without t p)
      end
  end.

(** [mkdtemp(prefix)]; [random] are the letters it adds. *)
Definition fs_mkdtemp (t : tree) (prefix random : jstr) : result errno (jstr * tree) :=
  let! t := fs_mkdir t (prefix ++ random) in Ok (prefix ++ random, t).
End Calls.

(** ** The lines of a text *)

(** Where the [readline] module breaks a text: CR LF, LF, CR, and the two Unicode line
    separators; an empty rest is no line. *)
Fixpoint text_lines (current : jstr) (text : jstr) : list jstr :=
  match text with
  | [] => match current with [] => [] | _ => [current] end
  | 13 :: 10 :: rest => current :: text_lines [] rest
  | c :: rest =>
      if (c =? 10) || (c =? 13) || (c =? 8232) || (c =? 8233) then current :: text_lines [] rest else text_lines (current ++ [c]) rest
  end.

(** * Facts *)

(** ** Well-formed trees *)

(** The root is not a key, and what has a node is in a directory. *)
Record tree_ok (t : tree) : Prop := TreeOk {
  ok_root : t !! [] = None;
  ok_parent : forall p c, is_Some (t !! (p ++ [c])) -> node_at t p = Some NDir
}.

Lemma node_at_lookup t p n : p ≠ [] -> node_at t p = Some n <-> t !! p = Some n.
Proof. by destruct p. Qed.

Lemma node_at_snoc t p c : node_at t (p ++ [c]) = t !! (p ++ [c]).
Proof. by destruct p. Qed.

Lemma node_at_insert t p n q : q ≠ [] -> node_at (<[p := n]> t) q = if decide (p = q) then Some n else node_at t q.
Proof. intros Hq. destruct q as [|x q]; [done|]. cbn [node_at]. destruct (decide _) as [->|E]; [by rewrite lookup_insert_eq|by rewrite lookup_insert_ne]. Qed.

Lemma tree_ok_empty : tree_ok ∅.
Proof. split; [done|]. intros p c [n Hn]. by rewrite lookup_empty in Hn. Qed.

(** Where a walk ends is in a directory. *)
Definition in_directory (t : tree) (p : list jstr) : Prop := p = [] \/ exists q c, p = q ++ [c] /\ node_at t q = Some NDir.

Lemma directory_placed t p : tree_ok t -> node_at t p = Some NDir -> in_directory t p.
Proof.
  intros Hok Hp. destruct p as [|c p _] using rev_ind; [by left|]. right. exists p, c. split; [done|].
  eapply ok_parent; [done|]. rewrite node_at_snoc in Hp. by eexists.
Qed.

Lemma parent_directory t p : tree_ok t -> node_at t p = Some NDir -> node_at t (removelast p) = Some NDir.
Proof.
  intros Hok Hp. destruct (directory_placed t p Hok Hp) as [->|(q & c & -> & Hq)]; [done|]. by rewrite removelast_last.
Qed.

Section Walk.
Context (t : tree) (Hok : tree_ok t).

Lemma walk_unfold links follow c rest base :
  walk links t follow (c :: rest) base =
  if streq c DOTDOT then walk links t follow rest (removelast base)
  else
    match node_at t (base ++ [c]) with
    | None => match rest with [] => Ok (base ++ [c]) | _ => Throw ENOENT end
    | Some NDir => walk links t follow rest (base ++ [c])
    | Some (NLink target) =>
        if negb follow && bool_decide (rest = []) then Ok (base ++ [c])
        else match links with
             | O => Throw ELOOP
             | S l => walk l t follow (link_names target ++ rest) (if isAbsolute target then [] else base)
             end
    | Some _ => match rest with [] => Ok (base ++ [c]) | _ => Throw ENOTDIR end
    end.
Proof. by destruct links. Qed.

Lemma walk_nil links follow base : walk links t follow [] base = Ok base.
Proof. by destruct links. Qed.

Lemma walk_ends links follow todo base p :
  node_at t base = Some NDir -> walk links t follow todo base = Ok p -> in_directory t p.
Proof.
  revert todo base. induction links as [|links IHl]; (induction todo as [|c todo IHt]; intros base Hb; [rewrite walk_nil; intros [= <-]; by apply directory_placed|]);
    rewrite walk_unfold; (destruct (streq c DOTDOT); [by apply IHt, parent_directory|]); destruct (node_at t (base ++ [c])) as [[b| |target|]|] eqn:En;
    try (by destruct todo as [|? ?]; [intros [= <-]; right; by exists base, c|]); try (by apply IHt);
    (destruct (negb follow && bool_decide (todo = [])); [intros [= <-]; right; by exists base, c|]); [done|].
  apply IHl. by destruct (isAbsolute target).
Qed.

Lemma locate_ends follow path p : locate t follow path = Ok p -> in_directory t p.
Proof. by apply walk_ends. Qed.
End Walk.

(** ** What making a node changes *)

(** A directory where nothing was, or a file where no directory and no link was. *)
Definition may_become (old : option node) (n : node) : Prop :=
  match old, n with
  | None, NDir | None, NFile _ | Some (NFile _), NFile _ => True
  | _, _ => False
  end.

(** Walks that arrive still do, at the same place. *)
Lemma walk_insert t q n links follow todo base p :
  may_become (node_at t q) n -> walk links t follow todo base = Ok p -> walk links (<[q := n]> t) follow todo base = Ok p.
Proof.
  intros Hm. revert todo base. induction links as [|links IHl]; (induction todo as [|c todo IHt]; intros base; [by rewrite !walk_nil|]);
    rewrite !walk_unfold; (destruct (streq c DOTDOT); [apply IHt|]); rewrite node_at_insert by (by destruct base);
    (destruct (decide (q = base ++ [c])) as [->|Hq]; [destruct (node_at t (base ++ [c])) as [[]|], n; try done; destruct todo; rewrite ?walk_nil; done|]);
    destruct (node_at t (base ++ [c])) as [[b| |target|]|] eqn:En; try done; try (by apply IHt);
    (destruct (negb follow && bool_decide (todo = [])); [done|]); first [done|apply IHl].
Qed.

(** Following the last link makes no difference where there is none. *)
Lemma walk_follow t links todo base p :
  walk links t false todo base = Ok p -> (forall target, node_at t p ≠ Some (NLink target)) -> walk links t true todo base = Ok p.
Proof.
  intros Hw Hp. revert todo base Hw. induction links as [|links IHl]; (induction todo as [|c todo IHt]; intros base; [by rewrite !walk_nil|]);
    rewrite !walk_unfold; (destruct (streq c DOTDOT); [apply IHt|]); destruct (node_at t (base ++ [c])) as [[b| |target|]|] eqn:En; try done; try (by apply IHt);
    cbn [negb andb]; (case_bool_decide; [intros [= <-]; by destruct (Hp target)|]); first [done|apply IHl].
Qed.

(** One tree has what another has, and directories besides. *)
Record grows (t t' : tree) : Prop := Grows {
  grows_nodes : forall q n, node_at t q = Some n -> node_at t' q = Some n;
  grows_walks : forall links follow todo base p, walk links t follow todo base = Ok p -> walk links t' follow todo base = Ok p;
  grows_dirs : forall q n, node_at t' q = Some n -> node_at t q = None -> n = NDir
}.

#[export] Instance grows_preorder : PreOrder grows.
Proof.
  split.
  - intros t. split; [done|done|]. intros q n H1 H2. congruence.
  - intros t1 t2 t3 [N1 W1 D1] [N2 W2 D2]. split; [by eauto|by eauto|]. intros q n H1 H2. destruct (node_at t2 q) as [n'|] eqn:E; [|by eapply D2].
    rewrite (N2 q n' E) in H1. injection H1 as <-. by eapply D1.
Qed.

Lemma grows_insert t p : node_at t p = None -> grows t (<[p := NDir]> t).
Proof.
  intros Hp. split.
  - intros [|x q] n Hn; [done|]. rewrite node_at_insert by done. destruct (decide _) as [->|]; [congruence|done].
  - intros links follow todo base q. apply walk_insert. by rewrite Hp.
  - intros [|x q] n; [done|]. rewrite node_at_insert by done. destruct (decide _); [by intros [= <-]|congruence].
Qed.

Lemma tree_ok_insert t p n : tree_ok t -> in_directory t p -> may_become (node_at t p) n -> tree_ok (<[p := n]> t).
Proof.
  intros [Hr Hp] Hd Hm. assert (Hne : p ≠ []) by (intros ->; by destruct n). split; [by rewrite lookup_insert_ne|].
  intros q c [n' Hn']. assert (Hq : node_at t q = Some NDir).
  { destruct (decide (p = q ++ [c])) as [->|E]; [|apply (Hp q c); rewrite lookup_insert_ne in Hn' by done; by eexists].
    destruct Hd as [?|(q' & c' & [-> ->]%app_inj_tail & Hq)]; [by destruct q|done]. }
  destruct q as [|x q]; [done|]. rewrite node_at_insert by done. destruct (decide _) as [->|]; [|done]. rewrite Hq in Hm. by destruct n.
Qed.

Lemma in_directory_grows t t' p : grows t t' -> in_directory t p -> in_directory t' p.
Proof. intros Hg [->|(q & c & -> & Hq)]; [by left|right]. exists q, c. split; [done|]. by apply (grows_nodes _ _ Hg). Qed.

(** Making directories adds directories only, and the last one is there. *)
Lemma make_dirs_spec t over todo t' :
  tree_ok t -> make_dirs t over todo = Ok t' ->
  tree_ok t' /\ grows t t' /\
  (todo ≠ [] -> exists p, walk MAX_LINKS t' true (over ++ todo) [] = Ok p /\ node_at t' p = Some NDir).
Proof.
  revert t over. induction todo as [|c todo IH]; intros t over Hok; cbn [make_dirs]; [by intros [= <-]|].
  assert (Hgo : forall t1 p, tree_ok t1 -> grows t t1 -> walk MAX_LINKS t1 true (over ++ [c]) [] = Ok p -> node_at t1 p = Some NDir ->
    make_dirs t1 (over ++ [c]) todo = Ok t' -> tree_ok t' /\ grows t t' /\
    (c :: todo ≠ [] -> exists p, walk MAX_LINKS t' true (over ++ c :: todo) [] = Ok p /\ node_at t' p = Some NDir)).
  { intros t1 p Hok1 Hg Hw Hn Hm. destruct (IH _ _ Hok1 Hm) as (H1 & H2 & H3). split_and!; [done|by etrans|]. intros _.
    change (c :: todo) with ([c] ++ todo). rewrite app_assoc. destruct todo as [|d todo]; [|by apply H3].
    injection Hm as <-. rewrite app_nil_r. by exists p. }
  destruct (walk MAX_LINKS t false (over ++ [c]) []) as [p|] eqn:Ew; [|done]. cbn [bind].
  destruct (node_at t p) as [[b| |target|]|] eqn:En; try done.
  - apply (Hgo t p); [done|done| |done]. apply walk_follow; [done|]. by rewrite En.
  - destruct (walk MAX_LINKS t true (over ++ [c]) []) as [q|] eqn:Ew'; [|done]. cbn [bind].
    destruct (node_at t q) as [[]|] eqn:Eq; try done. by apply (Hgo t q).
  - apply (Hgo (<[p := NDir]> t) p).
    + apply tree_ok_insert; [done|by eapply (walk_ends t Hok); [|exact Ew]|by rewrite En].
    + by apply grows_insert.
    + apply walk_insert; [by rewrite En|]. apply walk_follow; [done|]. by rewrite En.
    + destruct p as [|x p]; [done|]. rewrite node_at_insert by done. by rewrite decide_True.
Qed.

Lemma mkdirp_spec t path t' :
  tree_ok t -> fs_mkdirp t path = Ok t' ->
  tree_ok t' /\ grows t t' /\ exists p, locate t' true path = Ok p /\ node_at t' p = Some NDir.
Proof.
  intros Hok Hm. destruct (make_dirs_spec _ _ _ _ Hok Hm) as (H1 & H2 & H3). split_and!; [done|done|]. unfold locate.
  destruct (components false path) as [|c cs]; [exists []; by rewrite walk_nil|by apply H3].
Qed.

(** ** Writing and reading *)

Section Files.
Context (device_read : list jstr -> result errno (list Z)) (device_write : list jstr -> list Z -> option errno).

(** What an update does: one file gets new bytes, or a device takes them. *)
Lemma fs_update_spec t path update t' :
  fs_update device_write t path update = Ok t' ->
  exists p, locate t true path = Ok p /\
    ((exists old, node_at t p = Some (NFile old) /\ t' = <[p := NFile (update old)]> t) \/
     (node_at t p = None /\ t' = <[p := NFile (update [])]> t) \/
     (node_at t p = Some NOther /\ t' = t)).
Proof.
  unfold fs_update. destruct (locate t true path) as [p|]; [|done]. cbn [bind]. intros H. exists p. split; [done|].
  destruct (node_at t p) as [[old| | |]|] eqn:En; try done.
  - injection H as <-. left. by exists old.
  - right; right. by destruct (device_write _ _); [|injection H as <-].
  - injection H as <-. right; left. done.
Qed.

Lemma fs_update_ok t path update t' : tree_ok t -> fs_update device_write t path update = Ok t' -> tree_ok t'.
Proof.
  intros Hok H. destruct (fs_update_spec _ _ _ _ H) as (p & Hp & [(old & Hn & ->)|[[Hn ->]|[_ ->]]]); [| |done];
    (apply tree_ok_insert; [done|by eapply locate_ends|by rewrite Hn]).
Qed.

(** What was written is read back, at any path that leads there. *)
Lemma write_read t path bytes t' p path' :
  fs_writeFile device_write t path bytes = Ok t' -> locate t true path = Ok p -> node_at t p ≠ Some NOther -> locate t true path' = Ok p ->
  fs_readFile device_read t' path' = Ok bytes.
Proof.
  intros Hw Hp Hno Hp'. destruct (fs_update_spec _ _ _ _ Hw) as (p0 & Hp0 & H). rewrite Hp in Hp0. injection Hp0 as <-.
  assert (exists b, may_become (node_at t p) (NFile b) /\ t' = <[p := NFile bytes]> t) as (b & Hm & ->).
  { destruct H as [(old & -> & ->)|[[-> ->]|[H _]]]; [by exists old|by exists []|done]. }
  assert (Hm' : may_become (node_at t p) (NFile bytes)) by (by destruct (node_at t p) as [[]|]).
  unfold fs_readFile, locate. rewrite (walk_insert _ _ _ _ _ _ _ _ Hm' Hp'). cbn [bind].
  destruct p as [|x p]; [done|]. rewrite node_at_insert by done. by rewrite decide_True.
Qed.

(** Files elsewhere stay as they are. *)
Lemma write_elsewhere t path update t' p path' q bytes :
  fs_update device_write t path update = Ok t' -> locate t true path = Ok p -> locate t true path' = Ok q -> p ≠ q ->
  node_at t q = Some (NFile bytes) -> fs_readFile device_read t' path' = Ok bytes.
Proof.
  intros Hw Hp Hq Hne Hn. assert (Hqne : q ≠ []) by (by intros ->).
  assert (Hsame : fs_readFile device_read t path' = Ok bytes) by (unfold fs_readFile; rewrite Hq; cbn [bind]; by rewrite Hn).
  assert (Hins : forall b, may_become (node_at t p) (NFile b) -> fs_readFile device_read (<[p := NFile b]> t) path' = Ok bytes).
  { intros b Hm. unfold fs_readFile, locate. rewrite (walk_insert _ _ _ _ _ _ _ _ Hm Hq). cbn [bind].
    rewrite node_at_insert by done. by rewrite decide_False, Hn by done. }
  destruct (fs_update_spec _ _ _ _ Hw) as (p0 & Hp0 & H). rewrite Hp in Hp0. injection Hp0 as <-.
  destruct H as [(old & Ho & ->)|[[Ho ->]|[_ ->]]]; [apply Hins; by rewrite Ho|apply Hins; by rewrite Ho|done].
Qed.

Lemma read_grows t t' path bytes :
  grows t t' -> (exists p, locate t true path = Ok p /\ node_at t p = Some (NFile bytes)) -> fs_readFile device_read t' path = Ok bytes.
Proof.
  intros Hg (p & Hp & Hn). unfold fs_readFile, locate. rewrite (grows_walks _ _ Hg _ _ _ _ _ Hp). cbn [bind]. by rewrite (grows_nodes _ _ Hg _ _ Hn).
Qed.
End Files.

(** ** Removing and moving *)

Lemma without_lookup t p q : without t p !! q = if below p q then None else t !! q.
Proof.
  unfold without. destruct (below p q) eqn:E.
  - apply map_lookup_filter_None_2. right. intros n _ H. cbn [fst] in H. congruence.
  - destruct (t !! q) as [n|] eqn:En; [by apply map_lookup_filter_Some_2|]. apply map_lookup_filter_None_2. by left.
Qed.

Lemma below_spec p q : below p q = true <-> p `prefix_of` q.
Proof. unfold below. by rewrite bool_decide_eq_true. Qed.

Lemma below_false p q : below p q = false <-> ~ p `prefix_of` q.
Proof. unfold below. by rewrite bool_decide_eq_false. Qed.

Lemma below_snoc p q c : below p (q ++ [c]) = false -> below p q = false.
Proof. rewrite !below_false. intros H Hp. apply H. by apply prefix_app_r. Qed.

Lemma tree_ok_without t p : tree_ok t -> p ≠ [] -> tree_ok (without t p).
Proof.
  intros [Hr Hp] Hne. split; [rewrite without_lookup; by destruct (below p [])|]. intros q c [n Hn]. rewrite without_lookup in Hn.
  destruct (below p (q ++ [c])) eqn:E; [done|]. apply below_snoc in E. assert (Hq : node_at t q = Some NDir) by (apply (Hp q c); by eexists).
  destruct q as [|x q]; [done|]. cbn [node_at]. by rewrite without_lookup, E.
Qed.

Lemma move_Some t s d q n :
  ~ s `prefix_of` d -> ~ d `prefix_of` s ->
  move t s d !! q = Some n <-> (exists r, q = d ++ r /\ t !! (s ++ r) = Some n) \/ (~ s `prefix_of` q /\ ~ d `prefix_of` q /\ t !! q = Some n).
Proof.
  intros Hsd Hds. unfold move. set (f := fun kv : list jstr * node => (if below s kv.1 then d ++ drop (length s) kv.1 else kv.1, kv.2)).
  assert (Hk : forall k v, (k, v) ∈ map_to_list (without t d) <-> ~ d `prefix_of` k /\ t !! k = Some v).
  { intros k v. rewrite elem_of_map_to_list, without_lookup. destruct (below d k) eqn:E; [apply below_spec in E; naive_solver|apply below_false in E; naive_solver]. }
  assert (Hs : forall r v, f (s ++ r, v) = (d ++ r, v)).
  { intros r v. unfold f. cbn [fst snd]. rewrite (proj2 (below_spec s (s ++ r))) by (by exists r). by rewrite drop_app_length. }
  assert (Ho : forall k v, ~ s `prefix_of` k -> f (k, v) = (k, v)).
  { intros k v H. unfold f. cbn [fst snd]. by rewrite (proj2 (below_false s k)). }
  assert (Hsplit : forall k, (exists r, k = s ++ r) \/ ~ s `prefix_of` k) by (intros k; destruct (decide (s `prefix_of` k)) as [[r ->]|]; eauto).
  rewrite <- elem_of_list_to_map.
  - rewrite list_elem_of_fmap. split.
    + intros ([k v] & Hf & Hin). apply Hk in Hin as [Hd Ht]. destruct (Hsplit k) as [[r ->]|Hn].
      * rewrite Hs in Hf. simplify_eq. left. by exists r.
      * rewrite (Ho k v Hn) in Hf. simplify_eq. by right.
    + intros [(r & -> & Ht)|(Hn & Hd & Ht)].
      * exists (s ++ r, n). rewrite Hs. split; [done|]. apply Hk. split; [|done]. intros Hp.
        destruct (prefix_weak_total d s (s ++ r)) as [?|?]; [done|by exists r|done|done].
      * exists (q, n). rewrite Ho by done. split; [done|]. by apply Hk.
  - change (fmap (fst (B := node)) (map f (map_to_list (without t d)))) with (fst <$> (f <$> map_to_list (without t d))). rewrite <- list_fmap_compose.
    apply NoDup_fmap_2_strong; [|apply NoDup_map_to_list]. intros [k1 v1] [k2 v2] H1 H2. apply Hk in H1 as [D1 T1], H2 as [D2 T2].
    unfold compose. destruct (Hsplit k1) as [[r1 ->]|N1], (Hsplit k2) as [[r2 ->]|N2]; rewrite ?Hs, ?Ho by done; cbn [fst]; intros E.
    + apply app_inv_head in E as ->. congruence.
    + subst k2. by destruct D2; exists r1.
    + subst k1. by destruct D1; exists r2.
    + subst k2. congruence.
Qed.

Lemma tree_ok_move t s d : tree_ok t -> in_directory t d -> ~ s `prefix_of` d -> ~ d `prefix_of` s -> tree_ok (move t s d).
Proof.
  intros Hok Hd Hsd Hds. assert (Hkeep : forall q, node_at t q = Some NDir -> ~ s `prefix_of` q -> ~ d `prefix_of` q -> node_at (move t s d) q = Some NDir).
  { intros [|x q] Hq H1 H2; [done|]. apply move_Some; [done|done|]. by right. }
  split.
  - apply eq_None_not_Some. intros [n Hn]. apply move_Some in Hn as [(r & E & _)|(_ & _ & H)]; [|by rewrite (ok_root t Hok) in H|done|done].
    symmetry in E. apply app_eq_nil in E as [-> _]. destruct Hds. apply prefix_nil.
  - intros q c [n Hn]. apply move_Some in Hn as [(r & E & Hn)|(H1 & H2 & Hn)]; [| |done|done].
    + destruct r as [|c' r _] using rev_ind.
      * rewrite app_nil_r in E. subst d. destruct Hd as [?|(q' & c'' & [-> ->]%app_inj_tail & Hq)]; [by destruct q|]. apply Hkeep; [done| |].
        -- intros H. apply Hsd. by apply prefix_app_r.
        -- intros H. apply prefix_length in H. rewrite length_app in H. cbn [length] in H. lia.
      * rewrite app_assoc in E. apply app_inj_tail in E as [-> ->]. rewrite app_assoc in Hn.
        assert (Hp : node_at t (s ++ r) = Some NDir) by (eapply ok_parent; [done|by eexists]).
        destruct (d ++ r) as [|x y] eqn:Ex; [done|]. rewrite <- Ex. rewrite node_at_lookup by (by rewrite Ex). apply move_Some; [done|done|]. left. exists r. split; [done|].
        apply node_at_lookup; [|done]. intros Hnil. apply app_eq_nil in Hnil as [-> _]. destruct Hsd. apply prefix_nil.
    + apply Hkeep; [eapply ok_parent; [done|by eexists]| |]; intros H; [apply H1|apply H2]; by apply prefix_app_r.
Qed.

(** What is in a directory has a name in its listing. *)
Lemma names_in_spec t p c : c ∈ names_in t p <-> is_Some (t !! (p ++ [c])).
Proof.
  unfold names_in. rewrite list_elem_of_omap. split.
  - intros ([k n] & Hin & He). cbn [fst] in He. unfold entry_name in He. destruct (decide _) as [[Hl [r ->]]|]; [|done].
    apply elem_of_map_to_list in Hin. rewrite length_app in Hl. destruct r as [|x [|y r]]; cbn [length] in Hl; [lia| |lia].
    rewrite last_snoc in He. injection He as ->. by eexists.
  - intros [n Hn]. exists (p ++ [c], n). split; [by apply elem_of_map_to_list|]. cbn [fst]. unfold entry_name.
    rewrite decide_True by (split; [rewrite length_app; cbn [length]; lia|by exists [c]]). by rewrite last_snoc.
Qed.

Lemma names_in_NoDup t p : NoDup (names_in t p).
Proof.
  unfold names_in. assert (H : NoDup (map_to_list t)) by apply NoDup_map_to_list. revert H.
  assert (Hkeys : forall kv kv', kv ∈ map_to_list t -> kv' ∈ map_to_list t -> forall c, entry_name p kv.1 = Some c -> entry_name p kv'.1 = Some c -> kv = kv').
  { intros [k n] [k' n'] H1 H2 c E1 E2. apply elem_of_map_to_list in H1, H2. cbn [fst] in *.
    assert (Hk : forall k, entry_name p k = Some c -> k = p ++ [c]).
    { clear. intros k E. unfold entry_name in E. destruct (decide _) as [[Hl [r ->]]|]; [|done]. rewrite length_app in Hl.
      destruct r as [|x [|y r]]; cbn [length] in Hl; [lia| |lia]. rewrite last_snoc in E. by injection E as ->. }
    apply Hk in E1 as ->, E2 as ->. congruence. }
  induction (map_to_list t) as [|kv l IH]; [constructor|]. intros [Hnin HN]%NoDup_cons. cbn [omap list_omap].
  assert (IH' : NoDup (omap (fun kv : list jstr * node => entry_name p kv.1) l)).
  { apply IH; [|done]. intros a b Ha Hb. apply Hkeys; by right. }
  destruct (entry_name p kv.1) as [c|] eqn:E; [|done]. apply NoDup_cons. split; [|done].
  change (c ∉ omap (fun kv : list jstr * node => entry_name p kv.1) l). rewrite list_elem_of_omap. intros (kv' & Hin & E').
  apply Hnin. rewrite (Hkeys kv kv' ltac:(left) ltac:(by right) c E E'). done.
Qed.

(** Above a node there is a directory. *)
Lemma prefix_directory t p r c : tree_ok t -> is_Some (t !! (p ++ r ++ [c])) -> node_at t p = Some NDir.
Proof.
  intros Hok. revert c. induction r as [|c' r IH] using rev_ind; intros c H; [by eapply ok_parent|].
  apply (IH c'). rewrite app_assoc in H. apply (ok_parent t Hok) in H. rewrite app_assoc, node_at_snoc in H. rewrite app_assoc. by eexists.
Qed.

(** A renaming that succeeds: nothing changes, or the source is moved to a place
    that is apart from it. *)
Lemma fs_rename_spec t source destination t' :
  tree_ok t -> fs_rename t source destination = Ok t' ->
  exists ps pd n, locate t false source = Ok ps /\ locate t false destination = Ok pd /\ node_at t ps = Some n /\
    ((ps = pd /\ t' = t) \/ (~ ps `prefix_of` pd /\ ~ pd `prefix_of` ps /\ t' = move t ps pd)).
Proof.
  intros Hok. unfold fs_rename. destruct (locate t false source) as [ps|]; [|done]. destruct (locate t false destination) as [pd|]; [|done].
  cbn [bind]. destruct (node_at t ps) as [n|] eqn:En; [|done]. intros H. exists ps, pd, n. split_and!; [done|done|done|].
  case_bool_decide as Heq; [left; split; [done|congruence]|]. destruct (below ps pd) eqn:Eb; [done|]. apply below_false in Eb.
  assert (Hstrict : pd `prefix_of` ps -> node_at t pd = Some NDir /\ names_in t pd ≠ []).
  { intros [r ->]. assert (Hs : is_Some (t !! (pd ++ r))).
    { apply node_at_lookup in En; [by eexists|]. intros E. apply app_eq_nil in E as [-> ->]. by destruct Eb. }
    destruct r as [|c r]; [by rewrite app_nil_r in Heq|].
    assert (Hin : c ∈ names_in t pd).
    { apply names_in_spec. destruct r as [|d r]; [done|]. destruct (exists_last (l := d :: r) ltac:(done)) as (r' & d' & E). rewrite E in Hs.
      change (c :: r' ++ [d']) with ([c] ++ r' ++ [d']) in Hs. rewrite app_assoc in Hs. apply prefix_directory in Hs; [|done]. rewrite node_at_snoc in Hs. by eexists. }
    split; [|intros E; rewrite E in Hin; by apply elem_of_nil in Hin]. apply names_in_spec in Hin. by eapply ok_parent. }
  right. destruct (node_at t pd) as [nd|] eqn:Ed.
  - assert (Hno : ~ pd `prefix_of` ps -> ~ ps `prefix_of` pd /\ ~ pd `prefix_of` ps /\ t' = move t ps pd).
    { intros Hn. split_and!; [done|done|]. destruct n, nd; try done; try congruence. by destruct (names_in t pd); [congruence|]. }
    apply Hno. intros Hp. destruct (Hstrict Hp) as [[= ->] Hne]. destruct n; try done. by destruct (names_in t pd).
  - split_and!; [done| |destruct n; congruence]. intros Hp. by destruct (Hstrict Hp).
Qed.

Lemma fs_rename_ok t source destination t' : tree_ok t -> fs_rename t source destination = Ok t' -> tree_ok t'.
Proof.
  intros Hok H. destruct (fs_rename_spec _ _ _ _ Hok H) as (ps & pd & n & _ & Hd & _ & [[_ ->]|(H1 & H2 & ->)]); [done|].
  apply tree_ok_move; [done|by eapply locate_ends|done|done].
Qed.

(** Nothing is below what is no directory. *)
Lemma nothing_below t p r : tree_ok t -> p ≠ [] -> node_at t p ≠ Some NDir -> r ≠ [] -> t !! (p ++ r) = None.
Proof.
  intros Hok Hne Hp Hr. destruct (exists_last Hr) as (r' & c & ->). apply eq_None_not_Some. intros Hs. by apply prefix_directory in Hs.
Qed.

(** Moving a file to where no directory is. *)
Lemma move_file t s d b :
  tree_ok t -> ~ s `prefix_of` d -> ~ d `prefix_of` s -> node_at t s = Some (NFile b) -> node_at t d ≠ Some NDir ->
  move t s d = <[d := NFile b]> (delete s t).
Proof.
  intros Hok Hsd Hds Hs Hd. assert (Hsne : s ≠ []) by (by intros ->). assert (Hdne : d ≠ []) by (intros ->; apply Hds, prefix_nil).
  assert (Hne : s ≠ d) by (by intros ->). assert (Hss : forall r, r ≠ [] -> t !! (s ++ r) = None) by (intros r; apply nothing_below; [done|done|by rewrite Hs]).
  assert (Hdd : forall r, r ≠ [] -> t !! (d ++ r) = None) by (intros r; by apply nothing_below).
  apply map_eq. intros q. apply option_eq. intros n. rewrite move_Some by done. apply node_at_lookup in Hs; [|done].
  destruct (decide (d = q)) as [<-|Hq]; [rewrite lookup_insert_eq|rewrite lookup_insert_ne by done; destruct (decide (s = q)) as [<-|Hsq];
    [rewrite lookup_delete_eq|rewrite lookup_delete_ne by done]].
  - split; [intros [(r & E & Hr)|(_ & H & _)]; [|by destruct H]|intros [= <-]; left; exists []; by rewrite !app_nil_r].
    assert (r = []) as -> by (apply (app_inv_head d); by rewrite app_nil_r). rewrite app_nil_r in Hr. congruence.
  - split; [|done]. intros [(r & E & Hr)|(H & _)]; [|by destruct H]. destruct Hds. by exists r.
  - split.
    + intros [(r & -> & Hr)|(_ & _ & H)]; [|done]. destruct r as [|x r]; [by rewrite app_nil_r in Hq|]. by rewrite Hss in Hr.
    + intros Hn. right. split_and!; [| |done].
      * intros [r ->]. destruct r as [|x r]; [by rewrite app_nil_r in Hsq|]. by rewrite Hss in Hn.
      * intros [r ->]. destruct r as [|x r]; [by rewrite app_nil_r in Hq|]. by rewrite Hdd in Hn.
Qed.

(** Walks that do not end at a file do not pass it. *)
Lemma walk_delete t s b links follow todo base p :
  node_at t s = Some (NFile b) -> p ≠ s -> walk links t follow todo base = Ok p -> walk links (delete s t) follow todo base = Ok p.
Proof.
  intros Hs Hp. assert (Hsne : s ≠ []) by (by intros ->).
  assert (Hd : forall q, q ≠ s -> node_at (delete s t) q = node_at t q) by (intros [|x q] Hq; [done|]; cbn [node_at]; by rewrite lookup_delete_ne).
  revert todo base. induction links as [|links IHl]; (induction todo as [|c todo IHt]; intros base; [by rewrite !walk_nil|]);
    rewrite !walk_unfold; (destruct (streq c DOTDOT); [apply IHt|]);
    (destruct (decide (base ++ [c] = s)) as [E|E]; [rewrite E, Hs; by destruct todo; [intros [= <-]|]|]); rewrite Hd by done;
    destruct (node_at t (base ++ [c])) as [[]|]; try done; try (by apply IHt);
    (destruct (negb follow && bool_decide (todo = [])); [done|]); first [done|apply IHl].
Qed.

(** After a file was renamed to where no directory and no link was, its bytes are
    read at the new path and nothing is at the old one. *)
Lemma rename_read device_read t source destination t' ps pd b :
  tree_ok t -> fs_rename t source destination = Ok t' -> locate t false source = Ok ps -> locate t false destination = Ok pd -> ps ≠ pd ->
  node_at t ps = Some (NFile b) -> match node_at t pd with None | Some (NFile _) => True | _ => False end ->
  fs_readFile device_read t' destination = Ok b /\ node_at t' ps = None.
Proof.
  intros Hok Hr Hs Hd Hne Hns Hnd. destruct (fs_rename_spec _ _ _ _ Hok Hr) as (ps' & pd' & n & Hs' & Hd' & _ & H).
  rewrite Hs in Hs'. rewrite Hd in Hd'. simplify_eq. destruct H as [[? _]|(H1 & H2 & ->)]; [done|].
  assert (Hsne : ps' ≠ []) by (by intros ->). assert (Hdne : pd' ≠ []) by (by intros ->).
  rewrite (move_file t ps' pd' b) by (done || by destruct (node_at t pd') as [[]|]). split.
  - assert (Hw : walk MAX_LINKS t true (components false destination) [] = Ok pd') by (apply walk_follow; [done|by destruct (node_at t pd') as [[]|]]).
    apply (walk_delete t ps' b) in Hw; [|done|done]. assert (Hm : may_become (node_at (delete ps' t) pd') (NFile b)).
    { destruct pd' as [|x q]; [done|]. cbn [node_at]. rewrite lookup_delete_ne by done. cbn [node_at] in Hnd. by destruct (t !! (x :: q)) as [[]|]. }
    unfold fs_readFile, locate. rewrite (walk_insert _ _ _ _ _ _ _ _ Hm Hw). cbn [bind]. rewrite node_at_insert by done. by rewrite decide_True.
  - destruct ps' as [|x q]; [done|]. rewrite node_at_insert by done. rewrite decide_False by done. cbn [node_at]. by rewrite lookup_delete_eq.
Qed.

(** ** New directories *)

(** A directory made where a path leads, and a name in it. *)
Lemma walk_extend t links todo base p c :
  tree_ok t -> walk links t false todo base = Ok p -> node_at t p = None -> c ≠ DOTDOT ->
  walk links (<[p := NDir]> t) true (todo ++ [c]) base = Ok (p ++ [c]) /\ node_at (<[p := NDir]> t) (p ++ [c]) = None.
Proof.
  intros Hok Hw Hn Hc. assert (Hpne : p ≠ []) by (by intros ->).
  assert (Hnone : node_at (<[p := NDir]> t) (p ++ [c]) = None).
  { rewrite node_at_snoc, lookup_insert_ne by (intros E; apply (f_equal length) in E; rewrite length_app in E; cbn [length] in E; lia).
    apply nothing_below; [done|done|by rewrite Hn|done]. }
  split; [|exact Hnone].
  assert (Hgrow : forall l, walk l (<[p := NDir]> t) true [c] p = Ok (p ++ [c])).
  { intros l. rewrite walk_unfold. destruct (streq c DOTDOT) eqn:E; [by apply streq_true in E|]. by rewrite Hnone. }
  revert todo base Hw. induction links as [|links IHl]; (induction todo as [|x todo IHt]; intros base; [rewrite walk_nil; intros [= ->]; apply Hgrow|]);
    cbn [app]; rewrite !walk_unfold; (destruct (streq x DOTDOT); [apply IHt|]);
    (destruct (decide (p = base ++ [x])) as [->|E];
      [rewrite Hn; destruct todo as [|? ?]; [intros _; cbn [app]; rewrite node_at_insert by (by destruct base); rewrite decide_True by done; apply Hgrow|done]|]);
    rewrite node_at_insert by (by destruct base); rewrite decide_False by done;
    destruct (node_at t (base ++ [x])) as [[]|] eqn:En; try (by destruct todo; [intros [= <-]; congruence|]); try (by apply IHt);
    cbn [negb andb]; (case_bool_decide; [intros [= <-]; congruence|]); first [done|intros Hw; rewrite app_assoc; by apply IHl].
Qed.

(** Into a directory that a path leads to. *)
Lemma walk_into t links todo base p c :
  walk links t true todo base = Ok p -> node_at t p = Some NDir -> c ≠ DOTDOT -> is_Some (t !! (p ++ [c])) ->
  walk links t false (todo ++ [c]) base = Ok (p ++ [c]).
Proof.
  intros Hw Hp Hc Hs. assert (Hlast : forall l, walk l t false [c] p = Ok (p ++ [c])).
  { intros l. rewrite walk_unfold. destruct (streq c DOTDOT) eqn:E; [by apply streq_true in E|]. rewrite node_at_snoc.
    destruct Hs as [n ->]. destruct n; rewrite ?walk_nil; done. }
  revert todo base Hw. induction links as [|links IHl]; (induction todo as [|x todo IHt]; intros base; [rewrite walk_nil; intros [= ->]; apply Hlast|]);
    cbn [app]; rewrite !walk_unfold; (destruct (streq x DOTDOT); [apply IHt|]);
    destruct (node_at t (base ++ [x])) as [[]|] eqn:En; try (by destruct todo; [intros [= <-]; congruence|]); try (by apply IHt);
    cbn [negb andb]; rewrite bool_decide_eq_false_2 by (by destruct todo); first [done|intros Hw; rewrite app_assoc; by apply IHl].
Qed.
