(* ===== verification/NodeEnv.v ===== *)
(** The file system half of the execution environment of the tools: class
    NodeExecutionEnv of packages/agent, env/nodejs.js, bundled in
    src/drivers/tools/pibridge/bridge.mjs.  A method is a function of the tree of
    [FileSystem]; [aborted k] is what look [k] at the abort signal sees, [fault k]
    what the system does to its [k]-th call besides what the tree says. *)
From S2P Require Import Prelude Utf8 NodePath FileSystem.
Open Scope Z_scope.

(** ** Errors *)

Record file_error := FileError { fe_code : jstr; fe_message : jstr; fe_path : option jstr }.

(** What may be file_cause: a [FileError], an error of Node with a code, or another. *)
Inductive file_cause :=
| ThrownFileError (e : file_error)
| ThrownNodeError (code : errno) (message : jstr) (path : option jstr)
| ThrownError (message : jstr).

Definition errno_name (e : errno) : jstr :=
  match e with
  | ENOENT => js "ENOENT" | EACCES => js "EACCES" | EPERM => js "EPERM" | ENOTDIR => js "ENOTDIR" | EISDIR => js "EISDIR"
  | EINVAL => js "EINVAL" | EEXIST => js "EEXIST" | ENOTEMPTY => js "ENOTEMPTY" | ELOOP => js "ELOOP" | ABORT_ERR => js "ABORT_ERR"
  | OtherErrno code => code
  end.

(** The code of a [FileError] for that of a Node error. *)
Definition code_of_errno (code : jstr) : option jstr :=
  if streq code (js "ABORT_ERR") then Some (js "aborted")
  else if streq code (js "ENOENT") then Some (js "not_found")
  else if streq code (js "EACCES") || streq code (js "EPERM") then Some (js "permission_denied")
  else if streq code (js "ENOTDIR") then Some (js "not_directory")
  else if streq code (js "EISDIR") then Some (js "is_directory")
  else if streq code (js "EINVAL") then Some (js "invalid")
  else None.

Definition toFileError (error : file_cause) (fallbackPath : option jstr) : file_error :=
  match error with
  | ThrownFileError e => e
  | ThrownNodeError code message path =>
      let path := match path with Some p => Some p | None => fallbackPath end in
      FileError (nullish (code_of_errno (errno_name code)) (js "unknown")) message path
  | ThrownError message => FileError (js "unknown") message fallbackPath
  end.

Definition abort_error (path : option jstr) : file_error := FileError (js "aborted") (js "aborted") path.

(** ** What [lstat] says *)

Inductive file_kind := KFile | KDirectory | KSymlink.

Definition fileKindFromStats (n : node) : option file_kind :=
  match n with NFile _ => Some KFile | NDir => Some KDirectory | NLink _ => Some KSymlink | NOther => None end.

Record file_info := FileInfo { fi_name : jstr; fi_path : jstr; fi_kind : file_kind; fi_size : Z; fi_mtime : Z }.

(** ** The methods *)

(** A fault: an error, and, when bytes are being written, what is left of the file. *)
Record fault := Fault { ft_code : errno; ft_left : option (list Z) }.

Section Methods.
Context (device_read : list jstr -> result errno (list Z)) (device_write : list jstr -> list Z -> option errno).
(** The text of a Node error, and what [lstat] says besides the kind. *)
Context (message : errno -> jstr -> jstr) (stats : list jstr -> node -> Z * Z).
(** [process.cwd()], [os.homedir()], the platform, [fileURLToPath], and [this.cwd]. *)
Context (process_cwd home : jstr) (win32 : bool) (fileURLToPath : jstr -> result jstr jstr) (cwd : jstr).

#[local] Abbreviation resolved_path := (resolvePath2 process_cwd home win32 fileURLToPath cwd).

Definition fileInfoFromStats (path : jstr) (p : list jstr) (n : node) : result file_error file_info :=
  match fileKindFromStats n with
  | None => Throw (FileError (js "invalid") (js "Unsupported file type") (Some path))
  | Some kind => Ok (FileInfo (path_basename path) path kind (stats p n).1 (stats p n).2)
  end.

(** An error of a call on [path], as the [catch] clauses turn it into a value. *)
Definition caught (path : jstr) (e : errno) : file_error := toFileError (ThrownNodeError e (message e path) (Some path)) (Some path).

(** A call that is given [path]; it may fail for a reason of the system's. *)
Definition calling {A} (f : option fault) (path : jstr) (r : result errno A) : result file_error A :=
  match f with
  | Some f => Throw (caught path (ft_code f))
  | None => match r with Ok a => Ok a | Throw e => Throw (caught path e) end
  end.

(** A write that fails part-way leaves some bytes. *)
Definition left_over (f : option fault) (t : tree) (path : jstr) : tree :=
  match f with
  | Some (Fault _ (Some bytes)) => match fs_writeFile device_write t path bytes with Ok t' => t' | Throw _ => t end
  | _ => t
  end.

Section Call.
Context (aborted : nat -> bool) (fault_at : nat -> option fault).

Definition abortResult (k : nat) (path : option jstr) : option file_error := if aborted k then Some (abort_error path) else None.

Definition readBinaryFile (t : tree) (path : jstr) : result file_error (list Z) :=
  let resolved := resolved_path path in
  match abortResult 0 (Some resolved) with
  | Some e => Throw e
  | None => calling (fault_at 0) resolved (fs_readFile device_read t resolved)
  end.

Definition readTextFile (t : tree) (path : jstr) : result file_error jstr :=
  let! bytes := readBinaryFile t path in Ok (utf8_decode bytes).

(** The loop over the lines: look [k] at the signal precedes each. *)
Fixpoint take_lines (k : nat) (resolved : jstr) (maxLines : option Z) (taken lines : list jstr) : result file_error (list jstr) :=
  match lines with
  | [] => match abortResult k (Some resolved) with Some e => Throw e | None => Ok taken end
  | line :: rest =>
      match abortResult k (Some resolved) with
      | Some e => Throw e
      | None =>
          let taken := taken ++ [line] in
          if match maxLines with Some m => m <=? Z.of_nat (length taken) | None => false end
          then match abortResult (S k) (Some resolved) with Some e => Throw e | None => Ok taken end
          else take_lines (S k) resolved maxLines taken rest
      end
  end.

Definition readTextLines (t : tree) (path : jstr) (maxLines : option Z) : result file_error (list jstr) :=
  let resolved := resolved_path path in
  match abortResult 0 (Some resolved) with
  | Some e => Throw e
  | None =>
      if match maxLines with Some m => m <=? 0 | None => false end then Ok []
      else
        let! bytes := calling (fault_at 0) resolved (fs_readFile device_read t resolved) in
        take_lines 1 resolved maxLines [] (text_lines [] (utf8_decode bytes))
  end.

(** [resolve(resolved, "..")] *)
Definition parent_path (resolved : jstr) : jstr := path_resolve process_cwd [resolved; DOTDOT].

Definition writeBytes (t : tree) (path : jstr) (bytes : list Z) : tree * result file_error () :=
  let resolved := resolved_path path in
  match abortResult 0 (Some resolved) with
  | Some e => (t, Throw e)
  | None =>
      match calling (fault_at 0) (parent_path resolved) (fs_mkdirp t (parent_path resolved)) with
      | Throw e => (t, Throw e)
      | Ok t1 =>
          match abortResult 1 (Some resolved) with
          | Some e => (t1, Throw e)
          | None =>
              match calling (fault_at 1) resolved (fs_writeFile device_write t1 resolved bytes) with
              | Throw e => (left_over (fault_at 1) t1 resolved, Throw e)
              | Ok t2 => (t2, Ok ())
              end
          end
      end
  end.

Definition writeFile (t : tree) (path content : jstr) : tree * result file_error () := writeBytes t path (utf8_encode content).

Definition appendFile (t : tree) (path content : jstr) : tree * result file_error () :=
  let resolved := resolved_path path in
  match abortResult 0 (Some resolved) with
  | Some e => (t, Throw e)
  | None =>
      match calling (fault_at 0) (parent_path resolved) (fs_mkdirp t (parent_path resolved)) with
      | Throw e => (t, Throw e)
      | Ok t1 =>
          match abortResult 1 (Some resolved) with
          | Some e => (t1, Throw e)
          | None =>
              match calling (fault_at 1) resolved (fs_appendFile device_write t1 resolved (utf8_encode content)) with
              | Throw e => (left_over (fault_at 1) t1 resolved, Throw e)
              | Ok t2 => (t2, match abortResult 2 (Some resolved) with Some e => Throw e | None => Ok () end)
              end
          end
      end
  end.

Definition renameFile (t : tree) (sourcePath destinationPath : jstr) : tree * result file_error () :=
  let source := resolved_path sourcePath in
  let destination := resolved_path destinationPath in
  match abortResult 0 (Some destination) with
  | Some e => (t, Throw e)
  | None => match calling (fault_at 0) source (fs_rename t source destination) with Throw e => (t, Throw e) | Ok t' => (t', Ok ()) end
  end.

Definition fileInfo (t : tree) (path : jstr) : result file_error file_info :=
  let resolved := resolved_path path in
  match abortResult 0 (Some resolved) with
  | Some e => Throw e
  | None => let! s := calling (fault_at 0) resolved (fs_lstat t resolved) in fileInfoFromStats resolved s.1 s.2
  end.

(** The loop over the entries of a directory; one of an unsupported kind is left out. *)
Fixpoint list_entries (k : nat) (t : tree) (resolved : jstr) (names : list jstr) : result file_error (list file_info) :=
  match names with
  | [] => Ok []
  | name :: rest =>
      match abortResult k (Some resolved) with
      | Some e => Throw e
      | None =>
          let entryPath := path_resolve process_cwd [resolved; name] in
          let! s := calling (fault_at k) entryPath (fs_lstat t entryPath) in
          let! more := list_entries (S k) t resolved rest in
          match fileInfoFromStats entryPath s.1 s.2 with Ok info => Ok (info :: more) | Throw _ => Ok more end
      end
  end.

Definition listDir (t : tree) (path : jstr) : result file_error (list file_info) :=
  let resolved := resolved_path path in
  match abortResult 0 (Some resolved) with
  | Some e => Throw e
  | None => let! names := calling (fault_at 0) resolved (fs_readdir t resolved) in list_entries 1 t resolved names
  end.

Definition canonicalPath (t : tree) (path : jstr) : result file_error jstr :=
  let resolved := resolved_path path in
  match abortResult 0 (Some resolved) with
  | Some e => Throw e
  | None => calling (fault_at 0) resolved (fs_realpath t resolved)
  end.

Definition env_exists (t : tree) (path : jstr) : result file_error bool :=
  match fileInfo t path with
  | Ok _ => Ok true
  | Throw e => if streq (fe_code e) (js "not_found") then Ok false else Throw e
  end.

Definition createDir (t : tree) (path : jstr) (recursive : option bool) : tree * result file_error () :=
  let resolved := resolved_path path in
  match abortResult 0 (Some resolved) with
  | Some e => (t, Throw e)
  | None =>
      match calling (fault_at 0) resolved (if nullish recursive true then fs_mkdirp t resolved else fs_mkdir t resolved) with
      | Throw e => (t, Throw e)
      | Ok t' => (t', Ok ())
      end
  end.

Definition env_remove (t : tree) (path : jstr) (recursive force : option bool) : tree * result file_error () :=
  let resolved := resolved_path path in
  match abortResult 0 (Some resolved) with
  | Some e => (t, Throw e)
  | None =>
      match calling (fault_at 0) resolved (fs_rm t resolved (nullish recursive false) (nullish force false)) with
      | Throw e => (t, Throw e)
      | Ok t' => (t', Ok ())
      end
  end.

(** [tmpdir] is [os.tmpdir()], [random] what [mkdtemp] adds. *)
Definition createTempDir (t : tree) (tmpdir random : jstr) (prefix : option jstr) : tree * result file_error jstr :=
  match abortResult 0 None with
  | Some e => (t, Throw e)
  | None =>
      let prefix := path_join [tmpdir; nullish prefix (js "tmp-")] in
      match calling (fault_at 0) (prefix ++ js "XXXXXX") (fs_mkdtemp t prefix random) with
      | Throw e => (t, Throw e)
      | Ok (dir, t') => (t', Ok dir)
      end
  end.

Definition createTempFile (t : tree) (tmpdir random uuid : jstr) (prefix suffix : option jstr) : tree * result file_error jstr :=
  match createTempDir t tmpdir random (Some (js "tmp-")) with
  | (t1, Throw e) => (t1, Throw e)
  | (t1, Ok dir) =>
      let filePath := path_join [dir; nullish prefix [] ++ uuid ++ nullish suffix []] in
      match calling (fault_at 1) filePath (fs_writeFile device_write t1 filePath []) with
      | Throw e => (left_over (fault_at 1) t1 filePath, Throw e)
      | Ok t2 => (t2, Ok filePath)
      end
  end.
End Call.
End Methods.

(** * Facts *)

Section Facts.
Context (device_read : list jstr -> result errno (list Z)) (device_write : list jstr -> list Z -> option errno).
Context (message : errno -> jstr -> jstr) (stats : list jstr -> node -> Z * Z).
Context (process_cwd home : jstr) (win32 : bool) (fileURLToPath : jstr -> result jstr jstr) (cwd : jstr).

#[local] Abbreviation at_path := (resolvePath2 process_cwd home win32 fileURLToPath cwd).
#[local] Abbreviation write_bytes := (writeBytes device_write message process_cwd home win32 fileURLToPath cwd).
#[local] Abbreviation append_text := (appendFile device_write message process_cwd home win32 fileURLToPath cwd).
#[local] Abbreviation rename_to := (renameFile message process_cwd home win32 fileURLToPath cwd).
#[local] Abbreviation create_dir := (createDir message process_cwd home win32 fileURLToPath cwd).
#[local] Abbreviation remove_at := (env_remove message process_cwd home win32 fileURLToPath cwd).
#[local] Abbreviation temp_dir := (createTempDir message).
#[local] Abbreviation new_temp_file := (createTempFile device_write message).

(** ** Every method leaves a tree behind *)

(** What a method may do to the tree, whatever the signal does and whichever calls
    fail. *)
Inductive env_step (t : tree) : tree -> Prop :=
| StepWrite aborted faults path bytes : env_step t (write_bytes aborted faults t path bytes).1
| StepAppend aborted faults path content : env_step t (append_text aborted faults t path content).1
| StepRename aborted faults source destination : env_step t (rename_to aborted faults t source destination).1
| StepCreateDir aborted faults path recursive : env_step t (create_dir aborted faults t path recursive).1
| StepRemove aborted faults path recursive force : env_step t (remove_at aborted faults t path recursive force).1
| StepTempDir aborted faults tmpdir random prefix : env_step t (temp_dir aborted faults t tmpdir random prefix).1
| StepTempFile aborted faults tmpdir random uuid prefix suffix : env_step t (new_temp_file aborted faults t tmpdir random uuid prefix suffix).1.

Lemma calling_Ok {A} f path (r : result errno A) a : calling message f path r = Ok a -> f = None /\ r = Ok a.
Proof. unfold calling. destruct f; [done|]. by destruct r; [intros [= ->]|]. Qed.

Lemma left_over_ok f t path : tree_ok t -> tree_ok (left_over device_write f t path).
Proof.
  intros Hok. unfold left_over. destruct f as [[e [bytes|]]|]; try done. destruct (fs_writeFile device_write t path bytes) eqn:E; [|done].
  by eapply fs_update_ok.
Qed.

Lemma mkdirp_ok t path t' : tree_ok t -> fs_mkdirp t path = Ok t' -> tree_ok t'.
Proof. intros Hok H. by destruct (mkdirp_spec _ _ _ Hok H) as [? _]. Qed.

Lemma mkdir_ok t path t' : tree_ok t -> fs_mkdir t path = Ok t' -> tree_ok t'.
Proof.
  intros Hok. unfold fs_mkdir. destruct (locate t false path) as [p|] eqn:E; [|done]. cbn [bind]. destruct (node_at t p) eqn:En; [done|].
  intros [= <-]. apply tree_ok_insert; [done|by eapply locate_ends|by rewrite En].
Qed.

Lemma rm_ok t path recursive force t' : tree_ok t -> fs_rm t path recursive force = Ok t' -> tree_ok t'.
Proof.
  intros Hok. unfold fs_rm. destruct (locate t false path) as [p|e]; [|by case_match; [intros [= <-]|]].
  destruct (node_at t p) as [n|] eqn:En; [|by case_match; [intros [= <-]|]].
  destruct n; try (intros [= <-]; apply tree_ok_without; [done|by intros ->]). case_bool_decide; [done|]. destruct recursive; [|done].
  intros [= <-]. by apply tree_ok_without.
Qed.

(** So the hypothesis [tree_ok] of the theorems below holds after every method. *)
Lemma env_step_ok t t' : env_step t t' -> tree_ok t -> tree_ok t'.
Proof.
  intros [aborted faults path bytes|aborted faults path content|aborted faults s d|aborted faults path rc|aborted faults path rc fo|aborted faults tmp rnd pre|aborted faults tmp rnd uuid pre suf] Hok.
  1,2: unfold writeBytes, appendFile, abortResult; destruct (aborted 0%nat); [done|];
    (destruct (calling message (faults 0%nat) _ _) as [t1|] eqn:E1; [|done]); apply calling_Ok in E1 as [_ E1]; apply mkdirp_ok in E1; [|done];
    destruct (aborted 1%nat); [done|]; (destruct (calling message (faults 1%nat) _ _) as [t2|] eqn:E2; [|by apply left_over_ok]);
    apply calling_Ok in E2 as [_ E2]; by eapply fs_update_ok.
  1,2,3: unfold renameFile, createDir, env_remove, abortResult; (destruct (aborted 0%nat); [done|]);
    (destruct (calling message (faults 0%nat) _ _) as [t1|] eqn:E1; [|done]); apply calling_Ok in E1 as [_ E1]; cbn [fst].
  - by eapply fs_rename_ok.
  - destruct (nullish rc true); [by eapply mkdirp_ok|by eapply mkdir_ok].
  - by eapply rm_ok.
  - unfold createTempDir, abortResult. destruct (aborted 0%nat); [done|].
    destruct (calling message (faults 0%nat) _ _) as [[dir t1]|] eqn:E1; [|done]. apply calling_Ok in E1 as [_ E1].
    unfold fs_mkdtemp in E1. destruct (fs_mkdir t _) as [t2|] eqn:E2; [|done]. injection E1 as _ <-. by eapply mkdir_ok.
  - unfold createTempFile, createTempDir, abortResult. destruct (aborted 0%nat); [done|].
    destruct (calling message (faults 0%nat) _ _) as [[dir t1]|] eqn:E1; [|done]. apply calling_Ok in E1 as [_ E1].
    unfold fs_mkdtemp in E1. destruct (fs_mkdir t _) as [t2|] eqn:E2; [|done]. injection E1 as _ <-. apply mkdir_ok in E2; [|done].
    destruct (calling message (faults 1%nat) _ _) as [t3|] eqn:E3; [|by apply left_over_ok]. apply calling_Ok in E3 as [_ E3]. by eapply fs_update_ok.
Qed.

(** ** What is written is read back *)

#[local] Abbreviation read_bytes := (readBinaryFile device_read message process_cwd home win32 fileURLToPath cwd).
#[local] Abbreviation read_text_file := (readTextFile device_read message process_cwd home win32 fileURLToPath cwd).
#[local] Abbreviation write_text := (writeFile device_write message process_cwd home win32 fileURLToPath cwd).

(** A call that nothing disturbs. *)
Definition undisturbed (aborted : nat -> bool) (faults : nat -> option fault) : Prop := (forall k, aborted k = false) /\ (forall k, faults k = None).

(** The file at [path] has these bytes. *)
Definition file_at (t : tree) (path : jstr) (p : list jstr) (bytes : list Z) : Prop := locate t true path = Ok p /\ node_at t p = Some (NFile bytes).

Lemma read_bytes_undisturbed aborted faults t path b :
  undisturbed aborted faults -> fs_readFile device_read t (at_path path) = Ok b -> read_bytes aborted faults t path = Ok b.
Proof. intros [Ha Hf] H. unfold readBinaryFile, abortResult, calling. by rewrite Ha, Hf, H. Qed.

Lemma write_bytes_done aborted faults t path bytes t' :
  write_bytes aborted faults t path bytes = (t', Ok ()) ->
  exists t1, fs_mkdirp t (parent_path process_cwd (at_path path)) = Ok t1 /\ fs_writeFile device_write t1 (at_path path) bytes = Ok t'.
Proof.
  unfold writeBytes, abortResult. destruct (aborted 0%nat); [done|].
  destruct (calling message (faults 0%nat) _ _) as [t1|] eqn:E1; [|done]. apply calling_Ok in E1 as [_ E1]. destruct (aborted 1%nat); [done|].
  destruct (calling message (faults 1%nat) _ _) as [t2|] eqn:E2; [|done]. apply calling_Ok in E2 as [_ E2]. intros [= <-]. by exists t1.
Qed.

Lemma file_at_grows t t' path p b : grows t t' -> file_at t path p b -> file_at t' path p b.
Proof. intros Hg [H1 H2]. split; [by apply (grows_walks _ _ Hg)|by apply (grows_nodes _ _ Hg)]. Qed.

(** C34: What a write that succeeds has done to a file system in which everything is
    in a directory ([tree_ok]), for every later undisturbed read: unless
    the path leads to a device or a pipe, the text is read back there, with
    surrogates without a partner replaced; every file that could be read before, by
    whichever path, is read as before, or as the new text when it is the file that
    was written, links followed. *)
Theorem env_write_read aborted faults t path content t' :
  tree_ok t -> Forall is_unit content -> write_text aborted faults t path content = (t', Ok ()) ->
  exists p, locate t' true (at_path path) = Ok p /\
    forall aborted' faults', undisturbed aborted' faults' ->
      (node_at t' p ≠ Some NOther -> read_text_file aborted' faults' t' path = Ok (units_of (code_points content))) /\
      forall path' q bytes, file_at t (at_path path') q bytes ->
        read_bytes aborted' faults' t' path' = Ok (if decide (q = p) then utf8_encode content else bytes).
Proof.
  intros Hok Hu Hw. destruct (write_bytes_done _ _ _ _ _ _ Hw) as (t1 & Hm & Hf).
  destruct (mkdirp_spec _ _ _ Hok Hm) as (Hok1 & Hg & _).
  destruct (fs_update_spec _ _ _ _ _ Hf) as (p & Hp & Hcases). exists p.
  assert (Hm' : may_become (node_at t1 p) (NFile (utf8_encode content)) /\ t' = <[p := NFile (utf8_encode content)]> t1 \/
    node_at t1 p = Some NOther /\ t' = t1).
  { destruct Hcases as [(old & -> & ->)|[[-> ->]|[Hno ->]]]; [by left|by left|by right]. }
  destruct Hm' as [[Hbec Ht']|[Hno ->]].
  - split; [subst t'; by apply walk_insert|]. intros aborted' faults' Hund.
    assert (Hno : node_at t1 p ≠ Some NOther) by (intros E; by rewrite E in Hbec).
    assert (Hread : forall path', locate t1 true (at_path path') = Ok p -> read_bytes aborted' faults' t' path' = Ok (utf8_encode content)).
    { intros path' Hp'. apply read_bytes_undisturbed; [done|]. by eapply (write_read _ _ t1). }
    split.
    + intros _. unfold readTextFile. rewrite (Hread path Hp). cbn [bind]. by rewrite utf8_decode_encode.
    + intros path' q bytes Hq. apply (file_at_grows _ _ _ _ _ Hg) in Hq as [Hq Hnq]. destruct (decide (q = p)) as [->|Hne]; [by apply Hread|].
      apply read_bytes_undisturbed; [done|]. by eapply (write_elsewhere _ _ t1 (at_path path) _ t' p _ q).
  - split; [done|]. intros aborted' faults' Hund. split; [done|]. intros path' q bytes Hq.
    apply (file_at_grows _ _ _ _ _ Hg) in Hq as [Hq Hnq]. rewrite decide_False by congruence.
    apply read_bytes_undisturbed; [done|]. unfold fs_readFile. rewrite Hq. cbn [bind]. by rewrite Hnq.
Qed.

(** ** Aborted calls *)

(** A method that finds the signal aborted says so and leaves the tree alone. *)
Theorem env_aborted_untouched aborted faults t path path' content bytes recursive force tmpdir random uuid prefix suffix :
  aborted 0%nat = true ->
  let e := Some (at_path path) in
  write_bytes aborted faults t path bytes = (t, Throw (abort_error e)) /\
  append_text aborted faults t path content = (t, Throw (abort_error e)) /\
  rename_to aborted faults t path' path = (t, Throw (abort_error e)) /\
  create_dir aborted faults t path recursive = (t, Throw (abort_error e)) /\
  remove_at aborted faults t path recursive force = (t, Throw (abort_error e)) /\
  temp_dir aborted faults t tmpdir random prefix = (t, Throw (abort_error None)) /\
  new_temp_file aborted faults t tmpdir random uuid prefix suffix = (t, Throw (abort_error None)).
Proof. intros Ha e. unfold writeBytes, appendFile, renameFile, createDir, env_remove, createTempFile, createTempDir, abortResult. by rewrite Ha. Qed.

(** ** Existence *)

#[local] Abbreviation exists_at := (env_exists message stats process_cwd home win32 fileURLToPath cwd).

(** [exists] answers [true] only for what is there and [false] only for what is not,
    when nothing disturbs it; every other outcome is an error, which is passed on. *)
Theorem env_exists_truthful aborted faults t path answer :
  undisturbed aborted faults -> exists_at aborted faults t path = Ok answer ->
  answer = bool_decide (is_Some (match locate t false (at_path path) with Ok p => node_at t p | Throw _ => None end)).
Proof.
  intros [Ha Hf]. unfold env_exists, fileInfo, abortResult, calling, fs_lstat. rewrite Ha, Hf.
  destruct (locate t false (at_path path)) as [p|e]; cbn [bind].
  - destruct (node_at t p) as [n|]; cbn [bind].
    + unfold fileInfoFromStats. cbn [fst snd]. destruct (fileKindFromStats n); [by intros [= <-]|done].
    + by intros [= <-].
  - destruct (streq _ _); [by intros [= <-]|done].
Qed.

(** ** Temporary files *)

Lemma normalize_absolute path : isAbsolute path = true -> isAbsolute (path_normalize path) = true.
Proof. intros H. unfold path_normalize. destruct path as [|x r]; [done|]. rewrite H. by destruct (join _ _). Qed.

Lemma join_absolute dir name : isAbsolute dir = true -> isAbsolute (path_join [dir; name]) = true.
Proof.
  intros H. unfold path_join. apply normalize_absolute. destruct dir as [|x dir]; [done|]. cbn [List.filter truthy]. by destruct name.
Qed.

Lemma join_components dir name :
  isAbsolute dir = true -> clean name -> components false (path_join [dir; name]) = components false dir ++ [name].
Proof.
  intros Hd Hn. pose proof Hn as (H1 & _ & _ & H4). assert (Hdir : dir ≠ []) by (by destruct dir).
  assert (Hc : components false (dir ++ SLASH :: name) = components false dir ++ [name]).
  { unfold components. rewrite split_app, (split_no_sep SLASH name) by done. rewrite foldl_app. cbn [foldl]. by rewrite push_clean. }
  unfold path_join. assert (Hj : join [SLASH] (List.filter truthy [dir; name]) = dir ++ SLASH :: name) by (by destruct dir, name). rewrite Hj.
  unfold path_normalize. assert (Ha : isAbsolute (dir ++ SLASH :: name) = true) by (by destruct dir). rewrite Ha. cbn [negb]. rewrite Hc.
  assert (He : ends_with [SLASH] (dir ++ SLASH :: name) = false).
  { apply not_true_iff_false. unfold ends_with. rewrite rev_app_distr. cbn [rev app]. destruct (exists_last H1) as (n' & c & ->).
    rewrite rev_app_distr. intros Hs. change ((SLASH =? c) && true = true) in Hs.
    apply andb_true_iff in Hs as [Hs _]. apply Z.eqb_eq in Hs as <-. clear - H4. set_solver. }
  rewrite He. destruct (dir ++ SLASH :: name) as [|x l] eqn:Ex; [by destruct dir|].
  destruct (join [SLASH] (components false dir ++ [name])) as [|y p] eqn:Ep.
  - exfalso. destruct (components false dir) as [|c cs]; [by destruct name|]. destruct cs; cbn in Ep; by apply app_eq_nil in Ep as [_ ?].
  - rewrite <- Ep. apply components_absolute. apply Forall_app. split; [apply components_clean|]. by apply Forall_singleton.
Qed.

(** A temporary file is a new one: nothing was there before, it is there and empty
    afterwards, and everything else is as it was. *)
Theorem env_temp_fresh aborted faults t tmpdir random uuid prefix suffix t' path :
  tree_ok t -> isAbsolute tmpdir = true -> clean (nullish prefix [] ++ uuid ++ nullish suffix []) ->
  new_temp_file aborted faults t tmpdir random uuid prefix suffix = (t', Ok path) ->
  exists p, locate t' true path = Ok p /\ node_at t p = None /\ node_at t' p = Some (NFile []) /\
    forall q n, node_at t q = Some n -> node_at t' q = Some n.
Proof.
  intros Hok Habs Hclean. set (name := nullish prefix [] ++ uuid ++ nullish suffix []) in *. unfold createTempFile, createTempDir, abortResult.
  destruct (aborted 0%nat); [done|]. cbn [nullish]. set (dir := path_join [tmpdir; js "tmp-"] ++ random).
  destruct (calling message (faults 0%nat) _ _) as [[d t1]|] eqn:E1; [|done]. apply calling_Ok in E1 as [_ E1].
  unfold fs_mkdtemp in E1. fold dir in E1. destruct (fs_mkdir t dir) as [t2|] eqn:E2; [|done]. injection E1 as <- <-.
  destruct (calling message (faults 1%nat) _ _) as [t3|] eqn:E3; [|done]. apply calling_Ok in E3 as [_ E3]. intros [= <- <-].
  unfold fs_mkdir in E2. destruct (locate t false dir) as [pd|] eqn:Ed; [|done]. cbn [bind] in E2. destruct (node_at t pd) eqn:En; [done|]. injection E2 as <-.
  assert (Hdir : isAbsolute dir = true).
  { pose proof (join_absolute tmpdir (js "tmp-") Habs) as H. unfold dir. by destruct (path_join _). }
  assert (Hdd : name ≠ DOTDOT) by (by destruct Hclean as (_ & _ & ? & _)).
  destruct (walk_extend _ _ _ _ _ name Hok Ed En Hdd) as [Hw Hnone]. destruct (fs_update_spec _ _ _ _ _ E3) as (p & Hp & H).
  unfold locate in Hp. fold name in Hp. rewrite join_components in Hp by done. rewrite Hw in Hp. injection Hp as <-.
  destruct H as [(old & H & _)|[[_ ->]|[H _]]]; [congruence| |congruence]. exists (pd ++ [name]). split_and!.
  - unfold locate. fold name. rewrite join_components by done. apply walk_insert; [by rewrite Hnone|done].
  - destruct (node_at t (pd ++ [name])) as [n|] eqn:E; [|done]. apply (grows_nodes _ _ (grows_insert t pd En)) in E. congruence.
  - rewrite node_at_insert by (by destruct pd). by rewrite decide_True.
  - intros q n Hq. apply (grows_nodes _ _ (grows_insert t pd En)) in Hq. destruct q as [|x q]; [done|]. rewrite node_at_insert by done.
    destruct (decide _) as [E|]; [|done]. rewrite <- E in Hq. congruence.
Qed.

(** ** Listings *)

#[local] Abbreviation list_dir := (listDir message stats process_cwd home win32 fileURLToPath cwd).

Lemma resolve_name dir name :
  isAbsolute dir = true -> clean name -> components false (path_resolve process_cwd [dir; name]) = components false dir ++ [name].
Proof.
  intros Hd Hn. pose proof Hn as (H1 & _ & _ & H4). assert (Ha : isAbsolute name = false).
  { destruct name as [|x r]; [done|]. unfold isAbsolute. cbn [starts_with]. destruct (Z.eqb_spec SLASH x) as [<-|]; [set_solver|done]. }
  rewrite resolve_relative_path by done. rewrite (split_no_sep SLASH name) by done. cbn [foldl]. rewrite push_clean by done. cbn [rev]. rewrite rev_involutive.
  assert (Hc : components false (resolve_from process_cwd [dir] []) = components false dir).
  { cbn [resolve_from]. destruct dir as [|x r]; [done|]. rewrite Hd. unfold components. change ((x :: r) ++ [SLASH] ++ []) with ((x :: r) ++ SLASH :: []).
    rewrite split_app, foldl_app. done. }
  rewrite Hc. apply components_absolute, Forall_app. split; [apply components_clean|by apply Forall_singleton].
Qed.

Lemma at_path_absolute path : isAbsolute (at_path path) = true.
Proof.
  assert (H : forall cwd ps, isAbsolute (path_resolve cwd ps) = true) by reflexivity.
  unfold resolvePath2. cbv zeta. match goal with |- isAbsolute (if ?b then _ else _) = true => destruct b end; apply H.
Qed.

(** The entry of a name in a listing. *)
Definition listed (t : tree) (dir : jstr) (p : list jstr) (name : jstr) : option (jstr * file_kind) :=
  n ← t !! (p ++ [name]); k ← fileKindFromStats n; Some (path_resolve process_cwd [dir; name], k).

Lemma list_entries_spec aborted faults t dir p k names infos :
  undisturbed aborted faults -> isAbsolute dir = true -> locate t true dir = Ok p -> node_at t p = Some NDir -> Forall clean names ->
  Forall (fun c => is_Some (t !! (p ++ [c]))) names ->
  list_entries message stats process_cwd aborted faults k t dir names = Ok infos ->
  map (fun i => (fi_path i, fi_kind i)) infos = omap (listed t dir p) names.
Proof.
  intros [Ha Hf] Hd Hp Hn HC. revert k infos. induction HC as [|c names Hc HC IH]; intros k infos HS; cbn [list_entries]; [by intros [= <-]|].
  apply Forall_cons_1 in HS as [[n Hs] HS]. unfold abortResult, calling. rewrite Ha, Hf. unfold fs_lstat, locate. rewrite resolve_name by done.
  rewrite (walk_into t MAX_LINKS _ _ p c Hp Hn) by (by destruct Hc as (_ & _ & ? & _) || by eexists). cbn [bind]. rewrite node_at_snoc, Hs. cbn [bind].
  destruct (list_entries _ _ _ _ _ (S k) t dir names) as [more|] eqn:El; [|done]. cbn [bind fst snd]. specialize (IH (S k) more HS El).
  unfold fileInfoFromStats. cbn [omap list_omap]. unfold listed at 1. rewrite Hs. cbn [mbind option_bind].
  destruct (fileKindFromStats n); intros [= <-]; [|exact IH]. cbn [map fi_path fi_kind mbind option_bind]. f_equal. exact IH.
Qed.

(** A listing that nothing disturbs has one entry for each name in the directory
    whose node is a file, a directory or a link, with its path and kind, and no
    other. *)
Theorem env_list_complete aborted faults t path infos :
  undisturbed aborted faults -> (forall p c, is_Some (t !! (p ++ [c])) -> clean c) -> list_dir aborted faults t path = Ok infos ->
  exists p, locate t true (at_path path) = Ok p /\ node_at t p = Some NDir /\
    map (fun i => (fi_path i, fi_kind i)) infos = omap (listed t (at_path path) p) (names_in t p) /\
    NoDup (names_in t p) /\ forall c, c ∈ names_in t p <-> is_Some (t !! (p ++ [c])).
Proof.
  intros Hund Hclean. unfold listDir, abortResult, calling, fs_readdir. rewrite (proj1 Hund), (proj2 Hund).
  destruct (locate t true (at_path path)) as [p|] eqn:Ep; [|done]. cbn [bind]. destruct (node_at t p) as [[]|] eqn:En; try done. cbn [bind]. intros Hl.
  assert (Hall : Forall (fun c => is_Some (t !! (p ++ [c]))) (names_in t p)) by (apply Forall_forall; intros c; apply names_in_spec).
  exists p. split_and!; [done|done| |apply names_in_NoDup|apply names_in_spec].
  eapply list_entries_spec; [done|apply at_path_absolute|done|done| |done|exact Hl]. eapply Forall_impl; [exact Hall|]. apply Hclean.
Qed.

(** ** Renaming *)

Theorem env_rename_moves aborted faults t source destination t' ps pd b aborted' faults' :
  tree_ok t -> rename_to aborted faults t source destination = (t', Ok ()) ->
  locate t false (at_path source) = Ok ps -> locate t false (at_path destination) = Ok pd -> ps ≠ pd ->
  node_at t ps = Some (NFile b) -> match node_at t pd with None | Some (NFile _) => True | _ => False end -> undisturbed aborted' faults' ->
  read_bytes aborted' faults' t' destination = Ok b /\ node_at t' ps = None.
Proof.
  intros Hok Hr Hs Hd Hne Hns Hnd Hund. unfold renameFile, abortResult in Hr. destruct (aborted 0%nat); [done|].
  destruct (calling message (faults 0%nat) _ _) as [t1|] eqn:E; [|done]. apply calling_Ok in E as [_ E]. injection Hr as ->.
  destruct (rename_read device_read _ _ _ _ _ _ _ Hok E Hs Hd Hne Hns Hnd) as [H1 H2]. split; [by apply read_bytes_undisturbed|done].
Qed.

(** ** Lines *)

#[local] Abbreviation read_lines := (readTextLines device_read message process_cwd home win32 fileURLToPath cwd).

Lemma take_lines_spec aborted k dir maxLines taken lines :
  (forall k, aborted k = false) -> (forall n, maxLines = Some n -> Z.of_nat (length taken) < n) ->
  take_lines aborted k dir maxLines taken lines = Ok (match maxLines with Some n => take (Z.to_nat n) (taken ++ lines) | None => taken ++ lines end).
Proof.
  intros Ha. revert k taken. induction lines as [|l lines IH]; intros k taken Hm; cbn [take_lines]; unfold abortResult; rewrite ?Ha.
  - rewrite app_nil_r. destruct maxLines as [n|]; [|done]. specialize (Hm n eq_refl). by rewrite take_ge by lia.
  - destruct maxLines as [n|].
    + specialize (Hm n eq_refl). destruct (Z.leb_spec n (Z.of_nat (length (taken ++ [l])))) as [Hn|Hn].
      * f_equal. rewrite length_app in Hn. cbn [length] in Hn. change (l :: lines) with ([l] ++ lines). rewrite app_assoc, take_app_le by (rewrite length_app; cbn [length]; lia).
        by rewrite take_ge by (rewrite length_app; cbn [length]; lia).
      * rewrite IH by (intros n' [= <-]; lia). by rewrite <- app_assoc.
    + rewrite IH by done. by rewrite <- app_assoc.
Qed.

(** The lines of a file are those of its text, up to the limit. *)
Theorem env_lines_prefix aborted faults t path p bytes maxLines :
  undisturbed aborted faults -> file_at t (at_path path) p bytes ->
  read_lines aborted faults t path maxLines =
  Ok (match maxLines with Some n => take (Z.to_nat n) (text_lines [] (utf8_decode bytes)) | None => text_lines [] (utf8_decode bytes) end).
Proof.
  intros [Ha Hf] [Hp Hn]. unfold readTextLines, abortResult, calling. rewrite Ha, Hf.
  destruct maxLines as [n|]; [destruct (Z.leb_spec n 0) as [H0|H0]; [by replace (Z.to_nat n) with 0%nat by lia|]|];
    unfold fs_readFile; rewrite Hp; cbn [bind]; rewrite Hn; cbn [bind]; rewrite take_lines_spec; try done. intros n' [= <-]. cbn [length]. lia.
Qed.
End Facts.

(** ** Witnesses *)

Definition sample_tree : tree :=
  <[[js "w"; js "l"] := NLink (js "a.txt")]> (<[[js "w"; js "a.txt"] := NFile (utf8_encode (js "hi"))]> (<[[js "w"] := NDir]> ∅)).

Lemma sample_tree_ok : tree_ok sample_tree.
Proof.
  assert (H1 : tree_ok (<[[js "w"] := NDir]> ∅)) by (apply tree_ok_insert; [apply tree_ok_empty|right; by exists [], (js "w")|done]).
  assert (H2 : tree_ok (<[[js "w"; js "a.txt"] := NFile (utf8_encode (js "hi"))]> (<[[js "w"] := NDir]> ∅))).
  { apply tree_ok_insert; [done|right; by exists [js "w"], (js "a.txt")|done]. }
  split; [reflexivity|]. intros p c [n Hn]. unfold sample_tree in *. destruct (decide ([js "w"; js "l"] = p ++ [c])) as [E|E].
  - change [js "w"; js "l"] with ([js "w"] ++ [js "l"]) in E. apply app_inj_tail in E as [<- <-]. reflexivity.
  - rewrite lookup_insert_ne in Hn by done. assert (Hp : node_at (<[[js "w"; js "a.txt"] := NFile (utf8_encode (js "hi"))]> (<[[js "w"] := NDir]> ∅)) p = Some NDir)
      by (eapply (ok_parent _ H2); by eexists).
    destruct p as [|x p]; [done|]. rewrite node_at_insert by done. destruct (decide _) as [Ep|]; [|done]. rewrite <- Ep in Hp. by vm_compute in Hp.
Qed.

Definition no_device_read (_ : list jstr) : result errno (list Z) := Throw EINVAL.
Definition no_device_write (_ : list jstr) (_ : list Z) : option errno := Some EINVAL.
Definition plain_message (e : errno) (path : jstr) : jstr := errno_name e ++ js ": " ++ path.
Definition no_stats (_ : list jstr) (_ : node) : Z * Z := (0, 0).
Definition no_url (url : jstr) : result jstr jstr := Throw url.
Definition never (_ : nat) : bool := false.
Definition no_faults (_ : nat) : option fault := None.

Lemma undisturbed_never : undisturbed never no_faults.
Proof. done. Qed.

(** Written through a link, read at the file. *)
Lemma env_write_read_witness :
  exists t' p, writeFile no_device_write plain_message (js "/") (js "/h") false no_url (js "/w") never no_faults sample_tree (js "l") (js "new") = (t', Ok ()) /\
    p = [js "w"; js "a.txt"] /\
    readTextFile no_device_read plain_message (js "/") (js "/h") false no_url (js "/w") never no_faults t' (js "l") = Ok (js "new") /\
    readBinaryFile no_device_read plain_message (js "/") (js "/h") false no_url (js "/w") never no_faults t' (js "/w/a.txt") = Ok (utf8_encode (js "new")).
Proof.
  destruct (writeFile no_device_write plain_message (js "/") (js "/h") false no_url (js "/w") never no_faults sample_tree (js "l") (js "new")) as [t' r] eqn:E.
  assert (r = Ok ()) as -> by (apply (f_equal snd) in E; cbn [snd] in E; rewrite <- E; vm_compute; reflexivity).
  destruct (env_write_read no_device_read no_device_write plain_message (js "/") (js "/h") false no_url (js "/w") never no_faults sample_tree (js "l") (js "new") t'
    sample_tree_ok (all_units_spec (js "new") eq_refl) E) as (p & Hp & H). destruct (H never no_faults undisturbed_never) as [H1 H2].
  assert (p = [js "w"; js "a.txt"]) as ->.
  { apply (f_equal fst) in E. cbn [fst] in E. rewrite <- E in Hp. vm_compute in Hp. by injection Hp as <-. }
  exists t', [js "w"; js "a.txt"]. split; [done|]. split; [done|]. split.
  { apply H1. apply (f_equal fst) in E. cbn [fst] in E. rewrite <- E. vm_compute. discriminate. }
  exact (H2 (js "/w/a.txt") [js "w"; js "a.txt"] (utf8_encode (js "hi")) ltac:(split; vm_compute; reflexivity)).
Defined.

Lemma env_aborted_untouched_witness :
  (env_remove plain_message (js "/") (js "/h") false no_url (js "/w") (fun _ => true) no_faults sample_tree (js "a.txt") None None).1 = sample_tree.
Proof.
  by destruct (env_aborted_untouched no_device_write plain_message (js "/") (js "/h") false no_url (js "/w") (fun _ => true) no_faults sample_tree (js "a.txt")
    [] [] [] None None [] [] [] None None eq_refl) as (_ & _ & _ & _ & -> & _).
Defined.

Lemma env_exists_truthful_witness :
  env_exists plain_message no_stats (js "/") (js "/h") false no_url (js "/w") never no_faults sample_tree (js "b.txt") = Ok false /\
  false = bool_decide (is_Some (sample_tree !! [js "w"; js "b.txt"])).
Proof.
  assert (E : env_exists plain_message no_stats (js "/") (js "/h") false no_url (js "/w") never no_faults sample_tree (js "b.txt") = Ok false) by (vm_compute; reflexivity).
  split; [exact E|].
  exact (env_exists_truthful plain_message no_stats (js "/") (js "/h") false no_url (js "/w") never no_faults sample_tree (js "b.txt") false undisturbed_never E).
Defined.

Lemma sample_name_clean : clean (js "pi-0.log").
Proof. split_and!; try done. vm_compute. set_solver. Qed.

Lemma env_temp_fresh_witness :
  exists t' path p, createTempFile no_device_write plain_message never no_faults sample_tree (js "/w") (js "Ab3") (js "0") (Some (js "pi-")) (Some (js ".log")) = (t', Ok path) /\
    locate t' true path = Ok p /\ node_at sample_tree p = None /\ node_at t' p = Some (NFile []).
Proof.
  destruct (createTempFile no_device_write plain_message never no_faults sample_tree (js "/w") (js "Ab3") (js "0") (Some (js "pi-")) (Some (js ".log"))) as [t' r] eqn:E.
  destruct r as [path|]; [|apply (f_equal snd) in E; by vm_compute in E].
  destruct (env_temp_fresh no_device_write plain_message never no_faults sample_tree (js "/w") (js "Ab3") (js "0") (Some (js "pi-")) (Some (js ".log")) t' path
    sample_tree_ok eq_refl sample_name_clean E) as (p & H1 & H2 & H3 & _). by exists t', path, p.
Defined.

Lemma env_rename_moves_witness :
  exists t', renameFile plain_message (js "/") (js "/h") false no_url (js "/w") never no_faults sample_tree (js "a.txt") (js "b.txt") = (t', Ok ()) /\
    readBinaryFile no_device_read plain_message (js "/") (js "/h") false no_url (js "/w") never no_faults t' (js "b.txt") = Ok (utf8_encode (js "hi")) /\
    node_at t' [js "w"; js "a.txt"] = None.
Proof.
  destruct (renameFile plain_message (js "/") (js "/h") false no_url (js "/w") never no_faults sample_tree (js "a.txt") (js "b.txt")) as [t' r] eqn:E.
  assert (r = Ok ()) as -> by (apply (f_equal snd) in E; cbn [snd] in E; rewrite <- E; vm_compute; reflexivity). exists t'. split; [done|].
  exact (env_rename_moves no_device_read plain_message (js "/") (js "/h") false no_url (js "/w") never no_faults sample_tree (js "a.txt") (js "b.txt") t'
    [js "w"; js "a.txt"] [js "w"; js "b.txt"] (utf8_encode (js "hi")) never no_faults sample_tree_ok E eq_refl eq_refl ltac:(done) eq_refl I undisturbed_never).
Defined.

(** Removing a directory that is not to be removed recursively fails with a code of
    Node's own, which is not recognised: the error does not say that it is a directory. *)
Lemma remove_directory_unknown :
  (env_remove plain_message (js "/") (js "/h") false no_url (js "/w") never no_faults sample_tree (js "/w") None None).2 =
  Throw (FileError (js "unknown") (js "ERR_FS_EISDIR: /w") (Some (js "/w"))).
Proof. vm_compute. reflexivity. Qed.

(** A directory that is there already is an unknown error, too. *)
Lemma create_existing_unknown :
  (createDir plain_message (js "/") (js "/h") false no_url (js "/w") never no_faults sample_tree (js "/w") (Some false)).2 =
  Throw (FileError (js "unknown") (js "EEXIST: /w") (Some (js "/w"))).
Proof. vm_compute. reflexivity. Qed.
