(* ===== verification/MutationQueue.v ===== *)
(** The queue that orders changes of files
    (pi [packages/agent/dist/harness/tools/file-mutation-queue.js]): calls of
    [withFileMutationQueue] find their key one after the other, wait for the
    previous change with the same key and then run.  Promises are modelled by
    what they wait for; an event is one turn of the event loop, and every theorem
    holds for all orders of events.  What a change does to a file is a parameter:
    it reads the content when it starts and writes when it ends, as the edit and
    write tools do.  A key is not a file: two keys may reach one file, and the
    calls the queue orders are those of one environment ([getState]). *)
From S2P Require Import Prelude.
From Stdlib Require Import Sorted.
Open Scope Z_scope.

(** * The key of a file *)

Inductive file_code :=
  FAborted | FNotFound | FPermissionDenied | FNotDirectory | FIsDirectory | FInvalid | FNotSupported | FUnknown.

#[export] Instance file_code_eq_dec : EqDecision file_code.
Proof. solve_decision. Defined.

Record file_error := FileError { fe_code : file_code; fe_message : jstr; fe_path : option jstr }.

(** From what [env.absolutePath] and [env.canonicalPath] answered. *)
Definition getMutationQueueKey (absolute : result file_error jstr) (canonical : jstr -> result file_error jstr)
  : result file_error jstr :=
  let! absolutePath := absolute in
  match canonical absolutePath with
  | Ok p => Ok p
  | Throw e =>
      if bool_decide (fe_code e = FNotFound) || bool_decide (fe_code e = FNotSupported)
      then Ok absolutePath else Throw e
  end.

(** * The queue *)

Section Queue.
Context {C : Type}.
(** What the [n]th call makes of the content it read; [None] is no file. *)
Context (work : nat -> option C -> option C).
(** The file that a path reaches, links followed. *)
Context (locate : jstr -> jstr).

(** Where a call stands: before its registration, refused by it, waiting for
    the chain of the call before it with the same key, running [fn] on the
    content it read, or done. *)
Inductive job :=
| Registering
| Refused (e : file_error)
| Waiting (key : jstr) (previous : option nat)
| Active (key : jstr) (read : option C)
| Finished (key : jstr).

(** [jobs] holds the calls in their order; [registered] of them have settled
    their registration; [queues] maps a key to the call whose [chainedQueue] is
    stored; [chains] are the calls whose [chainedQueue] has resolved; [files]
    are the contents of the files, by where they are. *)
Record qstate := QState {
  jobs : list job;
  registered : nat;
  queues : gmap jstr nat;
  chains : gset nat;
  files : gmap jstr C
}.

Inductive qevent :=
| Call
| KeyFound (key : jstr)
| KeyFails (e : file_error)
| Start (i : nat)
| Finish (i : nat)
| Resolve (i : nat).

Definition set_job (i : nat) (j : job) (s : qstate) : qstate :=
  QState (<[i := j]> (jobs s)) (registered s) (queues s) (chains s) (files s).

Definition write_file (key : jstr) (o : option C) (fs : gmap jstr C) : gmap jstr C :=
  match o with Some c => <[key := c]> fs | None => delete key fs end.

(** The promise a waiting call awaits. *)
Definition turn (previous : option nat) (s : qstate) : bool :=
  match previous with None => true | Some p => bool_decide (p ∈ chains s) end.

Definition queue_step (s : qstate) (ev : qevent) : option qstate :=
  match ev with
  | Call => Some (QState (jobs s ++ [Registering]) (registered s) (queues s) (chains s) (files s))
  | KeyFound key =>
      (* registrations run one after the other *)
      match jobs s !! registered s with
      | Some Registering =>
          let s' := set_job (registered s) (Waiting key (queues s !! key)) s in
          Some (QState (jobs s') (S (registered s)) (<[key := registered s]> (queues s)) (chains s) (files s))
      | _ => None
      end
  | KeyFails e =>
      match jobs s !! registered s with
      | Some Registering =>
          let s' := set_job (registered s) (Refused e) s in
          Some (QState (jobs s') (S (registered s)) (queues s) (chains s) (files s))
      | _ => None
      end
  | Start i =>
      match jobs s !! i with
      | Some (Waiting key previous) =>
          if turn previous s then Some (set_job i (Active key (files s !! locate key)) s) else None
      | _ => None
      end
  | Finish i =>
      match jobs s !! i with
      | Some (Active key read) =>
          let s' := set_job i (Finished key) s in
          (* releaseNext(); the entry goes when no later call replaced it *)
          Some (QState (jobs s') (registered s)
                  (if bool_decide (queues s !! key = Some i) then delete key (queues s) else queues s)
                  (chains s) (write_file (locate key) (work i read) (files s)))
      | _ => None
      end
  | Resolve i =>
      (* [currentQueue.then(() => nextQueue)] *)
      match jobs s !! i with
      | Some (Finished _) => Some (QState (jobs s) (registered s) (queues s) ({[i]} ∪ chains s) (files s))
      | _ => None
      end
  end.

Fixpoint queue_run (s : qstate) (evs : list qevent) : option qstate :=
  match evs with
  | [] => Some s
  | ev :: r => s' ← queue_step s ev; queue_run s' r
  end.

Definition queue_init (fs : gmap jstr C) : qstate := QState [] 0 ∅ ∅ fs.

Definition reachable (fs : gmap jstr C) (s : qstate) : Prop :=
  exists evs, queue_run (queue_init fs) evs = Some s.

(** * Invariant *)

Definition job_key (j : job) : option jstr :=
  match j with
  | Waiting k _ | Active k _ | Finished k => Some k
  | Registering | Refused _ => None
  end.

Definition has_key (js_ : list job) (k : jstr) (i : nat) : bool :=
  bool_decide ((js_ !! i) ≫= job_key = Some k).

(** The calls with a key, in the order of the calls. *)
Definition calls_on (s : qstate) (k : jstr) : list nat :=
  List.filter (has_key (jobs s) k) (seq 0 (length (jobs s))).

(** Each call of [r] waits for the one before it, the first for [a]. *)
Fixpoint waits (s : qstate) (k : jstr) (a : nat) (r : list nat) : Prop :=
  match r with
  | [] => True
  | b :: r' => jobs s !! b = Some (Waiting k (Some a)) /\ waits s k b r'
  end.

(** The calls with a key that are not done: the first one is running, or waits
    for the last one that is done, or for nothing. *)
Definition line (s : qstate) (k : jstr) (before : option nat) (ac : list nat) : Prop :=
  match ac with
  | [] => True
  | a :: r =>
      ((exists p, jobs s !! a = Some (Waiting k p) /\ (p = None \/ p = before)) \/
       (exists c, jobs s !! a = Some (Active k c))) /\ waits s k a r
  end.

(** The changes [ns] applied one after the other. *)
Definition applied (ns : list nat) (c : option C) : option C := foldl (fun c i => work i c) c ns.

(** No call uses another key for the file of [k]. *)
Definition sole (s : qstate) (k : jstr) : Prop :=
  forall i k', (jobs s !! i) ≫= job_key = Some k' -> locate k' = locate k -> k' = k.

(** The content of the file of [k] after the changes [dn], which the call that
    is running has read. *)
Definition file_holds (fs : gmap jstr C) (s : qstate) (k : jstr) (dn : list nat) : Prop :=
  files s !! locate k = applied dn (fs !! locate k) /\
  (forall i c, jobs s !! i = Some (Active k c) -> c = files s !! locate k).

Definition key_inv (fs : gmap jstr C) (s : qstate) (k : jstr) : Prop :=
  exists dn ac, calls_on s k = dn ++ ac /\
    Forall (fun i => jobs s !! i = Some (Finished k)) dn /\
    line s k (last dn) ac /\ queues s !! k = last ac /\ (sole s k -> file_holds fs s k dn).

Record queue_inv (fs : gmap jstr C) (s : qstate) : Prop := {
  qi_keys : forall k, key_inv fs s k;
  qi_chains : forall i, i ∈ chains s -> exists k, jobs s !! i = Some (Finished k);
  qi_registered : forall i j, jobs s !! i = Some j -> (i < registered s)%nat <-> j ≠ Registering;
  qi_bound : (registered s <= length (jobs s))%nat
}.

(** ** Lists of calls *)

Lemma calls_on_call s k :
  calls_on (QState (jobs s ++ [Registering]) (registered s) (queues s) (chains s) (files s)) k = calls_on s k.
Proof.
  unfold calls_on. cbn [jobs]. rewrite length_app, seq_app, List.filter_app. cbn [length seq].
  rewrite (List.filter_ext_in _ (has_key (jobs s) k)).
  - cbn [List.filter]. unfold has_key at 2. rewrite lookup_app_r, Nat.sub_diag by lia. cbn.
    by rewrite app_nil_r.
  - intros i Hi. apply in_seq in Hi. unfold has_key. by rewrite lookup_app_l by lia.
Qed.

(** A call that keeps its key keeps the lists. *)
Lemma calls_on_set s s' i j k :
  jobs s' = <[i := j]> (jobs s) -> (jobs s !! i) ≫= job_key = job_key j ->
  calls_on s' k = calls_on s k.
Proof.
  intros Hj Hk. unfold calls_on. rewrite Hj, length_insert. apply List.filter_ext_in.
  intros n Hn. apply in_seq in Hn. unfold has_key. destruct (decide (n = i)) as [->|Hne].
  - rewrite list_lookup_insert_eq by lia. cbn. by rewrite Hk.
  - by rewrite list_lookup_insert_ne.
Qed.

Lemma elem_calls_on s k i : i ∈ calls_on s k <-> (jobs s !! i) ≫= job_key = Some k.
Proof.
  unfold calls_on. rewrite list_elem_of_In, List.filter_In, in_seq. unfold has_key.
  rewrite bool_decide_eq_true. split; [tauto|]. intros H. split; [|done]. split; [lia|].
  destruct (jobs s !! i) eqn:E; [|done]. apply lookup_lt_Some in E. lia.
Qed.

Lemma calls_on_sorted s k : StronglySorted lt (calls_on s k).
Proof.
  unfold calls_on. generalize (jobs s) at 1. intros l. generalize 0%nat.
  induction (length (jobs s)) as [|n IH]; intros a; cbn; [constructor|].
  destruct (has_key l k a); [|apply IH]. constructor; [apply IH|].
  apply Forall_forall. intros x Hx. apply list_elem_of_In, List.filter_In in Hx as [Hx _].
  apply in_seq in Hx. lia.
Qed.

Lemma calls_on_NoDup s k : NoDup (calls_on s k).
Proof. apply NoDup_ListNoDup, List.NoDup_filter, seq_NoDup. Qed.

Lemma filter_none {A} (f : A -> bool) l : (forall x, In x l -> f x = false) -> List.filter f l = [].
Proof.
  induction l as [|x l IH]; intros H; [done|]. cbn. rewrite H by (by left). apply IH. intros y Hy. apply H. by right.
Qed.

(** The new call comes last among those with its key. *)
Lemma calls_on_register s s' i j k :
  jobs s' = <[i := j]> (jobs s) -> jobs s !! i = Some Registering ->
  (forall n jn, jobs s !! n = Some jn -> (i < n)%nat -> job_key jn = None) ->
  calls_on s' k = calls_on s k ++ (if bool_decide (job_key j = Some k) then [i] else []).
Proof.
  intros Hj Hi Hlater. pose proof (lookup_lt_Some _ _ _ Hi) as Hlt.
  unfold calls_on. rewrite Hj, length_insert.
  assert (Hseq : seq 0 (length (jobs s)) = seq 0 i ++ i :: seq (S i) (length (jobs s) - S i)).
  { replace (length (jobs s)) with (i + S (length (jobs s) - S i))%nat at 1 by lia.
    by rewrite seq_app. }
  rewrite Hseq, !List.filter_app. cbn [List.filter].
  rewrite (filter_none (has_key (jobs s) k) (seq (S i) _)), (filter_none (has_key (<[i:=j]> (jobs s)) k) (seq (S i) _)).
  - rewrite (List.filter_ext_in (has_key (<[i:=j]> (jobs s)) k) (has_key (jobs s) k) (seq 0 i)).
    + unfold has_key at 2 4. rewrite Hi, list_lookup_insert_eq by done. cbn. rewrite app_nil_r.
      by destruct (bool_decide (job_key j = Some k)).
    + intros n Hn. apply in_seq in Hn. unfold has_key. by rewrite list_lookup_insert_ne by lia.
  - intros n Hn. apply in_seq in Hn. unfold has_key. rewrite list_lookup_insert_ne by lia.
    destruct (jobs s !! n) as [jn|] eqn:En; [|done]. cbn. by rewrite (Hlater n jn) by (done || lia).
  - intros n Hn. apply in_seq in Hn. unfold has_key.
    destruct (jobs s !! n) as [jn|] eqn:En; [|done]. cbn. by rewrite (Hlater n jn) by (done || lia).
Qed.

(** ** Lines *)

(** Nothing in a line depends on other calls. *)
Lemma waits_ext s s' k a r :
  (forall i, i ∈ r -> jobs s' !! i = jobs s !! i) -> waits s k a r -> waits s' k a r.
Proof.
  revert a; induction r as [|b r IH]; intros a Hext; [done|]. intros [Hb Hr]. split.
  - rewrite Hext by set_solver. done.
  - apply IH; [|done]. intros i Hi. apply Hext. set_solver.
Qed.

Lemma line_ext s s' k before ac :
  (forall i, i ∈ ac -> jobs s' !! i = jobs s !! i) ->
  line s k before ac -> line s' k before ac.
Proof.
  destruct ac as [|a r]; [done|]. intros Hext [Ha Hr]. split.
  - rewrite Hext by set_solver. done.
  - eapply waits_ext; [|done]. intros i Hi. apply Hext. set_solver.
Qed.

Lemma waits_snoc s k a r b :
  waits s k a r -> jobs s !! b = Some (Waiting k (last (a :: r))) -> waits s k a (r ++ [b]).
Proof.
  revert a; induction r as [|c r IH]; intros a Hr Hb; [done|]. destruct Hr as [Hc Hr].
  cbn [app waits]. split; [done|]. apply IH; [done|]. by rewrite last_cons_cons in Hb.
Qed.

Lemma waits_waiting s k a r i : waits s k a r -> i ∈ r -> exists p, jobs s !! i = Some (Waiting k (Some p)) /\
  (p = a \/ p ∈ r).
Proof.
  revert a; induction r as [|b r IH]; intros a Hr Hi; [set_solver|]. destruct Hr as [Hb Hr].
  apply elem_of_cons in Hi as [->|Hi]; [eauto|].
  destruct (IH b Hr Hi) as (p & Hp & Hpr). exists p. split; [done|]. set_solver.
Qed.

(** A call of the line is not finished. *)
Lemma line_not_finished s k before ac i k' :
  line s k before ac -> i ∈ ac -> jobs s !! i ≠ Some (Finished k').
Proof.
  destruct ac as [|a r]; [set_solver|]. intros [Ha Hr] Hi Hf.
  apply elem_of_cons in Hi as [->|Hi].
  - destruct Ha as [(p & Hp & _)|[c Hc]]; congruence.
  - destruct (waits_waiting s k a r i Hr Hi) as (p & Hp & _). congruence.
Qed.

(** ** Contents *)

(** Keys are only added. *)
Lemma sole_before s s' k :
  (forall i j, jobs s !! i = Some j -> exists j', jobs s' !! i = Some j' /\ (job_key j = None \/ job_key j' = job_key j)) ->
  sole s' k -> sole s k.
Proof.
  intros Hkeys Hs i k' Hk'. apply (Hs i). destruct (jobs s !! i) as [j|] eqn:E; [|done].
  destruct (Hkeys i j E) as (j' & -> & [Hj|Hj]); cbn in *; congruence.
Qed.

(** Nothing in the content depends on the calls with other keys. *)
Lemma content_ext fs s s' k dn :
  files s' !! locate k = files s !! locate k ->
  (forall i c, jobs s' !! i = Some (Active k c) -> jobs s !! i = Some (Active k c)) ->
  file_holds fs s k dn -> file_holds fs s' k dn.
Proof. intros Hf Ha [Hc Hr]. split; [by rewrite Hf|]. intros i c Hi. rewrite Hf. eauto. Qed.

Lemma sole_set s s' i j k :
  jobs s' = <[i := j]> (jobs s) -> (forall j0, jobs s !! i = Some j0 -> job_key j0 = None \/ job_key j = job_key j0) ->
  sole s' k -> sole s k.
Proof.
  intros Hj Hk. apply sole_before. intros n jn Hn. rewrite Hj.
  destruct (decide (n = i)) as [->|Hne].
  - exists j. split; [|auto]. apply list_lookup_insert_eq. by eapply lookup_lt_Some.
  - exists jn. split; [by rewrite list_lookup_insert_ne|by right].
Qed.

(** A call that is not running does not read. *)
Lemma active_set s s' i j k n c :
  jobs s' = <[i := j]> (jobs s) -> job_key j ≠ Some k \/ (forall k' c', j ≠ Active k' c') ->
  jobs s' !! n = Some (Active k c) -> jobs s !! n = Some (Active k c).
Proof.
  intros -> Hj H. destruct (decide (n = i)) as [->|Hne]; [|by rewrite list_lookup_insert_ne in H].
  apply list_lookup_insert_Some in H as [(_ & -> & _)|[? _]]; [|done].
  destruct Hj as [Hj|Hj]; [by destruct Hj|by destruct (Hj k c)].
Qed.

(** ** Steps *)

Lemma queue_call_inv fs s : queue_inv fs s ->
  queue_inv fs (QState (jobs s ++ [Registering]) (registered s) (queues s) (chains s) (files s)).
Proof.
  intros [Hk Hc Hr Hb].
  assert (Hl : forall i j, jobs s !! i = Some j -> (jobs s ++ [Registering]) !! i = Some j).
  { intros i j H. by apply lookup_app_l_Some. }
  split.
  - intros k. destruct (Hk k) as (dn & ac & Hcalls & Hdn & Hline & Hq & Hf).
    exists dn, ac. rewrite calls_on_call. split; [done|]. split.
    { eapply Forall_impl; [exact Hdn|]. cbn. auto. }
    split; [|split; [done|]].
    { apply (line_ext s); [|exact Hline]. intros i Hi. cbn.
      assert (Hin : i ∈ calls_on s k) by (rewrite Hcalls; set_solver).
      apply elem_calls_on in Hin. destruct (jobs s !! i) eqn:E; [auto|done]. }
    intros Hsole. apply (content_ext fs s); [done| |].
    + intros i c H. apply lookup_app_Some in H as [H|[_ H]]; [done|].
      by apply list_lookup_singleton_Some in H as [_ ?].
    + apply Hf. revert Hsole. apply sole_before. intros i j H. exists j. split; [by apply Hl|by right].
  - intros i Hi. destruct (Hc i Hi) as [k H]. exists k. cbn. auto.
  - intros i j H. cbn in *. apply lookup_app_Some in H as [H|[Hge H]]; [by apply Hr|].
    apply list_lookup_singleton_Some in H as [H0 <-]. split; [|done]. intros Hlt.
    lia.
  - cbn. rewrite length_app. lia.
Qed.

Lemma key_found_inv fs s key :
  queue_inv fs s -> jobs s !! registered s = Some Registering ->
  queue_inv fs (QState (<[registered s := Waiting key (queues s !! key)]> (jobs s)) (S (registered s))
    (<[key := registered s]> (queues s)) (chains s) (files s)).
Proof.
  intros [Hk Hc Hr Hb] Hreg. set (n := registered s) in *. pose proof (lookup_lt_Some _ _ _ Hreg) as Hlt.
  set (s' := QState _ _ _ _ _).
  assert (Hne : forall i j, jobs s !! i = Some j -> j ≠ Registering -> jobs s' !! i = Some j).
  { intros i j H Hj. cbn. rewrite list_lookup_insert_ne; [done|]. intros <-. congruence. }
  split.
  - intros k. destruct (Hk k) as (dn & ac & Hcalls & Hdn & Hline & Hq & Hf).
    assert (Hcalls' : calls_on s' k = calls_on s k ++ (if bool_decide (Some key = Some k) then [n] else [])).
    { apply (calls_on_register s s' n (Waiting key (queues s !! key))); try done.
      intros m jm Hm Hlt'. destruct jm; try done;
        (assert (m < n)%nat by (apply (Hr m _ Hm); done); lia). }
    assert (Hline' : line s' k (last dn) ac).
    { apply (line_ext s); [|exact Hline]. intros i Hi.
      assert (Hin : i ∈ calls_on s k) by (rewrite Hcalls; set_solver). apply elem_calls_on in Hin.
      destruct (jobs s !! i) as [j|] eqn:E; [|done]. apply Hne; [done|]. by intros ->. }
    exists dn, (ac ++ (if bool_decide (Some key = Some k) then [n] else [])).
    split; [by rewrite Hcalls', Hcalls, <- app_assoc|].
    split; [eapply Forall_impl; [exact Hdn|]; cbn; intros i Hi; by apply (Hne i)|].
    split; [|split].
    + destruct (bool_decide_reflect (Some key = Some k)) as [[= ->]|]; [|by rewrite app_nil_r].
      assert (Hnew : jobs s' !! n = Some (Waiting k (last ac))).
      { cbn. by rewrite list_lookup_insert_eq, Hq by done. }
      destruct ac as [|a r]; [split; [|done]; left; exists None; split; [done|by left]|].
      destruct Hline' as [Ha Hr']. split; [done|]. by apply waits_snoc.
    + cbn. destruct (bool_decide_reflect (Some key = Some k)) as [[= ->]|Hk'].
      * by rewrite lookup_insert_eq, last_snoc.
      * rewrite lookup_insert_ne by congruence. by rewrite app_nil_r.
    + intros Hsole. apply (content_ext fs s); [done| |].
      * intros i c. apply (active_set s s' n (Waiting key (queues s !! key))); [done|by right].
      * apply Hf. revert Hsole. apply (sole_set s s' n (Waiting key (queues s !! key))); [done|].
        intros j0 Hj0. rewrite Hreg in Hj0. injection Hj0 as <-. by left.
  - intros i Hi. destruct (Hc i Hi) as [k H]. exists k. by apply (Hne i).
  - intros i j H. cbn in H |- *. destruct (decide (i = n)) as [->|Hin].
    + rewrite list_lookup_insert_eq in H by done. injection H as <-. split; [done|lia].
    + rewrite list_lookup_insert_ne in H by done. rewrite <- (Hr i j H). lia.
  - cbn. rewrite length_insert. lia.
Qed.

Lemma key_fails_inv fs s e :
  queue_inv fs s -> jobs s !! registered s = Some Registering ->
  queue_inv fs (QState (<[registered s := Refused e]> (jobs s)) (S (registered s))
    (queues s) (chains s) (files s)).
Proof.
  intros [Hk Hc Hr Hb] Hreg. set (n := registered s) in *. pose proof (lookup_lt_Some _ _ _ Hreg) as Hlt.
  set (s' := QState _ _ _ _ _).
  assert (Hne : forall i j, jobs s !! i = Some j -> j ≠ Registering -> jobs s' !! i = Some j).
  { intros i j H Hj. cbn. rewrite list_lookup_insert_ne; [done|]. intros <-. congruence. }
  split.
  - intros k. destruct (Hk k) as (dn & ac & Hcalls & Hdn & Hline & Hq & Hf). exists dn, ac.
    rewrite (calls_on_set s s' n (Refused e)) by (done || by rewrite Hreg). split; [done|].
    split; [eapply Forall_impl; [exact Hdn|]; cbn; intros i Hi; by apply (Hne i)|].
    split; [|split; [done|]].
    { apply (line_ext s); [|exact Hline]. intros i Hi.
      assert (Hin : i ∈ calls_on s k) by (rewrite Hcalls; set_solver). apply elem_calls_on in Hin.
      destruct (jobs s !! i) as [j|] eqn:E; [|done]. apply Hne; [done|]. by intros ->. }
    intros Hsole. apply (content_ext fs s); [done| |].
    + intros i c. apply (active_set s s' n (Refused e)); [done|by right].
    + apply Hf. revert Hsole. apply (sole_set s s' n (Refused e)); [done|].
      intros j0 Hj0. rewrite Hreg in Hj0. injection Hj0 as <-. by left.
  - intros i Hi. destruct (Hc i Hi) as [k H]. exists k. by apply (Hne i).
  - intros i j H. cbn in H |- *. destruct (decide (i = n)) as [->|Hin].
    + rewrite list_lookup_insert_eq in H by done. injection H as <-. split; [done|lia].
    + rewrite list_lookup_insert_ne in H by done. rewrite <- (Hr i j H). lia.
  - cbn. rewrite length_insert. lia.
Qed.

(** The lists of the other keys do not see a change of one call. *)
Lemma key_inv_other fs s s' i j k :
  key_inv fs s k -> jobs s' = <[i := j]> (jobs s) -> (jobs s !! i) ≫= job_key = job_key j ->
  job_key j ≠ Some k -> queues s' !! k = queues s !! k ->
  (sole s' k -> files s' !! locate k = files s !! locate k) ->
  key_inv fs s' k.
Proof.
  intros (dn & ac & Hcalls & Hdn & Hline & Hq & Hf) Hj Hkey Hk Hqs Hfs.
  assert (Hne : forall n, n ∈ calls_on s k -> jobs s' !! n = jobs s !! n).
  { intros n Hn. rewrite Hj, list_lookup_insert_ne; [done|]. intros <-. apply elem_calls_on in Hn. congruence. }
  exists dn, ac. rewrite (calls_on_set s s' i j) by done. split; [done|].
  split; [rewrite Forall_forall in *; intros n Hn; rewrite Hne by (rewrite Hcalls; set_solver); auto|].
  split; [|split; [by rewrite Hqs|]].
  { apply (line_ext s); [|exact Hline]. intros n Hn. apply Hne. rewrite Hcalls. set_solver. }
  intros Hsole. apply (content_ext fs s); [by apply Hfs| |].
  - intros n c. apply (active_set s s' i j); [done|by left].
  - apply Hf. revert Hsole. apply (sole_set s s' i j); [done|]. intros j0 Hj0. rewrite Hj0 in Hkey. by right.
Qed.

(** A call that may start or is running is the first of its line. *)
Lemma first_in_line fs s i k dn ac :
  queue_inv fs s -> calls_on s k = dn ++ ac ->
  Forall (fun i => jobs s !! i = Some (Finished k)) dn -> line s k (last dn) ac ->
  (exists p, jobs s !! i = Some (Waiting k p) /\ turn p s = true) \/ (exists r, jobs s !! i = Some (Active k r)) ->
  exists rest, ac = i :: rest.
Proof.
  intros Hinv Hcalls Hdn Hline Hi.
  assert (Hin : i ∈ calls_on s k).
  { apply elem_calls_on. destruct Hi as [(p & -> & _)|[r ->]]; done. }
  rewrite Hcalls in Hin. apply elem_of_app in Hin as [Hin|Hin].
  { rewrite Forall_forall in Hdn. apply Hdn in Hin. destruct Hi as [(p & Hp & _)|[r Hr]]; congruence. }
  destruct ac as [|a r]; [set_solver|]. apply elem_of_cons in Hin as [->|Hin]; [eauto|]. exfalso.
  destruct Hline as [Ha Hr]. destruct (waits_waiting s k a r i Hr Hin) as (p & Hp & Hpr).
  destruct Hi as [(q & Hq & Hturn)|[x Hx]]; [|congruence].
  rewrite Hp in Hq. injection Hq as <-. unfold turn in Hturn. bool_to_prop.
  destruct (qi_chains fs s Hinv p Hturn) as [k' Hk'].
  apply (line_not_finished s k (last dn) (a :: r) p k'); [done| |done]. destruct Hpr as [->|?]; set_solver.
Qed.

Lemma queue_start_inv fs s i key previous :
  queue_inv fs s -> jobs s !! i = Some (Waiting key previous) -> turn previous s = true ->
  queue_inv fs (set_job i (Active key (files s !! locate key)) s).
Proof.
  intros Hinv Hi Hturn. pose proof (lookup_lt_Some _ _ _ Hi) as Hlt. pose proof Hinv as [Hk Hc Hr Hb].
  split.
  - intros k. destruct (decide (k = key)) as [->|Hne].
    + destruct (Hk key) as (dn & ac & Hcalls & Hdn & Hline & Hq & Hf).
      destruct (first_in_line fs s i key dn ac Hinv Hcalls Hdn Hline) as [rest ->]; [left; eauto|].
      pose proof (calls_on_NoDup s key) as Hnd. rewrite Hcalls in Hnd.
      apply NoDup_app in Hnd as (_ & Hdisj & Hnd). apply NoDup_cons in Hnd as [Hnot _].
      exists dn, (i :: rest). rewrite (calls_on_set s _ i (Active key (files s !! locate key))) by (done || by rewrite Hi).
      split; [done|]. split.
      { rewrite Forall_forall in *. intros n Hn. cbn. rewrite list_lookup_insert_ne; [auto|].
        intros <-. by apply (Hdisj i Hn); left. }
      split; [|split; [done|]].
      { destruct Hline as [_ Hw]. split.
        - right. eexists. cbn. by rewrite list_lookup_insert_eq.
        - apply (waits_ext s); [|done]. intros n Hn. cbn. rewrite list_lookup_insert_ne; [done|].
          intros <-. done. }
      intros Hsole. destruct Hf as [Hf Hread].
      { revert Hsole. apply (sole_set s _ i (Active key (files s !! locate key))); [done|].
        intros j0 Hj0. rewrite Hi in Hj0. injection Hj0 as <-. by right. }
      split; [exact Hf|]. intros n c Hn. cbn in Hn |- *. destruct (decide (n = i)) as [->|Hni].
      * rewrite list_lookup_insert_eq in Hn by done. by injection Hn as <-.
      * rewrite list_lookup_insert_ne in Hn by done. eauto.
    + apply (key_inv_other fs s _ i (Active key (files s !! locate key))); try done; [by rewrite Hi|cbn; congruence].
  - intros n Hn. destruct (Hc n Hn) as [k H]. exists k. cbn. rewrite list_lookup_insert_ne; [done|].
    intros <-. congruence.
  - intros n j H. cbn in H |- *. destruct (decide (n = i)) as [->|Hin].
    + rewrite list_lookup_insert_eq in H by done. injection H as <-. rewrite (Hr i _ Hi). done.
    + rewrite list_lookup_insert_ne in H by done. by apply Hr.
  - cbn. by rewrite length_insert.
Qed.

Lemma applied_snoc dn i c : applied (dn ++ [i]) c = work i (applied dn c).
Proof. unfold applied. by rewrite foldl_app. Qed.

Lemma write_file_eq key o fs : write_file key o fs !! key = o.
Proof. destruct o; cbn; [by rewrite lookup_insert_eq|by rewrite lookup_delete_eq]. Qed.

Lemma write_file_ne key k o fs : k ≠ key -> write_file key o fs !! k = fs !! k.
Proof. intros. destruct o; cbn; [by rewrite lookup_insert_ne|by rewrite lookup_delete_ne]. Qed.

Lemma finish_inv fs s i key read s' :
  queue_inv fs s -> jobs s !! i = Some (Active key read) ->
  queue_step s (Finish i) = Some s' -> queue_inv fs s'.
Proof.
  intros Hinv Hi. pose proof (lookup_lt_Some _ _ _ Hi) as Hlt. pose proof Hinv as [Hk Hc Hr Hb].
  cbn [queue_step]. rewrite Hi. intros [= <-]. split.
  - intros k. destruct (decide (k = key)) as [->|Hne].
    + destruct (Hk key) as (dn & ac & Hcalls & Hdn & Hline & Hq & Hf).
      destruct (first_in_line fs s i key dn ac Hinv Hcalls Hdn Hline) as [rest ->]; [right; eauto|].
      pose proof (calls_on_NoDup s key) as Hnd. rewrite Hcalls in Hnd.
      apply NoDup_app in Hnd as (_ & Hdisj & Hnd). apply NoDup_cons in Hnd as [Hnot _].
      destruct Hline as [Hfirst Hw].
      exists (dn ++ [i]), rest. rewrite (calls_on_set s _ i (Finished key)) by (done || by rewrite Hi).
      split; [by rewrite Hcalls, <- app_assoc|]. split.
      { apply Forall_app. split.
        - rewrite Forall_forall in *. intros n Hn. cbn. rewrite list_lookup_insert_ne; [auto|].
          intros <-. by apply (Hdisj i Hn); left.
        - constructor; [|done]. cbn. by rewrite list_lookup_insert_eq. }
      split; [|split].
      * rewrite last_snoc. destruct rest as [|b rest]; [done|]. destruct Hw as [Hb' Hw].
        assert (Hbi : b ≠ i) by set_solver. split.
        { left. exists (Some i). split; [|by right]. cbn. by rewrite list_lookup_insert_ne. }
        apply (waits_ext s); [|done]. intros n Hn. cbn. rewrite list_lookup_insert_ne; [done|]. set_solver.
      * cbn. rewrite Hq. destruct rest as [|b rest].
        -- rewrite bool_decide_true by done. by rewrite lookup_delete_eq.
        -- rewrite bool_decide_false; [done|]. rewrite last_cons_cons. intros Hl.
           apply Hnot. by apply last_Some_elem_of.
      * intros Hsole. destruct Hf as [Hf Hread].
        { revert Hsole. apply (sole_set s _ i (Finished key)); [done|].
          intros j0 Hj0. rewrite Hi in Hj0. injection Hj0 as <-. by right. }
        split.
        -- cbn. by rewrite write_file_eq, applied_snoc, (Hread i read Hi), Hf.
        -- intros n c Hn. exfalso. cbn in Hn. destruct (decide (n = i)) as [->|Hni].
           { by rewrite list_lookup_insert_eq in Hn. }
           rewrite list_lookup_insert_ne in Hn by done.
           destruct (first_in_line fs s n key dn (i :: rest) Hinv Hcalls Hdn) as [r' [= Hr']];
             [by split|right; eauto|congruence].
    + apply (key_inv_other fs s _ i (Finished key)); try done; [by rewrite Hi|cbn; congruence| |].
      * cbn. destruct (bool_decide _); [by rewrite lookup_delete_ne|done].
      * intros Hsole. cbn. apply write_file_ne. intros E. apply Hne. symmetry.
        apply (Hsole i); [|done]. cbn. by rewrite list_lookup_insert_eq.
  - intros n Hn. destruct (decide (n = i)) as [->|Hne].
    + exists key. cbn. by rewrite list_lookup_insert_eq.
    + destruct (Hc n Hn) as [k H]. exists k. cbn. by rewrite list_lookup_insert_ne.
  - intros n j H. cbn in H |- *. destruct (decide (n = i)) as [->|Hin].
    + rewrite list_lookup_insert_eq in H by done. injection H as <-. rewrite (Hr i _ Hi). done.
    + rewrite list_lookup_insert_ne in H by done. by apply Hr.
  - cbn. by rewrite length_insert.
Qed.

Lemma queue_step_inv fs s ev s' : queue_inv fs s -> queue_step s ev = Some s' -> queue_inv fs s'.
Proof.
  intros Hinv. destruct ev as [|key|e|i|i|i]; cbn [queue_step].
  - intros [= <-]. by apply queue_call_inv.
  - destruct (jobs s !! registered s) as [[| | | |]|] eqn:E; try done. intros [= <-]. by apply key_found_inv.
  - destruct (jobs s !! registered s) as [[| | | |]|] eqn:E; try done. intros [= <-]. by apply key_fails_inv.
  - destruct (jobs s !! i) as [[|e|key p|key r|key]|] eqn:E; try done. destruct (turn p s) eqn:Ht; [|done].
    intros [= <-]. by eapply queue_start_inv.
  - destruct (jobs s !! i) as [[|e|key p|key r|key]|] eqn:E; try done. intros H.
    eapply finish_inv; [done|done|]. cbn [queue_step]. by rewrite E.
  - destruct (jobs s !! i) as [[|e|key p|key r|key]|] eqn:E; try done. intros [= <-].
    destruct Hinv as [Hk Hc Hr Hb]. split; [| |exact Hr|exact Hb].
    { intros k. destruct (Hk k) as (dn & ac & Hcalls & Hdn & Hline & Hq & Hf). exists dn, ac.
      split; [done|]. split; [done|]. split; [by apply (line_ext s)|done]. }
    cbn. intros n Hn.
    apply elem_of_union in Hn as [Hn|Hn]; [|auto]. apply elem_of_singleton in Hn as ->. eauto.
Qed.

Lemma queue_init_inv fs : queue_inv fs (queue_init fs).
Proof.
  split; cbn; try done.
  - intros k. by exists [], [].
Qed.

Lemma queue_reachable_inv fs s : reachable fs s -> queue_inv fs s.
Proof.
  intros [evs H]. pose proof (queue_init_inv fs) as Hi. revert H Hi. generalize (queue_init fs).
  induction evs as [|ev evs IH]; intros s0 H Hi; cbn in H; [by injection H as <-|].
  destruct (queue_step s0 ev) as [s1|] eqn:E; [|done]. cbn in H.
  apply (IH s1); [done|]. by eapply queue_step_inv.
Qed.

(** C12: among the calls of one environment, for every interleaving: two running
    changes with the same key are the same call, and a change runs only after
    every earlier call with its key is done; and when no other key is in use for
    a file (its path has been found under one name), nothing is lost: the content
    of the file is what the finished changes, applied one after the other in the
    order of the calls, make of the initial content, and a running change has
    read just that.  Two keys for one file are the fallback of
    [getMutationQueueKey] for a file that is not there yet, see [two_keys_lose]. *)
Theorem mutations_serialized fs s :
  reachable fs s ->
  (forall i j k ri rj, jobs s !! i = Some (Active k ri) -> jobs s !! j = Some (Active k rj) -> i = j) /\
  (forall i j k r, (i < j)%nat -> i ∈ calls_on s k -> jobs s !! j = Some (Active k r) ->
     jobs s !! i = Some (Finished k)) /\
  (forall k, exists dn ac, calls_on s k = dn ++ ac /\
     (forall i, i ∈ dn <-> i ∈ calls_on s k /\ jobs s !! i = Some (Finished k)) /\
     (sole s k -> files s !! locate k = applied dn (fs !! locate k) /\
        forall i c, jobs s !! i = Some (Active k c) -> c = applied dn (fs !! locate k))).
Proof.
  intros Hs. pose proof (queue_reachable_inv fs s Hs) as Hinv. split; [|split].
  - intros i j k ri rj Hi Hj. destruct (qi_keys fs s Hinv k) as (dn & ac & Hcalls & Hdn & Hline & _).
    destruct (first_in_line fs s i k dn ac Hinv Hcalls Hdn Hline) as [r1 E1]; [right; eauto|].
    destruct (first_in_line fs s j k dn ac Hinv Hcalls Hdn Hline) as [r2 E2]; [right; eauto|]. congruence.
  - intros i j k r Hlt Hi Hj. destruct (qi_keys fs s Hinv k) as (dn & ac & Hcalls & Hdn & Hline & _).
    destruct (first_in_line fs s j k dn ac Hinv Hcalls Hdn Hline) as [rest ->]; [right; eauto|].
    rewrite Hcalls in Hi. apply elem_of_app in Hi as [Hi|Hi]; [rewrite Forall_forall in Hdn; by apply Hdn|].
    exfalso. pose proof (calls_on_sorted s k) as Hsort. rewrite Hcalls in Hsort.
    apply elem_of_cons in Hi as [->|Hi]; [lia|].
    assert (Hs' : StronglySorted lt (j :: rest)).
    { clear -Hsort. induction dn as [|x dn IH]; [done|]. inversion Hsort; auto. }
    inversion Hs' as [|? ? _ HF]; subst. rewrite Forall_forall in HF. apply HF in Hi. lia.
  - intros k. destruct (qi_keys fs s Hinv k) as (dn & ac & Hcalls & Hdn & Hline & _ & Hf).
    exists dn, ac. split; [done|]. split; [|by intros [H1 H2]%Hf; rewrite <- H1]. intros i. split.
    + intros Hi. split; [rewrite Hcalls; set_solver|]. rewrite Forall_forall in Hdn. by apply Hdn.
    + intros [Hi Hfin]. rewrite Hcalls in Hi. apply elem_of_app in Hi as [Hi|Hi]; [done|].
      exfalso. by apply (line_not_finished s k (last dn) ac i k).
Qed.

(** C13: the queue neither blocks nor leaks: in every reachable state in which
    some call is not over, a registration, a start, an end or the resolution of
    a promise can happen next, and once all calls are over no queue is kept. *)
Theorem mutations_progress fs s :
  reachable fs s ->
  ((exists i j, jobs s !! i = Some j /\ j = Registering) ->
     forall key, exists s', queue_step s (KeyFound key) = Some s') /\
  (forall k i j, jobs s !! i = Some j -> (exists p, j = Waiting k p) \/ (exists r, j = Active k r) ->
     (exists n s', queue_step s (Start n) = Some s') \/ (exists n s', queue_step s (Finish n) = Some s') \/
     (exists n s1 m s2, queue_step s (Resolve n) = Some s1 /\ queue_step s1 (Start m) = Some s2)) /\
  ((forall i j, jobs s !! i = Some j -> (exists e, j = Refused e) \/ (exists k, j = Finished k)) -> queues s = ∅).
Proof.
  intros Hs. pose proof (queue_reachable_inv fs s Hs) as Hinv. split; [|split].
  - intros (i & j & Hi & ->) key. cbn [queue_step].
    destruct (jobs s !! registered s) as [j|] eqn:E.
    + destruct j; [eauto|exfalso..];
        (assert (registered s < registered s)%nat by (by apply (qi_registered fs s Hinv _ _ E)); lia).
    + apply lookup_ge_None in E. pose proof (lookup_lt_Some _ _ _ Hi).
      assert (~ (i < registered s)%nat) by (intros Hlt; apply (qi_registered fs s Hinv i _ Hi) in Hlt; done). lia.
  - intros k i j Hi Hj. destruct (qi_keys fs s Hinv k) as (dn & ac & Hcalls & Hdn & Hline & _).
    assert (Hin : i ∈ ac).
    { assert (i ∈ calls_on s k) as H.
      { apply elem_calls_on. rewrite Hi. destruct Hj as [[p ->]|[r ->]]; done. }
      rewrite Hcalls in H. apply elem_of_app in H as [H|H]; [|done].
      rewrite Forall_forall in Hdn. apply Hdn in H. destruct Hj as [[p ->]|[r ->]]; congruence. }
    destruct ac as [|a rest]; [set_solver|]. destruct Hline as [Ha _].
    destruct Ha as [(p & Hp & Hpv)|Ha].
    + destruct (turn p s) eqn:Ht.
      { left. exists a. cbn [queue_step]. rewrite Hp, Ht. eauto. }
      destruct Hpv as [->| ->]; [done|]. destruct (last dn) as [d|] eqn:El; [|done].
      right; right.
      assert (Hd : jobs s !! d = Some (Finished k)).
      { rewrite Forall_forall in Hdn. apply Hdn. by apply last_Some_elem_of. }
      set (s1 := QState (jobs s) (registered s) (queues s) ({[d]} ∪ chains s) (files s)).
      assert (Hturn : turn (Some d) s1 = true) by (apply bool_decide_true; set_solver).
      exists d, s1, a. eexists. split; [cbn [queue_step]; by rewrite Hd|].
      cbn [queue_step]. change (jobs s1) with (jobs s). rewrite Hp, Hturn. done.
    + destruct Ha as [c Ha]. right; left. exists a. cbn [queue_step]. rewrite Ha. eauto.
  - intros Hall. apply map_empty. intros k. destruct (qi_keys fs s Hinv k) as (dn & ac & Hcalls & _ & Hline & -> & _).
    destruct ac as [|a r]; [done|]. exfalso. destruct Hline as [Ha _].
    destruct Ha as [(p & Hp & _)|[c Ha]];
      [destruct (Hall a _ Hp) as [[? ?]|[? ?]]|destruct (Hall a _ Ha) as [[? ?]|[? ?]]]; done.
Qed.
End Queue.
Arguments qstate : clear implicits.
Arguments job : clear implicits.

(** Two changes of one file and one of another. *)
Definition push_number (i : nat) (c : option (list nat)) : option (list nat) := Some (i :: nullish c []).

Definition queue_trace : list qevent :=
  [Call; Call; Call; KeyFound (js "/a"); Start 0; KeyFound (js "/a"); KeyFound (js "/b"); Start 2;
   Finish 0; Finish 2; Resolve 0; Start 1; Finish 1].

Definition queue_final : qstate (list nat) :=
  nullish (queue_run push_number id (queue_init ∅) queue_trace) (queue_init ∅).

Lemma queue_final_reachable : reachable push_number id ∅ queue_final.
Proof. exists queue_trace. vm_compute. reflexivity. Qed.

Lemma split_both (dn ac : list nat) : [0; 1]%nat = dn ++ ac -> 0%nat ∈ dn -> 1%nat ∈ dn -> dn = [0; 1]%nat.
Proof.
  intros H Ha Hb. destruct dn as [|x [|y dn]]; [set_solver| |]; simpl in H; injection H; intros; subst.
  - set_solver.
  - by destruct dn.
Qed.

Lemma mutations_serialized_witness : files queue_final !! (js "/a") = Some [1%nat; 0%nat].
Proof.
  assert (Hcalls : calls_on queue_final (js "/a") = [0%nat; 1%nat]) by (vm_compute; reflexivity).
  assert (H0 : jobs queue_final !! 0%nat = Some (Finished (js "/a"))) by (vm_compute; reflexivity).
  assert (H1 : jobs queue_final !! 1%nat = Some (Finished (js "/a"))) by (vm_compute; reflexivity).
  destruct (mutations_serialized push_number id ∅ queue_final queue_final_reachable) as (_ & _ & H).
  destruct (H (js "/a")) as (dn & ac & Hc & Hdn & Hf). rewrite Hcalls in Hc, Hdn.
  rewrite (split_both dn ac Hc) in Hf.
  - apply Hf. intros i k' _ E. exact E.
  - apply Hdn; split; [left|exact H0].
  - apply Hdn. split; [right; left|exact H1].
Defined.

Lemma mutations_progress_witness : queues queue_final = ∅.
Proof.
  apply (mutations_progress push_number id ∅ queue_final queue_final_reachable).
  assert (Hj : jobs queue_final = [Finished (js "/a"); Finished (js "/a"); Finished (js "/b")])
    by (vm_compute; reflexivity).
  rewrite Hj. intros i j H. right. destruct i as [|[|[|i]]]; try discriminate H; injection H as <-; eexists; reflexivity.
Defined.

(** A new file under a linked directory: the path through the link is its own
    key, because the canonical path is not found, and so is the canonical path.
    Both changes run at once and the first one is lost. *)
Definition through_link (p : jstr) : jstr := if bool_decide (p = js "/link/new") then js "/real/new" else p.

Definition not_there (p : jstr) : result file_error jstr := Throw (FileError FNotFound (js "not found") (Some p)).

Definition two_keys_trace : list qevent :=
  [Call; Call; KeyFound (js "/link/new"); KeyFound (js "/real/new"); Start 0; Start 1; Finish 0; Finish 1].

Example two_keys_lose :
  getMutationQueueKey (Ok (js "/link/new")) not_there = Ok (js "/link/new") /\
  getMutationQueueKey (Ok (js "/real/new")) not_there = Ok (js "/real/new") /\
  through_link (js "/link/new") = through_link (js "/real/new") /\
  (exists s, queue_run push_number through_link (queue_init ∅) (take 6 two_keys_trace) = Some s /\
     jobs s = [Active (js "/link/new") None; Active (js "/real/new") None]) /\
  option_map (fun s => files s !! js "/real/new") (queue_run push_number through_link (queue_init ∅) two_keys_trace)
    = Some (Some [1%nat]).
Proof.
  split; [reflexivity|]. split; [reflexivity|]. split; [vm_compute; reflexivity|]. split.
  - eexists. split; vm_compute; reflexivity.
  - vm_compute. reflexivity.
Qed.
