(* ===== verification/EditDiff.v ===== *)
(** The edit tool's text engine (pi [packages/agent/dist/harness/tools/edit-diff.js]):
    line endings, exact and fuzzy matching, and the replacement of several
    non-overlapping regions at once.  Unicode compatibility normalization
    ([String.prototype.normalize("NFKC")]) and the line differ of the [diff]
    package are parameters. *)
From S2P Require Import Prelude.
Open Scope Z_scope.

Definition CRLF : jstr := [CR; LF].

(** ** Line endings *)

Definition detectLineEnding (content : jstr) : jstr :=
  match index_of [LF] content with
  | None => [LF]
  | Some lfIdx =>
      match index_of CRLF content with
      | None => [LF]
      | Some crlfIdx => if (crlfIdx <? lfIdx)%nat then CRLF else [LF]
      end
  end.

(** [text.replace(/\r\n/g, "\n")] *)
Fixpoint replace_crlf (text : jstr) : jstr :=
  match text with
  | [] => []
  | c :: r =>
      if c =? CR then
        match r with
        | d :: r' => if d =? LF then LF :: replace_crlf r' else c :: replace_crlf r
        | [] => [c]
        end
      else c :: replace_crlf r
  end.

Definition normalizeToLF (text : jstr) : jstr := replace_unit CR [LF] (replace_crlf text).

Definition restoreLineEndings (text ending : jstr) : jstr :=
  if streq ending CRLF then replace_unit LF CRLF text else text.

Definition BOM : Z := 65279.

(** [stripBom]: the byte-order mark (or nothing) and the text after it. *)
Definition stripBom (content : jstr) : jstr * jstr :=
  if starts_with [BOM] content then ([BOM], drop 1 content) else ([], content).

(** ** Lines *)

(** [content.match(/[^\n]*\n|[^\n]+/g) ?? []] *)
Fixpoint splitLinesWithEndings (content : jstr) : list jstr :=
  match content with
  | [] => []
  | c :: r =>
      if c =? LF then [c] :: splitLinesWithEndings r
      else match splitLinesWithEndings r with
           | l :: ls => (c :: l) :: ls
           | [] => [[c]]
           end
  end.

Record span := Span { span_start : Z; span_end : Z }.

Fixpoint spans_from (offset : Z) (lines : list jstr) : list span :=
  match lines with
  | [] => []
  | line :: rest =>
      let e := offset + Z.of_nat (length line) in
      Span offset e :: spans_from e rest
  end.

Definition getLineSpans (content : jstr) : list span :=
  spans_from 0 (splitLinesWithEndings content).

(** A matched edit: where it applies and what it puts there. *)
Record replacement := Replacement {
  editIndex : Z; matchIndex : Z; matchLength : Z; newText : jstr }.

(** The first line that contains a position. *)
Fixpoint find_line (lines : list span) (pos : Z) : option nat :=
  match lines with
  | [] => None
  | l :: r =>
      if (span_start l <=? pos) && (pos <? span_end l) then Some O
      else S <$> find_line r pos
  end.

(** [while (endLine < lines.length && lines[endLine].end < replacementEnd) endLine++],
    run on [lines] from [endLine] on; the number of steps taken. *)
Fixpoint skip_lines (lines : list span) (replacementEnd : Z) : nat :=
  match lines with
  | [] => O
  | l :: r => if span_end l <? replacementEnd then S (skip_lines r replacementEnd) else O
  end.

Definition OUTSIDE : jstr := js "Replacement range is outside the base content.".

(** The half-open range of lines a replacement touches. *)
Definition getReplacementLineRange (lines : list span) (r : replacement)
  : result jstr (nat * nat) :=
  let replacementStart := matchIndex r in
  let replacementEnd := matchIndex r + matchLength r in
  match find_line lines replacementStart with
  | None => Throw OUTSIDE
  | Some startLine =>
      let endLine := (startLine + skip_lines (drop startLine lines) replacementEnd)%nat in
      if (length lines <=? endLine)%nat then Throw OUTSIDE
      else Ok (startLine, S endLine)
  end.

(** ** Replacement *)

(** Applied from the last replacement to the first. *)
Definition apply_one (offset : Z) (r : replacement) (text : jstr) : jstr :=
  let i := matchIndex r - offset in
  substring_to i text ++ newText r ++ substring_from (i + matchLength r) text.

Definition applyReplacements (content : jstr) (rs : list replacement) (offset : Z) : jstr :=
  foldr (apply_one offset) content rs.

(** Replacements that touch the same lines, with the range they span. *)
Record group := Group {
  startLine : nat; endLine : nat; group_replacements : list replacement }.

(** One iteration of the grouping loop; the groups are kept last first. *)
Definition add_to_groups (rgroups : list group) (range : nat * nat) (r : replacement)
  : list group :=
  match rgroups with
  | current :: rest =>
      if (range.1 <? endLine current)%nat then
        Group (startLine current) (Nat.max (endLine current) range.2)
              (group_replacements current ++ [r]) :: rest
      else Group range.1 range.2 [r] :: rgroups
  | [] => [Group range.1 range.2 [r]]
  end.

Fixpoint group_loop (baseLines : list span) (rs : list replacement) (rgroups : list group)
  : result jstr (list group) :=
  match rs with
  | [] => Ok (rev rgroups)
  | r :: rest =>
      let! range := getReplacementLineRange baseLines r in
      group_loop baseLines rest (add_to_groups rgroups range r)
  end.

(** The output loop over the groups. *)
Fixpoint emit_groups (originalLines : list jstr) (baseLines : list span) (baseContent : jstr)
    (groups : list group) (originalLineIndex : nat) : jstr :=
  match groups with
  | [] => concat (drop originalLineIndex originalLines)
  | g :: rest =>
      let groupStartOffset :=
        match baseLines !! startLine g with Some s => span_start s | None => 0 end in
      let groupEndOffset :=
        match baseLines !! (endLine g - 1)%nat with Some s => span_end s | None => 0 end in
      concat (take (startLine g - originalLineIndex) (drop originalLineIndex originalLines)) ++
      applyReplacements (slice (Z.to_nat groupStartOffset) (Z.to_nat groupEndOffset) baseContent)
        (group_replacements g) groupStartOffset ++
      emit_groups originalLines baseLines baseContent rest (endLine g)
  end.

Definition DIFFERENT_LINES : jstr :=
  js "Cannot preserve unchanged lines because the base content has a different line count.".

Definition applyReplacementsPreservingUnchangedLines (originalContent baseContent : jstr)
    (rs : list replacement) : result jstr jstr :=
  let originalLines := splitLinesWithEndings originalContent in
  let baseLines := getLineSpans baseContent in
  if negb (length originalLines =? length baseLines)%nat then Throw DIFFERENT_LINES
  else
    let! groups := group_loop baseLines (sort_by matchIndex rs) [] in
    Ok (emit_groups originalLines baseLines baseContent groups 0).

(** ** Errors *)

Definition edit_ref (editIndex : Z) : jstr := js "edits[" ++ num_str editIndex ++ js "]".

Definition getNotFoundError (path : jstr) (editIndex totalEdits : Z) : jstr :=
  if totalEdits =? 1 then
    js "Could not find the exact text in " ++ path ++
    js ". The old text must match exactly including all whitespace and newlines."
  else
    js "Could not find " ++ edit_ref editIndex ++ js " in " ++ path ++
    js ". The oldText must match exactly including all whitespace and newlines.".

Definition getDuplicateError (path : jstr) (editIndex totalEdits occurrences : Z) : jstr :=
  if totalEdits =? 1 then
    js "Found " ++ num_str occurrences ++ js " occurrences of the text in " ++ path ++
    js ". The text must be unique. Please provide more context to make it unique."
  else
    js "Found " ++ num_str occurrences ++ js " occurrences of " ++ edit_ref editIndex ++
    js " in " ++ path ++
    js ". Each oldText must be unique. Please provide more context to make it unique.".

Definition getEmptyOldTextError (path : jstr) (editIndex totalEdits : Z) : jstr :=
  if totalEdits =? 1 then js "oldText must not be empty in " ++ path ++ js "."
  else edit_ref editIndex ++ js ".oldText must not be empty in " ++ path ++ js ".".

Definition getNoChangeError (path : jstr) (totalEdits : Z) : jstr :=
  if totalEdits =? 1 then
    js "No changes made to " ++ path ++
    js ". The replacement produced identical content. This might indicate an issue with special characters or the text not existing as expected."
  else
    js "No changes made to " ++ path ++ js ". The replacements produced identical content.".

Definition overlap_error (previous current : Z) (path : jstr) : jstr :=
  edit_ref previous ++ js " and " ++ edit_ref current ++ js " overlap in " ++ path ++
  js ". Merge them into one edit or target disjoint regions.".

(** ** Matching *)

(** The character classes of [normalizeForFuzzyMatch]. *)
Definition is_single_quote (c : Z) : bool := (8216 <=? c) && (c <=? 8219).
Definition is_double_quote (c : Z) : bool := (8220 <=? c) && (c <=? 8223).
Definition is_dash (c : Z) : bool := ((8208 <=? c) && (c <=? 8213)) || (c =? 8722).
Definition is_exotic_space (c : Z) : bool :=
  (c =? 160) || ((8194 <=? c) && (c <=? 8202)) || (c =? 8239) || (c =? 8287) || (c =? 12288).

(** The four class replacements, in the order the code chains them (the
    classes and their replacements are disjoint). *)
Definition fold_punctuation (c : Z) : Z :=
  let c := if is_single_quote c then 39 else c in
  let c := if is_double_quote c then 34 else c in
  let c := if is_dash c then 45 else c in
  if is_exotic_space c then 32 else c.

Record match_result := MatchResult {
  found : bool;
  index : Z;
  mr_matchLength : Z;
  usedFuzzyMatch : bool;
  contentForReplacement : jstr }.

Record edit := Edit { oldText : jstr; edit_newText : jstr }.

(** Occurrences of a non-empty [p] in [s], left to right without overlap;
    [skip] units still belong to the last occurrence found. *)
Fixpoint count_occ (p s : jstr) (skip : nat) : Z :=
  match s with
  | [] => 0
  | _ :: r =>
      match skip with
      | S n => count_occ p r n
      | O => if starts_with p s then 1 + count_occ p r (length p - 1) else count_occ p r 0
      end
  end.

(** [s.split(p).length] *)
Definition split_length (p s : jstr) : Z :=
  match p with
  | [] => Z.of_nat (length s)
  | _ => 1 + count_occ p s 0
  end.

Section Matching.
(** [s.normalize("NFKC")] *)
Context (NFKC : jstr -> jstr).

Definition normalizeForFuzzyMatch (text : jstr) : jstr :=
  map fold_punctuation (join [LF] (map trim_end (split_char LF (NFKC text)))).

Definition fuzzyFindText (content oldText : jstr) : match_result :=
  match index_of oldText content with
  | Some exactIndex =>
      MatchResult true (Z.of_nat exactIndex) (Z.of_nat (length oldText)) false content
  | None =>
      let fuzzyContent := normalizeForFuzzyMatch content in
      let fuzzyOldText := normalizeForFuzzyMatch oldText in
      match index_of fuzzyOldText fuzzyContent with
      | None => MatchResult false (-1) 0 false content
      | Some fuzzyIndex =>
          MatchResult true (Z.of_nat fuzzyIndex) (Z.of_nat (length fuzzyOldText)) true
            fuzzyContent
      end
  end.

Definition countOccurrences (content oldText : jstr) : Z :=
  split_length (normalizeForFuzzyMatch oldText) (normalizeForFuzzyMatch content) - 1.

(** The first loop: no [oldText] may be empty. *)
Fixpoint check_empty (edits : list edit) (i total : Z) (path : jstr) : result jstr unit :=
  match edits with
  | [] => Ok tt
  | e :: r =>
      if negb (truthy (oldText e)) then Throw (getEmptyOldTextError path i total)
      else check_empty r (i + 1) total path
  end.

(** The matching loop. *)
Fixpoint match_edits (base : jstr) (edits : list edit) (i total : Z) (path : jstr)
  : result jstr (list replacement) :=
  match edits with
  | [] => Ok []
  | e :: r =>
      let matchResult := fuzzyFindText base (oldText e) in
      if negb (found matchResult) then Throw (getNotFoundError path i total)
      else
        let occurrences := countOccurrences base (oldText e) in
        if 1 <? occurrences then Throw (getDuplicateError path i total occurrences)
        else
          let! rest := match_edits base r (i + 1) total path in
          Ok (Replacement i (index matchResult) (mr_matchLength matchResult)
                (edit_newText e) :: rest)
  end.

(** The overlap loop over the matches sorted by position. *)
Fixpoint check_overlap (ms : list replacement) (path : jstr) : result jstr unit :=
  match ms with
  | [] => Ok tt
  | previous :: r =>
      match r with
      | [] => Ok tt
      | current :: _ =>
          if matchIndex current <? matchIndex previous + matchLength previous
          then Throw (overlap_error (editIndex previous) (editIndex current) path)
          else check_overlap r path
      end
  end.

Definition normalize_edit (e : edit) : edit :=
  Edit (normalizeToLF (oldText e)) (normalizeToLF (edit_newText e)).

(** The base content and the new content. *)
Definition applyEditsToNormalizedContent (normalizedContent : jstr) (edits : list edit)
    (path : jstr) : result jstr (jstr * jstr) :=
  let normalizedEdits := map normalize_edit edits in
  let total := Z.of_nat (length normalizedEdits) in
  let! _ := check_empty normalizedEdits 0 total path in
  let initialMatches := map (fun e => fuzzyFindText normalizedContent (oldText e))
                          normalizedEdits in
  let fuzzy := existsb usedFuzzyMatch initialMatches in
  let replacementBaseContent :=
    if fuzzy then normalizeForFuzzyMatch normalizedContent else normalizedContent in
  let! matched := match_edits replacementBaseContent normalizedEdits 0 total path in
  let matchedEdits := sort_by matchIndex matched in
  let! _ := check_overlap matchedEdits path in
  let baseContent := normalizedContent in
  let! newContent :=
    if fuzzy then
      applyReplacementsPreservingUnchangedLines normalizedContent replacementBaseContent
        matchedEdits
    else Ok (applyReplacements replacementBaseContent matchedEdits 0) in
  if streq baseContent newContent then Throw (getNoChangeError path total)
  else Ok (baseContent, newContent).

(** The text part of the edit tool's [execute]: what is written back for a
    file's content, its byte-order mark and line endings kept. *)
Definition edit_text (fileContent : jstr) (edits : list edit) (path : jstr)
  : result jstr jstr :=
  let '(bom, content) := stripBom fileContent in
  let originalEnding := detectLineEnding content in
  let normalizedContent := normalizeToLF content in
  let! r := applyEditsToNormalizedContent normalizedContent edits path in
  Ok (bom ++ restoreLineEndings r.2 originalEnding).
End Matching.

(** * Line endings: what is read is what is written *)

Lemma elem_of_replace_unit c t s x :
  x ∈ replace_unit c t s <-> (c ∈ s /\ x ∈ t) \/ (x ∈ s /\ x ≠ c).
Proof.
  unfold replace_unit. rewrite list_elem_of_bind. split.
  - intros (y & Hx & Hy). destruct (y =? c) eqn:E; bool_to_prop.
    + subst. by left.
    + apply list_elem_of_singleton in Hx. subst. by right.
  - intros [[Hc Hx]|[Hx Hne]].
    + exists c. by rewrite Z.eqb_refl.
    + exists x. rewrite (proj2 (Z.eqb_neq x c)) by done.
      by rewrite list_elem_of_singleton.
Qed.

Lemma replace_unit_id c t s : c ∉ s -> replace_unit c t s = s.
Proof.
  unfold replace_unit. induction s as [|x s IH]; intros Hc; [done|].
  rewrite bind_cons, IH by set_solver.
  by rewrite (proj2 (Z.eqb_neq x c)) by set_solver.
Qed.

Lemma replace_crlf_id s : CR ∉ s -> replace_crlf s = s.
Proof.
  induction s as [|x s IH]; intros Hc; [done|]. simpl.
  rewrite (proj2 (Z.eqb_neq x CR)) by set_solver. by rewrite IH by set_solver.
Qed.

Lemma normalizeToLF_no_CR s : CR ∉ normalizeToLF s.
Proof.
  unfold normalizeToLF. rewrite elem_of_replace_unit.
  intros [[_ H]|[_ H]]; [|done]. by apply list_elem_of_singleton in H.
Qed.

Lemma normalizeToLF_id s : CR ∉ s -> normalizeToLF s = s.
Proof. intros H. unfold normalizeToLF. by rewrite replace_crlf_id, replace_unit_id. Qed.

Lemma replace_crlf_restore s : CR ∉ s -> replace_crlf (replace_unit LF CRLF s) = s.
Proof.
  unfold replace_unit. induction s as [|x s IH]; intros Hc; [done|].
  rewrite bind_cons. destruct (Z.eqb_spec x LF) as [->|Hne]; simpl.
  - f_equal. apply IH. set_solver.
  - rewrite (proj2 (Z.eqb_neq x CR)) by set_solver. f_equal. apply IH. set_solver.
Qed.

Lemma normalize_restore t ending :
  CR ∉ t -> normalizeToLF (restoreLineEndings t ending) = t.
Proof.
  intros Hc. unfold restoreLineEndings. destruct (streq ending CRLF).
  - unfold normalizeToLF. by rewrite replace_crlf_restore, replace_unit_id.
  - by apply normalizeToLF_id.
Qed.

Lemma index_of_first_unit p c a b :
  c ∉ a -> index_of (c :: p) (a ++ c :: p ++ b) = Some (length a).
Proof.
  induction a as [|x a IH]; intros Hc; cbn [app index_of length].
  - rewrite app_comm_cons, starts_with_app. done.
  - cbn [starts_with]. rewrite (proj2 (Z.eqb_neq c x)) by set_solver. simpl.
    by rewrite IH by set_solver.
Qed.

Lemma index_of_absent c p s : c ∉ s -> index_of (c :: p) s = None.
Proof.
  induction s as [|x s IH]; intros Hc; [done|]. cbn [index_of starts_with].
  rewrite (proj2 (Z.eqb_neq c x)) by set_solver. simpl. by rewrite IH by set_solver.
Qed.

Lemma detect_restored t :
  CR ∉ t -> LF ∈ t -> detectLineEnding (restoreLineEndings t CRLF) = CRLF.
Proof.
  intros Hc Hl. unfold restoreLineEndings. rewrite streq_refl.
  apply list_elem_of_split_l in Hl as (a & b & -> & Ha).
  assert (replace_unit LF CRLF (a ++ LF :: b) = a ++ CR :: LF :: replace_unit LF CRLF b) as ->.
  { unfold replace_unit. rewrite bind_app, bind_cons. simpl. f_equal.
    by apply (replace_unit_id LF CRLF a). }
  unfold detectLineEnding.
  pose proof (index_of_first_unit [LF] CR a (replace_unit LF CRLF b)) as Hcrlf.
  cbn [app] in Hcrlf. fold CRLF in Hcrlf. rewrite Hcrlf by set_solver.
  pose proof (index_of_first_unit [] LF (a ++ [CR]) (replace_unit LF CRLF b)) as H.
  rewrite <- app_assoc in H. cbn [app] in H. rewrite H by set_solver.
  rewrite length_app. cbn [length].
  by rewrite (proj2 (Nat.ltb_lt _ _)) by lia.
Qed.

(** Line endings survive the edit tool: for a file whose line endings are
    uniform (all LF, or all CRLF), with or without a byte-order mark, stripping
    the mark, normalizing to LF, restoring the detected ending and putting the
    mark back gives the file's text back unit for unit. *)
Theorem line_endings_roundtrip t ending bom :
  CR ∉ t -> BOM ∉ t -> ending = [LF] \/ ending = CRLF -> bom = [] \/ bom = [BOM] ->
  let file := bom ++ restoreLineEndings t ending in
  let '(bom', content) := stripBom file in
  bom' ++ restoreLineEndings (normalizeToLF content) (detectLineEnding content) = file.
Proof.
  intros Hc Hb He Hbom file.
  assert (Hr : BOM ∉ restoreLineEndings t ending).
  { unfold restoreLineEndings. destruct (streq ending CRLF); [|done].
    rewrite elem_of_replace_unit. unfold CRLF, BOM, CR, LF in *. set_solver. }
  assert (Hstrip : stripBom file = (bom, restoreLineEndings t ending)).
  { unfold stripBom, file. destruct Hbom as [-> | ->]; [|done]. cbn [app].
    destruct (restoreLineEndings t ending) as [|x r] eqn:Hx; [done|]. cbn [starts_with].
    by rewrite (proj2 (Z.eqb_neq BOM x)) by set_solver. }
  rewrite Hstrip. subst file. f_equal. rewrite normalize_restore by done.
  destruct He as [-> | ->].
  - change (restoreLineEndings t [LF]) with t. unfold detectLineEnding.
    rewrite (index_of_absent CR [LF] t Hc : index_of CRLF t = None). by case_match.
  - destruct (decide (LF ∈ t)) as [Hl|Hl].
    + by rewrite detect_restored.
    + unfold restoreLineEndings at 2 3. rewrite streq_refl, replace_unit_id by done.
      unfold detectLineEnding. by rewrite (index_of_absent LF [] t Hl).
Qed.

Lemma line_endings_roundtrip_witness :
  let file := [BOM] ++ restoreLineEndings (js "a" ++ [LF] ++ js "b" ++ [LF]) CRLF in
  let '(bom', content) := stripBom file in
  bom' ++ restoreLineEndings (normalizeToLF content) (detectLineEnding content) = file.
Proof.
  apply (line_endings_roundtrip (js "a" ++ [LF] ++ js "b" ++ [LF]) CRLF [BOM]);
    [ by apply (bool_decide_eq_true_1 (CR ∉ js "a" ++ [LF] ++ js "b" ++ [LF]))
    | by apply (bool_decide_eq_true_1 (BOM ∉ js "a" ++ [LF] ++ js "b" ++ [LF]))
    | by right | by right ].
Defined.

(** * Replacement as splicing *)

(** The reference: walk the text once from position [pos], copying the gaps and
    putting each new text in place of its region. *)
Fixpoint splice (rs : list replacement) (pos : Z) (text : jstr) : jstr :=
  match rs with
  | [] => text
  | r :: rest =>
      take (Z.to_nat (matchIndex r - pos)) text ++ newText r ++
      splice rest (matchIndex r + matchLength r)
        (drop (Z.to_nat (matchIndex r + matchLength r - pos)) text)
  end.

(** Regions in order, disjoint, within [pos, lim). *)
Fixpoint regions_ok (pos lim : Z) (rs : list replacement) : Prop :=
  match rs with
  | [] => pos <= lim
  | r :: rest =>
      pos <= matchIndex r /\ 0 <= matchLength r /\
      regions_ok (matchIndex r + matchLength r) lim rest
  end.

Lemma regions_ok_le pos lim rs : regions_ok pos lim rs -> pos <= lim.
Proof.
  revert pos; induction rs as [|r rs IH]; simpl; intros pos; [done|].
  intros (? & ? & H%IH). lia.
Qed.

Lemma regions_ok_weaken pos pos' lim rs :
  regions_ok pos lim rs -> pos' <= pos -> regions_ok pos' lim rs.
Proof. destruct rs; simpl; intros; intuition lia. Qed.

(** Applying from the last to the first is splicing from the first. *)
Lemma applyReplacements_splice rs off pos text :
  off <= pos -> regions_ok pos (off + Z.of_nat (length text)) rs ->
  applyReplacements text rs off =
  take (Z.to_nat (pos - off)) text ++ splice rs pos (drop (Z.to_nat (pos - off)) text).
Proof.
  revert pos; induction rs as [|r rs IH]; intros pos Hoff Hok.
  - simpl. by rewrite take_drop.
  - destruct Hok as (Hp & Hl & Hok). pose proof (regions_ok_le _ _ _ Hok) as Hle.
    cbn [applyReplacements foldr splice]. fold (applyReplacements text rs off).
    rewrite (IH (matchIndex r + matchLength r)) by (done || lia).
    unfold apply_one, substring_to, substring_from.
    rewrite take_app_le by (rewrite length_take; lia).
    rewrite take_take, Nat.min_l by lia.
    rewrite drop_app_ge by (rewrite length_take; lia).
    rewrite length_take.
    replace (Z.to_nat (matchIndex r - off + matchLength r) -
      Nat.min (Z.to_nat (matchIndex r + matchLength r - off)) (length text))%nat with O by lia.
    rewrite drop_0, drop_drop.
    replace (Z.to_nat (pos - off) + Z.to_nat (matchIndex r + matchLength r - pos))%nat
      with (Z.to_nat (matchIndex r + matchLength r - off)) by lia.
    rewrite take_drop_commute, (app_assoc (take (Z.to_nat (pos - off)) text)).
    replace (Z.to_nat (pos - off) + Z.to_nat (matchIndex r - pos))%nat
      with (Z.to_nat (matchIndex r - off)) by lia.
    f_equal. rewrite <- (take_drop (Z.to_nat (pos - off)) (take (Z.to_nat (matchIndex r - off)) text)) at 1.
    by rewrite take_take, Nat.min_l by lia.
Qed.

(** [applyReplacements] rewrites every region at once: for regions that
    are in order, disjoint and inside the text, editing from the last region to
    the first gives exactly the text obtained by copying the gaps and
    substituting each region, so no edit disturbs another's position. *)
Theorem applyReplacements_correct rs text :
  regions_ok 0 (Z.of_nat (length text)) rs ->
  applyReplacements text rs 0 = splice rs 0 text.
Proof.
  intros H. rewrite (applyReplacements_splice rs 0 0) by (done || lia).
  simpl. by rewrite drop_0.
Qed.

Lemma applyReplacements_correct_witness :
  applyReplacements (js "abcdef") [Replacement 0 1 2 (js "XYZ"); Replacement 1 4 1 []] 0
  = js "aXYZdf".
Proof.
  rewrite applyReplacements_correct by (simpl; lia). reflexivity.
Defined.

(** ** Splicing a text cut in two *)

Lemma splice_gap rs pos q text :
  pos <= q -> regions_ok q (pos + Z.of_nat (length text)) rs ->
  splice rs pos text =
  take (Z.to_nat (q - pos)) text ++ splice rs q (drop (Z.to_nat (q - pos)) text).
Proof.
  intros Hq Hok. destruct rs as [|r rs]; simpl; [by rewrite take_drop|].
  destruct Hok as (Hp & Hl & Hok). rewrite drop_drop.
  replace (Z.to_nat (q - pos) + Z.to_nat (matchIndex r + matchLength r - q))%nat
    with (Z.to_nat (matchIndex r + matchLength r - pos)) by lia.
  rewrite (app_assoc (take (Z.to_nat (q - pos)) text)), take_drop_commute.
  replace (Z.to_nat (q - pos) + Z.to_nat (matchIndex r - q))%nat
    with (Z.to_nat (matchIndex r - pos)) by lia.
  f_equal.
  rewrite <- (take_drop (Z.to_nat (q - pos)) (take (Z.to_nat (matchIndex r - pos)) text)) at 1.
  by rewrite take_take, Nat.min_l by lia.
Qed.

Lemma splice_app a b pos q text :
  regions_ok pos q a -> regions_ok q (pos + Z.of_nat (length text)) b ->
  splice (a ++ b) pos text =
  splice a pos (take (Z.to_nat (q - pos)) text) ++
  splice b q (drop (Z.to_nat (q - pos)) text).
Proof.
  revert pos text; induction a as [|r a IH]; intros pos text Ha Hb.
  - simpl. by apply splice_gap.
  - destruct Ha as (Hp & Hl & Ha). cbn [app splice].
    pose proof (regions_ok_le _ _ _ Ha). pose proof (regions_ok_le _ _ _ Hb).
    rewrite IH; [|done|rewrite length_drop; eapply regions_ok_weaken; [|reflexivity]].
    2:{ replace (matchIndex r + matchLength r + Z.of_nat (length text - Z.to_nat
          (matchIndex r + matchLength r - pos))) with (pos + Z.of_nat (length text)) by lia.
        done. }
    rewrite take_take, Nat.min_l by lia. rewrite <- !app_assoc. do 3 f_equal.
    + f_equal. rewrite take_drop_commute. do 2 f_equal. lia.
    + rewrite drop_drop. do 2 f_equal. lia.
Qed.

Lemma regions_ok_app pos q lim a b :
  regions_ok pos q a -> regions_ok q lim b -> regions_ok pos lim (a ++ b).
Proof.
  revert pos; induction a as [|r a IH]; simpl; intros pos Ha Hb.
  - by eapply regions_ok_weaken.
  - destruct Ha as (? & ? & ?). auto.
Qed.

(** * The line-preserving replacement *)

Lemma concat_splitLines s : concat (splitLinesWithEndings s) = s.
Proof.
  induction s as [|c s IH]; [done|]. simpl. destruct (c =? LF); simpl; [by rewrite IH|].
  destruct (splitLinesWithEndings s); simpl in *; by rewrite <- IH.
Qed.

Section Lines.
Context (L : list jstr).

(** Where line [i] starts. *)
Definition off (i : nat) : Z := Z.of_nat (length (concat (take i L))).

Lemma take_S_snoc i l : L !! i = Some l -> take (S i) L = take i L ++ [l].
Proof. apply take_S_r. Qed.

Lemma off_S i l : L !! i = Some l -> off (S i) = off i + Z.of_nat (length l).
Proof.
  intros H. unfold off. rewrite (take_S_snoc i l H), concat_app, length_app. simpl.
  rewrite app_nil_r. lia.
Qed.

Lemma concat_take_add i j :
  concat (take (i + j) L) = concat (take i L) ++ concat (take j (drop i L)).
Proof. by rewrite <- concat_app, take_take_drop. Qed.

Lemma off_mono i j : (i <= j)%nat -> off i <= off j.
Proof.
  intros H. unfold off. replace j with (i + (j - i))%nat by lia.
  rewrite concat_take_add, length_app. lia.
Qed.

Lemma off_all i : off i <= Z.of_nat (length (concat L)).
Proof.
  unfold off. rewrite <- (take_drop i L) at 2. rewrite concat_app, length_app. lia.
Qed.

Lemma drop_off i : drop (Z.to_nat (off i)) (concat L) = concat (drop i L).
Proof.
  unfold off. rewrite Nat2Z.id. rewrite <- (take_drop i L) at 2.
  by rewrite concat_app, drop_app_length.
Qed.

Lemma take_drop_off i j :
  (i <= j)%nat ->
  take (Z.to_nat (off j - off i)) (drop (Z.to_nat (off i)) (concat L)) =
  concat (take (j - i) (drop i L)).
Proof.
  intros H. rewrite drop_off.
  assert (off j - off i = Z.of_nat (length (concat (take (j - i) (drop i L))))) as ->.
  { unfold off. replace j with (i + (j - i))%nat at 1 by lia.
    rewrite concat_take_add, length_app. lia. }
  rewrite Nat2Z.id. rewrite <- (take_drop (j - i) (drop i L)) at 2.
  by rewrite concat_app, take_app_length.
Qed.

Lemma spans_lookup i l :
  L !! i = Some l -> spans_from 0 L !! i = Some (Span (off i) (off (S i))).
Proof.
  intros Hi. rewrite (off_S i l Hi). unfold off.
  assert (G : forall M o i l, M !! i = Some l ->
    spans_from o M !! i =
    Some (Span (o + Z.of_nat (length (concat (take i M))))
               (o + Z.of_nat (length (concat (take i M))) + Z.of_nat (length l)))).
  { clear. induction M as [|x M IH]; intros o i l Hi; [done|]. destruct i as [|i]; simpl in *.
    - injection Hi as ->. simpl. do 2 f_equal; lia.
    - rewrite (IH _ i l Hi). rewrite length_app. do 2 f_equal; lia. }
  rewrite (G L 0 i l Hi). done.
Qed.

Lemma length_spans o M : length (spans_from o M) = length M.
Proof. revert o; induction M as [|x M IH]; intros o; simpl; [done|]. by rewrite IH. Qed.

Lemma spans_lookup_lt i :
  (i < length L)%nat -> spans_from 0 L !! i = Some (Span (off i) (off (S i))).
Proof.
  intros H. destruct (L !! i) as [l|] eqn:Hi; [by eapply spans_lookup|].
  apply lookup_ge_None in Hi. lia.
Qed.
End Lines.

Lemma find_line_spec sps pos i :
  find_line sps pos = Some i ->
  exists s, sps !! i = Some s /\ span_start s <= pos < span_end s.
Proof.
  revert i; induction sps as [|s sps IH]; intros i; simpl; [done|].
  destruct ((span_start s <=? pos) && (pos <? span_end s)) eqn:E.
  - intros [= <-]. bool_to_prop. exists s. split; [done|lia].
  - destruct (find_line sps pos) eqn:F; simpl; [|done]. intros [= <-]. by apply IH.
Qed.

Lemma find_line_total M o pos :
  o <= pos < o + Z.of_nat (length (concat M)) -> exists i, find_line (spans_from o M) pos = Some i.
Proof.
  revert o; induction M as [|x M IH]; intros o Hp; simpl in *; [lia|].
  rewrite length_app in Hp.
  destruct (Z.leb_spec o pos), (Z.ltb_spec pos (o + Z.of_nat (length x))); simpl;
    try (by eexists); try lia.
  destruct (IH (o + Z.of_nat (length x))) as [i ->]; [lia|]. by eexists.
Qed.

Lemma skip_lines_spec sps e :
  (skip_lines sps e <= length sps)%nat /\
  forall s, sps !! skip_lines sps e = Some s -> e <= span_end s.
Proof.
  induction sps as [|s sps [IH1 IH2]]; simpl; [split; [lia|done]|].
  destruct (Z.ltb_spec (span_end s) e) as [Hlt|Hge]; simpl.
  - split; [lia|done].
  - split; [lia|]. by intros s' [= <-].
Qed.

(** For a region inside the text, the range of lines is found and covers it. *)
Lemma getReplacementLineRange_ok L r :
  0 <= matchIndex r -> 0 < matchLength r ->
  matchIndex r + matchLength r <= Z.of_nat (length (concat L)) ->
  exists s e, getReplacementLineRange (spans_from 0 L) r = Ok (s, e) /\
    (s < e <= length L)%nat /\ off L s <= matchIndex r /\
    matchIndex r + matchLength r <= off L e.
Proof.
  intros H0 Hl Hin. destruct (find_line_total L 0 (matchIndex r)) as [s Hs]; [lia|].
  unfold getReplacementLineRange. rewrite Hs.
  apply find_line_spec in Hs as (sp & Hsp & Hpos).
  pose proof (lookup_lt_Some _ _ _ Hsp) as Hlt. rewrite length_spans in *.
  rewrite spans_lookup_lt in Hsp by done. injection Hsp as <-. simpl in Hpos.
  destruct (skip_lines_spec (drop s (spans_from 0 L)) (matchIndex r + matchLength r))
    as [Hk1 Hk2].
  remember (skip_lines (drop s (spans_from 0 L)) (matchIndex r + matchLength r)) as k eqn:Hk.
  rewrite length_drop, length_spans in Hk1.
  destruct (decide (s + k < length L)%nat) as [Hin2|Hout].
  - rewrite (proj2 (Nat.leb_gt _ _)) by done. exists s, (S (s + k)).
    repeat split; try lia. specialize (Hk2 (Span (off L (s + k)) (off L (S (s + k))))).
    apply Hk2. rewrite lookup_drop. by apply spans_lookup_lt.
  - exfalso. assert (Hend : exists k', k = S k') by (destruct k; [lia|eauto]).
    destruct Hend as [k' Hk'].
    assert (Hlast : off L (s + k) = Z.of_nat (length (concat L))).
    { unfold off. by rewrite take_ge by lia. }
    assert (G : forall sps e j s, (j < skip_lines sps e)%nat -> sps !! j = Some s ->
      span_end s < e).
    { clear. induction sps as [|x sps IH]; intros e j s; simpl; [lia|].
      destruct (Z.ltb_spec (span_end x) e); [|lia]. destruct j as [|j]; simpl.
      - by intros _ [= <-].
      - intros Hj. apply IH. lia. }
    specialize (G (drop s (spans_from 0 L)) (matchIndex r + matchLength r) k'
      (Span (off L (s + k')) (off L (S (s + k'))))).
    rewrite lookup_drop, <- Hk in G.
    specialize (G ltac:(lia) (spans_lookup_lt L (s + k')%nat ltac:(lia))). simpl in G.
    replace (S (s + k')) with (s + k)%nat in G by lia. lia.
Qed.

Section Groups.
Context (L : list jstr).

Definition all_replacements (gs : list group) : list replacement :=
  concat (map group_replacements gs).

(** Groups in order from line [idx], each with its regions inside its lines. *)
Fixpoint groups_ok (idx : nat) (gs : list group) : Prop :=
  match gs with
  | [] => (idx <= length L)%nat
  | g :: rest =>
      (idx <= startLine g < endLine g)%nat /\
      regions_ok (off L (startLine g)) (off L (endLine g)) (group_replacements g) /\
      groups_ok (endLine g) rest
  end.

(** The accumulator, last group first; [pos] is the end of the last region. *)
Definition prev_end (rgs : list group) : nat :=
  match rgs with [] => O | g :: _ => endLine g end.

Fixpoint closed_ok (rgs : list group) : Prop :=
  match rgs with
  | [] => True
  | g :: rest =>
      (prev_end rest <= startLine g < endLine g)%nat /\
      regions_ok (off L (startLine g)) (off L (endLine g)) (group_replacements g) /\
      closed_ok rest
  end.

Definition open_ok (pos : Z) (rgs : list group) : Prop :=
  match rgs with
  | [] => True
  | g :: rest =>
      (prev_end rest <= startLine g < endLine g)%nat /\
      regions_ok (off L (startLine g)) pos (group_replacements g) /\
      pos <= off L (endLine g) /\ closed_ok rest
  end.

Lemma regions_ok_lim pos lim lim' rs :
  regions_ok pos lim rs -> lim <= lim' -> regions_ok pos lim' rs.
Proof.
  revert pos; induction rs as [|r rs IH]; simpl; intros pos; [lia|].
  intros (? & ? & ?) ?. auto.
Qed.

Lemma open_closed pos rgs : open_ok pos rgs -> closed_ok rgs.
Proof.
  destruct rgs as [|g rest]; [done|]. simpl. intros (? & ? & ? & ?).
  repeat split; try tauto; try lia. by eapply regions_ok_lim.
Qed.

Lemma closed_groups_ok rgs gs :
  closed_ok rgs -> groups_ok (prev_end rgs) gs -> groups_ok 0 (rev rgs ++ gs).
Proof.
  revert gs; induction rgs as [|g rest IH]; intros gs; [done|]. simpl.
  intros (? & ? & ?) ?. rewrite <- app_assoc. apply IH; simpl; auto.
Qed.

Lemma add_to_groups_ok pos rgs s e r :
  open_ok pos rgs -> pos <= matchIndex r -> 0 < matchLength r ->
  (s < e)%nat -> off L s <= matchIndex r -> matchIndex r + matchLength r <= off L e ->
  open_ok (matchIndex r + matchLength r) (add_to_groups rgs (s, e) r).
Proof.
  intros Hok Hpos Hl Hse Hs He.
  assert (Hnew : forall rest, closed_ok rest -> (prev_end rest <= s)%nat ->
    open_ok (matchIndex r + matchLength r) (Group s e [r] :: rest)).
  { intros rest Hc Hp. simpl. repeat split; try done; try lia. }
  destruct rgs as [|g rest]; [by apply Hnew; [|simpl; lia]|].
  unfold add_to_groups. cbn [fst snd].
  destruct (Nat.ltb_spec s (endLine g)) as [Hlt|Hge].
  - destruct Hok as (Hg & Hr & Hp & Hc). cbn [open_ok startLine endLine group_replacements].
    repeat split; try done; try lia.
    + eapply regions_ok_app; [exact Hr|]. simpl. repeat split; lia.
    + etrans; [exact He|]. apply off_mono. lia.
  - apply Hnew; [by eapply open_closed | done].
Qed.

Lemma all_replacements_add rgs range r :
  all_replacements (rev (add_to_groups rgs range r)) = all_replacements (rev rgs) ++ [r].
Proof.
  unfold all_replacements, add_to_groups. destruct rgs as [|g rest]; [done|].
  destruct (_ <? _)%nat; simpl; rewrite !map_app, !concat_app; simpl;
    by rewrite ?app_nil_r, ?app_assoc.
Qed.

Lemma add_to_groups_end rgs s e r :
  (prev_end rgs <= length L)%nat -> (e <= length L)%nat ->
  (prev_end (add_to_groups rgs (s, e) r) <= length L)%nat.
Proof. destruct rgs; simpl; [done|]. destruct (_ <? _)%nat; simpl; lia. Qed.

Lemma group_loop_ok pos rs rgs :
  regions_ok pos (Z.of_nat (length (concat L))) rs -> 0 <= pos ->
  Forall (fun r => 0 < matchLength r) rs ->
  open_ok pos rgs -> (prev_end rgs <= length L)%nat ->
  exists gs, group_loop (spans_from 0 L) rs rgs = Ok gs /\ groups_ok 0 gs /\
    all_replacements gs = all_replacements (rev rgs) ++ rs.
Proof.
  revert pos rgs; induction rs as [|r rs IH]; intros pos rgs Hr Hpos HF Hok Hend.
  - exists (rev rgs). simpl. split; [done|]. split; [|by rewrite app_nil_r].
    rewrite <- (app_nil_r (rev rgs)). apply closed_groups_ok; [|done].
    by eapply open_closed.
  - destruct Hr as (Hp & Hl & Hr). inversion HF as [|? ? Hl1 HF']; subst.
    pose proof (regions_ok_le _ _ _ Hr) as Hin.
    destruct (getReplacementLineRange_ok L r) as (s & e & Heq & Hse & Hs & He); [lia..|].
    cbn [group_loop]. rewrite Heq. cbn [bind].
    edestruct (IH (matchIndex r + matchLength r) (add_to_groups rgs (s, e) r))
      as (gs & Hgs & Hg & Hall); [done|lia|done| | |].
    + eapply add_to_groups_ok; try done; lia.
    + apply add_to_groups_end; lia.
    + exists gs. split; [done|]. split; [done|].
      by rewrite Hall, all_replacements_add, <- app_assoc.
Qed.

Lemma groups_regions idx gs :
  groups_ok idx gs ->
  regions_ok (off L idx) (Z.of_nat (length (concat L))) (all_replacements gs).
Proof.
  revert idx; induction gs as [|g gs IH]; intros idx; simpl.
  - intros _. apply off_all.
  - intros (Hg & Hr & Hok). unfold all_replacements. simpl.
    eapply regions_ok_app; [|by apply IH].
    eapply regions_ok_weaken; [exact Hr|]. apply off_mono. lia.
Qed.

Lemma groups_ok_le idx gs : groups_ok idx gs -> (idx <= length L)%nat.
Proof.
  revert idx; induction gs as [|g gs IH]; intros idx; simpl; [done|].
  intros (? & _ & ?%IH). lia.
Qed.

Lemma emit_groups_splice idx gs :
  groups_ok idx gs ->
  emit_groups L (spans_from 0 L) (concat L) gs idx =
  splice (all_replacements gs) (off L idx) (drop (Z.to_nat (off L idx)) (concat L)).
Proof.
  revert idx; induction gs as [|g gs IH]; intros idx Hok.
  - simpl. by rewrite drop_off.
  - pose proof Hok as (Hg & Hr & Hok'). cbn [emit_groups].
    pose proof (groups_ok_le _ _ Hok') as Hle.
    pose proof (groups_regions _ _ Hok') as Hrest.
    pose proof (off_mono L idx (startLine g) ltac:(lia)) as Hm1.
    pose proof (off_mono L (startLine g) (endLine g) ltac:(lia)) as Hm2.
    pose proof (off_all L (endLine g)) as Hm3.
    assert (0 <= off L idx) by (unfold off; lia).
    rewrite (spans_lookup_lt L (startLine g)) by lia.
    rewrite (spans_lookup_lt L (endLine g - 1)) by lia. cbn [span_start span_end].
    replace (S (endLine g - 1)) with (endLine g) by lia.
    unfold all_replacements. cbn [map concat]. fold (all_replacements gs).
    rewrite (splice_gap _ (off L idx) (off L (startLine g))) by
      (done || (rewrite length_drop; eapply regions_ok_app; [exact Hr|];
                eapply regions_ok_lim; [exact Hrest|lia])).
    rewrite take_drop_off by lia. f_equal.
    rewrite drop_drop. replace (Z.to_nat (off L idx) + Z.to_nat (off L (startLine g) - off L idx))%nat
      with (Z.to_nat (off L (startLine g))) by lia.
    rewrite (splice_app _ _ _ (off L (endLine g))) by
      (done || (rewrite length_drop; eapply regions_ok_lim; [exact Hrest|lia])).
    rewrite drop_drop. replace (Z.to_nat (off L (startLine g)) +
      Z.to_nat (off L (endLine g) - off L (startLine g)))%nat
      with (Z.to_nat (off L (endLine g))) by lia.
    rewrite <- IH by done. f_equal. unfold slice.
    replace (Z.to_nat (off L (endLine g)) - Z.to_nat (off L (startLine g)))%nat
      with (Z.to_nat (off L (endLine g) - off L (startLine g))) by lia.
    rewrite (applyReplacements_splice _ _ (off L (startLine g))).
    + rewrite Z.sub_diag. simpl. by rewrite drop_0.
    + lia.
    + rewrite length_take, length_drop. eapply regions_ok_lim; [exact Hr|lia].
Qed.
End Groups.

Lemma regions_sorted pos lim rs :
  regions_ok pos lim rs ->
  Forall (fun r => pos <= matchIndex r) rs /\ sorted_by matchIndex rs.
Proof.
  revert pos; induction rs as [|r rs IH]; intros pos; simpl; [by repeat constructor|].
  intros (Hp & Hl & Hok). destruct (IH _ Hok) as [HF Hs]. repeat split; try done.
  - constructor; [done|]. eapply Forall_impl; [exact HF|]. simpl. lia.
  - eapply Forall_impl; [exact HF|]. simpl. lia.
Qed.

(** The line-preserving replacement of the fuzzy path is the plain one
    when nothing was normalized: on the same original and base text, for
    regions that are in order, disjoint, non-empty and inside the text, grouping
    the regions by the lines they touch and rebuilding the text line by line
    succeeds and gives the text [applyReplacements] gives. *)
Theorem preserving_unchanged_lines_equiv text rs :
  regions_ok 0 (Z.of_nat (length text)) rs -> Forall (fun r => 0 < matchLength r) rs ->
  applyReplacementsPreservingUnchangedLines text text rs =
  Ok (applyReplacements text rs 0).
Proof.
  intros Hok HF. unfold applyReplacementsPreservingUnchangedLines, getLineSpans.
  rewrite length_spans, Nat.eqb_refl. cbn [negb].
  rewrite sort_by_id by (by eapply regions_sorted).
  set (L := splitLinesWithEndings text).
  assert (HL : concat L = text) by apply concat_splitLines.
  destruct (group_loop_ok L 0 rs []) as (gs & Hgs & Hg & Hall);
    [by rewrite HL | lia | done | done | simpl; lia |].
  rewrite Hgs. cbn [bind]. f_equal. rewrite <- HL at 1.
  rewrite emit_groups_splice by done. rewrite Hall, HL.
  rewrite (applyReplacements_splice rs 0 0) by (done || lia). done.
Qed.

Lemma preserving_unchanged_lines_equiv_witness :
  let text := js "one" ++ [LF] ++ js "two" ++ [LF] ++ js "three" in
  applyReplacementsPreservingUnchangedLines text text
    [Replacement 0 1 4 (js "X"); Replacement 1 9 2 (js "YY")] =
  Ok (applyReplacements text [Replacement 0 1 4 (js "X"); Replacement 1 9 2 (js "YY")] 0).
Proof.
  apply preserving_unchanged_lines_equiv.
  - vm_compute. repeat split; discriminate.
  - repeat constructor.
Defined.

(** * Applying several edits *)

(** A match of an edit in the text: its region holds the old text. *)
Definition edit_matches (text : jstr) (e : edit) (m : replacement) : Prop :=
  0 <= matchIndex m /\ matchLength m = Z.of_nat (length (oldText e)) /\
  slice (Z.to_nat (matchIndex m)) (Z.to_nat (matchIndex m + matchLength m)) text = oldText e /\
  matchIndex m + matchLength m <= Z.of_nat (length text) /\
  newText m = edit_newText e.

Section EditsFacts.
Context (NFKC : jstr -> jstr).

Lemma fuzzyFindText_exact text old :
  includes old text = true ->
  exists i, fuzzyFindText NFKC text old =
    MatchResult true (Z.of_nat i) (Z.of_nat (length old)) false text /\
    slice i (i + length old) text = old /\ (i + length old <= length text)%nat.
Proof.
  unfold includes, fuzzyFindText. destruct (index_of old text) as [i|] eqn:Hi; [|done].
  intros _. exists i. split; [done|].
  apply index_of_Some in Hi as (r & Hr & Hle). split; [|done]. unfold slice.
  replace (i + length old - i)%nat with (length old) by lia.
  apply (f_equal (drop i)) in Hr. rewrite drop_app_ge in Hr by (rewrite length_take; lia).
  rewrite length_take, Nat.min_l, Nat.sub_diag, drop_0 in Hr by lia.
  by rewrite Hr, take_app_length.
Qed.

Lemma match_edits_exact text edits i total path ms :
  Forall (fun e => includes (oldText e) text = true) edits ->
  match_edits NFKC text edits i total path = Ok ms ->
  Forall2 (edit_matches text) edits ms.
Proof.
  intros HF; revert i ms; induction HF as [|e edits He HF IH]; intros i ms; simpl.
  - intros [= <-]. constructor.
  - destruct (fuzzyFindText_exact text (oldText e) He) as (k & -> & Hs & Hle). simpl.
    destruct (1 <? _); [done|].
    destruct (match_edits NFKC text edits (i + 1) total path) as [rest|] eqn:Hr;
      simpl; [|done]. intros [= <-]. constructor; [|by eapply IH].
    unfold edit_matches. simpl.
    replace (Z.to_nat (Z.of_nat k + Z.of_nat (length (oldText e))))
      with (k + length (oldText e))%nat by lia.
    rewrite Nat2Z.id. repeat split; try done; lia.
Qed.

Lemma check_overlap_regions pos lim ms path :
  check_overlap ms path = Ok tt ->
  Forall (fun m => 0 <= matchLength m /\ matchIndex m + matchLength m <= lim) ms ->
  (match ms with [] => True | m :: _ => pos <= matchIndex m end) -> pos <= lim ->
  regions_ok pos lim ms.
Proof.
  revert pos; induction ms as [|m ms IH]; intros pos Hc HF Hp Hlim; [done|].
  inversion HF as [|? ? [Hl Hm] HF']; subst. cbn [regions_ok]. repeat split; try done.
  destruct ms as [|m' ms]; [simpl; lia|]. cbn [check_overlap] in Hc.
  destruct (Z.ltb_spec (matchIndex m') (matchIndex m + matchLength m)); [done|].
  by apply IH.
Qed.

Lemma no_fuzzy text edits :
  Forall (fun e => includes (oldText e) text = true) edits ->
  existsb usedFuzzyMatch (map (fun e => fuzzyFindText NFKC text (oldText e)) edits) = false.
Proof.
  induction 1 as [|e edits He HF IH]; [done|]. simpl.
  destruct (fuzzyFindText_exact text (oldText e) He) as (k & -> & _). done.
Qed.

(** C33: Several exact edits at once: when every old text occurs in the
    content as it is and the call succeeds, every edit was matched at a region
    that holds exactly its old text, the regions (sorted) are disjoint, the new
    content is the old one with precisely those regions replaced by the new
    texts, and it differs from the old one. *)
Theorem applyEdits_exact text edits path base new :
  Forall (fun e => includes (normalizeToLF (oldText e)) text = true) edits ->
  applyEditsToNormalizedContent NFKC text edits path = Ok (base, new) ->
  base = text /\ new ≠ text /\
  exists ms sorted, Forall2 (edit_matches text) (map normalize_edit edits) ms /\
    sorted ≡ₚ ms /\ regions_ok 0 (Z.of_nat (length text)) sorted /\
    new = splice sorted 0 text.
Proof.
  intros HF. unfold applyEditsToNormalizedContent.
  assert (HF' : Forall (fun e => includes (oldText e) text = true)
                  (map normalize_edit edits)) by (by apply Forall_map).
  rewrite no_fuzzy by done. destruct (check_empty _ _ _ _); cbn [bind]; [|done].
  destruct (match_edits _ _ _ _ _ _) as [ms|] eqn:Hms; cbn [bind]; [|done].
  pose proof (match_edits_exact _ _ _ _ _ _ HF' Hms) as Hmatch.
  destruct (check_overlap _ _) as [[]|] eqn:Hov; cbn [bind]; [|done].
  assert (HFm : Forall (fun m => 0 <= matchIndex m /\ 0 <= matchLength m /\
            matchIndex m + matchLength m <= Z.of_nat (length text)) ms).
  { clear - Hmatch. induction Hmatch as [|e m es ms (H1 & H2 & _ & H3 & _) _ IH];
      constructor; [lia|done]. }
  rewrite <- (sort_by_perm matchIndex ms) in HFm.
  assert (Hreg : regions_ok 0 (Z.of_nat (length text)) (sort_by matchIndex ms)).
  { eapply check_overlap_regions; [done| |by inversion HFm; [|tauto]|lia].
    eapply Forall_impl; [exact HFm|]. simpl. tauto. }
  destruct (streq text _) eqn:Hne; [done|]. intros [= <- <-].
  apply streq_false in Hne. split; [done|]. split; [done|].
  exists ms, (sort_by matchIndex ms). repeat split; try done.
  - apply sort_by_perm.
  - rewrite (applyReplacements_splice _ 0 0) by (done || lia). done.
Qed.
End EditsFacts.

Lemma applyEdits_exact_witness :
  exists ms sorted, sorted ≡ₚ ms /\
    js "goodbye, all" = splice sorted 0 (js "hello, world") /\
    Forall2 (edit_matches (js "hello, world"))
      (map normalize_edit [Edit (js "world") (js "all"); Edit (js "hello") (js "goodbye")]) ms.
Proof.
  destruct (applyEdits_exact (fun s => s) (js "hello, world")
    [Edit (js "world") (js "all"); Edit (js "hello") (js "goodbye")] (js "f")
    (js "hello, world") (js "goodbye, all")) as (_ & _ & ms & sorted & Hm & Hp & _ & Hn).
  - repeat constructor.
  - vm_compute. reflexivity.
  - exists ms, sorted. split; [exact Hp|]. split; [exact Hn|exact Hm].
Defined.

(** Overlapping occurrences are not duplicates to [countOccurrences]: of the
    two places where the old text occurs the first is edited. *)
Example overlapping_occurrences_accepted :
  applyEditsToNormalizedContent (fun s => s) (js "aaa") [Edit (js "aa") (js "b")] (js "f") =
  Ok (js "aaa", js "ba").
Proof. vm_compute. reflexivity. Qed.
