(* ===== verification/SearchTools.v ===== *)
(** The search tools of the coding agent that the bridge offers: [ls], [find]
    and [grep] (packages/coding-agent/src/core/tools/ls.ts, find.ts and grep.ts,
    as bundled in src/drivers/tools/pibridge/bridge.mjs).  The file system and
    the [fd] and [rg] processes are arguments and events. *)
From Stdlib Require Import Sorted.
From S2P Require Import Prelude Utf8 Numbers Json AdaptivePublisher Truncate NodePath EditDiff.
Import Truncate.CodingAgent.
Open Scope Z_scope.

(** * What a search answers *)

(** The text of the answer, and [details], absent when all its fields are. *)
Record details := Details {
  limitReached : option Q;
  cut : option truncation;
  linesTruncated : bool
}.
Record answer := Answer { a_text : jstr; a_details : option details }.

Definition tool_result : Type := result jstr answer.

Definition MAX_SAFE_INTEGER : Z := 9007199254740991.

Definition operation_aborted : jstr := js "Operation aborted".

Definition no_details (d : details) : bool :=
  match d with Details None None false => true | _ => false end.

Section Search.
(** How a number prints. *)
Context (num_to_string : Q -> jstr).

Definition notice (ns : list jstr) : jstr :=
  match ns with [] => [] | _ => [LF; LF] ++ js "[" ++ join (js ". ") ns ++ js "]" end.

(** The end of the three tools: the lines cut at the byte limit, and the
    notices; [None] is the [TypeError] of [truncateHead2], which does not arise. *)
Definition finish_search (lines : list jstr) (limit : option Q) (limitNotice : Q -> jstr) (long : bool)
  : option answer :=
  match truncateHead2 (join [LF] lines) (Some MAX_SAFE_INTEGER) None with
  | Throw _ => None
  | Ok t =>
      let ns :=
        match limit with Some l => [limitNotice l] | None => [] end ++
        (if truncated t then [formatSize2 DEFAULT_MAX_BYTES2 ++ js " limit reached"] else []) ++
        (if long then [js "Some lines truncated to " ++ num_str GREP_MAX_LINE_LENGTH2 ++
                       js " chars. Use read tool to see full lines"] else []) in
      let d := Details limit (if truncated t then Some t else None) long in
      Some (Answer (content t ++ notice ns) (if no_details d then None else Some d))
  end.

(** [`${limit} <what> limit reached. Use limit=${limit * 2} for more<end>`] *)
Definition limit_notice (what end_ : jstr) (limit : Q) : jstr :=
  num_to_string limit ++ js " " ++ what ++ js " limit reached. Use limit=" ++
  jsnum_string num_to_string (fmul limit 2) ++ js " for more" ++ end_.

(** [n >= limit] for a length [n]. *)
Definition reached (n : nat) (limit : Q) : bool := Qle_bool limit (inject_Z (Z.of_nat n)).

(** * ls *)

Definition DEFAULT_LIMIT3 : Q := 500.

Section Ls.
(** [a.localeCompare(b) <= 0] and [toLowerCase] of the runtime; the working
    directory; what the file system answers: [stat] of a path is whether it is a
    directory, or the message of its error. *)
Context (locale_le : jstr -> jstr -> bool) (lower : jstr -> jstr).
Context (exists_ : jstr -> bool) (stat : jstr -> result jstr bool) (readdir : jstr -> result jstr (list jstr)).

(** [entries.sort((a, b) => a.toLowerCase().localeCompare(b.toLowerCase()))],
    a stable sort. *)
Fixpoint insert_entry (x : jstr) (l : list jstr) : list jstr :=
  match l with
  | [] => [x]
  | y :: r => if locale_le (lower x) (lower y) then x :: l else y :: insert_entry x r
  end.
Definition sort_entries (l : list jstr) : list jstr := foldr insert_entry [] l.

(** The loop over the entries: what it lists and whether the limit stopped it. *)
Fixpoint ls_loop (dirPath : jstr) (limit : Q) (entries results : list jstr) : list jstr * bool :=
  match entries with
  | [] => (results, false)
  | entry :: rest =>
      if reached (length results) limit then (results, true)
      else
        match stat (path_join [dirPath; entry]) with
        | Throw _ => ls_loop dirPath limit rest results
        | Ok isDirectory =>
            ls_loop dirPath limit rest (results ++ [entry ++ if isDirectory then js "/" else []])
        end
  end.

(** [execute] of the tool on the resolved path. *)
Definition ls_list (dirPath : jstr) (limit : option Q) : option tool_result :=
  let effectiveLimit := nullish limit DEFAULT_LIMIT3 in
  if negb (exists_ dirPath) then Some (Throw (js "Path not found: " ++ dirPath))
  else match stat dirPath with
  | Throw e => Some (Throw e)
  | Ok false => Some (Throw (js "Not a directory: " ++ dirPath))
  | Ok true =>
      match readdir dirPath with
      | Throw e => Some (Throw (js "Cannot read directory: " ++ e))
      | Ok entries =>
          let '(results, entryLimitReached) := ls_loop dirPath effectiveLimit (sort_entries entries) [] in
          match results with
          | [] => Some (Ok (Answer (js "(empty directory)") None))
          | _ =>
              Ok <$> finish_search results (if entryLimitReached then Some effectiveLimit else None)
                       (limit_notice (js "entries") []) false
          end
      end
  end.

(** [execute]: [aborted] when the signal fires before the promise settles. *)
Definition ls_execute (cwd home : jstr) (win32 : bool) (fileURLToPath : jstr -> result jstr jstr)
    (aborted : bool) (base : jstr) (path : option jstr) (limit : option Q) : option tool_result :=
  if aborted then Some (Throw operation_aborted)
  else
    let p := match path with Some p => if truthy p then p else js "." | None => js "." end in
    match resolveToCwd cwd home win32 fileURLToPath p base with
    | Throw e => Some (Throw e)
    | Ok dirPath => ls_list dirPath limit
    end.
End Ls.

(** * find *)

Definition DEFAULT_LIMIT : Q := 1000.

Section Find.
(** [process.cwd()], the platform, [pathExists2], and the search: its directory,
    pattern and limit. *)
Context (cwd : jstr) (win32 : bool) (exists_ : jstr -> bool).
Context (searchPath pattern : jstr) (limit : option Q).

Definition find_limit : Q := nullish limit DEFAULT_LIMIT.

(** [relativizeFindResultPath] with the POSIX path module, whose separator is
    the slash. *)
Definition relativizeFindResultPath (resultPath base : jstr) : jstr :=
  let hadTrailingSeparator := ends_with [SLASH] resultPath in
  let relativePath := if isAbsolute resultPath then path_relative cwd base resultPath else resultPath in
  let posixPath := join [SLASH] (split_char SLASH relativePath) in
  if hadTrailingSeparator && negb (ends_with [SLASH] posixPath) then posixPath ++ [SLASH] else posixPath.

(** Whether the directory or one above it holds a [.git]; [None] when the fuel
    runs out. *)
Fixpoint insideGitRepo (fuel : nat) (current : jstr) : option bool :=
  match fuel with
  | O => None
  | S fuel =>
      if exists_ (path_join [current; js ".git"]) then Some true
      else
        let parent := path_dirname current in
        if streq parent current then Some false else insideGitRepo fuel parent
  end.

Definition effectivePattern : jstr :=
  if includes [SLASH] pattern then
    let p :=
      if negb (starts_with [SLASH] pattern) && negb (starts_with (js "**/") pattern) &&
         negb (streq pattern (js "**"))
      then js "**/" ++ pattern else pattern in
    if win32 then replace_unit SLASH (js "[/" ++ [BACKSLASH; BACKSLASH] ++ js "]") p else p
  else pattern.

(** The command line of [fd]. *)
Definition fd_args (inside : bool) : list jstr :=
  [js "--glob"; js "--color=never"; js "--hidden"] ++
  (if inside then [] else [js "--no-require-git"]) ++
  [js "--max-results"; num_to_string find_limit] ++
  (if includes [SLASH] pattern then [js "--full-path"] else []) ++
  [js "--"; effectivePattern; searchPath].

(** The lines of [fd] as the answer shows them. *)
Definition find_line (rawLine : jstr) : option jstr :=
  let line := trim (if ends_with [CR] rawLine then removelast rawLine else rawLine) in
  if truthy line then Some (relativizeFindResultPath line searchPath) else None.
Definition find_lines (lines : list jstr) : list jstr := omap find_line lines.

(** What [close] makes of the exit code and the output. *)
Definition find_close (code : option Z) (lines : list jstr) (stderr : jstr) : option tool_result :=
  let output := join [LF] lines in
  let code_text := match code with Some c => num_str c | None => js "null" end in
  let failed := match code with Some c => negb (c =? 0) | None => true end in
  let errorMsg := if truthy (trim stderr) then trim stderr else js "fd exited with code " ++ code_text in
  if failed && negb (truthy output) then Some (Throw errorMsg)
  else if negb (truthy output) then Some (Ok (Answer (js "No files found matching pattern") None))
  else
    let relativized := find_lines lines in
    Ok <$> finish_search relativized
             (if reached (length relativized) find_limit then Some find_limit else None)
             (limit_notice (js "results") (js ", or refine pattern")) false.

(** The call: waiting for [fd] to be found, for the search of [.git], or
    for the process; settled or not. *)
Inductive find_phase := FindEnsuring | FindProbing | FindRunning.

Record find_state := FindState {
  f_phase : find_phase;
  f_aborted : bool;
  f_outcome : option tool_result;
  f_lines : list jstr;
  f_stderr : jstr;
  f_spawned : option (list jstr);
  f_killed : bool;
  (* [stopChild] is set *)
  f_stop : bool
}.

Inductive find_event :=
| FdFound (fdPath : option jstr)
| FdProbed
| FdLine (line : jstr)
| FdStderr (chunk : jstr)
| FdError (message : jstr)
| FdClose (code : option Z)
| FindAbort.

Definition find_settle (r : tool_result) (s : find_state) : find_state :=
  match f_outcome s with
  | Some _ => s
  | None => FindState (f_phase s) (f_aborted s) (Some r) (f_lines s) (f_stderr s) (f_spawned s) (f_killed s) false
  end.

Definition find_init (aborted : bool) : find_state :=
  FindState FindEnsuring aborted (if aborted then Some (Throw operation_aborted) else None) [] [] None false false.

Definition find_step (s : find_state) (ev : find_event) : find_state :=
  match ev, f_phase s with
  | FindAbort, _ =>
      (* the listener is removed once the call has settled *)
      match f_outcome s with
      | Some _ => FindState (f_phase s) true (f_outcome s) (f_lines s) (f_stderr s) (f_spawned s) (f_killed s) (f_stop s)
      | None =>
          find_settle (Throw operation_aborted)
            (FindState (f_phase s) true None (f_lines s) (f_stderr s) (f_spawned s) (f_killed s || f_stop s) (f_stop s))
      end
  | FdFound fdPath, FindEnsuring =>
      if f_aborted s then s
      else match fdPath with
      | Some (_ :: _) =>
          FindState FindProbing (f_aborted s) (f_outcome s) (f_lines s) (f_stderr s) (f_spawned s) (f_killed s) (f_stop s)
      | _ => find_settle (Throw (js "fd is not available and could not be downloaded")) s
      end
  | FdProbed, FindProbing =>
      match insideGitRepo (S (length searchPath)) searchPath with
      | None => s
      | Some inside =>
          FindState FindRunning (f_aborted s) (f_outcome s) (f_lines s) (f_stderr s) (Some (fd_args inside))
            (f_killed s) true
      end
  | FdLine line, FindRunning =>
      FindState FindRunning (f_aborted s) (f_outcome s) (f_lines s ++ [line]) (f_stderr s) (f_spawned s) (f_killed s) (f_stop s)
  | FdStderr chunk, FindRunning =>
      FindState FindRunning (f_aborted s) (f_outcome s) (f_lines s) (f_stderr s ++ chunk) (f_spawned s) (f_killed s) (f_stop s)
  | FdError message, FindRunning => find_settle (Throw (js "Failed to run fd: " ++ message)) s
  | FdClose code, FindRunning =>
      if f_aborted s then find_settle (Throw operation_aborted) s
      else match find_close code (f_lines s) (f_stderr s) with Some r => find_settle r s | None => s end
  | _, _ => s
  end.

Definition find_run (aborted : bool) (evs : list find_event) : find_state := foldl find_step (find_init aborted) evs.
End Find.

(** * grep *)

Definition DEFAULT_LIMIT2 : Q := 100.

Section Grep.
(** The search: directory or file, pattern, options. *)
Context (cwd searchPath pattern : jstr) (glob : option jstr) (ignoreCase literal : bool).
Context (context limit : option Q).
(** [ops.isDirectory(searchPath)]; what the [n]th read of a file gives, [None]
    when it fails. *)
Context (isDirectory : bool) (readFile : nat -> jstr -> option jstr).

Definition contextValue : Q :=
  match context with Some c => if negb (Qle_bool c 0) then c else 0%Q | None => 0%Q end.
(** [Math.max(1, limit ?? DEFAULT_LIMIT2)] *)
Definition grep_limit : Q :=
  let l := nullish limit DEFAULT_LIMIT2 in if Qle_bool l 1 then 1%Q else l.

Definition formatPath (filePath : jstr) : jstr :=
  let relative2 := path_relative cwd searchPath filePath in
  if isDirectory && truthy relative2 && negb (starts_with (js "..") relative2)
  then replace_unit BACKSLASH [SLASH] relative2
  else path_basename filePath.

(** The command line of [rg]. *)
Definition rg_args : list jstr :=
  [js "--json"; js "--line-number"; js "--color=never"; js "--hidden"] ++
  (if ignoreCase then [js "--ignore-case"] else []) ++
  (if literal then [js "--fixed-strings"] else []) ++
  match glob with Some g => if truthy g then [js "--glob"; g] else [] | None => [] end ++
  [js "--"; pattern; searchPath].

(** A recorded match; what [rg] names may be any JSON value. *)
Record match_ := Match { m_filePath : json; m_lineNumber : Q; m_lineText : option json }.

Inductive grep_phase := GrepStarting | GrepRunning | GrepClosed.

Record grep_state := GrepState {
  g_phase : grep_phase;
  g_stderr : jstr;
  g_matchCount : nat;
  g_matchLimitReached : bool;
  g_aborted : bool;
  g_killed : bool;
  g_killedDueToLimit : bool;
  g_matches : list match_;
  g_outcome : option tool_result
}.

(** [fileCache], with the number of files read. *)
Record file_cache := FileCache { c_files : gmap jstr (list jstr); c_reads : nat }.

Definition getFileLines (filePath : jstr) (c : file_cache) : list jstr * file_cache :=
  match c_files c !! filePath with
  | Some lines => (lines, c)
  | None =>
      let lines := match readFile (c_reads c) filePath with
                   | Some content => split_char LF (normalizeToLF content)
                   | None => [] end in
      (lines, FileCache (<[filePath := lines]> (c_files c)) (S (c_reads c)))
  end.

(** [lines[i] ?? ""] *)
Definition line_at (lines : list jstr) (i : jsnum) : jstr :=
  match i with
  | Finite q => if (Qden q =? 1)%positive && (0 <=? Qnum q) then nth (Z.to_nat (Qnum q)) lines [] else []
  | _ => []
  end.

(** The lines of [formatBlock] from [current] on, and whether one was cut;
    [None] when the loop does not end. *)
Fixpoint block_loop (fuel : nat) (relativePath : jstr) (lines : list jstr) (lineNumber : Q) (end_ current : jsnum)
  : option (list jstr * bool) :=
  match fuel with
  | O => None
  | S fuel =>
      if num_ge end_ current then
        let sanitized := replace_unit CR [] (line_at lines (num_op fsub current (num_of 1))) in
        let '(truncatedText, wasTruncated) := truncateLine sanitized None in
        let isMatchLine := num_ge current (Finite lineNumber) && num_ge (Finite lineNumber) current in
        let line := relativePath ++ (if isMatchLine then js ":" else js "-") ++ jsnum_string num_to_string current ++
                    (if isMatchLine then js ": " else js "- ") ++ truncatedText in
        '(rest, restTruncated) ← block_loop fuel relativePath lines lineNumber end_ (num_op fadd current (num_of 1));
        Some (line :: rest, wasTruncated || restTruncated)
      else Some ([], false)
  end.

(** [formatBlock(filePath, lineNumber)]: the lines, whether one was cut, and the
    cache after it. *)
Definition formatBlock (filePath : jstr) (lineNumber : Q) (c : file_cache)
  : option (list jstr * bool * file_cache) :=
  let relativePath := formatPath filePath in
  let '(lines, c) := getFileLines filePath c in
  match lines with
  | [] => Some ([relativePath ++ js ":" ++ num_to_string lineNumber ++ js ": (unable to read file)"], false, c)
  | _ =>
      let around := negb (Qle_bool contextValue 0) in
      let before := fsub lineNumber contextValue in
      let after := fadd lineNumber contextValue in
      let start := if around then (if num_gt before (num_of 1) then before else num_of 1) else Finite lineNumber in
      let total := num_of (Z.of_nat (length lines)) in
      let end_ := if around then (if num_gt total after then after else total) else Finite lineNumber in
      '(block, long) ← block_loop (S (S (length lines))) relativePath lines lineNumber end_ start;
      Some (block, long, c)
  end.

(** One match in the loop of [close]; [None] is an exception. *)
Definition format_match (m : match_) (c : file_cache) : option (list jstr * bool * file_cache) :=
  match m_filePath m with
  | JStr filePath =>
      match m_lineText m with
      | Some t =>
          if Qle_bool contextValue 0 then
            match t with
            | JStr lineText =>
                let sanitized := replace_unit CR [] (replace_crlf lineText) in
                let sanitized := if ends_with [LF] sanitized then removelast sanitized else sanitized in
                let '(truncatedText, wasTruncated) := truncateLine sanitized None in
                Some ([formatPath filePath ++ js ":" ++ num_to_string (m_lineNumber m) ++ js ": " ++ truncatedText],
                      wasTruncated, c)
            | _ => None
            end
          else formatBlock filePath (m_lineNumber m) c
      | None => formatBlock filePath (m_lineNumber m) c
      end
  | _ => None
  end.

Fixpoint format_matches (ms : list match_) (c : file_cache) : option (list jstr * bool) :=
  match ms with
  | [] => Some ([], false)
  | m :: r =>
      '(block, long, c) ← format_match m c;
      '(blocks, longs) ← format_matches r c;
      Some (block ++ blocks, long || longs)
  end.

(** The answer of a search that ran to its end. *)
Definition grep_answer (matches : list match_) (matchLimitReached : bool) : option tool_result :=
  '(outputLines, long) ← format_matches matches (FileCache ∅ 0);
  Ok <$> finish_search outputLines (if matchLimitReached then Some grep_limit else None)
           (limit_notice (js "matches") (js ", or refine pattern")) long.

Inductive grep_event :=
| RgReady (rgPath : option jstr) (found : bool)
| RgLine (line : jstr)
| RgStderr (chunk : jstr)
| RgError (message : jstr)
| RgClose (code : option Z)
| GrepAbort.

Definition grep_settle (r : tool_result) (s : grep_state) : grep_state :=
  GrepState (g_phase s) (g_stderr s) (g_matchCount s) (g_matchLimitReached s) (g_aborted s) (g_killed s)
    (g_killedDueToLimit s) (g_matches s) (match g_outcome s with None => Some r | o => o end).

Definition stopChild (dueToLimit : bool) (s : grep_state) : grep_state :=
  if g_killed s then s
  else GrepState (g_phase s) (g_stderr s) (g_matchCount s) (g_matchLimitReached s) (g_aborted s) true
         dueToLimit (g_matches s) (g_outcome s).

(** The match an event of [rg] reports: nothing to record, or its place. *)
Definition match_of (event : json) : option (option match_) :=
  let data := get (js "data") event in
  let field (key : jstr) (o : option json) : option json := o ≫= get key in
  let filePath := field (js "text") (field (js "path") data) in
  let lineText := field (js "text") (field (js "lines") data) in
  match field (js "line_number") data with
  | Some (JNum n) =>
      match filePath with
      | Some p =>
          if truthy_json filePath then
            match n with Finite q => Some (Some (Match p q lineText)) | _ => None end
          else Some None
      | None => Some None
      end
  | _ => Some None
  end.

(** [rl.on("line")]; [None] is an exception: a [null] line, or a line number
    that is no number of lines. *)
Definition on_rg_line (line : jstr) (s : grep_state) : option grep_state :=
  if negb (truthy (trim line)) || reached (g_matchCount s) grep_limit then Some s
  else
    match JSON_parse line with
    | None => Some s
    | Some JNull => None
    | Some event =>
        match get (js "type") event with
        | Some (JStr t) =>
            if streq t (js "match") then
              m ← match_of event;
              let count := S (g_matchCount s) in
              let s := GrepState (g_phase s) (g_stderr s) count (g_matchLimitReached s) (g_aborted s) (g_killed s)
                         (g_killedDueToLimit s) (g_matches s ++ match m with Some m => [m] | None => [] end)
                         (g_outcome s) in
              Some (if reached count grep_limit then
                      stopChild true
                        (GrepState (g_phase s) (g_stderr s) (g_matchCount s) true (g_aborted s) (g_killed s)
                           (g_killedDueToLimit s) (g_matches s) (g_outcome s))
                    else s)
            else Some s
        | _ => Some s
        end
    end.

(** [child.on("close")] *)
Definition on_rg_close (code : option Z) (s : grep_state) : option grep_state :=
  let s := GrepState GrepClosed (g_stderr s) (g_matchCount s) (g_matchLimitReached s) (g_aborted s) (g_killed s)
             (g_killedDueToLimit s) (g_matches s) (g_outcome s) in
  let code_text := match code with Some c => num_str c | None => js "null" end in
  let failed := match code with Some c => negb (c =? 0) && negb (c =? 1) | None => true end in
  if g_aborted s then Some (grep_settle (Throw operation_aborted) s)
  else if negb (g_killedDueToLimit s) && failed then
    Some (grep_settle (Throw (if truthy (trim (g_stderr s)) then trim (g_stderr s)
                              else js "ripgrep exited with code " ++ code_text)) s)
  else if (g_matchCount s =? 0)%nat then Some (grep_settle (Ok (Answer (js "No matches found") None)) s)
  else
    r ← grep_answer (g_matches s) (g_matchLimitReached s);
    Some (grep_settle r s).

Definition grep_init (aborted : bool) : grep_state :=
  GrepState GrepStarting [] 0 false aborted false false [] (if aborted then Some (Throw operation_aborted) else None).

Definition grep_step (s : grep_state) (ev : grep_event) : option grep_state :=
  match ev, g_phase s with
  | RgReady rgPath found, GrepStarting =>
      match g_outcome s with
      | Some _ => Some s
      | None =>
          match rgPath with
          | Some (_ :: _) =>
              if found then
                Some (GrepState GrepRunning (g_stderr s) (g_matchCount s) (g_matchLimitReached s) (g_aborted s)
                        (g_killed s) (g_killedDueToLimit s) (g_matches s) (g_outcome s))
              else Some (grep_settle (Throw (js "Path not found: " ++ searchPath)) s)
          | _ => Some (grep_settle (Throw (js "ripgrep (rg) is not available and could not be downloaded")) s)
          end
      end
  | RgLine line, GrepRunning => on_rg_line line s
  | RgStderr chunk, GrepRunning =>
      Some (GrepState (g_phase s) (g_stderr s ++ chunk) (g_matchCount s) (g_matchLimitReached s) (g_aborted s)
              (g_killed s) (g_killedDueToLimit s) (g_matches s) (g_outcome s))
  | RgError message, GrepRunning => Some (grep_settle (Throw (js "Failed to run ripgrep: " ++ message)) s)
  | RgClose code, GrepRunning => on_rg_close code s
  | GrepAbort, GrepRunning =>
      (* the listener is only there while the process runs *)
      Some (stopChild false
              (GrepState (g_phase s) (g_stderr s) (g_matchCount s) (g_matchLimitReached s) true (g_killed s)
                 (g_killedDueToLimit s) (g_matches s) (g_outcome s)))
  | _, _ => Some s
  end.

Fixpoint grep_run_from (s : grep_state) (evs : list grep_event) : option grep_state :=
  match evs with
  | [] => Some s
  | ev :: r => s ← grep_step s ev; grep_run_from s r
  end.
Definition grep_run (evs : list grep_event) : option grep_state := grep_run_from (grep_init false) evs.
End Grep.
End Search.

(** * Facts *)

Example ls_ex :
  ls_list int_num_str (fun a b => true) (fun s => s) (fun _ => true)
    (fun p => if streq p (js "/d/gone") then Throw (js "ENOENT") else Ok (negb (streq p (js "/d/a.txt"))))
    (fun _ => Ok [js "a.txt"; js "gone"; js "sub"; js "z"]) (js "/d") (Some 2%Q) =
  Some (Ok (Answer (js "a.txt" ++ [LF] ++ js "sub/" ++ [LF; LF] ++
     js "[2 entries limit reached. Use limit=4 for more]") (Some (Details (Some 2%Q) None false)))).
Proof. vm_compute. reflexivity. Qed.

Example find_ex :
  f_outcome (find_run int_num_str (js "/w") false (fun p => streq p (js "/w/.git")) (js "/w/src") (js "a/*.ts") None false
    [FdFound (Some (js "fd")); FdProbed; FdLine (js "/w/src/a/b.ts"); FdLine (js "/w/src/a/c/"); FdClose (Some 0)]) =
  Some (Ok (Answer (js "a/b.ts" ++ [LF] ++ js "a/c/") None)).
Proof. vm_compute. reflexivity. Qed.

Example grep_ex :
  (g_outcome <$> grep_run int_num_str (js "/w") (js "/w") (Some 1%Q) (Some 1%Q) true
     (fun _ _ => Some (js "one" ++ [LF] ++ js "two" ++ [LF] ++ js "three"))
    [RgReady (Some (js "rg")) true;
     RgLine (js "{'type':'match','data':{'path':{'text':'/w/f'},'lines':{'text':'two'},'line_number':2}}"
             ≫= fun c => if c =? 39 then [34] else [c]); RgClose None]) =
  Some (Some (Ok (Answer (js "f-1- one" ++ [LF] ++ js "f:2: two" ++ [LF] ++ js "f-3- three" ++ [LF; LF] ++
     js "[1 matches limit reached. Use limit=2 for more, or refine pattern]") (Some (Details (Some 1%Q) None false))))).
Proof. vm_compute. reflexivity. Qed.

(** ** Cutting the lines *)

Lemma lines_le_join ls : Z.of_nat (length ls) <= Buffer_byteLength (join [LF] ls) + 1.
Proof.
  induction ls as [|l ls IH]; [done|].
  rewrite Harness.byteLength_join_cons. pose proof (byteLength_nonneg l). cbn [length].
  case_bool_decide as E; [subst; simpl; pose proof (byteLength_nonneg []); lia|lia].
Qed.

Lemma lines_le_bytes s :
  Z.of_nat (length (Harness.splitLinesForCounting s)) <= Buffer_byteLength s + 1.
Proof.
  rewrite (Harness.splitLines_join s) at 2. pose proof (lines_le_join (Harness.splitLinesForCounting s)).
  destruct (ends_with [LF] s); [rewrite byteLength_join_sep, byteLength_nil; lia|rewrite app_nil_r; lia].
Qed.

(** [body] is as much of [text] as the byte limit allows: all of it, or its first
    lines, whole, to which no further line could be added. *)
Definition fitting_part (text body : jstr) : Prop :=
  let lines := Harness.splitLinesForCounting text in
  Buffer_byteLength body <= DEFAULT_MAX_BYTES2 /\
  (Buffer_byteLength text <= DEFAULT_MAX_BYTES2 -> body = text) /\
  (DEFAULT_MAX_BYTES2 < Buffer_byteLength text ->
   exists k, body = join [LF] (take k lines) /\
     (k = length lines \/ DEFAULT_MAX_BYTES2 < Buffer_byteLength (join [LF] (take (S k) lines)))).

(** [truncateHead2] at the limits of a search. *)
Lemma search_cut s :
  Forall is_unit s ->
  exists t, truncateHead2 s (Some MAX_SAFE_INTEGER) None = Ok t /\
    fitting_part s (content t) /\
    (truncated t = false <-> Buffer_byteLength s <= DEFAULT_MAX_BYTES2) /\
    (truncated t = false -> content t = s).
Proof.
  intros Hs. rewrite (truncateHead2_eq true) by done. pose proof (lines_le_bytes s) as Hl.
  change DEFAULT_MAX_BYTES2 with DEFAULT_MAX_BYTES in *.
  destruct (decide (Buffer_byteLength s <= DEFAULT_MAX_BYTES)) as [Hb|Hb].
  - eexists. split; [apply Harness.truncateHead_fits; [done| |done]|].
    + unfold nullish, MAX_SAFE_INTEGER. unfold DEFAULT_MAX_BYTES in *. lia.
    + cbn [content truncated]. split; [|done]. unfold fitting_part.
      change DEFAULT_MAX_BYTES2 with DEFAULT_MAX_BYTES. split_and!; [done|done|lia].
  - destruct (Harness.truncateHead_cut true s (Some MAX_SAFE_INTEGER) None Hs)
      as (t & k & Ht & Htr & _ & Hk & _ & Hc & Hob & HobL & Hmax); [done|done|intros [_ ?]; done|].
    exists t. rewrite Htr. split_and!; [done| |done|done].
    unfold fitting_part. change DEFAULT_MAX_BYTES2 with DEFAULT_MAX_BYTES. rewrite <- Hob.
    split_and!; [done|lia|]. intros _. exists k. split; [done|].
    destruct Hmax as [?|[Hmax|?]]; [by left| |by right].
    pose proof (lines_le_join (take k (Harness.splitLinesForCounting s))) as Hle. rewrite <- Hc, <- Hob, length_take in Hle.
    unfold nullish, MAX_SAFE_INTEGER, DEFAULT_MAX_BYTES in *. lia.
Qed.

(** The end of a search: it always answers; it shows the lines whole, or as many
    whole ones as the byte limit allows and a notice. *)
Lemma finish_search_spec ls limit ln long :
  Forall (Forall is_unit) ls ->
  exists a body note, finish_search ls limit ln long = Some a /\
    a_text a = body ++ note /\ fitting_part (join [LF] ls) body /\
    (a_details a = None <->
       limit = None /\ long = false /\ Buffer_byteLength (join [LF] ls) <= DEFAULT_MAX_BYTES2) /\
    (a_details a = None -> note = []).
Proof.
  intros HF. set (s := join [LF] ls).
  assert (Hs : Forall is_unit s) by (apply Harness.join_Forall; [apply Harness.LF_unit|done]).
  destruct (search_cut s Hs) as (t & Ht & Hp & Hn & Hc).
  unfold finish_search. fold s. rewrite Ht. eexists _, (content t), _. split; [done|].
  cbn [a_text a_details]. split; [done|]. split; [done|].
  split; destruct limit, (truncated t), long; simpl; try done; naive_solver.
Qed.

(** ** ls *)

Section LsFacts.
Context (num_to_string : Q -> jstr) (locale_le : jstr -> jstr -> bool) (lower : jstr -> jstr).
Context (exists_ : jstr -> bool) (stat : jstr -> result jstr bool) (readdir : jstr -> result jstr (list jstr)).

(** How an entry is listed: not at all when it cannot be examined. *)
Definition listed (dirPath entry : jstr) : option jstr :=
  match stat (path_join [dirPath; entry]) with
  | Ok isDirectory => Some (entry ++ if isDirectory then js "/" else [])
  | Throw _ => None
  end.

Lemma insert_entry_perm x l : insert_entry locale_le lower x l ≡ₚ x :: l.
Proof. induction l as [|y l IH]; simpl; [done|]. case_goal; [done|]. rewrite IH. constructor. Qed.

Lemma sort_entries_perm l : sort_entries locale_le lower l ≡ₚ l.
Proof. induction l as [|x l IH]; simpl; [done|]. by rewrite insert_entry_perm, IH. Qed.

Lemma sort_entries_sorted l :
  (forall a b, locale_le a b = false -> locale_le b a = true) ->
  Sorted (fun a b => locale_le (lower a) (lower b) = true) (sort_entries locale_le lower l).
Proof.
  intros Htot. induction l as [|x l IH]; simpl; [constructor|].
  induction IH as [|y r Hs IH Hd]; simpl; [repeat constructor|].
  destruct (locale_le (lower x) (lower y)) eqn:E; [by repeat constructor|].
  constructor; [done|]. destruct r as [|z r]; simpl in *; [constructor; auto|].
  destruct (locale_le (lower x) (lower z)); constructor; [auto|by inversion Hd].
Qed.

Lemma reached_spec n l : reached n (inject_Z l) = true <-> l <= Z.of_nat n.
Proof. unfold reached. rewrite Qle_bool_iff, <- Zle_Qle. done. Qed.

(** The loop lists the first [n] entries that can be examined; when the limit
    did not stop it, that is all of them. *)
Lemma ls_loop_spec dirPath n entries results results' stopped :
  ls_loop stat dirPath (inject_Z n) entries results = (results', stopped) ->
  Z.of_nat (length results) <= n ->
  results' = results ++ take (Z.to_nat n - length results) (omap (listed dirPath) entries) /\
  (stopped = false -> results' = results ++ omap (listed dirPath) entries) /\
  (stopped = true -> Z.of_nat (length results') = n).
Proof.
  revert results. induction entries as [|e es IH]; intros results H Hn; cbn [ls_loop] in H.
  { simplify_eq. simpl. by rewrite firstn_nil, app_nil_r. }
  destruct (reached (length results) (inject_Z n)) eqn:E.
  - apply reached_spec in E. simplify_eq.
    replace (Z.to_nat n - length results')%nat with O by lia. rewrite take_0, app_nil_r.
    split_and!; [done|done|lia].
  - assert (~ n <= Z.of_nat (length results)) by (rewrite <- reached_spec; congruence).
    change (omap (listed dirPath) (e :: es)) with
      (match listed dirPath e with Some y => y :: omap (listed dirPath) es | None => omap (listed dirPath) es end).
    destruct (listed dirPath e) as [y|] eqn:El; unfold listed in El;
      (destruct (stat (path_join [dirPath; e])) as [d|m]; simplify_eq); [|by apply IH].
    apply IH in H as (-> & H1 & H2); [|rewrite length_app; simpl; lia].
    replace (Z.to_nat n - length results)%nat with (S (Z.to_nat n - length (results ++ [e ++ (if d then js "/" else [])])))
      by (rewrite length_app; simpl; lia).
    cbn [take]. rewrite <- !app_assoc in H1, H2 |- *. split_and!; [done| |done].
    intros Hs. rewrite H1 by done. by rewrite <- app_assoc.
Qed.

(** A listing by [ls] with a positive limit [n] always answers.  It shows,
    in the order of the sort, the first [n] entries that can be examined, each
    once, directories with a slash: whole names as far as the byte limit allows.
    An answer without a notice is complete, and there is no notice when fewer than
    [n] entries fit the byte limit. *)
Theorem ls_lists_directory dirPath entries n :
  let shown := omap (listed dirPath) (sort_entries locale_le lower entries) in
  exists_ dirPath = true -> stat dirPath = Ok true -> readdir dirPath = Ok entries -> 0 < n ->
  Forall (Forall is_unit) shown ->
  sort_entries locale_le lower entries ≡ₚ entries /\
  ((forall a b, locale_le a b = false -> locale_le b a = true) ->
   Sorted (fun a b => locale_le (lower a) (lower b) = true) (sort_entries locale_le lower entries)) /\
  exists a, ls_list num_to_string locale_le lower exists_ stat readdir dirPath (Some (inject_Z n)) = Some (Ok a) /\
    (shown = [] -> a = Answer (js "(empty directory)") None) /\
    (shown ≠ [] -> exists body note, a_text a = body ++ note /\
       fitting_part (join [LF] (take (Z.to_nat n) shown)) body /\
       (a_details a = None -> a_text a = join [LF] shown) /\
       (Z.of_nat (length shown) < n -> Buffer_byteLength (join [LF] shown) <= DEFAULT_MAX_BYTES2 ->
        a_details a = None)).
Proof.
  intros shown He Hd Hr Hn HF. split; [apply sort_entries_perm|].
  split; [apply sort_entries_sorted|].
  unfold ls_list. rewrite He, Hd, Hr. cbn [negb nullish].
  destruct (ls_loop stat dirPath (inject_Z n) (sort_entries locale_le lower entries) [])
    as [results stopped] eqn:Hloop.
  apply ls_loop_spec in Hloop as (Hres & Hall & Hstop); [|simpl; lia]. fold shown in Hres, Hall.
  cbn [app length] in Hres, Hall. rewrite Nat.sub_0_r in Hres.
  destruct results as [|r0 rs].
  { eexists. split; [done|]. split; [done|]. intros Hne.
    destruct shown; [done|]. destruct (Z.to_nat n) eqn:E; [lia|done]. }
  destruct (finish_search_spec (r0 :: rs) (if stopped then Some (inject_Z n) else None)
    (limit_notice num_to_string (js "entries") []) false) as (a & body & note & -> & Ht & Hp & Hdet & Hnote).
  { rewrite Hres. by apply Forall_take. }
  exists a. split; [done|]. split; [by intros ->; rewrite take_nil in Hres|].
  intros _. exists body, note. pose proof (proj1 (proj2 Hp)) as Hbody.
  split; [done|]. split; [by rewrite <- Hres|]. split.
  - intros Ha. rewrite Ht, Hnote, app_nil_r by done. apply Hdet in Ha as (Hs & _ & Hfit).
    destruct stopped; [done|]. rewrite Hbody by done. by rewrite Hall.
  - intros Hlen Hfit. apply Hdet. destruct stopped.
    + specialize (Hstop eq_refl). rewrite Hres, length_take in Hstop. lia.
    + by rewrite Hall.
Qed.
End LsFacts.

(** ** find *)

(** What a command line parser makes of its arguments, given the options that
    take a value: the options, and the positional arguments after [--]. *)
Fixpoint read_args (valued args : list jstr) : option (list (jstr * option jstr) * list jstr) :=
  match args with
  | [] => Some ([], [])
  | a :: r =>
      if streq a (js "--") then Some ([], r)
      else if existsb (streq a) valued then
        match r with
        | [] => None
        | v :: r' => '(opts, rest) ← read_args valued r'; Some ((a, Some v) :: opts, rest)
        end
      else '(opts, rest) ← read_args valued r; Some ((a, None) :: opts, rest)
  end.

(** Whatever the pattern, the glob and the paths of a call are, also when
    they start with a dash, [fd] and [rg] read them as the pattern, the glob and
    the path, never as options: the options are those the tools choose. *)
Theorem search_arguments_are_data num_to_string win32 searchPath pattern limit inside glob ignoreCase literal :
  (exists opts,
     read_args [js "--max-results"] (fd_args num_to_string win32 searchPath pattern limit inside) =
       Some (opts, [effectivePattern win32 pattern; searchPath]) /\
     opts.*1 ⊆ map js ["--glob"; "--color=never"; "--hidden"; "--no-require-git"; "--max-results"; "--full-path"] /\
     forall v, (js "--max-results", Some v) ∈ opts -> v = num_to_string (nullish limit DEFAULT_LIMIT)) /\
  (exists opts,
     read_args [js "--glob"] (rg_args searchPath pattern glob ignoreCase literal) =
       Some (opts, [pattern; searchPath]) /\
     opts.*1 ⊆ map js ["--json"; "--line-number"; "--color=never"; "--hidden"; "--ignore-case"; "--fixed-strings"; "--glob"] /\
     forall v, (js "--glob", Some v) ∈ opts -> glob = Some v).
Proof.
  split.
  - unfold fd_args. destruct inside, (includes [SLASH] pattern) eqn:E; eexists; (split; [reflexivity|]);
      (split; [by vm_compute; set_solver|]); intros v Hv; set_unfold; naive_solver.
  - unfold rg_args. destruct ignoreCase, literal, glob as [[|x g]|]; eexists; (split; [reflexivity|]);
      (split; [by vm_compute; set_solver|]); intros v Hv; set_unfold; naive_solver.
Qed.

Section FindFacts.
Context (num_to_string : Q -> jstr) (cwd : jstr) (win32 : bool) (exists_ : jstr -> bool).
Context (searchPath pattern : jstr) (limit : option Q).

(** The search for [.git] ends, and finds one exactly when the directory or one
    above it has one. *)
Lemma insideGitRepo_spec fuel current :
  isAbsolute current = true -> (length current < fuel)%nat ->
  exists b, insideGitRepo exists_ fuel current = Some b /\
    (b = true <-> exists n, exists_ (path_join [Nat.iter n path_dirname current; js ".git"]) = true).
Proof.
  revert current. induction fuel as [|fuel IH]; intros current Ha Hf; [lia|]. cbn [insideGitRepo].
  destruct (exists_ (path_join [current; js ".git"])) eqn:E.
  { exists true. split; [done|]. split; [|done]. by exists O. }
  destruct (streq (path_dirname current) current) eqn:Es.
  - apply streq_true in Es. exists false. split; [done|]. split; [done|]. intros (n & Hn).
    assert (Hi : forall m, Nat.iter m path_dirname current = current)
      by (induction m as [|m IHm]; [done|]; simpl; by rewrite IHm).
    rewrite Hi in Hn. congruence.
  - assert (current ≠ [SLASH]) as Hroot by (intros ->; done).
    destruct (dirname_above current Ha Hroot) as [Ha' Hl].
    destruct (IH (path_dirname current) Ha') as (b & -> & Hb); [lia|]. exists b. split; [done|]. rewrite Hb.
    split; intros [n Hn].
    + exists (S n). by rewrite Nat.iter_succ_r.
    + destruct n as [|n]; [simpl in Hn; congruence|]. exists n. by rewrite Nat.iter_succ_r in Hn.
Qed.

(** A path as [find] shows it leads from the search directory to the file that
    [fd] found. *)
Lemma relativize_resolves line :
  isAbsolute line = true -> path_resolve cwd [line] ≠ path_resolve cwd [searchPath] ->
  path_resolve cwd [searchPath; relativizeFindResultPath cwd line searchPath] = path_resolve cwd [line].
Proof.
  intros Ha Hne. unfold relativizeFindResultPath. rewrite Ha, join_split.
  pose proof (resolve_relative cwd searchPath line) as Hr.
  pose proof (path_relative_not_absolute cwd searchPath line) as Hna.
  set (rel := path_relative cwd searchPath line) in *.
  assert (rel ≠ []) by (intros E; rewrite E in Hr; by apply Hne).
  destruct (_ && _); [by rewrite resolve_final_slash|done].
Qed.

Lemma relativize_units line :
  Forall is_unit cwd -> Forall is_unit searchPath -> Forall is_unit line ->
  Forall is_unit (relativizeFindResultPath cwd line searchPath).
Proof.
  intros Hc Hs Hl. assert (is_unit SLASH) by done. assert (is_unit 46) by done.
  assert (Forall is_unit (if isAbsolute line then path_relative cwd searchPath line else line))
    by (destruct (isAbsolute line); [by apply path_relative_Forall|done]).
  unfold relativizeFindResultPath. rewrite join_split.
  destruct (_ && _); [apply Forall_app; split; [done|by repeat constructor]|done].
Qed.

(** What [fd] writes: its lines, and its error output. *)
Definition fd_output (ev : find_event) : Prop :=
  match ev with FdLine _ | FdStderr _ => True | _ => False end.
Definition fd_lines (evs : list find_event) : list jstr :=
  omap (fun ev => match ev with FdLine l => Some l | _ => None end) evs.
Definition fd_stderr (evs : list find_event) : jstr :=
  concat (omap (fun ev => match ev with FdStderr c => Some c | _ => None end) evs).

#[local] Abbreviation step := (find_step num_to_string cwd win32 exists_ searchPath pattern limit).

Lemma find_collects evs s :
  Forall fd_output evs -> f_phase s = FindRunning ->
  foldl step s evs =
  FindState FindRunning (f_aborted s) (f_outcome s) (f_lines s ++ fd_lines evs) (f_stderr s ++ fd_stderr evs)
    (f_spawned s) (f_killed s) (f_stop s).
Proof.
  intros HF. revert s. induction HF as [|ev evs Hev HF IH]; intros s Hs.
  { destruct s; simpl in *; subst. by rewrite !app_nil_r. }
  simpl foldl. destruct ev; try done; unfold find_step at 2; rewrite Hs, IH by done; simpl;
    rewrite <- ?app_assoc; done.
Qed.

(** A file found by [fd], as a line of its output. *)
Definition found_line (line : jstr) : Prop :=
  ends_with [CR] line = false /\ trim line = line /\ isAbsolute line = true /\ Forall is_unit line /\
  path_resolve cwd [line] ≠ path_resolve cwd [searchPath].

Lemma find_lines_found lines :
  Forall found_line lines ->
  find_lines cwd searchPath lines = map (fun l => relativizeFindResultPath cwd l searchPath) lines.
Proof.
  induction 1 as [|l ls (Hc & Ht & Ha & _) HF IH]; [done|].
  unfold find_lines in *. cbn [omap list_omap map].
  assert (find_line cwd searchPath l = Some (relativizeFindResultPath cwd l searchPath)) as ->
    by (unfold find_line; rewrite Hc, Ht; by destruct l).
  by rewrite IH.
Qed.

(** When [fd] exits with 0 and prints the files it found, and the call is not
    aborted, [find] answers.  The paths it shows lead from the search directory to
    the files [fd] printed, in its order; it shows them whole as far as the byte
    limit allows; an answer without a notice shows them all; and there is no
    notice when fewer files than the limit were found and they fit. *)
Theorem find_shows_files evs fdPath :
  let lines := fd_lines evs in
  let paths := find_lines cwd searchPath lines in
  fdPath ≠ [] -> Forall fd_output evs -> lines ≠ [] -> Forall found_line lines ->
  isAbsolute searchPath = true -> Forall is_unit cwd -> Forall is_unit searchPath ->
  map (fun p => path_resolve cwd [searchPath; p]) paths = map (fun l => path_resolve cwd [l]) lines /\
  exists a body note,
    f_outcome (find_run num_to_string cwd win32 exists_ searchPath pattern limit false
                 ([FdFound (Some fdPath); FdProbed] ++ evs ++ [FdClose (Some 0)])) = Some (Ok a) /\
    a_text a = body ++ note /\ fitting_part (join [LF] paths) body /\
    (a_details a = None -> a_text a = join [LF] paths) /\
    (reached (length paths) (find_limit limit) = false ->
     Buffer_byteLength (join [LF] paths) <= DEFAULT_MAX_BYTES2 -> a_details a = None).
Proof.
  intros lines paths Hfd Hev Hne Hfound Habs Hcwd Hsp.
  assert (Hpaths : paths = map (fun l => relativizeFindResultPath cwd l searchPath) lines)
    by (by apply find_lines_found).
  split.
  { rewrite Hpaths, map_map. apply map_ext_Forall. eapply Forall_impl; [exact Hfound|].
    intros l (_ & _ & Ha & _ & Hn). by apply relativize_resolves. }
  destruct (insideGitRepo_spec (S (length searchPath)) searchPath Habs) as (inside & Hgit & _); [lia|].
  unfold find_run. rewrite !foldl_app. cbn [foldl].
  destruct fdPath as [|x fd]; [done|].
  unfold find_init, find_step at 3 4. cbn [f_phase f_aborted]. rewrite Hgit.
  rewrite find_collects by done. unfold find_step, find_settle.
  cbn [f_phase f_aborted f_outcome f_lines f_stderr f_spawned f_killed f_stop app]. fold lines.
  assert (truthy (join [LF] lines) = true) as Hout.
  { destruct Hfound as [|l ls (_ & _ & Ha & _) _]; [done|]. destruct l; [done|]. by destruct ls. }
  unfold find_close. rewrite Hout. cbn [negb andb Z.eqb]. fold paths.
  destruct (finish_search_spec paths (if reached (length paths) (find_limit limit) then Some (find_limit limit) else None)
    (limit_notice num_to_string (js "results") (js ", or refine pattern")) false)
    as (a & body & note & -> & Ht & Hp & Hdet & Hnote).
  { rewrite Hpaths. apply Forall_map. eapply Forall_impl; [exact Hfound|].
    intros l (_ & _ & _ & Hu & _). by apply relativize_units. }
  exists a, body, note. pose proof (proj1 (proj2 Hp)) as Hbody. do 3 (split; [done|]). split.
  - intros Ha. rewrite Ht, Hnote, app_nil_r by done. apply Hdet in Ha as (_ & _ & Hfit). by rewrite Hbody.
  - intros Hl Hfit. apply Hdet. by rewrite Hl.
Qed.

Lemma find_settled_step s ev r : f_outcome s = Some r -> f_outcome (step s ev) = Some r.
Proof.
  intros H. destruct ev; unfold find_step, find_settle; destruct (f_phase s); rewrite ?H; try done;
    repeat case_goal; simpl; by rewrite ?H.
Qed.

Lemma find_settled_stays evs s r : f_outcome s = Some r -> f_outcome (foldl step s evs) = Some r.
Proof.
  revert s. induction evs as [|ev evs IH]; intros s H; [done|]. simpl. by apply IH, find_settled_step.
Qed.

Lemma find_kill_stays evs s : f_killed s = true -> f_killed (foldl step s evs) = true.
Proof.
  revert s. induction evs as [|ev evs IH]; intros s H; [done|]. simpl. apply IH.
  destruct ev; unfold find_step, find_settle; destruct (f_phase s); try done;
    repeat case_goal; simpl; rewrite ?H; done.
Qed.

(** While a call is open, [stopChild] is set exactly when [fd] runs. *)
Lemma find_stop_running evs s :
  (f_outcome s = None -> f_stop s = bool_decide (f_spawned s ≠ None)) ->
  f_outcome (foldl step s evs) = None ->
  f_stop (foldl step s evs) = bool_decide (f_spawned (foldl step s evs) ≠ None).
Proof.
  revert s. induction evs as [|ev evs IH]; intros s H; simpl; [done|]. apply IH.
  destruct (f_outcome s) as [r|] eqn:E; [by rewrite (find_settled_step s ev r E)|]. specialize (H eq_refl).
  destruct ev; unfold find_step, find_settle; destruct (f_phase s); rewrite ?E; try done;
    repeat case_goal; simpl; rewrite ?E; try done; intros _; by rewrite ?bool_decide_true.
Qed.

(** An abort before the answer ends the call with [Operation aborted],
    whatever happens before and after it, and [fd] is killed when it runs at that
    moment. *)
Theorem find_abort_ends evs1 evs2 :
  let s := find_run num_to_string cwd win32 exists_ searchPath pattern limit false evs1 in
  let s' := find_run num_to_string cwd win32 exists_ searchPath pattern limit false (evs1 ++ FindAbort :: evs2) in
  f_outcome s = None ->
  f_outcome s' = Some (Throw operation_aborted) /\ (f_spawned s ≠ None -> f_killed s' = true).
Proof.
  intros s s' Hs. unfold s', find_run. rewrite foldl_app. cbn [foldl].
  change (foldl step (find_init false) evs1) with s.
  assert (f_stop s = bool_decide (f_spawned s ≠ None)) as Hstop by (by apply find_stop_running).
  split.
  - apply find_settled_stays. unfold find_step, find_settle. by destruct (f_phase s); rewrite Hs.
  - intros Hsp. apply find_kill_stays. unfold find_step, find_settle.
    destruct (f_phase s); rewrite Hs; simpl; rewrite Hstop, bool_decide_true by done; apply orb_true_r.
Qed.

(** An abort during the search for [.git] settles the call, but [fd] is started
    all the same and nothing stops it. *)
Lemma find_abort_leaves_fd fdPath evs :
  fdPath ≠ [] -> isAbsolute searchPath = true -> Forall fd_output evs ->
  let s := find_run num_to_string cwd win32 exists_ searchPath pattern limit false
             ([FdFound (Some fdPath); FindAbort; FdProbed] ++ evs) in
  f_outcome s = Some (Throw operation_aborted) /\ f_spawned s ≠ None /\ f_killed s = false.
Proof.
  intros Hfd Habs Hev. destruct fdPath as [|x fd]; [done|].
  destruct (insideGitRepo_spec (S (length searchPath)) searchPath Habs) as (inside & Hgit & _); [lia|].
  unfold find_run. rewrite foldl_app.
  assert (foldl step (find_init false) [FdFound (Some (x :: fd)); FindAbort; FdProbed] =
    FindState FindRunning true (Some (Throw operation_aborted)) [] []
      (Some (fd_args num_to_string win32 searchPath pattern limit inside)) false true) as ->
    by (cbn [foldl]; unfold find_init, find_step, find_settle; cbn [f_phase f_aborted f_outcome]; by rewrite Hgit).
  by rewrite find_collects.
Qed.
End FindFacts.

(** ** grep *)

Section GrepFacts.
Context (num_to_string : Q -> jstr) (cwd searchPath : jstr) (isDirectory : bool).
Context (readFile : nat -> jstr -> option jstr) (context : option Q) (n : Z).
Hypothesis (n_pos : 0 < n).

#[local] Abbreviation limit := (Some (inject_Z n)).
#[local] Abbreviation run_from := (grep_run_from num_to_string cwd searchPath context limit isDirectory readFile).

(** What a line of [rg] reports: [None] when it is no match. *)
Definition reported (line : jstr) : option (option match_) :=
  if truthy (trim line) then
    event ← JSON_parse line;
    match get (js "type") event with
    | Some (JStr t) => if streq t (js "match") then match_of event else None
    | _ => None
    end
  else None.

(** A line the handler can read: no [null], and a match has a number of a line. *)
Definition rg_line_ok (line : jstr) : Prop :=
  JSON_parse line ≠ Some JNull /\
  forall event, JSON_parse line = Some event -> get (js "type") event = Some (JStr (js "match")) ->
    match_of event ≠ None.

Definition rg_output (ev : grep_event) : Prop :=
  match ev with RgLine l => rg_line_ok l | RgStderr _ => True | _ => False end.
Definition rg_hits (evs : list grep_event) : list (option match_) :=
  omap (fun ev => match ev with RgLine l => reported l | _ => None end) evs.
Definition rg_stderr (evs : list grep_event) : jstr :=
  concat (omap (fun ev => match ev with RgStderr c => Some c | _ => None end) evs).

Lemma grep_limit_int : grep_limit limit = inject_Z n.
Proof.
  unfold grep_limit, nullish. destruct (Qle_bool (inject_Z n) 1) eqn:E; [|done].
  apply Qle_bool_iff in E. change 1%Q with (inject_Z 1) in *. rewrite <- Zle_Qle in E.
  by replace n with 1 by lia.
Qed.

(** The state of a search, as the matches seen so far determine it. *)
Definition grep_inv (hits : list (option match_)) (err : jstr) (s : grep_state) : Prop :=
  s = GrepState GrepRunning err (length (take (Z.to_nat n) hits)) (bool_decide (n <= Z.of_nat (length hits))) false
        (bool_decide (n <= Z.of_nat (length hits))) (bool_decide (n <= Z.of_nat (length hits)))
        (omap id (take (Z.to_nat n) hits)) None.

Lemma grep_inv_full hits x err s :
  n <= Z.of_nat (length hits) -> grep_inv hits err s -> grep_inv (hits ++ x) err s.
Proof.
  intros Hn ->. unfold grep_inv. rewrite take_app_le by lia.
  by rewrite !(bool_decide_true (n <= _)) by (rewrite ?length_app; lia).
Qed.

Lemma grep_inv_room hits err :
  Z.of_nat (length hits) < n ->
  grep_inv hits err (GrepState GrepRunning err (length hits) false false false false (omap id hits) None).
Proof. intros Hn. unfold grep_inv. rewrite take_ge by lia. by rewrite !bool_decide_false by lia. Qed.

Lemma grep_line_inv hits err s line :
  grep_inv hits err s -> rg_line_ok line ->
  exists s', on_rg_line limit line s = Some s' /\
    grep_inv (hits ++ match reported line with Some h => [h] | None => [] end) err s'.
Proof.
  intros Hs (Hnull & Hok). destruct (decide (n <= Z.of_nat (length hits))) as [Hfull|Hroom].
  { exists s. split; [|by apply grep_inv_full]. rewrite Hs. unfold on_rg_line. cbn [g_matchCount].
    rewrite grep_limit_int, (proj2 (reached_spec _ _)), orb_true_r; [done|rewrite length_take; lia]. }
  assert (s = GrepState GrepRunning err (length hits) false false false false (omap id hits) None) as ->
    by (rewrite Hs; symmetry; apply grep_inv_room; lia). clear Hs.
  assert (Hsame : exists s', Some (GrepState GrepRunning err (length hits) false false false false (omap id hits) None) = Some s' /\
    grep_inv (hits ++ []) err s') by (eexists; split; [done|]; rewrite app_nil_r; apply grep_inv_room; lia).
  unfold reported, on_rg_line. cbn [g_matchCount]. rewrite grep_limit_int.
  destruct (truthy (trim line)); cbn [negb orb]; [|done].
  destruct (reached (length hits) (inject_Z n)) eqn:E; [apply reached_spec in E; lia|]. cbv iota.
  destruct (JSON_parse line) as [event|] eqn:Hp; [|done]. cbn [mbind option_bind].
  destruct (get (js "type") event) as [[| | |t| |]|] eqn:Ht; try (by destruct event).
  destruct (streq t (js "match")) eqn:Em; [|by destruct event].
  apply streq_true in Em as ->. destruct (match_of event) as [h|] eqn:Hm; [|by destruct (Hok event)].
  assert (Hn0 : length (hits ++ [h]) = S (length hits)) by (rewrite length_app; simpl; lia).
  assert (Hom : omap id hits ++ match h with Some m => [m] | None => [] end = omap id (hits ++ [h]))
    by (rewrite omap_app; by destruct h).
  exists (if reached (S (length hits)) (inject_Z n)
          then GrepState GrepRunning err (S (length hits)) true false true true (omap id (hits ++ [h])) None
          else GrepState GrepRunning err (S (length hits)) false false false false (omap id (hits ++ [h])) None).
  split; [destruct event; try done; unfold stopChild;
    cbn [mbind option_bind g_phase g_stderr g_matchCount g_matchLimitReached g_aborted g_killed
         g_killedDueToLimit g_matches g_outcome]; rewrite Hom; by destruct (reached (S _) _)|].
  destruct (reached (S (length hits)) (inject_Z n)) eqn:Er.
  - apply reached_spec in Er. unfold grep_inv. rewrite take_ge by lia.
    rewrite !bool_decide_true by lia. by rewrite Hn0.
  - rewrite <- Hn0. apply grep_inv_room. assert (~ n <= Z.of_nat (S (length hits))) by (rewrite <- reached_spec; congruence).
    lia.
Qed.

Lemma grep_collects evs hits err s :
  Forall rg_output evs -> grep_inv hits err s ->
  exists s', run_from s evs = Some s' /\ grep_inv (hits ++ rg_hits evs) (err ++ rg_stderr evs) s'.
Proof.
  intros HF. revert hits err s. induction HF as [|ev evs Hev HF IH]; intros hits err s Hs.
  { exists s. by rewrite !app_nil_r. }
  assert (Hp : g_phase s = GrepRunning) by (by rewrite Hs).
  cbn [grep_run_from]. unfold grep_step at 1. rewrite Hp.
  destruct ev as [| line | chunk | | | ]; try done.
  - destruct (grep_line_inv hits err s line Hs Hev) as (s' & -> & Hs'). cbn [mbind option_bind].
    destruct (IH _ _ _ Hs') as (s'' & Hr & Hs''). exists s''. split; [done|].
    rewrite <- app_assoc in Hs''. unfold rg_hits, rg_stderr in *. cbn [omap list_omap].
    by destruct (reported line).
  - cbn [mbind option_bind].
    destruct (IH hits (err ++ chunk) (GrepState GrepRunning (g_stderr s ++ chunk) (g_matchCount s) (g_matchLimitReached s)
      (g_aborted s) (g_killed s) (g_killedDueToLimit s) (g_matches s) (g_outcome s))) as (s'' & Hr & Hs'');
      [by rewrite Hs|].
    exists s''. split; [done|]. unfold rg_stderr in *. cbn [omap list_omap concat]. by rewrite app_assoc.
Qed.

(** The search with the events of a run of [rg] that is not aborted. *)
Definition rg_run (rgPath : jstr) (evs : list grep_event) (code : option Z) : option grep_state :=
  grep_run num_to_string cwd searchPath context limit isDirectory readFile
    ([RgReady (Some rgPath) true] ++ evs ++ [RgClose code]).

Lemma grep_run_from_app s evs1 evs2 :
  run_from s (evs1 ++ evs2) = (s' ← run_from s evs1; run_from s' evs2).
Proof.
  revert s. induction evs1 as [|ev evs1 IH]; intros s; [done|]. cbn [app grep_run_from].
  destruct (grep_step _ _ _ _ _ _ _ s ev) as [s'|]; [apply IH|done].
Qed.

(** What a run of [rg] ends with. *)
Lemma rg_run_outcome rgPath evs code :
  rgPath ≠ [] -> Forall rg_output evs ->
  let hits := rg_hits evs in
  let full := bool_decide (n <= Z.of_nat (length hits)) in
  let bad := match code with Some c => negb (c =? 0) && negb (c =? 1) | None => true end in
  g_outcome <$> rg_run rgPath evs code =
    (if negb full && bad then
       Some (Some (Throw (if truthy (trim (rg_stderr evs)) then trim (rg_stderr evs)
          else js "ripgrep exited with code " ++ match code with Some c => num_str c | None => js "null" end)))
     else match hits with
          | [] => Some (Some (Ok (Answer (js "No matches found") None)))
          | _ => Some <$> grep_answer num_to_string cwd searchPath context limit isDirectory readFile
                   (omap id (take (Z.to_nat n) hits)) full
          end).
Proof.
  intros Hrg HF hits full bad. unfold rg_run, grep_run. rewrite grep_run_from_app.
  destruct rgPath as [|x rg]; [done|].
  assert (run_from (grep_init false) [RgReady (Some (x :: rg)) true] =
    Some (GrepState GrepRunning [] 0 false false false false [] None)) as -> by done.
  cbn [mbind option_bind]. rewrite grep_run_from_app.
  destruct (grep_collects evs [] [] (GrepState GrepRunning [] 0 false false false false [] None) HF)
    as (s & Hrun & Hs); [apply (grep_inv_room [] []); simpl; lia|].
  cbn [app] in Hs. fold hits in Hs. rewrite Hrun. cbn [mbind option_bind grep_run_from].
  rewrite Hs. fold full. unfold grep_step, on_rg_close, grep_settle.
  cbn [g_phase g_stderr g_matchCount g_matchLimitReached g_aborted g_killed g_killedDueToLimit g_matches g_outcome].
  fold bad. destruct (negb full && bad); [done|].
  destruct hits as [|h hs] eqn:Eh; [by rewrite take_nil|].
  destruct (Z.to_nat n) as [|m] eqn:En; [lia|]. cbn [take length]. cbn [Nat.eqb].
  by destruct (grep_answer _ _ _ _ _ _ _ _ _).
Qed.

(** A match as [rg] reports it: file, line number, text of the line; and the line
    of the answer for it, with whether it was cut. *)
Definition hit : Type := jstr * Q * jstr.
Definition hit_match (h : hit) : match_ := Match (JStr h.1.1) h.1.2 (Some (JStr h.2)).
Definition hit_line (h : hit) : jstr * bool :=
  let '(p, k, t) := h in
  let sanitized := replace_unit CR [] (replace_crlf t) in
  let '(text, cut) := truncateLine (if ends_with [LF] sanitized then removelast sanitized else sanitized) None in
  (formatPath cwd searchPath isDirectory p ++ js ":" ++ num_to_string k ++ js ": " ++ text, cut).

Lemma format_hits hits c :
  contextValue context = 0%Q ->
  format_matches num_to_string cwd searchPath context isDirectory readFile (map hit_match hits) c =
  Some (map fst (map hit_line hits), existsb snd (map hit_line hits)).
Proof.
  intros Hc. induction hits as [|[[p k] t] hits IH]; [done|]. cbn [map format_matches].
  assert (format_match num_to_string cwd searchPath context isDirectory readFile (hit_match (p, k, t)) c =
    Some ([(hit_line (p, k, t)).1], (hit_line (p, k, t)).2, c)) as ->.
  { unfold format_match, hit_match, hit_line. cbn [m_filePath m_lineText m_lineNumber fst snd]. rewrite Hc.
    change (Qle_bool 0 0) with true. cbv iota. by destruct (truncateLine _ _). }
  cbn [mbind option_bind]. by rewrite IH.
Qed.

(** For a search without context, every run of [rg] that it ends well, or
    that was stopped at the limit [n], is answered.  The answer shows one line for
    each of the first [n] matches, in the order of [rg], with its file relative to
    the search directory, its number and its text: whole lines as far as the byte
    limit allows.  An answer without a notice shows every match, none shortened;
    there is no notice when fewer than [n] matches were found, none is too long
    and they fit. *)
Theorem grep_shows_matches rgPath evs code hits :
  rgPath ≠ [] -> Forall rg_output evs -> rg_hits evs = map (fun h => Some (hit_match h)) hits ->
  contextValue context = 0%Q -> Forall (fun h => Forall is_unit (hit_line h).1) hits ->
  code = Some 0 \/ code = Some 1 \/ n <= Z.of_nat (length hits) ->
  exists a, g_outcome <$> rg_run rgPath evs code = Some (Some (Ok a)) /\
    (hits = [] -> a = Answer (js "No matches found") None) /\
    (hits ≠ [] -> exists body note, a_text a = body ++ note /\
       fitting_part (join [LF] (map (fun h => (hit_line h).1) (take (Z.to_nat n) hits))) body /\
       (a_details a = None ->
        a_text a = join [LF] (map (fun h => (hit_line h).1) hits) /\ existsb (fun h => (hit_line h).2) hits = false) /\
       (Z.of_nat (length hits) < n -> existsb (fun h => (hit_line h).2) hits = false ->
        Buffer_byteLength (join [LF] (map (fun h => (hit_line h).1) hits)) <= DEFAULT_MAX_BYTES2 ->
        a_details a = None)).
Proof.
  intros Hrg Hev Hhits Hctx HF Hcode. rewrite rg_run_outcome by done. rewrite Hhits, length_map.
  set (full := bool_decide _). assert (negb full && match code with Some c => negb (c =? 0) && negb (c =? 1) | None => true end = false)
    as ->. { unfold full. destruct Hcode as [->|[->|Hfull]]; [apply andb_false_r..|by rewrite bool_decide_true]. }
  destruct hits as [|h0 hs]; [eexists; split; [done|]; done|]. cbn [map]. cbv iota.
  set (hits := h0 :: hs) in *. change (Some (hit_match h0) :: _) with (map (fun h => Some (hit_match h)) hits).
  rewrite firstn_map. set (shown := take (Z.to_nat n) hits).
  assert (omap id (map (fun h => Some (hit_match h)) shown) = map hit_match shown) as ->
    by (clear; induction shown as [|h l IH]; [done|]; simpl; f_equal; apply IH).
  unfold grep_answer. rewrite format_hits by done. cbn [mbind option_bind]. rewrite grep_limit_int, map_map.
  destruct (finish_search_spec (map (fun h => (hit_line h).1) shown) (if full then Some (inject_Z n) else None)
    (limit_notice num_to_string (js "matches") (js ", or refine pattern")) (existsb snd (map hit_line shown)))
    as (a & body & note & Ha & Ht & Hp & Hdet & Hnote).
  { apply Forall_map. by apply Forall_take. }
  exists a. split; [by rewrite Ha|]. split; [done|]. intros _. exists body, note.
  assert (Hall : full = false -> shown = hits).
  { unfold full. rewrite bool_decide_eq_false. intros. apply take_ge. lia. }
  assert (He : forall l, existsb snd (map hit_line l) = existsb (fun h => (hit_line h).2) l)
    by (induction l as [|h l IHl]; [done|]; simpl; by rewrite IHl).
  rewrite He in Hdet. pose proof (proj1 (proj2 Hp)) as Hbody. do 2 (split; [done|]). split.
  - intros Hd. rewrite Ht, Hnote, app_nil_r by done. apply Hdet in Hd as (Hl & Hlong & Hfit).
    assert (shown = hits) as Hs by (apply Hall; by destruct full).
    rewrite Hbody by done. by rewrite Hs in *.
  - intros Hn Hlong Hfit. assert (full = false) as E by (unfold full; rewrite bool_decide_false; [done|lia]).
    apply Hdet. rewrite (Hall E), E. done.
Qed.
End GrepFacts.

(** ** The context of a match *)

(** Line [i] of a file as the block of a match at line [k] shows it. *)
Definition context_line (num_to_string : Q -> jstr) (relativePath : jstr) (lines : list jstr) (k i : Z) : jstr * bool :=
  let '(text, cut) := truncateLine (replace_unit CR [] (nth (Z.to_nat (i - 1)) lines [])) None in
  (relativePath ++ (if i =? k then js ":" else js "-") ++ num_to_string (inject_Z i) ++
   (if i =? k then js ": " else js "- ") ++ text, cut).

Lemma block_loop_spec num_to_string fuel rel lines k last i :
  1 <= i -> last < 2 ^ 53 - 1 -> (Z.to_nat (last - i + 1) < fuel)%nat -> i <= 2 ^ 53 - 1 ->
  block_loop num_to_string fuel rel lines (inject_Z k) (num_of last) (num_of i) =
  Some (map fst (map (context_line num_to_string rel lines k) (seqZ i (last - i + 1))),
        existsb snd (map (context_line num_to_string rel lines k) (seqZ i (last - i + 1)))).
Proof.
  intros Hi Hlast. unfold num_of. revert i Hi. induction fuel as [|fuel IH]; intros i Hi Hf Hmax; [lia|].
  cbn [block_loop]. unfold num_op, num_of. rewrite num_ge_int. destruct (Z.leb_spec i last) as [Hle|Hgt].
  - rewrite fsub_int, fadd_int by lia.
    rewrite !num_ge_int. rewrite seqZ_cons by lia. cbn [map existsb].
    assert (line_at lines (Finite (inject_Z (i - 1))) = nth (Z.to_nat (i - 1)) lines []) as ->.
    { unfold line_at. cbn [Qden Qnum inject_Z]. by rewrite (proj2 (Z.leb_le 0 (i - 1))) by lia. }
    unfold context_line at 1 3.
    destruct (truncateLine _ _) as [text cut].
    rewrite IH by lia.
    replace (Z.succ i) with (i + 1) by lia. replace (Z.pred (last - i + 1)) with (last - (i + 1) + 1) by lia.
    cbn [mbind option_bind fst snd jsnum_string].
    assert ((k <=? i) && (i <=? k) = (i =? k)) as -> by lia. done.
  - by rewrite seqZ_nil by lia.
Qed.

(** For a match at line [k] with [c] lines of context, the answer shows
    exactly the lines of the file from [c] before to [c] after the match that
    exist, in order, each with its number, the match alone marked with a colon;
    the loop ends; and the file is read once: the cache holds what was read. *)
Theorem grep_context_window num_to_string cwd searchPath isDirectory readFile p k c cache content :
  let lines := split_char LF (normalizeToLF content) in
  let rel := formatPath cwd searchPath isDirectory p in
  let first := Z.max 1 (k - c) in
  let last := Z.min (Z.of_nat (length lines)) (k + c) in
  let shown := map (context_line num_to_string rel lines k) (seqZ first (last - first + 1)) in
  c_files cache !! p = None -> readFile (c_reads cache) p = Some content ->
  1 <= k <= Z.of_nat (length lines) -> 0 < c -> k + c < 2 ^ 53 - 1 ->
  k ∈ seqZ first (last - first + 1) /\
  exists cache', c_files cache' !! p = Some lines /\
    formatBlock num_to_string cwd searchPath (Some (inject_Z c)) isDirectory readFile p (inject_Z k) cache =
    Some (map fst shown, existsb snd shown, cache').
Proof.
  intros lines rel first last shown Hc Hr Hk Hpos Hmax.
  split; [apply elem_of_seqZ; unfold first, last; lia|].
  eexists (FileCache (<[p := lines]> (c_files cache)) (S (c_reads cache))).
  split; [apply lookup_insert_eq|]. unfold formatBlock, getFileLines. rewrite Hc, Hr. fold lines rel.
  assert (Hm : forall A (x y : A), match lines with [] => x | _ :: _ => y end = y)
    by (intros; destruct lines; [simpl in Hk; lia|done]).
  rewrite Hm. clear Hm.
  assert (contextValue (Some (inject_Z c)) = inject_Z c) as ->.
  { unfold contextValue. change 0%Q with (inject_Z 0). pose proof (num_gt_int c 0) as H. unfold num_gt in H.
    by rewrite H, (proj2 (Z.ltb_lt 0 c)). }
  pose proof (num_gt_int c 0) as H0. unfold num_gt in H0. change (inject_Z 0) with 0%Q in H0.
  rewrite H0, (proj2 (Z.ltb_lt 0 c)) by done. cbv iota. rewrite fadd_int by lia.
  change (num_of (Z.of_nat (length lines))) with (Finite (inject_Z (Z.of_nat (length lines)))). rewrite num_gt_int.
  assert (Hstart : (if num_gt (fsub (inject_Z k) (inject_Z c)) (num_of 1) then fsub (inject_Z k) (inject_Z c) else num_of 1) =
    num_of first).
  { unfold num_of, first. destruct (Z.leb_spec (k - c) 0) as [Hneg|Hp].
    - unfold fsub at 1. rewrite fl_nonpos; [by rewrite Z.max_l by lia| |lia].
      unfold Qle. cbn [Qnum Qden Qminus Qplus Qopp inject_Z]. lia.
    - rewrite fsub_int, num_gt_int by lia. destruct (Z.ltb_spec 1 (k - c));
        [by rewrite Z.max_r by lia|by rewrite Z.max_l by lia]. }
  rewrite Hstart.
  assert ((if k + c <? Z.of_nat (length lines) then Finite (inject_Z (k + c)) else Finite (inject_Z (Z.of_nat (length lines)))) =
    num_of last) as ->.
  { unfold last, num_of. destruct (Z.ltb_spec (k + c) (Z.of_nat (length lines)));
      [by rewrite Z.min_r by lia|by rewrite Z.min_l by lia]. }
  rewrite block_loop_spec; [done|unfold first; lia|unfold last; lia|unfold first, last; lia|unfold first; lia].
Qed.

(** ** Applications and cases *)

Definition ls_stat (p : jstr) : result jstr bool :=
  if streq p (js "/d/gone") then Throw (js "ENOENT") else Ok (negb (streq p (js "/d/a.txt"))).

Lemma ls_lists_directory_witness :
  exists a, ls_list int_num_str (fun _ _ => true) (fun s => s) (fun _ => true) ls_stat
    (fun _ => Ok [js "a.txt"; js "gone"; js "sub"]) (js "/d") (Some 10%Q) = Some (Ok a) /\
    (a_details a = None -> a_text a = js "a.txt" ++ [LF] ++ js "sub/").
Proof.
  destruct (ls_lists_directory int_num_str (fun _ _ => true) (fun s => s) (fun _ => true) ls_stat
    (fun _ => Ok [js "a.txt"; js "gone"; js "sub"]) (js "/d") [js "a.txt"; js "gone"; js "sub"] 10
    eq_refl eq_refl eq_refl eq_refl) as (_ & _ & a & Ha & _ & Hb).
  - repeat (apply Forall_cons_2; [apply all_units_spec; vm_compute; reflexivity|]). apply Forall_nil_2.
  - exists a. split; [exact Ha|]. destruct Hb as (body & note & _ & _ & H & _); [discriminate|exact H].
Defined.

(** The events of a run of [fd] that finds two files. *)
Definition fd_events : list find_event := [FdLine (js "/w/src/a/b.ts"); FdStderr (js "x"); FdLine (js "/w/src/a/c/")].

Lemma find_shows_files_witness :
  map (fun p => path_resolve (js "/w") [js "/w/src"; p]) (find_lines (js "/w") (js "/w/src") (fd_lines fd_events)) =
  [js "/w/src/a/b.ts"; js "/w/src/a/c"].
Proof.
  apply (find_shows_files int_num_str (js "/w") false (fun _ => true) (js "/w/src") (js "*") None fd_events (js "fd")).
  - discriminate.
  - repeat constructor.
  - discriminate.
  - repeat (apply Forall_cons_2; [split_and!; [reflexivity|reflexivity|reflexivity|
      apply all_units_spec; vm_compute; reflexivity|vm_compute; discriminate]|]). apply Forall_nil_2.
  - reflexivity.
  - apply all_units_spec. vm_compute. reflexivity.
  - apply all_units_spec. vm_compute. reflexivity.
Defined.

Lemma find_abort_ends_witness :
  f_killed (find_run int_num_str (js "/w") false (fun _ => true) (js "/w") (js "*") None false
    ([FdFound (Some (js "fd")); FdProbed; FdLine (js "/w/a")] ++ FindAbort :: [FdClose None])) = true.
Proof.
  apply (find_abort_ends int_num_str (js "/w") false (fun _ => true) (js "/w") (js "*") None
    [FdFound (Some (js "fd")); FdProbed; FdLine (js "/w/a")] [FdClose None]).
  - vm_compute. reflexivity.
  - vm_compute. discriminate.
Defined.

(** A line of [rg --json] for a match, written with single quotes. *)
Definition quoted (s : jstr) : jstr := s ≫= fun c => if c =? 39 then [34] else [c].
Definition rg_match_line : jstr :=
  quoted (js "{'type':'match','data':{'path':{'text':'/w/f'},'lines':{'text':'two\n'},'line_number':2}}").

Lemma grep_shows_matches_witness :
  exists a, g_outcome <$> rg_run int_num_str (js "/w") (js "/w") true (fun _ _ => None) None 5 (js "rg")
    [RgLine rg_match_line] (Some 0) = Some (Some (Ok a)) /\ (a_details a = None -> a_text a = js "f:2: two").
Proof.
  destruct (grep_shows_matches int_num_str (js "/w") (js "/w") true (fun _ _ => None) None 5 eq_refl (js "rg")
    [RgLine rg_match_line] (Some 0) [(js "/w/f", 2%Q, js "two" ++ [LF])]) as (a & Ha & _ & H).
  - discriminate.
  - repeat constructor; [vm_compute; discriminate|]. intros event He _.
    assert (match_of event = match_of (match JSON_parse rg_match_line with Some e => e | None => JNull end)) as ->
      by (rewrite He; reflexivity).
    vm_compute. discriminate.
  - vm_compute. reflexivity.
  - reflexivity.
  - apply Forall_cons_2; [apply all_units_spec; vm_compute; reflexivity|apply Forall_nil_2].
  - left. reflexivity.
  - exists a. split; [exact Ha|]. destruct H as (body & note & _ & _ & H & _); [discriminate|].
    intros Hd. exact (proj1 (H Hd)).
Defined.

Lemma grep_context_window_witness :
  exists cache',
    formatBlock int_num_str (js "/w") (js "/w") (Some 1%Q) true
      (fun _ _ => Some (js "one" ++ [LF] ++ js "two" ++ [LF] ++ js "three" ++ [LF] ++ js "four")) (js "/w/f") 2
      (FileCache ∅ 0) = Some ([js "f-1- one"; js "f:2: two"; js "f-3- three"], false, cache').
Proof.
  destruct (grep_context_window int_num_str (js "/w") (js "/w") true
    (fun _ _ => Some (js "one" ++ [LF] ++ js "two" ++ [LF] ++ js "three" ++ [LF] ++ js "four")) (js "/w/f") 2 1
    (FileCache ∅ 0) (js "one" ++ [LF] ++ js "two" ++ [LF] ++ js "three" ++ [LF] ++ js "four"))
    as (_ & cache' & _ & H); [reflexivity|reflexivity|vm_compute; split; discriminate|reflexivity|reflexivity|].
  exists cache'. exact H.
Defined.

(** A limit of zero makes [ls] call a directory empty that is not. *)
Lemma ls_limit_zero num_to_string locale_le lower exists_ stat readdir dirPath e es :
  exists_ dirPath = true -> stat dirPath = Ok true -> readdir dirPath = Ok (e :: es) ->
  ls_list num_to_string locale_le lower exists_ stat readdir dirPath (Some 0%Q) =
  Some (Ok (Answer (js "(empty directory)") None)).
Proof.
  intros He Hs Hr. unfold ls_list. rewrite He, Hs, Hr. cbn [negb nullish].
  by destruct (sort_entries locale_le lower (e :: es)).
Qed.

(** An abort while [grep] looks for [rg] or examines the path is forgotten: the
    search runs to its end and answers as if there had been none. *)
Lemma grep_abort_lost num_to_string cwd searchPath context limit isDirectory readFile evs :
  grep_run num_to_string cwd searchPath context limit isDirectory readFile (GrepAbort :: evs) =
  grep_run num_to_string cwd searchPath context limit isDirectory readFile evs.
Proof. done. Qed.

(** A match in a file whose name is not text is counted, and not shown: the
    answer is empty. *)
Lemma grep_unnamed_match :
  (g_outcome <$> grep_run int_num_str (js "/w") (js "/w") None None true (fun _ _ => None)
    [RgReady (Some (js "rg")) true;
     RgLine (quoted (js "{'type':'match','data':{'path':{'bytes':'/w=='},'lines':{'text':'x'},'line_number':2}}"));
     RgClose (Some 0)]) = Some (Some (Ok (Answer [] None))).
Proof. vm_compute. reflexivity. Qed.

(** A fractional number of context lines, which the schema accepts, shows lines
    that do not exist and never the match. *)
Lemma grep_fractional_context :
  let half (q : Q) : jstr := num_str (Qnum q / Zpos (Qden q)) ++ if (Qden q =? 2)%positive then js ".5" else [] in
  (fun r => r.1.1) <$> (formatBlock half (js "/w") (js "/w") (Some (1 # 2)) true
     (fun _ _ => Some (js "one" ++ [LF] ++ js "two" ++ [LF] ++ js "three")) (js "/w/f") 2 (FileCache ∅ 0)) =
  Some [js "f-1.5- "; js "f-2.5- "].
Proof. vm_compute. reflexivity. Qed.

(** [find] reports another name for a file whose name ends with a space. *)
Lemma find_trims_names : find_lines (js "/w") (js "/w") [js "/w/a "] = [js "a"].
Proof. vm_compute. reflexivity. Qed.
