(* ===== verification/PluginBridge.v ===== *)
(** The plugin bridge, src/tools/plugin-bridge/cli.js: command line and route
    validation, one forwarding route as a state machine over its sockets, and
    the process that runs all routes. *)
From S2P Require Import Prelude Utf8 Numbers.
Open Scope Z_scope.

(** * Command line *)

Record args := Args { maps : list jstr; quiet : bool; help : bool }.

Definition needs_value (arg : jstr) : jstr := arg ++ js " needs a value".
Definition unknown_argument (arg : jstr) : jstr := js "unknown argument " ++ arg.

Fixpoint parse_loop (argv : list jstr) (out : args) : result jstr args :=
  match argv with
  | [] => Ok out
  | arg :: rest =>
      if streq arg (js "--help") || streq arg (js "-h") then
        parse_loop rest (Args (maps out) (quiet out) true)
      else if streq arg (js "--quiet") then
        parse_loop rest (Args (maps out) true (help out))
      else if streq arg (js "--map") then
        match rest with
        | [] => Throw (needs_value arg)
        | value :: rest' =>
            if starts_with (js "--") value then Throw (needs_value arg)
            else parse_loop rest' (Args (maps out ++ [value]) (quiet out) (help out))
        end
      else Throw (unknown_argument arg)
  end.

Definition parseArgs (argv : list jstr) : result jstr args :=
  parse_loop argv (Args [] false false).

(** * Addresses *)

(** [s.lastIndexOf(c)] for one code unit. *)
Fixpoint last_index_of (c : Z) (s : jstr) : option nat :=
  match s with
  | [] => None
  | x :: r =>
      match last_index_of c r with
      | Some i => Some (S i)
      | None => if x =? c then Some O else None
      end
  end.

(** [s.replace(/^\[|\]$/g, "")] *)
Definition strip_brackets (s : jstr) : jstr :=
  let h := match s with 91 :: r => r | _ => s end in
  match last h with
  | Some 93 => removelast h
  | _ => h
  end.

(** [net.isIP]: dotted quads without leading zeros, and the groups of an IPv6
    address with at most one [::], an optional dotted tail and a zone. *)
Definition v4_segment (s : jstr) : bool :=
  match s with
  | [a] => is_digit a
  | [a; b] => (49 <=? a) && (a <=? 57) && is_digit b
  | [a; b; c] =>
      is_digit b && is_digit c &&
      ((a =? 49) || ((a =? 50) && ((b <=? 52) || ((b =? 53) && (c <=? 53)))))
  | _ => false
  end.

Definition isIPv4 (s : jstr) : bool :=
  let segments := split_char 46 s in
  (Nat.eqb (length segments) 4) && forallb v4_segment segments.

Definition is_hex (c : Z) : bool := bool_decide (is_Some (digit_value c)).

Definition v6_segment (s : jstr) : bool :=
  (Nat.leb 1 (length s)) && (Nat.leb (length s) 4) && forallb is_hex s.

(** The number of 16-bit groups of a colon-separated part, whose last piece
    may be a dotted quad when the part ends the address. *)
Fixpoint v6_count (ends : bool) (pieces : list jstr) : option nat :=
  match pieces with
  | [] => Some O
  | [p] => if v6_segment p then Some 1%nat else if ends && isIPv4 p then Some 2%nat else None
  | p :: r => if v6_segment p then S <$> v6_count ends r else None
  end.

Definition v6_part (ends : bool) (s : jstr) : option nat :=
  match s with [] => Some O | _ => v6_count ends (split_char 58 s) end.

Definition v6_address (s : jstr) : bool :=
  match index_of (js "::") s with
  | Some i =>
      match v6_part false (take i s), v6_part true (drop (i + 2) s) with
      | Some l, Some r => Nat.leb (l + r) 7
      | _, _ => false
      end
  | None => match v6_part true s with Some n => Nat.eqb n 8 | None => false end
  end.

Definition zone_char (c : Z) : bool :=
  is_digit c || ((97 <=? c) && (c <=? 122)) || ((65 <=? c) && (c <=? 90)) ||
  (c =? 45) || (c =? 46) || (c =? 58).

Definition isIPv6 (s : jstr) : bool :=
  match index_of (js "%") s with
  | Some i =>
      let zone := drop (S i) s in
      v6_address (take i s) && truthy zone && forallb zone_char zone
  | None => v6_address s
  end.

Definition isIP (s : jstr) : Z := if isIPv4 s then 4 else if isIPv6 s then 6 else 0.

Record listen_addr := ListenAddr { host : jstr; port : Z; addr : jstr }.

Definition not_host_port (a : jstr) : jstr :=
  js "the local side of --map must be host:port, got " ++ a.
Definition not_a_port (a : jstr) : jstr := js "the local side of --map is not a port: " ++ a.
Definition is_wildcard (a : jstr) : jstr :=
  js "--map local side " ++ a ++
  js " is a wildcard; this endpoint is keyless, so name the loopback address explicitly".
Definition not_loopback (a : jstr) : jstr :=
  js "--map local side " ++ a ++
  js " is not loopback; the bridge serves the browser on THIS machine, and exposing it further would let anyone who can reach it drive your browser".

(** [!Number.isInteger(port) || port < 0 || port > 65535], and the integer. *)
Definition valid_port (n : jsnum) : option Z :=
  match n with
  | Finite q =>
      if isInteger n && (0 <=? floor q) && (floor q <=? 65535) then Some (floor q) else None
  | _ => None
  end.

Definition loopback_host (h : jstr) : bool :=
  let family := isIP h in
  streq h (js "localhost") ||
  ((family =? 4) && starts_with (js "127.") h) ||
  ((family =? 6) && (streq h (js "::1") || streq h (js "0:0:0:0:0:0:0:1"))).

Definition checkListen (a : jstr) : result jstr listen_addr :=
  match last_index_of 58 a with
  | None | Some O => Throw (not_host_port a)
  | Some at_ =>
      let h := strip_brackets (take at_ a) in
      match valid_port (Number (drop (S at_) a)) with
      | None => Throw (not_a_port a)
      | Some p =>
          if streq h [] || streq h (js "0.0.0.0") || streq h (js "::") then
            Throw (is_wildcard a)
          else if negb (loopback_host h) then Throw (not_loopback a)
          else Ok (ListenAddr h p a)
      end
  end.

Record route := Route { listen : listen_addr; upstream : jstr; spec : jstr }.

Definition not_a_map (s : jstr) : jstr :=
  js "--map must be <local-host:port>=<ws-url>, got " ++ s.
Definition not_a_url (raw : jstr) : jstr :=
  js "the upstream side of --map is not a URL: " ++ raw.
Definition not_ws (protocol : jstr) : jstr :=
  js "the upstream side of --map must be ws:// or wss://, got " ++ protocol.

(** The parsed URL, as [new URL(raw)] gives it: its [protocol] and what its
    [toString] returns. *)
Record URL := Url { protocol : jstr; href : jstr }.

Section Routes.
(** The WHATWG parser behind [new URL]; [None] when it throws. *)
Context (new_URL : jstr -> option URL).

Definition checkUpstream (raw : jstr) : result jstr jstr :=
  match new_URL raw with
  | None => Throw (not_a_url raw)
  | Some url =>
      if negb (streq (protocol url) (js "ws:")) && negb (streq (protocol url) (js "wss:"))
      then Throw (not_ws (protocol url))
      else Ok (href url)
  end.

Definition parseMap (s : jstr) : result jstr route :=
  match index_of (js "=") s with
  | None | Some O => Throw (not_a_map s)
  | Some at_ =>
      let! l := checkListen (take at_ s) in
      let! u := checkUpstream (drop (S at_) s) in
      Ok (Route l u s)
  end.
End Routes.

(** * One route *)

Inductive readyState := CONNECTING | OPEN | CLOSING | CLOSED.

#[export] Instance readyState_eq_dec : EqDecision readyState.
Proof. solve_decision. Defined.

(** What the route relies on of the [ws] package: after [close()] a socket is
    on its way to closed. *)
Class WebSocketLib := {
  ws_close : readyState -> readyState;
  ws_close_ends : forall r, ws_close r = CLOSING \/ ws_close r = CLOSED
}.

(** A message on the wire: its payload and whether it is a binary frame. *)
Record frame := Frame { data : list Z; binary : bool }.

(** One pair of sockets.  The [_rx] lists are the frames [message] events have
    delivered from a socket, the [_tx] lists those [send] has put on it. *)
Record pair := Pair {
  plugin_ready : readyState;
  up_ready : readyState;
  backlog : list (list Z);
  plugin_rx : list frame;
  up_tx : list frame;
  up_rx : list frame;
  plugin_tx : list frame
}.

(** The lines of the log, before they are printed. *)
Inductive log_line :=
| LDropping (a : jstr)
| LPaired (a upstream : jstr)
| LClosed (a why : jstr)
| LListening (a upstream : jstr)
| LReady (n : nat)
| LStopping.

Definition print_line (l : log_line) : jstr :=
  match l with
  | LDropping a => a ++ js ": a new plugin connected; dropping the previous one"
  | LPaired a u => a ++ js ": plugin " ++ [8644] ++ js " " ++ u
  | LClosed a why => a ++ js ": " ++ why
  | LListening a u => js "listening on " ++ a ++ js "/device " ++ [8594] ++ js " " ++ u
  | LReady n =>
      js "bridge: " ++ num_str (Z.of_nat n) ++ js " route" ++
      (if Nat.eqb n 1 then [] else js "s") ++
      js " up; point your plugins at the local addresses above, nothing else needs to change"
  | LStopping => js "bridge: stopping"
  end.

Record route_state := RouteState {
  pairs : list pair;          (* in the order the plugins connected *)
  current : option nat;       (* index of the pair in the slot *)
  lines : list log_line
}.

Definition route_init : route_state := RouteState [] None [].

(** [verifyClient] *)
Definition verifyClient (origin : option jstr) : bool :=
  match origin with
  | None => true
  | Some o => negb (truthy o) || starts_with (js "chrome-extension://") o
  end.

(** What happens on a route's sockets. *)
Inductive route_event :=
| Upgrade (origin : option jstr)               (* a client asks for a WebSocket *)
| UpOpen (i : nat)
| UpMessage (i : nat) (f : frame)
| UpError (i : nat) (message : jstr)
| UpClose (i : nat)
| PluginMessage (i : nat) (f : frame)
| PluginError (i : nat) (message : jstr)
| PluginClose (i : nat)
| PeerCloses (i : nat) (upstream_side : bool) (final : bool).

Section Route.
Context `{WebSocketLib} (r : route).

Definition log (l : log_line) (s : route_state) : route_state :=
  RouteState (pairs s) (current s) (lines s ++ [l]).

Definition update (i : nat) (f : pair -> pair) (s : route_state) : route_state :=
  RouteState (alter f i (pairs s)) (current s) (lines s).

Definition close_plugin (p : pair) : pair :=
  Pair (ws_close (plugin_ready p)) (up_ready p) (backlog p)
    (plugin_rx p) (up_tx p) (up_rx p) (plugin_tx p).

Definition close_up (p : pair) : pair :=
  Pair (plugin_ready p) (ws_close (up_ready p)) (backlog p)
    (plugin_rx p) (up_tx p) (up_rx p) (plugin_tx p).

(** The handler of [connection]: the previous plugin is dropped, the new
    pair takes the slot.  [new WebSocket(route.upstream)] is taken not to throw; it
    does for an address with a fragment, which [checkUpstream] lets pass. *)
Definition on_connection (s : route_state) : route_state :=
  let s := match current s with
           | Some c => update c close_plugin (log (LDropping (addr (listen r))) s)
           | None => s
           end in
  RouteState (pairs s ++ [Pair OPEN CONNECTING [] [] [] [] []])
    (Some (length (pairs s))) (lines s).

Definition closePair (i : nat) (why : jstr) (s : route_state) : route_state :=
  let s := RouteState (pairs s)
             (if bool_decide (current s = Some i) then None else current s) (lines s) in
  let s := if truthy why then log (LClosed (addr (listen r)) why) s else s in
  update i (fun p => close_up (close_plugin p)) s.

(** [up.send(frame)] of a backlogged payload, a [Buffer] with no options: a
    binary frame. *)
Definition flush_frame (d : list Z) : frame := Frame d true.

Definition on_up_open (i : nat) (s : route_state) : route_state :=
  update i (fun p =>
    Pair (plugin_ready p) OPEN [] (plugin_rx p)
      (up_tx p ++ map flush_frame (backlog p)) (up_rx p) (plugin_tx p))
    (log (LPaired (addr (listen r)) (upstream r)) s).

Definition on_up_message (f : frame) (p : pair) : pair :=
  Pair (plugin_ready p) (up_ready p) (backlog p) (plugin_rx p) (up_tx p)
    (up_rx p ++ [f])
    (if bool_decide (plugin_ready p = OPEN) then plugin_tx p ++ [f] else plugin_tx p).

Definition on_plugin_message (f : frame) (p : pair) : pair :=
  match up_ready p with
  | OPEN =>
      Pair (plugin_ready p) (up_ready p) (backlog p) (plugin_rx p ++ [f])
        (up_tx p ++ [f]) (up_rx p) (plugin_tx p)
  | CONNECTING =>
      Pair (plugin_ready p) (up_ready p) (backlog p ++ [data f]) (plugin_rx p ++ [f])
        (up_tx p) (up_rx p) (plugin_tx p)
  | _ =>
      Pair (plugin_ready p) (up_ready p) (backlog p) (plugin_rx p ++ [f])
        (up_tx p) (up_rx p) (plugin_tx p)
  end.

(** A socket leaves the open state by itself: the peer or the network
    closed it. *)
Definition peer_closes (upstream_side final : bool) (p : pair) : pair :=
  let ready := if final then CLOSED else CLOSING in
  Pair (if upstream_side then plugin_ready p else ready)
    (if upstream_side then ready else up_ready p) (backlog p)
    (plugin_rx p) (up_tx p) (up_rx p) (plugin_tx p).

(** The handlers, with what the sockets guarantee of their events: they come
    from a pair that exists, and [open] comes when connecting ends. *)
Definition on_event (e : route_event) (s : route_state) : option route_state :=
  let guarded i (k : route_state) := if bool_decide (i < length (pairs s))%nat then Some k else None in
  match e with
  | Upgrade origin => Some (if verifyClient origin then on_connection s else s)
  | UpOpen i =>
      if bool_decide (up_ready <$> pairs s !! i = Some CONNECTING) then Some (on_up_open i s)
      else None
  | UpMessage i f => guarded i (update i (on_up_message f) s)
  | UpError i m => guarded i (closePair i (js "upstream error: " ++ m) s)
  | UpClose i => guarded i (closePair i (js "upstream closed") s)
  | PluginMessage i f => guarded i (update i (on_plugin_message f) s)
  | PluginError i m => guarded i (closePair i (js "plugin error: " ++ m) s)
  | PluginClose i => guarded i (closePair i (js "plugin disconnected") s)
  | PeerCloses i u b => guarded i (update i (peer_closes u b) s)
  end.

Inductive route_step : route_state -> route_state -> Prop :=
| RouteStep e s s' : on_event e s = Some s' -> route_step s s'.

Definition route_reachable (s : route_state) : Prop := rtc route_step route_init s.
End Route.

(** The plain HTTP handler: status, content type, body. *)
Definition on_http_request : Z * jstr * jstr :=
  (426, js "text/plain", js "this endpoint speaks WebSocket only" ++ [LF]).

(** * The process *)

Definition USAGE : jstr :=
  js "atoll-plugin-bridge " ++ [8212] ++ join [LF] [
    js " forward local browser plugins to remote atoll adapters";
    [];
    js "  atoll-plugin-bridge --map <local-host:port>=<ws-url> [--map ...]";
    [];
    js "  --map    Required, repeatable. One route: where this bridge listens for a";
    js "           plugin, and where it forwards to. Give one --map per adapter.";
    [];
    js "             --map 127.0.0.1:8090=ws://100.64.0.7:8090/device   # xhs";
    js "             --map 127.0.0.1:8091=ws://100.64.0.7:8091/device   # kimi";
    [];
    js "           LEFT is the port your plugin already dials " ++ [8212] ++ js " the plugin decides it,";
    js "           so it does not change. RIGHT is where that adapter is listening; ask";
    js "           the adapter itself with xhs.listen.get / kimi.listen.get and use the";
    js "           address it reports. The two sides are unrelated: the ports need not";
    js "           match, and nothing here can guess one from the other.";
    [];
    js "           The local side must be a loopback address, because this endpoint is";
    js "           keyless " ++ [8212] ++ js " exactly like the adapter's.";
    [];
    js "  --quiet  Only report errors.";
    js "  --help   Print this.";
    []].

(** How [main] leaves its synchronous part: exited with a status and text on
    the error output, the usage printed, or the routes started. *)
Inductive launch :=
| Exits (status : Z) (err : jstr)
| Prints (out : jstr)
| Starts (quiet_ : bool) (routes : list route).

(** The loop over [seen]: the first address met twice. *)
Fixpoint find_duplicate (seen : list jstr) (rs : list route) : option jstr :=
  match rs with
  | [] => None
  | r :: rest =>
      let a := addr (listen r) in
      if bool_decide (a ∈ seen) then Some a else find_duplicate (seen ++ [a]) rest
  end.

Definition duplicate_map (a : jstr) : jstr :=
  a ++ js " appears in more than one --map; each local address can forward to exactly one adapter".

Definition main (new_URL : jstr -> option URL) (argv : list jstr) : launch :=
  match parseArgs argv with
  | Throw e => Exits 2 (e ++ [LF; LF] ++ USAGE)
  | Ok a =>
      if help a then Prints USAGE
      else match maps a with
      | [] => Exits 2 (js "at least one --map is required" ++ [LF; LF] ++ USAGE)
      | _ =>
          match map_throw (parseMap new_URL) (maps a) with
          | Throw e => Exits 2 (e ++ [LF])
          | Ok routes =>
              match find_duplicate [] routes with
              | Some d => Exits 2 (duplicate_map d ++ [LF])
              | None => Starts (quiet a) routes
              end
          end
      end
  end.

(** ** Running *)

(** One route of the running process: its sockets, and whether its server has
    called back from [listen]. *)
Record running := Running { conf : route; sockets : route_state; bound : bool }.

Record process := Process {
  loud : bool;                  (* not [--quiet] *)
  routes : list running;
  pending : Z;
  out_lines : list log_line;    (* what [log] was called with, when loud *)
  errors : jstr;                (* what [onFatal] wrote *)
  exited : option Z
}.

Definition start (q : bool) (rs : list route) : process :=
  Process (negb q) (map (fun r => Running r route_init false) rs)
    (Z.of_nat (length rs)) [] [] None.

Inductive process_event :=
| OnRoute (k : nat) (e : route_event)
| Bound (k : nat)                                   (* the callback of [server.listen] *)
| Failed (k : nat) (code message : jstr)            (* [error] of a server *)
| Signal.                                           (* SIGINT or SIGTERM *)

Definition in_use (r : route) : jstr :=
  addr (listen r) ++ js " is already in use." ++ [LF] ++
  js "If an atoll adapter is already running here, your plugin can reach it directly and you do not need this route." ++ [LF] ++
  js "Drop --map " ++ spec r ++
  js ", or give it a free local port and point the plugin at that instead." ++ [LF].

Definition onFatal (r : route) (code message : jstr) : Z * jstr :=
  if streq code (js "EADDRINUSE") then (3, in_use r)
  else (1, addr (listen r) ++ js ": " ++ message ++ [LF]).

Section Process.
Context `{WebSocketLib}.

Definition emit (p : process) (l : list log_line) : list log_line :=
  if loud p then out_lines p ++ l else out_lines p.

(** The callback: the route's own line, then [onListening]. *)
Definition on_bound (k : nat) (r : running) (p : process) : process :=
  let n := pending p - 1 in
  Process (loud p) (<[k := Running (conf r) (sockets r) true]> (routes p)) n
    (emit p (LListening (addr (listen (conf r))) (upstream (conf r)) ::
             (if n =? 0 then [LReady (length (routes p))] else [])))
    (errors p) (exited p).

(** A socket event of route [k]; what the handler logged is printed. *)
Definition on_route (k : nat) (r : running) (s : route_state) (p : process) : process :=
  Process (loud p) (<[k := Running (conf r) s (bound r)]> (routes p)) (pending p)
    (emit p (drop (length (lines (sockets r))) (lines s))) (errors p) (exited p).

Definition process_event_step (e : process_event) (p : process) : option process :=
  match exited p with
  | Some _ => None
  | None =>
      match e with
      | OnRoute k re =>
          r ← routes p !! k;
          s ← on_event (conf r) re (sockets r);
          if bound r then Some (on_route k r s p) else None
      | Bound k =>
          r ← routes p !! k;
          if bound r then None else Some (on_bound k r p)
      | Failed k code message =>
          r ← routes p !! k;
          let '(status, err) := onFatal (conf r) code message in
          Some (Process (loud p) (routes p) (pending p) (out_lines p) (errors p ++ err)
                  (Some status))
      | Signal =>
          Some (Process (loud p) (routes p) (pending p) (emit p [LStopping]) (errors p) (Some 0))
      end
  end.

Inductive process_step : process -> process -> Prop :=
| ProcessStep e p p' : process_event_step e p = Some p' -> process_step p p'.
End Process.

(** * Addresses and routes *)

(** Decimal numerals of the four octets. *)
Definition octet (n : Z) : Prop := 0 <= n <= 255.
Definition dotted (a b c d : Z) : jstr := join (js ".") (map num_str [a; b; c; d]).

(** What the bridge may listen on. *)
Definition loopback (h : jstr) : Prop :=
  h = js "localhost" \/ h = js "::1" \/ h = js "0:0:0:0:0:0:0:1" \/
  exists b c d, octet b /\ octet c /\ octet d /\ h = dotted 127 b c d.

Lemma is_digit_elem c : is_digit c = true -> c ∈ seqZ 48 10.
Proof. unfold is_digit. intros H. bool_to_prop. apply elem_of_seqZ. lia. Qed.

Definition octet_numeral (t : jstr) : bool :=
  let n := digits_value t in (0 <=? n) && (n <=? 255) && streq t (num_str n).

(** By evaluation on the digits. *)
Lemma v4_segment_numerals :
  forallb (fun a => forallb (fun b => forallb (fun c =>
    forallb (fun t => implb (v4_segment t) (octet_numeral t))
      [[a]; [a; b]; [a; b; c]]) (seqZ 48 10)) (seqZ 48 10)) (seqZ 48 10) = true.
Proof. vm_compute. reflexivity. Qed.

Lemma v4_segment_octet s : v4_segment s = true -> exists n, octet n /\ s = num_str n.
Proof.
  assert (forall a b c t, is_digit a = true -> is_digit b = true -> is_digit c = true ->
    In t [[a]; [a; b]; [a; b; c]] -> v4_segment t = true -> exists n, octet n /\ t = num_str n)
    as Huse.
  { intros a b c t Ha Hb Hc Ht Hv. pose proof v4_segment_numerals as Hall.
    rewrite forallb_forall in Hall.
    specialize (Hall a (proj1 (list_elem_of_In _ _) (is_digit_elem a Ha))).
    rewrite forallb_forall in Hall.
    specialize (Hall b (proj1 (list_elem_of_In _ _) (is_digit_elem b Hb))).
    rewrite forallb_forall in Hall.
    specialize (Hall c (proj1 (list_elem_of_In _ _) (is_digit_elem c Hc))).
    rewrite forallb_forall in Hall. specialize (Hall t Ht). rewrite Hv in Hall.
    exists (digits_value t). unfold octet_numeral in Hall. simpl in Hall.
    apply andb_true_iff in Hall as [Hr He]. bool_to_prop. split; [by split|].
    by apply streq_true. }
  destruct s as [|a [|b [|c [|]]]]; intros Hv; try discriminate.
  - apply (Huse a 48 48); [exact Hv|reflexivity|reflexivity|simpl; tauto|exact Hv].
  - apply (Huse a b 48); [..|simpl; tauto|exact Hv]; simpl in Hv; bool_to_prop; try done.
    unfold is_digit. apply andb_true_iff. split; apply Z.leb_le; lia.
  - apply (Huse a b c); [..|simpl; tauto|exact Hv]; simpl in Hv;
      apply andb_true_iff in Hv as [Hv Ha]; bool_to_prop; try done.
    unfold is_digit. apply andb_true_iff.
    destruct Ha as [Ha|Ha]; bool_to_prop; split; apply Z.leb_le; lia.
Qed.

Lemma octet_segments : forallb (fun n => v4_segment (num_str n)) (seqZ 0 256) = true.
Proof. vm_compute. reflexivity. Qed.

Lemma num_str_octet_segment n : octet n -> v4_segment (num_str n) = true.
Proof.
  intros Hn. pose proof octet_segments as Hall. rewrite forallb_forall in Hall.
  apply (Hall n), list_elem_of_In, elem_of_seqZ. unfold octet in Hn. lia.
Qed.

Lemma isIPv4_dotted s :
  isIPv4 s = true <-> exists a b c d, octet a /\ octet b /\ octet c /\ octet d /\ s = dotted a b c d.
Proof.
  unfold isIPv4. split.
  - intros H. apply andb_true_iff in H as [Hl HF]. apply Nat.eqb_eq in Hl.
    pose proof (join_split 46 s) as Hj.
    destruct (split_char 46 s) as [|x1 [|x2 [|x3 [|x4 [|]]]]]; try discriminate.
    rewrite forallb_forall in HF.
    assert (forall x, In x [x1; x2; x3; x4] -> exists n, octet n /\ x = num_str n) as Ho.
    { intros x Hx. by apply v4_segment_octet, HF. }
    destruct (Ho x1) as (a & Ha & ->), (Ho x2) as (b & Hb & ->), (Ho x3) as (c & Hc & ->),
      (Ho x4) as (d & Hd & ->); [simpl; tauto..|].
    exists a, b, c, d. by rewrite <- Hj.
  - intros (a & b & c & d & Ha & Hb & Hc & Hd & ->). unfold dotted.
    change (js ".") with [46]. rewrite split_join; [|done|].
    + simpl. by rewrite !num_str_octet_segment.
    + unfold octet in *. repeat constructor; apply num_str_no; try done; lia.
Qed.

Lemma dotted_starts a b c d :
  octet a -> starts_with (js "127.") (dotted a b c d) = true -> a = 127.
Proof.
  intros Ha Hs. apply starts_with_spec in Hs as [r Hr].
  unfold dotted in Hr. simpl map in Hr. rewrite join_cons in Hr by done.
  apply (f_equal (split_char 46)) in Hr. change (js ".") with [46] in Hr.
  cbn [app] in Hr. rewrite split_app_sep in Hr by (apply num_str_no; [unfold octet in Ha; lia|done]).
  change (js "127." ++ r) with (js "127" ++ 46 :: r) in Hr.
  rewrite split_app_sep in Hr by (vm_compute; set_solver).
  injection Hr as Hr _. apply num_str_inj_nonneg; [unfold octet in Ha; lia|lia|]. by rewrite Hr.
Qed.

Lemma loopback_host_spec h : loopback_host h = true <-> loopback h.
Proof.
  unfold loopback_host, loopback, isIP. split.
  - intros H. apply orb_true_iff in H as [H|H]; [apply orb_true_iff in H as [H|H]|].
    + left. by apply streq_true.
    + apply andb_true_iff in H as [H Hs]. destruct (isIPv4 h) eqn:H4.
      * apply isIPv4_dotted in H4 as (a & b & c & d & Ha & Hb & Hc & Hd & ->).
        apply dotted_starts in Hs as ->; [|done]. right; right; right. eauto 10.
      * destruct (isIPv6 h); discriminate.
    + apply andb_true_iff in H as [_ H]. apply orb_true_iff in H as [H|H];
        apply streq_true in H; auto.
  - intros [->|[->|[->|(b & c & d & Hb & Hc & Hd & ->)]]]; [vm_compute; reflexivity..|].
    assert (isIPv4 (dotted 127 b c d) = true) as H4.
    { apply isIPv4_dotted. exists 127, b, c, d. unfold octet in *. repeat split; try done; lia. }
    rewrite H4. apply orb_true_iff. left. apply orb_true_iff. right.
    apply andb_true_iff. split; [done|].
    unfold dotted. simpl map. rewrite join_cons by done. apply starts_with_spec.
    by exists (join (js ".") [num_str b; num_str c; num_str d]).
Qed.

Lemma valid_port_range n p : valid_port n = Some p -> 0 <= p <= 65535.
Proof.
  unfold valid_port. destruct n as [| |q]; try done.
  destruct (_ && _) eqn:E; [|done]. intros [= <-]. bool_to_prop. lia.
Qed.

Lemma checkListen_ok a l :
  checkListen a = Ok l -> addr l = a /\ loopback (host l) /\ 0 <= port l <= 65535.
Proof.
  unfold checkListen. destruct (last_index_of 58 a) as [[|i]|]; try done.
  destruct (valid_port _) as [p|] eqn:Hp; [|done].
  destruct (_ || _); [done|].
  destruct (negb (loopback_host _)) eqn:Hl; [done|]. intros [= <-]. simpl.
  apply negb_false_iff in Hl. rewrite <- loopback_host_spec. eauto using valid_port_range.
Qed.

(** A route as the operator is promised it: a loopback listener on a port, a
    WebSocket upstream, and the two sides of the first [=] of its [--map]. *)
Definition route_ok (new_URL : jstr -> option URL) (r : route) : Prop :=
  loopback (host (listen r)) /\ 0 <= port (listen r) <= 65535 /\
  exists raw url,
    spec r = addr (listen r) ++ js "=" ++ raw /\ (61 ∉ addr (listen r)) /\
    new_URL raw = Some url /\ upstream r = href url /\
    (protocol url = js "ws:" \/ protocol url = js "wss:").

Lemma index_of_unit c s i :
  index_of [c] s = Some i -> s = take i s ++ [c] ++ drop (S i) s /\ c ∉ take i s.
Proof.
  revert i; induction s as [|x s IH]; intros i; simpl; [done|].
  rewrite andb_true_r. destruct (Z.eqb_spec c x) as [->|Hne].
  - intros [= <-]. split; [done|]. simpl. apply not_elem_of_nil.
  - destruct (index_of [c] s) as [j|] eqn:E; [|done]. intros [= <-].
    destruct (IH j eq_refl) as [Heq Hn]. simpl. split; [by f_equal|]. set_solver.
Qed.

Lemma checkUpstream_ok new_URL raw u :
  checkUpstream new_URL raw = Ok u ->
  exists url, new_URL raw = Some url /\ u = href url /\
    (protocol url = js "ws:" \/ protocol url = js "wss:").
Proof.
  unfold checkUpstream. destruct (new_URL raw) as [url|]; [|done].
  destruct (streq (protocol url) (js "ws:")) eqn:E1;
    [|destruct (streq (protocol url) (js "wss:")) eqn:E2]; simpl; try done;
    intros [= <-]; apply streq_true in E1 || apply streq_true in E2; eauto 10.
Qed.

Lemma parseMap_ok new_URL s r : parseMap new_URL s = Ok r -> spec r = s /\ route_ok new_URL r.
Proof.
  unfold parseMap. destruct (index_of (js "=") s) as [[|i]|] eqn:Hi; try done.
  apply index_of_unit in Hi as [Hs Hn].
  destruct (checkListen _) as [l|] eqn:Hl; [|done]. cbn [bind].
  destruct (checkUpstream _ _) as [u|] eqn:Hu; [|done]. cbn [bind]. intros [= <-].
  apply checkListen_ok in Hl as (Ha & Hlo & Hp).
  apply checkUpstream_ok in Hu as (url & Hurl & -> & Hpr).
  split; [done|]. split; [done|]. split; [done|]. simpl. rewrite Ha.
  exists (drop (S (S i)) s), url. by repeat split.
Qed.

Lemma find_duplicate_None seen rs :
  find_duplicate seen rs = None -> NoDup seen -> NoDup (seen ++ map (fun r => addr (listen r)) rs).
Proof.
  revert seen; induction rs as [|r rs IH]; intros seen; simpl; [by rewrite app_nil_r|].
  destruct (bool_decide _) eqn:E; [done|]. bool_to_prop. intros Hf Hs.
  apply IH in Hf; [by rewrite <- app_assoc in Hf|].
  apply NoDup_app. split; [done|]. split; [|apply NoDup_singleton]. set_solver.
Qed.

(** C8: the bridge starts routes only when every [--map] names a loopback
    address, a port in range and a [ws:] or [wss:] upstream, split at the first
    [=], with no local address given twice; there is at least one route, one
    per [--map] in the order given. *)
Theorem main_starts_checked new_URL argv q rs :
  main new_URL argv = Starts q rs ->
  exists a, parseArgs argv = Ok a /\ help a = false /\ q = quiet a /\
    map spec rs = maps a /\ rs ≠ [] /\ Forall (route_ok new_URL) rs /\
    NoDup (map (fun r => addr (listen r)) rs).
Proof.
  unfold main. destruct (parseArgs argv) as [a|]; [|done].
  destruct (help a) eqn:Hh; [done|].
  destruct (maps a) as [|m ms] eqn:Hm; [done|]. rewrite <- Hm.
  destruct (map_throw _ _) as [routes|] eqn:Hr; [|done].
  destruct (find_duplicate [] routes) eqn:Hd; [done|]. intros [= <- <-].
  apply map_throw_Ok in Hr.
  assert (map spec routes = maps a /\ Forall (route_ok new_URL) routes) as [Hs HF].
  { clear Hd Hm. induction Hr as [|s r ss rs' H1 Hr [IH1 IH2]]; [by split|].
    apply parseMap_ok in H1 as [Hsp Hok]. split; [simpl; congruence|by constructor]. }
  exists a. repeat split; try done.
  - intros ->. by rewrite Hm in Hs.
  - apply (find_duplicate_None [] routes); [done|constructor].
Qed.

(** A toy URL parser for examples: a scheme up to the first colon. *)
Definition scheme_URL (raw : jstr) : option URL :=
  match index_of (js "://") raw with
  | Some i => Some (Url (take (S i) raw) raw)
  | None => None
  end.

Definition example_argv : list jstr :=
  [js "--map"; js "127.0.0.1:8090=ws://h/d?x=1"; js "--quiet"].
Definition example_route : route :=
  Route (ListenAddr (js "127.0.0.1") 8090 (js "127.0.0.1:8090"))
    (js "ws://h/d?x=1") (js "127.0.0.1:8090=ws://h/d?x=1").

Lemma main_starts_checked_witness :
  exists a, parseArgs example_argv = Ok a /\ help a = false /\ true = quiet a /\
    map spec [example_route] = maps a /\ [example_route] ≠ [] /\
    Forall (route_ok scheme_URL) [example_route] /\
    NoDup (map (fun r => addr (listen r)) [example_route]).
Proof.
  apply (main_starts_checked scheme_URL example_argv true [example_route]).
  vm_compute. reflexivity.
Defined.

(** ** Every well-formed route is accepted *)

Lemma last_index_of_last c s t : c ∉ t -> last_index_of c (s ++ [c] ++ t) = Some (length s).
Proof.
  intros Ht. assert (last_index_of c t = None) as Hn.
  { induction t as [|x t IH]; simpl; [done|]. rewrite IH by set_solver.
    by rewrite (proj2 (Z.eqb_neq x c)) by set_solver. }
  induction s as [|x s IH]; simpl.
  - by rewrite Hn, Z.eqb_refl.
  - simpl in IH. by rewrite IH.
Qed.

Lemma index_of_notin_unit c s t : c ∉ s -> index_of [c] (s ++ [c] ++ t) = Some (length s).
Proof.
  induction s as [|x s IH]; intros Hs; simpl.
  - by rewrite Z.eqb_refl.
  - rewrite andb_true_r, (proj2 (Z.eqb_neq c x)) by set_solver.
    simpl in IH. by rewrite IH by set_solver.
Qed.

(** How an operator writes a loopback host: an IPv6 one in brackets. *)
Definition written_host (h : jstr) : jstr :=
  if includes (js ":") h then js "[" ++ h ++ js "]" else h.

Lemma dotted_units b c d :
  octet b -> octet c -> octet d -> Forall (fun x => is_digit x = true \/ x = 46) (dotted 127 b c d).
Proof.
  unfold octet. intros Hb Hc Hd.
  assert (forall n, 0 <= n -> Forall (fun x => is_digit x = true \/ x = 46) (num_str n)) as Hn.
  { intros n Hn. destruct (num_str_digits n Hn) as (HF & _).
    eapply Forall_impl; [exact HF|]. simpl. auto. }
  unfold dotted. change (js ".") with [46]. cbn [map join app].
  do 3 (apply Forall_app; split; [apply Hn; lia|constructor; [by right|]]). apply Hn; lia.
Qed.

Lemma strip_written h : loopback h -> strip_brackets (written_host h) = h /\ h ≠ [] /\
  h ≠ js "0.0.0.0" /\ h ≠ js "::" /\ 61 ∉ written_host h.
Proof.
  assert (forall k : jstr, bool_decide ((61 ∉ written_host k) /\
    strip_brackets (written_host k) = k /\ k ≠ [] /\ k ≠ js "0.0.0.0" /\ k ≠ js "::") = true ->
    strip_brackets (written_host k) = k /\ k ≠ [] /\
    k ≠ js "0.0.0.0" /\ k ≠ js "::" /\ 61 ∉ written_host k) as Hk.
  { intros k Hk. apply bool_decide_eq_true in Hk. tauto. }
  intros [->|[->|[->|(b & c & d & Hb & Hc & Hd & ->)]]];
    [apply Hk; vm_compute; reflexivity..|clear Hk].
  pose proof (dotted_units b c d Hb Hc Hd) as HF.
  assert (includes (js ":") (dotted 127 b c d) = false) as Hi.
  { destruct (includes _ _) eqn:E; [|done]. apply includes_spec in E as (x & y & E).
    rewrite E in HF. apply Forall_app in HF as [_ HF]. inversion HF as [|? ? Hx]; subst.
    destruct Hx; discriminate. }
  assert (exists t, dotted 127 b c d = 49 :: t) as [t Ht] by (by eexists).
  unfold written_host. rewrite Hi. split; [|split; [|split; [|split]]].
  - unfold strip_brackets. rewrite Ht in *. simpl.
    destruct (last (49 :: t)) as [z|] eqn:El; [|done].
    apply last_Some in El as [l' El]. rewrite El in HF. apply Forall_app in HF as [_ HF].
    inversion HF as [|? ? Hz]; subst. unfold is_digit in Hz.
    repeat case_match; try done. destruct Hz as [Hz|Hz]; [bool_to_prop; lia|lia].
  - by rewrite Ht.
  - rewrite Ht. discriminate.
  - rewrite Ht. discriminate.
  - intros Hin. rewrite Forall_forall in HF. destruct (HF _ Hin); discriminate.
Qed.

Lemma valid_port_int p : 0 <= p <= 65535 -> valid_port (Finite (inject_Z p)) = Some p.
Proof.
  intros Hp. unfold valid_port, isInteger, floor, inject_Z, Qfloor. simpl.
  rewrite Z.mod_1_r, Z.div_1_r. simpl.
  by rewrite (proj2 (Z.leb_le 0 p)), (proj2 (Z.leb_le p 65535)) by lia.
Qed.

Lemma checkListen_complete h p :
  loopback h -> 0 <= p <= 65535 ->
  checkListen (written_host h ++ js ":" ++ num_str p) =
  Ok (ListenAddr h p (written_host h ++ js ":" ++ num_str p)).
Proof.
  intros Hh Hp. destruct (strip_written h Hh) as (Hs & H1 & H2 & H3 & _).
  unfold checkListen. change (js ":") with [58].
  rewrite last_index_of_last by (apply num_str_no; [lia|done]).
  destruct (length (written_host h)) as [|n] eqn:El.
  { destruct (written_host h) as [|]; [|done]. vm_compute in Hs. done. }
  rewrite <- El, take_app_length.
  replace (drop _ _) with (num_str p)
    by (rewrite app_assoc, drop_app_length'; [done|rewrite length_app; simpl; lia]).
  rewrite Number_num_str by lia. rewrite valid_port_int, Hs by done.
  rewrite (proj2 (streq_false h [])), (proj2 (streq_false h (js "0.0.0.0"))),
    (proj2 (streq_false h (js "::"))) by done. simpl.
  by rewrite (proj2 (loopback_host_spec h)).
Qed.

(** every route an operator may write is accepted and read back as
    written: for a loopback host, a port of 0 to 65535 and an upstream text the
    URL parser accepts as [ws:] or [wss:] (whatever [=] it contains), [parseMap]
    returns exactly that host, that port and that URL. *)
Theorem parseMap_complete new_URL h p raw url :
  loopback h -> 0 <= p <= 65535 -> new_URL raw = Some url ->
  protocol url = js "ws:" \/ protocol url = js "wss:" ->
  let a := written_host h ++ js ":" ++ num_str p in
  parseMap new_URL (a ++ js "=" ++ raw) =
  Ok (Route (ListenAddr h p a) (href url) (a ++ js "=" ++ raw)).
Proof.
  intros Hh Hp Hu Hpr a. unfold parseMap. change (js "=") with [61].
  assert (61 ∉ a) as Ha.
  { destruct (strip_written h Hh) as (_ & _ & _ & _ & H1). unfold a.
    rewrite !elem_of_app. intros [H|[H|H]]; [done|apply list_elem_of_singleton in H; discriminate|].
    by apply num_str_no in H; [|lia|]. }
  rewrite index_of_notin_unit by done.
  assert (exists n, length a = S n) as [n Hn].
  { unfold a. rewrite !length_app. simpl. eexists. by rewrite Nat.add_succ_r. }
  rewrite Hn, <- Hn, take_app_length. unfold a at 1. rewrite checkListen_complete by done.
  cbn [bind].
  replace (drop _ _) with raw
    by (rewrite app_assoc, drop_app_length'; [done|rewrite length_app; simpl; lia]).
  unfold checkUpstream. rewrite Hu.
  by destruct Hpr as [->| ->].
Qed.

Lemma parseMap_complete_witness :
  let a := written_host (js "::1") ++ js ":" ++ num_str 8090 in
  parseMap scheme_URL (a ++ js "=" ++ js "wss://h/d?x=1") =
  Ok (Route (ListenAddr (js "::1") 8090 a) (js "wss://h/d?x=1") (a ++ js "=" ++ js "wss://h/d?x=1")).
Proof.
  apply (parseMap_complete scheme_URL (js "::1") 8090 (js "wss://h/d?x=1")
    (Url (js "wss:") (js "wss://h/d?x=1"))); [|lia|reflexivity|by right].
  right. left. reflexivity.
Defined.

(** * The slot and the wires of a route *)

(** What holds of one pair whatever its sockets do. *)
Record wires_ok (p : pair) : Prop := WiresOk {
  w_forward : map data (up_tx p) `prefix_of` map data (plugin_rx p);
  w_open : up_ready p = OPEN -> backlog p = [] /\ map data (up_tx p) = map data (plugin_rx p);
  w_connecting : up_ready p = CONNECTING -> up_tx p = [] /\ backlog p = map data (plugin_rx p);
  w_back : plugin_tx p `prefix_of` up_rx p;
  w_back_open : plugin_ready p = OPEN -> plugin_tx p = up_rx p
}.

Record route_inv (s : route_state) : Prop := RouteInv {
  inv_newest : forall i, current s = Some i -> S i = length (pairs s);
  inv_slot : forall j p, pairs s !! j = Some p -> plugin_ready p = OPEN -> current s = Some j;
  inv_wires : Forall wires_ok (pairs s)
}.

Section RouteFacts.
Context `{WebSocketLib} (r : route).

Lemma ws_close_not_open x : ws_close x ≠ OPEN /\ ws_close x ≠ CONNECTING.
Proof. destruct (ws_close_ends x) as [-> | ->]; done. Qed.

Lemma close_plugin_wires p : wires_ok p -> wires_ok (close_plugin p).
Proof.
  intros [? ? ? ? ?]. split; simpl; try done.
  intros E. by destruct (ws_close_not_open (plugin_ready p)).
Qed.

Lemma close_up_wires p : wires_ok p -> wires_ok (close_up p).
Proof.
  intros [? ? ? ? ?]. split; simpl; try done;
    intros E; by destruct (ws_close_not_open (up_ready p)).
Qed.

Lemma peer_closes_wires u b p : wires_ok p -> wires_ok (peer_closes u b p).
Proof. intros [? ? ? ? ?]. destruct u, b; split; simpl; done. Qed.

Lemma on_up_message_wires f p : wires_ok p -> wires_ok (on_up_message f p).
Proof.
  intros [? ? ? Hb Hbo]. split; simpl; try done.
  - case_bool_decide as E.
    + by rewrite (Hbo E).
    + by apply prefix_app_r.
  - intros E. rewrite bool_decide_true by done. by rewrite (Hbo E).
Qed.

Lemma on_plugin_message_wires f p : wires_ok p -> wires_ok (on_plugin_message f p).
Proof.
  intros [Hf Ho Hc Hb Hbo]. unfold on_plugin_message.
  destruct (up_ready p) eqn:E; split; simpl; try done; rewrite ?E, ?map_app; try done.
  - by apply prefix_app_r.
  - intros _. destruct Hc as [-> ->]; done.
  - destruct Ho as [_ ->]; done.
  - intros _. destruct Ho as [-> ->]; done.
  - by apply prefix_app_r.
  - by apply prefix_app_r.
Qed.

Lemma on_up_open_wires p :
  wires_ok p -> up_ready p = CONNECTING ->
  wires_ok (Pair (plugin_ready p) OPEN [] (plugin_rx p)
              (up_tx p ++ map flush_frame (backlog p)) (up_rx p) (plugin_tx p)).
Proof.
  intros [Hf Ho Hc Hb Hbo] E. destruct (Hc E) as [Ht Hk].
  assert (map data (up_tx p ++ map flush_frame (backlog p)) = map data (plugin_rx p)) as Heq.
  { rewrite Ht, <- Hk. simpl. rewrite map_map. apply map_id. }
  split; simpl; try done. by rewrite Heq.
Qed.

(** Updating one pair without opening its plugin socket keeps the invariant. *)
Lemma update_inv i f s :
  route_inv s ->
  (forall p, pairs s !! i = Some p -> wires_ok p -> wires_ok (f p)) ->
  (forall p, plugin_ready (f p) = OPEN -> plugin_ready p = OPEN) ->
  route_inv (update i f s).
Proof.
  intros [Hn Hs Hw] Hf Hr. split; simpl.
  - intros j Hj. rewrite length_alter. auto.
  - intros j p Hl Ho. destruct (decide (i = j)) as [->|Hne].
    + rewrite list_lookup_alter_eq in Hl. destruct (pairs s !! j) as [q|] eqn:E; [|done].
      injection Hl as <-. eauto.
    + rewrite list_lookup_alter_ne in Hl by done. eauto.
  - apply Forall_lookup. intros j p Hl. rewrite Forall_lookup in Hw.
    destruct (decide (i = j)) as [->|Hne].
    + rewrite list_lookup_alter_eq in Hl. destruct (pairs s !! j) as [q|] eqn:E; [|done].
      injection Hl as <-. eauto.
    + rewrite list_lookup_alter_ne in Hl by done. eauto.
Qed.

Lemma log_inv l s : route_inv s -> route_inv (log l s).
Proof. by intros [? ? ?]; split. Qed.

Lemma on_connection_inv s : route_inv s -> route_inv (on_connection r s).
Proof.
  intros Hi. unfold on_connection.
  assert (exists s', route_inv s' /\ (forall j p, pairs s' !! j = Some p -> plugin_ready p ≠ OPEN) /\
    match current s with
    | Some c => update c close_plugin (log (LDropping (addr (listen r))) s)
    | None => s
    end = s') as (s' & Hi' & Hno & ->).
  { eexists. split; [|split; [|reflexivity]].
    - destruct (current s) as [c|]; [|done].
      apply update_inv; [by apply log_inv|by intros; apply close_plugin_wires|].
      simpl. intros p E. by destruct (ws_close_not_open (plugin_ready p)).
    - destruct (current s) as [c|] eqn:Ec.
      + intros j p Hl Ho. simpl in Hl. destruct (decide (c = j)) as [->|Hne].
        * rewrite list_lookup_alter_eq in Hl. destruct (pairs s !! j) as [q|]; [|done].
          injection Hl as <-. by destruct (ws_close_not_open (plugin_ready q)).
        * rewrite list_lookup_alter_ne in Hl by done.
          apply (inv_slot s Hi) in Hl; [congruence|done].
      + intros j p Hl Ho. apply (inv_slot s Hi) in Hl; [congruence|done]. }
  destruct Hi' as [Hn Hs Hw]. split; simpl.
  - intros i [= <-]. rewrite length_app. simpl. lia.
  - intros j p Hl Ho. apply lookup_app_Some in Hl as [Hl|[Hge Hl]].
    + by destruct (Hno j p Hl).
    + apply list_lookup_singleton_Some in Hl as [Hz <-]. f_equal. lia.
  - apply Forall_app. split; [done|]. constructor; [|constructor]. by split.
Qed.

Lemma closePair_inv i why s : route_inv s -> route_inv (closePair r i why s).
Proof.
  intros [Hn Hs Hw]. unfold closePair.
  set (s1 := if truthy why then _ else _).
  assert (pairs s1 = pairs s /\
    current s1 = if bool_decide (current s = Some i) then None else current s) as [Hp Hc]
    by (unfold s1; by destruct (truthy why)).
  split; simpl; rewrite ?Hp, ?Hc, ?length_alter.
  - intros j. case_bool_decide; [done|]. auto.
  - intros j p Hl Ho. destruct (decide (i = j)) as [->|Hne].
    + rewrite list_lookup_alter_eq in Hl. destruct (pairs s !! j) as [q|]; [|done].
      injection Hl as <-. by destruct (ws_close_not_open (plugin_ready q)).
    + rewrite list_lookup_alter_ne in Hl by done. rewrite (Hs j p Hl Ho).
      by rewrite bool_decide_false by congruence.
  - apply Forall_lookup. intros j p Hl. rewrite Forall_lookup in Hw.
    destruct (decide (i = j)) as [->|Hne].
    + rewrite list_lookup_alter_eq in Hl. destruct (pairs s !! j) as [q|] eqn:E; [|done].
      injection Hl as <-. eauto using close_up_wires, close_plugin_wires.
    + rewrite list_lookup_alter_ne in Hl by done. eauto.
Qed.

Lemma on_event_inv e s s' : on_event r e s = Some s' -> route_inv s -> route_inv s'.
Proof.
  intros He Hi. destruct e; simpl in He; try (destruct (bool_decide _) eqn:Eg; [|done]);
    injection He as <-; try by apply closePair_inv.
  - destruct (verifyClient _); [by apply on_connection_inv|done].
  - apply bool_decide_eq_true in Eg.
    apply update_inv; [by apply log_inv| |done]. simpl. intros p Hl Hw.
    rewrite Hl in Eg. injection Eg as Eg. by apply on_up_open_wires.
  - apply update_inv; [done|by intros; apply on_up_message_wires|done].
  - apply update_inv; [done|by intros; apply on_plugin_message_wires|].
    intros p. unfold on_plugin_message. by destruct (up_ready p).
  - apply update_inv; [done|by intros; apply peer_closes_wires|].
    intros p. by destruct upstream_side, final.
Qed.

Lemma route_init_inv : route_inv route_init.
Proof. split; simpl; try done. Qed.

Lemma reachable_inv s : route_reachable r s -> route_inv s.
Proof.
  intros Hr. unfold route_reachable in Hr. pose proof route_init_inv as Hi.
  induction Hr as [|x y z [e ? ? Hs] Hr IH]; [done|].
  apply IH. by eapply on_event_inv.
Qed.
End RouteFacts.

(** C7: one plugin per route, and the newest wins.  In every state a route
    can reach, the slot is empty or holds the pair that connected last, and the
    only plugin socket that can be open is that pair's: a displaced or ended
    plugin is never served again. *)
Theorem route_single_slot `{WebSocketLib} r s :
  route_reachable r s ->
  (forall i, current s = Some i -> S i = length (pairs s)) /\
  (forall j p, pairs s !! j = Some p -> plugin_ready p = OPEN -> current s = Some j).
Proof. intros Hr. by destruct (reachable_inv r s Hr). Qed.

(** C3: nothing is lost, duplicated or reordered.  For every pair of every
    reachable state, the payloads sent upstream are a prefix of those received
    from the plugin and all of them while the upstream socket is open, those
    received while it is still connecting wait in the backlog in order, and the
    frames sent to the plugin are those received from upstream, all of them
    while the plugin socket is open. *)
Theorem route_forwards_in_order `{WebSocketLib} r s i p :
  route_reachable r s -> pairs s !! i = Some p ->
  map data (up_tx p) `prefix_of` map data (plugin_rx p) /\
  (up_ready p = OPEN -> map data (up_tx p) = map data (plugin_rx p)) /\
  (up_ready p = CONNECTING -> up_tx p = [] /\ backlog p = map data (plugin_rx p)) /\
  plugin_tx p `prefix_of` up_rx p /\
  (plugin_ready p = OPEN -> plugin_tx p = up_rx p).
Proof.
  intros Hr Hl. destruct (reachable_inv r s Hr) as [_ _ Hw].
  rewrite Forall_lookup in Hw. destruct (Hw i p Hl) as [? Ho ? ? ?].
  refine (conj _ (conj _ (conj _ (conj _ _)))); try done. intros E. by apply Ho.
Qed.

(** The [ws] package closes a socket that is not closed yet. *)
Definition documented_close (r : readyState) : readyState :=
  match r with CLOSED => CLOSED | _ => CLOSING end.

Lemma documented_close_ends r : documented_close r = CLOSING \/ documented_close r = CLOSED.
Proof. destruct r; auto. Qed.

#[export] Instance ws_documented : WebSocketLib :=
  {| ws_close := documented_close; ws_close_ends := documented_close_ends |}.

Fixpoint route_run (r : route) (es : list route_event) (s : route_state) : option route_state :=
  match es with
  | [] => Some s
  | e :: rest => s' ← on_event r e s; route_run r rest s'
  end.

Lemma route_run_rtc r es s s' : route_run r es s = Some s' -> rtc (route_step r) s s'.
Proof.
  revert s; induction es as [|e es IH]; intros s; simpl; [by intros [= <-]|].
  destruct (on_event r e s) as [s1|] eqn:E; [|done]. intros Hr.
  apply rtc_l with s1; [by apply (RouteStep r e)|by apply IH].
Qed.

(** Two plugins in turn, a frame before and one after the upstream opens. *)
Definition example_trace : list route_event :=
  [Upgrade None; PluginMessage 0 (Frame [1] false); UpOpen 0; PluginMessage 0 (Frame [2] false);
   UpMessage 0 (Frame [3] false); Upgrade (Some (js "chrome-extension://x")); UpOpen 1].

Definition example_state : route_state :=
  default route_init (route_run example_route example_trace route_init).

Lemma example_reachable : route_reachable example_route example_state.
Proof. apply (route_run_rtc _ example_trace). vm_compute. reflexivity. Qed.

Lemma route_single_slot_witness :
  (forall i, current example_state = Some i -> S i = length (pairs example_state)) /\
  (forall j p, pairs example_state !! j = Some p -> plugin_ready p = OPEN ->
     current example_state = Some j).
Proof. apply (route_single_slot example_route). apply example_reachable. Defined.

Definition example_pair : pair :=
  Pair CLOSING OPEN [] [Frame [1] false; Frame [2] false]
    [Frame [1] true; Frame [2] false] [Frame [3] false] [Frame [3] false].

Lemma route_forwards_in_order_witness :
  map data (up_tx example_pair) `prefix_of` map data (plugin_rx example_pair) /\
  (up_ready example_pair = OPEN ->
     map data (up_tx example_pair) = map data (plugin_rx example_pair)) /\
  (up_ready example_pair = CONNECTING ->
     up_tx example_pair = [] /\ backlog example_pair = map data (plugin_rx example_pair)) /\
  plugin_tx example_pair `prefix_of` up_rx example_pair /\
  (plugin_ready example_pair = OPEN -> plugin_tx example_pair = up_rx example_pair).
Proof.
  apply (route_forwards_in_order example_route example_state 0); [apply example_reachable|].
  vm_compute. reflexivity.
Defined.

(** A text frame that waited in the backlog goes out as a binary frame: the
    backlog keeps the payload and not the flag. *)
Example backlog_drops_text_flag :
  exists s p, route_reachable example_route s /\ pairs s !! O = Some p /\
    plugin_rx p = [Frame [104; 105] false] /\ up_tx p = [Frame [104; 105] true].
Proof.
  set (es := [Upgrade None; PluginMessage 0 (Frame [104; 105] false); UpOpen 0]).
  destruct (route_run example_route es route_init) as [s|] eqn:E; [|by vm_compute in E].
  exists s. eexists. split; [by apply (route_run_rtc _ es)|].
  vm_compute in E. injection E as <-. split; [reflexivity|]. by split.
Qed.

(** * The running process *)

Definition is_ready (l : log_line) : bool := match l with LReady _ => true | _ => false end.
Definition ready_lines (ls : list log_line) : nat := length (List.filter is_ready ls).
Definition unbound (rs : list running) : nat := length (List.filter (fun r => negb (bound r)) rs).

(** The configuration never changes, [pending] counts the routes that have not
    bound, every route is where its own events alone lead, and the ready line
    was printed exactly when the last route bound. *)
Record process_inv `{WebSocketLib} (q : bool) (rs : list route) (p : process) : Prop := ProcessInv {
  pi_conf : map conf (routes p) = rs;
  pi_loud : loud p = negb q;
  pi_pending : pending p = Z.of_nat (unbound (routes p));
  pi_routes : Forall (fun r => route_reachable (conf r) (sockets r)) (routes p);
  pi_ready : ready_lines (out_lines p) =
    if negb q && bool_decide (unbound (routes p) = O) then 1%nat else O
}.

Lemma ready_lines_app a b : ready_lines (a ++ b) = (ready_lines a + ready_lines b)%nat.
Proof. unfold ready_lines. by rewrite List.filter_app, length_app. Qed.

Lemma unbound_insert k r r' rs :
  rs !! k = Some r ->
  unbound rs = (unbound (<[k := r']> rs) + (if bound r then 0 else 1) - (if bound r' then 0 else 1))%nat /\
  ((if bound r' then 0 else 1) <= unbound (<[k := r']> rs))%nat.
Proof.
  unfold unbound. revert k; induction rs as [|x rs IH]; intros [|k]; simpl; try done.
  - intros [= ->]. destruct (bound r), (bound r'); simpl; lia.
  - intros Hk. destruct (IH k Hk) as [IH1 IH2].
    destruct (bound x); simpl; destruct (bound r), (bound r'); lia.
Qed.

Section ProcessFacts.
Context `{WebSocketLib}.

Lemma on_event_lines r e s s' :
  on_event r e s = Some s' -> exists l, lines s' = lines s ++ l /\ ready_lines l = O.
Proof.
  intros He. destruct e; simpl in He; try (destruct (bool_decide _); [|done]);
    injection He as <-; simpl; try (by exists []; rewrite app_nil_r).
  - destruct (verifyClient _); simpl; [|by exists []; rewrite app_nil_r].
    destruct (current s); simpl; [by eexists|by exists []; rewrite app_nil_r].
  - by eexists.
  - by eexists.
  - by eexists.
  - by eexists.
  - by eexists.
Qed.

Lemma map_conf_insert k r r' rs :
  rs !! k = Some r -> conf r' = conf r -> map conf (<[k := r']> rs) = map conf rs.
Proof.
  intros Hk Hc. change (map conf (<[k:=r']> rs)) with (conf <$> <[k:=r']> rs).
  rewrite list_fmap_insert, Hc. apply list_insert_id. by rewrite list_lookup_fmap, Hk.
Qed.

Lemma Forall_insert_reachable k r' rs :
  Forall (fun r => route_reachable (conf r) (sockets r)) rs ->
  route_reachable (conf r') (sockets r') ->
  Forall (fun r => route_reachable (conf r) (sockets r)) (<[k := r']> rs).
Proof. intros HF Hr. by apply Forall_insert. Qed.

Lemma on_route_inv q rs k r e s p :
  process_inv q rs p -> routes p !! k = Some r -> on_event (conf r) e (sockets r) = Some s ->
  process_inv q rs (on_route k r s p).
Proof.
  intros [Hc Hl Hp Hr Hd] Hk He. set (r' := Running (conf r) s (bound r)).
  assert (unbound (<[k := r']> (routes p)) = unbound (routes p)) as Hu.
  { destruct (unbound_insert k r r' _ Hk) as [-> Hle]. simpl in *. destruct (bound r); lia. }
  split; simpl; try done; fold r'.
  - by rewrite (map_conf_insert k r).
  - by rewrite Hu.
  - apply Forall_insert_reachable; [done|]. simpl.
    rewrite Forall_lookup in Hr. eapply rtc_r; [by eapply Hr|]. by apply (RouteStep _ e).
  - rewrite Hu, <- Hd. unfold emit. destruct (loud p); [|done].
    destruct (on_event_lines _ _ _ _ He) as (l & -> & Hz).
    rewrite drop_app_length, ready_lines_app. lia.
Qed.

Lemma on_bound_inv q rs k r p :
  process_inv q rs p -> routes p !! k = Some r -> bound r = false ->
  process_inv q rs (on_bound k r p).
Proof.
  intros [Hc Hl Hp Hr Hd] Hk Hb. set (r' := Running (conf r) (sockets r) true).
  assert (unbound (routes p) = S (unbound (<[k := r']> (routes p)))) as Hu.
  { destruct (unbound_insert k r r' _ Hk) as [-> Hle]. rewrite Hb. simpl. lia. }
  split; simpl; try done; fold r'.
  - by rewrite (map_conf_insert k r).
  - lia.
  - apply Forall_insert_reachable; [done|]. rewrite Forall_lookup in Hr. exact (Hr k r Hk).
  - unfold emit. rewrite Hl in *. rewrite Hu in Hd.
    destruct q; simpl in *; [done|]. rewrite ready_lines_app, Hd.
    destruct (Z.eqb_spec (pending p - 1) 0) as [E|E].
    + by rewrite bool_decide_true by lia.
    + by rewrite bool_decide_false by lia.
Qed.

Lemma process_step_inv q rs p p' : process_step p p' -> process_inv q rs p -> process_inv q rs p'.
Proof.
  intros Hst Hi. destruct Hst as [e p p' Hs]. unfold process_event_step in Hs.
  destruct (exited p); [done|]. destruct e as [k re|k|k code m|]; simpl in Hs.
  - destruct (routes p !! k) as [r|] eqn:Hk; simpl in Hs; [|done].
    destruct (on_event (conf r) re (sockets r)) as [s|] eqn:He; simpl in Hs; [|done].
    destruct (bound r); [|done]. injection Hs as <-. by eapply on_route_inv.
  - destruct (routes p !! k) as [r|] eqn:Hk; simpl in Hs; [|done].
    destruct (bound r) eqn:Hb; [done|]. injection Hs as <-. by apply on_bound_inv.
  - destruct (routes p !! k) as [r|] eqn:Hk; simpl in Hs; [|done].
    destruct (onFatal _ _ _). injection Hs as <-. by destruct Hi; split.
  - injection Hs as <-. destruct Hi as [Hc Hl Hp Hr Hd]. split; simpl; try done.
    unfold emit. destruct (loud p); [|done]. rewrite ready_lines_app, Hd.
    change (ready_lines [LStopping]) with O. lia.
Qed.

Lemma start_inv q rs : rs ≠ [] -> process_inv q rs (start q rs).
Proof.
  intros Hn. assert (unbound (map (fun r => Running r route_init false) rs) = length rs) as Hu.
  { unfold unbound. clear Hn. induction rs as [|r rs IH]; simpl; [done|]. by rewrite IH. }
  split; simpl; rewrite ?Hu; try done.
  - rewrite map_map. apply map_id.
  - clear Hn Hu. induction rs as [|r rs IH]; simpl; constructor; [apply rtc_refl|done].
  - rewrite bool_decide_false by (by destruct rs). by rewrite andb_false_r.
Qed.
End ProcessFacts.

(** the running bridge.  From the start and through any events, the routes
    stay those of the command line, each route's sockets are in a state that
    route reaches on its own events (no route disturbs another), and the ready
    line has been printed once if every route has bound and not otherwise (never,
    with [--quiet]). *)
Theorem process_ready_line `{WebSocketLib} q rs p :
  rs ≠ [] -> rtc process_step (start q rs) p ->
  map conf (routes p) = rs /\
  Forall (fun r => route_reachable (conf r) (sockets r)) (routes p) /\
  ready_lines (out_lines p) =
    (if negb q && bool_decide (unbound (routes p) = O) then 1 else 0)%nat.
Proof.
  intros Hn Hr. assert (process_inv q rs p) as [? ? ? ? ?]; [|done].
  pose proof (start_inv q rs Hn) as Hi. induction Hr as [|x y z Hs Hr IH]; [done|].
  apply IH. by eapply process_step_inv.
Qed.

Lemma process_ready_line_witness :
  let p := Process true [Running example_route route_init true] 0
             [LListening (js "127.0.0.1:8090") (js "ws://h/d?x=1"); LReady 1] [] None in
  map conf (routes p) = [example_route] /\
  Forall (fun r => route_reachable (conf r) (sockets r)) (routes p) /\
  ready_lines (out_lines p) =
    (if negb false && bool_decide (unbound (routes p) = O) then 1 else 0)%nat.
Proof.
  apply (process_ready_line false [example_route]); [discriminate|].
  apply rtc_once. apply (ProcessStep (Bound 0)). vm_compute. reflexivity.
Defined.

(** An empty port is read as [Number("")], which is 0. *)
Example empty_port_accepted :
  checkListen (js "127.0.0.1:") = Ok (ListenAddr (js "127.0.0.1") 0 (js "127.0.0.1:")).
Proof. vm_compute. reflexivity. Qed.
