(* ===== verification/CodeRunner.v ===== *)
(** The code-mode runtime, src/drivers/tools/coderunner/runner.mjs: a JSON-RPC
    client over stdio with its table of pending requests, the line framing of
    its input, the [atoll] object handed to the program with its worker pool,
    and the phases of [main]. *)
From S2P Require Import Prelude Numbers Json.
Open Scope Z_scope.

(** What a rejected promise or a [throw] carries. *)
Inductive thrown :=
| AtollError (code : json) (detail : json)      (* detail [""] when it was falsy *)
| TypeError (message : jstr)
| ProgramError (message : jstr) (stack : option jstr)   (* an [Error] of the program *)
| ProgramValue (v : option json).                       (* anything else it threw *)

(** [new AtollError(code, detail)].  [super(detail || code)] turns its argument into
    text; a detail for which that throws (an object whose own [toString] and
    [valueOf] are no functions) is outside the model. *)
Definition new_AtollError (code : json) (detail : option json) : thrown :=
  AtollError code (match or_else detail (Some (JStr [])) with Some d => d | None => JStr [] end).

Definition cancelled_error : thrown :=
  new_AtollError (JStr (js "cancelled")) (Some (JStr (js "execution cancelled"))).

Inductive settlement :=
| Resolved (v : option json)
| Rejected (e : thrown).

(** The module's variables, what it has written, and which request promises
    have been settled, in order. *)
Record runner := Runner {
  nextID : Z;
  pending : list Z;                       (* keys of [pending], oldest first *)
  cancelled : bool;
  aborted : bool;                         (* [controller.signal.aborted] *)
  inputBuffer : jstr;
  progressCount : Z;
  requestID : option json;
  toolNames : gmap jstr (option json);
  stdout : list json;
  settled : list (Z * settlement)
}.

Definition runner_init : runner := Runner 1 [] false false [] 0 (Some JNull) ∅ [] [].

Definition JInt (n : Z) : json := JNum (Finite (inject_Z n)).

(** ** Sending *)

(** [send(msg)]; fields that are [undefined] are not printed. *)
Definition send (msg : list (jstr * option json)) (s : runner) : runner :=
  Runner (nextID s) (pending s) (cancelled s) (aborted s) (inputBuffer s) (progressCount s)
    (requestID s) (toolNames s)
    (stdout s ++ [obj ((js "jsonrpc", Some (JStr (js "2.0"))) :: msg)]) (settled s).

Definition request (method : jstr) (params : json) (s : runner) : Z * runner :=
  let id := nextID s in
  let s := Runner (id + 1) (pending s ++ [id]) (cancelled s) (aborted s) (inputBuffer s)
             (progressCount s) (requestID s) (toolNames s) (stdout s) (settled s) in
  (id, send [(js "id", Some (JInt id)); (js "method", Some (JStr method)); (js "params", Some params)] s).

Definition notify (method : jstr) (params : json) (s : runner) : runner :=
  send [(js "method", Some (JStr method)); (js "params", Some params)] s.

Definition TOOL_CONTEXT : jstr := js "atoll_context".
Definition TOOL_RETURN : jstr := js "atoll_return".
Definition TOOL_FAIL : jstr := js "atoll_fail".
Definition PROTOCOL_VERSION : jstr := js "2025-06-18".

(** The request of [callTool]; its answer goes through [unwrapResult]. *)
Definition callTool (name : option json) (args : json) (meta : option json) (s : runner)
  : Z * runner :=
  request (js "tools/call")
    (obj [(js "name", name); (js "arguments", Some args); (js "_meta", meta)]) s.

(** ** Results *)

(** [result.content.find((c) => c && c.type === "text")] and its [text]. *)
Fixpoint find_text (content : list json) : option json :=
  match content with
  | [] => None
  | c :: r =>
      if truthy_json (Some c) && bool_decide (get (js "type") c = Some (JStr (js "text")))
      then get (js "text") c
      else find_text r
  end.

Definition textContent (result : option json) : option json :=
  match result with
  | Some r =>
      if truthy_json (Some r) then
        match get (js "content") r with
        | Some (JArr content) => find_text content
        | _ => None
        end
      else None
  | None => None
  end.

Definition get_opt (key : jstr) (v : option json) : option json := v ≫= get key.

Section Values.
Context (num_to_string : Q -> jstr).

Definition unwrapResult (result : option json) : Prelude.result thrown (option json) :=
  if truthy_json result && truthy_json (get_opt (js "isError") result) then
    let structured := or_else (get_opt (js "structuredContent") result) (Some (JObj [])) in
    Throw (new_AtollError
      (match or_else (get_opt (js "error_code") structured) (Some (JStr (js "call_failed"))) with
       | Some c => c | None => JNull end)
      (or_else (or_else (get_opt (js "detail") structured) (textContent result))
         (Some (JStr []))))
  else
    match (if truthy_json result then get_opt (js "structuredContent") result else None) with
    | Some v => Ok (Some v)
    | None =>
        match textContent result with
        | None => Ok (Some JNull)
        | Some text =>
            match JSON_parse (to_string num_to_string text) with
            | Some v => Ok (Some v)
            | None => Ok (Some text)
            end
        end
    end.

Definition callArguments (input : option json) : json :=
  match input with
  | Some (JObj fs) => JObj fs
  | None => JObj [(js "$input", JNull)]
  | Some v => JObj [(js "$input", v)]
  end.

(** [textOf]: what the console functions print. *)
Definition textOf (values : list (option json)) : jstr :=
  join (js " ") (map (fun value =>
    match value with
    | Some (JStr s) => s
    | None => js "undefined"
    | Some v => JSON_stringify num_to_string v
    end) values).

Definition logMessage (level logger : jstr) (values : list (option json)) (s : runner) : runner :=
  notify (js "notifications/message")
    (obj [(js "level", Some (JStr level)); (js "logger", Some (JStr logger));
          (js "data", Some (JStr (textOf values)))]) s.

(** ** The [atoll] object *)

(** [Number.isFinite(deadlineMs) && deadlineMs > 0 ? ... : undefined] *)
Definition deadline_meta (deadlineMs : option json) : option json :=
  match deadlineMs with
  | Some (JNum (Finite q)) =>
      if negb (Qle_bool q 0) then
        Some (JObj [(js "atoll/deadline_ms", JInt (floor q))])
      else None
  | _ => None
  end.

Definition tool_key (target type : jstr) : jstr := target ++ js " " ++ type.

Definition undeclared (key : jstr) : thrown :=
  new_AtollError (JStr (js "undeclared_capability"))
    (Some (JStr (key ++ js " is not in requires"))).

(** [atoll.call]: rejected at once, or the id of the request it awaits. *)
Definition call (target type input deadlineMs : option json) (s : runner)
  : (thrown + Z) * runner :=
  if cancelled s then (inl cancelled_error, s)
  else
    let key := tool_key (to_string_opt num_to_string target) (to_string_opt num_to_string type) in
    match toolNames s !! key with
    | Some name =>
        if truthy_json name then
          let '(id, s') := callTool name (callArguments input) (deadline_meta deadlineMs) s in
          (inr id, s')
        else (inl (undeclared key), s)
    | None => (inl (undeclared key), s)
    end.

Definition progress (status value : option json) (s : runner) : runner :=
  let n := progressCount s + 1 in
  notify (js "notifications/progress")
    (obj [(js "progressToken", requestID s); (js "progress", Some (JInt n));
          (js "message", status);
          (js "value", Some (match value with None => JNull | Some v => v end))])
    (Runner (nextID s) (pending s) (cancelled s) (aborted s) (inputBuffer s) n (requestID s)
       (toolNames s) (stdout s) (settled s)).

(** ** Receiving *)

Definition settle (id : Z) (r : settlement) (s : runner) : runner :=
  Runner (nextID s) (List.filter (fun i => negb (i =? id)) (pending s)) (cancelled s) (aborted s)
    (inputBuffer s) (progressCount s) (requestID s) (toolNames s) (stdout s)
    (settled s ++ [(id, r)]).

(** [pending.get(msg.id)]: keys are compared as numbers. *)
Definition pending_key (id : json) (s : runner) : option Z :=
  match id with
  | JNum (Finite q) => List.find (fun i => Qeq_bool q (inject_Z i)) (pending s)
  | _ => None
  end.

Definition rpc_error (error : json) : thrown :=
  let data := or_else (get (js "data") error) (Some (JObj [])) in
  new_AtollError
    (match or_else (get_opt (js "code") data) (Some (JStr (js "rpc_error"))) with
     | Some c => c | None => JNull end)
    (or_else (or_else (get_opt (js "detail") data) (get (js "message") error)) (Some (JStr []))).

Definition receive (msg : json) (s : runner) : runner :=
  if negb (bool_decide (get (js "jsonrpc") msg = Some (JStr (js "2.0")))) then s
  else
    match get (js "method") msg, get (js "id") msg with
    | None, Some id =>
        match pending_key id s with
        | None => s
        | Some key =>
            match get (js "error") msg with
            | Some e =>
                if truthy_json (Some e) then settle key (Rejected (rpc_error e)) s
                else settle key (Resolved (get (js "result") msg)) s
            | None => settle key (Resolved (get (js "result") msg)) s
            end
        end
    | Some method, Some id =>
        if bool_decide (method = JStr (js "ping")) then
          send [(js "id", Some id); (js "result", Some (JObj []))] s
        else
          send [(js "id", Some id);
                (js "error", Some (JObj [(js "code", JInt (-32601));
                   (js "message", JStr (js "method not found: " ++ to_string num_to_string method))]))] s
    | _, None => s
    end.

Definition set_buffer (b : jstr) (s : runner) : runner :=
  Runner (nextID s) (pending s) (cancelled s) (aborted s) b (progressCount s) (requestID s)
    (toolNames s) (stdout s) (settled s).

Definition receive_line (line : jstr) (s : runner) : runner :=
  if negb (truthy (trim line)) then s
  else match JSON_parse line with Some msg => receive msg s | None => s end.

(** The loop of the [data] handler. *)
Fixpoint drain (fuel : nat) (s : runner) : runner :=
  match fuel with
  | O => s
  | S f =>
      match index_of [LF] (inputBuffer s) with
      | None => s
      | Some newline =>
          let line := take newline (inputBuffer s) in
          drain f (receive_line line (set_buffer (drop (S newline) (inputBuffer s)) s))
      end
  end.

(** [process.stdin.on("data")]: each round drops a newline of the buffer. *)
Definition on_data (chunk : jstr) (s : runner) : runner :=
  let s := set_buffer (inputBuffer s ++ chunk) s in
  drain (length (inputBuffer s)) s.

(** [process.stdin.on("end")] *)
Definition on_end (s : runner) : runner :=
  Runner (nextID s) [] true true (inputBuffer s) (progressCount s) (requestID s) (toolNames s)
    (stdout s) (settled s ++ map (fun id => (id, Rejected cancelled_error)) (pending s)).
End Values.

(** * The phases of [main] *)

Inductive phase :=
| AwaitInitialize (id : Z)
| AwaitList (id : Z)
| AwaitContext (id : Z)
| Importing
| ProgramRuns
| AwaitReturn (id : Z)
| Failed.                       (* [main] has returned [fail(...)] *)

(** What [import] of the program gives. *)
Inductive imported := ModuleWithRun | ModuleWithoutRun | ImportThrew (e : thrown).

(** What [run] gives, as [JSON.stringify] sees it: a value with the value its
    text denotes, one that has no text, or one whose printing throws. *)
Inductive run_outcome :=
| Returned (v : json)
| ReturnedUndefined
| Unprintable (e : thrown)
| RunThrew (e : thrown).

(** The process ends by [process.exit] or, once stdin has ended, when nothing is
    left for the event loop to do. *)
Inductive ending := Exited (code : Z) | Drained.

Record session := Session {
  rt : runner;
  ph : phase;
  failing : list Z;             (* the requests [fail] awaits *)
  ended : bool;                 (* stdin has ended *)
  exit : option ending          (* how the process ended *)
}.

(** The status the host sees. *)
Definition status (x : ending) : Z := match x with Exited code => code | Drained => 0 end.

Section Main.
Context (num_to_string : Q -> jstr).
(** [error.stack] of an error the runtime itself creates. *)
Context (engine_stack : thrown -> option jstr).
(** Whether [ATOLL_PROGRAM] is set. *)
Context (programPath : option jstr).

Definition message_of (error : option thrown) (fallback : jstr) : jstr :=
  match error with
  | Some (AtollError code detail) =>
      to_string num_to_string (if truthy_json (Some detail) then detail else code)
  | Some (TypeError m) => m
  | Some (ProgramError m _) => m
  | Some (ProgramValue v) => to_string_opt num_to_string (or_nullish v (Some (JStr fallback)))
  | None => fallback
  end.

Definition stack_of (error : option thrown) : option jstr :=
  match error with
  | Some (ProgramError _ st) => match st with Some t => if truthy t then Some t else None | None => None end
  | Some (ProgramValue _) | None => None
  | Some e => match engine_stack e with Some t => if truthy t then Some t else None | None => None end
  end.

(** [fail(kind, error, fallback)] up to its [await]. *)
Definition fail (kind : jstr) (error : option thrown) (fallback : jstr) (s : session) : session :=
  let '(id, r) := callTool (Some (JStr TOOL_FAIL))
    (obj [(js "kind", Some (JStr kind)); (js "message", Some (JStr (message_of error fallback)));
          (js "stack", JStr <$> stack_of error)]) None (rt s) in
  Session r (ph s) (failing s ++ [id]) (ended s) (exit s).

Definition with_phase (p : phase) (s : session) : session :=
  Session (rt s) p (failing s) (ended s) (exit s).

Definition main_fails (kind : jstr) (error : option thrown) (fallback : jstr) (s : session)
  : session := with_phase Failed (fail kind error fallback s).

(** What escapes [main] reaches its [catch]. *)
Definition runtime_failed (e : thrown) (s : session) : session :=
  main_fails (js "exception") (Some e) (js "runtime failed") s.

Definition session_init : session :=
  let '(id, r) := request (js "initialize")
    (JObj [(js "protocolVersion", JStr PROTOCOL_VERSION); (js "capabilities", JObj []);
           (js "clientInfo", JObj [(js "name", JStr (js "atoll-coderunner-node"));
                                   (js "version", JStr (js "1"))])]) runner_init in
  Session r (AwaitInitialize id) [] false None.

(** ** The tool table *)

Definition cannot_read : thrown := TypeError (js "Cannot read properties of null").
Definition not_iterable : thrown := TypeError (js "listed.tools is not iterable").

Definition register_tool (tool : json) (names : gmap jstr (option json))
  : gmap jstr (option json) :=
  let meta := or_else (get (js "_meta") tool) (Some (JObj [])) in
  let target := get_opt (js "atoll/target") meta in
  let word := get_opt (js "atoll/word") meta in
  if negb (truthy_json target) || negb (truthy_json word) then names
  else
    let w := to_string_opt num_to_string word in
    let names := <[tool_key (to_string_opt num_to_string target) w := get (js "name") tool]> names in
    let actor := get_opt (js "atoll/actor") meta in
    if truthy_json actor then
      <[tool_key (to_string_opt num_to_string actor) w := get (js "name") tool]> names
    else names.

(** The loop over [listed.tools || []]; reading a field of [null] throws, and
    so does iterating what is not iterable (a string iterates characters,
    which have no [_meta]). *)
Fixpoint register_tools (tools : list json) (names : gmap jstr (option json))
  : gmap jstr (option json) * option thrown :=
  match tools with
  | [] => (names, None)
  | JNull :: _ => (names, Some cannot_read)
  | t :: r => register_tools r (register_tool t names)
  end.

Definition listed_tools (listed : option json) : Prelude.result thrown (list json) :=
  match listed with
  | None | Some JNull => Throw cannot_read
  | Some l =>
      match or_else (get (js "tools") l) (Some (JArr [])) with
      | Some (JArr tools) => Ok tools
      | Some (JStr _) => Ok []
      | _ => Throw not_iterable
      end
  end.

Definition set_tools (t : gmap jstr (option json)) (r : runner) : runner :=
  Runner (nextID r) (pending r) (cancelled r) (aborted r) (inputBuffer r) (progressCount r)
    (requestID r) t (stdout r) (settled r).

Definition set_requestID (v : option json) (r : runner) : runner :=
  Runner (nextID r) (pending r) (cancelled r) (aborted r) (inputBuffer r) (progressCount r)
    v (toolNames r) (stdout r) (settled r).

Definition with_rt (r : runner) (s : session) : session :=
  Session r (ph s) (failing s) (ended s) (exit s).

(** ** Continuations *)

Definition after_initialize (s : session) : session :=
  let r := notify (js "notifications/initialized") (JObj []) (rt s) in
  let '(id, r) := request (js "tools/list") (JObj []) r in
  with_phase (AwaitList id) (with_rt r s).

Definition after_list (listed : option json) (s : session) : session :=
  match listed_tools listed with
  | Throw e => runtime_failed e s
  | Ok tools =>
      let '(names, failed) := register_tools tools (toolNames (rt s)) in
      let s := with_rt (set_tools names (rt s)) s in
      match failed with
      | Some e => runtime_failed e s
      | None =>
          let '(id, r) := callTool (Some (JStr TOOL_CONTEXT)) (JObj []) None (rt s) in
          with_phase (AwaitContext id) (with_rt r s)
      end
  end.

Definition no_program : thrown := ProgramError (js "ATOLL_PROGRAM is not set") None.

Definition after_context (result : option json) (s : session) : session :=
  match unwrapResult num_to_string result with
  | Throw e => runtime_failed e s
  | Ok None | Ok (Some JNull) => runtime_failed cannot_read s
  | Ok (Some context) =>
      let s := with_rt (set_requestID (get (js "request_id") context) (rt s)) s in
      match programPath with
      | Some p => if truthy p then with_phase Importing s
                  else main_fails (js "syntax") (Some no_program) (js "program import failed") s
      | None => main_fails (js "syntax") (Some no_program) (js "program import failed") s
      end
  end.

Definition after_import (m : imported) (s : session) : session :=
  match m with
  | ImportThrew e => main_fails (js "syntax") (Some e) (js "program import failed") s
  | ModuleWithoutRun => main_fails (js "invalid_output") None (js "program does not export run") s
  | ModuleWithRun => with_phase ProgramRuns s
  end.

Definition after_run (o : run_outcome) (s : session) : session :=
  match o with
  | RunThrew e => main_fails (js "exception") (Some e) (js "program threw") s
  | ReturnedUndefined =>
      main_fails (js "invalid_output") (Some (TypeError (js "run returned undefined")))
        (js "run result is not JSON serializable") s
  | Unprintable e =>
      main_fails (js "invalid_output") (Some e) (js "run result is not JSON serializable") s
  | Returned v =>
      let '(id, r) := callTool (Some (JStr TOOL_RETURN)) (JObj [(js "value", v)]) None (rt s) in
      with_phase (AwaitReturn id) (with_rt r s)
  end.

Definition after_return (result : option json) (s : session) : session :=
  match unwrapResult num_to_string result with
  | Throw e => runtime_failed e s
  | Ok _ => Session (rt s) (ph s) (failing s) (ended s) (Some (Exited 0))
  end.

(** The request [main] awaits, if any. *)
Definition awaited (p : phase) : option Z :=
  match p with
  | AwaitInitialize id | AwaitList id | AwaitContext id | AwaitReturn id => Some id
  | _ => None
  end.

Definition main_continues (r : settlement) (s : session) : session :=
  match r with
  | Rejected e => runtime_failed e s
  | Resolved v =>
      match ph s with
      | AwaitInitialize _ => after_initialize s
      | AwaitList _ => after_list v s
      | AwaitContext _ => after_context v s
      | AwaitReturn _ => after_return v s
      | _ => s
      end
  end.

(** A settled promise resumes whoever awaits it; once the process has ended
    nothing runs. *)
Definition resume (e : Z * settlement) (s : session) : session :=
  match exit s with
  | Some _ => s
  | None =>
      if bool_decide (e.1 ∈ failing s) then
        Session (rt s) (ph s) (failing s) (ended s) (Some (Exited 1))
      else if bool_decide (awaited (ph s) = Some e.1) then main_continues e.2 s
      else s
  end.

(** A stdin handler, then the continuations of the promises it settled. *)
Definition with_stdin (f : runner -> runner) (s : session) : session :=
  let r := f (rt s) in
  foldl (fun acc e => resume e acc) (with_rt r s)
    (drop (length (settled (rt s))) (settled r)).

Inductive session_event :=
| Data (chunk : jstr)
| End
| Import (m : imported)
| Run (o : run_outcome)
| Call (target type input deadlineMs : option json)
| Progress (status value : option json)
| Log (level logger : jstr) (values : list (option json))
| Uncaught (e : thrown)
| Drain.                        (* the event loop has nothing left to do *)

Definition session_step_fn (e : session_event) (s : session) : option session :=
  match exit s with
  | Some _ => None
  | None =>
      match e with
      | Data chunk => if ended s then None else Some (with_stdin (on_data num_to_string chunk) s)
      | End =>
          if ended s then None
          else
            let s := Session (rt s) (ph s) (failing s) true (exit s) in
            Some (with_stdin on_end s)
      | Import m => match ph s with Importing => Some (after_import m s) | _ => None end
      | Run o => match ph s with ProgramRuns => Some (after_run o s) | _ => None end
      | Call t w i d => Some (with_rt (call num_to_string t w i d (rt s)).2 s)
      | Progress st v => Some (with_rt (progress st v (rt s)) s)
      | Log l g v => Some (with_rt (logMessage num_to_string l g v (rt s)) s)
      | Uncaught e => Some (fail (js "exception") (Some e) (js "uncaught exception") s)
      | Drain =>
          (* while stdin is open it keeps the loop alive *)
          if ended s then Some (Session (rt s) (ph s) (failing s) (ended s) (Some Drained)) else None
      end
  end.

Inductive session_step : session -> session -> Prop :=
| SessionStep e s s' : session_step_fn e s = Some s' -> session_step s s'.
End Main.

(** * [atoll.all] *)

Section Pool.
Context {V E : Type}.

(** The values so far, the next index, the thunks whose promise is awaited
    (one per live worker) and the first rejection. *)
Record pool := Pool {
  count : nat;
  cursor : nat;
  running : list nat;
  values : list (option V);
  finished : nat;                (* workers that have returned *)
  rejected : option E
}.

(** [const index = cursor++; if (index >= thunks.length) return; ... thunks[index]()] *)
Definition worker_next (p : pool) : pool :=
  if bool_decide (count p <= cursor p)%nat then
    Pool (count p) (S (cursor p)) (running p) (values p) (S (finished p)) (rejected p)
  else
    Pool (count p) (S (cursor p)) (running p ++ [cursor p]) (values p) (finished p) (rejected p).

Fixpoint start_workers (k : nat) (p : pool) : pool :=
  match k with
  | O => p
  | S k' => start_workers k' (worker_next p)
  end.

(** [Math.max(1, Math.min(8, Number.isFinite(requested) ? Math.floor(requested) : 8))] *)
Definition pool_width (requested : jsnum) : Z :=
  Z.max 1 (Z.min 8 (match requested with Finite q => floor q | _ => 8 end)).

Definition pool_start (n : nat) (requested : jsnum) : pool :=
  start_workers (Nat.min (Z.to_nat (pool_width requested)) n)
    (Pool n 0 [] (replicate n None) 0 None).

(** The promise of thunk [i] settles: its worker stores the value and goes
    on, or the worker's promise rejects and [Promise.all] keeps the first
    rejection.  The other workers run on. *)
Definition thunk_settles (i : nat) (r : V + E) (p : pool) : option pool :=
  if bool_decide (i ∈ running p) then
    let rest := List.filter (fun j => negb (Nat.eqb j i)) (running p) in
    Some match r with
    | inl v =>
        worker_next (Pool (count p) (cursor p) rest (<[i := Some v]> (values p)) (finished p)
                       (rejected p))
    | inr e =>
        Pool (count p) (cursor p) rest (values p) (finished p)
          (match rejected p with None => Some e | old => old end)
    end
  else None.

(** What [atoll.all] settles with: the first rejection, or the values once
    every worker has returned. *)
Definition pool_result (workers : nat) (p : pool) : option (list (option V) + E) :=
  match rejected p with
  | Some e => Some (inr e)
  | None => if bool_decide (finished p = workers) then Some (inl (values p)) else None
  end.
End Pool.
Arguments pool : clear implicits.

(** * Framing *)

Section Framing.
Context (num_to_string : Q -> jstr).
Let receive_line := receive_line num_to_string.
Let on_data := on_data num_to_string.
Let drain := drain num_to_string.

Definition receive_lines (ls : list jstr) (s : runner) : runner :=
  foldl (fun acc l => receive_line l acc) s ls.

Lemma send_buffer m b s : send m (set_buffer b s) = set_buffer b (send m s).
Proof. done. Qed.

Lemma receive_buffer m b s :
  receive num_to_string m (set_buffer b s) = set_buffer b (receive num_to_string m s).
Proof.
  unfold receive. change (pending_key ?i (set_buffer b s)) with (pending_key i s).
  repeat case_match; done.
Qed.

Lemma receive_line_buffer l b s : receive_line l (set_buffer b s) = set_buffer b (receive_line l s).
Proof.
  unfold receive_line, CodeRunner.receive_line.
  repeat case_match; try done. apply receive_buffer.
Qed.

Lemma receive_lines_buffer ls b s :
  receive_lines ls (set_buffer b s) = set_buffer b (receive_lines ls s).
Proof.
  revert s; induction ls as [|l ls IH]; intros s; simpl; [done|].
  by rewrite receive_line_buffer, IH.
Qed.

Lemma set_buffer_twice b b' s : set_buffer b (set_buffer b' s) = set_buffer b s.
Proof. done. Qed.

Lemma inputBuffer_set b s : inputBuffer (set_buffer b s) = b.
Proof. done. Qed.

(** All lines of a text but its unfinished last one, and that last one. *)
Definition complete_lines (t : jstr) : list jstr := removelast (split_char LF t).
Definition last_piece (t : jstr) : jstr := List.last (split_char LF t) [].

Lemma split_pieces t : split_char LF t = complete_lines t ++ [last_piece t].
Proof. apply app_removelast_last, split_char_not_nil. Qed.

Lemma index_of_LF t :
  match index_of [LF] t with
  | Some n => split_char LF t = take n t :: split_char LF (drop (S n) t) /\ (n < length t)%nat
  | None => split_char LF t = [t]
  end.
Proof.
  induction t as [|x t IH]; [done|]. cbn [index_of starts_with split_char].
  rewrite andb_true_r. destruct (Z.eqb_spec LF x) as [<-|Hne].
  - rewrite Z.eqb_refl. split; [done|]. simpl. lia.
  - rewrite (proj2 (Z.eqb_neq x LF)) by done.
    destruct (index_of [LF] t) as [n|]; csimpl.
    + destruct IH as [IH ?]. rewrite IH. split; [done|]. simpl. lia.
    + by rewrite IH.
Qed.

(** The loop hands every complete line to [receive_line] in order and keeps
    the rest. *)
Lemma drain_lines fuel s :
  (length (inputBuffer s) <= fuel)%nat ->
  drain fuel s =
  set_buffer (last_piece (inputBuffer s)) (receive_lines (complete_lines (inputBuffer s)) s).
Proof.
  revert s; induction fuel as [|f IH]; intros s Hf; simpl.
  - destruct s as [? ? ? ? [|] ? ? ? ? ?]; simpl in *; [done|lia].
  - pose proof (index_of_LF (inputBuffer s)) as Hi.
    destruct (index_of [LF] (inputBuffer s)) as [n|].
    + destruct Hi as [Hs Hn]. fold receive_line. fold drain.
      assert (complete_lines (inputBuffer s) =
        take n (inputBuffer s) :: complete_lines (drop (S n) (inputBuffer s))) as Hc.
      { unfold complete_lines. rewrite Hs. simpl.
        pose proof (split_char_not_nil LF (drop (S n) (inputBuffer s))).
        by destruct (split_char LF (drop (S n) (inputBuffer s))). }
      assert (last_piece (inputBuffer s) = last_piece (drop (S n) (inputBuffer s))) as Hl.
      { unfold last_piece. rewrite Hs.
        pose proof (split_char_not_nil LF (drop (S n) (inputBuffer s))).
        by destruct (split_char LF (drop (S n) (inputBuffer s))). }
      rewrite receive_line_buffer, IH by (simpl; rewrite length_drop; lia).
      rewrite inputBuffer_set, receive_lines_buffer, set_buffer_twice. by rewrite Hc, Hl.
    + unfold complete_lines, last_piece. rewrite Hi. simpl. by destruct s.
Qed.

Lemma on_data_lines chunk s :
  let t := inputBuffer s ++ chunk in
  on_data chunk s = set_buffer (last_piece t) (receive_lines (complete_lines t) s).
Proof.
  simpl. unfold on_data, CodeRunner.on_data. fold drain.
  rewrite drain_lines by done.
  by rewrite inputBuffer_set, receive_lines_buffer, set_buffer_twice.
Qed.

Lemma split_char_app c x y :
  split_char c (x ++ y) =
  removelast (split_char c x) ++ split_char c (List.last (split_char c x) [] ++ y).
Proof.
  induction x as [|a x IH]; [done|]. simpl.
  pose proof (split_char_not_nil c x) as Hn. rewrite IH.
  destruct (Z.eqb_spec a c) as [->|Hne].
  - destruct (split_char c x) as [|l ls]; [done|]. done.
  - destruct (split_char c x) as [|l [|l' ls]]; [done| |done].
    simpl. by rewrite (proj2 (Z.eqb_neq a c)).
Qed.

Lemma complete_lines_app x y :
  complete_lines (x ++ y) = complete_lines x ++ complete_lines (last_piece x ++ y) /\
  last_piece (x ++ y) = last_piece (last_piece x ++ y).
Proof.
  unfold complete_lines, last_piece. rewrite (split_char_app LF x y).
  pose proof (split_char_not_nil LF (List.last (split_char LF x) [] ++ y)) as Hn. split.
  - by apply removelast_app.
  - generalize (removelast (split_char LF x)). intros l. induction l as [|a l IH]; [done|].
    simpl. destruct l; simpl in *; [|done]. by destruct (split_char LF (_ ++ y)).
Qed.

Lemma receive_lines_app a b s : receive_lines (a ++ b) s = receive_lines b (receive_lines a s).
Proof. apply foldl_app. Qed.

Lemma on_data_app a b s : on_data b (on_data a s) = on_data (a ++ b) s.
Proof.
  rewrite !on_data_lines, inputBuffer_set, app_assoc.
  destruct (complete_lines_app (inputBuffer s ++ a) b) as [-> ->].
  by rewrite receive_lines_buffer, set_buffer_twice, receive_lines_app.
Qed.
End Framing.

(** C31: the host's bytes may arrive in any chunks.  From a buffer without a
    complete line (as every handler leaves it), feeding the chunks one by one
    leaves the runner exactly as if their concatenation had come at once, and
    that is: every complete line received in order (blank and malformed ones
    dropped), the unfinished rest kept in the buffer. *)
Theorem on_data_chunking num_to_string chunks s :
  LF ∉ inputBuffer s ->
  let t := inputBuffer s ++ concat chunks in
  foldl (fun acc c => on_data num_to_string c acc) s chunks =
  set_buffer (last_piece t) (receive_lines num_to_string (complete_lines t) s) /\
  LF ∉ last_piece t.
Proof.
  intros Hb t. split.
  - assert (forall cs p, foldl (fun acc c => on_data num_to_string c acc)
              (on_data num_to_string p s) cs = on_data num_to_string (p ++ concat cs) s) as H.
    { induction cs as [|c cs IH]; intros p; simpl; [by rewrite app_nil_r|].
      by rewrite on_data_app, IH, app_assoc. }
    unfold t. rewrite <- on_data_lines. etrans; [|apply (H chunks [])].
    f_equal. rewrite on_data_lines, app_nil_r. unfold last_piece, complete_lines.
    rewrite split_no_sep by done. by destruct s.
  - pose proof (split_char_no_sep LF t) as HF. rewrite split_pieces, Forall_app in HF.
    destruct HF as [_ HF]. by inversion HF.
Qed.

Lemma on_data_chunking_witness :
  let chunks := [js "{"; js "}" ++ [LF] ++ js "{"] in
  let t := inputBuffer runner_init ++ concat chunks in
  foldl (fun acc c => on_data int_num_str c acc) runner_init chunks =
  set_buffer (last_piece t) (receive_lines int_num_str (complete_lines t) runner_init) /\
  LF ∉ last_piece t.
Proof.
  apply (on_data_chunking int_num_str [js "{"; js "}" ++ [LF] ++ js "{"] runner_init).
  apply not_elem_of_nil.
Defined.

(** * Requests and their promises *)

(** Every id handed out is pending or settled, and once only. *)
Definition accounted (r : runner) : Prop :=
  1 <= nextID r /\ pending r ++ map fst (settled r) ≡ₚ seqZ 1 (nextID r - 1).

Lemma accounted_NoDup r : accounted r -> NoDup (pending r ++ map fst (settled r)).
Proof. intros [_ Hp]. rewrite Hp. apply NoDup_seqZ. Qed.

Lemma accounted_eq r r' :
  nextID r' = nextID r -> pending r' = pending r -> settled r' = settled r ->
  accounted r -> accounted r'.
Proof. unfold accounted. by intros -> -> ->. Qed.

Lemma request_accounted m p r : accounted r -> accounted (request m p r).2.
Proof.
  intros [Hn Hp]. split; simpl; [lia|].
  replace (nextID r + 1 - 1) with ((nextID r - 1) + 1) by lia.
  rewrite seqZ_snoc, <- Hp by lia. replace (1 + (nextID r - 1)) with (nextID r) by lia.
  solve_Permutation.
Qed.

Lemma filter_single (l : list Z) (k : Z) :
  NoDup l -> k ∈ l -> k :: List.filter (fun i => negb (i =? k)) l ≡ₚ l.
Proof.
  induction l as [|x l IH]; intros Hd Hk; [by apply elem_of_nil in Hk|].
  apply NoDup_cons in Hd as [Hx Hd]. simpl. destruct (Z.eqb_spec x k) as [->|Hne]; simpl.
  - replace (List.filter _ l) with l; [done|]. clear IH Hd Hk.
    induction l as [|y l IH]; simpl; [done|].
    rewrite (proj2 (Z.eqb_neq y k)) by set_solver. simpl. f_equal. apply IH. set_solver.
  - rewrite <- (IH Hd) at 2 by set_solver. constructor.
Qed.

Lemma settle_accounted k v r : k ∈ pending r -> accounted r -> accounted (settle k v r).
Proof.
  intros Hk Ha. pose proof (accounted_NoDup r Ha) as Hd. apply NoDup_app in Hd as [Hd _].
  destruct Ha as [Hn Hp]. split; [done|]. simpl. rewrite <- Hp, map_app. simpl.
  rewrite <- (filter_single (pending r) k Hd Hk) at 2. solve_Permutation.
Qed.

Lemma pending_key_elem id s k : pending_key id s = Some k -> k ∈ pending s.
Proof.
  unfold pending_key. destruct id as [| |[| |q]| | |]; try done.
  intros Hf. apply List.find_some in Hf as [Hin _]. by apply list_elem_of_In.
Qed.

Section Accounting.
Context (num_to_string : Q -> jstr).

Lemma receive_accounted m r : accounted r -> accounted (receive num_to_string m r).
Proof.
  intros Ha. unfold receive.
  repeat case_match; try done; try (by eapply settle_accounted; [eapply pending_key_elem|]);
    by eapply accounted_eq.
Qed.

Lemma receive_lines_accounted ls r : accounted r -> accounted (receive_lines num_to_string ls r).
Proof.
  revert r; induction ls as [|l ls IH]; intros r Ha; [done|]. simpl. apply IH.
  unfold receive_line. repeat case_match; try done. by apply receive_accounted.
Qed.

Lemma on_data_accounted c r : accounted r -> accounted (on_data num_to_string c r).
Proof.
  intros Ha. rewrite on_data_lines. eapply accounted_eq; [..|by apply receive_lines_accounted];
    done.
Qed.

Lemma on_end_accounted r : accounted r -> accounted (on_end r).
Proof.
  intros [Hn Hp]. split; [done|]. simpl. rewrite <- Hp, map_app, map_map. simpl.
  rewrite map_id. solve_Permutation.
Qed.

Lemma call_accounted t w i d r : accounted r -> accounted (call num_to_string t w i d r).2.
Proof.
  intros Ha. unfold call, callTool. repeat case_match; simpl; try done.
  match goal with H : request _ _ _ = _ |- _ => apply (f_equal snd) in H; simpl in H; subst end.
  by apply request_accounted.
Qed.
End Accounting.

(** * What the runtime itself sends *)

(** The tool a [tools/call] message names. *)
Definition tool_call_name (m : json) : option json :=
  if bool_decide (get (js "method") m = Some (JStr (js "tools/call")))
  then get (js "params") m ≫= get (js "name") else None.

Definition own_tool (v : json) : Prop :=
  v = JStr TOOL_CONTEXT \/ v = JStr TOOL_RETURN \/ v = JStr TOOL_FAIL.

Definition own_message (m : json) : Prop := forall v, tool_call_name m = Some v -> own_tool v.

(** [r'] comes from [r] by requests and notifications of the runtime itself. *)
Record rt_ext (r r' : runner) : Prop := RtExt {
  ext_requests : exists k : nat, nextID r' = nextID r + Z.of_nat k /\
    pending r' = pending r ++ seqZ (nextID r) (Z.of_nat k);
  ext_settled : settled r' = settled r;
  ext_cancelled : cancelled r' = cancelled r /\ aborted r' = aborted r;
  ext_stdout : exists ms, stdout r' = stdout r ++ ms /\ Forall own_message ms
}.

Lemma rt_ext_refl r : rt_ext r r.
Proof.
  split; try done.
  - exists O. simpl. rewrite app_nil_r. split; [lia|done].
  - exists []. by rewrite app_nil_r.
Qed.

Lemma rt_ext_trans a b c : rt_ext a b -> rt_ext b c -> rt_ext a c.
Proof.
  intros [(k & Hk1 & Hk2) S1 [C1 A1] (m1 & O1 & F1)] [(j & Hj1 & Hj2) S2 [C2 A2] (m2 & O2 & F2)].
  split; [|congruence|split; congruence|].
  - exists (k + j)%nat. split; [lia|]. rewrite Hj2, Hk2, <- app_assoc. f_equal.
    rewrite Nat2Z.inj_add, seqZ_app by lia. by rewrite Hk1.
  - exists (m1 ++ m2). rewrite O2, O1, <- app_assoc. split; [done|]. by apply Forall_app.
Qed.

Lemma rt_ext_accounted r r' : rt_ext r r' -> accounted r -> accounted r'.
Proof.
  intros [(k & Hn & Hp) Hs _ _] [H1 H2]. split; [lia|].
  rewrite Hp, Hs, Hn. replace (nextID r + Z.of_nat k - 1) with ((nextID r - 1) + Z.of_nat k) by lia.
  rewrite seqZ_app by lia. rewrite <- H2. replace (1 + (nextID r - 1)) with (nextID r) by lia.
  solve_Permutation.
Qed.

Lemma request_ext m p r :
  own_message (obj [(js "jsonrpc", Some (JStr (js "2.0"))); (js "id", Some (JInt (nextID r)));
                    (js "method", Some (JStr m)); (js "params", Some p)]) ->
  rt_ext r (request m p r).2.
Proof.
  intros Ho. split; try done.
  - exists 1%nat. split; [done|]. simpl. by f_equal.
  - eexists [_]. split; [reflexivity|]. by apply Forall_singleton.
Qed.

Lemma notify_ext m p r : JStr m ≠ JStr (js "tools/call") -> rt_ext r (notify m p r).
Proof.
  intros Hm. split; try done.
  - exists O. simpl. rewrite app_nil_r. split; [lia|done].
  - eexists [_]. split; [reflexivity|]. apply Forall_singleton. unfold own_message, tool_call_name.
    rewrite bool_decide_false; [done|]. unfold get, obj, fields_of. simpl. congruence.
Qed.

Lemma callTool_ext n a m r : own_tool n -> rt_ext r (callTool (Some n) a m r).2.
Proof.
  intros Hn. apply request_ext. intros v. unfold tool_call_name. rewrite bool_decide_true by done.
  simpl. by intros [= <-].
Qed.

Lemma same_ext r r' :
  nextID r' = nextID r -> pending r' = pending r -> settled r' = settled r ->
  cancelled r' = cancelled r -> aborted r' = aborted r -> stdout r' = stdout r -> rt_ext r r'.
Proof.
  intros H1 H2 H3 H4 H5 H6. split; [|done|done|].
  - exists O. simpl. rewrite app_nil_r. split; [lia|done].
  - exists []. by rewrite app_nil_r.
Qed.

Create HintDb runner_db.
#[local] Hint Resolve rt_ext_refl : runner_db.

Section SessionFacts.
Context (num_to_string : Q -> jstr) (engine_stack : thrown -> option jstr).
Context (programPath : option jstr).
Let fail := fail num_to_string engine_stack.
Let main_fails := main_fails num_to_string engine_stack.
Let runtime_failed := runtime_failed num_to_string engine_stack.

Definition fail_message (id : Z) (m : json) : Prop :=
  exists args, m = obj [(js "jsonrpc", Some (JStr (js "2.0"))); (js "id", Some (JInt id));
    (js "method", Some (JStr (js "tools/call")));
    (js "params", Some (obj [(js "name", Some (JStr TOOL_FAIL)); (js "arguments", Some args);
                             (js "_meta", None)]))].

Definition return_message (id : Z) (v m : json) : Prop :=
  m = obj [(js "jsonrpc", Some (JStr (js "2.0"))); (js "id", Some (JInt id));
    (js "method", Some (JStr (js "tools/call")));
    (js "params", Some (obj [(js "name", Some (JStr TOOL_RETURN));
       (js "arguments", Some (JObj [(js "value", v)])); (js "_meta", None)]))].

(** What ended the process: with 0 an accepted [atoll_return] while stdin was open,
    with 1 a settled [atoll_fail], or nothing at all after stdin had ended. *)
Definition exit_told (r : runner) (stdin_ended : bool) (x : ending) : Prop :=
  match x with
  | Exited c =>
      (c = 0 /\ stdin_ended = false /\ exists id res w v m, (id, Resolved res) ∈ settled r /\
         unwrapResult num_to_string res = Ok w /\ m ∈ stdout r /\ return_message id v m) \/
      (c = 1 /\ exists id res m, (id, res) ∈ settled r /\ m ∈ stdout r /\ fail_message id m)
  | Drained => stdin_ended = true
  end.

Lemma exit_told_grows r r' b x :
  (forall m, m ∈ stdout r -> m ∈ stdout r') -> (forall e, e ∈ settled r -> e ∈ settled r') ->
  exit_told r b x -> exit_told r' b x.
Proof.
  intros Ho Hs. destruct x as [c|]; [|done].
  intros [(-> & -> & id & res & w & v & m & ? & ? & ? & ?)|(-> & id & res & m & ? & ? & ?)].
  - left. split; [done|]. split; [done|]. exists id, res, w, v, m. auto.
  - right. split; [done|]. exists id, res, m. auto.
Qed.

(** The tool a session can see: the runtime's own or one that was listed. *)
Definition declared (r : runner) (v : json) : Prop :=
  own_tool v \/ exists key, toolNames r !! key = Some (Some v) /\ truthy_json (Some v) = true.

Record session_inv (s : session) : Prop := SessionInv {
  si_accounted : accounted (rt s);
  si_failing : Forall (fun id => exists m, m ∈ stdout (rt s) /\ fail_message id m) (failing s);
  si_return : forall id, ph s = AwaitReturn id -> exists v m, m ∈ stdout (rt s) /\ return_message id v m;
  si_early : forall id, ph s = AwaitInitialize id \/ ph s = AwaitList id -> toolNames (rt s) = ∅;
  si_declared : forall m v, m ∈ stdout (rt s) -> tool_call_name m = Some v -> declared (rt s) v;
  si_exit : forall x, exit s = Some x -> exit_told (rt s) (ended s) x;
  si_ended : ended s = true -> cancelled (rt s) = true /\ aborted (rt s) = true /\
    forall id, id ∈ pending (rt s) -> id ∈ failing s \/ awaited (ph s) = Some id
}.

Lemma elem_ext (r r' : runner) m : rt_ext r r' -> m ∈ stdout r -> m ∈ stdout r'.
Proof. intros [_ _ _ (ms & -> & _)]. set_solver. Qed.

(** Moving on by the runtime's own messages. *)
Lemma inv_move s s' :
  session_inv s -> rt_ext (rt s) (rt s') -> exit s' = exit s -> ended s' = ended s ->
  (forall v, declared (rt s) v -> declared (rt s') v) ->
  Forall (fun id => exists m, m ∈ stdout (rt s') /\ fail_message id m) (failing s') ->
  (forall id, ph s' = AwaitReturn id -> exists v m, m ∈ stdout (rt s') /\ return_message id v m) ->
  (forall id, ph s' = AwaitInitialize id \/ ph s' = AwaitList id -> toolNames (rt s') = ∅) ->
  (ended s = true -> forall id, id ∈ pending (rt s') -> id ∈ failing s' \/ awaited (ph s') = Some id) ->
  session_inv s'.
Proof.
  intros [Ha Hf Hr He Hd Hx Hn] Hext Hex Hen Hdec Hf' Hr' He' Hp'.
  pose proof Hext as [_ Hs [Hc Hab] (ms & Hms & HF)]. split; try done.
  - by eapply rt_ext_accounted.
  - intros m v Hm Hv. rewrite Hms in Hm. apply elem_of_app in Hm as [Hm|Hm].
    + eauto.
    + left. rewrite Forall_forall in HF. by apply (HF m Hm).
  - intros x Hx'. rewrite Hex in Hx'. rewrite Hen. eapply exit_told_grows; [..|by apply Hx]; [|by rewrite Hs].
    intros m. by apply elem_ext.
  - rewrite Hen. intros E. destruct (Hn E) as (? & ? & _). rewrite Hc, Hab. auto.
Qed.

Lemma failing_ext s r :
  session_inv s -> rt_ext (rt s) r ->
  Forall (fun id => exists m, m ∈ stdout r /\ fail_message id m) (failing s).
Proof.
  intros Hi Hext. eapply Forall_impl; [apply (si_failing s Hi)|].
  simpl. intros id (m & Hm & Hfm). eauto using elem_ext.
Qed.

Lemma fail_ext k e fb s : rt_ext (rt s) (rt (fail k e fb s)).
Proof. apply callTool_ext. right. by right. Qed.

Lemma fail_failing k e fb s :
  session_inv s ->
  Forall (fun id => exists m, m ∈ stdout (rt (fail k e fb s)) /\ fail_message id m)
    (failing (fail k e fb s)).
Proof.
  intros Hi. apply Forall_app. split; [by eapply failing_ext, fail_ext|].
  apply Forall_singleton. eexists. split; [|by eexists].
  simpl. apply elem_of_app. right. by apply list_elem_of_singleton.
Qed.

Lemma fail_pending k e fb s id :
  id ∈ pending (rt (fail k e fb s)) -> id ∈ pending (rt s) \/ id ∈ failing (fail k e fb s).
Proof. simpl. rewrite !elem_of_app, !list_elem_of_singleton. tauto. Qed.

Lemma fail_failing_sub k e fb s id : id ∈ failing s -> id ∈ failing (fail k e fb s).
Proof. simpl. rewrite elem_of_app. tauto. Qed.

Lemma fail_inv k e fb s : session_inv s -> session_inv (fail k e fb s).
Proof.
  intros Hi. eapply inv_move; try done; [apply fail_ext|by apply fail_failing|..].
  - intros id Hp. destruct (si_return s Hi id Hp) as (v & m & Hm & Hv).
    exists v, m. eauto using elem_ext, fail_ext.
  - intros id Hp. apply (si_early s Hi id Hp).
  - intros E id Hp. destruct (si_ended s Hi E) as (_ & _ & Hown).
    apply fail_pending in Hp as [Hp|Hp]; [|by left].
    destruct (Hown id Hp); [left; by apply fail_failing_sub|by right].
Qed.

(** Nobody else will answer the request [main] was waiting for. *)
Definition quiet (s : session) : Prop :=
  forall id, awaited (ph s) = Some id -> id ∉ pending (rt s).

Lemma main_fails_inv k e fb s : session_inv s -> quiet s -> session_inv (main_fails k e fb s).
Proof.
  intros Hi Hq. eapply (inv_move s); try done;
    [apply (fail_ext k e fb)|by apply (fail_failing k e fb)| |].
  - by intros id [|].
  - intros E id Hp. destruct (si_ended s Hi E) as (_ & _ & Hown). left.
    apply (fail_pending k e fb) in Hp as [Hp|Hp]; [|done].
    destruct (Hown id Hp) as [Hf|Hw]; [by apply (fail_failing_sub k e fb)|].
    by destruct (Hq id Hw).
Qed.

(** A new request of [main] in a new phase. *)
Lemma await_inv s r id p :
  session_inv s -> quiet s -> rt_ext (rt s) r -> (forall v, declared (rt s) v -> declared r v) ->
  (forall x, x ∈ pending r -> x ∈ pending (rt s) \/ x = id) -> awaited p = Some id ->
  (forall x, p = AwaitReturn x -> exists v m, m ∈ stdout r /\ return_message x v m) ->
  (forall x, p = AwaitInitialize x \/ p = AwaitList x -> toolNames r = ∅) ->
  session_inv (with_phase p (with_rt r s)).
Proof.
  intros Hi Hq Hext Hdec Hpend Haw Hret Hear. eapply (inv_move s); try done.
  - by apply (failing_ext s).
  - intros E x Hx. simpl. destruct (si_ended s Hi E) as (_ & _ & Hown).
    destruct (Hpend x Hx) as [Hx'| ->]; [|by right].
    destruct (Hown x Hx') as [Hf|Hw]; [by left|]. by destruct (Hq x Hw).
Qed.

Lemma request_pending m p r x :
  x ∈ pending (request m p r).2 -> x ∈ pending r \/ x = nextID r.
Proof. simpl. rewrite elem_of_app, list_elem_of_singleton. tauto. Qed.

Lemma after_initialize_inv s :
  session_inv s -> quiet s -> (exists id, ph s = AwaitInitialize id) ->
  session_inv (after_initialize s).
Proof.
  intros Hi Hq [id0 Hid].
  set (r1 := notify (js "notifications/initialized") (JObj []) (rt s)).
  assert (rt_ext (rt s) r1) as H1 by (apply notify_ext; discriminate).
  assert (rt_ext r1 (request (js "tools/list") (JObj []) r1).2) as H2
    by (apply request_ext; intros v; unfold tool_call_name; by rewrite bool_decide_false).
  apply (await_inv s _ (nextID r1)); try done.
  - by eapply rt_ext_trans.
  - intros x Hx. by apply request_pending in Hx.
  - intros x _. simpl. by apply (si_early s Hi id0); left.
Qed.

Lemma after_list_inv v s :
  session_inv s -> quiet s -> (exists id, ph s = AwaitList id) ->
  session_inv (after_list num_to_string engine_stack v s).
Proof.
  intros Hi Hq [id0 Hid]. assert (He : toolNames (rt s) = ∅) by (apply (si_early s Hi id0); by right).
  assert (Hdec : forall names w, declared (rt s) w -> declared (set_tools names (rt s)) w).
  { intros names w [Hw|(key & Hk & _)]; [by left|]. by rewrite He, lookup_empty in Hk. }
  unfold after_list. destruct (listed_tools v) as [tools|e]; [|by apply main_fails_inv].
  destruct (register_tools num_to_string tools (toolNames (rt s))) as [names [e|]].
  - eapply (inv_move s); try done; cbn -[CodeRunner.fail].
    + eapply rt_ext_trans; [|apply (fail_ext (js "exception") (Some e) (js "runtime failed") (with_rt (set_tools names (rt s)) s))]. by apply same_ext.
    + intros w Hw. by apply (Hdec names) in Hw.
    + apply Forall_app. split; [|apply Forall_singleton; eexists; split; [|by eexists]; cbn; apply elem_of_app; right; by apply list_elem_of_singleton].
      eapply Forall_impl; [apply (si_failing s Hi)|]. cbn. intros id (m & Hm & Hfm). exists m. split; [|done]. apply elem_of_app. by left.
    + by intros x [|].
    + intros E id. cbn. rewrite elem_of_app, list_elem_of_singleton. intros Hp. left. apply elem_of_app. rewrite list_elem_of_singleton.
      destruct Hp as [Hp| ->]; [left|by right]. destruct (si_ended s Hi E) as (_ & _ & Hown). destruct (Hown id Hp) as [|Hw]; [done|]. by destruct (Hq id Hw).
  - apply (await_inv s _ (nextID (set_tools names (rt s)))); try done.
    + eapply rt_ext_trans; [|apply callTool_ext; by left]. by apply same_ext.
    + intros w Hw. by apply (Hdec names) in Hw.
    + intros x Hx. by apply request_pending in Hx.
    + by intros x [|].
Qed.

Lemma with_requestID_inv v s :
  session_inv s -> session_inv (with_rt (set_requestID v (rt s)) s).
Proof. intros [? ? ? ? ? ? ?]. by split. Qed.

Lemma idle_phase_inv p s :
  session_inv s -> quiet s -> awaited p = None -> session_inv (with_phase p s).
Proof.
  intros Hi Hq Hp. eapply (inv_move s); try done; [apply rt_ext_refl|apply (si_failing s Hi)|..].
  - intros id E. simpl in E. by subst p.
  - intros id E. simpl in E. by destruct E; subst p.
  - intros E id Hx. destruct (si_ended s Hi E) as (_ & _ & Hown).
    destruct (Hown id Hx) as [|Hw]; [by left|]. by destruct (Hq id Hw).
Qed.

Lemma after_context_inv v s :
  session_inv s -> quiet s ->
  session_inv (after_context num_to_string engine_stack programPath v s).
Proof.
  intros Hi Hq. unfold after_context.
  destruct (unwrapResult num_to_string v) as [[c|]|e]; [|by apply main_fails_inv..].
  set (s1 := with_rt _ s).
  assert (session_inv s1) as Hi1 by (by apply with_requestID_inv).
  assert (quiet s1) as Hq1 by done.
  remember programPath as pp eqn:Epp. clear Epp.
  destruct c; [by apply main_fails_inv|..];
    (destruct pp as [[|? ?]|]; [by apply main_fails_inv| |by apply main_fails_inv];
     by apply idle_phase_inv).
Qed.

Lemma after_import_inv m s :
  session_inv s -> quiet s -> session_inv (after_import num_to_string engine_stack m s).
Proof.
  intros Hi Hq. destruct m; [by apply idle_phase_inv|by apply main_fails_inv..].
Qed.

Lemma after_run_inv o s :
  session_inv s -> quiet s -> session_inv (after_run num_to_string engine_stack o s).
Proof.
  intros Hi Hq. destruct o; [|by apply main_fails_inv..]. simpl.
  apply (await_inv s _ (nextID (rt s))); try done.
  - apply (callTool_ext (JStr TOOL_RETURN)). right. by left.
  - intros x Hx. by apply request_pending in Hx.
  - intros x [= <-]. exists v. eexists. split; [|reflexivity].
    simpl. apply elem_of_app. right. by apply list_elem_of_singleton.
  - by intros x [|].
Qed.

Lemma settled_quiet s e : accounted (rt s) -> e ∈ settled (rt s) -> e.1 ∉ pending (rt s).
Proof.
  intros Ha He Hp. apply accounted_NoDup, NoDup_app in Ha as (_ & Hd & _).
  apply (Hd _ Hp), list_elem_of_In, in_map, list_elem_of_In, He.
Qed.

(** After the end of stdin promises are only rejected. *)
Definition only_rejected (s : session) (e : Z * settlement) : Prop := ended s = true -> exists x, e.2 = Rejected x.

Lemma resume_inv e s :
  session_inv s -> e ∈ settled (rt s) -> only_rejected s e ->
  session_inv (resume num_to_string engine_stack programPath e s).
Proof.
  intros Hi He Hrej. unfold resume. destruct (exit s) eqn:Ex; [done|].
  case_bool_decide as Hf.
  - destruct Hi as [Ha Hfa Hr Hea Hd Hx Hn]. split; try done. simpl. intros x [= <-]. right.
    split; [done|]. rewrite Forall_forall in Hfa. destruct (Hfa _ Hf) as (m & Hm & Hfm).
    destruct e as [id r]. by exists id, r, m.
  - case_bool_decide as Hw; [|done].
    assert (quiet s) as Hq.
    { intros id Hid. rewrite Hid in Hw. injection Hw as ->.
      apply settled_quiet; [apply (si_accounted s Hi)|done]. }
    unfold main_continues. destruct e as [id [v|err]]; simpl in *; [|by apply main_fails_inv].
    destruct (ph s) eqn:Ep; try done; injection Hw as ->.
    + apply after_initialize_inv; eauto.
    + apply after_list_inv; eauto.
    + by apply after_context_inv.
    + unfold after_return. destruct (unwrapResult num_to_string v) as [w|err] eqn:Eu;
        [|by apply main_fails_inv].
      destruct (si_return s Hi id Ep) as (rv & m & Hm & Hrm).
      destruct Hi as [Ha Hfa Hr Hea Hd Hx Hn]. split; try done. simpl. intros x [= <-]. left.
      split; [done|]. split; [|by exists id, v, w, rv, m].
      destruct (ended s) eqn:Ee; [|done]. by destruct (Hrej Ee).
Qed.

Lemma resume_settled e s :
  settled (rt (resume num_to_string engine_stack programPath e s)) = settled (rt s).
Proof.
  unfold resume, main_continues, after_initialize, after_list, after_context, after_return,
    CodeRunner.runtime_failed, CodeRunner.main_fails, CodeRunner.fail.
  destruct (exit s); [done|]. case_bool_decide; [done|]. case_bool_decide; [|done].
  destruct e as [id [v|err]]; [|done]. simpl.
  destruct (ph s); try done.
  - destruct (listed_tools v) as [tools|]; [|done]. by destruct (register_tools _ _ _) as [names [e|]].
  - destruct (unwrapResult num_to_string v) as [[c|]|e]; try done.
    destruct programPath as [[|? ?]|]; by destruct c.
  - by destruct (unwrapResult num_to_string v).
Qed.

Lemma resume_ended e s : ended (resume num_to_string engine_stack programPath e s) = ended s.
Proof.
  unfold resume, main_continues, after_initialize, after_list, after_context, after_return,
    CodeRunner.runtime_failed, CodeRunner.main_fails, CodeRunner.fail.
  destruct (exit s); [done|]. case_bool_decide; [done|]. case_bool_decide; [|done].
  destruct e as [id [v|err]]; [|done]. simpl.
  destruct (ph s); try done.
  - destruct (listed_tools v) as [tools|]; [|done]. by destruct (register_tools _ _ _) as [names [e|]].
  - destruct (unwrapResult num_to_string v) as [[c|]|e]; try done.
    destruct programPath as [[|? ?]|]; by destruct c.
  - by destruct (unwrapResult num_to_string v).
Qed.

Lemma resume_all_inv es s :
  session_inv s -> (forall e, e ∈ es -> e ∈ settled (rt s) /\ only_rejected s e) ->
  session_inv (foldl (fun acc e => resume num_to_string engine_stack programPath e acc) s es).
Proof.
  revert s; induction es as [|e es IH]; intros s Hi He; simpl; [done|].
  apply IH.
  - apply resume_inv; [done|apply He; set_solver..].
  - intros e' He'. unfold only_rejected. rewrite resume_settled, resume_ended. apply He. set_solver.
Qed.

(** The promises a handler settled. *)
Lemma newly_settled f s e :
  Forall (only_rejected s) (drop (length (settled (rt s))) (settled (f (rt s)))) ->
  e ∈ drop (length (settled (rt s))) (settled (f (rt s))) -> e ∈ settled (rt (with_rt (f (rt s)) s)) /\ only_rejected (with_rt (f (rt s)) s) e.
Proof.
  intros HF He. split; [|by rewrite Forall_forall in HF; apply HF].
  simpl. rewrite <- (take_drop (length (settled (rt s))) (settled (f (rt s)))). apply elem_of_app. by right.
Qed.

(** What receiving lines may change. *)
Record rx_ext (r r' : runner) : Prop := RxExt {
  rx_tools : toolNames r' = toolNames r;
  rx_settled : exists l, settled r' = settled r ++ l;
  rx_stdout : exists ms, stdout r' = stdout r ++ ms /\ Forall own_message ms
}.

Lemma rx_refl r : rx_ext r r.
Proof. split; [done|exists []; by rewrite app_nil_r|exists []; by rewrite app_nil_r]. Qed.

Lemma rx_trans a b c : rx_ext a b -> rx_ext b c -> rx_ext a c.
Proof.
  intros [T1 (l1 & S1) (m1 & O1 & F1)] [T2 (l2 & S2) (m2 & O2 & F2)]. split.
  - congruence.
  - exists (l1 ++ l2). by rewrite S2, S1, app_assoc.
  - exists (m1 ++ m2). rewrite O2, O1, app_assoc. split; [done|]. by apply Forall_app.
Qed.

Lemma settle_rx k v r : rx_ext r (settle k v r).
Proof. split; [done|by eexists|exists []; by rewrite app_nil_r]. Qed.

Lemma send_rx m r :
  lookup_field (js "method") (fields_of m) = None -> rx_ext r (send m r).
Proof.
  intros Hm. split; [done|exists []; by rewrite app_nil_r|].
  eexists [_]. split; [reflexivity|]. apply Forall_singleton. intros v. unfold tool_call_name.
  rewrite bool_decide_false; [done|]. unfold get, obj. simpl. rewrite Hm. discriminate.
Qed.

Lemma receive_rx m r : rx_ext r (receive num_to_string m r).
Proof.
  unfold receive.
  repeat case_match; try apply rx_refl; try apply settle_rx; by apply send_rx.
Qed.

Lemma receive_lines_rx ls r : rx_ext r (receive_lines num_to_string ls r).
Proof.
  revert r; induction ls as [|l ls IH]; intros r; [apply rx_refl|]. simpl.
  eapply rx_trans; [|apply IH]. unfold receive_line.
  repeat case_match; try apply rx_refl. apply receive_rx.
Qed.

Lemma on_data_rx c r : rx_ext r (on_data num_to_string c r).
Proof.
  rewrite on_data_lines. destruct (receive_lines_rx (complete_lines (inputBuffer r ++ c)) r).
  by split.
Qed.

(** The invariant when the input settles promises. *)
Lemma rx_inv s r :
  session_inv s -> accounted r -> rx_ext (rt s) r ->
  (ended s = true -> cancelled r = true /\ aborted r = true /\
     forall id, id ∈ pending r -> id ∈ failing s \/ awaited (ph s) = Some id) ->
  session_inv (with_rt r s).
Proof.
  intros [Ha Hf Hr He Hd Hx Hn] Hacc [Ht (l & Hs) (ms & Hms & HF)] Hend.
  assert (forall m, m ∈ stdout (rt s) -> m ∈ stdout r) as Hin by (rewrite Hms; set_solver).
  split; simpl; try done.
  - eapply Forall_impl; [exact Hf|]. simpl. intros id (m & Hm & Hfm). eauto.
  - intros id Hid. destruct (Hr id Hid) as (v & m & Hm & Hv). eauto.
  - intros id Hid. rewrite Ht. eauto.
  - intros m v Hm Hv. unfold declared. rewrite Ht.
    rewrite Hms in Hm. apply elem_of_app in Hm as [Hm|Hm]; [by apply (Hd m)|].
    left. rewrite Forall_forall in HF. by apply (HF m Hm).
  - intros x Hx'. eapply exit_told_grows; [exact Hin| |by apply Hx]. rewrite Hs. set_solver.
Qed.

(** What a handler of stdin leaves before the continuations run. *)
Definition stdin_ready (f : runner -> runner) (s : session) : Prop :=
  session_inv (with_rt (f (rt s)) s) /\ Forall (only_rejected s) (drop (length (settled (rt s))) (settled (f (rt s)))) /\
  rx_ext (rt s) (f (rt s)).

Lemma data_ready c s : session_inv s -> ended s = false -> stdin_ready (on_data num_to_string c) s.
Proof.
  intros Hi He. split; [|split; [apply Forall_forall; intros e _ E; congruence|apply on_data_rx]]. apply rx_inv; [done|..].
  - apply on_data_accounted, (si_accounted s Hi).
  - apply on_data_rx.
  - congruence.
Qed.

Lemma end_ready s :
  session_inv s -> ended s = false -> exit s = None ->
  stdin_ready on_end (Session (rt s) (ph s) (failing s) true (exit s)).
Proof.
  intros Hi He Hex. assert (Hx : rx_ext (rt s) (on_end (rt s))) by (split; [done|by eexists|exists []; by rewrite app_nil_r]).
  split; [|split; [|done]]; cycle 1.
  { simpl. rewrite drop_app_length. apply Forall_map, Forall_forall. intros id _ _. by eexists. }
  assert (session_inv (with_rt (on_end (rt s)) s)) as Hi'.
  { apply rx_inv; [done|by apply on_end_accounted, (si_accounted s Hi)|done|congruence]. }
  destruct Hi' as [? ? ? ? ? ? ?]. split; try done; simpl; [congruence|]. intros _.
  repeat split; try done. intros id Hid. by apply elem_of_nil in Hid.
Qed.

Lemma with_stdin_inv f s : stdin_ready f s -> session_inv (with_stdin num_to_string engine_stack programPath f s).
Proof. intros (Hi & HF & _). apply resume_all_inv; [done|]. intros e He. by apply newly_settled. Qed.

(** [atoll.call] sends only what was listed. *)
Lemma call_inv t w i d s :
  session_inv s -> session_inv (with_rt (call num_to_string t w i d (rt s)).2 s).
Proof.
  intros Hi. unfold call. destruct (cancelled (rt s)) eqn:Ec; [by destruct s|].
  destruct (toolNames (rt s) !! _) as [name|] eqn:El; [|by destruct s].
  destruct (truthy_json name) eqn:Et; [|by destruct s].
  destruct name as [name|]; [|done]. simpl.
  assert (ended s = false) as Hen.
  { destruct (ended s) eqn:E; [|done]. destruct (si_ended s Hi E). congruence. }
  pose proof Hi as [Ha Hf Hr He Hd Hx Hn].
  split; simpl; try done.
  - by apply (request_accounted (js "tools/call")
      (obj [(js "name", Some name); (js "arguments", Some (callArguments i));
            (js "_meta", deadline_meta d)]) (rt s)).
  - eapply Forall_impl; [exact Hf|]. simpl. intros id (m & Hm & Hfm).
    exists m. rewrite elem_of_app. auto.
  - intros id Hid. destruct (Hr id Hid) as (v & m & Hm & Hv).
    exists v, m. rewrite elem_of_app. auto.
  - intros m v Hm Hv. apply elem_of_app in Hm as [Hm|Hm]; [by apply (Hd m)|].
    apply list_elem_of_singleton in Hm as ->. unfold tool_call_name in Hv.
    rewrite bool_decide_true in Hv by done. simpl in Hv. injection Hv as <-.
    right. eauto.
  - intros x Hx'. eapply exit_told_grows; [| |by apply Hx]; [|done]. intros m Hm. apply elem_of_app. by left.
  - congruence.
Qed.

Lemma notice_inv r s :
  session_inv s -> rt_ext (rt s) r -> toolNames r = toolNames (rt s) ->
  pending r = pending (rt s) -> session_inv (with_rt r s).
Proof.
  intros Hi Hext Ht Hp. apply rx_inv; [done|by eapply rt_ext_accounted, si_accounted| |].
  - destruct Hext as [_ Hs _ Ho]. split; [done|exists []; by rewrite app_nil_r|done].
  - intros E. destruct Hext as [_ _ [-> ->] _]. rewrite Hp. by apply (si_ended s Hi).
Qed.

Lemma session_step_inv s s' :
  session_step num_to_string engine_stack programPath s s' -> session_inv s -> session_inv s'.
Proof.
  intros Hst Hi. destruct Hst as [e s s' Hs]. unfold session_step_fn in Hs.
  destruct (exit s) eqn:Ex; [done|]. destruct e.
  - destruct (ended s) eqn:E; [done|]. injection Hs as <-. by apply with_stdin_inv, data_ready.
  - destruct (ended s) eqn:E; [done|]. injection Hs as <-. rewrite <- Ex. by apply with_stdin_inv, end_ready.
  - destruct (ph s) eqn:Ep; try done. injection Hs as <-. apply after_import_inv; [done|].
    intros id Hid. by rewrite Ep in Hid.
  - destruct (ph s) eqn:Ep; try done. injection Hs as <-. apply after_run_inv; [done|].
    intros id Hid. by rewrite Ep in Hid.
  - injection Hs as <-. by apply call_inv.
  - injection Hs as <-. apply notice_inv; try done.
    eapply rt_ext_trans; [|by apply notify_ext]. by apply same_ext.
  - injection Hs as <-. apply notice_inv; try done. by apply notify_ext.
  - injection Hs as <-. by apply fail_inv.
  - destruct (ended s) eqn:E; [|done]. injection Hs as <-. destruct Hi as [? ? ? ? ? ? Hn].
    split; simpl; try done; [by intros x [= <-]|auto].
Qed.

Lemma session_init_inv : session_inv session_init.
Proof.
  split; simpl; try done.
  - intros m v Hm Hv. apply list_elem_of_singleton in Hm as ->. by vm_compute in Hv.
Qed.

Definition session_reachable (s : session) : Prop :=
  rtc (session_step num_to_string engine_stack programPath) session_init s.

Lemma session_reachable_inv s : session_reachable s -> session_inv s.
Proof.
  unfold session_reachable. intros Hr. pose proof session_init_inv as Hi.
  induction Hr as [|x y z Hs Hr IH]; [done|]. apply IH. by eapply session_step_inv.
Qed.
(** ** What the host declared *)

Definition list_message (id : Z) : json :=
  obj [(js "jsonrpc", Some (JStr (js "2.0"))); (js "id", Some (JInt id));
       (js "method", Some (JStr (js "tools/list"))); (js "params", Some (JObj []))].

(** Whether a tool of the host's list can be called under a key: its metadata has a
    target and a word, and the key is the target, or the actor if there is one, a
    space and the word. *)
Definition declares (key : jstr) (tool : json) : bool :=
  let meta name := get_opt (js name) (get (js "_meta") tool) in
  let text v := to_string_opt num_to_string v in
  truthy_json (meta "atoll/target"%string) && truthy_json (meta "atoll/word"%string) &&
  existsb (fun who => truthy_json who && streq (text who ++ js " " ++ text (meta "atoll/word"%string)) key)
    [meta "atoll/target"%string; meta "atoll/actor"%string].

(** The loop over the list stops at a [null]. *)
Fixpoint before_null (tools : list json) : list json :=
  match tools with [] | JNull :: _ => [] | t :: r => t :: before_null r end.

(** The tool a key stands for: the last one that declares it. *)
Definition declared_tool (tools : list json) (key : jstr) : option json := List.find (declares key) (rev (before_null tools)).

Lemma find_snoc {A} (f : A -> bool) l x :
  List.find f (l ++ [x]) = match List.find f l with Some y => Some y | None => if f x then Some x else None end.
Proof. induction l as [|y l IH]; [done|]. cbn. by destruct (f y). Qed.

Lemma meta_field k tool : get_opt k (or_else (get (js "_meta") tool) (Some (JObj []))) = get_opt k (get (js "_meta") tool).
Proof. unfold or_else, get_opt. destruct (get (js "_meta") tool) as [[|[]|[]|[]| |]|]; try done. by destruct (truthy_json _). Qed.

Lemma register_tool_table tool names key :
  register_tool num_to_string tool names !! key = if declares key tool then Some (get (js "name") tool) else names !! key.
Proof.
  unfold register_tool, declares. cbv zeta. rewrite !meta_field. cbn [existsb].
  set (target := get_opt (js "atoll/target") _). set (word := get_opt (js "atoll/word") _). set (actor := get_opt (js "atoll/actor") _).
  destruct (truthy_json target), (truthy_json word); try done. cbn [negb orb andb]. rewrite orb_false_r. unfold tool_key.
  destruct (truthy_json actor); rewrite ?lookup_insert; repeat case_decide; subst; rewrite ?streq_refl, ?orb_true_r; try done;
    repeat match goal with H : ?a ≠ ?b |- context [streq ?a ?b] => rewrite (proj2 (streq_false a b) H) end; done.
Qed.

Lemma register_tools_table tools names key :
  (register_tools num_to_string tools names).1 !! key =
  match declared_tool tools key with Some t => Some (get (js "name") t) | None => names !! key end.
Proof.
  unfold declared_tool. revert names; induction tools as [|t tools IH]; intros names; [done|].
  assert (H : (register_tools num_to_string tools (register_tool num_to_string t names)).1 !! key =
    match List.find (declares key) (rev (before_null tools) ++ [t]) with Some t => Some (get (js "name") t) | None => names !! key end).
  { rewrite IH, find_snoc, register_tool_table. destruct (List.find _ _); [done|]. by destruct (declares key t). }
  by destruct t.
Qed.

(** The host answered a [tools/list] request with these tools. *)
Definition offered (r : runner) (tools : list json) : Prop :=
  exists id listed, list_message id ∈ stdout r /\ (id, Resolved listed) ∈ settled r /\ listed_tools listed = Ok tools.

(** They are what is in the table. *)
Definition listing (r : runner) (tools : list json) : Prop :=
  offered r tools /\ forall key, toolNames r !! key = get (js "name") <$> declared_tool tools key.

Definition late (p : phase) : bool :=
  match p with AwaitContext _ | Importing | ProgramRuns | AwaitReturn _ => true | _ => false end.

Record tools_inv (s : session) : Prop := ToolsInv {
  ti_sent : forall id, ph s = AwaitList id -> list_message id ∈ stdout (rt s);
  ti_table : late (ph s) = true \/ toolNames (rt s) ≠ ∅ -> exists tools, listing (rt s) tools
}.

Lemma ti_keep s s' :
  tools_inv s -> toolNames (rt s') = toolNames (rt s) ->
  (forall m, m ∈ stdout (rt s) -> m ∈ stdout (rt s')) -> (forall e, e ∈ settled (rt s) -> e ∈ settled (rt s')) ->
  (forall id, ph s' = AwaitList id -> ph s = AwaitList id \/ list_message id ∈ stdout (rt s')) ->
  (late (ph s') = true -> late (ph s) = true) -> tools_inv s'.
Proof.
  intros [H1 H2] Ht Ho Hs Hp Hl. split.
  - intros id Hid. destruct (Hp id Hid) as [H|H]; [|done]. by apply Ho, H1.
  - rewrite Ht. intros H. destruct H2 as (tools & (id & listed & H3 & H4 & H5) & H6); [naive_solver|].
    exists tools. split; [exists id, listed; auto|by rewrite Ht].
Qed.

Ltac keep_tools Ht := eapply (ti_keep _ _ Ht); cbn; try done; try (intros ? ?; apply elem_of_app; by left); try (intros ? ?; left; assumption).

Lemma main_fails_tools k e fb s : tools_inv s -> tools_inv (main_fails k e fb s).
Proof. intros Ht. keep_tools Ht. Qed.

Lemma after_list_tools id v s :
  session_inv s -> tools_inv s -> ph s = AwaitList id -> (id, Resolved v) ∈ settled (rt s) ->
  tools_inv (after_list num_to_string engine_stack v s).
Proof.
  intros Hi Ht Hp He. unfold after_list. destruct (listed_tools v) as [tools|e] eqn:El; [|by apply main_fails_tools].
  pose proof (register_tools_table tools (toolNames (rt s))) as Htab.
  assert (H0 : toolNames (rt s) = ∅) by (apply (si_early s Hi id); by right).
  destruct (register_tools _ _ _) as [names failed]. cbn [fst] in Htab.
  assert (Hlist : forall r, toolNames r = names -> (forall m, m ∈ stdout (rt s) -> m ∈ stdout r) -> settled r = settled (rt s) -> listing r tools).
  { intros r Hn Ho Hs. split; [exists id, v; split_and!; [by apply Ho, (ti_sent s Ht)|by rewrite Hs|done]|]. intros key. rewrite Hn, Htab, H0, lookup_empty.
    by destruct (declared_tool tools key). }
  destruct failed as [e|]; (split; [done|]); intros _; exists tools; apply Hlist; cbn; try done; intros m Hm; apply elem_of_app; by left.
Qed.

Lemma resume_tools e s :
  session_inv s -> tools_inv s -> e ∈ settled (rt s) -> tools_inv (resume num_to_string engine_stack programPath e s).
Proof.
  intros Hi Ht He. unfold resume. destruct (exit s); [done|]. case_bool_decide; [by keep_tools Ht|].
  case_bool_decide as Hw; [|done]. unfold main_continues. destruct e as [id [v|x]]; cbn [fst snd] in *; [|by apply main_fails_tools].
  destruct (ph s) as [j|j|j| | |j|] eqn:Ep; try done; injection Hw as ->.
  - keep_tools Ht; [intros m Hm; apply elem_of_app; left; apply elem_of_app; by left|].
    intros j [= <-]. right. apply elem_of_app. right. by apply list_elem_of_singleton.
  - by eapply after_list_tools.
  - unfold after_context. destruct (unwrapResult num_to_string v) as [[c|]|x]; [|by apply main_fails_tools..].
    assert (Hs : forall r, r = set_requestID (get (js "request_id") c) (rt s) -> tools_inv (with_rt r s)) by (intros r ->; keep_tools Ht).
    destruct c; [by apply main_fails_tools|..]; (destruct programPath as [[|? ?]|]; [by apply main_fails_tools, Hs| |by apply main_fails_tools, Hs];
      keep_tools Ht; by rewrite Ep).
  - unfold after_return. destruct (unwrapResult num_to_string v); [|by apply main_fails_tools]. keep_tools Ht.
Qed.

Lemma resume_all_tools es s :
  session_inv s -> tools_inv s -> (forall e, e ∈ es -> e ∈ settled (rt s) /\ only_rejected s e) ->
  tools_inv (foldl (fun acc e => resume num_to_string engine_stack programPath e acc) s es).
Proof.
  revert s; induction es as [|e es IH]; intros s Hi Ht He; simpl; [done|]. destruct (He e) as [He1 He2]; [set_solver|]. apply IH.
  - by apply resume_inv.
  - by apply resume_tools.
  - intros e' He'. unfold only_rejected. rewrite resume_settled, resume_ended. apply He. set_solver.
Qed.

Lemma with_stdin_tools f s : tools_inv s -> stdin_ready f s -> tools_inv (with_stdin num_to_string engine_stack programPath f s).
Proof.
  intros Ht (Hi & HF & [Hn (l & Hs) (ms & Ho & _)]). apply resume_all_tools; [done| |intros e He; by apply newly_settled].
  eapply (ti_keep s); try done; [intros m; cbn; rewrite Ho; set_solver|intros e; cbn; rewrite Hs; set_solver|intros id Hid; by left].
Qed.

Lemma session_step_tools s s' :
  session_step num_to_string engine_stack programPath s s' -> session_inv s -> tools_inv s -> tools_inv s'.
Proof.
  intros Hst Hi Ht. destruct Hst as [e s s' Hs]. unfold session_step_fn in Hs. destruct (exit s) eqn:Ex; [done|].
  destruct e.
  - destruct (ended s) eqn:E; [done|]. injection Hs as <-. by apply with_stdin_tools, data_ready.
  - destruct (ended s) eqn:E; [done|]. injection Hs as <-. rewrite <- Ex. apply with_stdin_tools; [|by apply end_ready]. by destruct Ht.
  - destruct (ph s) eqn:Ep; try done. injection Hs as <-. destruct m; cbn [after_import]; [|by apply main_fails_tools..]. keep_tools Ht. by rewrite Ep.
  - destruct (ph s) eqn:Ep; try done. injection Hs as <-. destruct o; cbn [after_run]; [|by apply main_fails_tools..]. keep_tools Ht. by rewrite Ep.
  - injection Hs as <-. unfold call. destruct (cancelled (rt s)); [by destruct s|]. destruct (toolNames (rt s) !! _) as [name|]; [|by destruct s].
    destruct (truthy_json name); [|by destruct s]. keep_tools Ht.
  - injection Hs as <-. keep_tools Ht.
  - injection Hs as <-. keep_tools Ht.
  - injection Hs as <-. keep_tools Ht.
  - destruct (ended s); [|done]. injection Hs as <-. keep_tools Ht.
Qed.

Lemma session_reachable_tools s : session_reachable s -> tools_inv s.
Proof.
  unfold session_reachable. assert (Hi : tools_inv session_init) by (split; [done|intros [?|?]; done]). pose proof session_init_inv as Hs.
  intros Hr. induction Hr as [|x y z Hst Hr IH]; [done|]. apply IH; [by eapply session_step_tools|by eapply session_step_inv].
Qed.
End SessionFacts.

(** C4: every request is answered at most once and none is forgotten.  In
    every state of a session, the ids handed out so far ([1] up to [nextID - 1])
    are exactly the pending ones and the settled ones, each once: no promise is
    settled twice, none is both pending and settled, none was dropped. *)
Theorem requests_accounted num_to_string engine_stack programPath s :
  session_reachable num_to_string engine_stack programPath s ->
  pending (rt s) ++ map fst (settled (rt s)) ≡ₚ seqZ 1 (nextID (rt s) - 1).
Proof. intros Hr. by apply session_reachable_inv, si_accounted in Hr as [_ Hr]. Qed.

(** C10: the exit status tells the truth as long as the host keeps stdin open: the
    process then ends with 0 only after an [atoll_return] request was sent and
    resolved by a result that is no error, and with 1 only after an [atoll_fail]
    request was sent and settled.  Once stdin has ended the process may also run out
    of work, which is status 0 whatever happened; what it still awaits then is what
    [main] awaits or a report of a failure. *)
Theorem exit_reported num_to_string engine_stack programPath s x :
  session_reachable num_to_string engine_stack programPath s -> exit s = Some x ->
  (ended s = false ->
    (status x = 0 /\ exists id res w v m, (id, Resolved res) ∈ settled (rt s) /\
       unwrapResult num_to_string res = Ok w /\ m ∈ stdout (rt s) /\ return_message id v m) \/
    (status x = 1 /\ exists id res m, (id, res) ∈ settled (rt s) /\ m ∈ stdout (rt s) /\ fail_message id m)) /\
  (ended s = true ->
    (x = Exited 1 /\ exists id res m, (id, res) ∈ settled (rt s) /\ m ∈ stdout (rt s) /\ fail_message id m) \/
    (x = Drained /\ status x = 0 /\ forall id, id ∈ pending (rt s) -> id ∈ failing s \/ awaited (ph s) = Some id)).
Proof.
  intros Hr Hx. apply session_reachable_inv in Hr. pose proof (si_exit _ s Hr x Hx) as Ht. split; intros He; rewrite He in Ht.
  - destruct x as [c|]; [|done]. destruct Ht as [(-> & _ & H)|H]; [by left|by right].
  - destruct x as [c|]; [|right; split_and!; [done|done|apply (si_ended _ s Hr He)]].
    destruct Ht as [(_ & ? & _)|[-> H]]; [done|by left].
Qed.

(** C9: a program can only invoke what the host declared.  Every [tools/call] a
    session ever sent names one of the runtime's own three tools or a tool that the
    host listed in its answer to [tools/list] with a target and a word; and while the
    program runs, a call of a target and a word goes to the last listed tool declared
    for them, with the program's input and deadline, or is rejected without anything
    being sent when there is none. *)
Theorem only_declared_tools num_to_string engine_stack programPath s :
  session_reachable num_to_string engine_stack programPath s ->
  (forall m v, m ∈ stdout (rt s) -> tool_call_name m = Some v -> own_tool v \/
     exists tools tool key, offered (rt s) tools /\ tool ∈ tools /\ declares num_to_string key tool = true /\
       get (js "name") tool = Some v) /\
  (ph s = ProgramRuns -> cancelled (rt s) = false -> exists tools, offered (rt s) tools /\
     forall target type input deadlineMs,
       let key := to_string_opt num_to_string target ++ js " " ++ to_string_opt num_to_string type in
       let name := declared_tool num_to_string tools key ≫= get (js "name") in
       call num_to_string target type input deadlineMs (rt s) =
         if truthy_json name
         then (inr (nextID (rt s)), (callTool name (callArguments input) (deadline_meta deadlineMs) (rt s)).2)
         else (inl (undeclared key), rt s)).
Proof.
  intros Hr. pose proof (session_reachable_inv _ _ _ _ Hr) as Hi. pose proof (session_reachable_tools _ _ _ _ Hr) as Ht. split.
  - intros m v Hm Hv. destruct (si_declared _ s Hi m v Hm Hv) as [|(key & Hk & _)]; [by left|right].
    destruct (ti_table _ s Ht) as (tools & Ho & Htab); [right; intros H; by rewrite H, lookup_empty in Hk|].
    rewrite Htab in Hk. unfold declared_tool in Hk. destruct (List.find _ _) as [tool|] eqn:Ef; [|done]. injection Hk as Hk.
    apply List.find_some in Ef as [Hin Hd]. exists tools, tool, key. split_and!; [done| |done|done].
    apply in_rev in Hin. apply list_elem_of_In. clear -Hin. induction tools as [|t tools IH]; [done|].
    destruct t; try done; (destruct Hin as [<-|Hin]; [by left|right; by apply IH]).
  - intros Hp Hc. destruct (ti_table _ s Ht) as (tools & Ho & Htab); [left; by rewrite Hp|]. exists tools. split; [done|].
    intros target type input deadlineMs key. unfold call. rewrite Hc. fold (tool_key (to_string_opt num_to_string target) (to_string_opt num_to_string type)) in key.
    fold key. specialize (Htab key). rewrite Htab. destruct (declared_tool num_to_string tools key) as [tool|]; [|done]. cbn [fmap option_fmap option_map mbind option_bind].
    by destruct (truthy_json (get (js "name") tool)).
Qed.

(** closing stdin cancels the program.  In every state after the end of
    input, the abort signal is raised, every further [atoll.call] is rejected
    with [cancelled] and sends nothing, and no request of the program is
    outstanding: what is pending is a report of the runtime itself. *)
Theorem end_cancels num_to_string engine_stack programPath s :
  session_reachable num_to_string engine_stack programPath s -> ended s = true ->
  aborted (rt s) = true /\
  (forall t w i d, call num_to_string t w i d (rt s) = (inl cancelled_error, rt s)) /\
  (forall id, id ∈ pending (rt s) -> id ∈ failing s \/ awaited (ph s) = Some id).
Proof.
  intros Hr He. apply session_reachable_inv in Hr. destruct (si_ended _ s Hr He) as (Hc & Ha & Hp).
  split; [done|]. split; [|done]. intros t w i d. unfold call. by rewrite Hc.
Qed.

(** After the end of input nothing settles, so a failure report sent then is
    awaited forever and [process.exit] is never reached: a session that has not
    exited by the end of its input ends with status 0, whatever went wrong. *)
Theorem no_exit_after_end num_to_string engine_stack programPath s s' :
  rtc (session_step num_to_string engine_stack programPath) s s' ->
  ended s = true -> (exit s = None \/ exit s = Some Drained) -> exit s' = None \/ exit s' = Some Drained.
Proof.
  induction 1 as [|x y z Hs Hr IH]; intros He Hx; [done|].
  destruct Hs as [e s s1 Hs]. unfold session_step_fn in Hs. destruct Hx as [Hx|Hx]; rewrite Hx in Hs; [|done].
  assert (ended s1 = true /\ (exit s1 = None \/ exit s1 = Some Drained)) as [? ?]; [|by apply IH].
  destruct e; rewrite ?He in Hs; try done; try (injection Hs as <-; split; [done|by left]).
  - destruct (ph s); try done. injection Hs as <-. destruct m; (split; [done|by left]).
  - destruct (ph s); try done. injection Hs as <-. destruct o; (split; [done|by left]).
  - injection Hs as <-. split; [done|by right].
Qed.

(** ** A session that runs a program to its end *)

Definition answer (id : Z) (result : json) : jstr :=
  JSON_stringify int_num_str
    (JObj [(js "jsonrpc", JStr (js "2.0")); (js "id", JInt id); (js "result", result)]) ++ [LF].

Definition example_tools : json :=
  JObj [(js "tools", JArr [JObj [(js "name", JStr (js "t1"));
    (js "_meta", JObj [(js "atoll/target", JStr (js "xhs")); (js "atoll/word", JStr (js "find"))])]])].

Definition structured (j : json) : json := JObj [(js "structuredContent", j)].

Definition no_stack (e : thrown) : option jstr := None.

Fixpoint session_run (es : list session_event) (s : session) : option session :=
  match es with
  | [] => Some s
  | e :: r =>
      s' ← session_step_fn int_num_str no_stack (Some (js "/p.mjs")) e s; session_run r s'
  end.

Lemma session_run_reachable es s :
  session_run es session_init = Some s ->
  session_reachable int_num_str no_stack (Some (js "/p.mjs")) s.
Proof.
  unfold session_reachable. generalize session_init. induction es as [|e es IH]; intros x; simpl.
  - intros [= <-]. apply rtc_refl.
  - destruct (session_step_fn _ _ _ e x) as [y|] eqn:E; [|done]. intros Hr.
    eapply rtc_l; [by eapply SessionStep|by apply IH].
Qed.

Definition example_session : list session_event :=
  [Data (answer 1 (JObj [])); Data (answer 2 example_tools);
   Data (answer 3 (structured (JObj [(js "request_id", JStr (js "r1"))])));
   Import ModuleWithRun; Call (Some (JStr (js "xhs"))) (Some (JStr (js "find"))) None None;
   Data (answer 4 (structured (JBool true))); Run (Returned (JStr (js "done")));
   Data (answer 5 (structured JNull))].

Definition session_after (es : list session_event) : session :=
  default session_init (session_run es session_init).

Lemma example_session_reachable :
  session_reachable int_num_str no_stack (Some (js "/p.mjs")) (session_after example_session).
Proof. apply (session_run_reachable example_session). vm_compute. reflexivity. Qed.

Definition ended_session : list session_event := [Data (answer 1 (JObj [])); End].

Lemma ended_session_reachable :
  session_reachable int_num_str no_stack (Some (js "/p.mjs")) (session_after ended_session).
Proof. apply (session_run_reachable ended_session). vm_compute. reflexivity. Qed.

Lemma requests_accounted_witness :
  let s := session_after example_session in
  pending (rt s) ++ map fst (settled (rt s)) ≡ₚ seqZ 1 (nextID (rt s) - 1).
Proof.
  apply (requests_accounted int_num_str no_stack (Some (js "/p.mjs"))).
  apply example_session_reachable.
Defined.

Lemma exit_reported_witness :
  let s := session_after example_session in
  exit s = Some (Exited 0) /\ exists id res w v m, (id, Resolved res) ∈ settled (rt s) /\
     unwrapResult int_num_str res = Ok w /\ m ∈ stdout (rt s) /\ return_message id v m.
Proof.
  intros s. assert (Hx : exit s = Some (Exited 0)) by (vm_compute; reflexivity). split; [exact Hx|].
  destruct (exit_reported int_num_str no_stack (Some (js "/p.mjs")) s _ example_session_reachable Hx) as [H _].
  destruct H as [[_ H]|[H _]]; [vm_compute; reflexivity|exact H|discriminate H].
Defined.

Lemma only_declared_tools_witness :
  (exists tools tool key, offered (rt (session_after example_session)) tools /\ tool ∈ tools /\ declares int_num_str key tool = true /\
     get (js "name") tool = Some (JStr (js "t1"))) /\
  exists tools, offered (rt (session_after (take 4 example_session))) tools.
Proof.
  split.
  - destruct (only_declared_tools int_num_str no_stack (Some (js "/p.mjs")) _ example_session_reachable) as [H _].
    destruct (H (nth 4 (stdout (rt (session_after example_session))) JNull) (JStr (js "t1"))) as [[|[|]]|H'].
    + apply list_elem_of_In, nth_In. vm_compute. lia.
    + vm_compute. reflexivity.
    + discriminate.
    + discriminate.
    + discriminate.
    + exact H'.
  - assert (Hr : session_reachable int_num_str no_stack (Some (js "/p.mjs")) (session_after (take 4 example_session)))
      by (apply (session_run_reachable (take 4 example_session)); vm_compute; reflexivity).
    destruct (only_declared_tools int_num_str no_stack (Some (js "/p.mjs")) _ Hr) as [_ H].
    destruct H as (tools & Ho & _); [vm_compute; reflexivity|vm_compute; reflexivity|]. exists tools. exact Ho.
Defined.

Lemma end_cancels_witness :
  let s := session_after ended_session in
  aborted (rt s) = true /\
  (forall t w i d, call int_num_str t w i d (rt s) = (inl cancelled_error, rt s)) /\
  (forall id, id ∈ pending (rt s) -> id ∈ failing s \/ awaited (ph s) = Some id).
Proof.
  apply (end_cancels int_num_str no_stack (Some (js "/p.mjs"))).
  - apply ended_session_reachable.
  - vm_compute. reflexivity.
Defined.

(** The failure report of [main] after the end of input stays unanswered. *)
Lemma fail_after_end_unanswered s' :
  rtc (session_step int_num_str no_stack (Some (js "/p.mjs"))) (session_after ended_session) s' ->
  failing (session_after ended_session) = [3] /\ (exit s' = None \/ exit s' = Some Drained).
Proof.
  intros Hr. split; [vm_compute; reflexivity|].
  apply (no_exit_after_end _ _ _ _ _ Hr); [|left]; vm_compute; reflexivity.
Qed.

(** A program that threw, with the report lost: the host sees status 0. *)
Example failure_with_status_0 :
  let s := session_after (ended_session ++ [Drain]) in exit s = Some Drained /\ status Drained = 0 /\ failing s = [3].
Proof. vm_compute. done. Qed.

(** * The worker pool *)

Section PoolFacts.
Context {V E : Type}.
Context (n : nat) (requested : jsnum).
Let w := Nat.min (Z.to_nat (pool_width requested)) n.

Fixpoint pool_run (es : list (nat * (V + E))) (p : pool V E) : option (pool V E) :=
  match es with
  | [] => Some p
  | (i, r) :: rest => p' ← thunk_settles i r p; pool_run rest p'
  end.

Definition rejections (es : list (nat * (V + E))) : list E :=
  omap (fun e => match e.2 with inr x => Some x | inl _ => None end) es.

(** After the settlements [es], with [k] workers started. *)
Record pool_inv (k : nat) (es : list (nat * (V + E))) (p : pool V E) : Prop := PoolInv {
  po_count : count p = n;
  po_values : length (values p) = n;
  po_finished : finished p = (cursor p - n)%nat;
  po_nodup : NoDup (running p ++ map fst es);
  po_started : forall i, i ∈ running p ++ map fst es <-> (i < cursor p /\ i < n)%nat;
  po_stored : forall i v, (i, inl v) ∈ es <-> values p !! i = Some (Some v);
  po_workers : (length (running p) + finished p + length (rejections es) = k)%nat;
  po_rejected : rejected p = head (rejections es)
}.

Lemma worker_next_inv k es p : pool_inv k es p -> pool_inv (S k) es (worker_next p).
Proof.
  intros [Hc Hv Hf Hn Hs Hst Hw Hr]. unfold worker_next. rewrite Hc. case_bool_decide as Hle.
  - split; simpl; try done; try lia. intros i. rewrite Hs. lia.
  - split; simpl; try done; try lia.
    + rewrite <- app_assoc. apply NoDup_app in Hn as (Hn1 & Hd & Hn2).
      assert (cursor p ∉ running p ++ map fst es) as Hnew by (rewrite Hs; lia).
      rewrite elem_of_app in Hnew.
      apply NoDup_app. split; [done|]. split; [set_solver|]. simpl. apply NoDup_cons. tauto.
    + intros i. specialize (Hs i). rewrite !elem_of_app, list_elem_of_singleton in *.
      destruct (decide (i = cursor p)) as [->|]; [|].
      * split; [lia|tauto].
      * split; [intros [[H|H]|H]|intros H]; try done.
        -- assert (i < cursor p /\ i < n)%nat by (apply Hs; tauto). lia.
        -- assert (i < cursor p /\ i < n)%nat by (apply Hs; tauto). lia.
        -- assert (i ∈ running p \/ i ∈ map fst es) by (apply Hs; lia). tauto.
    + rewrite length_app. simpl. lia.
Qed.

Lemma start_workers_inv j k es p : pool_inv k es p -> pool_inv (k + j) es (start_workers j p).
Proof.
  revert k p; induction j as [|j IH]; intros k p Hi; simpl; [by rewrite Nat.add_0_r|].
  rewrite Nat.add_succ_r. apply (IH (S k)). by apply worker_next_inv.
Qed.

Lemma pool_start_inv : pool_inv w [] (pool_start n requested).
Proof.
  apply (start_workers_inv w 0). split; simpl; try done.
  - by rewrite length_replicate.
  - constructor.
  - intros i. split; [by intros ?%elem_of_nil|lia].
  - intros i v. split; [by intros ?%elem_of_nil|].
    intros Hl. by apply lookup_replicate in Hl as [? _].
Qed.

Lemma filter_remove (l : list nat) i :
  NoDup l -> i ∈ l -> i :: List.filter (fun j => negb (Nat.eqb j i)) l ≡ₚ l.
Proof.
  induction l as [|x l IH]; intros Hd Hk; [by apply elem_of_nil in Hk|].
  apply NoDup_cons in Hd as [Hx Hd]. simpl. destruct (Nat.eqb_spec x i) as [->|Hne]; simpl.
  - replace (List.filter _ l) with l; [done|]. clear IH Hd Hk.
    induction l as [|y l IH]; simpl; [done|].
    rewrite (proj2 (Nat.eqb_neq y i)) by set_solver. simpl. f_equal. apply IH. set_solver.
  - rewrite <- (IH Hd) at 2 by set_solver. constructor.
Qed.

Lemma rejections_app a b : rejections (a ++ b) = rejections a ++ rejections b.
Proof. apply omap_app. Qed.

Lemma thunk_settles_inv es i r p p' :
  pool_inv w es p -> thunk_settles i r p = Some p' -> pool_inv w (es ++ [(i, r)]) p'.
Proof.
  intros Hi Ht. unfold thunk_settles in Ht. case_bool_decide as Hin; [|done].
  pose proof Hi as [Hc Hv Hf Hn Hs Hst Hw Hr].
  set (rest := List.filter _ (running p)) in Ht.
  assert (i :: rest ≡ₚ running p) as Hp
    by (apply filter_remove; [by apply NoDup_app in Hn as [? _]|done]).
  assert (rest ++ map fst (es ++ [(i, r)]) ≡ₚ running p ++ map fst es) as Hperm
    by (rewrite <- Hp, map_app; simpl; solve_Permutation).
  assert (length (running p) = S (length rest)) as Hl by (by rewrite <- Hp).
  assert (forall v, (i, inl v) ∉ es) as Hfresh.
  { intros v Hes. apply NoDup_app in Hn as (_ & Hd & _). apply (Hd i Hin).
    apply list_elem_of_In. apply (in_map fst es (i, inl v)). by apply list_elem_of_In. }
  assert (i < n)%nat as Hlt by (apply (Hs i), elem_of_app; by left).
  destruct r as [v|e]; injection Ht as <-.
  - set (q := Pool _ _ _ _ _ _).
    assert (pool_inv (w - 1) (es ++ [(i, inl v)]) q) as Hq.
    { split; simpl; try done; try (by rewrite Hperm).
      - by rewrite length_insert.
      - intros j. rewrite Hperm. apply Hs.
      - intros j u. rewrite elem_of_app, list_elem_of_singleton.
        destruct (decide (i = j)) as [<-|Hne].
        + rewrite list_lookup_insert_eq by lia. split.
          * by intros [H|[= ->]]; [destruct (Hfresh u)|].
          * intros [= ->]. by right.
        + rewrite list_lookup_insert_ne by done. rewrite <- Hst. split; [|tauto].
          by intros [H|[= ? ?]]; [|congruence].
      - rewrite rejections_app, length_app. simpl. lia.
      - by rewrite rejections_app, app_nil_r. }
    apply worker_next_inv in Hq. replace (S (w - 1)) with w in Hq by lia. done.
  - split; simpl; try done; try (by rewrite Hperm).
    + intros j. rewrite Hperm. apply Hs.
    + intros j u. rewrite <- Hst, elem_of_app, list_elem_of_singleton. split; [|tauto].
      by intros [H|[= ? ?]].
    + rewrite rejections_app, length_app. simpl. lia.
    + rewrite rejections_app, Hr. by destruct (rejections es).
Qed.

Lemma pool_run_inv es es' p p' :
  pool_inv w es p -> pool_run es' p = Some p' -> pool_inv w (es ++ es') p'.
Proof.
  revert es p; induction es' as [|[i r] es' IH]; intros es p Hi; simpl.
  - intros [= <-]. by rewrite app_nil_r.
  - destruct (thunk_settles i r p) as [q|] eqn:Ht; [|done]. intros Hr.
    apply (IH (es ++ [(i, r)])) in Hr; [by rewrite <- app_assoc in Hr|].
    by eapply thunk_settles_inv.
Qed.
End PoolFacts.

Lemma pool_width_bounds requested : 1 <= pool_width requested <= 8.
Proof. unfold pool_width. lia. Qed.

(** C11: [atoll.all] is a bounded, ordered pool.  Whatever the order in which
    the thunks' promises settle: at most [width] of them (between 1 and 8) are
    awaited at any time and no thunk runs twice; if none rejects, the call
    resolves exactly when all [n] have run, with the values in the order of the
    thunks; if some reject, it rejects with the first rejection. *)
Theorem atoll_all_correct {V E} n requested (es : list (nat * (V + E))) p :
  pool_run es (pool_start n requested) = Some p ->
  let w := Nat.min (Z.to_nat (pool_width requested)) n in
  (length (running p) <= w <= 8)%nat /\
  NoDup (running p ++ map fst es) /\
  (forall x, head (rejections es) = Some x -> pool_result w p = Some (inr x)) /\
  (rejections es = [] ->
     (pool_result w p = None <-> running p ≠ []) /\
     (running p = [] ->
        exists vs, pool_result w p = Some (inl (map Some vs)) /\ length vs = n /\
          forall i v, vs !! i = Some v <-> (i, inl v) ∈ es)).
Proof.
  intros Hrun w. pose proof (pool_width_bounds requested) as Hb.
  pose proof (pool_run_inv n requested [] es _ _ (pool_start_inv n requested) Hrun) as Hi.
  simpl in Hi. fold w in Hi. destruct Hi as [Hc Hv Hf Hn Hs Hst Hw Hr].
  split; [lia|]. split; [done|]. split.
  { intros x Hx. unfold pool_result. by rewrite Hr, Hx. }
  intros Hnone. rewrite Hnone in *. simpl in *. unfold pool_result. rewrite Hr. split.
  - case_bool_decide as Hfin; split; try done.
    + intros Hne. destruct (running p); [done|]. simpl in Hw. lia.
    + intros _ E0. rewrite E0 in Hw. simpl in Hw. lia.
  - intros Hrn. rewrite Hrn in *. simpl in *. rewrite bool_decide_true by lia.
    assert (n <= cursor p)%nat as Hcur.
    { destruct (decide (n = 0)%nat) as [->|]; [lia|]. unfold w in Hw. lia. }
    assert (forall i, (i < n)%nat -> exists v, values p !! i = Some (Some v)) as Hall.
    { intros i Hi. assert (i ∈ map fst es) as Him by (apply Hs; lia).
      apply list_elem_of_fmap in Him as ([j r] & -> & Hin). simpl in *.
      destruct r as [v|x]; [exists v; by apply Hst|].
      exfalso. assert (x ∈ rejections es) as Hx; [|rewrite Hnone in Hx; by apply elem_of_nil in Hx].
      apply list_elem_of_omap. by exists (j, inr x). }
    assert (Forall is_Some (values p)) as HF.
    { apply Forall_lookup. intros i o Hl. pose proof (lookup_lt_Some _ _ _ Hl) as Hlt.
      rewrite Hv in Hlt. destruct (Hall i Hlt) as [v Hv']. rewrite Hv' in Hl. by injection Hl as <-. }
    assert (exists vs, values p = map Some vs) as [vs Hvs].
    { clear -HF. induction HF as [|o l [v ->] _ [vs ->]]; [by exists []|]. by exists (v :: vs). }
    exists vs. rewrite Hvs in *. split; [done|]. split; [by rewrite length_map in Hv|].
    intros i v. rewrite Hst. change (map Some vs) with (Some <$> vs). rewrite list_lookup_fmap.
    destruct (vs !! i); simpl; split; congruence.
Qed.

Lemma atoll_all_correct_witness :
  let es := [(1%nat, inl 11); (0%nat, inl 10); (2%nat, inl 12)] : list (nat * (Z + unit)) in
  let p := default (pool_start 3 NaN) (pool_run es (pool_start 3 (Finite 2))) in
  let w := Nat.min (Z.to_nat (pool_width (Finite 2))) 3 in
  (length (running p) <= w <= 8)%nat /\
  NoDup (running p ++ map fst es) /\
  (forall x, head (rejections es) = Some x -> pool_result w p = Some (inr x)) /\
  (rejections es = [] ->
     (pool_result w p = None <-> running p ≠ []) /\
     (running p = [] ->
        exists vs, pool_result w p = Some (inl (map Some vs)) /\ length vs = 3%nat /\
          forall i v, vs !! i = Some v <-> (i, inl v) ∈ es)).
Proof. apply (atoll_all_correct 3 (Finite 2)). vm_compute. reflexivity. Defined.
