(* ===== verification/Messages.v ===== *)
(** The data the pi packages pass between the bridge and the providers: models,
    usage, content, messages and contexts (packages/ai, bundled in
    src/drivers/tools/pibridge/bridge.mjs). *)
From S2P Require Import Prelude Numbers Json.
Open Scope Z_scope.

(** ** Usage and cost *)

(** The dollars of a request. *)
Record cost := Cost {
  cost_input : Q; cost_output : Q; cost_cacheRead : Q; cost_cacheWrite : Q; cost_total : Q
}.

Definition zero_cost : cost := Cost 0 0 0 0 0.

(** Token counts as a provider reports them. *)
Record usage := Usage {
  u_input : Z; u_output : Z; u_cacheRead : Z; u_cacheWrite : Z; u_totalTokens : Z;
  u_cacheWrite1h : option Z;
  u_cost : cost
}.

Definition zero_usage : usage := Usage 0 0 0 0 0 None zero_cost.

(** ** Content *)

(** A part of a user message or of a tool result. *)
Inductive part :=
| PText (text : jstr)
| PImage (data mimeType : jstr).

Record toolCall := ToolCall {
  tc_id : jstr; tc_name : jstr; tc_arguments : json; tc_thoughtSignature : option jstr;
  tc_namespace : option jstr
}.

(** A block of an assistant message. *)
Inductive block :=
| BText (text : jstr) (textSignature : option jstr)
| BThinking (thinking : jstr) (thinkingSignature : option jstr) (redacted : bool)
| BToolCall (tc : toolCall).

Inductive stop_reason := Stop | Length | ToolUse | Error | Aborted.

#[export] Instance stop_reason_eq_dec : EqDecision stop_reason.
Proof. solve_decision. Defined.

(** A user message holds a string or parts. *)
Inductive user_content :=
| UString (s : jstr)
| UParts (ps : list part).

Record assistant := Assistant {
  a_provider : jstr; a_api : jstr; a_model : jstr;
  a_content : list block;
  a_stopReason : stop_reason;
  a_errorMessage : option jstr;
  a_usage : usage;
  a_timestamp : Z
}.

Record tool_result := ToolResult {
  tr_toolCallId : jstr; tr_toolName : jstr;
  tr_content : list part; tr_isError : bool;
  tr_addedToolNames : option (list jstr);
  tr_timestamp : Z
}.

Inductive message :=
| MUser (content : user_content) (timestamp : Z)
| MAssistant (a : assistant)
| MToolResult (r : tool_result)
| MOther (role : jstr) (timestamp : Z).

(** A message as a caller may hand it over, its [content] possibly missing. *)
Inductive raw_message :=
| Complete (m : message)
| NoUserContent (timestamp : Z)
| NoAssistantContent (a : assistant)          (* whose [a_content] is ignored *)
| NoToolContent (r : tool_result).            (* whose [tr_content] is ignored *)

Definition timestamp_of (m : message) : Z :=
  match m with
  | MUser _ t => t
  | MAssistant a => a_timestamp a
  | MToolResult r => tr_timestamp r
  | MOther _ t => t
  end.

Definition tool_calls (content : list block) : list toolCall :=
  omap (fun b => match b with BToolCall tc => Some tc | _ => None end) content.

(** ** Models *)

Record cost_rates := CostRates {
  r_input : Q; r_output : Q; r_cacheRead : Q; r_cacheWrite : Q
}.

(** A tier of prices applies above a number of input tokens. *)
Record cost_tier := CostTier { tier_above : Z; tier_rates : cost_rates }.

Record model := Model {
  m_id : jstr; m_name : jstr; m_api : jstr; m_provider : jstr; m_baseUrl : jstr;
  m_reasoning : bool;
  m_input : list jstr;
  m_contextWindow : Z; m_maxTokens : Z;
  m_rates : cost_rates; m_tiers : option (list cost_tier);
  (* level to provider value; [None] inside marks an unsupported level *)
  m_thinkingLevelMap : option (list (jstr * option jstr));
  m_headers : option (list (jstr * jstr))
}.

(** ** Contexts *)

(** A tool offered to the model: its name and the whole of it as JSON. *)
Record tool := Tool { tool_name : jstr; tool_json : json }.

Record context := Context_ {
  systemPrompt : option jstr;
  ctx_messages : list message;
  ctx_tools : option (list tool)
}.
