(* ===== verification/TransformMessages.v ===== *)
(** Replaying a conversation to another model: the passes of
    [transformMessages] (packages/ai, api/transform-messages.js). *)
From S2P Require Import Prelude Numbers Json Messages.
Open Scope Z_scope.

Definition NON_VISION_USER_IMAGE_PLACEHOLDER : jstr :=
  js "(image omitted: model does not support images)".
Definition NON_VISION_TOOL_IMAGE_PLACEHOLDER : jstr :=
  js "(tool image omitted: model does not support images)".

(** The loop of [replaceImagesWithPlaceholder]. *)
Fixpoint replace_images (content : list part) (placeholder : jstr) (previousWasPlaceholder : bool)
  : list part :=
  match content with
  | [] => []
  | PImage _ _ :: r =>
      (if previousWasPlaceholder then [] else [PText placeholder]) ++
      replace_images r placeholder true
  | PText t :: r => PText t :: replace_images r placeholder (streq t placeholder)
  end.

Definition replaceImagesWithPlaceholder (content : list part) (placeholder : jstr) : list part :=
  replace_images content placeholder false.

Definition downgrade_message (m : message) : message :=
  match m with
  | MUser (UParts ps) t =>
      MUser (UParts (replaceImagesWithPlaceholder ps NON_VISION_USER_IMAGE_PLACEHOLDER)) t
  | MToolResult r =>
      MToolResult (ToolResult (tr_toolCallId r) (tr_toolName r)
        (replaceImagesWithPlaceholder (tr_content r) NON_VISION_TOOL_IMAGE_PLACEHOLDER)
        (tr_isError r) (tr_addedToolNames r) (tr_timestamp r))
  | _ => m
  end.

Definition downgradeUnsupportedImages (messages : list message) (m : model) : list message :=
  if bool_decide (js "image" ∈ m_input m) then messages else map downgrade_message messages.

(** [msg.content == null ? { ...msg, content: [] } : msg] *)
Definition normalize_content (m : raw_message) : message :=
  match m with
  | Complete m => m
  | NoUserContent t => MUser (UParts []) t
  | NoAssistantContent a =>
      MAssistant (Assistant (a_provider a) (a_api a) (a_model a) [] (a_stopReason a)
        (a_errorMessage a) (a_usage a) (a_timestamp a))
  | NoToolContent r =>
      MToolResult (ToolResult (tr_toolCallId r) (tr_toolName r) [] (tr_isError r)
        (tr_addedToolNames r) (tr_timestamp r))
  end.

Definition same_model (a : assistant) (m : model) : bool :=
  streq (a_provider a) (m_provider m) && streq (a_api a) (m_api m) && streq (a_model a) (m_id m).

(** Truthiness of an optional string. *)
Definition truthy_opt (o : option jstr) : bool :=
  match o with Some s => truthy s | None => false end.

Section Transform.
Context (target : model).
(** [normalizeToolCallId], when the caller passes one. *)
Context (normalizeToolCallId : option (jstr -> model -> assistant -> jstr)).

(** One block of an assistant message; the map of renamed ids is threaded. *)
Definition transform_block (a : assistant) (b : block) (ids : gmap jstr jstr)
  : list block * gmap jstr jstr :=
  let isSameModel := same_model a target in
  match b with
  | BThinking thinking signature redacted =>
      if redacted then (if isSameModel then [b] else [], ids)
      else if isSameModel && truthy_opt signature then ([b], ids)
      else if negb (truthy thinking) || streq (trim thinking) [] then ([], ids)
      else if isSameModel then ([b], ids)
      else ([BText thinking None], ids)
  | BText text _ => if isSameModel then ([b], ids) else ([BText text None], ids)
  | BToolCall tc =>
      let tc1 := if negb isSameModel && truthy_opt (tc_thoughtSignature tc)
                 then ToolCall (tc_id tc) (tc_name tc) (tc_arguments tc) None (tc_namespace tc) else tc in
      match normalizeToolCallId with
      | Some f =>
          if isSameModel then ([BToolCall tc1], ids)
          else
            let normalizedId := f (tc_id tc) target a in
            if streq normalizedId (tc_id tc) then ([BToolCall tc1], ids)
            else ([BToolCall (ToolCall normalizedId (tc_name tc1) (tc_arguments tc1)
                                (tc_thoughtSignature tc1) (tc_namespace tc1))],
                  <[tc_id tc := normalizedId]> ids)
      | None => ([BToolCall tc1], ids)
      end
  end.

(** [flatMap] over the content. *)
Fixpoint transform_blocks (a : assistant) (bs : list block) (ids : gmap jstr jstr)
  : list block * gmap jstr jstr :=
  match bs with
  | [] => ([], ids)
  | b :: r =>
      let '(x, ids1) := transform_block a b ids in
      let '(y, ids2) := transform_blocks a r ids1 in
      (x ++ y, ids2)
  end.

Definition transform_message (m : message) (ids : gmap jstr jstr) : message * gmap jstr jstr :=
  match m with
  | MUser _ _ | MOther _ _ => (m, ids)
  | MToolResult r =>
      match ids !! tr_toolCallId r with
      | Some normalizedId =>
          if truthy normalizedId && negb (streq normalizedId (tr_toolCallId r)) then
            (MToolResult (ToolResult normalizedId (tr_toolName r) (tr_content r) (tr_isError r)
                            (tr_addedToolNames r) (tr_timestamp r)), ids)
          else (m, ids)
      | None => (m, ids)
      end
  | MAssistant a =>
      let '(content, ids') := transform_blocks a (a_content a) ids in
      (MAssistant (Assistant (a_provider a) (a_api a) (a_model a) content (a_stopReason a)
                     (a_errorMessage a) (a_usage a) (a_timestamp a)), ids')
  end.

Fixpoint transform_pass (ms : list message) (ids : gmap jstr jstr) : list message :=
  match ms with
  | [] => []
  | m :: r => let '(m', ids') := transform_message m ids in m' :: transform_pass r ids'
  end.
End Transform.

(** ** The last pass: every tool call gets a result *)

Definition NO_RESULT : jstr := js "No result provided".

Definition synthetic_result (now : Z) (tc : toolCall) : message :=
  MToolResult (ToolResult (tc_id tc) (tc_name tc) [PText NO_RESULT] true None now).

(** [insertSyntheticToolResults]: what it appends to the result. *)
Definition synthetic_results (now : Z) (pending : list toolCall) (existing : gset jstr)
  : list message :=
  map (synthetic_result now) (List.filter (fun tc => bool_decide (tc_id tc ∉ existing)) pending).

(** After the call [pending] is empty, and [existing] too unless it already was. *)
Definition existing_after (pending : list toolCall) (existing : gset jstr) : gset jstr :=
  match pending with [] => existing | _ => ∅ end.

Fixpoint pair_results (now : Z) (ms : list message) (pending : list toolCall)
    (existing : gset jstr) : list message :=
  match ms with
  | [] => synthetic_results now pending existing
  | MAssistant a :: r =>
      synthetic_results now pending existing ++
      (let existing := existing_after pending existing in
       if bool_decide (a_stopReason a = Error \/ a_stopReason a = Aborted)
       then pair_results now r [] existing
       else
         match tool_calls (a_content a) with
         | [] => MAssistant a :: pair_results now r [] existing
         | tcs => MAssistant a :: pair_results now r tcs ∅
         end)
  | MToolResult t :: r =>
      MToolResult t :: pair_results now r pending ({[tr_toolCallId t]} ∪ existing)
  | MUser c t :: r =>
      synthetic_results now pending existing ++
      MUser c t :: pair_results now r [] (existing_after pending existing)
  | MOther x t :: r => MOther x t :: pair_results now r pending existing
  end.

(** [now] is the time of the call; the clock may tick between two synthetic
    results, which nothing below observes. *)
Definition transformMessages (messages : list raw_message) (target : model)
    (normalizeToolCallId : option (jstr -> model -> assistant -> jstr)) (now : Z) : list message :=
  let normalizedMessages := map normalize_content messages in
  let imageAwareMessages := downgradeUnsupportedImages normalizedMessages target in
  let transformed := transform_pass target normalizeToolCallId imageAwareMessages ∅ in
  pair_results now transformed [] ∅.

(** * Every tool call is answered *)

(** What follows a message up to the next user or assistant message. *)
Fixpoint segment (ms : list message) : list message :=
  match ms with
  | [] => []
  | MUser _ _ :: _ | MAssistant _ :: _ => []
  | m :: r => m :: segment r
  end.

Definition answers (id : jstr) (m : message) : Prop :=
  match m with MToolResult r => tr_toolCallId r = id | _ => False end.

Definition answered (rest : list message) (id : jstr) : Prop := Exists (answers id) (segment rest).

Fixpoint all_answered (ms : list message) : Prop :=
  match ms with
  | [] => True
  | MAssistant a :: r =>
      Forall (fun tc => answered r (tc_id tc)) (tool_calls (a_content a)) /\ all_answered r
  | _ :: r => all_answered r
  end.

Definition is_tool_result (m : message) : Prop := match m with MToolResult _ => True | _ => False end.

Lemma synthetic_tool_results now p e : Forall is_tool_result (synthetic_results now p e).
Proof. unfold synthetic_results. induction (List.filter _ p); simpl; by constructor. Qed.

Lemma segment_tool_results l r : Forall is_tool_result l -> segment (l ++ r) = l ++ segment r.
Proof. induction 1 as [|m l Hm HF IH]; simpl; [done|]. destruct m; try done. by rewrite IH. Qed.

Lemma all_answered_tool_results l r : Forall is_tool_result l -> all_answered (l ++ r) <-> all_answered r.
Proof. induction 1 as [|m l Hm HF IH]; simpl; [done|]. by destruct m. Qed.

Lemma synthetic_answers now p e tc :
  tc ∈ p -> tc_id tc ∈ e \/ Exists (answers (tc_id tc)) (synthetic_results now p e).
Proof.
  intros Hin. destruct (decide (tc_id tc ∈ e)) as [|Hn]; [by left|]. right.
  apply Exists_exists. exists (synthetic_result now tc). split; [|done].
  unfold synthetic_results. apply list_elem_of_In, in_map, filter_In. split.
  - by apply list_elem_of_In.
  - by apply bool_decide_eq_true.
Qed.

(** While a call is pending it has been answered or it will be in this segment. *)
Lemma pending_answered now ms p e tc :
  tc ∈ p -> tc_id tc ∈ e \/ answered (pair_results now ms p e) (tc_id tc).
Proof.
  intros Hin. revert e. unfold answered.
  assert (forall e r, tc_id tc ∈ e \/
    Exists (answers (tc_id tc)) (segment (synthetic_results now p e ++ r))) as Hsyn.
  { intros e r. rewrite segment_tool_results by apply synthetic_tool_results.
    destruct (synthetic_answers now p e tc Hin) as [Hx|Hx]; [by left|]. right.
    apply Exists_app. by left. }
  induction ms as [|m ms IH]; intros e; simpl.
  - pose proof (Hsyn e []) as H. by rewrite app_nil_r in H.
  - destruct m; try apply Hsyn.
    + destruct (IH ({[tr_toolCallId r]} ∪ e)) as [H|H].
      * apply elem_of_union in H as [H|H]; [|by left]. apply elem_of_singleton in H.
        right. simpl. by apply Exists_cons_hd.
      * right. simpl. by apply Exists_cons_tl.
    + destruct (IH e) as [H|H]; [by left|]. right. simpl. by apply Exists_cons_tl.
Qed.

Lemma pair_results_answered now ms p e : all_answered (pair_results now ms p e).
Proof.
  revert p e; induction ms as [|m ms IH]; intros p e; simpl.
  - rewrite <- (app_nil_r (synthetic_results now p e)).
    by apply all_answered_tool_results; [apply synthetic_tool_results|].
  - destruct m as [c t|a|r|x t].
    + apply all_answered_tool_results; [apply synthetic_tool_results|]. simpl. apply IH.
    + apply all_answered_tool_results; [apply synthetic_tool_results|].
      case_bool_decide; [apply IH|].
      destruct (tool_calls (a_content a)) as [|tc tcs] eqn:E; simpl; rewrite E;
        (split; [|apply IH]); [constructor|].
      apply Forall_forall. intros tc' Hin.
      destruct (pending_answered now ms (tc :: tcs) ∅ tc' Hin) as [Hx|Hx]; [|done].
      by apply elem_of_empty in Hx.
    + simpl. apply IH.
    + simpl. apply IH.
Qed.

Lemma all_answered_split pre a rest :
  all_answered (pre ++ MAssistant a :: rest) ->
  Forall (fun tc => answered rest (tc_id tc)) (tool_calls (a_content a)).
Proof.
  induction pre as [|m pre IH]; simpl; [by intros [? _]|]. destruct m; try done.
  intros [_ H]. by apply IH.
Qed.

Definition failed (a : assistant) : bool :=
  bool_decide (a_stopReason a = Error \/ a_stopReason a = Aborted).

Definition kept (m : message) : bool := match m with MAssistant a => negb (failed a) | _ => true end.

Lemma pair_results_kept now ms p e : Forall (fun m => kept m = true) (pair_results now ms p e).
Proof.
  assert (forall p e, Forall (fun m => kept m = true) (synthetic_results now p e)) as Hs.
  { intros q f. unfold synthetic_results. induction (List.filter _ q); simpl; by constructor. }
  revert p e; induction ms as [|m ms IH]; intros p e; simpl; [apply Hs|].
  destruct m as [c t|a|r|x t]; try (by constructor; [|apply IH]).
  - apply Forall_app. split; [apply Hs|]. by constructor; [|apply IH].
  - apply Forall_app. split; [apply Hs|]. case_bool_decide as Ef; [apply IH|].
    assert (kept (MAssistant a) = true) as Hk by (simpl; unfold failed; by rewrite bool_decide_false).
    destruct (tool_calls (a_content a)); by constructor; [|apply IH].
Qed.

(** in what is replayed to a provider, every tool call of every assistant
    message has a result before the next user or assistant message, and no
    assistant message that failed or was aborted is left. *)
Theorem transformMessages_pairs messages target norm now pre a rest tc :
  transformMessages messages target norm now = pre ++ MAssistant a :: rest ->
  tc ∈ tool_calls (a_content a) ->
  answered rest (tc_id tc) /\ a_stopReason a ≠ Error /\ a_stopReason a ≠ Aborted.
Proof.
  unfold transformMessages. intros He Hin.
  set (ms := transform_pass _ _ _ _) in He. split.
  - pose proof (pair_results_answered now ms [] ∅) as Ha. rewrite He in Ha.
    apply all_answered_split in Ha. rewrite Forall_forall in Ha. by apply Ha.
  - pose proof (pair_results_kept now ms [] ∅) as Hk. rewrite He in Hk.
    apply Forall_app in Hk as [_ Hk]. inversion Hk as [|? ? Hk1]; subst. simpl in Hk1.
    unfold failed in Hk1. apply negb_true_iff, bool_decide_eq_false in Hk1. tauto.
Qed.

Definition plain_rates : cost_rates := CostRates 0 0 0 0.
Definition text_model : model :=
  Model (js "m") (js "M") (js "api") (js "p") [] false [js "text"] 100 10 plain_rates None None None.
Definition example_call : toolCall := ToolCall (js "c1") (js "bash") (JObj []) (Some (js "sig")) None.
Definition example_assistant (provider : jstr) (content : list block) (r : stop_reason) : assistant :=
  Assistant provider (js "api") (js "m") content r None zero_usage 5.

Lemma transformMessages_pairs_witness :
  let a := example_assistant (js "p") [BToolCall example_call] ToolUse in
  let rest := [synthetic_result 9 example_call; MUser (UString (js "go on")) 7] in
  answered rest (js "c1") /\ a_stopReason a ≠ Error /\ a_stopReason a ≠ Aborted.
Proof.
  apply (transformMessages_pairs
    [Complete (MAssistant (example_assistant (js "p") [BToolCall example_call] ToolUse));
     Complete (MUser (UString (js "go on")) 7)] text_model None 9 []
    (example_assistant (js "p") [BToolCall example_call] ToolUse)
    [synthetic_result 9 example_call; MUser (UString (js "go on")) 7] example_call).
  - vm_compute. reflexivity.
  - vm_compute. left.
Defined.

(** * What another model gets to see *)

(** A block that carries nothing of the model that wrote it. *)
Definition neutral_block (b : block) : Prop :=
  match b with
  | BText _ sig => sig = None
  | BThinking _ _ _ => False
  | BToolCall tc => truthy_opt (tc_thoughtSignature tc) = false
  end.

Definition no_image (m : message) : Prop :=
  match m with
  | MUser (UParts ps) _ => Forall (fun p => match p with PText _ => True | PImage _ _ => False end) ps
  | MToolResult r =>
      Forall (fun p => match p with PText _ => True | PImage _ _ => False end) (tr_content r)
  | _ => True
  end.

(** What the transformed conversation promises of each message. *)
Definition replayable (target : model) (m : message) : Prop :=
  (js "image" ∉ m_input target -> no_image m) /\
  match m with
  | MAssistant a => same_model a target = false -> Forall neutral_block (a_content a)
  | _ => True
  end.

Lemma replace_images_none ps ph b :
  Forall (fun p => match p with PText _ => True | PImage _ _ => False end) (replace_images ps ph b).
Proof.
  revert b; induction ps as [|p ps IH]; intros b; simpl; [constructor|].
  destruct p; [by constructor|]. destruct b; simpl; [done|by constructor].
Qed.

Lemma downgrade_no_image ms target :
  js "image" ∉ m_input target -> Forall no_image (downgradeUnsupportedImages ms target).
Proof.
  intros Hn. unfold downgradeUnsupportedImages. rewrite bool_decide_false by done.
  apply Forall_map. apply Forall_forall. intros m _.
  destruct m as [[s|ps] t|a|r|x t]; try done; apply replace_images_none.
Qed.

Section TransformFacts.
Context (target : model) (norm : option (jstr -> model -> assistant -> jstr)).

Lemma transform_block_neutral a b ids :
  same_model a target = false -> Forall neutral_block (transform_block target norm a b ids).1.
Proof.
  intros Hs. unfold transform_block. rewrite Hs. simpl.
  destruct b as [t sig|t sig red|tc].
  - by apply Forall_singleton.
  - destruct red; [constructor|]. destruct (_ || _); [constructor|]. by apply Forall_singleton.
  - destruct (truthy_opt (tc_thoughtSignature tc)) eqn:Et; destruct norm as [f|]; simpl;
      try (destruct (streq _ _)); by apply Forall_singleton.
Qed.

Lemma transform_blocks_neutral a bs ids :
  same_model a target = false -> Forall neutral_block (transform_blocks target norm a bs ids).1.
Proof.
  intros Hs. revert ids; induction bs as [|b bs IH]; intros ids; simpl; [constructor|].
  pose proof (transform_block_neutral a b ids Hs) as Hb.
  destruct (transform_block target norm a b ids) as [x ids1].
  specialize (IH ids1).
  destruct (transform_blocks target norm a bs ids1) as [y ids2].
  by apply Forall_app.
Qed.

Lemma transform_pass_replayable ms ids :
  (js "image" ∉ m_input target -> Forall no_image ms) ->
  Forall (replayable target) (transform_pass target norm ms ids).
Proof.
  revert ids; induction ms as [|m ms IH]; intros ids Hi; simpl; [constructor|].
  destruct (transform_message target norm m ids) as [m' ids'] eqn:Em.
  constructor.
  - split.
    + intros Hn. specialize (Hi Hn). inversion Hi as [|? ? Hm]; subst.
      destruct m as [c t|a|r|x t]; simpl in Em.
      * by injection Em as <- _.
      * destruct (transform_blocks _ _ _ _ _). by injection Em as <- _.
      * destruct (ids !! _) as [k|]; [destruct (_ && _)|]; by injection Em as <- _.
      * by injection Em as <- _.
    + destruct m as [c t|a|r|x t]; simpl in Em.
      * by injection Em as <- _.
      * pose proof (transform_blocks_neutral a (a_content a) ids) as Hb.
       
        destruct (transform_blocks _ _ _ _ _) as [content ids1].
        injection Em as <- _. exact Hb.
      * destruct (ids !! _) as [k|]; [destruct (_ && _)|]; by injection Em as <- _.
      * by injection Em as <- _.
  - apply IH. intros Hn. specialize (Hi Hn). by inversion Hi.
Qed.

Lemma pair_results_Forall (P : message -> Prop) now ms p e :
  (forall tc, P (synthetic_result now tc)) -> Forall P ms -> Forall P (pair_results now ms p e).
Proof.
  intros Hp. assert (forall p e, Forall P (synthetic_results now p e)) as Hs.
  { intros q f. unfold synthetic_results. induction (List.filter _ q); simpl; by constructor. }
  intros HF. revert p e; induction HF as [|m ms Hm HF IH]; intros p e; simpl; [apply Hs|].
  destruct m as [c t|a|r|x t]; try (by constructor; [|apply IH]).
  - apply Forall_app. split; [apply Hs|]. by constructor; [|apply IH].
  - apply Forall_app. split; [apply Hs|]. case_bool_decide; [apply IH|].
    destruct (tool_calls (a_content a)); by constructor; [|apply IH].
Qed.
End TransformFacts.

(** nothing of one model leaks into a request to another.  In what is
    replayed, an assistant message written by a different model (provider, api
    or id differ) holds no thinking block, redacted or not, no text signature
    and no thought signature; and if the target takes no images, no message
    holds one. *)
Theorem transformMessages_neutral messages target norm now :
  Forall (replayable target) (transformMessages messages target norm now).
Proof.
  unfold transformMessages. apply pair_results_Forall.
  - intros tc. split; [|done]. intros _. by apply Forall_singleton.
  - apply transform_pass_replayable. intros Hn. by apply downgrade_no_image.
Qed.

(** * Results that were given are not given again *)

(** The conversation answers its own calls. *)
Fixpoint paired (ms : list message) : Prop :=
  match ms with
  | [] => True
  | MAssistant a :: r =>
      (failed a = false -> Forall (fun tc => answered r (tc_id tc)) (tool_calls (a_content a))) /\
      paired r
  | _ :: r => paired r
  end.

Fixpoint call_ids (ms : list message) : list jstr :=
  match ms with
  | [] => []
  | MAssistant a :: r => map tc_id (tool_calls (a_content a)) ++ call_ids r
  | _ :: r => call_ids r
  end.

Lemma pair_results_paired now ms p e :
  paired ms -> Forall (fun tc => tc_id tc ∈ e \/ answered ms (tc_id tc)) p ->
  pair_results now ms p e = List.filter kept ms.
Proof.
  assert (forall p e r, Forall (fun tc => tc_id tc ∈ e) p -> synthetic_results now p e ++ r = r) as Hs.
  { intros q f r HF. unfold synthetic_results.
    induction HF as [|tc q Hin HF IH]; simpl; [done|].
    rewrite bool_decide_false; [exact IH|]. intros Hn. by apply Hn. }
  revert p e; induction ms as [|m ms IH]; intros p e Hp Hpend; simpl.
  - rewrite <- (app_nil_r (synthetic_results now p e)). apply Hs.
    eapply Forall_impl; [exact Hpend|]. intros tc [Hx|Hx]; [done|]. inversion Hx.
  - assert (segment (m :: ms) = [] -> Forall (fun tc => tc_id tc ∈ e) p) as Hclosed.
    { intros E. eapply Forall_impl; [exact Hpend|]. intros tc [Hx|Hx]; [done|].
      unfold answered in Hx. rewrite E in Hx. inversion Hx. }
    destruct m as [c t|a|r|x t]; simpl.
    + rewrite Hs by (by apply Hclosed). f_equal. apply IH; [done|constructor].
    + rewrite Hs by (by apply Hclosed). destruct Hp as [Ha Hp]. fold (failed a).
      destruct (failed a) eqn:Ef; simpl; [apply IH; [done|constructor]|].
      specialize (Ha eq_refl).
      destruct (tool_calls (a_content a)) as [|tc tcs]; f_equal; apply IH; try done.
      eapply Forall_impl; [exact Ha|]. simpl. auto.
    + f_equal. apply IH; [done|]. eapply Forall_impl; [exact Hpend|]. simpl.
      intros tc [Hx|Hx]; [set_solver|]. unfold answered in Hx. simpl in Hx.
      inversion Hx as [? ? Hy|? ? Hy]; subst; [left; simpl in Hy; set_solver|by right].
    + f_equal. apply IH; [done|]. eapply Forall_impl; [exact Hpend|]. simpl.
      intros tc [Hx|Hx]; [by left|]. right. unfold answered in Hx. simpl in Hx.
      by inversion Hx.
Qed.

(** The id a result refers to after the renaming of tool calls. *)
Definition rename (ids : gmap jstr jstr) (c : jstr) : jstr :=
  match ids !! c with
  | Some n => if truthy n && negb (streq n c) then n else c
  | None => c
  end.

Section PairedFacts.
Context (target : model) (norm : option (jstr -> model -> assistant -> jstr)).
Context (norm_nonempty : forall f, norm = Some f -> forall id a, f id target a ≠ []).

Lemma answered_transform ms ids c :
  answered ms c -> answered (transform_pass target norm ms ids) (rename ids c).
Proof.
  unfold answered. induction ms as [|m ms IH]; simpl; [intros H; inversion H|].
  destruct m as [u t|a|r|x t]; simpl; try (intros H; by inversion H).
  - intros H. unfold rename. inversion H as [? ? Hr|? ? Hr]; subst.
    + simpl in Hr. subst c. destruct (ids !! tr_toolCallId r) as [n|] eqn:E; simpl;
        [destruct (truthy n && negb (streq n (tr_toolCallId r))) eqn:Et; simpl|]; by apply Exists_cons_hd.
    + apply IH in Hr. unfold rename in Hr.
      destruct (ids !! tr_toolCallId r) as [n|]; simpl;
        [destruct (truthy n && negb (streq n (tr_toolCallId r))); simpl|]; by apply Exists_cons_tl.
  - intros H. inversion H as [? ? Hr|? ? Hr]; subst; [done|]. apply Exists_cons_tl. by apply IH.
Qed.

Lemma transform_call a tc ids :
  ids !! tc_id tc = None ->
  let '(bs, ids') := transform_block target norm a (BToolCall tc) ids in
  (forall c, c ≠ tc_id tc -> ids' !! c = ids !! c) /\
  exists tc', bs = [BToolCall tc'] /\ tc_id tc' = rename ids' (tc_id tc).
Proof.
  intros Hn. unfold transform_block, rename.
  set (tc1 := if _ && _ then _ else tc).
  assert (tc_id tc1 = tc_id tc) as H1 by (unfold tc1; by destruct (_ && _)).
  destruct norm as [f|] eqn:Ef; [|split; [done|]; exists tc1; by rewrite Hn].
  destruct (same_model a target); [split; [done|]; exists tc1; by rewrite Hn|].
  destruct (streq (f (tc_id tc) target a) (tc_id tc)) eqn:Es.
  - split; [done|]. exists tc1. by rewrite Hn.
  - split; [intros c Hc; by rewrite lookup_insert_ne by done|].
    eexists. split; [reflexivity|]. simpl. rewrite lookup_insert_eq, Es. simpl.
    pose proof (norm_nonempty f eq_refl (tc_id tc) a). by destruct (f (tc_id tc) target a).
Qed.

Lemma transform_other a b ids :
  (forall tc, b ≠ BToolCall tc) ->
  tool_calls (transform_block target norm a b ids).1 = [] /\
  (transform_block target norm a b ids).2 = ids.
Proof.
  intros Hb. destruct b as [t sig|t sig red|tc]; simpl; [..|by destruct (Hb tc)].
  - by destruct (same_model a target).
  - destruct red, (same_model a target); simpl; try done;
      destruct (truthy_opt sig), (negb (truthy t) || streq (trim t) []); done.
Qed.

Lemma tool_calls_app x y : tool_calls (x ++ y) = tool_calls x ++ tool_calls y.
Proof. apply omap_app. Qed.

Lemma transform_blocks_ids a bs ids :
  NoDup (map tc_id (tool_calls bs)) ->
  (forall c, c ∈ map tc_id (tool_calls bs) -> ids !! c = None) ->
  let '(bs', ids') := transform_blocks target norm a bs ids in
  (forall c, c ∉ map tc_id (tool_calls bs) -> ids' !! c = ids !! c) /\
  Forall (fun tc' => exists tc, tc ∈ tool_calls bs /\ tc_id tc' = rename ids' (tc_id tc))
    (tool_calls bs').
Proof.
  revert ids; induction bs as [|b bs IH]; intros ids Hd Hf; [by split; [|constructor]|].
  cbn [transform_blocks].
  assert ((forall tc, b ≠ BToolCall tc) ->
    let '(x, ids1) := transform_block target norm a b ids in
    let '(y, ids2) := transform_blocks target norm a bs ids1 in
    (forall c, c ∉ map tc_id (tool_calls bs) -> ids2 !! c = ids !! c) /\
    Forall (fun tc' => exists tc, tc ∈ tool_calls bs /\ tc_id tc' = rename ids2 (tc_id tc))
      (tool_calls (x ++ y))) as Hother.
  { intros Hb. destruct (transform_other a b ids Hb) as [H1 H2].
    destruct (transform_block target norm a b ids) as [x ids1]. simpl in H1, H2. subst ids1.
    assert (tool_calls (b :: bs) = tool_calls bs) as Et
      by (destruct b as [| |tc]; [done|done|by destruct (Hb tc)]).
    rewrite Et in Hd, Hf. specialize (IH ids Hd Hf).
    destruct (transform_blocks target norm a bs ids) as [y ids2].
    by rewrite tool_calls_app, H1. }
  destruct b as [t sig|t sig red|tc].
  1,2: specialize (Hother ltac:(done));
       destruct (transform_block target norm a _ ids) as [x ids1];
       by destruct (transform_blocks target norm a bs ids1) as [y ids2].
  clear Hother.
  simpl in Hd, Hf. apply NoDup_cons in Hd as [Hnew Hd].
  pose proof (transform_call a tc ids ltac:(apply Hf; set_solver)) as Hc.
  destruct (transform_block target norm a (BToolCall tc) ids) as [x ids1].
  destruct Hc as (Hsame & tc' & -> & Hid).
  assert (forall c, c ∈ map tc_id (tool_calls bs) -> ids1 !! c = None) as Hf1.
  { intros c Hc. rewrite Hsame by set_solver. apply Hf. set_solver. }
  specialize (IH ids1 Hd Hf1). destruct (transform_blocks target norm a bs ids1) as [y ids2].
  destruct IH as [IH1 IH2]. split.
  - intros c Hc. simpl in Hc. rewrite IH1 by set_solver. apply Hsame. set_solver.
  - simpl. constructor.
    + exists tc. split; [set_solver|]. rewrite Hid. unfold rename. by rewrite IH1.
    + eapply Forall_impl; [exact IH2|]. simpl. intros t (tc0 & Hin & Ht). exists tc0. set_solver.
Qed.

Lemma transform_paired ms ids :
  NoDup (call_ids ms) -> (forall c, c ∈ call_ids ms -> ids !! c = None) ->
  paired ms -> paired (transform_pass target norm ms ids).
Proof.
  revert ids; induction ms as [|m ms IH]; intros ids Hd Hf Hp; [done|].
  destruct m as [u t|a|r|x t]; simpl in *.
  - by apply IH.
  - apply NoDup_app in Hd as (Hd1 & Hdis & Hd2). destruct Hp as [Ha Hp].
    pose proof (transform_blocks_ids a (a_content a) ids Hd1
      ltac:(intros; apply Hf; set_solver)) as Hb.
    destruct (transform_blocks target norm a (a_content a) ids) as [content ids'].
    destruct Hb as [Hsame Hcalls]. simpl. split.
    + intros Hfail. assert (failed a = false) as Hfa by done. specialize (Ha Hfa).
      eapply Forall_impl; [exact Hcalls|]. simpl. intros tc' (tc & Hin & ->).
      apply answered_transform. rewrite Forall_forall in Ha. by apply Ha.
    + apply IH; try done. intros c Hc. rewrite Hsame; [apply Hf; set_solver|].
      intros Hc'. by apply (Hdis c).
  - destruct (ids !! tr_toolCallId r) as [n|]; [destruct (truthy n && _)|]; simpl; by apply IH.
  - by apply IH.
Qed.
End PairedFacts.

Lemma downgrade_call_ids ms : call_ids (map downgrade_message ms) = call_ids ms.
Proof. induction ms as [|[[s|ps] t|a|r|x t] ms IH]; simpl; try done. by rewrite IH. Qed.

Lemma downgrade_answered ms c : answered ms c -> answered (map downgrade_message ms) c.
Proof.
  unfold answered. induction ms as [|[[s|ps] t|a|r|x t] ms IH]; simpl; try done; intros H;
    inversion H as [? ? Hr|? ? Hr]; subst;
    first [by apply Exists_cons_hd | by apply Exists_cons_tl, IH].
Qed.

Lemma downgrade_paired ms : paired ms -> paired (map downgrade_message ms).
Proof.
  induction ms as [|[[s|ps] t|a|r|x t] ms IH]; simpl; try done. intros [Ha Hp].
  split; [|by apply IH]. intros Hf. eapply Forall_impl; [by apply Ha|].
  simpl. intros tc. apply downgrade_answered.
Qed.

(** a conversation that answers its own tool calls is replayed as it is.
    When every call of every completed assistant message is answered in its
    segment, call ids are not reused and the id normaliser returns no empty id,
    the result is the conversation with its blocks and ids transformed and its
    failed assistant messages dropped: no result is made up, and results still
    match the renamed calls. *)
Theorem transformMessages_no_synthetic ms target norm now :
  paired ms -> NoDup (call_ids ms) ->
  (forall f, norm = Some f -> forall id a, f id target a ≠ []) ->
  transformMessages (map Complete ms) target norm now =
  List.filter kept (transform_pass target norm (downgradeUnsupportedImages ms target) ∅).
Proof.
  intros Hp Hd Hn. unfold transformMessages. rewrite map_map. simpl. rewrite map_id.
  apply pair_results_paired; [|constructor]. unfold downgradeUnsupportedImages.
  case_bool_decide; apply transform_paired; try done.
  - by rewrite downgrade_call_ids.
  - by apply downgrade_paired.
Qed.

Definition answered_call : list message :=
  [MAssistant (example_assistant (js "other") [BToolCall example_call] ToolUse);
   MToolResult (ToolResult (js "c1") (js "bash") [PText (js "ok")] false None 6)].

Lemma transformMessages_no_synthetic_witness :
  let norm := Some (fun id _ _ => js "n_" ++ id) in
  transformMessages (map Complete answered_call) text_model norm 9 =
  List.filter kept
    (transform_pass text_model norm (downgradeUnsupportedImages answered_call text_model) ∅).
Proof.
  apply (transformMessages_no_synthetic answered_call text_model
    (Some (fun id _ _ => js "n_" ++ id)) 9).
  - split; [|done]. intros _. apply Forall_singleton. by apply Exists_cons_hd.
  - apply NoDup_singleton.
  - intros f [= <-] id a. discriminate.
Defined.

Example replayed_ids :
  map (fun m => match m with
                | MAssistant a => map tc_id (tool_calls (a_content a))
                | MToolResult r => [tr_toolCallId r]
                | _ => [] end)
    (transformMessages (map Complete answered_call) text_model (Some (fun id _ _ => js "n_" ++ id)) 9)
  = [[js "n_c1"]; [js "n_c1"]].
Proof. vm_compute. reflexivity. Qed.

(** When an id is reused, a result can be renamed after a call it does not
    answer: the same-model call keeps its id, its result takes the old name, and
    a second result is made up. *)
Example reused_id_gets_synthetic_result :
  map (fun m => match m with
                | MAssistant a => map tc_id (tool_calls (a_content a))
                | MToolResult r => [tr_toolCallId r]
                | _ => [] end)
    (transformMessages (map Complete (answered_call ++
       [MAssistant (example_assistant (js "p") [BToolCall example_call] ToolUse);
        MToolResult (ToolResult (js "c1") (js "bash") [PText (js "ok")] false None 6)]))
       text_model (Some (fun id _ _ => js "n_" ++ id)) 9)
  = [[js "n_c1"]; [js "n_c1"]; [js "c1"]; [js "n_c1"]; [js "c1"]].
Proof. vm_compute. reflexivity. Qed.
