(* ===== verification/Regex.v ===== *)
(** Regular expressions as the modelled code uses them: the source text of a
    pattern is parsed, and [test] is decided by derivatives.  The patterns use
    literals, [.], classes, [\d], [\s], groups, alternation, the quantifiers
    [?], [*], [+] and a leading [^]; with the [i] flag the letters of a pattern
    are ASCII, for which folding is exact (no other code unit folds to ASCII). *)
From S2P Require Import Prelude Numbers.
Open Scope Z_scope.

(** A set of code units. *)
Inductive uset :=
| ULit (c : Z)
| UDot
| UDigit
| USpace
| UClass (l : list uset)          (* [ ... ] *)
| URange (a b : Z).               (* a-b inside a class *)

Inductive re :=
| RNone
| REps
| RSet (s : uset)
| RCat (a b : re)
| RAlt (a b : re)
| RStar (a : re).

Definition lower (c : Z) : Z := if (65 <=? c) && (c <=? 90) then c + 32 else c.

Definition is_line_terminator (c : Z) : bool :=
  (c =? 10) || (c =? 13) || (c =? 8232) || (c =? 8233).

Fixpoint in_set (icase : bool) (s : uset) (c : Z) : bool :=
  match s with
  | ULit d => if icase then lower c =? lower d else c =? d
  | UDot => negb (is_line_terminator c)
  | UDigit => is_digit c
  | USpace => is_space c
  | UClass l => existsb (fun x => in_set icase x c) l
  | URange a b =>
      ((a <=? c) && (c <=? b)) ||
      (icase && (((a <=? lower c) && (lower c <=? b)) ||
                 ((97 <=? c) && (c <=? 122) && (a <=? c - 32) && (c - 32 <=? b))))
  end.

(** ** Matching by derivatives *)

Section Matching.
Context (icase : bool).

Fixpoint nullable (r : re) : bool :=
  match r with
  | RNone => false
  | REps => true
  | RSet _ => false
  | RCat a b => nullable a && nullable b
  | RAlt a b => nullable a || nullable b
  | RStar _ => true
  end.

Fixpoint deriv (c : Z) (r : re) : re :=
  match r with
  | RNone | REps => RNone
  | RSet s => if in_set icase s c then REps else RNone
  | RCat a b =>
      if nullable a then RAlt (RCat (deriv c a) b) (deriv c b) else RCat (deriv c a) b
  | RAlt a b => RAlt (deriv c a) (deriv c b)
  | RStar a => RCat (deriv c a) (RStar a)
  end.

(** Some prefix of [s] matches. *)
Fixpoint match_prefix (r : re) (s : jstr) : bool :=
  nullable r || match s with [] => false | c :: s' => match_prefix (deriv c r) s' end.

(** The whole of [s] matches. *)
Fixpoint match_all (r : re) (s : jstr) : bool :=
  match s with [] => nullable r | c :: s' => match_all (deriv c r) s' end.

(** Some substring matches. *)
Fixpoint search (r : re) (s : jstr) : bool :=
  match_prefix r s || match s with [] => false | _ :: s' => search r s' end.

(** What a pattern means. *)
Inductive lang : re -> jstr -> Prop :=
| LEps : lang REps []
| LSet s c : in_set icase s c = true -> lang (RSet s) [c]
| LCat a b x y : lang a x -> lang b y -> lang (RCat a b) (x ++ y)
| LAltL a b x : lang a x -> lang (RAlt a b) x
| LAltR a b x : lang b x -> lang (RAlt a b) x
| LStar0 a : lang (RStar a) []
| LStarS a x y : lang a x -> lang (RStar a) y -> lang (RStar a) (x ++ y).

Lemma nullable_spec r : nullable r = true <-> lang r [].
Proof.
  split.
  - induction r; simpl; intros H; try done.
    + constructor.
    + apply andb_true_iff in H as [Ha Hb]. apply (LCat r1 r2 [] []); auto.
    + apply orb_true_iff in H as [H|H]; [apply LAltL|apply LAltR]; auto.
    + constructor.
  - remember (@nil Z) as e eqn:E. induction 1; simpl; try done.
    + apply app_eq_nil in E as [-> ->]. by rewrite IHlang1, IHlang2.
    + by rewrite IHlang.
    + rewrite IHlang by done. apply orb_true_r.
Qed.

Lemma star_cons a c t :
  lang (RStar a) (c :: t) -> exists x y, t = x ++ y /\ lang a (c :: x) /\ lang (RStar a) y.
Proof.
  remember (RStar a) as r eqn:Er. remember (c :: t) as s eqn:Es. intros H.
  revert t Er Es. induction H as [| | | | | |a0 x y Hx _ Hy IH]; intros t Er Es; try done.
  injection Er as ->. destruct x as [|d x]; simpl in Es; [by apply IH|].
  injection Es as -> <-. eauto.
Qed.

Lemma deriv_spec c r t : lang (deriv c r) t <-> lang r (c :: t).
Proof.
  revert t; induction r as [| |s|a IHa b IHb|a IHa b IHb|a IHa]; intros t; simpl.
  - split; intros H; inversion H.
  - split; intros H; inversion H.
  - destruct (in_set icase s c) eqn:E; split; intros H; inversion H; subst.
    + by apply LSet.
    + apply LEps.
    + congruence.
  - assert (lang (RCat (deriv c a) b) t <->
      exists x y, t = x ++ y /\ lang a (c :: x) /\ lang b y) as Hcat.
    { split.
      - intros H. inversion H as [| |? ? x y Hx Hy| | | |]; subst. exists x, y. by rewrite <- IHa.
      - intros (x & y & -> & Hx & Hy). constructor; [by apply IHa|done]. }
    assert (lang (RCat a b) (c :: t) <->
      (exists x y, t = x ++ y /\ lang a (c :: x) /\ lang b y) \/ (lang a [] /\ lang b (c :: t))) as Hr.
    { split.
      - intros H. inversion H as [| |? ? x y Hx Hy E1 E2| | | |]; subst.
        destruct x as [|d x]; simpl in *; [right; by subst|]. injection E2 as -> <-. left. eauto.
      - intros [(x & y & -> & Hx & Hy)|[Ha Hb]].
        + by apply (LCat a b (c :: x) y).
        + by apply (LCat a b [] (c :: t)). }
    rewrite Hr. destruct (nullable a) eqn:Ea.
    + apply nullable_spec in Ea. split.
      * intros H. inversion H; subst; [left; by apply Hcat|right; split; [done|by apply IHb]].
      * intros [H|[_ H]]; [apply LAltL; by apply Hcat|apply LAltR; by apply IHb].
    + rewrite Hcat. split; [by left|]. intros [H|[Ha _]]; [done|].
      apply nullable_spec in Ha. congruence.
  - split; intros H; inversion H; subst.
    + apply LAltL. by apply IHa.
    + apply LAltR. by apply IHb.
    + apply LAltL. by apply IHa.
    + apply LAltR. by apply IHb.
  - split.
    + intros H. inversion H as [| |? ? x y Hx Hy| | | |]; subst.
      apply (LStarS a (c :: x) y); [by apply IHa|done].
    + intros H. apply star_cons in H as (x & y & -> & Hx & Hy). constructor; [by apply IHa|done].
Qed.

Lemma match_prefix_spec r s :
  match_prefix r s = true <-> exists p q, s = p ++ q /\ lang r p.
Proof.
  revert r; induction s as [|c s IH]; intros r; simpl.
  - rewrite orb_false_r, nullable_spec. split.
    + intros H. by exists [], [].
    + intros (p & q & E & H). symmetry in E. by apply app_eq_nil in E as [-> _].
  - rewrite orb_true_iff, nullable_spec, IH. split.
    + intros [H|(p & q & -> & H)]; [by exists [], (c :: s)|].
      exists (c :: p), q. by rewrite <- deriv_spec.
    + intros (p & q & E & H). destruct p as [|d p]; [by left|]. right.
      injection E as -> ->. exists p, q. by rewrite deriv_spec.
Qed.

Lemma match_all_spec r s : match_all r s = true <-> lang r s.
Proof.
  revert r; induction s as [|c s IH]; intros r; simpl; [apply nullable_spec|].
  by rewrite IH, deriv_spec.
Qed.

Lemma search_spec r s :
  search r s = true <-> exists a p b, s = a ++ p ++ b /\ lang r p.
Proof.
  induction s as [|c s IH]; cbn [search]; rewrite orb_true_iff, match_prefix_spec.
  - split.
    + intros [(p & q & E & H)|]; [|done]. exists [], p, q. done.
    + intros (a & p & b & E & H). left. destruct a; [|done]. by exists p, b.
  - rewrite IH. split.
    + intros [(p & q & E & H)|(a & p & b & -> & H)]; [by exists [], p, q|by exists (c :: a), p, b].
    + intros ([|d a] & p & b & E & H); [left; by exists p, b|]. injection E as -> ->.
      right. eauto.
Qed.
End Matching.

(** ** Pattern texts *)

Record regexp := RegExp { anchored : bool; body : re; ignoreCase : bool }.

Definition plus (r : re) : re := RCat r (RStar r).
Definition opt (r : re) : re := RAlt r REps.

Definition set_of_escape (c : Z) : uset :=
  if c =? 100 then UDigit else if c =? 115 then USpace else ULit c.

(** The items of a class up to its closing bracket. *)
Fixpoint parse_class (fuel : nat) (s : jstr) : option (list uset * jstr) :=
  match fuel, s with
  | S f, 93 :: r => Some ([], r)
  | S f, 92 :: c :: r => '(l, t) ← parse_class f r; Some (set_of_escape c :: l, t)
  | S f, a :: 45 :: b :: r =>
      if b =? 93 then '(l, t) ← parse_class f (45 :: b :: r); Some (ULit a :: l, t)
      else '(l, t) ← parse_class f r; Some (URange a b :: l, t)
  | S f, c :: r => '(l, t) ← parse_class f r; Some (ULit c :: l, t)
  | _, _ => None
  end.

(** Alternation of concatenations of quantified atoms. *)
Fixpoint parse_re (fuel : nat) (s : jstr) : option (re * jstr) :=
  match fuel with
  | O => None
  | S f =>
      '(a, t) ← parse_seq f s;
      match t with
      | 124 :: t' => '(b, u) ← parse_re f t'; Some (RAlt a b, u)
      | _ => Some (a, t)
      end
  end
with parse_seq (fuel : nat) (s : jstr) : option (re * jstr) :=
  match fuel with
  | O => None
  | S f =>
      match s with
      | [] | 124 :: _ | 41 :: _ => Some (REps, s)
      | _ =>
          '(a, t) ← parse_atom f s;
          let '(a, t) := match t with
                         | 63 :: u => (opt a, u)
                         | 42 :: u => (RStar a, u)
                         | 43 :: u => (plus a, u)
                         | _ => (a, t)
                         end in
          '(b, u) ← parse_seq f t; Some (RCat a b, u)
      end
  end
with parse_atom (fuel : nat) (s : jstr) : option (re * jstr) :=
  match fuel with
  | O => None
  | S f =>
      match s with
      | 40 :: 63 :: 58 :: r | 40 :: r =>
          '(a, t) ← parse_re f r;
          match t with 41 :: u => Some (a, u) | _ => None end
      | 91 :: r => '(l, t) ← parse_class f r; Some (RSet (UClass l), t)
      | 92 :: c :: r => Some (RSet (set_of_escape c), r)
      | 46 :: r => Some (RSet UDot, r)
      | c :: r => Some (RSet (ULit c), r)
      | [] => None
      end
  end.

(** [new RegExp(source, flags)]; each character adds at most three calls. *)
Definition new_RegExp (source : jstr) (i : bool) : option regexp :=
  let '(anch, src) := match source with 94 :: r => (true, r) | _ => (false, source) end in
  match parse_re (3 * length source + 3) src with
  | Some (r, []) => Some (RegExp anch r i)
  | _ => None
  end.

Definition test (p : regexp) (s : jstr) : bool :=
  if anchored p then match_prefix (ignoreCase p) (body p) s else search (ignoreCase p) (body p) s.

(** A pattern of the source, known to parse. *)
Definition regex (source : jstr) (i : bool) : regexp :=
  default (RegExp false RNone i) (new_RegExp source i).

Definition well_formed (source : jstr) (i : bool) : bool := bool_decide (is_Some (new_RegExp source i)).

(** ** Literal patterns *)

Definition lower_all (s : jstr) : jstr := map lower s.

Fixpoint re_lit (s : jstr) : re :=
  match s with [] => REps | c :: r => RCat (RSet (ULit c)) (re_lit r) end.

Lemma lang_lit p s : lang true (re_lit p) s <-> lower_all s = lower_all p.
Proof.
  revert s; induction p as [|c p IH]; intros s; simpl.
  - split; [intros H; by inversion H|]. destruct s; [constructor|done].
  - split.
    + intros H. inversion H as [| |? ? x y Hx Hy| | | |]; subst.
      inversion Hx as [|? d Hd| | | | |]; subst. simpl in *. apply Z.eqb_eq in Hd.
      apply IH in Hy. by rewrite Hd, Hy.
    + destruct s as [|d s]; [done|]. simpl. intros [= Hd Hs].
      apply (LCat true (RSet (ULit c)) (re_lit p) [d] s); [|by apply IH].
      constructor. simpl. by apply Z.eqb_eq.
Qed.

(** Searching a literal with the [i] flag is a case-insensitive [includes]. *)
Lemma search_lit p s : search true (re_lit p) s = includes (lower_all p) (lower_all s).
Proof.
  apply Bool.eq_iff_eq_true. rewrite search_spec, includes_spec. split.
  - intros (a & q & b & -> & Hq). apply lang_lit in Hq. exists (lower_all a), (lower_all b).
    unfold lower_all in *. by rewrite !map_app, Hq.
  - intros (a & b & E). unfold lower_all in E.
    apply map_eq_app in E as (a' & r & -> & <- & E).
    apply map_eq_app in E as (q & b' & -> & Hq & <-).
    exists a', q, b'. split; [done|]. by apply lang_lit.
Qed.

Lemma lang_alt_search i a b s : search i (RAlt a b) s = search i a s || search i b s.
Proof.
  apply Bool.eq_iff_eq_true. rewrite orb_true_iff, !search_spec. split.
  - intros (x & p & y & -> & H). inversion H; subst; [left|right]; eauto 10.
  - intros [(x & p & y & -> & H)|(x & p & y & -> & H)]; exists x, p, y; split; try done;
      [by apply LAltL|by apply LAltR].
Qed.
