(* ===== verification/ProviderErrors.v ===== *)
(** Reading provider failures: context overflow, retryable errors and the
    request-level retry loop (packages/ai, utils/overflow.js, utils/retry.js,
    utils/provider-retry.js and utils/error-body.js). *)
From S2P Require Import Prelude Numbers Json Messages Regex.
Open Scope Z_scope.

(** * Context overflow *)

Definition OVERFLOW_PATTERNS : list jstr := map js [
  "prompt is too long";
  "request_too_large";
  "input is too long for requested model";
  "exceeds the context window";
  "exceeds (?:the )?(?:model'?s )?maximum context length(?: of [\d,]+ tokens?|\s*\([\d,]+\))";
  "input token count.*exceeds the maximum";
  "maximum prompt length is \d+";
  "reduce the length of the messages";
  "maximum context length is \d+ tokens";
  "exceeds (?:the )?maximum allowed input length of [\d,]+ tokens?";
  "input \(\d+ tokens\) is longer than the model'?s context length \(\d+ tokens\)";
  "exceeds the limit of \d+";
  "exceeds the available context size";
  "greater than the context length";
  "context window exceeds limit";
  "exceeded model token limit";
  "too large for model with \d+ maximum context length";
  "prompt has [\d,]+ tokens?, but the configured context size is [\d,]+ tokens?";
  "model_context_window_exceeded";
  "prompt too long; exceeded (?:max )?context length";
  "range of input length should be";
  "context[_ ]length[_ ]exceeded";
  "too many tokens";
  "token limit exceeded";
  "^4(?:00|13)\s*(?:status code)?\s*\(no body\)"
]%string.

Definition NON_OVERFLOW_PATTERNS : list jstr := map js [
  "^(Throttling error|Service unavailable):";
  "rate limit";
  "too many requests"
]%string.

Definition some_test (patterns : list jstr) (s : jstr) : bool :=
  existsb (fun p => test (regex p true) s) patterns.

(** [contextWindow * 0.99] *)
Definition near_full (contextWindow : Z) : jsnum :=
  match Number (js "0.99") with
  | Finite q => fmul (inject_Z contextWindow) q
  | n => n
  end.

(** A missing or zero [contextWindow] is [0]. *)
Definition isContextOverflow (m : assistant) (contextWindow : Z) : bool :=
  let inputTokens := u_input (a_usage m) + u_cacheRead (a_usage m) in
  if bool_decide (a_stopReason m = Error) &&
     match a_errorMessage m with
     | Some e => truthy e && negb (some_test NON_OVERFLOW_PATTERNS e) && some_test OVERFLOW_PATTERNS e
     | None => false
     end then true
  else if negb (contextWindow =? 0) && bool_decide (a_stopReason m = Stop) &&
          (contextWindow <? inputTokens) then true
  else if negb (contextWindow =? 0) && bool_decide (a_stopReason m = Length) &&
          (u_output (a_usage m) =? 0) &&
          num_ge (Finite (inject_Z inputTokens)) (near_full contextWindow) then true
  else false.

Definition isRecoverableLength (m : assistant) (desiredMaxOutput : Z) : bool :=
  bool_decide (a_stopReason m = Length) && (0 <? desiredMaxOutput) &&
  (u_output (a_usage m) <? desiredMaxOutput).

(** * Retryable errors *)

Definition buildProviderErrorPattern (patterns : list jstr) : regexp :=
  regex (join (js "|") patterns) true.

Definition LIMIT_PHRASES : list jstr := map js [
  "GoUsageLimitError";
  "FreeUsageLimitError";
  "Monthly usage limit reached";
  "available balance";
  "insufficient_quota";
  "out of budget";
  "quota exceeded";
  "billing"
]%string.

Definition NON_RETRYABLE_PROVIDER_LIMIT_ERROR_PATTERN : regexp :=
  buildProviderErrorPattern LIMIT_PHRASES.

Definition RETRYABLE_PHRASES : list jstr := map js [
  "overloaded"; "rate.?limit"; "too many requests"; "429"; "500"; "502"; "503"; "504"; "524";
  "service.?unavailable"; "server.?error"; "internal.?error"; "provider.?returned.?error";
  "exceeded request buffer limit while retrying upstream"; "network.?error"; "connection.?error";
  "connection.?refused"; "connection.?lost"; "other side closed"; "fetch failed"; "getaddrinfo";
  "ENOTFOUND"; "EAI_AGAIN"; "upstream.?connect"; "reset before headers"; "socket hang up";
  "socket connection was closed"; "timed? out"; "timeout"; "terminated"; "websocket.?closed";
  "websocket.?error"; "ended without"; "stream ended before message_stop";
  "stream ended before a terminal response event"; "http2 request did not get a response";
  "retry delay"; "you can retry your request"; "try your request again";
  "please retry your request"; "ResourceExhausted"
]%string.

Definition RETRYABLE_PROVIDER_ERROR_PATTERN : regexp := buildProviderErrorPattern RETRYABLE_PHRASES.

Definition isRetryableAssistantError (m : assistant) : bool :=
  match a_errorMessage m with
  | Some errorMessage =>
      if negb (bool_decide (a_stopReason m = Error)) || negb (truthy errorMessage) then false
      else if test NON_RETRYABLE_PROVIDER_LIMIT_ERROR_PATTERN errorMessage then false
      else test RETRYABLE_PROVIDER_ERROR_PATTERN errorMessage
  | None => false
  end.

(** ** The patterns of the source are all well formed *)

Lemma patterns_well_formed :
  forallb (fun p => well_formed p true)
    (OVERFLOW_PATTERNS ++ NON_OVERFLOW_PATTERNS ++ LIMIT_PHRASES ++ RETRYABLE_PHRASES ++
     [join (js "|") LIMIT_PHRASES; join (js "|") RETRYABLE_PHRASES]) = true.
Proof. vm_compute. reflexivity. Qed.

Fixpoint alternatives (l : list re) : re :=
  match l with
  | [] => RNone
  | [r] => r
  | r :: t => RAlt r (alternatives t)
  end.

Lemma search_alternatives i l s : search i (alternatives l) s = existsb (fun r => search i r s) l.
Proof.
  induction l as [|r [|r' l] IH].
  - simpl. apply not_true_iff_false. rewrite search_spec. intros (? & ? & ? & _ & H). inversion H.
  - simpl. by rewrite orb_false_r.
  - change (alternatives (r :: r' :: l)) with (RAlt r (alternatives (r' :: l))).
    by rewrite lang_alt_search, IH.
Qed.

(** The joined patterns are the alternatives. *)
Lemma limit_pattern_body :
  NON_RETRYABLE_PROVIDER_LIMIT_ERROR_PATTERN = RegExp false (alternatives (map re_lit LIMIT_PHRASES)) true.
Proof. vm_compute. reflexivity. Qed.

Lemma retryable_pattern_body :
  RETRYABLE_PROVIDER_ERROR_PATTERN =
  RegExp false (alternatives (map (fun p => body (regex p true)) RETRYABLE_PHRASES)) true.
Proof. vm_compute. reflexivity. Qed.

Lemma retryable_unanchored :
  forallb (fun p => negb (anchored (regex p true)) && ignoreCase (regex p true)) RETRYABLE_PHRASES = true.
Proof. vm_compute. reflexivity. Qed.

Lemma test_limit s :
  test NON_RETRYABLE_PROVIDER_LIMIT_ERROR_PATTERN s =
  existsb (fun p => includes (lower_all p) (lower_all s)) LIMIT_PHRASES.
Proof.
  rewrite limit_pattern_body. unfold test. simpl anchored. simpl ignoreCase. cbn [body].
  rewrite search_alternatives. induction LIMIT_PHRASES as [|p l IH]; [done|].
  simpl. by rewrite IH, search_lit.
Qed.

Lemma test_retryable s :
  test RETRYABLE_PROVIDER_ERROR_PATTERN s = some_test RETRYABLE_PHRASES s.
Proof.
  rewrite retryable_pattern_body. unfold test at 1, some_test. cbn [anchored ignoreCase body].
  rewrite search_alternatives. pose proof retryable_unanchored as H.
  induction RETRYABLE_PHRASES as [|p l IH]; [done|]. simpl in H.
  apply andb_true_iff in H as [H1 H]. apply andb_true_iff in H1 as [Ha Hi].
  cbn [map existsb]. rewrite IH by done. f_equal. unfold test.
  apply negb_true_iff in Ha. by rewrite Ha, Hi.
Qed.

(** a failed answer is retried exactly when its error text is transient
    and is no account limit: the stop reason is an error with a text, none of
    the eight limit phrases occurs in it in any case, and one of the transient
    patterns matches; a limit phrase wins over any number of transient ones. *)
Theorem retryable_iff m :
  isRetryableAssistantError m = true <->
  a_stopReason m = Error /\
  exists e, a_errorMessage m = Some e /\ e ≠ [] /\
    (forall p, p ∈ LIMIT_PHRASES -> includes (lower_all p) (lower_all e) = false) /\
    exists p, p ∈ RETRYABLE_PHRASES /\ test (regex p true) e = true.
Proof.
  unfold isRetryableAssistantError. destruct (a_errorMessage m) as [e|] eqn:Ee.
  2: { split; [done|]. by intros (_ & e & ? & _). }
  case_bool_decide as Hs; simpl; [|split; [done|]; by intros [? _]].
  destruct e as [|c e]; simpl; [split; [done|]; by intros (_ & ? & [= <-] & ? & _)|].
  rewrite test_limit, test_retryable. unfold some_test.
  destruct (existsb _ LIMIT_PHRASES) eqn:El.
  - split; [done|]. intros (_ & ? & [= <-] & _ & Hl & _).
    apply existsb_exists in El as (p & Hp & El). apply list_elem_of_In in Hp.
    rewrite Hl in El by done. discriminate.
  - split.
    + intros Ht. split; [done|]. exists (c :: e). split; [done|]. split; [done|]. split.
      * intros p Hp. apply not_true_iff_false. intros Hi. apply not_true_iff_false in El.
        apply El, existsb_exists. exists p. split; [by apply list_elem_of_In|done].
      * apply existsb_exists in Ht as (p & Hp & Ht). apply list_elem_of_In in Hp. eauto.
    + intros (_ & ? & [= <-] & _ & _ & p & Hp & Ht). apply existsb_exists.
      exists p. split; [by apply list_elem_of_In|done].
Qed.

(** * The retry loop around a provider request *)

Inductive status_field := StatusMissing | StatusUndefined | StatusNumber (n : Z) | StatusOther.
Inductive headers_field := HeadersMissing | HeadersUndefined | HeadersOf (h : list (jstr * jstr)) | HeadersOther.

Record request_error := RequestError {
  is_Error : bool;                 (* [error instanceof Error] *)
  re_status : status_field;
  re_headers : headers_field;
  re_message : jstr
}.

Definition isProviderError (e : request_error) : bool :=
  is_Error e &&
  match re_status e with StatusUndefined | StatusNumber _ => true | _ => false end &&
  match re_headers e with HeadersUndefined | HeadersOf _ => true | _ => false end.

(** [error.headers?.get(name)] *)
Definition header (name : jstr) (e : request_error) : option jstr :=
  match re_headers e with
  | HeadersOf h => snd <$> List.find (fun kv => streq kv.1 name) h
  | _ => None
  end.

Definition isRetryableProviderError (e : request_error) : bool :=
  match header (js "x-should-retry") e with
  | Some v =>
      if streq v (js "true") then true
      else if streq v (js "false") then false
      else match re_status e with
           | StatusUndefined | StatusMissing => true
           | StatusNumber n => (n =? 408) || (n =? 409) || (n =? 429) || (500 <=? n)
           | StatusOther => false
           end
  | None =>
      match re_status e with
      | StatusUndefined | StatusMissing => true
      | StatusNumber n => (n =? 408) || (n =? 409) || (n =? 429) || (500 <=? n)
      | StatusOther => false
      end
  end.

Definition DEFAULT_MAX_RETRY_DELAY_MS : Z := 60000.

(** [Math.ceil(ms / 1e3)], printed; of an infinite delay too. *)
Definition ceil_seconds (n : jsnum) : jstr :=
  match n with
  | Finite q => match fdiv q 1000 with
                | Finite s => num_str (ceil s)
                | _ => js "Infinity"
                end
  | Infinite true => js "-Infinity"
  | Infinite false => js "Infinity"
  | NaN => js "NaN"
  end.

Definition delay_error (delayMs maxDelayMs : jsnum) (message : jstr) : jstr :=
  js "Server requested " ++ ceil_seconds delayMs ++ js "s retry delay (max: " ++
  ceil_seconds maxDelayMs ++ js "s). " ++ message.

Definition validateServerRetryDelayMs (delayMs : jsnum) (maxRetryDelayMs : option Z) (message : jstr)
  : result jstr jsnum :=
  let maxDelayMs := nullish maxRetryDelayMs DEFAULT_MAX_RETRY_DELAY_MS in
  if (0 <? maxDelayMs) && num_gt delayMs (Finite (inject_Z maxDelayMs)) then
    Throw (delay_error delayMs (Finite (inject_Z maxDelayMs)) message)
  else Ok delayMs.

Section Retry.
(** [Date.parse(s) - Date.now()] and [Math.random()] at the time of the call. *)
Context (date_delay : jstr -> jsnum) (random : nat -> Q).

(** [exponentialDelay * (1 - Math.random() * 0.25)] *)
Definition jittered (retryIndex : nat) : jsnum :=
  let exponentialDelay := inject_Z (Z.min (2 ^ Z.of_nat retryIndex * 500) 8000) in
  match fmul (random retryIndex) (1 # 4) with
  | Finite j => match fsub 1 j with Finite f => fmul exponentialDelay f | n => n end
  | n => n
  end.

Definition getRetryDelayMs (e : request_error) (retryIndex : nat) (maxRetryDelayMs : option Z)
  : result jstr jsnum :=
  let by_seconds :=
    match header (js "retry-after") e with
    | Some retryAfter =>
        if truthy retryAfter then
          let delayMs := match parseFloat retryAfter with
                         | NaN => date_delay retryAfter
                         | Finite q => fmul q 1000
                         | n => n
                         end in
          validateServerRetryDelayMs delayMs maxRetryDelayMs (re_message e)
        else Ok (jittered retryIndex)
    | None => Ok (jittered retryIndex)
    end in
  match header (js "retry-after-ms") e with
  | Some retryAfterMs =>
      if truthy retryAfterMs then
        match parseFloat retryAfterMs with
        | NaN => by_seconds
        | v => validateServerRetryDelayMs v maxRetryDelayMs (re_message e)
        end
      else by_seconds
  | None => by_seconds
  end.

(** The [k]-th [request()] as it settles, with whether the signal was aborted
    by then, and whether the signal aborts the sleep after it. *)
Context {V : Type}.
Inductive attempt := Returns (v : V) | Raises (e : request_error) (aborted : bool) (sleep_aborted : bool).
Context (request : nat -> attempt).

Inductive outcome :=
| Done (v : V)
| Rethrown (e : request_error)
| AbortError                     (* [createAbortError()] *)
| DelayRefused (message : jstr).

(** [abortableSleep] resolves after [Math.max(0, ms)] or rejects. *)
Definition clamp_sleep (d : jsnum) : jsnum := if num_gt d (Finite 0) then d else Finite 0.

(** The loop: how many requests were made, the sleeps between them, and how
    it ended.  [k] counts the requests made before. *)
Fixpoint retry_loop (maxRetryDelayMs : option Z) (retriesRemaining k : nat)
  : nat * list jsnum * outcome :=
  match request k with
  | Returns v => (S k, [], Done v)
  | Raises e aborted sleep_aborted =>
      if aborted then (S k, [], AbortError)
      else
        match retriesRemaining with
        | O => (S k, [], Rethrown e)
        | S remaining =>
            if negb (isProviderError e) || negb (isRetryableProviderError e)
            then (S k, [], Rethrown e)
            else
              match getRetryDelayMs e k maxRetryDelayMs with
              | Throw m => (S k, [], DelayRefused m)
              | Ok d =>
                  if sleep_aborted then (S k, [], AbortError)
                  else
                    let '(n, sleeps, o) := retry_loop maxRetryDelayMs remaining (S k) in
                    (n, clamp_sleep d :: sleeps, o)
              end
        end
  end.

(** [maxRetries] is a number of retries, as the callers give it; the loop itself
    would also take fractions, and with [NaN] or an infinite number never give up. *)
Definition retryProviderRequest (maxRetries : option nat) (maxRetryDelayMs : option Z)
  : nat * list jsnum * outcome :=
  retry_loop maxRetryDelayMs (nullish maxRetries O) O.

(** An attempt after which the loop goes on. *)
Definition retried (maxRetryDelayMs : option Z) (k : nat) : Prop :=
  exists e d, request k = Raises e false false /\ isProviderError e = true /\
    isRetryableProviderError e = true /\ getRetryDelayMs e k maxRetryDelayMs = Ok d.

(** How the last of [n] attempts ends the loop, [spent] retries used up. *)
Definition ends (maxRetryDelayMs : option Z) (spent : bool) (k : nat) (o : outcome) : Prop :=
  match o with
  | Done v => request k = Returns v
  | Rethrown e => exists s, request k = Raises e false s /\
      (spent = true \/ isProviderError e = false \/ isRetryableProviderError e = false)
  | AbortError => exists e a s, request k = Raises e a s /\ (a = true \/ s = true)
  | DelayRefused m => exists e s, request k = Raises e false s /\
      getRetryDelayMs e k maxRetryDelayMs = Throw m
  end.

Lemma retry_loop_spec mx r k n sleeps o :
  retry_loop mx r k = (n, sleeps, o) ->
  (k < n <= k + r + 1)%nat /\ length sleeps = (n - k - 1)%nat /\
  (forall i, (k <= i < n - 1)%nat -> retried mx i) /\
  ends mx (bool_decide (n = k + r + 1)%nat) (n - 1) o.
Proof.
  assert (forall kk rr oo, ends mx (bool_decide (S kk = kk + rr + 1)%nat) kk oo ->
    (kk < S kk <= kk + rr + 1)%nat /\ length (@nil jsnum) = (S kk - kk - 1)%nat /\
    (forall i, (kk <= i < S kk - 1)%nat -> retried mx i) /\
    ends mx (bool_decide (S kk = kk + rr + 1)%nat) (S kk - 1) oo) as Hlast.
  { intros kk rr oo He. split; [lia|]. split; [simpl; lia|]. split; [intros; lia|].
    by replace (S kk - 1)%nat with kk by lia. }
  revert k n sleeps o; induction r as [|r IH]; intros k n sleeps o; simpl;
    destruct (request k) as [v|e a s] eqn:Er;
    try (intros [= <- <- <-]; by apply Hlast);
    (destruct a; [intros [= <- <- <-]; apply Hlast; simpl; by eauto 10|]).
  - intros [= <- <- <-]. apply Hlast. exists s. split; [done|]. left.
    apply bool_decide_eq_true. lia.
  - destruct (negb (isProviderError e) || negb (isRetryableProviderError e)) eqn:Ep.
    { intros [= <- <- <-]. apply Hlast. exists s. split; [done|]. right.
      apply orb_true_iff in Ep as [Ep|Ep]; apply negb_true_iff in Ep; auto. }
    apply orb_false_iff in Ep as [Ep1 Ep2].
    apply negb_false_iff in Ep1. apply negb_false_iff in Ep2.
    destruct (getRetryDelayMs e k mx) as [d|m] eqn:Ed;
      [|intros [= <- <- <-]; apply Hlast; simpl; by eauto 10].
    destruct s; [intros [= <- <- <-]; apply Hlast; simpl; by eauto 10|].
    destruct (retry_loop mx r (S k)) as [[n' sl] o'] eqn:El. intros [= <- <- <-].
    destruct (IH _ _ _ _ El) as (Hb & Hl & Hr & He).
    split; [lia|]. split; [simpl; lia|]. split.
    + intros i Hi. destruct (decide (i = k)) as [->|]; [by exists e, d|apply Hr; lia].
    + by replace (k + S r + 1)%nat with (S k + r + 1)%nat by lia.
Qed.
End Retry.
Arguments attempt : clear implicits.
Arguments outcome : clear implicits.

(** C39: the retry loop is bounded and stops for the right reason.  With
    [maxRetries] it makes at least one and at most [maxRetries + 1] requests,
    sleeping once between consecutive ones; every request but the last failed
    with a retryable provider error while nothing was aborted; and it ends with
    the last request's value, with its error only when retries are used up or
    the error is not retryable, with an abort only when the signal was aborted,
    or with a refusal of the delay the server asked for. *)
Theorem retryProviderRequest_bounded date_delay random {V} (request : nat -> attempt V)
    maxRetries maxRetryDelayMs n sleeps o :
  retryProviderRequest date_delay random request maxRetries maxRetryDelayMs = (n, sleeps, o) ->
  (1 <= n <= nullish maxRetries 0 + 1)%nat /\ length sleeps = (n - 1)%nat /\
  (forall i, (i < n - 1)%nat -> retried date_delay random request maxRetryDelayMs i) /\
  ends date_delay random request maxRetryDelayMs
    (bool_decide (n = nullish maxRetries 0 + 1)%nat) (n - 1) o.
Proof.
  intros H. apply retry_loop_spec in H as (Hb & Hl & Hr & He). simpl in *.
  split; [lia|]. split; [lia|]. split; [|done]. intros i Hi. apply Hr. lia.
Qed.

Definition overloaded : request_error :=
  RequestError true (StatusNumber 529) (HeadersOf [(js "retry-after-ms", js "20")]) (js "busy").
Definition flaky (k : nat) : attempt Z :=
  match k with O => Raises overloaded false false | _ => Returns 7 end.

Lemma retryProviderRequest_bounded_witness :
  (1 <= 2 <= nullish (Some 3) 0 + 1)%nat /\ length [Finite 20] = (2 - 1)%nat /\
  (forall i, (i < 2 - 1)%nat -> retried (fun _ => NaN) (fun _ => 0%Q) flaky None i) /\
  ends (fun _ => NaN) (fun _ => 0%Q) flaky None
    (bool_decide (2 = nullish (Some 3) 0 + 1)%nat) (2 - 1) (Done 7).
Proof.
  apply (retryProviderRequest_bounded (fun _ => NaN) (fun _ => 0%Q) flaky (Some 3%nat) None).
  vm_compute. reflexivity.
Defined.

(** * The text of a provider error *)

(** What a field of an SDK error may hold. *)
Inductive field :=
| FJson (v : json)          (* a primitive, an array or a plain object *)
| FStream                   (* an object with a [pipe] method *)
| FInstance                 (* any other object with a prototype of its own *)
| FAbsent.

Record sdk_error := SdkError {
  s_message : jstr;
  s_statusCode : field; s_status : field;
  s_metadataStatus : field;       (* [$metadata?.httpStatusCode] *)
  s_responseStatus : field;       (* [$response?.statusCode] *)
  s_body : field; s_error : field;
  s_responseBody : field          (* [$response?.body] *)
}.

Record provider_error := ProviderError {
  p_status : option jsnum; p_body : option jstr; p_message : jstr; p_carries : bool
}.

Definition MAX_PROVIDER_ERROR_BODY_CHARS : nat := 4000.

Section ErrorText.
Context (num_to_string : Q -> jstr).

Definition number_field (f : field) : option jsnum :=
  match f with FJson (JNum n) => Some n | _ => None end.

Definition extractStatus (e : sdk_error) : option jsnum :=
  match number_field (s_statusCode e), number_field (s_status e),
        number_field (s_metadataStatus e), number_field (s_responseStatus e) with
  | Some n, _, _, _ => Some n
  | None, Some n, _, _ => Some n
  | None, None, Some n, _ => Some n
  | None, None, None, o => o
  end.

Definition isPlainNonEmptyObject (f : field) : option json :=
  match f with FJson (JObj (kv :: r)) => Some (JObj (kv :: r)) | _ => None end.

Definition pickBodyText (e : sdk_error) : option jstr :=
  match s_body e with
  | FJson (JStr s) => Some s
  | _ =>
      match isPlainNonEmptyObject (s_error e) with
      | Some v => Some (JSON_stringify num_to_string v)
      | None =>
          match s_responseBody e with
          | FJson (JStr s) => Some s
          | FStream => None
          | f => JSON_stringify num_to_string <$> isPlainNonEmptyObject f
          end
      end
  end.

Definition truncateErrorText (text : jstr) (maxChars : nat) : jstr :=
  if Nat.leb (length text) maxChars then text
  else take maxChars text ++ js "... [truncated " ++
       num_str (Z.of_nat (length text - maxChars)) ++ js " chars]".

Definition extractBody (e : sdk_error) : option jstr :=
  bodyText ← pickBodyText e;
  match trim bodyText with
  | [] => None
  | trimmed => Some (truncateErrorText trimmed MAX_PROVIDER_ERROR_BODY_CHARS)
  end.

(** Of an [Error]; anything else is printed as JSON. *)
Definition normalizeProviderError (e : sdk_error + json) : provider_error :=
  match e with
  | inr v => ProviderError None None (JSON_stringify num_to_string v) false
  | inl err =>
      let body := extractBody err in
      ProviderError (extractStatus err) body (s_message err)
        (match body with None => true | Some b => includes b (s_message err) end)
  end.

Definition status_text (n : jsnum) : jstr := jsnum_string num_to_string n.

Definition formatProviderError (norm : provider_error) (prefix : option jstr) : jstr :=
  let with_prefix p st text := p ++ js " (" ++ status_text st ++ js "): " ++ text in
  match p_carries norm, p_status norm, p_body norm with
  | false, Some st, Some body =>
      match prefix with
      | Some p => with_prefix p st body
      | None => status_text st ++ js ": " ++ body
      end
  | _, status, _ =>
      match prefix, status with
      | Some p, Some st => with_prefix p st (p_message norm)
      | _, _ => p_message norm
      end
  end.
End ErrorText.

Lemma includes_app_r p a s : includes p s = true -> includes p (a ++ s) = true.
Proof.
  rewrite !includes_spec. intros (x & y & ->). exists (a ++ x), y. by rewrite <- app_assoc.
Qed.

Lemma includes_self p : includes p p = true.
Proof. apply includes_spec. exists [], []. by rewrite app_nil_r. Qed.

(** The reason a provider gave is not lost.  When an SDK error carries a
    status and a response body, the formatted text contains that body (or, past
    4000 units, its first 4000 and how many were cut), whether or not the SDK
    had already put it in the message, with and without a prefix. *)
Theorem provider_error_keeps_body num_to_string e st body prefix :
  extractStatus e = Some st -> extractBody num_to_string e = Some body ->
  includes body (formatProviderError num_to_string (normalizeProviderError num_to_string (inl e)) prefix)
    = true /\
  (length body <= MAX_PROVIDER_ERROR_BODY_CHARS \/
   exists k, body = take MAX_PROVIDER_ERROR_BODY_CHARS body ++ js "... [truncated " ++
     num_str k ++ js " chars]")%nat.
Proof.
  intros Hst Hb. split.
  - unfold formatProviderError, normalizeProviderError. cbn [p_carries p_status p_body p_message].
    rewrite Hst, Hb. destruct (includes body (s_message e)) eqn:Ei; destruct prefix as [p|];
      rewrite ?app_assoc; try apply includes_app_r; try done; apply includes_self.
  - unfold extractBody in Hb. destruct (pickBodyText num_to_string e) as [t|]; [|done].
    simpl in Hb. destruct (trim t) as [|c r]; [done|]. injection Hb as <-.
    unfold truncateErrorText.
    destruct (Nat.leb_spec (length (c :: r)) MAX_PROVIDER_ERROR_BODY_CHARS) as [Hle|Hgt]; [by left|].
    right. eexists. rewrite take_app_length'; [reflexivity|].
    rewrite length_take. lia.
Qed.

Definition bare_error : sdk_error :=
  SdkError (js "Bad Request") FAbsent (FJson (JNum (Finite 400))) FAbsent FAbsent FAbsent
    (FJson (JObj [(js "code", JStr (js "x"))])) FAbsent.

Lemma provider_error_keeps_body_witness :
  let body := js "{" ++ [34] ++ js "code" ++ [34; 58; 34] ++ js "x" ++ [34] ++ js "}" in
  includes body (formatProviderError int_num_str (normalizeProviderError int_num_str (inl bare_error))
    (Some (js "P"))) = true /\
  (length body <= MAX_PROVIDER_ERROR_BODY_CHARS \/
   exists k, body = take MAX_PROVIDER_ERROR_BODY_CHARS body ++ js "... [truncated " ++
     num_str k ++ js " chars]")%nat.
Proof.
  apply (provider_error_keeps_body int_num_str bare_error (Finite 400)); vm_compute; reflexivity.
Defined.
