(* ===== verification/JsonRepair.v ===== *)
(** Parsing the JSON a model streams (packages/ai, utils/json-parse.js): the
    repair of string literals and the fallbacks of [parseStreamingJson]. *)
From S2P Require Import Prelude Numbers Json.
Open Scope Z_scope.

Definition isControlCharacter (c : Z) : bool := (0 <=? c) && (c <=? 31).

(** [\uXXXX] of a control character: [toString(16).padStart(4, "0")]. *)
Definition escapeControlCharacter (c : Z) : jstr :=
  if c =? 8 then js "\b"
  else if c =? 12 then js "\f"
  else if c =? 10 then js "\n"
  else if c =? 13 then js "\r"
  else if c =? 9 then js "\t"
  else js "\u00" ++ [hex_digit (c / 16); hex_digit (c mod 16)].

Definition is_hex_unit (c : Z) : bool :=
  is_digit c || ((97 <=? c) && (c <=? 102)) || ((65 <=? c) && (c <=? 70)).

(** The members of [VALID_JSON_ESCAPES]: quote, backslash, slash, b f n r t u. *)
Definition valid_escape (c : Z) : bool :=
  (c =? 34) || (c =? 92) || (c =? 47) || (c =? 98) || (c =? 102) || (c =? 110) ||
  (c =? 114) || (c =? 116) || (c =? 117).

(** The loop of [repairJson]. *)
Fixpoint repair (inString : bool) (s : jstr) : jstr :=
  match s with
  | [] => []
  | c :: r =>
      if negb inString then c :: repair (c =? 34) r
      else if c =? 34 then c :: repair false r
      else if c =? 92 then
        match r with
        | [] => [92; 92]
        | n :: r1 =>
            let other := if valid_escape n then 92 :: n :: repair true r1
                         else 92 :: 92 :: repair true r in
            if n =? 117 then
              match r1 with
              | d1 :: d2 :: d3 :: d4 :: r2 =>
                  if is_hex_unit d1 && is_hex_unit d2 && is_hex_unit d3 && is_hex_unit d4
                  then 92 :: 117 :: d1 :: d2 :: d3 :: d4 :: repair true r2
                  else other
              | _ => other
              end
            else other
        end
      else (if isControlCharacter c then escapeControlCharacter c else [c]) ++ repair true r
  end.

Definition repairJson (json : jstr) : jstr := repair false json.

(** [None] when it throws. *)
Definition parseJsonWithRepair (text : jstr) : option json :=
  match JSON_parse text with
  | Some v => Some v
  | None =>
      let repairedJson := repairJson text in
      if negb (streq repairedJson text) then JSON_parse repairedJson else None
  end.

Section Streaming.
(** [parse] of the partial-json package; [None] when it throws. *)
Context (partial_parse : jstr -> option json).

Definition or_empty (v : json) : json := match v with JNull => JObj [] | _ => v end.

Definition parseStreamingJson (partialJson : option jstr) : json :=
  match partialJson with
  | None => JObj []
  | Some t =>
      if negb (truthy t) || streq (trim t) [] then JObj []
      else
        match parseJsonWithRepair t with
        | Some v => v
        | None =>
            match partial_parse t with
            | Some v => or_empty v
            | None =>
                match partial_parse (repairJson t) with
                | Some v => or_empty v
                | None => JObj []
                end
            end
        end
  end.
End Streaming.

(** * Valid JSON is left alone *)

(** Consuming [p] from the inside or the outside of a string, repair copies it. *)
Definition copied (inside : bool) (p : jstr) (after : bool) : Prop :=
  forall x, repair inside (p ++ x) = p ++ repair after x.

Lemma copied_nil b : copied b [] b.
Proof. done. Qed.

Lemma copied_app a b c p q : copied a p b -> copied b q c -> copied a (p ++ q) c.
Proof. intros Hp Hq x. by rewrite <- !app_assoc, Hp, Hq. Qed.

Lemma copied_outside c : c ≠ 34 -> copied false [c] false.
Proof. intros Hc x. simpl. by rewrite (proj2 (Z.eqb_neq c 34)). Qed.

Lemma copied_quote : copied false [34] true.
Proof. done. Qed.

Lemma copied_plain p : 34 ∉ p -> copied false p false.
Proof.
  induction p as [|c p IH]; intros Hp; [apply copied_nil|].
  apply (copied_app false false false [c] p); [apply copied_outside|apply IH]; set_solver.
Qed.

Lemma digit_value_hex c d : digit_value c = Some d -> is_hex_unit c = true.
Proof.
  unfold digit_value, is_hex_unit. destruct (is_digit c); [done|].
  destruct ((97 <=? c) && (c <=? 102)); [done|]. by destruct ((65 <=? c) && (c <=? 70)).
Qed.

Lemma parse_hex_four s u r :
  parse_hex 4 0 s = Some (u, r) ->
  exists d1 d2 d3 d4, s = d1 :: d2 :: d3 :: d4 :: r /\
    is_hex_unit d1 = true /\ is_hex_unit d2 = true /\ is_hex_unit d3 = true /\ is_hex_unit d4 = true.
Proof.
  destruct s as [|d1 [|d2 [|d3 [|d4 s]]]]; simpl; intros H;
    repeat match type of H with
    | context [digit_value ?c] => destruct (digit_value c) eqn:?; simpl in H; try discriminate
    end; try discriminate.
  injection H as _ <-. exists d1, d2, d3, d4. eauto 10 using digit_value_hex.
Qed.

Lemma parse_string_copied fuel s t rest :
  parse_string fuel s = Some (t, rest) -> exists p, s = p ++ rest /\ copied true p false.
Proof.
  revert s t rest; induction fuel as [|f IH]; intros s t rest; [by destruct s|].
  destruct s as [|c r]; [done|]. cbn [parse_string].
  destruct (Z.eqb_spec c 34) as [->|H34].
  { intros [= <- <-]. by exists [34]. }
  destruct (Z.ltb_spec c 32) as [|H32]; [done|].
  destruct (Z.eqb_spec c 92) as [->|H92].
  - destruct r as [|e r1]; [done|]. destruct (Z.eqb_spec e 117) as [->|He].
    + destruct (parse_hex 4 0 r1) as [[u r2]|] eqn:Eh; [|done]. simpl.
      destruct (parse_string f r2) as [[t' rest']|] eqn:Ep; [|done]. simpl. intros [= _ <-].
      apply parse_hex_four in Eh as (d1 & d2 & d3 & d4 & -> & H1 & H2 & H3 & H4).
      destruct (IH _ _ _ Ep) as (p & -> & Hp).
      exists ([92; 117; d1; d2; d3; d4] ++ p). split; [done|].
      apply (copied_app true true); [|done]. intros x. simpl. by rewrite H1, H2, H3, H4.
    + intros H.
      assert (exists u t' rest', valid_escape e = true /\ parse_string f r1 = Some (t', rest') /\
        (u :: t', rest') = (t, rest)) as (u & t' & rest' & Hv & Ep & [= <- <-]).
      { clear -H He. unfold valid_escape.
        assert (match e with 117 => True | _ => False end -> False) by (intros; repeat case_match; lia).
        repeat (case_match; try lia); simpl in H;
        repeat match type of H with context [if ?b then _ else _] => destruct b eqn:?; simpl in H end;
          try discriminate;
          destruct (parse_string f r1) as [[t' rest']|]; simpl in H; try discriminate;
          injection H as <- <-; do 3 eexists; (split; [|by split]); bool_to_prop;
          repeat match goal with H : _ = true |- _ => rewrite H end; rewrite ?orb_true_r; try done;
          repeat match goal with H : _ \/ _ |- _ => destruct H end; bool_to_prop; subst; try done. }
      destruct (IH _ _ _ Ep) as (p & -> & Hp). exists ([92; e] ++ p). split; [done|].
      apply (copied_app true true); [|done]. intros x. simpl.
      rewrite (proj2 (Z.eqb_neq e 117)) by done. by rewrite Hv.
  - destruct (parse_string f r) as [[t' rest']|] eqn:Ep; [|done]. simpl. intros [= _ <-].
    destruct (IH _ _ _ Ep) as (p & -> & Hp). exists ([c] ++ p). split; [done|].
    apply (copied_app true true); [|done]. intros x. simpl.
    rewrite (proj2 (Z.eqb_neq c 34)), (proj2 (Z.eqb_neq c 92)) by done.
    unfold isControlCharacter. by rewrite (proj2 (Z.leb_gt c 31)), andb_false_r by lia.
Qed.

Lemma skip_space_plain s : exists p, s = p ++ skip_space s /\ 34 ∉ p.
Proof.
  destruct (drop_while_app_length json_space s) as (p & Hp & HF). exists p. split; [done|].
  intros Hin. rewrite Forall_forall in HF. by specialize (HF _ Hin).
Qed.

Lemma span_digits_plain s : s = (span_digits s).1 ++ (span_digits s).2 /\ 34 ∉ (span_digits s).1.
Proof.
  induction s as [|c s [IH1 IH2]]; simpl; [split; [done|set_solver]|].
  destruct (is_digit c) eqn:Hc; [|simpl; split; [done|set_solver]].
  destruct (span_digits s) as [d t]. simpl in *. split; [by f_equal|].
  intros [Heq|]%elem_of_cons; [by subst c|done].
Qed.

Lemma parse_sign_plain s : exists p, s = p ++ (parse_sign s).2 /\ 34 ∉ p.
Proof.
  destruct s as [|c s]; [exists []; split; [done|set_solver]|]. unfold parse_sign.
  destruct (decide (c = 43)) as [->|]; [exists [43]; split; [done|set_solver]|].
  destruct (decide (c = 45)) as [->|]; [exists [45]; split; [done|set_solver]|].
  exists []. repeat case_match; try lia; (split; [done|set_solver]).
Qed.

(** The three parts of a number token hold no quote. *)
Lemma parse_number_plain s n rest : parse_number s = Some (n, rest) -> exists p, s = p ++ rest /\ 34 ∉ p.
Proof.
  unfold parse_number.
  set (sg := match s with 45 :: t => (true, t) | _ => (false, s) end).
  assert (exists p, s = p ++ sg.2 /\ 34 ∉ p) as (p0 & Hs & Hp0).
  { unfold sg. destruct s as [|c s]; [exists []; split; [done|set_solver]|].
    destruct (decide (c = 45)) as [->|]; [exists [45]; split; [done|set_solver]|].
    exists []. repeat case_match; try lia; (split; [done|set_solver]). }
  destruct sg as [neg r]. simpl in Hs.
  destruct (span_digits_plain r) as [Hr Hip]. destruct (span_digits r) as [ip r1]. simpl in *.
  destruct (negb _); [done|].
  set (frac := match r1 with 46 :: t => _ | _ => Some ([], r1) end).
  assert (forall fp r2, frac = Some (fp, r2) -> exists p, r1 = p ++ r2 /\ 34 ∉ p) as Hfrac.
  { intros fp r2. unfold frac. destruct r1 as [|c t]; [intros [= <- <-]; exists []; split; [done|set_solver]|].
    destruct (decide (c = 46)) as [->|Hc].
    - destruct (span_digits_plain t) as [Ht Hd]. destruct (span_digits t) as [d t'].
      destruct d as [|d0 d]; [done|]. intros [= <- <-]. simpl in *.
      exists (46 :: d0 :: d). split; [by rewrite Ht|]. set_solver.
    - intros E. assert (r2 = c :: t) as -> by (repeat case_match; try lia; by injection E as _ <-).
      exists []. split; [done|set_solver]. }
  destruct frac as [[fp r2]|]; [|done]. destruct (Hfrac fp r2 eq_refl) as (p1 & Hr1 & Hp1).
  cbn [mbind option_bind].
  set (ex := match r2 with [] => _ | _ => _ end).
  assert (forall x r3, ex = Some (x, r3) -> exists p, r2 = p ++ r3 /\ 34 ∉ p) as Hex.
  { intros x r3. unfold ex. destruct r2 as [|c t]; [intros [= _ <-]; exists []; split; [done|set_solver]|].
    destruct ((c =? 101) || (c =? 69)) eqn:Hc.
    - destruct (parse_sign_plain t) as (ps & Ht & Hps). destruct (parse_sign t) as [xn t1].
      simpl in Ht. destruct (span_digits_plain t1) as [Ht1 Hd]. destruct (span_digits t1) as [d t2].
      destruct d as [|d0 d]; [done|]. intros [= _ <-]. simpl in *.
      exists (c :: ps ++ d0 :: d). split; [simpl; by rewrite Ht, Ht1, <- app_assoc|].
      assert (c ≠ 34) by (apply orb_true_iff in Hc as [Hc|Hc]; apply Z.eqb_eq in Hc; lia). set_solver.
    - intros [= _ <-]. exists []. split; [done|set_solver]. }
  destruct ex as [[x r3]|]; [|done]. destruct (Hex x r3 eq_refl) as (p2 & Hr2 & Hp2).
  cbn [mbind option_bind]. intros [= _ <-]. exists (p0 ++ ip ++ p1 ++ p2).
  split; [by rewrite Hs, Hr, Hr1, Hr2, <- !app_assoc|]. set_solver.
Qed.

Definition copies_value (f : nat) : Prop :=
  (forall s v rest, parse_value f s = Some (v, rest) -> exists p, s = p ++ rest /\ copied false p false) /\
  (forall s v rest, parse_elements f s = Some (v, rest) -> exists p, s = p ++ rest /\ copied false p false) /\
  (forall acc s v rest, parse_members f acc s = Some (v, rest) ->
     exists p, s = p ++ rest /\ copied false p false).

(** Spaces, one unit and what follows it. *)
Lemma copied_token s c r rest p :
  skip_space s = c :: r -> c ≠ 34 -> r = p ++ rest -> copied false p false ->
  exists q, s = q ++ rest /\ copied false q false.
Proof.
  intros Hs Hc -> Hp. destruct (skip_space_plain s) as (sp & Hsp & H34). rewrite Hs in Hsp.
  exists (sp ++ [c] ++ p). split; [by rewrite Hsp, <- !app_assoc|].
  apply (copied_app _ false); [by apply copied_plain|].
  apply (copied_app _ false); [by apply copied_outside|done].
Qed.

Lemma copied_token_end s c rest :
  skip_space s = c :: rest -> c ≠ 34 -> exists q, s = q ++ rest /\ copied false q false.
Proof. intros Hs Hc. by apply (copied_token s c rest rest []). Qed.

(** A quoted string after spaces. *)
Lemma copied_string s r t rest :
  skip_space s = 34 :: r -> parse_string (length r) r = Some (t, rest) ->
  exists q, s = q ++ rest /\ copied false q false.
Proof.
  intros Hs Hp. destruct (skip_space_plain s) as (sp & Hsp & H34). rewrite Hs in Hsp.
  apply parse_string_copied in Hp as (p & -> & Hp).
  exists (sp ++ [34] ++ p). split; [by rewrite Hsp, <- !app_assoc|].
  apply (copied_app _ false); [by apply copied_plain|].
  apply (copied_app _ true); [apply copied_quote|done].
Qed.

Lemma copied_cat s p r q rest :
  s = p ++ r -> copied false p false -> r = q ++ rest -> copied false q false ->
  exists x, s = x ++ rest /\ copied false x false.
Proof.
  intros -> Hp -> Hq. exists (p ++ q). split; [by rewrite <- app_assoc|]. by eapply copied_app.
Qed.

Lemma copied_literal lit v s rest w :
  34 ∉ lit -> parse_literal lit v s = Some (w, rest) -> exists p, s = p ++ rest /\ copied false p false.
Proof.
  intros Hl. unfold parse_literal. destruct (starts_with lit s) eqn:Es; [|done]. intros [= _ <-].
  apply starts_with_spec in Es as [r ->]. exists lit. rewrite drop_app_length.
  split; [done|by apply copied_plain].
Qed.

Lemma copies_values f : copies_value f.
Proof.
  induction f as [|f (IHv & IHe & IHm)]; [by repeat split|]. split; [|split].
  - intros s v rest. cbn [parse_value]. destruct (skip_space s) as [|c r] eqn:Es; [done|].
    assert (forall p, c :: r = p ++ rest -> copied false p false ->
      exists q, s = q ++ rest /\ copied false q false) as Hlit.
    { intros p Hp Hc. destruct (skip_space_plain s) as (sp & Hsp & H34). rewrite Es in Hsp.
      eapply copied_cat; [exact Hsp|by apply copied_plain|exact Hp|done]. }
    destruct (Z.eqb_spec c 34) as [->|H34].
    { destruct (parse_string (length r) r) as [[t rest']|] eqn:Ep; [|done].
      intros [= _ <-]. by eapply copied_string. }
    destruct (Z.eqb_spec c 91) as [->|H91].
    { destruct (skip_space r) as [|d r'] eqn:Er; [|destruct (decide (d = 93)) as [->|Hd]].
      - destruct (parse_elements f r) as [[l rest']|] eqn:Ee; [|done]. intros [= _ <-].
        apply IHe in Ee as (p & Hr & Hp). by eapply copied_token.
      - intros [= _ <-]. destruct (copied_token_end r 93 r' Er) as (q & Hq & Hcq); [done|].
        by eapply copied_token.
      - intros H. assert (exists l rest', parse_elements f r = Some (l, rest') /\ rest' = rest)
          as (l & rest' & Ee & <-).
        { repeat case_match; try lia; destruct (parse_elements f r) as [[l rest']|]; try done;
            injection H as _ <-; eauto. }
        apply IHe in Ee as (p & Hr & Hp). by eapply copied_token. }
    destruct (Z.eqb_spec c 123) as [->|H123].
    { destruct (skip_space r) as [|d r'] eqn:Er; [|destruct (decide (d = 125)) as [->|Hd]].
      - destruct (parse_members f [] r) as [[l rest']|] eqn:Ee; [|done]. intros [= _ <-].
        apply IHm in Ee as (p & Hr & Hp). by eapply copied_token.
      - intros [= _ <-]. destruct (copied_token_end r 125 r' Er) as (q & Hq & Hcq); [done|].
        by eapply copied_token.
      - intros H. assert (exists l rest', parse_members f [] r = Some (l, rest') /\ rest' = rest)
          as (l & rest' & Ee & <-).
        { repeat case_match; try lia; destruct (parse_members f [] r) as [[l rest']|]; try done;
            injection H as _ <-; eauto. }
        apply IHm in Ee as (p & Hr & Hp). by eapply copied_token. }
    assert (forall lit w, bool_decide (34 ∈ lit) = false -> parse_literal lit w (c :: r) = Some (v, rest) ->
      exists q, s = q ++ rest /\ copied false q false) as Hl.
    { intros lit w Hb Hp. apply bool_decide_eq_false in Hb.
      destruct (copied_literal lit w (c :: r) rest v Hb Hp) as (p & E & Hc). by apply (Hlit p). }
    destruct (Z.eqb_spec c 116); [apply Hl; reflexivity|].
    destruct (Z.eqb_spec c 102); [apply Hl; reflexivity|].
    destruct (Z.eqb_spec c 110); [apply Hl; reflexivity|].
    destruct (parse_number (c :: r)) as [[num rest']|] eqn:En; [|done]. intros [= _ <-].
    apply parse_number_plain in En as (p & Hp & H). apply (Hlit p); [done|by apply copied_plain].
  - intros s v rest. cbn [parse_elements].
    destruct (parse_value f s) as [[w r]|] eqn:Ev; [|done]. cbn [mbind option_bind].
    apply IHv in Ev as (p & -> & Hp).
    destruct (skip_space r) as [|d r'] eqn:Er; [done|].
    destruct (decide (d = 44)) as [->|H44]; [|destruct (decide (d = 93)) as [->|H93]].
    + destruct (parse_elements f r') as [[l rest']|] eqn:Ee; [|done]. intros [= _ <-].
      apply IHe in Ee as (q & Hq & Hcq).
      destruct (copied_token r 44 r' rest' q Er) as (z & Hz & Hcz); try done. by eapply copied_cat.
    + intros [= _ <-]. destruct (copied_token_end r 93 r' Er) as (z & Hz & Hcz); [done|].
      by eapply copied_cat.
    + intros H. repeat case_match; try lia; done.
  - intros acc s v rest. cbn [parse_members]. destruct (skip_space s) as [|c r] eqn:Es; [done|].
    destruct (decide (c = 34)) as [->|Hc]; [|intros H; repeat case_match; try lia; done].
    destruct (parse_string (length r) r) as [[k r1]|] eqn:Ek; [|done]. cbn [mbind option_bind].
    destruct (copied_string s r k r1 Es Ek) as (p & -> & Hp).
    destruct (skip_space r1) as [|d r2] eqn:E1; [done|].
    destruct (decide (d = 58)) as [->|Hd]; [|intros H; repeat case_match; try lia; done].
    destruct (parse_value f r2) as [[w r3]|] eqn:Ev; [|done]. cbn [mbind option_bind].
    apply IHv in Ev as (q & Hq & Hcq).
    destruct (copied_token r1 58 r2 r3 q E1) as (z & Hz & Hcz); try done.
    destruct (copied_cat (p ++ r1) p r1 z r3 eq_refl Hp Hz Hcz) as (y & Hy & Hcy).
    destruct (skip_space r3) as [|e r4] eqn:E3; [done|].
    destruct (decide (e = 44)) as [->|H44]; [|destruct (decide (e = 125)) as [->|H125]].
    + intros Hm. apply IHm in Hm as (x & Hx & Hcx).
      destruct (copied_token r3 44 r4 rest x E3) as (u & Hu & Hcu); try done.
      by apply (copied_cat (p ++ r1) y r3 u rest).
    + intros [= _ <-]. destruct (copied_token_end r3 125 r4 E3) as (u & Hu & Hcu); [done|].
      by apply (copied_cat (p ++ r1) y r3 u r4).
    + intros H. repeat case_match; try lia; done.
Qed.

Lemma repair_valid text v : JSON_parse text = Some v -> repairJson text = text.
Proof.
  unfold JSON_parse. destruct (parse_value _ text) as [[w rest]|] eqn:Ep; [|done].
  destruct (skip_space rest) eqn:Es; [|done]. intros _.
  apply (proj1 (copies_values _)) in Ep as (p & -> & Hp).
  destruct (skip_space_plain rest) as (sp & Hsp & H34). rewrite Es, app_nil_r in Hsp. subst rest.
  unfold repairJson. rewrite Hp. f_equal.
  pose proof (copied_plain sp H34 []) as H. by rewrite !app_nil_r in H.
Qed.

(** repair never touches valid JSON: whatever [JSON.parse] accepts,
    [repairJson] returns unchanged. *)
Theorem repairJson_valid_unchanged text v : JSON_parse text = Some v -> repairJson text = text.
Proof. apply repair_valid. Qed.

Lemma repairJson_valid_unchanged_witness :
  let t := js "{" ++ [34] ++ js "a\n\u00e9" ++ [34] ++ js ": [1, null]}" in repairJson t = t.
Proof.
  apply (repairJson_valid_unchanged _ (JObj [([97; 10; 233], JArr [JNum (Finite 1); JNull])])).
  vm_compute. reflexivity.
Defined.

(** * Raw control characters are repaired *)

Definition escape_raw (t : jstr) : jstr :=
  t ≫= fun c => if isControlCharacter c then escapeControlCharacter c else [c].

(** A text that only control characters keep from being a string literal. *)
Definition no_delimiter (t : jstr) : Prop := Forall (fun c => 0 <= c /\ c ≠ 34 /\ c ≠ 92) t.

Lemma repair_raw t : no_delimiter t -> repair true (t ++ [34]) = escape_raw t ++ [34].
Proof.
  induction 1 as [|c t (H0 & H1 & H2) HF IH]; [done|]. cbn [app repair negb].
  rewrite (proj2 (Z.eqb_neq c 34)), (proj2 (Z.eqb_neq c 92)) by done.
  unfold escape_raw in *. rewrite bind_cons, <- app_assoc. f_equal. apply IH.
Qed.

Lemma parse_escaped c f x :
  isControlCharacter c = true ->
  parse_string (S f) (escapeControlCharacter c ++ x) =
  ('(t, rest) ← parse_string f x; Some (c :: t, rest)).
Proof.
  unfold isControlCharacter. intros H. bool_to_prop.
  destruct c as [|p|p]; [|repeat (destruct p as [p|p|]; try lia)|lia]; reflexivity.
Qed.

Lemma parse_raw t f x :
  no_delimiter t -> (length t < f)%nat -> parse_string f (escape_raw t ++ 34 :: x) = Some (t, x).
Proof.
  intros HF. revert f; induction HF as [|c t (H0 & H1 & H2) HF IH]; intros [|f] Hf; simpl in Hf; try lia.
  - done.
  - unfold escape_raw in *. rewrite bind_cons, <- app_assoc.
    destruct (isControlCharacter c) eqn:Ec.
    + rewrite parse_escaped, IH by (done || lia). done.
    + unfold isControlCharacter in Ec. cbn [app parse_string].
      rewrite (proj2 (Z.eqb_neq c 34)), (proj2 (Z.eqb_neq c 92)) by done.
      destruct (Z.ltb_spec c 32) as [Hlt|Hge].
      * exfalso. bool_to_prop. destruct Ec; bool_to_prop; lia.
      * rewrite IH by lia. done.
Qed.

Lemma escape_raw_length t : (length t <= length (escape_raw t))%nat.
Proof.
  induction t as [|c t IH]; [done|]. unfold escape_raw in *. rewrite bind_cons, length_app.
  destruct (isControlCharacter c); [|simpl; lia].
  assert (1 <= length (escapeControlCharacter c))%nat; [|simpl; lia].
  unfold escapeControlCharacter. repeat case_match; simpl; lia.
Qed.

(** what repair is for: a string literal in which the model left control
    characters raw (newlines, tabs, any unit below 32) is read as exactly the
    string it spells. *)
Theorem parseJsonWithRepair_raw_controls t :
  no_delimiter t -> parseJsonWithRepair ([34] ++ t ++ [34]) = Some (JStr t).
Proof.
  intros HF.
  assert (repairJson ([34] ++ t ++ [34]) = [34] ++ escape_raw t ++ [34]) as Hr.
  { unfold repairJson. simpl. by rewrite repair_raw. }
  assert (JSON_parse ([34] ++ escape_raw t ++ [34]) = Some (JStr t)) as Hp.
  { unfold JSON_parse. cbn [app].
    set (n := length _). replace (2 * n + 2)%nat with (S (2 * n + 1)) by lia.
    rewrite parse_value_string, parse_raw; [done|done|].
    rewrite length_app. simpl. pose proof (escape_raw_length t). lia. }
  unfold parseJsonWithRepair. destruct (JSON_parse ([34] ++ t ++ [34])) as [v|] eqn:Ev.
  - pose proof (repair_valid _ _ Ev) as Hu. by rewrite <- Hu, Hr, Hp in Ev.
  - rewrite Hr. destruct (streq _ _) eqn:Es; [|done]. simpl.
    apply streq_true in Es. by rewrite <- Es, Hp in Ev.
Qed.

Lemma parseJsonWithRepair_raw_controls_witness :
  parseJsonWithRepair ([34] ++ [97; 10; 9; 0; 98] ++ [34]) = Some (JStr [97; 10; 9; 0; 98]).
Proof.
  apply (parseJsonWithRepair_raw_controls [97; 10; 9; 0; 98]). repeat constructor; lia.
Defined.

(** An escape [\u] without four hex digits is kept although it is no JSON: the
    letter [u] itself is in the set of valid escapes. *)
Example malformed_unicode_escape_kept :
  let t := [34; 92; 117; 90; 90; 34] in repairJson t = t /\ parseJsonWithRepair t = None.
Proof. vm_compute. auto. Qed.
