(* ===== verification/Sse.v ===== *)
(** Server-sent events as the Anthropic client reads them: lines, messages, and
    the loop over the chunks of a response body (packages/ai,
    api/anthropic-messages.js, bundled in src/drivers/tools/pibridge/bridge.mjs).
    The messages do not depend on how the body is cut into chunks, unless a cut
    separates a carriage return from its line feed. *)
From S2P Require Import Prelude Utf8 Numbers Json Messages JsonRepair TransformMessages.
Open Scope Z_scope.

(** ** Messages *)

(** [state2] of [iterateSseMessages]. *)
Record sse_state := SseState { se_event : option jstr; se_data : list jstr; se_raw : list jstr }.

Record sse_message := SseMessage { sm_event : option jstr; sm_data : jstr; sm_raw : list jstr }.

Definition sse_init : sse_state := SseState None [] [].

Definition flushSseEvent (s : sse_state) : option sse_message * sse_state :=
  if negb (truthy_opt (se_event s)) && bool_decide (se_data s = []) then (None, s)
  else (Some (SseMessage (se_event s) (join [LF] (se_data s)) (se_raw s)), sse_init).

Definition COLON : Z := 58.

Definition decodeSseLine (line : jstr) (s : sse_state) : option sse_message * sse_state :=
  match line with
  | [] => flushSseEvent s
  | _ =>
      let raw := se_raw s ++ [line] in
      if starts_with [COLON] line then (None, SseState (se_event s) (se_data s) raw)
      else
        let '(fieldName, value0) :=
          match index_of [COLON] line with
          | Some i => (take i line, drop (S i) line)
          | None => (line, [])
          end in
        let value := if starts_with (js " ") value0 then drop 1 value0 else value0 in
        (None,
         if streq fieldName (js "event") then SseState (Some value) (se_data s) raw
         else if streq fieldName (js "data") then SseState (se_event s) (se_data s ++ [value]) raw
         else SseState (se_event s) (se_data s) raw)
  end.

(** ** Lines *)

Definition nextLineBreakIndex (text : jstr) : option nat :=
  match index_of [CR] text, index_of [LF] text with
  | None, newlineIndex => newlineIndex
  | carriageReturnIndex, None => carriageReturnIndex
  | Some i, Some j => Some (Nat.min i j)
  end.

(** The first line and what follows its break. *)
Definition consumeLine (text : jstr) : option (jstr * jstr) :=
  match nextLineBreakIndex text with
  | None => None
  | Some i =>
      let nextIndex :=
        if bool_decide (text !! i = Some CR) && bool_decide (text !! S i = Some LF) then S (S i) else S i in
      Some (take i text, drop nextIndex text)
  end.

(** The loop over the complete lines of the buffer.  Every line takes at least
    its break, so the length of the buffer is enough fuel. *)
Fixpoint drain (fuel : nat) (buffer : jstr) (s : sse_state) : list sse_message * jstr * sse_state :=
  match fuel with
  | O => ([], buffer, s)
  | S fuel =>
      match consumeLine buffer with
      | None => ([], buffer, s)
      | Some (line, rest) =>
          let '(event, s1) := decodeSseLine line s in
          let '(events, buffer', s2) := drain fuel rest s1 in
          (option_list event ++ events, buffer', s2)
      end
  end.

(** ** The body *)

Record sse_reader := SseReader { rd_decoder : text_decoder; rd_buffer : jstr; rd_state : sse_state }.

Definition reader_init : sse_reader := SseReader td_new [] sse_init.

Definition on_chunk (value : list Z) (r : sse_reader) : list sse_message * sse_reader :=
  let '(text, d) := td_stream (rd_decoder r) value in
  let buffer := rd_buffer r ++ text in
  let '(events, rest, s) := drain (length buffer) buffer (rd_state r) in
  (events, SseReader d rest s).

Fixpoint read_body (chunks : list (list Z)) (r : sse_reader) : list sse_message * sse_reader :=
  match chunks with
  | [] => ([], r)
  | value :: more =>
      let '(events, r1) := on_chunk value r in
      let '(events', r2) := read_body more r1 in
      (events ++ events', r2)
  end.

(** How the loop ends after the chunks: the body is done, the signal is seen
    aborted before a read, or a read fails. *)
Inductive read_end := ReadDone | ReadAborted | ReadFailed (message : jstr).

(** What is done with the buffer and the state once the body is done. *)
Definition finish_body (r : sse_reader) : list sse_message :=
  let buffer := rd_buffer r ++ (td_end (rd_decoder r)).1 in
  let '(events, rest, s) := drain (length buffer) buffer (rd_state r) in
  let '(last_event, s') :=
    match rest with [] => (None, s) | _ => decodeSseLine rest s end in
  events ++ option_list last_event ++ option_list (flushSseEvent s').1.

Definition aborted_error : jstr := js "Request was aborted".

(** The messages that are yielded, and how the generator ends. *)
Definition iterateSseMessages (chunks : list (list Z)) (e : read_end) : list sse_message * result jstr () :=
  let '(events, r) := read_body chunks reader_init in
  match e with
  | ReadAborted => (events, Throw aborted_error)
  | ReadFailed m => (events, Throw m)
  | ReadDone => (events ++ finish_body r, Ok ())
  end.

(** ** Events of a message *)

Definition ANTHROPIC_MESSAGE_EVENTS : list jstr := map js
  ["message_start"; "message_delta"; "message_stop"; "content_block_start"; "content_block_delta";
   "content_block_stop"].

Section Events.
(** What the engine says of a text [parseJsonWithRepair] does not accept. *)
Context (parse_error : jstr -> jstr).

Definition unparsable (sse : sse_message) (message : jstr) : jstr :=
  js "Could not parse Anthropic SSE event " ++ nullish (sm_event sse) (js "null") ++ js ": " ++ message ++
  js "; data=" ++ sm_data sse ++ js "; raw=" ++ join (js "\n") (sm_raw sse).

Definition has_type (t : jstr) (event : json) : bool := bool_decide (get (js "type") event = Some (JStr t)).

(** The body of the loop of [iterateAnthropicEvents] over the messages, then its
    end: the flags are [sawMessageStart] and [sawMessageEnd], [finally] is how the
    messages end. *)
Fixpoint anthropic_events (messages : list sse_message) (finally : result jstr ()) (sawStart sawEnd : bool)
  : list json * result jstr () :=
  match messages with
  | [] =>
      ([], match finally with
           | Throw e => Throw e
           | Ok _ =>
               if sawStart && negb sawEnd then Throw (js "Anthropic stream ended before message_stop") else Ok ()
           end)
  | sse :: more =>
      if bool_decide (sm_event sse = Some (js "error")) then ([], Throw (sm_data sse))
      else if negb (existsb (streq (nullish (sm_event sse) [])) ANTHROPIC_MESSAGE_EVENTS)
      then anthropic_events more finally sawStart sawEnd
      else
        match parseJsonWithRepair (sm_data sse) with
        | None => ([], Throw (unparsable sse (parse_error (sm_data sse))))
        | Some JNull =>
            ([], Throw (unparsable sse (js "Cannot read properties of null (reading 'type')")))
        | Some event =>
            let '(events, r) :=
              anthropic_events more finally (sawStart || has_type (js "message_start") event)
                (sawEnd || negb (has_type (js "message_start") event) && has_type (js "message_stop") event) in
            (event :: events, r)
        end
  end.

(** [body] is [None] for a response without one. *)
Definition iterateAnthropicEvents (body : option (list (list Z) * read_end)) : list json * result jstr () :=
  match body with
  | None => ([], Throw (js "Attempted to iterate over an Anthropic response with no body"))
  | Some (chunks, e) =>
      let '(messages, finally) := iterateSseMessages chunks e in
      anthropic_events messages finally false false
  end.
End Events.

(** * Facts *)

Example sse_ex :
  iterateSseMessages [utf8_encode (js "event: a" ++ [LF]); utf8_encode (js "data:x" ++ [CR; LF] ++ js ": note" ++ [LF] ++ js "data:  y");
      [LF; LF]] ReadDone =
  ([SseMessage (Some (js "a")) (js "x" ++ [LF] ++ js " y") [js "event: a"; js "data:x"; js ": note"; js "data:  y"]], Ok ()).
Proof. vm_compute. reflexivity. Qed.

(** ** Cutting a text into lines *)

(** The complete lines of a text, without their breaks, and what follows the last
    break. *)
Fixpoint cut_lines (s : jstr) : list jstr * jstr :=
  match s with
  | [] => ([], [])
  | c :: r =>
      let '(ls, rest) := cut_lines r in
      if c =? LF then ([] :: ls, rest)
      else if c =? CR then
        match r with
        | d :: _ => if d =? LF then (ls, rest) else ([] :: ls, rest)
        | [] => ([[]], [])
        end
      else match ls with [] => ([], c :: rest) | l :: ls' => ((c :: l) :: ls', rest) end
  end.

Lemma cut_lines_cons c r :
  cut_lines (c :: r) =
  let '(ls, rest) := cut_lines r in
  if c =? LF then ([] :: ls, rest)
  else if c =? CR then if bool_decide (head r = Some LF) then (ls, rest) else ([] :: ls, rest)
  else match ls with [] => ([], c :: rest) | l :: ls' => ((c :: l) :: ls', rest) end.
Proof.
  simpl. destruct (cut_lines r) as [ls rest] eqn:E. destruct (c =? LF), (c =? CR); try done.
  destruct r as [|d r]; simpl in *; [by simplify_eq|]. destruct (Z.eqb_spec d LF) as [->|Hd].
  - by rewrite bool_decide_true.
  - by rewrite bool_decide_false by congruence.
Qed.

Lemma next_break_cons c s :
  nextLineBreakIndex (c :: s) =
  if (c =? LF) || (c =? CR) then Some O else S <$> nextLineBreakIndex s.
Proof.
  unfold nextLineBreakIndex. cbn [index_of starts_with]. rewrite !andb_true_r.
  rewrite (Z.eqb_sym CR c), (Z.eqb_sym LF c).
  destruct (Z.eqb_spec c LF) as [->|Hl]; [by destruct (index_of [CR] s)|].
  destruct (Z.eqb_spec c CR) as [->|Hc]; cbn [orb]; [by destruct (index_of [LF] s)|].
  by destruct (index_of [CR] s), (index_of [LF] s).
Qed.

Lemma consumeLine_cons c s :
  (c =? LF) || (c =? CR) = false ->
  consumeLine (c :: s) = (fun lr => (c :: lr.1, lr.2)) <$> consumeLine s.
Proof.
  intros Hc. unfold consumeLine. rewrite next_break_cons, Hc. destruct (nextLineBreakIndex s) as [i|]; [|done].
  cbn [fmap option_fmap option_map take]. cbn [lookup list_lookup].
  by destruct (_ && _).
Qed.

Lemma consumeLine_cut s :
  match consumeLine s with
  | None => cut_lines s = ([], s)
  | Some (line, rest) => cut_lines s = (line :: (cut_lines rest).1, (cut_lines rest).2) /\ (length rest < length s)%nat
  end.
Proof.
  induction s as [|c s IH]; [done|]. destruct ((c =? LF) || (c =? CR)) eqn:Hc.
  - unfold consumeLine. rewrite next_break_cons, Hc, cut_lines_cons. cbn [take lookup list_lookup].
    destruct (Z.eqb_spec c LF) as [->|Hl].
    + rewrite bool_decide_false by done. cbn [andb drop]. rewrite drop_0. destruct (cut_lines s). split; [done|simpl; lia].
    + cbn [orb] in Hc. rewrite Hc. apply Z.eqb_eq in Hc as ->. rewrite (bool_decide_true (Some CR = Some CR)) by done. cbn [andb].
      destruct s as [|d s]; [split; [done|simpl; lia]|]. cbn [lookup list_lookup head].
      case_bool_decide as Hd; [injection Hd as ->|].
      * rewrite cut_lines_cons. cbn [drop]. rewrite drop_0. destruct (cut_lines s). rewrite Z.eqb_refl. split; [done|simpl; lia].
      * cbn [drop]. rewrite ?drop_0. destruct (cut_lines (d :: s)). split; [done|simpl; lia].
  - rewrite consumeLine_cons by done. apply orb_false_iff in Hc as [Hl Hr].
    rewrite cut_lines_cons, Hl, Hr. destruct (consumeLine s) as [[line rest]|]; cbn [fmap option_fmap option_map fst snd].
    + destruct IH as [-> Hlen]. split; [done|simpl; lia].
    + by rewrite IH.
Qed.

(** What the lines make of a state. *)
Fixpoint decode_lines (ls : list jstr) (s : sse_state) : list sse_message * sse_state :=
  match ls with
  | [] => ([], s)
  | l :: r =>
      let '(event, s1) := decodeSseLine l s in
      let '(events, s2) := decode_lines r s1 in (option_list event ++ events, s2)
  end.

Lemma decode_lines_app a b s :
  decode_lines (a ++ b) s =
  let '(e1, s1) := decode_lines a s in let '(e2, s2) := decode_lines b s1 in (e1 ++ e2, s2).
Proof.
  revert s; induction a as [|l a IH]; intros s; simpl; [by destruct (decode_lines b s)|].
  destruct (decodeSseLine l s) as [e s1]. rewrite IH. destruct (decode_lines a s1) as [e1 s2].
  destruct (decode_lines b s2). by rewrite app_assoc.
Qed.

Lemma drain_spec fuel buffer s :
  (length buffer <= fuel)%nat ->
  drain fuel buffer s =
  let '(events, s') := decode_lines (cut_lines buffer).1 s in (events, (cut_lines buffer).2, s').
Proof.
  revert buffer s. induction fuel as [|fuel IH]; intros buffer s Hf.
  - by destruct buffer; [|simpl in Hf; lia].
  - cbn [drain]. pose proof (consumeLine_cut buffer) as Hc. destruct (consumeLine buffer) as [[line rest]|].
    + destruct Hc as [-> Hlen]. cbn [fst snd decode_lines]. destruct (decodeSseLine line s) as [e s1].
      rewrite IH by lia. by destruct (decode_lines (cut_lines rest).1 s1).
    + by rewrite Hc.
Qed.

(** A text can be cut in two anywhere but inside a CRLF. *)
Definition splits_crlf (a b : jstr) : bool :=
  bool_decide (last a = Some CR) && bool_decide (head b = Some LF).

Lemma cut_lines_app a b :
  splits_crlf a b = false ->
  cut_lines (a ++ b) =
  ((cut_lines a).1 ++ (cut_lines ((cut_lines a).2 ++ b)).1, (cut_lines ((cut_lines a).2 ++ b)).2).
Proof.
  induction a as [|c a IH]; intros Hs; [by simpl; destruct (cut_lines b)|].
  assert (Hs' : splits_crlf a b = false).
  { unfold splits_crlf in *. destruct a as [|d a]; [done|]. exact Hs. }
  specialize (IH Hs'). cbn [app]. rewrite !cut_lines_cons, IH.
  destruct (cut_lines a) as [la ra] eqn:Ea. cbn [fst snd] in *.
  destruct (Z.eqb_spec c LF) as [->|Hl]; [done|]. destruct (Z.eqb_spec c CR) as [->|Hr].
  - destruct a as [|d a]; cbn [app head].
    + simpl in Ea. simplify_eq/=. unfold splits_crlf in Hs. rewrite bool_decide_true in Hs by done.
      cbn [andb] in Hs. rewrite Hs. done.
    + by case_bool_decide.
  - destruct la as [|l la]; [|done]. cbn [app fst snd]. rewrite cut_lines_cons.
    destruct (cut_lines (ra ++ b)) as [lb rb]. cbn [fst snd].
    rewrite (proj2 (Z.eqb_neq c LF) Hl), (proj2 (Z.eqb_neq c CR) Hr). by destruct lb.
Qed.

(** ** Decoding by pieces *)

Fixpoint td_pieces (d : text_decoder) (chunks : list (list Z)) : list jstr * text_decoder :=
  match chunks with
  | [] => ([], d)
  | c :: r => let '(p, d1) := td_stream d c in let '(ps, d2) := td_pieces d1 r in (p :: ps, d2)
  end.

Lemma td_stream_app d a b :
  td_stream d (a ++ b) =
  let '(o1, d1) := td_stream d a in let '(o2, d2) := td_stream d1 b in (o1 ++ o2, d2).
Proof.
  unfold td_stream. rewrite dec_run_app. destruct (dec_run (td_state d) a) as [o1 s1].
  destruct (strip_bom (td_bomSeen d) o1) as [k1 b1] eqn:E1. cbn [td_state td_bomSeen].
  destruct (dec_run s1 b) as [o2 s2]. rewrite strip_bom_app, E1.
  destruct (strip_bom b1 o2) as [k2 b2]. by rewrite units_of_app.
Qed.

Lemma td_pieces_stream chunks d :
  td_stream d (concat chunks) = (concat (td_pieces d chunks).1, (td_pieces d chunks).2).
Proof.
  revert d; induction chunks as [|c r IH]; intros d; simpl.
  - unfold td_stream. simpl. by destruct d as [st []].
  - rewrite td_stream_app. destruct (td_stream d c) as [p d1]. rewrite IH. by destruct (td_pieces d1 r).
Qed.

Lemma td_pieces_decode chunks :
  let '(ps, d) := td_pieces td_new chunks in concat ps ++ (td_end d).1 = td_decode (concat chunks).
Proof.
  pose proof (td_pieces_stream chunks td_new) as H. destruct (td_pieces td_new chunks) as [ps d].
  unfold td_stream in H. cbn [td_state td_bomSeen td_new] in H. unfold td_decode, decode_cps.
  destruct (dec_run dec_init (concat chunks)) as [out st]. rewrite strip_bom_app.
  destruct (strip_bom false out) as [kept seen]. injection H as Hk Hd. rewrite <- Hk, <- Hd.
  unfold td_end. cbn [td_state td_bomSeen]. destruct (strip_bom seen (dec_flush st)). cbn [fst]. by rewrite units_of_app.
Qed.

(** No cut separates a carriage return from its line feed. *)
Fixpoint unsplit (before : jstr) (pieces : list jstr) : bool :=
  match pieces with
  | [] => true
  | p :: r => negb (splits_crlf before p) && unsplit (before ++ p) r
  end.

(** A reader that has seen the text [T] and yielded [events]. *)
Definition has_read (T : jstr) (events : list sse_message) (r : sse_reader) : Prop :=
  decode_lines (cut_lines T).1 sse_init = (events, rd_state r) /\ rd_buffer r = (cut_lines T).2.

Lemma drain_reads T p events r events' rest s :
  has_read T events r -> splits_crlf T p = false ->
  drain (length (rd_buffer r ++ p)) (rd_buffer r ++ p) (rd_state r) = (events', rest, s) ->
  forall d, has_read (T ++ p) (events ++ events') (SseReader d rest s).
Proof.
  intros [Hd Hb] Hs Hdr d. rewrite drain_spec in Hdr by done. rewrite Hb in Hdr. unfold has_read.
  rewrite cut_lines_app by done. cbn [fst snd rd_state rd_buffer]. rewrite decode_lines_app, Hd.
  destruct (decode_lines (cut_lines ((cut_lines T).2 ++ p)).1 (rd_state r)) as [e2 s2]. by simplify_eq.
Qed.

Lemma read_body_reads chunks T events r events' r' :
  has_read T events r -> unsplit T (td_pieces (rd_decoder r) chunks).1 = true ->
  read_body chunks r = (events', r') ->
  has_read (T ++ concat (td_pieces (rd_decoder r) chunks).1) (events ++ events') r' /\
  rd_decoder r' = (td_pieces (rd_decoder r) chunks).2.
Proof.
  revert T events r events'. induction chunks as [|c chunks IH]; intros T events r events' Hr Hu Hb.
  - simplify_eq/=. by rewrite !app_nil_r.
  - cbn [read_body td_pieces] in *. unfold on_chunk in Hb.
    destruct (td_stream (rd_decoder r) c) as [p d1] eqn:Ep.
    destruct (drain _ _ _) as [[e1 rest] s1] eqn:Ed.
    destruct (read_body chunks (SseReader d1 rest s1)) as [e2 r2] eqn:Eb. simplify_eq.
    destruct (td_pieces d1 chunks) as [ps d2] eqn:Eps. cbn [fst snd concat unsplit] in *.
    apply andb_true_iff in Hu as [Hsp Hu]. apply negb_true_iff in Hsp.
    pose proof (drain_reads T p events r e1 rest s1 Hr Hsp Ed d1) as H1.
    specialize (IH (T ++ p) (events ++ e1) (SseReader d1 rest s1) e2 H1). cbn [rd_decoder] in IH.
    rewrite Eps in IH. specialize (IH Hu Eb). by rewrite !app_assoc.
Qed.

(** The messages of a whole text. *)
Definition sse_messages_of (text : jstr) : list sse_message :=
  let '(lines, rest) := cut_lines text in
  let '(events, s) := decode_lines (lines ++ match rest with [] => [] | _ => [rest] end) sse_init in
  events ++ option_list (flushSseEvent s).1.

Lemma td_end_no_LF d T : splits_crlf T (td_end d).1 = false.
Proof.
  unfold splits_crlf. rewrite andb_comm, bool_decide_false; [done|]. unfold td_end, dec_flush.
  destruct (d_need (td_state d)); destruct (td_bomSeen d); vm_compute; congruence.
Qed.

Lemma sse_chunking chunks :
  unsplit [] (td_pieces td_new chunks).1 = true ->
  iterateSseMessages chunks ReadDone = (sse_messages_of (td_decode (concat chunks)), Ok ()).
Proof.
  intros Hu. unfold iterateSseMessages. destruct (read_body chunks reader_init) as [e1 r] eqn:Eb.
  destruct (read_body_reads chunks [] [] reader_init e1 r) as [Hr Hd]; [done|done|done|].
  cbn [app rd_decoder reader_init] in Hr, Hd. pose proof (td_pieces_decode chunks) as Ht.
  destruct (td_pieces td_new chunks) as [ps d]. cbn [fst snd] in *. f_equal.
  unfold finish_body. rewrite Hd. destruct (drain _ _ _) as [[e2 rest] s] eqn:Ed.
  pose proof (drain_reads _ (td_end d).1 e1 r e2 rest s Hr (td_end_no_LF d _) Ed d) as [H2 Hb2].
  rewrite Ht in H2, Hb2. cbn [rd_state rd_buffer] in H2, Hb2. unfold sse_messages_of.
  destruct (cut_lines (td_decode (concat chunks))) as [lines rest']. cbn [fst snd] in *. subst rest'.
  rewrite decode_lines_app, H2. destruct rest as [|c rest]; [cbn; by rewrite app_nil_r, <- app_assoc|].
  cbn [decode_lines]. destruct (decodeSseLine (c :: rest) s) as [e s']. by rewrite app_nil_r, !app_assoc.
Qed.

(** ** Round trip *)

Definition plain (s : jstr) : Prop := (CR ∉ s) /\ LF ∉ s.

(** How a server writes an event: its name, its lines of data, an empty line. *)
Definition event_lines (ev : jstr * list jstr) : list jstr :=
  (js "event: " ++ ev.1) :: map (fun d => js "data: " ++ d) ev.2.

Definition sse_text (evs : list (jstr * list jstr)) : jstr :=
  evs ≫= fun ev => (event_lines ev ++ [[]]) ≫= fun l => l ++ [LF].

Definition sse_message_of (ev : jstr * list jstr) : sse_message :=
  SseMessage (Some ev.1) (join [LF] ev.2) (event_lines ev).

Lemma cut_line l t : plain l -> cut_lines (l ++ LF :: t) = (l :: (cut_lines t).1, (cut_lines t).2).
Proof.
  intros [Hc Hl]. induction l as [|x l IH]; cbn [app]; rewrite cut_lines_cons.
  - by destruct (cut_lines t).
  - rewrite IH by set_solver. rewrite (proj2 (Z.eqb_neq x LF)), (proj2 (Z.eqb_neq x CR)) by set_solver. done.
Qed.

Lemma cut_lines_text ls t :
  Forall plain ls ->
  cut_lines ((ls ≫= fun l => l ++ [LF]) ++ t) = (ls ++ (cut_lines t).1, (cut_lines t).2).
Proof.
  induction 1 as [|l ls Hl HF IH]; cbn [mbind list_bind app]; [by destruct (cut_lines t)|].
  rewrite <- !app_assoc. cbn [app]. by rewrite cut_line, IH.
Qed.

Lemma decode_data ds n data raw :
  decode_lines (map (fun d => js "data: " ++ d) ds) (SseState n data raw) =
  ([], SseState n (data ++ ds) (raw ++ map (fun d => js "data: " ++ d) ds)).
Proof.
  revert data raw; induction ds as [|d ds IH]; intros data raw; cbn [map decode_lines]; [by rewrite !app_nil_r|].
  change (decodeSseLine (js "data: " ++ d) (SseState n data raw))
    with (@None sse_message, SseState n (data ++ [d]) (raw ++ [js "data: " ++ d])).
  cbv beta iota. rewrite IH, <- !app_assoc. done.
Qed.

Lemma decode_event ev :
  truthy ev.1 = true -> decode_lines (event_lines ev ++ [[]]) sse_init = ([sse_message_of ev], sse_init).
Proof.
  intros Hn. destruct ev as [n ds]. unfold event_lines. cbn [fst snd app decode_lines].
  change (decodeSseLine (js "event: " ++ n) sse_init)
    with (@None sse_message, SseState (Some n) [] [js "event: " ++ n]).
  cbv beta iota. rewrite decode_lines_app, decode_data. cbn [decode_lines decodeSseLine app].
  unfold flushSseEvent. cbn [se_event truthy_opt]. cbn [fst] in Hn. rewrite Hn. done.
Qed.

Lemma sse_text_messages evs :
  Forall (fun ev => truthy ev.1 = true /\ plain ev.1 /\ Forall plain ev.2) evs ->
  cut_lines (sse_text evs) = (evs ≫= (fun ev => event_lines ev ++ [[]]), []) /\
  decode_lines (evs ≫= (fun ev => event_lines ev ++ [[]])) sse_init = (map sse_message_of evs, sse_init) /\
  CR ∉ sse_text evs.
Proof.
  assert (Hpre : forall p l, plain p -> plain l -> plain (p ++ l)) by (unfold plain; set_solver).
  induction 1 as [|ev evs (Hn & Hp & Hds) HF (IH1 & IH2 & IH3)]; [split_and!; [done|done|set_solver]|]. cbn [sse_text mbind list_bind map].
  assert (Hls : Forall plain (event_lines ev ++ [[]])).
  { apply Forall_app. split; [|repeat constructor; set_solver]. constructor.
    - apply Hpre; [|done]. split; vm_compute; set_solver.
    - apply Forall_map. eapply Forall_impl; [exact Hds|]. intros d Hd. apply Hpre; [|done]. split; vm_compute; set_solver. }
  split_and!.
  - rewrite cut_lines_text by done. unfold sse_text in IH1. by rewrite IH1.
  - by rewrite decode_lines_app, decode_event, IH2.
  - intros Hin. apply elem_of_app in Hin as [Hin|Hin]; [|done]. apply list_elem_of_bind in Hin as (l & Hin & Hl).
    rewrite Forall_forall in Hls. destruct (Hls l Hl) as [Hc _]. unfold LF, CR in *. set_solver.
Qed.

Lemma unsplit_plain pieces T : CR ∉ T ++ concat pieces -> unsplit T pieces = true.
Proof.
  revert T; induction pieces as [|p r IH]; intros T Hc; [done|]. cbn [unsplit concat] in *.
  rewrite IH by (by rewrite <- app_assoc). rewrite andb_true_r. unfold splits_crlf.
  rewrite bool_decide_false; [done|]. intros Hl. apply Hc, elem_of_app. left. by apply last_Some_elem_of.
Qed.

(** C29: What a server writes as server-sent events is what the client reads.  The
    server ends its lines with LF, gives every event a name of one line that is not
    empty and any number of lines of data.  For every list of such events, and every
    way to cut the bytes of their text into chunks, even inside a character, the
    client yields exactly these events, in order, with their names and data, and
    ends without an error.  Lines that end with CR LF are read as well, unless a
    chunk ends between the two ([split_crlf_fails]). *)
Theorem sse_roundtrip evs chunks :
  Forall (fun ev => truthy ev.1 = true /\ plain ev.1 /\ Forall plain ev.2) evs ->
  td_decode (concat chunks) = sse_text evs ->
  iterateSseMessages chunks ReadDone = (map sse_message_of evs, Ok ()).
Proof.
  intros HF Ht. destruct (sse_text_messages evs HF) as (Hcut & Hdec & Hcr).
  pose proof (td_pieces_decode chunks) as Hp. rewrite sse_chunking.
  - rewrite Ht. unfold sse_messages_of. by rewrite Hcut, app_nil_r, Hdec, app_nil_r.
  - destruct (td_pieces td_new chunks) as [ps d]. apply unsplit_plain. rewrite Ht in Hp. cbn [app fst].
    intros Hin. apply Hcr. rewrite <- Hp. set_solver.
Qed.

Definition sse_example : list (jstr * list jstr) :=
  [(js "ping", []); (js "message_stop", [js "{}"; 8364 :: js " x"])].

Lemma sse_roundtrip_witness :
  let bytes := utf8_encode (sse_text sse_example) in
  iterateSseMessages [take 3 bytes; take 40 (drop 3 bytes); drop 43 bytes] ReadDone = (map sse_message_of sse_example, Ok ()).
Proof.
  apply sse_roundtrip.
  - repeat (apply Forall_cons_2; [|]); try apply Forall_nil_2; (split; [reflexivity|]);
      (split; [split; vm_compute; set_solver|]); cbn [snd]; repeat (apply Forall_cons_2; [split; vm_compute; set_solver|]);
      apply Forall_nil_2.
  - vm_compute. reflexivity.
Defined.

(** ** Failures *)

(** A chunk that ends between a carriage return and its line feed gives an empty
    line: the event is dispatched without its data and the response fails. *)
Lemma split_crlf_fails parse_error :
  let text := js "event: message_start" ++ [CR; LF] ++ js "data: {}" ++ [CR; LF; CR; LF] in
  (iterateAnthropicEvents parse_error (Some ([text], ReadDone))).1 = [JObj []] /\
  (iterateAnthropicEvents parse_error (Some ([take 21 text; drop 21 text], ReadDone))) =
    ([], Throw (js "Could not parse Anthropic SSE event message_start: " ++ parse_error [] ++
                js "; data=; raw=event: message_start")).
Proof. split; vm_compute; reflexivity. Qed.
