(* ===== verification/ConstrainedSampling.v ===== *)
(** Constrained tool calls (packages/ai, api/constrained-sampling.js): making a
    JSON schema strict, choosing a grammar, and streaming a grammar tool's input
    as JSON.  A schema is a tree: [structuredClone] gives the rewriting its own
    copy, and a rewritten node is a new value. *)
From S2P Require Import Prelude Numbers Json.
Open Scope Z_scope.

(** * Strict schemas *)

Definition isJsonSchemaObject (v : json) : bool := match v with JObj _ => true | _ => false end.

Definition type_names (schema : json) : list json :=
  match get (js "type") schema with
  | Some (JStr t) => [JStr t]
  | Some (JArr l) => l
  | _ => []
  end.

Definition defined (key : jstr) (schema : json) : bool := bool_decide (is_Some (get key schema)).

Definition isStructuredSchema (schema : json) : bool :=
  isJsonSchemaObject schema &&
  (bool_decide (JStr (js "object") ∈ type_names schema) ||
   bool_decide (JStr (js "array") ∈ type_names schema) ||
   defined (js "properties") schema || defined (js "items") schema).

(** [schemaAllowsNull]; the fuel bounds the nesting of [anyOf]. *)
Fixpoint schemaAllowsNull (fuel : nat) (schema : json) : bool :=
  match fuel with
  | O => false
  | S f =>
      if negb (isJsonSchemaObject schema) then false
      else if bool_decide (JStr (js "null") ∈ type_names schema) then true
      else if bool_decide (get (js "const") schema = Some JNull) ||
              match get (js "enum") schema with
              | Some (JArr l) => bool_decide (JNull ∈ l)
              | _ => false
              end then true
      else match get (js "anyOf") schema with
           | Some (JArr l) => existsb (schemaAllowsNull f) l
           | _ => false
           end
  end.

Definition UNSUPPORTED_STRICT_SCHEMA_KEYS : list jstr := map js
  ["$ref"; "$defs"; "definitions"; "allOf"; "oneOf"; "patternProperties"; "dependentSchemas";
   "dependencies"; "unevaluatedProperties"; "propertyNames"; "contains"; "prefixItems"; "not";
   "if"; "then"; "else"]%string.

(** How deep a schema nests. *)
Fixpoint depth (j : json) : nat :=
  match j with
  | JArr l => S (list_max (map depth l))
  | JObj fs => S (list_max (map (fun kv => depth kv.2) fs))
  | _ => 1
  end.

Definition null_schema : json := JObj [(js "type", JStr (js "null"))].

Definition bool_schema_error : jstr := js "boolean schemas are unsupported".
Definition anyOf_error : jstr := js "anyOf must contain at least one schema".
Definition union_error : jstr := js "object and array unions are unsupported".
Definition tuple_error : jstr := js "tuple schemas are unsupported".
Definition properties_error : jstr := js "properties require type object".
Definition additional_error : jstr :=
  js "schema-valued or true additionalProperties is unsupported".
Definition property_map_error : jstr := js "object properties must be a schema map".
Definition required_error : jstr := js "object required must be a string array".
Definition unknown_error : jstr := js "required contains an unknown property".
Definition root_error : jstr := js "root schema must have type object".

Fixpoint strings_of (l : list json) : option (list jstr) :=
  match l with
  | [] => Some []
  | JStr s :: r => cons s <$> strings_of r
  | _ => None
  end.

(** [schema.required] as a set of names; [undefined] is the empty one. *)
Definition required_names (schema : json) : result jstr (list jstr) :=
  match get (js "required") schema with
  | None => Ok []
  | Some (JArr l) => match strings_of l with Some ns => Ok ns | None => Throw required_error end
  | Some _ => Throw required_error
  end.

Definition property_fields (schema : json) : result jstr (list (jstr * json)) :=
  match get (js "properties") schema with
  | None => Ok []
  | Some (JObj ps) => Ok ps
  | Some _ => Throw property_map_error
  end.

Definition check_unsupported (schema : json) : result jstr unit :=
  match List.find (fun key => defined key schema) UNSUPPORTED_STRICT_SCHEMA_KEYS with
  | Some key => Throw (key ++ js " schemas are unsupported")
  | None => Ok tt
  end.

Definition assign (key : jstr) (v : json) (schema : json) : json :=
  match schema with JObj fs => JObj (set_field key v fs) | _ => schema end.

Section Strict.
(** The recursive call, and the null test. *)
Context (recurse : json -> result jstr json) (allowsNull : json -> bool).

(** The variants of [anyOf], rewritten in place. *)
Definition strict_variant (variant : json) : result jstr json :=
  if isStructuredSchema variant then Throw union_error else recurse variant.

Definition strict_anyOf (schema : json) : result jstr json :=
  match get (js "anyOf") schema with
  | None => Ok schema
  | Some (JArr (v :: r)) =>
      let! l := map_throw strict_variant (v :: r) in Ok (assign (js "anyOf") (JArr l) schema)
  | Some _ => Throw anyOf_error
  end.

Definition strict_items (schema : json) : result jstr json :=
  match get (js "items") schema with
  | None => Ok schema
  | Some (JArr _) => Throw tuple_error
  | Some i => let! i' := recurse i in Ok (assign (js "items") i' schema)
  end.

Definition strict_property (required : list jstr) (kv : jstr * json)
  : result jstr (jstr * json) :=
  let! p := recurse kv.2 in
  Ok (kv.1,
      if negb (bool_decide (kv.1 ∈ required)) && negb (allowsNull p)
      then JObj [(js "anyOf", JArr [p; null_schema])] else p).

Definition strict_object (schema : json) : result jstr json :=
  match get (js "additionalProperties") schema with
  | None | Some (JBool false) =>
      let! ps := property_fields schema in
      let! required := required_names schema in
      let propertyNames := map fst ps in
      if existsb (fun key => negb (bool_decide (key ∈ propertyNames))) required
      then Throw unknown_error
      else
        let! ps' := map_throw (strict_property required) ps in
        let schema := if defined (js "properties") schema
                      then assign (js "properties") (JObj ps') schema else schema in
        let schema := assign (js "required") (JArr (map JStr propertyNames)) schema in
        Ok (assign (js "additionalProperties") (JBool false) schema)
  | Some _ => Throw additional_error
  end.

Definition strict_node (schema : json) : result jstr json :=
  if negb (isJsonSchemaObject schema) then Throw bool_schema_error
  else
    let! _ := check_unsupported schema in
    let! schema := strict_anyOf schema in
    let! schema := strict_items schema in
    let isObjectSchema := bool_decide (get (js "type") schema = Some (JStr (js "object"))) in
    if defined (js "properties") schema && negb isObjectSchema then Throw properties_error
    else if negb isObjectSchema then Ok schema
    else strict_object schema.
End Strict.

(** The node with everything below it; a schema is no deeper than its fuel. *)
Fixpoint makeJsonSchemaNodeStrict (fuel : nat) (schema : json) : result jstr json :=
  match fuel with
  | O => Throw []
  | S f => strict_node (makeJsonSchemaNodeStrict f) (fun p => schemaAllowsNull (depth p) p) schema
  end.

Definition makeStrictJsonSchema (schema : json) : result jstr json :=
  if negb (isJsonSchemaObject schema) then Throw root_error
  else
    let! cloned := makeJsonSchemaNodeStrict (depth schema) schema in
    if negb (bool_decide (get (js "type") cloned = Some (JStr (js "object"))))
    then Throw root_error else Ok cloned.

(** ** Tools *)

Inductive sampling :=
| JsonSchemaSampling (require : bool)                       (* [strict === "require"] *)
| GrammarSampling (openai_lark openai_regex : option jstr)
| NoSampling.

Record sampled_tool := SampledTool {
  st_name : jstr; st_parameters : json; st_sampling : sampling
}.

Definition quoted_name (n : jstr) : jstr := [34] ++ n ++ [34].

Definition getJsonSchemaToolParameters (t : sampled_tool) (strict : bool) : result jstr json :=
  if strict then makeStrictJsonSchema (st_parameters t) else Ok (st_parameters t).

Definition strict_unsupported (t : sampled_tool) (why : jstr) : jstr :=
  js "Tool " ++ quoted_name (st_name t) ++
  js " requires JSON-schema constrained sampling, but " ++ why ++ js ".".

(** [true] when strict tools are to be used, [false] for [undefined]. *)
Definition resolveJsonSchemaStrictSampling (t : sampled_tool) (supportsStrictMode : bool)
  : result jstr bool :=
  match st_sampling t with
  | JsonSchemaSampling require =>
      if supportsStrictMode then
        match makeStrictJsonSchema (st_parameters t) with
        | Ok _ => Ok true
        | Throw e => if require then Throw (strict_unsupported t e) else Ok false
        end
      else if require then Throw (strict_unsupported t (js "strict tools are unsupported"))
      else Ok false
  | _ => Ok false
  end.

Definition getGrammarToolInput (toolName : jstr) (arguments : json) (inputProperty : jstr)
  : result jstr jstr :=
  match get inputProperty arguments with
  | Some (JStr s) => Ok s
  | _ => Throw (js "Grammar tool call " ++ quoted_name toolName ++ js " requires argument " ++
                quoted_name inputProperty ++ js " to be a string.")
  end.

Definition inferGrammarInputProperty (t : sampled_tool) : result jstr jstr :=
  let schema := st_parameters t in
  if negb (bool_decide (get (js "type") schema = Some (JStr (js "object")))) then
    Throw (js "grammar constrained sampling requires an object parameter schema")
  else
    match get (js "required") schema with
    | Some (JArr [JStr inputProperty]) =>
        let property := get (js "properties") schema ≫= get inputProperty in
        if negb (truthy_json property) then
          Throw (js "grammar constrained sampling requires a properties entry for " ++ inputProperty)
        else if negb (bool_decide (property ≫= get (js "type") = Some (JStr (js "string")))) then
          Throw (js "grammar constrained sampling property " ++ inputProperty ++
                 js " must have type string")
        else Ok inputProperty
    | _ => Throw (js "grammar constrained sampling requires exactly one required string property")
    end.

Record grammar := Grammar { g_format : jstr; g_definition : jstr; g_inputProperty : jstr }.

Definition has_definition (d : option jstr) : bool :=
  match d with Some s => truthy (trim s) | None => false end.

Definition grammar_error (t : sampled_tool) (why : jstr) : jstr :=
  js "Tool " ++ quoted_name (st_name t) ++ js " cannot use grammar constrained sampling: " ++ why ++
  js ".".

Definition resolveGrammarConstrainedSampling (t : sampled_tool) (supportsOpenAIGrammarTools : bool)
  : result jstr (option grammar) :=
  match st_sampling t with
  | GrammarSampling lark regex =>
      if negb supportsOpenAIGrammarTools then Ok None
      else if negb (has_definition lark) && negb (has_definition regex) then
        Throw (grammar_error t (js "no supported grammar variant was provided"))
      else
        match inferGrammarInputProperty t with
        | Throw e => Throw (grammar_error t e)
        | Ok p =>
            Ok (Some (Grammar (if has_definition lark then js "lark" else js "regex")
                        (nullish (if has_definition lark then lark else regex) []) p))
        end
  | _ => Ok None
  end.

Fixpoint grammar_properties (tools : list sampled_tool) (supports : bool)
    (properties : gmap jstr jstr) : result jstr (gmap jstr jstr) :=
  match tools with
  | [] => Ok properties
  | t :: r =>
      let! g := resolveGrammarConstrainedSampling t supports in
      grammar_properties r supports
        (match g with Some g => <[st_name t := g_inputProperty g]> properties | None => properties end)
  end.

Definition createGrammarToolInputProperties (tools : option (list sampled_tool)) (supports : bool)
  : result jstr (gmap jstr jstr) := grammar_properties (nullish tools []) supports ∅.

(** * Streaming a grammar tool's input *)

Record grammar_buffer := GrammarBuffer { g_started : bool; g_input : jstr; g_closed : bool }.

Definition closed_error (p : jstr) : jstr :=
  js "grammar tool input for property " ++ quoted_name p ++ js " changed after it was closed".
Definition monotone_error (p : jstr) : jstr :=
  js "grammar tool input for property " ++ quoted_name p ++ js " changed non-monotonically".

(** The delta to emit, if any, and the buffer afterwards. *)
Definition appendGrammarToolInputJsonDelta (b : grammar_buffer) (inputProperty nextInput : jstr)
    (close : bool) : result jstr (option jstr * grammar_buffer) :=
  if g_closed b then
    if close && streq nextInput (g_input b) then Ok (None, b) else Throw (closed_error inputProperty)
  else if negb (starts_with (g_input b) nextInput) then Throw (monotone_error inputProperty)
  else
    let inputDelta := drop (length (g_input b)) nextInput in
    if negb close && negb (truthy inputDelta) then Ok (None, b)
    else
      let delta := if g_started b then [] else js "{" ++ quote inputProperty ++ [58; 34] in
      let delta := delta ++ quote_units inputDelta in
      let delta := if close then delta ++ [34; 125] else delta in
      Ok (Some delta, GrammarBuffer true nextInput close).

(** * Strict schemas are strict *)

(** What strict mode asks of a schema, everywhere in it. *)
Inductive strict_schema : json -> Prop :=
| StrictSchema fs :
    (forall key, key ∈ UNSUPPORTED_STRICT_SCHEMA_KEYS -> get key (JObj fs) = None) ->
    (forall l, get (js "anyOf") (JObj fs) = Some (JArr l) -> Forall strict_schema l) ->
    (forall v, get (js "items") (JObj fs) = Some v -> strict_schema v) ->
    (forall ps, get (js "properties") (JObj fs) = Some (JObj ps) ->
       get (js "type") (JObj fs) = Some (JStr (js "object")) /\
       Forall (fun kv => strict_schema kv.2) ps) ->
    (get (js "type") (JObj fs) = Some (JStr (js "object")) ->
       get (js "additionalProperties") (JObj fs) = Some (JBool false) /\
       exists ps, property_fields (JObj fs) = Ok ps /\
         get (js "required") (JObj fs) = Some (JArr (map JStr (map fst ps)))) ->
    strict_schema (JObj fs).

Lemma get_assign_eq k v s : isJsonSchemaObject s = true -> get k (assign k v s) = Some v.
Proof. destruct s; try done. intros _. apply lookup_set_field_eq. Qed.

Lemma get_assign_ne k k' v s : k ≠ k' -> get k (assign k' v s) = get k s.
Proof. intros Hne. destruct s; try done. by apply lookup_set_field_ne. Qed.

Lemma assign_object k v s : isJsonSchemaObject (assign k v s) = isJsonSchemaObject s.
Proof. by destruct s. Qed.

(** Keys of the source are concrete, so their inequality is decided. *)
Ltac key_ne := apply streq_false; vm_compute; reflexivity.
Ltac get_assign :=
  repeat first [rewrite get_assign_eq by (rewrite ?assign_object; done) |
                rewrite get_assign_ne by key_ne].

Lemma null_schema_strict : strict_schema null_schema.
Proof.
  constructor; try (intros ? H; vm_compute in H; discriminate).
  - intros key Hk. apply list_elem_of_In in Hk. vm_compute in Hk.
    repeat (destruct Hk as [<-|Hk]; [reflexivity|]). done.
  - intros H. vm_compute in H. discriminate.
Qed.

Lemma nullable_strict p : strict_schema p -> strict_schema (JObj [(js "anyOf", JArr [p; null_schema])]).
Proof.
  intros Hp. constructor.
  - intros key Hk. apply list_elem_of_In in Hk. vm_compute in Hk.
    repeat (destruct Hk as [<-|Hk]; [reflexivity|]). done.
  - intros l H. injection H as <-.
    apply Forall_cons. split; [done|]. apply Forall_singleton, null_schema_strict.
  - intros v H. discriminate.
  - intros ps H. discriminate.
  - intros H. discriminate.
Qed.

Lemma check_unsupported_ok s key :
  check_unsupported s = Ok tt -> key ∈ UNSUPPORTED_STRICT_SCHEMA_KEYS -> get key s = None.
Proof.
  unfold check_unsupported. destruct (List.find _ _) eqn:Ef; [done|]. intros _ Hk.
  apply list_elem_of_In in Hk. apply (find_none _ _ Ef) in Hk. unfold defined in Hk.
  apply bool_decide_eq_false in Hk. destruct (get key s); [|done]. exfalso. eauto.
Qed.

Section StrictFacts.
Context (recurse : json -> result jstr json) (allowsNull : json -> bool).
Context (recurse_strict : forall s s', recurse s = Ok s' -> strict_schema s').

Lemma strict_anyOf_ok s s1 :
  isJsonSchemaObject s = true -> strict_anyOf recurse s = Ok s1 ->
  isJsonSchemaObject s1 = true /\ (forall k, k ≠ js "anyOf" -> get k s1 = get k s) /\
  (forall l, get (js "anyOf") s1 = Some (JArr l) -> Forall strict_schema l).
Proof.
  intros Ho. unfold strict_anyOf. destruct (get (js "anyOf") s) as [v|] eqn:Ea.
  - destruct v as [| | | |[|v r]|]; try done.
    destruct (map_throw (strict_variant recurse) (v :: r)) as [l|] eqn:Em; [|done].
    intros [= <-]. rewrite assign_object. split; [done|]. split.
    + intros k Hk. by apply get_assign_ne.
    + intros l'. rewrite get_assign_eq by done. intros [= <-].
      apply map_throw_Ok in Em. clear Ea. induction Em as [|x y xs ys Hx Hxs IH]; constructor; [|done].
      unfold strict_variant in Hx. destruct (isStructuredSchema x); [done|]. by eapply recurse_strict.
  - intros [= <-]. split; [done|]. split; [done|]. by rewrite Ea.
Qed.

Lemma strict_items_ok s s1 :
  isJsonSchemaObject s = true -> strict_items recurse s = Ok s1 ->
  isJsonSchemaObject s1 = true /\ (forall k, k ≠ js "items" -> get k s1 = get k s) /\
  (forall v, get (js "items") s1 = Some v -> strict_schema v).
Proof.
  intros Ho. unfold strict_items. destruct (get (js "items") s) as [i|] eqn:Ei.
  - assert (forall i', recurse i = Ok i' -> isJsonSchemaObject (assign (js "items") i' s) = true /\
      (forall k, k ≠ js "items" -> get k (assign (js "items") i' s) = get k s) /\
      (forall v, get (js "items") (assign (js "items") i' s) = Some v -> strict_schema v)) as Hk.
    { intros i' Hi'. rewrite assign_object. split; [done|].
      split; [intros; by apply get_assign_ne|]. intros v. rewrite get_assign_eq by done.
      intros [= <-]. by eapply recurse_strict. }
    destruct i; try done; (destruct (recurse _) as [i'|] eqn:Er; [|done]; intros [= <-]; by apply Hk).
  - intros [= <-]. split; [done|]. split; [done|]. by rewrite Ei.
Qed.

Lemma strict_property_ok req kv kv' :
  strict_property recurse allowsNull req kv = Ok kv' ->
  kv'.1 = kv.1 /\ strict_schema kv'.2 /\
  (kv.1 ∈ req \/ (exists p, kv'.2 = JObj [(js "anyOf", JArr [p; null_schema])]) \/
   allowsNull kv'.2 = true).
Proof.
  unfold strict_property. destruct (recurse kv.2) as [p|] eqn:Er; [|done]. intros [= <-]. simpl.
  apply recurse_strict in Er. split; [done|].
  destruct (bool_decide (kv.1 ∈ req)) eqn:Eb; simpl; [apply bool_decide_eq_true in Eb; auto|].
  destruct (allowsNull p) eqn:En; simpl; [by auto|].
  split; [by apply nullable_strict|]. right. left. eauto.
Qed.

Lemma strict_properties_ok req ps ps' :
  map_throw (strict_property recurse allowsNull req) ps = Ok ps' ->
  map fst ps' = map fst ps /\ Forall (fun kv => strict_schema kv.2) ps' /\
  Forall (fun kv => kv.1 ∈ req \/ (exists p, kv.2 = JObj [(js "anyOf", JArr [p; null_schema])]) \/
                    allowsNull kv.2 = true) ps'.
Proof.
  intros Hm. apply map_throw_Ok in Hm.
  induction Hm as [|kv kv' ps0 ps0' H1 Hm (IH1 & IH2 & IH3)]; [by repeat constructor|].
  apply strict_property_ok in H1 as (Hk & Hs & Hn). simpl. rewrite Hk, IH1.
  split; [done|]. split; constructor; try done. by rewrite Hk.
Qed.

(** What [strict_object] leaves of a node whose [anyOf] and [items] are done. *)
Lemma strict_object_ok s s' :
  isJsonSchemaObject s = true -> strict_object recurse allowsNull s = Ok s' ->
  exists ps ps' req, property_fields s = Ok ps /\ required_names s = Ok req /\
    property_fields s' = Ok ps' /\ map fst ps' = map fst ps /\
    Forall (fun kv => strict_schema kv.2) ps' /\
    Forall (fun kv => kv.1 ∈ req \/ (exists p, kv.2 = JObj [(js "anyOf", JArr [p; null_schema])]) \/
                      allowsNull kv.2 = true) ps' /\
    get (js "required") s' = Some (JArr (map JStr (map fst ps'))) /\
    get (js "additionalProperties") s' = Some (JBool false) /\ isJsonSchemaObject s' = true /\
    (forall k, k ≠ js "properties" -> k ≠ js "required" -> k ≠ js "additionalProperties" ->
       get k s' = get k s).
Proof.
  intros Ho. unfold strict_object.
  destruct (get (js "additionalProperties") s) as [a|] eqn:Ea;
    [destruct a as [|[|]| | | |]; try done|].
  1,2: destruct (property_fields s) as [ps|] eqn:Ep; [|done]; cbn [bind];
    destruct (required_names s) as [req|] eqn:Er; [|done]; cbn [bind];
    destruct (existsb _ req); [done|];
    destruct (map_throw (strict_property recurse allowsNull req) ps) as [ps'|] eqn:Em; [|done];
    cbn [bind]; intros [= <-];
    destruct (strict_properties_ok req ps ps' Em) as (Hk & Hs & Hn);
    exists ps, ps', req; rewrite Hk;
    set (s1 := if defined (js "properties") s then _ else s);
    assert (isJsonSchemaObject s1 = true) as H1
      by (unfold s1; destruct (defined _ s); by rewrite ?assign_object);
    assert (property_fields s1 = Ok ps' /\ forall k, k ≠ js "properties" -> get k s1 = get k s)
      as [Hp1 Hg1];
    [ unfold s1, defined, property_fields in *;
      destruct (get (js "properties") s) as [pv|] eqn:Eg;
      [ rewrite bool_decide_true by eauto; split;
        [by rewrite get_assign_eq|intros; by apply get_assign_ne]
      | rewrite bool_decide_false by (by intros [? ?]); split; [|done];
        rewrite Eg; injection Ep as <-; by injection Em as <- ]
    | ];
    repeat split; try done;
    [ unfold property_fields; get_assign; exact Hp1
    | by get_assign
    | by get_assign
    | by rewrite !assign_object
    | intros k K1 K2 K3; rewrite !get_assign_ne by done; by apply Hg1 ].
Qed.

Lemma strict_node_ok s s' : strict_node recurse allowsNull s = Ok s' -> strict_schema s'.
Proof.
  unfold strict_node. destruct (isJsonSchemaObject s) eqn:Ho; simpl; [|done].
  destruct (check_unsupported s) as [[]|] eqn:Eu; [|done]. cbn [bind].
  destruct (strict_anyOf recurse s) as [s1|] eqn:E1; [|done]. cbn [bind].
  destruct (strict_items recurse s1) as [s2|] eqn:E2; [|done]. cbn [bind].
  destruct (strict_anyOf_ok s s1 Ho E1) as (Ho1 & G1 & A1).
  destruct (strict_items_ok s1 s2 Ho1 E2) as (Ho2 & G2 & I2).
  assert (forall key, key ∈ UNSUPPORTED_STRICT_SCHEMA_KEYS -> get key s2 = None) as Hun.
  { intros key Hk.
    assert (bool_decide ((js "anyOf" ∉ UNSUPPORTED_STRICT_SCHEMA_KEYS) /\
              (js "items" ∉ UNSUPPORTED_STRICT_SCHEMA_KEYS)) = true) as Hno by (vm_compute; reflexivity).
    apply bool_decide_eq_true in Hno as [N1 N2].
    rewrite G2, G1 by (by intros ->). by eapply check_unsupported_ok. }
  assert (forall l, get (js "anyOf") s2 = Some (JArr l) -> Forall strict_schema l) as A2.
  { intros l. rewrite G2 by key_ne. apply A1. }
  destruct (bool_decide (get (js "type") s2 = Some (JStr (js "object")))) eqn:Et; simpl;
    rewrite ?andb_false_r, ?andb_true_r.
  - apply bool_decide_eq_true in Et. intros E3.
    destruct (strict_object_ok s2 s' Ho2 E3)
      as (ps & ps' & req & Hp & Hr & Hp' & Hk & Hs & Hn & Hreq & Hadd & Ho' & Hg).
    destruct s' as [| | | | |fs]; try done. constructor.
    + intros key Hk'.
      assert (forall k', bool_decide (k' ∈ UNSUPPORTED_STRICT_SCHEMA_KEYS) = false -> key ≠ k') as Hne.
      { intros k' Hb ->. by apply bool_decide_eq_false in Hb. }
      rewrite Hg by (apply Hne; vm_compute; reflexivity). by apply Hun.
    + intros l. rewrite Hg by key_ne. apply A2.
    + intros v. rewrite Hg by key_ne. apply I2.
    + intros ps0 Hps0. split; [rewrite Hg by key_ne; done|].
      unfold property_fields in Hp'. rewrite Hps0 in Hp'. by injection Hp' as ->.
    + intros _. split; [done|]. exists ps'. by rewrite Hp'.
  - apply bool_decide_eq_false in Et.
    destruct (defined (js "properties") s2) eqn:Ed; [done|]. intros [= <-].
    destruct s2 as [| | | | |fs]; try done. constructor; try done.
    intros ps0 Hps0. unfold defined in Ed. apply bool_decide_eq_false in Ed. exfalso. eauto.
Qed.
End StrictFacts.

Lemma makeNode_strict f s s' : makeJsonSchemaNodeStrict f s = Ok s' -> strict_schema s'.
Proof.
  revert s s'; induction f as [|f IH]; intros s s'; [done|]. simpl. by apply strict_node_ok.
Qed.

(** ** The fuel is enough *)

Lemma depth_elem x l : x ∈ l -> (depth x < depth (JArr l))%nat.
Proof.
  intros Hin. simpl. assert (depth x <= list_max (map depth l))%nat; [|lia].
  pose proof (proj1 (list_max_le (map depth l) _) (Nat.le_refl _)) as HF.
  rewrite List.Forall_forall in HF. apply HF, in_map. by apply list_elem_of_In.
Qed.

Lemma depth_field k v fs : (k, v) ∈ fs -> (depth v < depth (JObj fs))%nat.
Proof.
  intros Hin. simpl. assert (depth v <= list_max (map (fun kv => depth kv.2) fs))%nat; [|lia].
  pose proof (proj1 (list_max_le (map (fun kv => depth kv.2) fs) _) (Nat.le_refl _)) as HF.
  rewrite List.Forall_forall in HF. apply HF.
  apply (in_map (fun kv : jstr * json => depth kv.2) fs (k, v)). by apply list_elem_of_In.
Qed.

Lemma depth_get k s v : get k s = Some v -> (depth v < depth s)%nat.
Proof.
  destruct s as [| | | | |fs]; try done. simpl get. intros H.
  assert (exists k', (k', v) ∈ fs) as [k' Hin]; [|by eapply depth_field].
  induction fs as [|[k0 w] fs IH]; [done|]. simpl in H. destruct (streq k0 k).
  - injection H as ->. exists k0. left.
  - destruct (IH H) as [k' Hk']. exists k'. by right.
Qed.

Lemma map_throw_ext {E A B} (f g : A -> result E B) l :
  (forall x, x ∈ l -> f x = g x) -> map_throw f l = map_throw g l.
Proof.
  induction l as [|x l IH]; intros H; [done|]. simpl. rewrite H by set_solver.
  destruct (g x); [|done]. simpl. rewrite IH; [done|]. intros y Hy. apply H. set_solver.
Qed.

Section FuelFacts.
Context (r1 r2 : json -> result jstr json) (allowsNull : json -> bool) (n : nat).
Context (agree : forall t, (depth t < n)%nat -> r1 t = r2 t).

Lemma strict_anyOf_ext s : (depth s <= n)%nat -> strict_anyOf r1 s = strict_anyOf r2 s.
Proof.
  intros Hs. unfold strict_anyOf. destruct (get (js "anyOf") s) as [v|] eqn:Ea; [|done].
  destruct v as [| | | |[|v r]|]; try done.
  rewrite (map_throw_ext (strict_variant r1) (strict_variant r2)); [done|].
  intros x Hx. unfold strict_variant. destruct (isStructuredSchema x); [done|].
  apply agree. apply depth_get in Ea. apply depth_elem in Hx. lia.
Qed.

Lemma strict_anyOf_get r s s1 k :
  strict_anyOf r s = Ok s1 -> k ≠ js "anyOf" -> get k s1 = get k s.
Proof.
  unfold strict_anyOf. intros H Hk. destruct (get (js "anyOf") s) as [v|]; [|by injection H as <-].
  destruct v as [| | | |[|v l]|]; try done. destruct (map_throw _ _); [|done].
  injection H as <-. by apply get_assign_ne.
Qed.

Lemma strict_items_get r s s1 k :
  strict_items r s = Ok s1 -> k ≠ js "items" -> get k s1 = get k s.
Proof.
  unfold strict_items. intros H Hk. destruct (get (js "items") s) as [v|]; [|by injection H as <-].
  destruct v; try done; (destruct (r _); [|done]); injection H as <-; by apply get_assign_ne.
Qed.

Lemma strict_items_ext s :
  (forall v, get (js "items") s = Some v -> (depth v < n)%nat) -> strict_items r1 s = strict_items r2 s.
Proof.
  intros Hs. unfold strict_items. destruct (get (js "items") s) as [v|]; [|done].
  specialize (Hs v eq_refl). destruct v; try done; by rewrite agree.
Qed.

Lemma strict_object_ext s :
  (forall v, get (js "properties") s = Some v -> (depth v < n)%nat) ->
  strict_object r1 allowsNull s = strict_object r2 allowsNull s.
Proof.
  intros Hs. unfold strict_object, property_fields.
  assert (forall req ps, get (js "properties") s = Some (JObj ps) \/ ps = [] ->
    map_throw (strict_property r1 allowsNull req) ps =
    map_throw (strict_property r2 allowsNull req) ps) as Hps.
  { intros req ps Hg. apply map_throw_ext. intros [k v] Hx. unfold strict_property.
    destruct Hg as [Hg| ->]; [|by apply elem_of_nil in Hx].
    rewrite agree; [done|]. apply Hs in Hg. apply depth_field in Hx. simpl in *. lia. }
  destruct (get (js "properties") s) as [v|] eqn:Ep.
  - destruct v; try done. cbn [bind].
    destruct (required_names s); [|done]. cbn [bind]. by rewrite Hps by (by left).
  - cbn [bind]. done.
Qed.

Lemma strict_node_ext s :
  (depth s <= n)%nat -> strict_node r1 allowsNull s = strict_node r2 allowsNull s.
Proof.
  intros Hs. unfold strict_node. destruct (negb (isJsonSchemaObject s)); [done|].
  destruct (check_unsupported s); [|done]. cbn [bind]. rewrite strict_anyOf_ext by done.
  destruct (strict_anyOf r2 s) as [s1|] eqn:E1; [|done]. cbn [bind].
  assert (forall k v, k ≠ js "anyOf" -> get k s1 = Some v -> (depth v < n)%nat) as H1.
  { intros k v Hk Hv. rewrite (strict_anyOf_get r2 s s1 k E1 Hk) in Hv. apply depth_get in Hv. lia. }
  rewrite strict_items_ext by (intros v; apply H1; key_ne).
  destruct (strict_items r2 s1) as [s2|] eqn:E2; [|done]. cbn [bind].
  rewrite strict_object_ext; [done|]. intros v. rewrite (strict_items_get r2 s1 s2 _ E2) by key_ne.
  apply H1. key_ne.
Qed.
End FuelFacts.

Lemma makeNode_fuel f f' s :
  (depth s <= f)%nat -> (depth s <= f')%nat ->
  makeJsonSchemaNodeStrict f s = makeJsonSchemaNodeStrict f' s.
Proof.
  assert (forall t, 1 <= depth t)%nat as Hd by (intros t; destruct t; simpl; lia).
  revert f' s; induction f as [|f IH]; intros [|f'] s H1 H2; try (specialize (Hd s); lia).
  simpl. apply (strict_node_ext _ _ _ (depth s)); [|done]. intros t Ht. apply IH; lia.
Qed.

Lemma allows_null_wrapped p :
  let w := JObj [(js "anyOf", JArr [p; null_schema])] in schemaAllowsNull (depth w) w = true.
Proof.
  intros w. assert (exists m, depth w = S (S (S m))) as [m ->].
  { exists (Nat.max (depth p) 2 - 1)%nat. unfold w. cbn [depth map list_max snd].
    change (depth null_schema) with 2%nat. unfold list_max. simpl. lia. }
  cbn [schemaAllowsNull]. change (isJsonSchemaObject w) with true. cbn [negb].
  change (get (js "const") w) with (@None json). change (get (js "enum") w) with (@None json).
  change (get (js "anyOf") w) with (Some (JArr [p; null_schema])).
  change (type_names w) with (@nil json).
  rewrite (bool_decide_false (JStr (js "null") ∈ [])) by apply not_elem_of_nil.
  rewrite bool_decide_false by done. cbn [orb existsb].
  change (schemaAllowsNull (S (S m)) null_schema) with true. by rewrite orb_true_r.
Qed.

(** C38: a schema that [makeStrictJsonSchema] returns is strict throughout: no
    unsupported keyword anywhere, every object node closed
    ([additionalProperties] false) and requiring exactly its properties, in
    order, [items] and [anyOf] variants strict too; a property that was optional
    in the source schema accepts null now.  The result does not depend on the
    fuel, any amount from the depth on giving the same. *)
Theorem makeStrictJsonSchema_strict schema s :
  makeStrictJsonSchema schema = Ok s ->
  strict_schema s /\
  (forall f, (depth schema <= f)%nat -> makeJsonSchemaNodeStrict f schema = Ok s) /\
  exists req ps, required_names schema = Ok req /\ property_fields s = Ok ps /\
    forall k p, (k, p) ∈ ps -> k ∈ req \/ schemaAllowsNull (depth p) p = true.
Proof.
  unfold makeStrictJsonSchema. destruct (isJsonSchemaObject schema) eqn:Ho; simpl; [|done].
  destruct (makeJsonSchemaNodeStrict (depth schema) schema) as [c|] eqn:Ec; [|done]. simpl.
  destruct (bool_decide (get (js "type") c = Some (JStr (js "object")))) eqn:Et; simpl; [|done].
  intros [= ->]. split; [by eapply makeNode_strict|]. split.
  { intros f Hf. rewrite <- Ec. by apply makeNode_fuel. }
  destruct (depth schema) as [|f] eqn:Ed; [done|]. simpl in Ec. unfold strict_node in Ec.
  rewrite Ho in Ec. simpl in Ec.
  destruct (check_unsupported schema); [|done]. cbn [bind] in Ec.
  set (rec := makeJsonSchemaNodeStrict f) in Ec.
  assert (forall x y, rec x = Ok y -> strict_schema y) as Hrec by (apply makeNode_strict).
  destruct (strict_anyOf rec schema) as [s1|] eqn:E1; [|done]. cbn [bind] in Ec.
  destruct (strict_items rec s1) as [s2|] eqn:E2; [|done]. cbn [bind] in Ec.
  destruct (strict_anyOf_ok rec Hrec schema s1 Ho E1) as (Ho1 & _).
  destruct (strict_items_ok rec Hrec s1 s2 Ho1 E2) as (Ho2 & _).
  apply bool_decide_eq_true in Et.
  destruct (bool_decide (get (js "type") s2 = Some (JStr (js "object")))) eqn:Et2; simpl in Ec;
    rewrite ?andb_false_r, ?andb_true_r in Ec.
  - destruct (strict_object_ok rec _ Hrec s2 s Ho2 Ec)
      as (ps & ps' & req & Hp & Hr & Hp' & _ & _ & Hn & _).
    exists req, ps'. split.
    { revert Hr. unfold required_names. rewrite (strict_items_get rec s1 s2 _ E2) by key_ne.
      rewrite (strict_anyOf_get rec schema s1 _ E1) by key_ne. done. }
    split; [done|]. intros k p Hin. rewrite Forall_forall in Hn.
    destruct (Hn (k, p) Hin) as [H|[(q & H)|H]]; simpl in *; [by left| |by right].
    right. subst p. apply allows_null_wrapped.
  - destruct (defined (js "properties") s2); [done|]. injection Ec as ->.
    apply bool_decide_eq_false in Et2. done.
Qed.

Definition example_schema : json :=
  JObj [(js "type", JStr (js "object"));
        (js "properties", JObj [(js "path", JObj [(js "type", JStr (js "string"))]);
                                (js "limit", JObj [(js "type", JStr (js "number"))])]);
        (js "required", JArr [JStr (js "path")])].

Definition example_strict : json :=
  match makeStrictJsonSchema example_schema with Ok s => s | Throw _ => JNull end.

Lemma makeStrictJsonSchema_strict_witness :
  strict_schema example_strict /\
  (forall f, (depth example_schema <= f)%nat ->
     makeJsonSchemaNodeStrict f example_schema = Ok example_strict) /\
  exists req ps, required_names example_schema = Ok req /\ property_fields example_strict = Ok ps /\
    forall k p, (k, p) ∈ ps -> k ∈ req \/ schemaAllowsNull (depth p) p = true.
Proof. apply makeStrictJsonSchema_strict. vm_compute. reflexivity. Defined.

(** * The streamed input is the JSON of the final input *)

(** Feeding successive snapshots of the input, the last one closing. *)
Fixpoint grammar_run (b : grammar_buffer) (inputProperty : jstr) (snapshots : list (jstr * bool))
  : result jstr (jstr * grammar_buffer) :=
  match snapshots with
  | [] => Ok ([], b)
  | (next, close) :: r =>
      let! x := appendGrammarToolInputJsonDelta b inputProperty next close in
      let! y := grammar_run x.2 inputProperty r in
      Ok (nullish x.1 [] ++ y.1, y.2)
  end.

Definition grammar_init : grammar_buffer := GrammarBuffer false [] false.

(** The text of a printed string cut into pieces. *)
Definition quoted_pieces (pieces : list jstr) : jstr := pieces ≫= quote_units.

Definition opened (inputProperty : jstr) (pieces : list jstr) : jstr :=
  js "{" ++ quote inputProperty ++ [58; 34] ++ quoted_pieces pieces.

(** What has been emitted so far spells the input so far. *)
Definition grammar_inv (p : jstr) (b : grammar_buffer) (text : jstr) : Prop :=
  exists pieces, g_input b = concat pieces /\
    (if g_started b then text = opened p pieces ++ (if g_closed b then [34; 125] else [])
     else text = [] /\ pieces = [] /\ g_closed b = false).

Lemma append_inv p b text next close d b' :
  grammar_inv p b text -> appendGrammarToolInputJsonDelta b p next close = Ok (d, b') ->
  grammar_inv p b' (text ++ nullish d []) /\ g_input b' = next /\
  (close = true -> g_started b' = true /\ g_closed b' = true).
Proof.
  intros (pieces & Hin & Ht). unfold appendGrammarToolInputJsonDelta.
  destruct (g_closed b) eqn:Ec.
  { destruct close; simpl; [|done]. destruct (streq next (g_input b)) eqn:Es; [|done].
    intros [= <- <-]. apply streq_true in Es as ->. simpl. rewrite app_nil_r.
    destruct (g_started b) eqn:Est; [|by destruct Ht as (_ & _ & ?)].
    split; [|by auto]. exists pieces. split; [done|]. by rewrite Est, Ec. }
  destruct (starts_with (g_input b) next) eqn:Es; simpl; [|done].
  apply starts_with_spec in Es as [delta ->]. rewrite drop_app_length.
  destruct (negb close && negb (truthy delta)) eqn:Ed.
  { intros [= <- <-]. apply andb_true_iff in Ed as [Hc Hd]. destruct close; [done|].
    destruct delta; [|done]. simpl. rewrite !app_nil_r. split; [|done].
    exists pieces. by rewrite Ec. }
  intros [= <- <-]. cbn [nullish]. split; [|auto]. exists (pieces ++ [delta]).
  cbn [g_input g_started g_closed]. split.
  { rewrite concat_app, Hin. simpl. by rewrite app_nil_r. }
  assert (opened p (pieces ++ [delta]) = opened p pieces ++ quote_units delta) as Ho.
  { unfold opened, quoted_pieces. rewrite bind_app. simpl. rewrite app_nil_r.
    by rewrite <- !app_assoc. }
  rewrite Ho. destruct (g_started b).
  - subst text. rewrite app_nil_r. destruct close; simpl; by rewrite ?app_nil_r, <- ?app_assoc.
  - destruct Ht as (-> & -> & _). destruct close; unfold opened; simpl;
      by rewrite ?app_nil_r, <- ?app_assoc.
Qed.

Lemma grammar_run_inv p snaps b text t b' :
  grammar_inv p b text -> grammar_run b p snaps = Ok (t, b') ->
  grammar_inv p b' (text ++ t) /\
  (forall next, last snaps = Some (next, true) ->
     g_input b' = next /\ g_started b' = true /\ g_closed b' = true).
Proof.
  revert b text t; induction snaps as [|[next close] snaps IH]; intros b text t Hi; simpl.
  - intros [= <- <-]. by rewrite app_nil_r.
  - destruct (appendGrammarToolInputJsonDelta b p next close) as [[d b1]|] eqn:Ea; [|done].
    cbn [bind fst snd].
    destruct (grammar_run b1 p snaps) as [[t1 b2]|] eqn:Er; [|done]. cbn [bind fst snd].
    intros [= <- <-]. destruct (append_inv p b text next close d b1 Hi Ea) as (Hi1 & Hn & Hc).
    destruct (IH b1 _ t1 Hi1 Er) as (Hi2 & Hl). rewrite app_assoc. split; [done|].
    intros nx. destruct snaps as [|s snaps]; [|apply Hl].
    simpl. intros [= -> ->]. simpl in Er. injection Er as <- <-. by destruct (Hc eq_refl).
Qed.

Lemma quoted_pieces_cons s pieces :
  quoted_pieces (s :: pieces) = quote_units s ++ quoted_pieces pieces.
Proof. done. Qed.

Lemma parse_pieces pieces f x :
  Forall unit_range pieces ->
  parse_string (length (concat pieces) + f) (quoted_pieces pieces ++ x) =
  ('(t, rest) ← parse_string f x; Some (concat pieces ++ t, rest)).
Proof.
  induction 1 as [|s pieces Hs HF IH]; cbn [concat].
  - simpl. by destruct (parse_string f x) as [[? ?]|].
  - rewrite quoted_pieces_cons, length_app, <- app_assoc, <- Nat.add_assoc.
    rewrite parse_quote_units, IH by done.
    destruct (parse_string f x) as [[t rest]|]; simpl; by rewrite <- ?app_assoc.
Qed.

Lemma quoted_pieces_length pieces : (length (concat pieces) <= length (quoted_pieces pieces))%nat.
Proof.
  induction pieces as [|s pieces IH]; [done|]. rewrite quoted_pieces_cons. cbn [concat].
  rewrite !length_app. pose proof (quote_units_length s). lia.
Qed.

Lemma parse_member_last f acc r k r2 v rest :
  parse_string (length r) r = Some (k, 58 :: r2) -> parse_value f r2 = Some (v, 125 :: rest) ->
  parse_members (S f) acc (34 :: r) = Some (set_field k v acc, rest).
Proof.
  intros H1 H2. cbn [parse_members]. change (skip_space (34 :: r)) with (34 :: r). cbn iota.
  rewrite H1. cbn [mbind option_bind]. change (skip_space (58 :: r2)) with (58 :: r2). cbn iota.
  rewrite H2. done.
Qed.

Lemma parse_value_object f r :
  skip_space r = r -> (forall t, r ≠ 125 :: t) ->
  parse_value (S f) (123 :: r) = ('(fs, rest) ← parse_members f [] r; Some (JObj (own_order fs), rest)).
Proof.
  intros Hs Hr. cbn [parse_value]. change (skip_space (123 :: r)) with (123 :: r). cbn iota.
  cbn [Z.eqb Pos.eqb]. rewrite Hs. destruct r as [|c r]; [done|].
  destruct (decide (c = 125)) as [->|]; [by destruct (Hr r)|].
  repeat case_match; try done; lia.
Qed.

Lemma parse_closed p pieces :
  unit_range p -> Forall unit_range pieces ->
  JSON_parse (opened p pieces ++ [34; 125]) = Some (JObj [(p, JStr (concat pieces))]).
Proof.
  intros Hp HF. set (body := quoted_pieces pieces ++ [34; 125]).
  assert (opened p pieces ++ [34; 125] = 123 :: 34 :: quote_units p ++ 34 :: 58 :: 34 :: body) as E.
  { unfold opened, quote, body. simpl. by rewrite <- !app_assoc. }
  rewrite E. unfold JSON_parse. set (n := length _).
  replace (2 * n + 2)%nat with (S (S (S (2 * n - 1)))) by (unfold n; simpl; lia).
  set (tail1 := 34 :: 58 :: 34 :: body).
  assert (parse_string (length (quote_units p ++ tail1)) (quote_units p ++ tail1) =
    Some (p, 58 :: 34 :: body)) as H1.
  { eapply parse_string_mono with (f := (length p + 1)%nat).
    - rewrite parse_quote_units by done. unfold tail1. cbn. by rewrite app_nil_r.
    - rewrite length_app. pose proof (quote_units_length p). unfold tail1. simpl. lia. }
  assert (parse_string (length body) body = Some (concat pieces, [125])) as H2.
  { unfold body. eapply parse_string_mono with (f := (length (concat pieces) + 1)%nat).
    - rewrite parse_pieces by done. cbn. by rewrite app_nil_r.
    - rewrite length_app. pose proof (quoted_pieces_length pieces). simpl. lia. }
  rewrite parse_value_object by done.
  rewrite (parse_member_last _ _ _ p (34 :: body) (JStr (concat pieces)) []); [|done|].
  2: by rewrite parse_value_string, H2.
  cbn [mbind option_bind set_field].
  assert (own_order [(p, JStr (concat pieces))] = [(p, JStr (concat pieces))]) as ->.
  { unfold own_order. cbn [List.filter fst]. by destruct (is_index_key p). }
  done.
Qed.

(** the deltas of a grammar tool call add up to its arguments.  Whatever
    snapshots of the input the provider sends, if none is refused and the last
    one closes the input, the concatenated deltas parse as the JSON object that
    maps the input property to the final input, whatever it contains (quotes,
    control characters, surrogate pairs cut between two deltas). *)
Theorem grammar_stream_correct p snapshots final t b :
  unit_range p -> unit_range final ->
  last snapshots = Some (final, true) -> grammar_run grammar_init p snapshots = Ok (t, b) ->
  JSON_parse t = Some (JObj [(p, JStr final)]).
Proof.
  intros Hp Hf Hl Hr.
  assert (grammar_inv p grammar_init []) as Hi by (by exists []).
  destruct (grammar_run_inv p snapshots grammar_init [] t b Hi Hr) as ((pieces & Hin & Ht) & Hend).
  destruct (Hend final Hl) as (Hfin & Hs & Hc). rewrite Hs, Hc in Ht. simpl in Ht. subst t.
  rewrite <- Hfin, Hin. rewrite <- Hfin, Hin in Hf. apply parse_closed; [done|].
  clear -Hf. induction pieces as [|s pieces IH]; [constructor|]. simpl in Hf.
  apply Forall_app in Hf as [H1 H2]. constructor; [done|by apply IH].
Qed.

Lemma grammar_stream_correct_witness :
  let snapshots := [(js "a", false); (js "a" ++ [10; 55357], false); (js "a" ++ [10; 55357; 56832], true)] in
  let t := match grammar_run grammar_init (js "q") snapshots with Ok (t, _) => t | _ => [] end in
  JSON_parse t = Some (JObj [(js "q", JStr (js "a" ++ [10; 55357; 56832]))]).
Proof.
  eapply (grammar_stream_correct (js "q")
    [(js "a", false); (js "a" ++ [10; 55357], false); (js "a" ++ [10; 55357; 56832], true)]
    (js "a" ++ [10; 55357; 56832])).
  - repeat constructor; vm_compute; intuition congruence.
  - repeat constructor; vm_compute; intuition congruence.
  - reflexivity.
  - vm_compute. reflexivity.
Defined.
