(* ===== verification/EventStream.v ===== *)
(** Event streams: the queue between a provider and its consumers (class
    [EventStream] of packages/ai/dist/utils/event-stream.js) and the streams
    that forward another one (packages/ai/dist/api/lazy.js), as bundled in
    src/drivers/tools/pibridge/bridge.mjs. *)
From S2P Require Import Prelude Numbers Json Messages.
Open Scope Z_scope.

(** * The class [EventStream] *)

Section Stream.
Context {E R : Type}.
Context (isComplete : E -> bool) (extractResult : E -> result jstr R).

(** A consumer is an async iterator over the stream, by number.  [delivered]
    lists what the iterators were given, in order; [None] is [done: true].
    [final] is the state of [finalResultPromise]. *)
Record stream := Stream {
  queue : list E;
  waiting : list nat;
  done : bool;
  final : option R;
  delivered : list (nat * option E)
}.

Definition new_stream : stream := Stream [] [] false None [].

(** [this.resolveFinalResult(r)]: the first resolution of a promise wins. *)
Definition resolveFinalResult (r : R) (s : stream) : stream :=
  Stream (queue s) (waiting s) (done s) (match final s with None => Some r | f => f end) (delivered s).

Definition set_done (s : stream) : stream :=
  Stream (queue s) (waiting s) true (final s) (delivered s).

(** The hand-over to the longest waiting iterator, or into the queue. *)
Definition offer (event : E) (s : stream) : stream :=
  match waiting s with
  | w :: ws => Stream (queue s) ws (done s) (final s) (delivered s ++ [(w, Some event)])
  | [] => Stream (queue s ++ [event]) [] (done s) (final s) (delivered s)
  end.

(** [push(event)] and what it throws. *)
Definition push (event : E) (s : stream) : stream * option jstr :=
  if done s then (s, None)
  else if isComplete event then
    match extractResult event with
    | Ok r => (offer event (resolveFinalResult r (set_done s)), None)
    | Throw e => (set_done s, Some e)
    end
  else (offer event s, None).

(** [end(result)] *)
Definition end_ (r : option R) (s : stream) : stream :=
  let s := set_done s in
  let s := match r with Some r => resolveFinalResult r s | None => s end in
  Stream (queue s) [] (done s) (final s) (delivered s ++ map (fun w => (w, None)) (waiting s)).

(** Whether an iterator has returned; it then answers [done: true] for ever. *)
Definition finished (c : nat) (s : stream) : bool :=
  existsb (fun d => bool_decide (d.1 = c) && match d.2 with None => true | Some _ => false end)
    (delivered s).

(** [next()] on iterator [c], which is not already waiting. *)
Definition next (c : nat) (s : stream) : stream :=
  if finished c s then
    Stream (queue s) (waiting s) (done s) (final s) (delivered s ++ [(c, None)])
  else match queue s with
       | e :: q => Stream q (waiting s) (done s) (final s) (delivered s ++ [(c, Some e)])
       | [] =>
           if done s then Stream [] (waiting s) (done s) (final s) (delivered s ++ [(c, None)])
           else Stream [] (waiting s ++ [c]) (done s) (final s) (delivered s)
       end.

(** What producers and consumers do with a stream, in the order it happens. *)
Inductive stream_op := Push (e : E) | End (r : option R) | Next (c : nat).

Definition stream_step (s : stream) (o : stream_op) : stream :=
  match o with
  | Push e => (push e s).1
  | End r => end_ r s
  | Next c => if bool_decide (c ∈ waiting s) then s else next c s
  end.

Definition run_stream (ops : list stream_op) : stream := foldl stream_step new_stream ops.

(** ** What a stream promises *)

(** The events a producer gets accepted: all up to the first complete one, or
    up to [end]. *)
Fixpoint accepted (ops : list stream_op) : list E :=
  match ops with
  | [] => []
  | Push e :: r =>
      if isComplete e then match extractResult e with Ok _ => [e] | Throw _ => [] end
      else e :: accepted r
  | End _ :: _ => []
  | Next _ :: r => accepted r
  end.

(** The result, once the stream is done: the first one [end] is called with. *)
Fixpoint end_result (ops : list stream_op) : option R :=
  match ops with
  | [] => None
  | End (Some r) :: _ => Some r
  | _ :: r => end_result r
  end.

(** The final result: that of the first complete event, else of [end]. *)
Fixpoint outcome (ops : list stream_op) : option R :=
  match ops with
  | [] => None
  | Push e :: r =>
      if isComplete e then match extractResult e with Ok v => Some v | Throw _ => end_result r end
      else outcome r
  | End (Some v) :: _ => Some v
  | End None :: r => end_result r
  | Next _ :: r => outcome r
  end.

(** The events the iterators received, in order. *)
Definition received (s : stream) : list E := omap snd (delivered s).

(** Nothing waits beside a queued event. *)
Definition stream_ok (s : stream) : Prop := queue s = [] \/ waiting s = [].

Lemma received_app l l' : omap snd (l ++ l') = omap (M := list) (A := nat * option E) snd l ++ omap snd l'.
Proof. apply omap_app. Qed.

Lemma received_none ws : omap (M := list) (A := nat * option E) snd (map (fun w => (w, None)) ws) = [].
Proof. by induction ws. Qed.

Lemma step_ok s o : stream_ok s -> stream_ok (stream_step s o).
Proof.
  intros Hok. destruct o as [e|r|c]; simpl.
  - unfold push. destruct (done s); [done|].
    destruct (isComplete e); [destruct (extractResult e)|]; simpl; [|done|];
      unfold offer; destruct (waiting s) eqn:Hw; simpl; rewrite ?Hw; unfold stream_ok in *; simpl;
      rewrite ?Hw in Hok; destruct Hok; naive_solver.
  - by right.
  - destruct (bool_decide _); [done|]. unfold next.
    destruct (finished c s); [done|]. destruct (queue s) eqn:Hq; simpl.
    + destruct (done s); by left.
    + destruct Hok as [Hok|Hok]; [congruence|by right].
Qed.

Lemma offer_received e s :
  stream_ok s -> received (offer e s) ++ queue (offer e s) = received s ++ queue s ++ [e].
Proof.
  unfold stream_ok, offer, received. intros Hok. destruct (waiting s) eqn:Hw; simpl; [done|].
  destruct Hok as [Hq|]; [|done]. rewrite Hq, received_app. simpl. by rewrite app_nil_r.
Qed.

Lemma next_keeps c s :
  done (next c s) = done s /\ final (next c s) = final s /\
  received (next c s) ++ queue (next c s) = received s ++ queue s.
Proof.
  unfold next, received.
  destruct (finished c s); [|destruct (queue s) eqn:Hq; [destruct (done s)|]]; simpl;
    rewrite ?received_app; simpl; by rewrite ?app_nil_r, <- ?app_assoc.
Qed.

(** A done stream accepts nothing more and its result only changes by [end]. *)
Lemma steps_done ops s :
  done s = true -> stream_ok s ->
  let s' := foldl stream_step s ops in
  done s' = true /\ received s' ++ queue s' = received s ++ queue s /\
  final s' = match final s with None => end_result ops | f => f end.
Proof.
  revert s; induction ops as [|o ops IH]; intros s Hd Hok; simpl.
  - repeat split; try done. by destruct (final s).
  - pose proof (step_ok s o Hok) as Hok'.
    assert (done (stream_step s o) = true /\
            received (stream_step s o) ++ queue (stream_step s o) = received s ++ queue s /\
            final (stream_step s o) = match final s with
              | None => match o with End r => r | _ => None end | f => f end) as (Hd' & Hr' & Hf').
    { destruct o as [e|r|c]; simpl.
      - unfold push. rewrite Hd. simpl. repeat split; try done. by destruct (final s).
      - unfold end_, received. destruct r; simpl; rewrite received_app, received_none, app_nil_r;
          repeat split; destruct (final s); done.
      - destruct (next_keeps c s) as (? & Hf & ?).
        destruct (bool_decide _); [|rewrite Hf]; repeat split; try congruence; by destruct (final s). }
    destruct (IH _ Hd' Hok') as (? & Hr & Hf). split; [done|]. split; [congruence|].
    rewrite Hf, Hf'. destruct (final s); [done|]. destruct o as [|[]|]; done.
Qed.

Lemma steps_open ops s :
  done s = false -> final s = None -> stream_ok s ->
  let s' := foldl stream_step s ops in
  received s' ++ queue s' = received s ++ queue s ++ accepted ops /\ final s' = outcome ops.
Proof.
  revert s; induction ops as [|o ops IH]; intros s Hd Hf Hok; simpl.
  - by rewrite app_nil_r.
  - pose proof (step_ok s o Hok) as Hok'. destruct o as [e|r|c]; simpl in *.
    + unfold push in *. rewrite Hd in *.
      destruct (isComplete e); [destruct (extractResult e) as [v|x]|]; simpl in *.
      * destruct (steps_done ops (offer e (resolveFinalResult v (set_done s)))) as (_ & Hr & Hf');
          [unfold offer; destruct (waiting _); done|done|].
        rewrite Hr, offer_received by done. split; [done|]. rewrite Hf'.
        unfold offer; destruct (waiting _); simpl; by rewrite Hf.
      * destruct (steps_done ops (set_done s)) as (_ & Hr & Hf'); [done|done|].
        rewrite Hr, app_nil_r. split; [done|]. rewrite Hf'. simpl. by rewrite Hf.
      * destruct (IH (offer e s)) as [Hr Hf'];
          [unfold offer; by destruct (waiting s)|unfold offer; by destruct (waiting s)|done|].
        rewrite Hr, app_assoc, offer_received by done. split; [|done].
        by rewrite <- !app_assoc.
    + destruct (steps_done ops (end_ r s)) as (_ & Hr & Hf'); [by destruct r|done|].
      rewrite Hr. unfold end_, received in *. destruct r; simpl in *;
        rewrite received_app, received_none, !app_nil_r; (split; [done|]); rewrite Hf', Hf; done.
    + destruct (bool_decide _); [by apply IH|].
      destruct (next_keeps c s) as (Hd' & Hf' & Hr').
      destruct (IH (next c s)) as [Hr Hf'']; [congruence|congruence|done|].
      by rewrite Hr, app_assoc, Hr', <- app_assoc.
Qed.

(** C32: for every interleaving of producers and consumers of an event stream,
    what the iterators received followed by what is still queued is exactly the
    accepted events, in order and once each; the final result is that of the
    first complete event, else the first one [end] was given; and no iterator
    waits beside a queued event. *)
Theorem stream_exactly_once (ops : list stream_op) :
  let s := run_stream ops in
  received s ++ queue s = accepted ops /\ final s = outcome ops /\ stream_ok s.
Proof.
  unfold run_stream. destruct (steps_open ops new_stream eq_refl eq_refl (or_introl eq_refl)) as [Hr Hf].
  split; [done|]. split; [done|].
  assert (forall s, stream_ok s -> stream_ok (foldl stream_step s ops)) as H; [|by apply H; left].
  clear. induction ops as [|o ops IH]; intros s Hs; simpl; [done|]. by apply IH, step_ok.
Qed.

(** ** Draining *)

Lemma finished_snoc c s e q w d f :
  finished c s = false -> finished c (Stream q w d f (delivered s ++ [(c, Some e)])) = false.
Proof.
  unfold finished. simpl. intros H. rewrite existsb_app, H. simpl.
  by rewrite andb_false_r.
Qed.

(** An iterator that keeps asking a stream that has ended gets the rest of the
    queue, in order, and then [done]. *)
Lemma next_drains c s :
  done s = true -> waiting s = [] -> finished c s = false ->
  let s' := foldl stream_step s (replicate (S (length (queue s))) (Next c)) in
  delivered s' = delivered s ++ map (fun e => (c, Some e)) (queue s) ++ [(c, None)] /\ queue s' = [].
Proof.
  remember (queue s) as q eqn:Hq. revert s Hq.
  induction q as [|e q IH]; intros s Hq Hd Hw Hn.
  - simpl. rewrite Hw, bool_decide_false by set_solver.
    unfold next. rewrite Hn, <- Hq, Hd. done.
  - change (replicate (S (length (e :: q))) (Next c)) with (Next c :: replicate (S (length q)) (Next c)).
    cbn [foldl]. unfold stream_step at 2 4. rewrite Hw, bool_decide_false by set_solver.
    assert (next c s = Stream q (waiting s) (done s) (final s) (delivered s ++ [(c, Some e)])) as ->.
    { unfold next. by rewrite Hn, <- Hq. }
    destruct (IH (Stream q (waiting s) (done s) (final s) (delivered s ++ [(c, Some e)])))
      as [Hdel Hq']; simpl; try done; [by apply finished_snoc|].
    simpl in Hdel. rewrite Hdel. split; [|done]. simpl. by rewrite <- app_assoc.
Qed.
End Stream.
Arguments Stream {E R}.
Arguments stream : clear implicits.
Arguments stream_op : clear implicits.

(** * Streams of an assistant message *)

(** The events of packages/ai; the [partial] snapshots they carry are left out. *)
Inductive event :=
| EvStart
| EvThinkingStart (i : Z) | EvThinkingDelta (i : Z) (delta : jstr) | EvThinkingEnd (i : Z) (content : jstr)
| EvTextStart (i : Z) | EvTextDelta (i : Z) (delta : jstr) | EvTextEnd (i : Z) (content : jstr)
| EvToolStart (i : Z) | EvToolDelta (i : Z) (delta : jstr) | EvToolEnd (i : Z) (tc : toolCall)
| EvDone (reason : stop_reason) (message : assistant)
| EvError (reason : stop_reason) (error : assistant).

Definition isComplete (e : event) : bool :=
  match e with EvDone _ _ | EvError _ _ => true | _ => false end.

Definition extractResult (e : event) : result jstr assistant :=
  match e with
  | EvDone _ m => Ok m
  | EvError _ m => Ok m
  | _ => Throw (js "Unexpected event type for final result")
  end.

Abbreviation message_stream := (stream event assistant).
Abbreviation push_event := (push isComplete extractResult).

(** [createSetupErrorMessage(model, error)], given [Date.now()] and the text of
    the error. *)
Definition createSetupErrorMessage (now : Z) (m : model) (error : jstr) : assistant :=
  Assistant (m_provider m) (m_api m) (m_id m) [] Error (Some error) zero_usage now.

(** [forwardStream(target, source)]: the events a [for await] over the source
    gives, then [end] with the source's result ([None]: a source without a
    [result] method). *)
Definition forwardStream (events : list event) (r : option assistant) (target : message_stream)
  : message_stream :=
  end_ r (foldl (fun t e => (push_event e t).1) target events).

(** How [setup] ends: with a source that gave events and a result, or with an
    error, which may also come from the source while it is read. *)
Inductive setup_outcome :=
| Inner (events : list event) (r : option assistant)
| SetupThrew (error : jstr)
| SourceThrew (events : list event) (error : jstr).

Definition lazyStream (now : Z) (m : model) (o : setup_outcome) : message_stream :=
  let failed error outer :=
    let message := createSetupErrorMessage now m error in
    end_ (Some message) (push_event (EvError Error message) outer).1 in
  match o with
  | Inner events r => forwardStream events r new_stream
  | SetupThrew error => failed error new_stream
  | SourceThrew events error =>
      failed error (foldl (fun t e => (push_event e t).1) new_stream events)
  end.

Definition pushes (events : list event) : list (stream_op event assistant) := map Push events.

Abbreviation run_messages := (run_stream isComplete extractResult).

Lemma foldl_pushes events t :
  foldl (fun t e => (push_event e t).1) t events =
  foldl (stream_step isComplete extractResult) t (pushes events).
Proof. revert t; induction events as [|e l IH]; intros t; simpl; [done|]. apply IH. Qed.

(** The operations on the stream that [lazyStream] returns. *)
Definition lazy_ops (now : Z) (m : model) (o : setup_outcome) : list (stream_op event assistant) :=
  let failed error :=
    let message := createSetupErrorMessage now m error in
    [Push (EvError Error message); End (Some message)] in
  match o with
  | Inner events r => pushes events ++ [End r]
  | SetupThrew error => failed error
  | SourceThrew events error => pushes events ++ failed error
  end.

Lemma lazyStream_ops now m o : lazyStream now m o = run_messages (lazy_ops now m o).
Proof.
  destruct o as [ev r|x|ev x]; unfold lazyStream, lazy_ops, forwardStream, run_stream;
    rewrite ?foldl_pushes; by rewrite ?foldl_app.
Qed.

Abbreviation accepted_events := (accepted isComplete extractResult).
Abbreviation outcome_message := (outcome isComplete extractResult).

Lemma accepted_pushes_app events l :
  accepted_events (pushes events ++ l) =
  accepted_events (pushes events) ++ (if existsb isComplete events then [] else accepted_events l).
Proof.
  induction events as [|e events IH]; simpl; [done|]. rewrite IH.
  destruct (isComplete e) eqn:He; simpl; [|done].
  destruct e; try discriminate He; simpl; done.
Qed.

Lemma outcome_pushes_app events l :
  outcome_message (pushes events ++ l) =
  match outcome_message (pushes events) with Some r => Some r | None => outcome_message l end.
Proof.
  induction events as [|e events IH]; simpl; [done|].
  destruct (isComplete e) eqn:He; [|done].
  destruct e; try discriminate He; done.
Qed.

Lemma outcome_pushes_none events :
  outcome_message (pushes events) = None <-> existsb isComplete events = false.
Proof.
  induction events as [|e events IH]; simpl; [done|].
  destruct (isComplete e) eqn:He; simpl; [|done].
  destruct e; try discriminate He; done.
Qed.

(** Once a source accepted events, no event follows a complete one. *)
Lemma accepted_idem ops : accepted_events (pushes (accepted_events ops)) = accepted_events ops.
Proof.
  induction ops as [|[e|r|c] ops IH]; simpl; try done.
  destruct (isComplete e) eqn:He; simpl; [|by rewrite He, IH].
  destruct (extractResult e) eqn:Hx; simpl; [|done]. by rewrite He, Hx.
Qed.

Lemma outcome_accepted ops r :
  outcome_message ops = Some r ->
  outcome_message (pushes (accepted_events ops) ++ [End (Some r)]) = Some r.
Proof.
  induction ops as [|[e|[r'|]|c] ops IH]; simpl; intros H; try done; [|by apply IH].
  destruct (isComplete e) eqn:He; simpl; [|rewrite He; by apply IH].
  destruct (extractResult e) eqn:Hx; simpl; [|done]. by rewrite He, Hx.
Qed.

(** a stream that forwards a source (every stream of [Models] does) is
    indistinguishable from it: whatever interleaving of operations gave the
    source its result [r], the forwarding stream queues the same events, ends,
    and has the same final result. *)
Theorem forward_transparent (now : Z) (m : model) (ops : list (stream_op event assistant)) (r : assistant) :
  final (run_messages ops) = Some r ->
  let source := run_messages ops in
  let outer := lazyStream now m (Inner (received source ++ queue source) (Some r)) in
  queue outer = received source ++ queue source /\ final outer = final source /\ done outer = true.
Proof.
  intros Hf. destruct (steps_open isComplete extractResult ops new_stream eq_refl eq_refl (or_introl eq_refl))
    as [Hr Hf']. simpl in Hr. fold (run_messages ops) in Hr, Hf'. cbv zeta. rewrite Hr, lazyStream_ops.
  set (l := lazy_ops _ _ _).
  destruct (steps_open isComplete extractResult l new_stream eq_refl eq_refl (or_introl eq_refl))
    as [Hq Ho]. fold (run_messages l) in Hq, Ho.
  assert (received (run_messages l) = [] /\ done (run_messages l) = true) as [Hn Hd].
  { subst l. unfold lazy_ops, run_stream. rewrite foldl_app. cbn. unfold received. simpl.
    assert (forall ev t, waiting t = [] -> delivered t = [] ->
      waiting (foldl (stream_step isComplete extractResult) t (pushes ev)) = [] /\
      delivered (foldl (stream_step isComplete extractResult) t (pushes ev)) = []) as H.
    { clear. induction ev as [|e ev IH]; intros t Hw Hd; simpl; [done|]. apply IH; unfold push, offer;
        destruct (done t), (isComplete e); simpl; try (destruct (extractResult e)); simpl; rewrite ?Hw; done. }
    destruct (H (accepted_events ops) new_stream eq_refl eq_refl) as [-> ->]. done. }
  rewrite Hn in Hq. simpl in Hq. rewrite Hq, Ho, Hf. split; [|split; [|done]].
  - unfold l, lazy_ops. rewrite accepted_pushes_app. simpl.
    rewrite accepted_idem. destruct (existsb _ _); by rewrite app_nil_r.
  - unfold l, lazy_ops. apply outcome_accepted. by rewrite <- Hf', Hf.
Qed.

Lemma forward_transparent_witness :
  let m := Model (js "faux-1") (js "Faux") (js "faux") (js "faux") [] false [] 0 0
             (CostRates 0 0 0 0) None None None in
  let a := createSetupErrorMessage 0 m (js "boom") in
  let ops := [Next 0; Push EvStart; Push (EvTextDelta 0 (js "hi")); Push (EvDone Stop a); End (Some a)] in
  queue (lazyStream 1 m (Inner (received (run_messages ops) ++ queue (run_messages ops)) (Some a))) =
  [EvStart; EvTextDelta 0 (js "hi"); EvDone Stop a].
Proof.
  intros m a ops.
  destruct (forward_transparent 1 m ops a eq_refl) as [H _]. rewrite H. reflexivity.
Defined.

Lemma lazy_failure_reports now m o error events :
  o = SetupThrew error /\ events = [] \/ o = SourceThrew events error ->
  existsb isComplete events = false ->
  let message := createSetupErrorMessage now m error in
  accepted_events (lazy_ops now m o) = events ++ [EvError Error message] /\
  outcome_message (lazy_ops now m o) = Some message.
Proof.
  intros Ho Hc. assert (accepted_events (pushes events) = events) as Ha.
  { clear Ho. induction events as [|e l IH]; simpl in *; [done|].
    apply orb_false_iff in Hc as [-> ?]. by rewrite IH. }
  destruct Ho as [[-> ->]| ->]; simpl; [done|].
  rewrite accepted_pushes_app, outcome_pushes_app, Hc, Ha.
  by rewrite (proj2 (outcome_pushes_none events) Hc).
Qed.
