(* ===== verification/Models.v ===== *)
(** The registry of providers and models, request authentication, prices and
    thinking levels: packages/ai/dist/models.js, auth/resolve.js,
    auth/credential-store.js and utils/diagnostics.js, as bundled in
    src/drivers/tools/pibridge/bridge.mjs. *)
From S2P Require Import Prelude Numbers Json Messages Regex.
Open Scope Z_scope.

(** * Errors *)

(** A thrown value: an [Error], a [ModelsError] with its code, another value
    by its [String(...)], or [undefined]/[null]. *)
Inductive thrown :=
| ErrorObj (name message : jstr)
| ModelsErr (code message : jstr)
| ThrownValue (text : jstr)
| ThrownNothing (text : jstr).

(** [formatThrownValue(value)] *)
Definition formatThrownValue (v : thrown) : jstr :=
  match v with
  | ErrorObj name message => if truthy message then message else name
  | ModelsErr _ message => if truthy message then message else js "ModelsError"
  | ThrownValue t | ThrownNothing t => t
  end.

(** [withCauseDetail(message, cause)] *)
Definition withCauseDetail (message : jstr) (cause : option thrown) : jstr :=
  match cause with
  | None | Some (ThrownNothing _) => message
  | Some c =>
      let detail := trim (formatThrownValue c) in
      if negb (truthy detail) || includes detail message then message
      else message ++ js ": " ++ detail
  end.

(** [new ModelsError(code, message, { cause })] *)
Definition ModelsError (code message : jstr) (cause : option thrown) : thrown :=
  ModelsErr code (withCauseDetail message cause).

(** * Headers *)

Section Headers.
(** [String.prototype.toLowerCase]; nothing is assumed of it. *)
Context (toLowerCase : jstr -> jstr).
Context {A : Type}.

Abbreviation headers := (list (jstr * A)).

(** One turn of the loop: drop every spelling of the name, then set it. *)
Definition put_header (merged : headers) (kv : jstr * A) : headers :=
  List.filter (fun e => negb (streq (toLowerCase e.1) (toLowerCase kv.1))) merged ++ [kv].

Definition mergeHeaders (base override : option headers) : option headers :=
  match base, override with
  | None, None => None
  | _, _ => Some (foldl put_header (nullish base []) (nullish override []))
  end.

(** The value a name has, whatever its spelling; the last one counts. *)
Definition header_value (name : jstr) (h : headers) : option A :=
  foldl (fun acc e => if streq (toLowerCase e.1) (toLowerCase name) then Some e.2 else acc) None h.

Definition distinct_names (h : headers) : Prop := NoDup (map (fun e => toLowerCase e.1) h).

Lemma header_value_snoc name h e :
  header_value name (h ++ [e]) =
  if streq (toLowerCase e.1) (toLowerCase name) then Some e.2 else header_value name h.
Proof. unfold header_value. by rewrite foldl_app. Qed.

Lemma header_value_filter name key h :
  header_value name (List.filter (fun e => negb (streq (toLowerCase e.1) (toLowerCase key))) h) =
  if streq (toLowerCase key) (toLowerCase name) then None else header_value name h.
Proof.
  induction h as [|e h IH] using rev_ind; simpl; [by destruct (streq _ _)|].
  rewrite List.filter_app. simpl. rewrite header_value_snoc.
  destruct (streq (toLowerCase e.1) (toLowerCase key)) eqn:Hk; simpl.
  - rewrite app_nil_r, IH. apply streq_true in Hk. rewrite Hk. by destruct (streq _ _).
  - rewrite header_value_snoc, IH.
    destruct (streq (toLowerCase e.1) (toLowerCase name)) eqn:Hn; [|done].
    apply streq_true in Hn. rewrite <- Hn. apply streq_false in Hk.
    rewrite (proj2 (streq_false _ _)) by congruence. done.
Qed.

Lemma put_header_value name h kv :
  header_value name (put_header h kv) =
  if streq (toLowerCase kv.1) (toLowerCase name) then Some kv.2 else header_value name h.
Proof.
  unfold put_header. rewrite header_value_snoc, header_value_filter.
  by destruct (streq _ _).
Qed.

Lemma put_header_distinct h kv : distinct_names h -> distinct_names (put_header h kv).
Proof.
  unfold distinct_names, put_header. rewrite map_app. simpl. intros H.
  apply NoDup_app. repeat split; [| |apply NoDup_singleton].
  - induction h as [|e h IH]; simpl in *; [constructor|]. inversion H; subst.
    destruct (negb _); simpl; [|by apply IH]. constructor; [|by apply IH].
    intros Hin. apply list_elem_of_fmap in Hin as (e' & He' & Hin).
    apply list_elem_of_In, filter_In in Hin as [Hin _].
    match goal with Hn : _ ∉ _ |- _ => apply Hn end. rewrite He'.
    by apply (list_elem_of_fmap_2 (fun e => toLowerCase e.1)), list_elem_of_In.
  - intros n Hn. apply list_elem_of_fmap in Hn as (e & -> & Hin).
    apply list_elem_of_In, filter_In in Hin as [_ Hne]. apply negb_true_iff, streq_false in Hne.
    set_solver.
Qed.

Lemma foldl_put_value name override base :
  header_value name (foldl put_header base override) =
  match header_value name override with Some v => Some v | None => header_value name base end.
Proof.
  induction override as [|kv l IH] using rev_ind; simpl; [done|].
  rewrite foldl_app. simpl. rewrite put_header_value, header_value_snoc, IH.
  by destruct (streq _ _).
Qed.

Lemma foldl_put_distinct override base :
  distinct_names base -> distinct_names (foldl put_header base override).
Proof.
  revert base; induction override as [|kv l IH]; intros base H; simpl; [done|].
  by apply IH, put_header_distinct.
Qed.
End Headers.

(** * Prices *)

(** Arithmetic of doubles on finite operands that stays finite elsewhere. *)
Definition lift2 (f : Q -> Q -> jsnum) (a b : jsnum) : jsnum :=
  match a, b with Finite x, Finite y => f x y | _, _ => NaN end.

(** The loop over [model.cost.tiers ?? []]. *)
Fixpoint match_tiers (inputTokens : Z) (tiers : list cost_tier) (rates : cost_rates) (matchedThreshold : Z)
  : cost_rates * Z :=
  match tiers with
  | [] => (rates, matchedThreshold)
  | t :: r =>
      if (tier_above t <? inputTokens) && (matchedThreshold <? tier_above t)
      then match_tiers inputTokens r (tier_rates t) (tier_above t)
      else match_tiers inputTokens r rates matchedThreshold
  end.

Definition input_tokens (u : usage) : Z := u_input u + u_cacheRead u + u_cacheWrite u.

Definition matched_rates (m : model) (u : usage) : cost_rates :=
  (match_tiers (input_tokens u) (nullish (m_tiers m) []) (m_rates m) (-1)).1.

Record dollars := Dollars {
  d_input : jsnum; d_output : jsnum; d_cacheRead : jsnum; d_cacheWrite : jsnum; d_total : jsnum
}.

(** [calculateCost(model, usage)] for finite rates; the intermediate values of
    real prices and counts are finite. *)
Definition calculateCost (m : model) (u : usage) : dollars :=
  let rates := matched_rates m u in
  let longWrite := nullish (u_cacheWrite1h u) 0 in
  let shortWrite := u_cacheWrite u - longWrite in
  let per (rate : Q) (n : Z) := lift2 fmul (fdiv rate 1000000) (Finite (inject_Z n)) in
  let cin := per (r_input rates) (u_input u) in
  let cout := per (r_output rates) (u_output u) in
  let cread := per (r_cacheRead rates) (u_cacheRead u) in
  let cwrite :=
    lift2 fdiv
      (lift2 fadd (fmul (r_cacheWrite rates) (inject_Z shortWrite))
         (lift2 fmul (fmul (r_input rates) 2) (Finite (inject_Z longWrite))))
      (Finite 1000000) in
  Dollars cin cout cread cwrite (lift2 fadd (lift2 fadd (lift2 fadd cin cout) cread) cwrite).

(** A tier applies to a number of input tokens. *)
Definition applies (n : Z) (t : cost_tier) : Prop := -1 < tier_above t < n.

Lemma match_tiers_spec n tiers rates th :
  -1 <= th ->
  let '(r, th') := match_tiers n tiers rates th in
  th <= th' /\ Forall (fun t => tier_above t < n -> tier_above t <= th') tiers /\
  ((r, th') = (rates, th) \/
   exists t, t ∈ tiers /\ r = tier_rates t /\ th' = tier_above t /\ th < tier_above t < n).
Proof.
  revert rates th; induction tiers as [|t tiers IH]; intros rates th Hth; simpl.
  - split; [lia|]. split; [constructor|by left].
  - destruct ((tier_above t <? n) && (th <? tier_above t)) eqn:Hc; bool_to_prop.
    + specialize (IH (tier_rates t) (tier_above t) ltac:(lia)).
      destruct (match_tiers n tiers (tier_rates t) (tier_above t)) as [r th'].
      destruct IH as (Hle & HF & Hor). split; [lia|]. split; [by constructor|]. right.
      destruct Hor as [[= -> ->]|(t' & Ht' & -> & -> & Hlt)].
      * exists t. repeat split; try lia. set_solver.
      * exists t'. repeat split; try lia. set_solver.
    + specialize (IH rates th Hth). destruct (match_tiers n tiers rates th) as [r th'].
      destruct IH as (Hle & HF & Hor). split; [done|]. split.
      * constructor; [|done]. intros Hlt. destruct Hc as [Hc|Hc]; bool_to_prop; lia.
      * destruct Hor as [->|(t' & Ht' & -> & -> & Hlt)]; [by left|right].
        exists t'. repeat split; try lia. set_solver.
Qed.

(** The price of a request is that of the highest tier whose threshold its
    input (cached input included) exceeds, and the base price when it exceeds
    none; the order in which a model lists its tiers does not matter. *)
Theorem highest_tier_applies (m : model) (u : usage) :
  (exists t, t ∈ nullish (m_tiers m) [] /\ applies (input_tokens u) t /\
     matched_rates m u = tier_rates t /\
     forall t', t' ∈ nullish (m_tiers m) [] -> applies (input_tokens u) t' -> tier_above t' <= tier_above t) \/
  ((forall t, t ∈ nullish (m_tiers m) [] -> ~ applies (input_tokens u) t) /\ matched_rates m u = m_rates m).
Proof.
  unfold matched_rates, applies.
  pose proof (match_tiers_spec (input_tokens u) (nullish (m_tiers m) []) (m_rates m) (-1) ltac:(lia)) as H.
  destruct (match_tiers _ _ _ _) as [r th]. simpl. destruct H as (_ & HF & Hor).
  rewrite Forall_forall in HF.
  destruct Hor as [[= -> ->]|(t & Ht & -> & -> & Hlt)].
  - right. split; [|done]. intros t Ht [Hl Hu]. specialize (HF t Ht Hu). lia.
  - left. exists t. repeat split; try done; try lia. intros t' Ht' [_ Hu]. by apply HF.
Qed.

(** * Thinking levels *)

Definition EXTENDED_THINKING_LEVELS : list jstr :=
  [js "off"; js "minimal"; js "low"; js "medium"; js "high"; js "xhigh"; js "max"].

Fixpoint assoc {A} (k : jstr) (l : list (jstr * A)) : option A :=
  match l with
  | [] => None
  | (k', v) :: r => if streq k' k then Some v else assoc k r
  end.

(** [model.thinkingLevelMap?.[level]]; [Some None] is [null]. *)
Definition mapped_level (m : model) (level : jstr) : option (option jstr) :=
  m_thinkingLevelMap m ≫= assoc level.

Definition level_supported (m : model) (level : jstr) : bool :=
  match mapped_level m level with
  | Some None => false
  | Some (Some _) => true
  | None => negb (streq level (js "xhigh") || streq level (js "max"))
  end.

Definition getSupportedThinkingLevels (m : model) : list jstr :=
  if m_reasoning m then List.filter (level_supported m) EXTENDED_THINKING_LEVELS
  else [js "off"].

Definition elem_of_bool (x : jstr) (l : list jstr) : bool := existsb (streq x) l.

(** [l.indexOf(x)] *)
Fixpoint list_index_of (x : jstr) (l : list jstr) : option nat :=
  match l with
  | [] => None
  | y :: r => if streq y x then Some O else S <$> list_index_of x r
  end.

Definition first_in (available candidates : list jstr) : option jstr :=
  List.find (fun c => elem_of_bool c available) candidates.

Definition clampThinkingLevel (m : model) (level : jstr) : jstr :=
  let availableLevels := getSupportedThinkingLevels m in
  let fallback := nullish (head availableLevels) (js "off") in
  if elem_of_bool level availableLevels then level
  else match list_index_of level EXTENDED_THINKING_LEVELS with
       | None => fallback
       | Some i =>
           match first_in availableLevels (drop i EXTENDED_THINKING_LEVELS) with
           | Some c => c
           | None =>
               nullish (first_in availableLevels (rev (take i EXTENDED_THINKING_LEVELS))) fallback
           end
       end.

Lemma elem_of_bool_spec x l : elem_of_bool x l = true <-> x ∈ l.
Proof.
  unfold elem_of_bool. rewrite existsb_exists. split.
  - intros (y & Hy & He). apply streq_true in He as ->. by apply list_elem_of_In.
  - intros H. exists x. split; [by apply list_elem_of_In|apply streq_refl].
Qed.

Lemma first_in_spec av cs c :
  first_in av cs = Some c ->
  c ∈ av /\ exists a b, cs = a ++ c :: b /\ Forall (fun x => x ∉ av) a.
Proof.
  induction cs as [|x cs IH]; [done|]. unfold first_in in *. cbn [List.find].
  destruct (elem_of_bool x av) eqn:Hx.
  - intros [= <-]. apply elem_of_bool_spec in Hx. split; [done|]. exists [], cs. by split.
  - intros H. destruct (IH H) as (Hc & a & b & -> & HF). split; [done|].
    exists (x :: a), b. split; [done|]. constructor; [|done].
    intros Hin. apply elem_of_bool_spec in Hin. congruence.
Qed.

Lemma first_in_none av cs : first_in av cs = None -> forall x, x ∈ cs -> x ∉ av.
Proof.
  unfold first_in. intros H x Hx Hav. apply list_elem_of_In in Hx.
  pose proof (List.find_none _ _ H x Hx) as Hf. cbn in Hf.
  apply elem_of_bool_spec in Hav. congruence.
Qed.

Lemma list_index_of_split x l i : list_index_of x l = Some i -> drop i l = x :: drop (S i) l.
Proof.
  revert i; induction l as [|y l IH]; intros i; simpl; [done|].
  destruct (streq y x) eqn:He; [intros [= <-]; apply streq_true in He as ->; done|].
  destruct (list_index_of x l) as [j|]; [|done]. simpl. intros [= <-]. simpl. by apply IH.
Qed.

Lemma supported_levels m x :
  x ∈ getSupportedThinkingLevels m -> x ∈ EXTENDED_THINKING_LEVELS.
Proof.
  unfold getSupportedThinkingLevels. destruct (m_reasoning m); [|set_solver].
  rewrite !list_elem_of_In, filter_In. tauto.
Qed.

(** Clamping a thinking level gives a level the model supports (or "off"
    when it supports none); a supported level is unchanged; an unsupported one
    goes to the nearest supported level above it, and to the nearest one below
    it only when nothing above is supported. *)
Theorem clamp_nearest_supported (m : model) (level : jstr) :
  let av := getSupportedThinkingLevels m in
  let c := clampThinkingLevel m level in
  (c ∈ av \/ av = [] /\ c = js "off") /\
  (level ∈ av -> c = level) /\
  (forall i, list_index_of level EXTENDED_THINKING_LEVELS = Some i -> level ∉ av ->
   (exists a b, drop i EXTENDED_THINKING_LEVELS = a ++ c :: b /\ Forall (fun x => x ∉ av) a) \/
   (forall x, x ∈ drop i EXTENDED_THINKING_LEVELS -> x ∉ av) /\
   (av = [] \/
    exists a b, rev (take i EXTENDED_THINKING_LEVELS) = a ++ c :: b /\ Forall (fun x => x ∉ av) a)).
Proof.
  intros av c. subst c. unfold clampThinkingLevel. fold av.
  assert (nullish (head av) (js "off") ∈ av \/ av = [] /\ nullish (head av) (js "off") = js "off") as Hfb.
  { destruct av as [|x av']; [by right|left; set_solver]. }
  destruct (elem_of_bool level av) eqn:Hin.
  { apply elem_of_bool_spec in Hin. split; [by left|]. split; [done|]. intros; contradiction. }
  assert (level ∉ av) as Hni. { intros H. apply elem_of_bool_spec in H. congruence. }
  split; [|split; [done|]].
  - destruct (list_index_of level EXTENDED_THINKING_LEVELS) as [i|]; [|done].
    destruct (first_in av (drop i _)) eqn:H1; [left; by apply first_in_spec in H1 as [? _]|].
    destruct (first_in av (rev _)) eqn:H2; simpl; [left; by apply first_in_spec in H2 as [? _]|done].
  - intros i Hi _. rewrite Hi.
    destruct (first_in av (drop i _)) eqn:H1.
    { left. apply first_in_spec in H1 as (_ & a & b & Hd & HF). eauto. }
    right. split; [by apply first_in_none|].
    destruct (first_in av (rev _)) eqn:H2; simpl.
    + right. apply first_in_spec in H2 as (_ & a & b & Hd & HF). eauto.
    + left. destruct av as [|x av'] eqn:Hav; [done|]. exfalso.
      assert (x ∈ EXTENDED_THINKING_LEVELS) as Hx
        by (apply (supported_levels m); fold av; rewrite Hav; set_solver).
      rewrite <- (take_drop i EXTENDED_THINKING_LEVELS) in Hx. apply elem_of_app in Hx as [Hx|Hx].
      * apply (first_in_none _ _ H2 x); [|set_solver].
        apply list_elem_of_In. rewrite <- in_rev. by apply list_elem_of_In.
      * apply (first_in_none _ _ H1 x Hx). set_solver.
Qed.

(** * Providers and the registry *)

(** The loop body of [currentModels]: a dynamic model replaces the first one
    of its id, or is added. *)
Fixpoint put_model (m : model) (merged : list model) : list model :=
  match merged with
  | [] => [m]
  | e :: r => if streq (m_id e) (m_id m) then m :: r else e :: put_model m r
  end.

Definition currentModels (baselineModels dynamicModels : list model) : list model :=
  foldl (fun merged m => put_model m merged) baselineModels dynamicModels.

(** [providers], a [Map]: setting an id it has keeps the id's place.  A
    provider is what its [getModels()] gives; [None] when it throws. *)
Abbreviation registry := (list (jstr * option (list model))).

Fixpoint providers_set (id : jstr) (p : option (list model)) (r : registry) : registry :=
  match r with
  | [] => [(id, p)]
  | (k, q) :: r' => if streq k id then (k, p) :: r' else (k, q) :: providers_set id p r'
  end.

Definition providers_delete (id : jstr) (r : registry) : registry :=
  List.filter (fun e => negb (streq e.1 id)) r.

Definition getProvider (id : jstr) (r : registry) : option (option (list model)) := assoc id r.

Definition getModels (provider : option jstr) (r : registry) : list model :=
  match provider with
  | Some id => match getProvider id r with Some (Some ms) => ms | _ => [] end
  | None => flat_map (fun e => nullish e.2 []) r
  end.

Definition getModel (provider id : jstr) (r : registry) : option model :=
  List.find (fun m => streq (m_id m) id) (getModels (Some provider) r).

Definition find_id (id : jstr) (l : list model) : option model :=
  List.find (fun m => streq (m_id m) id) l.

Lemma find_put_model id m l :
  find_id id (put_model m l) = if streq (m_id m) id then Some m else find_id id l.
Proof.
  unfold find_id. induction l as [|e l IH]; cbn [put_model List.find]; [done|].
  destruct (streq (m_id e) (m_id m)) eqn:He; cbn [List.find].
  - apply streq_true in He. rewrite He. by destruct (streq _ _).
  - rewrite IH. destruct (streq (m_id e) id) eqn:Hi; [|done].
    apply streq_true in Hi. apply streq_false in He. rewrite (proj2 (streq_false _ _)) by congruence. done.
Qed.

Lemma put_model_nodup m l : NoDup (map m_id l) -> NoDup (map m_id (put_model m l)).
Proof.
  induction l as [|e l IH]; cbn [put_model map]; intros H; [apply NoDup_singleton|].
  inversion H as [|? ? Hn Hd]; subst.
  destruct (streq (m_id e) (m_id m)) eqn:He; cbn [map].
  - apply streq_true in He. rewrite He in Hn. by constructor.
  - constructor; [|by apply IH]. apply streq_false in He. clear -Hn He.
    induction l as [|x l IH]; cbn [put_model map]; [set_solver|].
    destruct (streq (m_id x) (m_id m)); cbn [map] in *; set_solver.
Qed.

Lemma currentModels_find id baseline dynamic :
  find_id id (currentModels baseline dynamic) =
  match find_id id (rev dynamic) with Some m => Some m | None => find_id id baseline end.
Proof.
  unfold currentModels. induction dynamic as [|m l IH] using rev_ind; [done|].
  rewrite foldl_app, rev_app_distr. cbn [foldl rev app]. rewrite find_put_model, IH.
  unfold find_id at 3. cbn [List.find]. by destruct (streq _ _).
Qed.

Lemma currentModels_nodup baseline dynamic :
  NoDup (map m_id baseline) -> NoDup (map m_id (currentModels baseline dynamic)).
Proof.
  unfold currentModels. revert baseline; induction dynamic as [|m l IH]; intros b H; [done|].
  cbn [foldl]. by apply IH, put_model_nodup.
Qed.

Lemma getProvider_set id id' p r :
  getProvider id' (providers_set id p r) = if streq id id' then Some p else getProvider id' r.
Proof.
  unfold getProvider. induction r as [|[k q] r IH]; cbn [providers_set assoc]; [done|].
  destruct (streq k id) eqn:Hk; cbn [assoc].
  - apply streq_true in Hk as ->. by destruct (streq id id').
  - rewrite IH. destruct (streq k id') eqn:Hi; [|done].
    apply streq_true in Hi as ->. apply streq_false in Hk.
    rewrite (proj2 (streq_false _ _)) by congruence. done.
Qed.

Lemma getModel_sound p id r m :
  getModel p id r = Some m -> m_id m = id /\ m ∈ getModels (Some p) r.
Proof.
  unfold getModel. intros H. apply List.find_some in H as [Hin He].
  split; [by apply streq_true|by apply list_elem_of_In].
Qed.

(** * Request authentication *)

Abbreviation env := (list (jstr * jstr)).

Inductive credential :=
| OAuth (access refresh : jstr) (expires : Z)
| ApiKey (key : option jstr) (cenv : option env).

Record auth := Auth {
  auth_apiKey : option jstr;
  auth_headers : option (list (jstr * option jstr));
  auth_baseUrl : option jstr
}.

Record resolution := Resolution {
  res_auth : auth; res_env : option env; res_source : option jstr
}.

(** How a provider turns credentials into authentication; [resolve] reads the
    environment through the first argument. *)
Record provider_auth := ProviderAuth {
  apiKey_resolve : option ((jstr -> option jstr) -> option credential -> result thrown (option resolution));
  oauth_refresh_toAuth : option ((credential -> result thrown credential) * (credential -> result thrown auth))
}.

Record overrides := Overrides {
  ov_apiKey : option jstr; ov_env : option env; ov_minOAuthValidityMs : option Z
}.

(** [{ ...a, ...b }] *)
Definition spread {A} (a b : list (jstr * A)) : list (jstr * A) :=
  List.filter (fun e => negb (existsb (fun e' => streq e'.1 e.1) b)) a ++ b.

(** [overlayEnvAuthContext(base, env).env] *)
Definition overlayEnvAuthContext (base : jstr -> option jstr) (e : env) (name : jstr) : option jstr :=
  match assoc name e with
  | Some v => if truthy v then Some v else base name
  | None => base name
  end.

Definition DEFAULT_OAUTH_MINIMUM_VALIDITY_MS : Z := 5 * 60 * 1000.

Definition expiresSoon (now minimumValidityMs expires : Z) : bool :=
  expires <=? now + minimumValidityMs.

Definition resolveApiKey (ctx : jstr -> option jstr)
    (resolve : (jstr -> option jstr) -> option credential -> result thrown (option resolution))
    (providerId : jstr) (c : option credential) : result thrown (option resolution) :=
  match resolve ctx c with
  | Ok r => Ok r
  | Throw e => Throw (ModelsError (js "auth") (js "API key auth failed for provider " ++ providerId) (Some e))
  end.

(** The credential stored for the provider. *)
Abbreviation slot := (option credential).

(** The task [resolveStoredOAuth] gives to [credentials.modify], at a time
    [now]: what it returns, and whether the provider was asked to refresh. *)
Definition refresh_task (providerId : jstr) (refresh : credential -> result thrown credential)
    (now minimumValidityMs : Z) (current : slot) : result thrown slot * bool :=
  match current with
  | Some (OAuth a r expires) =>
      if negb (expiresSoon now minimumValidityMs expires) then (Ok None, false)
      else match refresh (OAuth a r expires) with
           | Ok c => (Ok (Some c), true)
           | Throw e =>
               (Throw (ModelsError (js "oauth") (js "OAuth refresh failed for " ++ providerId) (Some e)), true)
           end
  | _ => (Ok None, false)
  end.

(** [modify(providerId, fn)] of the in-memory store, whose tasks run one after
    the other: the new slot and what the call returns. *)
Definition modify (fn : slot -> result thrown slot * bool) (current : slot) : slot * result thrown slot * bool :=
  let '(next, refreshed) := fn current in
  match next with
  | Ok (Some c) => (Some c, Ok (Some c), refreshed)
  | Ok None => (current, Ok current, refreshed)
  | Throw e => (current, Throw e, refreshed)
  end.

Definition is_ModelsErr (e : thrown) : bool := match e with ModelsErr _ _ => true | _ => false end.

(** [resolveStoredOAuth] on the credential [stored] it read, the slot as its
    task finds it, and the times of its three looks at the clock. *)
Definition resolveStoredOAuth (providerId : jstr) (refresh : credential -> result thrown credential)
    (toAuth : credential -> result thrown auth) (stored_expires : Z) (stored : credential) (current : slot)
    (now0 now1 now2 : Z) (minOAuthValidityMs : option Z) : slot * result thrown (option resolution) * bool :=
  let minimumValidityMs := Z.max DEFAULT_OAUTH_MINIMUM_VALIDITY_MS (nullish minOAuthValidityMs 0) in
  let derive c :=
    match toAuth c with
    | Ok a => Ok (Some (Resolution a None (Some (js "OAuth"))))
    | Throw e => Throw (ModelsError (js "oauth") (js "OAuth auth derivation failed for " ++ providerId) (Some e))
    end in
  if expiresSoon now0 minimumValidityMs stored_expires then
    let '(slot', post, refreshed) := modify (refresh_task providerId refresh now1 minimumValidityMs) current in
    (slot',
     match post with
     | Throw e =>
         if is_ModelsErr e then Throw e
         else Throw (ModelsError (js "auth") (js "Credential store modify failed for " ++ providerId) (Some e))
     | Ok (Some (OAuth a r expires)) =>
         if match minOAuthValidityMs with Some _ => expiresSoon now2 minimumValidityMs expires | None => false end
         then Throw (ModelsError (js "oauth")
                (js "OAuth refresh returned a token that expires too soon for " ++ providerId) None)
         else derive (OAuth a r expires)
     | Ok _ => Ok None
     end, refreshed)
  else (current, derive stored, false).

(** [resolveProviderAuthWithSignal] on the slot of the provider, which no
    other request changes meanwhile, for a signal that is not aborted. *)
Definition resolveProviderAuth (providerId : jstr) (p : provider_auth) (authContext : jstr -> option jstr)
    (current : slot) (now0 now1 now2 : Z) (ov : overrides) : slot * result thrown (option resolution) :=
  let ctx := match ov_env ov with Some e => overlayEnvAuthContext authContext e | None => authContext end in
  match ov_apiKey ov, apiKey_resolve p with
  | Some key, Some resolve =>
      (current, resolveApiKey ctx resolve providerId (Some (ApiKey (Some key) (ov_env ov))))
  | _, _ =>
      match current with
      | Some (OAuth a r expires) =>
          match oauth_refresh_toAuth p with
          | Some (refresh, toAuth) =>
              let '(slot', res, _) := resolveStoredOAuth providerId refresh toAuth expires (OAuth a r expires)
                current now0 now1 now2 (ov_minOAuthValidityMs ov) in (slot', res)
          | None => (current, Ok None)
          end
      | Some (ApiKey key cenv) =>
          match apiKey_resolve p with
          | Some resolve =>
              let c := match ov_env ov with
                       | Some e => ApiKey key (Some (spread (nullish cenv []) e))
                       | None => ApiKey key cenv
                       end in
              (current, resolveApiKey ctx resolve providerId (Some c))
          | None => (current, Ok None)
          end
      | None =>
          (current, match apiKey_resolve p with
                    | Some resolve => resolveApiKey ctx resolve providerId None
                    | None => Ok None
                    end)
      end
  end.

Section ApplyAuth.
Context (toLowerCase : jstr -> jstr).

(** The options of a request that [applyAuth] looks at; [transformHeaders]
    is a function of the caller. *)
Record request_options := RequestOptions {
  ro_apiKey : option jstr;
  ro_headers : option (list (jstr * option jstr));
  ro_env : option env;
  ro_transformHeaders : option (list (jstr * option jstr) -> option (list (jstr * option jstr)))
}.

(** The end of [getAuth(model, ...)]: the headers of the model over what
    [resolveProviderAuth] gave. *)
Definition model_auth (m : model) (r : resolution) : resolution :=
  match m_headers m with
  | None => r
  | Some h =>
      let a := res_auth r in
      Resolution (Auth (auth_apiKey a)
                    (mergeHeaders toLowerCase (auth_headers a)
                       (Some (map (fun kv => (kv.1, Some kv.2)) h))) (auth_baseUrl a))
        (res_env r) (res_source r)
  end.

Definition with_baseUrl (m : model) (url : jstr) : model :=
  Model (m_id m) (m_name m) (m_api m) (m_provider m) url (m_reasoning m) (m_input m) (m_contextWindow m)
    (m_maxTokens m) (m_rates m) (m_tiers m) (m_thinkingLevelMap m) (m_headers m).

(** [applyAuth(model, options)]: [provider] is the registered provider of the
    model, [resolved] what [resolveProviderAuth] answered for it. *)
Definition applyAuth (m : model) (known : bool) (resolved : result thrown (option resolution))
    (o : request_options) : result thrown (model * request_options) :=
  if negb known then Throw (ModelsError (js "provider") (js "Unknown provider: " ++ m_provider m) None)
  else
    let! r := resolved in
    match r with
    | None => Throw (ModelsError (js "auth") (js "Provider is not configured: " ++ m_provider m) None)
    | Some r =>
        let r := model_auth m r in
        let a := res_auth r in
        let apiKey := match ro_apiKey o with Some k => Some k | None => auth_apiKey a end in
        let headers := mergeHeaders toLowerCase (auth_headers a) (ro_headers o) in
        let headers := match ro_transformHeaders o with
                       | Some f => f (nullish headers [])
                       | None => headers
                       end in
        let env := match res_env r, ro_env o with
                   | None, None => None
                   | e, e' => Some (spread (nullish e []) (nullish e' []))
                   end in
        let requestModel := match auth_baseUrl a with
                            | Some u => if truthy u then with_baseUrl m u else m
                            | None => m
                            end in
        Ok (requestModel, RequestOptions apiKey headers env None)
    end.

(** The value a request header finally has. *)
Definition request_header (name : jstr) (h : option (list (jstr * option jstr))) : option (option jstr) :=
  header_value toLowerCase name (nullish h []).

Lemma mergeHeaders_value name a b :
  request_header name (mergeHeaders toLowerCase a b) =
  match request_header name b with Some v => Some v | None => request_header name a end.
Proof.
  unfold request_header, mergeHeaders. destruct a as [a|], b as [b|]; simpl; try rewrite foldl_put_value; try done.
Qed.

(** for a configured provider, authentication always yields a request
    whose key is the caller's when it gave one and the resolved one otherwise,
    and whose headers are, name by name and whatever their spelling, the
    caller's, else the model's, else the resolved ones. *)
Theorem applyAuth_precedence (m : model) (r : resolution) (o : request_options) :
  ro_transformHeaders o = None ->
  exists rm ro, applyAuth m true (Ok (Some r)) o = Ok (rm, ro) /\
    ro_apiKey ro = (match ro_apiKey o with Some k => Some k | None => auth_apiKey (res_auth r) end) /\
    (forall name, request_header name (ro_headers ro) =
      match request_header name (ro_headers o) with
      | Some v => Some v
      | None =>
          match request_header name (option_map (map (fun kv => (kv.1, Some kv.2))) (m_headers m)) with
          | Some v => Some v
          | None => request_header name (auth_headers (res_auth r))
          end
      end) /\
    m_id rm = m_id m /\ m_provider rm = m_provider m.
Proof.
  intros Ht. unfold applyAuth. cbn [negb bind]. rewrite Ht. do 2 eexists. split; [reflexivity|].
  cbn [ro_apiKey ro_headers]. split; [unfold model_auth; by destruct (m_headers m)|]. split.
  - intros name. rewrite mergeHeaders_value. destruct (request_header name (ro_headers o)); [done|].
    unfold model_auth. destruct (m_headers m) as [h|]; cbn [res_auth auth_headers option_map]; [|done].
    by rewrite mergeHeaders_value.
  - destruct (auth_baseUrl _) as [u|]; [destruct (truthy u)|]; done.
Qed.
End ApplyAuth.

Lemma applyAuth_precedence_witness :
  let m := Model (js "m") (js "M") (js "api") (js "p") [] false [] 0 0 (CostRates 0 0 0 0) None None
             (Some [(js "X-Team", js "model")]) in
  let r := Resolution (Auth (Some (js "key")) (Some [(js "x-team", Some (js "auth"))]) None) None None in
  let o := RequestOptions None (Some [(js "X-TEAM", Some (js "caller"))]) None None in
  exists rm ro, applyAuth lower_all m true (Ok (Some r)) o = Ok (rm, ro) /\
    ro_apiKey ro = Some (js "key") /\
    request_header lower_all (js "x-team") (ro_headers ro) = Some (Some (js "caller")).
Proof.
  intros m r o. destruct (applyAuth_precedence lower_all m r o eq_refl) as (rm & ro & H & Hk & Hh & _).
  exists rm, ro. split; [exact H|]. split; [exact Hk|]. rewrite Hh. reflexivity.
Defined.

(** Two requests that found the same expiring token: the store runs their
    tasks one after the other, and the second one finds the fresh token. *)
Lemma refresh_once providerId refresh now1 now2 minimum c c' a r expires :
  refresh c = Ok c' -> c = OAuth a r expires ->
  (exists a' r' e', c' = OAuth a' r' e' /\ expiresSoon now2 minimum e' = false) ->
  expiresSoon now1 minimum expires = true ->
  let '(slot1, post1, asked1) := modify (refresh_task providerId refresh now1 minimum) (Some c) in
  let '(slot2, post2, asked2) := modify (refresh_task providerId refresh now2 minimum) slot1 in
  asked1 = true /\ asked2 = false /\ post1 = Ok (Some c') /\ post2 = Ok (Some c') /\ slot2 = Some c'.
Proof.
  intros Hr -> (a' & r' & e' & -> & Hf) Hs. unfold modify, refresh_task. rewrite Hs, Hr. simpl.
  by rewrite Hf.
Qed.
