(* ===== verification/Faux.v ===== *)
(** The scripted provider the bridge registers for tests and dry runs
    (packages/ai/dist/providers/faux.js, bundled in
    src/drivers/tools/pibridge/bridge.mjs): its queue of responses, the usage it
    reports, and the deltas it streams. *)
From S2P Require Import Prelude Numbers Json Messages Regex Models EventStream.
Open Scope Z_scope.

Definition DEFAULT_API : jstr := js "faux".
Definition DEFAULT_PROVIDER : jstr := js "faux".
Definition DEFAULT_MODEL_ID : jstr := js "faux-1".
Definition DEFAULT_MIN_TOKEN_SIZE : Z := 3.
Definition DEFAULT_MAX_TOKEN_SIZE : Z := 5.

(** [fauxToolCall(name, arguments_, { id })]; [random] is [randomId("tool")]. *)
Definition fauxToolCall (name : jstr) (arguments_ : json) (id : option jstr) (random : jstr) : block :=
  BToolCall (ToolCall (nullish id random) name arguments_ None None).

(** [fauxAssistantMessage(content, { stopReason })] on normalized content. *)
Definition fauxAssistantMessage (content : list block) (stopReason : option stop_reason) (now : Z) : assistant :=
  Assistant DEFAULT_PROVIDER DEFAULT_API DEFAULT_MODEL_ID content (nullish stopReason Stop) None zero_usage now.

(** [Math.ceil(text.length / 4)] *)
Definition estimateTokens (text : jstr) : Z := (Z.of_nat (length text) + 3) / 4.

Definition part_text (p : part) : jstr :=
  match p with
  | PText t => t
  | PImage data mime => js "[image:" ++ mime ++ js ":" ++ num_str (Z.of_nat (length data)) ++ js "]"
  end.

Definition contentToText (c : user_content) : jstr :=
  match c with
  | UString s => s
  | UParts ps => join [LF] (map part_text ps)
  end.

Section Faux.
Context (num_to_string : Q -> jstr).

Definition assistantContentToText (content : list block) : jstr :=
  join [LF] (map (fun b =>
    match b with
    | BText t _ => t
    | BThinking t _ _ => t
    | BToolCall tc => tc_name tc ++ js ":" ++ JSON_stringify num_to_string (tc_arguments tc)
    end) content).

Definition toolResultToText (r : tool_result) : jstr :=
  join [LF] (tr_toolName r :: map (fun p => contentToText (UParts [p])) (tr_content r)).

(** [`${message.role}:${messageToText(message)}`]; a message of another role
    has no content, and reading it throws. *)
Definition message_line (m : message) : result jstr jstr :=
  match m with
  | MUser c _ => Ok (js "user:" ++ contentToText c)
  | MAssistant a => Ok (js "assistant:" ++ assistantContentToText (a_content a))
  | MToolResult r => Ok (js "toolResult:" ++ toolResultToText r)
  | MOther _ _ => Throw (js "Cannot read properties of undefined (reading 'map')")
  end.

Definition serializeContext (c : context) : result jstr jstr :=
  let system := match systemPrompt c with
                | Some s => if truthy s then [js "system:" ++ s] else []
                | None => []
                end in
  let! lines := map_throw message_line (ctx_messages c) in
  let tools := match ctx_tools c with
               | Some (t :: ts) =>
                   [js "tools:" ++ JSON_stringify num_to_string (JArr (map tool_json (t :: ts)))]
               | _ => []
               end in
  Ok (join [LF; LF] (system ++ lines ++ tools)).

Fixpoint commonPrefixLength (a b : jstr) : nat :=
  match a, b with
  | x :: a', y :: b' => if x =? y then S (commonPrefixLength a' b') else O
  | _, _ => O
  end.

(** The options of a request the provider reads. *)
Record stream_options := StreamOptions {
  sessionId : option jstr;
  cacheRetention : option jstr
}.

Definition with_usage (u : usage) (a : assistant) : assistant :=
  Assistant (a_provider a) (a_api a) (a_model a) (a_content a) (a_stopReason a) (a_errorMessage a) u
    (a_timestamp a).

(** [withUsageEstimate(message, context, options, promptCache)] and the cache
    it leaves. *)
Definition withUsageEstimate (message : assistant) (c : context) (o : stream_options)
    (promptCache : gmap jstr jstr) : result jstr (assistant * gmap jstr jstr) :=
  let! promptText := serializeContext c in
  let promptTokens := estimateTokens promptText in
  let outputTokens := estimateTokens (assistantContentToText (a_content message)) in
  let report input2 cacheRead cacheWrite :=
    with_usage (Usage input2 outputTokens cacheRead cacheWrite
                  (input2 + outputTokens + cacheRead + cacheWrite) None zero_cost) message in
  match sessionId o with
  | Some sid =>
      if truthy sid && negb (bool_decide (cacheRetention o = Some (js "none"))) then
        let cache' := <[sid := promptText]> promptCache in
        match promptCache !! sid with
        | Some (x :: previous) =>
            let cachedChars := commonPrefixLength (x :: previous) promptText in
            let cacheRead := estimateTokens (take cachedChars (x :: previous)) in
            let cacheWrite := estimateTokens (drop cachedChars promptText) in
            Ok (report (Z.max 0 (promptTokens - cacheRead)) cacheRead cacheWrite, cache')
        | _ => Ok (report promptTokens 0 promptTokens, cache')
        end
      else Ok (report promptTokens 0 0, promptCache)
  | None => Ok (report promptTokens 0 0, promptCache)
  end.

(** ** Deltas *)

(** [splitStringByTokenSize]; [random k] is the value of
    [Math.floor(Math.random() * (max - min + 1))] at its turn [k]. *)
Fixpoint split_chunks (fuel : nat) (random : nat -> Z) (k : nat) (minTokenSize : Z) (text : jstr) : list jstr :=
  match fuel, text with
  | _, [] => []
  | O, _ => []
  | S fuel, _ =>
      let tokenSize := minTokenSize + random k in
      let charSize := Z.to_nat (Z.max 1 (tokenSize * 4)) in
      take charSize text :: split_chunks fuel random (S k) minTokenSize (drop charSize text)
  end.

Definition splitStringByTokenSize (random : nat -> Z) (minTokenSize : Z) (text : jstr) : list jstr :=
  match split_chunks (length text) random 0 minTokenSize text with
  | [] => [[]]
  | chunks => chunks
  end.

(** What [streamWithDeltas] does: looks at [signal.aborted], or pushes an event
    after updating [partial.content]. *)
Inductive action :=
| Check
| Emit (e : event) (update : list block -> list block).

Definition update_last (f : block -> block) (content : list block) : list block :=
  match rev content with
  | [] => []
  | b :: r => rev r ++ [f b]
  end.

Definition append_block (b : block) (content : list block) : list block := content ++ [b].

Definition add_text (chunk : jstr) (b : block) : block :=
  match b with
  | BText t s => BText (t ++ chunk) s
  | BThinking t s r => BThinking (t ++ chunk) s r
  | b => b
  end.

Definition set_arguments (v : json) (b : block) : block :=
  match b with
  | BToolCall tc => BToolCall (ToolCall (tc_id tc) (tc_name tc) v (tc_thoughtSignature tc) (tc_namespace tc))
  | b => b
  end.

(** The body of the loop over the content, for block [i]. *)
Definition block_actions (random : Z -> nat -> Z) (minTokenSize : Z) (i : Z) (b : block) : list action :=
  let chunks text := splitStringByTokenSize (random i) minTokenSize text in
  Check ::
  match b with
  | BThinking t _ _ =>
      Emit (EvThinkingStart i) (append_block (BThinking [] None false)) ::
      flat_map (fun chunk => [Check; Emit (EvThinkingDelta i chunk) (update_last (add_text chunk))]) (chunks t) ++
      [Emit (EvThinkingEnd i t) id]
  | BText t _ =>
      Emit (EvTextStart i) (append_block (BText [] None)) ::
      flat_map (fun chunk => [Check; Emit (EvTextDelta i chunk) (update_last (add_text chunk))]) (chunks t) ++
      [Emit (EvTextEnd i t) id]
  | BToolCall tc =>
      Emit (EvToolStart i) (append_block (BToolCall (ToolCall (tc_id tc) (tc_name tc) (JObj []) None None))) ::
      flat_map (fun chunk => [Check; Emit (EvToolDelta i chunk) id])
        (chunks (JSON_stringify num_to_string (tc_arguments tc))) ++
      [Emit (EvToolEnd i tc) (update_last (set_arguments (tc_arguments tc)))]
  end.

Fixpoint content_actions (random : Z -> nat -> Z) (minTokenSize : Z) (i : Z) (content : list block)
  : list action :=
  match content with
  | [] => []
  | b :: r => block_actions random minTokenSize i b ++ content_actions random minTokenSize (i + 1) r
  end.

Definition createAbortedMessage (now : Z) (partial : assistant) : assistant :=
  Assistant (a_provider partial) (a_api partial) (a_model partial) (a_content partial) Aborted
    (Some (js "Request was aborted")) (a_usage partial) now.

Definition with_content (content : list block) (a : assistant) : assistant :=
  Assistant (a_provider a) (a_api a) (a_model a) content (a_stopReason a) (a_errorMessage a) (a_usage a)
    (a_timestamp a).

(** Runs the actions; [abort_at] is the number of the first check that sees the
    signal aborted.  The events pushed, and the partial content. *)
Fixpoint run_actions (abort_at : option nat) (k : nat) (acts : list action) (partial : list block)
  : list event * list block * bool :=
  match acts with
  | [] => ([], partial, false)
  | Check :: r =>
      if bool_decide (abort_at = Some k) then ([], partial, true)
      else run_actions abort_at (S k) r partial
  | Emit e f :: r =>
      let '(es, p, ab) := run_actions abort_at k r (f partial) in (e :: es, p, ab)
  end.

(** [streamWithDeltas]: the events it pushes before [end], and the message it
    ends the stream with. *)
Definition streamWithDeltas (random : Z -> nat -> Z) (minTokenSize now : Z) (message : assistant)
    (abort_at : option nat) : list event * assistant :=
  let acts := Check :: Emit EvStart id :: content_actions random minTokenSize 0 (a_content message) in
  let '(events, partial, stopped) := run_actions abort_at 0 acts [] in
  if stopped then
    let aborted := createAbortedMessage now (with_content partial message) in
    (events ++ [EvError Aborted aborted], aborted)
  else match a_stopReason message with
       | Error | Aborted => (events ++ [EvError (a_stopReason message) message], message)
       | r => (events ++ [EvDone r message], message)
       end.

(** ** The provider *)

Record faux := FauxCore {
  pendingResponses : list assistant;
  callCount : Z;
  promptCache : gmap jstr jstr
}.

Definition appendResponses (responses : list assistant) (f : faux) : faux :=
  FauxCore (pendingResponses f ++ responses) (callCount f) (promptCache f).

Definition setResponses (responses : list assistant) (f : faux) : faux :=
  FauxCore responses (callCount f) (promptCache f).

Definition createErrorMessage (now : Z) (error api provider modelId : jstr) : assistant :=
  Assistant provider api modelId [] Error (Some error) zero_usage now.

Definition cloneMessage (a : assistant) (api provider modelId : jstr) : assistant :=
  Assistant provider api modelId (a_content a) (a_stopReason a) (a_errorMessage a) (a_usage a) (a_timestamp a).

(** [stream(requestModel, context, streamOptions)] for a request that is not
    deferred: the events and the result its stream is given. *)
Definition faux_stream (api provider : jstr) (random : Z -> nat -> Z) (now : Z) (requestModel : model) (c : context)
    (o : stream_options) (abort_at : option nat) (f : faux) : list event * assistant * faux :=
  let failed error cache f :=
    let message := createErrorMessage now error api provider (m_id requestModel) in
    ([EvError Error message], message, FauxCore (pendingResponses f) (callCount f) cache) in
  let f' := FauxCore (List.tl (pendingResponses f)) (callCount f + 1) (promptCache f) in
  match pendingResponses f with
  | [] =>
      let message := createErrorMessage now (js "No more faux responses queued") api provider (m_id requestModel) in
      match withUsageEstimate message c o (promptCache f) with
      | Ok (message, cache) =>
          ([EvError Error message], message, FauxCore (pendingResponses f') (callCount f') cache)
      | Throw e => failed e (promptCache f) f'
      end
  | step :: _ =>
      match withUsageEstimate (cloneMessage step api provider (m_id requestModel)) c o (promptCache f) with
      | Ok (message, cache) =>
          let '(events, r) := streamWithDeltas random DEFAULT_MIN_TOKEN_SIZE now message abort_at in
          (events, r, FauxCore (pendingResponses f') (callCount f') cache)
      | Throw e => failed e (promptCache f) f'
      end
  end.

(** * Facts *)

Lemma split_chunks_concat fuel random k n text :
  (length text <= fuel)%nat -> concat (split_chunks fuel random k n text) = text.
Proof.
  revert k text; induction fuel as [|fuel IH]; intros k text Hl; destruct text as [|x text]; simpl in *;
    try done; [lia|].
  set (sz := Z.to_nat (Z.max 1 ((n + random k) * 4))).
  rewrite IH; [apply take_drop|]. rewrite length_drop. simpl. assert (1 <= sz)%nat by (unfold sz; lia). lia.
Qed.

Lemma splitStringByTokenSize_concat random n text :
  concat (splitStringByTokenSize random n text) = text.
Proof.
  unfold splitStringByTokenSize.
  pose proof (split_chunks_concat (length text) random 0 n text (le_n _)) as H.
  by destruct (split_chunks _ _ _ _ _).
Qed.

Definition emitted (acts : list action) : list event :=
  omap (fun a => match a with Emit e _ => Some e | Check => None end) acts.

Lemma run_actions_prefix ab k acts p :
  let '(es, _, stopped) := run_actions ab k acts p in
  es `prefix_of` emitted acts /\ (stopped = false -> es = emitted acts) /\ (ab = None -> stopped = false).
Proof.
  revert k p; induction acts as [|[|e f] acts IH]; intros k p; simpl.
  - repeat split; done.
  - destruct (bool_decide (ab = Some k)) eqn:Hb; bool_to_prop.
    + repeat split; [apply prefix_nil|done|congruence].
    + apply IH.
  - specialize (IH k (f p)). destruct (run_actions ab k acts (f p)) as [[es p'] st].
    destruct IH as (Hp & He & Hn). split; [by apply prefix_cons|]. split; [|done].
    intros Hs. by rewrite He.
Qed.

Lemma omap_flat_map {A B C} (f : A -> list B) (g : B -> option C) l :
  omap g (flat_map f l) = flat_map (fun x => omap g (f x)) l.
Proof. induction l as [|x l IH]; cbn [flat_map]; [done|]. by rewrite omap_app, IH. Qed.

(** The deltas at content index [i]. *)
Definition delta_at (i : Z) (e : event) : jstr :=
  match e with
  | EvThinkingDelta j d | EvTextDelta j d | EvToolDelta j d => if j =? i then d else []
  | _ => []
  end.

Definition deltas (i : Z) (es : list event) : jstr := flat_map (delta_at i) es.

(** The text a block is streamed as. *)
Definition streamed_text (b : block) : jstr :=
  match b with
  | BText t _ | BThinking t _ _ => t
  | BToolCall tc => JSON_stringify num_to_string (tc_arguments tc)
  end.

Lemma deltas_chunks i j (mk : jstr -> event) chunks :
  (forall d, delta_at j (mk d) = if i =? j then d else []) ->
  deltas j (flat_map (fun c => [mk c]) chunks) = if i =? j then concat chunks else [].
Proof.
  intros Hmk. unfold deltas. induction chunks as [|c l IH]; cbn [flat_map app concat]; [by destruct (i =? j)|].
  rewrite Hmk, IH. by destruct (i =? j).
Qed.

Lemma block_events random n i b :
  exists mk start stop,
    emitted (block_actions random n i b) =
    start :: flat_map (fun c => [mk c]) (splitStringByTokenSize (random i) n (streamed_text b)) ++ [stop] /\
    (forall j d, delta_at j (mk d) = if i =? j then d else []) /\
    (forall d, isComplete (mk d) = false) /\
    (forall j, delta_at j start = [] /\ delta_at j stop = []) /\
    isComplete start = false /\ isComplete stop = false.
Proof.
  destruct b as [t s|t s r|tc];
    [exists (EvTextDelta i), (EvTextStart i), (EvTextEnd i t)
    |exists (EvThinkingDelta i), (EvThinkingStart i), (EvThinkingEnd i t)
    |exists (EvToolDelta i), (EvToolStart i), (EvToolEnd i tc)];
    (split; [|repeat split]); unfold emitted, block_actions; cbn [omap list_omap];
    rewrite omap_app, omap_flat_map; reflexivity.
Qed.

Lemma deltas_app i a b : deltas i (a ++ b) = deltas i a ++ deltas i b.
Proof. apply flat_map_app. Qed.

Lemma block_deltas random n i j b :
  deltas j (emitted (block_actions random n i b)) = if i =? j then streamed_text b else [].
Proof.
  destruct (block_events random n i b) as (mk & start & stop & -> & Hmk & _ & Hs & _).
  destruct (Hs j) as [H1 H2]. unfold deltas in *. cbn [flat_map]. rewrite H1. simpl.
  rewrite flat_map_app. cbn [flat_map]. rewrite H2, !app_nil_r.
  etrans; [apply (deltas_chunks i j mk); apply Hmk|]. by rewrite splitStringByTokenSize_concat.
Qed.

Lemma content_deltas random n i j content :
  deltas j (emitted (content_actions random n i content)) =
  if j <? i then [] else
  match content !! Z.to_nat (j - i) with Some b => streamed_text b | None => [] end.
Proof.
  revert i; induction content as [|b l IH]; intros i; cbn [content_actions].
  - by destruct (j <? i).
  - unfold emitted. rewrite omap_app, deltas_app.
    fold (emitted (block_actions random n i b)) (emitted (content_actions random n (i + 1) l)).
    rewrite block_deltas, IH.
    destruct (Z.eqb_spec i j) as [->|Hne].
    + rewrite (proj2 (Z.ltb_lt j (j + 1))), Z.ltb_irrefl, Z.sub_diag by lia. simpl. by rewrite app_nil_r.
    + simpl app. destruct (Z.ltb_spec j i), (Z.ltb_spec j (i + 1)); try lia; [done|].
      replace (Z.to_nat (j - i)) with (S (Z.to_nat (j - (i + 1)))) by lia. done.
Qed.

Lemma content_incomplete random n i content :
  Forall (fun e => isComplete e = false) (emitted (content_actions random n i content)).
Proof.
  revert i; induction content as [|b l IH]; intros i; cbn [content_actions]; [constructor|].
  unfold emitted. rewrite omap_app. apply Forall_app. split; [|apply IH].
  destruct (block_events random n i b) as (mk & start & stop & H & _ & Hmk & _ & Hs & Hst).
  unfold emitted in H. rewrite H. constructor; [done|]. apply Forall_app. split; [|by constructor].
  clear H. induction (splitStringByTokenSize _ _ _); cbn [flat_map app]; by constructor.
Qed.

(** An event that does not end a stream. *)
Definition incomplete (e : event) : Prop := isComplete e = false.

(** Exactly one complete event, the last, carrying the result. *)
Definition well_ended (es : list event) (r : assistant) : Prop :=
  exists init e, es = init ++ [e] /\ Forall incomplete init /\
    isComplete e = true /\ extractResult e = Ok r.

Lemma streamWithDeltas_ends random n now message ab :
  let '(es, r) := streamWithDeltas random n now message ab in
  well_ended es r /\
  (ab = None -> r = message /\ forall i, 0 <= i ->
     deltas i es = match a_content message !! Z.to_nat i with Some b => streamed_text b | None => [] end).
Proof.
  unfold streamWithDeltas. set (acts := Check :: _).
  pose proof (run_actions_prefix ab 0 acts []) as H.
  destruct (run_actions ab 0 acts []) as [[es p] st]. destruct H as (Hp & He & Hn).
  assert (emitted acts = EvStart :: emitted (content_actions random n 0 (a_content message))) as Hem by done.
  assert (Forall (fun e => isComplete e = false) es) as HF.
  { destruct Hp as [k Hk]. assert (Forall (fun e => isComplete e = false) (emitted acts)) as HA.
    { rewrite Hem. constructor; [done|apply content_incomplete]. }
    rewrite Hk in HA. by apply Forall_app in HA as [? _]. }
  destruct st.
  - split; [|intros Ha; specialize (Hn Ha); done].
    eexists es, _. by repeat split.
  - assert (forall e, (forall i, delta_at i e = []) -> forall i, 0 <= i -> deltas i (es ++ [e]) =
      match a_content message !! Z.to_nat i with Some b => streamed_text b | None => [] end) as Hd.
    { intros e Hde i Hi. rewrite deltas_app, He, Hem by done. unfold deltas at 2. cbn [flat_map].
      rewrite Hde, !app_nil_r. change (deltas i (EvStart :: ?l)) with (deltas i l).
      rewrite content_deltas. rewrite (proj2 (Z.ltb_ge i 0)) by lia. by rewrite Z.sub_0_r. }
    destruct (a_stopReason message) eqn:Hs; (split; [eexists es, _; by repeat split|]);
      intros _; (split; [done|]); by apply Hd.
Qed.

Lemma well_ended_stream es r :
  well_ended es r ->
  accepted_events (pushes es ++ [End (Some r)]) = es /\
  outcome_message (pushes es ++ [End (Some r)]) = Some r.
Proof.
  intros (init & e & -> & HF & Hc & Hx). unfold pushes. rewrite map_app, <- app_assoc. simpl.
  induction HF as [|x l Hx' HF IH]; simpl; [by rewrite Hc, Hx|].
  rewrite Hx'. destruct IH as [-> ->]. done.
Qed.

(** whatever the scripted provider is asked, its stream gets exactly one
    terminal event, the last one, whose message is also the stream's result;
    responses are consumed in order, one per call; and for a response that is
    not aborted, the deltas streamed for each block, however the random sizes
    cut them, concatenate to the text of the block. *)
Theorem faux_stream_correct (api provider : jstr) (random : Z -> nat -> Z) (now : Z) (m : model)
    (c : context) (o : stream_options) (ab : option nat) (f : faux) :
  let '(es, r, f') := faux_stream api provider random now m c o ab f in
  accepted_events (pushes es ++ [End (Some r)]) = es /\
  outcome_message (pushes es ++ [End (Some r)]) = Some r /\
  pendingResponses f' = List.tl (pendingResponses f) /\ callCount f' = callCount f + 1 /\
  (forall step rest, pendingResponses f = step :: rest -> ab = None -> a_stopReason r ≠ Error ->
     a_content r = a_content step /\
     forall i, 0 <= i ->
       deltas i es = match a_content step !! Z.to_nat i with Some b => streamed_text b | None => [] end).
Proof.
  assert (forall now' error, well_ended
    [EvError Error (createErrorMessage now' error api provider (m_id m))]
    (createErrorMessage now' error api provider (m_id m))) as Hfail.
  { intros. by eexists [], _. }
  unfold faux_stream. destruct (pendingResponses f) as [|step rest] eqn:Hq.
  - destruct (withUsageEstimate _ c o (promptCache f)) as [[message cache]|e] eqn:Hu.
    + assert (well_ended [EvError Error message] message) as Hw by (by eexists [], _).
      destruct (well_ended_stream _ _ Hw) as [-> ->]. repeat split; try done.
    + destruct (well_ended_stream _ _ (Hfail now e)) as [-> ->]. repeat split; try done.
  - destruct (withUsageEstimate _ c o (promptCache f)) as [[message cache]|e] eqn:Hu.
    + assert (a_content message = a_content step) as Hc.
      { unfold withUsageEstimate in Hu. destruct (serializeContext c); [|done]. simpl in Hu.
        repeat case_hyp Hu; injection Hu as <- <-; done. }
      pose proof (streamWithDeltas_ends random DEFAULT_MIN_TOKEN_SIZE now message ab) as H.
      destruct (streamWithDeltas _ _ _ _ _) as [es r]. destruct H as [Hw Hd].
      destruct (well_ended_stream _ _ Hw) as [-> ->]. do 4 (split; [done|]).
      intros step' rest' [= <- <-] Ha _. destruct (Hd Ha) as [-> Hd']. rewrite <- Hc. by split.
    + destruct (well_ended_stream _ _ (Hfail now e)) as [-> ->]. do 4 (split; [done|]).
      intros ? ? ? ? Hne. by destruct Hne.
Qed.
End Faux.
