(* ===== verification/Estimate.v ===== *)
(** Context estimates and token budgets: packages/ai/dist/utils/estimate.js and
    packages/ai/dist/api/simple-options.js, as bundled in
    src/drivers/tools/pibridge/bridge.mjs. *)
From S2P Require Import Prelude Numbers Json Messages.
Open Scope Z_scope.

Definition CHARS_PER_TOKEN : Z := 4.
Definition ESTIMATED_IMAGE_CHARS : Z := 4800.
Definition CONTEXT_SAFETY_TOKENS : Z := 4096.
Definition MIN_MAX_TOKENS : Z := 1.
Definition MIN_ANSWER_TOKENS : Z := 1024.

(** [usage.totalTokens || usage.input + ...] *)
Definition calculateContextTokens (u : usage) : Z :=
  if u_totalTokens u =? 0 then u_input u + u_output u + u_cacheRead u + u_cacheWrite u
  else u_totalTokens u.

(** [Math.ceil(chars / CHARS_PER_TOKEN)] *)
Definition ceil_tokens (chars : Z) : Z := (chars + (CHARS_PER_TOKEN - 1)) / CHARS_PER_TOKEN.

Definition estimateTextTokens (text : jstr) : Z := ceil_tokens (Z.of_nat (length text)).

Definition part_chars (p : part) : Z :=
  match p with PText t => Z.of_nat (length t) | PImage _ _ => ESTIMATED_IMAGE_CHARS end.

Definition sum_of {A} (f : A -> Z) (l : list A) : Z := foldl (fun acc x => acc + f x) 0 l.

Definition estimateTextAndImageContentChars (c : user_content) : Z :=
  match c with
  | UString s => Z.of_nat (length s)
  | UParts ps => sum_of part_chars ps
  end.

Definition estimateTextAndImageContentTokens (c : user_content) : Z :=
  ceil_tokens (estimateTextAndImageContentChars c).

Section Estimate.
Context (num_to_string : Q -> jstr).

(** [safeJsonStringify(value)] of a JSON value, which always has a text. *)
Definition safeJsonStringify (v : json) : jstr := JSON_stringify num_to_string v.

Definition block_chars (b : block) : Z :=
  match b with
  | BText t _ => Z.of_nat (length t)
  | BThinking t _ _ => Z.of_nat (length t)
  | BToolCall tc => Z.of_nat (length (tc_name tc)) + Z.of_nat (length (safeJsonStringify (tc_arguments tc)))
  end.

(** The messages of a context have one of the three roles of [message]. *)
Definition estimateMessageTokens (m : message) : Z :=
  match m with
  | MUser c _ => estimateTextAndImageContentTokens c
  | MToolResult r => estimateTextAndImageContentTokens (UParts (tr_content r))
  | MAssistant a => ceil_tokens (sum_of block_chars (a_content a))
  | MOther _ _ => 0
  end.

Definition usage_counts (a : assistant) : bool :=
  negb (bool_decide (a_stopReason a = Aborted)) && negb (bool_decide (a_stopReason a = Error)) &&
  (0 <? calculateContextTokens (a_usage a)).

(** The loop of [getLastAssistantUsageInfo]; [latest = None] is
    [Number.NEGATIVE_INFINITY]. *)
Fixpoint last_usage_loop (i : nat) (latest : option Z) (found : option (usage * nat)) (ms : list message)
  : option (usage * nat) :=
  match ms with
  | [] => found
  | m :: r =>
      let found' :=
        match m with
        | MAssistant a =>
            if match latest with None => true | Some t => t <=? a_timestamp a end && usage_counts a
            then Some (a_usage a, i) else found
        | _ => found
        end in
      let latest' := Some (match latest with None => timestamp_of m | Some t => Z.max t (timestamp_of m) end) in
      last_usage_loop (S i) latest' found' r
  end.

Definition getLastAssistantUsageInfo (ms : list message) : option (usage * nat) :=
  last_usage_loop 0 None None ms.

Record estimate := Estimate_ {
  e_tokens : Z; e_usageTokens : Z; e_trailingTokens : Z; e_lastUsageIndex : option nat
}.

Definition estimateMessages (ms : list message) : estimate :=
  match getLastAssistantUsageInfo ms with
  | Some (u, index) =>
      let usageTokens := calculateContextTokens u in
      let trailingTokens := sum_of estimateMessageTokens (drop (S index) ms) in
      Estimate_ (usageTokens + trailingTokens) usageTokens trailingTokens (Some index)
  | None =>
      let tokens := sum_of estimateMessageTokens ms in
      Estimate_ tokens 0 tokens None
  end.

Definition estimateToolsTokens (tools : option (list tool)) : Z :=
  match tools with
  | None | Some [] => 0
  | Some ts => estimateTextTokens (safeJsonStringify (JArr (map tool_json ts)))
  end.

Definition added_names (ms : list message) : list jstr :=
  flat_map (fun m => match m with
                     | MToolResult r => nullish (tr_addedToolNames r) []
                     | _ => []
                     end) ms.

(** [estimateContextTokens(context)] of a context. *)
Definition estimateContextTokens (c : context) : estimate :=
  let est := estimateMessages (ctx_messages c) in
  match e_lastUsageIndex est with
  | Some i =>
      let addedNames := added_names (drop (S i) (ctx_messages c)) in
      let added := estimateToolsTokens
        (option_map (List.filter (fun t => bool_decide (tool_name t ∈ addedNames))) (ctx_tools c)) in
      Estimate_ (e_tokens est + added) (e_usageTokens est) (e_trailingTokens est + added) (Some i)
  | None =>
      let prefixTokens :=
        match systemPrompt c with
        | Some s => if truthy s then estimateTextTokens s else 0
        | None => 0
        end + estimateToolsTokens (ctx_tools c) in
      Estimate_ (e_tokens est + prefixTokens) (e_usageTokens est) (e_trailingTokens est + prefixTokens) None
  end.

Definition clampMaxTokensToContext (m : model) (c : context) (maxTokens : Z) : Z :=
  if m_contextWindow m <=? 0 then Z.max MIN_MAX_TOKENS maxTokens
  else
    let available := m_contextWindow m - e_tokens (estimateContextTokens c) - CONTEXT_SAFETY_TOKENS in
    Z.min maxTokens (Z.max MIN_MAX_TOKENS available).

(** ** Thinking budgets *)

Inductive effort := Minimal | Low | Medium | High | XHigh | Max.

Definition clampReasoning (e : effort) : effort :=
  match e with XHigh | Max => High | e => e end.

Definition DEFAULT_THINKING_BUDGETS (e : effort) : Z :=
  match e with Minimal => 1024 | Low => 2048 | Medium => 8192 | High => 16384 | XHigh | Max => 0 end.

(** [thinkingBudgetForLevel(level, customBudgets)]; a custom budget overrides
    the default of its level. *)
Definition thinkingBudgetForLevel (level : effort) (customBudgets : effort -> option Z) : Z :=
  let level := clampReasoning level in
  nullish (customBudgets level) (DEFAULT_THINKING_BUDGETS level).

Definition clampThinkingBudgetToAnswerRoom (thinkingBudget ceiling : Z) : Z :=
  Z.min thinkingBudget (Z.max 0 (ceiling - MIN_ANSWER_TOKENS)).

Definition adjustMaxTokensForThinking (baseMaxTokens : option Z) (modelMaxTokens : Z) (level : effort)
    (customBudgets : effort -> option Z) : Z * Z :=
  let thinkingBudget := thinkingBudgetForLevel level customBudgets in
  let maxTokens := match baseMaxTokens with
                   | None => modelMaxTokens
                   | Some base => Z.min (base + thinkingBudget) modelMaxTokens
                   end in
  (maxTokens,
   if maxTokens <=? thinkingBudget then clampThinkingBudgetToAnswerRoom thinkingBudget maxTokens
   else thinkingBudget).

(** * Facts *)

(** A usage report found by the loop belongs to a message it passed, and every
    later message that counts was older than something before it. *)
Lemma last_usage_loop_spec ms i latest found u k :
  last_usage_loop i latest found ms = Some (u, k) ->
  found = Some (u, k) \/
  exists a, (i <= k)%nat /\ ms !! (k - i)%nat = Some (MAssistant a) /\ a_usage a = u /\ usage_counts a = true.
Proof.
  revert i latest found; induction ms as [|m ms IH]; intros i latest found H; cbn [last_usage_loop] in H.
  - by left.
  - apply IH in H as [H|(a & Hik & Hm & Hu & Hc)].
    + destruct m as [c t|a|r|ro t]; try by left.
      destruct (_ && usage_counts a) eqn:Hb; [|by left]. injection H as <- <-.
      apply andb_true_iff in Hb as [_ Hb]. right. exists a. rewrite Nat.sub_diag. repeat split; [lia|done].
    + right. exists a. replace (k - i)%nat with (S (k - S i))%nat by lia. repeat split; [lia|done|done|done].
Qed.

(** the output limit sent to a provider never exceeds what was asked and is
    at least one token when at least one was asked; with a known context window
    that has room, prompt estimate, safety margin and output limit together fit
    the window. *)
Theorem clampMaxTokens_fits (m : model) (c : context) (maxTokens : Z) :
  1 <= maxTokens ->
  let r := clampMaxTokensToContext m c maxTokens in
  let prompt := e_tokens (estimateContextTokens c) in
  1 <= r <= maxTokens /\
  (0 < m_contextWindow m -> prompt + CONTEXT_SAFETY_TOKENS < m_contextWindow m ->
   prompt + CONTEXT_SAFETY_TOKENS + r <= m_contextWindow m) /\
  (0 < m_contextWindow m -> m_contextWindow m <= prompt + CONTEXT_SAFETY_TOKENS -> r = 1).
Proof.
  intros Hm. unfold clampMaxTokensToContext, CONTEXT_SAFETY_TOKENS, MIN_MAX_TOKENS. cbv zeta.
  destruct (Z.leb_spec (m_contextWindow m) 0); repeat split; lia.
Qed.

(** The estimate rests on the last trustworthy usage report: its tokens are
    that report's plus an estimate of what follows it. *)
Lemma estimateMessages_usage ms :
  let e := estimateMessages ms in
  e_tokens e = e_usageTokens e + e_trailingTokens e /\
  match e_lastUsageIndex e with
  | Some i => exists a, ms !! i = Some (MAssistant a) /\ usage_counts a = true /\
                e_usageTokens e = calculateContextTokens (a_usage a)
  | None => e_usageTokens e = 0
  end.
Proof.
  unfold estimateMessages. destruct (getLastAssistantUsageInfo ms) as [[u k]|] eqn:H; [|done].
  apply last_usage_loop_spec in H as [|(a & _ & Hm & <- & Hc)]; [done|].
  rewrite Nat.sub_0_r in Hm. split; [done|]. by exists a.
Qed.

(** A thinking budget leaves the answer at least one token, and as many as
    [MIN_ANSWER_TOKENS] whenever it had to be reduced. *)
Lemma thinking_leaves_room base modelMax level custom :
  let '(maxTokens, budget) := adjustMaxTokensForThinking base modelMax level custom in
  maxTokens <= modelMax /\ budget <= thinkingBudgetForLevel level custom /\
  (0 < maxTokens -> budget < maxTokens) /\
  (budget < thinkingBudgetForLevel level custom -> MIN_ANSWER_TOKENS <= maxTokens ->
   budget + MIN_ANSWER_TOKENS <= maxTokens).
Proof.
  unfold adjustMaxTokensForThinking, clampThinkingBudgetToAnswerRoom, MIN_ANSWER_TOKENS.
  set (b := thinkingBudgetForLevel level custom).
  set (mx := match base with None => modelMax | Some x => Z.min (x + b) modelMax end).
  assert (mx <= modelMax) by (unfold mx; destruct base; lia).
  destruct (Z.leb_spec mx b); lia.
Qed.
End Estimate.

Lemma clampMaxTokens_fits_witness :
  let m := Model (js "m") (js "M") (js "api") (js "p") [] false [] 8192 4096 (CostRates 0 0 0 0) None None None in
  let c := Context_ (Some (js "You are helpful.")) [MUser (UString (js "Hello there")) 1] None in
  let r := clampMaxTokensToContext int_num_str m c 4096 in
  r = 4089 /\ 1 <= r <= 4096.
Proof.
  intros m c r. split; [reflexivity|].
  apply (clampMaxTokens_fits int_num_str m c 4096). lia.
Defined.
