(* ===== verification/AnthropicMessages.v ===== *)
(** Requests to the Anthropic API: the conversion of a conversation and of its
    tools to the wire format, cache markers, beta features and the parameters of
    a request (packages/ai, api/anthropic-messages.js and utils/deferred-tools.js,
    bundled in src/drivers/tools/pibridge/bridge.mjs).  [toLowerCase] is a
    parameter, as are the fields of messages that [Messages] does not keep. *)
From S2P Require Import Prelude Utf8 Numbers Json Messages TransformMessages ConstrainedSampling Models Estimate.
Open Scope Z_scope.

(** ** Text *)

(** Every match of [/[\uD800-\uDBFF](?![\uDC00-\uDFFF])|(?<![\uD800-\uDBFF])[\uDC00-\uDFFF]/g]
    is removed; [afterHigh] is the lookbehind. *)
Fixpoint sanitize_from (afterHigh : bool) (text : jstr) : jstr :=
  match text with
  | [] => []
  | c :: r =>
      let kept :=
        if is_high c then match r with d :: _ => is_low d | [] => false end
        else if is_low c then afterHigh else true in
      (if kept then [c] else []) ++ sanitize_from (is_high c) r
  end.

Definition sanitizeSurrogates (text : jstr) : jstr := sanitize_from false text.

Definition blank (s : jstr) : bool := bool_decide (trim s = []).

(** ** Models *)

Record fallback_model := FallbackModel {
  fb_provider : jstr; fb_model : jstr; fb_cost : option (cost_rates * option (list cost_tier))
}.

(** [model.compat], as far as this API reads it. *)
Record compat := Compat {
  supportsEagerToolInputStreaming : option bool;
  supportsLongCacheRetention : option bool;
  sendSessionAffinityHeaders : option bool;
  supportsCacheControlOnTools : option bool;
  supportsTemperature : option bool;
  allowEmptySignature : option bool;
  supportsStrictTools : option bool;
  supportsToolReferences : option bool;
  forceAdaptiveThinking : bool;
  supportsMidConvoEffort : bool;
  allowedFallbackModels : option (list fallback_model)
}.

(** The result of [getAnthropicCompat]. *)
Record anthropic_compat := AnthropicCompat {
  ac_eager : bool; ac_longCache : bool; ac_affinity : bool; ac_cacheTools : bool; ac_temperature : bool;
  ac_emptySignature : bool; ac_strict : bool; ac_references : bool
}.

(** The rest of a match of [-(\d+)] followed by [-] or the end, if there is one. *)
Definition minor_version (s : jstr) : option jstr :=
  match s with
  | c :: r =>
      if c =? 45 then
        let '(ds, rest) := span_digits r in
        match ds, rest with
        | [], _ => None
        | _, [] => Some ds
        | _, d :: _ => if d =? 45 then Some ds else None
        end
      else None
  | [] => None
  end.

(** [model.id.match(/^claude-(?:opus|sonnet|fable)-(\d+)(?:-(\d+))?(?:-|$)/)] *)
Definition claude_version (id : jstr) : option (jstr * option jstr) :=
  match List.find (fun p => starts_with p id) [js "claude-opus-"; js "claude-sonnet-"; js "claude-fable-"] with
  | None => None
  | Some p =>
      let '(major, rest) := span_digits (drop (length p) id) in
      match major, rest with
      | [], _ => None
      | _, [] => Some (major, None)
      | _, c :: _ => if c =? 45 then Some (major, minor_version rest) else None
      end
  end.

Definition defaultSupportsToolReferences (m : model) : bool :=
  if negb (streq (m_provider m) (js "anthropic")) || includes (js "haiku") (m_id m) then false
  else
    match claude_version (m_id m) with
    | None => false
    | Some (major_digits, minor_digits) =>
        let major := digits_value major_digits in
        let minor :=
          match minor_digits with
          | Some ds => if (length ds <? 8)%nat then digits_value ds else 0
          | None => 0
          end in
        (4 <? major) || (major =? 4) && (5 <=? minor)
    end.

Definition compat_flag (c : option compat) (f : compat -> option bool) (default : bool) : bool :=
  nullish (c ≫= f) default.

Definition getAnthropicCompat (m : model) (c : option compat) : anthropic_compat :=
  AnthropicCompat
    (compat_flag c supportsEagerToolInputStreaming true)
    (compat_flag c supportsLongCacheRetention true)
    (compat_flag c sendSessionAffinityHeaders false)
    (compat_flag c supportsCacheControlOnTools true)
    (compat_flag c supportsTemperature true)
    (compat_flag c allowEmptySignature false)
    (compat_flag c supportsStrictTools false)
    (compat_flag c supportsToolReferences (defaultSupportsToolReferences m)).

Definition midConvoEffort (c : option compat) : bool :=
  match c with Some c => supportsMidConvoEffort c | None => false end.
Definition adaptiveThinking (c : option compat) : bool :=
  match c with Some c => forceAdaptiveThinking c | None => false end.
Definition fallback_models (c : option compat) : list fallback_model :=
  nullish (c ≫= allowedFallbackModels) [].

Definition shouldUseServerSideFallbackBeta (c : option compat) : bool :=
  bool_decide (fallback_models c ≠ []).

(** ** Caching *)

Inductive retention := NoCache | Short | Long.

#[export] Instance retention_eq_dec : EqDecision retention.
Proof. solve_decision. Defined.

(** [{ type: "ephemeral", ttl: "1h" }] or without [ttl]. *)
Record cache_control := CacheControl { cc_1h : bool }.

(** [env?.[name] || process.env[name] || ... || undefined]; [bun] is what the
    sandbox of Bun has. *)
Definition getProviderEnvValue (env processEnv bun : option jstr) : option jstr :=
  if truthy_opt env then env else if truthy_opt processEnv then processEnv
  else if truthy_opt bun then bun else None.

Definition resolveCacheRetention2 (cacheRetention : option retention) (envValue : option jstr) : retention :=
  match cacheRetention with
  | Some r => r
  | None => if bool_decide (envValue = Some (js "long")) then Long else Short
  end.

Definition getCacheControl (m : model) (c : option compat) (cacheRetention : option retention) (envValue : option jstr)
  : option cache_control :=
  match resolveCacheRetention2 cacheRetention envValue with
  | NoCache => None
  | Short => Some (CacheControl false)
  | Long => Some (CacheControl (ac_longCache (getAnthropicCompat m c)))
  end.

(** ** Names of tools *)

Definition claudeCodeTools : list jstr := map js
  ["Read"; "Write"; "Edit"; "Bash"; "Grep"; "Glob"; "AskUserQuestion"; "EnterPlanMode"; "ExitPlanMode";
   "KillShell"; "NotebookEdit"; "Skill"; "Task"; "TaskOutput"; "TodoWrite"; "WebFetch"; "WebSearch"].

(** A tool as a context offers it. *)
Record api_tool := ApiTool { at_tool : sampled_tool; at_description : jstr }.
Definition at_name (t : api_tool) : jstr := st_name (at_tool t).

Section Names.
Context (toLowerCase : jstr -> jstr).

(** A later entry of [ccToolLookup] replaces an earlier one. *)
Definition toClaudeCodeName (name : jstr) : jstr :=
  nullish (List.find (fun t => streq (toLowerCase t) (toLowerCase name)) (rev claudeCodeTools)) name.

Definition fromClaudeCodeName (name : jstr) (tools : option (list api_tool)) : jstr :=
  match List.find (fun t => streq (toLowerCase (at_name t)) (toLowerCase name)) (nullish tools []) with
  | Some t => at_name t
  | None => name
  end.
End Names.

(** ** The wire format *)

(** What a tool result holds besides plain text. *)
Inductive wire_part :=
| WPText (text : jstr)
| WPImage (media_type data : jstr)
| WPReference (tool_name : jstr).

Inductive wire_block :=
| WText (text : jstr) (cache : option cache_control)
| WImage (media_type data : jstr) (cache : option cache_control)
| WThinking (thinking signature : jstr)
| WRedacted (data : option jstr)
| WToolUse (id name : jstr) (input : json)
| WToolResult (tool_use_id : jstr) (content : jstr + list wire_part) (is_error : bool) (cache : option cache_control).

Inductive wire_content := WString (s : jstr) | WBlocks (blocks : list wire_block).

Inductive wire_role := RUser | RAssistant | RSystem.

(** [wm_effort]: the [output_config] of a message of role [system]. *)
Record wire_message := WireMessage { wm_role : wire_role; wm_content : wire_content; wm_effort : option jstr }.

Record wire_tool := WireTool {
  wt_name : jstr; wt_description : jstr; wt_eager : bool; wt_strict : bool; wt_schema : json;
  wt_defer : bool; wt_cache : option cache_control
}.

(** ** Content *)

Definition convert_part (p : part) : wire_part :=
  match p with
  | PText t => WPText (sanitizeSurrogates t)
  | PImage data mimeType => WPImage mimeType data
  end.

Definition part_text_or_empty (p : part) : jstr := match p with PText t => t | PImage _ _ => [] end.
Definition is_image (p : part) : bool := match p with PImage _ _ => true | _ => false end.

Definition convertContentBlocks (content : list part) : jstr + list wire_part :=
  if negb (existsb is_image content) then
    inl (sanitizeSurrogates (join [LF] (map part_text_or_empty content)))
  else
    let blocks := map convert_part content in
    if existsb (fun p => negb (is_image p)) content then inr blocks
    else inr (WPText (js "(see attached image)") :: blocks).

(** [id.replace(/[^a-zA-Z0-9_-]/g, "_").slice(0, 64)] *)
Definition id_char (c : Z) : bool :=
  (48 <=? c) && (c <=? 57) || (65 <=? c) && (c <=? 90) || (97 <=? c) && (c <=? 122) || (c =? 95) || (c =? 45).

Definition normalizeToolCallId (id : jstr) : jstr :=
  take 64 (map (fun c => if id_char c then c else 95) id).

(** ** Deferred tools *)

Definition mem (x : jstr) (l : list jstr) : bool := existsb (streq x) l.

(** [map.set(key, value)] on a [Map] in insertion order. *)
Fixpoint map_set {A} (key : jstr) (v : A) (entries : list (jstr * A)) : list (jstr * A) :=
  match entries with
  | [] => [(key, v)]
  | (k, w) :: r => if streq k key then (k, v) :: r else (k, w) :: map_set key v r
  end.

Section Deferred.
Context (normalizeName : jstr -> jstr).

(** The names used and deferred so far, after one more message. *)
Definition see_names (acc : list jstr * list jstr) (m : message) : list jstr * list jstr :=
  let '(used, deferred) := acc in
  match m with
  | MAssistant a => (used ++ map (fun tc => normalizeName (tc_name tc)) (tool_calls (a_content a)), deferred)
  | MToolResult r =>
      (used, deferred ++ List.filter (fun n => negb (mem n used)) (map normalizeName (nullish (tr_addedToolNames r) [])))
  | _ => (used, deferred)
  end.

Definition splitDeferredTools (tools : option (list api_tool)) (messages : list message) (enabled : bool)
  : list api_tool * list (jstr * api_tool) :=
  let uniqueTools := foldl (fun m t => map_set (normalizeName (at_name t)) t m) [] (nullish tools []) in
  if negb enabled then (map snd uniqueTools, [])
  else
    let '(_, deferredNames) := foldl see_names ([], []) messages in
    (map snd (List.filter (fun nt => negb (mem nt.1 deferredNames)) uniqueTools),
     List.filter (fun nt => mem nt.1 deferredNames) uniqueTools).
End Deferred.

(** ** Messages *)

Section Convert.
Context (toLowerCase : jstr -> jstr) (isOAuthToken : bool).
Context (allowEmptySignature : bool) (deferredToolNames : list jstr) (normalizeToolName : jstr -> jstr).
(** [managedProvider], and [msg.providerThinkingLevel]. *)
Context (managedProvider : option jstr) (providerThinkingLevel : assistant -> option jstr).

Definition wire_name (name : jstr) : jstr := if isOAuthToken then toClaudeCodeName toLowerCase name else name.

(** The loop over [msg.addedToolNames]: the references and the names loaded. *)
Fixpoint add_references (names loaded : list jstr) : list wire_part * list jstr :=
  match names with
  | [] => ([], loaded)
  | name :: r =>
      let normalizedName := normalizeToolName name in
      if negb (mem normalizedName deferredToolNames) || mem normalizedName loaded then add_references r loaded
      else
        let '(refs, loaded') := add_references r (loaded ++ [normalizedName]) in
        (WPReference (wire_name name) :: refs, loaded')
  end.

Definition part_block (p : wire_part) : list wire_block :=
  match p with
  | WPText t => [WText t None]
  | WPImage media_type data => [WImage media_type data None]
  | WPReference _ => []
  end.

(** The tool result, the content beside it, and the names loaded. *)
Definition convertToolResult (r : tool_result) (loaded : list jstr) : wire_block * list wire_block * list jstr :=
  let '(references, loaded') := add_references (nullish (tr_addedToolNames r) []) loaded in
  let convertedContent := convertContentBlocks (tr_content r) in
  match references with
  | [] => (WToolResult (tr_toolCallId r) convertedContent (tr_isError r) None, [], loaded')
  | _ =>
      (WToolResult (tr_toolCallId r) (inr references) (tr_isError r) None,
       match convertedContent with inl s => [WText s None] | inr ps => ps ≫= part_block end, loaded')
  end.

Definition convert_user (c : user_content) : option wire_content :=
  match c with
  | UString s => if blank s then None else Some (WString (sanitizeSurrogates s))
  | UParts ps =>
      let blocks := map (fun p =>
        match p with
        | PText t => WText (sanitizeSurrogates t) None
        | PImage data mimeType => WImage mimeType data None
        end) ps in
      match List.filter (fun b => match b with WText t _ => negb (blank t) | _ => true end) blocks with
      | [] => None
      | filteredBlocks => Some (WBlocks filteredBlocks)
      end
  end.

Definition or_empty_object (v : json) : json := match v with JNull => JObj [] | _ => v end.

Definition convert_block (b : block) : list wire_block :=
  match b with
  | BText text _ => if blank text then [] else [WText (sanitizeSurrogates text) None]
  | BThinking thinking signature redacted =>
      if redacted then [WRedacted signature]
      else
        let hasThinkingSignature := match signature with Some s => truthy s && negb (blank s) | None => false end in
        if blank thinking && negb hasThinkingSignature then []
        else if hasThinkingSignature then [WThinking (sanitizeSurrogates thinking) (nullish signature [])]
        else if allowEmptySignature then [WThinking (sanitizeSurrogates thinking) []]
        else [WText (sanitizeSurrogates thinking) None]
  | BToolCall tc => [WToolUse (tc_id tc) (wire_name (tc_name tc)) (or_empty_object (tc_arguments tc))]
  end.

Definition isAnthropicEffort (v : option jstr) : bool :=
  match v with
  | Some s => mem s (map js ["low"; "medium"; "high"; "xhigh"; "max"])
  | None => false
  end.

Definition assistant_level (a : assistant) : option jstr :=
  match managedProvider with
  | Some p =>
      if streq (a_api a) (js "anthropic-messages") && streq (a_provider a) p &&
         isAnthropicEffort (providerThinkingLevel a)
      then providerThinkingLevel a else None
  | None => None
  end.

(** A message of the request with its entry in [assistantLevels]. *)
Definition leveled : Type := wire_message * option jstr.

Definition user_message (c : wire_content) : leveled := (WireMessage RUser c None, None).

(** The tool results of a run: what the inner loop collected so far. *)
Record results_run := ResultsRun { rr_results : list wire_block; rr_siblings : list wire_block }.

Definition flush_run (run : option results_run) : list leveled :=
  match run with
  | Some r => [user_message (WBlocks (rr_results r ++ rr_siblings r))]
  | None => []
  end.

Definition add_result (block : wire_block) (siblings : list wire_block) (run : option results_run) : results_run :=
  let run := nullish run (ResultsRun [] []) in
  ResultsRun (rr_results run ++ [block]) (rr_siblings run ++ siblings).

(** The loop over the messages.  A run of tool results, which the source collects
    with an inner loop, is held in [run] until a message of another role or the end. *)
Fixpoint convert_loop (ms : list message) (run : option results_run) (loaded : list jstr) : list leveled :=
  match ms with
  | [] => flush_run run
  | MToolResult r :: rest =>
      let '(block, siblings, loaded') := convertToolResult r loaded in
      convert_loop rest (Some (add_result block siblings run)) loaded'
  | MUser c _ :: rest =>
      flush_run run ++
      match convert_user c with Some content => [user_message content] | None => [] end ++
      convert_loop rest None loaded
  | MAssistant a :: rest =>
      flush_run run ++
      match a_content a ≫= convert_block with
      | [] => []
      | blocks => [(WireMessage RAssistant (WBlocks blocks) None, assistant_level a)]
      end ++
      convert_loop rest None loaded
  | MOther _ _ :: rest => flush_run run ++ convert_loop rest None loaded
  end.

Definition mark_block (cc : cache_control) (b : wire_block) : wire_block :=
  match b with
  | WText t _ => WText t (Some cc)
  | WImage m d _ => WImage m d (Some cc)
  | WToolResult i c e _ => WToolResult i c e (Some cc)
  | b => b
  end.

Fixpoint update_last_of {A} (f : A -> A) (l : list A) : list A :=
  match l with
  | [] => []
  | [x] => [f x]
  | x :: r => x :: update_last_of f r
  end.

Definition mark_content (cc : cache_control) (c : wire_content) : wire_content :=
  match c with
  | WString s => WBlocks [WText s (Some cc)]
  | WBlocks bs => WBlocks (update_last_of (mark_block cc) bs)
  end.

(** The cache marker on the last message, when it is the user's. *)
Definition mark_message (cc : cache_control) (m : leveled) : leveled :=
  match wm_role m.1 with
  | RUser => (WireMessage RUser (mark_content cc (wm_content m.1)) (wm_effort m.1), m.2)
  | _ => m
  end.

Definition convertMessages2 (transformedMessages : list message) (cacheControl : option cache_control)
  : list leveled :=
  let params := convert_loop transformedMessages None [] in
  match cacheControl with
  | Some cc => update_last_of (mark_message cc) params
  | None => params
  end.
End Convert.

Definition effort_message (e : jstr) : wire_message := WireMessage RSystem (WBlocks []) (Some e).

Definition insertThinkingLevelMessages (converted : list leveled) (activeEffort : jstr) : list wire_message :=
  (converted ≫= fun m => match m.2 with Some e => [effort_message e; m.1] | None => [m.1] end) ++
  [effort_message activeEffort].

(** ** Tools *)

Definition legacy_schema (parameters : json) : list (jstr * json) :=
  [(js "type", JStr (js "object"));
   (js "properties", nullish (or_nullish (get (js "properties") parameters) None) (JObj []));
   (js "required", nullish (or_nullish (get (js "required") parameters) None) (JArr []))].

(** [{ ...parameters, ...legacyInputSchema }] *)
Definition input_schema (strict : bool) (parameters : json) : json :=
  JObj (if strict then
          foldl (fun fs kv => set_field kv.1 kv.2 fs)
            (match parameters with JObj fs => fs | _ => [] end) (legacy_schema parameters)
        else legacy_schema parameters).

Section Tools.
Context (toLowerCase : jstr -> jstr) (isOAuthToken : bool).

Definition convert_tool (eager supportsStrict defer : bool) (cacheControl : option cache_control) (t : api_tool)
  : result jstr wire_tool :=
  let! strict := resolveJsonSchemaStrictSampling (at_tool t) supportsStrict in
  let! parameters := getJsonSchemaToolParameters (at_tool t) strict in
  Ok (WireTool (wire_name toLowerCase isOAuthToken (at_name t)) (at_description t) eager strict
        (input_schema strict parameters) defer cacheControl).

(** The tools with the marker on the last one. *)
Fixpoint with_marker {A} (cacheControl : option cache_control) (l : list A) : list (A * option cache_control) :=
  match l with
  | [] => []
  | [t] => [(t, cacheControl)]
  | t :: r => (t, None) :: with_marker cacheControl r
  end.

Definition convertTools2 (tools : list api_tool) (eager supportsStrict : bool) (cacheControl : option cache_control)
    (deferLoading : bool) : result jstr (list wire_tool) :=
  map_throw (fun tc => convert_tool eager supportsStrict deferLoading tc.2 tc.1) (with_marker cacheControl tools).
End Tools.

(** ** Beta features *)

Definition FINE_GRAINED_TOOL_STREAMING_BETA : jstr := js "fine-grained-tool-streaming-2025-05-14".
Definition INTERLEAVED_THINKING_BETA : jstr := js "interleaved-thinking-2025-05-14".
Definition SERVER_SIDE_FALLBACK_BETA : jstr := js "server-side-fallback-2026-07-01".
Definition MID_CONVERSATION_OUTPUT_CONFIG_BETA : jstr := js "mid-conversation-output-config-2026-07-01".
Definition THINKING_BINDING_CONTROLS_BETA : jstr := js "thinking-binding-controls-2026-08-01".

(** The options of a request. *)
Record anthropic_options := AnthropicOptions {
  ao_cacheRetention : option retention;
  ao_headers : option (list (jstr * option jstr));
  ao_effort : option jstr;
  ao_maxTokens : option Z;
  ao_temperature : option Q;
  ao_thinkingEnabled : option bool;
  ao_interleavedThinking : option bool;
  ao_thinkingDisplay : option jstr;
  ao_thinkingBudgetTokens : option Z;
  ao_userId : option json;                     (* [metadata.user_id] *)
  ao_toolChoice : option (jstr + json)
}.

(** [[...new Set(l)]] *)
Definition dedup (l : list jstr) : list jstr := foldl (fun acc x => if mem x acc then acc else acc ++ [x]) [] l.

Definition shouldUseFineGrainedToolStreamingBeta (m : model) (c : option compat) (tools : option (list api_tool)) : bool :=
  bool_decide (nullish tools [] ≠ []) && negb (ac_eager (getAnthropicCompat m c)).

Section Request.
Context (toLowerCase : jstr -> jstr) (m : model) (c : option compat).

(** The loops over the two header objects; [Some None] is [null]. *)
Definition configured_features (o : anthropic_options) : option (option jstr) :=
  foldl (fun acc nv => if streq (toLowerCase nv.1) (js "anthropic-beta") then Some nv.2 else acc) None
    (map (fun nv => (nv.1, Some nv.2)) (nullish (m_headers m) []) ++ nullish (ao_headers o) []).

Definition getBetaFeatures (tools : option (list api_tool)) (isOAuthToken : bool) (o : anthropic_options) : list jstr :=
  match configured_features o with
  | Some None => []
  | Some (Some v) => dedup (List.filter (fun f => truthy f) (map trim (split_char 44 v)))
  | None =>
      dedup
        ((if isOAuthToken then [js "claude-code-20250219"; js "oauth-2025-04-20"] else []) ++
         (if shouldUseFineGrainedToolStreamingBeta m c tools then [FINE_GRAINED_TOOL_STREAMING_BETA] else []) ++
         (if m_reasoning m && bool_decide (ao_thinkingEnabled o = Some true) &&
             nullish (ao_interleavedThinking o) true && negb (adaptiveThinking c)
          then [INTERLEAVED_THINKING_BETA] else []) ++
         (if shouldUseServerSideFallbackBeta c then [SERVER_SIDE_FALLBACK_BETA] else []) ++
         (if midConvoEffort c then [MID_CONVERSATION_OUTPUT_CONFIG_BETA; THINKING_BINDING_CONTROLS_BETA] else []))
  end.

(** ** The parameters of a request *)

Inductive thinking_param :=
| ThinkingAdaptive (display : jstr) (drop_block : bool)
| ThinkingEnabled (budget_tokens : Z) (display : jstr)
| ThinkingDisabled.

Record params := Params {
  rq_model : jstr;
  rq_messages : list wire_message;
  rq_max_tokens : Z;
  rq_betas : option (list jstr);
  rq_system : option (list (jstr * option cache_control));
  rq_temperature : option Q;
  rq_tools : option (list wire_tool);
  rq_thinking : option thinking_param;
  rq_output_config : option jstr;              (* its [effort] *)
  rq_user_id : option jstr;
  rq_tool_choice : option (jstr + json);
  rq_fallbacks : option (list jstr)
}.

Definition CLAUDE_CODE_PROMPT : jstr := js "You are Claude Code, Anthropic's official CLI for Claude.".

Definition system_blocks (isOAuthToken : bool) (systemPrompt : option jstr) (cc : option cache_control)
  : option (list (jstr * option cache_control)) :=
  let own := if truthy_opt systemPrompt then [(sanitizeSurrogates (nullish systemPrompt []), cc)] else [] in
  if isOAuthToken then Some ((CLAUDE_CODE_PROMPT, cc) :: own)
  else match own with [] => None | _ => Some own end.

(** [options.thinkingBudgetTokens || 1024] *)
Definition budget_or_default (budget : option Z) : Z :=
  match budget with Some b => if b =? 0 then 1024 else b | None => 1024 end.

(** [model.thinkingLevelMap?.off !== null] *)
Definition off_supported : bool := negb (bool_decide (mapped_level m (js "off") = Some None)).

Definition thinking_params (o : anthropic_options) : option thinking_param * option jstr :=
  let display := nullish (ao_thinkingDisplay o) (js "summarized") in
  if midConvoEffort c then (Some (ThinkingAdaptive display true), Some (js "high"))
  else if m_reasoning m then
    match ao_thinkingEnabled o with
    | Some true =>
        if adaptiveThinking c then
          (Some (ThinkingAdaptive display false), if truthy_opt (ao_effort o) then ao_effort o else None)
        else (Some (ThinkingEnabled (budget_or_default (ao_thinkingBudgetTokens o)) display), None)
    | Some false => (if off_supported then Some ThinkingDisabled else None, None)
    | None => (None, None)
    end
  else (None, None).

(** The tools that are sent with the request and those that are loaded later. *)
Definition place_tools (normalizeToolName : jstr -> jstr) (tools : option (list api_tool)) (messages : list message)
  : list api_tool * list api_tool :=
  let '(immediate, deferred) :=
    splitDeferredTools normalizeToolName tools messages (ac_references (getAnthropicCompat m c)) in
  match immediate, deferred with
  | [], _ :: _ => (map snd deferred, [])
  | _, _ => (immediate, map snd deferred)
  end.

(** [envValue] is [getProviderEnvValue("PI_CACHE_RETENTION", options.env)]; [now]
    the time of the call. *)
Definition buildParams2 (providerThinkingLevel : assistant -> option jstr) (envValue : option jstr) (now : Z)
    (systemPrompt : option jstr) (messages : list raw_message) (tools : option (list api_tool))
    (isOAuthToken : bool) (o : anthropic_options) : result jstr params :=
  let cacheControl := getCacheControl m c (ao_cacheRetention o) envValue in
  let compat := getAnthropicCompat m c in
  let transformedMessages := transformMessages messages m (Some (fun id _ _ => normalizeToolCallId id)) now in
  let normalizeToolName := if isOAuthToken then toClaudeCodeName toLowerCase else fun name => name in
  let '(immediateTools, deferredTools) := place_tools normalizeToolName tools transformedMessages in
  let deferredToolNames := map (fun t => normalizeToolName (at_name t)) deferredTools in
  let converted :=
    convertMessages2 toLowerCase isOAuthToken (ac_emptySignature compat) deferredToolNames normalizeToolName
      (if midConvoEffort c then Some (m_provider m) else None) providerThinkingLevel transformedMessages cacheControl in
  let activeEffort := nullish (ao_effort o) (js "high") in
  let betaFeatures := getBetaFeatures tools isOAuthToken o in
  let! immediateWire :=
    convertTools2 toLowerCase isOAuthToken immediateTools (ac_eager compat) (ac_strict compat)
      (if ac_cacheTools compat then cacheControl else None) false in
  let! deferredWire :=
    convertTools2 toLowerCase isOAuthToken deferredTools (ac_eager compat) (ac_strict compat) None true in
  let '(thinking, output_config) := thinking_params o in
  Ok (Params (m_id m)
        (if midConvoEffort c then insertThinkingLevelMessages converted activeEffort else map fst converted)
        (nullish (ao_maxTokens o) (m_maxTokens m))
        (match betaFeatures with [] => None | _ => Some betaFeatures end)
        (system_blocks isOAuthToken systemPrompt cacheControl)
        (if bool_decide (ao_thinkingEnabled o ≠ Some true) && negb (midConvoEffort c) && ac_temperature compat
         then ao_temperature o else None)
        (match immediateTools, deferredTools with [], [] => None | _, _ => Some (immediateWire ++ deferredWire) end)
        thinking output_config
        (match ao_userId o with Some (JStr s) => Some s | _ => None end)
        (match ao_toolChoice o with Some (inl s) => if truthy s then Some (inl s) else None | o => o end)
        (match fallback_models c with [] => None | fs => Some (map fb_model fs) end)).
End Request.

(** ** The simple options *)

(** [mapThinkingLevelToEffort(model, level)] for a level that is given. *)
Definition mapThinkingLevelToEffort (m : model) (level : jstr) : jstr :=
  match (if truthy level then mapped_level m level else None) with
  | Some (Some mapped) => mapped
  | _ =>
      if mem level (map js ["minimal"; "low"]) then js "low"
      else if streq level (js "medium") then js "medium" else js "high"
  end.

(** The thinking options of [streamSimple2] for a budget model: the clamped
    [maxTokens] and [thinkingBudgetTokens]. *)
Definition simple_budget (num_to_string : Q -> jstr) (m : model) (ctx : context) (baseMaxTokens : Z) (level : effort)
    (budgets : effort -> option Z) : Z * Z :=
  let '(adjustedMax, thinkingBudget) := adjustMaxTokensForThinking (Some baseMaxTokens) (m_maxTokens m) level budgets in
  let maxTokens := clampMaxTokensToContext num_to_string m ctx adjustedMax in
  (maxTokens, Z.min thinkingBudget (Z.max 0 (maxTokens - 1024))).

(** ** The client *)

Section Client.
Context (toLowerCase : jstr -> jstr).

(** Headers whose value may be [null]. *)
Definition header_list : Type := list (jstr * option jstr).

Definition hasHeader2 (headers : option header_list) (name : jstr) : bool :=
  existsb (fun kv => streq (toLowerCase kv.1) (toLowerCase name) &&
             match kv.2 with Some v => truthy (trim v) | None => false end) (nullish headers []).

Definition assertRequestAuth (provider : jstr) (apiKey : option jstr) (headers : option header_list) : result jstr () :=
  if truthy_opt apiKey then Ok ()
  else if hasHeader2 headers (js "authorization") || hasHeader2 headers (js "x-api-key") ||
          hasHeader2 headers (js "cf-aig-authorization") then Ok ()
  else Throw (js "No API key for provider: " ++ provider).

(** [Object.assign] of each source in turn. *)
Definition mergeHeaders2 (sources : list (option header_list)) : header_list :=
  foldl (fun merged h => foldl (fun acc kv => map_set kv.1 kv.2 acc) merged (nullish h [])) [] sources.

Definition mergeClientHeaders (userAgent : jstr) (sources : list (option header_list)) : header_list :=
  mergeHeaders2 (Some [(js "User-Agent", Some userAgent)] :: sources).

Definition isOAuthToken (apiKey : jstr) : bool := includes (js "sk-ant-oat") apiKey.

Record client := Client {
  cl_apiKey : option jstr; cl_authToken : option jstr; cl_baseURL : jstr; cl_headers : header_list; cl_oauth : bool
}.

Definition claudeCodeVersion : jstr := js "2.1.251".

Definition base_headers : header_list :=
  [(js "accept", Some (js "application/json")); (js "anthropic-dangerous-direct-browser-access", Some (js "true"))].

Definition createClient2 (userAgent : jstr) (m : model) (c : option compat) (apiKey : option jstr)
    (optionsHeaders dynamicHeaders : option header_list) (sessionId : option jstr) : client :=
  let modelHeaders := map (fun kv => (kv.1, Some kv.2)) <$> m_headers m in
  if streq (m_provider m) (js "github-copilot") then
    Client None apiKey (m_baseUrl m)
      (mergeClientHeaders userAgent [Some base_headers; modelHeaders; dynamicHeaders; optionsHeaders]) false
  else if truthy_opt apiKey && isOAuthToken (nullish apiKey []) then
    Client None apiKey (m_baseUrl m)
      (mergeClientHeaders userAgent
         [Some (base_headers ++ [(js "user-agent", Some (js "claude-cli/" ++ claudeCodeVersion)); (js "x-app", Some (js "cli"))]);
          modelHeaders; optionsHeaders]) true
  else
    let sessionAffinityHeaders :=
      match sessionId with
      | Some id => if truthy id && ac_affinity (getAnthropicCompat m c) then [(js "x-session-affinity", Some id)] else []
      | None => []
      end in
    Client apiKey None (m_baseUrl m)
      (mergeClientHeaders userAgent [Some base_headers; Some sessionAffinityHeaders; modelHeaders; optionsHeaders]) false.
End Client.

(** * Facts *)

(** ** Tool calls and their results stay paired *)

Definition not_other (m : message) : Prop := match m with MOther _ _ => False | _ => True end.

Definition raw_not_other (m : raw_message) : Prop := match m with Complete m => not_other m | _ => True end.

Lemma normalize_not_other m : raw_not_other m -> not_other (normalize_content m).
Proof. by destruct m as [m| | |]. Qed.

Lemma downgrade_not_other m : not_other m -> not_other (downgrade_message m).
Proof. by destruct m as [[] ?|?|?|? ?]. Qed.

Lemma transform_pass_not_other target norm ms ids :
  Forall not_other ms -> Forall not_other (transform_pass target norm ms ids).
Proof.
  intros HF. revert ids. induction HF as [|m ms Hm HF IH]; intros ids; [done|]. cbn [transform_pass].
  destruct m as [c t|a|r|x t]; cbn [transform_message]; try (by constructor).
  - destruct (transform_blocks target norm a (a_content a) ids). by constructor.
  - destruct (ids !! tr_toolCallId r) as [n|]; [destruct (_ && _)|]; by constructor.
Qed.

Lemma transformMessages_not_other messages target norm now :
  Forall raw_not_other messages -> Forall not_other (transformMessages messages target norm now).
Proof.
  intros HF. unfold transformMessages. apply pair_results_Forall; [done|].
  apply transform_pass_not_other. unfold downgradeUnsupportedImages.
  assert (H : Forall not_other (map normalize_content messages)).
  { apply Forall_map. eapply Forall_impl; [exact HF|]. apply normalize_not_other. }
  case_bool_decide; [done|]. apply Forall_map. eapply Forall_impl; [exact H|]. apply downgrade_not_other.
Qed.

(** The calls of a message of the assistant, and that the next message answers one. *)
Definition tool_uses (m : wire_message) : list jstr :=
  match wm_role m, wm_content m with
  | RAssistant, WBlocks bs => omap (fun b => match b with WToolUse id _ _ => Some id | _ => None end) bs
  | _, _ => []
  end.

Definition is_result (id : jstr) (b : wire_block) : Prop :=
  match b with WToolResult i _ _ _ => i = id | _ => False end.

Definition answers_next (rest : list wire_message) (id : jstr) : Prop :=
  match rest with
  | WireMessage RUser (WBlocks bs) _ :: _ => Exists (is_result id) bs
  | _ => False
  end.

Fixpoint wire_paired (ms : list wire_message) : Prop :=
  match ms with
  | [] => True
  | m :: r => Forall (answers_next r) (tool_uses m) /\ wire_paired r
  end.

Section Paired.
Context (toLowerCase : jstr -> jstr) (oauth emptySignature : bool) (deferredNames : list jstr) (norm : jstr -> jstr).
Context (managed : option jstr) (level : assistant -> option jstr).
#[local] Abbreviation loop := (convert_loop toLowerCase oauth emptySignature deferredNames norm managed level).
#[local] Abbreviation convert_result := (convertToolResult toLowerCase oauth deferredNames norm).

Lemma convertToolResult_block r loaded :
  exists c, (convert_result r loaded).1.1 = WToolResult (tr_toolCallId r) c (tr_isError r) None.
Proof. unfold convertToolResult. destruct (add_references _ _ _ _ _ _) as [[] ?]; by eexists. Qed.

Lemma tool_uses_content a blocks :
  a_content a ≫= convert_block toLowerCase oauth emptySignature = blocks ->
  tool_uses (WireMessage RAssistant (WBlocks blocks) None) = tc_id <$> tool_calls (a_content a).
Proof.
  intros <-. unfold tool_uses. cbn [wm_role wm_content]. induction (a_content a) as [|b bs IH]; [done|].
  cbn [mbind list_bind]. rewrite omap_app, IH. destruct b as [t s|t s []|tc]; cbn [convert_block tool_calls omap]; [|done| |done].
  - by destruct (blank t).
  - destruct (blank t && _); [done|]. destruct s as [s|]; [destruct (truthy s && _)|]; try done; by destruct emptySignature.
Qed.

(** The results that follow come in the next message. *)
Lemma results_come_next ms run loaded id :
  Forall not_other ms ->
  answered ms id \/ match run with Some r => Exists (is_result id) (rr_results r) | None => False end ->
  answers_next (map fst (loop ms run loaded)) id.
Proof.
  intros HF. revert run loaded. induction HF as [|m ms Hm HF IH]; intros run loaded Hid.
  - destruct Hid as [Hid|Hid]; [by apply Exists_nil in Hid|]. destruct run as [r|]; [|done]. simpl.
    apply Exists_app. by left.
  - assert (Hflush : forall x, match run with Some r => Exists (is_result id) (rr_results r) | None => False end ->
      answers_next (map fst (flush_run run ++ x)) id).
    { intros x. destruct run as [r|]; [|done]. intros Hr. simpl. apply Exists_app. by left. }
    destruct m as [c t|a|r|x t]; cbn [convert_loop]; [| | |done].
    + apply Hflush. by destruct Hid as [Hid|Hid]; [apply Exists_nil in Hid|].
    + apply Hflush. by destruct Hid as [Hid|Hid]; [apply Exists_nil in Hid|].
    + destruct (convertToolResult_block r loaded) as [c Hc].
      destruct (convert_result r loaded) as [[block siblings] loaded']. cbn [fst] in Hc. subst block.
      apply IH. destruct Hid as [Hid|Hid].
      * unfold answered in Hid. cbn [segment] in Hid. apply Exists_cons in Hid as [Hid|Hid]; [|by left].
        right. unfold add_result. cbn [rr_results]. apply Exists_app. right. by constructor.
      * right. destruct run as [run|]; [|done]. unfold add_result. cbn [rr_results nullish]. apply Exists_app. by left.
Qed.

Lemma convert_loop_paired ms run loaded :
  Forall not_other ms -> all_answered ms -> wire_paired (map fst (loop ms run loaded)).
Proof.
  intros HF. revert run loaded. induction HF as [|m ms Hm HF IH]; intros run loaded Hans; [by destruct run|].
  assert (Hflush : forall x, wire_paired (map fst x) -> wire_paired (map fst (flush_run run ++ x))).
  { intros x Hx. by destruct run. }
  destruct m as [c t|a|r|x t]; cbn [convert_loop]; [| | |done].
  - apply Hflush. destruct (convert_user c); [|by apply IH]. simpl. split; [constructor|by apply IH].
  - destruct Hans as [Ha Hans]. apply Hflush.
    destruct (a_content a ≫= convert_block toLowerCase oauth emptySignature) as [|b bs] eqn:E; [by apply IH|].
    cbn [app map fst wire_paired]. split; [|by apply IH]. rewrite (tool_uses_content a) by done.
    apply Forall_fmap. eapply Forall_impl; [exact Ha|]. intros tc Htc. apply results_come_next; [done|by left].
  - destruct (convert_result r loaded) as [[block siblings] loaded']. by apply IH.
Qed.

(** Only messages of the assistant have a level. *)
Lemma convert_loop_levels ms run loaded :
  Forall (fun x : leveled => wm_role x.1 = RUser -> x.2 = None) (loop ms run loaded).
Proof.
  revert run loaded. induction ms as [|m ms IH]; intros run loaded; [destruct run; by repeat constructor|].
  assert (Hf : Forall (fun x : leveled => wm_role x.1 = RUser -> x.2 = None) (flush_run run))
    by (destruct run; by repeat constructor).
  destruct m as [c t|a|r|x t]; cbn [convert_loop]; rewrite ?Forall_app.
  - split; [done|]. split; [|apply IH]. destruct (convert_user c); by repeat constructor.
  - split; [done|]. split; [|apply IH]. destruct (_ ≫= _); by repeat constructor.
  - destruct (convert_result r loaded) as [[block siblings] loaded']. apply IH.
  - split; [done|apply IH].
Qed.
End Paired.

Lemma mark_paired cc l :
  wire_paired (map fst l) -> wire_paired (map fst (update_last_of (mark_message cc) l)).
Proof.
  assert (Hrole : forall x : leveled, tool_uses (mark_message cc x).1 = tool_uses x.1)
    by (intros [[[] [] ?] ?]; done).
  assert (Hans : forall bs id, Exists (is_result id) bs -> Exists (is_result id) (update_last_of (mark_block cc) bs)).
  { intros bs id. induction 1 as [b bs Hb|b bs Hb IH]; destruct bs as [|b' bs]; simpl in *.
    - constructor. by destruct b.
    - by constructor.
    - by apply Exists_nil in Hb.
    - by right. }
  induction l as [|x l IH]; [done|]. intros [Hx Hl]. destruct l as [|y l].
  - cbn [map update_last_of wire_paired] in *. rewrite Hrole. by split.
  - change (update_last_of _ (x :: y :: l)) with (x :: update_last_of (mark_message cc) (y :: l)).
    cbn [map wire_paired]. split; [|by apply IH]. eapply Forall_impl; [exact Hx|]. intros id Hid.
    destruct l as [|z l]; [|exact Hid]. destruct y as [[[] [s|bs] e] lv]; try done. by apply Hans.
Qed.

Lemma mark_levels cc l :
  Forall (fun x : leveled => wm_role x.1 = RUser -> x.2 = None) l ->
  Forall (fun x : leveled => wm_role x.1 = RUser -> x.2 = None) (update_last_of (mark_message cc) l).
Proof.
  induction 1 as [|x l Hx HF IH]; [done|]. destruct l; cbn [update_last_of]; constructor; try done.
  by destruct x as [[[] ? ?] ?].
Qed.

Lemma insert_levels_paired l e :
  Forall (fun x : leveled => wm_role x.1 = RUser -> x.2 = None) l -> wire_paired (map fst l) ->
  wire_paired (insertThinkingLevelMessages l e).
Proof.
  unfold insertThinkingLevelMessages. induction 1 as [|x l Hx HF IH]; [intros _; by split|].
  cbn [map wire_paired mbind list_bind]. intros [Hu Hp]. specialize (IH Hp). rewrite <- app_assoc.
  assert (Hx' : wire_paired (x.1 :: (l ≫= fun m => match m.2 with Some e => [effort_message e; m.1] | None => [m.1] end) ++
    [effort_message e])).
  { split; [|exact IH]. eapply Forall_impl; [exact Hu|]. intros id Hid.
    destruct l as [|y l]; [done|]. cbn [map mbind list_bind] in *. inversion HF as [|? ? Hy _]; subst.
    destruct y as [[[] c ef] lv]; try done. cbn in Hy. by rewrite (Hy eq_refl). }
  destruct (x.2); [by split|exact Hx'].
Qed.

(** No call is lost on the way. *)
Definition message_calls (m : message) : list jstr :=
  match m with MAssistant a => tc_id <$> tool_calls (a_content a) | _ => [] end.

Lemma convert_loop_calls toLowerCase oauth emptySignature deferredNames norm managed level ms run loaded :
  map fst (convert_loop toLowerCase oauth emptySignature deferredNames norm managed level ms run loaded) ≫= tool_uses =
  ms ≫= message_calls.
Proof.
  revert run loaded. induction ms as [|m ms IH]; intros run loaded; [by destruct run|].
  assert (Hflush : forall x, map fst (flush_run run ++ x) ≫= tool_uses = map fst x ≫= tool_uses) by (intros x; by destruct run).
  destruct m as [c t|a|r|x t]; cbn [convert_loop]; rewrite ?Hflush; cbn [mbind list_bind message_calls app].
  - by destruct (convert_user c); simpl; rewrite IH.
  - destruct (a_content a ≫= convert_block toLowerCase oauth emptySignature) as [|b bs] eqn:E.
    + rewrite <- (tool_uses_content toLowerCase oauth emptySignature a []) by done. apply IH.
    + cbn [app map fst mbind list_bind]. by rewrite (tool_uses_content toLowerCase oauth emptySignature a), IH.
  - destruct (convertToolResult _ _ _ _ _ _) as [[block siblings] loaded']. apply IH.
  - apply IH.
Qed.

Lemma mark_calls cc l : map fst (update_last_of (mark_message cc) l) ≫= tool_uses = map fst l ≫= tool_uses.
Proof.
  induction l as [|x l IH]; [done|]. destruct l as [|y l].
  - by destruct x as [[[] [] ?] ?].
  - change (update_last_of _ (x :: y :: l)) with (x :: update_last_of (mark_message cc) (y :: l)).
    cbn [map mbind list_bind] in *. by rewrite IH.
Qed.

Lemma insert_levels_calls l e : insertThinkingLevelMessages l e ≫= tool_uses = map fst l ≫= tool_uses.
Proof.
  unfold insertThinkingLevelMessages. induction l as [|x l IH]; [done|]. cbn [map mbind list_bind].
  rewrite <- app_assoc. destruct (x.2); cbn [app mbind list_bind]; by rewrite <- IH.
Qed.

(** ** Cache markers *)

Definition marked (cc : option cache_control) : nat := match cc with Some _ => 1 | None => 0 end.

Definition block_markers (b : wire_block) : nat :=
  match b with WText _ cc | WImage _ _ cc | WToolResult _ _ _ cc => marked cc | _ => 0 end.

Definition message_markers (x : wire_message) : nat :=
  match wm_content x with WBlocks bs => sum_list_with block_markers bs | WString _ => 0 end.

Definition request_markers (p : params) : nat :=
  sum_list_with (fun s => marked s.2) (nullish (rq_system p) []) +
  sum_list_with (fun t => marked (wt_cache t)) (nullish (rq_tools p) []) +
  sum_list_with message_markers (rq_messages p).
Definition unmarked (b : wire_block) : Prop := block_markers b = 0%nat.

Lemma unmarked_sum bs : Forall unmarked bs -> sum_list_with block_markers bs = 0%nat.
Proof. induction 1 as [|b bs Hb HF IH]; [done|]. simpl. unfold unmarked in Hb. lia. Qed.

Lemma sum_zero {A} (f : A -> nat) l : Forall (fun x => f x = 0%nat) l -> sum_list_with f l = 0%nat.
Proof. induction 1 as [|x l Hx HF IH]; [done|]. simpl. lia. Qed.

Lemma convert_user_unmarked c content bs : convert_user c = Some content -> content = WBlocks bs -> Forall unmarked bs.
Proof.
  destruct c as [t|ps]; cbn [convert_user]; [destruct (blank t); congruence|].
  set (blocks := map _ ps). intros H Hc.
  assert (HF : Forall unmarked (List.filter (fun b => match b with WText t _ => negb (blank t) | _ => true end) blocks)).
  { apply list.Forall_forall. intros b Hb. apply list_elem_of_In, filter_In in Hb as [Hb _].
    apply list_elem_of_In, list_elem_of_fmap in Hb as ([t|d mt] & -> & _); done. }
  destruct (List.filter _ blocks) as [|b0 bs0]; simplify_eq. exact HF.
Qed.

Lemma convert_block_unmarked toLowerCase oauth es b : Forall unmarked (convert_block toLowerCase oauth es b).
Proof.
  destruct b as [t sg|t sg r|tc]; cbn [convert_block]; [|destruct r|]; repeat case_match; by repeat constructor.
Qed.

Section Markers.
Context (toLowerCase : jstr -> jstr) (oauth emptySignature : bool) (deferredNames : list jstr) (norm : jstr -> jstr).
Context (managed : option jstr) (level : assistant -> option jstr).

Lemma convertToolResult_unmarked r loaded :
  let '(b, siblings, _) := convertToolResult toLowerCase oauth deferredNames norm r loaded in
  unmarked b /\ Forall unmarked siblings.
Proof.
  unfold convertToolResult. destruct (add_references _ _ _ _ _ _) as [[|x refs] l]; split; try done.
  destruct (convertContentBlocks (tr_content r)) as [t|ps]; [by repeat constructor|].
  induction ps as [|p ps IH]; [done|]. cbn [mbind list_bind]. apply Forall_app. split; [|done].
  destruct p; by repeat constructor.
Qed.

Lemma convert_loop_unmarked ms run loaded :
  match run with Some r => Forall unmarked (rr_results r ++ rr_siblings r) | None => True end ->
  Forall (fun x : leveled => message_markers x.1 = 0%nat)
    (convert_loop toLowerCase oauth emptySignature deferredNames norm managed level ms run loaded).
Proof.
  revert run loaded. induction ms as [|m ms IH]; intros run loaded Hrun.
  - destruct run; [|done]. repeat constructor. by apply unmarked_sum.
  - assert (Hf : Forall (fun x : leveled => message_markers x.1 = 0%nat) (flush_run run)).
    { destruct run; [|done]. repeat constructor. by apply unmarked_sum. }
    destruct m as [cn t|a|r|x t]; cbn [convert_loop]; rewrite ?Forall_app.
    + split; [done|]. split; [|by apply IH]. destruct (convert_user cn) as [content|] eqn:E; [|done].
      repeat constructor. destruct content as [|bs]; [done|]. apply unmarked_sum. by eapply convert_user_unmarked.
    + split; [done|]. split; [|by apply IH].
      assert (HF : Forall unmarked (a_content a ≫= convert_block toLowerCase oauth emptySignature)).
      { induction (a_content a); [done|]. cbn [mbind list_bind]. apply Forall_app. split; [apply convert_block_unmarked|done]. }
      destruct (a_content a ≫= _); [done|]. repeat constructor. by apply unmarked_sum.
    + pose proof (convertToolResult_unmarked r loaded) as Hr.
      destruct (convertToolResult _ _ _ _ _ _) as [[b siblings] loaded']. destruct Hr as [Hb Hs]. apply IH.
      unfold add_result. cbn [rr_results rr_siblings]. rewrite !Forall_app.
      destruct run as [run|]; cbn [nullish rr_results rr_siblings]; [|by repeat constructor].
      apply Forall_app in Hrun as [H1 H2]. repeat split; try done. by repeat constructor.
    + split; [done|by apply IH].
Qed.
End Markers.

Lemma mark_one cc l :
  Forall (fun x : leveled => message_markers x.1 = 0%nat) l ->
  (sum_list_with message_markers (map fst (update_last_of (mark_message cc) l)) <= 1)%nat.
Proof.
  assert (Hb : forall bs, sum_list_with block_markers bs = 0%nat ->
    (sum_list_with block_markers (update_last_of (mark_block cc) bs) <= 1)%nat).
  { induction bs as [|b bs IH]; [simpl; lia|]. intros H. destruct bs as [|b' bs].
    - destruct b; simpl in *; lia.
    - change (update_last_of _ (b :: b' :: bs)) with (b :: update_last_of (mark_block cc) (b' :: bs)).
      cbn [sum_list_with] in *. lia. }
  induction 1 as [|x l Hx HF IH]; [simpl; lia|]. destruct l as [|y l].
  - destruct x as [[[] [t|bs] ef] lv]; cbn in *; try lia. specialize (Hb bs Hx). lia.
  - change (update_last_of _ (x :: y :: l)) with (x :: update_last_of (mark_message cc) (y :: l)).
    cbn [map sum_list_with fst] in *. lia.
Qed.

Lemma insert_levels_markers l e :
  sum_list_with message_markers (insertThinkingLevelMessages l e) = sum_list_with message_markers (map fst l).
Proof.
  unfold insertThinkingLevelMessages. rewrite sum_list_with_app. cbn [sum_list_with].
  change (message_markers (effort_message e)) with 0%nat. induction l as [|x l IH]; [done|].
  cbn [mbind list_bind map sum_list_with]. rewrite sum_list_with_app. destruct (x.2); cbn [sum_list_with];
    rewrite <- IH; unfold message_markers; simpl; lia.
Qed.

Lemma convert_tools_markers toLowerCase oauth tools eager strict cc defer wire :
  convertTools2 toLowerCase oauth tools eager strict cc defer = Ok wire ->
  (sum_list_with (fun t => marked (wt_cache t)) wire <= marked cc)%nat.
Proof.
  unfold convertTools2. intros H.
  assert (Hg : forall l w, map_throw (fun tc => convert_tool toLowerCase oauth eager strict defer tc.2 tc.1) l = Ok w ->
    sum_list_with (fun t => marked (wt_cache t)) w = sum_list_with (fun tc => marked tc.2) l).
  { induction l as [|[t k] l IH]; intros w Hw; cbn [map_throw] in Hw; [by simplify_eq|].
    unfold convert_tool in Hw at 1. destruct (resolveJsonSchemaStrictSampling _ _); [|done]. cbn [bind fst snd] in Hw.
    destruct (getJsonSchemaToolParameters _ _); [|done]. cbn [bind] in Hw.
    destruct (map_throw _ l) as [w'|]; [|done]. simplify_eq/=. by rewrite (IH w'). }
  rewrite (Hg _ _ H). clear. induction tools as [|t ts IH]; [simpl; lia|]. destruct ts; simpl in *; lia.
Qed.

(** ** References to deferred tools *)

Definition block_references (b : wire_block) : list jstr :=
  match b with
  | WToolResult _ (inr ps) _ _ => omap (fun p => match p with WPReference n => Some n | _ => None end) ps
  | _ => []
  end.

Definition message_references (x : wire_message) : list jstr :=
  match wm_content x with WBlocks bs => bs ≫= block_references | WString _ => [] end.

Section References.
Context (toLowerCase : jstr -> jstr) (oauth emptySignature : bool) (deferredNames : list jstr).
Context (managed : option jstr) (level : assistant -> option jstr).
#[local] Abbreviation norm := (if oauth then toClaudeCodeName toLowerCase else fun name => name).

Lemma wire_name_norm name : wire_name toLowerCase oauth name = norm name.
Proof. unfold wire_name. by destruct oauth. Qed.

Lemma mem_spec x l : mem x l = true <-> x ∈ l.
Proof.
  unfold mem. rewrite existsb_exists. setoid_rewrite streq_true. setoid_rewrite <- list_elem_of_In.
  split; [by intros (y & Hy & ->)|by exists x].
Qed.

Lemma add_references_spec names loaded :
  NoDup loaded ->
  let '(refs, loaded') := add_references toLowerCase oauth deferredNames norm names loaded in
  let R := omap (fun p => match p with WPReference n => Some n | _ => None end) refs in
  loaded' = loaded ++ R /\ NoDup loaded' /\ R ⊆ deferredNames.
Proof.
  revert loaded. induction names as [|n names IH]; intros loaded Hn; cbn [add_references].
  - rewrite app_nil_r. split_and!; [done|done|set_solver].
  - destruct (negb (mem (norm n) deferredNames) || mem (norm n) loaded) eqn:E; [by apply IH|].
    apply orb_false_iff in E as [E1 E2]. apply negb_false_iff, mem_spec in E1.
    assert (E3 : norm n ∉ loaded) by (rewrite <- mem_spec; by rewrite E2).
    specialize (IH (loaded ++ [norm n])). destruct (add_references _ _ _ _ names _) as [refs loaded'].
    destruct IH as (-> & HN & HR).
    { apply NoDup_app. split_and!; [done|set_solver|apply NoDup_singleton]. }
    cbn [omap list_omap]. rewrite wire_name_norm. split_and!; [by rewrite <- app_assoc|done|].
    intros x Hx. apply elem_of_cons in Hx as [->|Hx]; [done|by apply HR].
Qed.

Lemma no_references_parts ps : (ps ≫= part_block) ≫= block_references = [].
Proof. induction ps as [|p ps IH]; [done|]. cbn [mbind list_bind]. rewrite bind_app, IH. by destruct p. Qed.

Lemma content_no_references content ps :
  convertContentBlocks content = inr ps -> omap (fun p => match p with WPReference n => Some n | _ => None end) ps = [].
Proof.
  unfold convertContentBlocks. destruct (existsb is_image content); [|done]. cbn [negb].
  assert (H : omap (fun p => match p with WPReference n => Some n | _ => None end) (map convert_part content) = [])
    by (induction content as [|[] l IH]; done).
  destruct (existsb _ content); intros [= <-]; done.
Qed.

Lemma convertToolResult_references r loaded :
  NoDup loaded ->
  let '(b, siblings, loaded') := convertToolResult toLowerCase oauth deferredNames norm r loaded in
  loaded' = loaded ++ block_references b /\ NoDup loaded' /\ block_references b ⊆ deferredNames /\
  siblings ≫= block_references = [].
Proof.
  intros Hn. unfold convertToolResult. pose proof (add_references_spec (nullish (tr_addedToolNames r) []) loaded Hn) as H.
  destruct (add_references _ _ _ _ _ _) as [refs loaded']. destruct H as (-> & HN & HR).
  destruct refs as [|x refs].
  - cbn [block_references]. rewrite app_nil_r in *. destruct (convertContentBlocks (tr_content r)) as [t|ps] eqn:E.
    + by rewrite app_nil_r.
    + rewrite (content_no_references _ _ E), app_nil_r. by split_and!.
  - split_and!; [done|done|done|]. destruct (convertContentBlocks (tr_content r)) as [t|ps]; [done|apply no_references_parts].
Qed.

Definition run_references (run : option results_run) : list jstr :=
  match run with Some r => rr_results r ≫= block_references | None => [] end.

Lemma convert_user_references cn content bs : convert_user cn = Some content -> content = WBlocks bs -> bs ≫= block_references = [].
Proof.
  destruct cn as [t|ps]; cbn [convert_user]; [destruct (blank t); congruence|].
  set (blocks := map _ ps).
  assert (H : List.filter (fun b => match b with WText t _ => negb (blank t) | _ => true end) blocks ≫= block_references = []).
  { unfold blocks. clear. induction ps as [|[t|d mt] ps IH]; [done| |exact IH]. cbn [map List.filter]. by destruct (negb (blank _)). }
  destruct (List.filter _ blocks) as [|b0 bs0]; intros; simplify_eq. exact H.
Qed.

Lemma convert_block_references b : convert_block toLowerCase oauth emptySignature b ≫= block_references = [].
Proof. destruct b as [t sg|t sg []|tc]; cbn [convert_block]; repeat case_match; done. Qed.

Lemma convert_loop_references ms run loaded :
  NoDup loaded -> match run with Some r => rr_siblings r ≫= block_references = [] | None => True end ->
  exists R, map fst (convert_loop toLowerCase oauth emptySignature deferredNames norm managed level ms run loaded)
      ≫= message_references = run_references run ++ R /\ NoDup (loaded ++ R) /\ R ⊆ deferredNames.
Proof.
  revert run loaded. induction ms as [|m ms IH]; intros run loaded Hn Hr.
  - exists []. rewrite !app_nil_r. split_and!; [|done|set_solver]. destruct run as [r|]; [|done].
    cbn. by rewrite bind_app, Hr, !app_nil_r.
  - assert (Hf : forall x, map fst (flush_run run ++ x) ≫= message_references =
      run_references run ++ (map fst x ≫= message_references)).
    { intros x. destruct run as [r|]; [|done]. cbn. by rewrite bind_app, Hr, app_nil_r. }
    destruct m as [cn t|a|r|x t]; cbn [convert_loop].
    + destruct (IH None loaded Hn I) as (R & HR & HN & Hs). exists R. rewrite Hf. split_and!; [|done|done]. f_equal.
      destruct (convert_user cn) as [content|] eqn:E; [|exact HR]. cbn [app map mbind list_bind fst]. rewrite HR.
      destruct content as [t'|bs]; [done|]. cbn [run_references app user_message fst message_references wm_content].
      by rewrite (convert_user_references cn _ bs E eq_refl).
    + destruct (IH None loaded Hn I) as (R & HR & HN & Hs). exists R. rewrite Hf. split_and!; [|done|done]. f_equal.
      assert (H : (a_content a ≫= convert_block toLowerCase oauth emptySignature) ≫= block_references = []).
      { induction (a_content a) as [|b l IHl]; [done|]. cbn [mbind list_bind]. by rewrite bind_app, convert_block_references, IHl. }
      destruct (a_content a ≫= _) as [|b bs]; [exact HR|]. cbn [app map mbind list_bind fst]. rewrite HR.
      cbn [run_references app message_references wm_content]. by rewrite H.
    + pose proof (convertToolResult_references r loaded Hn) as H.
      destruct (convertToolResult _ _ _ _ _ _) as [[b siblings] loaded']. destruct H as (-> & HN & HR & Hs).
      destruct (IH (Some (add_result b siblings run)) (loaded ++ block_references b) HN) as (R & HR' & HN' & Hs').
      { unfold add_result. cbn [rr_siblings]. rewrite bind_app, Hs, app_nil_r. by destruct run. }
      exists (block_references b ++ R). rewrite HR'. split_and!.
      * unfold add_result. cbn [run_references rr_results]. rewrite bind_app. cbn [mbind list_bind]. rewrite app_nil_r.
        destruct run; cbn [nullish run_references rr_results mbind list_bind]; by rewrite <- ?app_assoc.
      * by rewrite app_assoc.
      * set_solver.
    + destruct (IH None loaded Hn I) as (R & HR & HN & Hs). exists R. rewrite Hf. split_and!; [|done|done]. by rewrite HR.
Qed.
End References.

Lemma mark_references cc l :
  map fst (update_last_of (mark_message cc) l) ≫= message_references = map fst l ≫= message_references.
Proof.
  assert (Hb : forall bs, update_last_of (mark_block cc) bs ≫= block_references = bs ≫= block_references).
  { induction bs as [|b bs IH]; [done|]. destruct bs as [|b' bs]; [by destruct b|].
    change (update_last_of _ (b :: b' :: bs)) with (b :: update_last_of (mark_block cc) (b' :: bs)).
    cbn [mbind list_bind] in *. by rewrite IH. }
  induction l as [|x l IH]; [done|]. destruct l as [|y l].
  - destruct x as [[[] [t|bs] ef] lv]; cbn; rewrite ?app_nil_r; done.
  - change (update_last_of _ (x :: y :: l)) with (x :: update_last_of (mark_message cc) (y :: l)).
    cbn [map mbind list_bind] in *. by rewrite IH.
Qed.

Lemma insert_levels_references l e :
  insertThinkingLevelMessages l e ≫= message_references = map fst l ≫= message_references.
Proof.
  unfold insertThinkingLevelMessages. induction l as [|x l IH]; [done|]. cbn [map mbind list_bind].
  rewrite <- app_assoc. destruct (x.2); cbn [app mbind list_bind]; by rewrite <- IH.
Qed.

(** ** The tools of a request *)

Lemma map_set_names {A} k (v : A) l : map fst (map_set k v l) = if bool_decide (k ∈ map fst l) then map fst l else map fst l ++ [k].
Proof.
  induction l as [|[k' w] l IH]; [done|]. cbn [map_set map fst]. destruct (streq k' k) eqn:E.
  - apply streq_true in E as ->. rewrite bool_decide_true by left. done.
  - apply streq_false in E. cbn [map fst]. rewrite IH. case_bool_decide as Hk.
    + rewrite bool_decide_true by (by right). done.
    + rewrite bool_decide_false; [done|]. rewrite not_elem_of_cons. naive_solver.
Qed.

Lemma map_set_keys {A} key (v : A) l : NoDup (map fst l) -> NoDup (map fst (map_set key v l)).
Proof.
  intros HN. rewrite map_set_names. case_bool_decide as E; [done|]. apply NoDup_app. split_and!; [done| |apply NoDup_singleton].
  intros x Hx Hy. by apply list_elem_of_singleton in Hy as ->.
Qed.

Lemma map_set_Forall {A} (P : jstr * A -> Prop) key (v : A) l :
  (forall k, k = key -> P (k, v)) -> Forall P l -> Forall P (map_set key v l).
Proof.
  intros Hv. induction 1 as [|[k w] l Hx HF IH]; cbn [map_set]; [by repeat constructor; apply Hv|].
  destruct (streq k key) eqn:E; constructor; try done. apply Hv. by apply streq_true.
Qed.

Lemma filter_partition {A} (f : A -> bool) l : List.filter (fun x => negb (f x)) l ++ List.filter f l ≡ₚ l.
Proof.
  induction l as [|x l IH]; [done|]. simpl. destruct (f x); simpl; [|by rewrite IH].
  by rewrite <- Permutation_middle, IH.
Qed.

(** The tools by name, the last one of a name. *)
Lemma unique_tools norm ts :
  let unique := foldl (fun m t => map_set (norm (at_name t)) t m) [] ts in
  NoDup (map fst unique) /\ Forall (fun kt => kt.1 = norm (at_name kt.2)) unique /\
  forall n, n ∈ map fst unique <-> n ∈ map (fun t => norm (at_name t)) ts.
Proof.
  assert (H : forall l, NoDup (map fst l) -> Forall (fun kt => kt.1 = norm (at_name kt.2)) l ->
    let l' := foldl (fun m t => map_set (norm (at_name t)) t m) l ts in
    NoDup (map fst l') /\ Forall (fun kt => kt.1 = norm (at_name kt.2)) l' /\
    forall n, n ∈ map fst l' <-> n ∈ map fst l \/ n ∈ map (fun t => norm (at_name t)) ts).
  { induction ts as [|t ts IH]; intros l H1 H2; cbn [foldl map].
    - split_and!; [done|done|]. set_solver.
    - destruct (IH (map_set (norm (at_name t)) t l)) as (I1 & I2 & I3); [by apply map_set_keys|by apply map_set_Forall; [intros k ->|]|].
      split_and!; [done|done|]. intros n. rewrite I3, map_set_names. case_bool_decide; set_solver. }
  destruct (H [] ltac:(constructor) ltac:(constructor)) as (H1 & H2 & H3). split_and!; [done|done|].
  intros n. rewrite H3. set_solver.
Qed.

Lemma keyed_names norm l :
  Forall (fun kt : jstr * api_tool => kt.1 = norm (at_name kt.2)) l -> map (fun t => norm (at_name t)) (map snd l) = map fst l.
Proof. induction 1 as [|kt l Hk Hl IHl]; [done|]. simpl. by rewrite Hk, IHl. Qed.

(** What is used at once and what is deferred make up the tools by name; what is
    deferred has been added by a message. *)
Lemma split_tools_spec norm tools messages enabled immediate deferred :
  splitDeferredTools norm tools messages enabled = (immediate, deferred) ->
  NoDup (map (fun t => norm (at_name t)) (immediate ++ map snd deferred)) /\
  (forall n, n ∈ map (fun t => norm (at_name t)) (immediate ++ map snd deferred) <-> n ∈ map (fun t => norm (at_name t)) (nullish tools [])) /\
  Forall (fun kt => kt.1 = norm (at_name kt.2)) deferred /\
  (enabled = false -> deferred = []) /\
  forall k, k ∈ map fst deferred -> k ∈ (foldl (see_names norm) ([], []) messages).2.
Proof.
  unfold splitDeferredTools. destruct (unique_tools norm (nullish tools [])) as (HN & HF & Hin).
  set (unique := foldl _ [] (nullish tools [])) in *.
  destruct enabled; cbn [negb].
  - destruct (foldl _ _ messages) as [used names]. intros [= <- <-].
    pose proof (filter_partition (fun nt : jstr * api_tool => mem nt.1 names) unique) as Hp. cbv beta in Hp.
    assert (Hm : map (fun t => norm (at_name t)) (map snd (List.filter (fun nt => negb (mem nt.1 names)) unique) ++
      map snd (List.filter (fun nt => mem nt.1 names) unique)) ≡ₚ map fst unique).
    { rewrite <- map_app, keyed_names by (by rewrite Hp). by rewrite Hp. }
    split_and!; [by rewrite Hm|intros n; rewrite Hm; apply Hin|rewrite Forall_forall in HF |- *; intros x Hx; apply HF, list_elem_of_In; apply list_elem_of_In, filter_In in Hx; tauto|done|].
    intros k Hk. apply list_elem_of_fmap in Hk as (kt & -> & Hk). apply list_elem_of_In, filter_In in Hk as [_ Hk].
    unfold mem in Hk. apply existsb_exists in Hk as (y & Hy & E). apply streq_true in E as ->. by apply list_elem_of_In.
  - intros [= <- <-]. cbn [map]. rewrite app_nil_r, keyed_names by done. split_and!; [done|done|constructor|done|]. by intros k ?%elem_of_nil.
Qed.

Lemma split_tools_keys norm tools messages enabled immediate deferred :
  splitDeferredTools norm tools messages enabled = (immediate, deferred) ->
  NoDup (map (fun t => norm (at_name t)) (immediate ++ map snd deferred)).
Proof. intros H. by apply split_tools_spec in H as (? & _). Qed.

Lemma convertTools2_spec toLowerCase oauth tools eager strict cc defer wire :
  convertTools2 toLowerCase oauth tools eager strict cc defer = Ok wire ->
  map wt_name wire = map (fun t => wire_name toLowerCase oauth (at_name t)) tools /\
  Forall (fun t => wt_defer t = defer) wire.
Proof.
  unfold convertTools2. intros H.
  assert (Hg : forall l w, map_throw (fun tc => convert_tool toLowerCase oauth eager strict defer tc.2 tc.1) l = Ok w ->
    map wt_name w = map (fun tc => wire_name toLowerCase oauth (at_name tc.1)) l /\ Forall (fun t => wt_defer t = defer) w).
  { induction l as [|[t k] l IH]; intros w Hw; cbn [map_throw] in Hw; [by simplify_eq|].
    unfold convert_tool in Hw at 1. destruct (resolveJsonSchemaStrictSampling _ _); [|done]. cbn [bind fst snd] in Hw.
    destruct (getJsonSchemaToolParameters _ _); [|done]. cbn [bind] in Hw.
    destruct (map_throw _ l) as [w'|]; [|done]. simplify_eq/=. destruct (IH w' eq_refl) as [H1 H2].
    split; [by rewrite H1|by constructor]. }
  destruct (Hg _ _ H) as [H1 H2]. split; [|done]. rewrite H1. clear.
  induction tools as [|t ts IH]; [done|]. destruct ts; simpl in *; [done|by rewrite <- IH].
Qed.

Section Request.
Context (toLowerCase : jstr -> jstr) (m : model) (c : option compat).
Context (level : assistant -> option jstr) (envValue : option jstr) (now : Z).
Context (systemPrompt : option jstr) (messages : list raw_message) (tools : option (list api_tool)).
Context (oauth : bool) (o : anthropic_options).
#[local] Abbreviation the_request := (buildParams2 toLowerCase m c level envValue now systemPrompt messages tools oauth o).
#[local] Abbreviation sent := (transformMessages messages m (Some (fun id _ _ => normalizeToolCallId id)) now).

#[local] Abbreviation norm := (if oauth then toClaudeCodeName toLowerCase else fun name => name).

(** The parts of a request. *)
Lemma request_parts p :
  the_request = Ok p ->
  exists immediate deferred iw dw,
    let cc := getCacheControl m c (ao_cacheRetention o) envValue in
    let converted := convertMessages2 toLowerCase oauth (ac_emptySignature (getAnthropicCompat m c))
      (map (fun t => norm (at_name t)) deferred) norm
      (if midConvoEffort c then Some (m_provider m) else None) level sent cc in
    place_tools m c norm tools sent = (immediate, deferred) /\
    convertTools2 toLowerCase oauth immediate (ac_eager (getAnthropicCompat m c)) (ac_strict (getAnthropicCompat m c))
      (if ac_cacheTools (getAnthropicCompat m c) then cc else None) false = Ok iw /\
    convertTools2 toLowerCase oauth deferred (ac_eager (getAnthropicCompat m c)) (ac_strict (getAnthropicCompat m c))
      None true = Ok dw /\
    nullish (rq_tools p) [] = iw ++ dw /\
    rq_system p = system_blocks oauth systemPrompt cc /\
    rq_messages p = if midConvoEffort c then insertThinkingLevelMessages converted (nullish (ao_effort o) (js "high"))
                    else map fst converted.
Proof.
  unfold buildParams2. destruct (place_tools _ _ _ _ _) as [immediate deferred].
  destruct (convertTools2 _ _ immediate _ _ _ _) as [iw|] eqn:Ei; [|done]. cbn [bind].
  destruct (convertTools2 _ _ deferred _ _ _ _) as [dw|] eqn:Ed; [|done]. cbn [bind].
  destruct (thinking_params m c o) as [th oc]. intros [= <-]. exists immediate, deferred, iw, dw. cbv zeta.
  split_and!; try done. destruct immediate, deferred; try done. cbn in Ei, Ed. by simplify_eq.
Qed.

(** C20: In every request the API accepts the history: each tool call of an
    assistant message is answered by a tool result in the very next message, and
    the calls of the request are exactly those of the conversation as it is
    replayed, in order; whatever the conversation, the model, the markers and the
    effort messages that are inserted. *)
Theorem anthropic_request_pairs p :
  Forall raw_not_other messages -> the_request = Ok p ->
  wire_paired (rq_messages p) /\ rq_messages p ≫= tool_uses = sent ≫= message_calls.
Proof.
  intros HF Hp. destruct (request_parts p Hp) as (immediate & deferred & iw & dw & _ & _ & _ & _ & _ & Hm).
  unfold convertMessages2 in Hm.
  set (l := convert_loop _ _ _ _ _ _ _ _ _ _) in Hm.
  assert (Hl : wire_paired (map fst l)).
  { apply convert_loop_paired; [by apply transformMessages_not_other|apply pair_results_answered]. }
  assert (Hc : map fst l ≫= tool_uses = sent ≫= message_calls) by apply convert_loop_calls.
  assert (Hv : Forall (fun x : leveled => wm_role x.1 = RUser -> x.2 = None) l) by apply convert_loop_levels.
  destruct (getCacheControl m c (ao_cacheRetention o) envValue) as [cc|]; destruct (midConvoEffort c); rewrite Hm.
  - split; [by apply insert_levels_paired; [apply mark_levels|apply mark_paired]|].
    by rewrite insert_levels_calls, mark_calls.
  - split; [by apply mark_paired|by rewrite mark_calls].
  - split; [by apply insert_levels_paired|by rewrite insert_levels_calls].
  - done.
Qed.

Lemma system_markers cc : (sum_list_with (fun s => marked s.2) (nullish (system_blocks oauth systemPrompt cc) []) <= 2)%nat.
Proof.
  unfold system_blocks. destruct oauth, (truthy_opt systemPrompt), cc; simpl; lia.
Qed.

Lemma message_markers_one p : the_request = Ok p -> (sum_list_with message_markers (rq_messages p) <= 1)%nat.
Proof.
  intros Hp. destruct (request_parts p Hp) as (immediate & deferred & iw & dw & _ & _ & _ & _ & _ & Hm).
  unfold convertMessages2 in Hm.
  set (l := convert_loop _ _ _ _ _ _ _ _ _ _) in Hm.
  assert (Hl : Forall (fun x : leveled => message_markers x.1 = 0%nat) l) by (by apply convert_loop_unmarked).
  assert (Hz : sum_list_with message_markers (map fst l) = 0%nat) by (by apply sum_zero, Forall_map).
  destruct (getCacheControl m c (ao_cacheRetention o) envValue) as [cc|]; destruct (midConvoEffort c); rewrite Hm.
  - rewrite insert_levels_markers. by apply mark_one.
  - by apply mark_one.
  - rewrite insert_levels_markers, Hz. lia.
  - rewrite Hz. lia.
Qed.

(** A request never carries more than the four cache markers the API takes,
    whatever its tools, system prompt and messages: at most two on the system
    prompt, one on the tools and one on the messages. *)
Theorem anthropic_cache_markers p :
  the_request = Ok p ->
  (sum_list_with message_markers (rq_messages p) <= 1)%nat /\
  (sum_list_with (fun t => marked (wt_cache t)) (nullish (rq_tools p) []) <= 1)%nat /\
  (request_markers p <= 4)%nat.
Proof.
  intros Hp. pose proof (message_markers_one p Hp) as Hm. split; [done|].
  destruct (request_parts p Hp) as (immediate & deferred & iw & dw & _ & Ei & Ed & Ht & Hs & _).
  apply convert_tools_markers in Ei, Ed. cbn [marked] in Ed.
  pose proof (system_markers (getCacheControl m c (ao_cacheRetention o) envValue)) as H2.
  assert (H1 : (sum_list_with (fun t => marked (wt_cache t)) (nullish (rq_tools p) []) <= 1)%nat).
  { rewrite Ht, sum_list_with_app. destruct (ac_cacheTools _); [destruct (getCacheControl _ _ _ _)|]; simpl in Ei; lia. }
  split; [done|]. unfold request_markers. rewrite Hs. lia.
Qed.


Lemma place_tools_spec immediate deferred :
  place_tools m c norm tools sent = (immediate, deferred) ->
  NoDup (map (fun t => norm (at_name t)) (immediate ++ deferred)) /\ (immediate = [] -> deferred = []).
Proof.
  unfold place_tools. destruct (splitDeferredTools _ _ _ _) as [im de] eqn:E. apply split_tools_keys in E.
  destruct im as [|t im], de as [|d de]; intros [= <- <-]; try done.
  by rewrite app_nil_r.
Qed.

(** The tools of a request have distinct names, and the results that load
    deferred tools can be followed: each reference names a tool the request carries
    for deferred loading, no tool is referenced twice, and a request with deferred
    tools also has one that is not. *)
Theorem anthropic_tools_loadable p :
  the_request = Ok p ->
  let offered := nullish (rq_tools p) [] in
  let references := rq_messages p ≫= message_references in
  NoDup (map wt_name offered) /\ NoDup references /\
  (forall n, n ∈ references -> exists t, t ∈ offered /\ wt_name t = n /\ wt_defer t = true) /\
  ((exists t, t ∈ offered /\ wt_defer t = true) -> exists t, t ∈ offered /\ wt_defer t = false).
Proof.
  intros Hp offered references.
  destruct (request_parts p Hp) as (immediate & deferred & iw & dw & Hpl & Ei & Ed & Ht & _ & Hm).
  apply place_tools_spec in Hpl as [HN Hne]. apply convertTools2_spec in Ei as [Ni Fi], Ed as [Nd Fd].
  assert (Hr : exists R, references = R /\ NoDup R /\ R ⊆ map (fun t => norm (at_name t)) deferred).
  { destruct (convert_loop_references toLowerCase oauth (ac_emptySignature (getAnthropicCompat m c))
      (map (fun t => norm (at_name t)) deferred) (if midConvoEffort c then Some (m_provider m) else None) level sent None [])
      as (R & HR & HNR & HsR); [constructor|done|]. cbn [run_references app] in HR, HNR.
    exists R. split_and!; [|done|done]. unfold references. rewrite Hm, <- HR. unfold convertMessages2.
    destruct (getCacheControl _ _ _ _) as [cc|], (midConvoEffort c); by rewrite ?insert_levels_references, ?mark_references. }
  destruct Hr as (R & HR & HNR & HsR).
  assert (Hw : forall l, map (fun t => wire_name toLowerCase oauth (at_name t)) l = map (fun t => norm (at_name t)) l).
  { intros l. apply map_ext. intros t. apply wire_name_norm. }
  rewrite Hw in Ni, Nd. unfold offered. rewrite Ht. split_and!.
  - by rewrite map_app, Ni, Nd, <- map_app.
  - by rewrite HR.
  - intros n Hn. rewrite HR in Hn. apply HsR in Hn. rewrite <- Nd in Hn.
    apply list_elem_of_fmap in Hn as (t & -> & Hin). exists t. rewrite Forall_forall in Fd. split; [set_solver|]. by auto.
  - intros (t & Hin & Hd). destruct iw as [|t0 iw].
    + destruct immediate; [|done]. rewrite (Hne eq_refl) in Nd. destruct dw; [|done]. set_solver.
    + exists t0. split; [set_solver|]. by inversion Fi.
Qed.
End Request.

(** ** Text is well formed *)

(** Surrogates occur in pairs only. *)
Fixpoint well_formed (s : jstr) : bool :=
  match s with
  | [] => true
  | c :: r =>
      if is_high c then match r with d :: r' => is_low d && well_formed r' | [] => false end
      else negb (is_low c) && well_formed r
  end.

Lemma sanitize_after_high c r : is_low c = false -> sanitize_from true (c :: r) = sanitize_from false (c :: r).
Proof. intros H. cbn [sanitize_from]. rewrite H. done. Qed.

Lemma sanitize_spec s :
  well_formed (sanitizeSurrogates s) = true /\ (well_formed s = true -> sanitizeSurrogates s = s).
Proof.
  unfold sanitizeSurrogates. induction s as [|c|c d s IH IH'] using jstr_ind2; [done| |].
  - cbn. destruct (is_high c) eqn:Eh, (is_low c) eqn:El; cbn; rewrite ?Eh, ?El; done.
  - cbn [sanitize_from well_formed]. destruct (is_high c) eqn:Eh.
    + destruct (is_low d) eqn:El.
      * assert (is_high d = false) as Ed by (destruct (is_high d) eqn:E; [apply high_not_low in E; congruence|done]).
        rewrite Ed. cbn [app well_formed]. rewrite Eh, El. cbn [andb]. destruct IH as [IH1 IH2].
        split; [done|]. intros Hs. by rewrite IH2.
      * cbn [andb app]. split; [|done]. destruct IH' as [IH1 _]. cbn [sanitize_from] in IH1. rewrite El in IH1. exact IH1.
    + destruct (is_low c) eqn:El; cbn [app negb andb].
      * split; [|done]. exact (proj1 IH').
      * cbn [well_formed]. rewrite Eh, El. cbn [negb andb]. destruct IH' as [IH1 IH2]. cbn [sanitize_from] in IH1.
        split; [exact IH1|]. intros Hs. f_equal. by apply IH2.
Qed.

(** ** Names of tools survive *)

Lemma find_unique {A} (f : A -> bool) l x :
  x ∈ l -> f x = true -> (forall y, y ∈ l -> f y = true -> y = x) -> List.find f l = Some x.
Proof.
  induction l as [|y l IH]; intros Hin Hf Hu; [set_solver|]. simpl. destruct (f y) eqn:E.
  - f_equal. apply Hu; [by left|done].
  - apply elem_of_cons in Hin as [->|Hin]; [congruence|]. apply IH; [done|done|]. intros z Hz. apply Hu. by right.
Qed.

(** A call of a tool comes back under the name the context gives it, when the
    names of the tools differ by more than case. *)
Lemma claude_code_names_roundtrip toLowerCase tools t :
  t ∈ tools -> (forall t', t' ∈ tools -> toLowerCase (at_name t') = toLowerCase (at_name t) -> t' = t) ->
  fromClaudeCodeName toLowerCase (toClaudeCodeName toLowerCase (at_name t)) (Some tools) = at_name t.
Proof.
  intros Hin Hu. unfold fromClaudeCodeName. cbn [nullish].
  assert (Hl : toLowerCase (toClaudeCodeName toLowerCase (at_name t)) = toLowerCase (at_name t)).
  { unfold toClaudeCodeName. destruct (List.find _ _) as [n|] eqn:E; [|done]. apply find_some in E as [_ E].
    cbn [nullish]. by apply streq_true. }
  rewrite Hl, (find_unique _ _ t); [done|done|by apply streq_true|]. intros y Hy Hs. apply Hu; [done|]. by apply streq_true.
Qed.

(** ** A request *)

(** Lower case of ASCII names. *)
Definition lower_ascii (s : jstr) : jstr := map (fun c => if (65 <=? c) && (c <=? 90) then c + 32 else c) s.

Definition sample_model : model :=
  Model (js "claude-sonnet-4-5") (js "Sonnet") (js "anthropic-messages") (js "anthropic") (js "https://api.anthropic.com") true
    [js "text"; js "image"] 200000 64000 (CostRates 3 15 (3 # 10) (15 # 4)) None None None.

Definition sample_tool (name : jstr) : api_tool :=
  ApiTool (SampledTool name (JObj [(js "type", JStr (js "object"))]) NoSampling) (js "a tool").

Definition sample_messages : list raw_message :=
  [Complete (MUser (UString (js "hello")) 0);
   Complete (MAssistant (Assistant (js "openai") (js "openai-responses") (js "gpt")
     [BThinking (js "hm") None false; BToolCall (ToolCall (js "call|1") (js "read") (JObj []) None None);
      BToolCall (ToolCall (js "call|2") (js "read") JNull None None)] ToolUse None zero_usage 1));
   Complete (MToolResult (ToolResult (js "call|1") (js "read") [PText (js "text")] false (Some [js "extra"; js "extra"]) 2))].

Definition sample_options : anthropic_options :=
  AnthropicOptions None None None (Some 1000) None (Some true) None None (Some 2048) None None.

Definition sample_request : result jstr params :=
  buildParams2 lower_ascii sample_model None (fun _ => None) None 9 (Some (js "Be brief.")) sample_messages
    (Some [sample_tool (js "read"); sample_tool (js "extra")]) true sample_options.

Example sample_request_messages :
  match sample_request with
  | Ok p => rq_messages p =
      [WireMessage RUser (WString (js "hello")) None;
       WireMessage RAssistant (WBlocks [WText (js "hm") None; WToolUse (js "call_1") (js "Read") (JObj []);
                                        WToolUse (js "call_2") (js "Read") (JObj [])]) None;
       WireMessage RUser (WBlocks
         [WToolResult (js "call_1") (inr [WPReference (js "extra")]) false None;
          WToolResult (js "call_2") (inl (js "No result provided")) true None;
          WText (js "text") (Some (CacheControl false))]) None]
  | Throw _ => False
  end.
Proof. vm_compute. reflexivity. Qed.

Lemma sample_not_other : Forall raw_not_other sample_messages.
Proof. repeat constructor. Qed.

Lemma anthropic_request_pairs_witness :
  match sample_request with Ok p => wire_paired (rq_messages p) | Throw _ => False end.
Proof.
  destruct sample_request as [p|e] eqn:E; [|vm_compute in E; discriminate].
  exact (proj1 (anthropic_request_pairs lower_ascii sample_model None (fun _ => None) None 9 (Some (js "Be brief."))
    sample_messages (Some [sample_tool (js "read"); sample_tool (js "extra")]) true sample_options p sample_not_other E)).
Defined.

Lemma anthropic_cache_markers_witness :
  match sample_request with Ok p => (request_markers p <= 4)%nat | Throw _ => False end.
Proof.
  destruct sample_request as [p|e] eqn:E; [|vm_compute in E; discriminate].
  apply (anthropic_cache_markers lower_ascii sample_model None (fun _ => None) None 9 (Some (js "Be brief."))
    sample_messages (Some [sample_tool (js "read"); sample_tool (js "extra")]) true sample_options p E).
Defined.

Lemma anthropic_tools_loadable_witness :
  match sample_request with
  | Ok p => exists t, t ∈ nullish (rq_tools p) [] /\ wt_name t = js "extra" /\ wt_defer t = true
  | Throw _ => False
  end.
Proof.
  destruct sample_request as [p|e] eqn:E; [|vm_compute in E; discriminate].
  apply (anthropic_tools_loadable lower_ascii sample_model None (fun _ => None) None 9 (Some (js "Be brief."))
    sample_messages (Some [sample_tool (js "read"); sample_tool (js "extra")]) true sample_options p E).
  vm_compute in E. injection E as <-. vm_compute. apply list_elem_of_In. left. reflexivity.
Defined.

(** ** Failures *)

(** Text of lone surrogates is not blank, but nothing is left of it: an empty
    content is sent, which the API rejects. *)
Lemma surrogate_text_sent_empty : convert_user (UString [55357]) = Some (WString []).
Proof. vm_compute. reflexivity. Qed.

(** The content of a result that loads tools is sent beside it, also when there is
    none: an empty text block. *)
Lemma empty_sibling_sent :
  (convertToolResult lower_ascii false [js "extra"] (fun n => n)
     (ToolResult (js "1") (js "read") [] false (Some [js "extra"]) 0) []).1.2 = [WText [] None].
Proof. vm_compute. reflexivity. Qed.

(** When the context is nearly full the thinking budget is clamped to zero, which
    the request takes for the default: more than the tokens of the answer. *)
Lemma budget_exceeds_answer :
  let m := Model (js "claude-3-7") (js "m") (js "anthropic-messages") (js "anthropic") [] true [] 5000 64000
             (CostRates 0 0 0 0) None None None in
  let '(maxTokens, budget) := simple_budget int_num_str m (Context_ None [] None)
    (clampMaxTokensToContext int_num_str m (Context_ None [] None) 32000) Low (fun _ => None) in
  maxTokens = 904 /\ budget = 0 /\ budget_or_default (Some budget) = 1024.
Proof. vm_compute. done. Qed.
