(* ===== verification/AnthropicStream.v ===== *)
(** The answer of the Anthropic API: how the events of a response become an
    assistant message and the events of its stream (packages/ai,
    api/anthropic-messages.js, bundled in src/drivers/tools/pibridge/bridge.mjs).
    The events are read from JSON as the API documents them; an event whose fields
    have other types is outside the model.  [parse] of the partial-json package is
    a parameter. *)
From S2P Require Import Prelude Utf8 Numbers Json Messages TransformMessages JsonRepair Sse ConstrainedSampling EventStream Models Faux Estimate AnthropicMessages.
Open Scope Z_scope.

(** ** The events of the API *)

Inductive block_start :=
| StartText (text : option jstr)
| StartThinking (thinking signature : option jstr)
| StartRedacted (data : jstr)
| StartToolUse (id name : jstr) (input : option json)
| StartFallback
| StartOther.

Inductive block_delta :=
| DeltaText (text : jstr)
| DeltaThinking (thinking : jstr)
| DeltaInput (partial_json : jstr)
| DeltaSignature (signature : jstr)
| DeltaOther.

(** Token counts, each of which may be missing. *)
Record counts := Counts {
  ct_input : option Z; ct_output : option Z; ct_cacheRead : option Z; ct_cacheWrite : option Z;
  ct_cacheWrite1h : option Z; ct_thinking : option Z
}.

Inductive api_event :=
| MessageStart (id model : jstr) (usage : counts) (transformations : option (list json))
| BlockStart (index : Z) (b : block_start)
| BlockDelta (index : Z) (d : block_delta)
| BlockStop (index : Z)
| MessageDelta (stop_reason explanation : option jstr) (usage : option counts) (transformations : option (list json))
| OtherEvent.

(** ** Reading them *)

Definition as_string (v : option json) : option jstr := match v with Some (JStr s) => Some s | _ => None end.

(** A string that may be missing or [null]. *)
Definition as_opt_string (v : option json) : option (option jstr) :=
  match v with None | Some JNull => Some None | Some (JStr s) => Some (Some s) | _ => None end.

Definition as_int (v : option json) : option Z :=
  match v with
  | Some (JNum (Finite q)) => if (Qden q =? 1)%positive then Some (Qnum q) else None
  | _ => None
  end.

Definition as_opt_int (v : option json) : option (option Z) :=
  match v with None | Some JNull => Some None | _ => Some <$> as_int v end.

Definition as_list (v : option json) : option (list json) := match v with Some (JArr l) => Some l | _ => None end.

Definition field (k : string) (v : option json) : option json := v ≫= get (js k).

Definition read_counts (u : option json) : option counts :=
  i ← as_opt_int (field "input_tokens" u);
  o ← as_opt_int (field "output_tokens" u);
  r ← as_opt_int (field "cache_read_input_tokens" u);
  w ← as_opt_int (field "cache_creation_input_tokens" u);
  h ← as_opt_int (field "ephemeral_1h_input_tokens" (field "cache_creation" u));
  t ← as_opt_int (field "thinking_tokens" (field "output_tokens_details" u));
  Some (Counts i o r w h t).

Definition type_is (t : string) (v : option json) : bool := bool_decide (field "type" v = Some (JStr (js t))).

Definition read_start (b : option json) : option block_start :=
  if type_is "fallback" b then Some StartFallback
  else if type_is "text" b then StartText <$> as_opt_string (field "text" b)
  else if type_is "thinking" b then
    t ← as_opt_string (field "thinking" b); s ← as_opt_string (field "signature" b); Some (StartThinking t s)
  else if type_is "redacted_thinking" b then StartRedacted <$> as_string (field "data" b)
  else if type_is "tool_use" b then
    i ← as_string (field "id" b); n ← as_string (field "name" b);
    Some (StartToolUse i n (or_nullish (field "input" b) None))
  else Some StartOther.

Definition read_delta (d : option json) : option block_delta :=
  if type_is "text_delta" d then DeltaText <$> as_string (field "text" d)
  else if type_is "thinking_delta" d then DeltaThinking <$> as_string (field "thinking" d)
  else if type_is "input_json_delta" d then DeltaInput <$> as_string (field "partial_json" d)
  else if type_is "signature_delta" d then DeltaSignature <$> as_string (field "signature" d)
  else Some DeltaOther.

Definition truthy_only (s : option jstr) : option jstr := if truthy_opt s then s else None.

Definition read_event (e : json) : option api_event :=
  let e := Some e in
  if type_is "message_start" e then
    let msg := field "message" e in
    i ← as_string (field "id" msg); mo ← as_string (field "model" msg);
    if is_object (field "usage" msg) then
      u ← read_counts (field "usage" msg); Some (MessageStart i mo u (as_list (field "input_transformations" msg)))
    else None
  else if type_is "content_block_start" e then
    n ← as_int (field "index" e);
    if is_object (field "content_block" e) then b ← read_start (field "content_block" e); Some (BlockStart n b) else None
  else if type_is "content_block_delta" e then
    n ← as_int (field "index" e);
    if is_object (field "delta" e) then d ← read_delta (field "delta" e); Some (BlockDelta n d) else None
  else if type_is "content_block_stop" e then
    n ← as_int (field "index" e); Some (BlockStop n)
  else if type_is "message_delta" e then
    if is_object (field "delta" e) then
      r ← as_opt_string (field "stop_reason" (field "delta" e));
      x ← as_opt_string (field "explanation" (field "stop_details" (field "delta" e)));
      u ← (match field "usage" e with
           | None | Some JNull => Some None
           | u => if is_object u then Some <$> read_counts u else None
           end);
      Some (MessageDelta (truthy_only r) (truthy_only x) u (as_list (field "input_transformations" e)))
    else None
  else Some OtherEvent.

(** ** The message under construction *)

(** A block with its [index] and [partialJson], while it has them. *)
Record open_block := OpenBlock { ob_block : block; ob_index : option Z; ob_json : option jstr }.

Record output := Output {
  o_content : list open_block;
  o_model : jstr;
  o_responseId : option jstr;
  o_usage : usage;                              (* its [u_cost] is not used *)
  o_cost : dollars;
  o_reasoning : option Z;                       (* [usage.reasoning] *)
  o_stopReason : option stop_reason;            (* [None]: pending *)
  o_rawStopReason : option jstr;
  o_errorMessage : option jstr;
  o_usageModel : model;                         (* the variable [usageModel] *)
  o_transformations : option (list json)        (* the variable [inputTransformations] *)
}.

Definition with_blocks (content : list open_block) (o : output) : output :=
  Output content (o_model o) (o_responseId o) (o_usage o) (o_cost o) (o_reasoning o) (o_stopReason o) (o_rawStopReason o)
    (o_errorMessage o) (o_usageModel o) (o_transformations o).

Definition mapStopReason2 (reason : jstr) (explanation : option jstr) : result jstr (stop_reason * option jstr) :=
  if streq reason (js "end_turn") then Ok (Stop, None)
  else if streq reason (js "max_tokens") then Ok (Length, None)
  else if streq reason (js "tool_use") then Ok (ToolUse, None)
  else if streq reason (js "refusal") then
    Ok (Error, Some (nullish explanation (js "The model refused to complete the request")))
  else if streq reason (js "pause_turn") then Ok (Stop, None)
  else if streq reason (js "stop_sequence") then Ok (Stop, None)
  else if streq reason (js "sensitive") then Ok (Error, Some (js "Provider stopped with: sensitive"))
  else Throw (js "Unhandled stop reason: " ++ reason).

(** [blocks.findIndex((b) => b.index === index)] *)
Fixpoint findIndex (index : Z) (blocks : list open_block) : option nat :=
  match blocks with
  | [] => None
  | b :: r => if bool_decide (ob_index b = Some index) then Some O else S <$> findIndex index r
  end.

Definition total_tokens (u : usage) : Z := u_input u + u_output u + u_cacheRead u + u_cacheWrite u.

Section Stream.
Context (toLowerCase : jstr -> jstr) (partial_parse : jstr -> option json).
Context (m : model) (c : option compat) (tools : option (list api_tool)) (isOAuth : bool) (now : Z).

Definition output_init : output :=
  Output [] (m_id m) None zero_usage (Dollars (Finite 0) (Finite 0) (Finite 0) (Finite 0) (Finite 0)) None None None None m None.

(** The model whose prices count: that of a fallback when one answered. *)
Definition usage_model (name : jstr) : model :=
  if streq name (m_id m) then m
  else
    match List.find (fun f => streq (fb_provider f) (m_provider m) && streq (fb_model f) name) (fallback_models c) with
    | Some (FallbackModel _ _ (Some (rates, tiers))) =>
        Model name (m_name m) (m_api m) (m_provider m) (m_baseUrl m) (m_reasoning m) (m_input m) (m_contextWindow m)
          (m_maxTokens m) rates tiers (m_thinkingLevelMap m) (m_headers m)
    | _ => m
    end.

Definition or_zero (n : option Z) : Z := nullish n 0.

Definition on_message_start (id name : jstr) (u : counts) (ts : option (list json)) (o : output) : output :=
  let usageModel := usage_model name in
  let u0 := Usage (or_zero (ct_input u)) (or_zero (ct_output u)) (or_zero (ct_cacheRead u)) (or_zero (ct_cacheWrite u)) 0
              (Some (or_zero (ct_cacheWrite1h u))) zero_cost in
  let u1 := Usage (u_input u0) (u_output u0) (u_cacheRead u0) (u_cacheWrite u0) (total_tokens u0) (u_cacheWrite1h u0) zero_cost in
  Output (o_content o) name (Some id) u1 (calculateCost usageModel u1) (o_reasoning o) (o_stopReason o) (o_rawStopReason o)
    (o_errorMessage o) usageModel (match ts with Some _ => ts | None => o_transformations o end).

(** The block a start event opens, and the event that announces it. *)
Definition new_block (index : Z) (b : block_start) : option (open_block * (Z -> event)) :=
  match b with
  | StartText t => Some (OpenBlock (BText (nullish t []) None) (Some index) None, EvTextStart)
  | StartThinking t s =>
      Some (OpenBlock (BThinking (nullish t []) (Some (nullish s [])) false) (Some index) None, EvThinkingStart)
  | StartRedacted d =>
      Some (OpenBlock (BThinking (js "[Reasoning redacted]") (Some d) true) (Some index) None, EvThinkingStart)
  | StartToolUse id name input =>
      Some (OpenBlock (BToolCall (ToolCall id (if isOAuth then fromClaudeCodeName toLowerCase name tools else name)
                         (nullish input (JObj [])) None None)) (Some index) (Some []), EvToolStart)
  | StartFallback | StartOther => None
  end.

(** What a delta makes of the block it belongs to, and the event for position [k]. *)
Definition apply_delta (d : block_delta) (b : open_block) (k : Z) : list event * open_block :=
  match d, ob_block b with
  | DeltaText t, BText text sg => ([EvTextDelta k t], OpenBlock (BText (text ++ t) sg) (ob_index b) (ob_json b))
  | DeltaThinking t, BThinking thinking sg r =>
      ([EvThinkingDelta k t], OpenBlock (BThinking (thinking ++ t) sg r) (ob_index b) (ob_json b))
  | DeltaInput p, BToolCall tc =>
      let partialJson := nullish (ob_json b) [] ++ p in
      ([EvToolDelta k p],
       OpenBlock (BToolCall (ToolCall (tc_id tc) (tc_name tc) (parseStreamingJson partial_parse (Some partialJson))
                    (tc_thoughtSignature tc) (tc_namespace tc))) (ob_index b) (Some partialJson))
  | DeltaSignature s, BThinking thinking sg r =>
      ([], OpenBlock (BThinking thinking (Some (nullish sg [] ++ s)) r) (ob_index b) (ob_json b))
  | _, _ => ([], b)
  end.

Definition close_block (b : open_block) (k : Z) : list event * open_block :=
  match ob_block b with
  | BText t _ => ([EvTextEnd k t], OpenBlock (ob_block b) None (ob_json b))
  | BThinking t _ _ => ([EvThinkingEnd k t], OpenBlock (ob_block b) None (ob_json b))
  | BToolCall tc =>
      let tc' := ToolCall (tc_id tc) (tc_name tc) (parseStreamingJson partial_parse (ob_json b)) (tc_thoughtSignature tc) (tc_namespace tc) in
      ([EvToolEnd k tc'], OpenBlock (BToolCall tc') None None)
  end.

(** [f] on the block with an index, at its position. *)
Definition on_block (index : Z) (f : open_block -> Z -> list event * open_block) (o : output) : list event * output :=
  match findIndex index (o_content o) with
  | Some k =>
      match o_content o !! k with
      | Some b => let '(es, b') := f b (Z.of_nat k) in (es, with_blocks (<[k := b']> (o_content o)) o)
      | None => ([], o)
      end
  | None => ([], o)
  end.

(** [event.usage]: the counts it has replace the ones so far. *)
Definition merge_counts (u : counts) (v : usage) : usage :=
  Usage (nullish (ct_input u) (u_input v)) (nullish (ct_output u) (u_output v)) (nullish (ct_cacheRead u) (u_cacheRead v))
    (nullish (ct_cacheWrite u) (u_cacheWrite v)) (u_totalTokens v) (u_cacheWrite1h v) zero_cost.

Definition on_message_delta (reason explanation : option jstr) (u : option counts) (ts : option (list json)) (o : output)
  : output * result jstr () :=
  let transformations := match ts with Some _ => ts | None => o_transformations o end in
  let raw := match reason with Some _ => reason | None => o_rawStopReason o end in
  match (match reason with Some r => let! s := mapStopReason2 r explanation in Ok (Some s) | None => Ok None end) with
  | Throw e =>
      (Output (o_content o) (o_model o) (o_responseId o) (o_usage o) (o_cost o) (o_reasoning o) (o_stopReason o) raw
         (o_errorMessage o) (o_usageModel o) transformations, Throw e)
  | Ok stop =>
      let u1 := match u with Some u => merge_counts u (o_usage o) | None => o_usage o end in
      let u2 := Usage (u_input u1) (u_output u1) (u_cacheRead u1) (u_cacheWrite u1) (total_tokens u1) (u_cacheWrite1h u1) zero_cost in
      (Output (o_content o) (o_model o) (o_responseId o) u2 (calculateCost (o_usageModel o) u2)
         (match u with Some u => match ct_thinking u with Some t => Some t | None => o_reasoning o end | None => o_reasoning o end)
         (match stop with Some (s, _) => Some s | None => o_stopReason o end) raw
         (match stop with Some (_, Some e) => if truthy e then Some e else o_errorMessage o | _ => o_errorMessage o end)
         (o_usageModel o) transformations, Ok ())
  end.

(** The body of the loop: the events pushed, the message after it, and whether it
    throws. *)
Definition on_event (e : api_event) (o : output) : list event * output * result jstr () :=
  match e with
  | MessageStart id name u ts => ([], on_message_start id name u ts o, Ok ())
  | BlockStart index StartFallback =>
      match o_content o with
      | [] => ([], o, Ok ())
      | _ => ([], o, Throw (js "Anthropic performed an unsupported mid-output model fallback"))
      end
  | BlockStart index b =>
      match new_block index b with
      | Some (ob, ev) => ([ev (Z.of_nat (length (o_content o)))], with_blocks (o_content o ++ [ob]) o, Ok ())
      | None => ([], o, Ok ())
      end
  | BlockDelta index d => let '(es, o') := on_block index (apply_delta d) o in (es, o', Ok ())
  | BlockStop index => let '(es, o') := on_block index close_block o in (es, o', Ok ())
  | MessageDelta reason explanation u ts => let '(o', r) := on_message_delta reason explanation u ts o in ([], o', r)
  | OtherEvent => ([], o, Ok ())
  end.

Fixpoint run_events (evs : list api_event) (o : output) : list event * output * result jstr () :=
  match evs with
  | [] => ([], o, Ok ())
  | e :: r =>
      let '(es, o1, res) := on_event e o in
      match res with
      | Throw x => (es, o1, Throw x)
      | Ok _ => let '(es', o2, res') := run_events r o1 in (es ++ es', o2, res')
      end
  end.

(** A cost that is not finite, which no price gives, reads as zero. *)
Definition finite_cost (d : dollars) : cost :=
  let q n := match n with Finite q => q | _ => 0%Q end in
  Cost (q (d_input d)) (q (d_output d)) (q (d_cacheRead d)) (q (d_cacheWrite d)) (q (d_total d)).

Definition message_of_output (o : output) (stop : stop_reason) (error : option jstr) : assistant :=
  let u := o_usage o in
  Assistant (m_provider m) (m_api m) (o_model o) (map ob_block (o_content o)) stop error
    (Usage (u_input u) (u_output u) (u_cacheRead u) (u_cacheWrite u) (u_totalTokens u) (u_cacheWrite1h u) (finite_cost (o_cost o)))
    now.

(** How the stream ends, given what was pushed so far; [aborted] is what the signal
    says at the end. *)
Definition stream_finish (aborted : bool) (es : list event) (o : output) (r : result jstr ()) : list event * assistant :=
  let fail e :=
    let stop := if aborted then Aborted else Error in
    let msg := message_of_output o stop (Some e) in (es ++ [EvError stop msg], msg) in
  match r with
  | Throw e => fail e
  | Ok _ =>
      if aborted then fail aborted_error
      else
        match o_stopReason o with
        | None => fail (js "Anthropic stream ended without a stop reason")
        | Some Error | Some Aborted =>
            fail (if truthy_opt (o_errorMessage o) then nullish (o_errorMessage o) [] else js "An unknown error occurred")
        | Some stop => let msg := message_of_output o stop (o_errorMessage o) in (es ++ [EvDone stop msg], msg)
        end
  end.

(** [stream3] from the request on: [setup] is how it went, [evs] the events of the
    response and [ending] how they ended. *)
Definition anthropic_stream (setup : result jstr ()) (evs : list api_event) (ending : result jstr ()) (aborted : bool)
  : list event * assistant :=
  match setup with
  | Throw e => stream_finish aborted [] output_init (Throw e)
  | Ok _ =>
      let '(es, o, r) := run_events evs output_init in
      stream_finish aborted (EvStart :: es) o (match r with Ok _ => ending | Throw e => Throw e end)
  end.

(** The same from the bytes of the response; [None] when an event is not as the API
    documents it. *)
Definition anthropic_response (parse_error : jstr -> jstr) (body : option (list (list Z) * read_end)) (aborted : bool)
  : option (list event * assistant) :=
  let '(events, ending) := iterateAnthropicEvents parse_error body in
  evs ← mapM read_event events;
  Some (anthropic_stream (Ok ()) evs ending aborted).

(** The diagnostic of a message whose input the API transformed. *)
Definition transformation_details (o : output) : option (list json) :=
  match o_transformations o with
  | Some (t :: ts) =>
      Some (map (fun t => obj [(js "type", or_nullish (get (js "type") t) None); (js "path", or_nullish (get (js "path") t) None);
                               (js "reason", or_nullish (get (js "reason") t) None)]) (t :: ts))
  | _ => None
  end.
End Stream.

(** * Facts *)

Example stream_ex :
  let evs := [MessageStart (js "m1") (js "claude") (Counts (Some 7) (Some 1) None None None None) None;
    BlockStart 0 (StartText (Some [])); BlockDelta 0 (DeltaText (js "He")); BlockStart 1 (StartToolUse (js "t1") (js "Read") None);
    BlockDelta 1 (DeltaInput (js "{")); BlockDelta 0 (DeltaText (js "y")); BlockStop 0; BlockDelta 1 (DeltaInput (js "}")); BlockStop 1;
    MessageDelta (Some (js "tool_use")) None (Some (Counts None (Some 5) None None None None)) None; OtherEvent] in
  let '(es, msg) := anthropic_stream (fun s => s) (fun _ => None) sample_model None (Some [sample_tool (js "Read")]) true 0 (Ok ()) evs (Ok ()) false in
  es = [EvStart; EvTextStart 0; EvTextDelta 0 (js "He"); EvToolStart 1; EvToolDelta 1 (js "{"); EvTextDelta 0 (js "y");
        EvTextEnd 0 (js "Hey"); EvToolDelta 1 (js "}"); EvToolEnd 1 (ToolCall (js "t1") (js "Read") (JObj []) None None);
        EvDone ToolUse msg] /\
  a_content msg = [BText (js "Hey") None; BToolCall (ToolCall (js "t1") (js "Read") (JObj []) None None)] /\
  u_totalTokens (a_usage msg) = 12.
Proof. vm_compute. done. Qed.

Section Facts.
Context (toLowerCase : jstr -> jstr) (partial_parse : jstr -> option json).
Context (m : model) (c : option compat) (tools : option (list api_tool)) (isOAuth : bool) (now : Z).
#[local] Abbreviation new := (new_block toLowerCase tools isOAuth).
#[local] Abbreviation delta := (apply_delta partial_parse).
#[local] Abbreviation close := (close_block partial_parse).
#[local] Abbreviation step := (on_event toLowerCase partial_parse m c tools isOAuth).
#[local] Abbreviation run := (run_events toLowerCase partial_parse m c tools isOAuth).
#[local] Abbreviation whole_stream := (anthropic_stream toLowerCase partial_parse m c tools isOAuth now).

(** ** One terminal event *)

Lemma on_block_incomplete index f o :
  (forall b k, Forall incomplete (f b k).1) -> Forall incomplete (on_block index f o).1.
Proof.
  intros Hf. unfold on_block. destruct (findIndex index (o_content o)) as [k|]; [|done].
  destruct (o_content o !! k) as [b|]; [|done]. specialize (Hf b (Z.of_nat k)). by destruct (f b (Z.of_nat k)).
Qed.

Lemma delta_incomplete d b k : Forall incomplete (delta d b k).1.
Proof. destruct d, b as [[] ? ?]; cbn; by repeat constructor. Qed.

Lemma close_incomplete b k : Forall incomplete (close b k).1.
Proof. destruct b as [[] ? ?]; cbn; by repeat constructor. Qed.

Lemma step_incomplete e o : Forall incomplete (step e o).1.1.
Proof.
  destruct e as [| index b|index d|index| |]; cbn [on_event]; try (by repeat constructor).
  - destruct b; cbn [new_block]; try (by repeat constructor). by destruct (o_content o).
  - pose proof (on_block_incomplete index (delta d) o (delta_incomplete d)) as H. by destruct (on_block _ _ _).
  - pose proof (on_block_incomplete index close o close_incomplete) as H. by destruct (on_block _ _ _).
  - by destruct (on_message_delta _ _ _ _ _).
Qed.

Lemma run_incomplete evs o : Forall incomplete (run evs o).1.1.
Proof.
  revert o. induction evs as [|e evs IH]; intros o; cbn [run_events]; [done|].
  pose proof (step_incomplete e o) as He. destruct (step e o) as [[es o1] [[]|x]]; [|done].
  specialize (IH o1). destruct (run evs o1) as [[es' o2] r]. by apply Forall_app.
Qed.

Lemma finish_ended aborted es o r :
  Forall incomplete es -> well_ended (stream_finish m now aborted es o r).1 (stream_finish m now aborted es o r).2.
Proof.
  intros He. assert (H : forall e msg, isComplete e = true -> extractResult e = Ok msg -> well_ended (es ++ [e]) msg).
  { intros e msg H1 H2. by exists es, e. }
  unfold stream_finish. destruct r as [[]|e]; [|by apply H]. destruct aborted; [by apply H|].
  destruct (o_stopReason o) as [[]|]; by apply H.
Qed.

(** Every stream ends with exactly one terminal event, which carries its result. *)
Lemma anthropic_stream_ended setup evs ending aborted :
  well_ended (whole_stream setup evs ending aborted).1 (whole_stream setup evs ending aborted).2.
Proof.
  unfold anthropic_stream. destruct setup as [[]|e]; [|by apply finish_ended].
  pose proof (run_incomplete evs (output_init m)) as H.
  destruct (run evs (output_init m)) as [[es o] r]. apply finish_ended. by constructor.
Qed.

(** ** A block on its own *)

(** The state of the block with index [i] and what was streamed of it. *)
Definition block_step (i : Z) (s : option open_block * jstr) (e : api_event) : option open_block * jstr :=
  match e with
  | BlockStart j b =>
      if j =? i then match new i b with Some (ob, _) => (Some ob, []) | None => s end else s
  | BlockDelta j d =>
      match s.1 with
      | Some b => if (j =? i) && bool_decide (ob_index b = Some i)
                  then (Some (delta d b 0).2, s.2 ++ deltas 0 (delta d b 0).1) else s
      | None => s
      end
  | BlockStop j =>
      match s.1 with
      | Some b => if (j =? i) && bool_decide (ob_index b = Some i) then (Some (close b 0).2, s.2) else s
      | None => s
      end
  | _ => s
  end.

Definition block_state (i : Z) (evs : list api_event) : option open_block * jstr := foldl (block_step i) (None, []) evs.

(** The indices in the order in which blocks are opened. *)
Definition opens (e : api_event) : option Z :=
  match e with BlockStart i b => match new i b with Some _ => Some i | None => None end | _ => None end.
Definition started (evs : list api_event) : list Z := omap opens evs.

Definition own_block (pre : list api_event) (i : Z) (b : open_block) : Prop :=
  (block_state i pre).1 = Some b /\ (ob_index b = Some i \/ ob_index b = None).

(** The message holds the blocks, each as if it were alone, and what was streamed
    at a position is what was streamed of its block. *)
Definition blocks_inv (pre : list api_event) (es : list event) (content : list open_block) : Prop :=
  Forall2 (own_block pre) (started pre) content /\
  (forall k i, started pre !! k = Some i -> deltas (Z.of_nat k) es = (block_state i pre).2) /\
  (forall k, (length (started pre) <= k)%nat -> deltas (Z.of_nat k) es = []).

Lemma block_state_snoc i pre e : block_state i (pre ++ [e]) = block_step i (block_state i pre) e.
Proof. unfold block_state. by rewrite foldl_app. Qed.

Lemma started_snoc pre e : started (pre ++ [e]) = started pre ++ option_list (opens e).
Proof. unfold started. rewrite omap_app. simpl. by destruct (opens e). Qed.

Lemma findIndex_Some index blocks k :
  findIndex index blocks = Some k -> exists b, blocks !! k = Some b /\ ob_index b = Some index.
Proof.
  revert k. induction blocks as [|b blocks IH]; intros k H; [done|]. cbn [findIndex] in H.
  case_bool_decide as Hb; [injection H as <-; by exists b|].
  destruct (findIndex index blocks) as [j|]; [|done]. injection H as <-. by apply IH.
Qed.

Lemma findIndex_None index blocks :
  findIndex index blocks = None -> Forall (fun b => ob_index b ≠ Some index) blocks.
Proof.
  induction blocks as [|b blocks IH]; intros H; [done|]. cbn [findIndex] in H.
  case_bool_decide as Hb; [done|]. constructor; [done|]. apply IH. by destruct (findIndex index blocks).
Qed.

Lemma delta_shift d b k : (delta d b k).2 = (delta d b 0).2 /\ deltas k (delta d b k).1 = deltas 0 (delta d b 0).1 /\
  (forall j, j ≠ k -> deltas j (delta d b k).1 = []).
Proof.
  destruct d, b as [[] ? ?]; cbn; rewrite ?Z.eqb_refl; split_and!; try done; intros j Hj;
    by rewrite (proj2 (Z.eqb_neq _ _)) by congruence.
Qed.

Lemma close_shift b k : (close b k).2 = (close b 0).2 /\ (forall j, deltas j (close b k).1 = []).
Proof. by destruct b as [[] ? ?]. Qed.
(** An event of one block changes that block, as the block alone would. *)
Lemma on_block_inv pre es o e index f :
  blocks_inv pre es (o_content o) -> NoDup (started pre) -> opens e = None ->
  (forall b k, (f b k).2 = (f b 0).2 /\ deltas k (f b k).1 = deltas 0 (f b 0).1 /\
     (forall j, j ≠ k -> deltas j (f b k).1 = []) /\ (ob_index (f b 0).2 = ob_index b \/ ob_index (f b 0).2 = None)) ->
  (forall j s, block_step j s e =
     match s.1 with
     | Some b => if (index =? j) && bool_decide (ob_index b = Some j)
                 then (Some (f b 0).2, s.2 ++ deltas 0 (f b 0).1) else s
     | None => s
     end) ->
  blocks_inv (pre ++ [e]) (es ++ (on_block index f o).1) (o_content (on_block index f o).2).
Proof.
  intros (Hown & Hstr & Hrest) HN Hop Hf Hstep. unfold blocks_inv, own_block.
  rewrite started_snoc, Hop, app_nil_r.
  assert (Hother : forall j b, (block_state j pre).1 = Some b -> ob_index b ≠ Some index \/ j ≠ index ->
    block_state j (pre ++ [e]) = block_state j pre).
  { intros j b Hb Hne. rewrite block_state_snoc, Hstep, Hb.
    destruct (Z.eqb_spec index j) as [<-|]; [|done]. case_bool_decide; [|done]. naive_solver. }
  unfold on_block. destruct (findIndex index (o_content o)) as [k|] eqn:Hk.
  - apply findIndex_Some in Hk as (b & Hb & Hi). rewrite Hb.
    destruct (Forall2_lookup_r _ _ _ _ _ Hown Hb) as (i & Hsi & Hbi & Hix).
    assert (i = index) as -> by (destruct Hix; congruence).
    destruct (Hf b (Z.of_nat k)) as (H2 & Hd & Hoth & Hx).
    assert (Hnew : block_state index (pre ++ [e]) = (Some (f b 0).2, (block_state index pre).2 ++ deltas 0 (f b 0).1)).
    { rewrite block_state_snoc, Hstep, Hbi, Z.eqb_refl, bool_decide_true by done. done. }
    destruct (f b (Z.of_nat k)) as [es' b'] eqn:Ef. cbn [fst snd] in *. subst b'. cbn [o_content with_blocks].
    assert (Hneq : forall k' i', started pre !! k' = Some i' -> k' ≠ k -> i' ≠ index).
    { intros k' i' Hk' Hne ->. apply Hne. by eapply NoDup_lookup. }
    split_and!.
    + apply Forall2_same_length_lookup. rewrite length_insert. split; [by eapply Forall2_length|].
      intros k' i' b' Hk' Hb'. destruct (decide (k' = k)) as [->|Hne].
      * rewrite list_lookup_insert_eq in Hb' by (by eapply lookup_lt_Some). simplify_eq. rewrite Hnew. split; [done|].
        destruct Hx as [-> | ->]; [by left|by right].
      * rewrite list_lookup_insert_ne in Hb' by done. destruct (Forall2_lookup_lr _ _ _ _ _ _ Hown Hk' Hb') as [H1 H3].
        rewrite (Hother _ b'); [done|done|]. right. by eapply Hneq.
    + intros k' i' Hk'. rewrite deltas_app. destruct (decide (k' = k)) as [->|Hne].
      * simplify_eq. rewrite Hnew, Hd. cbn [snd]. by rewrite (Hstr k index).
      * rewrite Hoth, app_nil_r by lia. destruct (Forall2_lookup_l _ _ _ _ _ Hown Hk') as (b' & _ & Hb' & _).
        rewrite (Hother _ b'); [by apply Hstr|done|]. right. by eapply Hneq.
    + intros k' Hk'. rewrite deltas_app, Hrest by done. apply Hoth. apply lookup_lt_Some in Hsi. lia.
  - apply findIndex_None in Hk. rewrite app_nil_r. cbn [fst snd].
    assert (Hsame : forall k' i', started pre !! k' = Some i' -> block_state i' (pre ++ [e]) = block_state i' pre).
    { intros k' i' Hk'. destruct (Forall2_lookup_l _ _ _ _ _ Hown Hk') as (b' & Hb' & Hs & _).
      apply (Hother _ b'); [done|]. left. by apply (Forall_lookup_1 _ _ _ _ Hk Hb'). }
    split_and!; [|intros k' i' Hk'; by rewrite (Hsame k' i'), (Hstr k' i')|done].
    apply Forall2_same_length_lookup. split; [by eapply Forall2_length|]. intros k' i' b' Hk' Hb'.
    rewrite (Hsame k' i') by done. exact (Forall2_lookup_lr _ _ _ _ _ _ Hown Hk' Hb').
Qed.

Lemma started_prefix pre evs : NoDup (started (pre ++ evs)) -> NoDup (started pre).
Proof. unfold started. rewrite omap_app. intros H. by apply NoDup_app in H as [? _]. Qed.

Lemma block_opens_inv pre es content i b ob ev e :
  blocks_inv pre es content -> NoDup (started (pre ++ [e])) -> e = BlockStart i b -> new i b = Some (ob, ev) ->
  ob_index ob = Some i -> (forall j, deltas j [ev (Z.of_nat (length content))] = []) ->
  blocks_inv (pre ++ [e]) (es ++ [ev (Z.of_nat (length content))]) (content ++ [ob]).
Proof.
  intros (Hown & Hstr & Hrest) HN -> Hnew Hob Hev.
  assert (Hop : opens (BlockStart i b) = Some i) by (simpl; by rewrite Hnew).
  rewrite started_snoc, Hop in HN. cbn [option_list] in HN. apply NoDup_app in HN as (HN & Hni & _).
  assert (Hi : block_state i (pre ++ [BlockStart i b]) = (Some ob, []))
    by (rewrite block_state_snoc; simpl; by rewrite Z.eqb_refl, Hnew).
  assert (Hoth : forall j, j ∈ started pre -> block_state j (pre ++ [BlockStart i b]) = block_state j pre).
  { intros j Hj. rewrite block_state_snoc. simpl. destruct (Z.eqb_spec i j) as [->|]; [|done].
    exfalso. apply (Hni j Hj). by left. }
  pose proof (Forall2_length _ _ _ Hown) as Hlen.
  unfold blocks_inv, own_block. rewrite started_snoc, Hop. cbn [option_list]. split_and!.
  - apply Forall2_app; [|constructor; [|constructor]; rewrite Hi; by auto].
    apply Forall2_same_length_lookup. split; [done|]. intros k' i' b' Hk' Hb'.
    rewrite Hoth by (by eapply list_elem_of_lookup_2). exact (Forall2_lookup_lr _ _ _ _ _ _ Hown Hk' Hb').
  - intros k' i' Hk'. rewrite deltas_app, Hev, app_nil_r. apply lookup_app_Some in Hk' as [Hk'|[Hl Hk']].
    + rewrite Hoth by (by eapply list_elem_of_lookup_2). by apply Hstr.
    + apply list_lookup_singleton_Some in Hk' as [Hz ->]. rewrite Hi. cbn [snd]. by apply Hrest.
  - intros k' Hk'. rewrite length_app in Hk'. cbn [length] in Hk'. rewrite deltas_app, Hev, Hrest by lia. done.
Qed.

Lemma step_blocks_inv pre es o e es' o' :
  blocks_inv pre es (o_content o) -> NoDup (started (pre ++ [e])) -> step e o = (es', o', Ok ()) ->
  blocks_inv (pre ++ [e]) (es ++ es') (o_content o').
Proof.
  intros Hinv HN Hs. pose proof (started_prefix _ _ HN) as HN'.
  assert (Hskip : opens e = None -> (forall j s, block_step j s e = s) -> blocks_inv (pre ++ [e]) es (o_content o)).
  { intros Hop Hst. destruct Hinv as (Hown & Hstr & Hrest). unfold blocks_inv, own_block.
    assert (Heq : forall j, block_state j (pre ++ [e]) = block_state j pre) by (intros j; by rewrite block_state_snoc, Hst).
    rewrite started_snoc, Hop, app_nil_r. split_and!; [|intros k j Hj; rewrite Heq; by apply Hstr|done].
    eapply Forall2_impl; [exact Hown|]. intros j b. by rewrite Heq. }
  destruct e as [id n u ts|i b|i d|i|r x u ts|]; cbn [on_event] in Hs.
  - simplify_eq. rewrite app_nil_r. by apply Hskip.
  - destruct b as [t|t sg|d|id nm inp| |]; cbn [new_block] in Hs.
    1-4: simplify_eq; by eapply block_opens_inv.
    + destruct (o_content o) eqn:E; simplify_eq. rewrite app_nil_r, E in *. apply Hskip; [done|].
      intros j s. simpl. by destruct (i =? j).
    + simplify_eq. rewrite app_nil_r. apply Hskip; [done|]. intros j s. simpl. by destruct (i =? j).
  - pose proof (on_block_inv pre es o (BlockDelta i d) i (delta d) Hinv HN' eq_refl) as H.
    destruct (on_block i (delta d) o) as [es1 o1]. simplify_eq. apply H.
    + intros b k. destruct (delta_shift d b k) as (H1 & H2 & H3). refine (conj H1 (conj H2 (conj H3 _))). left. by destruct d, b as [[] ? ?].
    + intros j s. simpl. by destruct (s.1).
  - pose proof (on_block_inv pre es o (BlockStop i) i close Hinv HN' eq_refl) as H.
    destruct (on_block i close o) as [es1 o1]. simplify_eq. apply H.
    + intros b k. destruct (close_shift b k) as (H1 & H2). refine (conj H1 (conj _ (conj (fun j _ => H2 j) _))); [by rewrite H2, (proj2 (close_shift b 0))|right; by destruct b as [[] ? ?]].
    + intros j s. simpl. destruct (s.1) as [b|]; [|done]. rewrite (proj2 (close_shift b 0)), app_nil_r. done.
  - unfold on_message_delta in Hs. destruct (match r with Some _ => _ | None => _ end); simplify_eq.
    rewrite app_nil_r. by apply Hskip.
  - simplify_eq. rewrite app_nil_r. by apply Hskip.
Qed.

Lemma run_blocks_inv evs pre es o es' o' :
  blocks_inv pre es (o_content o) -> NoDup (started (pre ++ evs)) -> run evs o = (es', o', Ok ()) ->
  blocks_inv (pre ++ evs) (es ++ es') (o_content o').
Proof.
  revert pre es o es'. induction evs as [|e evs IH]; intros pre es o es' Hinv HN Hr.
  - simplify_eq/=. by rewrite !app_nil_r.
  - cbn [run_events] in Hr. destruct (step e o) as [[es1 o1] [[]|x]] eqn:Es; [|done].
    destruct (run evs o1) as [[es2 o2] r2] eqn:Er. simplify_eq.
    replace (pre ++ e :: evs) with ((pre ++ [e]) ++ evs) in * by (by rewrite <- app_assoc).
    rewrite app_assoc. apply (IH (pre ++ [e]) (es ++ es1) o1); [|done|done].
    apply (step_blocks_inv pre es o e es1 o1); [done|by eapply started_prefix|done].
Qed.
(** ** What a block says *)

Definition texts (ds : list block_delta) : jstr := ds ≫= fun d => match d with DeltaText t => t | _ => [] end.
Definition thoughts (ds : list block_delta) : jstr := ds ≫= fun d => match d with DeltaThinking t => t | _ => [] end.
Definition inputs (ds : list block_delta) : jstr := ds ≫= fun d => match d with DeltaInput p => p | _ => [] end.
Definition signatures (ds : list block_delta) : jstr := ds ≫= fun d => match d with DeltaSignature g => g | _ => [] end.

(** The block that a start and its deltas describe. *)
Definition said (b : block_start) (ds : list block_delta) : option block :=
  match b with
  | StartText t => Some (BText (nullish t [] ++ texts ds) None)
  | StartThinking t g => Some (BThinking (nullish t [] ++ thoughts ds) (Some (nullish g [] ++ signatures ds)) false)
  | StartRedacted d => Some (BThinking (js "[Reasoning redacted]" ++ thoughts ds) (Some (d ++ signatures ds)) true)
  | StartToolUse id name _ =>
      Some (BToolCall (ToolCall id (if isOAuth then fromClaudeCodeName toLowerCase name tools else name)
              (parseStreamingJson partial_parse (Some (inputs ds))) None None))
  | StartFallback | StartOther => None
  end.

Definition streamed (b : block_start) (ds : list block_delta) : jstr :=
  match b with
  | StartText _ => texts ds
  | StartThinking _ _ | StartRedacted _ => thoughts ds
  | StartToolUse _ _ _ => inputs ds
  | _ => []
  end.

#[local] Abbreviation fold_deltas i s ds := (foldl (block_step i) s (map (BlockDelta i) ds)).

Lemma fold_text i ds t g out :
  fold_deltas i (Some (OpenBlock (BText t g) (Some i) None), out) ds =
  (Some (OpenBlock (BText (t ++ texts ds) g) (Some i) None), out ++ texts ds).
Proof.
  revert t out. induction ds as [|d ds IH]; intros t out; [by rewrite !app_nil_r|].
  cbn [map foldl block_step fst snd ob_index]. rewrite Z.eqb_refl, bool_decide_true by done. cbn [andb].
  destruct d; cbn -[texts]; rewrite ?app_nil_r, IH; try done; by rewrite <- !app_assoc.
Qed.

Lemma fold_thinking i ds t g r out :
  fold_deltas i (Some (OpenBlock (BThinking t (Some g) r) (Some i) None), out) ds =
  (Some (OpenBlock (BThinking (t ++ thoughts ds) (Some (g ++ signatures ds)) r) (Some i) None), out ++ thoughts ds).
Proof.
  revert t g out. induction ds as [|d ds IH]; intros t g out; [by rewrite !app_nil_r|].
  cbn [map foldl block_step fst snd ob_index]. rewrite Z.eqb_refl, bool_decide_true by done. cbn [andb].
  destruct d; cbn -[thoughts signatures]; rewrite ?app_nil_r, IH; try done; by rewrite <- !app_assoc.
Qed.

Lemma fold_tool i ds id n a ts ns j out :
  exists a', fold_deltas i (Some (OpenBlock (BToolCall (ToolCall id n a ts ns)) (Some i) (Some j)), out) ds =
  (Some (OpenBlock (BToolCall (ToolCall id n a' ts ns)) (Some i) (Some (j ++ inputs ds))), out ++ inputs ds).
Proof.
  revert a j out. induction ds as [|d ds IH]; intros a j out; [exists a; by rewrite !app_nil_r|].
  cbn [map foldl block_step fst snd ob_index]. rewrite Z.eqb_refl, bool_decide_true by done. cbn [andb].
  destruct d; cbn -[inputs parseStreamingJson]; rewrite ?app_nil_r;
    match goal with |- context [(Some (OpenBlock (BToolCall (ToolCall _ _ ?a1 _ _)) _ (Some ?j1)), ?o1)] => destruct (IH a1 j1 o1) as [a' ->] end;
    exists a'; try done; by rewrite <- !app_assoc.
Qed.

Lemma block_alone i b ds blk :
  said b ds = Some blk ->
  block_state i (BlockStart i b :: map (BlockDelta i) ds ++ [BlockStop i]) = (Some (OpenBlock blk None None), streamed b ds).
Proof.
  intros Hs. unfold block_state. cbn [foldl block_step]. rewrite Z.eqb_refl.
  destruct b as [t|t g|d|id n inp| |]; cbn [new_block said] in *; simplify_eq; rewrite foldl_app.
  1: rewrite fold_text. 2: rewrite fold_thinking. 3: rewrite fold_thinking.
  4: destruct (fold_tool i ds id (if isOAuth then fromClaudeCodeName toLowerCase n tools else n) (nullish inp (JObj [])) None None [] [])
    as [a' ->].
  all: cbn [foldl block_step fst snd ob_index]; rewrite Z.eqb_refl, bool_decide_true by done; done.
Qed.

(** The events of one block. *)
Definition of_block (i : Z) (e : api_event) : bool :=
  match e with BlockStart j _ | BlockDelta j _ | BlockStop j => j =? i | _ => false end.

Lemma block_state_filter i evs : block_state i evs = block_state i (List.filter (of_block i) evs).
Proof.
  unfold block_state. generalize (@None open_block, @nil Z) as s. induction evs as [|e evs IH]; intros s; [done|].
  cbn [List.filter foldl]. destruct (of_block i e) eqn:E; [apply IH|].
  assert (Hid : block_step i s e = s).
  { destruct e; cbn in *; try done; rewrite ?E; try done; by destruct (s.1). }
  rewrite Hid. apply IH.
Qed.

(** ** Responses that complete *)

(** An event after which the loop goes on: no fallback in the middle, and a stop
    reason that is known and no error. *)
Definition goes_on (e : api_event) : Prop :=
  match e with
  | BlockStart _ StartFallback => False
  | MessageDelta (Some r) x _ _ => exists stop, mapStopReason2 r x = Ok (stop, None)
  | _ => True
  end.

Definition reason_of (e : api_event) : option jstr := match e with MessageDelta r _ _ _ => r | _ => None end.

Lemma mapStopReason2_fine r x stop : mapStopReason2 r x = Ok (stop, None) -> stop = Stop \/ stop = Length \/ stop = ToolUse.
Proof. unfold mapStopReason2. repeat case_match; intros; simplify_eq; auto. Qed.

Lemma mapStopReason2_explained r x y stop : mapStopReason2 r x = Ok (stop, None) -> mapStopReason2 r y = Ok (stop, None).
Proof. unfold mapStopReason2. repeat case_match; intros; simplify_eq; auto. Qed.

Lemma step_goes_on e o :
  goes_on e ->
  exists es o', step e o = (es, o', Ok ()) /\ o_errorMessage o' = o_errorMessage o /\
    match reason_of e with
    | Some r => exists stop, mapStopReason2 r None = Ok (stop, None) /\ o_stopReason o' = Some stop
    | None => o_stopReason o' = o_stopReason o
    end /\
    (u_totalTokens (o_usage o) = total_tokens (o_usage o) -> u_totalTokens (o_usage o') = total_tokens (o_usage o')).
Proof.
  intros Hg. assert (Hblock : forall index f, exists es o', on_block index f o = (es, o') /\ o_errorMessage o' = o_errorMessage o /\
    o_stopReason o' = o_stopReason o /\ o_usage o' = o_usage o).
  { intros index f. unfold on_block. destruct (findIndex index (o_content o)) as [k|]; [|by eauto 10].
    destruct (o_content o !! k) as [b|]; [|by eauto 10]. destruct (f b (Z.of_nat k)) as [es b']. by eexists es, _. }
  destruct e as [id n u ts|i b|i d|i|r x u ts|]; cbn [on_event reason_of].
  - eexists [], _. by split_and!.
  - destruct b; cbn [new_block]; try done; eexists _, _; by split_and!.
  - destruct (Hblock i (delta d)) as (es & o' & -> & H1 & H2 & H3). exists es, o'. rewrite H3. by split_and!.
  - destruct (Hblock i close) as (es & o' & -> & H1 & H2 & H3). exists es, o'. rewrite H3. by split_and!.
  - unfold on_message_delta. destruct r as [r|]; cbn [goes_on] in Hg.
    + destruct Hg as [stop Hs]. rewrite Hs. cbn [bind]. eexists [], _. split_and!; try done.
      exists stop. split; [by eapply mapStopReason2_explained|done].
    + eexists [], _. by split_and!.
  - eexists [], _. by split_and!.
Qed.

Lemma run_goes_on evs o :
  Forall goes_on evs ->
  exists es o', run evs o = (es, o', Ok ()) /\ o_errorMessage o' = o_errorMessage o /\
    match last (omap reason_of evs) with
    | Some r => exists stop, mapStopReason2 r None = Ok (stop, None) /\ o_stopReason o' = Some stop
    | None => o_stopReason o' = o_stopReason o
    end /\
    (u_totalTokens (o_usage o) = total_tokens (o_usage o) -> u_totalTokens (o_usage o') = total_tokens (o_usage o')).
Proof.
  intros HF. revert o. induction HF as [|e evs He HF IH]; intros o; [by eexists [], o|].
  destruct (step_goes_on e o He) as (es1 & o1 & Hs & He1 & Hr1 & Hu1). cbn [run_events]. rewrite Hs.
  destruct (IH o1) as (es2 & o2 & -> & He2 & Hr2 & Hu2). eexists _, o2. split_and!; [done|congruence| |by auto].
  cbn [omap list_omap]. change (list_omap api_event jstr reason_of evs) with (omap reason_of evs).
  destruct (last (omap reason_of evs)) as [r|] eqn:El.
  - destruct (reason_of e); [|by rewrite El]. rewrite last_cons, El. done.
  - apply last_None in El. rewrite El. destruct (reason_of e); simpl; [|congruence].
    destruct Hr1 as (stop & ? & ?). exists stop. split; [done|congruence].
Qed.

(** The block of a message that a start, its deltas and its stop describe. *)
Lemma described_block evs es o k i b ds :
  blocks_inv evs es (o_content o) -> started evs !! k = Some i ->
  List.filter (of_block i) evs = BlockStart i b :: map (BlockDelta i) ds ++ [BlockStop i] ->
  exists blk, o_content o !! k = Some (OpenBlock blk None None) /\ said b ds = Some blk /\
    deltas (Z.of_nat k) es = streamed b ds.
Proof.
  intros (Hown & Hstr & _) Hi Hf. destruct (Forall2_lookup_l _ _ _ _ _ Hown Hi) as (ob & Hob & Hb & _).
  assert (Hsome : exists blk, said b ds = Some blk).
  { assert (Hx : i ∈ started evs) by (by eapply list_elem_of_lookup_2). unfold started in Hx.
    apply list_elem_of_omap in Hx as (e & Hin & Hop). destruct e as [|i' b'| | | |]; try done. cbn [opens] in Hop.
    destruct (new i' b') as [[ob' ev]|] eqn:En; [|done]. injection Hop as ->.
    assert (Hin' : BlockStart i b' ∈ List.filter (of_block i) evs).
    { apply list_elem_of_In, filter_In. split; [by apply list_elem_of_In|]. simpl. by rewrite Z.eqb_refl. }
    rewrite Hf in Hin'. apply elem_of_cons in Hin' as [Heq|Hin'].
    - injection Heq as ->. destruct b; simpl in *; try done; by eexists.
    - apply elem_of_app in Hin' as [Hin'|Hin']; [by apply list_elem_of_fmap in Hin' as (? & ? & ?)|set_solver]. }
  destruct Hsome as [blk Hsome]. exists blk.
  assert (Hbs : block_state i evs = (Some (OpenBlock blk None None), streamed b ds))
    by (rewrite block_state_filter, Hf; by apply block_alone).
  rewrite Hbs in Hb. cbn [fst] in Hb. simplify_eq. by rewrite (Hstr k i Hi), Hbs.
Qed.

(** C21: A response is turned into the message it describes.  For every response
    whose blocks each consist of a start, deltas and a stop, in any interleaving
    with other blocks and events, and that ends with a known stop reason: the
    stream ends with [done] and that reason; the blocks of the message are, in the
    order of their starts, what each start and its deltas say; what was streamed
    live for each position is what its deltas say; and the total of the tokens is
    their sum. *)
Theorem anthropic_message_faithful evs (blocks : list (Z * block_start * list block_delta)) r :
  Forall goes_on evs -> last (omap reason_of evs) = Some r ->
  started evs = map (fun x => x.1.1) blocks -> NoDup (started evs) ->
  Forall (fun x => List.filter (of_block x.1.1) evs =
    BlockStart x.1.1 x.1.2 :: map (BlockDelta x.1.1) x.2 ++ [BlockStop x.1.1]) blocks ->
  exists es stop msg,
    whole_stream (Ok ()) evs (Ok ()) false = (EvStart :: es ++ [EvDone stop msg], msg) /\
    mapStopReason2 r None = Ok (stop, None) /\ a_stopReason msg = stop /\ a_errorMessage msg = None /\
    Forall2 (fun x b => said x.1.2 x.2 = Some b) blocks (a_content msg) /\
    (forall k x, blocks !! k = Some x -> deltas (Z.of_nat k) es = streamed x.1.2 x.2) /\
    u_totalTokens (a_usage msg) = total_tokens (a_usage msg).
Proof.
  intros HF Hr Hst HN Hbl. unfold anthropic_stream.
  destruct (run_goes_on evs (output_init m) HF) as (es & o & Hrun & He & Hs & Hu). rewrite Hr in Hs.
  destruct Hs as (stop & Hmap & Hstop).
  pose proof (run_blocks_inv evs [] [] (output_init m) es o) as Hinv. cbn [app] in Hinv.
  assert (Hinv' : blocks_inv evs es (o_content o)) by (apply Hinv; [split_and!; [constructor|done|done]|done|done]).
  rewrite Hrun. unfold stream_finish. rewrite Hstop. exists es, stop, (message_of_output m now o stop (o_errorMessage o)).
  assert (Hsaid : forall k x, blocks !! k = Some x -> exists blk, o_content o !! k = Some (OpenBlock blk None None) /\
    said x.1.2 x.2 = Some blk /\ deltas (Z.of_nat k) es = streamed x.1.2 x.2).
  { intros k x Hk. apply (described_block evs es o k x.1.1); [done|by rewrite Hst, list_lookup_fmap, Hk|].
    exact (Forall_lookup_1 _ _ _ _ Hbl Hk). }
  split; [by destruct (mapStopReason2_fine _ _ _ Hmap) as [->|[->| ->]]|]. split_and!; try done.
  - cbn [message_of_output a_content]. apply Forall2_same_length_lookup. rewrite length_map. split.
    + destruct Hinv' as (Hown & _). apply Forall2_length in Hown. by rewrite <- Hown, Hst, length_map.
    + intros k x b Hk Hb. destruct (Hsaid k x Hk) as (b' & Ho & Hsd & _).
      rewrite list_lookup_fmap, Ho in Hb. cbn in Hb. by simplify_eq.
  - intros k x Hk. by destruct (Hsaid k x Hk) as (b' & _ & _ & Hd).
  - cbn [message_of_output a_usage u_totalTokens]. by apply Hu.
Qed.

(** ** Responses that do not complete *)

Lemma events_end_with_stop parse_error messages finally sawStart sawEnd :
  let '(events, r) := anthropic_events parse_error messages finally sawStart sawEnd in
  r = Ok () -> sawStart || existsb (has_type (js "message_start")) events = true ->
  sawEnd || existsb (has_type (js "message_stop")) events = true.
Proof.
  revert sawStart sawEnd. induction messages as [|sse more IH]; intros sawStart sawEnd; cbn [anthropic_events].
  - rewrite !orb_false_r. destruct finally as [[]|]; [|done]. by destruct sawStart, sawEnd.
  - case_bool_decide; [done|]. destruct (negb _); [apply IH|].
    destruct (parseJsonWithRepair (sm_data sse)) as [v|]; [|done].
    assert (Hgo : forall event, let '(events, r) :=
      (let '(events, r) := anthropic_events parse_error more finally (sawStart || has_type (js "message_start") event)
         (sawEnd || negb (has_type (js "message_start") event) && has_type (js "message_stop") event) in (event :: events, r)) in
      r = Ok () -> sawStart || existsb (has_type (js "message_start")) events = true ->
      sawEnd || existsb (has_type (js "message_stop")) events = true).
    { intros event. specialize (IH (sawStart || has_type (js "message_start") event)
        (sawEnd || negb (has_type (js "message_start") event) && has_type (js "message_stop") event)).
      destruct (anthropic_events parse_error more _ _ _) as [events r]. intros -> Hs. cbn [existsb] in *.
      rewrite orb_assoc in Hs. specialize (IH eq_refl Hs). rewrite <- orb_assoc in IH.
      apply orb_true_iff in IH as [->|IH]; [done|].
      apply orb_true_iff in IH as [IH| ->]; [apply andb_true_iff in IH as [_ ->]; by rewrite orb_true_r|by rewrite !orb_true_r]. }
    destruct v; [done|apply Hgo..].
Qed.

(** A response that is cut off is never taken for a complete one: when the
    events of its body have a [message_start] and no [message_stop], whatever was
    received in between and however the bytes were cut, the stream ends with an
    error event. *)
Theorem truncated_response_fails parse_error body aborted es msg :
  anthropic_response toLowerCase partial_parse m c tools isOAuth now parse_error body aborted = Some (es, msg) ->
  let events := (iterateAnthropicEvents parse_error body).1 in
  existsb (has_type (js "message_start")) events = true -> existsb (has_type (js "message_stop")) events = false ->
  exists init stop, es = init ++ [EvError stop msg] /\ a_stopReason msg = stop /\ stop = if aborted then Aborted else Error.
Proof.
  unfold anthropic_response. destruct (iterateAnthropicEvents parse_error body) as [events ending] eqn:Ei. cbn [fst].
  intros H Hs He. assert (Hend : exists e, ending = Throw e).
  { unfold iterateAnthropicEvents in Ei. destruct body as [[chunks re]|]; [|simplify_eq; done].
    destruct (iterateSseMessages chunks re) as [messages finally].
    pose proof (events_end_with_stop parse_error messages finally false false) as Hx. rewrite Ei in Hx. cbn [orb] in Hx.
    destruct ending as [[]|e]; [|by eauto]. rewrite (Hx eq_refl Hs) in He. done. }
  destruct Hend as [e ->]. destruct (mapM read_event events) as [evs|]; [|done]. cbn [mbind option_bind] in H.
  unfold anthropic_stream in H. destruct (run evs (output_init m)) as [[es1 o] r].
  destruct r; cbn [stream_finish] in H; simplify_eq; by eexists (EvStart :: es1), _.
Qed.
End Facts.

(** ** A response *)

Definition sample_events : list api_event :=
  [MessageStart (js "m1") (js "claude") (Counts (Some 7) (Some 1) None None None None) None;
   BlockStart 0 (StartThinking None None); BlockDelta 0 (DeltaThinking (js "hm")); BlockStart 1 (StartToolUse (js "t") (js "read") None);
   BlockDelta 1 (DeltaInput (js "{")); BlockDelta 0 (DeltaSignature (js "sg")); BlockStop 0;
   BlockDelta 1 (DeltaInput (js "}")); BlockStop 1; MessageDelta (Some (js "tool_use")) None None None; OtherEvent].

Lemma anthropic_message_faithful_witness :
  exists es msg,
    anthropic_stream (fun s => s) (fun _ => None) sample_model None None false 0 (Ok ()) sample_events (Ok ()) false =
      (EvStart :: es ++ [EvDone ToolUse msg], msg) /\
    Forall2 (fun x b => said (fun s => s) (fun _ => None) None false x.1.2 x.2 = Some b)
      [(0, StartThinking None None, [DeltaThinking (js "hm"); DeltaSignature (js "sg")]);
       (1, StartToolUse (js "t") (js "read") None, [DeltaInput (js "{"); DeltaInput (js "}")])] (a_content msg).
Proof.
  destruct (anthropic_message_faithful (fun s => s) (fun _ => None) sample_model None None false 0 sample_events
    [(0, StartThinking None None, [DeltaThinking (js "hm"); DeltaSignature (js "sg")]);
     (1, StartToolUse (js "t") (js "read") None, [DeltaInput (js "{"); DeltaInput (js "}")])] (js "tool_use"))
    as (es & stop & msg & Hs & Hm & _ & _ & Hc & _).
  - unfold sample_events. repeat (apply Forall_cons_2; [try exact I|]); [|apply Forall_nil_2]. exists ToolUse. reflexivity.
  - reflexivity.
  - reflexivity.
  - apply (bool_decide_unpack _). vm_compute. exact I.
  - repeat (apply Forall_cons_2; [reflexivity|]). apply Forall_nil_2.
  - vm_compute in Hm. injection Hm as <-. exists es, msg. split; [exact Hs|exact Hc].
Defined.

(** The bytes of a response that stops after its first event. *)
Definition cut_response : list Z :=
  utf8_encode (js "event: message_start" ++ [LF] ++ js "data: " ++
    ((js "{'type':'message_start','message':{'id':'m1','model':'claude','usage':{'input_tokens':3}}}")
       ≫= fun x => if x =? 39 then [34] else [x]) ++ [LF; LF]).

Lemma truncated_response_fails_witness :
  exists es msg, anthropic_response (fun s => s) (fun _ => None) sample_model None None false 0 (fun s => s)
    (Some ([cut_response], ReadDone)) false = Some (es, msg) /\ a_stopReason msg = Error.
Proof.
  destruct (anthropic_response (fun s => s) (fun _ => None) sample_model None None false 0 (fun s => s)
    (Some ([cut_response], ReadDone)) false) as [[es msg]|] eqn:E; [|vm_compute in E; discriminate].
  exists es, msg. split; [reflexivity|].
  destruct (truncated_response_fails (fun s => s) (fun _ => None) sample_model None None false 0 (fun s => s)
    (Some ([cut_response], ReadDone)) false es msg E) as (init & stop & _ & Hs & Hx).
  - vm_compute. reflexivity.
  - vm_compute. reflexivity.
  - rewrite Hs. exact Hx.
Defined.

(** ** Failures *)

(** The input of a tool call that comes with its start, and without deltas, is
    replaced by an empty object when the block ends. *)
Lemma start_input_lost :
  a_content (anthropic_stream (fun s => s) (fun _ => None) sample_model None None false 0 (Ok ())
    [BlockStart 0 (StartToolUse (js "t") (js "read") (Some (JObj [(js "path", JStr (js "a"))]))); BlockStop 0;
     MessageDelta (Some (js "tool_use")) None None None] (Ok ()) false).2 =
  [BToolCall (ToolCall (js "t") (js "read") (JObj []) None None)].
Proof. vm_compute. reflexivity. Qed.
