(* ===== verification/StreamMonad.v ===== *)
(** Code that fills an [AssistantMessageEventStream]: it pushes events, changes the
    variables of its closure and may throw.  The streams of the chat completions
    and of the responses API are written in this monad; the state is what their
    closures share, and what was pushed and changed before a throw is kept, as it
    is in JavaScript. *)
From S2P Require Import Prelude Messages EventStream Faux.
Open Scope Z_scope.

Definition streamM (S A : Type) : Type := S -> list event * S * result jstr A.

Definition ret {S A} (a : A) : streamM S A := fun s => ([], s, Ok a).

Definition bind_m {S A B} (x : streamM S A) (k : A -> streamM S B) : streamM S B := fun s =>
  let '(es, s1, r) := x s in
  match r with
  | Ok a => let '(es', s2, r') := k a s1 in (es ++ es', s2, r')
  | Throw e => (es, s1, Throw e)
  end.

Definition push_m {S} (e : event) : streamM S () := fun s => ([e], s, Ok ()).
Definition modify_m {S} (f : S -> S) : streamM S () := fun s => ([], f s, Ok ()).
Definition state_m {S} : streamM S S := fun s => ([], s, Ok s).
Definition throw_m {S A} (e : jstr) : streamM S A := fun s => ([], s, Throw e).
Definition lift_m {S A} (r : result jstr A) : streamM S A := fun s => ([], s, r).

Declare Scope stream_scope.
Delimit Scope stream_scope with stream.
Notation "'let*' x := m 'in' k" := (bind_m m (fun x => k))
  (at level 10, x pattern, m at level 100, k at level 200) : stream_scope.
Open Scope stream_scope.

Fixpoint each_m {S A} (f : A -> streamM S ()) (l : list A) : streamM S () :=
  match l with [] => ret () | x :: r => let* _ := f x in each_m f r end.

Definition when_m {S} (b : bool) (x : streamM S ()) : streamM S () := if b then x else ret ().

(** ** Laws *)

Section Laws.
Context {S : Type}.

Lemma bind_assoc_m {A B C} (x : streamM S A) (f : A -> streamM S B) (g : B -> streamM S C) s :
  bind_m (bind_m x f) g s = bind_m x (fun a => bind_m (f a) g) s.
Proof.
  unfold bind_m. destruct (x s) as [[es s1] [a|e]]; [|done]. destruct (f a s1) as [[es1 s2] [b|e]]; [|done].
  destruct (g b s2) as [[es2 s3] r]. by rewrite app_assoc.
Qed.

Lemma bind_ret_m {A B} (a : A) (k : A -> streamM S B) s : bind_m (ret a) k s = k a s.
Proof. unfold bind_m, ret. by destruct (k a s) as [[es s1] r]. Qed.

Lemma bind_modify_m {A} (f : S -> S) (k : () -> streamM S A) s : bind_m (modify_m f) k s = k () (f s).
Proof. unfold bind_m, modify_m. by destruct (k () (f s)) as [[es s1] r]. Qed.

Lemma bind_ext_m {A B} (x : streamM S A) (f g : A -> streamM S B) s : (forall a s, f a s = g a s) -> bind_m x f s = bind_m x g s.
Proof. intros H. unfold bind_m. destruct (x s) as [[es s1] [a|e]]; [|done]. by rewrite H. Qed.

Lemma each_snoc {A} (f : A -> streamM S ()) l x s es s1 es' s2 r :
  each_m f l s = (es, s1, Ok ()) -> f x s1 = (es', s2, r) -> each_m f (l ++ [x]) s = (es ++ es', s2, r).
Proof.
  revert s es. induction l as [|y l IH]; intros s es; cbn [app each_m].
  - unfold ret. intros [= <- <-] H. unfold bind_m. rewrite H. destruct r as [[]|]; [|done]. by rewrite app_nil_r.
  - unfold bind_m. destruct (f y s) as [[e1 t1] [[]|]]; [|done]. destruct (each_m f l t1) as [[e2 t2] r2] eqn:E.
    intros [= <- <- ->] H. rewrite (IH _ _ E H). by rewrite app_assoc.
Qed.

Lemma each_snoc_inv {A} (f : A -> streamM S ()) l x s es s2 r :
  each_m f (l ++ [x]) s = (es, s2, Ok r) -> exists e1 s1 e2, each_m f l s = (e1, s1, Ok ()) /\ f x s1 = (e2, s2, Ok r).
Proof.
  revert s es. induction l as [|y l IH]; intros s es; cbn [app each_m]; unfold bind_m.
  - destruct (f x s) as [[e1 t1] [[]|]] eqn:E; [|done]. unfold ret. intros [= <- <- <-]. by eexists _, _, _.
  - destruct (f y s) as [[e1 t1] [[]|]]; [|done]. destruct (each_m f (l ++ [x]) t1) as [[e2 t2] r2] eqn:E.
    intros [= <- <- ->]. destruct (IH _ _ E) as (e3 & s3 & e4 & H1 & H2). rewrite H1. by eexists _, _, _.
Qed.

End Laws.

(** ** Code that does not end the stream *)

(** All events pushed satisfy [P], even when it throws. *)
Definition emits {S A} (P : event -> Prop) (x : streamM S A) : Prop := forall s, Forall P (x s).1.1.

Abbreviation quiet := (emits incomplete).

(** An event inside a response. *)
Definition inner (e : event) : Prop := incomplete e /\ e ≠ EvStart.

Lemma inner_incomplete es : Forall inner es -> Forall incomplete es.
Proof. intros H. eapply Forall_impl; [exact H|]. by intros e []. Qed.

Section Quiet.
Context {S : Type} (P : event -> Prop).

Lemma emits_bind {A B} (x : streamM S A) (k : A -> streamM S B) : emits P x -> (forall a, emits P (k a)) -> emits P (bind_m x k).
Proof.
  intros Hx Hk s. unfold bind_m. specialize (Hx s). destruct (x s) as [[es s1] [a|e]]; [|done].
  specialize (Hk a s1). destruct (k a s1) as [[es' s2] r]. by apply Forall_app.
Qed.

Lemma emits_push e : P e -> emits (S := S) P (push_m e).
Proof. intros He s. by repeat constructor. Qed.

Lemma emits_silent {A} (x : streamM S A) : (forall s, (x s).1.1 = []) -> emits P x.
Proof. intros H s. by rewrite H. Qed.

Lemma emits_lift {A B} (x : result jstr A) (k : A -> streamM S B) : (forall a, x = Ok a -> emits P (k a)) -> emits P (bind_m (lift_m x) k).
Proof.
  intros Hk s. unfold bind_m, lift_m. destruct x as [a|e]; [|done]. specialize (Hk a eq_refl s). destruct (k a s) as [[es s1] r]. done.
Qed.

Lemma emits_pushes es : Forall P es -> emits (S := S) P (each_m push_m es).
Proof. induction 1; [by apply emits_silent|]. apply emits_bind; [by apply emits_push|done]. Qed.

Lemma emits_each {A} (f : A -> streamM S ()) l : (forall a, emits P (f a)) -> emits P (each_m f l).
Proof. intros Hf. induction l as [|a l IH]; [by apply emits_silent|]. by apply emits_bind. Qed.

End Quiet.

Ltac quiet_step :=
  match goal with
  | |- emits _ (bind_m (lift_m _) _) => apply emits_lift; intros ? ?
  | |- emits _ (bind_m _ _) => apply emits_bind; [|intros ?]
  | |- emits _ (push_m _) => by apply emits_push
  | |- emits _ (each_m _ _) => apply emits_each; intros ?
  | |- emits _ (when_m ?b _) => unfold when_m; destruct b
  | |- emits _ (match ?x with _ => _ end) => destruct x
  | |- emits _ (let _ := _ in _) => cbv zeta
  | |- emits _ _ => by apply emits_silent
  end.

(** ** Code that leaves a part of the state as it is, even when it throws *)

Definition keeps {S V A} (part : S -> V) (x : streamM S A) : Prop := forall s, part (x s).1.2 = part s.

Section Keeps.
Context {S V : Type} (part : S -> V).

Lemma keeps_bind {A B} (x : streamM S A) (k : A -> streamM S B) :
  keeps part x -> (forall a, keeps part (k a)) -> keeps part (bind_m x k).
Proof.
  intros Hx Hk s. unfold bind_m. specialize (Hx s). destruct (x s) as [[es s1] [a|e]]; [|done].
  specialize (Hk a s1). destruct (k a s1) as [[es' s2] r]. cbn in *. congruence.
Qed.

Lemma keeps_each {A} (f : A -> streamM S ()) l : (forall a, keeps part (f a)) -> keeps part (each_m f l).
Proof. intros Hf. induction l as [|a l IH]; [by intros s|]. by apply keeps_bind. Qed.

End Keeps.

Ltac keeps_step :=
  match goal with
  | |- keeps _ (bind_m _ _) => apply keeps_bind; [|intros ?]
  | |- keeps _ (each_m _ _) => apply keeps_each; intros ?
  | |- keeps _ (when_m ?b _) => unfold when_m; destruct b
  | |- keeps _ (match ?x with _ => _ end) => destruct x
  | |- keeps _ (let _ := _ in _) => cbv zeta
  | |- keeps _ (modify_m _) => intros ?; cbn; by repeat case_match
  | |- keeps _ _ => by intros ?
  end.

(** ** Code that keeps an invariant of the state, even when it throws *)

Definition maintains {S A} (P : S -> Prop) (x : streamM S A) : Prop := forall s, P s -> P (x s).1.2.

Section Maintains.
Context {S : Type} (P : S -> Prop).

Lemma maintains_bind {A B} (x : streamM S A) (k : A -> streamM S B) :
  maintains P x -> (forall a, maintains P (k a)) -> maintains P (bind_m x k).
Proof.
  intros Hx Hk s Hs. unfold bind_m. specialize (Hx s Hs). destruct (x s) as [[es s1] [a|e]]; [|done].
  specialize (Hk a s1 Hx). by destruct (k a s1) as [[es' s2] r].
Qed.

Lemma maintains_pure {A} (x : streamM S A) : (forall s, (x s).1.2 = s) -> maintains P x.
Proof. intros H s. by rewrite H. Qed.

Lemma maintains_each {A} (f : A -> streamM S ()) l : (forall a, a ∈ l -> maintains P (f a)) -> maintains P (each_m f l).
Proof.
  induction l as [|a l IH]; intros Hf; [by intros s|]. apply maintains_bind; [apply Hf; left|]. intros _. apply IH. intros b Hb. apply Hf. by right.
Qed.
End Maintains.

