(* ===== verification/OpenaiCommon.v ===== *)
(** Helpers of the OpenAI formats: the hash of long identifiers, the key of the
    prompt cache, and the headers of GitHub Copilot (packages/ai, utils/hash.js,
    api/openai-prompt-cache.js and api/github-copilot-headers.js, bundled in
    src/drivers/tools/pibridge/bridge.mjs). *)
From S2P Require Import Prelude Utf8 Numbers Json Messages.
Open Scope Z_scope.

(** ** Hashes *)

(** The bits of [Math.imul(a, b)].  Every operation of the hash reads its operands
    as 32 bits, so that a value is kept as its unsigned bits. *)
Definition imul (a b : Z) : Z := (a * b) mod 2 ^ 32.

Definition hash_step (h : Z * Z) (ch : Z) : Z * Z :=
  (imul (Z.lxor h.1 ch) 2654435761, imul (Z.lxor h.2 ch) 1597334677).

Definition digit36 (d : Z) : Z := if d <? 10 then 48 + d else 87 + d.

(** [n.toString(36)] for [0 <= n]; seven digits are enough for 32 bits. *)
Fixpoint base36 (fuel : nat) (n : Z) (acc : jstr) : jstr :=
  match fuel with
  | O => acc
  | S f =>
      let acc := digit36 (n mod 36) :: acc in
      if n / 36 =? 0 then acc else base36 f (n / 36) acc
  end.

Definition toString36 (n : Z) : jstr := base36 7 n [].

Definition hash_finish (h : Z * Z) : Z * Z :=
  let '(h1, h2) := h in
  let h1 := Z.lxor (imul (Z.lxor h1 (Z.shiftr h1 16)) 2246822507) (imul (Z.lxor h2 (Z.shiftr h2 13)) 3266489909) in
  let h2 := Z.lxor (imul (Z.lxor h2 (Z.shiftr h2 16)) 2246822507) (imul (Z.lxor h1 (Z.shiftr h1 13)) 3266489909) in
  (h1, h2).

Definition shortHash (s : jstr) : jstr :=
  let '(h1, h2) := hash_finish (foldl hash_step (3735928559, 1103547991) s) in
  toString36 h2 ++ toString36 h1.

(** ** The key of the prompt cache *)

(** [Array.from(s)]: a surrogate pair is one element. *)
Fixpoint chars (s : jstr) : list jstr :=
  match s with
  | [] => []
  | c :: r =>
      match r with
      | d :: r' => if is_high c && is_low d then [c; d] :: chars r' else [c] :: chars r
      | [] => [[c]]
      end
  end.

Definition OPENAI_PROMPT_CACHE_KEY_MAX_LENGTH : nat := 64.

Definition clampOpenAIPromptCacheKey (key : option jstr) : option jstr :=
  match key with
  | None => None
  | Some key =>
      let cs := chars key in
      if (length cs <=? OPENAI_PROMPT_CACHE_KEY_MAX_LENGTH)%nat then Some key
      else Some (concat (take OPENAI_PROMPT_CACHE_KEY_MAX_LENGTH cs))
  end.

(** ** GitHub Copilot *)

Definition is_user (m : raw_message) : bool :=
  match m with Complete (MUser _ _) | NoUserContent _ => true | _ => false end.

Definition inferCopilotInitiator (messages : list raw_message) : jstr :=
  match last messages with
  | Some m => if is_user m then js "user" else js "agent"
  | None => js "user"
  end.

Definition part_is_image (p : part) : bool := match p with PImage _ _ => true | PText _ => false end.

Definition hasCopilotVisionInput (messages : list raw_message) : bool :=
  existsb (fun m =>
    match m with
    | Complete (MUser (UParts ps) _) => existsb part_is_image ps
    | Complete (MToolResult r) => existsb part_is_image (tr_content r)
    | _ => false
    end) messages.

Definition buildCopilotDynamicHeaders (messages : list raw_message) (hasImages : bool) : list (jstr * jstr) :=
  [(js "X-Initiator", inferCopilotInitiator messages); (js "Openai-Intent", js "conversation-edits")] ++
  (if hasImages then [(js "Copilot-Vision-Request", js "true")] else []).

(** * Facts *)

Example shortHash_ex : shortHash (js "call_1|fc_2") = js "18bn75215iyno9" /\ shortHash [] = js "k4n83c7h0j2b".
Proof. vm_compute. auto. Qed.

Definition alnum36 (c : Z) : Prop := 48 <= c <= 57 \/ 97 <= c <= 122.

Definition value36 (s : jstr) : Z :=
  foldl (fun acc c => acc * 36 + (if c <=? 57 then c - 48 else c - 87)) 0 s.

Lemma digit36_spec d :
  0 <= d < 36 -> alnum36 (digit36 d) /\ (if digit36 d <=? 57 then digit36 d - 48 else digit36 d - 87) = d.
Proof. intros Hd. unfold alnum36, digit36. destruct (Z.ltb_spec d 10); destruct (Z.leb_spec (48 + d) 57), (Z.leb_spec (87 + d) 57); lia. Qed.

(** The digits of a number that has at most [fuel] of them, and that they denote it. *)
Lemma base36_spec fuel n acc :
  0 <= n < 36 ^ Z.of_nat fuel -> (0 < fuel)%nat ->
  exists ds, base36 fuel n acc = ds ++ acc /\ Forall alnum36 ds /\ (1 <= length ds <= fuel)%nat /\ value36 ds = n.
Proof.
  revert n acc. induction fuel as [|f IH]; intros n acc Hn Hf; [lia|]. cbn [base36].
  assert (Hd : 0 <= n mod 36 < 36) by (apply Z.mod_pos_bound; lia). destruct (digit36_spec _ Hd) as [Ha Hv].
  pose proof (Z.div_mod n 36 ltac:(lia)) as Hdm. destruct (Z.eqb_spec (n / 36) 0) as [Hz|Hz].
  - exists [digit36 (n mod 36)]. repeat split; [by constructor|simpl; lia|simpl; lia|]. unfold value36. cbn [foldl]. lia.
  - rewrite Nat2Z.inj_succ, Z.pow_succ_r in Hn by lia.
    assert (0 <= n / 36 < 36 ^ Z.of_nat f) by (split; [apply Z.div_pos; lia|apply Z.div_lt_upper_bound; lia]).
    destruct f as [|f]; [simpl in *; lia|].
    destruct (IH (n / 36) (digit36 (n mod 36) :: acc)) as (ds & -> & HF & Hl & Hds); [done|lia|].
    exists (ds ++ [digit36 (n mod 36)]). rewrite <- app_assoc, length_app. cbn [length app]. repeat split; try lia.
    + apply Forall_app. split; [done|by constructor].
    + unfold value36 in *. rewrite foldl_app, Hds. cbn [foldl]. lia.
Qed.

(** The digits of a 32-bit number are those of [toString(36)], for which seven are enough. *)
Lemma toString36_spec n :
  0 <= n < 2 ^ 32 -> Forall alnum36 (toString36 n) /\ (1 <= length (toString36 n) <= 7)%nat /\ value36 (toString36 n) = n.
Proof.
  intros Hn. destruct (base36_spec 7 n []) as (ds & H & HF & Hl & Hv); [lia|lia|]. unfold toString36. by rewrite H, app_nil_r.
Qed.

Lemma imul_range a b : 0 <= imul a b < 2 ^ 32.
Proof. apply Z.mod_pos_bound. lia. Qed.

Lemma lxor_range a b : 0 <= a < 2 ^ 32 -> 0 <= b < 2 ^ 32 -> 0 <= Z.lxor a b < 2 ^ 32.
Proof.
  intros Ha Hb. assert (Hn : 0 <= Z.lxor a b) by (apply Z.lxor_nonneg; lia). split; [done|].
  destruct (Z.eq_dec (Z.lxor a b) 0) as [->|Hz]; [lia|]. apply Z.log2_lt_pow2; [lia|].
  pose proof (Z.log2_lxor a b). assert (forall x, 0 <= x < 2 ^ 32 -> Z.log2 x < 32).
  { intros x Hx. destruct (Z.eq_dec x 0) as [->|]; [done|]. apply Z.log2_lt_pow2; lia. }
  assert (Z.log2 a < 32) by auto. assert (Z.log2 b < 32) by auto. lia.
Qed.

(** A hash is two to fourteen letters and digits. *)
Lemma shortHash_shape s : Forall alnum36 (shortHash s) /\ (2 <= length (shortHash s) <= 14)%nat.
Proof.
  unfold shortHash, hash_finish. destruct (foldl hash_step _ s) as [a b]. cbn zeta.
  set (h1 := Z.lxor (imul _ _) (imul _ _)). set (h2 := Z.lxor (imul _ _) (imul _ _)).
  assert (H1 : 0 <= h1 < 2 ^ 32) by (apply lxor_range; apply imul_range).
  assert (H2 : 0 <= h2 < 2 ^ 32) by (apply lxor_range; apply imul_range).
  apply toString36_spec in H1 as (F1 & L1 & _), H2 as (F2 & L2 & _). rewrite length_app. split; [by apply Forall_app|lia].
Qed.

Lemma concat_chars s : concat (chars s) = s.
Proof.
  remember (length s) as n eqn:Hn. revert s Hn. induction n as [n IH] using lt_wf_ind; intros s ->.
  destruct s as [|c [|d s]]; [done|done|]. cbn [chars]. destruct (is_high c && is_low d); cbn [concat app].
  - do 2 f_equal. apply (IH (length s)); simpl; [lia|done].
  - f_equal. change (concat (chars (d :: s)) = d :: s). apply (IH (length (d :: s))); simpl; [lia|done].
Qed.

(** The key is a prefix of the session's identifier that cuts no character. *)
Lemma prompt_cache_key_prefix key k :
  clampOpenAIPromptCacheKey (Some key) = Some k ->
  exists n, k = concat (take n (chars key)) /\ (length (take n (chars key)) <= 64)%nat /\
    ((length (chars key) <= 64)%nat -> k = key).
Proof.
  unfold clampOpenAIPromptCacheKey, OPENAI_PROMPT_CACHE_KEY_MAX_LENGTH. destruct (Nat.leb_spec (length (chars key)) 64); intros [= <-].
  - exists 64%nat. rewrite take_ge by done. by rewrite concat_chars.
  - exists 64%nat. rewrite length_take. repeat split; lia.
Qed.
