(* ===== verification/OpenaiCompletions.v ===== *)
(** Requests in the format of OpenAI's chat completions, which many providers
    speak with variations: detection of a provider's abilities, the conversion of
    a conversation and of its tools, cache markers, thinking options and the
    parameters of a request (packages/ai, api/openai-completions.js, bundled in
    src/drivers/tools/pibridge/bridge.mjs).  [toLowerCase] and the printing of
    numbers are parameters. *)
From S2P Require Import Prelude Utf8 Numbers Json Messages TransformMessages ConstrainedSampling Models Estimate AnthropicMessages OpenaiCommon.
Open Scope Z_scope.

(** ** What a provider can do *)

(** [model.compat], as far as this API reads it. *)
Record compat_options := CompatOptions {
  co_supportsStore : option bool;
  co_supportsDeveloperRole : option bool;
  co_supportsReasoningEffort : option bool;
  co_supportsUsageInStreaming : option bool;
  co_supportsFinishReason : option bool;
  co_maxTokensField : option jstr;
  co_requiresToolResultName : option bool;
  co_requiresAssistantAfterToolResult : option bool;
  co_requiresThinkingAsText : option bool;
  co_requiresReasoningContent : option bool;
  co_thinkingFormat : option jstr;
  co_openRouterRouting : option json;
  co_vercelGatewayRouting : option json;
  co_chatTemplateKwargs : option (list (jstr * json));
  co_chatTemplateArgs : option (list (jstr * json));
  co_zaiToolStream : option bool;
  co_supportsThinkingTokenBudget : option bool;
  co_thinkingTokenBudgetField : option jstr;
  co_supportsStrictMode : option bool;
  co_supportsOpenAIGrammarTools : option bool;
  co_cacheControlFormat : option jstr;
  co_sendSessionAffinityHeaders : option bool;
  co_deferredToolsMode : option jstr;
  co_sessionAffinityFormat : option jstr;
  co_supportsLongCacheRetention : option bool;
  co_vllmPriority : option json
}.

(** The result of [getCompat]. *)
Record openai_compat := OpenaiCompat {
  oc_store : bool;
  oc_developerRole : bool;
  oc_reasoningEffort : bool;
  oc_usageInStreaming : bool;
  oc_finishReason : bool;
  oc_maxTokensField : jstr;
  oc_toolResultName : bool;
  oc_assistantAfterToolResult : bool;
  oc_thinkingAsText : bool;
  oc_reasoningContent : bool;
  oc_thinkingFormat : jstr;
  oc_openRouterRouting : json;
  oc_vercelGatewayRouting : json;
  oc_chatTemplateKwargs : list (jstr * json);
  oc_chatTemplateArgs : list (jstr * json);
  oc_zaiToolStream : bool;
  oc_thinkingTokenBudget : bool;
  oc_thinkingTokenBudgetField : option jstr;
  oc_strictMode : bool;
  oc_grammarTools : bool;
  oc_cacheControlFormat : option jstr;
  oc_affinityHeaders : bool;
  oc_deferredToolsMode : option jstr;
  oc_affinityFormat : jstr;
  oc_longCache : bool;
  oc_vllmPriority : option json
}.

Section Compat.
Context (toLowerCase : jstr -> jstr).

(** The provider has one of the names, or its address contains one of the texts. *)
Definition served_by (m : model) (names urls : list string) : bool :=
  existsb (fun n => streq (m_provider m) (js n)) names || existsb (fun u => includes (js u) (m_baseUrl m)) urls.

Definition isZai (m : model) : bool := served_by m ["zai"; "zai-coding-cn"] ["api.z.ai"; "open.bigmodel.cn"].
Definition isTogether (m : model) : bool := served_by m ["together"] ["api.together.ai"; "api.together.xyz"].
Definition isMoonshot (m : model) : bool := served_by m ["moonshotai"; "moonshotai-cn"] ["api.moonshot."].
Definition isOpenRouter (m : model) : bool := served_by m ["openrouter"] ["openrouter.ai"].
Definition isCloudflareWorkersAI (m : model) : bool := served_by m ["cloudflare-workers-ai"] ["api.cloudflare.com"].
Definition isCloudflareAiGateway (m : model) : bool := served_by m ["cloudflare-ai-gateway"] ["gateway.ai.cloudflare.com"].
Definition isNvidia (m : model) : bool := served_by m ["nvidia"] ["integrate.api.nvidia.com"].
Definition isAntLing (m : model) : bool := served_by m ["ant-ling"] ["api.ant-ling.com"].
Definition isDeepSeek (m : model) : bool :=
  streq (m_provider m) (js "deepseek") || includes (js "deepseek.com") (toLowerCase (m_baseUrl m)).
Definition isGrok (m : model) : bool := served_by m ["xai"] ["api.x.ai"].

Definition isNonStandard (m : model) : bool :=
  isNvidia m || served_by m ["cerebras"] ["cerebras.ai"] || isGrok m || isTogether m || served_by m [] ["chutes.ai"] ||
  isDeepSeek m || isZai m || isMoonshot m || served_by m ["opencode"] ["opencode.ai"] || isCloudflareWorkersAI m ||
  isCloudflareAiGateway m || isAntLing m.

Definition useMaxTokens (m : model) : bool :=
  served_by m [] ["chutes.ai"] || isDeepSeek m || isMoonshot m || isCloudflareAiGateway m || isTogether m ||
  isNvidia m || isAntLing m || isZai m.

Definition isOpenRouterDeveloperRoleModel (m : model) : bool :=
  isOpenRouter m && (starts_with (js "anthropic/") (m_id m) || starts_with (js "openai/") (m_id m)).

Definition detectCompat (m : model) : openai_compat :=
  {| oc_store := negb (isNonStandard m);
     oc_developerRole := isOpenRouterDeveloperRoleModel m || negb (isNonStandard m) && negb (isOpenRouter m);
     oc_reasoningEffort :=
       negb (isGrok m) && negb (isZai m) && negb (isMoonshot m) && negb (isTogether m) &&
       negb (isCloudflareAiGateway m) && negb (isNvidia m) && negb (isAntLing m);
     oc_usageInStreaming := true;
     oc_finishReason := true;
     oc_maxTokensField := if useMaxTokens m then js "max_tokens" else js "max_completion_tokens";
     oc_toolResultName := false;
     oc_assistantAfterToolResult := false;
     oc_thinkingAsText := false;
     oc_reasoningContent := isDeepSeek m;
     oc_thinkingFormat :=
       if isDeepSeek m then js "deepseek" else if isZai m then js "zai" else if isTogether m then js "together"
       else if isAntLing m then js "ant-ling" else if isOpenRouter m then js "openrouter" else js "openai";
     oc_openRouterRouting := JObj [];
     oc_vercelGatewayRouting := JObj [];
     oc_chatTemplateKwargs := [];
     oc_chatTemplateArgs := [];
     oc_zaiToolStream := false;
     oc_thinkingTokenBudget := false;
     oc_thinkingTokenBudgetField := None;
     oc_strictMode := negb (isMoonshot m) && negb (isTogether m) && negb (isCloudflareAiGateway m) && negb (isNvidia m);
     oc_grammarTools := false;
     oc_cacheControlFormat :=
       if streq (m_provider m) (js "openrouter") && starts_with (js "anthropic/") (m_id m)
       then Some (js "anthropic") else None;
     oc_affinityHeaders := false;
     oc_deferredToolsMode := None;
     oc_affinityFormat := if isOpenRouter m then js "openrouter" else js "openai";
     oc_longCache :=
       negb (isTogether m || isCloudflareWorkersAI m || isCloudflareAiGateway m || isNvidia m || isAntLing m);
     oc_vllmPriority := None |}.

(** [a ?? b] where [b] may be [undefined]. *)
Definition or_option {A} (a b : option A) : option A := match a with Some _ => a | None => b end.

Definition getCompat (m : model) (c : option compat_options) : openai_compat :=
  let d := detectCompat m in
  match c with
  | None => d
  | Some c =>
      {| oc_store := nullish (co_supportsStore c) (oc_store d);
         oc_developerRole := nullish (co_supportsDeveloperRole c) (oc_developerRole d);
         oc_reasoningEffort := nullish (co_supportsReasoningEffort c) (oc_reasoningEffort d);
         oc_usageInStreaming := nullish (co_supportsUsageInStreaming c) (oc_usageInStreaming d);
         oc_finishReason := nullish (co_supportsFinishReason c) (oc_finishReason d);
         oc_maxTokensField := nullish (co_maxTokensField c) (oc_maxTokensField d);
         oc_toolResultName := nullish (co_requiresToolResultName c) (oc_toolResultName d);
         oc_assistantAfterToolResult := nullish (co_requiresAssistantAfterToolResult c) (oc_assistantAfterToolResult d);
         oc_thinkingAsText := nullish (co_requiresThinkingAsText c) (oc_thinkingAsText d);
         oc_reasoningContent := nullish (co_requiresReasoningContent c) (oc_reasoningContent d);
         oc_thinkingFormat := nullish (co_thinkingFormat c) (oc_thinkingFormat d);
         oc_openRouterRouting := nullish (co_openRouterRouting c) (JObj []);
         oc_vercelGatewayRouting := nullish (co_vercelGatewayRouting c) (oc_vercelGatewayRouting d);
         oc_chatTemplateKwargs := nullish (co_chatTemplateKwargs c) (oc_chatTemplateKwargs d);
         oc_chatTemplateArgs := nullish (co_chatTemplateArgs c) (oc_chatTemplateArgs d);
         oc_zaiToolStream := nullish (co_zaiToolStream c) (oc_zaiToolStream d);
         oc_thinkingTokenBudget := nullish (co_supportsThinkingTokenBudget c) (oc_thinkingTokenBudget d);
         oc_thinkingTokenBudgetField := or_option (co_thinkingTokenBudgetField c) (oc_thinkingTokenBudgetField d);
         oc_strictMode := nullish (co_supportsStrictMode c) (oc_strictMode d);
         oc_grammarTools := nullish (co_supportsOpenAIGrammarTools c) (oc_grammarTools d);
         oc_cacheControlFormat := or_option (co_cacheControlFormat c) (oc_cacheControlFormat d);
         oc_affinityHeaders := nullish (co_sendSessionAffinityHeaders c) (oc_affinityHeaders d);
         oc_deferredToolsMode := or_option (co_deferredToolsMode c) (oc_deferredToolsMode d);
         oc_affinityFormat := nullish (co_sessionAffinityFormat c) (oc_affinityFormat d);
         oc_longCache := nullish (co_supportsLongCacheRetention c) (oc_longCache d);
         oc_vllmPriority := co_vllmPriority c |}
  end.
End Compat.

(** ** Reasoning details *)

(** The field is missing, or [ok] of it. *)
Definition optional_field (k : string) (ok : json -> bool) (v : json) : bool :=
  match get (js k) v with None => true | Some x => ok x end.

Definition is_string (v : json) : bool := match v with JStr _ => true | _ => false end.
Definition is_string_or_null (v : json) : bool := match v with JStr _ | JNull => true | _ => false end.
Definition is_number (v : json) : bool := match v with JNum _ => true | _ => false end.

Definition string_field (k : string) (v : json) : bool :=
  match get (js k) v with Some (JStr _) => true | _ => false end.

Definition hasValidCommonReasoningDetailFields (candidate : json) : bool :=
  optional_field "id" is_string_or_null candidate && optional_field "format" is_string candidate &&
  optional_field "index" is_number candidate.

Definition has_detail_type (t : string) (detail : json) : bool :=
  bool_decide (get (js "type") detail = Some (JStr (js t))).

Definition isOpenAIReasoningDetail (detail : json) : bool :=
  if negb (isJsonSchemaObject detail) || negb (hasValidCommonReasoningDetailFields detail) then false
  else if has_detail_type "reasoning.summary" detail then string_field "summary" detail
  else if has_detail_type "reasoning.encrypted" detail then string_field "data" detail
  else if has_detail_type "reasoning.text" detail then
    string_field "text" detail && optional_field "signature" is_string_or_null detail
  else false.

Definition parseOpenAIReasoningDetails (signature : option jstr) : option (list json) :=
  match signature with
  | Some s =>
      if truthy s then
        match JSON_parse s with
        | Some (JArr (d :: ds)) => if forallb isOpenAIReasoningDetail (d :: ds) then Some (d :: ds) else None
        | _ => None
        end
      else None
  | None => None
  end.

Definition nonempty_string (k : string) (v : json) : bool :=
  match get (js k) v with Some (JStr s) => truthy s | _ => false end.

Definition parseLegacyEncryptedReasoningDetail (signature : option jstr) : option json :=
  match signature with
  | Some s =>
      if truthy s then
        match JSON_parse s with
        | Some parsed =>
            if isOpenAIReasoningDetail parsed && has_detail_type "reasoning.encrypted" parsed &&
               nonempty_string "id" parsed && nonempty_string "data" parsed
            then Some parsed else None
        | None => None
        end
      else None
  | None => None
  end.

(** ** The wire format *)

Inductive content_part :=
| CText (text : jstr) (cache : option cache_control)
| CImage (url : jstr).

Inductive content :=
| CNull
| CString (s : jstr)
| CParts (parts : list content_part).

Inductive wire_call :=
| FunctionCall (id name arguments : jstr)
| CustomCall (id name input : jstr).

Inductive tool_kind :=
| FunctionTool (name description : jstr) (parameters : json) (strict : option bool)
| CustomTool (name description syntax definition : jstr).

Record chat_tool := ChatTool { ct_kind : tool_kind; ct_cache : option cache_control }.

(** The messages of a request; [OTools] is the message that offers tools to Kimi.
    Of an assistant message, [reasoning] is the field that carries its thinking, no
    calls means no [tool_calls], and [noReasoning] is an empty [reasoning_content]. *)
Inductive chat_message :=
| OInstructions (developer : bool) (c : content)
| OTools (tools : list chat_tool)
| OUser (c : content)
| OAssistant (c : content) (reasoning : option (jstr * jstr)) (calls : list wire_call) (details : option (list json))
    (noReasoning : bool)
| OTool (c : content) (tool_call_id : jstr) (name : option jstr).

(** ** Identifiers of tool calls *)

Definition clean_id (id : jstr) : jstr := map (fun c => if id_char c then c else 95) id.

Definition normalizeToolCallId2 (provider : jstr) (id : jstr) : jstr :=
  match index_of (js "|") id with
  | Some separatorIndex =>
      let callId := clean_id (take separatorIndex id) in
      let itemId := clean_id (drop (S separatorIndex) id) in
      let combinedId := if truthy itemId then callId ++ js "_" ++ itemId else callId in
      if (length combinedId <=? 40)%nat then combinedId
      else
        let hash := take 8 (shortHash id) in
        let prefix := take (Nat.max 1 (40 - length hash - 1)) callId in
        prefix ++ js "_" ++ hash
  | None => if streq provider (js "openai") then take 40 id else id
  end.

(** ** Tools *)

Definition convert_chat_tool (compat : openai_compat) (t : api_tool) : result jstr chat_tool :=
  let! g := resolveGrammarConstrainedSampling (at_tool t) (oc_grammarTools compat) in
  match g with
  | Some g => Ok (ChatTool (CustomTool (at_name t) (at_description t) (g_format g) (g_definition g)) None)
  | None =>
      let! strict := resolveJsonSchemaStrictSampling (at_tool t) (oc_strictMode compat) in
      let! parameters := getJsonSchemaToolParameters (at_tool t) strict in
      Ok (ChatTool (FunctionTool (at_name t) (at_description t) parameters
                      (if oc_strictMode compat then Some strict else None)) None)
  end.

Definition convertTools (compat : openai_compat) (tools : list api_tool) : result jstr (list chat_tool) :=
  map_throw (convert_chat_tool compat) tools.

(** A [Map] of the tools by name keeps the last one of a name. *)
Definition getToolsByName (tools : option (list api_tool)) (names : list jstr) : list api_tool :=
  omap (fun n => List.find (fun t => streq (at_name t) n) (rev (nullish tools []))) names.

(** The names a message adds, into a [Set]. *)
Definition add_names (names : list jstr) (r : tool_result) : list jstr :=
  dedup (names ++ nullish (tr_addedToolNames r) []).

Definition raw_result (m : raw_message) : option tool_result :=
  match m with Complete (MToolResult r) | NoToolContent r => Some r | _ => None end.

Definition getDeferredToolNames (messages : list raw_message) : list jstr :=
  foldl add_names [] (omap raw_result messages).

Definition hasToolHistory (messages : list raw_message) : bool :=
  existsb (fun m =>
    match m with
    | Complete (MToolResult _) | NoToolContent _ => true
    | Complete (MAssistant a) => bool_decide (tool_calls (a_content a) ≠ [])
    | _ => false
    end) messages.

(** ** Messages *)

Definition image_url (data mimeType : jstr) : jstr := js "data:" ++ mimeType ++ js ";base64," ++ data.

Definition user_part (p : part) : content_part :=
  match p with
  | PText t => CText (sanitizeSurrogates t) None
  | PImage data mimeType => CImage (image_url data mimeType)
  end.

Definition convert_chat_user (c : user_content) : option chat_message :=
  match c with
  | UString s => Some (OUser (CString (sanitizeSurrogates s)))
  | UParts [] => None
  | UParts ps => Some (OUser (CParts (map user_part ps)))
  end.

Definition OPENAI_COMPLETIONS_REASONING_FIELDS : list jstr := map js ["reasoning"; "reasoning_content"; "reasoning_text"].

Definition isOpenAICompletionsReasoningField (f : jstr) : bool := mem f OPENAI_COMPLETIONS_REASONING_FIELDS.

Definition text_blocks (bs : list block) : list jstr := omap (fun b => match b with BText t _ => Some t | _ => None end) bs.

Definition thinking_blocks (bs : list block) : list (jstr * option jstr) :=
  omap (fun b => match b with BThinking t s _ => Some (t, s) | _ => None end) bs.

Section Convert.
Context (num_to_string : Q -> jstr) (m : model) (compat : openai_compat) (tools : option (list api_tool)).
Context (grammarToolInputProperties : gmap jstr jstr).

Definition convert_call (tc : toolCall) : result jstr wire_call :=
  match grammarToolInputProperties !! tc_name tc with
  | Some customInputProperty =>
      let! input := getGrammarToolInput (tc_name tc) (tc_arguments tc) customInputProperty in
      Ok (CustomCall (tc_id tc) (tc_name tc) (sanitizeSurrogates input))
  | None => Ok (FunctionCall (tc_id tc) (tc_name tc) (JSON_stringify num_to_string (tc_arguments tc)))
  end.

Definition preservedReasoningDetails (bs : list block) : option (list json) :=
  match omap (fun ts => parseOpenAIReasoningDetails ts.2) (thinking_blocks bs) with
  | details :: _ => Some details
  | [] =>
      match omap (fun tc => parseLegacyEncryptedReasoningDetail (tc_thoughtSignature tc)) (tool_calls bs) with
      | [] => None
      | legacy => Some legacy
      end
  end.

(** The content of an assistant message and the field that carries its thinking. *)
Definition assistant_content (bs : list block) : content * option (jstr * jstr) :=
  let empty := if oc_assistantAfterToolResult compat then CString [] else CNull in
  let texts := map sanitizeSurrogates (List.filter (fun t => negb (blank t)) (text_blocks bs)) in
  let assistantText := concat texts in
  let plain := if truthy assistantText then CString assistantText else empty in
  match List.filter (fun ts => negb (blank ts.1)) (thinking_blocks bs) with
  | [] => (plain, None)
  | (t, s) :: r =>
      if oc_thinkingAsText compat then
        (CParts (CText (join [LF; LF] (map (fun ts => sanitizeSurrogates ts.1) ((t, s) :: r))) None ::
                 map (fun t => CText t None) texts), None)
      else
        (plain,
         match preservedReasoningDetails bs with
         | Some _ => None
         | None =>
             let signature :=
               if streq (m_provider m) (js "opencode-go") && bool_decide (s = Some (js "reasoning"))
               then Some (js "reasoning_content") else s in
             match signature with
             | Some f =>
                 if truthy f && isOpenAICompletionsReasoningField f
                 then Some (f, join [LF] (map fst ((t, s) :: r))) else None
             | None => None
             end
         end)
  end.

Definition has_content (c : content) : bool :=
  match c with CNull => false | CString s => truthy s | CParts ps => bool_decide (ps ≠ []) end.

Definition convert_chat_assistant (a : assistant) : result jstr (option chat_message) :=
  let bs := a_content a in
  let '(c, reasoning) := assistant_content bs in
  let! calls := map_throw convert_call (tool_calls bs) in
  let noReasoning :=
    oc_reasoningContent compat && m_reasoning m && bool_decide (fst <$> reasoning ≠ Some (js "reasoning_content")) in
  if negb (has_content c) && bool_decide (calls = []) then Ok None
  else Ok (Some (OAssistant c reasoning calls (preservedReasoningDetails bs) noReasoning)).

Definition result_text (ps : list part) : jstr :=
  join [LF] (omap (fun p => match p with PText t => Some t | _ => None end) ps).

Definition convert_chat_result (r : tool_result) : chat_message :=
  let textResult := result_text (tr_content r) in
  let toolResultText :=
    if truthy textResult then textResult
    else if existsb is_image (tr_content r) then js "(see attached image)" else js "(no tool output)" in
  OTool (CString (sanitizeSurrogates toolResultText)) (tr_toolCallId r)
    (if oc_toolResultName compat && truthy (tr_toolName r) then Some (tr_toolName r) else None).

(** What the inner loop over a run of tool results collects: images to attach and
    names of tools to offer. *)
Record pending_run := PendingRun { pr_images : list content_part; pr_names : list jstr }.

Definition result_images (r : tool_result) : list content_part :=
  if bool_decide (js "image" ∈ m_input m) then
    omap (fun p => match p with PImage data mimeType => Some (CImage (image_url data mimeType)) | _ => None end) (tr_content r)
  else [].

Definition kimi : bool := bool_decide (oc_deferredToolsMode compat = Some (js "kimi")).

Definition collect (r : tool_result) (run : option pending_run) : pending_run :=
  let run := nullish run (PendingRun [] []) in
  PendingRun (pr_images run ++ result_images r) (if kimi then add_names (pr_names run) r else pr_names run).

Definition PROCESSED : chat_message := OAssistant (CString (js "I have processed the tool results.")) None [] None false.

(** The messages after a run of tool results, and whether [lastRole] is
    [toolResult] after them. *)
Definition close_run (run : option pending_run) (lastIsResult : bool) : result jstr (list chat_message * bool) :=
  match run with
  | None => Ok ([], lastIsResult)
  | Some (PendingRun images names) =>
      let attached :=
        match images with
        | [] => []
        | _ =>
            (if oc_assistantAfterToolResult compat then [PROCESSED] else []) ++
            [OUser (CParts (CText (js "Attached image(s) from tool result:") None :: images))]
        end in
      let lastIsResult := bool_decide (images = []) in
      match getToolsByName tools names with
      | [] => Ok (attached, lastIsResult)
      | deferredTools => let! ts := convertTools compat deferredTools in Ok (attached ++ [OTools ts], lastIsResult)
      end
  end.

(** What the loop makes of a message that is no tool result. *)
Definition chat_turn (msg : message) (lastIsResult : bool) : result jstr (list chat_message * bool) :=
  match msg with
  | MUser c _ =>
      let processed := if oc_assistantAfterToolResult compat && lastIsResult then [PROCESSED] else [] in
      match convert_chat_user c with
      | Some u => Ok (processed ++ [u], false)
      | None => Ok (processed, lastIsResult)
      end
  | MAssistant a =>
      let! o := convert_chat_assistant a in
      match o with Some x => Ok ([x], false) | None => Ok ([], lastIsResult) end
  | _ => Ok ([], false)
  end.

(** The loop over the messages.  A run of tool results, which the source reads with
    an inner loop, is held in [run] until a message of another role or the end;
    [lastIsResult] says whether [lastRole] is [toolResult]. *)
Fixpoint chat_loop (ms : list message) (run : option pending_run) (lastIsResult : bool) : result jstr (list chat_message) :=
  match ms with
  | [] => let! closed := close_run run lastIsResult in Ok closed.1
  | MToolResult r :: rest =>
      let! more := chat_loop rest (Some (collect r run)) lastIsResult in Ok (convert_chat_result r :: more)
  | msg :: rest =>
      let! closed := close_run run lastIsResult in
      let '(before, lastIsResult) := closed in
      let! converted := chat_turn msg lastIsResult in
      let! more := chat_loop rest None converted.2 in
      Ok (before ++ converted.1 ++ more)
  end.

Definition instructions (systemPrompt : option jstr) : list chat_message :=
  if truthy_opt systemPrompt then
    [OInstructions (m_reasoning m && oc_developerRole compat) (CString (sanitizeSurrogates (nullish systemPrompt [])))]
  else [].

Definition convertMessages (systemPrompt : option jstr) (messages : list raw_message) (now : Z)
  : result jstr (list chat_message) :=
  let transformedMessages :=
    transformMessages messages m (Some (fun id _ _ => normalizeToolCallId2 (m_provider m) id)) now in
  let! converted := chat_loop transformedMessages None false in
  Ok (instructions systemPrompt ++ converted).
End Convert.

(** ** Cache markers *)

Definition resolveCacheRetention (cacheRetention : option retention) (envValue : option jstr) : retention :=
  match cacheRetention with
  | Some r => r
  | None => if bool_decide (envValue = Some (js "long")) then Long else Short
  end.

Definition getCompatCacheControl (compat : openai_compat) (r : retention) : option cache_control :=
  if negb (bool_decide (oc_cacheControlFormat compat = Some (js "anthropic"))) || bool_decide (r = NoCache) then None
  else Some (CacheControl (bool_decide (r = Long) && oc_longCache compat)).

(** The last text part gets the marker, if there is one. *)
Fixpoint mark_last_text (cc : cache_control) (ps : list content_part) : option (list content_part) :=
  match ps with
  | [] => None
  | p :: r =>
      match mark_last_text cc r, p with
      | Some r', _ => Some (p :: r')
      | None, CText t _ => Some (CText t (Some cc) :: r)
      | None, CImage _ => None
      end
  end.

(** [None]: the content takes no marker. *)
Definition addCacheControlToTextContent (cc : cache_control) (c : content) : option content :=
  match c with
  | CString [] => None
  | CString s => Some (CParts [CText s (Some cc)])
  | CNull => None
  | CParts ps => CParts <$> mark_last_text cc ps
  end.

Definition addCacheControlToMessage (cc : cache_control) (msg : chat_message) : option chat_message :=
  match msg with
  | OUser c => OUser <$> addCacheControlToTextContent cc c
  | OAssistant c r calls d n => (fun c => OAssistant c r calls d n) <$> addCacheControlToTextContent cc c
  | OTool c id name => (fun c => OTool c id name) <$> addCacheControlToTextContent cc c
  | _ => None
  end.

(** The first message of role [system] or [developer]; that of the tools has no content. *)
Fixpoint addCacheControlToSystemPrompt (cc : cache_control) (ms : list chat_message) : list chat_message :=
  match ms with
  | [] => []
  | OInstructions d c :: r => OInstructions d (nullish (addCacheControlToTextContent cc c) c) :: r
  | OTools ts :: r => OTools ts :: r
  | msg :: r => msg :: addCacheControlToSystemPrompt cc r
  end.

(** From the last message back to the first one that takes a marker. *)
Fixpoint mark_last_message (cc : cache_control) (ms : list chat_message) : option (list chat_message) :=
  match ms with
  | [] => None
  | msg :: r =>
      match mark_last_message cc r with
      | Some r' => Some (msg :: r')
      | None => (fun msg => msg :: r) <$> addCacheControlToMessage cc msg
      end
  end.

Definition addCacheControlToLastConversationMessage (cc : cache_control) (ms : list chat_message) : list chat_message :=
  nullish (mark_last_message cc ms) ms.

Definition addCacheControlToLastTool (cc : cache_control) (tools : list chat_tool) : list chat_tool :=
  update_last_of (fun t => ChatTool (ct_kind t) (Some cc)) tools.

Definition applyAnthropicCacheControl (cc : cache_control) (ms : list chat_message) (tools : option (list chat_tool))
  : list chat_message * option (list chat_tool) :=
  (addCacheControlToLastConversationMessage cc (addCacheControlToSystemPrompt cc ms), addCacheControlToLastTool cc <$> tools).

(** ** As JSON *)

Definition jstring (s : string) : json := JStr (js s).

Definition cache_json (cc : cache_control) : json :=
  obj [(js "type", Some (jstring "ephemeral")); (js "ttl", if cc_1h cc then Some (jstring "1h") else None)].

Definition part_json (p : content_part) : json :=
  match p with
  | CText t cc => obj [(js "type", Some (jstring "text")); (js "text", Some (JStr t)); (js "cache_control", cache_json <$> cc)]
  | CImage url => obj [(js "type", Some (jstring "image_url")); (js "image_url", Some (JObj [(js "url", JStr url)]))]
  end.

Definition content_json (c : content) : json :=
  match c with CNull => JNull | CString s => JStr s | CParts ps => JArr (map part_json ps) end.

Definition call_json (c : wire_call) : json :=
  match c with
  | FunctionCall id name arguments =>
      JObj [(js "id", JStr id); (js "type", jstring "function");
            (js "function", JObj [(js "name", JStr name); (js "arguments", JStr arguments)])]
  | CustomCall id name input =>
      JObj [(js "id", JStr id); (js "type", jstring "custom");
            (js "custom", JObj [(js "name", JStr name); (js "input", JStr input)])]
  end.

Definition tool_json (t : chat_tool) : json :=
  let '(kind, body) :=
    match ct_kind t with
    | FunctionTool name description parameters strict =>
        (js "function", obj [(js "name", Some (JStr name)); (js "description", Some (JStr description));
                             (js "parameters", Some parameters); (js "strict", JBool <$> strict)])
    | CustomTool name description syntax definition =>
        (js "custom", JObj [(js "name", JStr name); (js "description", JStr description);
           (js "format", JObj [(js "type", jstring "grammar");
              (js "grammar", JObj [(js "syntax", JStr syntax); (js "definition", JStr definition)])])])
    end in
  obj [(js "type", Some (JStr kind)); (kind, Some body); (js "cache_control", cache_json <$> ct_cache t)].

Definition message_json (msg : chat_message) : json :=
  let role s := (js "role", Some (jstring s)) in
  match msg with
  | OInstructions developer c => obj [role (if developer then "developer" else "system")%string; (js "content", Some (content_json c))]
  | OTools ts => obj [role "system"; (js "tools", Some (JArr (map tool_json ts)))]
  | OUser c => obj [role "user"; (js "content", Some (content_json c))]
  | OAssistant c reasoning calls details noReasoning =>
      obj ([role "assistant"; (js "content", Some (content_json c))] ++
           match reasoning with Some (f, s) => [(f, Some (JStr s))] | None => [] end ++
           [(js "tool_calls", match calls with [] => None | _ => Some (JArr (map call_json calls)) end);
            (js "reasoning_details", JArr <$> details);
            (js "reasoning_content", if noReasoning then Some (JStr []) else None)])
  | OTool c id name =>
      obj [role "tool"; (js "content", Some (content_json c)); (js "tool_call_id", Some (JStr id)); (js "name", JStr <$> name)]
  end.

(** ** The parameters of a request *)

Record chat_options := ChatOptions {
  cho_cacheRetention : option retention;
  cho_sessionId : option jstr;
  cho_maxTokens : option Z;
  cho_temperature : option Q;
  cho_toolChoice : option json;
  cho_reasoningEffort : option jstr;
  cho_thinkingBudgets : effort -> option Z;
  cho_samplingParams : option (list (jstr * json))
}.

Definition effort_levels : list (jstr * effort) :=
  [(js "minimal", Minimal); (js "low", Low); (js "medium", Medium); (js "high", High); (js "xhigh", XHigh); (js "max", Max)].

Definition resolveThinkingTokenBudgetField (compat : openai_compat) : option jstr :=
  if truthy_opt (oc_thinkingTokenBudgetField compat) then oc_thinkingTokenBudgetField compat
  else if oc_thinkingTokenBudget compat then Some (js "thinking_token_budget") else None.

(** [options.maxTokens] when it is truthy. *)
Definition requested_max (o : chat_options) : option Z :=
  match cho_maxTokens o with Some n => if n =? 0 then None else Some n | None => None end.

Definition active_effort (o : chat_options) : option jstr :=
  if truthy_opt (cho_reasoningEffort o) then cho_reasoningEffort o else None.

(** A level that is none of the known ones has no budget: [Math.min] gives [NaN]. *)
Definition resolveClampedThinkingBudget (m : model) (o : chat_options) : option Z :=
  match active_effort o with
  | Some e =>
      if m_reasoning m then
        match assoc e effort_levels with
        | Some level =>
            let ceiling := nullish (requested_max o) (m_maxTokens m) in
            let budget := clampThinkingBudgetToAnswerRoom (thinkingBudgetForLevel level (cho_thinkingBudgets o)) ceiling in
            if 0 <? budget then Some budget else None
        | None => None
        end
      else None
  | None => None
  end.

Definition int_json (n : Z) : json := JNum (Finite (inject_Z n)).

(** [None] is [undefined]. *)
Definition resolveChatTemplateKwargValue (m : model) (o : chat_options) (value : json) (thinkingBudget : option Z) : option json :=
  match value with
  | JObj _ | JArr _ =>
      if negb (truthy_opt (cho_reasoningEffort o)) && truthy_json (get (js "omitWhenOff") value) then None
      else if bool_decide (get (js "$var") value = Some (jstring "thinking.enabled")) then
        Some (JBool (truthy_opt (cho_reasoningEffort o)))
      else if bool_decide (get (js "$var") value = Some (jstring "thinking.budget")) then int_json <$> thinkingBudget
      else
        match mapped_level m (nullish (active_effort o) (js "off")) with
        | None => JStr <$> cho_reasoningEffort o
        | Some (Some mapped) => Some (JStr mapped)
        | Some None => None
        end
  | _ => Some value
  end.

Definition buildChatTemplateValues (m : model) (o : chat_options) (values : list (jstr * json)) (thinkingBudget : option Z)
  : option json :=
  let resolved := omap (fun kv => pair kv.1 <$> resolveChatTemplateKwargValue m o kv.2 thinkingBudget) values in
  match resolved with [] => None | _ => Some (JObj resolved) end.

(** [model.thinkingLevelMap?.[e] ?? e] *)
Definition mapped_or_level (m : model) (e : jstr) : jstr :=
  match mapped_level m e with Some (Some v) => v | _ => e end.

(** [mapped === undefined ? e : mapped], when that is a string. *)
Definition mapped_string (m : model) (e : jstr) : option jstr :=
  match mapped_level m e with None => Some e | Some v => v end.

Definition off_allowed (m : model) : bool := negb (bool_decide (mapped_level m (js "off") = Some None)).

(** The fields that turn thinking on or off, in the format of the provider. *)
Definition thinking_fields (m : model) (compat : openai_compat) (o : chat_options) (thinkingBudget : option Z)
  : list (jstr * option json) :=
  let format s := bool_decide (oc_thinkingFormat compat = js s) && m_reasoning m in
  let effort := active_effort o in
  let enabled := bool_decide (is_Some effort) in
  let when_effort := fun (f : jstr -> option json) => if oc_reasoningEffort compat then effort ≫= f else None in
  let kind s := (js "type", jstring s) in
  if format "zai" then
    [(js "thinking", Some (if enabled then JObj [kind "enabled"; (js "clear_thinking", JBool false)] else JObj [kind "disabled"]));
     (js "reasoning_effort", when_effort (fun e => JStr <$> mapped_string m e))]
  else if format "qwen" then
    [(js "enable_thinking", Some (JBool enabled)); (js "reasoning_effort", when_effort (fun e => Some (JStr (mapped_or_level m e))))]
  else if format "qwen-chat-template" then
    [(js "chat_template_kwargs", Some (JObj [(js "enable_thinking", JBool enabled); (js "preserve_thinking", JBool true)]))]
  else if format "chat-template" then
    [(js "chat_template_kwargs", buildChatTemplateValues m o (oc_chatTemplateKwargs compat) thinkingBudget)]
  else if format "baseten" then
    [(js "chat_template_args", buildChatTemplateValues m o (oc_chatTemplateArgs compat) thinkingBudget);
     (js "reasoning_effort",
        if oc_reasoningEffort compat then
          match mapped_level m (nullish effort (js "off")) with
          | None => JStr <$> cho_reasoningEffort o
          | Some v => JStr <$> v
          end
        else None)]
  else if format "deepseek" then
    [(js "thinking", if enabled then Some (JObj [kind "enabled"])
                     else if off_allowed m then Some (JObj [kind "disabled"]) else None);
     (js "reasoning_effort", when_effort (fun e => Some (JStr (mapped_or_level m e))))]
  else if format "openrouter" then
    [(js "reasoning",
        match effort with
        | Some e => Some (JObj [(js "effort", JStr (mapped_or_level m e))])
        | None =>
            match mapped_level m (js "off") with
            | Some None => None
            | Some (Some v) => Some (JObj [(js "effort", JStr v)])
            | None => Some (JObj [(js "effort", jstring "none")])
            end
        end)]
  else if format "ant-ling" && enabled then
    [(js "reasoning",
        match mapped_level m (nullish effort []) with
        | Some (Some v) => Some (JObj [(js "effort", JStr v)])
        | _ => None
        end)]
  else if format "together" then
    [(js "reasoning", Some (JObj [(js "enabled", JBool enabled)]));
     (js "reasoning_effort", when_effort (fun e => Some (JStr (mapped_or_level m e))))]
  else if format "string-thinking" then
    [(js "thinking",
        match effort with
        | Some e => Some (JStr (mapped_or_level m e))
        | None =>
            match mapped_level m (js "off") with
            | Some None => None
            | Some (Some v) => Some (JStr v)
            | None => Some (jstring "none")
            end
        end)]
  else if m_reasoning m && oc_reasoningEffort compat then
    [(js "reasoning_effort",
        match effort with
        | Some e => Some (JStr (mapped_or_level m e))
        | None => match mapped_level m (js "off") with Some (Some v) => Some (JStr v) | _ => None end
        end)]
  else [].

(** [Object.assign(params, fields)], where [undefined] fields are not printed. *)
Definition assign_fields (params : list (jstr * json)) (fields : list (jstr * option json)) : list (jstr * json) :=
  foldl (fun ps kv => match kv.2 with Some v => set_field kv.1 v ps | None => ps end) params fields.

Section Params.
Context (toLowerCase : jstr -> jstr) (num_to_string : Q -> jstr) (m : model) (c : option compat_options).

(** [params.messages] and [params.tools] once the markers are set. *)
Definition chat_request (envValue : option jstr) (now : Z) (systemPrompt : option jstr) (messages : list raw_message)
    (tools : option (list api_tool)) (o : chat_options)
  : result jstr (list chat_message * option (list chat_tool)) :=
  let compat := getCompat toLowerCase m c in
  let! grammarToolInputProperties := createGrammarToolInputProperties (map at_tool <$> tools) (oc_grammarTools compat) in
  let! ms := convertMessages num_to_string m compat tools grammarToolInputProperties systemPrompt messages now in
  let deferredToolNames := if kimi compat then getDeferredToolNames messages else [] in
  let activeTools := List.filter (fun t => negb (mem (at_name t) deferredToolNames)) (nullish tools []) in
  let! ts :=
    match activeTools with
    | [] => Ok (if hasToolHistory messages then Some [] else None)
    | _ => let! ts := convertTools compat activeTools in Ok (Some ts)
    end in
  match getCompatCacheControl compat (resolveCacheRetention (cho_cacheRetention o) envValue) with
  | Some cc => Ok (applyAnthropicCacheControl cc ms ts)
  | None => Ok (ms, ts)
  end.

Definition gateway_options (routing : json) : option json :=
  let only := get (js "only") routing in
  let order := get (js "order") routing in
  if truthy_json only || truthy_json order then
    Some (JObj [(js "gateway", obj [(js "only", if truthy_json only then only else None);
                                    (js "order", if truthy_json order then order else None)])])
  else None.

Definition buildParams (envValue : option jstr) (now : Z) (systemPrompt : option jstr) (messages : list raw_message)
    (tools : option (list api_tool)) (o : chat_options) : result jstr (list (jstr * json)) :=
  let compat := getCompat toLowerCase m c in
  let cacheRetention := resolveCacheRetention (cho_cacheRetention o) envValue in
  let long := bool_decide (cacheRetention = Long) && oc_longCache compat in
  let! request := chat_request envValue now systemPrompt messages tools o in
  let '(ms, ts) := request in
  let thinkingBudget := resolveClampedThinkingBudget m o in
  Ok (assign_fields []
    ([(js "model", Some (JStr (m_id m)));
      (js "messages", Some (JArr (map message_json ms)));
      (js "stream", Some (JBool true));
      (js "prompt_cache_key",
         if includes (js "api.openai.com") (m_baseUrl m) && negb (bool_decide (cacheRetention = NoCache)) || long
         then JStr <$> clampOpenAIPromptCacheKey (cho_sessionId o) else None);
      (js "prompt_cache_retention", if long then Some (jstring "24h") else None);
      (js "stream_options", if oc_usageInStreaming compat then Some (JObj [(js "include_usage", JBool true)]) else None);
      (js "store", if oc_store compat then Some (JBool false) else None);
      (if streq (oc_maxTokensField compat) (js "max_tokens") then js "max_tokens" else js "max_completion_tokens",
         int_json <$> requested_max o);
      (js "temperature", (fun q => JNum (Finite q)) <$> cho_temperature o);
      (js "tools", (fun ts => JArr (map tool_json ts)) <$> ts);
      (js "tool_stream", if oc_zaiToolStream compat && bool_decide (nullish ts [] ≠ []) then Some (JBool true) else None);
      (js "tool_choice", if truthy_json (cho_toolChoice o) then cho_toolChoice o else None);
      (js "priority", oc_vllmPriority compat)] ++
     thinking_fields m compat o thinkingBudget ++
     match resolveThinkingTokenBudgetField compat with Some f => [(f, int_json <$> thinkingBudget)] | None => [] end ++
     [(js "provider", if truthy_json (c ≫= co_openRouterRouting) then c ≫= co_openRouterRouting else None);
      (js "providerOptions", if truthy_json (c ≫= co_vercelGatewayRouting) then (c ≫= co_vercelGatewayRouting) ≫= gateway_options else None)] ++
     map (fun kv => (kv.1, Some kv.2)) (nullish (cho_samplingParams o) []))).
End Params.

(** ** The client *)

Section Client.
Context (toLowerCase : jstr -> jstr).

Definition hasHeader (headers : option header_list) (name : jstr) : bool :=
  existsb (fun kv => streq (toLowerCase kv.1) (toLowerCase name) &&
             match kv.2 with Some v => truthy (trim v) | None => false end) (nullish headers []).

Definition getClientApiKey (provider : jstr) (apiKey : option jstr) (headers : option header_list) : result jstr jstr :=
  if truthy_opt apiKey then Ok (nullish apiKey [])
  else if hasHeader headers (js "authorization") || hasHeader headers (js "cf-aig-authorization") then Ok (js "unused")
  else Throw (js "No API key for provider: " ++ provider).

Definition affinity_headers (compat : openai_compat) (sessionId : option jstr) : header_list :=
  match sessionId with
  | Some id =>
      if truthy id && oc_affinityHeaders compat then
        if streq (oc_affinityFormat compat) (js "openrouter") then [(js "x-session-id", Some id)]
        else (if streq (oc_affinityFormat compat) (js "openai") then [(js "session_id", Some id)] else []) ++
             [(js "x-client-request-id", Some id); (js "x-session-affinity", Some id)]
      else []
  | None => []
  end.

(** The headers of the client; its key and address are those of the call. *)
Definition createClient (userAgent : jstr) (m : model) (compat : openai_compat) (messages : list raw_message)
    (optionsHeaders : option header_list) (sessionId : option jstr) : header_list :=
  let strings := map (fun kv : jstr * jstr => (kv.1, Some kv.2)) in
  mergeHeaders2
    [Some [(js "User-Agent", Some userAgent)]; strings <$> m_headers m;
     (if streq (m_provider m) (js "github-copilot")
      then Some (strings (buildCopilotDynamicHeaders messages (hasCopilotVisionInput messages))) else None);
     Some (affinity_headers compat sessionId); optionsHeaders].
End Client.

(** The reasoning effort of [streamSimple]. *)
Definition simple_effort (m : model) (reasoning : option jstr) : option jstr :=
  match reasoning with
  | Some r =>
      if truthy r then
        let clamped := clampThinkingLevel m r in
        if streq clamped (js "off") then None else Some clamped
      else None
  | None => None
  end.

(** * Facts *)

(** ** A request *)

Definition chat_model : model :=
  Model (js "kimi-k2") (js "Kimi") (js "openai-completions") (js "moonshotai") (js "https://api.moonshot.ai/v1") true
    [js "text"; js "image"] 200000 64000 (CostRates 3 15 (3 # 10) (15 # 4)) None None None.

Definition no_compat : compat_options :=
  CompatOptions None None None None None None None None None None None None None None None None None None None None None
    None None None None None.

Definition kimi_compat : compat_options :=
  CompatOptions None None None None None None None (Some true) None None None None None None None None None None None None
    (Some (js "anthropic")) None (Some (js "kimi")) None None None.

Definition chat_messages : list raw_message :=
  [Complete (MUser (UString (js "hello")) 0);
   Complete (MAssistant (Assistant (js "openai") (js "openai-responses") (js "gpt")
     [BThinking (js "hm") None false; BToolCall (ToolCall (js "call|1") (js "read") (JObj []) None None);
      BToolCall (ToolCall (js "call|2") (js "read") JNull None None)] ToolUse None zero_usage 1));
   Complete (MToolResult (ToolResult (js "call|1") (js "read") [PText (js "text")] false (Some [js "extra"; js "extra"]) 2));
   Complete (MUser (UParts [PText (js "go on")]) 3)].

Definition chat_opts : chat_options :=
  ChatOptions (Some Long) (Some (js "s1")) (Some 4000) None None (Some (js "low")) (fun _ => None) None.

Definition chat_tools : option (list api_tool) := Some [sample_tool (js "read"); sample_tool (js "extra")].

Definition sample_chat : result jstr (list chat_message * option (list chat_tool)) :=
  chat_request lower_ascii int_num_str chat_model (Some kimi_compat) None 9 (Some (js "Be brief.")) chat_messages chat_tools chat_opts.

Example sample_chat_ex :
  let tool n := ChatTool (FunctionTool (js n) (js "a tool") (JObj [(js "type", JStr (js "object"))]) None) in
  sample_chat =
  Ok ([OInstructions false (CParts [CText (js "Be brief.") (Some (CacheControl true))]);
       OUser (CString (js "hello"));
       OAssistant (CString (js "hm")) None
         [FunctionCall (js "call_1") (js "read") (js "{}"); FunctionCall (js "call_2") (js "read") (js "null")] None false;
       OTool (CString (js "text")) (js "call_1") None;
       OTool (CString (js "No result provided")) (js "call_2") None;
       OTools [tool "extra"%string None];
       PROCESSED;
       OUser (CParts [CText (js "go on") (Some (CacheControl true))])],
      Some [tool "read"%string (Some (CacheControl true))]).
Proof. vm_compute. reflexivity. Qed.

(** ** Calls and results stay together *)

Definition call_id (c : wire_call) : jstr := match c with FunctionCall id _ _ | CustomCall id _ _ => id end.

Definition chat_calls (msg : chat_message) : list jstr :=
  match msg with OAssistant _ _ calls _ _ => map call_id calls | _ => [] end.

Definition result_id (msg : chat_message) : option jstr := match msg with OTool _ id _ => Some id | _ => None end.

Definition from_user (msg : chat_message) : bool := match msg with OUser _ => true | _ => false end.

Definition chat_tool_name (t : chat_tool) : jstr := match ct_kind t with FunctionTool n _ _ _ | CustomTool n _ _ _ => n end.

(** The tools a message offers. *)
Definition message_tools (msg : chat_message) : list jstr := match msg with OTools ts => map chat_tool_name ts | _ => [] end.

(** The results right at the start of a list of messages. *)
Fixpoint leading_results (ms : list chat_message) : list jstr :=
  match ms with
  | [] => []
  | msg :: r => match result_id msg with Some id => id :: leading_results r | None => [] end
  end.

(** Every call is answered by one of the tool messages right after it. *)
Fixpoint chat_paired (ms : list chat_message) : Prop :=
  match ms with
  | [] => True
  | msg :: r => Forall (fun id => id ∈ leading_results r) (chat_calls msg) /\ chat_paired r
  end.

(** No user message comes right after a tool message. *)
Fixpoint processed (ms : list chat_message) : Prop :=
  match ms with
  | [] => True
  | msg :: r =>
      match r with next :: _ => is_Some (result_id msg) -> from_user next = false | [] => True end /\ processed r
  end.

(** Messages that differ in their text at most. *)
Definition same_shape (a b : chat_message) : Prop :=
  chat_calls a = chat_calls b /\ result_id a = result_id b /\ from_user a = from_user b /\ message_tools a = message_tools b.

#[export] Instance same_shape_refl : Reflexive same_shape.
Proof. by intros x. Qed.

#[export] Instance same_shape_trans : Transitive same_shape.
Proof. intros x y z (H1 & H2 & H3 & H4) (H5 & H6 & H7 & H8). split_and!; congruence. Qed.

Lemma leading_same l l' : Forall2 same_shape l l' -> leading_results l = leading_results l'.
Proof. induction 1 as [|x y l l' (_ & H & _) HF IH]; [done|]. cbn. by rewrite H, IH. Qed.

Lemma paired_same l l' : Forall2 same_shape l l' -> chat_paired l -> chat_paired l'.
Proof.
  induction 1 as [|x y l l' (Hc & _) HF IH]; [done|]. intros [H1 H2]. split; [|by apply IH].
  by rewrite <- Hc, <- (leading_same _ _ HF).
Qed.

Lemma processed_same l l' : Forall2 same_shape l l' -> processed l -> processed l'.
Proof.
  induction 1 as [|x y l l' (_ & Hr & _) HF IH]; [done|]. intros [H1 H2]. split; [|by apply IH].
  destruct HF as [|u v l l' (_ & _ & Hu & _) HF]; [done|]. by rewrite <- Hr, <- Hu.
Qed.

Lemma calls_same l l' :
  Forall2 same_shape l l' ->
  l ≫= chat_calls = l' ≫= chat_calls /\ omap result_id l = omap result_id l' /\ l ≫= message_tools = l' ≫= message_tools.
Proof.
  induction 1 as [|x y l l' (Hc & Hr & _ & Ht) HF (IH1 & IH2 & IH3)]; [done|].
  rewrite !bind_cons, Hc, Ht, IH1, IH3. split_and!; [done| |done].
  cbn [omap list_omap]. rewrite Hr. by destruct (result_id y); [f_equal|].
Qed.

Lemma system_marker_shape cc ms : Forall2 same_shape ms (addCacheControlToSystemPrompt cc ms).
Proof.
  induction ms as [|msg ms IH]; [constructor|].
  destruct msg; cbn [addCacheControlToSystemPrompt]; constructor; try done; reflexivity.
Qed.

Lemma message_marker_shape cc msg msg' : addCacheControlToMessage cc msg = Some msg' -> same_shape msg msg'.
Proof.
  destruct msg as [d c|ts|c|c r calls d n|c id name]; cbn; try done; destruct (addCacheControlToTextContent cc c); cbn; intros; simplify_eq; done.
Qed.

Lemma last_marker_shape cc ms ms' : mark_last_message cc ms = Some ms' -> Forall2 same_shape ms ms'.
Proof.
  revert ms'. induction ms as [|msg ms IH]; intros ms'; [done|]. cbn [mark_last_message].
  destruct (mark_last_message cc ms) as [r|]; intros H.
  - injection H as <-. constructor; [reflexivity|by apply IH].
  - apply fmap_Some in H as (msg' & Hm & ->). constructor; [by apply message_marker_shape in Hm|]. reflexivity.
Qed.

Lemma markers_shape cc ms ts : Forall2 same_shape ms (applyAnthropicCacheControl cc ms ts).1.
Proof.
  unfold applyAnthropicCacheControl, addCacheControlToLastConversationMessage. cbn [fst].
  pose proof (system_marker_shape cc ms) as H1. etransitivity; [exact H1|].
  destruct (mark_last_message cc (addCacheControlToSystemPrompt cc ms)) as [l|] eqn:E; cbn [nullish]; [|reflexivity].
  by apply last_marker_shape in E.
Qed.

Section Loop.
Context (num_to_string : Q -> jstr) (m : model) (compat : openai_compat) (tools : option (list api_tool)).
Context (properties : gmap jstr jstr).
#[local] Abbreviation loop := (chat_loop num_to_string m compat tools properties).
#[local] Abbreviation chat_turn_of := (chat_turn num_to_string m compat properties).
#[local] Abbreviation closed := (close_run compat tools).

Definition is_result_message (msg : message) : bool := match msg with MToolResult _ => true | _ => false end.

Lemma chat_loop_turn msg rest run last out :
  is_result_message msg = false -> loop (msg :: rest) run last = Ok out ->
  exists before last1 here last2 more, closed run last = Ok (before, last1) /\ chat_turn_of msg last1 = Ok (here, last2) /\
    loop rest None last2 = Ok more /\ out = before ++ here ++ more.
Proof.
  intros Hr H. assert (H' : (let! c := closed run last in let '(before, last1) := c in
    let! converted := chat_turn_of msg last1 in let! more := loop rest None converted.2 in Ok (before ++ converted.1 ++ more)) = Ok out)
    by (by destruct msg).
  clear H. destruct (closed run last) as [[before last1]|]; [|done]. cbn [bind] in H'.
  destruct (chat_turn_of msg last1) as [[here last2]|] eqn:E; [|done]. cbn [bind fst snd] in H'.
  destruct (loop rest None last2) as [more|] eqn:El; [|done]. cbn [bind] in H'. injection H' as <-. eauto 10.
Qed.

(** Neither a call nor a result. *)
Definition plain_message (msg : chat_message) : Prop := chat_calls msg = [] /\ result_id msg = None.

Lemma close_run_plain run last before last1 :
  closed run last = Ok (before, last1) -> Forall plain_message before.
Proof.
  unfold close_run. destruct run as [[images names]|]; intros H; [|injection H as <- _; constructor].
  assert (Ha : Forall plain_message (match images with
    | [] => [] | _ => (if oc_assistantAfterToolResult compat then [PROCESSED] else []) ++
        [OUser (CParts (CText (js "Attached image(s) from tool result:") None :: images))] end)).
  { destruct images; [constructor|]. destruct (oc_assistantAfterToolResult compat); by repeat constructor. }
  destruct (getToolsByName tools names) as [|t ts]; [by injection H as <- _|].
  destruct (convertTools compat (t :: ts)); [|done]. cbn [bind] in H. injection H as <- _.
  apply Forall_app. split; [done|by repeat constructor].
Qed.

Lemma convert_call_id tc c : convert_call num_to_string properties tc = Ok c -> call_id c = tc_id tc.
Proof.
  unfold convert_call. destruct (properties !! tc_name tc) as [p|]; [|by intros [= <-]].
  destruct (getGrammarToolInput _ _ _); [|done]. by intros [= <-].
Qed.

Lemma convert_calls_ids tcs calls : map_throw (convert_call num_to_string properties) tcs = Ok calls -> map call_id calls = map tc_id tcs.
Proof.
  revert calls. induction tcs as [|tc tcs IH]; intros calls; cbn [map_throw]; [by intros [= <-]|].
  destruct (convert_call num_to_string properties tc) as [c|] eqn:E; [|done]. cbn [bind].
  destruct (map_throw _ tcs) as [cs|]; [|done]. intros [= <-]. cbn [map]. by rewrite (convert_call_id _ _ E), (IH _ eq_refl).
Qed.

Lemma assistant_turn a last here last2 :
  chat_turn_of (MAssistant a) last = Ok (here, last2) ->
  here = [] /\ last2 = last /\ tool_calls (a_content a) = [] \/
  exists x, here = [x] /\ last2 = false /\ chat_calls x = map tc_id (tool_calls (a_content a)) /\ result_id x = None /\ from_user x = false.
Proof.
  cbn [chat_turn]. unfold convert_chat_assistant. destruct (assistant_content m compat (a_content a)) as [c r].
  destruct (map_throw _ _) as [calls|] eqn:E; [|done]. apply convert_calls_ids in E. cbn [bind].
  destruct (negb (has_content c) && bool_decide (calls = [])) eqn:Eb; cbn [bind]; intros [= <- <-].
  - left. bool_to_prop. subst calls. cbn in E. by destruct (tool_calls (a_content a)).
  - right. eexists. split_and!; [done|done|exact E|done|done].
Qed.

Lemma user_turn c t last here last2 :
  chat_turn_of (MUser c t) last = Ok (here, last2) ->
  Forall plain_message here /\ (here = [] -> last2 = last) /\
  (oc_assistantAfterToolResult compat = true -> last = true ->
     exists l, here = PROCESSED :: l) /\ (last2 = true -> last = true).
Proof.
  cbn [chat_turn]. set (p := if _ && _ then _ else _).
  assert (Hp : Forall plain_message p) by (unfold p; destruct (_ && _); by repeat constructor).
  assert (Hq : oc_assistantAfterToolResult compat = true -> last = true -> p = [PROCESSED]) by (by unfold p; intros -> ->).
  destruct (convert_chat_user c) as [u|] eqn:E; intros [= <- <-].
  - split_and!; try done.
    + apply Forall_app. split; [done|]. constructor; [|done]. destruct c as [s|[|q qs]]; cbn in E; simplify_eq; done.
    + intros H. by destruct p.
    + intros H1 H2. rewrite Hq by done. by eexists.
  - split_and!; try done. intros H1 H2. rewrite Hq by done. by eexists.
Qed.

Lemma paired_plain_app l r : Forall plain_message l -> chat_paired r -> chat_paired (l ++ r).
Proof. intros HF Hr. induction HF as [|x l [Hx _] HF IH]; [done|]. cbn. by rewrite Hx. Qed.

Lemma processed_plain_app l r : Forall plain_message l -> processed r -> processed (l ++ r).
Proof.
  intros HF Hr. induction HF as [|x l [_ Hx] HF IH]; [done|]. cbn. split; [|done].
  destruct (l ++ r); [done|]. rewrite Hx. by intros [].
Qed.

Lemma loop_answers ms run last out id :
  Forall not_other ms -> loop ms run last = Ok out -> answered ms id -> id ∈ leading_results out.
Proof.
  unfold answered. intros HF. revert run out. induction HF as [|msg ms Hm HF IH]; intros run out Hl Ha; [by apply Exists_nil in Ha|].
  destruct msg as [c t|a|r|x t]; cbn [segment] in Ha; try (by apply Exists_nil in Ha); [|done].
  cbn [chat_loop] in Hl. destruct (loop ms _ _) as [more|] eqn:E; [|done]. cbn [bind] in Hl. injection Hl as <-.
  cbn. apply Exists_cons in Ha as [Ha|Ha]; [cbn in Ha; subst id; left|right; by eapply IH].
Qed.

Lemma loop_paired ms run last out :
  Forall not_other ms -> all_answered ms -> loop ms run last = Ok out -> chat_paired out.
Proof.
  intros HF. revert run last out. induction HF as [|msg ms Hm HF IH]; intros run last out Ha Hl.
  { cbn [chat_loop] in Hl. destruct (closed run last) as [[before last1]|] eqn:E; [|done]. cbn in Hl. injection Hl as <-.
    rewrite <- (app_nil_r before). by apply paired_plain_app; [eapply close_run_plain|]. }
  destruct (is_result_message msg) eqn:Er.
  { destruct msg as [c t|a|r|x t]; try done. cbn [chat_loop] in Hl. destruct (loop ms _ _) as [more|] eqn:E; [|done].
    cbn [bind] in Hl. injection Hl as <-. split; [constructor|by eapply IH]. }
  destruct (chat_loop_turn _ _ _ _ _ Er Hl) as (before & last1 & here & last2 & more & Hc & Ht & Hmore & ->).
  apply paired_plain_app; [by eapply close_run_plain|]. destruct msg as [c t|a|r|x t]; try done; cbn [all_answered] in Ha.
  - apply user_turn in Ht as (Hp & _). apply paired_plain_app; [done|by eapply IH].
  - destruct Ha as [Ha1 Ha2]. assert (Hpm : chat_paired more) by (by eapply IH).
    destruct (assistant_turn _ _ _ _ Ht) as [(-> & _)|(x & -> & _ & Hx & _)]; [done|]. split; [|done]. rewrite Hx.
    apply Forall_map. eapply Forall_impl; [exact Ha1|]. intros tc Htc. by eapply loop_answers.
Qed.

(** The results of a conversation. *)
Definition message_results (msg : message) : list jstr := match msg with MToolResult r => [tr_toolCallId r] | _ => [] end.

Lemma plain_calls l : Forall plain_message l -> l ≫= chat_calls = [] /\ omap result_id l = [].
Proof.
  induction 1 as [|x l [Hc Hr] HF [IH1 IH2]]; [done|]. rewrite bind_cons, Hc, IH1. split; [done|]. cbn [omap list_omap]. by rewrite Hr.
Qed.

Lemma loop_complete ms run last out :
  loop ms run last = Ok out -> out ≫= chat_calls = ms ≫= message_calls /\ omap result_id out = ms ≫= message_results.
Proof.
  revert run last out. induction ms as [|msg ms IH]; intros run last out Hl.
  { cbn [chat_loop] in Hl. destruct (closed run last) as [[before last1]|] eqn:E; [|done]. cbn in Hl. injection Hl as <-.
    by apply plain_calls; eapply close_run_plain. }
  destruct (is_result_message msg) eqn:Er.
  { destruct msg as [c t|a|r|x t]; try done. cbn [chat_loop] in Hl. destruct (loop ms _ _) as [more|] eqn:E; [|done].
    cbn [bind] in Hl. injection Hl as <-. apply IH in E as [E1 E2]. rewrite !bind_cons. cbn [omap list_omap result_id convert_chat_result].
    change (list_omap chat_message jstr result_id more) with (omap result_id more). by rewrite E1, E2. }
  destruct (chat_loop_turn _ _ _ _ _ Er Hl) as (before & last1 & here & last2 & more & Hc & Ht & Hmore & ->).
  apply close_run_plain, plain_calls in Hc as [Hc1 Hc2]. apply IH in Hmore as [Hm1 Hm2].
  rewrite !bind_app, !omap_app, !bind_cons, Hc1, Hc2, Hm1, Hm2. cbn [app].
  assert (Hh : here ≫= chat_calls = message_calls msg /\ omap result_id here = []).
  { destruct msg as [c t|a|r|x t]; try done.
    - apply user_turn in Ht as (Hp & _). by apply plain_calls.
    - destruct (assistant_turn _ _ _ _ Ht) as [(-> & _ & Hn)|(x & -> & _ & Hx & Hr & _)].
      + split; [|done]. cbn. by rewrite Hn.
      + rewrite bind_cons, app_nil_r, Hx. cbn. by rewrite Hr.
    - cbn in Ht. by injection Ht as <- _. }
  destruct Hh as [-> ->]. split; [done|]. by destruct msg.
Qed.

(** ** Tool results and user messages *)

Definition head_not_user (ms : list chat_message) : Prop := match ms with x :: _ => from_user x = false | [] => True end.

Lemma close_run_head run last before last1 :
  oc_assistantAfterToolResult compat = true -> run ≠ None \/ last = true -> closed run last = Ok (before, last1) ->
  head_not_user before /\ (before = [] -> last1 = true).
Proof.
  intros Ha Hr. unfold close_run. destruct run as [[images names]|].
  2: { intros [= <- <-]. naive_solver. }
  rewrite Ha. destruct (getToolsByName tools names) as [|t ts]; [|destruct (convertTools compat (t :: ts)); [|done]];
    intros [= <- <-]; by destruct images.
Qed.

Lemma loop_processed ms run last out :
  oc_assistantAfterToolResult compat = true -> Forall not_other ms -> loop ms run last = Ok out ->
  processed out /\ (run ≠ None \/ last = true -> head_not_user out).
Proof.
  intros Ha HF. revert run last out. induction HF as [|msg ms Hm HF IH]; intros run last out Hl.
  { cbn [chat_loop] in Hl. destruct (closed run last) as [[before last1]|] eqn:E; [|done]. cbn in Hl. injection Hl as <-. split.
    - rewrite <- (app_nil_r before). by apply processed_plain_app; [eapply close_run_plain|].
    - intros Hr. by destruct (close_run_head _ _ _ _ Ha Hr E). }
  destruct (is_result_message msg) eqn:Er.
  { destruct msg as [c t|a|r|x t]; try done. cbn [chat_loop] in Hl. destruct (loop ms _ _) as [more|] eqn:E; [|done].
    cbn [bind] in Hl. injection Hl as <-. apply IH in E as [Hp Hh]. split; [|done]. split; [|done].
    destruct more; [done|]. intros _. apply Hh. by left. }
  destruct (chat_loop_turn _ _ _ _ _ Er Hl) as (before & last1 & here & last2 & more & Hc & Ht & Hmore & ->).
  apply IH in Hmore as [Hp Hh].
  assert (Hrest : processed (here ++ more) /\ (last1 = true -> head_not_user (here ++ more))).
  { destruct msg as [c t|a|r|x t]; try done.
    - apply user_turn in Ht as (Hpl & _ & Hpr & _). split; [by apply processed_plain_app|].
      intros H1. by destruct (Hpr Ha H1) as [l ->].
    - destruct (assistant_turn _ _ _ _ Ht) as [(-> & -> & _)|(x & -> & _ & _ & Hx & Hu)]; [naive_solver|].
      split; [|done]. split; [|done]. destruct more; [done|]. rewrite Hx. by intros []. }
  destruct Hrest as [Hr1 Hr2]. split; [by apply processed_plain_app; [eapply close_run_plain|]|].
  intros Hr. destruct (close_run_head _ _ _ _ Ha Hr Hc) as [Hb1 Hb2]. destruct before; [by apply Hr2, Hb2|done].
Qed.

(** ** Tools are offered *)

(** A result among the messages adds the name. *)
Definition adds (ms : list message) (n : jstr) : Prop :=
  exists r, MToolResult r ∈ ms /\ n ∈ nullish (tr_addedToolNames r) [].

Lemma elem_of_dedup n l : n ∈ dedup l <-> n ∈ l.
Proof.
  unfold dedup. assert (H : forall acc, n ∈ foldl (fun acc x => if mem x acc then acc else acc ++ [x]) acc l <-> n ∈ acc \/ n ∈ l).
  { induction l as [|x l IH]; intros acc; cbn [foldl]; [set_solver|]. rewrite IH. destruct (mem x acc) eqn:E; [|set_solver].
    unfold mem in E. apply existsb_exists in E as (y & Hy & Ey). apply streq_true in Ey as ->. apply list_elem_of_In in Hy. set_solver. }
  rewrite H. set_solver.
Qed.

Lemma convertTools_names ts cs : convertTools compat ts = Ok cs -> map chat_tool_name cs = map at_name ts.
Proof.
  unfold convertTools. revert cs. induction ts as [|t ts IH]; intros cs; cbn [map_throw]; [by intros [= <-]|].
  destruct (convert_chat_tool compat t) as [c|] eqn:E; [|done]. cbn [bind]. destruct (map_throw _ ts) as [cs'|]; [|done].
  intros [= <-]. cbn [map]. rewrite (IH _ eq_refl). f_equal. unfold convert_chat_tool in E.
  destruct (resolveGrammarConstrainedSampling _ _) as [[g|]|]; cbn [bind] in E; [by simplify_eq| |done].
  destruct (resolveJsonSchemaStrictSampling _ _); [|done]. cbn [bind] in E.
  destruct (getJsonSchemaToolParameters _ _); [|done]. cbn [bind] in E. by simplify_eq.
Qed.

Lemma getToolsByName_names names n :
  n ∈ names -> n ∈ map at_name (nullish tools []) -> n ∈ map at_name (getToolsByName tools names).
Proof.
  intros Hn Ht. apply list_elem_of_fmap in Ht as (t & -> & Ht).
  destruct (List.find (fun t' => streq (at_name t') (at_name t)) (rev (nullish tools []))) as [t'|] eqn:E.
  - apply list_elem_of_fmap. exists t'. apply find_some in E as E'. destruct E' as [_ E']. apply streq_true in E'. split; [done|].
    unfold getToolsByName. apply list_elem_of_omap. by exists (at_name t).
  - eapply find_none in E; [|apply in_rev; rewrite rev_involutive; by apply list_elem_of_In]. by rewrite streq_refl in E.
Qed.

Lemma close_run_offers run last before last1 n :
  closed run last = Ok (before, last1) -> n ∈ map at_name (nullish tools []) ->
  (exists images names, run = Some (PendingRun images names) /\ n ∈ names) -> n ∈ before ≫= message_tools.
Proof.
  intros Hc Ht (images & names & -> & Hn). pose proof (getToolsByName_names names n Hn Ht) as Hin. cbn [close_run] in Hc.
  destruct (getToolsByName tools names) as [|t ts] eqn:E; [by apply list_elem_of_fmap in Hin as (? & _ & ?%elem_of_nil)|].
  destruct (convertTools compat (t :: ts)) as [cs|] eqn:Ec; [|done]. cbn [bind] in Hc. injection Hc as <- _.
  rewrite bind_app, bind_cons. apply elem_of_app. right. apply elem_of_app. left. cbn [message_tools].
  by rewrite (convertTools_names _ _ Ec).
Qed.

Lemma loop_offers ms run last out n :
  kimi compat = true -> n ∈ map at_name (nullish tools []) -> loop ms run last = Ok out ->
  adds ms n \/ (exists images names, run = Some (PendingRun images names) /\ n ∈ names) -> n ∈ out ≫= message_tools.
Proof.
  intros Hk Ht. revert run last out. induction ms as [|msg ms IH]; intros run last out Hl Hn.
  { cbn [chat_loop] in Hl. destruct (closed run last) as [[before last1]|] eqn:E; [|done]. cbn in Hl. injection Hl as <-.
    destruct Hn as [(r & Hr & _)|Hn]; [by apply elem_of_nil in Hr|]. by eapply close_run_offers. }
  destruct (is_result_message msg) eqn:Er.
  { destruct msg as [c t|a|r|x t]; try done. cbn [chat_loop] in Hl. destruct (loop ms _ _) as [more|] eqn:E; [|done].
    cbn [bind] in Hl. injection Hl as <-. rewrite bind_cons. cbn [message_tools convert_chat_result app].
    eapply IH; [exact E|]. destruct Hn as [(r' & Hr & Hn)|(images & names & -> & Hn)].
    - apply elem_of_cons in Hr as [[= ->]|Hr]; [right|left; by exists r']. unfold collect. rewrite Hk.
      eexists _, _. split; [done|]. unfold add_names. apply elem_of_dedup. set_solver.
    - right. unfold collect. rewrite Hk. eexists _, _. split; [done|]. unfold add_names. apply elem_of_dedup. set_solver. }
  destruct (chat_loop_turn _ _ _ _ _ Er Hl) as (before & last1 & here & last2 & more & Hc & Ht' & Hmore & ->).
  rewrite !bind_app. destruct Hn as [(r & Hr & Hn)|Hn].
  - apply elem_of_cons in Hr as [Hr|Hr]; [by subst msg|]. assert (n ∈ more ≫= message_tools); [|set_solver].
    eapply IH; [exact Hmore|]. left. by exists r.
  - assert (n ∈ before ≫= message_tools) by (by eapply close_run_offers). set_solver.
Qed.
End Loop.

(** The replay keeps what its tool results add. *)
Lemma adds_cons msg ms n : adds ms n -> adds (msg :: ms) n.
Proof. intros (r & Hr & Hn). exists r. set_solver. Qed.

Lemma downgrade_adds ms n : adds ms n -> adds (map downgrade_message ms) n.
Proof.
  intros (r & Hr & Hn). apply (list_elem_of_fmap_2 downgrade_message) in Hr. cbn [downgrade_message] in Hr. by eexists.
Qed.

Lemma transform_pass_adds target norm ms ids n : adds ms n -> adds (transform_pass target norm ms ids) n.
Proof.
  intros (r & Hr & Hn). revert ids. induction ms as [|msg ms IH]; intros ids; [by apply elem_of_nil in Hr|].
  cbn [transform_pass]. destruct (transform_message target norm msg ids) as [msg' ids'] eqn:E.
  apply elem_of_cons in Hr as [<-|Hr]; [|by apply adds_cons, IH].
  assert (exists r', msg' = MToolResult r' /\ tr_addedToolNames r' = tr_addedToolNames r) as (r' & -> & Hr').
  { cbn [transform_message] in E. destruct (ids !! tr_toolCallId r) as [k|]; [destruct (_ && _)|]; injection E as <- _; by eexists. }
  exists r'. rewrite Hr'. split; [left|done].
Qed.

Lemma pair_results_adds now ms p e n : adds ms n -> adds (pair_results now ms p e) n.
Proof.
  intros (r & Hr & Hn). exists r. split; [|done]. clear Hn. revert p e.
  induction ms as [|msg ms IH]; intros p e; [by apply elem_of_nil in Hr|].
  destruct msg as [c t|a|r'|x t]; cbn [pair_results].
  - apply elem_of_cons in Hr as [?|Hr]; [done|]. apply elem_of_app. right. right. by apply IH.
  - apply elem_of_cons in Hr as [?|Hr]; [done|]. apply elem_of_app. right. case_bool_decide; [by apply IH|].
    destruct (tool_calls (a_content a)); right; by apply IH.
  - apply elem_of_cons in Hr as [Hr|Hr]; [rewrite Hr; left|right; by apply IH].
  - apply elem_of_cons in Hr as [?|Hr]; [done|]. right. by apply IH.
Qed.

Lemma deferred_added messages n :
  n ∈ getDeferredToolNames messages -> adds (map normalize_content messages) n.
Proof.
  unfold getDeferredToolNames.
  assert (H : forall acc, n ∈ foldl add_names acc (omap raw_result messages) -> n ∈ acc \/ adds (map normalize_content messages) n).
  { induction messages as [|x messages IH]; intros acc Hn; [by left|]. cbn [omap list_omap map] in *.
    destruct (raw_result x) as [r|] eqn:E; [|apply IH in Hn as [?|?]; [by left|right; by apply adds_cons]].
    cbn [foldl] in Hn. apply IH in Hn as [Hn|Hn]; [|right; by apply adds_cons].
    unfold add_names in Hn. apply elem_of_dedup, elem_of_app in Hn as [Hn|Hn]; [by left|]. right.
    destruct x as [[| |r'|]| | |r']; try done; injection E as ->; eexists; (split; [left|exact Hn]). }
  intros Hn. apply H in Hn as [?%elem_of_nil|?]; done.
Qed.

Lemma transform_adds messages target norm now n :
  n ∈ getDeferredToolNames messages -> adds (transformMessages messages target norm now) n.
Proof.
  intros Hn. apply deferred_added in Hn. unfold transformMessages. apply pair_results_adds, transform_pass_adds.
  unfold downgradeUnsupportedImages. case_bool_decide; [done|by apply downgrade_adds].
Qed.

(** ** Requests *)

Section Requests.
Context (toLowerCase : jstr -> jstr) (num_to_string : Q -> jstr) (m : model) (c : option compat_options).
Context (envValue : option jstr) (now : Z) (systemPrompt : option jstr) (messages : list raw_message).
Context (tools : option (list api_tool)) (o : chat_options).
#[local] Abbreviation the_chat := (chat_request toLowerCase num_to_string m c envValue now systemPrompt messages tools o).
#[local] Abbreviation the_compat := (getCompat toLowerCase m c).
#[local] Abbreviation replayed :=
  (transformMessages messages m (Some (fun id _ _ => normalizeToolCallId2 (m_provider m) id)) now).

Lemma update_last_names cc ts : map chat_tool_name (addCacheControlToLastTool cc ts) = map chat_tool_name ts.
Proof. unfold addCacheControlToLastTool. induction ts as [|t [|u ts] IH]; [done|done|]. cbn [update_last_of map] in *. by rewrite IH. Qed.

(** A request is made of the converted conversation and the tools that are not
    deferred; the markers keep the shape of both. *)
Lemma chat_parts ms ts :
  the_chat = Ok (ms, ts) ->
  exists properties converted,
    chat_loop num_to_string m the_compat tools properties replayed None false = Ok converted /\
    Forall2 same_shape (instructions m the_compat systemPrompt ++ converted) ms /\
    map chat_tool_name (nullish ts []) =
      map at_name (List.filter (fun t => negb (mem (at_name t) (if kimi the_compat then getDeferredToolNames messages else [])))
                     (nullish tools [])).
Proof.
  unfold chat_request. destruct (createGrammarToolInputProperties _ _) as [properties|]; [|done]. cbn [bind].
  unfold convertMessages. destruct (chat_loop _ _ _ _ _ _ _ _) as [converted|] eqn:El; [|done]. cbn [bind].
  set (active := List.filter _ _). intros H. exists properties, converted. split; [done|].
  destruct (match active with [] => Ok (if hasToolHistory messages then Some [] else None)
    | _ => let! ts := convertTools the_compat active in Ok (Some ts) end) as [ts0|] eqn:Et; [|done]. cbn [bind] in H.
  assert (Hn : map chat_tool_name (nullish ts0 []) = map at_name active).
  { destruct active as [|t l]; [by destruct (hasToolHistory messages); injection Et as <-|].
    destruct (convertTools the_compat (t :: l)) as [cs|] eqn:Ec; [|done]. cbn [bind] in Et. injection Et as <-.
    by apply convertTools_names in Ec. }
  destruct (getCompatCacheControl _ _) as [cc|]; injection H as <- <-.
  - split; [apply (markers_shape cc _ ts0)|]. rewrite <- Hn. destruct ts0 as [ts0|]; [apply update_last_names|done].
  - split; [reflexivity|done].
Qed.

Lemma instructions_plain : Forall plain_message (instructions m the_compat systemPrompt).
Proof. unfold instructions. destruct (truthy_opt systemPrompt); by repeat constructor. Qed.

(** C36: In every request each tool call of an assistant message is answered by one of
    the tool messages right after it; the calls and the results of the request are
    those of the conversation as it is replayed, in order, whatever the markers,
    attached images and tool messages that are put between them. *)
Theorem openai_request_pairs ms ts :
  Forall raw_not_other messages -> the_chat = Ok (ms, ts) ->
  chat_paired ms /\ ms ≫= chat_calls = replayed ≫= message_calls /\ omap result_id ms = replayed ≫= message_results.
Proof.
  intros HF H. destruct (chat_parts ms ts H) as (properties & converted & Hl & Hs & _).
  pose proof instructions_plain as Hi. destruct (calls_same _ _ Hs) as (<- & <- & _).
  destruct (loop_complete _ _ _ _ _ _ _ _ _ Hl) as [H1 H2]. destruct (plain_calls _ Hi) as [H3 H4].
  rewrite bind_app, omap_app, H1, H2, H3, H4. split; [|done]. eapply paired_same; [exact Hs|].
  apply paired_plain_app; [done|]. eapply loop_paired; [by apply transformMessages_not_other|apply pair_results_answered|exact Hl].
Qed.

(** A provider that wants an assistant message after tool results gets one: no user
    message of a request comes right after a tool message. *)
Theorem openai_results_processed ms ts :
  Forall raw_not_other messages -> oc_assistantAfterToolResult the_compat = true -> the_chat = Ok (ms, ts) -> processed ms.
Proof.
  intros HF Ha H. destruct (chat_parts ms ts H) as (properties & converted & Hl & Hs & _).
  eapply processed_same; [exact Hs|]. apply processed_plain_app; [apply instructions_plain|].
  eapply loop_processed; [exact Ha|by apply transformMessages_not_other|exact Hl].
Qed.

(** Every tool of the context is offered, with the request or, for a provider that
    defers tools, in a message of the request; without deferral the request offers
    exactly the tools of the context. *)
Theorem openai_tools_offered ms ts :
  the_chat = Ok (ms, ts) ->
  (forall t, t ∈ nullish tools [] -> at_name t ∈ map chat_tool_name (nullish ts []) \/ at_name t ∈ ms ≫= message_tools) /\
  (kimi the_compat = false -> map chat_tool_name (nullish ts []) = map at_name (nullish tools [])).
Proof.
  intros H. destruct (chat_parts ms ts H) as (properties & converted & Hl & Hs & ->). split.
  - intros t Ht. set (deferred := if kimi the_compat then getDeferredToolNames messages else []).
    destruct (mem (at_name t) deferred) eqn:E.
    + right. unfold mem in E. apply existsb_exists in E as (n & Hn & En). apply streq_true in En as <-. apply list_elem_of_In in Hn.
      unfold deferred in Hn. destruct (kimi the_compat) eqn:Ek; [|by apply elem_of_nil in Hn].
      destruct (calls_same _ _ Hs) as (_ & _ & <-). rewrite bind_app. apply elem_of_app. right.
      eapply loop_offers; [exact Ek|by apply list_elem_of_fmap_2|exact Hl|]. left. by apply transform_adds.
    + left. apply list_elem_of_fmap_2, list_elem_of_In, filter_In. split; [by apply list_elem_of_In|]. by rewrite E.
  - intros ->. f_equal. by apply forallb_filter_id, forallb_forall.
Qed.
End Requests.

(** ** Identifiers *)

Lemma clean_id_ok s : Forall (fun x => id_char x = true) (clean_id s).
Proof. apply Forall_map, Forall_true. intros x. destruct (id_char x) eqn:Ex; [done|reflexivity]. Qed.

Lemma hash_chars_ok s : Forall (fun x => id_char x = true) (shortHash s).
Proof.
  destruct (shortHash_shape s) as [Hh _]. eapply Forall_impl; [exact Hh|].
  unfold alnum36, id_char. intros x Hx. rewrite !orb_true_iff, !andb_true_iff, !Z.leb_le. lia.
Qed.

Lemma hash_id_ok s : Forall (fun x => id_char x = true) (take 8 (shortHash s)).
Proof. apply Forall_take, hash_chars_ok. Qed.

Definition good_id (n : jstr) : Prop := (length n <= 40)%nat /\ Forall (fun x => id_char x = true) n.

Lemma hashed_id_ok id callId :
  Forall (fun x => id_char x = true) callId ->
  good_id (take (Nat.max 1 (40 - length (take 8 (shortHash id)) - 1)) callId ++ js "_" ++ take 8 (shortHash id)).
Proof.
  intros Hc. pose proof (hash_id_ok id) as Hh. destruct (shortHash_shape id) as [_ Hl]. split.
  - rewrite !length_app, !length_take. change (length (js "_")) with 1%nat. lia.
  - repeat (apply Forall_app; split); [by apply Forall_take|by repeat constructor|done].
Qed.

Lemma combined_id_ok callId itemId :
  Forall (fun x => id_char x = true) callId -> Forall (fun x => id_char x = true) itemId ->
  Forall (fun x => id_char x = true) (if truthy itemId then callId ++ js "_" ++ itemId else callId).
Proof. intros Hc Hi. destruct (truthy itemId); [|done]. repeat (apply Forall_app; split); [done|by repeat constructor|done]. Qed.

(** An identifier that is split in two, or goes to OpenAI, takes at most forty
    units; a split one has letters, digits, underscores and hyphens only, and is
    not empty unless nothing was on either side of the bar. *)
Theorem openai_call_ids provider id :
  let n := normalizeToolCallId2 provider id in
  (provider = js "openai" -> (length n <= 40)%nat) /\
  (includes (js "|") id = true -> good_id n /\ (n = [] -> id = js "|")).
Proof.
  unfold normalizeToolCallId2, includes. destruct (index_of (js "|") id) as [k|] eqn:E; cbn zeta.
  2: { split; [|done]. intros ->. rewrite streq_refl, length_take. lia. }
  pose proof (clean_id_ok (take k id)) as Hc. pose proof (clean_id_ok (drop (S k) id)) as Hi.
  destruct (Nat.leb_spec (length (if truthy (clean_id (drop (S k) id)) then clean_id (take k id) ++ js "_" ++ clean_id (drop (S k) id)
    else clean_id (take k id))) 40) as [Hl|Hl].
  - split; [done|]. intros _. split; [split; [done|by apply combined_id_ok]|]. intros Hn.
    destruct (clean_id (drop (S k) id)) eqn:Ei; cbn [truthy] in Hn; [|by destruct (clean_id (take k id))].
    apply map_eq_nil in Hn, Ei. apply index_of_Some in E as (r & E & _). rewrite Hn in E. cbn [app] in E. subst id.
    destruct k; [|done]. cbn in Ei. rewrite drop_0 in Ei. by rewrite Ei.
  - pose proof (hashed_id_ok id _ Hc) as Hg. split; [intros _; by destruct Hg|]. intros _. split; [done|].
    intros Hn. by destruct (take _ (clean_id (take k id))).
Qed.

(** A thinking budget is positive and leaves room for the answer. *)
Theorem openai_budget_leaves_room m o b :
  resolveClampedThinkingBudget m o = Some b -> 0 < b <= nullish (requested_max o) (m_maxTokens m) - MIN_ANSWER_TOKENS.
Proof.
  unfold resolveClampedThinkingBudget, clampThinkingBudgetToAnswerRoom. destruct (active_effort o) as [e|]; [|done].
  destruct (m_reasoning m); [|done]. destruct (assoc e effort_levels) as [l|]; [|done].
  destruct (Z.ltb_spec 0 (Z.min (thinkingBudgetForLevel l (cho_thinkingBudgets o))
    (Z.max 0 (nullish (requested_max o) (m_maxTokens m) - MIN_ANSWER_TOKENS)))); [|done]. intros [= <-]. lia.
Qed.

(** ** Witnesses *)

Lemma chat_not_other : Forall raw_not_other chat_messages.
Proof. repeat constructor. Qed.

Lemma openai_request_pairs_witness :
  match sample_chat with Ok (ms, _) => chat_paired ms /\ ms ≫= chat_calls = [js "call_1"; js "call_2"] | Throw _ => False end.
Proof.
  destruct sample_chat as [[ms ts]|e] eqn:E; [|vm_compute in E; discriminate].
  destruct (openai_request_pairs lower_ascii int_num_str chat_model (Some kimi_compat) None 9 (Some (js "Be brief."))
    chat_messages chat_tools chat_opts ms ts chat_not_other E) as (H1 & H2 & _).
  split; [exact H1|]. rewrite H2. vm_compute. reflexivity.
Defined.

Lemma openai_results_processed_witness :
  match sample_chat with Ok (ms, _) => processed ms | Throw _ => False end.
Proof.
  destruct sample_chat as [[ms ts]|e] eqn:E; [|vm_compute in E; discriminate].
  exact (openai_results_processed lower_ascii int_num_str chat_model (Some kimi_compat) None 9 (Some (js "Be brief."))
    chat_messages chat_tools chat_opts ms ts chat_not_other eq_refl E).
Defined.

Lemma openai_tools_offered_witness :
  match sample_chat with
  | Ok (ms, ts) => at_name (sample_tool (js "extra")) ∈ map chat_tool_name (nullish ts []) \/
      at_name (sample_tool (js "extra")) ∈ ms ≫= message_tools
  | Throw _ => False
  end.
Proof.
  destruct sample_chat as [[ms ts]|e] eqn:E; [|vm_compute in E; discriminate].
  apply (proj1 (openai_tools_offered lower_ascii int_num_str chat_model (Some kimi_compat) None 9 (Some (js "Be brief."))
    chat_messages chat_tools chat_opts ms ts E)). right. left.
Defined.

(** Identifiers longer than forty units are cut without a hash when they go to
    OpenAI: two calls that agree up to there are sent with one identifier. *)
Lemma long_ids_collide :
  let a := replicate 40 97 ++ js "1" in let b := replicate 40 97 ++ js "2" in
  a ≠ b /\ normalizeToolCallId2 (js "openai") a = normalizeToolCallId2 (js "openai") b.
Proof. split; [discriminate|reflexivity]. Qed.
