(* ===== verification/OpenaiStream.v ===== *)
(** The answer of a chat completions API: how the chunks of a response become an
    assistant message and the events of its stream (packages/ai,
    api/openai-completions.js, bundled in src/drivers/tools/pibridge/bridge.mjs).
    The chunks are read from JSON as the API documents them; a chunk whose fields
    have other types is outside the model.  The SDK that reads the body, [parse] of
    the partial-json package and the printing of numbers are parameters. *)
From S2P Require Import Prelude Utf8 Numbers Json JsonText Messages TransformMessages JsonRepair Sse ConstrainedSampling EventStream Models Faux Estimate AnthropicMessages AnthropicStream StreamMonad OpenaiCommon OpenaiCompletions.
Open Scope Z_scope.

(** ** Chunks *)

Record raw_usage := RawUsage {
  ru_prompt : option Z; ru_completion : option Z;
  ru_detailsCached : option Z;               (* [prompt_tokens_details.cached_tokens] *)
  ru_cacheHit : option Z; ru_cached : option Z; ru_cacheWrite : option Z; ru_reasoning : option Z
}.

(** The [function] and [custom] fields of a tool call: a name and a piece of its input. *)
Record call_piece := CallPiece { cp_name : option jstr; cp_input : option jstr }.

Record tool_delta := ToolDelta {
  tl_index : option Z; tl_id : option jstr; tl_function : option call_piece; tl_custom : option call_piece
}.

Record chat_delta := ChatDelta {
  cd_content : option jstr;
  cd_reasoning : list (jstr * jstr);         (* the reasoning fields that are strings *)
  cd_tools : list tool_delta;
  cd_details : list json
}.

Record choice := Choice { ch_usage : option raw_usage; ch_finish : option jstr; ch_delta : option chat_delta }.

Record chunk := Chunk { ck_id : option jstr; ck_model : option jstr; ck_usage : option raw_usage; ck_choice : option choice }.

(** ** Reading them *)

Definition read_usage (u : option json) : option (option raw_usage) :=
  if negb (truthy_json u) then Some None
  else
    p ← as_opt_int (field "prompt_tokens" u);
    c ← as_opt_int (field "completion_tokens" u);
    d ← as_opt_int (field "cached_tokens" (field "prompt_tokens_details" u));
    h ← as_opt_int (field "prompt_cache_hit_tokens" u);
    t ← as_opt_int (field "cached_tokens" u);
    w ← as_opt_int (field "cache_write_tokens" (field "prompt_tokens_details" u));
    r ← as_opt_int (field "reasoning_tokens" (field "completion_tokens_details" u));
    Some (Some (RawUsage p c d h t w r)).

Definition read_piece (input : string) (v : option json) : option (option call_piece) :=
  match v with
  | None | Some JNull => Some None
  | _ => n ← as_opt_string (field "name" v); i ← as_opt_string (field input v); Some (Some (CallPiece n i))
  end.

Definition read_tool (v : json) : option tool_delta :=
  let v := Some v in
  i ← as_opt_int (field "index" v); id ← as_opt_string (field "id" v);
  f ← read_piece "arguments" (field "function" v); c ← read_piece "input" (field "custom" v);
  Some (ToolDelta i id f c).

Definition reasoning_fields : list string := ["reasoning_content"; "reasoning"; "reasoning_text"]%string.

Definition read_chat_delta (v : option json) : option (option chat_delta) :=
  if negb (truthy_json v) then Some None
  else
    c ← as_opt_string (field "content" v);
    ts ← (if truthy_json (field "tool_calls" v) then as_list (field "tool_calls" v) ≫= mapM read_tool else Some []);
    Some (Some (ChatDelta c (omap (fun f => pair (js f) <$> as_string (field f v)) reasoning_fields) ts
                  (nullish (as_list (field "reasoning_details" v)) []))).

Definition read_chunk (v : json) : option chunk :=
  let v := Some v in
  i ← as_opt_string (field "id" v); u ← read_usage (field "usage" v);
  let choice := match as_list (field "choices" v) with Some (x :: _) => Some x | _ => None end in
  c ← (if truthy_json choice then
         cu ← read_usage (field "usage" choice); f ← as_opt_string (field "finish_reason" choice);
         d ← read_chat_delta (field "delta" choice); Some (Some (Choice cu f d))
       else Some None);
  Some (Chunk i (as_string (field "model" v)) u c).

(** ** Usage and stop reasons *)

(** The tokens of a usage report, and its [reasoning]. *)
Definition chunk_tokens (u : raw_usage) : usage :=
  let cacheRead := nullish (or_option (ru_detailsCached u) (or_option (ru_cacheHit u) (ru_cached u))) 0 in
  let cacheWrite := or_zero (ru_cacheWrite u) in
  let input := Z.max 0 (or_zero (ru_prompt u) - cacheRead - cacheWrite) in
  let output := or_zero (ru_completion u) in
  Usage input output cacheRead cacheWrite (input + output + cacheRead + cacheWrite) None zero_cost.

Definition parseChunkUsage (u : raw_usage) (m : model) : usage * dollars * Z :=
  (chunk_tokens u, calculateCost m (chunk_tokens u), or_zero (ru_reasoning u)).

Definition mapStopReason (reason : jstr) : stop_reason * option jstr :=
  if streq reason (js "stop") || streq reason (js "end") then (Stop, None)
  else if streq reason (js "length") then (Length, None)
  else if streq reason (js "function_call") || streq reason (js "tool_calls") then (ToolUse, None)
  else (Error, Some (js "Provider finish_reason: " ++ reason)).

(** ** Reasoning details *)

(** An object whose fields may be [undefined]. *)
Definition detail : Type := list (jstr * option json).

Definition detail_of (v : json) : detail :=
  match v with JObj fs => map (fun kv => (kv.1, Some kv.2)) fs | _ => [] end.

Definition detail_get (k : string) (d : detail) : option json := match assoc (js k) d with Some v => v | None => None end.

(** [d.k = v] *)
Definition detail_set (k : string) (v : option json) (d : detail) : detail := map_set (js k) v d.

(** [target.k ??= source.k] and [target.k ||= source.k] *)
Definition set_if_nullish (k : string) (source target : detail) : detail :=
  match detail_get k target with None | Some JNull => detail_set k (detail_get k source) target | _ => target end.

Definition set_if_falsy (k : string) (source target : detail) : detail :=
  if truthy_json (detail_get k target) then target else detail_set k (detail_get k source) target.

Definition fillMissingCommonReasoningDetailFields (target source : detail) : detail :=
  set_if_nullish "index" source (set_if_falsy "format" source (set_if_nullish "id" source target)).

Definition detail_string (k : string) (d : detail) : jstr :=
  match detail_get k d with Some (JStr s) => s | _ => [] end.

(** [target.k += source.k] for strings. *)
Definition append_string (k : string) (source target : detail) : detail :=
  detail_set k (Some (JStr (detail_string k target ++ detail_string k source))) target.

Definition detail_type (t : string) (d : detail) : bool := bool_decide (detail_get "type" d = Some (JStr (js t))).

Definition appendOpenAIReasoningDetail (details : list detail) (d : detail) : list detail :=
  match last details with
  | Some lastDetail =>
      let front := removelast details in
      if detail_type "reasoning.text" d && detail_type "reasoning.text" lastDetail then
        front ++ [fillMissingCommonReasoningDetailFields (set_if_falsy "signature" d (append_string "text" d lastDetail)) d]
      else if detail_type "reasoning.summary" d && detail_type "reasoning.summary" lastDetail then
        front ++ [fillMissingCommonReasoningDetailFields (append_string "summary" d lastDetail) d]
      else details ++ [d]
  | None => details ++ [d]
  end.

Definition details_json (ds : list detail) : json := JArr (map obj ds).

(** ** The state of a stream *)

(** A block with the fields it has while it is streamed; [sb_custom] is
    [customInput], its property and buffer. *)
Record stream_block := StreamBlock {
  sb_block : block; sb_partialArgs : option jstr; sb_custom : option (jstr * grammar_buffer); sb_streamIndex : option Z
}.

(** What a response says besides its content; [mt_stop] is [None] while pending. *)
Record meta := Meta {
  mt_responseId : option jstr; mt_responseModel : option jstr;
  mt_usage : usage; mt_cost : dollars; mt_reasoning : option Z;
  mt_stop : option stop_reason; mt_rawStop : option jstr; mt_error : option jstr;
  mt_finished : bool                           (* [hasFinishReason] *)
}.

(** A block is referred to by its position, which never changes. *)
Record chat_state := ChatState {
  cs_blocks : list stream_block;
  cs_text : option nat;                        (* [textBlock] *)
  cs_thinking : option nat;                    (* [thinkingBlock] *)
  cs_byIndex : gmap Z nat;
  cs_byId : gmap jstr nat;
  cs_details : option (list detail);           (* [streamedReasoningDetails] *)
  cs_meta : meta
}.

Definition zero_dollars : dollars := Dollars (Finite 0) (Finite 0) (Finite 0) (Finite 0) (Finite 0).

Definition meta_init : meta := Meta None None zero_usage zero_dollars None None None None false.

Definition chat_init : chat_state := ChatState [] None None ∅ ∅ None meta_init.

Definition set_blocks (f : list stream_block -> list stream_block) (s : chat_state) : chat_state :=
  ChatState (f (cs_blocks s)) (cs_text s) (cs_thinking s) (cs_byIndex s) (cs_byId s) (cs_details s) (cs_meta s).
Definition set_text (k : nat) (s : chat_state) : chat_state :=
  ChatState (cs_blocks s) (Some k) (cs_thinking s) (cs_byIndex s) (cs_byId s) (cs_details s) (cs_meta s).
Definition set_thinking (k : nat) (s : chat_state) : chat_state :=
  ChatState (cs_blocks s) (cs_text s) (Some k) (cs_byIndex s) (cs_byId s) (cs_details s) (cs_meta s).
Definition set_byIndex (i : Z) (k : nat) (s : chat_state) : chat_state :=
  ChatState (cs_blocks s) (cs_text s) (cs_thinking s) (<[i := k]> (cs_byIndex s)) (cs_byId s) (cs_details s) (cs_meta s).
Definition set_byId (id : jstr) (k : nat) (s : chat_state) : chat_state :=
  ChatState (cs_blocks s) (cs_text s) (cs_thinking s) (cs_byIndex s) (<[id := k]> (cs_byId s)) (cs_details s) (cs_meta s).
Definition set_details (ds : list detail) (s : chat_state) : chat_state :=
  ChatState (cs_blocks s) (cs_text s) (cs_thinking s) (cs_byIndex s) (cs_byId s) (Some ds) (cs_meta s).
Definition set_meta (f : meta -> meta) (s : chat_state) : chat_state :=
  ChatState (cs_blocks s) (cs_text s) (cs_thinking s) (cs_byIndex s) (cs_byId s) (cs_details s) (f (cs_meta s)).

#[local] Abbreviation M := (streamM chat_state).

Definition new_stream_block (b : block) : stream_block := StreamBlock b None None None.

(** The block at a position. *)
Definition block_m (k : nat) : M stream_block := fun s =>
  ([], s, Ok (nullish (cs_blocks s !! k) (new_stream_block (BText [] None)))).

Definition update_m (k : nat) (f : stream_block -> stream_block) : M () := modify_m (set_blocks (alter f k)).

Definition on_call (f : toolCall -> toolCall) (b : stream_block) : stream_block :=
  match sb_block b with
  | BToolCall tc => StreamBlock (BToolCall (f tc)) (sb_partialArgs b) (sb_custom b) (sb_streamIndex b)
  | _ => b
  end.

Definition call_of (b : stream_block) : toolCall :=
  match sb_block b with BToolCall tc => tc | _ => ToolCall [] [] (JObj []) None None end.

Definition with_id (id : jstr) (tc : toolCall) : toolCall := ToolCall id (tc_name tc) (tc_arguments tc) (tc_thoughtSignature tc) (tc_namespace tc).
Definition with_name (name : jstr) (tc : toolCall) : toolCall := ToolCall (tc_id tc) name (tc_arguments tc) (tc_thoughtSignature tc) (tc_namespace tc).
Definition with_arguments (v : json) (tc : toolCall) : toolCall := ToolCall (tc_id tc) (tc_name tc) v (tc_thoughtSignature tc) (tc_namespace tc).

(** ** The stream *)

Section Stream.
Context (num_to_string : Q -> jstr) (partial_parse : jstr -> option json).
Context (m : model) (grammarToolInputProperties : gmap jstr jstr) (supportsFinishReason : bool) (now : Z).

Definition getCustomToolCallInput2 (b : stream_block) : jstr :=
  match sb_custom b with
  | Some (property, _) => match get property (tc_arguments (call_of b)) with Some (JStr s) => s | _ => [] end
  | None => []
  end.

(** The delta, if there is one. *)
Definition appendCustomToolCallInput2 (k : nat) (nextInput : jstr) (close : bool) : M (option jstr) :=
  let* b := block_m k in
  match sb_custom b with
  | None => ret None
  | Some (property, buffer) =>
      let* r := lift_m (appendGrammarToolInputJsonDelta buffer property nextInput close) in
      let '(delta, buffer') := r in
      let* _ := update_m k (fun b =>
        let b := on_call (with_arguments (JObj [(property, JStr nextInput)])) b in
        StreamBlock (sb_block b) (sb_partialArgs b) (Some (property, buffer')) (sb_streamIndex b)) in
      ret delta
  end.

Definition ensureTextBlock : M nat :=
  let* s := state_m in
  match cs_text s with
  | Some k => ret k
  | None =>
      let k := length (cs_blocks s) in
      let* _ := modify_m (fun s => set_text k (set_blocks (fun bs => bs ++ [new_stream_block (BText [] None)]) s)) in
      let* _ := push_m (EvTextStart (Z.of_nat k)) in
      ret k
  end.

Definition ensureThinkingBlock (thinkingSignature : jstr) : M nat :=
  let* s := state_m in
  match cs_thinking s with
  | Some k => ret k
  | None =>
      let k := length (cs_blocks s) in
      let* _ := modify_m (fun s => set_thinking k
        (set_blocks (fun bs => bs ++ [new_stream_block (BThinking [] (Some thinkingSignature) false)]) s)) in
      let* _ := push_m (EvThinkingStart (Z.of_nat k)) in
      ret k
  end.

Definition piece_name (t : tool_delta) : option jstr := or_option (tl_function t ≫= cp_name) (tl_custom t ≫= cp_name).

(** [toolCall.custom && !toolCall.function] *)
Definition custom_only (t : tool_delta) : bool := bool_decide (is_Some (tl_custom t)) && bool_decide (tl_function t = None).

Definition buffer_init : grammar_buffer := GrammarBuffer false [] false.

Definition input_property (name : jstr) : jstr := nullish (grammarToolInputProperties !! name) (js "input").

Definition find_call (t : tool_delta) (s : chat_state) : option nat :=
  or_option (tl_index t ≫= fun i => cs_byIndex s !! i)
    (match tl_id t with Some id => if truthy id then cs_byId s !! id else None | None => None end).

Definition create_call (t : tool_delta) : M nat :=
  let* s := state_m in
  let k := length (cs_blocks s) in
  let name := nullish (piece_name t) [] in
  let property := input_property name in
  let b :=
    if custom_only t then
      StreamBlock (BToolCall (ToolCall (nullish (tl_id t) []) name (JObj [(property, JStr [])]) None None)) None
        (Some (property, buffer_init)) (tl_index t)
    else
      StreamBlock (BToolCall (ToolCall (nullish (tl_id t) []) name (JObj []) None None)) (Some []) None (tl_index t) in
  let* _ := modify_m (fun s =>
    let s := match tl_index t with Some i => set_byIndex i k s | None => s end in
    let s := match tl_id t with Some id => if truthy id then set_byId id k s else s | None => s end in
    set_blocks (fun bs => bs ++ [b]) s) in
  let* _ := push_m (EvToolStart (Z.of_nat k)) in
  ret k.

(** What a delta adds to the block it belongs to: index, identifier, name, kind. *)
Definition settle_call (t : tool_delta) (k : nat) : M () :=
  let* b := block_m k in
  let* _ := match tl_index t, sb_streamIndex b with
            | Some i, None =>
                let* _ := update_m k (fun b => StreamBlock (sb_block b) (sb_partialArgs b) (sb_custom b) (Some i)) in
                modify_m (set_byIndex i k)
            | _, _ => ret ()
            end in
  let* _ := match tl_id t with Some id => when_m (truthy id) (modify_m (set_byId id k)) | None => ret () end in
  let name := nullish (piece_name t) [] in
  let* _ := when_m (negb (truthy (tc_name (call_of b))) && truthy name) (update_m k (on_call (with_name name))) in
  let* b := block_m k in
  when_m (custom_only t && bool_decide (sb_custom b = None))
    (let property := input_property (tc_name (call_of b)) in
     update_m k (fun b =>
       let b := on_call (with_arguments (JObj [(property, JStr [])])) b in
       StreamBlock (sb_block b) None (Some (property, buffer_init)) (sb_streamIndex b))).

Definition ensureToolCallBlock (t : tool_delta) : M nat :=
  let* s := state_m in
  let* k := match find_call t s with Some k => ret k | None => create_call t end in
  let* _ := settle_call t k in
  ret k.

Definition add_string (delta : jstr) (b : stream_block) : stream_block :=
  StreamBlock
    (match sb_block b with
     | BText t sg => BText (t ++ delta) sg
     | BThinking t sg r => BThinking (t ++ delta) sg r
     | b => b
     end) (sb_partialArgs b) (sb_custom b) (sb_streamIndex b).

Definition on_content (delta : jstr) : M () :=
  let* k := ensureTextBlock in
  let* _ := update_m k (add_string delta) in
  push_m (EvTextDelta (Z.of_nat k) delta).

Definition on_reasoning (field delta : jstr) : M () :=
  let thinkingSignature :=
    if streq (m_provider m) (js "opencode-go") && streq field (js "reasoning") then js "reasoning_content" else field in
  let* k := ensureThinkingBlock thinkingSignature in
  let* _ := update_m k (add_string delta) in
  push_m (EvThinkingDelta (Z.of_nat k) delta).

Definition truthy_string (s : option jstr) : option jstr := if truthy_opt s then s else None.

(** The rest of the loop over the tool calls of a delta. *)
Definition extend_call (t : tool_delta) (k : nat) : M () :=
  let* b := block_m k in
  let* _ := match tl_id t with
            | Some id => when_m (truthy id && negb (truthy (tc_id (call_of b))))
                (let* _ := update_m k (on_call (with_id id)) in modify_m (set_byId id k))
            | None => ret ()
            end in
  let* _ := match piece_name t with
            | Some name => when_m (truthy name && negb (truthy (tc_name (call_of b)))) (update_m k (on_call (with_name name)))
            | None => ret ()
            end in
  let* delta :=
    match truthy_string (tl_function t ≫= cp_input), truthy_string (tl_custom t ≫= cp_input) with
    | Some args, _ =>
        let* _ := update_m k (fun b =>
          let partialArgs := nullish (sb_partialArgs b) [] ++ args in
          let b := on_call (with_arguments (parseStreamingJson partial_parse (Some partialArgs))) b in
          StreamBlock (sb_block b) (Some partialArgs) (sb_custom b) (sb_streamIndex b)) in
        ret args
    | None, Some input =>
        let* delta := appendCustomToolCallInput2 k (getCustomToolCallInput2 b ++ input) false in ret (nullish delta [])
    | None, None => ret []
    end in
  push_m (EvToolDelta (Z.of_nat k) delta).

Definition on_tool (t : tool_delta) : M () :=
  let* k := ensureToolCallBlock t in extend_call t k.

Definition on_detail (d : json) : M () :=
  if isOpenAIReasoningDetail d then
    let* _ := ensureThinkingBlock [] in
    modify_m (fun s => set_details (appendOpenAIReasoningDetail (nullish (cs_details s) []) (detail_of d)) s)
  else ret ().

Definition on_delta (d : chat_delta) : M () :=
  let* _ := match truthy_string (cd_content d) with Some c => on_content c | None => ret () end in
  let* _ := match List.find (fun fv => truthy fv.2) (cd_reasoning d) with
            | Some (f, v) => on_reasoning f v
            | None => ret ()
            end in
  let* _ := each_m on_tool (cd_tools d) in
  each_m on_detail (cd_details d).

Definition with_usage_of (u : raw_usage) (mt : meta) : meta :=
  let '(tokens, cost, reasoning) := parseChunkUsage u m in
  Meta (mt_responseId mt) (mt_responseModel mt) tokens cost (Some reasoning) (mt_stop mt) (mt_rawStop mt) (mt_error mt) (mt_finished mt).

Definition with_reason (reason : jstr) (mt : meta) : meta :=
  let '(stop, error) := mapStopReason reason in
  Meta (mt_responseId mt) (mt_responseModel mt) (mt_usage mt) (mt_cost mt) (mt_reasoning mt) (Some stop) (Some reason)
    (or_option error (mt_error mt)) true.

Definition with_ids (id name : option jstr) (mt : meta) : meta :=
  Meta (if truthy_opt (mt_responseId mt) then mt_responseId mt else id)
    (match name with
     | Some n => if truthy n && negb (streq n (m_id m)) && negb (truthy_opt (mt_responseModel mt)) then Some n else mt_responseModel mt
     | None => mt_responseModel mt
     end)
    (mt_usage mt) (mt_cost mt) (mt_reasoning mt) (mt_stop mt) (mt_rawStop mt) (mt_error mt) (mt_finished mt).

(** The body of the loop over the chunks. *)
Definition on_chunk (c : chunk) : M () :=
  let* _ := modify_m (set_meta (with_ids (ck_id c) (ck_model c))) in
  let* _ := match ck_usage c with Some u => modify_m (set_meta (with_usage_of u)) | None => ret () end in
  match ck_choice c with
  | None => ret ()
  | Some choice =>
      let* _ := match ck_usage c, ch_usage choice with
                | None, Some u => modify_m (set_meta (with_usage_of u))
                | _, _ => ret ()
                end in
      let* _ := match truthy_string (ch_finish choice) with
                | Some reason => modify_m (set_meta (with_reason reason))
                | None => ret ()
                end in
      match ch_delta choice with Some d => on_delta d | None => ret () end
  end.

(** The signature a thinking block gets from the details that were streamed. *)
Definition applyStreamedReasoningDetails (details : option (list detail)) (b : stream_block) : stream_block :=
  match details, sb_block b with
  | Some ds, BThinking t _ r =>
      StreamBlock (BThinking t (Some (JSON_stringify num_to_string (details_json ds))) r) (sb_partialArgs b) (sb_custom b) (sb_streamIndex b)
  | _, _ => b
  end.

Definition finishBlock (k : nat) : M () :=
  let* b := block_m k in
  match sb_block b with
  | BText t _ => push_m (EvTextEnd (Z.of_nat k) t)
  | BThinking t _ _ =>
      let* s := state_m in
      let* _ := update_m k (applyStreamedReasoningDetails (cs_details s)) in
      push_m (EvThinkingEnd (Z.of_nat k) t)
  | BToolCall _ =>
      let* _ :=
        match sb_custom b with
        | Some _ =>
            let* delta := appendCustomToolCallInput2 k (getCustomToolCallInput2 b) true in
            match delta with Some d => push_m (EvToolDelta (Z.of_nat k) d) | None => ret () end
        | None => update_m k (on_call (with_arguments (parseStreamingJson partial_parse (sb_partialArgs b))))
        end in
      let* _ := update_m k (fun b => new_stream_block (sb_block b)) in
      let* b := block_m k in
      push_m (EvToolEnd (Z.of_nat k) (call_of b))
  end.

Definition finish_blocks : M () :=
  let* s := state_m in each_m finishBlock (seq 0 (length (cs_blocks s))).

(** The message; the fields of streaming are gone from its blocks. *)
Definition chat_message_of (s : chat_state) (stop : stop_reason) (error : option jstr) : assistant :=
  let u := mt_usage (cs_meta s) in
  Assistant (m_provider m) (m_api m) (m_id m) (map sb_block (cs_blocks s)) stop error
    (Usage (u_input u) (u_output u) (u_cacheRead u) (u_cacheWrite u) (u_totalTokens u) None (finite_cost (mt_cost (cs_meta s)))) now.

Definition is_call_block (b : stream_block) : bool := match sb_block b with BToolCall _ => true | _ => false end.

(** What follows the loop, given the signal: the stop reason, or the error thrown. *)
Definition final_reason (aborted : bool) (s : chat_state) : result jstr stop_reason :=
  if aborted then Throw (js "Request was aborted")
  else
    let stop :=
      if negb (mt_finished (cs_meta s)) && negb supportsFinishReason
      then Some (if existsb is_call_block (cs_blocks s) then ToolUse else Stop) else mt_stop (cs_meta s) in
    match stop with
    | Some Aborted => Throw (js "Request was aborted")
    | Some Error =>
        Throw (if truthy_opt (mt_error (cs_meta s)) then nullish (mt_error (cs_meta s)) []
               else js "Provider returned an error stop reason")
    | None => Throw (js "Stream ended without finish_reason")
    | Some stop =>
        if supportsFinishReason && negb (mt_finished (cs_meta s)) then Throw (js "Stream ended without finish_reason") else Ok stop
    end.

(** The [catch] clause; [e] is the text of the error as [formatProviderError] and
    the metadata of the error give it. *)
Definition chat_failure (aborted : bool) (es : list event) (s : chat_state) (e : jstr) : list event * assistant :=
  let stop := if aborted then Aborted else Error in
  let msg := chat_message_of (set_blocks (map (applyStreamedReasoningDetails (cs_details s))) s) stop (Some e) in
  (es ++ [EvError stop msg], msg).

(** [stream] from the request on: [setup] is how it went, [chunks] those of the
    response and [ending] how they ended. *)
Definition chat_stream (setup : result jstr ()) (chunks : list chunk) (ending : result jstr ()) (aborted : bool)
  : list event * assistant :=
  match setup with
  | Throw e => chat_failure aborted [] chat_init e
  | Ok _ =>
      let '(es, s, r) :=
        (let* _ := each_m on_chunk chunks in let* _ := lift_m ending in finish_blocks) chat_init in
      match r with
      | Throw e => chat_failure aborted (EvStart :: es) s e
      | Ok _ =>
          match final_reason aborted s with
          | Throw e => chat_failure aborted (EvStart :: es) s e
          | Ok stop => let msg := chat_message_of s stop (mt_error (cs_meta s)) in (EvStart :: es ++ [EvDone stop msg], msg)
          end
      end
  end.

(** The same from the JSON of the chunks; [None] when one is not as documented. *)
Definition chat_response (chunks : list json) (ending : result jstr ()) (aborted : bool) : option (list event * assistant) :=
  cs ← mapM read_chunk chunks; Some (chat_stream (Ok ()) cs ending aborted).
End Stream.

(** * Facts *)

Definition text_chunk (t : jstr) : chunk := Chunk (Some (js "r1")) None None (Some (Choice None None (Some (ChatDelta (Some t) [] [] [])))).
Definition call_chunk (i : Z) (id name args : option jstr) : chunk :=
  Chunk None None None (Some (Choice None None (Some (ChatDelta None [] [ToolDelta (Some i) id (Some (CallPiece name args)) None] [])))).
Definition end_chunk (r : jstr) : chunk := Chunk None None (Some (RawUsage (Some 10) (Some 4) (Some 3) None None None None)) (Some (Choice None (Some r) None)).

Example chat_stream_ex :
  let chunks := [text_chunk (js "He"); call_chunk 0 (Some (js "c1")) (Some (js "read")) None; text_chunk (js "y");
    call_chunk 0 None None (Some (js "{")); call_chunk 1 (Some (js "c2")) (Some (js "ls")) (Some (js "{}"));
    call_chunk 0 None None (Some (js "}")); end_chunk (js "tool_calls")] in
  let '(es, msg) := chat_stream int_num_str (fun _ => None) chat_model ∅ true 0 (Ok ()) chunks (Ok ()) false in
  es = [EvStart; EvTextStart 0; EvTextDelta 0 (js "He"); EvToolStart 1; EvToolDelta 1 []; EvTextDelta 0 (js "y");
        EvToolDelta 1 (js "{"); EvToolStart 2; EvToolDelta 2 (js "{}"); EvToolDelta 1 (js "}");
        EvTextEnd 0 (js "Hey"); EvToolEnd 1 (ToolCall (js "c1") (js "read") (JObj []) None None);
        EvToolEnd 2 (ToolCall (js "c2") (js "ls") (JObj []) None None); EvDone ToolUse msg] /\
  u_totalTokens (a_usage msg) = 14 /\ u_input (a_usage msg) = 7.
Proof. vm_compute. done. Qed.

(** ** One terminal event *)

Section Facts.
Context (num_to_string : Q -> jstr) (partial_parse : jstr -> option json).
Context (m : model) (properties : gmap jstr jstr) (supportsFinishReason : bool) (now : Z).
#[local] Abbreviation handle_chunk := (on_chunk partial_parse m properties).
#[local] Abbreviation the_stream := (chat_stream num_to_string partial_parse m properties supportsFinishReason now).

Lemma append_quiet k input close : quiet (appendCustomToolCallInput2 k input close).
Proof. unfold appendCustomToolCallInput2. repeat quiet_step. Qed.

Lemma on_tool_quiet t : quiet (on_tool partial_parse properties t).
Proof.
  unfold on_tool, ensureToolCallBlock, settle_call, create_call, extend_call.
  repeat first [apply append_quiet | quiet_step].
Qed.

Lemma on_chunk_quiet c : quiet (handle_chunk c).
Proof.
  unfold on_chunk, on_delta, on_content, on_reasoning, on_detail, ensureTextBlock, ensureThinkingBlock.
  repeat first [apply on_tool_quiet | quiet_step].
Qed.

Lemma finish_quiet : quiet (finish_blocks num_to_string partial_parse).
Proof. unfold finish_blocks, finishBlock. repeat first [apply append_quiet | quiet_step]. Qed.

(** Whatever the provider sends and however the request fails, the stream has
    exactly one event that ends it, its last, which carries the message. *)
Theorem openai_stream_ended setup chunks ending aborted :
  well_ended (the_stream setup chunks ending aborted).1 (the_stream setup chunks ending aborted).2.
Proof.
  assert (Hend : forall es e msg, Forall incomplete es -> isComplete e = true -> extractResult e = Ok msg ->
    well_ended (es ++ [e]) msg) by (intros es e msg; by exists es, e).
  unfold chat_stream. destruct setup as [[]|e]; [|apply Hend; [constructor|done|done]].
  set (body := let* _ := each_m handle_chunk chunks in let* _ := lift_m ending in finish_blocks num_to_string partial_parse).
  assert (Hq : quiet body).
  { apply emits_bind; [apply emits_each, on_chunk_quiet|intros _]. apply emits_bind; [by apply emits_silent|intros _; apply finish_quiet]. }
  specialize (Hq chat_init). destruct (body chat_init) as [[es s] r]. cbn [fst] in Hq.
  assert (Hs : Forall incomplete (EvStart :: es)) by (by constructor).
  destruct r; [|by apply Hend]. destruct (final_reason supportsFinishReason aborted s) as [stop|e]; [|by apply Hend].
  by apply (Hend (EvStart :: es)).
Qed.

(** ** What a response says *)

(** The pieces of a response, in order. *)
Inductive piece :=
| TextPiece (t : jstr)
| ThinkPiece (field t : jstr)
| ToolPiece (i : Z) (id name args : option jstr)
| DetailPiece (d : json).

(** What a piece belongs to. *)
Inductive key := KText | KThink | KTool (i : Z).

#[local] Instance key_eq_dec : EqDecision key.
Proof. solve_decision. Defined.

Definition piece_key (p : piece) : key :=
  match p with TextPiece _ => KText | ThinkPiece _ _ | DetailPiece _ => KThink | ToolPiece i _ _ _ => KTool i end.

(** The piece of a tool call with an index and a function. *)
Definition tool_piece (t : tool_delta) : option piece :=
  match tl_index t, tl_function t, tl_custom t with
  | Some i, Some f, None => Some (ToolPiece i (truthy_string (tl_id t)) (truthy_string (cp_name f)) (truthy_string (cp_input f)))
  | _, _, _ => None
  end.

Definition delta_pieces (d : chat_delta) : list piece :=
  match truthy_string (cd_content d) with Some t => [TextPiece t] | None => [] end ++
  match List.find (fun fv => truthy fv.2) (cd_reasoning d) with Some (f, v) => [ThinkPiece f v] | None => [] end ++
  omap tool_piece (cd_tools d) ++
  map DetailPiece (List.filter isOpenAIReasoningDetail (cd_details d)).

Definition chunk_delta (c : chunk) : option chat_delta := ck_choice c ≫= ch_delta.
Definition chunk_pieces (c : chunk) : list piece := match chunk_delta c with Some d => delta_pieces d | None => [] end.

Definition plain_tool (t : tool_delta) : Prop := is_Some (tool_piece t).
Definition plain_chunk (c : chunk) : Prop := forall d, chunk_delta c = Some d -> Forall plain_tool (cd_tools d).

(** The first mention of each key, in order. *)
Fixpoint keys_from (seen : list key) (ps : list piece) : list key :=
  match ps with
  | [] => seen
  | p :: r => keys_from (if bool_decide (piece_key p ∈ seen) then seen else seen ++ [piece_key p]) r
  end.

Definition keys (ps : list piece) : list key := keys_from [] ps.

Definition of_key (k : key) (ps : list piece) : list piece := List.filter (fun p => bool_decide (piece_key p = k)) ps.

(** What a piece adds to the text, the thinking or the arguments it belongs to. *)
Definition piece_text (p : piece) : jstr :=
  match p with TextPiece t | ThinkPiece _ t => t | ToolPiece _ _ _ args => nullish args [] | DetailPiece _ => [] end.

Definition said_text (k : key) (ps : list piece) : jstr := concat (map piece_text (of_key k ps)).

Definition piece_id (p : piece) : option jstr := match p with ToolPiece _ id _ _ => id | _ => None end.
Definition piece_call_name (p : piece) : option jstr := match p with ToolPiece _ _ name _ => name | _ => None end.

(** The field a thinking text came in, which is its signature. *)
Definition field_signature (p : piece) : jstr :=
  match p with
  | ThinkPiece f _ => if streq (m_provider m) (js "opencode-go") && streq f (js "reasoning") then js "reasoning_content" else f
  | _ => []
  end.

Definition all_details (ps : list piece) : list detail :=
  foldl appendOpenAIReasoningDetail [] (omap (fun p => match p with DetailPiece d => Some (detail_of d) | _ => None end) ps).

(** The block the pieces of a key describe. *)
Definition said_block (ps : list piece) (k : key) : block :=
  match k with
  | KText => BText (said_text k ps) None
  | KThink =>
      BThinking (said_text k ps)
        (Some (match all_details ps with
               | [] => match of_key k ps with p :: _ => field_signature p | [] => [] end
               | ds => JSON_stringify num_to_string (details_json ds)
               end)) false
  | KTool i =>
      BToolCall (ToolCall (nullish (head (omap piece_id (of_key k ps))) []) (nullish (head (omap piece_call_name (of_key k ps))) [])
                   (parseStreamingJson partial_parse (Some (said_text k ps))) None None)
  end.

(** ** Keys and positions *)

Fixpoint pos (k : key) (l : list key) : option nat :=
  match l with [] => None | x :: r => if bool_decide (x = k) then Some O else S <$> pos k r end.

Lemma pos_lookup k l j : pos k l = Some j -> l !! j = Some k.
Proof.
  revert j. induction l as [|x l IH]; intros j; [done|]. cbn [pos]. case_bool_decide as E; [by intros [= <-]; subst|].
  destruct (pos k l) as [i|]; [|done]. intros [= <-]. by apply IH.
Qed.

Lemma pos_None k l : pos k l = None <-> k ∉ l.
Proof.
  induction l as [|x l IH]; cbn [pos]; [split; [intros _; apply not_elem_of_nil|done]|]. case_bool_decide as E.
  - subst. split; [done|]. intros H. by destruct H; left.
  - rewrite not_elem_of_cons, fmap_None, IH. naive_solver.
Qed.

Lemma pos_snoc k l x : pos k (l ++ [x]) = or_option (pos k l) (if bool_decide (x = k) then Some (length l) else None).
Proof.
  induction l as [|y l IH]; cbn [pos app]; [by destruct (bool_decide _)|].
  destruct (bool_decide (y = k)); [done|]. rewrite IH.
  destruct (pos k l); [done|]. cbn [or_option fmap option_fmap option_map length]. by destruct (bool_decide (x = k)).
Qed.

Lemma keys_snoc ps p :
  keys (ps ++ [p]) = if bool_decide (piece_key p ∈ keys ps) then keys ps else keys ps ++ [piece_key p].
Proof.
  unfold keys. assert (H : forall seen, keys_from seen (ps ++ [p]) =
    if bool_decide (piece_key p ∈ keys_from seen ps) then keys_from seen ps else keys_from seen ps ++ [piece_key p]); [|apply H].
  induction ps as [|q ps IH]; intros seen; cbn [app keys_from]; [done|]. apply IH.
Qed.

Lemma keys_NoDup ps : NoDup (keys ps).
Proof.
  induction ps as [|p ps IH] using rev_ind; [constructor|]. rewrite keys_snoc. case_bool_decide as E; [done|].
  apply NoDup_app. split_and!; [done| |apply NoDup_singleton]. intros x Hx Hy. apply list_elem_of_singleton in Hy as ->. done.
Qed.

Lemma pos_keys_snoc ps p k :
  pos k (keys (ps ++ [p])) =
  or_option (pos k (keys ps)) (if bool_decide (piece_key p = k) then Some (length (keys ps)) else None).
Proof.
  rewrite keys_snoc. case_bool_decide as E; [|by apply pos_snoc]. case_bool_decide as Ek; [|by destruct (pos k (keys ps))].
  subst k. destruct (pos (piece_key p) (keys ps)) eqn:Ep; [done|]. by apply pos_None in Ep.
Qed.

Lemma of_key_snoc k ps p : of_key k (ps ++ [p]) = of_key k ps ++ (if bool_decide (piece_key p = k) then [p] else []).
Proof. unfold of_key. rewrite List.filter_app. cbn. by destruct (bool_decide _). Qed.

Lemma said_text_snoc k ps p : said_text k (ps ++ [p]) = said_text k ps ++ (if bool_decide (piece_key p = k) then piece_text p else []).
Proof.
  unfold said_text. rewrite of_key_snoc, map_app, concat_app. f_equal. case_bool_decide; [|done]. cbn. apply app_nil_r.
Qed.

Lemma keys_elem ps p : p ∈ ps -> piece_key p ∈ keys ps.
Proof.
  induction ps as [|q ps IH] using rev_ind; intros Hp; [by apply elem_of_nil in Hp|]. rewrite keys_snoc.
  apply elem_of_app in Hp as [Hp| ->%list_elem_of_singleton]; case_bool_decide; set_solver.
Qed.

Lemma of_key_nil k ps : k ∉ keys ps -> of_key k ps = [].
Proof.
  intros Hk. destruct (of_key k ps) as [|q l] eqn:E; [done|]. destruct Hk.
  assert (Hq : In q (of_key k ps)) by (rewrite E; by left). apply filter_In in Hq as [Hq Hb].
  apply bool_decide_eq_true in Hb as <-. by apply keys_elem, list_elem_of_In.
Qed.

(** ** The blocks while they are streamed *)

Definition first_signature (ps : list piece) : jstr := match of_key KThink ps with p :: _ => field_signature p | [] => [] end.

Definition open_call (ps : list piece) (i : Z) : toolCall :=
  ToolCall (nullish (head (omap piece_id (of_key (KTool i) ps))) []) (nullish (head (omap piece_call_name (of_key (KTool i) ps))) [])
    (match said_text (KTool i) ps with [] => JObj [] | t => parseStreamingJson partial_parse (Some t) end) None None.

Definition open_of (ps : list piece) (k : key) : stream_block :=
  match k with
  | KText => new_stream_block (BText (said_text k ps) None)
  | KThink => new_stream_block (BThinking (said_text k ps) (Some (first_signature ps)) false)
  | KTool i => StreamBlock (BToolCall (open_call ps i)) (Some (said_text k ps)) None (Some i)
  end.

Lemma open_other ps p k : piece_key p ≠ k -> open_of (ps ++ [p]) k = open_of ps k.
Proof.
  intros Hk. destruct k; cbn [open_of]; unfold open_call, first_signature;
    rewrite ?said_text_snoc, ?of_key_snoc, bool_decide_false, ?app_nil_r by done; done.
Qed.

(** A state that the pieces [ps] lead to, with the events [es]. *)
Record follows (ps : list piece) (es : list event) (s : chat_state) : Prop := Follows {
  fo_blocks : cs_blocks s = map (open_of ps) (keys ps);
  fo_text : cs_text s = pos KText (keys ps);
  fo_thinking : cs_thinking s = pos KThink (keys ps);
  fo_index : forall i, cs_byIndex s !! i = pos (KTool i) (keys ps);
  fo_id : forall id k, cs_byId s !! id = Some k ->
    exists i name args, ToolPiece i (Some id) name args ∈ ps /\ pos (KTool i) (keys ps) = Some k;
  fo_details : cs_details s = match all_details ps with [] => None | ds => Some ds end;
  fo_deltas : forall j, deltas (Z.of_nat j) es = match keys ps !! j with Some k => said_text k ps | None => [] end
}.

(** Where a piece goes. *)
Definition place (ps : list piece) (p : piece) : nat := nullish (pos (piece_key p) (keys ps)) (length (keys ps)).

(** What a handler does for a piece. *)
Record grows (ps : list piece) (p : piece) (s : chat_state) (es : list event) (s' : chat_state) : Prop := Grows {
  gr_blocks : cs_blocks s' =
    match pos (piece_key p) (keys ps) with
    | Some k => <[k := open_of (ps ++ [p]) (piece_key p)]> (cs_blocks s)
    | None => cs_blocks s ++ [open_of (ps ++ [p]) (piece_key p)]
    end;
  gr_text : cs_text s' = if bool_decide (piece_key p = KText) then Some (place ps p) else cs_text s;
  gr_thinking : cs_thinking s' = if bool_decide (piece_key p = KThink) then Some (place ps p) else cs_thinking s;
  gr_index : forall i, cs_byIndex s' !! i = if bool_decide (piece_key p = KTool i) then Some (place ps p) else cs_byIndex s !! i;
  gr_id : cs_byId s' = match piece_id p with Some id => <[id := place ps p]> (cs_byId s) | None => cs_byId s end;
  gr_details : cs_details s' =
    match p with DetailPiece d => Some (appendOpenAIReasoningDetail (nullish (cs_details s) []) (detail_of d)) | _ => cs_details s end;
  gr_deltas : forall j, deltas j es = if bool_decide (j = Z.of_nat (place ps p)) then piece_text p else []
}.

Lemma append_not_nil ds d : appendOpenAIReasoningDetail ds d ≠ [].
Proof. unfold appendOpenAIReasoningDetail. destruct (last ds); repeat case_match; intros Hn; by apply app_eq_nil in Hn as [_ Hn]. Qed.

Lemma all_details_snoc ps p :
  all_details (ps ++ [p]) =
  match p with DetailPiece d => appendOpenAIReasoningDetail (all_details ps) (detail_of d) | _ => all_details ps end.
Proof. unfold all_details. rewrite omap_app, foldl_app. by destruct p. Qed.

Lemma pos_snoc_place ps p k :
  pos k (keys (ps ++ [p])) = if bool_decide (piece_key p = k) then Some (place ps p) else pos k (keys ps).
Proof.
  rewrite pos_keys_snoc. unfold place. case_bool_decide as E; [subst; by destruct (pos (piece_key p) (keys ps))|].
  by destruct (pos k (keys ps)).
Qed.

Lemma blocks_snoc ps p :
  map (open_of (ps ++ [p])) (keys (ps ++ [p])) =
  match pos (piece_key p) (keys ps) with
  | Some k => <[k := open_of (ps ++ [p]) (piece_key p)]> (map (open_of ps) (keys ps))
  | None => map (open_of ps) (keys ps) ++ [open_of (ps ++ [p]) (piece_key p)]
  end.
Proof.
  rewrite keys_snoc. destruct (pos (piece_key p) (keys ps)) as [k|] eqn:E.
  - apply pos_lookup in E. rewrite bool_decide_true by (by eapply list_elem_of_lookup_2).
    pose proof (keys_NoDup ps) as HN. apply list_eq. intros j. rewrite list_lookup_fmap.
    destruct (decide (j = k)) as [->|Hj].
    + rewrite list_lookup_insert_eq by (rewrite length_map; by eapply lookup_lt_Some). by rewrite E.
    + rewrite list_lookup_insert_ne, list_lookup_fmap by done. destruct (keys ps !! j) as [x|] eqn:Ex; [|done]. cbn. f_equal.
      apply open_other. intros <-. apply Hj. by eapply NoDup_lookup.
  - apply pos_None in E. rewrite bool_decide_false by done. rewrite map_app. f_equal. apply map_ext_in. intros x Hx.
    apply open_other. intros <-. by apply E, list_elem_of_In.
Qed.

Lemma said_text_fresh ps p : pos (piece_key p) (keys ps) = None -> said_text (piece_key p) (ps ++ [p]) = piece_text p.
Proof.
  intros E. apply pos_None in E. rewrite said_text_snoc, bool_decide_true by done. unfold said_text. by rewrite of_key_nil.
Qed.

Lemma deltas_snoc ps p es' j :
  (forall j, deltas j es' = if bool_decide (j = Z.of_nat (place ps p)) then piece_text p else []) ->
  match keys ps !! j with Some k => said_text k ps | None => [] end ++ deltas (Z.of_nat j) es' =
  match keys (ps ++ [p]) !! j with Some k => said_text k (ps ++ [p]) | None => [] end.
Proof.
  intros ->. unfold place. rewrite keys_snoc. destruct (pos (piece_key p) (keys ps)) as [k|] eqn:E; cbn [nullish].
  - apply pos_lookup in E as El. rewrite (bool_decide_true (_ ∈ _)) by (by eapply list_elem_of_lookup_2).
    destruct (keys ps !! j) as [x|] eqn:Ex.
    + rewrite said_text_snoc. f_equal. pose proof (keys_NoDup ps) as HN.
      destruct (decide (j = k)) as [->|Hj]; [rewrite !bool_decide_true by congruence; done|].
      rewrite !bool_decide_false; [done|intros <-; apply Hj; by eapply NoDup_lookup|lia].
    + rewrite bool_decide_false; [done|]. intros ?. assert (j = k) as -> by lia. congruence.
  - apply pos_None in E as En. rewrite (bool_decide_false (_ ∈ _)) by done.
    destruct (decide (j = length (keys ps))) as [->|Hj].
    + rewrite bool_decide_true, lookup_ge_None_2 by done. rewrite list_lookup_middle by done.
      by rewrite said_text_fresh.
    + rewrite bool_decide_false by lia. rewrite app_nil_r. destruct (keys ps !! j) as [x|] eqn:Ex.
      * rewrite (lookup_app_l_Some _ _ _ _ Ex), said_text_snoc, bool_decide_false; [by rewrite app_nil_r|].
        intros <-. apply En. by eapply list_elem_of_lookup_2.
      * rewrite lookup_ge_None_2; [done|]. apply lookup_ge_None in Ex. rewrite length_app. simpl. lia.
Qed.

Lemma follows_grows ps p es s es' s' : follows ps es s -> grows ps p s es' s' -> follows (ps ++ [p]) (es ++ es') s'.
Proof.
  intros [Fb Ft Fh Fi Fd Fs Fe] [Gb Gt Gh Gi Gd Gs Ge]. split.
  - by rewrite Gb, Fb, blocks_snoc.
  - by rewrite Gt, Ft, pos_snoc_place.
  - by rewrite Gh, Fh, pos_snoc_place.
  - intros i. by rewrite Gi, Fi, pos_snoc_place.
  - intros id k. rewrite Gd. assert (Hold : cs_byId s !! id = Some k ->
      exists i name args, ToolPiece i (Some id) name args ∈ ps ++ [p] /\ pos (KTool i) (keys (ps ++ [p])) = Some k).
    { intros H. destruct (Fd id k H) as (i & name & args & Hin & Hp). exists i, name, args. split; [set_solver|].
      rewrite pos_keys_snoc, Hp. done. }
    destruct (piece_id p) as [x|] eqn:Ep; [|done]. destruct (decide (x = id)) as [->|Hx];
      [rewrite lookup_insert_eq|rewrite lookup_insert_ne by done; done].
    intros [= <-]. destruct p as [t|f t|i id' name args|d]; try done. cbn in Ep; subst id'. exists i, name, args.
    split; [set_solver|]. rewrite pos_snoc_place. by rewrite bool_decide_true.
  - rewrite Gs, Fs, all_details_snoc. destruct p as [t|f t|i id name args|d]; try done.
    assert (nullish (match all_details ps with [] => None | ds => Some ds end) [] = all_details ps) as ->
      by (by destruct (all_details ps)).
    destruct (appendOpenAIReasoningDetail (all_details ps) (detail_of d)) eqn:Ea; [by apply append_not_nil in Ea|done].
  - intros j. rewrite deltas_app, Fe. by apply deltas_snoc.
Qed.

(** ** The handlers *)

Lemma alter_known {A} (f : A -> A) (k : nat) (l : list A) b : l !! k = Some b -> alter f k l = <[k := f b]> l.
Proof.
  revert k. induction l as [|x l IH]; intros [|k] H; try done; cbn in *; [by injection H as ->|]. f_equal. by apply IH.
Qed.

Lemma alter_end {A} (f : A -> A) (l : list A) b : alter f (length l) (l ++ [b]) = l ++ [f b].
Proof. induction l as [|x l IH]; [done|]. cbn. f_equal. apply IH. Qed.

Lemma keys_mentioned k ps : k ∈ keys ps -> of_key k ps ≠ [].
Proof.
  induction ps as [|p ps IH] using rev_ind; [by intros ?%elem_of_nil|]. rewrite keys_snoc, of_key_snoc. intros Hk Hn.
  apply app_eq_nil in Hn as [Hn Hp]. destruct (decide (piece_key p = k)) as [<-|Hne]; [by rewrite bool_decide_true in Hp|].
  apply IH; [|done]. destruct (bool_decide (piece_key p ∈ keys ps)); [done|]. set_solver.
Qed.

Lemma delta_here k t (e : event) j :
  (forall i, delta_at i e = if Z.of_nat k =? i then t else []) -> deltas j [e] = if bool_decide (j = Z.of_nat k) then t else [].
Proof.
  intros H. unfold deltas. cbn [flat_map]. rewrite H, app_nil_r. destruct (Z.eqb_spec (Z.of_nat k) j); case_bool_decide; congruence.
Qed.

(** A handler turns a state of some pieces into one of a piece more. *)
Definition handles (x : M ()) (p : piece) : Prop :=
  forall ps es s, follows ps es s ->
  exists es' s', x s = (es', s', Ok ()) /\ grows ps p s es' s' /\ cs_meta s' = cs_meta s.

Lemma follows_length ps es s : follows ps es s -> length (cs_blocks s) = length (keys ps).
Proof. intros F. by rewrite (fo_blocks _ _ _ F), length_map. Qed.

Lemma follows_block ps es s k i : follows ps es s -> pos k (keys ps) = Some i -> cs_blocks s !! i = Some (open_of ps k).
Proof. intros F H. rewrite (fo_blocks _ _ _ F), list_lookup_fmap, (pos_lookup _ _ _ H). done. Qed.

Lemma open_text ps t : open_of (ps ++ [TextPiece t]) KText = add_string t (open_of ps KText).
Proof. cbn. by rewrite said_text_snoc, bool_decide_true by done. Qed.

Lemma open_thinking ps p :
  piece_key p = KThink -> is_Some (pos KThink (keys ps)) ->
  open_of (ps ++ [p]) KThink = add_string (piece_text p) (open_of ps KThink).
Proof.
  intros Hk [i Hp]. cbn. rewrite said_text_snoc, bool_decide_true by done. unfold first_signature.
  rewrite of_key_snoc. apply pos_lookup, list_elem_of_lookup_2, keys_mentioned in Hp. by destruct (of_key KThink ps).
Qed.

Ltac state_cbn :=
  cbn [piece_key piece_id piece_text set_blocks set_text set_thinking set_byIndex set_byId set_details cs_blocks cs_text cs_thinking
       cs_byIndex cs_byId cs_details cs_meta nullish app].

(** The goals of [grows] after a handler ran, at a known or a new position. *)
Ltac grown E :=
  split; [|done]; split; unfold place; state_cbn; rewrite ?E; state_cbn; try done.

Lemma on_content_handles t : handles (on_content t) (TextPiece t).
Proof.
  intros ps es s F. pose proof (follows_length _ _ _ F) as Hl. pose proof (fo_text _ _ _ F) as Ht.
  unfold on_content, ensureTextBlock, bind_m, state_m, modify_m, update_m, push_m, ret. rewrite Ht.
  destruct (pos KText (keys ps)) as [k|] eqn:Ep; (eexists _, _; split; [reflexivity|]); grown Ep.
  - by rewrite (alter_known _ _ _ _ (follows_block _ _ _ _ _ F Ep)), open_text.
  - intros j. by apply delta_here.
  - rewrite alter_end, open_text. do 2 f_equal. cbn. unfold said_text. rewrite of_key_nil; [done|]. by apply pos_None.
  - by rewrite Hl.
  - intros j. rewrite Hl. by apply (delta_here _ t).
Qed.

Lemma fresh_thinking ps p :
  piece_key p = KThink -> pos KThink (keys ps) = None ->
  open_of (ps ++ [p]) KThink = add_string (piece_text p) (new_stream_block (BThinking [] (Some (field_signature p)) false)).
Proof.
  intros Hk Hp. cbn. pose proof (said_text_fresh ps p) as Hs. rewrite Hk in Hs. rewrite (Hs Hp). unfold first_signature.
  apply pos_None in Hp. rewrite of_key_snoc, (of_key_nil _ _ Hp), bool_decide_true by done. done.
Qed.

Lemma on_reasoning_handles f t : handles (on_reasoning m f t) (ThinkPiece f t).
Proof.
  intros ps es s F. pose proof (follows_length _ _ _ F) as Hl. pose proof (fo_thinking _ _ _ F) as Ht.
  unfold on_reasoning, ensureThinkingBlock, bind_m, state_m, modify_m, update_m, push_m, ret. rewrite Ht.
  destruct (pos KThink (keys ps)) as [k|] eqn:Ep; (eexists _, _; split; [reflexivity|]); grown Ep.
  - by rewrite (alter_known _ _ _ _ (follows_block _ _ _ _ _ F Ep)), (open_thinking ps (ThinkPiece f t)).
  - intros j. by apply delta_here.
  - by rewrite alter_end, (fresh_thinking ps (ThinkPiece f t)).
  - by rewrite Hl.
  - intros j. rewrite Hl. by apply (delta_here _ t).
Qed.

Lemma add_nothing b : add_string [] b = b.
Proof. by destruct b as [[] ? ? ?]; unfold add_string; cbn; rewrite ?app_nil_r. Qed.

Lemma on_detail_handles d : isOpenAIReasoningDetail d = true -> handles (on_detail d) (DetailPiece d).
Proof.
  intros Hd ps es s F. pose proof (follows_length _ _ _ F) as Hl. pose proof (fo_thinking _ _ _ F) as Ht.
  unfold on_detail. rewrite Hd. unfold ensureThinkingBlock, bind_m, state_m, modify_m, push_m, ret. rewrite Ht.
  destruct (pos KThink (keys ps)) as [k|] eqn:Ep; (eexists _, _; split; [reflexivity|]); grown Ep.
  - rewrite (open_thinking ps (DetailPiece d)) by done. state_cbn. rewrite add_nothing.
    symmetry. apply list_insert_id. by eapply follows_block.
  - intros j. by case_bool_decide.
  - by rewrite (fresh_thinking ps (DetailPiece d)), add_nothing by done.
  - by rewrite Hl.
  - intros j. by case_bool_decide.
Qed.

(** ** Tool calls *)

(** Everything but the blocks and the identifiers. *)
Definition same_rest (s s' : chat_state) : Prop :=
  cs_text s' = cs_text s /\ cs_thinking s' = cs_thinking s /\ cs_byIndex s' = cs_byIndex s /\ cs_details s' = cs_details s /\
  cs_meta s' = cs_meta s.

Definition register (id : option jstr) (k : nat) (ids : gmap jstr nat) : gmap jstr nat :=
  match id with Some id => <[id := k]> ids | None => ids end.

(** A name or identifier that a call does not have yet. *)
Definition or_given (own : jstr) (given : option jstr) : jstr := if truthy own then own else nullish given [].

Lemma truthy_string_cases o : truthy_string o = None /\ (o = None \/ o = Some []) \/ exists s, o = Some s /\ truthy s = true /\ truthy_string o = Some s.
Proof. destruct o as [[|c s]|]; cbn; eauto 10. Qed.

Lemma settle_plain t k s i tc pa :
  tl_index t = Some i -> custom_only t = false -> cs_blocks s !! k = Some (StreamBlock (BToolCall tc) pa None (Some i)) ->
  exists s', settle_call properties t k s = ([], s', Ok ()) /\ same_rest s s' /\
    cs_byId s' = register (truthy_string (tl_id t)) k (cs_byId s) /\
    cs_blocks s' = <[k := StreamBlock (BToolCall (with_name (or_given (tc_name tc) (truthy_string (piece_name t))) tc)) pa None (Some i)]> (cs_blocks s).
Proof.
  intros Hi Hc Hb. pose proof (lookup_lt_Some _ _ _ Hb) as Hlt.
  unfold settle_call, bind_m, block_m, update_m, when_m, modify_m, ret. rewrite Hb, Hi, Hc. cbn [nullish sb_streamIndex call_of sb_block andb].
  assert (Hkeep : forall b, b = StreamBlock (BToolCall tc) pa None (Some i) -> cs_blocks s = <[k := b]> (cs_blocks s))
    by (intros b ->; symmetry; by apply list_insert_id).
  destruct (truthy_string_cases (tl_id t)) as [[-> [Hid|Hid]]|(id & Hid & Hid' & ->)]; rewrite Hid; rewrite ?Hid'; cbn [truthy];
  (destruct (truthy_string_cases (piece_name t)) as [[-> [Hn|Hn]]|(n & Hn & Hn' & ->)]; rewrite Hn; cbn [nullish]; rewrite ?Hn'; cbn [truthy];
   destruct (truthy (tc_name tc)) eqn:Et; unfold or_given; rewrite Et; cbn [negb andb nullish];
   (eexists; split; [reflexivity|]; split; [done|]; split; [done|]; state_cbn;
    first [apply Hkeep; destruct tc as [? [] ? ?]; done | by rewrite (alter_known _ _ _ _ Hb)])).
Qed.

(** The arguments after a piece. *)
Definition more_args (args : option jstr) (pa : jstr) (v : json) : json :=
  match args with Some a => parseStreamingJson partial_parse (Some (pa ++ a)) | None => v end.

Lemma extend_plain t k s i tc pa :
  tl_custom t = None -> cs_blocks s !! k = Some (StreamBlock (BToolCall tc) (Some pa) None (Some i)) ->
  register (truthy_string (tl_id t)) k (cs_byId s) = cs_byId s ->
  truthy_string (piece_name t) = None \/ truthy (tc_name tc) = true ->
  let args := truthy_string (tl_function t ≫= cp_input) in
  exists s', extend_call partial_parse t k s = ([EvToolDelta (Z.of_nat k) (nullish args [])], s', Ok ()) /\ same_rest s s' /\
    cs_byId s' = cs_byId s /\
    cs_blocks s' = <[k := StreamBlock (BToolCall (ToolCall (or_given (tc_id tc) (truthy_string (tl_id t))) (tc_name tc)
      (more_args args pa (tc_arguments tc)) (tc_thoughtSignature tc) (tc_namespace tc))) (Some (pa ++ nullish args [])) None (Some i)]> (cs_blocks s).
Proof.
  intros Hc Hb Hreg Hname args. pose proof (lookup_lt_Some _ _ _ Hb) as Hlt.
  set (s1 := set_blocks (fun bs => <[k := StreamBlock (BToolCall (with_id (or_given (tc_id tc) (truthy_string (tl_id t))) tc))
    (Some pa) None (Some i)]> bs) s).
  assert (H1 : (match tl_id t with
    | Some id => when_m (truthy id && negb (truthy (tc_id tc))) (let* _ := update_m k (on_call (with_id id)) in modify_m (set_byId id k))
    | None => ret () end) s = ([], s1, Ok ())).
  { assert (Hsame : set_blocks (fun bs => <[k := StreamBlock (BToolCall tc) (Some pa) None (Some i)]> bs) s = s).
    { unfold set_blocks. rewrite list_insert_id by done. by destruct s. }
    assert (Heta : ToolCall (tc_id tc) (tc_name tc) (tc_arguments tc) (tc_thoughtSignature tc) (tc_namespace tc) = tc) by (by destruct tc).
    unfold s1, or_given, with_id.
    destruct (truthy_string_cases (tl_id t)) as [[-> Hid]|(id & Hid & Ht & Hts)].
    - assert (Hno : forall own : jstr, (if truthy own then own else []) = own) by (by intros []). cbn [nullish]. rewrite Hno.
      rewrite Heta, Hsame. by destruct Hid as [->| ->].
    - rewrite Hts in Hreg |- *. rewrite Hid, Ht. cbn [andb nullish register] in *. destruct (truthy (tc_id tc)) eqn:Eo; cbn [negb].
      + by rewrite Heta, Hsame.
      + unfold when_m, bind_m, update_m, modify_m, set_byId, set_blocks. state_cbn. rewrite (alter_known _ _ _ _ Hb). by rewrite Hreg. }
  assert (H2 : (match piece_name t with
    | Some name => when_m (truthy name && negb (truthy (tc_name tc))) (update_m k (on_call (with_name name)))
    | None => ret () end) s1 = ([], s1, Ok ())).
  { destruct (truthy_string_cases (piece_name t)) as [[_ [->| ->]]|(n & Hp & _ & Hn)]; [done|done|]. rewrite Hp.
    destruct Hname as [?| ->]; [congruence|]. by rewrite andb_false_r. }
  assert (Hb1 : cs_blocks s1 !! k = Some (StreamBlock (BToolCall (with_id (or_given (tc_id tc) (truthy_string (tl_id t))) tc)) (Some pa) None (Some i)))
    by (by apply list_lookup_insert_eq).
  unfold extend_call. unfold bind_m at 1. unfold block_m. rewrite Hb. cbn [nullish call_of sb_block].
  unfold bind_m at 1. rewrite H1. unfold bind_m at 1. rewrite H2. rewrite Hc. cbn [mbind option_bind].
  fold args. destruct args as [a|]; cbn [truthy_string truthy_opt].
  - eexists. split; [reflexivity|]. split; [done|]. split; [done|]. state_cbn.
    rewrite (alter_known _ _ _ _ Hb1). unfold s1. state_cbn. by rewrite list_insert_insert_eq.
  - eexists. split; [reflexivity|]. split; [done|]. split; [done|]. unfold s1. state_cbn. by rewrite app_nil_r.
Qed.

(** Pieces without empty identifiers, names and arguments, as they are read. *)
Definition wf_piece (p : piece) : Prop :=
  match p with ToolPiece _ id name args => id ≠ Some [] /\ name ≠ Some [] /\ args ≠ Some [] | _ => True end.

Lemma truthy_string_wf o : truthy_string o ≠ Some [].
Proof. by destruct o as [[]|]. Qed.

Lemma tool_piece_wf t p : tool_piece t = Some p -> wf_piece p.
Proof.
  unfold tool_piece. destruct (tl_index t), (tl_function t), (tl_custom t); intros; simplify_eq. cbn.
  split_and!; apply truthy_string_wf.
Qed.

Lemma head_given (f : piece -> option jstr) l p :
  Forall (fun q => f q ≠ Some []) l ->
  nullish (head (omap f (l ++ [p]))) [] = or_given (nullish (head (omap f l)) []) (f p).
Proof.
  intros HF. rewrite omap_app. induction HF as [|q l Hq HF IH]; cbn [omap list_omap app] in *.
  - by destruct (f p) as [[]|].
  - destruct (f q) as [[|c x]|]; [done|done|exact IH].
Qed.

Lemma open_call_snoc ps i id name args :
  Forall wf_piece ps -> args ≠ Some [] ->
  open_call (ps ++ [ToolPiece i id name args]) i =
  ToolCall (or_given (tc_id (open_call ps i)) id) (or_given (tc_name (open_call ps i)) name)
    (more_args args (said_text (KTool i) ps) (tc_arguments (open_call ps i))) None None.
Proof.
  intros HF Ha. unfold open_call at 1. rewrite said_text_snoc, of_key_snoc, bool_decide_true by done.
  assert (HF' : Forall wf_piece (of_key (KTool i) ps)) by (eapply List.incl_Forall; [apply List.incl_filter|exact HF]).
  rewrite !head_given.
  - f_equal. cbn [piece_text]. destruct args as [[|c a]|]; [done| |by rewrite app_nil_r].
    cbn [nullish more_args]. by destruct (said_text (KTool i) ps).
  - eapply Forall_impl; [exact HF'|]. intros []; cbn; naive_solver.
  - eapply Forall_impl; [exact HF'|]. intros []; cbn; naive_solver.
Qed.

(** The pieces of a response whose calls keep their identifiers apart. *)
Definition consistent_ids (ps : list piece) : Prop :=
  forall i j id n a n' a', ToolPiece i (Some id) n a ∈ ps -> ToolPiece j (Some id) n' a' ∈ ps -> i = j.

Lemma find_call_index t ps es s i id name args :
  follows ps es s -> tool_piece t = Some (ToolPiece i id name args) -> consistent_ids (ps ++ [ToolPiece i id name args]) ->
  find_call t s = pos (KTool i) (keys ps).
Proof.
  intros F Ht Hc. unfold find_call. assert (tl_index t = Some i /\ truthy_string (tl_id t) = id) as [Hi Hid].
  { unfold tool_piece in Ht. destruct (tl_index t), (tl_function t), (tl_custom t); by simplify_eq. }
  rewrite Hi. cbn [mbind option_bind]. rewrite (fo_index _ _ _ F). destruct (pos (KTool i) (keys ps)) as [k|] eqn:Ep; [done|].
  cbn [or_option]. destruct (tl_id t) as [x|]; [|done]. destruct (truthy x) eqn:Ex; [|done].
  unfold truthy_string in Hid. cbn in Hid. rewrite Ex in Hid. subst id.
  destruct (cs_byId s !! x) as [k|] eqn:Ek; [|done]. destruct (fo_id _ _ _ F x k Ek) as (j & n & a & Hin & Hj).
  assert (j = i) as -> by (eapply Hc; [apply elem_of_app; left; exact Hin|apply elem_of_app; right; by apply list_elem_of_singleton]).
  congruence.
Qed.

(** Settling and extending a call adds its piece to the block. *)
Lemma settle_extend t k s ps i id name args tc :
  tool_piece t = Some (ToolPiece i id name args) -> tc_thoughtSignature tc = None ->
  cs_blocks s !! k = Some (StreamBlock (BToolCall tc) (Some (said_text (KTool i) ps)) None (Some i)) ->
  exists s', (let* _ := settle_call properties t k in extend_call partial_parse t k) s =
      ([EvToolDelta (Z.of_nat k) (nullish args [])], s', Ok ()) /\ same_rest s s' /\
    cs_byId s' = register id k (cs_byId s) /\
    cs_blocks s' = <[k := StreamBlock (BToolCall (ToolCall (or_given (tc_id tc) id) (or_given (tc_name tc) name)
      (more_args args (said_text (KTool i) ps) (tc_arguments tc)) None (tc_namespace tc))) (Some (said_text (KTool i) ps ++ nullish args [])) None (Some i)]> (cs_blocks s).
Proof.
  intros Ht Hsig Hb. unfold tool_piece in Ht.
  destruct (tl_index t) as [i'|] eqn:Ei, (tl_function t) as [f|] eqn:Ef, (tl_custom t) eqn:Ec; try done. injection Ht as -> Hid Hname Hargs.
  assert (Hpn : piece_name t = cp_name f) by (unfold piece_name; rewrite Ef, Ec; cbn; by destruct (cp_name f)).
  destruct (settle_plain t k s i tc _ Ei ltac:(unfold custom_only; by rewrite Ec) Hb) as (s1 & H1 & R1 & B1 & K1).
  pose proof (lookup_lt_Some _ _ _ Hb) as Hlt. rewrite Hpn, Hname in K1. rewrite Hid in B1.
  destruct (extend_plain t k s1 i (with_name (or_given (tc_name tc) name) tc) (said_text (KTool i) ps)) as (s2 & H2 & R2 & B2 & K2).
  - done.
  - rewrite K1. by apply list_lookup_insert_eq.
  - rewrite Hid, B1. destruct id; [|done]. cbn. by rewrite insert_insert_eq.
  - rewrite Hpn, Hname. destruct name as [n|]; [right|by left]. cbn. unfold or_given. destruct (truthy (tc_name tc)) eqn:En; [done|].
    cbn. destruct (truthy_string_cases (cp_name f)) as [[? _]|(? & ? & ? & ?)]; congruence.
  - exists s2. unfold bind_m. rewrite H1. rewrite Ef in H2, K2. cbn [mbind option_bind] in H2, K2. rewrite Hargs in H2, K2. rewrite H2.
    split; [done|]. split; [|split].
    + unfold same_rest in *. naive_solver congruence.
    + by rewrite B2, B1.
    + rewrite K2, K1, list_insert_insert_eq. rewrite Hid. cbn [with_name tc_id tc_name tc_arguments tc_thoughtSignature tc_namespace]. by rewrite Hsig.
Qed.

Lemma on_tool_steps t s :
  on_tool partial_parse properties t s =
  bind_m (match find_call t s with Some k => ret k | None => create_call properties t end)
    (fun k => let* _ := settle_call properties t k in extend_call partial_parse t k) s.
Proof.
  unfold on_tool, ensureToolCallBlock. rewrite bind_assoc_m. unfold bind_m at 1, state_m. cbn [app].
  rewrite bind_assoc_m. set (x := match find_call t s with Some k => ret k | None => _ end).
  rewrite (bind_ext_m x _ (fun k => let* _ := settle_call properties t k in extend_call partial_parse t k)).
  - by destruct (bind_m x _ s) as [[es s'] r].
  - intros k s'. rewrite bind_assoc_m. apply bind_ext_m. intros [] s2. apply bind_ret_m.
Qed.

Lemma create_plain t s i id name args :
  tool_piece t = Some (ToolPiece i id name args) ->
  exists s1, create_call properties t s = ([EvToolStart (Z.of_nat (length (cs_blocks s)))], s1, Ok (length (cs_blocks s))) /\
    cs_text s1 = cs_text s /\ cs_thinking s1 = cs_thinking s /\ cs_details s1 = cs_details s /\ cs_meta s1 = cs_meta s /\
    cs_byIndex s1 = <[i := length (cs_blocks s)]> (cs_byIndex s) /\
    cs_byId s1 = register id (length (cs_blocks s)) (cs_byId s) /\
    cs_blocks s1 = cs_blocks s ++ [StreamBlock (BToolCall (ToolCall (nullish (tl_id t) []) (nullish (piece_name t) []) (JObj []) None None)) (Some []) None (Some i)].
Proof.
  intros Ht. unfold tool_piece in Ht.
  destruct (tl_index t) as [i'|] eqn:Ei, (tl_function t) as [f|] eqn:Ef, (tl_custom t) eqn:Ec; try done. injection Ht as -> Hid Hname Hargs.
  unfold create_call, bind_m, state_m, modify_m, push_m, ret, custom_only. rewrite Ec, Ei, <- Hid. cbn [app andb].
  eexists. split; [reflexivity|]. destruct (tl_id t) as [[|c x]|]; by split_and!.
Qed.

Lemma given_created o : or_given (nullish o []) (truthy_string o) = or_given [] (truthy_string o).
Proof. by destruct o as [[]|]. Qed.

Lemma tool_piece_fields t i id name args :
  tool_piece t = Some (ToolPiece i id name args) -> id = truthy_string (tl_id t) /\ name = truthy_string (piece_name t).
Proof.
  unfold tool_piece, piece_name. destruct (tl_index t), (tl_function t) as [f|], (tl_custom t); intros; simplify_eq.
  split; [done|]. cbn. by destruct (cp_name f).
Qed.

Lemma on_tool_handles ps es s t i id name args :
  follows ps es s -> Forall wf_piece ps -> tool_piece t = Some (ToolPiece i id name args) ->
  consistent_ids (ps ++ [ToolPiece i id name args]) ->
  exists es' s', on_tool partial_parse properties t s = (es', s', Ok ()) /\ grows ps (ToolPiece i id name args) s es' s' /\
    cs_meta s' = cs_meta s.
Proof.
  intros F HF Ht Hc. pose proof (follows_length _ _ _ F) as Hl. pose proof (tool_piece_wf _ _ Ht) as (_ & _ & Hargs).
  rewrite on_tool_steps, (find_call_index _ _ _ _ _ _ _ _ F Ht Hc).
  destruct (pos (KTool i) (keys ps)) as [k|] eqn:Ep.
  - rewrite bind_ret_m. pose proof (follows_block _ _ _ _ _ F Ep) as Hb.
    destruct (settle_extend t k s ps i id name args (open_call ps i) Ht eq_refl Hb) as (s' & Hs & (R1 & R2 & R3 & R4 & R5) & B & K).
    eexists _, _. split; [exact Hs|]. split; [|done].
    split; unfold place; cbn [piece_key]; rewrite ?Ep; cbn [nullish]; try done.
    + rewrite K. cbn [open_of]. by rewrite open_call_snoc, said_text_snoc, bool_decide_true by done.
    + intros j. rewrite R3. case_bool_decide as E; [|done]. injection E as <-. by rewrite (fo_index _ _ _ F).
    + intros j. by apply delta_here.
  - destruct (create_plain t s i id name args Ht) as (s1 & Hcr & T1 & T2 & T3 & T4 & T5 & T6 & T7).
    assert (Hsaid : said_text (KTool i) ps = []) by (unfold said_text; rewrite of_key_nil; [done|by apply pos_None]).
    unfold bind_m at 1. rewrite Hcr. rewrite Hl in *.
    destruct (settle_extend t (length (keys ps)) s1 ps i id name args
      (ToolCall (nullish (tl_id t) []) (nullish (piece_name t) []) (JObj []) None None)) as (s' & Hs & (R1 & R2 & R3 & R4 & R5) & B & K);
      [done|done|rewrite T7, Hsaid, <- Hl; by apply list_lookup_middle|].
    rewrite Hs. eexists _, _. split; [reflexivity|]. split; [|congruence].
    split; unfold place; cbn [piece_key]; rewrite ?Ep; cbn [nullish];
      [|by rewrite R1, T1|by rewrite R2, T2| | |by rewrite R4, T3|].
    + rewrite K, T7, <- Hl, insert_app_r_alt, Nat.sub_diag by done. cbn [open_of]. do 2 f_equal.
      rewrite open_call_snoc, said_text_snoc, bool_decide_true, Hsaid by done. cbn [piece_text]. unfold open_call. rewrite Hsaid.
      apply pos_None in Ep. rewrite (of_key_nil _ _ Ep). cbn [tc_id tc_name tc_arguments omap list_omap head nullish app or_given truthy list_insert].
      destruct (tool_piece_fields _ _ _ _ _ Ht) as [-> ->]. rewrite !given_created. done.
    + intros j. rewrite R3, T5. case_bool_decide as E; [injection E as <-; by rewrite lookup_insert_eq|]. rewrite lookup_insert_ne; congruence.
    + cbn [piece_id]. rewrite B, T6. destruct id; [|done]. cbn. by rewrite insert_insert_eq.
    + intros j. rewrite deltas_app. by apply (delta_here _ (nullish args [])).
Qed.

(** ** Whole responses *)

(** Code that adds the pieces [qs] and changes the rest of the message by [g]. *)
Definition advances (x : M ()) (qs : list piece) (g : meta -> meta) : Prop :=
  forall ps es s, follows ps es s -> Forall wf_piece (ps ++ qs) -> consistent_ids (ps ++ qs) ->
  exists es' s', x s = (es', s', Ok ()) /\ follows (ps ++ qs) (es ++ es') s' /\ cs_meta s' = g (cs_meta s).

Lemma consistent_prefix ps qs : consistent_ids (ps ++ qs) -> consistent_ids ps.
Proof. intros H i j id n a n' a' H1 H2. eapply H; apply elem_of_app; left; eassumption. Qed.

Lemma advances_seq x y qs rs g h : advances x qs g -> advances y rs h -> advances (let* _ := x in y) (qs ++ rs) (fun mt => h (g mt)).
Proof.
  intros Hx Hy ps es s F HW HC. rewrite app_assoc in HW, HC.
  destruct (Hx ps es s F) as (e1 & s1 & E1 & F1 & M1); [by apply Forall_app in HW as [? _]|by apply consistent_prefix in HC|].
  destruct (Hy (ps ++ qs) (es ++ e1) s1 F1 HW HC) as (e2 & s2 & E2 & F2 & M2).
  exists (e1 ++ e2), s2. unfold bind_m. rewrite E1, E2. split; [done|]. rewrite !app_assoc, M2, M1. done.
Qed.

Lemma advances_ret : advances (ret ()) [] (fun mt => mt).
Proof. intros ps es s F _ _. exists [], s. by rewrite !app_nil_r. Qed.

Lemma advances_handles x p : handles x p -> advances x [p] (fun mt => mt).
Proof.
  intros H ps es s F _ _. destruct (H ps es s F) as (es' & s' & E & G & Mt). exists es', s'. split; [done|]. split; [|done].
  by eapply follows_grows.
Qed.

Lemma advances_tools ts : Forall plain_tool ts -> advances (each_m (on_tool partial_parse properties) ts) (omap tool_piece ts) (fun mt => mt).
Proof.
  induction 1 as [|t ts [p Hp] HF IH]; [apply advances_ret|]. cbn [each_m omap list_omap]. rewrite Hp.
  apply (advances_seq _ _ [p] _ (fun mt => mt) (fun mt => mt)); [|done]. intros ps es s F HW HC.
  assert (Hk : exists i id name args, p = ToolPiece i id name args).
  { unfold tool_piece in Hp. destruct (tl_index t), (tl_function t), (tl_custom t); simplify_eq. by eauto. }
  destruct Hk as (i & id & name & args & ->). apply Forall_app in HW as [HW _].
  destruct (on_tool_handles ps es s t i id name args F HW Hp HC) as (es' & s' & E & G & Mt). exists es', s'.
  split; [done|]. split; [|done]. by eapply follows_grows.
Qed.

Lemma advances_details ds :
  advances (each_m on_detail ds) (map DetailPiece (List.filter isOpenAIReasoningDetail ds)) (fun mt => mt).
Proof.
  induction ds as [|d ds IH]; [apply advances_ret|]. cbn [each_m List.filter]. destruct (isOpenAIReasoningDetail d) eqn:E.
  - apply (advances_seq _ _ [DetailPiece d] _ (fun mt => mt) (fun mt => mt)); [|done]. by apply advances_handles, on_detail_handles.
  - apply (advances_seq _ _ [] _ (fun mt => mt) (fun mt => mt)); [|done]. unfold on_detail. rewrite E. apply advances_ret.
Qed.

Lemma advances_delta d : Forall plain_tool (cd_tools d) -> advances (on_delta partial_parse m properties d) (delta_pieces d) (fun mt => mt).
Proof.
  intros HF. unfold on_delta, delta_pieces. repeat apply (advances_seq _ _ _ _ (fun mt => mt) (fun mt => mt)).
  - destruct (truthy_string (cd_content d)); [apply advances_handles, on_content_handles|apply advances_ret].
  - destruct (List.find _ _) as [[f v]|]; [apply advances_handles, on_reasoning_handles|apply advances_ret].
  - by apply advances_tools.
  - apply advances_details.
Qed.

Lemma advances_meta g : advances (modify_m (set_meta g)) [] g.
Proof.
  intros ps es s F _ _. exists [], (set_meta g s). rewrite !app_nil_r. split; [done|]. split; [|done]. by destruct F.
Qed.

Definition chunk_reason (c : chunk) : option jstr := ck_choice c ≫= fun ch => truthy_string (ch_finish ch).

(** What a chunk changes besides the content. *)
Definition usage_step (u : option raw_usage) (mt : meta) : meta := match u with Some u => with_usage_of m u mt | None => mt end.
Definition reason_step (r : option jstr) (mt : meta) : meta := match r with Some r => with_reason r mt | None => mt end.
Definition chunk_usage (c : chunk) : option raw_usage := or_option (ck_usage c) (ck_choice c ≫= ch_usage).
Definition meta_step (mt : meta) (c : chunk) : meta :=
  reason_step (chunk_reason c) (usage_step (chunk_usage c) (with_ids m (ck_id c) (ck_model c) mt)).

Lemma advances_ext x qs g h : (forall mt, g mt = h mt) -> advances x qs g -> advances x qs h.
Proof. intros E H ps es s F HW HC. destruct (H ps es s F HW HC) as (es' & s' & H1 & H2 & H3). exists es', s'. by rewrite <- E. Qed.

Lemma advances_then x y rs g h : advances x [] g -> advances y rs h -> advances (let* _ := x in y) rs (fun mt => h (g mt)).
Proof. apply (advances_seq x y [] rs). Qed.

Lemma advances_usage u : advances (match u with Some u => modify_m (set_meta (with_usage_of m u)) | None => ret () end) [] (usage_step u).
Proof. destruct u; [apply advances_meta|apply advances_ret]. Qed.

Lemma advances_reason r : advances (match r with Some r => modify_m (set_meta (with_reason r)) | None => ret () end) [] (reason_step r).
Proof. destruct r; [apply advances_meta|apply advances_ret]. Qed.

Lemma advances_chunk c : plain_chunk c -> advances (handle_chunk c) (chunk_pieces c) (fun mt => meta_step mt c).
Proof.
  intros HF. unfold on_chunk, chunk_pieces, meta_step, plain_chunk, chunk_delta, chunk_usage, chunk_reason in *.
  apply (advances_then _ _ _ _ (fun mt => reason_step _ (usage_step _ mt))); [apply advances_meta|].
  destruct (ck_choice c) as [ch|]; cbn [mbind option_bind] in *.
  2: { apply (advances_ext _ _ (usage_step (ck_usage c))); [by destruct (ck_usage c)|].
       apply (advances_then _ _ _ _ (fun mt => mt)); [apply advances_usage|apply advances_ret]. }
  set (u2 := match ck_usage c with None => ch_usage ch | Some _ => None end).
  apply (advances_ext _ _ (fun mt => reason_step (truthy_string (ch_finish ch)) (usage_step u2 (usage_step (ck_usage c) mt))));
    [intros mt; unfold u2; by destruct (ck_usage c)|].
  apply (advances_then _ _ _ (usage_step (ck_usage c)) (fun mt => reason_step _ (usage_step u2 mt))); [apply advances_usage|].
  apply (advances_then _ _ _ (usage_step u2) (reason_step _)).
  { pose proof (advances_usage u2) as H. unfold u2 in *. destruct (ck_usage c), (ch_usage ch); exact H. }
  apply (advances_then _ _ _ (reason_step _) (fun mt => mt)); [apply advances_reason|].
  destruct (ch_delta ch) as [d|]; [by apply advances_delta, HF|apply advances_ret].
Qed.

Lemma advances_chunks cs :
  Forall plain_chunk cs -> advances (each_m handle_chunk cs) (cs ≫= chunk_pieces) (fun mt => foldl meta_step mt cs).
Proof.
  induction 1 as [|c cs Hc HF IH]; [apply advances_ret|]. cbn [each_m foldl]. rewrite bind_cons.
  by apply (advances_seq _ _ _ _ _ (fun mt => foldl meta_step mt cs)); [apply advances_chunk|].
Qed.

Lemma follows_init : follows [] [] chat_init.
Proof. split; try done. Qed.

(** ** The end of a response *)

Lemma finish_open ps s k x :
  cs_details s = match all_details ps with [] => None | ds => Some ds end -> cs_blocks s !! k = Some (open_of ps x) ->
  exists e s', finishBlock num_to_string partial_parse k s = ([e], s', Ok ()) /\ cs_details s' = cs_details s /\ cs_meta s' = cs_meta s /\
    cs_blocks s' = <[k := new_stream_block (said_block ps x)]> (cs_blocks s) /\ forall j, delta_at j e = [].
Proof.
  intros Hd Hb. pose proof (lookup_lt_Some _ _ _ Hb) as Hlt.
  unfold finishBlock, bind_m, block_m, state_m, update_m, modify_m, push_m, ret. rewrite Hb. cbn [nullish].
  destruct x as [| |i]; cbn [open_of new_stream_block sb_block sb_custom sb_partialArgs].
  - eexists _, _. split; [reflexivity|]. split_and!; try done. symmetry. by apply list_insert_id.
  - eexists _, _. split; [reflexivity|]. split_and!; try done. state_cbn. rewrite (alter_known _ _ _ _ Hb), Hd.
    cbn [open_of said_block]. unfold applyStreamedReasoningDetails, first_signature. by destruct (all_details ps).
  - state_cbn. rewrite (alter_known _ _ _ _ Hb). rewrite (alter_known _ _ _ _ (list_lookup_insert_eq _ _ _ Hlt)), list_insert_insert_eq.
    rewrite list_lookup_insert_eq by done. eexists _, _. split; [reflexivity|]. split_and!; try done.
    state_cbn. rewrite (alter_known _ _ _ _ Hb). rewrite (alter_known _ _ _ _ (list_lookup_insert_eq _ _ _ Hlt)), list_insert_insert_eq.
    done.
Qed.

Lemma finish_all ps n j s :
  (j + n = length (keys ps))%nat -> cs_details s = match all_details ps with [] => None | ds => Some ds end ->
  cs_blocks s = map (fun x => new_stream_block (said_block ps x)) (take j (keys ps)) ++ map (open_of ps) (drop j (keys ps)) ->
  exists es s', each_m (finishBlock num_to_string partial_parse) (seq j n) s = (es, s', Ok ()) /\ cs_meta s' = cs_meta s /\
    cs_blocks s' = map (fun x => new_stream_block (said_block ps x)) (keys ps) /\ forall i, deltas i es = [].
Proof.
  revert j s. induction n as [|n IH]; intros j s Hn Hd Hb; cbn [seq each_m].
  - exists [], s. rewrite take_ge, drop_ge, app_nil_r in Hb by lia. done.
  - destruct (lookup_lt_is_Some_2 (keys ps) j) as [x Hx]; [lia|].
    assert (Hlen : length (map (fun x => new_stream_block (said_block ps x)) (take j (keys ps))) = j)
      by (rewrite length_map, length_take; lia).
    rewrite (drop_S _ _ _ Hx) in Hb. cbn [map] in Hb.
    assert (Hbx : cs_blocks s !! j = Some (open_of ps x)) by (rewrite Hb; by apply list_lookup_middle).
    destruct (finish_open ps s j x Hd Hbx) as (e & s1 & E1 & D1 & M1 & B1 & T1).
    destruct (IH (S j) s1) as (es & s2 & E2 & M2 & B2 & T2); [lia|congruence| |].
    + rewrite B1, Hb. rewrite <- Hlen at 1. rewrite insert_app_r_alt, Nat.sub_diag by done. cbn [list_insert insert].
      rewrite (take_S_r _ _ _ Hx), map_app, <- app_assoc. done.
    + eexists _, s2. unfold bind_m. rewrite E1, E2. split; [reflexivity|]. split; [congruence|]. split; [done|].
      intros i. rewrite deltas_app, T2. unfold deltas. cbn [flat_map]. by rewrite T1.
Qed.

(** ** Stop reasons and usage *)

(** The reason of a chunk, if it gives one, is not that of a failure. *)
Definition fine_chunk (c : chunk) : Prop := forall r, chunk_reason c = Some r -> (mapStopReason r).2 = None.

Lemma mapStopReason_fine r : (mapStopReason r).2 = None -> (mapStopReason r).1 = Stop \/ (mapStopReason r).1 = Length \/ (mapStopReason r).1 = ToolUse.
Proof. unfold mapStopReason. repeat case_match; cbn; auto. done. Qed.

Lemma meta_chunks cs mt :
  Forall fine_chunk cs ->
  let mt' := foldl meta_step mt cs in
  mt_error mt' = mt_error mt /\
  match last (omap chunk_reason cs) with
  | Some r => mt_stop mt' = Some (mapStopReason r).1 /\ mt_finished mt' = true
  | None => mt_stop mt' = mt_stop mt /\ mt_finished mt' = mt_finished mt
  end /\
  match last (omap chunk_usage cs) with
  | Some u => mt_usage mt' = chunk_tokens u
  | None => mt_usage mt' = mt_usage mt
  end.
Proof.
  intros HF. induction cs as [|c cs IH] using rev_ind; [done|]. apply Forall_app in HF as [HF Hc].
  apply Forall_cons in Hc as [Hc _]. destruct (IH HF) as (He & Hs & Hu). cbn zeta in *. rewrite foldl_app. cbn [foldl].
  set (mt1 := foldl meta_step mt cs) in *. rewrite !omap_app. cbn [omap list_omap]. unfold meta_step.
  assert (Hu2 : match last (omap chunk_usage cs ++ match chunk_usage c with Some u => [u] | None => [] end) with
    | Some u => mt_usage (usage_step (chunk_usage c) (with_ids m (ck_id c) (ck_model c) mt1)) = chunk_tokens u
    | None => mt_usage (usage_step (chunk_usage c) (with_ids m (ck_id c) (ck_model c) mt1)) = mt_usage mt end).
  { destruct (chunk_usage c); [by rewrite last_snoc|]. by rewrite app_nil_r. }
  set (mt2 := usage_step (chunk_usage c) (with_ids m (ck_id c) (ck_model c) mt1)) in *.
  assert (H2 : mt_error mt2 = mt_error mt1 /\ mt_stop mt2 = mt_stop mt1 /\ mt_finished mt2 = mt_finished mt1)
    by (unfold mt2; by destruct (chunk_usage c)).
  destruct H2 as (E1 & E2 & E3). destruct (chunk_reason c) as [r|] eqn:Er; cbn [reason_step].
  - rewrite last_snoc. specialize (Hc r Er). unfold with_reason. destruct (mapStopReason r) as [stop err]. cbn in Hc |- *. subst err.
    split_and!; [by rewrite <- He, <- E1|done|done|done].
  - rewrite app_nil_r, E1, E2, E3. split_and!; done.
Qed.

Lemma pieces_wf chunks : Forall wf_piece (chunks ≫= chunk_pieces).
Proof.
  induction chunks as [|c chunks IH]; [constructor|]. rewrite bind_cons. apply Forall_app. split; [|done].
  unfold chunk_pieces. destruct (chunk_delta c) as [d|]; [|constructor]. unfold delta_pieces. repeat (apply Forall_app; split).
  - destruct (truthy_string (cd_content d)); by repeat constructor.
  - destruct (List.find _ _) as [[f v]|]; by repeat constructor.
  - apply Forall_forall. intros p Hp. apply list_elem_of_omap in Hp as (t & _ & Ht). by eapply tool_piece_wf.
  - apply Forall_map, Forall_true. done.
Qed.

(** The end of a response that completes: what is left of it in the state. *)
Lemma chat_stream_done chunks r :
  let ps := chunks ≫= chunk_pieces in
  Forall plain_chunk chunks -> consistent_ids ps -> Forall fine_chunk chunks -> last (omap chunk_reason chunks) = Some r ->
  exists es s, let msg := chat_message_of m now s (mapStopReason r).1 None in
    the_stream (Ok ()) chunks (Ok ()) false = (EvStart :: es ++ [EvDone (mapStopReason r).1 msg], msg) /\
    cs_blocks s = map (fun k => new_stream_block (said_block ps k)) (keys ps) /\
    (forall j k, keys ps !! j = Some k -> deltas (Z.of_nat j) es = said_text k ps) /\
    cs_meta s = foldl meta_step meta_init chunks.
Proof.
  intros ps HP HC HF Hr. pose proof (pieces_wf chunks) as HW. fold ps in HW.
  destruct (advances_chunks chunks HP [] [] chat_init follows_init HW HC) as (es1 & s1 & E1 & F1 & M1). cbn [app] in F1.
  destruct (finish_all ps (length (keys ps)) 0 s1) as (es2 & s2 & E2 & M2 & B2 & T2);
    [done|by apply (fo_details _ _ _ F1)|by apply (fo_blocks _ _ _ F1)|].
  destruct (meta_chunks chunks meta_init HF) as (He & Hs & _). rewrite Hr in Hs. destruct Hs as [Hs Hfin].
  change (cs_meta chat_init) with meta_init in M1.
  assert (Hfine : (mapStopReason r).2 = None).
  { apply last_Some_elem_of, list_elem_of_omap in Hr as (c & Hin & Hc). rewrite Forall_forall in HF. by apply (HF c Hin). }
  exists (es1 ++ es2), s2. split_and!.
  - unfold chat_stream, bind_m, lift_m, finish_blocks, bind_m, state_m. rewrite E1. cbn [app].
    rewrite (follows_length _ _ _ F1). fold ps. rewrite E2. unfold final_reason. rewrite M2, M1, Hfin, Hs, He.
    cbn [negb andb]. rewrite andb_false_r. by destruct (mapStopReason_fine _ Hfine) as [->|[->| ->]].
  - done.
  - intros j k Hk. rewrite deltas_app, T2, app_nil_r, (fo_deltas _ _ _ F1). fold ps. by rewrite Hk.
  - by rewrite M2, M1.
Qed.

(** C22: A response is turned into the message it describes.  For every response whose
    tool calls carry an index and a function and keep their identifiers apart, and
    that ends with a stop reason that is not a failure: the stream ends with [done]
    and that reason; the message has one block for the text, for the thinking and
    for each call, in the order of their first pieces, with what their pieces say;
    what was streamed live for each block is its text, thinking or arguments; and
    the usage is that of the last report. *)
Theorem openai_message_faithful chunks r :
  let ps := chunks ≫= chunk_pieces in
  Forall plain_chunk chunks -> consistent_ids ps -> Forall fine_chunk chunks -> last (omap chunk_reason chunks) = Some r ->
  exists es msg,
    the_stream (Ok ()) chunks (Ok ()) false = (EvStart :: es ++ [EvDone (mapStopReason r).1 msg], msg) /\
    a_stopReason msg = (mapStopReason r).1 /\ a_errorMessage msg = None /\
    a_content msg = map (said_block ps) (keys ps) /\
    (forall j k, keys ps !! j = Some k -> deltas (Z.of_nat j) es = said_text k ps) /\
    (forall u, last (omap chunk_usage chunks) = Some u ->
       u_totalTokens (a_usage msg) = u_input (a_usage msg) + u_output (a_usage msg) + u_cacheRead (a_usage msg) + u_cacheWrite (a_usage msg) /\
       u_output (a_usage msg) = or_zero (ru_completion u)).
Proof.
  intros ps HP HC HF Hr. destruct (chat_stream_done chunks r HP HC HF Hr) as (es & s & Hs & Hb & Hd & Hm).
  eexists es, _. split; [exact Hs|]. split_and!; [done|done| |exact Hd|].
  - cbn. rewrite Hb, map_map. done.
  - intros u Hu. destruct (meta_chunks chunks meta_init HF) as (_ & _ & Hx). rewrite Hu in Hx. cbn. by rewrite Hm, Hx.
Qed.

(** ** Responses that do not complete *)

(** Nothing but the handling of a chunk's own fields changes what is not content. *)
#[local] Abbreviation keeps_meta := (keeps cs_meta).

Lemma append_keeps k input close : keeps_meta (appendCustomToolCallInput2 k input close).
Proof. unfold appendCustomToolCallInput2. repeat keeps_step. Qed.

Lemma on_delta_keeps d : keeps_meta (on_delta partial_parse m properties d).
Proof.
  unfold on_delta, on_content, on_reasoning, on_detail, on_tool, ensureTextBlock, ensureThinkingBlock, ensureToolCallBlock, settle_call,
    create_call, extend_call. repeat first [apply append_keeps | keeps_step].
Qed.

Lemma finish_keeps : keeps_meta (finish_blocks num_to_string partial_parse).
Proof. unfold finish_blocks, finishBlock. repeat first [apply append_keeps | keeps_step]. Qed.

Lemma handle_meta c s es s' : handle_chunk c s = (es, s', Ok ()) -> cs_meta s' = meta_step (cs_meta s) c.
Proof.
  intros H. unfold on_chunk, meta_step, chunk_usage, chunk_reason in *. unfold bind_m, modify_m, ret in H.
  destruct (ck_usage c) as [u|], (ck_choice c) as [ch|]; cbn [or_option mbind option_bind] in *; try (by simplify_eq);
  destruct (ch_usage ch) as [u'|]; destruct (truthy_string (ch_finish ch)) as [r|]; (destruct (ch_delta ch) as [d|]; [|by simplify_eq]);
  cbn [app] in H;
  match type of H with context [on_delta _ _ _ d ?s0] =>
    pose proof (on_delta_keeps d s0) as Hk; destruct (on_delta _ _ _ d s0) as [[e1 s1] []]; by simplify_eq
  end.
Qed.

Lemma handle_all_meta cs s es s' : each_m handle_chunk cs s = (es, s', Ok ()) -> cs_meta s' = foldl meta_step (cs_meta s) cs.
Proof.
  revert s es. induction cs as [|c cs IH]; intros s es; cbn [each_m foldl]; [by intros [= _ <-]|]. unfold bind_m.
  destruct (handle_chunk c s) as [[e1 s1] [[]|]] eqn:E; [|done]. destruct (each_m handle_chunk cs s1) as [[e2 s2] r] eqn:E2.
  intros [= _ <- ->]. rewrite <- (handle_meta _ _ _ _ E). by eapply IH.
Qed.

Lemma meta_reasons cs mt :
  mt_stop (foldl meta_step mt cs) = match last (omap chunk_reason cs) with Some r => Some (mapStopReason r).1 | None => mt_stop mt end /\
  mt_finished (foldl meta_step mt cs) = match last (omap chunk_reason cs) with Some _ => true | None => mt_finished mt end.
Proof.
  induction cs as [|c cs [IH1 IH2]] using rev_ind; [done|]. rewrite foldl_app, omap_app. cbn [foldl omap list_omap].
  unfold meta_step at 1 3. set (mt1 := foldl meta_step mt cs) in *. unfold usage_step.
  destruct (chunk_reason c) as [r|]; cbn [reason_step].
  - rewrite last_snoc. unfold with_reason. destruct (mapStopReason r). by destruct (chunk_usage c).
  - rewrite app_nil_r. by destruct (chunk_usage c).
Qed.

(** A stream that ends with [done] was complete: it was not aborted and its body
    did not fail; the last stop reason of the provider, which was no failure, is the
    reason reported; a provider that gives none is believed only when it is known
    to give none.  In every other case the stream ends with an error. *)
Theorem openai_done_complete chunks ending aborted es stop msg :
  the_stream (Ok ()) chunks ending aborted = (es ++ [EvDone stop msg], msg) ->
  aborted = false /\ ending = Ok () /\ a_stopReason msg = stop /\
  match last (omap chunk_reason chunks) with
  | Some r => mapStopReason r = (stop, None)
  | None => supportsFinishReason = false
  end.
Proof.
  unfold chat_stream.
  assert (Hfail : forall es' s e, chat_failure num_to_string m now aborted es' s e ≠ (es ++ [EvDone stop msg], msg)).
  { intros es' s e H. unfold chat_failure in H. injection H as H _. by apply app_inj_tail in H as [_ ?]. }
  destruct (bind_m _ _ chat_init) as [[es1 s] r] eqn:Eb. destruct r as [[]|e]; [|by intros ?%Hfail].
  destruct (final_reason supportsFinishReason aborted s) as [stop'|e] eqn:Ef; [|by intros ?%Hfail].
  intros H. injection H as H <-. rewrite app_comm_cons in H. apply app_inj_tail in H as [_ [= ->]].
  unfold bind_m at 1 in Eb. destruct (each_m handle_chunk chunks chat_init) as [[e1 s1] [[]|]] eqn:E1; [|done].
  unfold bind_m, lift_m in Eb. destruct ending as [[]|]; [|done].
  destruct (finish_blocks num_to_string partial_parse s1) as [[e2 s2] r2] eqn:E2. injection Eb as _ <- ->.
  pose proof (finish_keeps s1) as Hk. rewrite E2 in Hk. cbn [fst snd] in Hk. apply handle_all_meta in E1.
  destruct (meta_reasons chunks (cs_meta chat_init)) as [M1 M2]. rewrite <- E1, <- Hk in M1, M2.
  unfold final_reason in Ef. destruct aborted; [done|]. split; [done|]. split; [done|]. split; [done|].
  destruct (last (omap chunk_reason chunks)) as [r|]; rewrite M1, M2 in Ef; cbn [negb andb] in Ef.
  - rewrite andb_false_r in Ef. destruct (mapStopReason r) as [st er] eqn:Er. unfold mapStopReason in Er.
    repeat case_match; simplify_eq; done.
  - destruct supportsFinishReason; [|done]. cbn in Ef. done.
Qed.
End Facts.

#[export] Existing Instance key_eq_dec.

(** ** Witnesses *)

Definition sample_reply : list chunk :=
  [text_chunk (js "He"); call_chunk 0 (Some (js "c1")) (Some (js "read")) None; text_chunk (js "y");
   call_chunk 0 None None (Some (js "{")); call_chunk 1 (Some (js "c2")) (Some (js "ls")) (Some (js "{}"));
   call_chunk 0 None None (Some (js "}")); end_chunk (js "tool_calls")].

Lemma sample_reply_plain : Forall plain_chunk sample_reply.
Proof. repeat (apply Forall_cons_2; [intros d [= <-]; repeat constructor; by eexists|]). apply Forall_nil_2. Qed.

Lemma sample_reply_ids : consistent_ids (sample_reply ≫= chunk_pieces).
Proof.
  intros i j id n a n' a' H1 H2. apply list_elem_of_In in H1, H2. vm_compute in H1, H2.
  repeat match goal with H : _ \/ _ |- _ => destruct H as [H|H] end; try done; congruence.
Qed.

Lemma sample_reply_fine : Forall fine_chunk sample_reply.
Proof. repeat (apply Forall_cons_2; [intros r [= <-]; reflexivity|]). apply Forall_nil_2. Qed.

Lemma openai_message_faithful_witness :
  exists es msg,
    chat_stream int_num_str (fun _ => None) chat_model ∅ true 0 (Ok ()) sample_reply (Ok ()) false = (EvStart :: es ++ [EvDone ToolUse msg], msg) /\
    a_content msg = [BText (js "Hey") None; BToolCall (ToolCall (js "c1") (js "read") (JObj []) None None);
                     BToolCall (ToolCall (js "c2") (js "ls") (JObj []) None None)].
Proof.
  destruct (openai_message_faithful int_num_str (fun _ => None) chat_model ∅ true 0 sample_reply (js "tool_calls")
    sample_reply_plain sample_reply_ids sample_reply_fine eq_refl) as (es & msg & Hs & _ & _ & Hc & _).
  exists es, msg. split; [exact Hs|]. rewrite Hc. vm_compute. reflexivity.
Defined.

Lemma openai_done_complete_witness :
  match chat_stream int_num_str (fun _ => None) chat_model ∅ true 0 (Ok ()) sample_reply (Ok ()) false with
  | (_, msg) => a_stopReason msg = ToolUse
  end.
Proof.
  set (res := chat_stream int_num_str (fun _ => None) chat_model ∅ true 0 (Ok ()) sample_reply (Ok ()) false).
  assert (E : res = (removelast res.1 ++ [EvDone ToolUse res.2], res.2)) by (vm_compute; reflexivity).
  destruct (openai_done_complete int_num_str (fun _ => None) chat_model ∅ true 0 sample_reply (Ok ()) false _ ToolUse res.2 E)
    as (_ & _ & H & _).
  rewrite E. exact H.
Defined.
