(* ===== verification/OpenaiReplay.v ===== *)
(** Reasoning survives a turn: the details a chat completions provider streams,
    merged and kept as the signature of a thinking block, come back as they are in
    the next request to the same model.  This composes the stream of
    [OpenaiStream], the JSON of [JsonText] and the conversion of
    [OpenaiCompletions]. *)
From S2P Require Import Prelude Utf8 Numbers Json JsonText Messages TransformMessages ConstrainedSampling EventStream Models Faux AnthropicMessages AnthropicStream OpenaiCommon OpenaiCompletions OpenaiStream.
Open Scope Z_scope.

(** ** Fields of a detail *)

(** An object whose keys are distinct, and none an array index, as the API sends
    it; [P] holds of the values it has. *)
Definition detail_ok (P : json -> Prop) (d : detail) : Prop :=
  NoDup (map fst d) /\ Forall (fun kv => is_index_key kv.1 = false /\ unit_range kv.1 /\ forall v, kv.2 = Some v -> P v) d.

Lemma fields_of_cons k v (d : detail) : fields_of ((k, v) :: d) = match v with Some v => (k, v) :: fields_of d | None => fields_of d end.
Proof. by destruct v. Qed.

Lemma fields_of_keys (d : detail) kv : kv ∈ fields_of d -> (kv.1, Some kv.2) ∈ d.
Proof.
  unfold fields_of. intros H. apply list_elem_of_omap in H as ([k [v|]] & Hin & E); [|done]. cbn in E. by simplify_eq.
Qed.

Lemma lookup_fields k (d : detail) : NoDup (map fst d) -> lookup_field k (fields_of d) = match assoc k d with Some v => v | None => None end.
Proof.
  induction d as [|[k' v] d IH]; intros HN; [done|]. apply NoDup_cons in HN as [Hk HN]. rewrite fields_of_cons. cbn [assoc].
  destruct (streq k' k) eqn:E.
  - destruct v as [v|]; [cbn; by rewrite E|]. apply streq_true in E as ->. rewrite IH by done.
    destruct (assoc k d) as [w|] eqn:Ea; [|done]. destruct Hk. clear -Ea. induction d as [|[k' v'] d IH]; [done|]. cbn in *.
    destruct (streq k' k) eqn:E; [apply streq_true in E as ->; left|right; by apply IH].
  - destruct v as [v|]; [cbn; rewrite E|]; by apply IH.
Qed.

Lemma get_obj k (d : detail) : NoDup (map fst d) -> get (js k) (obj d) = detail_get k d.
Proof. intros HN. cbn. by rewrite lookup_fields. Qed.

Lemma map_set_elem {A} k (v : A) l x : x ∈ map_set k v l -> x = (k, v) \/ x ∈ l.
Proof.
  induction l as [|[k' w] l IH]; cbn [map_set]; [set_solver|]. destruct (streq k' k) eqn:E; [|set_solver].
  apply streq_true in E as ->. set_solver.
Qed.

Lemma assoc_map_set {A} k k' (v : A) l : assoc k' (map_set k v l) = if streq k k' then Some v else assoc k' l.
Proof.
  induction l as [|[x w] l IH]; cbn [map_set assoc]; [done|]. destruct (streq x k) eqn:E; cbn [assoc].
  - apply streq_true in E as ->. by destruct (streq k k').
  - rewrite IH. destruct (streq k k') eqn:Ek; [|done]. apply streq_true in Ek as ->. by rewrite E.
Qed.

Lemma detail_set_ok P k v d :
  is_index_key (js k) = false -> (forall x, v = Some x -> P x) -> detail_ok P d -> detail_ok P (detail_set k v d).
Proof.
  intros H1 H3 [HN HF]. pose proof (js_range k) as H2. split.
  - unfold detail_set. rewrite map_set_names. case_bool_decide as E; [done|]. apply NoDup_app. split_and!; [done| |apply NoDup_singleton].
    intros x Hx Hy. apply list_elem_of_singleton in Hy as ->. done.
  - apply Forall_forall. intros kv Hkv. apply map_set_elem in Hkv as [->|Hkv]; [done|]. rewrite Forall_forall in HF. by apply HF.
Qed.

Lemma detail_get_P (P : json -> Prop) k d v : detail_ok P d -> detail_get k d = Some v -> P v.
Proof.
  intros [_ HF] H. unfold detail_get in H. induction HF as [|[k' w] d (_ & _ & Hw) HF IH]; [done|]. cbn in H.
  destruct (streq k' (js k)); [by apply Hw|by apply IH].
Qed.

Lemma detail_get_set k k' v d : detail_get k' (detail_set k v d) = if streq (js k) (js k') then v else detail_get k' d.
Proof. unfold detail_get, detail_set. rewrite assoc_map_set. by destruct (streq (js k) (js k')). Qed.

Definition or_if (keep : bool) (a b : option json) : option json := if keep then a else b.

Definition is_nullish (v : option json) : bool := match v with None | Some JNull => true | _ => false end.

Lemma get_set_if_nullish k k' src tgt :
  detail_get k' (set_if_nullish k src tgt) =
  if streq (js k) (js k') then or_if (negb (is_nullish (detail_get k tgt))) (detail_get k tgt) (detail_get k src) else detail_get k' tgt.
Proof.
  unfold set_if_nullish. destruct (streq (js k) (js k')) eqn:E.
  - assert (Hk : forall d, detail_get k' d = detail_get k d) by (intros d; apply streq_true in E; unfold detail_get; by rewrite E).
    destruct (detail_get k tgt) as [[]|] eqn:Eg; rewrite ?detail_get_set, ?E, ?Hk, ?Eg; done.
  - destruct (detail_get k tgt) as [[]|]; rewrite ?detail_get_set, ?E; done.
Qed.

Lemma get_set_if_falsy k k' src tgt :
  detail_get k' (set_if_falsy k src tgt) =
  if streq (js k) (js k') then or_if (truthy_json (detail_get k tgt)) (detail_get k tgt) (detail_get k src) else detail_get k' tgt.
Proof.
  unfold set_if_falsy. destruct (streq (js k) (js k')) eqn:E.
  - assert (Hk : forall d, detail_get k' d = detail_get k d) by (intros d; apply streq_true in E; unfold detail_get; by rewrite E).
    destruct (truthy_json (detail_get k tgt)); rewrite ?detail_get_set, ?E, ?Hk; done.
  - destruct (truthy_json (detail_get k tgt)); rewrite ?detail_get_set, ?E; done.
Qed.

Lemma get_append_string k k' src tgt :
  detail_get k' (append_string k src tgt) =
  if streq (js k) (js k') then Some (JStr (detail_string k tgt ++ detail_string k src)) else detail_get k' tgt.
Proof. unfold append_string. by rewrite detail_get_set. Qed.

(** ** Merged details are valid *)

(** [isOpenAIReasoningDetail] of an object with the given fields. *)
Definition valid_fields (g : string -> option json) : bool :=
  let optional k ok := match g k with None => true | Some x => ok x end in
  let text k := match g k with Some (JStr _) => true | _ => false end in
  let type t := bool_decide (g "type"%string = Some (JStr (js t))) in
  (optional "id"%string is_string_or_null && optional "format"%string is_string && optional "index"%string is_number) &&
  (if type "reasoning.summary"%string then text "summary"%string
   else if type "reasoning.encrypted"%string then text "data"%string
   else if type "reasoning.text"%string then text "text"%string && optional "signature"%string is_string_or_null
   else false).

Lemma valid_detail_fields fs : isOpenAIReasoningDetail (JObj fs) = valid_fields (fun k => get (js k) (JObj fs)).
Proof.
  unfold isOpenAIReasoningDetail, valid_fields, hasValidCommonReasoningDetailFields, optional_field, string_field, has_detail_type.
  cbn [isJsonSchemaObject negb orb]. by destruct (_ && _ && _).
Qed.

Lemma valid_obj d : NoDup (map fst d) -> isOpenAIReasoningDetail (obj d) = valid_fields (fun k => detail_get k d).
Proof.
  intros HN. unfold obj. rewrite valid_detail_fields. unfold valid_fields.
  by rewrite !(get_obj _ d HN).
Qed.

Definition typed (t : string) (d : detail) : Prop := detail_get "type" d = Some (JStr (js t)).

(** What is valid of the fields two details are merged from is valid of the merge. *)
Lemma or_if_cases (P : option json -> Prop) b x y : P x -> P y -> P (or_if b x y).
Proof. by destruct b. Qed.

Definition common_ok (g : string -> option json) : Prop :=
  match g "id"%string with None => true | Some x => is_string_or_null x end = true /\
  match g "format"%string with None => true | Some x => is_string x end = true /\
  match g "index"%string with None => true | Some x => is_number x end = true.

Lemma fill_common tgt src :
  common_ok (fun k => detail_get k tgt) -> common_ok (fun k => detail_get k src) ->
  common_ok (fun k => detail_get k (fillMissingCommonReasoningDetailFields tgt src)).
Proof.
  intros (H1 & H2 & H3) (H4 & H5 & H6). unfold fillMissingCommonReasoningDetailFields, common_ok.
  rewrite !get_set_if_nullish, !get_set_if_falsy, !get_set_if_nullish.
  change (streq (js "index") (js "id")) with false. change (streq (js "format") (js "id")) with false.
  change (streq (js "id") (js "id")) with true. change (streq (js "index") (js "format")) with false.
  change (streq (js "format") (js "format")) with true. change (streq (js "index") (js "index")) with true.
  change (streq (js "id") (js "format")) with false. change (streq (js "id") (js "index")) with false.
  change (streq (js "format") (js "index")) with false. cbn match.
  split_and!.
  - by apply (or_if_cases (fun v => match v with None => true | Some x => is_string_or_null x end = true)).
  - by apply (or_if_cases (fun v => match v with None => true | Some x => is_string x end = true)).
  - by apply (or_if_cases (fun v => match v with None => true | Some x => is_number x end = true)).
Qed.

Lemma fill_other k tgt src :
  forallb (fun x => negb (streq (js x) (js k))) ["id"; "format"; "index"]%string = true ->
  detail_get k (fillMissingCommonReasoningDetailFields tgt src) = detail_get k tgt.
Proof.
  intros Hk. cbn [forallb] in Hk. bool_to_prop. unfold fillMissingCommonReasoningDetailFields.
  rewrite get_set_if_nullish. repeat match goal with H : streq _ _ = false |- _ => rewrite H end.
  rewrite get_set_if_falsy. repeat match goal with H : streq _ _ = false |- _ => rewrite H end.
  rewrite get_set_if_nullish. repeat match goal with H : streq _ _ = false |- _ => rewrite H end. done.
Qed.

Definition merge_text (tgt src : detail) : detail :=
  fillMissingCommonReasoningDetailFields (set_if_falsy "signature" src (append_string "text" src tgt)) src.
Definition merge_summary (tgt src : detail) : detail := fillMissingCommonReasoningDetailFields (append_string "summary" src tgt) src.

Lemma valid_common g : valid_fields g = true -> common_ok g.
Proof. unfold valid_fields, common_ok. intros H. bool_to_prop. done. Qed.

Lemma valid_signature g :
  g "type"%string = Some (JStr (js "reasoning.text")) -> valid_fields g = true ->
  match g "signature"%string with None => true | Some x => is_string_or_null x end = true.
Proof.
  intros T. unfold valid_fields. rewrite T. change (bool_decide (Some (JStr (js "reasoning.text")) = Some (JStr (js "reasoning.summary")))) with false.
  change (bool_decide (Some (JStr (js "reasoning.text")) = Some (JStr (js "reasoning.encrypted")))) with false.
  change (bool_decide (Some (JStr (js "reasoning.text")) = Some (JStr (js "reasoning.text")))) with true.
  cbn match. intros H. bool_to_prop. done.
Qed.

Lemma merge_text_valid tgt src :
  typed "reasoning.text" tgt -> typed "reasoning.text" src ->
  valid_fields (fun k => detail_get k tgt) = true -> valid_fields (fun k => detail_get k src) = true ->
  valid_fields (fun k => detail_get k (merge_text tgt src)) = true.
Proof.
  intros T1 T2 V1 V2. pose proof (valid_common _ V1) as C1. pose proof (valid_common _ V2) as C2.
  unfold merge_text. set (mid := set_if_falsy "signature" src (append_string "text" src tgt)).
  assert (Hmid : forall k, streq (js "signature") (js k) = false -> streq (js "text") (js k) = false -> detail_get k mid = detail_get k tgt).
  { intros k H1 H2. unfold mid. by rewrite get_set_if_falsy, H1, get_append_string, H2. }
  assert (Cm : common_ok (fun k => detail_get k mid)) by (unfold common_ok; rewrite !Hmid by done; exact C1).
  pose proof (fill_common mid src Cm C2) as (F1 & F2 & F3).
  assert (Hsig : match detail_get "signature" mid with None => true | Some x => is_string_or_null x end = true).
  { unfold mid. rewrite get_set_if_falsy. change (streq (js "signature") (js "signature")) with true. cbn match.
    rewrite get_append_string. change (streq (js "text") (js "signature")) with false. cbn match.
    apply (or_if_cases (fun v => match v with None => true | Some x => is_string_or_null x end = true)).
    - by apply (valid_signature (fun k => detail_get k tgt)).
    - by apply (valid_signature (fun k => detail_get k src)). }
  unfold valid_fields. rewrite F1, F2, F3, !fill_other by done. rewrite (Hmid "type"%string) by done. rewrite T1.
  replace (detail_get "text" mid) with (Some (JStr (detail_string "text" tgt ++ detail_string "text" src))).
  2: { unfold mid. rewrite get_set_if_falsy. change (streq (js "signature") (js "text")) with false. cbn match. by rewrite get_append_string. }
  rewrite Hsig. reflexivity.
Qed.

Lemma merge_summary_valid tgt src :
  typed "reasoning.summary" tgt -> typed "reasoning.summary" src ->
  valid_fields (fun k => detail_get k tgt) = true -> valid_fields (fun k => detail_get k src) = true ->
  valid_fields (fun k => detail_get k (merge_summary tgt src)) = true.
Proof.
  intros T1 T2 V1 V2. pose proof (valid_common _ V1) as C1. pose proof (valid_common _ V2) as C2.
  unfold merge_summary. set (mid := append_string "summary" src tgt).
  assert (Hmid : forall k, streq (js "summary") (js k) = false -> detail_get k mid = detail_get k tgt).
  { intros k H1. unfold mid. by rewrite get_append_string, H1. }
  assert (Cm : common_ok (fun k => detail_get k mid)) by (unfold common_ok; rewrite !Hmid by done; exact C1).
  pose proof (fill_common mid src Cm C2) as (F1 & F2 & F3).
  unfold valid_fields. rewrite F1, F2, F3, !fill_other by done. rewrite (Hmid "type"%string) by done. rewrite T1.
  unfold mid. by rewrite get_append_string.
Qed.

(** ** Printing and reading back *)

Section Replay.
Context (num_to_string : Q -> jstr).

(** A valid detail that can be printed. *)
Definition good_detail (d : detail) : Prop :=
  detail_ok (printable num_to_string) d /\ valid_fields (fun k => detail_get k d) = true.

Lemma set_if_nullish_ok k src tgt :
  is_index_key (js k) = false -> detail_ok (printable num_to_string) src -> detail_ok (printable num_to_string) tgt ->
  detail_ok (printable num_to_string) (set_if_nullish k src tgt).
Proof.
  intros H1 Hs Ht. assert (Hset : detail_ok (printable num_to_string) (detail_set k (detail_get k src) tgt)).
  { apply detail_set_ok; try done. intros x Hx. exact (detail_get_P _ _ _ _ Hs Hx). }
  unfold set_if_nullish. by destruct (detail_get k tgt) as [[]|].
Qed.

Lemma set_if_falsy_ok k src tgt :
  is_index_key (js k) = false -> detail_ok (printable num_to_string) src -> detail_ok (printable num_to_string) tgt ->
  detail_ok (printable num_to_string) (set_if_falsy k src tgt).
Proof.
  intros H1 Hs Ht. unfold set_if_falsy. destruct (truthy_json _); [done|].
  apply detail_set_ok; try done. intros x Hx. exact (detail_get_P _ _ _ _ Hs Hx).
Qed.

Lemma detail_string_range k d : detail_ok (printable num_to_string) d -> unit_range (detail_string k d).
Proof.
  intros H. unfold detail_string. destruct (detail_get k d) as [[]|] eqn:E; try constructor.
  apply (detail_get_P _ _ _ _ H) in E. by inversion E.
Qed.

Lemma append_string_ok k src tgt :
  is_index_key (js k) = false -> detail_ok (printable num_to_string) src -> detail_ok (printable num_to_string) tgt ->
  detail_ok (printable num_to_string) (append_string k src tgt).
Proof.
  intros H1 Hs Ht. apply detail_set_ok; try done. intros x [= <-]. constructor. apply Forall_app.
  split; by apply detail_string_range.
Qed.

Lemma fill_ok tgt src :
  detail_ok (printable num_to_string) tgt -> detail_ok (printable num_to_string) src ->
  detail_ok (printable num_to_string) (fillMissingCommonReasoningDetailFields tgt src).
Proof.
  intros Ht Hs. unfold fillMissingCommonReasoningDetailFields.
  apply set_if_nullish_ok; [done|done|]. apply set_if_falsy_ok; [done|done|].
  apply set_if_nullish_ok; [done|done|done].
Qed.

Lemma append_good ds d : Forall good_detail ds -> good_detail d -> Forall good_detail (appendOpenAIReasoningDetail ds d).
Proof.
  intros HF G. assert (Hsnoc : Forall good_detail (ds ++ [d])) by (apply Forall_app; split; [done|by constructor]).
  destruct G as [Hd Vd]. unfold appendOpenAIReasoningDetail. destruct (last ds) as [l|] eqn:El; [|done].
  apply last_Some in El as [front ->]. apply Forall_app in HF as [HF [[Hl Vl] _]%Forall_cons].
  rewrite removelast_last. destruct (detail_type "reasoning.text" d && detail_type "reasoning.text" l) eqn:E1; [|
    destruct (detail_type "reasoning.summary" d && detail_type "reasoning.summary" l) eqn:E2].
  - apply andb_true_iff in E1 as [T1%bool_decide_eq_true T2%bool_decide_eq_true]. apply Forall_app. split; [done|].
    apply Forall_singleton. split; [|by apply (merge_text_valid l d)].
    apply fill_ok; [|done]. apply set_if_falsy_ok; [done|done|]. apply append_string_ok; [done|done|done].
  - apply andb_true_iff in E2 as [T1%bool_decide_eq_true T2%bool_decide_eq_true]. apply Forall_app. split; [done|].
    apply Forall_singleton. split; [|by apply (merge_summary_valid l d)].
    apply fill_ok; [|done]. apply append_string_ok; [done|done|done].
  - done.
Qed.

Lemma obj_printable d : detail_ok (printable num_to_string) d -> printable num_to_string (obj d).
Proof.
  intros [HN HF].
  assert (Hf : Forall (fun kv => is_index_key kv.1 = false /\ unit_range kv.1 /\ printable num_to_string kv.2) (fields_of d)).
  { apply Forall_forall. intros kv Hkv. apply fields_of_keys in Hkv. rewrite Forall_forall in HF.
    destruct (HF _ Hkv) as (H1 & H2 & H3). cbn in *. split_and!; try done. by apply H3. }
  constructor.
  - clear -HN. induction d as [|[k v] d IH]; [constructor|]. apply NoDup_cons in HN as [Hk HN]. rewrite fields_of_cons.
    destruct v as [v|]; [|by apply IH]. cbn. apply NoDup_cons. split; [|by apply IH]. intros Hin. apply Hk.
    apply list_elem_of_fmap in Hin as ((k' & v') & -> & Hin). apply fields_of_keys in Hin.
    apply (list_elem_of_fmap_2 fst) in Hin. exact Hin.
  - unfold own_order. assert (H1 : List.filter (fun kv => is_index_key kv.1) (fields_of d) = []).
    { clear -Hf. induction Hf as [|kv l (H & _) HF IH]; [done|]. cbn. by rewrite H. }
    rewrite H1. cbn. apply forallb_filter_id, forallb_forall. intros kv Hin. apply list_elem_of_In in Hin.
    rewrite Forall_forall in Hf. destruct (Hf kv Hin) as (-> & _). done.
  - eapply Forall_impl; [exact Hf|]. naive_solver.
Qed.

(** The signature of a thinking block gives back the details it was made from. *)
Lemma details_roundtrip ds :
  Forall good_detail ds -> ds ≠ [] ->
  parseOpenAIReasoningDetails (Some (JSON_stringify num_to_string (details_json ds))) = Some (map obj ds).
Proof.
  intros HF Hne. unfold parseOpenAIReasoningDetails. rewrite json_roundtrip.
  - unfold details_json. destruct ds as [|d ds]; [done|]. cbn [map JSON_stringify app truthy].
    change (truthy (js "[" ++ ?x)) with true. cbn match.
    assert (H : forallb isOpenAIReasoningDetail (map obj (d :: ds)) = true).
    { apply forallb_forall. intros x Hx. apply list_elem_of_In, list_elem_of_fmap in Hx as (d' & -> & Hd').
      rewrite Forall_forall in HF. destruct (HF d' Hd') as [[HN _] Hv]. by rewrite valid_obj. }
    cbn [map] in H. by rewrite H.
  - constructor. apply Forall_map. eapply Forall_impl; [exact HF|]. intros d [Hd _]. by apply obj_printable.
Qed.

(** ** A turn *)

Context (partial_parse : jstr -> option json) (m : model) (properties : gmap jstr jstr) (supportsFinishReason : bool) (now : Z).

Lemma detail_of_get fs k : detail_get k (detail_of (JObj fs)) = get (js k) (JObj fs).
Proof.
  unfold detail_get. cbn [detail_of get]. induction fs as [|[k' v] fs IH]; [done|]. cbn in *. by destruct (streq k' (js k)).
Qed.

Lemma valid_detail_of d : isOpenAIReasoningDetail d = true -> valid_fields (fun k => detail_get k (detail_of d)) = true.
Proof.
  intros H. assert (Ho : exists fs, d = JObj fs) by (destruct d; try done; by eexists). destruct Ho as [fs ->].
  rewrite valid_detail_fields in H. rewrite <- H. unfold valid_fields. by rewrite !detail_of_get.
Qed.

Lemma detail_pieces_valid chunks d : DetailPiece d ∈ chunks ≫= chunk_pieces -> isOpenAIReasoningDetail d = true.
Proof.
  intros H. apply list_elem_of_bind in H as (c & H & _). unfold chunk_pieces in H.
  destruct (chunk_delta c) as [x|]; [|by apply elem_of_nil in H]. unfold delta_pieces in H. rewrite !elem_of_app in H.
  destruct H as [H|[H|[H|H]]].
  - destruct (truthy_string (cd_content x)); [by apply list_elem_of_singleton in H|by apply elem_of_nil in H].
  - destruct (List.find _ _) as [[f v]|]; [by apply list_elem_of_singleton in H|by apply elem_of_nil in H].
  - apply list_elem_of_omap in H as (t & _ & Ht). unfold tool_piece in Ht.
    by destruct (tl_index t), (tl_function t), (tl_custom t).
  - apply list_elem_of_fmap in H as (d' & [= <-] & H). apply list_elem_of_In, filter_In in H as [_ H]. done.
Qed.

Lemma all_details_good ps :
  (forall d, DetailPiece d ∈ ps -> good_detail (detail_of d)) -> Forall good_detail (all_details ps).
Proof.
  induction ps as [|p ps IH] using rev_ind; intros H; [constructor|]. rewrite all_details_snoc.
  assert (HF : Forall good_detail (all_details ps)) by (apply IH; intros d Hd; apply H; set_solver).
  destruct p; try done. apply append_good; [done|]. apply H. set_solver.
Qed.

Lemma one_thinking ps :
  KThink ∈ keys ps -> thinking_blocks (map (said_block num_to_string partial_parse m ps) (keys ps)) =
  [(said_text KThink ps, Some (match all_details ps with
     | [] => match of_key KThink ps with p :: _ => field_signature m p | [] => [] end
     | ds => JSON_stringify num_to_string (details_json ds) end))].
Proof.
  pose proof (keys_NoDup ps) as HN. intros Hk. unfold thinking_blocks.
  assert (Hnone : forall l, KThink ∉ l -> omap (fun b => match b with BThinking t s _ => Some (t, s) | _ => None end)
    (map (said_block num_to_string partial_parse m ps) l) = []).
  { induction l as [|x l IH]; intros Hl; [done|]. apply not_elem_of_cons in Hl as [Hx Hl]. cbn. destruct x; [by apply IH|done|by apply IH]. }
  apply list_elem_of_split in Hk as (l1 & l2 & E). rewrite E in HN |- *.
  apply NoDup_app in HN as (_ & Hd & HN2). apply NoDup_cons in HN2 as [H2 _].
  rewrite map_app, omap_app. cbn [map]. rewrite (Hnone l1); [|intros H; apply (Hd _ H); left]. pose proof (Hnone l2 H2) as H3. cbn [omap list_omap app said_block] in *. by rewrite H3.
Qed.

(** The reasoning details of a response come back in the next request: for every
    response as [openai_message_faithful] describes it whose details are objects
    that can be printed, the message holds the merged details as the signature of
    its thinking, and what a request to the model sends for that message carries
    exactly these details. *)
Theorem reasoning_details_replayed chunks r compat :
  let ps := chunks ≫= chunk_pieces in
  Forall plain_chunk chunks -> consistent_ids ps -> Forall fine_chunk chunks -> last (omap chunk_reason chunks) = Some r ->
  (forall d, DetailPiece d ∈ ps -> detail_ok (printable num_to_string) (detail_of d)) -> all_details ps ≠ [] ->
  exists es msg,
    chat_stream num_to_string partial_parse m properties supportsFinishReason now (Ok ()) chunks (Ok ()) false =
      (EvStart :: es ++ [EvDone (mapStopReason r).1 msg], msg) /\
    forall x, convert_chat_assistant num_to_string m compat properties msg = Ok (Some x) ->
      exists c reasoning calls n, x = OAssistant c reasoning calls (Some (map obj (all_details ps))) n.
Proof.
  intros ps HP HC HF Hr Hd Hne.
  destruct (chat_stream_done num_to_string partial_parse m properties supportsFinishReason now chunks r HP HC HF Hr)
    as (es & s & Hs & Hb & _). set (msg := chat_message_of m now s (mapStopReason r).1 None) in *.
  exists es, msg. split; [exact Hs|]. fold ps in Hb.
  assert (Hc : a_content msg = map (said_block num_to_string partial_parse m ps) (keys ps)) by (cbn; by rewrite Hb, map_map).
  assert (Hgood : Forall good_detail (all_details ps)).
  { apply all_details_good. intros d Hin. split; [by apply Hd|]. by eapply valid_detail_of, detail_pieces_valid. }
  assert (Hk : KThink ∈ keys ps).
  { destruct (decide (KThink ∈ keys ps)) as [|Hn]; [done|]. destruct Hne. clear -Hn.
    assert (H : forall d, DetailPiece d ∉ ps) by (intros d Hin; apply Hn; by apply (keys_elem ps (DetailPiece d))).
    unfold all_details. assert (omap (fun p => match p with DetailPiece d => Some (detail_of d) | _ => None end) ps = []) as ->; [|done].
    clear Hn. induction ps as [|p ps IH]; [done|]. cbn. destruct p as [| | |d]; try (apply IH; intros d Hd; apply (H d); by right).
    destruct (H d). left. }
  assert (Hp : preservedReasoningDetails (a_content msg) = Some (map obj (all_details ps))).
  { unfold preservedReasoningDetails. rewrite Hc, one_thinking by done. cbn [omap list_omap snd].
    destruct (all_details ps) as [|d ds] eqn:E; [done|]. by rewrite details_roundtrip. }
  intros x Hx. unfold convert_chat_assistant in Hx. rewrite Hp in Hx.
  destruct (assistant_content m compat (a_content msg)) as [c reasoning]. destruct (map_throw _ _) as [calls|]; [|done].
  cbn [bind] in Hx. destruct (_ && _); [done|]. injection Hx as <-. by eexists _, _, _, _.
Qed.
End Replay.

(** ** Witnesses *)

Definition detail_text (t : string) : json :=
  JObj [(js "type", JStr (js "reasoning.text")); (js "text", JStr (js t)); (js "index", JNum (Finite 0))].

Definition detail_chunk (d : json) : chunk := Chunk (Some (js "r1")) None None (Some (Choice None None (Some (ChatDelta None [] [] [d])))).

Definition sample_chunks : list chunk :=
  [detail_chunk (detail_text "think"); text_chunk (js "He"); detail_chunk (detail_text "ing"); text_chunk (js "y");
   call_chunk 0 (Some (js "c1")) (Some (js "read")) (Some (js "{")); call_chunk 0 None None (Some (js "}")); end_chunk (js "tool_calls")].

Lemma sample_plain : Forall plain_chunk sample_chunks.
Proof. repeat (apply Forall_cons_2; [intros d [= <-]; repeat constructor; by eexists|]). apply Forall_nil_2. Qed.

Lemma sample_ids : consistent_ids (sample_chunks ≫= chunk_pieces).
Proof.
  intros i j id n a n' a' H1 H2. apply list_elem_of_In in H1, H2. vm_compute in H1, H2.
  repeat match goal with H : _ \/ _ |- _ => destruct H as [H|H] end; try done; congruence.
Qed.

Lemma sample_fine : Forall fine_chunk sample_chunks.
Proof. repeat (apply Forall_cons_2; [intros r [= <-]; reflexivity|]). apply Forall_nil_2. Qed.

Lemma detail_text_ok t : detail_ok (printable int_num_str) (detail_of (detail_text t)).
Proof.
  split; [apply (bool_decide_unpack _); vm_compute; exact I|].
  repeat (apply Forall_cons_2; [split_and!; [reflexivity|apply js_range|intros v [= <-]]|]); [..|apply Forall_nil_2].
  - constructor. apply js_range.
  - constructor. apply js_range.
  - constructor. apply (int_number_text 0). lia.
Qed.

Lemma sample_details_ok d : DetailPiece d ∈ sample_chunks ≫= chunk_pieces -> detail_ok (printable int_num_str) (detail_of d).
Proof.
  intros H. assert (Hd : d = detail_text "think" \/ d = detail_text "ing").
  { apply list_elem_of_In in H. change (sample_chunks ≫= chunk_pieces) with
      [DetailPiece (detail_text "think"); TextPiece (js "He"); DetailPiece (detail_text "ing"); TextPiece (js "y");
       ToolPiece 0 (Some (js "c1")) (Some (js "read")) (Some (js "{")); ToolPiece 0 None None (Some (js "}"))] in H.
    cbn [In] in H. repeat destruct H as [H|H]; try done; injection H as <-; auto. }
  destruct Hd as [->| ->]; apply detail_text_ok.
Qed.

Lemma reasoning_details_replayed_witness :
  exists es msg,
    chat_stream int_num_str (fun _ => None) chat_model ∅ true 0 (Ok ()) sample_chunks (Ok ()) false = (EvStart :: es ++ [EvDone ToolUse msg], msg) /\
    match convert_chat_assistant int_num_str chat_model (getCompat lower_ascii chat_model None) ∅ msg with
    | Ok (Some (OAssistant _ _ _ (Some ds) _)) => ds = [detail_text "thinking"]
    | _ => True
    end.
Proof.
  destruct (reasoning_details_replayed int_num_str (fun _ => None) chat_model ∅ true 0 sample_chunks (js "tool_calls")
    (getCompat lower_ascii chat_model None) sample_plain sample_ids sample_fine eq_refl sample_details_ok ltac:(vm_compute; discriminate))
    as (es & msg & Hs & Hx).
  exists es, msg. split; [exact Hs|].
  destruct (convert_chat_assistant int_num_str chat_model (getCompat lower_ascii chat_model None) ∅ msg) as [[x|]|]; [|exact I|exact I].
  destruct (Hx x eq_refl) as (c & reasoning & calls & n & ->). vm_compute. reflexivity.
Defined.
