(* ===== verification/OpenaiResponses.v ===== *)
(** The requests of the responses APIs: conversation items, tools, loading of tools
    on demand, parameters and headers of the OpenAI and Azure providers (packages/ai,
    api/openai-responses-shared.js, api/openai-responses.js and
    api/azure-openai-responses.js, bundled in
    src/drivers/tools/pibridge/bridge.mjs).  [toLowerCase], the printing of numbers,
    the text of a [SyntaxError] and the URL class are parameters; the SDK client is
    the record of its options. *)
From S2P Require Import Prelude Utf8 Numbers Json JsonText Messages TransformMessages ConstrainedSampling Models Estimate AnthropicMessages OpenaiCommon OpenaiCompletions.
Open Scope Z_scope.

(** ** Signatures of text *)

Record text_signature := TextSignature { ts_id : jstr; ts_phase : option jstr }.

Definition one : json := JNum (Finite 1).

Definition encodeTextSignatureV1 (num_to_string : Q -> jstr) (id : jstr) (phase : option jstr) : jstr :=
  JSON_stringify num_to_string
    (obj [(js "v", Some one); (js "id", Some (JStr id)); (js "phase", if truthy_opt phase then JStr <$> phase else None)]).

Definition is_one (v : option json) : bool := match v with Some (JNum (Finite q)) => Qeq_bool q 1 | _ => false end.

Definition known_phase (v : option json) : option jstr :=
  match v with
  | Some (JStr p) => if streq p (js "commentary") || streq p (js "final_answer") then Some p else None
  | _ => None
  end.

Definition parseTextSignature (signature : option jstr) : option text_signature :=
  match signature with
  | Some s =>
      if negb (truthy s) then None
      else
        let plain := Some (TextSignature s None) in
        if starts_with (js "{") s then
          match JSON_parse s with
          | Some parsed =>
              match get (js "id") parsed with
              | Some (JStr id) =>
                  if is_one (get (js "v") parsed) then Some (TextSignature id (known_phase (get (js "phase") parsed))) else plain
              | _ => plain
              end
          | None => plain
          end
        else plain
  | None => None
  end.

(** ** What is sent *)

Inductive input_part :=
| InputText (text : jstr)
| InputImage (url : jstr).

Inductive tool_output :=
| OutputText (text : jstr)
| OutputParts (ps : list input_part).

(** A tool, and whether it carries [defer_loading]; [strict] is absent where strict
    mode is not supported and may be [null]. *)
Inductive response_tool :=
| ResponseFunction (name description : jstr) (parameters : json) (strict : option (option bool)) (defer : bool)
| ResponseCustom (name description syntax definition : jstr) (defer : bool).

Inductive input_item :=
| InputInstructions (developer : bool) (text : jstr)
| InputUser (ps : list input_part)
| InputReasoning (item : json)
| InputMessage (id text : jstr) (phase : option jstr)
| InputCall (id : option jstr) (call_id name arguments : jstr) (namespace : option jstr)
| InputCustomCall (id : option jstr) (call_id name input : jstr) (namespace : option jstr)
| InputResult (custom : bool) (call_id : jstr) (output : tool_output)
| InputTools (ts : list response_tool)                        (* [additional_tools] *)
| InputSearch (call_id : jstr) (names : list jstr)            (* [tool_search_call] *)
| InputFound (call_id : jstr) (ts : list response_tool).      (* [tool_search_output] *)

Definition convertToolResultOutput (m : model) (content : list part) : tool_output :=
  let textResult := result_text content in
  let images := omap (fun p => match p with PImage data mimeType => Some (image_url data mimeType) | _ => None end) content in
  match images with
  | [] => OutputText (sanitizeSurrogates (if truthy textResult then textResult else js "(no tool output)"))
  | _ =>
      if negb (bool_decide (js "image" ∈ m_input m)) then
        OutputText (sanitizeSurrogates (if truthy textResult then textResult else js "(see attached image)"))
      else
        OutputParts ((if truthy textResult then [InputText (sanitizeSurrogates textResult)] else []) ++ map InputImage images)
  end.

(** ** Tools *)

(** [strict], [supportsStrictMode], [supportsOpenAIGrammarTools] and [deferLoading]. *)
Record tool_options := ToolOptions {
  to_strict : option bool; to_supportsStrict : bool; to_grammar : bool; to_defer : bool
}.

Definition convert_response_tool (o : tool_options) (t : api_tool) : result jstr response_tool :=
  let! g := resolveGrammarConstrainedSampling (at_tool t) (to_grammar o) in
  match g with
  | Some g => Ok (ResponseCustom (at_name t) (at_description t) (g_format g) (g_definition g) (to_defer o))
  | None =>
      let! constrainedStrict := resolveJsonSchemaStrictSampling (at_tool t) (to_supportsStrict o) in
      let strict := if constrainedStrict then Some true else to_strict o in
      let! parameters := getJsonSchemaToolParameters (at_tool t) (bool_decide (strict = Some true)) in
      Ok (ResponseFunction (at_name t) (at_description t) parameters (if to_supportsStrict o then Some strict else None) (to_defer o))
  end.

Definition convertResponsesTools (o : tool_options) (tools : list api_tool) : result jstr (list response_tool) :=
  map_throw (convert_response_tool o) tools.

(** ** Identifiers *)

Definition drop_trailing (c : Z) (s : jstr) : jstr := rev (drop_while (Z.eqb c) (rev s)).

Definition normalizeIdPart (part : jstr) : jstr := drop_trailing 95 (take 64 (clean_id part)).

Definition buildForeignResponsesItemId (itemId : jstr) : jstr := take 64 (js "fc_" ++ shortHash itemId).

(** [const [callId, itemId] = id.split("|")] *)
Definition id_parts (id : jstr) : jstr * option jstr :=
  match split_char 124 id with
  | callId :: itemId :: _ => (callId, Some itemId)
  | callId :: [] => (callId, None)
  | [] => ([], None)
  end.

Definition normalizeResponsesId (allowed : list jstr) (m : model) (id : jstr) (source : assistant) : jstr :=
  if negb (mem (m_provider m) allowed) then normalizeIdPart id
  else
    match id_parts id with
    | (_, None) => normalizeIdPart id
    | (callId, Some itemId) =>
        let isForeign := negb (streq (a_provider source) (m_provider m)) || negb (streq (a_api source) (m_api m)) in
        let normalizedItemId := if isForeign then buildForeignResponsesItemId itemId else normalizeIdPart itemId in
        let normalizedItemId :=
          if starts_with (js "fc_") normalizedItemId then normalizedItemId else normalizeIdPart (js "fc_" ++ normalizedItemId) in
        normalizeIdPart callId ++ [124] ++ normalizedItemId
    end.

(** ** The conversation *)

Definition input_part_of (p : part) : input_part :=
  match p with
  | PText t => InputText (sanitizeSurrogates t)
  | PImage data mimeType => InputImage (image_url data mimeType)
  end.

Definition convert_response_user (c : user_content) : option input_item :=
  match c with
  | UString s => Some (InputUser [InputText (sanitizeSurrogates s)])
  | UParts [] => None
  | UParts ps => Some (InputUser (map input_part_of ps))
  end.

(** The id of a text without a signature: the position of its message and, unless
    it is the first of them, of the text in the message. *)
Definition fallbackMessageId (msgIndex textBlockIndex : Z) : jstr :=
  js "msg_pi_" ++ num_str msgIndex ++ (if textBlockIndex =? 0 then [] else js "_" ++ num_str textBlockIndex).

Definition message_id (signature : option text_signature) (msgIndex textBlockIndex : Z) : jstr :=
  match signature with
  | Some (TextSignature id _) =>
      if negb (truthy id) then fallbackMessageId msgIndex textBlockIndex
      else if (64 <? Z.of_nat (length id)) then js "msg_" ++ shortHash id else id
  | None => fallbackMessageId msgIndex textBlockIndex
  end.

Inductive deferral := AdditionalTools | ToolSearch.

Section Convert.
Context (num_to_string : Q -> jstr) (syntax_error : jstr -> jstr).
Context (m : model) (allowedToolCallProviders : list jstr) (grammarToolInputProperties : gmap jstr jstr).
Context (deferredTools : list (jstr * api_tool)) (deferredToolsMode : option deferral) (toolOptions : tool_options).

Definition convert_response_call (a : assistant) (tc : toolCall) : result jstr input_item :=
  let isSameProviderAndApi := streq (a_provider a) (m_provider m) && streq (a_api a) (m_api m) in
  let isSameModel := isSameProviderAndApi && streq (a_model a) (m_id m) in
  let isDifferentModel := isSameProviderAndApi && negb (streq (a_model a) (m_id m)) in
  let '(callId, itemIdRaw) := id_parts (tc_id tc) in
  let customInputProperty := grammarToolInputProperties !! tc_name tc in
  let is_fc := match itemIdRaw with Some i => starts_with (js "fc_") i | None => false end in
  let itemId := if (isDifferentModel && is_fc) || (bool_decide (customInputProperty = None) && negb is_fc) then None else itemIdRaw in
  let canReplayNamespace := isSameModel || bool_decide (is_Some (assoc (tc_name tc) deferredTools)) in
  let namespace := if canReplayNamespace then tc_namespace tc else None in
  match customInputProperty with
  | Some property =>
      let! input := getGrammarToolInput (tc_name tc) (tc_arguments tc) property in
      Ok (InputCustomCall itemId callId (tc_name tc) (sanitizeSurrogates input) namespace)
  | None => Ok (InputCall itemId callId (tc_name tc) (JSON_stringify num_to_string (tc_arguments tc)) namespace)
  end.

(** The loop over the blocks of an assistant message. *)
Fixpoint convert_response_blocks (a : assistant) (bs : list block) (msgIndex textBlockIndex : Z) : result jstr (list input_item) :=
  match bs with
  | [] => Ok []
  | BThinking _ signature _ :: rest =>
      match signature with
      | Some s =>
          if truthy s then
            match JSON_parse s with
            | Some item => let! more := convert_response_blocks a rest msgIndex textBlockIndex in Ok (InputReasoning item :: more)
            | None => Throw (syntax_error s)
            end
          else convert_response_blocks a rest msgIndex textBlockIndex
      | None => convert_response_blocks a rest msgIndex textBlockIndex
      end
  | BText text signature :: rest =>
      let parsedSignature := parseTextSignature signature in
      let! more := convert_response_blocks a rest msgIndex (textBlockIndex + 1) in
      Ok (InputMessage (message_id parsedSignature msgIndex textBlockIndex) (sanitizeSurrogates text) (parsedSignature ≫= ts_phase) :: more)
  | BToolCall tc :: rest =>
      let! item := convert_response_call a tc in
      let! more := convert_response_blocks a rest msgIndex textBlockIndex in
      Ok (item :: more)
  end.

(** The tools a result loads: those that are deferred and not loaded yet, and the
    names loaded after it. *)
Fixpoint load_tools (names loaded : list jstr) : list api_tool * list jstr :=
  match names with
  | [] => ([], loaded)
  | name :: rest =>
      match assoc name deferredTools with
      | Some tool =>
          if mem name loaded then load_tools rest loaded
          else let '(tools, loaded') := load_tools rest (loaded ++ [name]) in (tool :: tools, loaded')
      | None => load_tools rest loaded
      end
  end.

(** The items that load tools after a result. *)
Definition loading_items (toolCallId : jstr) (tools : list api_tool) : result jstr (list input_item) :=
  match tools, deferredToolsMode with
  | [], _ | _, None => Ok []
  | _, Some AdditionalTools => let! ts := convertResponsesTools toolOptions tools in Ok [InputTools ts]
  | _, Some ToolSearch =>
      let names := map at_name tools in
      let searchCallId := js "pi_tool_load_" ++ shortHash (toolCallId ++ js ":" ++ join (js ",") names) in
      let! ts :=
        convertResponsesTools
          (ToolOptions (to_strict toolOptions) (to_supportsStrict toolOptions) (to_grammar toolOptions) true) tools in
      Ok [InputSearch searchCallId names; InputFound searchCallId ts]
  end.

Definition convert_response_result (r : tool_result) (loaded : list jstr) : result jstr (list input_item * list jstr) :=
  let callId := (id_parts (tr_toolCallId r)).1 in
  let output := convertToolResultOutput m (tr_content r) in
  let custom := bool_decide (is_Some (grammarToolInputProperties !! tr_toolName r)) in
  let '(tools, loaded) := load_tools (nullish (tr_addedToolNames r) []) loaded in
  let! loading := loading_items (tr_toolCallId r) tools in
  Ok (InputResult custom callId output :: loading, loaded).

(** The loop over the messages; a message that adds nothing is not counted. *)
Fixpoint responses_loop (ms : list message) (loaded : list jstr) (msgIndex : Z) : result jstr (list input_item) :=
  match ms with
  | [] => Ok []
  | MUser c _ :: rest =>
      match convert_response_user c with
      | Some item => let! more := responses_loop rest loaded (msgIndex + 1) in Ok (item :: more)
      | None => responses_loop rest loaded msgIndex
      end
  | MAssistant a :: rest =>
      let! output := convert_response_blocks a (a_content a) msgIndex 0 in
      match output with
      | [] => responses_loop rest loaded msgIndex
      | _ => let! more := responses_loop rest loaded (msgIndex + 1) in Ok (output ++ more)
      end
  | MToolResult r :: rest =>
      let! converted := convert_response_result r loaded in
      let! more := responses_loop rest converted.2 (msgIndex + 1) in
      Ok (converted.1 ++ more)
  | MOther _ _ :: rest => responses_loop rest loaded (msgIndex + 1)
  end.

Definition response_instructions (includeSystemPrompt : bool) (supportsDeveloperRole : option bool) (systemPrompt : option jstr)
  : list input_item :=
  if includeSystemPrompt && truthy_opt systemPrompt then
    [InputInstructions (m_reasoning m && bool_decide (supportsDeveloperRole ≠ Some false)) (sanitizeSurrogates (nullish systemPrompt []))]
  else [].

Definition convertResponsesMessages (includeSystemPrompt : bool) (supportsDeveloperRole : option bool) (systemPrompt : option jstr)
    (messages : list raw_message) (now : Z) : result jstr (list input_item) :=
  let transformedMessages :=
    transformMessages messages m (Some (fun id _ source => normalizeResponsesId allowedToolCallProviders m id source)) now in
  let! items := responses_loop transformedMessages [] 0 in
  Ok (response_instructions includeSystemPrompt supportsDeveloperRole systemPrompt ++ items).
End Convert.

(** ** As JSON *)

Definition input_part_json (p : input_part) : json :=
  match p with
  | InputText t => JObj [(js "type", jstring "input_text"); (js "text", JStr t)]
  | InputImage url => JObj [(js "type", jstring "input_image"); (js "detail", jstring "auto"); (js "image_url", JStr url)]
  end.

Definition output_json (o : tool_output) : json :=
  match o with OutputText t => JStr t | OutputParts ps => JArr (map input_part_json ps) end.

Definition defer_field (defer : bool) : jstr * option json := (js "defer_loading", if defer then Some (JBool true) else None).

Definition response_tool_json (t : response_tool) : json :=
  match t with
  | ResponseFunction name description parameters strict defer =>
      obj [(js "type", Some (jstring "function")); (js "name", Some (JStr name)); (js "description", Some (JStr description));
           (js "parameters", Some parameters); defer_field defer;
           (js "strict", (fun s => match s with Some b => JBool b | None => JNull end) <$> strict)]
  | ResponseCustom name description syntax definition defer =>
      obj [(js "type", Some (jstring "custom")); (js "name", Some (JStr name)); (js "description", Some (JStr description));
           (js "format", Some (JObj [(js "type", jstring "grammar"); (js "syntax", JStr syntax); (js "definition", JStr definition)]));
           defer_field defer]
  end.

Definition input_json (i : input_item) : json :=
  let type (t : string) := (js "type", Some (jstring t)) in
  let str (k : string) (v : jstr) := (js k, Some (JStr v)) in
  match i with
  | InputInstructions developer text => obj [str "role" (if developer then js "developer" else js "system"); str "content" text]
  | InputUser ps => obj [str "role" (js "user"); (js "content", Some (JArr (map input_part_json ps)))]
  | InputReasoning item => item
  | InputMessage id text phase =>
      obj [type "message"; str "role" (js "assistant");
           (js "content", Some (JArr [obj [type "output_text"; str "text" text; (js "annotations", Some (JArr []))]]));
           str "status" (js "completed"); str "id" id; (js "phase", JStr <$> phase)]
  | InputCall id call_id name arguments namespace =>
      obj [type "function_call"; (js "id", JStr <$> id); str "call_id" call_id; str "name" name; str "arguments" arguments;
           (js "namespace", JStr <$> namespace)]
  | InputCustomCall id call_id name input namespace =>
      obj [type "custom_tool_call"; (js "id", JStr <$> id); str "call_id" call_id; str "name" name; str "input" input;
           (js "namespace", JStr <$> namespace)]
  | InputResult custom call_id output =>
      obj [type (if custom then "custom_tool_call_output" else "function_call_output"); str "call_id" call_id;
           (js "output", Some (output_json output))]
  | InputTools ts => obj [type "additional_tools"; str "role" (js "developer"); (js "tools", Some (JArr (map response_tool_json ts)))]
  | InputSearch call_id names =>
      obj [type "tool_search_call"; str "call_id" call_id; str "execution" (js "client"); str "status" (js "completed");
           (js "arguments", Some (JObj [(js "query", JStr (join (js " ") names)); (js "limit", int_json (Z.of_nat (length names)))]))]
  | InputFound call_id ts =>
      obj [type "tool_search_output"; str "call_id" call_id; str "execution" (js "client"); str "status" (js "completed");
           (js "tools", Some (JArr (map response_tool_json ts)))]
  end.

(** ** The OpenAI provider *)

(** [model.compat], and what it stands for. *)
Record responses_options_compat := ResponsesOptionsCompat {
  rco_developerRole : option bool; rco_affinityFormat : option jstr; rco_longCache : option bool; rco_strictMode : option bool;
  rco_grammarTools : option bool; rco_additionalTools : option bool; rco_toolSearch : option bool; rco_explicitCache : option bool;
  rco_maxOutputTokens : option bool
}.

Record responses_compat := ResponsesCompat {
  rc_developerRole : bool; rc_affinityFormat : jstr; rc_longCache : bool; rc_strictMode : bool; rc_grammarTools : bool;
  rc_additionalTools : bool; rc_toolSearch : bool; rc_explicitCache : bool; rc_maxOutputTokens : bool
}.

Definition detectSessionAffinityFormat (m : model) : jstr :=
  if streq (m_provider m) (js "openrouter") || includes (js "openrouter.ai") (m_baseUrl m) then js "openrouter" else js "openai".

Definition getCompat2 (m : model) (c : option responses_options_compat) : responses_compat :=
  let own {A} (f : responses_options_compat -> option A) (d : A) := nullish (c ≫= f) d in
  ResponsesCompat (own rco_developerRole true) (own rco_affinityFormat (detectSessionAffinityFormat m)) (own rco_longCache true)
    (own rco_strictMode false) (own rco_grammarTools false) (own rco_additionalTools false) (own rco_toolSearch false)
    (own rco_explicitCache false) (own rco_maxOutputTokens true).

Definition resolveCacheRetention3 (cacheRetention : option retention) (envValue : option jstr) : retention :=
  match cacheRetention with
  | Some r => r
  | None => if bool_decide (envValue = Some (js "long")) then Long else Short
  end.

Definition getPromptCacheRetention (compat : responses_compat) (r : retention) : option jstr :=
  if bool_decide (r = Long) && rc_longCache compat && negb (rc_explicitCache compat) then Some (js "24h") else None.

Definition getPromptCacheOptions (compat : responses_compat) (r : retention) : option json :=
  if negb (rc_explicitCache compat) then None
  else match r with
       | NoCache => Some (JObj [(js "mode", jstring "explicit")])
       | Long => if rc_longCache compat then Some (JObj [(js "ttl", jstring "30m")]) else None
       | Short => None
       end.

Record responses_options := ResponsesOptions {
  ro_cacheRetention : option retention; ro_sessionId : option jstr; ro_maxTokens : option Z; ro_temperature : option Q;
  ro_serviceTier : option jstr; ro_toolChoice : option json; ro_reasoningEffort : option jstr; ro_reasoningSummary : option jstr;
  ro_samplingParams : option (list (jstr * json))
}.

Definition OPENAI_RESPONSES_MIN_OUTPUT_TOKENS : Z := 16.

(** [max_output_tokens], when a limit is given. *)
Definition max_output (maxTokens : option Z) : option Z :=
  match maxTokens with
  | Some n => if n =? 0 then None else Some (Z.max n OPENAI_RESPONSES_MIN_OUTPUT_TOKENS)
  | None => None
  end.

Definition encrypted_content : json := JArr [jstring "reasoning.encrypted_content"].

(** The fields [reasoning] and [include]; [off] says whether thinking may be turned off explicitly. *)
Definition response_reasoning (m : model) (o : responses_options) (off : bool) : list (jstr * option json) :=
  if negb (m_reasoning m) then []
  else if truthy_opt (ro_reasoningEffort o) || truthy_opt (ro_reasoningSummary o) then
    let effort := if truthy_opt (ro_reasoningEffort o) then mapped_or_level m (nullish (ro_reasoningEffort o) []) else js "medium" in
    [(js "reasoning", Some (JObj [(js "effort", JStr effort);
        (js "summary", JStr (if truthy_opt (ro_reasoningSummary o) then nullish (ro_reasoningSummary o) [] else js "auto"))]));
     (js "include", Some encrypted_content)]
  else if off && off_allowed m then
    [(js "reasoning", Some (JObj [(js "effort", JStr (match mapped_level m (js "off") with Some (Some v) => v | _ => js "none" end))]))]
  else [].

Definition OPENAI_TOOL_CALL_PROVIDERS : list jstr := [js "openai"; js "openai-codex"; js "opencode"].

(** A message whose content is missing cannot be iterated over. *)
Definition iterable (msg : raw_message) : bool := match msg with NoAssistantContent _ => false | _ => true end.

Section Params.
Context (num_to_string : Q -> jstr) (syntax_error : jstr -> jstr) (m : model) (c : option responses_options_compat).

Definition deferral_mode (compat : responses_compat) : option deferral :=
  if rc_additionalTools compat then Some AdditionalTools else if rc_toolSearch compat then Some ToolSearch else None.

(** [params.input] and the tools of the request. *)
Definition responses_request (now : Z) (systemPrompt : option jstr) (messages : list raw_message) (tools : option (list api_tool))
  : result jstr (list input_item * list response_tool) :=
  let compat := getCompat2 m c in
  let! grammarToolInputProperties := createGrammarToolInputProperties (map at_tool <$> tools) (rc_grammarTools compat) in
  let deferredToolsMode := deferral_mode compat in
  let enabled := bool_decide (deferredToolsMode ≠ None) in
  if enabled && negb (forallb iterable messages) then Throw (js "message.content is not iterable")
  else
    let '(immediate, deferred) := splitDeferredTools (fun n => n) tools (map normalize_content messages) enabled in
    let toolOptions := ToolOptions (Some false) (rc_strictMode compat) (rc_grammarTools compat) false in
    let! items :=
      convertResponsesMessages num_to_string syntax_error m OPENAI_TOOL_CALL_PROVIDERS grammarToolInputProperties deferred
        deferredToolsMode toolOptions true (c ≫= rco_developerRole) systemPrompt messages now in
    let! ts := convertResponsesTools toolOptions immediate in
    Ok (items, ts).

Definition buildParams4 (envValue : option jstr) (now : Z) (systemPrompt : option jstr) (messages : list raw_message)
    (tools : option (list api_tool)) (o : responses_options) : result jstr (list (jstr * json)) :=
  let compat := getCompat2 m c in
  let cacheRetention := resolveCacheRetention3 (ro_cacheRetention o) envValue in
  let! request := responses_request now systemPrompt messages tools in
  let '(items, ts) := request in
  Ok (assign_fields []
    ([(js "model", Some (JStr (m_id m)));
      (js "input", Some (JArr (map input_json items)));
      (js "stream", Some (JBool true));
      (js "prompt_cache_key",
         if bool_decide (cacheRetention = NoCache) then None else JStr <$> clampOpenAIPromptCacheKey (ro_sessionId o));
      (js "prompt_cache_retention", JStr <$> getPromptCacheRetention compat cacheRetention);
      (js "prompt_cache_options", getPromptCacheOptions compat cacheRetention);
      (js "store", Some (JBool false));
      (js "max_output_tokens", if rc_maxOutputTokens compat then int_json <$> max_output (ro_maxTokens o) else None);
      (js "temperature", (fun q => JNum (Finite q)) <$> ro_temperature o);
      (js "service_tier", JStr <$> ro_serviceTier o);
      (js "tools", match ts with [] => None | _ => Some (JArr (map response_tool_json ts)) end);
      (js "tool_choice", ro_toolChoice o)] ++
     response_reasoning m o (negb (streq (m_provider m) (js "github-copilot"))) ++
     (if m_reasoning m && streq (m_provider m) (js "xai") then [(js "include", Some encrypted_content)] else []) ++
     map (fun kv => (kv.1, Some kv.2)) (nullish (ro_samplingParams o) []))).
End Params.

(** ** The clients *)

Section Client.
Context (toLowerCase : jstr -> jstr).

Definition hasHeader3 (headers : option header_list) (name : jstr) : bool :=
  existsb (fun kv => streq (toLowerCase kv.1) (toLowerCase name) &&
             match kv.2 with Some v => truthy (trim v) | None => false end) (nullish headers []).

Definition getClientApiKey2 (provider : jstr) (apiKey : option jstr) (headers : option header_list) : result jstr jstr :=
  if truthy_opt apiKey then Ok (nullish apiKey [])
  else if hasHeader3 headers (js "authorization") || hasHeader3 headers (js "cf-aig-authorization") then Ok (js "unused")
  else Throw (js "No API key for provider: " ++ provider).

Definition response_affinity (compat : responses_compat) (sessionId : option jstr) : header_list :=
  match sessionId with
  | Some id =>
      if negb (truthy id) then []
      else if streq (rc_affinityFormat compat) (js "openrouter") then [(js "x-session-id", Some id)]
      else (if streq (rc_affinityFormat compat) (js "openai") then [(js "session_id", Some id)] else []) ++
           [(js "x-client-request-id", Some id)]
  | None => []
  end.

(** The headers of the client; its key and address are those of the call. *)
Definition createClient4 (userAgent : jstr) (m : model) (c : option responses_options_compat) (messages : list raw_message)
    (optionsHeaders : option header_list) (sessionId : option jstr) : header_list :=
  let strings := map (fun kv : jstr * jstr => (kv.1, Some kv.2)) in
  mergeHeaders2
    [Some [(js "User-Agent", Some userAgent)]; strings <$> m_headers m;
     (if streq (m_provider m) (js "github-copilot")
      then Some (strings (buildCopilotDynamicHeaders messages (hasCopilotVisionInput messages))) else None);
     Some (response_affinity (getCompat2 m c) sessionId); optionsHeaders].
End Client.

(** ** The Azure provider *)

(** An entry of the map: a model and a deployment, both given. *)
Definition deployment_entry (entry : jstr) : option (jstr * jstr) :=
  match split_char 61 (trim entry) with
  | modelId :: deploymentName :: _ =>
      if truthy modelId && truthy deploymentName then Some (trim modelId, trim deploymentName) else None
  | _ => None
  end.

Definition parseDeploymentNameMap (value : option jstr) : list (jstr * jstr) :=
  match value with
  | Some v => if truthy v then foldl (fun m e => map_set e.1 e.2 m) [] (omap deployment_entry (split_char 44 v)) else []
  | None => []
  end.

Record azure_options := AzureOptions {
  az_deploymentName : option jstr; az_apiVersion : option jstr; az_baseUrl : option jstr; az_resourceName : option jstr
}.

(** The values of the environment variables [AZURE_OPENAI_...]. *)
Record azure_env := AzureEnv {
  ae_deploymentNameMap : option jstr; ae_apiVersion : option jstr; ae_baseUrl : option jstr; ae_resourceName : option jstr
}.

Definition resolveDeploymentName (m : model) (o : azure_options) (env : azure_env) : jstr :=
  if truthy_opt (az_deploymentName o) then nullish (az_deploymentName o) []
  else
    match assoc (m_id m) (parseDeploymentNameMap (ae_deploymentNameMap env)) with
    | Some d => if truthy d then d else m_id m
    | None => m_id m
    end.

Definition strip_slashes (s : jstr) : jstr := drop_trailing 47 s.

(** A parsed URL: its host and path, and the rest as the URL class keeps it. *)
Record url := Url { url_hostname : jstr; url_pathname : jstr; url_search : jstr; url_rest : jstr }.

Section Azure.
Context (parse_url : jstr -> option url) (print_url : url -> jstr).

Definition isAzureHost (hostname : jstr) : bool :=
  existsb (fun suffix => ends_with (js suffix) hostname) [".openai.azure.com"; ".cognitiveservices.azure.com"; ".ai.azure.com"]%string.

Definition normalizeAzureBaseUrl (baseUrl : jstr) : result jstr jstr :=
  match parse_url (strip_slashes (trim baseUrl)) with
  | None => Throw (js "Invalid Azure OpenAI base URL: " ++ baseUrl)
  | Some url =>
      let normalizedPath := strip_slashes (url_pathname url) in
      let url :=
        if isAzureHost (url_hostname url) && mem normalizedPath [[]; js "/"; js "/openai"; js "/openai/v1/responses"]
        then Url (url_hostname url) (js "/openai/v1") [] (url_rest url) else url in
      Ok (strip_slashes (print_url url))
  end.

Definition buildDefaultBaseUrl (resourceName : jstr) : jstr := js "https://" ++ resourceName ++ js ".openai.azure.com/openai/v1".

Definition DEFAULT_AZURE_API_VERSION : jstr := js "v1".

(** The first of the strings that is not empty. *)
Definition first_truthy (l : list (option jstr)) : option jstr := head (omap (fun o => if truthy_opt o then o else None) l).

Definition resolveAzureConfig (m : model) (o : azure_options) (env : azure_env) : result jstr (jstr * jstr) :=
  let apiVersion := nullish (first_truthy [az_apiVersion o; ae_apiVersion env]) DEFAULT_AZURE_API_VERSION in
  let baseUrl := first_truthy [trim <$> az_baseUrl o; trim <$> ae_baseUrl env] in
  let resourceName := first_truthy [az_resourceName o; ae_resourceName env] in
  match first_truthy [baseUrl; buildDefaultBaseUrl <$> resourceName; Some (m_baseUrl m)] with
  | Some resolvedBaseUrl => let! url := normalizeAzureBaseUrl resolvedBaseUrl in Ok (url, apiVersion)
  | None =>
      Throw (js "Azure OpenAI base URL is required. Set AZURE_OPENAI_BASE_URL or AZURE_OPENAI_RESOURCE_NAME, or pass azureBaseUrl, azureResourceName, or model.baseUrl.")
  end.

(** The headers, the address and the version the client is made with. *)
Definition createClient3 (userAgent : jstr) (m : model) (o : azure_options) (env : azure_env) (optionsHeaders : option header_list)
  : result jstr (header_list * (jstr * jstr)) :=
  let headers := mergeHeaders2 [Some [(js "User-Agent", Some userAgent)];
                   map (fun kv : jstr * jstr => (kv.1, Some kv.2)) <$> m_headers m; optionsHeaders] in
  let! config := resolveAzureConfig m o env in
  Ok (headers, config).
End Azure.

Definition AZURE_TOOL_CALL_PROVIDERS : list jstr := [js "openai"; js "openai-codex"; js "opencode"; js "azure-openai-responses"].

Section AzureParams.
Context (num_to_string : Q -> jstr) (syntax_error : jstr -> jstr) (m : model) (c : option responses_options_compat).

Definition azure_request (now : Z) (systemPrompt : option jstr) (messages : list raw_message) (tools : option (list api_tool))
  : result jstr (list input_item * list response_tool) :=
  let grammar := nullish (c ≫= rco_grammarTools) false in
  let! grammarToolInputProperties := createGrammarToolInputProperties (map at_tool <$> tools) grammar in
  let toolOptions := ToolOptions (Some false) (nullish (c ≫= rco_strictMode) true) grammar false in
  let! items :=
    convertResponsesMessages num_to_string syntax_error m AZURE_TOOL_CALL_PROVIDERS grammarToolInputProperties [] None toolOptions
      true (c ≫= rco_developerRole) systemPrompt messages now in
  let! ts := convertResponsesTools toolOptions (nullish tools []) in
  Ok (items, ts).

Definition buildParams3 (deploymentName : jstr) (now : Z) (systemPrompt : option jstr) (messages : list raw_message)
    (tools : option (list api_tool)) (o : responses_options) : result jstr (list (jstr * json)) :=
  let! request := azure_request now systemPrompt messages tools in
  let '(items, ts) := request in
  Ok (assign_fields []
    ([(js "model", Some (JStr deploymentName));
      (js "input", Some (JArr (map input_json items)));
      (js "stream", Some (JBool true));
      (js "prompt_cache_key", JStr <$> clampOpenAIPromptCacheKey (ro_sessionId o));
      (js "store", Some (JBool false));
      (js "max_output_tokens", int_json <$> max_output (ro_maxTokens o));
      (js "temperature", (fun q => JNum (Finite q)) <$> ro_temperature o);
      (js "tools", match ts with [] => None | _ => Some (JArr (map response_tool_json ts)) end);
      (js "tool_choice", ro_toolChoice o)] ++
     response_reasoning m o true ++
     map (fun kv => (kv.1, Some kv.2)) (nullish (ro_samplingParams o) []))).
End AzureParams.

(** * Facts *)

(** ** A request *)

Definition response_model : model :=
  Model (js "gpt-5") (js "GPT") (js "openai-responses") (js "openai") (js "https://api.openai.com/v1") true
    [js "text"] 200000 64000 (CostRates 3 15 (3 # 10) (15 # 4)) None None None.

Definition search_compat : responses_options_compat :=
  ResponsesOptionsCompat None None None None None None (Some true) None None.

Definition response_messages : list raw_message :=
  [Complete (MUser (UString (js "hello")) 0);
   Complete (MAssistant (Assistant (js "openai") (js "openai-responses") (js "gpt-5")
     [BThinking (js "hm") (Some (JSON_stringify int_num_str (JObj [(js "type", jstring "reasoning")]))) false; BText (js "Hi") (Some (js "msg_1")); BText (js "there") None;
      BToolCall (ToolCall (js "call_1|fc_1") (js "read") (JObj []) None (Some (js "ns")));
      BToolCall (ToolCall (js "call_2|fc_2") (js "read") (JObj []) None None)] ToolUse None zero_usage 1));
   Complete (MToolResult (ToolResult (js "call_1|fc_1") (js "read") [PText (js "text")] false (Some [js "extra"; js "extra"]) 2));
   Complete (MUser (UParts [PText (js "go on")]) 3)].

Example sample_response_request :
  let tool n defer := ResponseFunction (js n) (js "a tool") (JObj [(js "type", JStr (js "object"))]) None defer in
  responses_request int_num_str (fun _ => []) response_model (Some search_compat) 9 (Some (js "Be brief.")) response_messages chat_tools =
  Ok ([InputInstructions true (js "Be brief."); InputUser [InputText (js "hello")];
       InputReasoning (JObj [(js "type", jstring "reasoning")]); InputMessage (js "msg_1") (js "Hi") None;
       InputMessage (js "msg_pi_1_1") (js "there") None;
       InputCall (Some (js "fc_1")) (js "call_1") (js "read") (js "{}") (Some (js "ns"));
       InputCall (Some (js "fc_2")) (js "call_2") (js "read") (js "{}") None;
       InputResult false (js "call_1") (OutputText (js "text"));
       InputSearch (js "pi_tool_load_" ++ shortHash (js "call_1|fc_1:extra")) [js "extra"];
       InputFound (js "pi_tool_load_" ++ shortHash (js "call_1|fc_1:extra")) [tool "extra"%string true];
       InputResult false (js "call_2") (OutputText (js "No result provided"));
       InputUser [InputText (js "go on")]],
      [tool "read"%string false]).
Proof. vm_compute. reflexivity. Qed.

(** ** Calls and results stay together *)

Definition item_call (i : input_item) : option jstr :=
  match i with InputCall _ c _ _ _ | InputCustomCall _ c _ _ _ => Some c | _ => None end.

Definition item_result (i : input_item) : option jstr := match i with InputResult _ c _ => Some c | _ => None end.

(** An item of an assistant message. *)
Definition assistant_item (i : input_item) : bool :=
  match i with InputReasoning _ | InputMessage _ _ _ | InputCall _ _ _ _ _ | InputCustomCall _ _ _ _ _ => true | _ => false end.

(** The results at the head, whatever tools are loaded between them. *)
Fixpoint turn_results (items : list input_item) : list jstr :=
  match items with
  | InputResult _ c _ :: r => c :: turn_results r
  | (InputTools _ | InputSearch _ _ | InputFound _ _) :: r => turn_results r
  | _ => []
  end.

(** Every call is answered by one of the results that follow its assistant message. *)
Fixpoint items_paired (items : list input_item) : Prop :=
  match items with
  | [] => True
  | x :: r => (forall c, item_call x = Some c -> c ∈ turn_results (drop_while assistant_item r)) /\ items_paired r
  end.

(** The part of an identifier that calls and results share. *)
Definition call_part (id : jstr) : jstr := (id_parts id).1.

Section Pairs.
Context (num_to_string : Q -> jstr) (syntax_error : jstr -> jstr) (m : model) (properties : gmap jstr jstr).
Context (deferred : list (jstr * api_tool)) (mode : option deferral) (options : tool_options).
#[local] Abbreviation loop := (responses_loop num_to_string syntax_error m properties deferred mode options).
#[local] Abbreviation blocks := (convert_response_blocks num_to_string syntax_error m properties deferred).

Lemma response_call_id a tc i :
  convert_response_call num_to_string m properties deferred a tc = Ok i ->
  item_call i = Some (call_part (tc_id tc)) /\ assistant_item i = true /\ item_result i = None.
Proof.
  unfold convert_response_call, call_part. destruct (id_parts (tc_id tc)) as [c raw]. destruct (properties !! tc_name tc) as [p|].
  - destruct (getGrammarToolInput _ _ _); [|done]. by intros [= <-].
  - by intros [= <-].
Qed.

Lemma response_blocks_calls a bs i t out :
  blocks a bs i t = Ok out ->
  Forall (fun x => assistant_item x = true) out /\ omap item_result out = [] /\ omap item_call out = map call_part (map tc_id (tool_calls bs)).
Proof.
  revert t out. induction bs as [|b bs IH]; intros t out; cbn [convert_response_blocks]; [by intros [= <-]|].
  assert (Hcons : forall x more, assistant_item x = true -> item_result x = None -> item_call x = None ->
    Forall (fun x => assistant_item x = true) more /\ omap item_result more = [] /\ omap item_call more = map call_part (map tc_id (tool_calls bs)) ->
    Forall (fun x => assistant_item x = true) (x :: more) /\ omap item_result (x :: more) = [] /\
    omap item_call (x :: more) = map call_part (map tc_id (tool_calls bs))).
  { intros x more H1 H2 H3 (F1 & F2 & F3). cbn [omap list_omap]. rewrite H2, H3. split_and!; [by constructor|exact F2|exact F3]. }
  destruct b as [text sg|thinking sg r|tc]; cbn [tool_calls omap list_omap].
  - destruct (blocks a bs i (t + 1)) as [more|] eqn:E; [|done]. cbn [bind]. intros [= <-]. apply Hcons; [done..|by eapply IH].
  - destruct sg as [s|]; [|by apply IH]. destruct (truthy s); [|by apply IH]. destruct (JSON_parse s) as [item|]; [|done].
    destruct (blocks a bs i t) as [more|] eqn:E; [|done]. cbn [bind]. intros [= <-]. apply Hcons; [done..|by eapply IH].
  - destruct (convert_response_call _ _ _ _ a tc) as [x|] eqn:Ec; [|done]. cbn [bind].
    destruct (blocks a bs i t) as [more|] eqn:E; [|done]. cbn [bind]. intros [= <-].
    apply response_call_id in Ec as (H1 & H2 & H3). apply IH in E as (F1 & F2 & F3). cbn [omap list_omap map]. rewrite H1, H3.
    split_and!; [by constructor|exact F2|f_equal; exact F3].
Qed.

(** An item that loads tools. *)
Definition loading_item (i : input_item) : bool := match i with InputTools _ | InputSearch _ _ | InputFound _ _ => true | _ => false end.

Lemma loading_items_shape id tools out : loading_items mode options id tools = Ok out -> Forall (fun i => loading_item i = true) out.
Proof.
  unfold loading_items. destruct tools as [|t ts]; [by intros [= <-]|]. destruct mode as [[]|]; [| |by intros [= <-]].
  - destruct (convertResponsesTools _ _); [|done]. intros [= <-]. by repeat constructor.
  - destruct (convertResponsesTools _ _); [|done]. intros [= <-]. by repeat constructor.
Qed.

Lemma loading_neutral l r :
  Forall (fun i => loading_item i = true) l ->
  turn_results (l ++ r) = turn_results r /\ (items_paired r -> items_paired (l ++ r)) /\
  omap item_call l = [] /\ omap item_result l = [].
Proof.
  induction 1 as [|x l Hx HF (IH1 & IH2 & IH3 & IH4)]; [done|]. destruct x; try done; cbn [app turn_results items_paired omap list_omap item_call item_result];
  (split_and!; [done| |done|done]); intros Hr; (split; [by intros c [=]|by apply IH2]).
Qed.

Lemma response_result_items r loaded items loaded' :
  convert_response_result m properties deferred mode options r loaded = Ok (items, loaded') ->
  exists custom output loading, items = InputResult custom (call_part (tr_toolCallId r)) output :: loading /\
    Forall (fun i => loading_item i = true) loading.
Proof.
  unfold convert_response_result. destruct (load_tools _ _ loaded) as [ts ld]. destruct (loading_items _ _ _ ts) as [l|] eqn:E; [|done].
  cbn [bind]. intros [= <- _]. eexists _, _, l. split; [done|]. by eapply loading_items_shape.
Qed.

Lemma responses_answers ms loaded i out id :
  loop ms loaded i = Ok out -> answered ms id -> call_part id ∈ turn_results out /\ drop_while assistant_item out = out.
Proof.
  unfold answered. revert loaded i out. induction ms as [|msg ms IH]; intros loaded i out Hl Ha; [by apply Exists_nil in Ha|].
  destruct msg as [c t|a|r|x t]; cbn [segment] in Ha; try (by apply Exists_nil in Ha);
    [|apply Exists_cons in Ha as [[]|Ha]; by eapply IH].
  cbn [responses_loop] in Hl. destruct (convert_response_result _ _ _ _ _ r loaded) as [[items ld]|] eqn:Er; [|done].
  apply response_result_items in Er as (cu & o & l & -> & HF). cbn [bind fst snd] in Hl.
  destruct (loop ms ld (i + 1)) as [more|] eqn:E; [|done]. cbn [bind] in Hl. injection Hl as <-. split; [|done].
  cbn [app turn_results]. destruct (loading_neutral l more HF) as [-> _].
  apply Exists_cons in Ha as [Ha|Ha]; [cbn in Ha; subst id; left|right; by eapply IH].
Qed.

Lemma assistant_items_paired l more :
  Forall (fun x => assistant_item x = true) l -> items_paired more ->
  (forall c, c ∈ omap item_call l -> c ∈ turn_results more /\ drop_while assistant_item more = more) -> items_paired (l ++ more).
Proof.
  intros HF Hm. induction HF as [|x l Hx HF IH]; intros Hc; [done|]. cbn [app items_paired].
  assert (Hdrop : drop_while assistant_item (l ++ more) = drop_while assistant_item more).
  { clear -HF. induction HF as [|y l Hy HF IH]; [done|]. cbn [app drop_while]. by rewrite Hy. }
  split.
  - intros c Hi. rewrite Hdrop. destruct (Hc c) as [H1 H2]; [cbn [omap list_omap]; rewrite Hi; left|]. by rewrite H2.
  - apply IH. intros c Hi. apply Hc. cbn [omap list_omap]. destruct (item_call x); [by right|done].
Qed.

Lemma responses_loop_paired ms loaded i out :
  all_answered ms -> loop ms loaded i = Ok out ->
  items_paired out /\ omap item_call out = map call_part (ms ≫= message_calls) /\ omap item_result out = map call_part (ms ≫= message_results).
Proof.
  revert loaded i out. induction ms as [|msg ms IH]; intros loaded i out Ha Hl; [by injection Hl as <-|].
  rewrite !bind_cons, !map_app. destruct msg as [c t|a|r|x t]; cbn [responses_loop all_answered] in Hl, Ha.
  - destruct (convert_response_user c) as [u|] eqn:Eu; [|by eapply IH]. destruct (loop ms loaded (i + 1)) as [more|] eqn:E; [|done].
    cbn [bind] in Hl. injection Hl as <-. apply IH in E as (E1 & E2 & E3); [|done].
    assert (exists ps, u = InputUser ps) as [ps ->] by (destruct c as [s|[|p ps]]; cbn in Eu; simplify_eq; by eexists).
    cbn [items_paired item_call omap list_omap item_result message_calls message_results map app]. by split_and!.
  - destruct Ha as [Ha1 Ha2]. destruct (blocks a (a_content a) i 0) as [l|] eqn:Eb; [|done]. cbn [bind] in Hl.
    apply response_blocks_calls in Eb as (B1 & B2 & B3).
    assert (exists j more, loop ms loaded j = Ok more /\ out = l ++ more) as (j & more & E & ->).
    { destruct l as [|x l]; [by exists i, out|]. destruct (loop ms loaded (i + 1)) as [more|] eqn:E; [|done]. injection Hl as <-. by exists (i + 1), more. }
    pose proof (IH _ _ _ Ha2 E) as (E1 & E2 & E3). rewrite !omap_app, B2, B3, E2, E3. cbn [message_calls message_results map app].
    split; [|done]. apply assistant_items_paired; [done|done|]. intros c. rewrite B3, map_map, list_elem_of_fmap. intros (tc & -> & Htc).
    rewrite Forall_forall in Ha1. by eapply responses_answers; [exact E|apply Ha1].
  - destruct (convert_response_result _ _ _ _ _ r loaded) as [[items ld]|] eqn:Er; [|done]. cbn [bind fst snd] in Hl.
    destruct (loop ms ld (i + 1)) as [more|] eqn:E; [|done]. cbn [bind] in Hl. injection Hl as <-.
    apply response_result_items in Er as (cu & o & l & -> & HF). apply IH in E as (E1 & E2 & E3); [|done].
    destruct (loading_neutral l more HF) as (_ & Hp & N1 & N2). cbn [app items_paired omap list_omap item_call item_result message_calls message_results map].
    change (list_omap input_item jstr item_call (l ++ more)) with (omap item_call (l ++ more)).
    change (list_omap input_item jstr item_result (l ++ more)) with (omap item_result (l ++ more)).
    rewrite !omap_app, N1, N2, E2, E3. split_and!; [by intros c [=]|by apply Hp|done|done].
  - destruct (IH _ _ _ Ha Hl) as (E1 & E2 & E3). by split_and!.
Qed.
End Pairs.

(** C23: In every request of a responses API each call of an assistant message is
    answered by a result before the next user or assistant message, whatever tools
    are loaded in between, under the identifier the API gave it; the calls and the
    results are those of the conversation as it is replayed, in order. *)
Theorem responses_request_pairs num_to_string syntax_error m allowed properties deferred mode options include role systemPrompt messages now items :
  convertResponsesMessages num_to_string syntax_error m allowed properties deferred mode options include role systemPrompt messages now = Ok items ->
  let replayed := transformMessages messages m (Some (fun id _ source => normalizeResponsesId allowed m id source)) now in
  items_paired items /\ omap item_call items = map call_part (replayed ≫= message_calls) /\
  omap item_result items = map call_part (replayed ≫= message_results).
Proof.
  unfold convertResponsesMessages. set (replayed := transformMessages _ _ _ _).
  destruct (responses_loop _ _ _ _ _ _ _ replayed [] 0) as [out|] eqn:E; [|done]. cbn [bind]. intros [= <-].
  apply responses_loop_paired in E as (E1 & E2 & E3); [|apply pair_results_answered].
  unfold response_instructions. destruct (include && truthy_opt systemPrompt); [|done]. cbn [app items_paired item_call omap list_omap item_result].
  by split_and!.
Qed.

Lemma responses_request_pairs_witness :
  exists items, convertResponsesMessages int_num_str (fun _ => []) response_model OPENAI_TOOL_CALL_PROVIDERS ∅
      [(js "extra", sample_tool (js "extra"))] (Some ToolSearch) (ToolOptions (Some false) false false false) true None
      (Some (js "Be brief.")) response_messages 9 = Ok items /\
    items_paired items /\ omap item_call items = [js "call_1"; js "call_2"] /\ omap item_result items = [js "call_1"; js "call_2"].
Proof.
  destruct (convertResponsesMessages int_num_str (fun _ => []) response_model OPENAI_TOOL_CALL_PROVIDERS ∅
    [(js "extra", sample_tool (js "extra"))] (Some ToolSearch) (ToolOptions (Some false) false false false) true None
    (Some (js "Be brief.")) response_messages 9) as [items|] eqn:E; [|by vm_compute in E].
  exists items. split; [done|]. destruct (responses_request_pairs _ _ _ _ _ _ _ _ _ _ _ _ _ _ E) as (H & H1 & H2).
  split; [exact H|]. rewrite H1, H2. vm_compute. split; reflexivity.
Defined.

(** ** Every tool is offered once *)

Definition response_tool_name (t : response_tool) : jstr :=
  match t with ResponseFunction n _ _ _ _ | ResponseCustom n _ _ _ _ => n end.

(** The tools an item loads. *)
Definition item_tools (i : input_item) : list jstr :=
  match i with InputTools ts | InputFound _ ts => map response_tool_name ts | _ => [] end.

Lemma response_tools_names o ts wire : convertResponsesTools o ts = Ok wire -> map response_tool_name wire = map at_name ts.
Proof.
  unfold convertResponsesTools. revert wire. induction ts as [|t ts IH]; intros wire; cbn [map_throw]; [by intros [= <-]|].
  destruct (convert_response_tool o t) as [w|] eqn:E; [|done]. cbn [bind]. destruct (map_throw _ ts) as [ws|]; [|done].
  intros [= <-]. cbn [map]. rewrite (IH _ eq_refl). f_equal. unfold convert_response_tool in E.
  destruct (resolveGrammarConstrainedSampling _ _) as [[g|]|]; cbn [bind] in E; [by simplify_eq| |done].
  destruct (resolveJsonSchemaStrictSampling _ _); [|done]. cbn [bind] in E.
  destruct (getJsonSchemaToolParameters _ _); [|done]. cbn [bind] in E. by simplify_eq.
Qed.

Lemma assoc_keyed {A} n (l : list (jstr * A)) v : assoc n l = Some v -> (n, v) ∈ l.
Proof.
  induction l as [|[k w] l IH]; [done|]. cbn [assoc]. destruct (streq k n) eqn:E; [|right; by apply IH].
  intros [= ->]. apply streq_true in E as ->. left.
Qed.

Lemma assoc_is_Some {A} n (l : list (jstr * A)) : n ∈ map fst l -> is_Some (assoc n l).
Proof.
  induction l as [|[k w] l IH]; cbn [map fst assoc]; [by intros ?%elem_of_nil|]. destruct (streq k n) eqn:E; [by eexists|].
  apply streq_false in E. intros [->|?]%elem_of_cons; [done|by apply IH].
Qed.

Section Offered.
Context (num_to_string : Q -> jstr) (syntax_error : jstr -> jstr) (m : model) (properties : gmap jstr jstr).
Context (deferred : list (jstr * api_tool)) (options : tool_options).
Context (Hkeys : Forall (fun kt => kt.1 = at_name kt.2) deferred).

Lemma load_tools_spec names loaded tools loaded' :
  load_tools deferred names loaded = (tools, loaded') -> NoDup loaded ->
  loaded' = loaded ++ map at_name tools /\ NoDup loaded' /\ (forall n, n ∈ map at_name tools -> n ∈ map fst deferred) /\
  (forall n, n ∈ names -> n ∈ map fst deferred -> n ∈ loaded').
Proof.
  revert loaded tools loaded'. induction names as [|n names IH]; intros loaded tools loaded'; cbn [load_tools].
  { intros [= <- <-] HN. cbn [map]. rewrite app_nil_r. split_and!; [done|done|by intros n ?%elem_of_nil|by intros n ?%elem_of_nil]. }
  destruct (assoc n deferred) as [t|] eqn:Ea.
  - assert (Hin : n ∈ map fst deferred) by (apply assoc_keyed in Ea; by apply (list_elem_of_fmap_2 fst _ (n, t))).
    destruct (mem n loaded) eqn:Em.
    + intros H HN. destruct (IH _ _ _ H HN) as (I1 & I2 & I3 & I4). split_and!; [done|done|done|].
      intros n' [->|Hn]%elem_of_cons Hd; [|by apply I4]. rewrite I1. apply elem_of_app. left. by apply mem_spec.
    + destruct (load_tools deferred names (loaded ++ [n])) as [ts ld] eqn:El. intros [= <- <-] HN.
      assert (HN' : NoDup (loaded ++ [n])).
      { apply NoDup_app. split_and!; [done| |apply NoDup_singleton]. intros x Hx Hy. apply list_elem_of_singleton in Hy as ->.
        apply mem_spec in Hx. congruence. }
      destruct (IH _ _ _ El HN') as (-> & I2 & I3 & I4).
      assert (Hn : at_name t = n). { rewrite Forall_forall in Hkeys. symmetry. by apply (Hkeys (n, t)), assoc_keyed. }
      cbn [map]. rewrite Hn. rewrite <- app_assoc in *. split_and!; [done|done| |].
      * intros x [->|Hx]%elem_of_cons; [done|by apply I3].
      * intros x [->|Hx]%elem_of_cons Hd; [set_solver|by apply I4].
  - intros H HN. destruct (IH _ _ _ H HN) as (I1 & I2 & I3 & I4). split_and!; [done|done|done|].
    intros x [->|Hx]%elem_of_cons Hd; [|by apply I4]. apply assoc_is_Some in Hd as [v Hv]. congruence.
Qed.

Lemma loading_items_tools mode id tools out :
  loading_items (Some mode) options id tools = Ok out -> out ≫= item_tools = map at_name tools.
Proof.
  unfold loading_items. destruct tools as [|t ts]; [by intros [= <-]|]. destruct mode.
  - destruct (convertResponsesTools _ _) as [w|] eqn:E; [|done]. intros [= <-]. apply response_tools_names in E.
    cbn [mbind list_bind item_tools]. by rewrite app_nil_r.
  - destruct (convertResponsesTools _ _) as [w|] eqn:E; [|done]. intros [= <-]. apply response_tools_names in E.
    cbn [mbind list_bind item_tools app]. by rewrite app_nil_r.
Qed.

Lemma assistant_items_tools l : Forall (fun x => assistant_item x = true) l -> l ≫= item_tools = [].
Proof. induction 1 as [|x l Hx HF IH]; [done|]. rewrite bind_cons, IH. by destruct x. Qed.

Lemma responses_loop_tools mode ms loaded i out :
  responses_loop num_to_string syntax_error m properties deferred (Some mode) options ms loaded i = Ok out -> NoDup loaded ->
  NoDup (loaded ++ out ≫= item_tools) /\ (forall n, n ∈ out ≫= item_tools -> n ∈ map fst deferred) /\
  (forall n, n ∈ map fst deferred -> adds ms n -> n ∈ loaded ++ out ≫= item_tools).
Proof.
  revert loaded i out. induction ms as [|msg ms IH]; intros loaded i out Hl HN.
  { injection Hl as <-. cbn. rewrite app_nil_r. split_and!; [done|by intros n ?%elem_of_nil|]. intros n _ (r & ?%elem_of_nil & _). done. }
  assert (Hskip : forall n, adds (msg :: ms) n -> adds ms n \/ exists r, msg = MToolResult r /\ n ∈ nullish (tr_addedToolNames r) []).
  { intros n (r & [Hr|Hr]%elem_of_cons & Hn); [right; by eauto|left; by exists r]. }
  assert (Hrest : forall loaded j more, responses_loop num_to_string syntax_error m properties deferred (Some mode) options ms loaded j = Ok more ->
    NoDup loaded -> (forall r, msg ≠ MToolResult r) -> forall l, l ≫= item_tools = [] ->
    NoDup (loaded ++ (l ++ more) ≫= item_tools) /\ (forall n, n ∈ (l ++ more) ≫= item_tools -> n ∈ map fst deferred) /\
    (forall n, n ∈ map fst deferred -> adds (msg :: ms) n -> n ∈ loaded ++ (l ++ more) ≫= item_tools)).
  { intros ld j more E HNl Hno l Hlt. rewrite bind_app, Hlt. destruct (IH _ _ _ E HNl) as (I1 & I2 & I3). split_and!; [done|done|].
    intros n Hd Ha. apply I3; [done|]. destruct (Hskip n) as [?|(r & -> & _)]; [done|done|by destruct (Hno r)]. }
  destruct msg as [c t|a|r|x t]; cbn [responses_loop] in Hl.
  - destruct (convert_response_user c) as [u|] eqn:Eu; [|by apply (Hrest _ _ _ Hl HN ltac:(done) [])].
    destruct (responses_loop _ _ _ _ _ _ _ ms _ _) as [more|] eqn:E; [|done]. injection Hl as <-.
    apply (Hrest _ _ _ E HN ltac:(done) [u]). destruct c as [s|[|p ps]]; cbn in Eu; by simplify_eq.
  - destruct (convert_response_blocks _ _ _ _ _ a (a_content a) i 0) as [l|] eqn:Eb; [|done]. cbn [bind] in Hl.
    apply response_blocks_calls in Eb as (B1 & _). apply assistant_items_tools in B1.
    destruct l as [|y l]; [by apply (Hrest _ _ _ Hl HN ltac:(done) [])|].
    destruct (responses_loop _ _ _ _ _ _ _ ms _ _) as [more|] eqn:E; [|done]. injection Hl as <-. by apply (Hrest _ _ _ E HN ltac:(done) (y :: l)).
  - unfold convert_response_result in Hl. destruct (load_tools _ _ loaded) as [ts ld] eqn:Elt.
    destruct (loading_items _ _ _ ts) as [l|] eqn:El; [|done]. cbn [bind fst snd] in Hl.
    destruct (responses_loop _ _ _ _ _ _ _ ms _ _) as [more|] eqn:E; [|done]. injection Hl as <-.
    destruct (load_tools_spec _ _ _ _ Elt HN) as (-> & L2 & L3 & L4). destruct (IH _ _ _ E L2) as (I1 & I2 & I3).
    rewrite bind_cons, bind_app, (loading_items_tools _ _ _ _ El). cbn [item_tools app]. rewrite app_assoc.
    split_and!; [done|intros n [?|?]%elem_of_app; [by apply L3|by apply I2]|].
    intros n Hd Ha. destruct (Hskip n) as [?|(r' & [= <-] & Hn)]; [done|by apply I3|].
    apply elem_of_app. left. by apply L4.
  - by apply (Hrest _ _ _ Hl HN ltac:(done) []).
Qed.
End Offered.

Lemma see_names_added ms n : n ∈ (foldl (see_names (fun n => n)) ([], []) ms).2 -> adds ms n.
Proof.
  assert (H : forall acc, n ∈ (foldl (see_names (fun n => n)) acc ms).2 -> n ∈ acc.2 \/ adds ms n).
  { induction ms as [|msg ms IH]; intros [used de] Hn; [by left|]. cbn [foldl] in Hn. apply IH in Hn as [Hn|Hn]; [|right; by apply adds_cons].
    destruct msg as [c t|a|r|x t]; cbn [see_names snd] in Hn; try (by left). rewrite map_id in Hn.
    apply elem_of_app in Hn as [Hn|Hn]; [by left|]. right. exists r. split; [left|]. apply list_elem_of_In, filter_In in Hn as [Hn _].
    by apply list_elem_of_In. }
  intros Hn. apply H in Hn as [?%elem_of_nil|?]; done.
Qed.

(** Without deferral no item loads tools. *)
Lemma no_tools_loaded num_to_string syntax_error m properties deferred options ms loaded i out :
  responses_loop num_to_string syntax_error m properties deferred None options ms loaded i = Ok out -> out ≫= item_tools = [].
Proof.
  revert loaded i out. induction ms as [|msg ms IH]; intros loaded i out Hl; [by injection Hl as <-|].
  destruct msg as [c t|a|r|x t]; cbn [responses_loop] in Hl; [| | |by eapply IH].
  - destruct (convert_response_user c) as [u|] eqn:Eu; [|by eapply IH].
    destruct (responses_loop _ _ _ _ _ _ _ ms _ _) as [more|] eqn:E; [|done]. injection Hl as <-. rewrite bind_cons, (IH _ _ _ E).
    destruct c as [s|[|p ps]]; cbn in Eu; by simplify_eq.
  - destruct (convert_response_blocks _ _ _ _ _ a (a_content a) i 0) as [l|] eqn:Eb; [|done]. cbn [bind] in Hl.
    apply response_blocks_calls in Eb as (B1 & _). apply assistant_items_tools in B1.
    destruct l as [|y l]; [by eapply IH|]. destruct (responses_loop _ _ _ _ _ _ _ ms _ _) as [more|] eqn:E; [|done].
    injection Hl as <-. change (((y :: l) ++ more) ≫= item_tools = []). by rewrite bind_app, B1, (IH _ _ _ E).
  - unfold convert_response_result in Hl. destruct (load_tools _ _ loaded) as [ts ld].
    assert (El : loading_items None options (tr_toolCallId r) ts = Ok []) by (by destruct ts). rewrite El in Hl. cbn [bind fst snd] in Hl.
    destruct (responses_loop _ _ _ _ _ _ _ ms _ _) as [more|] eqn:E; [|done]. injection Hl as <-. by rewrite bind_cons, (IH _ _ _ E).
Qed.

(** Every tool of the context is offered exactly once: with the request, or, for a
    provider that loads tools on demand, by the one item of the conversation that
    loads it. *)
Theorem responses_tools_offered num_to_string syntax_error m c now systemPrompt messages tools items ts :
  responses_request num_to_string syntax_error m c now systemPrompt messages tools = Ok (items, ts) ->
  let offered := map response_tool_name ts ++ items ≫= item_tools in
  NoDup offered /\ forall n, n ∈ offered <-> n ∈ map at_name (nullish tools []).
Proof.
  unfold responses_request. destruct (createGrammarToolInputProperties _ _) as [properties|]; [|done]. cbn [bind].
  destruct (_ && negb _); [done|]. destruct (splitDeferredTools _ _ _ _) as [immediate deferred] eqn:Es.
  apply split_tools_spec in Es as (S1 & S2 & S3 & S4 & S5). unfold convertResponsesMessages.
  destruct (responses_loop _ _ _ _ _ _ _ _ [] 0) as [out|] eqn:El; [|done]. cbn [bind].
  destruct (convertResponsesTools _ immediate) as [wire|] eqn:Et; [|done]. cbn [bind]. intros [= <- <-].
  apply response_tools_names in Et. rewrite Et.
  assert (Hi : (response_instructions m true (c ≫= rco_developerRole) systemPrompt ++ out) ≫= item_tools = out ≫= item_tools).
  { unfold response_instructions. by destruct (true && _). }
  cbv zeta. rewrite Hi. clear Hi.
  assert (Ho : out ≫= item_tools ≡ₚ map at_name (map snd deferred)).
  { pose proof (keyed_names (fun n => n) deferred S3 : map at_name (map snd deferred) = map fst deferred) as Hk. rewrite Hk.
    assert (HNd : NoDup (map fst deferred)) by (rewrite <- Hk; rewrite map_app in S1; by apply NoDup_app in S1 as (_ & _ & ?)).
    destruct (deferral_mode (getCompat2 m c)) as [mode|].
    - destruct (responses_loop_tools _ _ _ _ _ _ S3 _ _ _ _ _ El ltac:(constructor)) as (L1 & L2 & L3). cbn [app] in L1, L3.
      apply NoDup_Permutation; [done|done|]. intros n. split; [by apply L2|]. intros Hd. apply L3; [done|].
      unfold transformMessages. apply pair_results_adds, transform_pass_adds.
      apply S5, see_names_added in Hd. unfold downgradeUnsupportedImages. destruct (bool_decide (js "image" ∈ m_input m)); [done|by apply downgrade_adds].
    - rewrite (S4 eq_refl) in El |- *. cbn [map]. by rewrite (no_tools_loaded _ _ _ _ _ _ _ _ _ _ El). }
  split; [rewrite Ho, <- map_app; exact S1|]. intros n. rewrite Ho, <- map_app. apply S2.
Qed.

Lemma responses_tools_offered_witness :
  exists items ts, responses_request int_num_str (fun _ => []) response_model (Some search_compat) 9 (Some (js "Be brief."))
      response_messages chat_tools = Ok (items, ts) /\
    NoDup (map response_tool_name ts ++ items ≫= item_tools) /\ items ≫= item_tools = [js "extra"].
Proof.
  destruct (responses_request int_num_str (fun _ => []) response_model (Some search_compat) 9 (Some (js "Be brief."))
    response_messages chat_tools) as [[items ts]|] eqn:E; [|by vm_compute in E].
  exists items, ts. split; [done|]. destruct (responses_tools_offered _ _ _ _ _ _ _ _ _ _ E) as [H _]. split; [exact H|].
  vm_compute in E. injection E as <- <-. reflexivity.
Defined.

(** ** Identifiers are accepted by the API *)

Definition response_id (s : jstr) : Prop := (length s <= 64)%nat /\ Forall (fun x => id_char x = true) s.

Lemma drop_while_suffix {A} (f : A -> bool) l : drop_while f l `suffix_of` l.
Proof. induction l as [|x l IH]; cbn [drop_while]; [done|]. destruct (f x); [by apply suffix_cons_r|done]. Qed.

Lemma drop_trailing_prefix c s : drop_trailing c s `prefix_of` s.
Proof.
  unfold drop_trailing. destruct (drop_while_suffix (Z.eqb c) (rev s)) as [k Hk]. exists (rev k).
  by rewrite <- rev_app_distr, <- Hk, rev_involutive.
Qed.

Lemma id_part_ok s : response_id (normalizeIdPart s).
Proof.
  unfold normalizeIdPart. destruct (drop_trailing_prefix 95 (take 64 (clean_id s))) as [k Hk]. split.
  - apply (f_equal length) in Hk. rewrite length_app, length_take in Hk. lia.
  - pose proof (Forall_take _ 64 _ (clean_id_ok s)) as HF. rewrite Hk in HF. by apply Forall_app in HF as [? _].
Qed.

Lemma foreign_id_ok s : response_id (buildForeignResponsesItemId s) /\ starts_with (js "fc_") (buildForeignResponsesItemId s) = true.
Proof.
  unfold buildForeignResponsesItemId. split; [split|by rewrite take_app_ge by (cbn; lia)].
  - rewrite length_take. lia.
  - apply Forall_take, Forall_app. split; [by repeat constructor|apply hash_chars_ok].
Qed.

Lemma id_chars_no_bar s : Forall (fun x => id_char x = true) s -> 124 ∉ s.
Proof. rewrite Forall_forall. intros HF Hin. by apply HF in Hin. Qed.

Lemma id_parts_one s : Forall (fun x => id_char x = true) s -> id_parts s = (s, None).
Proof. intros HF. unfold id_parts. by rewrite split_no_sep by (by apply id_chars_no_bar). Qed.

Lemma id_parts_two c i :
  Forall (fun x => id_char x = true) c -> Forall (fun x => id_char x = true) i -> id_parts (c ++ [124] ++ i) = (c, Some i).
Proof.
  intros Hc Hi. unfold id_parts. cbn [app]. rewrite split_app_sep by (by apply id_chars_no_bar).
  by rewrite split_no_sep by (by apply id_chars_no_bar).
Qed.

(** Whatever a call of another model was called, the call and item ids sent for it
    have at most sixty-four units, all of them letters, digits, underscores and
    hyphens. *)
Theorem response_ids_accepted allowed m id source :
  let '(callId, itemId) := id_parts (normalizeResponsesId allowed m id source) in
  response_id callId /\ forall i, itemId = Some i -> response_id i.
Proof.
  assert (Hone : forall s, let '(c, i) := id_parts (normalizeIdPart s) in response_id c /\ forall j, i = Some j -> response_id j).
  { intros s. destruct (id_part_ok s) as [Hl HF]. rewrite id_parts_one by done. by split. }
  unfold normalizeResponsesId. destruct (negb (mem _ _)); [apply Hone|]. destruct (id_parts id) as [callId [itemId|]]; [|apply Hone].
  set (i := if _ || _ then buildForeignResponsesItemId itemId else normalizeIdPart itemId).
  assert (Hi : response_id i) by (subst i; destruct (_ || _); [apply foreign_id_ok|apply id_part_ok]).
  assert (Hj : response_id (if starts_with (js "fc_") i then i else normalizeIdPart (js "fc_" ++ i))) by (destruct (starts_with _ i); [done|apply id_part_ok]).
  pose proof (id_part_ok callId) as Hc. rewrite id_parts_two by (apply Hc || apply Hj). split; [done|]. by intros j [= <-].
Qed.

(** An identifier none of whose units is accepted becomes empty; the replay takes
    an empty replacement for none, so the result keeps its own identifier: the call
    is answered by a made-up result, and the real one answers no call. *)
Lemma blank_ids_orphan :
  let messages :=
    [Complete (MAssistant (Assistant (js "other") (js "other-api") (js "m")
       [BToolCall (ToolCall [26085; 26412] (js "read") (JObj []) None None)] ToolUse None zero_usage 1));
     Complete (MToolResult (ToolResult [26085; 26412] (js "read") [PText (js "text")] false None 2))] in
  convertResponsesMessages int_num_str (fun _ => []) response_model OPENAI_TOOL_CALL_PROVIDERS ∅ [] None
    (ToolOptions None false false false) true None None messages 9 =
  Ok [InputCall None [] (js "read") (js "{}") None; InputResult false [26085; 26412] (OutputText (js "text"));
      InputResult false [] (OutputText (js "No result provided"))].
Proof. vm_compute. reflexivity. Qed.

(** Identifiers longer than sixty-four units are cut without a hash. *)
Lemma long_response_ids_collide :
  let a := replicate 64 97 ++ js "1" in let b := replicate 64 97 ++ js "2" in
  a ≠ b /\ normalizeIdPart a = normalizeIdPart b.
Proof. split; [discriminate|reflexivity]. Qed.
