(* ===== verification/ResponsesStream.v ===== *)
(** The answer of a responses API: how its events become an assistant message and
    the events of its stream (packages/ai, [processResponsesStream] of
    api/openai-responses-shared.js and the streams of api/openai-responses.js and
    api/azure-openai-responses.js, bundled in src/drivers/tools/pibridge/bridge.mjs).
    The events are read from JSON as the API documents them; one whose fields have
    other types is outside the model.  The SDK that reads the body, [parse] of the
    partial-json package, the printing of numbers and the text of a [SyntaxError]
    are parameters. *)
From S2P Require Import Prelude Utf8 Numbers Json JsonText Messages TransformMessages JsonRepair Sse ConstrainedSampling EventStream Models Faux Estimate AnthropicMessages AnthropicStream StreamMonad OpenaiCommon OpenaiCompletions OpenaiStream OpenaiResponses.
Open Scope Z_scope.

(** ** Items and events *)

(** An item of the response; a reasoning item is also kept as it came. *)
Inductive output_item :=
| ReasoningItem (id : jstr) (summary content : option (list jstr)) (encrypted : option jstr) (raw : json)
| MessageItem (id : jstr) (texts : option (list jstr)) (phase : option jstr)
| FunctionItem (id : option jstr) (call_id name : jstr) (arguments namespace : option jstr)
| CustomItem (id : option jstr) (call_id name : jstr) (input namespace : option jstr)
| OtherItem.

(** What happens to an item between its start and its end. *)
Inductive item_event :=
| SummaryDelta (delta : jstr)
| SummaryPartDone
| ReasoningDelta (delta : jstr)
| TextDelta (delta : jstr)
| RefusalDelta (delta : jstr)
| ArgumentsDelta (delta : jstr)
| ArgumentsDone (arguments : jstr)
| InputDelta (delta : jstr)
| InputDone (input : jstr).

Record response_usage := ResponseUsage {
  ru_input : option Z; ru_output : option Z; ru_total : option Z;
  ru_cachedTokens : option Z; ru_cacheWriteTokens : option Z; ru_reasoningTokens : option Z
}.

Record response := Response {
  re_id : option jstr; re_status : option jstr; re_incompleteReason : option jstr;
  re_output : list output_item; re_usage : option response_usage; re_serviceTier : option jstr
}.

Inductive response_event :=
| ResponseCreated (id : option jstr)
| ItemAdded (i : Z) (item : output_item)
| ItemEvent (i : Z) (e : item_event)
| ItemDone (i : Z) (item : output_item)
| ResponseEnded (r : response)                 (* [response.completed] and [response.incomplete] *)
| ResponseError (code message : jstr)
| ResponseFailed (status : option jstr) (error : option (option jstr * option jstr)) (reason : option jstr)
| OtherResponseEvent.

(** ** Reading them *)

(** A field that is absent or a string. *)
Definition as_absent_string (v : option json) : option (option jstr) :=
  match v with None => Some None | Some (JStr s) => Some (Some s) | _ => None end.

(** The texts of a list of parts, when there is a list. *)
Definition read_texts (read : option json -> option jstr) (v : option json) : option (option (list jstr)) :=
  match v with
  | None | Some JNull => Some None
  | _ => l ← as_list v; Some <$> mapM (fun x => read (Some x)) l
  end.

Definition read_part (v : option json) : option jstr :=
  if type_is "output_text" v then as_string (field "text" v)
  else match field "refusal" v with Some (JStr s) => Some s | None => Some [] | _ => None end.

Definition read_item (v : option json) : option output_item :=
  if type_is "reasoning" v then
    id ← as_string (field "id" v); s ← read_texts (fun x => as_string (field "text" x)) (field "summary" v);
    c ← read_texts (fun x => as_string (field "text" x)) (field "content" v); e ← as_opt_string (field "encrypted_content" v);
    raw ← v; Some (ReasoningItem id s c e raw)
  else if type_is "message" v then
    id ← as_string (field "id" v); t ← read_texts read_part (field "content" v); p ← as_opt_string (field "phase" v);
    Some (MessageItem id t p)
  else if type_is "function_call" v then
    id ← as_absent_string (field "id" v); c ← as_string (field "call_id" v); n ← as_string (field "name" v);
    a ← as_opt_string (field "arguments" v); ns ← as_absent_string (field "namespace" v); Some (FunctionItem id c n a ns)
  else if type_is "custom_tool_call" v then
    id ← as_absent_string (field "id" v); c ← as_string (field "call_id" v); n ← as_string (field "name" v);
    a ← as_opt_string (field "input" v); ns ← as_absent_string (field "namespace" v); Some (CustomItem id c n a ns)
  else Some OtherItem.

Definition read_response_usage (u : option json) : option (option response_usage) :=
  if negb (truthy_json u) then Some None
  else
    i ← as_opt_int (field "input_tokens" u); o ← as_opt_int (field "output_tokens" u); t ← as_opt_int (field "total_tokens" u);
    c ← as_opt_int (field "cached_tokens" (field "input_tokens_details" u));
    w ← as_opt_int (field "cache_write_tokens" (field "input_tokens_details" u));
    r ← as_opt_int (field "reasoning_tokens" (field "output_tokens_details" u));
    Some (Some (ResponseUsage i o t c w r)).

Definition read_response (v : option json) : option response :=
  id ← as_opt_string (field "id" v); st ← as_absent_string (field "status" v);
  let reason := as_string (field "reason" (field "incomplete_details" v)) in
  items ← (match field "output" v with None | Some JNull => Some [] | o => l ← as_list o; mapM (fun x => read_item (Some x)) l end);
  u ← read_response_usage (field "usage" v); t ← as_opt_string (field "service_tier" v);
  Some (Response id st reason items u t).

Definition item_event_types : list (string * (jstr -> item_event)) :=
  [("response.reasoning_summary_text.delta", SummaryDelta); ("response.reasoning_text.delta", ReasoningDelta);
   ("response.output_text.delta", TextDelta); ("response.refusal.delta", RefusalDelta);
   ("response.function_call_arguments.delta", ArgumentsDelta); ("response.custom_tool_call_input.delta", InputDelta)]%string.

(** A code as a template literal prints it. *)
Definition read_code (v : option json) : option jstr :=
  match v with None => Some (js "undefined") | Some JNull => Some (js "null") | Some (JStr s) => Some s | _ => None end.

Definition read_response_event (e : json) : option response_event :=
  let e := Some e in
  let index := as_int (field "output_index" e) in
  match List.find (fun tf => type_is tf.1 e) item_event_types with
  | Some (_, f) => i ← index; d ← as_string (field "delta" e); Some (ItemEvent i (f d))
  | None =>
      if type_is "response.created" e then ResponseCreated <$> as_opt_string (field "id" (field "response" e))
      else if type_is "response.output_item.added" e then i ← index; it ← read_item (field "item" e); Some (ItemAdded i it)
      else if type_is "response.reasoning_summary_part.done" e then i ← index; Some (ItemEvent i SummaryPartDone)
      else if type_is "response.function_call_arguments.done" e then
        i ← index; a ← as_string (field "arguments" e); Some (ItemEvent i (ArgumentsDone a))
      else if type_is "response.custom_tool_call_input.done" e then
        i ← index; a ← as_string (field "input" e); Some (ItemEvent i (InputDone a))
      else if type_is "response.output_item.done" e then i ← index; it ← read_item (field "item" e); Some (ItemDone i it)
      else if type_is "response.completed" e || type_is "response.incomplete" e then ResponseEnded <$> read_response (field "response" e)
      else if type_is "error" e then c ← read_code (field "code" e); t ← as_string (field "message" e); Some (ResponseError c t)
      else if type_is "response.failed" e then
        let r := field "response" e in
        st ← as_absent_string (field "status" r); reason ← as_opt_string (field "reason" (field "incomplete_details" r));
        (if truthy_json (field "error" r) then
           c ← as_opt_string (field "code" (field "error" r)); t ← as_opt_string (field "message" (field "error" r));
           Some (ResponseFailed st (Some (c, t)) reason)
         else Some (ResponseFailed st None reason))
      else Some OtherResponseEvent
  end.

(** ** Stop reasons and prices *)

(** The stop reason and the error message of a status. *)
Definition mapStopReason3 (status incompleteReason : option jstr) : result jstr (stop_reason * option jstr) :=
  match status with
  | None => Ok (Stop, None)
  | Some s =>
      if negb (truthy s) || streq s (js "completed") then Ok (Stop, None)
      else if streq s (js "incomplete") then
        if bool_decide (incompleteReason = Some (js "max_output_tokens")) then Ok (Length, None)
        else Ok (Error, Some (if truthy_opt incompleteReason then js "Response incomplete: " ++ nullish incompleteReason []
                              else js "Response incomplete without a provider reason"))
      else if streq s (js "failed") || streq s (js "cancelled") then Ok (Error, None)
      else if streq s (js "in_progress") || streq s (js "queued") then Ok (Stop, None)
      else Throw (js "Unhandled stop reason: " ++ s)
  end.

Definition getServiceTierCostMultiplier (m : model) (serviceTier : option jstr) : Q :=
  match serviceTier with
  | Some t =>
      if streq t (js "flex") then 1 # 2
      else if streq t (js "priority") then (if streq (m_id m) (js "gpt-5.5") then 5 # 2 else 2) else 1
  | None => 1
  end.

Definition applyServiceTierPricing (cost : dollars) (serviceTier : option jstr) (m : model) : dollars :=
  let multiplier := getServiceTierCostMultiplier m serviceTier in
  if Qeq_bool multiplier 1 then cost
  else
    let times x := lift2 fmul x (Finite multiplier) in
    let i := times (d_input cost) in
    let o := times (d_output cost) in
    let r := times (d_cacheRead cost) in
    let w := times (d_cacheWrite cost) in
    Dollars i o r w (lift2 fadd (lift2 fadd (lift2 fadd i o) r) w).

(** What [finalizeResponse] does for OpenAI, which resolves the tier by [??]. *)
Definition openai_pricing (m : model) (serviceTier tier : option jstr) (cost : dollars) : dollars :=
  applyServiceTierPricing cost (or_option tier serviceTier) m.

Definition response_tokens (u : response_usage) : usage :=
  let cachedTokens := or_zero (ru_cachedTokens u) in
  let cacheWriteTokens := or_zero (ru_cacheWriteTokens u) in
  Usage (Z.max 0 (or_zero (ru_input u) - cachedTokens - cacheWriteTokens)) (or_zero (ru_output u)) cachedTokens cacheWriteTokens
    (or_zero (ru_total u)) None zero_cost.

(** ** The state *)

Inductive slot_type := ThinkingSlot | TextSlot | ToolSlot.

#[export] Instance slot_type_eq_dec : EqDecision slot_type.
Proof. solve_decision. Defined.

(** A block is referred to by its position, which never changes; the [partialJson]
    of a call is kept in [sb_partialArgs], and [mt_finished] is
    [sawTerminalResponseEvent]. *)
Record resp_state := RespState {
  rp_blocks : list stream_block;
  rp_slots : gmap Z (slot_type * nat);         (* [outputSlots] *)
  rp_reasoning : gmap jstr nat;                (* [reasoningBlocksById] *)
  rp_meta : meta
}.

Definition resp_init : resp_state := RespState [] ∅ ∅ meta_init.

Definition put_block (k : nat) (b : stream_block) (s : resp_state) : resp_state :=
  RespState (<[k := b]> (rp_blocks s)) (rp_slots s) (rp_reasoning s) (rp_meta s).
Definition put_meta (f : meta -> meta) (s : resp_state) : resp_state :=
  RespState (rp_blocks s) (rp_slots s) (rp_reasoning s) (f (rp_meta s)).
Definition open_slot (i : Z) (t : slot_type) (b : stream_block) (s : resp_state) : resp_state :=
  RespState (rp_blocks s ++ [b]) (<[i := (t, length (rp_blocks s))]> (rp_slots s)) (rp_reasoning s) (rp_meta s).
Definition close_slot (i : Z) (s : resp_state) : resp_state :=
  RespState (rp_blocks s) (delete i (rp_slots s)) (rp_reasoning s) (rp_meta s).
Definition keep_reasoning (id : jstr) (k : nat) (s : resp_state) : resp_state :=
  RespState (rp_blocks s) (rp_slots s) (<[id := k]> (rp_reasoning s)) (rp_meta s).

Definition with_stop (stop : stop_reason) (mt : meta) : meta :=
  Meta (mt_responseId mt) (mt_responseModel mt) (mt_usage mt) (mt_cost mt) (mt_reasoning mt) (Some stop) (mt_rawStop mt) (mt_error mt)
    (mt_finished mt).
Definition with_responseId (id : option jstr) (mt : meta) : meta :=
  Meta id (mt_responseModel mt) (mt_usage mt) (mt_cost mt) (mt_reasoning mt) (mt_stop mt) (mt_rawStop mt) (mt_error mt) (mt_finished mt).

#[local] Abbreviation M := (streamM resp_state).

(** ** One block *)

Section Block.
Context (num_to_string : Q -> jstr) (partial_parse : jstr -> option json) (grammarToolInputProperties : gmap jstr jstr).

Definition getCustomToolCallInput (b : stream_block) : jstr :=
  match sb_custom b with
  | Some (property, _) => match get property (tc_arguments (call_of b)) with Some (JStr s) => s | _ => [] end
  | None => []
  end.

(** The delta, if there is one, and the block. *)
Definition appendCustomToolCallInput (b : stream_block) (nextInput : jstr) (close : bool) : result jstr (option jstr * stream_block) :=
  match sb_custom b with
  | None => Ok (None, b)
  | Some (property, buffer) =>
      let! r := appendGrammarToolInputJsonDelta buffer property nextInput close in
      let b := on_call (with_arguments (JObj [(property, JStr nextInput)])) b in
      Ok (r.1, StreamBlock (sb_block b) (sb_partialArgs b) (Some (property, r.2)) (sb_streamIndex b))
  end.

(** Events of a block, which is at the position [k]. *)
Definition pushToolCallDelta (k : Z) (delta : option jstr) : list event :=
  match delta with Some d => [EvToolDelta k d] | None => [] end.

(** The block of an item that starts, with the type of its slot and its first event. *)
Definition item_id (call_id : jstr) (id : option jstr) : jstr := call_id ++ [124] ++ nullish id (js "undefined").

Definition new_slot (item : output_item) : option (slot_type * stream_block * (Z -> event)) :=
  match item with
  | ReasoningItem _ _ _ _ _ => Some (ThinkingSlot, new_stream_block (BThinking [] None false), EvThinkingStart)
  | MessageItem _ _ _ => Some (TextSlot, new_stream_block (BText [] None), EvTextStart)
  | FunctionItem id call_id name arguments namespace =>
      Some (ToolSlot, StreamBlock (BToolCall (ToolCall (item_id call_id id) name (JObj []) None namespace))
              (Some (nullish arguments [])) None None, EvToolStart)
  | CustomItem id call_id name input namespace =>
      let inputProperty := nullish (grammarToolInputProperties !! name) (js "input") in
      Some (ToolSlot, StreamBlock (BToolCall (ToolCall (item_id call_id id) name (JObj [(inputProperty, JStr (nullish input []))])
              None namespace)) None (Some (inputProperty, buffer_init)) None, EvToolStart)
  | OtherItem => None
  end.

(** The type of slot an event is for, and what it does to the block at [k]. *)
Definition event_slot (e : item_event) : slot_type :=
  match e with
  | SummaryDelta _ | SummaryPartDone | ReasoningDelta _ => ThinkingSlot
  | TextDelta _ | RefusalDelta _ => TextSlot
  | _ => ToolSlot
  end.

Definition with_partial (pj : jstr) (b : stream_block) : stream_block :=
  let b := on_call (with_arguments (parseStreamingJson partial_parse (Some pj))) b in
  StreamBlock (sb_block b) (Some pj) (sb_custom b) (sb_streamIndex b).

Definition on_item_event (e : item_event) (k : Z) (b : stream_block) : result jstr (list event * stream_block) :=
  match e with
  | SummaryDelta d | ReasoningDelta d => Ok ([EvThinkingDelta k d], add_string d b)
  | SummaryPartDone => Ok ([EvThinkingDelta k [LF; LF]], add_string [LF; LF] b)
  | TextDelta d | RefusalDelta d => Ok ([EvTextDelta k d], add_string d b)
  | ArgumentsDelta d =>
      match sb_partialArgs b with
      | None => Ok ([], b)
      | Some pj => Ok ([EvToolDelta k d], with_partial (pj ++ d) b)
      end
  | ArgumentsDone arguments =>
      match sb_partialArgs b with
      | None => Ok ([], b)
      | Some previous =>
          let delta := drop (length previous) arguments in
          Ok (if starts_with previous arguments && truthy delta then [EvToolDelta k delta] else [], with_partial arguments b)
      end
  | InputDelta d =>
      match sb_custom b with
      | None => Ok ([], b)
      | Some _ =>
          let! r := appendCustomToolCallInput b (getCustomToolCallInput b ++ d) false in
          Ok (pushToolCallDelta k r.1, r.2)
      end
  | InputDone input =>
      match sb_custom b with
      | None => Ok ([], b)
      | Some _ => let! r := appendCustomToolCallInput b input true in Ok (pushToolCallDelta k r.1, r.2)
      end
  end.

Definition with_namespace (ns : option jstr) (tc : toolCall) : toolCall :=
  match ns with Some _ => ToolCall (tc_id tc) (tc_name tc) (tc_arguments tc) (tc_thoughtSignature tc) ns | None => tc end.

Definition joined (sep : jstr) (texts : option (list jstr)) : jstr := join sep (nullish texts []).

(** The end of an item whose slot has the type [t]: the events and the block, or
    [None] when the item is not what the slot is for. *)
Definition finish_item (item : output_item) (t : slot_type) (k : Z) (b : stream_block) : result jstr (option (list event * stream_block)) :=
  match item, t, sb_block b with
  | ReasoningItem _ summary content _ raw, ThinkingSlot, BThinking thinking _ r =>
      let summaryText := joined [LF; LF] summary in
      let contentText := joined [LF; LF] content in
      let thinking := if truthy summaryText then summaryText else if truthy contentText then contentText else thinking in
      Ok (Some ([EvThinkingEnd k thinking], new_stream_block (BThinking thinking (Some (JSON_stringify num_to_string raw)) r)))
  | MessageItem id texts phase, TextSlot, BText _ _ =>
      let text := joined [] texts in
      Ok (Some ([EvTextEnd k text], new_stream_block (BText text (Some (encodeTextSignatureV1 num_to_string id phase)))))
  | FunctionItem _ _ _ arguments namespace, ToolSlot, BToolCall tc =>
      match sb_partialArgs b with
      | None => Ok None
      | Some pj =>
          let final := if truthy_opt arguments then nullish arguments [] else if truthy pj then pj else js "{}" in
          let tc := with_namespace namespace (with_arguments (parseStreamingJson partial_parse (Some final)) tc) in
          Ok (Some ([EvToolEnd k tc], StreamBlock (BToolCall tc) None (sb_custom b) None))
      end
  | CustomItem _ _ _ input namespace, ToolSlot, BToolCall _ =>
      match sb_custom b with
      | None => Ok None
      | Some _ =>
          let! r := appendCustomToolCallInput b (nullish input (getCustomToolCallInput b)) true in
          let tc := with_namespace namespace (call_of r.2) in
          Ok (Some (pushToolCallDelta k r.1 ++ [EvToolEnd k tc], StreamBlock (BToolCall tc) (sb_partialArgs b) None None))
      end
  | _, _, _ => Ok None
  end.
End Block.

(** ** The stream *)

Section Stream.
Context (num_to_string : Q -> jstr) (partial_parse : jstr -> option json) (syntax_error : jstr -> jstr).
Context (m : model) (grammarToolInputProperties : gmap jstr jstr).
(** For a provider whose prices depend on the service tier, the cost after the
    tier the response names. *)
Context (tierPricing : option (option jstr -> dollars -> dollars)).

Definition push_all (es : list event) : M () := each_m push_m es.

Definition applyMessagePhaseStopReason (item : output_item) : M () :=
  match item with
  | MessageItem _ _ phase => when_m (bool_decide (phase = Some (js "final_answer"))) (modify_m (put_meta (with_stop Stop)))
  | _ => ret ()
  end.

Definition createSlot (i : Z) (item : output_item) : M () :=
  match new_slot grammarToolInputProperties item with
  | None => ret ()
  | Some (t, b, start) =>
      let* _ := applyMessagePhaseStopReason item in
      let* s := state_m in
      let* _ := modify_m (open_slot i t b) in
      push_m (start (Z.of_nat (length (rp_blocks s))))
  end.

(** An event of an item that has no slot of its type is ignored. *)
Definition item_event_m (i : Z) (e : item_event) : M () :=
  let* s := state_m in
  match rp_slots s !! i with
  | Some (t, k) =>
      match rp_blocks s !! k with
      | Some b =>
          if bool_decide (t = event_slot e) then
            let* r := lift_m (on_item_event partial_parse e (Z.of_nat k) b) in
            let* _ := modify_m (put_block k r.2) in
            push_all r.1
          else ret ()
      | None => ret ()
      end
  | None => ret ()
  end.

Definition item_done_m (i : Z) (item : output_item) : M () :=
  let* _ := applyMessagePhaseStopReason item in
  let* s := state_m in
  let* _ := match rp_slots s !! i with Some _ => ret () | None => createSlot i item end in
  let* s := state_m in
  match rp_slots s !! i with
  | Some (t, k) =>
      match rp_blocks s !! k with
      | Some b =>
          let* r := lift_m (finish_item num_to_string partial_parse item t (Z.of_nat k) b) in
          match r with
          | Some (es, b') =>
              let* _ := modify_m (put_block k b') in
              let* _ := match item with
                        | ReasoningItem id _ _ _ _ => modify_m (keep_reasoning id k)
                        | _ => ret ()
                        end in
              let* _ := push_all es in
              modify_m (close_slot i)
          | None => ret ()
          end
      | None => ret ()
      end
  | None => ret ()
  end.

(** The signature of a thinking block whose item got its encrypted content only at
    the end; the signature is the text of the item, an object. *)
Definition add_encrypted (encrypted : jstr) (b : stream_block) : result jstr stream_block :=
  match sb_block b with
  | BThinking thinking (Some signature) r =>
      if negb (truthy signature) then Ok b
      else
        match JSON_parse signature with
        | None => Throw (syntax_error signature)
        | Some storedItem =>
            if truthy_json (get (js "encrypted_content") storedItem) then Ok b
            else
              let fields := match storedItem with JObj fs => fs | _ => [] end in
              let signature := JSON_stringify num_to_string (JObj (set_field (js "encrypted_content") (JStr encrypted) fields)) in
              Ok (StreamBlock (BThinking thinking (Some signature) r) (sb_partialArgs b) (sb_custom b) (sb_streamIndex b))
        end
  | _ => Ok b
  end.

Definition backfill_item (item : output_item) : M () :=
  match item with
  | ReasoningItem id _ _ (Some encrypted) _ =>
      if negb (truthy encrypted) then ret ()
      else
        let* s := state_m in
        match rp_reasoning s !! id with
        | Some k =>
            match rp_blocks s !! k with
            | Some b => let* b' := lift_m (add_encrypted encrypted b) in modify_m (put_block k b')
            | None => ret ()
            end
        | None => ret ()
        end
  | _ => ret ()
  end.

Definition backfillReasoningSignatures (items : list output_item) : M () := each_m backfill_item items.

Definition with_response (r : response) (mt : meta) : meta :=
  let usage := match re_usage r with Some u => response_tokens u | None => mt_usage mt end in
  let cost := calculateCost m usage in
  let cost :=
    match tierPricing with
    | Some price => price (re_serviceTier r) cost
    | None => cost
    end in
  Meta (if truthy_opt (re_id r) then re_id r else mt_responseId mt) (mt_responseModel mt) usage cost
    (match re_usage r with Some u => Some (or_zero (ru_reasoningTokens u)) | None => mt_reasoning mt end)
    (mt_stop mt)
    (if truthy_opt (re_incompleteReason r) then Some (nullish (re_status r) (js "undefined") ++ js "." ++ nullish (re_incompleteReason r) [])
     else re_status r)
    (mt_error mt) (mt_finished mt).

Definition with_outcome (stop : stop_reason) (error : option jstr) (mt : meta) : meta :=
  Meta (mt_responseId mt) (mt_responseModel mt) (mt_usage mt) (mt_cost mt) (mt_reasoning mt) (Some stop) (mt_rawStop mt) error
    (mt_finished mt).
Definition finished_meta (mt : meta) : meta :=
  Meta (mt_responseId mt) (mt_responseModel mt) (mt_usage mt) (mt_cost mt) (mt_reasoning mt) (mt_stop mt) (mt_rawStop mt) (mt_error mt) true.

Definition finalizeResponse2 (r : response) : M () :=
  let* _ := modify_m (put_meta finished_meta) in
  let* _ := backfillReasoningSignatures (re_output r) in
  let* _ := modify_m (put_meta (with_response r)) in
  let* mapped := lift_m (mapStopReason3 (re_status r) (re_incompleteReason r)) in
  modify_m (fun s =>
    let stop := if existsb is_call_block (rp_blocks s) && bool_decide (mapped.1 = Stop) then ToolUse else mapped.1 in
    put_meta (with_outcome stop mapped.2) s).

Definition failed_message (error : option (option jstr * option jstr)) (reason : option jstr) : jstr :=
  match error with
  | Some (code, message) =>
      (if truthy_opt code then nullish code [] else js "unknown") ++ js ": " ++
      (if truthy_opt message then nullish message [] else js "no message")
  | None => if truthy_opt reason then js "incomplete: " ++ nullish reason [] else js "Unknown error (no error details in response)"
  end.

Definition with_failure (status : option jstr) (mt : meta) : meta :=
  Meta (mt_responseId mt) (mt_responseModel mt) (mt_usage mt) (mt_cost mt) (mt_reasoning mt) (mt_stop mt) status (mt_error mt) true.

(** The body of the loop over the events. *)
Definition on_response_event (e : response_event) : M () :=
  match e with
  | ResponseCreated id => modify_m (put_meta (with_responseId id))
  | ItemAdded i item => createSlot i item
  | ItemEvent i e => item_event_m i e
  | ItemDone i item => item_done_m i item
  | ResponseEnded r => finalizeResponse2 r
  | ResponseError code message => throw_m (js "Error Code " ++ code ++ js ": " ++ message)
  | ResponseFailed status error reason =>
      let* _ := modify_m (put_meta (with_failure status)) in throw_m (failed_message error reason)
  | OtherResponseEvent => ret ()
  end.

(** [ending] is how the events ended. *)
Definition processResponsesStream (events : list response_event) (ending : result jstr ()) : M () :=
  let* _ := each_m on_response_event events in
  let* _ := lift_m ending in
  let* s := state_m in
  if mt_finished (rp_meta s) then ret ()
  else throw_m (js "OpenAI Responses stream ended before a terminal response event").

(** [api] and [provider_name] tell the two providers apart. *)
Context (api : jstr) (provider_name : jstr) (now : Z).

Definition response_message (s : resp_state) (stop : stop_reason) (error : option jstr) : assistant :=
  let u := mt_usage (rp_meta s) in
  Assistant (m_provider m) api (m_id m) (map sb_block (rp_blocks s)) stop error
    (Usage (u_input u) (u_output u) (u_cacheRead u) (u_cacheWrite u) (u_totalTokens u) None (finite_cost (mt_cost (rp_meta s)))) now.

(** What follows the loop, given the signal. *)
Definition response_reason (aborted : bool) (s : resp_state) : result jstr stop_reason :=
  if aborted then Throw (js "Request was aborted")
  else
    match mt_stop (rp_meta s) with
    | None => Throw (provider_name ++ js " stream ended without a stop reason")
    | Some (Aborted | Error) =>
        Throw (if truthy_opt (mt_error (rp_meta s)) then nullish (mt_error (rp_meta s)) [] else js "An unknown error occurred")
    | Some stop => Ok stop
    end.

(** The [catch] clause; [e] is the text of the error as it is formatted there. *)
Definition response_failure (aborted : bool) (es : list event) (s : resp_state) (e : jstr) : list event * assistant :=
  let stop := if aborted then Aborted else Error in
  let msg := response_message s stop (Some e) in (es ++ [EvError stop msg], msg).

(** The stream from the request on: [setup] is how it went. *)
Definition response_stream (setup : result jstr ()) (events : list response_event) (ending : result jstr ()) (aborted : bool)
  : list event * assistant :=
  match setup with
  | Throw e => response_failure aborted [] resp_init e
  | Ok _ =>
      let '(es, s, r) := processResponsesStream events ending resp_init in
      match r with
      | Throw e => response_failure aborted (EvStart :: es) s e
      | Ok _ =>
          match response_reason aborted s with
          | Throw e => response_failure aborted (EvStart :: es) s e
          | Ok stop => let msg := response_message s stop (mt_error (rp_meta s)) in (EvStart :: es ++ [EvDone stop msg], msg)
          end
      end
  end.

(** The same from the JSON of the events; [None] when one is not as documented. *)
Definition response_of_json (events : list json) (ending : result jstr ()) (aborted : bool) : option (list event * assistant) :=
  es ← mapM read_response_event events; Some (response_stream (Ok ()) es ending aborted).
End Stream.

(** * Facts *)

(** ** A response *)

Definition reasoning_raw : json :=
  JObj [(js "id", jstring "rs_1"); (js "type", jstring "reasoning"); (js "summary", JArr [])].

Definition reasoning_item : output_item := ReasoningItem (js "rs_1") (Some []) None None reasoning_raw.
Definition hello_item : output_item := MessageItem (js "msg_1") (Some [js "Hello"]) (Some (js "commentary")).
Definition read_call : output_item := FunctionItem (Some (js "fc_1")) (js "call_1") (js "read") (Some (js "{}")) None.

Definition sample_events : list response_event :=
  [ResponseCreated (Some (js "resp_1")); ItemAdded 0 reasoning_item; ItemEvent 0 (SummaryDelta (js "hm"));
   ItemAdded 1 hello_item; ItemEvent 1 (TextDelta (js "Hel")); ItemDone 0 reasoning_item; ItemAdded 2 (FunctionItem (Some (js "fc_1")) (js "call_1") (js "read") None None);
   ItemEvent 1 (TextDelta (js "lo")); ItemEvent 2 (ArgumentsDelta (js "{")); ItemDone 1 hello_item; ItemEvent 2 (ArgumentsDone (js "{}"));
   ItemDone 2 read_call;
   ResponseEnded (Response (Some (js "resp_1")) (Some (js "completed")) None [] (Some (ResponseUsage (Some 10) (Some 5) (Some 15) (Some 4) None None)) None)].

Definition sample_response : list event * assistant :=
  response_stream int_num_str (fun _ => Some (JObj [])) (fun _ => []) response_model ∅ (Some (openai_pricing response_model None)) (js "openai-responses") (js "OpenAI Responses") 7
    (Ok ()) sample_events (Ok ()) false.

Example sample_response_ex :
  let tc := ToolCall (js "call_1|fc_1") (js "read") (JObj []) None None in
  exists msg, sample_response =
    ([EvStart; EvThinkingStart 0; EvThinkingDelta 0 (js "hm"); EvTextStart 1; EvTextDelta 1 (js "Hel"); EvThinkingEnd 0 (js "hm"); EvToolStart 2;
      EvTextDelta 1 (js "lo"); EvToolDelta 2 (js "{"); EvTextEnd 1 (js "Hello"); EvToolDelta 2 (js "}"); EvToolEnd 2 tc; EvDone ToolUse msg], msg) /\
  a_content msg = [BThinking (js "hm") (Some (JSON_stringify int_num_str reasoning_raw)) false;
                   BText (js "Hello") (Some (encodeTextSignatureV1 int_num_str (js "msg_1") (Some (js "commentary")))); BToolCall tc] /\
  u_input (a_usage msg) = 6.
Proof. eexists. split_and!; vm_compute; reflexivity. Qed.

(** ** One event ends the stream *)

Section Ended.
Context (num_to_string : Q -> jstr) (partial_parse : jstr -> option json) (syntax_error : jstr -> jstr).
Context (m : model) (properties : gmap jstr jstr) (tierPricing : option (option jstr -> dollars -> dollars)).

Lemma item_events_incomplete e k b es b' : on_item_event partial_parse e k b = Ok (es, b') -> Forall inner es.
Proof.
  unfold on_item_event. intros H. destruct e; try (injection H as <- _; by repeat constructor).
  - destruct (sb_partialArgs b); injection H as <- _; by repeat constructor.
  - destruct (sb_partialArgs b); injection H as <- _; [|constructor]. destruct (_ && _); by repeat constructor.
  - destruct (sb_custom b); [|by simplify_eq]. destruct (appendCustomToolCallInput b _ false) as [[[d|] b2]|]; simplify_eq/=; by repeat constructor.
  - destruct (sb_custom b); [|by simplify_eq]. destruct (appendCustomToolCallInput b _ true) as [[[d|] b2]|]; simplify_eq/=; by repeat constructor.
Qed.

Lemma finish_incomplete item t k b es b' :
  finish_item num_to_string partial_parse item t k b = Ok (Some (es, b')) -> Forall inner es.
Proof.
  unfold finish_item. intros H. destruct item, t; try done; destruct (sb_block b); try done; try (injection H as <- _; by repeat constructor).
  - destruct (sb_partialArgs b); simplify_eq. by repeat constructor.
  - destruct (sb_custom b); [|done]. destruct (appendCustomToolCallInput b _ true) as [[[d|] b2]|]; simplify_eq/=; by repeat constructor.
Qed.

Lemma createSlot_quiet i item : emits inner (createSlot properties i item).
Proof. unfold createSlot, applyMessagePhaseStopReason. destruct item; cbn [new_slot]; repeat quiet_step. Qed.

Lemma response_event_quiet e :
  emits inner (on_response_event num_to_string partial_parse syntax_error m properties tierPricing e).
Proof.
  destruct e; cbn [on_response_event]; try apply createSlot_quiet; try (by apply emits_silent).
  - unfold item_event_m, push_all.
    repeat first [match goal with H : on_item_event _ _ _ _ = Ok ?r |- emits _ (each_m push_m _) =>
      apply emits_pushes; destruct r; by eapply item_events_incomplete end | quiet_step].
  - unfold item_done_m, push_all, applyMessagePhaseStopReason.
    repeat first [apply createSlot_quiet | match goal with |- emits _ (each_m push_m _) => apply emits_pushes; by eapply finish_incomplete end | quiet_step].
  - unfold finalizeResponse2, backfillReasoningSignatures, backfill_item. repeat quiet_step.
Qed.
End Ended.

Section Stream_ended.
Context (num_to_string : Q -> jstr) (partial_parse : jstr -> option json) (syntax_error : jstr -> jstr).
Context (m : model) (properties : gmap jstr jstr) (tierPricing : option (option jstr -> dollars -> dollars)) (api provider_name : jstr) (now : Z).
#[local] Abbreviation the_stream :=
  (response_stream num_to_string partial_parse syntax_error m properties tierPricing api provider_name now).

(** Whatever the provider sends and however the request fails, the stream has
    exactly one event that ends it, its last, which carries the message. *)
Theorem responses_stream_ended setup events ending aborted :
  well_ended (the_stream setup events ending aborted).1 (the_stream setup events ending aborted).2.
Proof.
  assert (Hend : forall es e msg, Forall incomplete es -> isComplete e = true -> extractResult e = Ok msg ->
    well_ended (es ++ [e]) msg) by (intros es e msg; by exists es, e).
  unfold response_stream. destruct setup as [[]|e]; [|apply Hend; [constructor|done|done]].
  assert (Hq : emits inner (processResponsesStream num_to_string partial_parse syntax_error m properties tierPricing events ending)).
  { unfold processResponsesStream. repeat first [apply response_event_quiet | quiet_step]. }
  specialize (Hq resp_init). destruct (processResponsesStream _ _ _ _ _ _ events ending resp_init) as [[es s] r]. cbn [fst] in Hq. apply inner_incomplete in Hq.
  assert (Hs : Forall incomplete (EvStart :: es)) by (by constructor).
  destruct r; [|by apply Hend]. destruct (response_reason provider_name aborted s) as [stop|e]; [|by apply Hend].
  by apply (Hend (EvStart :: es)).
Qed.
End Stream_ended.

(** ** One item at a time *)

(** What an event says, and the event moved to the block [k]. *)
Definition said (e : event) : jstr := match e with EvThinkingDelta _ d | EvTextDelta _ d | EvToolDelta _ d => d | _ => [] end.

Definition move (k : Z) (e : event) : event :=
  match e with
  | EvThinkingStart _ => EvThinkingStart k | EvThinkingDelta _ d => EvThinkingDelta k d | EvThinkingEnd _ c => EvThinkingEnd k c
  | EvTextStart _ => EvTextStart k | EvTextDelta _ d => EvTextDelta k d | EvTextEnd _ c => EvTextEnd k c
  | EvToolStart _ => EvToolStart k | EvToolDelta _ d => EvToolDelta k d | EvToolEnd _ tc => EvToolEnd k tc
  | e => e
  end.

Lemma deltas_move j k es : deltas j (map (move k) es) = if bool_decide (j = k) then flat_map said es else [].
Proof.
  induction es as [|e es IH]; [by case_bool_decide|]. unfold deltas in *. cbn [map flat_map]. rewrite IH.
  assert (delta_at j (move k e) = if bool_decide (j = k) then said e else []) as ->; [|by case_bool_decide].
  case_bool_decide as E; destruct e; cbn; try done; by rewrite ?E, ?Z.eqb_refl, ?(proj2 (Z.eqb_neq k j)).
Qed.

(** What the events of one item do, as if it were the only one: a block that is
    filled, and the text that is streamed for it. *)
Inductive run_state := NotStarted | Running (t : slot_type) (b : stream_block) | Finished (b : stream_block).

Section Runs.
Context (num_to_string : Q -> jstr) (partial_parse : jstr -> option json) (syntax_error : jstr -> jstr).
Context (m : model) (properties : gmap jstr jstr) (tierPricing : option (option jstr -> dollars -> dollars)).

Definition run_step (st : jstr * run_state) (e : response_event) : option (jstr * run_state) :=
  match st.2, e with
  | NotStarted, ItemAdded _ item => match new_slot properties item with Some (t, b, _) => Some (st.1, Running t b) | None => None end
  | Running t b, ItemEvent _ e =>
      if bool_decide (t = event_slot e) then
        match on_item_event partial_parse e 0 b with Ok (es, b') => Some (st.1 ++ flat_map said es, Running t b') | Throw _ => None end
      else Some (st.1, Running t b)
  | Running t b, ItemDone _ item =>
      match finish_item num_to_string partial_parse item t 0 b with
      | Ok (Some (es, b')) => Some (st.1 ++ flat_map said es, Finished b')
      | _ => None
      end
  | _, _ => None
  end.

Fixpoint run_from (st : jstr * run_state) (l : list response_event) : option (jstr * run_state) :=
  match l with [] => Some st | e :: r => st' ← run_step st e; run_from st' r end.

Definition run_item (l : list response_event) : option (jstr * run_state) := run_from ([], NotStarted) l.

Lemma run_from_snoc st l e : run_from st (l ++ [e]) = st' ← run_from st l; run_step st' e.
Proof.
  revert st. induction l as [|x l IH]; intros st; cbn [app run_from].
  - cbn. by destruct (run_step st e).
  - destruct (run_step st x) as [st'|]; [|done]. cbn. apply IH.
Qed.

Lemma run_item_snoc l e : run_item (l ++ [e]) = st ← run_item l; run_step st e.
Proof. apply run_from_snoc. Qed.

(** The events of an item are the same wherever its block is. *)
Lemma item_event_moved e k b :
  on_item_event partial_parse e k b = let! r := on_item_event partial_parse e 0 b in Ok (map (move k) r.1, r.2).
Proof.
  destruct e; cbn [on_item_event bind]; try done.
  - by destruct (sb_partialArgs b).
  - destruct (sb_partialArgs b); [|done]. cbn [bind fst snd]. by destruct (_ && _).
  - destruct (sb_custom b); [|done]. by destruct (appendCustomToolCallInput b _ false) as [[[d|] b2]|].
  - destruct (sb_custom b); [|done]. by destruct (appendCustomToolCallInput b _ true) as [[[d|] b2]|].
Qed.

Lemma finish_item_moved item t k b :
  finish_item num_to_string partial_parse item t k b =
  let! r := finish_item num_to_string partial_parse item t 0 b in Ok ((fun r => (map (move k) r.1, r.2)) <$> r).
Proof.
  destruct item, t; try done; cbn [finish_item]; destruct (sb_block b); try done.
  - by destruct (sb_partialArgs b).
  - destruct (sb_custom b); [|done]. by destruct (appendCustomToolCallInput b _ true) as [[[d|] b2]|].
Qed.

(** ** All items together *)

Definition event_index (e : response_event) : option Z :=
  match e with ItemAdded i _ | ItemEvent i _ | ItemDone i _ => Some i | _ => None end.

Definition added_index (e : response_event) : option Z := match e with ItemAdded i _ => Some i | _ => None end.

Definition of_item (i : Z) (es : list response_event) : list response_event :=
  List.filter (fun e => bool_decide (event_index e = Some i)) es.

(** The items of a response in the order they start. *)
Definition item_order (es : list response_event) : list Z := omap added_index es.

(** An event that neither ends the response nor fails it. *)
Definition body_event (e : response_event) : Prop :=
  match e with ResponseEnded _ | ResponseError _ _ | ResponseFailed _ _ _ => False | _ => True end.

Definition block_of (st : run_state) : stream_block :=
  match st with NotStarted => new_stream_block (BText [] None) | Running _ b | Finished b => b end.

Definition slot_of (st : run_state) (k : nat) : option (slot_type * nat) := match st with Running t _ => Some (t, k) | _ => None end.

(** The item [i] has ended as a reasoning item with the given identifier. *)
Definition reasoned (es : list response_event) (i : Z) (id : jstr) : Prop :=
  exists summary content encrypted raw live thinking r,
    run_item (of_item i es) = Some (live, Finished (new_stream_block (BThinking thinking (Some (JSON_stringify num_to_string raw)) r))) /\
    ItemDone i (ReasoningItem id summary content encrypted raw) ∈ es.

(** The state after events [es], which streamed [out]: every item is where it would
    be alone. *)
Record tracks (es : list response_event) (out : list event) (s : resp_state) : Prop := Tracks {
  tk_nodup : NoDup (item_order es);
  tk_length : length (rp_blocks s) = length (item_order es);
  tk_items : forall k i, item_order es !! k = Some i -> exists live st,
    run_item (of_item i es) = Some (live, st) /\ rp_blocks s !! k = Some (block_of st) /\ rp_slots s !! i = slot_of st k /\
    deltas (Z.of_nat k) out = live;
  tk_slots : forall i, i ∉ item_order es -> rp_slots s !! i = None;
  tk_later : forall j, Z.of_nat (length (item_order es)) <= j -> deltas j out = [];
  tk_reasoning : forall id k, rp_reasoning s !! id = Some k -> exists i, item_order es !! k = Some i /\ reasoned es i id;
  tk_kept : forall i id su co en raw, ItemDone i (ReasoningItem id su co en raw) ∈ es -> is_Some (rp_reasoning s !! id);
  tk_open : mt_finished (rp_meta s) = false
}.

Lemma of_item_snoc i es e : of_item i (es ++ [e]) = of_item i es ++ if bool_decide (event_index e = Some i) then [e] else [].
Proof. unfold of_item. rewrite List.filter_app. cbn. by case_bool_decide. Qed.

(** An item that has not started has no events. *)
Lemma not_started i es : is_Some (run_item (of_item i es)) -> i ∉ item_order es -> of_item i es = [].
Proof.
  intros [st Hr] Hi. destruct (of_item i es) as [|e l] eqn:E; [done|]. exfalso. unfold run_item in Hr. cbn [run_from] in Hr.
  assert (He : e ∈ es /\ event_index e = Some i).
  { assert (Hin : In e (of_item i es)) by (rewrite E; by left). apply filter_In in Hin as [H1 H2]. split; [by apply list_elem_of_In|].
    by bool_to_prop. }
  destruct e; cbn in Hr; try done. destruct He as [He [= ->]]. apply Hi. unfold item_order. apply list_elem_of_omap. by eexists.
Qed.

Lemma run_started l live : run_item l = Some (live, NotStarted) -> l = [].
Proof.
  destruct l as [|e l _] using rev_ind; [done|]. rewrite run_item_snoc. destruct (run_item l) as [[live0 st]|]; [|done]. cbn. unfold run_step. cbn.
  intros H. exfalso. repeat (case_match; try done).
Qed.

Lemma item_order_snoc es e : item_order (es ++ [e]) = item_order es ++ match added_index e with Some i => [i] | None => [] end.
Proof. unfold item_order. rewrite omap_app. cbn. by destruct (added_index e). Qed.

Lemma ordered_nonempty i es : i ∈ item_order es -> of_item i es ≠ [].
Proof.
  unfold item_order. intros (e & He & Ea)%list_elem_of_omap Hn. assert (Hin : In e (of_item i es)); [|by rewrite Hn in Hin].
  apply filter_In. split; [by apply list_elem_of_In|]. apply bool_decide_eq_true. destruct e; cbn in Ea |- *; congruence.
Qed.

Lemma reasoned_snoc es e i id : reasoned es i id -> event_index e ≠ Some i -> reasoned (es ++ [e]) i id.
Proof.
  intros (su & c & en & raw & lv & th & rd & Hrun & Hin) He. exists su, c, en, raw, lv, th, rd.
  rewrite of_item_snoc, bool_decide_false, app_nil_r by done. split; [done|]. apply elem_of_app. by left.
Qed.

(** A step of one item leaves the others as they are. *)
Lemma tracks_update es out s e i k live st st' evs s' :
  tracks es out s -> event_index e = Some i -> added_index e = None -> item_order es !! k = Some i ->
  run_item (of_item i es) = Some (live, st) -> run_step (live, st) e = Some (live ++ flat_map said evs, st') ->
  rp_blocks s' = <[k := block_of st']> (rp_blocks s) -> rp_slots s' !! i = slot_of st' k ->
  (forall i', i' ≠ i -> rp_slots s' !! i' = rp_slots s !! i') -> mt_finished (rp_meta s') = mt_finished (rp_meta s) ->
  (forall id k', rp_reasoning s' !! id = Some k' -> rp_reasoning s !! id = Some k' \/
     k' = k /\ reasoned (es ++ [e]) i id) ->
  (forall id, is_Some (rp_reasoning s !! id) -> is_Some (rp_reasoning s' !! id)) ->
  (forall i id su co en raw, e = ItemDone i (ReasoningItem id su co en raw) -> is_Some (rp_reasoning s' !! id)) ->
  tracks (es ++ [e]) (out ++ map (move (Z.of_nat k)) evs) s'.
Proof.
  intros [T0 T1 T2 T3 T4 T5 T6 T7] Hi Ha Hk Hr Hs Hb Hsl Hot Hm Hre Hgrow Hnew.
  assert (Ho : item_order (es ++ [e]) = item_order es) by (rewrite item_order_snoc, Ha; apply app_nil_r).
  assert (Hlt : (k < length (rp_blocks s))%nat) by (rewrite T1; by eapply lookup_lt_Some).
  split; rewrite ?Ho; try done.
  - by rewrite Hb, length_insert.
  - intros k' i' Hk'. rewrite deltas_app, deltas_move. destruct (decide (k' = k)) as [->|Hne].
    + assert (i' = i) as -> by congruence. exists (live ++ flat_map said evs), st'. destruct (T2 k i Hk) as (live0 & st0 & E1 & _ & _ & E4).
      rewrite Hr in E1. injection E1 as <- <-. rewrite of_item_snoc, Hi, bool_decide_true, run_item_snoc, Hr by done.
      split_and!; [done| |done|]; [rewrite Hb; by apply list_lookup_insert_eq|]. by rewrite E4, bool_decide_true.
    + assert (Hii : i' ≠ i) by (intros ->; apply Hne; by eapply NoDup_lookup).
      destruct (T2 k' i' Hk') as (live0 & st0 & E1 & E2 & E3 & E4). exists live0, st0.
      rewrite of_item_snoc, Hi, bool_decide_false, app_nil_r by congruence. rewrite bool_decide_false, app_nil_r by lia.
      rewrite Hb, list_lookup_insert_ne by done. rewrite Hot by done. done.
  - intros i' Hi'. rewrite Hot; [by apply T3|]. intros ->. apply Hi'. by eapply list_elem_of_lookup_2.
  - intros j Hj. rewrite deltas_app, deltas_move, T4 by done. apply lookup_lt_Some in Hk. rewrite bool_decide_false by lia. done.
  - intros id k' Hid. apply Hre in Hid as [Hid|[-> Hid]]; [|by exists i]. destruct (T5 _ _ Hid) as (i' & Hk' & Hdone). exists i'.
    split; [done|]. eapply reasoned_snoc; [exact Hdone|]. rewrite Hi. intros [= ->]. destruct Hdone as (su & c & en & raw & lv & th & rd & Hrun & _).
    rewrite Hr in Hrun. injection Hrun as <- ->. by destruct e.
  - intros i' id su co en raw Hin. apply elem_of_app in Hin as [Hin|Hin]; [by eauto|].
    apply list_elem_of_singleton in Hin. by eapply Hnew.
  - congruence.
Qed.

(** A new item gets a block of its own. *)
Lemma tracks_start es out s i item t b start s' :
  tracks es out s -> of_item i es = [] -> new_slot properties item = Some (t, b, start) ->
  rp_blocks s' = rp_blocks s ++ [b] -> rp_slots s' = <[i := (t, length (rp_blocks s))]> (rp_slots s) ->
  rp_reasoning s' = rp_reasoning s -> mt_finished (rp_meta s') = mt_finished (rp_meta s) ->
  tracks (es ++ [ItemAdded i item]) (out ++ [start (Z.of_nat (length (rp_blocks s)))]) s'.
Proof.
  intros [T0 T1 T2 T3 T4 T5 T6 T7] Hn Hs Hb Hsl Hre Hm.
  assert (Hi : i ∉ item_order es) by (intros Hi; by apply ordered_nonempty in Hi).
  assert (Ho : item_order (es ++ [ItemAdded i item]) = item_order es ++ [i]) by apply item_order_snoc.
  assert (Hd : forall j, deltas j [start (Z.of_nat (length (rp_blocks s)))] = []) by (destruct item; cbn in Hs; simplify_eq; done).
  split; rewrite ?Ho.
  - apply NoDup_app. split_and!; [done| |apply NoDup_singleton]. intros x Hx Hy. by apply list_elem_of_singleton in Hy as ->.
  - by rewrite Hb, !length_app, T1.
  - intros k' i' Hk'. rewrite deltas_app, Hd, app_nil_r, Hb, Hsl, of_item_snoc. cbn [event_index]. apply lookup_app_Some in Hk' as [Hk'|[Hl Hk']].
    + assert (i' ≠ i) by (intros ->; apply Hi; by eapply list_elem_of_lookup_2).
      destruct (T2 k' i' Hk') as (live0 & st0 & E1 & E2 & E3 & E4). exists live0, st0.
      rewrite bool_decide_false, app_nil_r by congruence. rewrite lookup_insert_ne by done. split_and!; [done| |done|done].
      by apply lookup_app_l_Some.
    + assert (k' = length (item_order es) /\ i' = i) as [-> ->].
      { destruct (k' - length (item_order es))%nat as [|x] eqn:E; [|by destruct x]. cbn in Hk'. split; [lia|congruence]. }
      exists [], (Running t b). rewrite Hn, bool_decide_true by done. cbn [app]. split_and!.
      * unfold run_item. cbn. by rewrite Hs.
      * rewrite <- T1. by apply list_lookup_middle.
      * by rewrite lookup_insert_eq, T1.
      * by apply T4.
  - intros i' Hi'. rewrite Hsl, lookup_insert_ne; [apply T3|]; set_solver.
  - intros j Hj. rewrite deltas_app, Hd, app_nil_r. apply T4. rewrite length_app in Hj. cbn in Hj. lia.
  - intros id k Hid. rewrite Hre in Hid. destruct (T5 _ _ Hid) as (i' & Hk' & Hdone). exists i'. split; [by apply lookup_app_l_Some|].
    eapply reasoned_snoc; [exact Hdone|]. intros [= ->]. apply Hi. by eapply list_elem_of_lookup_2.
  - intros i' id su co en raw Hin. rewrite Hre. apply elem_of_app in Hin as [Hin|Hin]; [by eauto|].
    by apply list_elem_of_singleton in Hin.
  - congruence.
Qed.

#[local] Abbreviation handle_event := (on_response_event num_to_string partial_parse syntax_error m properties tierPricing).

Lemma push_all_run es s : push_all es s = (es, s, Ok ()).
Proof. unfold push_all. induction es as [|e es IH]; [done|]. cbn [each_m]. unfold bind_m, push_m at 1. by rewrite IH. Qed.

Lemma tracks_idle es out s e s' :
  tracks es out s -> event_index e = None -> rp_blocks s' = rp_blocks s -> rp_slots s' = rp_slots s -> rp_reasoning s' = rp_reasoning s ->
  mt_finished (rp_meta s') = mt_finished (rp_meta s) -> tracks (es ++ [e]) out s'.
Proof.
  intros [T0 T1 T2 T3 T4 T5 T6 T7] He Hb Hs Hr Hm.
  assert (Ho : item_order (es ++ [e]) = item_order es) by (rewrite item_order_snoc; destruct e; cbn in *; try done; apply app_nil_r).
  assert (Hof : forall i, of_item i (es ++ [e]) = of_item i es) by (intros i; rewrite of_item_snoc, He; apply app_nil_r).
  split; rewrite ?Ho, ?Hb, ?Hs, ?Hr; try done.
  - intros k i Hk. rewrite Hof. by apply T2.
  - intros id k Hid. destruct (T5 _ _ Hid) as (i & Hk & Hd). exists i. split; [done|]. apply reasoned_snoc; [done|by rewrite He].
  - intros i id su co en raw Hin. apply elem_of_app in Hin as [Hin|Hin]; [by eauto|].
    apply list_elem_of_singleton in Hin. by rewrite <- Hin in He.
  - congruence.
Qed.

(** The item an event is about has started before. *)
Lemma tracks_position es out s i live st :
  tracks es out s -> run_item (of_item i es) = Some (live, st) -> st ≠ NotStarted ->
  exists k, item_order es !! k = Some i /\ rp_blocks s !! k = Some (block_of st) /\ rp_slots s !! i = slot_of st k.
Proof.
  intros T Hr Hst. destruct (decide (i ∈ item_order es)) as [Hi|Hi].
  - apply list_elem_of_lookup_1 in Hi as [k Hk]. exists k. destruct (tk_items _ _ _ T k i Hk) as (live' & st' & E1 & E2 & E3 & _).
    rewrite Hr in E1. injection E1 as <- <-. done.
  - apply not_started in Hi; [|by eexists]. rewrite Hi in Hr. injection Hr as <- <-. done.
Qed.

Lemma phase_run item s :
  exists s1, applyMessagePhaseStopReason item s = ([], s1, Ok ()) /\ rp_blocks s1 = rp_blocks s /\ rp_slots s1 = rp_slots s /\
    rp_reasoning s1 = rp_reasoning s /\ mt_finished (rp_meta s1) = mt_finished (rp_meta s).
Proof. unfold applyMessagePhaseStopReason, when_m. destruct item; try (by eexists). case_bool_decide; by eexists. Qed.

Lemma finished_reasoning item t b evs b' :
  finish_item num_to_string partial_parse item t 0 b = Ok (Some (evs, b')) ->
  match item with
  | ReasoningItem id _ _ _ raw => exists thinking r, b' = new_stream_block (BThinking thinking (Some (JSON_stringify num_to_string raw)) r)
  | _ => True
  end.
Proof. destruct item, t; try done. cbn. destruct (sb_block b); try done. intros [= _ <-]. by eexists _, _. Qed.

(** The end of an item that has started. *)
Lemma done_step es out s i item live t b evs b' :
  tracks es out s -> run_item (of_item i es) = Some (live, Running t b) ->
  finish_item num_to_string partial_parse item t 0 b = Ok (Some (evs, b')) ->
  exists out' s', item_done_m num_to_string partial_parse properties i item s = (out', s', Ok ()) /\
    tracks (es ++ [ItemDone i item]) (out ++ out') s'.
Proof.
  intros T E Ef. destruct (tracks_position _ _ _ _ _ _ T E ltac:(done)) as (k & Hk & Hb & Hs). cbn in Hb, Hs.
  destruct (phase_run item s) as (s1 & Hp & H1 & H2 & H3 & H4). rewrite <- H1 in Hb. rewrite <- H2 in Hs.
  pose proof (finished_reasoning _ _ _ _ _ Ef) as Hre.
  set (s2 := close_slot i (match item with ReasoningItem id _ _ _ _ => keep_reasoning id k | _ => fun s => s end (put_block k b' s1))).
  exists (map (move (Z.of_nat k)) evs), s2. split.
  - unfold item_done_m. unfold bind_m at 1. rewrite Hp. unfold bind_m at 1, state_m at 1. rewrite Hs.
    rewrite bind_ret_m. unfold bind_m at 1, state_m at 1. rewrite Hs, Hb. unfold bind_m at 1, lift_m. rewrite finish_item_moved, Ef.
    destruct item; unfold bind_m, modify_m, ret; cbn -[push_all map]; rewrite push_all_run; by rewrite app_nil_r.
  - eapply (tracks_update es out s _ i k live (Running t b) (Finished b') evs); try done.
    + unfold run_step. cbn [snd fst]. by rewrite Ef.
    + unfold s2. destruct item; cbn; by rewrite H1.
    + unfold s2. destruct item; cbn; apply lookup_delete_eq.
    + intros i' Hi'. unfold s2. destruct item; cbn; by rewrite lookup_delete_ne, H2.
    + unfold s2. destruct item; cbn; done.
    + intros id k' Hid. unfold s2 in Hid. destruct item as [id' su co en raw| | | |]; cbn in Hid; rewrite H3 in Hid; try (by left).
      destruct (decide (id' = id)) as [->|Hne]; [|rewrite lookup_insert_ne in Hid by done; by left].
      rewrite lookup_insert_eq in Hid. injection Hid as <-. right. split; [done|]. destruct Hre as (th & rd & ->).
      eexists su, co, en, raw, _, th, rd. rewrite of_item_snoc, bool_decide_true, run_item_snoc, E by done. cbn [mbind option_bind].
      unfold run_step. cbn [snd fst]. rewrite Ef. split; [done|]. apply elem_of_app. right. left.
    + intros id Hid. unfold s2. destruct item as [id' su co en raw| | | |]; cbn; rewrite H3; try done.
      destruct (decide (id' = id)) as [->|Hne]; [rewrite lookup_insert_eq; by eexists|by rewrite lookup_insert_ne].
    + intros i' id su co en raw [= <- ->]. unfold s2. cbn. rewrite H3, lookup_insert_eq. by eexists.
Qed.

Lemma body_step es out s e :
  tracks es out s -> body_event e -> (forall i, is_Some (run_item (of_item i (es ++ [e])))) ->
  exists out' s', handle_event e s = (out', s', Ok ()) /\ tracks (es ++ [e]) (out ++ out') s'.
Proof.
  intros T He Hrun. destruct e as [id|i item|i e|i item|r|c t|st er re|]; try done; cbn [on_response_event].
  - eexists [], _. split; [done|]. rewrite app_nil_r. by eapply tracks_idle.
  - destruct (Hrun i) as [[live st] Hr]. rewrite of_item_snoc, bool_decide_true, run_item_snoc in Hr by done.
    destruct (run_item (of_item i es)) as [[live0 st0]|] eqn:E; [|done]. cbn in Hr. unfold run_step in Hr. cbn [snd fst] in Hr.
    destruct st0; try done. apply run_started in E. destruct (new_slot properties item) as [[[t b] start]|] eqn:En; [|done].
    unfold createSlot. rewrite En.
    destruct (phase_run item s) as (s1 & Hp & H1 & H2 & H3 & H4). unfold bind_m at 1. rewrite Hp. cbn. eexists _, _. split; [done|].
    rewrite H1. eapply tracks_start; cbn; try done; congruence.
  - destruct (Hrun i) as [[live' st'] Hr]. rewrite of_item_snoc, bool_decide_true, run_item_snoc in Hr by done.
    destruct (run_item (of_item i es)) as [[live st]|] eqn:E; [|done]. cbn in Hr.
    assert (exists t b, st = Running t b) as (t & b & ->) by (destruct st; try done; by eexists _, _).
    destruct (tracks_position _ _ _ _ _ _ T E ltac:(done)) as (k & Hk & Hb & Hs). cbn in Hb, Hs.
    unfold item_event_m, bind_m, state_m. rewrite Hs, Hb. unfold run_step in Hr. cbn [snd fst] in Hr. case_bool_decide as Ht.
    + unfold lift_m. rewrite item_event_moved. destruct (on_item_event partial_parse e 0 b) as [[evs b']|] eqn:Ee; [|done]. injection Hr as <- <-.
      cbn [bind fst snd modify_m]. rewrite push_all_run. eexists _, _. split; [done|]. cbn [app].
      eapply (tracks_update es out s _ i k live (Running t b) (Running t b') evs); try done.
      * unfold run_step. cbn [snd fst]. by rewrite bool_decide_true, Ee.
      * intros id k' Hid. by left.
    + injection Hr as <- <-. eexists [], _. split; [done|]. rewrite app_nil_r.
      pose proof (tracks_update es out s (ItemEvent i e) i k live (Running t b) (Running t b) [] s T eq_refl eq_refl Hk E) as Hu.
      cbn [map flat_map] in Hu. rewrite !app_nil_r in Hu. apply Hu; try done.
      * unfold run_step. cbn [snd fst]. by rewrite bool_decide_false.
      * cbn. symmetry. by apply list_insert_id.
      * intros id k' Hid. by left.
  - destruct (Hrun i) as [[live' st'] Hr]. rewrite of_item_snoc, bool_decide_true, run_item_snoc in Hr by done.
    destruct (run_item (of_item i es)) as [[live st]|] eqn:E; [|done]. cbn in Hr. unfold run_step in Hr. cbn [snd fst] in Hr.
    destruct st as [|t b|]; try done. destruct (finish_item _ _ item t 0 b) as [[[evs b']|]|] eqn:Ef; try done. by eapply done_step.
  - eexists [], _. split; [done|]. rewrite app_nil_r. by eapply tracks_idle.
Qed.

Lemma body_tracks es :
  Forall body_event es -> (forall i, is_Some (run_item (of_item i es))) ->
  exists out s, each_m handle_event es resp_init = (out, s, Ok ()) /\ tracks es out s.
Proof.
  induction es as [|e es IH] using rev_ind; intros HF Hrun.
  - eexists _, _. split; [done|]. split; try (done || constructor). intros i id su co en raw []%elem_of_nil.
  - apply Forall_app in HF as [HF He]. apply Forall_cons in He as [He _]. destruct IH as (out & s & Hs & T); [done| |].
    { intros i. destruct (Hrun i) as [st Hr]. rewrite of_item_snoc in Hr. destruct (bool_decide _); [|rewrite app_nil_r in Hr; by eexists].
      rewrite run_item_snoc in Hr. destruct (run_item (of_item i es)); [by eexists|done]. }
    destruct (body_step es out s e T He Hrun) as (out' & s' & Hs' & T'). eexists _, _. split; [|exact T']. by eapply each_snoc.
Qed.

(** ** What an item says *)

(** An item with the events between its start and its end. *)
Record item_log := ItemLog { il_added : output_item; il_events : list item_event; il_done : output_item }.

Definition log_events (i : Z) (l : item_log) : list response_event :=
  ItemAdded i (il_added l) :: map (ItemEvent i) (il_events l) ++ [ItemDone i (il_done l)].

Definition item_property (name : jstr) : jstr := nullish (properties !! name) (js "input").

Definition arguments_event (e : item_event) : Prop := match e with ArgumentsDelta _ | ArgumentsDone _ => True | _ => False end.

(** The item that ends is the one that started; the input of a custom tool grows. *)
Definition log_ok (l : item_log) : Prop :=
  match il_added l, il_done l with
  | ReasoningItem _ _ _ _ _, ReasoningItem _ _ _ _ _ => Forall (fun e => event_slot e = ThinkingSlot) (il_events l)
  | MessageItem _ _ _, MessageItem _ _ _ => Forall (fun e => event_slot e = TextSlot) (il_events l)
  | FunctionItem _ _ _ _ _, FunctionItem _ _ _ _ _ => Forall arguments_event (il_events l)
  | CustomItem _ _ name given _, CustomItem _ _ _ (Some input) _ =>
      unit_range (item_property name) /\ unit_range input /\
      exists ds, il_events l = map InputDelta ds ++ [InputDone input] /\ starts_with (nullish given [] ++ concat ds) input = true
  | _, _ => False
  end.

Definition thinking_said (e : item_event) : jstr :=
  match e with SummaryDelta d | ReasoningDelta d => d | SummaryPartDone => [LF; LF] | _ => [] end.
Definition text_said (e : item_event) : jstr := match e with TextDelta d | RefusalDelta d => d | _ => [] end.

(** The arguments so far and what was streamed of them. *)
Definition arguments_step (p : jstr * jstr) (e : item_event) : jstr * jstr :=
  match e with
  | ArgumentsDelta d => (p.1 ++ d, p.2 ++ d)
  | ArgumentsDone a => (a, p.2 ++ if starts_with p.1 a then drop (length p.1) a else [])
  | _ => p
  end.

Definition arguments_said (given : option jstr) (es : list item_event) : jstr * jstr :=
  foldl arguments_step (nullish given [], []) es.

(** The block of an item. *)
Definition said_item (l : item_log) : block :=
  match il_added l, il_done l with
  | _, ReasoningItem _ summary content _ raw =>
      let summaryText := joined [LF; LF] summary in
      let contentText := joined [LF; LF] content in
      BThinking (if truthy summaryText then summaryText else if truthy contentText then contentText
                 else concat (map thinking_said (il_events l))) (Some (JSON_stringify num_to_string raw)) false
  | _, MessageItem id texts phase => BText (joined [] texts) (Some (encodeTextSignatureV1 num_to_string id phase))
  | FunctionItem id call_id name given ns, FunctionItem _ _ _ arguments ns' =>
      let partial := (arguments_said given (il_events l)).1 in
      let final := if truthy_opt arguments then nullish arguments [] else if truthy partial then partial else js "{}" in
      BToolCall (ToolCall (item_id call_id id) name (parseStreamingJson partial_parse (Some final)) None (or_option ns' ns))
  | CustomItem id call_id name _ ns, CustomItem _ _ _ input ns' =>
      BToolCall (ToolCall (item_id call_id id) name (JObj [(item_property name, JStr (nullish input []))]) None (or_option ns' ns))
  | _, _ => BText [] None
  end.

(** What is streamed for it: the text as it comes, and for a custom tool the JSON of
    its arguments. *)
Definition said_live (l : item_log) (live : jstr) : Prop :=
  match il_added l, il_done l with
  | _, ReasoningItem _ _ _ _ _ => live = concat (map thinking_said (il_events l))
  | _, MessageItem _ _ _ => live = concat (map text_said (il_events l))
  | FunctionItem _ _ _ given _, _ => live = (arguments_said given (il_events l)).2
  | CustomItem _ _ name _ _, CustomItem _ _ _ input _ =>
      JSON_parse live = Some (JObj [(item_property name, JStr (nullish input []))])
  | _, _ => True
  end.

Lemma run_item_log i l :
  run_item (log_events i l) =
  match new_slot properties (il_added l) with
  | Some (t, b, _) => st ← run_from ([], Running t b) (map (ItemEvent i) (il_events l)); run_step st (ItemDone i (il_done l))
  | None => None
  end.
Proof.
  unfold run_item, log_events. cbn [run_from]. unfold run_step at 1. cbn [snd fst].
  destruct (new_slot properties (il_added l)) as [[[t b] start]|]; [|done]. cbn [mbind option_bind]. apply run_from_snoc.
Qed.

Lemma run_thinking i es live th :
  Forall (fun e => event_slot e = ThinkingSlot) es ->
  run_from (live, Running ThinkingSlot (new_stream_block (BThinking th None false))) (map (ItemEvent i) es) =
  Some (live ++ concat (map thinking_said es), Running ThinkingSlot (new_stream_block (BThinking (th ++ concat (map thinking_said es)) None false))).
Proof.
  intros HF. revert live th. induction HF as [|e es He HF IH]; intros live th; cbn [map run_from concat]; [by rewrite !app_nil_r|].
  rewrite !app_assoc. destruct e; try done; unfold run_step; cbn; rewrite ?app_nil_r; apply IH.
Qed.

Lemma run_text i es live t :
  Forall (fun e => event_slot e = TextSlot) es ->
  run_from (live, Running TextSlot (new_stream_block (BText t None))) (map (ItemEvent i) es) =
  Some (live ++ concat (map text_said es), Running TextSlot (new_stream_block (BText (t ++ concat (map text_said es)) None))).
Proof.
  intros HF. revert live t. induction HF as [|e es He HF IH]; intros live t; cbn [map run_from concat]; [by rewrite !app_nil_r|].
  rewrite !app_assoc. destruct e; try done; unfold run_step; cbn; rewrite ?app_nil_r; apply IH.
Qed.

Lemma run_arguments i es live p id name v ns :
  Forall arguments_event es ->
  exists v', run_from (live, Running ToolSlot (StreamBlock (BToolCall (ToolCall id name v None ns)) (Some p) None None)) (map (ItemEvent i) es) =
    Some ((foldl arguments_step (p, live) es).2,
          Running ToolSlot (StreamBlock (BToolCall (ToolCall id name v' None ns)) (Some (foldl arguments_step (p, live) es).1) None None)).
Proof.
  intros HF. revert live p v. induction HF as [|e es He HF IH]; intros live p v; cbn [map run_from foldl]; [by eexists|].
  destruct e; try done; unfold run_step; cbn -[starts_with drop truthy]; cbn [arguments_step fst snd].
  - rewrite app_nil_r. apply IH.
  - destruct (starts_with p arguments) eqn:E; cbn [andb flat_map]; [|rewrite !app_nil_r; apply IH].
    destruct (truthy (drop (length p) arguments)) eqn:Et; cbn [flat_map said]; [rewrite app_nil_r; apply IH|].
    destruct (drop (length p) arguments); [|done]. rewrite !app_nil_r. apply IH.
Qed.

(** A custom tool whose input is [cur] so far. *)
Definition custom_block (id name property cur : jstr) (ns : option jstr) (b : grammar_buffer) : stream_block :=
  StreamBlock (BToolCall (ToolCall id name (JObj [(property, JStr cur)]) None ns)) None (Some (property, b)) None.

Lemma custom_input id name property cur ns b : getCustomToolCallInput (custom_block id name property cur ns b) = cur.
Proof. unfold getCustomToolCallInput, custom_block. cbn. by rewrite streq_refl. Qed.

Lemma append_custom id name property cur ns b next close d b' :
  appendGrammarToolInputJsonDelta b property next close = Ok (d, b') ->
  appendCustomToolCallInput (custom_block id name property cur ns b) next close = Ok (d, custom_block id name property next ns b').
Proof. unfold appendCustomToolCallInput, custom_block. cbn. by intros ->. Qed.

Lemma append_open b property next close :
  g_closed b = false -> starts_with (g_input b) next = true ->
  exists d b', appendGrammarToolInputJsonDelta b property next close = Ok (d, b') /\ g_closed b' = close /\
    g_input b' = next.
Proof.
  intros Hc Hs. unfold appendGrammarToolInputJsonDelta. rewrite Hc, Hs. cbn [negb].
  destruct (negb close && negb (truthy (drop (length (g_input b)) next))) eqn:E; [|by eexists _, _].
  eexists None, b. bool_to_prop. destruct close; [done|]. split_and!; [done|done|].
  apply starts_with_spec in Hs as [r ->]. rewrite drop_app_length in *. destruct r; [by rewrite app_nil_r|done].
Qed.

(** The streamed text of a custom tool is that of [grammar_run]. *)
Lemma run_custom i id name property ns input ds live cur b :
  g_closed b = false -> starts_with (g_input b) cur = true -> starts_with (cur ++ concat ds) input = true ->
  exists snaps t b', grammar_run b property (snaps ++ [(input, true)]) = Ok (t, b') /\ g_closed b' = true /\ g_input b' = input /\
    run_from (live, Running ToolSlot (custom_block id name property cur ns b)) (map (ItemEvent i) (map InputDelta ds ++ [InputDone input])) =
    Some (live ++ t, Running ToolSlot (custom_block id name property input ns b')).
Proof.
  revert live cur b. induction ds as [|d ds IH]; intros live cur b Hc Hg Hi; cbn [map concat app] in *.
  - rewrite app_nil_r in Hi.
    assert (Hgi : starts_with (g_input b) input = true).
    { apply starts_with_spec in Hg as [r1 ->], Hi as [r2 ->]. apply starts_with_spec. exists (r1 ++ r2). by rewrite app_assoc. }
    destruct (append_open b property input true Hc Hgi) as (o & b' & Ha & H1 & H2). exists [], (nullish o []), b'.
    cbn [app grammar_run]. rewrite Ha. cbn [bind fst snd]. rewrite app_nil_r. split_and!; [done|done|done|].
    cbn [run_from]. unfold run_step. cbn [snd fst]. rewrite bool_decide_true by done. cbn [on_item_event custom_block sb_custom].
    rewrite (append_custom _ _ _ _ _ _ _ _ _ _ Ha). cbn [bind fst snd mbind option_bind run_from]. by destruct o; cbn; rewrite ?app_nil_r.
  - assert (Hgi : starts_with (g_input b) (cur ++ d) = true).
    { apply starts_with_spec in Hg as [r1 ->]. apply starts_with_spec. exists (r1 ++ d). by rewrite app_assoc. }
    destruct (append_open b property (cur ++ d) false Hc Hgi) as (o & b1 & Ha & H1 & H2).
    destruct (IH (live ++ nullish o []) (cur ++ d) b1 H1) as (snaps & t & b' & Hr & H3 & H4 & Hrun).
    { rewrite H2. apply starts_with_spec. exists []. by rewrite app_nil_r. }
    { by rewrite <- app_assoc. }
    exists ((cur ++ d, false) :: snaps), (nullish o [] ++ t), b'. cbn [app grammar_run]. rewrite Ha. cbn [bind fst snd]. rewrite Hr. cbn [bind fst snd].
    split_and!; [done|done|done|]. cbn [run_from]. unfold run_step at 1. cbn [snd fst]. rewrite bool_decide_true by done.
    cbn [on_item_event custom_block sb_custom]. change (StreamBlock _ _ _ _) with (custom_block id name property cur ns b).
    rewrite custom_input, (append_custom _ _ _ _ _ _ _ _ _ _ Ha). cbn [bind fst snd mbind option_bind].
    rewrite app_assoc, <- Hrun. by destruct o; cbn [pushToolCallDelta flat_map said nullish]; rewrite ?app_nil_r.
Qed.

Lemma log_run i l :
  log_ok l -> exists live, run_item (log_events i l) = Some (live, Finished (new_stream_block (said_item l))) /\ said_live l live.
Proof.
  destruct l as [added es done]. unfold log_ok. cbn [il_added il_events il_done]. rewrite run_item_log. cbn [il_added il_events il_done].
  unfold said_item, said_live. cbn [il_added il_events il_done].
  destruct added as [i1 s1 c1 e1 r1|i1 t1 p1|id call_id name given ns|id call_id name given ns|],
    done as [did su co en raw|mid texts phase|i2 c2 n2 args ns'|i2 c2 n2 [input|] ns'|];
    try done; cbn [new_slot]; intros H.
  - rewrite run_thinking by done. cbn [mbind option_bind app]. unfold run_step. cbn -[concat truthy]. rewrite app_nil_r. by eexists.
  - rewrite run_text by done. cbn [mbind option_bind app]. unfold run_step. cbn -[concat truthy]. rewrite app_nil_r. by eexists.
  - destruct (run_arguments i es [] (nullish given []) (item_id call_id id) name (JObj []) ns H) as [v' ->]. cbn [mbind option_bind].
    fold (arguments_said given es). unfold run_step. cbn -[truthy]. rewrite app_nil_r. eexists. split; [|done]. by destruct ns'.
  - destruct H as (Hp & Hi & ds & -> & Hs). fold (item_property name).
    change (StreamBlock _ _ _ _) with (custom_block (item_id call_id id) name (item_property name) (nullish given []) ns buffer_init).
    destruct (run_custom i (item_id call_id id) name (item_property name) ns input ds [] (nullish given []) buffer_init) as (snaps & t & b' & Hr & H1 & H2 & ->);
      [done|done|done|]. cbn [mbind option_bind app]. unfold run_step. cbn [snd fst finish_item custom_block sb_block sb_custom nullish].
    assert (Ha : appendGrammarToolInputJsonDelta b' (item_property name) input true = Ok (None, b')).
    { unfold appendGrammarToolInputJsonDelta. rewrite H1, H2. cbn [andb]. by rewrite streq_refl. }
    rewrite (append_custom _ _ _ _ _ _ _ _ _ _ Ha). cbn [bind fst snd pushToolCallDelta app flat_map said]. rewrite app_nil_r.
    exists t. split; [by destruct ns'|]. eapply grammar_stream_correct; [exact Hp|exact Hi| |exact Hr]. by rewrite last_snoc.
Qed.

(** ** The end of a response *)

Definition encrypted_of (raw : json) : option json := get (js "encrypted_content") raw.

Lemma add_encrypted_known e thinking raw rd :
  printable num_to_string raw -> truthy_json (encrypted_of raw) = true ->
  let b := new_stream_block (BThinking thinking (Some (JSON_stringify num_to_string raw)) rd) in
  add_encrypted num_to_string syntax_error e b = Ok b.
Proof.
  intros Hp He. unfold add_encrypted. cbn [sb_block new_stream_block]. destruct (truthy _); [|done]. cbn [negb].
  rewrite json_roundtrip by done. unfold encrypted_of in He. by rewrite He.
Qed.

(** Encrypted content that only comes at the end is added to the signature, and can
    be read from it. *)
Lemma add_encrypted_sets e thinking fs rd :
  printable num_to_string (JObj fs) -> truthy_json (encrypted_of (JObj fs)) = false ->
  add_encrypted num_to_string syntax_error e (new_stream_block (BThinking thinking (Some (JSON_stringify num_to_string (JObj fs))) rd)) =
  Ok (new_stream_block (BThinking thinking (Some (JSON_stringify num_to_string (JObj (set_field (js "encrypted_content") (JStr e) fs)))) rd)) /\
  encrypted_of (JObj (set_field (js "encrypted_content") (JStr e) fs)) = Some (JStr e).
Proof.
  intros Hp He. split.
  - unfold add_encrypted. cbn [sb_block new_stream_block]. cbn [JSON_stringify]. change (truthy (_ ++ _)) with true. cbn [negb].
    pose proof (json_roundtrip num_to_string (JObj fs) Hp) as Hj. cbn [JSON_stringify] in Hj. rewrite Hj. unfold encrypted_of in He. by rewrite He.
  - apply lookup_set_field_eq.
Qed.

(** The end of the response has no encrypted content that its items did not have. *)
Definition nothing_new (es : list response_event) (r : response) : Prop :=
  forall id su co e raw, ReasoningItem id su co (Some e) raw ∈ re_output r -> truthy e = true ->
  forall i su' co' e' raw', ItemDone i (ReasoningItem id su' co' e' raw') ∈ es ->
    printable num_to_string raw' /\ truthy_json (encrypted_of raw') = true.

Lemma backfill_nothing es out s r :
  tracks es out s -> nothing_new es r ->
  forall s', rp_blocks s' = rp_blocks s -> rp_reasoning s' = rp_reasoning s ->
  backfillReasoningSignatures num_to_string syntax_error (re_output r) s' = ([], s', Ok ()).
Proof.
  intros T Hn s' Hb Hre. unfold backfillReasoningSignatures.
  assert (H : forall items, (forall x, x ∈ items -> x ∈ re_output r) ->
    each_m (backfill_item num_to_string syntax_error) items s' = ([], s', Ok ())); [|by apply H].
  induction items as [|item items IH]; intros Hin; [done|]. cbn [each_m]. unfold bind_m at 1.
  assert (Hs : backfill_item num_to_string syntax_error item s' = ([], s', Ok ())).
  { destruct item as [id su co [e|] raw| | | |]; try done. cbn [backfill_item]. destruct (truthy e) eqn:Et; [|done]. cbn [negb].
    unfold bind_m, state_m. destruct (rp_reasoning s' !! id) as [k|] eqn:Ek; [|done]. rewrite Hre in Ek.
    destruct (tk_reasoning _ _ _ T id k Ek) as (i & Hk & su' & co' & e' & raw' & lv & th & rd & Hrun & Hd).
    destruct (tk_items _ _ _ T k i Hk) as (live & st & E1 & E2 & _). rewrite Hrun in E1. injection E1 as <- <-. cbn [block_of] in E2.
    rewrite Hb, E2. destruct (Hn id su co e raw (Hin _ ltac:(left)) Et i su' co' e' raw' Hd) as [H1 H2].
    unfold lift_m. rewrite add_encrypted_known by done. cbn [app modify_m]. unfold put_block.
    rewrite list_insert_id by (by rewrite Hb). by destruct s'. }
  rewrite Hs, IH; [done|]. intros x Hx. apply Hin. by right.
Qed.

(** *** Encrypted content that comes at the end *)

Lemma set_field_after k v (a b : list (jstr * json)) :
  Forall (fun kv => streq kv.1 k = false) a -> set_field k v (a ++ b) = a ++ set_field k v b.
Proof. induction 1 as [|[k' w] a Hk _ IH]; [done|]. cbn in *. by rewrite Hk, IH. Qed.

(** A property that is not an index keeps the order. *)
Lemma own_order_set k v (fs : list (jstr * json)) :
  is_index_key k = false -> own_order (set_field k v fs) = set_field k v (own_order fs).
Proof.
  intros Hk. unfold own_order. rewrite set_field_after.
  - f_equal; [f_equal|]; (induction fs as [|[k' w] fs IH]; cbn [set_field List.filter fst]; [by rewrite Hk|]);
      (destruct (streq k' k) eqn:E; cbn [List.filter fst]).
    + apply streq_true in E as ->. by rewrite Hk.
    + by rewrite IH.
    + apply streq_true in E as ->. rewrite Hk. cbn [negb set_field]. by rewrite streq_refl.
    + destruct (negb (is_index_key k')); cbn [set_field]; rewrite ?E; by rewrite IH.
  - apply Forall_forall. intros [k' w] Hin. rewrite sort_by_perm, list_elem_of_In, filter_In in Hin. destruct Hin as [_ Hi].
    cbn in *. apply streq_false. intros ->. congruence.
Qed.

Lemma set_field_keys k v (fs : list (jstr * json)) :
  map fst (set_field k v fs) = if decide (k ∈ map fst fs) then map fst fs else map fst fs ++ [k].
Proof.
  induction fs as [|[k' w] fs IH]; [done|]. cbn [set_field map fst]. destruct (streq k' k) eqn:E.
  - apply streq_true in E as ->. rewrite decide_True by (by left). done.
  - apply streq_false in E. cbn [map fst]. rewrite IH. destruct (decide (k ∈ map fst fs)) as [Hd|Hd].
    + rewrite decide_True by (by right). done.
    + rewrite decide_False; [done|]. intros [->|?]%elem_of_cons; done.
Qed.

Lemma printable_set k v fs :
  is_index_key k = false -> unit_range k -> printable num_to_string v -> printable num_to_string (JObj fs) ->
  printable num_to_string (JObj (set_field k v fs)).
Proof.
  intros Hk Hu Hv Hp. inversion Hp as [| | | | |? Hn Ho HF]; subst. constructor.
  - rewrite set_field_keys. case_decide as Hd; [done|]. apply NoDup_app. split_and!; [done| |apply NoDup_singleton].
    intros x Hx Hy. apply list_elem_of_singleton in Hy as ->. by apply Hd.
  - by rewrite own_order_set, Ho.
  - clear Hn Ho Hp. induction HF as [|[k' w] fs [H1 H2] HF IH]; cbn [set_field]; [by repeat constructor|].
    destruct (streq k' k); by repeat constructor.
Qed.

(** The encrypted content that the end of the response has for a reasoning item. *)
Definition content_for (id : jstr) (item : output_item) : option jstr :=
  match item with
  | ReasoningItem id' _ _ (Some e) _ => if streq id' id && truthy e then Some e else None
  | _ => None
  end.

Definition later_content (items : list output_item) (id : jstr) : option jstr := head (omap (content_for id) items).

(** A reasoning item with the encrypted content it lacks. *)
Definition completed (items : list output_item) (id : jstr) (raw : json) : json :=
  match raw, later_content items id with
  | JObj fs, Some e => if truthy_json (encrypted_of raw) then raw else JObj (set_field (js "encrypted_content") (JStr e) fs)
  | _, _ => raw
  end.

Definition completed_item (items : list output_item) (item : output_item) : output_item :=
  match item with ReasoningItem id su co en raw => ReasoningItem id su co en (completed items id raw) | _ => item end.

Definition completed_log (items : list output_item) (l : item_log) : item_log :=
  ItemLog (il_added l) (il_events l) (completed_item items (il_done l)).

Lemma content_for_truthy id item e : content_for id item = Some e -> truthy e = true.
Proof. destruct item as [id' ? ? [e'|] ?| | | |]; try done. cbn. destruct (streq id' id); [|done]. by destruct e'; [|intros [= <-]]. Qed.

Lemma later_truthy items id e : later_content items id = Some e -> truthy e = true.
Proof.
  unfold later_content. intros H. destruct (omap (content_for id) items) as [|x l] eqn:E; [done|]. injection H as ->.
  assert (Hin : e ∈ omap (content_for id) items) by (rewrite E; left).
  apply list_elem_of_omap in Hin as (item & _ & Hi). by eapply content_for_truthy.
Qed.

(** One item more: it completes what the items before it left open. *)
Lemma completed_snoc items item id fs :
  completed (items ++ [item]) id (JObj fs) =
  match completed items id (JObj fs), content_for id item with
  | JObj fs', Some e =>
      if truthy_json (encrypted_of (completed items id (JObj fs))) then completed items id (JObj fs)
      else JObj (set_field (js "encrypted_content") (JStr e) fs')
  | raw, _ => raw
  end.
Proof.
  unfold completed, later_content. rewrite omap_app. cbn [omap list_omap].
  destruct (omap (content_for id) items) as [|e l] eqn:E; cbn [app head].
  - destruct (content_for id item) as [e|]; [|done]. cbn [head]. done.
  - destruct (truthy_json (encrypted_of (JObj fs))) eqn:Et; [rewrite Et; by destruct (content_for id item)|].
    assert (He : truthy e = true) by (apply (later_truthy items id); unfold later_content; by rewrite E).
    destruct (content_for id item); [|done]. unfold encrypted_of. cbn [get]. rewrite lookup_set_field_eq. cbn [truthy_json]. by rewrite He.
Qed.

Lemma completed_object items id fs : exists fs', completed items id (JObj fs) = JObj fs'.
Proof. unfold completed. destruct (later_content items id); [|by eexists]. destruct (truthy_json _); by eexists. Qed.

(** The encrypted contents are strings. *)
Definition plain_contents (items : list output_item) : Prop :=
  forall id su co e raw, ReasoningItem id su co (Some e) raw ∈ items -> unit_range e.

Lemma completed_printable items id raw :
  plain_contents items -> printable num_to_string raw -> printable num_to_string (completed items id raw).
Proof.
  intros Hu Hp. unfold completed. destruct raw as [| | | | |fs]; try done. destruct (later_content items id) as [e|] eqn:El; [|done].
  destruct (truthy_json _); [done|]. apply printable_set; [reflexivity|apply js_range| |done]. constructor.
  unfold later_content in El. destruct (omap (content_for id) items) as [|x l] eqn:E; [done|]. injection El as ->.
  assert (Hin : e ∈ omap (content_for id) items) by (rewrite E; left).
  apply list_elem_of_omap in Hin as (item & Hi & Hc). destruct item as [id' su co [e'|] raw'| | | |]; try done. cbn in Hc.
  destruct (_ && _); [|done]. injection Hc as ->. by eapply Hu.
Qed.

(** The stop reason of a response that ends well. *)
Definition ended_well (r : response) (stop : stop_reason) : Prop :=
  mapStopReason3 (re_status r) (re_incompleteReason r) = Ok (stop, None) /\ stop ≠ Error.

Lemma ended_well_cases r stop : ended_well r stop -> stop = Stop \/ stop = Length.
Proof.
  intros [H Hne]. unfold mapStopReason3 in H. destruct (re_status r) as [s|]; [|injection H as <-; by left].
  repeat (case_match; simplify_eq; try (by auto)).
Qed.

(** The events of a response: each item has its own, from its start to its end, in
    any interleaving. *)
Definition well_told (es : list response_event) (logs : Z -> item_log) : Prop :=
  Forall body_event es /\
  (forall i, i ∈ item_order es -> of_item i es = log_events i (logs i) /\ log_ok (logs i)) /\
  (forall i, i ∉ item_order es -> of_item i es = []).

Definition stop_with (content : list block) (stop : stop_reason) : stop_reason :=
  if existsb (fun b => match b with BToolCall _ => true | _ => false end) content && bool_decide (stop = Stop) then ToolUse else stop.

Lemma existsb_map {A B} (f : B -> bool) (g : A -> B) l : existsb f (map g l) = existsb (fun x => f (g x)) l.
Proof. induction l as [|x l IH]; [done|]. cbn. by rewrite IH. Qed.

Lemma told_tracks es logs :
  well_told es logs -> exists out s, each_m handle_event es resp_init = (out, s, Ok ()) /\ tracks es out s /\
    map sb_block (rp_blocks s) = map (fun i => said_item (logs i)) (item_order es) /\
    forall k i, item_order es !! k = Some i -> said_live (logs i) (deltas (Z.of_nat k) out).
Proof.
  intros (HF & Hin & Hout). destruct (body_tracks es HF) as (out & s & Hs & T).
  { intros i. destruct (decide (i ∈ item_order es)) as [Hi|Hi]; [|rewrite Hout by done; by eexists].
    destruct (Hin i Hi) as [-> Hok]. destruct (log_run i _ Hok) as (live & -> & _). by eexists. }
  exists out, s. split_and!; [done|done| |].
  - apply list_eq. intros k. rewrite !list_lookup_fmap. destruct (item_order es !! k) as [i|] eqn:Hk.
    + destruct (tk_items _ _ _ T k i Hk) as (live & st & E1 & E2 & _). destruct (Hin i) as [E Hok]; [by eapply list_elem_of_lookup_2|].
      destruct (log_run i _ Hok) as (live' & Hr & _). rewrite E, Hr in E1. injection E1 as <- <-. by rewrite E2.
    + apply lookup_ge_None in Hk. rewrite <- (tk_length _ _ _ T) in Hk. apply lookup_ge_None in Hk. by rewrite Hk.
  - intros k i Hk. destruct (tk_items _ _ _ T k i Hk) as (live & st & E1 & _ & _ & E4). destruct (Hin i) as [E Hok]; [by eapply list_elem_of_lookup_2|].
    destruct (log_run i _ Hok) as (live' & Hr & Hl). rewrite E, Hr in E1. injection E1 as <- <-. by rewrite E4.
Qed.

Context (api provider_name : jstr) (now : Z).
#[local] Abbreviation the_stream :=
  (response_stream num_to_string partial_parse syntax_error m properties tierPricing api provider_name now).

(** The stream of a response that is well told and ends well, given what becomes
    of the blocks at its end. *)
Lemma response_ends es r stop0 out s s1 content :
  each_m handle_event es resp_init = (out, s, Ok ()) -> ended_well r stop0 ->
  backfillReasoningSignatures num_to_string syntax_error (re_output r) (put_meta finished_meta s) = ([], s1, Ok ()) ->
  rp_meta s1 = finished_meta (rp_meta s) -> map sb_block (rp_blocks s1) = content ->
  exists s2, the_stream (Ok ()) (es ++ [ResponseEnded r]) (Ok ()) false =
      (EvStart :: out ++ [EvDone (stop_with content stop0) (response_message m api now s2 (stop_with content stop0) None)],
       response_message m api now s2 (stop_with content stop0) None) /\
    map sb_block (rp_blocks s2) = content /\ (exists mt, rp_meta s2 = with_outcome (stop_with content stop0) None (with_response m tierPricing r mt)).
Proof.
  intros Hs He Hbf Hm Hc.
  set (s2 := put_meta (with_outcome (stop_with content stop0) None) (put_meta (with_response m tierPricing r) s1)).
  assert (Hend : handle_event (ResponseEnded r) s = ([], s2, Ok ())).
  { cbn [on_response_event]. unfold finalizeResponse2. unfold bind_m at 1, modify_m at 1.
    unfold bind_m at 1. rewrite Hbf. unfold bind_m, modify_m, lift_m. destruct He as [-> _]. cbn [app fst snd]. unfold s2. repeat f_equal.
    unfold stop_with. rewrite <- Hc. cbn. by rewrite existsb_map. }
  exists s2. split_and!; [|done|by eexists].
  unfold response_stream, processResponsesStream.
  assert (Ha : each_m handle_event (es ++ [ResponseEnded r]) resp_init = (out ++ [], s2, Ok ())) by (by eapply each_snoc).
  assert (Hf : mt_finished (rp_meta s2) = true) by (cbn; by rewrite Hm).
  unfold bind_m at 1. rewrite Ha, app_nil_r. unfold bind_m, lift_m, state_m. rewrite Hf.
  unfold ret. rewrite !app_nil_r. unfold response_reason. cbn [rp_meta s2 put_meta with_outcome mt_stop mt_error].
  destruct (ended_well_cases _ _ He) as [-> | ->]; unfold stop_with; [|by rewrite andb_false_r].
  by destruct (existsb _ content).
Qed.

Lemma response_done es logs r stop0 :
  well_told es logs -> nothing_new es r -> ended_well r stop0 ->
  let content := map (fun i => said_item (logs i)) (item_order es) in
  exists out s, the_stream (Ok ()) (es ++ [ResponseEnded r]) (Ok ()) false =
      (EvStart :: out ++ [EvDone (stop_with content stop0) (response_message m api now s (stop_with content stop0) None)],
       response_message m api now s (stop_with content stop0) None) /\
    map sb_block (rp_blocks s) = content /\ (exists mt, rp_meta s = with_outcome (stop_with content stop0) None (with_response m tierPricing r mt)) /\
    forall k i, item_order es !! k = Some i -> said_live (logs i) (deltas (Z.of_nat k) out).
Proof.
  intros Hw Hn He content. destruct (told_tracks es logs Hw) as (out & s & Hs & T & Hc & Hl). exists out.
  destruct (response_ends es r stop0 out s (put_meta finished_meta s) content Hs He) as (s2 & H1 & H2 & H3); [|done|done|by exists s2].
  by eapply backfill_nothing.
Qed.

(** *** The end of a response completes its reasoning *)

Lemma told_done es logs i item : well_told es logs -> ItemDone i item ∈ es -> i ∈ item_order es /\ il_done (logs i) = item.
Proof.
  intros (_ & Hin & Hout) Hd.
  assert (Hof : ItemDone i item ∈ of_item i es).
  { apply list_elem_of_In, filter_In. split; [by apply list_elem_of_In|]. by apply bool_decide_eq_true. }
  destruct (decide (i ∈ item_order es)) as [Hi|Hi]; [|rewrite Hout in Hof by done; by apply elem_of_nil in Hof].
  split; [done|]. rewrite (proj1 (Hin i Hi)) in Hof. unfold log_events in Hof. apply elem_of_cons in Hof as [?|Hof]; [done|].
  apply elem_of_app in Hof as [Hof|Hof]; [apply list_elem_of_fmap in Hof as (? & ? & _); done|].
  apply list_elem_of_singleton in Hof. by injection Hof.
Qed.

Lemma told_ends es logs i : well_told es logs -> i ∈ item_order es -> ItemDone i (il_done (logs i)) ∈ es.
Proof.
  intros (_ & Hin & _) Hi. assert (Hof : ItemDone i (il_done (logs i)) ∈ of_item i es).
  { rewrite (proj1 (Hin i Hi)). unfold log_events. right. apply elem_of_app. right. left. }
  apply list_elem_of_In, filter_In in Hof as [Hof _]. by apply list_elem_of_In.
Qed.

(** Reasoning items have identifiers of their own and are objects. *)
Definition own_reasoning (es : list response_event) (logs : Z -> item_log) : Prop :=
  (forall i j id su co en raw su' co' en' raw', i ∈ item_order es -> j ∈ item_order es ->
     il_done (logs i) = ReasoningItem id su co en raw -> il_done (logs j) = ReasoningItem id su' co' en' raw' -> i = j) /\
  (forall i id su co en raw, i ∈ item_order es -> il_done (logs i) = ReasoningItem id su co en raw ->
     printable num_to_string raw /\ exists fs, raw = JObj fs).

(** The blocks after the items [items] of the end. *)
Definition blocks_after (es : list response_event) (logs : Z -> item_log) (items : list output_item) : list stream_block :=
  map (fun i => new_stream_block (said_item (completed_log items (logs i)))) (item_order es).

Lemma told_blocks es logs out s : well_told es logs -> tracks es out s -> rp_blocks s = blocks_after es logs [].
Proof.
  intros (HF & Hin & Hout) T. apply list_eq. intros k. unfold blocks_after. rewrite list_lookup_fmap.
  destruct (item_order es !! k) as [i|] eqn:Hk.
  - destruct (tk_items _ _ _ T k i Hk) as (live & st & E1 & E2 & _). destruct (Hin i) as [E Hok]; [by eapply list_elem_of_lookup_2|].
    destruct (log_run i _ Hok) as (live' & Hr & _). rewrite E, Hr in E1. injection E1 as <- <-. rewrite E2. cbn. do 2 f_equal.
    destruct (logs i) as [a ev d]. unfold completed_log. cbn [il_added il_events il_done].
    destruct d as [id su co en raw| | | |]; try done. cbn [completed_item]. do 2 f_equal. by destruct raw.
  - apply lookup_ge_None in Hk. rewrite <- (tk_length _ _ _ T) in Hk. by apply lookup_ge_None in Hk.
Qed.

(** Where the block of a reasoning item is. *)
Lemma kept_reasoning es logs out s i k id su co en raw :
  well_told es logs -> own_reasoning es logs -> tracks es out s -> item_order es !! k = Some i ->
  il_done (logs i) = ReasoningItem id su co en raw -> rp_reasoning s !! id = Some k.
Proof.
  intros Hw [Hd _] T Hk Hi. assert (Hin : i ∈ item_order es) by (by eapply list_elem_of_lookup_2).
  pose proof (told_ends es logs i Hw Hin) as He. rewrite Hi in He. destruct (tk_kept _ _ _ T _ _ _ _ _ _ He) as [k' Hk'].
  destruct (tk_reasoning _ _ _ T _ _ Hk') as (j & Hj & su' & co' & en' & raw' & _ & _ & _ & _ & Hdone).
  destruct (told_done es logs j _ Hw Hdone) as [Hjin Hjd]. assert (j = i) as -> by (by eapply (Hd j i)).
  by rewrite Hk', (NoDup_lookup _ _ _ _ (tk_nodup _ _ _ T) Hj Hk).
Qed.

Lemma backfill_step es logs out s items item s' :
  well_told es logs -> own_reasoning es logs -> tracks es out s -> plain_contents items ->
  rp_reasoning s' = rp_reasoning s -> rp_blocks s' = blocks_after es logs items ->
  exists s'', backfill_item num_to_string syntax_error item s' = ([], s'', Ok ()) /\
    rp_reasoning s'' = rp_reasoning s /\ rp_meta s'' = rp_meta s' /\ rp_blocks s'' = blocks_after es logs (items ++ [item]).
Proof.
  intros Hw Ho T Hu Hre Hb. pose proof Ho as [Hdist Hobj].
  assert (Hsame : (forall i id su co en raw, i ∈ item_order es -> il_done (logs i) = ReasoningItem id su co en raw -> content_for id item = None) ->
    blocks_after es logs (items ++ [item]) = blocks_after es logs items).
  { intros Hno. apply map_ext_in. intros i Hi%list_elem_of_In. do 2 f_equal. destruct (logs i) as [a ev d] eqn:El. unfold completed_log.
    cbn [il_added il_events il_done]. f_equal. destruct d as [id su co en raw| | | |]; try done. cbn [completed_item]. f_equal.
    destruct (Hobj i id su co en raw Hi) as [_ [fs ->]]; [by rewrite El|]. rewrite completed_snoc, (Hno i id su co en (JObj fs)) by (done || by rewrite El).
    by destruct (completed_object items id fs) as [fs' ->]. }
  assert (Hidle : (forall i id su co en raw, i ∈ item_order es -> il_done (logs i) = ReasoningItem id su co en raw -> content_for id item = None) ->
    exists s'', (@nil event, s', Ok ()) = ([], s'', @Ok jstr () ()) /\
      rp_reasoning s'' = rp_reasoning s /\ rp_meta s'' = rp_meta s' /\ rp_blocks s'' = blocks_after es logs (items ++ [item])).
  { intros Hno. exists s'. by rewrite Hsame. }
  destruct item as [id su co [e|] raw| | | |]; try (by apply Hidle). cbn [backfill_item].
  destruct (truthy e) eqn:Et; cbn [negb]; [|apply Hidle; intros; cbn; by rewrite Et, andb_false_r].
  unfold bind_m, state_m. rewrite Hre. destruct (rp_reasoning s !! id) as [k|] eqn:Ek.
  2: { apply Hidle. intros i id' su' co' en' raw' Hi Hd. cbn. destruct (streq id id') eqn:E; [|done]. apply streq_true in E as <-.
       apply list_elem_of_lookup_1 in Hi as [k Hk]. by rewrite (kept_reasoning es logs out s i k id su' co' en' raw') in Ek. }
  destruct (tk_reasoning _ _ _ T _ _ Ek) as (i & Hk & su' & co' & en' & raw' & _ & _ & _ & _ & Hdone).
  destruct (told_done es logs i _ Hw Hdone) as [Hi Hd]. destruct (Hobj _ _ _ _ _ _ Hi Hd) as [Hp [fs ->]].
  assert (Hbk : rp_blocks s' !! k = Some (new_stream_block (said_item (completed_log items (logs i)))))
    by (rewrite Hb; unfold blocks_after; by rewrite list_lookup_fmap, Hk).
  rewrite Hbk. unfold lift_m.
  assert (Hput : forall b', b' = new_stream_block (said_item (completed_log (items ++ [ReasoningItem id su co (Some e) raw]) (logs i))) ->
    rp_blocks (put_block k b' s') = blocks_after es logs (items ++ [ReasoningItem id su co (Some e) raw])).
  { intros b' ->. cbn. rewrite Hb. apply list_eq. intros k'. unfold blocks_after.
    destruct (decide (k' = k)) as [->|Hne].
    - rewrite list_lookup_insert_eq by (rewrite length_fmap; by eapply lookup_lt_Some). by rewrite list_lookup_fmap, Hk.
    - rewrite list_lookup_insert_ne, !list_lookup_fmap by done. destruct (item_order es !! k') as [i'|] eqn:Hk'; [|done]. cbn. do 3 f_equal.
      destruct (logs i') as [a ev d] eqn:El. unfold completed_log. cbn [il_added il_events il_done]. f_equal.
      destruct d as [id' su1 co1 en1 raw1| | | |]; try done. cbn [completed_item]. f_equal.
      assert (Hi' : i' ∈ item_order es) by (by eapply list_elem_of_lookup_2).
      destruct (Hobj i' id' su1 co1 en1 raw1 Hi') as [_ [fs1 ->]]; [by rewrite El|]. rewrite completed_snoc. cbn [content_for].
      destruct (streq id id') eqn:E; [|by destruct (completed_object items id' fs1) as [? ->]]. apply streq_true in E as <-.
      exfalso. apply Hne. assert (i' = i) as ->; [|by eapply NoDup_lookup; [exact (tk_nodup _ _ _ T)|done..]].
      eapply (Hdist i' i); [done|done|by rewrite El|done]. }
  destruct (logs i) as [a ev d] eqn:El. cbn [il_done] in Hd. subst d.
  unfold said_item, completed_log in Hput |- *. cbn [il_added il_events il_done completed_item] in Hput |- *.
  rewrite completed_snoc in Hput. destruct (completed_object items id fs) as [fs' Hf]. cbn [content_for] in Hput. rewrite streq_refl, Et in Hput. cbn [andb] in Hput.
  pose proof (completed_printable items id (JObj fs) Hu Hp) as Hpf. rewrite Hf in Hput, Hpf |- *.
  destruct (truthy_json (encrypted_of (JObj fs'))) eqn:Ee.
  - destruct a; rewrite add_encrypted_known by done; cbn [modify_m app]; (eexists; split; [done|]; split; [done|]; split; [done|]; by apply Hput).
  - destruct a; rewrite (proj1 (add_encrypted_sets _ _ _ _ Hpf Ee)); cbn [modify_m app];
      (eexists; split; [done|]; split; [done|]; split; [done|]; by apply Hput).
Qed.

Lemma backfill_completes es logs out s r :
  well_told es logs -> own_reasoning es logs -> tracks es out s -> plain_contents (re_output r) ->
  exists s1, backfillReasoningSignatures num_to_string syntax_error (re_output r) (put_meta finished_meta s) = ([], s1, Ok ()) /\
    rp_meta s1 = finished_meta (rp_meta s) /\ rp_blocks s1 = blocks_after es logs (re_output r).
Proof.
  intros Hw Ho T Hu. unfold backfillReasoningSignatures.
  assert (H : forall rest items s', items ++ rest = re_output r -> rp_reasoning s' = rp_reasoning s -> rp_blocks s' = blocks_after es logs items ->
    exists s1, each_m (backfill_item num_to_string syntax_error) rest s' = ([], s1, Ok ()) /\
      rp_meta s1 = rp_meta s' /\ rp_blocks s1 = blocks_after es logs (re_output r)).
  { induction rest as [|item rest IH]; intros items s' Hr Hre Hb; [rewrite app_nil_r in Hr; subst; by exists s'|].
    destruct (backfill_step es logs out s items item s' Hw Ho T) as (s2 & H1 & H2 & H3 & H4); [|done|done|].
    { intros id su co e raw Hin. apply (Hu id su co e raw). rewrite <- Hr. apply elem_of_app. by left. }
    destruct (IH (items ++ [item]) s2) as (s1 & H5 & H6 & H7); [by rewrite <- app_assoc|done|done|].
    exists s1. cbn [each_m]. unfold bind_m. rewrite H1, H5. split_and!; [done|congruence|done]. }
  destruct (H (re_output r) [] (put_meta finished_meta s)) as (s1 & H1 & H2 & H3); [done|done| |by exists s1].
  cbn. by apply (told_blocks es logs out).
Qed.

(** The stream of a response whose end completes the reasoning. *)
Lemma response_completed es logs r stop0 :
  well_told es logs -> own_reasoning es logs -> plain_contents (re_output r) -> ended_well r stop0 ->
  let content := map (fun i => said_item (completed_log (re_output r) (logs i))) (item_order es) in
  exists out s, the_stream (Ok ()) (es ++ [ResponseEnded r]) (Ok ()) false =
      (EvStart :: out ++ [EvDone (stop_with content stop0) (response_message m api now s (stop_with content stop0) None)],
       response_message m api now s (stop_with content stop0) None) /\
    map sb_block (rp_blocks s) = content.
Proof.
  intros Hw Ho Hu He content. destruct (told_tracks es logs Hw) as (out & s & Hs & T & Hc & Hl). exists out.
  destruct (backfill_completes es logs out s r Hw Ho T Hu) as (s1 & H1 & H2 & H3).
  destruct (response_ends es r stop0 out s s1 content Hs He H1 H2) as (s2 & H4 & H5 & _); [|by exists s2].
  rewrite H3. unfold blocks_after. by rewrite map_map.
Qed.

(** C24: A response is turned into the message it describes.  For every response whose
    items each start, get events of their kind and end, interleaved in any way, and
    that ends well, with no encrypted content that the items did not have (for such
    content see [response_replayed]): the stream ends with [done]; the message has the items in the
    order they start, each with what its end says of it (and what was streamed where
    that says nothing); what was streamed live for each item is its text, its
    thinking, its arguments or, for a custom tool, the JSON of its arguments; the
    stop reason is that of the response, or [toolUse] when there are calls; and the
    tokens are those the response reports. *)
Theorem responses_message_faithful es logs r stop0 :
  well_told es logs -> nothing_new es r -> ended_well r stop0 ->
  exists out msg,
    let stop := stop_with (a_content msg) stop0 in
    the_stream (Ok ()) (es ++ [ResponseEnded r]) (Ok ()) false = (EvStart :: out ++ [EvDone stop msg], msg) /\
    a_stopReason msg = stop /\ a_errorMessage msg = None /\
    a_content msg = map (fun i => said_item (logs i)) (item_order es) /\
    (forall k i, item_order es !! k = Some i -> said_live (logs i) (deltas (Z.of_nat k) out)) /\
    (forall u, re_usage r = Some u ->
       u_output (a_usage msg) = or_zero (ru_output u) /\ u_totalTokens (a_usage msg) = or_zero (ru_total u) /\
       (or_zero (ru_cachedTokens u) + or_zero (ru_cacheWriteTokens u) <= or_zero (ru_input u) ->
        u_input (a_usage msg) + u_cacheRead (a_usage msg) + u_cacheWrite (a_usage msg) = or_zero (ru_input u))).
Proof.
  intros Hw Hn He. destruct (response_done es logs r stop0 Hw Hn He) as (out & s & Hs & Hc & [mt Hm] & Hl).
  exists out, (response_message m api now s (stop_with (map (fun i => said_item (logs i)) (item_order es)) stop0) None).
  cbv zeta. cbn [a_content response_message]. rewrite Hc. split; [exact Hs|]. split_and!; [done|done|done|done|].
  intros u Hu. cbn [a_usage response_message]. rewrite Hm. unfold with_response. cbn. rewrite Hu. cbn. lia.
Qed.

(** ** Responses that do not complete *)

Definition finished_flag (s : resp_state) : bool := mt_finished (rp_meta s).

Lemma createSlot_keeps i item : keeps finished_flag (createSlot properties i item).
Proof. unfold createSlot, applyMessagePhaseStopReason. destruct item; cbn [new_slot]; repeat keeps_step. Qed.

Lemma push_all_keeps es : keeps finished_flag (push_all es).
Proof. unfold push_all. repeat keeps_step. Qed.

Lemma body_keeps e : body_event e -> keeps finished_flag (handle_event e).
Proof.
  destruct e; try done; intros _; cbn [on_response_event]; try apply createSlot_keeps; try (by intros s).
  - unfold item_event_m. repeat first [apply push_all_keeps | keeps_step].
  - unfold item_done_m, applyMessagePhaseStopReason. repeat first [apply createSlot_keeps | apply push_all_keeps | keeps_step].
Qed.

(** An event that fails the response makes the loop throw. *)
Definition failing_event (e : response_event) : Prop := match e with ResponseError _ _ | ResponseFailed _ _ _ => True | _ => False end.

Lemma failing_throws e s : failing_event e -> exists es s' x, handle_event e s = (es, s', Throw x).
Proof. destruct e; try done; intros _; by eexists _, _, _. Qed.

Lemma event_cases e : body_event e \/ (exists r, e = ResponseEnded r) \/ failing_event e.
Proof. destruct e; cbn; eauto. Qed.

Lemma loop_events events s es s' :
  each_m handle_event events s = (es, s', Ok ()) ->
  Forall (fun e => ~ failing_event e) events /\ (finished_flag s' = true -> finished_flag s = true \/ exists r, ResponseEnded r ∈ events).
Proof.
  revert s es. induction events as [|e events IH]; intros s es; cbn [each_m].
  - intros [= <- <-]. split; [constructor|]. by left.
  - unfold bind_m. destruct (handle_event e s) as [[e1 s1] [[]|x]] eqn:Ee; [|done].
    destruct (each_m handle_event events s1) as [[e2 s2] r] eqn:E. intros [= <- <- ->]. destruct (IH _ _ E) as [I1 I2]. split.
    + constructor; [|done]. intros Hf. destruct (failing_throws e s Hf) as (? & ? & ? & Hx). congruence.
    + intros Hs. destruct (I2 Hs) as [Hs1|(r & Hr)]; [|right; exists r; by right].
      destruct (event_cases e) as [Hb|[(r & ->)|Hf]].
      * left. rewrite <- Hs1. pose proof (body_keeps e Hb s) as Hk. rewrite Ee in Hk. by symmetry.
      * right. exists r. left.
      * destruct (failing_throws e s Hf) as (? & ? & ? & Hx). congruence.
Qed.

Lemma mapped_errors status reason stop e : mapStopReason3 status reason = Ok (stop, Some e) -> stop = Error.
Proof. unfold mapStopReason3. intros H. repeat (case_match; simplify_eq; try done). Qed.

Lemma finalize_outcome r s es s' :
  handle_event (ResponseEnded r) s = (es, s', Ok ()) ->
  exists stop0 err, mapStopReason3 (re_status r) (re_incompleteReason r) = Ok (stop0, err) /\
    mt_stop (rp_meta s') = Some (stop_with (map sb_block (rp_blocks s')) stop0).
Proof.
  cbn [on_response_event]. unfold finalizeResponse2, bind_m, modify_m, lift_m.
  destruct (backfillReasoningSignatures _ _ _ _) as [[e1 s1] [[]|x]]; [|done].
  destruct (mapStopReason3 _ _) as [[stop0 err]|]; [|done]. intros [= _ <-]. exists stop0, err. split; [done|]. unfold stop_with. cbn.
  by rewrite existsb_map.
Qed.

(** A stream that ends with [done] was complete: it was not aborted and its body did
    not fail; no event reported an error and one ended the response; and when that is
    the last, its status is the one of a response that ends well, and gives the
    reason reported.  In every other case the stream ends with an error. *)
Theorem responses_done_complete events ending aborted es stop msg :
  the_stream (Ok ()) events ending aborted = (es ++ [EvDone stop msg], msg) ->
  aborted = false /\ ending = Ok () /\ a_stopReason msg = stop /\ stop ≠ Error /\ stop ≠ Aborted /\
  Forall (fun e => ~ failing_event e) events /\ (exists r, ResponseEnded r ∈ events) /\
  forall pre r, events = pre ++ [ResponseEnded r] -> exists stop0, ended_well r stop0 /\ stop = stop_with (a_content msg) stop0.
Proof.
  unfold response_stream.
  assert (Hfail : forall es' s e, response_failure m api now aborted es' s e ≠ (es ++ [EvDone stop msg], msg)).
  { intros es' s e H. unfold response_failure in H. injection H as H _. by apply app_inj_tail in H as [_ ?]. }
  destruct (processResponsesStream _ _ _ _ _ _ events ending resp_init) as [[es1 s] r] eqn:Ep. destruct r as [[]|e]; [|by intros ?%Hfail].
  destruct (response_reason provider_name aborted s) as [stop'|e] eqn:Er; [|by intros ?%Hfail].
  intros H. injection H as H <-. rewrite app_comm_cons in H. apply app_inj_tail in H as [_ [= ->]].
  unfold processResponsesStream in Ep. unfold bind_m at 1 in Ep. destruct (each_m handle_event events resp_init) as [[e1 s1] [[]|]] eqn:E1; [|done].
  unfold bind_m, lift_m, state_m in Ep. destruct ending as [[]|]; [|done].
  destruct (mt_finished (rp_meta s1)) eqn:Ef; [|done]. injection Ep as _ <-.
  destruct (loop_events _ _ _ _ E1) as [Hno Hend]. destruct (Hend Ef) as [?|Hex]; [done|].
  unfold response_reason in Er. destruct aborted; [done|].
  assert (Hstop : mt_stop (rp_meta s1) = Some stop /\ stop ≠ Error /\ stop ≠ Aborted)
    by (destruct (mt_stop (rp_meta s1)) as [[]|]; simplify_eq; done). destruct Hstop as (Hst & Hn1 & Hn2).
  split_and!; try done. intros pre r ->. apply each_snoc_inv in E1 as (e2 & s0 & e3 & _ & Hr).
  apply finalize_outcome in Hr as (stop0 & err & Hm & Hs). rewrite Hst in Hs. injection Hs as ->. cbn [a_content response_message].
  exists stop0. split; [|done]. assert (Hne : stop0 ≠ Error).
  { intros ->. apply Hn1. unfold stop_with. by rewrite andb_false_r. }
  split; [|done]. destruct err as [x|]; [|done]. by apply mapped_errors in Hm.
Qed.
End Runs.

(** ** A sample response *)

Definition sample_body : list response_event := removelast sample_events.

Definition sample_end : response :=
  Response (Some (js "resp_1")) (Some (js "completed")) None [reasoning_item]
    (Some (ResponseUsage (Some 10) (Some 5) (Some 15) (Some 4) None None)) None.

Definition sample_logs (i : Z) : item_log :=
  if i =? 0 then ItemLog reasoning_item [SummaryDelta (js "hm")] reasoning_item
  else if i =? 1 then ItemLog hello_item [TextDelta (js "Hel"); TextDelta (js "lo")] hello_item
  else ItemLog (FunctionItem (Some (js "fc_1")) (js "call_1") (js "read") None None) [ArgumentsDelta (js "{"); ArgumentsDone (js "{}")] read_call.

Lemma sample_told : well_told ∅ sample_body sample_logs.
Proof.
  split_and!.
  - by repeat constructor.
  - intros i Hi. change (item_order sample_body) with [0; 1; 2] in Hi.
    repeat (apply elem_of_cons in Hi as [->|Hi]; [split; [reflexivity|by repeat constructor]|]). by apply elem_of_nil in Hi.
  - intros i Hi. change (item_order sample_body) with [0; 1; 2] in Hi. rewrite !not_elem_of_cons in Hi. destruct Hi as (H0 & H1 & H2 & _).
    unfold of_item, sample_body, sample_events. cbn [removelast List.filter event_index].
    repeat (rewrite bool_decide_false by congruence). reflexivity.
Qed.

Lemma responses_message_faithful_witness :
  exists out msg,
    response_stream int_num_str (fun _ => Some (JObj [])) (fun _ => []) response_model ∅ (Some (openai_pricing response_model None)) (js "openai-responses") (js "OpenAI Responses") 7
      (Ok ()) (sample_body ++ [ResponseEnded sample_end]) (Ok ()) false = (EvStart :: out ++ [EvDone ToolUse msg], msg) /\
    map (fun b => match b with BText t _ | BThinking t _ _ => t | BToolCall tc => tc_id tc end) (a_content msg) =
      [js "hm"; js "Hello"; js "call_1|fc_1"] /\
    deltas 2 out = js "{}" /\ u_input (a_usage msg) + u_cacheRead (a_usage msg) + u_cacheWrite (a_usage msg) = 10.
Proof.
  destruct (responses_message_faithful int_num_str (fun _ => Some (JObj [])) (fun _ => []) response_model ∅ (Some (openai_pricing response_model None)) (js "openai-responses")
    (js "OpenAI Responses") 7 sample_body sample_logs sample_end Stop) as (out & msg & H1 & _ & _ & H2 & H3 & H4).
  - exact sample_told.
  - intros id su co e raw Hin. apply elem_of_cons in Hin as [[=]|?%elem_of_nil]; done.
  - by split.
  - exists out, msg. rewrite H2 in H1 |- *. split; [exact H1|]. split; [vm_compute; reflexivity|]. split; [exact (H3 2%nat 2 eq_refl)|].
    apply (H4 _ eq_refl). vm_compute. discriminate.
Defined.

Lemma responses_done_complete_witness :
  exists es msg, sample_response = (es ++ [EvDone ToolUse msg], msg) /\ a_stopReason msg = ToolUse /\
    exists r, ResponseEnded r ∈ sample_events.
Proof.
  destruct sample_response as [es0 msg] eqn:E. assert (exists es, es0 = es ++ [EvDone ToolUse msg]) as [es ->].
  { unfold sample_response in E. vm_compute in E. injection E as <- <-. eexists [_; _; _; _; _; _; _; _; _; _; _; _]. reflexivity. }
  exists es, msg. split; [done|]. destruct (responses_done_complete _ _ _ _ _ _ _ _ _ _ _ _ _ _ _ E) as (_ & _ & H & _ & _ & _ & Hr & _).
  split; [exact H|exact Hr].
Defined.
