(* ===== verification/ResponsesReplay.v ===== *)
(** A turn survives: what a responses API answers comes back to it, item by item, in
    the next request to the same model.  This composes the stream of
    [ResponsesStream], the JSON of [JsonText], the replay of [TransformMessages] and
    the conversion of [OpenaiResponses]. *)
From S2P Require Import Prelude Utf8 Numbers Json JsonText Messages TransformMessages JsonRepair ConstrainedSampling EventStream Models Faux AnthropicMessages AnthropicStream StreamMonad OpenaiCommon OpenaiCompletions OpenaiStream OpenaiResponses ResponsesStream.
Open Scope Z_scope.

(** ** Identifiers *)

Lemma id_parts_joined callId itemId : 124 ∉ callId -> 124 ∉ itemId -> id_parts (callId ++ [124] ++ itemId) = (callId, Some itemId).
Proof.
  intros H1 H2. unfold id_parts. cbn [app]. by rewrite split_app_sep, (split_no_sep 124 itemId).
Qed.

(** ** Signatures *)

Section Signatures.
Context (num_to_string : Q -> jstr) (Hone : number_text 1%Q (num_to_string 1%Q)).

Lemma text_truthy v : printable num_to_string v -> truthy (JSON_stringify num_to_string v) = true.
Proof. intros Hv. apply text_head in Hv. by destruct (JSON_stringify num_to_string v). Qed.

(** The phase that comes back. *)
Definition replayed_phase (phase : option jstr) : option jstr := known_phase (JStr <$> phase).

(** What is encoded is what is read. *)
Lemma text_signature_roundtrip id phase :
  unit_range id -> unit_range (nullish phase []) ->
  parseTextSignature (Some (encodeTextSignatureV1 num_to_string id phase)) = Some (TextSignature id (replayed_phase phase)).
Proof.
  intros Hid Hph. unfold encodeTextSignatureV1.
  set (o := obj _). assert (Hp : printable num_to_string o).
  { unfold o, obj. constructor.
    - destruct (truthy_opt phase); destruct phase; cbn; repeat constructor; set_solver.
    - destruct (truthy_opt phase); destruct phase; reflexivity.
    - destruct (truthy_opt phase); destruct phase as [ph|]; cbn [fields_of omap list_omap fmap option_fmap option_map];
        repeat (apply Forall_cons; split; [split; [apply js_range|by constructor]|]); constructor. }
  unfold parseTextSignature. rewrite text_truthy by done. cbn [negb].
  assert (Hs : starts_with (js "{") (JSON_stringify num_to_string o) = true) by reflexivity. rewrite Hs, json_roundtrip by done.
  unfold o, replayed_phase. destruct phase as [[|x ph]|]; reflexivity.
Qed.
End Signatures.

(** ** Items *)

Section Replay.
Context (num_to_string : Q -> jstr) (Hone : number_text 1%Q (num_to_string 1%Q)).
Context (partial_parse : jstr -> option json) (syntax_error : jstr -> jstr) (m : model) (properties : gmap jstr jstr).
Context (deferred : list (jstr * api_tool)).
#[local] Abbreviation said_block := (said_item num_to_string partial_parse properties).
#[local] Abbreviation blocks := (convert_response_blocks num_to_string syntax_error m properties deferred).

(** An item as the API gives it: its JSON can be printed, its identifiers have no bar
    and are not too long, and a call of a custom tool is one of a grammar tool. *)
Definition replayable_item (l : item_log) : Prop :=
  match il_added l, il_done l with
  | _, ReasoningItem _ _ _ _ raw => printable num_to_string raw
  | _, MessageItem id _ phase => truthy id = true /\ (length id <= 64)%nat /\ unit_range id /\ unit_range (nullish phase [])
  | FunctionItem (Some id) call_id name _ _, FunctionItem _ _ _ _ _ =>
      properties !! name = None /\ starts_with (js "fc_") id = true /\ (124 ∉ id) /\ (124 ∉ call_id)
  | CustomItem (Some id) call_id name _ _, CustomItem _ _ _ (Some _) _ => is_Some (properties !! name) /\ (124 ∉ id) /\ (124 ∉ call_id)
  | _, _ => False
  end.

(** The item of the next request: reasoning as it is stored, a message with its
    text (surrogates without a partner dropped), its identifier and its phase if
    that is one the API documents, a call with its identifiers, name, namespace and
    the arguments that were understood, printed again. *)
Definition replayed_item (l : item_log) : input_item :=
  match il_added l, il_done l with
  | _, ReasoningItem _ _ _ _ raw => InputReasoning raw
  | _, MessageItem id texts phase => InputMessage id (sanitizeSurrogates (joined [] texts)) (replayed_phase phase)
  | FunctionItem id call_id name given ns, FunctionItem _ _ _ arguments ns' =>
      let partial := (arguments_said given (il_events l)).1 in
      let final := if truthy_opt arguments then nullish arguments [] else if truthy partial then partial else js "{}" in
      InputCall id call_id name (JSON_stringify num_to_string (parseStreamingJson partial_parse (Some final))) (or_option ns' ns)
  | CustomItem id call_id name _ ns, CustomItem _ _ _ input ns' =>
      InputCustomCall id call_id name (sanitizeSurrogates (nullish input [])) (or_option ns' ns)
  | _, _ => InputMessage [] [] None
  end.

Lemma same_parts a : same_model a m = true -> streq (a_provider a) (m_provider m) = true /\ streq (a_api a) (m_api m) = true /\ streq (a_model a) (m_id m) = true.
Proof. unfold same_model. intros H. by bool_to_prop. Qed.

Lemma replay_block a l bs i t out :
  same_model a m = true -> replayable_item l ->
  (forall t, blocks a bs i t = Ok out) -> blocks a (said_block l :: bs) i t = Ok (replayed_item l :: out).
Proof.
  intros Hs Hl Hr. destruct (same_parts a Hs) as (H1 & H2 & H3). destruct l as [added es done]. unfold replayable_item in Hl. unfold said_item, replayed_item.
  cbn [il_added il_done il_events] in *. destruct done as [did su co en raw|mid texts phase|i2 c2 n2 args ns'|i2 c2 n2 [input|] ns'|].
  - assert (Hp : printable num_to_string raw) by (by destruct added as [| |[]|[]|]). destruct added as [| |[]|[]|]; cbn [convert_response_blocks];
      rewrite text_truthy, json_roundtrip, Hr by done; done.
  - assert (Hp : truthy mid = true /\ (length mid <= 64)%nat /\ unit_range mid /\ unit_range (nullish phase [])) by (by destruct added as [| |[]|[]|]).
    destruct Hp as (Ht & Hlen & Hu & Hph).
    assert (Hm : forall msgIndex k, message_id (Some (TextSignature mid (replayed_phase phase))) msgIndex k = mid).
    { intros x k. unfold message_id. rewrite Ht. cbn [negb]. by rewrite (proj2 (Z.ltb_ge 64 (Z.of_nat (length mid)))) by lia. }
    destruct added as [| |[]|[]|]; cbn [convert_response_blocks]; rewrite text_signature_roundtrip, Hr, Hm by done; done.
  - destruct added as [| |[id|] call_id name given ns|[] ? ? ? ?|]; try done. destruct Hl as (Hn & Hf & Hb1 & Hb2).
    cbn [convert_response_blocks]. unfold convert_response_call. cbn [tc_id tc_name tc_arguments tc_namespace item_id nullish].
    unfold item_id. cbn [nullish]. rewrite id_parts_joined, Hn, H1, H2, H3, Hf by done. cbn [andb negb orb bind].
    rewrite andb_false_r. cbn [bind]. by rewrite Hr.
  - destruct added as [| |[] ? ? ? ?|[id|] call_id name given ns|]; try done. destruct Hl as ([p Hn] & Hb1 & Hb2).
    cbn [convert_response_blocks]. unfold convert_response_call, item_property. cbn [tc_id tc_name tc_arguments tc_namespace].
    unfold item_id. cbn [nullish]. rewrite id_parts_joined, Hn, H1, H2, H3 by done. cbn [andb negb orb nullish].
    unfold getGrammarToolInput. cbn [get lookup_field]. rewrite streq_refl. cbn [bind]. by rewrite Hr.
  - by destruct added as [| |[]|[]|].
  - by destruct added as [| |[]|[]|].
Qed.

Lemma replay_blocks a ls i t :
  same_model a m = true -> Forall replayable_item ls -> blocks a (map said_block ls) i t = Ok (map replayed_item ls).
Proof. intros Hs HF. revert t. induction HF as [|l ls Hl HF IH]; intros t; [done|]. cbn [map]. by apply replay_block. Qed.

(** The replay to the same model leaves the message as it is. *)
Lemma transform_same norm a ls ids :
  same_model a m = true -> Forall replayable_item ls -> transform_blocks m norm a (map said_block ls) ids = (map said_block ls, ids).
Proof.
  intros Hs HF. induction HF as [|l ls Hl HF IH]; [done|]. cbn [map transform_blocks].
  assert (Hb : transform_block m norm a (said_block l) ids = ([said_block l], ids)).
  { unfold transform_block. rewrite Hs. cbn [negb andb]. destruct (said_block l) as [text sg|th sg rd|tc] eqn:E; [done| |by destruct norm].
    assert (exists raw, printable num_to_string raw /\ sg = Some (JSON_stringify num_to_string raw) /\ rd = false) as (raw & Hp & -> & ->).
    { destruct l as [added es done]. unfold replayable_item in Hl. unfold said_item in E. cbn [il_added il_done] in *.
      destruct done as [did su co en raw| | |? ? ? [] ?|], added as [| |[]|[]|]; try done; injection E as _ <- <-; by exists raw. }
    cbn [truthy_opt]. by rewrite text_truthy. }
  rewrite Hb, IH. done.
Qed.

(** ** The request *)

Lemma transform_pass_keeps norm ms ids a :
  MAssistant a ∈ ms -> (forall ids, transform_blocks m norm a (a_content a) ids = (a_content a, ids)) ->
  MAssistant a ∈ transform_pass m norm ms ids.
Proof.
  intros Hin Ht. revert ids. induction ms as [|msg ms IH]; intros ids; [by apply elem_of_nil in Hin|]. cbn [transform_pass].
  destruct (transform_message m norm msg ids) as [msg' ids'] eqn:E. apply elem_of_cons in Hin as [<-|Hin]; [|right; by apply IH].
  cbn [transform_message] in E. rewrite Ht in E. injection E as <- _. destruct a. left.
Qed.

Lemma pair_results_keeps now ms p e a :
  MAssistant a ∈ ms -> a_stopReason a ≠ Error -> a_stopReason a ≠ Aborted -> MAssistant a ∈ pair_results now ms p e.
Proof.
  intros Hin H1 H2. revert p e. induction ms as [|msg ms IH]; intros p e; [by apply elem_of_nil in Hin|].
  destruct msg as [c t|b|r|x t]; cbn [pair_results].
  - apply elem_of_cons in Hin as [?|Hin]; [done|]. apply elem_of_app. right. right. by apply IH.
  - apply elem_of_cons in Hin as [[= <-]|Hin]; apply elem_of_app; right.
    + rewrite bool_decide_false by (by intros [?|?]). destruct (tool_calls (a_content a)); left.
    + case_bool_decide; [by apply IH|]. destruct (tool_calls (a_content b)); right; by apply IH.
  - apply elem_of_cons in Hin as [?|Hin]; [done|right; by apply IH].
  - apply elem_of_cons in Hin as [?|Hin]; [done|right; by apply IH].
Qed.

Lemma transformMessages_keeps norm now messages a :
  Complete (MAssistant a) ∈ messages -> a_stopReason a ≠ Error -> a_stopReason a ≠ Aborted ->
  (forall ids, transform_blocks m norm a (a_content a) ids = (a_content a, ids)) ->
  MAssistant a ∈ transformMessages messages m norm now.
Proof.
  intros Hin H1 H2 Ht. unfold transformMessages. apply pair_results_keeps; [|done|done]. apply transform_pass_keeps; [|done].
  apply (list_elem_of_fmap_2 normalize_content) in Hin. cbn [normalize_content] in Hin. unfold downgradeUnsupportedImages.
  destruct (bool_decide _); [done|]. by apply (list_elem_of_fmap_2 downgrade_message) in Hin.
Qed.

(** The items of an assistant message stay together. *)
Lemma loop_contains mode options ms loaded i out a :
  responses_loop num_to_string syntax_error m properties deferred mode options ms loaded i = Ok out -> MAssistant a ∈ ms ->
  exists j here before after, blocks a (a_content a) j 0 = Ok here /\ out = before ++ here ++ after.
Proof.
  revert loaded i out. induction ms as [|msg ms IH]; intros loaded i out Hl Hin; [by apply elem_of_nil in Hin|].
  assert (Hrest : forall ld j more pre, responses_loop num_to_string syntax_error m properties deferred mode options ms ld j = Ok more ->
    MAssistant a ∈ ms -> exists j here before after, blocks a (a_content a) j 0 = Ok here /\ pre ++ more = before ++ here ++ after).
  { intros ld j more pre E Ha. destruct (IH _ _ _ E Ha) as (j' & here & before & after & Hb & ->). exists j', here, (pre ++ before), after.
    split; [done|]. by rewrite app_assoc. }
  destruct msg as [c t|b|r|x t]; cbn [responses_loop] in Hl.
  - apply elem_of_cons in Hin as [?|Hin]; [done|]. destruct (convert_response_user c) as [u|]; [|by eapply (Hrest _ _ _ [])].
    destruct (responses_loop _ _ _ _ _ _ _ ms _ _) as [more|] eqn:E; [|done]. injection Hl as <-. by eapply (Hrest _ _ _ [u]).
  - destruct (blocks b (a_content b) i 0) as [here|] eqn:Eb; [|done]. cbn [bind] in Hl.
    apply elem_of_cons in Hin as [[= <-]|Hin].
    + destruct here as [|y here]; [by exists i, [], [], out|]. destruct (responses_loop _ _ _ _ _ _ _ ms _ _) as [more|] eqn:E; [|done].
      injection Hl as <-. by exists i, (y :: here), [], more.
    + destruct here as [|y here]; [by eapply (Hrest _ _ _ [])|]. destruct (responses_loop _ _ _ _ _ _ _ ms _ _) as [more|] eqn:E; [|done].
      injection Hl as <-. by eapply (Hrest _ _ _ (y :: here)).
  - apply elem_of_cons in Hin as [?|Hin]; [done|]. destruct (convert_response_result _ _ _ _ _ r loaded) as [[items ld]|]; [|done].
    cbn [bind fst snd] in Hl. destruct (responses_loop _ _ _ _ _ _ _ ms _ _) as [more|] eqn:E; [|done]. injection Hl as <-. by eapply Hrest.
  - apply elem_of_cons in Hin as [?|Hin]; [done|]. by eapply (Hrest _ _ _ []).
Qed.

Lemma completed_replayable items l :
  plain_contents items -> replayable_item l -> replayable_item (completed_log items l).
Proof.
  intros Hu Hl. destruct l as [a ev d]. unfold replayable_item, completed_log in *. cbn [il_added il_done] in *.
  destruct d as [id su co en raw| | | |]; cbn [completed_item]; try done.
  assert (Hp : printable num_to_string raw) by (by destruct a as [| |[]|[]|]).
  pose proof (completed_printable num_to_string items id raw Hu Hp). by destruct a as [| |[]|[]|].
Qed.

(** C25: What a response says comes back.  For every response whose items each start,
    get events of their kind and end, interleaved in any way, and that ends well, in
    every later request to the same model that has its message, the items of that
    message stand together, one for each item of the response, in order: the
    reasoning items as they came, each with the encrypted content the end of the
    response has for it when it had none itself; the messages with their text
    (surrogates without a partner dropped), identifiers and the phases the API
    documents; the calls with both identifiers, names, namespaces and the arguments
    that were understood, printed again.  The items are as the API gives them:
    reasoning items are objects with identifiers of their own, identifiers of
    messages have up to 64 characters, and those of calls have no bar. *)
Theorem response_replayed tierPricing provider_name now es logs r stop0 :
  well_told properties es logs -> own_reasoning num_to_string es logs -> plain_contents (re_output r) -> ended_well r stop0 ->
  Forall (fun i => replayable_item (logs i)) (item_order es) ->
  exists out stop msg,
    response_stream num_to_string partial_parse syntax_error m properties tierPricing (m_api m) provider_name now (Ok ())
      (es ++ [ResponseEnded r]) (Ok ()) false = (EvStart :: out ++ [EvDone stop msg], msg) /\
    forall allowed mode options include role systemPrompt messages later items,
      Complete (MAssistant msg) ∈ messages ->
      convertResponsesMessages num_to_string syntax_error m allowed properties deferred mode options include role systemPrompt messages later = Ok items ->
      exists before after, items = before ++ map (fun i => replayed_item (completed_log (re_output r) (logs i))) (item_order es) ++ after.
Proof.
  intros Hw Ho Hu He HF.
  destruct (response_completed num_to_string partial_parse syntax_error m properties tierPricing (m_api m) provider_name now es logs r stop0 Hw Ho Hu He)
    as (out & s & Hs & Hc). set (stop := stop_with _ stop0) in *. set (msg := response_message m (m_api m) now s stop None) in *.
  exists out, stop, msg. split; [exact Hs|]. intros allowed mode options include role systemPrompt messages later items Hin Hi.
  set (stored := map (fun i => completed_log (re_output r) (logs i)) (item_order es)).
  assert (Hcontent : a_content msg = map said_block stored) by (cbn; unfold stored; by rewrite Hc, map_map).
  assert (Hsame : same_model msg m = true) by (unfold same_model; cbn; by rewrite !streq_refl).
  assert (HF' : Forall replayable_item stored).
  { apply Forall_map. eapply Forall_impl; [exact HF|]. intros i Hri. by apply completed_replayable. }
  assert (Hgood : a_stopReason msg ≠ Error /\ a_stopReason msg ≠ Aborted).
  { cbn. unfold stop, stop_with. destruct (ended_well_cases _ _ He) as [-> | ->]; by destruct (_ && _). }
  unfold convertResponsesMessages in Hi. destruct (responses_loop _ _ _ _ _ _ _ _ [] 0) as [converted|] eqn:El; [|done]. cbn [bind] in Hi. injection Hi as <-.
  destruct (loop_contains _ _ _ _ _ _ msg El) as (j & here & before & after & Hb & ->).
  { apply transformMessages_keeps; [done|apply Hgood|apply Hgood|]. intros ids. rewrite Hcontent. by apply transform_same. }
  rewrite Hcontent, replay_blocks in Hb by done. injection Hb as <-. unfold stored. rewrite map_map.
  exists (response_instructions m include role systemPrompt ++ before), after. by rewrite <- app_assoc.
Qed.
End Replay.

Lemma sample_replayable i : i ∈ item_order sample_body -> replayable_item int_num_str ∅ (sample_logs i).
Proof.
  change (item_order sample_body) with [0; 1; 2]. intros Hi. pose proof (int_number_text 1 ltac:(lia)) as H1.
  repeat (apply elem_of_cons in Hi as [->|Hi]); [| | |by apply elem_of_nil in Hi]; cbn [sample_logs Z.eqb Pos.eqb].
  - unfold replayable_item. cbn [il_added il_done reasoning_item]. unfold reasoning_raw. constructor.
    + vm_compute. repeat constructor; set_solver.
    + reflexivity.
    + repeat (apply Forall_cons; split; [split; [apply js_range|constructor; try apply js_range; constructor]|]). constructor.
  - unfold replayable_item. cbn [il_added il_done hello_item]. split_and!; [done|vm_compute; lia|apply js_range|apply js_range].
  - unfold replayable_item. cbn [il_added il_done read_call]. split_and!; [done|done|vm_compute; set_solver|vm_compute; set_solver].
Qed.

(** The end of the response brings the encrypted content of the reasoning item. *)
Definition late_end : response :=
  Response (Some (js "resp_1")) (Some (js "completed")) None
    [ReasoningItem (js "rs_1") (Some []) None (Some (js "secret")) reasoning_raw; hello_item] None None.

Definition reasoning_completed : json :=
  JObj [(js "id", jstring "rs_1"); (js "type", jstring "reasoning"); (js "summary", JArr []); (js "encrypted_content", jstring "secret")].

Lemma sample_own : own_reasoning int_num_str sample_body sample_logs.
Proof.
  assert (Hone : forall i id su co en raw, i ∈ item_order sample_body -> il_done (sample_logs i) = ReasoningItem id su co en raw -> i = 0 /\ raw = reasoning_raw).
  { change (item_order sample_body) with [0; 1; 2]. intros i id su co en raw Hi H.
    repeat (apply elem_of_cons in Hi as [->|Hi]; [try done; by injection H as <- <- <- <- <-|]). by apply elem_of_nil in Hi. }
  split.
  - intros i j id su co en raw su' co' en' raw' Hi Hj H1 H2. apply Hone in H1 as [-> _]; [|done]. by apply Hone in H2 as [-> _].
  - intros i id su co en raw Hi H. apply Hone in H as [-> ->]; [|done]. split; [|by eexists].
    exact (sample_replayable 0 Hi).
Qed.

Lemma late_plain : plain_contents (re_output late_end).
Proof. intros id su co e raw Hin. apply elem_of_cons in Hin as [[= _ _ _ -> _]|Hin]; [apply js_range|]. by apply list_elem_of_singleton in Hin. Qed.

Lemma response_replayed_witness :
  exists out stop msg items before after,
    response_stream int_num_str (fun _ => Some (JObj [])) (fun _ => []) response_model ∅ (Some (openai_pricing response_model None)) (js "openai-responses") (js "OpenAI Responses") 7
      (Ok ()) (sample_body ++ [ResponseEnded late_end]) (Ok ()) false = (EvStart :: out ++ [EvDone stop msg], msg) /\
    convertResponsesMessages int_num_str (fun _ => []) response_model OPENAI_TOOL_CALL_PROVIDERS ∅ [] None (ToolOptions (Some false) false false false)
      true None None [Complete (MUser (UString (js "hi")) 0); Complete (MAssistant msg)] 9 = Ok items /\
    items = before ++ [InputReasoning reasoning_completed; InputMessage (js "msg_1") (js "Hello") (Some (js "commentary"));
                       InputCall (Some (js "fc_1")) (js "call_1") (js "read") (js "{}") None] ++ after.
Proof.
  destruct (response_replayed int_num_str (int_number_text 1 ltac:(lia)) (fun _ => Some (JObj [])) (fun _ => []) response_model ∅ [] (Some (openai_pricing response_model None))
    (js "OpenAI Responses") 7 sample_body sample_logs late_end Stop) as (out & stop & msg & H1 & H2).
  - exact sample_told.
  - exact sample_own.
  - exact late_plain.
  - by split.
  - apply Forall_forall. intros i. apply sample_replayable.
  - destruct (convertResponsesMessages int_num_str (fun _ => []) response_model OPENAI_TOOL_CALL_PROVIDERS ∅ [] None (ToolOptions (Some false) false false false)
      true None None [Complete (MUser (UString (js "hi")) 0); Complete (MAssistant msg)] 9) as [items|x] eqn:E.
    + destruct (H2 _ _ _ _ _ _ _ _ items ltac:(right; left) E) as (before & after & ->).
      exists out, stop, msg, (before ++ map (fun i => replayed_item int_num_str (fun _ => Some (JObj [])) (completed_log (re_output late_end) (sample_logs i))) (item_order sample_body) ++ after), before, after.
      split_and!; [exact H1|exact E|vm_compute; reflexivity].
    + exfalso. vm_compute in H1. injection H1 as _ <-. by vm_compute in E.
Defined.
