(* ===== verification/GoogleMessages.v ===== *)
(** The requests of the Google providers: contents, tools, thinking options and
    clients of the Generative AI and Vertex APIs (packages/ai, api/google-shared.js,
    api/google-generative-ai.js and api/google-vertex.js, bundled in
    src/drivers/tools/pibridge/bridge.mjs).  [toLowerCase] and the path of a URL are
    parameters; the SDK client is the record of its options. *)
From S2P Require Import Prelude Utf8 Numbers Json Messages TransformMessages Regex ProviderErrors ConstrainedSampling Models AnthropicMessages OpenaiCompletions.
Open Scope Z_scope.

(** ** Versions and signatures *)

Section Names.
Context (toLowerCase : jstr -> jstr).

Fixpoint leading_digits (s : jstr) : jstr :=
  match s with c :: r => if (48 <=? c) && (c <=? 57) then c :: leading_digits r else [] | [] => [] end.

(** [/^gemini(?:-live)?-(\d+)/]: after the optional part comes a hyphen and a digit,
    which the optional part does not start with. *)
Definition getGeminiMajorVersion (modelId : jstr) : option Z :=
  let id := toLowerCase modelId in
  if starts_with (js "gemini") id then
    let rest := drop 6 id in
    match (if starts_with (js "-live") rest then drop 5 rest else rest) with
    | 45 :: r => match leading_digits r with [] => None | ds => Some (digits_value ds) end
    | _ => None
    end
  else None.

Definition at_least_three (version : option Z) : bool := match version with Some v => 3 <=? v | None => false end.

Definition requiresToolCallId (modelId : jstr) : bool :=
  starts_with (js "claude-") modelId || starts_with (js "gpt-oss-") modelId || at_least_three (getGeminiMajorVersion modelId).

Definition supportsMultimodalFunctionResponse (modelId : jstr) : bool :=
  match getGeminiMajorVersion modelId with Some v => 3 <=? v | None => true end.

Definition supportsGoogleStrictToolSampling (modelId : jstr) : bool := at_least_three (getGeminiMajorVersion modelId).

(** [/^[A-Za-z0-9+/]+={0,2}$/] *)
Definition base64SignaturePattern : re :=
  RCat (plus (RSet (UClass [URange 65 90; URange 97 122; URange 48 57; ULit 43; ULit 47])))
    (RCat (opt (RSet (ULit 61))) (opt (RSet (ULit 61)))).

Definition isValidThoughtSignature (signature : option jstr) : bool :=
  match signature with
  | Some s => truthy s && (Z.of_nat (length s) mod 4 =? 0) && match_all false base64SignaturePattern s
  | None => false
  end.

Definition resolveThoughtSignature (isSameProviderAndModel : bool) (signature : option jstr) : option jstr :=
  if isSameProviderAndModel && isValidThoughtSignature signature then signature else None.

(** ** Contents *)

Inductive google_part :=
| GText (thought : bool) (text : jstr) (thoughtSignature : option jstr)
| GImage (mimeType data : jstr)
| GCall (name : jstr) (args : json) (id : option jstr) (thoughtSignature : option jstr)
| GResponse (name : jstr) (isError : bool) (value : jstr) (parts : option (list (jstr * jstr))) (id : option jstr).

(** A content of the model or of the user. *)
Record google_content := GContent { gc_model : bool; gc_parts : list google_part }.

Section Convert.
Context (m : model).

Definition normalizeGoogleId (id : jstr) : jstr := if requiresToolCallId (m_id m) then take 64 (clean_id id) else id.

Definition google_user_part (p : part) : google_part :=
  match p with
  | PText t => GText false (sanitizeSurrogates t) None
  | PImage data mimeType => GImage mimeType data
  end.

Definition google_blank (s : jstr) : bool := negb (truthy s) || streq (trim s) [].

Definition convert_google_block (isSame : bool) (b : block) : option google_part :=
  match b with
  | BText text textSignature =>
      let thoughtSignature := resolveThoughtSignature isSame textSignature in
      if google_blank text && bool_decide (thoughtSignature = None) then None
      else Some (GText false (sanitizeSurrogates text) thoughtSignature)
  | BThinking thinking thinkingSignature _ =>
      if isSame then
        let thoughtSignature := resolveThoughtSignature isSame thinkingSignature in
        if google_blank thinking && bool_decide (thoughtSignature = None) then None
        else Some (GText true (sanitizeSurrogates thinking) thoughtSignature)
      else if google_blank thinking then None
      else Some (GText false (sanitizeSurrogates thinking) None)
  | BToolCall tc =>
      Some (GCall (tc_name tc) (match tc_arguments tc with JNull => JObj [] | v => v end)
              (if requiresToolCallId (m_id m) then Some (tc_id tc) else None)
              (resolveThoughtSignature isSame (tc_thoughtSignature tc)))
  end.

Definition convert_google_assistant (a : assistant) : list google_part :=
  let isSameProviderAndModel := streq (a_provider a) (m_provider m) && streq (a_model a) (m_id m) in
  omap (convert_google_block isSameProviderAndModel) (a_content a).

Definition google_images (content : list part) : list (jstr * jstr) :=
  if bool_decide (js "image" ∈ m_input m)
  then omap (fun p => match p with PImage data mimeType => Some (mimeType, data) | PText _ => None end) content else [].

Definition google_response (r : tool_result) : google_part :=
  let textResult := result_text (tr_content r) in
  let images := google_images (tr_content r) in
  let hasImages := negb (bool_decide (images = [])) in
  GResponse (tr_toolName r) (tr_isError r)
    (if truthy textResult then sanitizeSurrogates textResult else if hasImages then js "(see attached image)" else [])
    (if hasImages && supportsMultimodalFunctionResponse (m_id m) then Some images else None)
    (if requiresToolCallId (m_id m) then Some (tr_toolCallId r) else None).

Definition is_response (p : google_part) : bool := match p with GResponse _ _ _ _ _ => true | _ => false end.

(** The response joins the last content when that holds responses of the user. *)
Definition add_response (contents : list google_content) (p : google_part) : list google_content :=
  match last contents with
  | Some (GContent false parts) =>
      if existsb is_response parts then removelast contents ++ [GContent false (parts ++ [p])]
      else contents ++ [GContent false [p]]
  | _ => contents ++ [GContent false [p]]
  end.

Definition image_content (images : list (jstr * jstr)) : google_content :=
  GContent false (GText false (js "Tool result image:") None :: map (fun im => GImage im.1 im.2) images).

(** One message of the loop. *)
Definition google_turn (contents : list google_content) (msg : message) : list google_content :=
  match msg with
  | MUser (UString s) _ => contents ++ [GContent false [GText false (sanitizeSurrogates s) None]]
  | MUser (UParts []) _ => contents
  | MUser (UParts ps) _ => contents ++ [GContent false (map google_user_part ps)]
  | MAssistant a =>
      match convert_google_assistant a with [] => contents | parts => contents ++ [GContent true parts] end
  | MToolResult r =>
      let contents := add_response contents (google_response r) in
      let images := google_images (tr_content r) in
      if negb (bool_decide (images = [])) && negb (supportsMultimodalFunctionResponse (m_id m))
      then contents ++ [image_content images] else contents
  | MOther _ _ => contents
  end.

Definition convertMessages3 (messages : list raw_message) (now : Z) : list google_content :=
  foldl google_turn [] (transformMessages messages m (Some (fun id _ _ => normalizeGoogleId id)) now).
End Convert.

(** ** As JSON *)

Definition inline_data (mimeType data : jstr) : json :=
  JObj [(js "inlineData", JObj [(js "mimeType", JStr mimeType); (js "data", JStr data)])].

Definition google_part_json (p : google_part) : json :=
  match p with
  | GText thought text sg =>
      obj [(js "thought", if thought then Some (JBool true) else None); (js "text", Some (JStr text)); (js "thoughtSignature", JStr <$> sg)]
  | GImage mimeType data => inline_data mimeType data
  | GCall name args id sg =>
      obj [(js "functionCall", Some (obj [(js "name", Some (JStr name)); (js "args", Some args); (js "id", JStr <$> id)]));
           (js "thoughtSignature", JStr <$> sg)]
  | GResponse name isError value parts id =>
      JObj [(js "functionResponse",
        obj [(js "name", Some (JStr name));
             (js "response", Some (JObj [(if isError then js "error" else js "output", JStr value)]));
             (js "parts", (fun l => JArr (map (fun im => inline_data im.1 im.2) l)) <$> parts);
             (js "id", JStr <$> id)])]
  end.

Definition google_content_json (c : google_content) : json :=
  JObj [(js "role", JStr (if gc_model c then js "model" else js "user")); (js "parts", JArr (map google_part_json (gc_parts c)))].

(** ** Tools *)

Definition JSON_SCHEMA_META_DECLARATIONS : list jstr :=
  map js ["$schema"; "$id"; "$anchor"; "$dynamicAnchor"; "$vocabulary"; "$comment"; "$defs"; "definitions"]%string.

Fixpoint sanitizeForOpenApi (schema : json) : json :=
  match schema with
  | JObj fields =>
      JObj ((fix go fields :=
               match fields with
               | [] => []
               | (key, value) :: rest =>
                   if mem key JSON_SCHEMA_META_DECLARATIONS then go rest else (key, sanitizeForOpenApi value) :: go rest
               end) fields)
  | _ => schema
  end.

(** Name, description, parameters, and whether these are given as [parameters]. *)
Record google_tool := GoogleTool { gt_name : jstr; gt_description : jstr; gt_parameters : json; gt_openApi : bool }.

Definition convert_google_tool (useParameters supportsStrictMode : bool) (t : api_tool) : result jstr google_tool :=
  let! strict := resolveJsonSchemaStrictSampling (at_tool t) supportsStrictMode in
  let! parameters := getJsonSchemaToolParameters (at_tool t) strict in
  Ok (GoogleTool (at_name t) (at_description t) (if useParameters then sanitizeForOpenApi parameters else parameters) useParameters).

Definition convertTools3 (tools : list api_tool) (useParameters supportsStrictMode : bool) : result jstr (option (list google_tool)) :=
  match tools with
  | [] => Ok None
  | _ => let! ts := map_throw (convert_google_tool useParameters supportsStrictMode) tools in Ok (Some ts)
  end.

Definition google_tool_json (t : google_tool) : json :=
  JObj [(js "name", JStr (gt_name t)); (js "description", JStr (gt_description t));
        (if gt_openApi t then js "parameters" else js "parametersJsonSchema", gt_parameters t)].

Definition mapToolChoice (choice : jstr) : jstr :=
  if streq choice (js "auto") then js "AUTO"
  else if streq choice (js "none") then js "NONE"
  else if streq choice (js "any") then js "ANY" else js "AUTO".

(** [tools.some(tool => ... === true)] *)
Fixpoint some_strict (tools : list api_tool) (supportsStrictMode : bool) : result jstr bool :=
  match tools with
  | [] => Ok false
  | t :: rest =>
      let! strict := resolveJsonSchemaStrictSampling (at_tool t) supportsStrictMode in
      if strict then Ok true else some_strict rest supportsStrictMode
  end.

Definition resolveGoogleFunctionCallingMode (tools : list api_tool) (toolChoice : option jstr) (supportsStrictMode : bool)
  : result jstr (option jstr) :=
  let! useStrictMode := some_strict tools supportsStrictMode in
  Ok (match toolChoice with
      | Some choice =>
          if streq choice (js "none") || streq choice (js "any") then Some (mapToolChoice choice)
          else if useStrictMode then Some (js "VALIDATED")
          else if truthy choice then Some (mapToolChoice choice) else None
      | None => if useStrictMode then Some (js "VALIDATED") else None
      end).

(** ** Thinking *)

Definition resolveGoogleThinkingLevel (m : model) (level : jstr) : result jstr jstr :=
  if streq level (js "off") then Ok (js "high")
  else
    let mapped := mapped_level m level in
    let resolvedLevel := match mapped with Some (Some l) => toLowerCase l | _ => level end in
    if mem resolvedLevel (map js ["minimal"; "low"; "medium"; "high"]%string) then Ok resolvedLevel
    else Throw (js "Unsupported Google thinking level mapping for " ++ m_provider m ++ js "/" ++ m_id m ++ js ": " ++ level ++
                js " -> " ++ match mapped with Some (Some l) => l | Some None => js "null" | None => js "undefined" end).

Definition isGemma4Model (m : model) : bool := test (regex (js "gemma-?4") false) (toLowerCase (m_id m)).

Definition isGemini3ProModel (m : model) : bool := test (regex (js "gemini-3(?:\.\d+)?-pro") false) (toLowerCase (m_id m)).

Definition isGemini3FlashModel (m : model) : bool :=
  let id := toLowerCase (m_id m) in
  test (regex (js "gemini-3(?:\.\d+)?-flash") false) id || streq id (js "gemini-flash-latest") || streq id (js "gemini-flash-lite-latest").

Definition thinking_level (l : string) : list (jstr * json) := [(js "thinkingLevel", JStr (js l))].

Definition getDisabledThinkingConfig (m : model) : list (jstr * json) :=
  if isGemini3ProModel m then thinking_level "LOW"
  else if isGemini3FlashModel m then thinking_level "MINIMAL"
  else if isGemma4Model m then thinking_level "MINIMAL"
  else [(js "thinkingBudget", int_json 0)].

(** The copy of the Vertex provider. *)
Definition getDisabledThinkingConfig2 (m : model) : list (jstr * json) :=
  if isGemini3ProModel m then thinking_level "LOW"
  else if isGemini3FlashModel m then thinking_level "MINIMAL"
  else [(js "thinkingBudget", int_json 0)].

(** A table of texts by effort. *)
Definition by_effort (minimal low medium high : string) (effort : jstr) : option jstr :=
  assoc effort [(js "minimal", js minimal); (js "low", js low); (js "medium", js medium); (js "high", js high)].

Definition getThinkingLevel (effort : jstr) (m : model) : option jstr :=
  or_option (if isGemini3ProModel m then by_effort "LOW" "LOW" "HIGH" "HIGH" effort else None)
    (or_option (if isGemma4Model m then by_effort "MINIMAL" "MINIMAL" "HIGH" "HIGH" effort else None)
       (by_effort "MINIMAL" "LOW" "MEDIUM" "HIGH" effort)).

Definition getGemini3ThinkingLevel (effort : jstr) (m : model) : option jstr :=
  or_option (if isGemini3ProModel m then by_effort "LOW" "LOW" "HIGH" "HIGH" effort else None)
    (by_effort "MINIMAL" "LOW" "MEDIUM" "HIGH" effort).

Definition budget_of (minimal low medium high : Z) (level : jstr) : option Z :=
  assoc level [(js "minimal", minimal); (js "low", low); (js "medium", medium); (js "high", high)].

Definition getGoogleBudget (m : model) (level : jstr) (customBudgets : jstr -> option Z) : option Z :=
  match customBudgets level with
  | Some b => Some b
  | None =>
      if includes (js "2.5-pro") (m_id m) then budget_of 128 2048 8192 32768 level
      else if includes (js "2.5-flash-lite") (m_id m) then budget_of 512 2048 8192 24576 level
      else if includes (js "2.5-flash") (m_id m) then budget_of 128 2048 8192 24576 level
      else Some (-1)
  end.

Definition getGoogleBudget2 (m : model) (level : jstr) (customBudgets : jstr -> option Z) : option Z :=
  match customBudgets level with
  | Some b => Some b
  | None =>
      if includes (js "2.5-pro") (m_id m) then budget_of 128 2048 8192 32768 level
      else if includes (js "2.5-flash") (m_id m) then budget_of 128 2048 8192 24576 level
      else Some (-1)
  end.

(** [options.thinking] *)
Record google_thinking := GoogleThinking { gk_enabled : bool; gk_level : option jstr; gk_budget : option Z }.

(** The thinking options of [streamSimple] of the Generative AI provider. *)
Definition simple_thinking5 (m : model) (reasoning : option jstr) (customBudgets : jstr -> option Z) : result jstr google_thinking :=
  if negb (truthy_opt reasoning) then Ok (GoogleThinking false None None)
  else
    let! resolvedLevel := resolveGoogleThinkingLevel m (clampThinkingLevel m (nullish reasoning [])) in
    Ok (if isGemini3ProModel m || isGemini3FlashModel m || isGemma4Model m
        then GoogleThinking true (getThinkingLevel resolvedLevel m) None
        else GoogleThinking true None (getGoogleBudget m resolvedLevel customBudgets)).

Definition simple_thinking6 (m : model) (reasoning : option jstr) (customBudgets : jstr -> option Z) : result jstr google_thinking :=
  if negb (truthy_opt reasoning) then Ok (GoogleThinking false None None)
  else
    let! resolvedLevel := resolveGoogleThinkingLevel m (clampThinkingLevel m (nullish reasoning [])) in
    Ok (if isGemini3ProModel m || isGemini3FlashModel m
        then GoogleThinking true (getGemini3ThinkingLevel resolvedLevel m) None
        else GoogleThinking true None (getGoogleBudget2 m resolvedLevel customBudgets)).

(** ** The request *)

(** [options.signal] is given by whether it is aborted. *)
Record google_options := GoogleOptions {
  go_temperature : option Q; go_maxTokens : option Z; go_toolChoice : option jstr;
  go_thinking : option google_thinking; go_signal : option bool
}.

Section Params.
(** Where the two copies differ: how a level is written, and how thinking is turned off. *)
Context (level_name : jstr -> option jstr) (disabled : model -> list (jstr * json)).

Definition thinking_config (m : model) (thinking : option google_thinking) : option json :=
  match thinking with
  | Some k =>
      if negb (m_reasoning m) then None
      else if gk_enabled k then
        Some (obj [(js "includeThoughts", Some (JBool true));
                   (js "thinkingLevel", JStr <$> (gk_level k ≫= level_name));
                   (js "thinkingBudget", match gk_level k with None => int_json <$> gk_budget k | Some _ => None end)])
      else Some (JObj (disabled m))
  | None => None
  end.

(** The contents and tools of a request. *)
Definition google_request (m : model) (now : Z) (messages : list raw_message) (tools : option (list api_tool)) (o : google_options)
  : result jstr (list google_content * option jstr * option (list google_tool)) :=
  let contents := convertMessages3 m messages now in
  let supportsStrictMode := supportsGoogleStrictToolSampling (m_id m) in
  let! mode :=
    match nullish tools [] with [] => Ok None | ts => resolveGoogleFunctionCallingMode ts (go_toolChoice o) supportsStrictMode end in
  let! wire := convertTools3 (nullish tools []) false supportsStrictMode in
  Ok (contents, mode, wire).

Definition google_params (m : model) (now : Z) (systemPrompt : option jstr) (messages : list raw_message)
    (tools : option (list api_tool)) (o : google_options) : result jstr (list (jstr * json)) :=
  let! request := google_request m now messages tools o in
  let '(contents, mode, wire) := request in
  let config :=
    obj [(js "temperature", (fun q => JNum (Finite q)) <$> go_temperature o);
         (js "maxOutputTokens", int_json <$> go_maxTokens o);
         (js "systemInstruction", if truthy_opt systemPrompt then (fun s => JStr (sanitizeSurrogates s)) <$> systemPrompt else None);
         (js "tools", (fun ts => JArr [JObj [(js "functionDeclarations", JArr (map google_tool_json ts))]]) <$> wire);
         (js "toolConfig", (fun md => JObj [(js "functionCallingConfig", JObj [(js "mode", JStr md)])]) <$> mode);
         (js "thinkingConfig", thinking_config m (go_thinking o))] in
  if bool_decide (go_signal o = Some true) then Throw (js "Request aborted")
  else Ok [(js "model", JStr (m_id m)); (js "contents", JArr (map google_content_json contents)); (js "config", config)].
End Params.

Definition buildParams5 := google_params (fun l => Some l) getDisabledThinkingConfig.

(** A level that is not in the table is left out. *)
Definition THINKING_LEVEL_MAP (level : jstr) : option jstr :=
  if mem level (map js ["THINKING_LEVEL_UNSPECIFIED"; "MINIMAL"; "LOW"; "MEDIUM"; "HIGH"]%string) then Some level else None.

Definition buildParams6 := google_params THINKING_LEVEL_MAP getDisabledThinkingConfig2.
End Names.

(** ** The clients *)

Definition providerHeadersToRecord (headers : option header_list) : option (list (jstr * jstr)) :=
  match headers with
  | None => None
  | Some h => match omap (fun kv : jstr * option jstr => pair kv.1 <$> kv.2) h with [] => None | l => Some l end
  end.

Record http_options := HttpOptions {
  ho_baseUrl : option jstr; ho_collectionScope : bool; ho_apiVersion : option jstr; ho_headers : option (list (jstr * jstr))
}.

Record google_client := GoogleClient {
  gl_vertexai : bool; gl_apiKey : option jstr; gl_project : option jstr; gl_location : option jstr;
  gl_apiVersion : option jstr; gl_keyFilename : option jstr; gl_httpOptions : option http_options
}.

(** [undefined] for an object without fields. *)
Definition some_options (h : http_options) : option http_options :=
  match h with HttpOptions None _ None None => None | _ => Some h end.

Definition google_headers (userAgent : jstr) (m : model) (optionsHeaders : option header_list) : option (list (jstr * jstr)) :=
  providerHeadersToRecord
    (Some (mergeHeaders2 [Some [(js "User-Agent", Some userAgent)]; map (fun kv : jstr * jstr => (kv.1, Some kv.2)) <$> m_headers m; optionsHeaders])).

Definition createClient5 (userAgent : jstr) (m : model) (apiKey : jstr) (optionsHeaders : option header_list) : google_client :=
  let custom := truthy (m_baseUrl m) in
  GoogleClient false (Some apiKey) None None None None
    (some_options (HttpOptions (if custom then Some (m_baseUrl m) else None) false (if custom then Some [] else None)
       (google_headers userAgent m optionsHeaders))).

Definition API_VERSION : jstr := js "v1".
Definition GCP_VERTEX_CREDENTIALS_MARKER : jstr := js "gcp-vertex-credentials".

Definition resolveCustomBaseUrl (baseUrl : jstr) : option jstr :=
  let trimmed := trim baseUrl in
  if negb (truthy trimmed) || includes (js "{location}") trimmed then None else Some trimmed.

(** A version such as [v1] or [v1beta2]. *)
Definition version_part (part : jstr) : bool := match_all false (body (regex (js "v\d+(?:beta\d*)?") false)) part.

Section Vertex.
(** [new URL(s).pathname], or [None] when it throws, and [getProviderEnvValue]. *)
Context (url_path : jstr -> option jstr) (env : jstr -> option jstr).

(** The pattern of the [catch] clause finds the same parts, between slashes. *)
Definition baseUrlIncludesApiVersion (baseUrl : jstr) : bool :=
  existsb version_part (split_char 47 (nullish (url_path baseUrl) baseUrl)).

Definition buildHttpOptions (userAgent : jstr) (m : model) (optionsHeaders : option header_list) : option http_options :=
  let headers := google_headers userAgent m optionsHeaders in
  some_options
    match resolveCustomBaseUrl (m_baseUrl m) with
    | Some baseUrl => HttpOptions (Some baseUrl) true (if baseUrlIncludesApiVersion baseUrl then Some [] else None) headers
    | None => HttpOptions None false None headers
    end.

Definition isPlaceholderApiKey (apiKey : jstr) : bool :=
  match apiKey with
  | 60 :: r => match rev r with 62 :: inner => negb (bool_decide (inner = [])) && forallb (fun c => negb (c =? 62)) inner | _ => false end
  | _ => false
  end.

Definition resolveApiKey2 (apiKey : option jstr) : option jstr :=
  match trim <$> apiKey with
  | Some k => if negb (truthy k) || streq k GCP_VERTEX_CREDENTIALS_MARKER || isPlaceholderApiKey k then None else Some k
  | None => None
  end.

Definition truthy_or (a b : option jstr) : option jstr := if truthy_opt a then a else b.

Definition resolveProject (project : option jstr) : result jstr jstr :=
  let p := truthy_or project (truthy_or (env (js "GOOGLE_CLOUD_PROJECT")) (env (js "GCLOUD_PROJECT"))) in
  if truthy_opt p then Ok (nullish p [])
  else Throw (js "Vertex AI requires a project ID. Set GOOGLE_CLOUD_PROJECT/GCLOUD_PROJECT or pass project in options.").

Definition resolveLocation (location : option jstr) : result jstr jstr :=
  let l := truthy_or location (env (js "GOOGLE_CLOUD_LOCATION")) in
  if truthy_opt l then Ok (nullish l [])
  else Throw (js "Vertex AI requires a location. Set GOOGLE_CLOUD_LOCATION or pass location in options.").

Definition buildGoogleAuthOptions2 : option jstr :=
  let keyFilename := env (js "GOOGLE_APPLICATION_CREDENTIALS") in if truthy_opt keyFilename then keyFilename else None.

Definition createClient6 (userAgent : jstr) (m : model) (project location : jstr) (optionsHeaders : option header_list) : google_client :=
  GoogleClient true None (Some project) (Some location) (Some API_VERSION) buildGoogleAuthOptions2 (buildHttpOptions userAgent m optionsHeaders).

Definition createClientWithApiKey (userAgent : jstr) (m : model) (apiKey : jstr) (optionsHeaders : option header_list) : google_client :=
  GoogleClient true (Some apiKey) None None (Some API_VERSION) None (buildHttpOptions userAgent m optionsHeaders).

(** The client of a call. *)
Definition vertex_client (userAgent : jstr) (m : model) (apiKey project location : option jstr) (optionsHeaders : option header_list)
  : result jstr google_client :=
  match resolveApiKey2 apiKey with
  | Some k => Ok (createClientWithApiKey userAgent m k optionsHeaders)
  | None =>
      let! p := resolveProject project in let! l := resolveLocation location in Ok (createClient6 userAgent m p l optionsHeaders)
  end.
End Vertex.

(** ** Retries *)

(** The SDK's errors have a status and no headers; with [headers] they are those of
    a provider. *)
Definition with_headers (e : request_error) : request_error :=
  match re_status e, re_headers e with
  | StatusMissing, _ => e
  | _, HeadersMissing => if is_Error e then RequestError true (re_status e) HeadersUndefined (re_message e) else e
  | _, _ => e
  end.

Definition with_headers_attempt {V} (a : attempt V) : attempt V :=
  match a with Raises e aborted sleeping => Raises (with_headers e) aborted sleeping | a => a end.

Definition retryGoogleRequest (date_delay : jstr -> jsnum) (random : nat -> Q) {V} (request : nat -> attempt V)
    (maxRetries : option nat) (maxRetryDelayMs : option Z) : nat * list jsnum * outcome V :=
  retryProviderRequest date_delay random (fun k => with_headers_attempt (request k)) maxRetries maxRetryDelayMs.

(** * Facts *)

(** ** Function calls are answered by the next content *)

Section Pairs.
Context (toLowerCase : jstr -> jstr) (m : model).
Context (Himages : supportsMultimodalFunctionResponse toLowerCase (m_id m) = true \/ js "image" ∉ m_input m).
#[local] Abbreviation step_turn := (google_turn toLowerCase m).
#[local] Abbreviation respond := (google_response toLowerCase m).

(** The results at the front of the messages, and the contents of the others. *)
Definition opened (rs : list tool_result) : list google_content :=
  match rs with [] => [] | _ => [GContent false (map respond rs)] end.

Fixpoint front (ms : list message) : list tool_result :=
  match ms with
  | [] => []
  | MToolResult r :: rest => r :: front rest
  | msg :: rest => match step_turn [] msg with [] => front rest | _ => [] end
  end.

Fixpoint back (ms : list message) : list google_content :=
  match ms with
  | [] => []
  | MToolResult r :: rest => back rest
  | msg :: rest => match step_turn [] msg with [] => back rest | cs => cs ++ opened (front rest) ++ back rest end
  end.

Lemma turn_result contents r : step_turn contents (MToolResult r) = add_response contents (respond r).
Proof.
  cbn [google_turn]. destruct Himages as [H|H]; [by rewrite H, andb_false_r|].
  unfold google_images. by rewrite (bool_decide_eq_false_2 _ H).
Qed.

Definition not_open (contents : list google_content) : Prop :=
  forall parts, last contents = Some (GContent false parts) -> existsb is_response parts = false.

Lemma turn_app contents msg :
  (forall r, msg ≠ MToolResult r) -> step_turn contents msg = contents ++ step_turn [] msg /\ (step_turn [] msg ≠ [] -> not_open (contents ++ step_turn [] msg)).
Proof.
  intros Hno. destruct msg as [[s|ps] t|a|r|x t]; cbn [google_turn app].
  - split; [done|]. intros _ parts. rewrite last_snoc. by intros [= <-].
  - destruct ps as [|p ps]; [by rewrite app_nil_r|]. split; [done|]. intros _ parts. cbn [app]. rewrite last_snoc. intros [= <-].
    rewrite <- not_true_iff_false, existsb_exists. intros (y & Hy & Hr). apply (in_map_iff google_user_part (p :: ps)) in Hy as (q & <- & _).
    by destruct q.
  - destruct (convert_google_assistant toLowerCase m a) as [|x l]; [by rewrite app_nil_r|]. split; [done|]. intros _ parts. cbn [app]. by rewrite last_snoc.
  - by destruct (Hno r).
  - by rewrite app_nil_r.
Qed.

Lemma has_response r rs : existsb is_response (map respond (r :: rs)) = true.
Proof. done. Qed.

Lemma loop_front ms :
  (forall contents, not_open contents -> foldl step_turn contents ms = contents ++ opened (front ms) ++ back ms) /\
  (forall pre r rs, foldl step_turn (pre ++ [GContent false (map respond (r :: rs))]) ms = pre ++ [GContent false (map respond (r :: rs ++ front ms))] ++ back ms).
Proof.
  induction ms as [|msg ms [IH1 IH2]].
  { split; [intros contents _; by rewrite !app_nil_r|intros pre r rs; cbn [foldl front back]; by rewrite !app_nil_r]. }
  assert (Hother : (forall r, msg ≠ MToolResult r) -> front (msg :: ms) = (match step_turn [] msg with [] => front ms | _ => [] end) /\
    back (msg :: ms) = match step_turn [] msg with [] => back ms | cs => cs ++ opened (front ms) ++ back ms end).
  { intros Hno. destruct msg; try done. by destruct (Hno r). }
  assert (Hc : (exists r, msg = MToolResult r) \/ (forall r, msg ≠ MToolResult r)) by (destruct msg; eauto).
  destruct Hc as [[r ->]|Hno].
  - cbn [foldl front back]. split.
    + intros contents Hn. rewrite turn_result. unfold add_response.
      assert (Hadd : match last contents with Some (GContent false parts) =>
          if existsb is_response parts then removelast contents ++ [GContent false (parts ++ [respond r])] else contents ++ [GContent false [respond r]]
        | _ => contents ++ [GContent false [respond r]] end = contents ++ [GContent false [respond r]]).
      { destruct (last contents) as [[[] parts]|] eqn:El; [done| |done]. by rewrite (Hn parts El). }
      rewrite Hadd. exact (IH2 contents r []).
    + intros pre r' rs. rewrite turn_result. unfold add_response. rewrite last_snoc, has_response, removelast_last.
      pose proof (IH2 pre r' (rs ++ [r])) as H. rewrite <- app_assoc in H. etrans; [|exact H].
      do 3 f_equal. by rewrite !map_cons, map_app.
  - destruct (Hother Hno) as [-> ->]. cbn [foldl]. split.
    + intros contents Hn. destruct (turn_app contents msg Hno) as [-> Ho]. destruct (step_turn [] msg) as [|c cs] eqn:Et.
      { rewrite app_nil_r. by apply IH1. }
      rewrite IH1 by (by apply Ho). cbn [opened app]. by rewrite <- app_assoc.
    + intros pre r rs. destruct (turn_app (pre ++ [GContent false (map respond (r :: rs))]) msg Hno) as [-> Ho]. destruct (step_turn [] msg) as [|c cs] eqn:Et.
      { rewrite app_nil_r. by apply IH2. }
      rewrite IH1 by (by apply Ho). rewrite app_nil_r. by rewrite <- !app_assoc.
Qed.

(** A content of the model is what an assistant message becomes; when that has calls,
    the next content consists of responses, to each of the calls among others. *)
Definition answered_next (c : google_content) (rest : list google_content) : Prop :=
  gc_model c = true ->
  exists a, gc_parts c = convert_google_assistant toLowerCase m a /\
    (tool_calls (a_content a) ≠ [] ->
     exists rs rest', rest = GContent false (map respond rs) :: rest' /\
       forall tc, tc ∈ tool_calls (a_content a) -> exists r, r ∈ rs /\ tr_toolCallId r = tc_id tc).

Fixpoint google_paired (contents : list google_content) : Prop :=
  match contents with [] => True | c :: rest => answered_next c rest /\ google_paired rest end.

Lemma answered_front ms id : answered ms id -> exists r, r ∈ front ms /\ tr_toolCallId r = id.
Proof.
  unfold answered. induction ms as [|msg ms IH]; [by intros ?%Exists_nil|]. destruct msg as [c t|a|r|x t]; cbn [segment]; try (by intros ?%Exists_nil).
  - intros [H|H]%Exists_cons; [exists r; split; [left|exact H]|]. destruct (IH H) as (r' & Hr & E). exists r'. split; [by right|done].
  - intros [[]|H]%Exists_cons. by apply IH.
Qed.

Lemma opened_paired rs rest : google_paired rest -> google_paired (opened rs ++ rest).
Proof. intros H. destruct rs as [|r rs]; [done|]. split; [intros [=]|done]. Qed.

Lemma answered_opened a ms :
  Forall (fun tc => answered ms (tc_id tc)) (tool_calls (a_content a)) ->
  answered_next (GContent true (convert_google_assistant toLowerCase m a)) (opened (front ms) ++ back ms).
Proof.
  intros Ha _. exists a. split; [done|]. intros Hc. destruct (tool_calls (a_content a)) as [|tc tcs] eqn:Et; [done|].
  rewrite Forall_forall in Ha. destruct (answered_front ms (tc_id tc)) as (r & Hr & _); [apply Ha; left|].
  exists (front ms), (back ms). split; [by destruct (front ms); [apply elem_of_nil in Hr|]|]. intros tc' Hin. by apply answered_front, Ha.
Qed.

Lemma back_paired ms : all_answered ms -> google_paired (back ms).
Proof.
  induction ms as [|msg ms IH]; [done|]. destruct msg as [[s|[|p ps]] t|a|r|x t]; cbn [all_answered back google_turn app]; intros Ha; try (by apply IH).
  - split; [intros [=]|]. by apply opened_paired, IH.
  - split; [intros [=]|]. by apply opened_paired, IH.
  - destruct Ha as [Ha1 Ha2]. apply answered_opened in Ha1. destruct (convert_google_assistant toLowerCase m a) as [|q l]; [by apply IH|].
    split; [done|]. by apply opened_paired, IH.
Qed.
End Pairs.

Section Parts.
Context (toLowerCase : jstr -> jstr) (m : model).

(** What a message adds to a request. *)
Definition message_parts (msg : message) : list google_part := google_turn toLowerCase m [] msg ≫= gc_parts.

Lemma add_response_parts contents p : add_response contents p ≫= gc_parts = (contents ≫= gc_parts) ++ [p].
Proof.
  unfold add_response. destruct (last contents) as [[[] parts]|] eqn:El; try (by rewrite bind_app).
  destruct (existsb is_response parts); [|by rewrite bind_app]. apply last_Some in El as [l ->].
  rewrite removelast_last, !bind_app. cbn [mbind list_bind gc_parts app]. by rewrite !app_nil_r, app_assoc.
Qed.

Lemma turn_parts contents msg : google_turn toLowerCase m contents msg ≫= gc_parts = (contents ≫= gc_parts) ++ message_parts msg.
Proof.
  unfold message_parts. destruct msg as [[s|[|p ps]] t|a|r|x t]; cbn [google_turn app]; rewrite ?bind_app, ?app_nil_r; [done|done|done| | |done].
  - destruct (convert_google_assistant toLowerCase m a); by rewrite ?bind_app, ?app_nil_r.
  - assert (Hadd : forall contents, add_response contents (google_response toLowerCase m r) ≫= gc_parts =
      (contents ≫= gc_parts) ++ add_response [] (google_response toLowerCase m r) ≫= gc_parts).
    { intros cs. by rewrite !add_response_parts. }
    destruct (_ && _); rewrite ?bind_app, Hadd; [by rewrite <- app_assoc|done].
Qed.

Lemma convert_parts ms : foldl (google_turn toLowerCase m) [] ms ≫= gc_parts = ms ≫= message_parts.
Proof.
  assert (H : forall contents, foldl (google_turn toLowerCase m) contents ms ≫= gc_parts = (contents ≫= gc_parts) ++ ms ≫= message_parts);
    [|apply (H [])].
  induction ms as [|msg ms IH]; intros contents; cbn [foldl]; [by rewrite app_nil_r|]. by rewrite IH, turn_parts, bind_cons, app_assoc.
Qed.
End Parts.

(** In every request to a Google provider the parts are those of the messages of the
    replayed conversation, in order.  Unless results carry images that the model
    cannot take inside a response, a content of the model with function calls is
    followed at once by one content that holds a response to each of the calls and
    nothing but responses. *)
Theorem google_request_pairs toLowerCase m messages now :
  let contents := convertMessages3 toLowerCase m messages now in
  let replayed := transformMessages messages m (Some (fun id _ _ => normalizeGoogleId toLowerCase m id)) now in
  contents ≫= gc_parts = replayed ≫= message_parts toLowerCase m /\
  (supportsMultimodalFunctionResponse toLowerCase (m_id m) || negb (bool_decide (js "image" ∈ m_input m)) = true ->
   google_paired toLowerCase m contents).
Proof.
  intros contents replayed. split; [apply convert_parts|]. intros Hi. unfold contents, convertMessages3. fold replayed.
  assert (Himages : supportsMultimodalFunctionResponse toLowerCase (m_id m) = true \/ js "image" ∉ m_input m).
  { apply orb_true_iff in Hi as [Hi|Hi]; [by left|right]. by apply negb_true_iff, bool_decide_eq_false in Hi. }
  destruct (loop_front toLowerCase m Himages replayed) as [-> _]; [|by intros parts]. cbn [app]. apply opened_paired, back_paired, pair_results_answered.
Qed.

(** ** Thinking *)

(** The two providers ask for the same thinking, except of Gemma and of the
    Flash-Lite models. *)
Theorem google_copies_agree toLowerCase m reasoning budgets :
  isGemma4Model toLowerCase m = false -> includes (js "2.5-flash-lite") (m_id m) = false ->
  simple_thinking5 toLowerCase m reasoning budgets = simple_thinking6 toLowerCase m reasoning budgets /\
  getDisabledThinkingConfig toLowerCase m = getDisabledThinkingConfig2 toLowerCase m.
Proof.
  intros H1 H2. unfold simple_thinking5, simple_thinking6, getDisabledThinkingConfig, getDisabledThinkingConfig2, getThinkingLevel,
    getGemini3ThinkingLevel, getGoogleBudget, getGoogleBudget2. by rewrite H1, H2, orb_false_r.
Qed.

Lemma by_effort_known a b c d level :
  mem level (map js ["minimal"; "low"; "medium"; "high"]%string) = true -> exists s, s ∈ [a; b; c; d] /\ by_effort a b c d level = Some (js s).
Proof.
  rewrite mem_spec. unfold by_effort. cbn [map]. intros H. repeat (apply elem_of_cons in H as [->|H]); [| | | |by apply elem_of_nil in H];
    eexists; (split; [|reflexivity]); set_solver.
Qed.

(** Whenever thinking is asked for, it is with a level the API knows or with a budget. *)
Lemma google_thinking_sent toLowerCase m r budgets k :
  truthy r = true -> simple_thinking6 toLowerCase m (Some r) budgets = Ok k ->
  gk_enabled k = true /\ (is_Some (gk_level k ≫= THINKING_LEVEL_MAP) \/ is_Some (gk_budget k)).
Proof.
  intros Hr. unfold simple_thinking6. cbn [truthy_opt nullish]. rewrite Hr. cbn [negb].
  destruct (resolveGoogleThinkingLevel _ _ _) as [level|] eqn:E; [|done]. cbn [bind]. intros [= <-].
  assert (Hl : mem level (map js ["minimal"; "low"; "medium"; "high"]%string) = true).
  { unfold resolveGoogleThinkingLevel in E. destruct (streq _ _); [by injection E as <-|]. cbn zeta in E.
    destruct (mem _ _) eqn:Em; [|done]. injection E as <-. exact Em. }
  destruct (isGemini3ProModel _ _ || isGemini3FlashModel _ _); (split; [done|]).
  - left. unfold getGemini3ThinkingLevel. destruct (isGemini3ProModel _ _);
      [destruct (by_effort_known "LOW" "LOW" "HIGH" "HIGH" level Hl) as (s & Hs & ->)|
       destruct (by_effort_known "MINIMAL" "LOW" "MEDIUM" "HIGH" level Hl) as (s & Hs & ->)]; cbn [or_option gk_level mbind option_bind];
      repeat (apply elem_of_cons in Hs as [->|Hs]); try (by eexists); by apply elem_of_nil in Hs.
  - right. unfold getGoogleBudget2, budget_of. cbn [gk_budget]. destruct (budgets level); [by eexists|].
    apply mem_spec in Hl. cbn [map] in Hl.
    destruct (includes _ _); [|destruct (includes _ _); [|by eexists]];
      repeat (apply elem_of_cons in Hl as [->|Hl]); try (by eexists); by apply elem_of_nil in Hl.
Qed.

(** ** Retries *)

(** An overloaded server is tried again: an error of the SDK with status 429 or of
    the 500s, which has no headers, is retried while retries remain. *)
Theorem google_errors_retried date_delay random {V} (request : nat -> attempt V) maxRetryDelayMs message status k r :
  request k = Raises (RequestError true (StatusNumber status) HeadersMissing message) false false ->
  status = 429 \/ 500 <= status ->
  retry_loop date_delay random (fun k => with_headers_attempt (request k)) maxRetryDelayMs (S r) k =
  let '(n, sleeps, o) := retry_loop date_delay random (fun k => with_headers_attempt (request k)) maxRetryDelayMs r (S k) in
  (n, clamp_sleep (jittered random k) :: sleeps, o).
Proof.
  intros Hk Hs. cbn [retry_loop]. rewrite Hk. cbn [with_headers_attempt with_headers re_status re_headers is_Error re_message].
  assert (Hp : isRetryableProviderError (RequestError true (StatusNumber status) HeadersUndefined message) = true).
  { unfold isRetryableProviderError. cbn. destruct Hs as [->|Hs]; [done|]. rewrite (proj2 (Z.leb_le _ _) Hs). by rewrite !orb_true_r. }
  rewrite Hp. done.
Qed.

Lemma google_errors_retried_witness :
  let request := fun k : nat => match k with O => Raises (RequestError true (StatusNumber 503) HeadersMissing (js "busy")) false false | _ => Returns 7 end in
  retryGoogleRequest (fun _ => NaN) (fun _ => 0%Q) request (Some 1%nat) None = (2%nat, [clamp_sleep (jittered (fun _ => 0%Q) 0)], Done 7).
Proof.
  intros request. unfold retryGoogleRequest, retryProviderRequest. cbn [nullish].
  rewrite (google_errors_retried _ _ request None (js "busy") 503 0 0 eq_refl ltac:(right; lia)). reflexivity.
Defined.

(** ** A request *)

Definition gemini_model (id : string) : model :=
  Model (js id) (js "Gemini") (js "google-generative-ai") (js "google") [] true
    [js "text"; js "image"] 200000 64000 (CostRates 3 15 (3 # 10) (15 # 4)) None None None.

Definition google_messages : list raw_message :=
  [Complete (MUser (UString (js "hello")) 0);
   Complete (MAssistant (Assistant (js "google") (js "google-generative-ai") (js "gemini-3-pro")
     [BThinking (js "hm") (Some (js "c2ln")) false; BText (js " ") None;
      BToolCall (ToolCall (js "c1") (js "read") (JObj []) (Some (js "c2ln")) None);
      BToolCall (ToolCall (js "c2") (js "draw") JNull (Some (js "not base64")) None)] ToolUse None zero_usage 1));
   Complete (MToolResult (ToolResult (js "c1") (js "read") [PText (js "text")] false None 2));
   Complete (MToolResult (ToolResult (js "c2") (js "draw") [PImage (js "aGk=") (js "image/png")] true None 2));
   Complete (MUser (UParts [PText (js "go on")]) 3)].

Example google_request_ex :
  convertMessages3 lower_ascii (gemini_model "gemini-3-pro") google_messages 9 =
  [GContent false [GText false (js "hello") None];
   GContent true [GText true (js "hm") (Some (js "c2ln")); GCall (js "read") (JObj []) (Some (js "c1")) (Some (js "c2ln"));
                  GCall (js "draw") (JObj []) (Some (js "c2")) None];
   GContent false [GResponse (js "read") false (js "text") None (Some (js "c1"));
                   GResponse (js "draw") true (js "(see attached image)") (Some [(js "image/png", js "aGk=")]) (Some (js "c2"))];
   GContent false [GText false (js "go on") None]].
Proof. vm_compute. reflexivity. Qed.

Lemma google_request_pairs_witness :
  google_paired lower_ascii (gemini_model "gemini-3-pro") (convertMessages3 lower_ascii (gemini_model "gemini-3-pro") google_messages 9).
Proof. apply (google_request_pairs lower_ascii (gemini_model "gemini-3-pro") google_messages 9). vm_compute. reflexivity. Defined.

Lemma google_copies_agree_witness :
  simple_thinking5 lower_ascii (gemini_model "gemini-3-pro") (Some (js "low")) (fun _ => None) = Ok (GoogleThinking true (Some (js "LOW")) None).
Proof.
  destruct (google_copies_agree lower_ascii (gemini_model "gemini-3-pro") (Some (js "low")) (fun _ => None)
    ltac:(vm_compute; reflexivity) ltac:(vm_compute; reflexivity)) as [-> _]. vm_compute. reflexivity.
Defined.

(** For a model before Gemini 3 that takes images, the picture of one result stands
    between it and the next: the two calls of a turn are answered in two contents
    that are not next to each other. *)
Lemma google_images_split :
  let messages :=
    [Complete (MAssistant (Assistant (js "google") (js "google-generative-ai") (js "gemini-2.5-pro")
       [BToolCall (ToolCall (js "c1") (js "draw") (JObj []) None None); BToolCall (ToolCall (js "c2") (js "read") (JObj []) None None)]
       ToolUse None zero_usage 1));
     Complete (MToolResult (ToolResult (js "c1") (js "draw") [PImage (js "aGk=") (js "image/png")] false None 2));
     Complete (MToolResult (ToolResult (js "c2") (js "read") [PText (js "text")] false None 2))] in
  convertMessages3 lower_ascii (gemini_model "gemini-2.5-pro") messages 9 =
  [GContent true [GCall (js "draw") (JObj []) None None; GCall (js "read") (JObj []) None None];
   GContent false [GResponse (js "draw") false (js "(see attached image)") None None];
   GContent false [GText false (js "Tool result image:") None; GImage (js "image/png") (js "aGk=")];
   GContent false [GResponse (js "read") false (js "text") None None]].
Proof. vm_compute. reflexivity. Qed.

(** The Vertex copy has no entry for Flash-Lite and asks for a budget its sibling
    knows to be too small. *)
Lemma vertex_flash_lite_budget :
  getGoogleBudget (gemini_model "gemini-2.5-flash-lite") (js "minimal") (fun _ => None) = Some 512 /\
  getGoogleBudget2 (gemini_model "gemini-2.5-flash-lite") (js "minimal") (fun _ => None) = Some 128.
Proof. split; vm_compute; reflexivity. Qed.

(** A parameter that is called [definitions] loses its schema. *)
Lemma openApi_drops_parameters :
  sanitizeForOpenApi (JObj [(js "type", JStr (js "object")); (js "properties", JObj [(js "definitions", JObj [])])]) =
  JObj [(js "type", JStr (js "object")); (js "properties", JObj [])].
Proof. reflexivity. Qed.
