(* ===== verification/GoogleStream.v ===== *)
(** The responses of the Google providers: the parts of their chunks, the block that
    is open, the identifiers of calls, usage, stop reasons and the error path
    (packages/ai, [stream] of api/google-generative-ai.js and its copy in
    api/google-vertex.js, with the stop reasons of api/google-shared.js, bundled in
    src/drivers/tools/pibridge/bridge.mjs).  What comes before the response is one
    outcome; the clock and the printing of numbers are parameters. *)
From S2P Require Import Prelude Numbers NodePath Json Messages TransformMessages Models EventStream Faux AnthropicMessages AnthropicStream StreamMonad OpenaiCompletions OpenaiStream GoogleMessages.
Open Scope Z_scope.

(** ** Chunks *)

Record call_in := CallIn { ci_id : option jstr; ci_name : option jstr; ci_args : option json }.

Record part_in := PartIn {
  pi_text : option jstr; pi_thought : bool; pi_signature : option jstr; pi_call : option call_in
}.

Record usage_in := UsageIn {
  ui_prompt : option Z; ui_cached : option Z; ui_candidates : option Z; ui_thoughts : option Z; ui_total : option Z
}.

Record google_chunk := GoogleChunk {
  gh_responseId : option jstr; gh_parts : list part_in; gh_finish : option jstr; gh_usage : option usage_in
}.

Definition read_google_call (v : option json) : option (option call_in) :=
  if negb (truthy_json v) then Some None
  else
    id ← as_opt_string (field "id" v); n ← as_opt_string (field "name" v);
    Some (Some (CallIn id n (field "args" v))).

Definition read_google_part (v : json) : option part_in :=
  let v := Some v in
  t ← match field "text" v with None => Some None | Some (JStr s) => Some (Some s) | _ => None end;
  sg ← as_opt_string (field "thoughtSignature" v);
  c ← read_google_call (field "functionCall" v);
  Some (PartIn t (bool_decide (field "thought" v = Some (JBool true))) sg c).

Definition read_google_usage (u : option json) : option (option usage_in) :=
  if negb (truthy_json u) then Some None
  else
    p ← as_opt_int (field "promptTokenCount" u); c ← as_opt_int (field "cachedContentTokenCount" u);
    o ← as_opt_int (field "candidatesTokenCount" u); t ← as_opt_int (field "thoughtsTokenCount" u);
    n ← as_opt_int (field "totalTokenCount" u);
    Some (Some (UsageIn p c o t n)).

Definition read_google_chunk (v : json) : option google_chunk :=
  let v := Some v in
  i ← as_opt_string (field "responseId" v);
  let candidate := match as_list (field "candidates" v) with Some (x :: _) => Some x | _ => None end in
  ps ← (if truthy_json (field "parts" (field "content" candidate))
        then as_list (field "parts" (field "content" candidate)) ≫= mapM read_google_part else Some []);
  f ← as_opt_string (field "finishReason" candidate);
  u ← read_google_usage (field "usageMetadata" v);
  Some (GoogleChunk i ps f u).

(** ** Stop reasons and usage *)

Definition failed_reasons : list jstr :=
  map js ["BLOCKLIST"; "PROHIBITED_CONTENT"; "SPII"; "SAFETY"; "IMAGE_SAFETY"; "IMAGE_PROHIBITED_CONTENT"; "IMAGE_RECITATION"; "IMAGE_OTHER";
          "RECITATION"; "FINISH_REASON_UNSPECIFIED"; "OTHER"; "LANGUAGE"; "MALFORMED_FUNCTION_CALL"; "UNEXPECTED_TOOL_CALL"; "NO_IMAGE"]%string.

Definition mapStopReason4 (reason : jstr) : result jstr stop_reason :=
  if streq reason (js "STOP") then Ok Stop
  else if streq reason (js "MAX_TOKENS") then Ok Length
  else if mem reason failed_reasons then Ok Error
  else Throw (js "Unhandled stop reason: " ++ reason).

Definition google_tokens (u : usage_in) : usage :=
  Usage (or_zero (ui_prompt u) - or_zero (ui_cached u)) (or_zero (ui_candidates u) + or_zero (ui_thoughts u))
    (or_zero (ui_cached u)) 0 (or_zero (ui_total u)) None zero_cost.

Definition retainThoughtSignature (existing incoming : option jstr) : option jstr := if truthy_opt incoming then incoming else existing.

(** ** The state of a stream *)

(** [currentBlock] is the position of a block of the content. *)
Record google_state := GoogleState {
  gs_blocks : list block; gs_current : option nat; gs_counter : Z; gs_meta : meta
}.

Definition google_init (counter : Z) : google_state := GoogleState [] None counter meta_init.

#[local] Abbreviation M := (streamM google_state).

Definition add_block (b : block) (s : google_state) : google_state :=
  GoogleState (gs_blocks s ++ [b]) (gs_current s) (gs_counter s) (gs_meta s).
Definition set_block (k : nat) (b : block) (s : google_state) : google_state :=
  GoogleState (<[k := b]> (gs_blocks s)) (gs_current s) (gs_counter s) (gs_meta s).
Definition set_current (k : option nat) (s : google_state) : google_state :=
  GoogleState (gs_blocks s) k (gs_counter s) (gs_meta s).
Definition tick (s : google_state) : google_state :=
  GoogleState (gs_blocks s) (gs_current s) (gs_counter s + 1) (gs_meta s).
Definition google_meta (f : meta -> meta) (s : google_state) : google_state :=
  GoogleState (gs_blocks s) (gs_current s) (gs_counter s) (f (gs_meta s)).

Definition blockIndex (s : google_state) : Z := Z.of_nat (length (gs_blocks s)) - 1.

Section Stream.
Context (num_to_string : Q -> jstr) (m : model).
(** [Date.now()] when the counter has a value. *)
Context (clock : Z -> Z).

Definition current_block (s : google_state) : option (nat * block) :=
  match gs_current s with Some k => pair k <$> gs_blocks s !! k | None => None end.

(** The end of the open block. *)
Definition end_current : M () :=
  let* s := state_m in
  match current_block s with
  | Some (_, BText t _) => push_m (EvTextEnd (blockIndex s) t)
  | Some (_, BThinking t _ _) => push_m (EvThinkingEnd (blockIndex s) t)
  | _ => ret ()
  end.

Definition open_kind (isThinking : bool) : M () :=
  let* _ := modify_m (fun s => set_current (Some (length (gs_blocks s))) (add_block (if isThinking then BThinking [] None false else BText [] None) s)) in
  let* s := state_m in
  push_m (if isThinking then EvThinkingStart (blockIndex s) else EvTextStart (blockIndex s)).

(** Whether a new block is needed: none is open, or one of the other kind. *)
Definition needs_block (isThinking : bool) (s : google_state) : bool :=
  match current_block s with
  | Some (_, BThinking _ _ _) => negb isThinking
  | Some (_, BText _ _) => isThinking
  | _ => true
  end.

Definition on_text (isThinking : bool) (text : jstr) (sg : option jstr) : M () :=
  let* s := state_m in
  let* _ := when_m (needs_block isThinking s) (let* _ := end_current in open_kind isThinking) in
  let* s := state_m in
  match current_block s with
  | Some (k, BThinking thinking signature r) =>
      let* _ := modify_m (set_block k (BThinking (thinking ++ text) (retainThoughtSignature signature sg) r)) in
      push_m (EvThinkingDelta (blockIndex s) text)
  | Some (k, BText t signature) =>
      let* _ := modify_m (set_block k (BText (t ++ text) (retainThoughtSignature signature sg))) in
      push_m (EvTextDelta (blockIndex s) text)
  | _ => ret ()
  end.

Definition has_call_id (id : jstr) (b : block) : bool := match b with BToolCall tc => streq (tc_id tc) id | _ => false end.

(** The identifier made up for a call. *)
Definition made_id (c : call_in) (counter : Z) : jstr :=
  nullish (ci_name c) (js "undefined") ++ js "_" ++ num_str (clock counter) ++ js "_" ++ num_str counter.

Definition needs_id (c : call_in) (blocks : list block) : bool :=
  negb (truthy_opt (ci_id c)) || existsb (has_call_id (nullish (ci_id c) [])) blocks.

Definition on_function (c : call_in) (sg : option jstr) : M () :=
  let* s := state_m in
  let* _ := when_m (bool_decide (is_Some (gs_current s))) (let* _ := end_current in modify_m (set_current None)) in
  let* s := state_m in
  let needsNewId := needs_id c (gs_blocks s) in
  let* _ := when_m needsNewId (modify_m tick) in
  let* s := state_m in
  let toolCallId := if needsNewId then made_id c (gs_counter s) else nullish (ci_id c) [] in
  let toolCall :=
    ToolCall toolCallId (nullish (ci_name c) []) (match ci_args c with None | Some JNull => JObj [] | Some v => v end)
      (if truthy_opt sg then sg else None) None in
  let* _ := modify_m (add_block (BToolCall toolCall)) in
  let* s := state_m in
  let* _ := push_m (EvToolStart (blockIndex s)) in
  let* _ := push_m (EvToolDelta (blockIndex s) (JSON_stringify num_to_string (tc_arguments toolCall))) in
  push_m (EvToolEnd (blockIndex s) toolCall).

Definition on_part (p : part_in) : M () :=
  let* _ := match pi_text p with Some text => on_text (pi_thought p) text (pi_signature p) | None => ret () end in
  match pi_call p with Some c => on_function c (pi_signature p) | None => ret () end.

Definition is_call (b : block) : bool := match b with BToolCall _ => true | _ => false end.

Definition with_finish (reason : jstr) (stop : option stop_reason) (mt : meta) : meta :=
  Meta (mt_responseId mt) (mt_responseModel mt) (mt_usage mt) (mt_cost mt) (mt_reasoning mt) stop (Some reason) (mt_error mt) (mt_finished mt).

(** [rawStopReason] is set before the reason is looked up. *)
Definition on_finish (reason : jstr) : M () :=
  let* s := state_m in
  let* _ := modify_m (google_meta (with_finish reason (mt_stop (gs_meta s)))) in
  let* stop := lift_m (mapStopReason4 reason) in
  let* s := state_m in
  let stop := if existsb is_call (gs_blocks s) && bool_decide (stop = Stop) then ToolUse else stop in
  modify_m (google_meta (with_finish reason (Some stop))).

Definition with_response_id (id : option jstr) (mt : meta) : meta :=
  Meta (if truthy_opt (mt_responseId mt) then mt_responseId mt else id) (mt_responseModel mt) (mt_usage mt) (mt_cost mt) (mt_reasoning mt)
    (mt_stop mt) (mt_rawStop mt) (mt_error mt) (mt_finished mt).

Definition with_google_usage (u : usage_in) (mt : meta) : meta :=
  Meta (mt_responseId mt) (mt_responseModel mt) (google_tokens u) (calculateCost m (google_tokens u)) (Some (or_zero (ui_thoughts u)))
    (mt_stop mt) (mt_rawStop mt) (mt_error mt) (mt_finished mt).

Definition on_google_chunk (c : google_chunk) : M () :=
  let* _ := modify_m (google_meta (with_response_id (gh_responseId c))) in
  let* _ := each_m on_part (gh_parts c) in
  let* _ := match gh_finish c with Some r => when_m (truthy r) (on_finish r) | None => ret () end in
  match gh_usage c with Some u => modify_m (google_meta (with_google_usage u)) | None => ret () end.

Context (api : jstr) (unfinished : jstr) (now : Z).

Definition google_message (s : google_state) (stop : stop_reason) (error : option jstr) : assistant :=
  let u := mt_usage (gs_meta s) in
  Assistant (m_provider m) api (m_id m) (gs_blocks s) stop error
    (Usage (u_input u) (u_output u) (u_cacheRead u) (u_cacheWrite u) (u_totalTokens u) None (finite_cost (mt_cost (gs_meta s)))) now.

(** What follows the loop. *)
Definition google_reason (aborted : bool) (s : google_state) : result jstr stop_reason :=
  if aborted then Throw (js "Request was aborted")
  else
    match mt_stop (gs_meta s) with
    | None => Throw unfinished
    | Some Aborted | Some Error =>
        Throw (if truthy_opt (mt_rawStop (gs_meta s)) then js "Provider stopped with: " ++ nullish (mt_rawStop (gs_meta s)) []
               else js "An unknown error occurred")
    | Some stop => Ok stop
    end.

(** The [catch] clause; [e] is the text of the error as [formatProviderError] gives it. *)
Definition google_failure (aborted : bool) (es : list event) (s : google_state) (e : jstr) : list event * assistant :=
  let stop := if aborted then Aborted else Error in
  let msg := google_message s stop (Some e) in
  (es ++ [EvError stop msg], msg).

(** [stream] from the request on; [counter] is the module's counter of made-up
    identifiers, and its value afterwards is returned. *)
Definition google_stream (counter : Z) (setup : result jstr ()) (chunks : list google_chunk) (ending : result jstr ()) (aborted : bool)
  : list event * assistant * Z :=
  match setup with
  | Throw e => (google_failure aborted [] (google_init counter) e, counter)
  | Ok _ =>
      let '(es, s, r) := (let* _ := each_m on_google_chunk chunks in let* _ := lift_m ending in end_current) (google_init counter) in
      (match r with
       | Throw e => google_failure aborted (EvStart :: es) s e
       | Ok _ =>
           match google_reason aborted s with
           | Throw e => google_failure aborted (EvStart :: es) s e
           | Ok stop => let msg := google_message s stop None in (EvStart :: es ++ [EvDone stop msg], msg)
           end
       end, gs_counter s)
  end.
End Stream.

(** What comes before the response: the checks, the client and the parameters.
    [request] is the rest, from the payload hook to the retried request; [customFetch]
    says that [options.fetch] is not the global one. *)
Definition setup6 (toLowerCase : jstr -> jstr) (userAgent : jstr) (m : model) (customFetch : bool) (apiKey : option jstr)
    (headers : option header_list) (now : Z) (systemPrompt : option jstr) (messages : list raw_message) (tools : option (list api_tool))
    (o : google_options) (request : google_client -> list (jstr * json) -> result jstr ()) : result jstr () :=
  if customFetch then Throw (js "Custom fetch is not supported by the Google Generative AI adapter")
  else if negb (truthy_opt apiKey) then Throw (js "No API key for provider: " ++ m_provider m)
  else
    let client := createClient5 userAgent m (nullish apiKey []) headers in
    let! params := buildParams5 toLowerCase m now systemPrompt messages tools o in
    request client params.

Definition setup7 (toLowerCase : jstr -> jstr) (url_path env : jstr -> option jstr) (userAgent : jstr) (m : model) (customFetch : bool)
    (apiKey project location : option jstr) (headers : option header_list) (now : Z) (systemPrompt : option jstr) (messages : list raw_message)
    (tools : option (list api_tool)) (o : google_options) (request : google_client -> list (jstr * json) -> result jstr ()) : result jstr () :=
  if customFetch then Throw (js "Custom fetch is not supported by the Google Vertex adapter")
  else
    let! client := vertex_client url_path env userAgent m apiKey project location headers in
    let! params := buildParams6 toLowerCase m now systemPrompt messages tools o in
    request client params.

(** The two providers. *)
Definition stream6 (num_to_string : Q -> jstr) (m : model) (clock : Z -> Z) :=
  google_stream num_to_string m clock (js "google-generative-ai") (js "Google stream ended without a finish reason").

Definition stream7 (num_to_string : Q -> jstr) (m : model) (clock : Z -> Z) :=
  google_stream num_to_string m clock (js "google-vertex") (js "Google Vertex stream ended without a finish reason").

(** The same from the JSON of the chunks; [None] when one is not as documented. *)
Definition google_response_of (num_to_string : Q -> jstr) (m : model) (clock : Z -> Z) (now counter : Z) (chunks : list json)
    (ending : result jstr ()) (aborted : bool) : option (list event * assistant * Z) :=
  cs ← mapM read_google_chunk chunks; Some (stream6 num_to_string m clock now counter (Ok ()) cs ending aborted).

(** * Facts *)

Section Facts.
Context (num_to_string : Q -> jstr) (m : model) (clock : Z -> Z).
#[local] Abbreviation M := (streamM google_state).

(** ** Nothing but the last event ends the stream *)

Lemma on_part_quiet p : quiet (on_part num_to_string clock p).
Proof. unfold on_part, on_text, on_function, open_kind, end_current. repeat quiet_step. apply emits_push. by destruct (pi_thought p). Qed.

Lemma on_google_chunk_quiet c : quiet (on_google_chunk num_to_string m clock c).
Proof. unfold on_google_chunk, on_finish. repeat first [apply on_part_quiet | quiet_step]. Qed.

(** Whatever the provider sends and however the request fails, the stream has
    exactly one event that ends it, its last, which carries the message. *)
Theorem google_stream_ended api unfinished now counter setup chunks ending aborted :
  well_ended (google_stream num_to_string m clock api unfinished now counter setup chunks ending aborted).1.1
    (google_stream num_to_string m clock api unfinished now counter setup chunks ending aborted).1.2.
Proof.
  assert (Hend : forall es e msg, Forall incomplete es -> isComplete e = true -> extractResult e = Ok msg ->
    well_ended (es ++ [e]) msg) by (intros es e msg; by exists es, e).
  unfold google_stream. destruct setup as [[]|e]; [|apply Hend; [constructor|done|done]].
  set (x := let* _ := each_m _ chunks in let* _ := lift_m ending in end_current).
  assert (Hq : quiet x) by (unfold x, end_current; repeat first [apply on_google_chunk_quiet | quiet_step]).
  specialize (Hq (google_init counter)). destruct (x (google_init counter)) as [[es s] r]. cbn [fst] in Hq.
  assert (Hs : Forall incomplete (EvStart :: es)) by (by constructor).
  destruct r; [|by apply Hend]. destruct (google_reason unfinished aborted s) as [stop|e]; [|by apply Hend].
  by apply (Hend (EvStart :: es)).
Qed.

(** ** What the parts say *)

Inductive google_piece :=
| TextPiece (thought : bool) (text : jstr) (sg : option jstr)
| FunctionPiece (c : call_in) (sg : option jstr).

Definition part_pieces (p : part_in) : list google_piece :=
  match pi_text p with Some t => [TextPiece (pi_thought p) t (pi_signature p)] | None => [] end ++
  match pi_call p with Some c => [FunctionPiece c (pi_signature p)] | None => [] end.

Definition google_pieces (chunks : list google_chunk) : list google_piece := (chunks ≫= gh_parts) ≫= part_pieces.

(** Pieces taken together: texts of one kind, or a call. *)
Inductive google_group :=
| TextGroup (thought : bool) (texts : list (jstr * option jstr))
| CallGroup (c : call_in) (sg : option jstr).

Definition group_pieces (g : google_group) : list google_piece :=
  match g with TextGroup th ts => map (fun t => TextPiece th t.1 t.2) ts | CallGroup c sg => [FunctionPiece c sg] end.

(** Neighbours that would be one group. *)
Definition apart (g1 g2 : google_group) : Prop :=
  match g1, g2 with TextGroup a _, TextGroup b _ => a ≠ b | _, _ => True end.

Definition non_empty (g : google_group) : Prop := match g with TextGroup _ [] => False | _ => True end.

Fixpoint grouped (l : list google_group) : Prop :=
  match l with
  | [] => True
  | g :: rest => non_empty g /\ match rest with [] => True | g' :: _ => apart g g' end /\ grouped rest
  end.

(** The last signature that is not empty. *)
Definition last_signature (sgs : list (option jstr)) : option jstr :=
  last (omap (fun sg => if truthy_opt sg then sg else None) sgs).

Definition call_arguments (c : call_in) : json := match ci_args c with None | Some JNull => JObj [] | Some v => v end.

(** The block of a group, but for the identifier of a call. *)
Definition block_says (g : google_group) (b : block) : Prop :=
  match g with
  | TextGroup false ts => b = BText (concat (map fst ts)) (last_signature (map snd ts))
  | TextGroup true ts => b = BThinking (concat (map fst ts)) (last_signature (map snd ts)) false
  | CallGroup c sg => exists id, b = BToolCall (ToolCall id (nullish (ci_name c) []) (call_arguments c) (if truthy_opt sg then sg else None) None)
  end.

(** What is streamed for it. *)
Definition group_live (g : google_group) : jstr :=
  match g with TextGroup _ ts => concat (map fst ts) | CallGroup c _ => JSON_stringify num_to_string (call_arguments c) end.

Definition open_at (l : list google_group) : option nat :=
  match last l with Some (TextGroup _ _) => Some (pred (length l)) | _ => None end.

Definition follows (ps : list google_piece) (es : list event) (s : google_state) : Prop :=
  exists l, grouped l /\ l ≫= group_pieces = ps /\ Forall2 block_says l (gs_blocks s) /\ gs_current s = open_at l /\
    forall j : nat, deltas (Z.of_nat j) es = from_option group_live [] (l !! j).

Lemma grouped_snoc l g :
  grouped (l ++ [g]) <-> grouped l /\ non_empty g /\ forall g', last l = Some g' -> apart g' g.
Proof.
  induction l as [|g0 l IH]; cbn [app grouped]; [naive_solver|]. destruct l as [|g1 l].
  - cbn [app grouped last]. naive_solver.
  - change ((g1 :: l) ++ [g]) with (g1 :: (l ++ [g])) in *. cbn [grouped] in IH |- *. rewrite last_cons_cons. rewrite IH. cbn [grouped]. naive_solver.
Qed.

Definition text_block (thought : bool) (t : jstr) (sg : option jstr) : block := if thought then BThinking t sg false else BText t sg.
Definition text_delta (thought : bool) (i : Z) (t : jstr) : event := if thought then EvThinkingDelta i t else EvTextDelta i t.

Lemma text_delta_at j thought i t : deltas j [text_delta thought i t] = if i =? j then t else [].
Proof. destruct thought; cbn; by rewrite app_nil_r. Qed.

Lemma on_text_same th t sg s k t0 sg0 :
  current_block s = Some (k, text_block th t0 sg0) ->
  on_text th t sg s = ([text_delta th (blockIndex s) t], set_block k (text_block th (t0 ++ t) (retainThoughtSignature sg0 sg)) s, Ok ()).
Proof.
  intros Hc. unfold on_text, bind_m, state_m, modify_m, push_m, when_m, needs_block, ret. cbn [fst snd]. rewrite Hc.
  destruct th; cbn [text_block negb]; cbv beta iota; rewrite Hc; done.
Qed.

Lemma end_current_silent s : exists es, end_current s = (es, s, Ok ()) /\ forall j, deltas j es = [].
Proof.
  unfold end_current, bind_m, state_m, push_m, ret. destruct (current_block s) as [[k []]|]; by eexists.
Qed.

Lemma on_text_new th t sg s :
  needs_block th s = true ->
  exists es, on_text th t sg s =
    (es ++ [text_delta th (Z.of_nat (length (gs_blocks s))) t],
     GoogleState (gs_blocks s ++ [text_block th t (retainThoughtSignature None sg)]) (Some (length (gs_blocks s))) (gs_counter s) (gs_meta s), Ok ()) /\
    forall j, deltas j es = [].
Proof.
  intros Hn. destruct (end_current_silent s) as (es & He & Hd).
  exists (es ++ [if th then EvThinkingStart (Z.of_nat (length (gs_blocks s))) else EvTextStart (Z.of_nat (length (gs_blocks s)))]).
  split; [|intros j; rewrite deltas_app, Hd; by destruct th].
  unfold on_text. unfold bind_m at 1. unfold state_m at 1. rewrite Hn. unfold when_m, open_kind, bind_m, state_m, modify_m, push_m. rewrite He.
  assert (Hi : blockIndex (set_current (Some (length (gs_blocks s))) (add_block (if th then BThinking [] None false else BText [] None) s)) =
    Z.of_nat (length (gs_blocks s))).
  { unfold blockIndex, set_current, add_block. cbn [gs_blocks]. rewrite length_app. cbn [length]. lia. }
  rewrite Hi. cbn [app]. unfold current_block at 1. cbn [set_current add_block gs_current gs_blocks].
  rewrite lookup_app_r, Nat.sub_diag by lia. cbn [lookup list_lookup fmap option_fmap option_map].
  destruct th; cbn [fst snd]; unfold set_block, set_current, add_block; cbn [gs_blocks gs_current gs_counter gs_meta app];
    by rewrite insert_app_r_alt, Nat.sub_diag by lia.
Qed.

Lemma last_signature_snoc sgs sg : last_signature (sgs ++ [sg]) = retainThoughtSignature (last_signature sgs) sg.
Proof.
  unfold last_signature, retainThoughtSignature. rewrite omap_app. cbn [omap list_omap]. destruct sg as [sg|]; [|by rewrite app_nil_r].
  destruct (truthy_opt (Some sg)) eqn:E; [by rewrite last_snoc|by rewrite app_nil_r].
Qed.

Lemma text_group_says th ts b : block_says (TextGroup th ts) b -> b = text_block th (concat (map fst ts)) (last_signature (map snd ts)).
Proof. by destruct th. Qed.

Lemma text_group_block th ts : block_says (TextGroup th ts) (text_block th (concat (map fst ts)) (last_signature (map snd ts))).
Proof. by destruct th. Qed.

(** Code that adds what the pieces say. *)
Definition advances (x : M ()) (ps : list google_piece) : Prop :=
  forall qs es s, follows qs es s ->
    exists es' s', x s = (es', s', Ok ()) /\ follows (qs ++ ps) (es ++ es') s' /\ gs_meta s' = gs_meta s.

Lemma advances_nothing : advances (ret ()) [].
Proof. intros qs es s H. exists [], s. by rewrite !app_nil_r. Qed.

Lemma advances_bind x y ps qs : advances x ps -> advances y qs -> advances (bind_m x (fun _ => y)) (ps ++ qs).
Proof.
  intros Hx Hy rs es s H. destruct (Hx _ _ _ H) as (e1 & s1 & E1 & F1 & M1). destruct (Hy _ _ _ F1) as (e2 & s2 & E2 & F2 & M2).
  exists (e1 ++ e2), s2. unfold bind_m. rewrite E1, E2. split_and!; [done|by rewrite !app_assoc|congruence].
Qed.

Lemma advances_each {A} (f : A -> M ()) (pieces : A -> list google_piece) l :
  (forall a, advances (f a) (pieces a)) -> advances (each_m f l) (l ≫= pieces).
Proof. intros Hf. induction l as [|a l IH]; [apply advances_nothing|]. rewrite bind_cons. by apply advances_bind. Qed.

(** A new group at the end, streamed as it is. *)
Lemma follows_snoc l g bs b es es' s' :
  grouped (l ++ [g]) -> Forall2 block_says l bs -> block_says g b ->
  (forall j : nat, deltas (Z.of_nat j) es = from_option group_live [] (l !! j)) ->
  (forall j, deltas j es' = if Z.of_nat (length bs) =? j then group_live g else []) ->
  gs_blocks s' = bs ++ [b] -> gs_current s' = open_at (l ++ [g]) ->
  follows ((l ≫= group_pieces) ++ group_pieces g) (es ++ es') s'.
Proof.
  intros Hg HF Hb Hd Hd' HB HC. pose proof (Forall2_length _ _ _ HF) as Hl. exists (l ++ [g]). split_and!; [done| | |done|].
  - rewrite bind_app. cbn [mbind list_bind]. by rewrite app_nil_r.
  - rewrite HB. apply Forall2_app; [done|]. by repeat constructor.
  - intros j. rewrite deltas_app, Hd, Hd', <- Hl. destruct (Z.eqb_spec (Z.of_nat (length l)) (Z.of_nat j)) as [E|E].
    + assert (j = length l) as -> by lia. rewrite lookup_app_r, Nat.sub_diag by lia. by rewrite lookup_ge_None_2 by lia.
    + rewrite app_nil_r. destruct (decide (j < length l)%nat) as [Hj|Hj]; [by rewrite lookup_app_l by lia|].
      by rewrite !lookup_ge_None_2 by (rewrite ?length_app; cbn [length]; lia).
Qed.

Lemma current_group l s th ts :
  Forall2 block_says (l ++ [TextGroup th ts]) (gs_blocks s) -> gs_current s = open_at (l ++ [TextGroup th ts]) ->
  exists bs, Forall2 block_says l bs /\ gs_blocks s = bs ++ [text_block th (concat (map fst ts)) (last_signature (map snd ts))] /\
    gs_current s = Some (length bs) /\
    current_block s = Some (length bs, text_block th (concat (map fst ts)) (last_signature (map snd ts))).
Proof.
  intros HF HC. apply Forall2_app_inv_l in HF as (bs & b' & HF & Hb & HB). apply Forall2_cons_inv_l in Hb as (b & r & Hb & Hr & ->).
  apply Forall2_nil_inv_l in Hr as ->. apply text_group_says in Hb as ->. exists bs. pose proof (Forall2_length _ _ _ HF) as Hl.
  assert (HC' : gs_current s = Some (length bs)).
  { rewrite HC. unfold open_at. rewrite last_snoc, length_app. cbn [length]. f_equal. lia. }
  split_and!; [done|done|done|]. unfold current_block. rewrite HC', HB. by rewrite lookup_app_r, Nat.sub_diag by lia.
Qed.

Lemma advances_new_text th t sg l es s :
  grouped l -> Forall2 block_says l (gs_blocks s) -> needs_block th s = true -> (forall g, last l = Some g -> apart g (TextGroup th [])) ->
  (forall j : nat, deltas (Z.of_nat j) es = from_option group_live [] (l !! j)) ->
  exists es' s', on_text th t sg s = (es', s', Ok ()) /\ follows ((l ≫= group_pieces) ++ [TextPiece th t sg]) (es ++ es') s' /\ gs_meta s' = gs_meta s.
Proof.
  intros Hg HF Hn Ha Hd. destruct (on_text_new th t sg s Hn) as (es0 & E & H0). eexists _, _. split; [exact E|]. split; [|done].
  apply (follows_snoc l (TextGroup th [(t, sg)]) (gs_blocks s) (text_block th t (retainThoughtSignature None sg)));
    [|done| |done| |done|].
  - apply grouped_snoc. split_and!; [done|done|]. intros g' Hl. by apply Ha in Hl; destruct g'.
  - pose proof (text_group_block th [(t, sg)]) as Hb. cbn [map concat fst snd] in Hb. rewrite app_nil_r in Hb.
    change (retainThoughtSignature None sg) with (retainThoughtSignature (last_signature []) sg). by rewrite <- last_signature_snoc.
  - intros j. rewrite deltas_app, H0, text_delta_at. cbn [group_live map concat fst]. by rewrite app_nil_r.
  - cbn [gs_current]. unfold open_at. rewrite last_snoc, length_app, (Forall2_length _ _ _ HF). cbn [length]. f_equal. lia.
Qed.

Lemma advances_text th t sg : advances (on_text th t sg) [TextPiece th t sg].
Proof.
  intros qs es s (l & Hg & <- & HF & HC & Hd). destruct l as [|g l _] using rev_ind.
  { apply advances_new_text; try done. unfold needs_block, current_block. by rewrite HC. }
  destruct g as [th' ts|c sg'].
  - destruct (current_group _ _ _ _ HF HC) as (bs & HF0 & HB & HC' & Hb). destruct (decide (th' = th)) as [->|Hth].
    + rewrite (on_text_same th t sg s _ _ _ Hb). eexists _, _. split; [done|]. split; [|done].
      exists (l ++ [TextGroup th (ts ++ [(t, sg)])]). split_and!.
      * apply grouped_snoc in Hg as (H1 & _ & H3). apply grouped_snoc. split_and!; [done|by destruct ts|].
        intros g' Hl. by apply H3 in Hl; destruct g'.
      * rewrite !bind_app. cbn [mbind list_bind group_pieces]. rewrite !app_nil_r, map_app, <- app_assoc. done.
      * cbn [set_block gs_blocks]. rewrite HB, insert_app_r_alt, Nat.sub_diag by lia. apply Forall2_app; [done|]. constructor; [|constructor].
        pose proof (text_group_block th (ts ++ [(t, sg)])) as H. rewrite !map_app, concat_app in H. cbn [map concat fst snd] in H.
        by rewrite app_nil_r, last_signature_snoc in H.
      * cbn [set_block gs_current]. rewrite HC. unfold open_at. by rewrite !last_snoc, !length_app.
      * intros j. rewrite deltas_app, Hd, text_delta_at. unfold blockIndex. rewrite HB, length_app. cbn [length].
        rewrite <- (Forall2_length _ _ _ HF0). destruct (Z.eqb_spec (Z.of_nat (length l + 1) - 1) (Z.of_nat j)) as [E|E].
        -- assert (j = length l) as -> by lia. rewrite !lookup_app_r, Nat.sub_diag by lia. cbn. rewrite map_app, concat_app. cbn. by rewrite app_nil_r.
        -- rewrite app_nil_r. destruct (decide (j < length l)%nat) as [Hj|Hj]; [by rewrite !lookup_app_l by lia|].
           by rewrite !lookup_ge_None_2 by (rewrite ?length_app; cbn [length]; lia).
    + apply advances_new_text; try done.
      * unfold needs_block. rewrite Hb. destruct th', th; done.
      * intros g. rewrite last_snoc. by intros [= <-].
  - apply advances_new_text; try done.
    + unfold needs_block, current_block. rewrite HC. unfold open_at. by rewrite last_snoc.
    + intros g. rewrite last_snoc. by intros [= <-].
Qed.

Definition call_id (c : call_in) (s : google_state) : jstr :=
  if needs_id c (gs_blocks s) then made_id clock c (gs_counter s + 1) else nullish (ci_id c) [].

Definition call_counter (c : call_in) (s : google_state) : Z := if needs_id c (gs_blocks s) then gs_counter s + 1 else gs_counter s.

Definition call_block (c : call_in) (sg : option jstr) (id : jstr) : block :=
  BToolCall (ToolCall id (nullish (ci_name c) []) (call_arguments c) (if truthy_opt sg then sg else None) None).

Lemma on_function_spec c sg s :
  exists es, on_function num_to_string clock c sg s =
    (es, GoogleState (gs_blocks s ++ [call_block c sg (call_id c s)]) None (call_counter c s) (gs_meta s), Ok ()) /\
    forall j, deltas j es = if Z.of_nat (length (gs_blocks s)) =? j then JSON_stringify num_to_string (call_arguments c) else [].
Proof.
  destruct (end_current_silent s) as (es & He & Hd).
  assert (Hfirst : exists es0, (when_m (bool_decide (is_Some (gs_current s))) (let* _ := end_current in modify_m (set_current None))) s =
    (es0, GoogleState (gs_blocks s) None (gs_counter s) (gs_meta s), Ok ()) /\ forall j, deltas j es0 = []).
  { unfold when_m. case_bool_decide as Hs.
    - exists es. unfold bind_m, modify_m. rewrite He. split; [|done]. by rewrite app_nil_r.
    - exists []. split; [|done]. unfold ret. destruct s as [bs [k|] n mt]; [|done]. destruct Hs. by eexists. }
  destruct Hfirst as (es0 & Hw & H0). set (n := Z.of_nat (length (gs_blocks s))).
  assert (Hi : forall b k mt, blockIndex (GoogleState (gs_blocks s ++ [b]) None k mt) = n).
  { intros b k mt. unfold blockIndex. cbn [gs_blocks]. rewrite length_app. cbn [length]. subst n. lia. }
  exists (es0 ++ [EvToolStart n; EvToolDelta n (JSON_stringify num_to_string (call_arguments c));
    EvToolEnd n (ToolCall (call_id c s) (nullish (ci_name c) []) (call_arguments c) (if truthy_opt sg then sg else None) None)]). split.
  - unfold on_function, call_id, call_counter. unfold bind_m at 1. unfold state_m at 1. unfold bind_m at 1. rewrite Hw.
    unfold bind_m at 1. unfold state_m at 1. cbn [gs_blocks]. unfold when_m, bind_m, state_m, modify_m, push_m, ret.
    destruct (needs_id c (gs_blocks s)); unfold tick, add_block; cbn [gs_blocks gs_current gs_counter gs_meta app]; by rewrite !Hi.
  - intros j. rewrite deltas_app, H0. cbn. by rewrite app_nil_r.
Qed.

Lemma advances_call c sg : advances (on_function num_to_string clock c sg) [FunctionPiece c sg].
Proof.
  intros qs es s (l & Hg & <- & HF & HC & Hd). destruct (on_function_spec c sg s) as (es' & E & Hd'). eexists _, _. split; [exact E|]. split; [|done].
  apply (follows_snoc l (CallGroup c sg) (gs_blocks s) (call_block c sg (call_id c s))); [|done|by eexists|done|done|done|].
  - apply grouped_snoc. split_and!; [done|done|]. by intros [].
  - unfold open_at. by rewrite last_snoc.
Qed.

Lemma advances_part p : advances (on_part num_to_string clock p) (part_pieces p).
Proof.
  unfold on_part, part_pieces. apply advances_bind.
  - destruct (pi_text p); [apply advances_text|apply advances_nothing].
  - destruct (pi_call p); [apply advances_call|apply advances_nothing].
Qed.

Lemma follows_start counter : follows [] [] (google_init counter).
Proof. exists []. by repeat split. Qed.

(** ** Whole responses *)

Definition is_function (p : google_piece) : bool := match p with FunctionPiece _ _ => true | _ => false end.

(** A finish reason that is given is one of those the API documents. *)
Definition known_reason (c : google_chunk) : Prop :=
  forall r, gh_finish c = Some r -> truthy r = true -> exists st, mapStopReason4 r = Ok st.

(** The stop reason of a response. *)
Definition stop_of (calls : bool) (st : stop_reason) : stop_reason := if calls && bool_decide (st = Stop) then ToolUse else st.

Lemma follows_meta qs es s f : follows qs es s -> follows qs es (google_meta f s).
Proof. done. Qed.

Lemma follows_calls qs es s : follows qs es s -> existsb is_call (gs_blocks s) = existsb is_function qs.
Proof.
  intros (l & Hg & <- & HF & _). revert Hg. induction HF as [|g b l bs Hb HF IH]; [done|]. cbn [grouped]. intros (Hn & _ & Hg).
  rewrite bind_cons, existsb_app. cbn [existsb]. rewrite <- (IH Hg). f_equal. destruct g as [th ts|c sg]; [|by destruct Hb as [id ->]].
  apply text_group_says in Hb as ->. destruct ts as [|x ts]; [done|]. transitivity false; [by destruct th|]. symmetry.
  clear. induction (x :: ts) as [|y l IH]; [done|exact IH].
Qed.

Lemma known_truthy r st : mapStopReason4 r = Ok st -> truthy r = true.
Proof. by destruct r. Qed.

Lemma mapStopReason4_cases r st : mapStopReason4 r = Ok st -> st = Stop \/ st = Length \/ st = Error.
Proof. unfold mapStopReason4. repeat case_match; intros; simplify_eq; auto. Qed.

Definition usage_after (mt : meta) (u : option usage_in) : usage := match u with Some u => google_tokens u | None => mt_usage mt end.

Lemma on_finish_runs r st qs es s :
  mapStopReason4 r = Ok st -> follows qs es s ->
  exists s', on_finish r s = ([], s', Ok ()) /\ follows qs es s' /\ mt_usage (gs_meta s') = mt_usage (gs_meta s) /\
    mt_stop (gs_meta s') = Some (stop_of (existsb is_function qs) st).
Proof.
  intros Hr Hf. unfold on_finish, bind_m, state_m, modify_m, lift_m. rewrite Hr. eexists. split; [done|].
  split_and!; [by repeat apply follows_meta|done|]. cbn. by rewrite (follows_calls _ _ _ Hf).
Qed.

Lemma chunk_runs c qs es s :
  known_reason c -> follows qs es s ->
  exists es' s', on_google_chunk num_to_string m clock c s = (es', s', Ok ()) /\ follows (qs ++ gh_parts c ≫= part_pieces) (es ++ es') s' /\
    mt_usage (gs_meta s') = usage_after (gs_meta s) (gh_usage c) /\
    forall r st, gh_finish c = Some r -> mapStopReason4 r = Ok st ->
      mt_stop (gs_meta s') = Some (stop_of (existsb is_function (qs ++ gh_parts c ≫= part_pieces)) st).
Proof.
  intros Hk Hf.
  destruct (advances_each _ _ (gh_parts c) advances_part qs es (google_meta (with_response_id (gh_responseId c)) s)) as (e1 & s1 & E1 & F1 & M1); [done|].
  assert (Hfin : exists s2, (match gh_finish c with Some r => when_m (truthy r) (on_finish r) | None => ret () end) s1 = ([], s2, Ok ()) /\
    follows (qs ++ gh_parts c ≫= part_pieces) (es ++ e1) s2 /\ mt_usage (gs_meta s2) = mt_usage (gs_meta s1) /\
    forall r st, gh_finish c = Some r -> mapStopReason4 r = Ok st ->
      mt_stop (gs_meta s2) = Some (stop_of (existsb is_function (qs ++ gh_parts c ≫= part_pieces)) st)).
  { destruct (gh_finish c) as [r|] eqn:Er; [|by exists s1]. unfold when_m. destruct (truthy r) eqn:Et.
    - destruct (Hk r Er Et) as [st Hst]. destruct (on_finish_runs r st _ _ s1 Hst F1) as (s2 & H1 & H2 & H3 & H4).
      exists s2. split_and!; [done|done|done|]. intros r' st' [= <-] Hst'. congruence.
    - exists s1. split_and!; [done|done|done|]. intros r' st' [= <-] Hst'. apply known_truthy in Hst'. congruence. }
  destruct Hfin as (s2 & E2 & F2 & U2 & S2). exists e1.
  assert (Hu : mt_usage (gs_meta s1) = mt_usage (gs_meta s)) by (by rewrite M1).
  unfold on_google_chunk, bind_m. unfold modify_m at 1. rewrite E1, E2. destruct (gh_usage c) as [u|]; cbn [usage_after].
  - eexists. split; [cbn; by rewrite !app_nil_r|]. split_and!; [by apply follows_meta|done|exact S2].
  - eexists. split; [cbn; by rewrite !app_nil_r|]. split_and!; [done|congruence|exact S2].
Qed.

Lemma chunks_run counter cs :
  Forall known_reason cs ->
  exists es s, each_m (on_google_chunk num_to_string m clock) cs (google_init counter) = (es, s, Ok ()) /\ follows (google_pieces cs) es s /\
    mt_usage (gs_meta s) = from_option google_tokens zero_usage (last (omap gh_usage cs)).
Proof.
  induction cs as [|c cs IH] using rev_ind; intros HF; [exists [], (google_init counter); split_and!; [done|apply follows_start|done]|].
  apply Forall_app in HF as [HF Hc]. rewrite Forall_singleton in Hc. destruct (IH HF) as (es & s & E & F & U).
  destruct (chunk_runs c _ _ _ Hc F) as (es' & s' & E' & F' & U' & _). exists (es ++ es'), s'. split_and!.
  - by eapply each_snoc.
  - unfold google_pieces. by rewrite !bind_app, bind_singleton.
  - rewrite omap_app, U'. unfold usage_after. cbn [omap list_omap]. destruct (gh_usage c); [by rewrite last_snoc|by rewrite app_nil_r].
Qed.

(** C27: A response is turned into the message it describes.  For every response whose
    last chunk gives a reason to stop that is not a failure, however it is cut into
    chunks: the stream ends with [done]; the pieces of the response, in order and
    with neighbours of one kind taken together, are the blocks of the message, each
    with its whole text and last signature, or with the name, arguments and
    signature of its call; what was streamed live for each block is its text or
    arguments; the reason is [toolUse] when a call was made; and the usage is that
    of the last report. *)
Theorem google_message_faithful api unfinished now counter chunks c r st :
  Forall known_reason chunks -> gh_finish c = Some r -> mapStopReason4 r = Ok st -> st ≠ Error ->
  let ps := google_pieces (chunks ++ [c]) in
  let stop := stop_of (existsb is_function ps) st in
  exists groups es msg counter',
    google_stream num_to_string m clock api unfinished now counter (Ok ()) (chunks ++ [c]) (Ok ()) false =
      (EvStart :: es ++ [EvDone stop msg], msg, counter') /\
    a_stopReason msg = stop /\ a_errorMessage msg = None /\
    grouped groups /\ groups ≫= group_pieces = ps /\ Forall2 block_says groups (a_content msg) /\
    (forall j : nat, deltas (Z.of_nat j) es = from_option group_live [] (groups !! j)) /\
    (forall u, last (omap gh_usage (chunks ++ [c])) = Some u ->
       u_input (a_usage msg) + u_cacheRead (a_usage msg) = or_zero (ui_prompt u) /\
       u_output (a_usage msg) = or_zero (ui_candidates u) + or_zero (ui_thoughts u)).
Proof.
  intros HF Hr Hst Hne ps stop. assert (Hk : known_reason c) by (intros r' Hr' _; rewrite Hr in Hr'; injection Hr' as <-; by eexists).
  destruct (chunks_run counter chunks HF) as (es & s & E & F & U). destruct (chunk_runs c _ _ _ Hk F) as (es' & s' & E' & F' & U' & S').
  specialize (S' r st Hr Hst). assert (Hps : google_pieces chunks ++ gh_parts c ≫= part_pieces = ps).
  { unfold ps, google_pieces. by rewrite !bind_app, bind_singleton. }
  rewrite Hps in F', S'. fold stop in S'. destruct F' as (l & G1 & G2 & G3 & G4 & G5). destruct (end_current_silent s') as (e3 & E3 & D3).
  exists l, ((es ++ es') ++ e3), (google_message m api now s' stop None), (gs_counter s'). split_and!; try done.
  - unfold google_stream. unfold bind_m at 1. rewrite (each_snoc _ _ _ _ _ _ _ _ _ E E'). unfold bind_m, lift_m. rewrite E3.
    unfold google_reason. rewrite S'. cbn [app]. unfold stop, stop_of in *.
    destruct (mapStopReason4_cases r st Hst) as [->|[->|?]]; [by destruct (existsb is_function ps)|by destruct (existsb is_function ps)|done].
  - intros j. by rewrite deltas_app, D3, app_nil_r.
  - intros u Hu. cbn. rewrite U'. rewrite omap_app in Hu. cbn [omap list_omap] in Hu. unfold usage_after.
    destruct (gh_usage c) as [u'|]; [rewrite last_snoc in Hu; injection Hu as <-|rewrite app_nil_r in Hu; rewrite U, Hu]; cbn; lia.
Qed.

(** ** The calls of a response have identifiers of their own *)

Lemma made_id_counter c c' k k' : 0 <= k -> 0 <= k' -> made_id clock c k = made_id clock c' k' -> k = k'.
Proof.
  assert (Hs : forall c k, 0 <= k -> last (split_char 95 (made_id clock c k)) = Some (num_str k)).
  { intros d n Hn. unfold made_id. change (js "_" ++ num_str n) with (95 :: num_str n). rewrite !app_assoc.
    rewrite split_app, (split_no_sep 95 (num_str n)) by (by apply num_str_no). by rewrite last_snoc. }
  intros Hk Hk' E. apply num_str_inj_nonneg; [done|done|]. apply (f_equal (fun s => last (split_char 95 s))) in E.
  rewrite !Hs in E by done. by injection E.
Qed.

(** The identifiers of the content and the counter, and what a call does to them. *)
Definition ids_view (s : google_state) : list jstr * Z := (map tc_id (tool_calls (gs_blocks s)), gs_counter s).

Definition id_step (v : list jstr * Z) (c : call_in) : list jstr * Z :=
  if negb (truthy_opt (ci_id c)) || mem (nullish (ci_id c) []) v.1 then (v.1 ++ [made_id clock c (v.2 + 1)], v.2 + 1)
  else (v.1 ++ [nullish (ci_id c) []], v.2).

Definition part_calls (p : part_in) : list call_in := match pi_call p with Some c => [c] | None => [] end.

Definition tracks {A} (x : streamM google_state A) (cs : list call_in) : Prop :=
  forall s es s' a, x s = (es, s', Ok a) -> ids_view s' = foldl id_step (ids_view s) cs.

Lemma tracks_bind {A B} (x : streamM google_state A) (k : A -> streamM google_state B) cs ds :
  tracks x cs -> (forall a, tracks (k a) ds) -> tracks (bind_m x k) (cs ++ ds).
Proof.
  intros Hx Hk s es s' b. unfold bind_m. destruct (x s) as [[e1 s1] [a|]] eqn:E1; [|done]. destruct (k a s1) as [[e2 s2] r] eqn:E2.
  intros [= <- <- ->]. rewrite foldl_app, <- (Hx _ _ _ _ E1). by apply (Hk a _ _ _ _ E2).
Qed.

Lemma tracks_each {A} (f : A -> M ()) (calls : A -> list call_in) l :
  (forall a, tracks (f a) (calls a)) -> tracks (each_m f l) (l ≫= calls).
Proof. intros Hf. induction l as [|a l IH]; [by intros s es s' a [= <- <- <-]|]. rewrite bind_cons. by apply tracks_bind. Qed.

Lemma tracks_still {A} (x : streamM google_state A) : (forall s, ids_view (x s).1.2 = ids_view s) -> tracks x [].
Proof. intros H s es s' a E. specialize (H s). by rewrite E in H. Qed.

Lemma tool_calls_insert bs k b b' : bs !! k = Some b -> is_call b = false -> is_call b' = false -> tool_calls (<[k := b']> bs) = tool_calls bs.
Proof.
  intros Hk H1 H2. rewrite (insert_take_drop bs k b') by (by eapply lookup_lt_Some). rewrite <- (take_drop_middle bs k b Hk) at 3.
  unfold tool_calls. rewrite !omap_app. destruct b, b'; done.
Qed.

Lemma text_block_calls bs th t sg : tool_calls (bs ++ [text_block th t sg]) = tool_calls bs.
Proof. unfold tool_calls. rewrite omap_app. destruct th; cbn; by rewrite app_nil_r. Qed.

Lemma tracks_text th t sg : tracks (on_text th t sg) [].
Proof.
  apply tracks_still. intros s. destruct (needs_block th s) eqn:En.
  - destruct (on_text_new th t sg s En) as (es & -> & _). unfold ids_view. cbn [gs_blocks gs_counter fst snd]. by rewrite text_block_calls.
  - assert (Hset : forall k b b' e, current_block s = Some (k, b) -> is_call b = false -> is_call b' = false ->
      ids_view ((let* _ := modify_m (set_block k b') in push_m e) s).1.2 = ids_view s).
    { intros k b b' e Hc H1 H2. unfold current_block in Hc. destruct (gs_current s) as [k'|]; [|done].
      destruct (gs_blocks s !! k') as [b0|] eqn:Eb; [|done]. injection Hc as -> ->. unfold ids_view. cbn. f_equal. f_equal. by eapply tool_calls_insert. }
    unfold on_text, bind_m at 1 2, state_m at 1 2. rewrite En. unfold when_m, ret. unfold bind_m at 1. cbn [app].
    destruct (current_block s) as [[k [t0 s0|t0 s0 r|tc]]|] eqn:Ec; [| |done|done].
    + specialize (Hset k _ (BText (t0 ++ t) (retainThoughtSignature s0 sg)) (EvTextDelta (blockIndex s) t) eq_refl eq_refl eq_refl).
      destruct (bind_m _ _ s) as [[? ?] ?]. exact Hset.
    + specialize (Hset k _ (BThinking (t0 ++ t) (retainThoughtSignature s0 sg) r) (EvThinkingDelta (blockIndex s) t) eq_refl eq_refl eq_refl).
      destruct (bind_m _ _ s) as [[? ?] ?]. exact Hset.
Qed.

Lemma has_call_mem id bs : existsb (has_call_id id) bs = mem id (map tc_id (tool_calls bs)).
Proof.
  induction bs as [|b bs IH]; [done|]. cbn [existsb]. rewrite IH. destruct b as [t s|t s r|tc]; [done|done|].
  unfold mem. cbn. f_equal. destruct (streq (tc_id tc) id) eqn:E.
  - apply streq_true in E as ->. by rewrite streq_refl.
  - symmetry. apply not_true_iff_false. intros H. apply streq_true in H as ->. by rewrite streq_refl in E.
Qed.

Lemma tracks_call c sg : tracks (on_function num_to_string clock c sg) [c].
Proof.
  intros s es s' a E. destruct (on_function_spec c sg s) as (es' & E' & _). rewrite E' in E. injection E as _ <- _.
  unfold ids_view. cbn [gs_blocks gs_counter foldl]. unfold id_step, call_id, call_counter, needs_id. rewrite has_call_mem. cbn [fst snd].
  unfold tool_calls. rewrite omap_app, map_app. cbn [omap list_omap call_block map tc_id]. by destruct (_ || _).
Qed.

Lemma tracks_part p : tracks (on_part num_to_string clock p) (part_calls p).
Proof.
  unfold on_part, part_calls. apply (tracks_bind _ _ []).
  - destruct (pi_text p); [apply tracks_text|by apply tracks_still].
  - intros _. destruct (pi_call p); [apply tracks_call|by apply tracks_still].
Qed.

Lemma tracks_chunk c : tracks (on_google_chunk num_to_string m clock c) (gh_parts c ≫= part_calls).
Proof.
  unfold on_google_chunk. rewrite <- (app_nil_r (gh_parts c ≫= part_calls)). apply (tracks_bind _ _ []); [by apply tracks_still|]. intros _.
  apply (tracks_bind _ _ (gh_parts c ≫= part_calls) []); [apply tracks_each, tracks_part|]. intros _. apply (tracks_bind _ _ []).
  - destruct (gh_finish c) as [r|]; [|by apply tracks_still]. unfold when_m. destruct (truthy r); [|by apply tracks_still].
    apply tracks_still. intros s. unfold on_finish, bind_m, state_m, modify_m, lift_m. by destruct (mapStopReason4 r).
  - intros _. destruct (gh_usage c); by apply tracks_still.
Qed.

(** The calls of a response, and the identifiers the provider gave. *)
Definition response_calls (chunks : list google_chunk) : list call_in := (chunks ≫= gh_parts) ≫= part_calls.
Definition given_ids (cs : list call_in) : list jstr := omap (fun c => if truthy_opt (ci_id c) then ci_id c else None) cs.

Lemma mem_false x l : mem x l = false <-> x ∉ l.
Proof. rewrite <- mem_spec. by destruct (mem x l). Qed.

Lemma id_steps_distinct counter cs given :
  0 <= counter -> (forall id c k, id ∈ given -> counter < k -> id ≠ made_id clock c k) -> given_ids cs ⊆ given ->
  NoDup (foldl id_step ([], counter) cs).1.
Proof.
  intros H0 Hm. set (inv := fun v : list jstr * Z => counter <= v.2 /\ NoDup v.1 /\
    Forall (fun id => id ∈ given \/ exists c k, counter < k <= v.2 /\ id = made_id clock c k) v.1).
  assert (Hstep : forall v c, given_ids [c] ⊆ given -> inv v -> inv (id_step v c)).
  { intros [ids n] c Hg (I1 & I2 & I3). cbn [fst snd] in *. unfold id_step. cbn [fst snd].
    assert (Hmono : Forall (fun id => id ∈ given \/ exists c k, counter < k <= n + 1 /\ id = made_id clock c k) ids).
    { eapply Forall_impl; [exact I3|]. intros id [?|(d & k & ? & ->)]; [by left|right; exists d, k; split; [lia|done]]. }
    destruct (_ || _) eqn:E; (split; [cbn [snd]; lia|]; split; [apply NoDup_app; split_and!; [done| |apply NoDup_singleton]|]); cbn [fst snd].
    - intros id Hid ->%list_elem_of_singleton. rewrite Forall_forall in I3. destruct (I3 _ Hid) as [Hin|(d & k & Hk & Heq)].
      + by apply (Hm _ c (n + 1) Hin); [lia|].
      + apply made_id_counter in Heq; lia.
    - apply Forall_app. split; [done|]. constructor; [|constructor]. right. exists c, (n + 1). split; [lia|done].
    - apply orb_false_iff in E as [_ E]. apply mem_false in E. by intros id Hid ->%list_elem_of_singleton.
    - apply Forall_app. split; [done|]. constructor; [|constructor]. left. apply orb_false_iff in E as [E _].
      apply negb_false_iff in E. apply Hg. unfold given_ids. cbn [omap list_omap]. rewrite E. destruct (ci_id c); [cbn; left|done]. }
  intros Hg. assert (Hall : forall v, inv v -> inv (foldl id_step v cs)).
  { revert Hg. clear -Hstep. induction cs as [|c cs IH]; intros Hg v Hv; [done|]. cbn [foldl]. unfold given_ids in Hg.
    change (c :: cs) with ([c] ++ cs) in Hg. rewrite omap_app in Hg. apply IH; [set_solver|]. apply Hstep; [set_solver|done]. }
  apply (Hall ([], counter)). unfold inv. cbn [fst snd]. split_and!; [lia|constructor|constructor].
Qed.

Lemma given_ids_cons c id cs : ci_id c = Some id -> truthy_opt (Some id) = true -> given_ids (c :: cs) = id :: given_ids cs.
Proof. intros Hc Ht. unfold given_ids. cbn [omap list_omap]. by rewrite Hc, Ht. Qed.

Lemma id_steps_kept cs v : NoDup (v.1 ++ given_ids cs) -> Forall (fun c => truthy_opt (ci_id c) = true) cs -> foldl id_step v cs = (v.1 ++ given_ids cs, v.2).
Proof.
  intros HN HF. revert v HN. induction HF as [|c cs Hc HF IH]; intros [ids n] HN; cbn [fst snd] in *; [by rewrite app_nil_r|].
  destruct (ci_id c) as [id|] eqn:Ei; [|done]. rewrite (given_ids_cons c id cs Ei Hc) in HN |- *. cbn [foldl].
  assert (Hs : id_step (ids, n) c = (ids ++ [id], n)).
  { unfold id_step. rewrite Ei, Hc. cbn [negb orb nullish fst snd]. rewrite (proj2 (mem_false id ids)); [done|].
    apply NoDup_app in HN as (_ & HN & _). intros Hin. apply (HN _ Hin). left. }
  rewrite Hs, IH; cbn [fst snd]; by rewrite <- app_assoc.
Qed.

(** Every call of a response that completes has an identifier of its own, also when the
    provider gives none or gives one twice, as long as none that it gives is like one
    that could be made up; and identifiers that are there and differ are kept. *)
Theorem google_ids_distinct api unfinished now counter chunks ending aborted es stop msg counter' :
  0 <= counter -> (forall id c k, id ∈ given_ids (response_calls chunks) -> counter < k -> id ≠ made_id clock c k) ->
  google_stream num_to_string m clock api unfinished now counter (Ok ()) chunks ending aborted = (es ++ [EvDone stop msg], msg, counter') ->
  let ids := map tc_id (tool_calls (a_content msg)) in
  NoDup ids /\
  (Forall (fun c => truthy_opt (ci_id c) = true) (response_calls chunks) -> NoDup (given_ids (response_calls chunks)) ->
   ids = given_ids (response_calls chunks) /\ counter' = counter).
Proof.
  intros H0 Hm E ids. unfold google_stream in E. unfold bind_m at 1 in E.
  destruct (each_m (on_google_chunk num_to_string m clock) chunks (google_init counter)) as [[e1 s1] [[]|]] eqn:E1.
  2: { cbn in E. injection E as E _ _. apply (f_equal last) in E. rewrite app_comm_cons, !last_snoc in E. done. }
  apply (tracks_each _ _ _ tracks_chunk) in E1. unfold bind_m, lift_m in E. destruct ending as [[]|x].
  2: { cbn in E. injection E as E _ _. apply (f_equal last) in E. rewrite app_comm_cons, !last_snoc in E. done. }
  destruct (end_current_silent s1) as (e2 & E2 & _). rewrite E2 in E. destruct (google_reason unfinished aborted s1) as [st|x].
  2: { injection E as E _ _. apply (f_equal last) in E. rewrite app_comm_cons, !last_snoc in E. done. }
  injection E as _ <- <-. cbn [google_message a_content] in ids. assert (Hv : ids_view s1 = foldl id_step ([], counter) (response_calls chunks)).
  { rewrite E1. unfold response_calls. f_equal. clear. induction chunks as [|c cs IH]; [done|]. by rewrite !bind_cons, bind_app, IH. }
  change ids with (ids_view s1).1. change (gs_counter s1) with (ids_view s1).2. rewrite Hv. split.
  - by apply (id_steps_distinct counter _ (given_ids (response_calls chunks))).
  - intros HF HN. by rewrite id_steps_kept.
Qed.
End Facts.

(** ** Witnesses *)

Definition text_part (thought : bool) (t : string) (sg : option jstr) : part_in := PartIn (Some (js t)) thought sg None.
Definition call_part_in (id : option jstr) (name : string) : part_in := PartIn None false (Some (js "c2ln")) (Some (CallIn id (Some (js name)) None)).

Definition google_reply : list google_chunk :=
  [GoogleChunk (Some (js "r1")) [text_part true "let me " None] None None;
   GoogleChunk None [text_part true "see" (Some (js "c2ln")); text_part false "Hel" None] None None;
   GoogleChunk None [text_part false "lo" None; call_part_in (Some (js "x")) "read"] None (Some (UsageIn (Some 10) (Some 4) (Some 7) None (Some 17)));
   GoogleChunk None [call_part_in (Some (js "x")) "read"; call_part_in None "ls"] None None].

Definition google_last : google_chunk := GoogleChunk None [] (Some (js "STOP")) None.

Lemma google_reply_known : Forall known_reason google_reply.
Proof. repeat (apply Forall_cons_2; [intros r [=]|]). apply Forall_nil_2. Qed.

Lemma google_message_faithful_witness :
  exists groups es msg counter',
    google_stream int_num_str (gemini_model "gemini-3-pro") (fun _ => 5) (js "google-generative-ai")
      (js "Google stream ended without a finish reason") 0 0 (Ok ()) (google_reply ++ [google_last]) (Ok ()) false =
      (EvStart :: es ++ [EvDone ToolUse msg], msg, counter') /\
    groups ≫= group_pieces = google_pieces google_reply /\ Forall2 block_says groups (a_content msg) /\
    u_input (a_usage msg) + u_cacheRead (a_usage msg) = 10 /\
    take 2 (a_content msg) = [BThinking (js "let me see") (Some (js "c2ln")) false; BText (js "Hello") None].
Proof.
  destruct (google_message_faithful int_num_str (gemini_model "gemini-3-pro") (fun _ => 5) (js "google-generative-ai")
    (js "Google stream ended without a finish reason") 0 0 google_reply google_last (js "STOP") Stop google_reply_known eq_refl eq_refl ltac:(done))
    as (groups & es & msg & counter' & Hs & _ & _ & Hg & Hp & Hb & _ & Hu).
  exists groups, es, msg, counter'. split; [exact Hs|]. split; [exact Hp|]. split; [exact Hb|]. split; [by destruct (Hu _ eq_refl)|].
  apply (f_equal (fun r => take 2 (a_content r.1.2))) in Hs. cbn [fst snd] in Hs. rewrite <- Hs. vm_compute. reflexivity.
Defined.

Lemma google_reply_done :
  exists es msg n,
    google_stream int_num_str (gemini_model "gemini-3-pro") (fun _ => 5) (js "google-generative-ai")
      (js "Google stream ended without a finish reason") 0 0 (Ok ()) (google_reply ++ [google_last]) (Ok ()) false =
      (es ++ [EvDone ToolUse msg], msg, n) /\
    map tc_id (tool_calls (a_content msg)) = [js "x"; js "read_5_1"; js "ls_5_2"].
Proof.
  set (r := google_stream _ _ _ _ _ _ _ _ _ _ _). exists (removelast r.1.1), r.1.2, r.2. vm_compute. split; reflexivity.
Qed.

Lemma google_reply_ids id c k : id ∈ given_ids (response_calls (google_reply ++ [google_last])) -> 0 < k -> id ≠ made_id (fun _ => 5) c k.
Proof.
  assert (Hg : given_ids (response_calls (google_reply ++ [google_last])) = [js "x"; js "x"]) by reflexivity. rewrite Hg.
  intros Hid _ ->. assert (Hx : made_id (fun _ => 5) c k = js "x") by (apply elem_of_cons in Hid as [?|Hid]; [done|]; by apply list_elem_of_singleton in Hid).
  assert (Hin : 95 ∈ made_id (fun _ => 5) c k) by (unfold made_id; set_solver). rewrite Hx in Hin. by apply list_elem_of_singleton in Hin.
Qed.

Lemma google_ids_distinct_witness :
  exists es msg n,
    google_stream int_num_str (gemini_model "gemini-3-pro") (fun _ => 5) (js "google-generative-ai")
      (js "Google stream ended without a finish reason") 0 0 (Ok ()) (google_reply ++ [google_last]) (Ok ()) false =
      (es ++ [EvDone ToolUse msg], msg, n) /\
    NoDup (map tc_id (tool_calls (a_content msg))) /\ map tc_id (tool_calls (a_content msg)) = [js "x"; js "read_5_1"; js "ls_5_2"].
Proof.
  destruct google_reply_done as (es & msg & n & E & Hids). exists es, msg, n. split; [exact E|]. split; [|exact Hids].
  exact (proj1 (google_ids_distinct int_num_str (gemini_model "gemini-3-pro") (fun _ => 5) (js "google-generative-ai")
    (js "Google stream ended without a finish reason") 0 0 (google_reply ++ [google_last]) (Ok ()) false es ToolUse msg n
    (Z.le_refl 0) google_reply_ids E)).
Defined.
