(* ===== verification/MistralMessages.v ===== *)
(** Requests to Mistral: identifiers of tool calls, messages, tools, the payload with
    its names on the wire, headers, the address and the texts of errors
    (packages/ai, api/mistral-conversations.js, bundled in
    src/drivers/tools/pibridge/bridge.mjs).  [toLowerCase] of header names, the
    parsing of the base URL and the printing of numbers are parameters. *)
From S2P Require Import Prelude Utf8 Numbers Json Messages TransformMessages ConstrainedSampling Models AnthropicMessages OpenaiCommon OpenaiCompletions ProviderErrors.
Open Scope Z_scope.

(** ** Identifiers of tool calls *)

Definition MISTRAL_TOOL_CALL_ID_LENGTH : nat := 9.

Definition letter_or_digit (c : Z) : bool :=
  (97 <=? c) && (c <=? 122) || (65 <=? c) && (c <=? 90) || (48 <=? c) && (c <=? 57).

(** [s.replace(/[^a-zA-Z0-9]/g, "")] *)
Definition letters_and_digits (s : jstr) : jstr := List.filter letter_or_digit s.

Definition deriveMistralToolCallId (id : jstr) (attempt : Z) : jstr :=
  let normalized := letters_and_digits id in
  if (attempt =? 0) && (length normalized =? MISTRAL_TOOL_CALL_ID_LENGTH)%nat then normalized
  else
    let seedBase := if truthy normalized then normalized else id in
    let seed := if attempt =? 0 then seedBase else seedBase ++ js ":" ++ num_str attempt in
    take MISTRAL_TOOL_CALL_ID_LENGTH (letters_and_digits (shortHash seed)).

(** The maps the function of [createMistralToolCallIdNormalizer] closes over. *)
Record id_maps := IdMaps { im_ids : gmap jstr jstr; im_owners : gmap jstr jstr }.

Definition no_ids : id_maps := IdMaps ∅ ∅.

(** The loop over the attempts; [None] when none of [fuel] attempts is free. *)
Fixpoint free_candidate (fuel : nat) (owners : gmap jstr jstr) (id : jstr) (attempt : Z) : option jstr :=
  match fuel with
  | O => None
  | S fuel =>
      let candidate := deriveMistralToolCallId id attempt in
      match owners !! candidate with
      | Some owner => if negb (truthy owner) || streq owner id then Some candidate else free_candidate fuel owners id (attempt + 1)
      | None => Some candidate
      end
  end.

Definition normalizeMistralToolCallId (fuel : nat) (maps : id_maps) (id : jstr) : option (jstr * id_maps) :=
  match im_ids maps !! id with
  | Some existing =>
      if truthy existing then Some (existing, maps)
      else candidate ← free_candidate fuel (im_owners maps) id 0;
           Some (candidate, IdMaps (<[id := candidate]> (im_ids maps)) (<[candidate := id]> (im_owners maps)))
  | None =>
      candidate ← free_candidate fuel (im_owners maps) id 0;
      Some (candidate, IdMaps (<[id := candidate]> (im_ids maps)) (<[candidate := id]> (im_owners maps)))
  end.

(** A series of calls of the function: their answers and the maps afterwards. *)
Fixpoint normalize_ids (fuel : nat) (maps : id_maps) (ids : list jstr) : option (list jstr * id_maps) :=
  match ids with
  | [] => Some ([], maps)
  | id :: rest =>
      '(n, maps1) ← normalizeMistralToolCallId fuel maps id;
      '(ns, maps2) ← normalize_ids fuel maps1 rest;
      Some (n :: ns, maps2)
  end.

(** The calls [transformMessages] makes, in order: one for each tool call of an
    assistant message of another model. *)
Definition renamed_calls (target : model) (m : message) : list jstr :=
  match m with
  | MAssistant a => if same_model a target then [] else map tc_id (tool_calls (a_content a))
  | _ => []
  end.

(** The replayed conversation.  The answer to each call is what the first map holds
    for it in the end ([normalize_ids_final]), so that the finished map can stand
    for the function. *)
Definition mistral_replay (fuel : nat) (m : model) (now : Z) (messages : list raw_message) : option (list message) :=
  let calls := downgradeUnsupportedImages (map normalize_content messages) m ≫= renamed_calls m in
  '(_, maps) ← normalize_ids fuel no_ids calls;
  Some (transformMessages messages m (Some (fun id _ _ => nullish (im_ids maps !! id) [])) now).

(** ** Messages *)

Inductive mistral_chunk :=
| ChunkText (text : jstr)
| ChunkThinking (text : jstr)
| ChunkImage (imageUrl : jstr).

Inductive mistral_content := MistralString (s : jstr) | MistralChunks (chunks : list mistral_chunk).

Record mistral_call := MistralCall { mc_id : jstr; mc_name : jstr; mc_arguments : jstr }.

(** An assistant message has [content] when there are chunks and [toolCalls] when
    there are calls. *)
Inductive mistral_message :=
| MistralSystem (content : jstr)
| MistralUser (content : mistral_content)
| MistralAssistant (chunks : list mistral_chunk) (calls : list mistral_call)
| MistralTool (toolCallId name : jstr) (chunks : list mistral_chunk).

Definition buildToolResultText (text : jstr) (hasImages supportsImages isError : bool) : jstr :=
  let trimmed := trim text in
  let errorPrefix := if isError then js "[tool error] " else [] in
  if (0 <? length trimmed)%nat then
    let imageSuffix :=
      if hasImages && negb supportsImages then [LF] ++ js "[tool image omitted: model does not support images]" else [] in
    errorPrefix ++ trimmed ++ imageSuffix
  else if hasImages then
    if supportsImages then (if isError then js "[tool error] (see attached image)" else js "(see attached image)")
    else (if isError then js "[tool error] (image omitted: model does not support images)"
          else js "(image omitted: model does not support images)")
  else if isError then js "[tool error] (no tool output)" else js "(no tool output)".

Section Convert.
Context (num_to_string : Q -> jstr) (supportsImages : bool).

Definition mistral_part (p : part) : mistral_chunk :=
  match p with
  | PText t => ChunkText (sanitizeSurrogates t)
  | PImage data mimeType => ChunkImage (image_url data mimeType)
  end.

Definition mistral_user (c : user_content) : list mistral_message :=
  match c with
  | UString s => [MistralUser (MistralString (sanitizeSurrogates s))]
  | UParts ps =>
      let content := map mistral_part (List.filter (fun p => negb (part_is_image p) || supportsImages) ps) in
      if (0 <? length content)%nat then [MistralUser (MistralChunks content)]
      else if existsb part_is_image ps && negb supportsImages
      then [MistralUser (MistralString (js "(image omitted: model does not support images)"))]
      else []
  end.

Definition mistral_block (b : block) : list mistral_chunk :=
  match b with
  | BText text _ => if (0 <? length (trim text))%nat then [ChunkText (sanitizeSurrogates text)] else []
  | BThinking thinking _ _ => if (0 <? length (trim thinking))%nat then [ChunkThinking (sanitizeSurrogates thinking)] else []
  | BToolCall _ => []
  end.

(** [JSON.stringify(block.arguments || {})] *)
Definition mistral_call_of (tc : toolCall) : mistral_call :=
  MistralCall (tc_id tc) (tc_name tc)
    (JSON_stringify num_to_string (if truthy_json (Some (tc_arguments tc)) then tc_arguments tc else JObj [])).

Definition mistral_assistant (a : assistant) : list mistral_message :=
  let contentParts := a_content a ≫= mistral_block in
  let toolCalls := map mistral_call_of (tool_calls (a_content a)) in
  if (0 <? length contentParts)%nat || (0 <? length toolCalls)%nat then [MistralAssistant contentParts toolCalls] else [].

Definition mistral_result (r : tool_result) : mistral_message :=
  let textResult :=
    join [LF] (omap (fun p => match p with PText t => Some (sanitizeSurrogates t) | _ => None end) (tr_content r)) in
  let hasImages := existsb part_is_image (tr_content r) in
  let toolText := buildToolResultText textResult hasImages supportsImages (tr_isError r) in
  MistralTool (tr_toolCallId r) (tr_toolName r)
    (ChunkText toolText ::
     (if supportsImages then map mistral_part (List.filter part_is_image (tr_content r)) else [])).

(** A message of another role, which no caller passes, is not described. *)
Definition mistral_turn (msg : message) : option (list mistral_message) :=
  match msg with
  | MUser c _ => Some (mistral_user c)
  | MAssistant a => Some (mistral_assistant a)
  | MToolResult r => Some [mistral_result r]
  | MOther _ _ => None
  end.

Definition toChatMessages (messages : list message) : option (list mistral_message) :=
  (@concat mistral_message) <$> mapM mistral_turn messages.
End Convert.

(** ** Tools *)

Fixpoint stripSymbolKeys (v : json) : json :=
  match v with
  | JArr l => JArr (map stripSymbolKeys l)
  | JObj fs => JObj (map (fun kv => (kv.1, stripSymbolKeys kv.2)) fs)
  | _ => v
  end.

Definition function_tool (t : api_tool) : result jstr json :=
  let! strict := resolveJsonSchemaStrictSampling (at_tool t) true in
  let! parameters := getJsonSchemaToolParameters (at_tool t) strict in
  Ok (JObj [(js "type", jstring "function");
            (js "function", JObj [(js "name", JStr (at_name t)); (js "description", JStr (at_description t));
                                  (js "parameters", stripSymbolKeys parameters); (js "strict", JBool strict)])]).

Definition toFunctionTools (tools : list api_tool) : result jstr (list json) := map_throw function_tool tools.

(** ** The payload *)

(** A choice is one of four words or the name of a function. *)
Inductive mistral_choice := ChooseWord (w : jstr) | ChooseFunction (name : jstr).

Record mistral_options := MistralOptions {
  mo_temperature : option Q; mo_maxTokens : option Z; mo_toolChoice : option mistral_choice;
  mo_promptMode : option jstr; mo_reasoningEffort : option jstr;
  mo_cacheRetention : option retention; mo_sessionId : option jstr; mo_headers : option header_list
}.

Definition mapToolChoice2 (choice : mistral_choice) : json :=
  match choice with
  | ChooseWord w => JStr w
  | ChooseFunction name => JObj [(js "type", jstring "function"); (js "function", JObj [(js "name", JStr name)])]
  end.

Definition shouldUsePromptCaching (o : mistral_options) : bool :=
  negb (bool_decide (mo_cacheRetention o = Some NoCache)) && truthy_opt (mo_sessionId o).

Definition chunk_json (c : mistral_chunk) : json :=
  match c with
  | ChunkText t => JObj [(js "type", jstring "text"); (js "text", JStr t)]
  | ChunkThinking t =>
      JObj [(js "type", jstring "thinking");
            (js "thinking", JArr [JObj [(js "type", jstring "text"); (js "text", JStr t)]])]
  | ChunkImage url => JObj [(js "type", jstring "image_url"); (js "imageUrl", JStr url)]
  end.

Definition mistral_content_json (c : mistral_content) : json :=
  match c with MistralString s => JStr s | MistralChunks cs => JArr (map chunk_json cs) end.

Definition mistral_call_json (c : mistral_call) : json :=
  JObj [(js "id", JStr (mc_id c)); (js "type", jstring "function");
        (js "function", JObj [(js "name", JStr (mc_name c)); (js "arguments", JStr (mc_arguments c))]); (js "index", int_json 0)].

Definition mistral_message_json (msg : mistral_message) : json :=
  match msg with
  | MistralSystem c => JObj [(js "role", jstring "system"); (js "content", JStr c)]
  | MistralUser c => JObj [(js "role", jstring "user"); (js "content", mistral_content_json c)]
  | MistralAssistant chunks calls =>
      obj [(js "role", Some (jstring "assistant")); (js "prefix", Some (JBool false));
           (js "content", match chunks with [] => None | _ => Some (JArr (map chunk_json chunks)) end);
           (js "toolCalls", match calls with [] => None | _ => Some (JArr (map mistral_call_json calls)) end)]
  | MistralTool id name chunks =>
      JObj [(js "role", jstring "tool"); (js "toolCallId", JStr id); (js "name", JStr name);
            (js "content", JArr (map chunk_json chunks))]
  end.

Definition system_message (systemPrompt : option jstr) : list mistral_message :=
  if truthy_opt systemPrompt then [MistralSystem (sanitizeSurrogates (nullish systemPrompt []))] else [].

Definition truthy_field (s : option jstr) : option json := if truthy_opt s then JStr <$> s else None.

Definition payload_fields (m : model) (messages : list mistral_message) (tools : option (list json)) (o : mistral_options) : list (jstr * json) :=
  fields_of
    [(js "model", Some (JStr (m_id m))); (js "stream", Some (JBool true));
     (js "messages", Some (JArr (map mistral_message_json messages)));
     (js "tools", JArr <$> tools);
     (js "temperature", (fun q => JNum (Finite q)) <$> mo_temperature o);
     (js "maxTokens", int_json <$> mo_maxTokens o);
     (js "toolChoice", mapToolChoice2 <$> mo_toolChoice o);
     (js "promptMode", truthy_field (mo_promptMode o));
     (js "reasoningEffort", truthy_field (mo_reasoningEffort o));
     (js "promptCacheKey", if shouldUsePromptCaching o then JStr <$> mo_sessionId o else None)].

(** [None] for messages [toChatMessages] does not describe. *)
Definition buildChatPayload (num_to_string : Q -> jstr) (m : model) (systemPrompt : option jstr) (messages : list message)
    (tools : option (list api_tool)) (o : mistral_options) : option (result jstr (list (jstr * json))) :=
  chat ← toChatMessages num_to_string (bool_decide (js "image" ∈ m_input m)) messages;
  Some (let! ts := match nullish tools [] with [] => Ok None | l => let! ts := toFunctionTools l in Ok (Some ts) end in
        Ok (payload_fields m (system_message systemPrompt ++ chat) ts o)).

(** ** Names on the wire *)

(** [record[target] = record[source]; delete record[source]] *)
Definition remapMistralProperty (record : list (jstr * json)) (names : string * string) : list (jstr * json) :=
  match lookup_field (js names.1) record with
  | None => record
  | Some v => delete_field (js names.1) (set_field (js names.2) v record)
  end.

Definition payload_names : list (string * string) :=
  [("topP", "top_p"); ("maxTokens", "max_tokens"); ("randomSeed", "random_seed"); ("responseFormat", "response_format");
   ("toolChoice", "tool_choice"); ("presencePenalty", "presence_penalty"); ("frequencyPenalty", "frequency_penalty");
   ("parallelToolCalls", "parallel_tool_calls"); ("reasoningEffort", "reasoning_effort"); ("promptMode", "prompt_mode");
   ("promptCacheKey", "prompt_cache_key"); ("safePrompt", "safe_prompt")]%string.

Definition chunk_names : list (string * string) :=
  [("imageUrl", "image_url"); ("documentUrl", "document_url"); ("documentName", "document_name"); ("fileId", "file_id");
   ("referenceIds", "reference_ids"); ("inputAudio", "input_audio")]%string.

Definition message_names : list (string * string) := [("toolCalls", "tool_calls"); ("toolCallId", "tool_call_id")]%string.

Definition remap_all (names : list (string * string)) (record : list (jstr * json)) : list (jstr * json) :=
  foldl remapMistralProperty record names.

Definition fields (v : json) : list (jstr * json) := match v with JObj fs => fs | _ => [] end.

(** A chunk, which the callers make an object. *)
Definition toMistralWireContentChunk (chunk : json) : json := JObj (remap_all chunk_names (fields chunk)).

Definition toMistralWireMessage (message : json) : json :=
  let wireMessage := remap_all message_names (fields message) in
  match get (js "content") message with
  | Some (JArr chunks) => JObj (set_field (js "content") (JArr (map toMistralWireContentChunk chunks)) wireMessage)
  | _ => JObj wireMessage
  end.

(** What follows the messages; only a payload of [onPayload] has a response format. *)
Definition wire_response_format (wirePayload : list (jstr * json)) : list (jstr * json) :=
  match lookup_field (js "response_format") wirePayload with
  | Some (JObj format) =>
      let format := remapMistralProperty format ("jsonSchema", "json_schema")%string in
      let format :=
        match lookup_field (js "json_schema") format with
        | Some (JObj schema) =>
            set_field (js "json_schema") (JObj (remapMistralProperty schema ("schemaDefinition", "schema")%string)) format
        | _ => format
        end in
      set_field (js "response_format") (JObj format) wirePayload
  | _ => wirePayload
  end.

(** [None] when the payload has no list of messages, which throws. *)
Definition toMistralWirePayload (payload : list (jstr * json)) : option (list (jstr * json)) :=
  match lookup_field (js "messages") payload with
  | Some (JArr messages) =>
      Some (wire_response_format
              (set_field (js "messages") (JArr (map toMistralWireMessage messages)) (remap_all payload_names payload)))
  | _ => None
  end.

(** ** Headers and the address *)

Section Headers.
Context (toLowerCase : jstr -> jstr) (userAgent : jstr).

(** A [Headers] object has its names in lower case. *)
Definition set_header (name value : jstr) (headers : list (jstr * jstr)) : list (jstr * jstr) := map_set (toLowerCase name) value headers.
Definition delete_header (name : jstr) (headers : list (jstr * jstr)) : list (jstr * jstr) :=
  List.filter (fun kv => negb (streq kv.1 (toLowerCase name))) headers.

Definition apply_override (headers : list (jstr * jstr)) (kv : jstr * option jstr) : list (jstr * jstr) :=
  match kv.2 with None => delete_header kv.1 headers | Some v => set_header kv.1 v headers end.

Definition applyMistralHeaderOverrides (headers : list (jstr * jstr)) (overrides : option header_list) : list (jstr * jstr) :=
  foldl apply_override headers (nullish overrides []).

Definition hasMistralHeaderOverride (overrides : option header_list) (target : jstr) : bool :=
  existsb (fun kv => streq (toLowerCase kv.1) target) (nullish overrides []).

Definition initial_headers (apiKey : jstr) : list (jstr * jstr) :=
  foldl (fun hs kv => set_header kv.1 kv.2 hs) []
    [(js "User-Agent", userAgent); (js "accept", js "text/event-stream"); (js "authorization", js "Bearer " ++ apiKey);
     (js "content-type", js "application/json")].

Definition buildMistralHeaders (m : model) (apiKey : jstr) (o : mistral_options) : list (jstr * jstr) :=
  let modelHeaders := map (fun kv => (kv.1, Some kv.2)) <$> m_headers m in
  let headers := applyMistralHeaderOverrides (applyMistralHeaderOverrides (initial_headers apiKey) modelHeaders) (mo_headers o) in
  let hasExplicitAffinity :=
    hasMistralHeaderOverride modelHeaders (js "x-affinity") || hasMistralHeaderOverride (mo_headers o) (js "x-affinity") in
  if shouldUsePromptCaching o && negb hasExplicitAffinity then set_header (js "x-affinity") (nullish (mo_sessionId o) []) headers
  else headers.
End Headers.

Fixpoint drop_slashes (r : jstr) : jstr := match r with c :: r' => if c =? 47 then drop_slashes r' else r | [] => [] end.

(** The address of the request.  [parse_url] gives what precedes the path of a URL
    and its path; a relative reference replaces what follows the last slash. *)
Definition mistral_url (parse_url : jstr -> option (jstr * jstr)) (baseUrl : jstr) : option jstr :=
  '(origin, pathname) ← parse_url baseUrl;
  Some (origin ++ rev (drop_slashes (rev pathname)) ++ js "/" ++ js "v1/chat/completions").

(** ** Reasoning *)

Definition usesReasoningEffort (m : model) : bool :=
  mem (m_id m) (map js ["mistral-small-2603"; "mistral-small-latest"; "mistral-medium-3.5"])%string.

Definition usesPromptModeReasoning (m : model) : bool := m_reasoning m && negb (usesReasoningEffort m).

Definition mapReasoningEffort (m : model) (level : jstr) : jstr :=
  match mapped_level m level with Some (Some v) => v | _ => js "high" end.

(** [promptMode] and [reasoningEffort] of [streamSimple]. *)
Definition simple_reasoning7 (m : model) (reasoning : option jstr) : option jstr * option jstr :=
  let clampedReasoning := if truthy_opt reasoning then clampThinkingLevel m <$> reasoning else None in
  let reasoning := if bool_decide (clampedReasoning = Some (js "off")) then None else clampedReasoning in
  match reasoning with
  | Some level =>
      (if m_reasoning m && usesPromptModeReasoning m then Some (js "reasoning") else None,
       if m_reasoning m && usesReasoningEffort m then Some (mapReasoningEffort m level) else None)
  | None => (None, None)
  end.

(** ** Errors *)

Definition MAX_MISTRAL_ERROR_BODY_CHARS : nat := 4000.

(** What may be thrown: an error, one of the service with its status and body, or
    another value (a signal may be aborted with any reason). *)
Inductive mistral_error :=
| PlainError (message : jstr)
| MistralHttpError (statusCode : Z) (body statusText : jstr)
| OtherValue (v : json).

Definition http_message (statusCode : Z) (statusText : jstr) : jstr :=
  if truthy statusText then statusText else js "Request failed with status " ++ num_str statusCode.

Definition truncateErrorText2 (text : jstr) (maxChars : nat) : jstr :=
  if (length text <=? maxChars)%nat then text
  else take maxChars text ++ js "... [truncated " ++ num_str (Z.of_nat (length text - maxChars)) ++ js " chars]".

Definition formatMistralError (num_to_string : Q -> jstr) (error : mistral_error) : jstr :=
  match error with
  | PlainError message => message
  | MistralHttpError statusCode body statusText =>
      js "Mistral API error (" ++ num_str statusCode ++ js "): " ++
      (if truthy (trim body) then truncateErrorText2 (trim body) MAX_MISTRAL_ERROR_BODY_CHARS else http_message statusCode statusText)
  | OtherValue v => JSON_stringify num_to_string v
  end.

(** * Facts *)

(** ** Identifiers *)

Lemma letters_ok s : Forall (fun c => letter_or_digit c = true) (letters_and_digits s).
Proof. apply Forall_forall. intros c Hc. apply list_elem_of_In, filter_In in Hc as [_ H]. exact H. Qed.

Lemma letters_id s : Forall (fun c => letter_or_digit c = true) s -> letters_and_digits s = s.
Proof. intros HF. apply forallb_filter_id, forallb_forall. intros c Hc. rewrite Forall_forall in HF. by apply HF, list_elem_of_In. Qed.

Lemma hash_letters s : letters_and_digits (shortHash s) = shortHash s.
Proof.
  destruct (shortHash_shape s) as [Hh _]. apply letters_id. eapply Forall_impl; [exact Hh|].
  unfold alnum36, letter_or_digit. intros x Hx. rewrite !orb_true_iff, !andb_true_iff, !Z.leb_le. lia.
Qed.

(** What Mistral accepts: letters and digits, at most nine of them, at least two. *)
Definition mistral_id (n : jstr) : Prop := Forall (fun c => letter_or_digit c = true) n /\ (2 <= length n <= 9)%nat.

Lemma derived_id id attempt : mistral_id (deriveMistralToolCallId id attempt).
Proof.
  unfold deriveMistralToolCallId, mistral_id. destruct ((attempt =? 0) && _) eqn:E.
  - apply andb_true_iff in E as [_ E%Nat.eqb_eq]. split; [apply letters_ok|]. unfold MISTRAL_TOOL_CALL_ID_LENGTH in E. lia.
  - set (seed := if attempt =? 0 then _ else _). rewrite hash_letters. destruct (shortHash_shape seed) as [_ Hl]. split.
    + rewrite <- (hash_letters seed). apply Forall_take, letters_ok.
    + rewrite length_take. unfold MISTRAL_TOOL_CALL_ID_LENGTH. lia.
Qed.

Lemma derived_truthy id attempt : truthy (deriveMistralToolCallId id attempt) = true.
Proof. destruct (derived_id id attempt) as [_ H]. destruct (deriveMistralToolCallId id attempt); [cbn in H; lia|done]. Qed.

Lemma candidate_spec fuel owners id attempt n :
  free_candidate fuel owners id attempt = Some n ->
  (exists k, n = deriveMistralToolCallId id k) /\ match owners !! n with Some o => o = [] \/ o = id | None => True end.
Proof.
  revert attempt. induction fuel as [|fuel IH]; intros attempt; [done|]. cbn [free_candidate].
  destruct (owners !! deriveMistralToolCallId id attempt) as [o|] eqn:Eo.
  - destruct (negb (truthy o) || streq o id) eqn:E; [|apply IH]. intros [= <-]. split; [by eexists|]. rewrite Eo.
    apply orb_true_iff in E as [E|E]; [left; by destruct o|right; by apply streq_true].
  - intros [= <-]. split; [by eexists|by rewrite Eo].
Qed.

(** Every name given belongs to the identifier it was given to, unless that is empty. *)
Record maps_ok (maps : id_maps) : Prop := {
  ok_owner : forall id n, im_ids maps !! id = Some n -> id ≠ [] -> im_owners maps !! n = Some id;
  ok_name : forall id n, im_ids maps !! id = Some n -> mistral_id n
}.

Lemma no_ids_ok : maps_ok no_ids.
Proof. split; intros id n H; cbn in H; by rewrite lookup_empty in H. Qed.

Lemma truthy_name n : mistral_id n -> truthy n = true.
Proof. intros [_ H]. destruct n; [cbn in H; lia|done]. Qed.

(** One call: the identifier has its name afterwards, and the others keep theirs. *)
Lemma normalize_spec fuel maps id n maps' :
  maps_ok maps -> normalizeMistralToolCallId fuel maps id = Some (n, maps') ->
  maps_ok maps' /\ im_ids maps' !! id = Some n /\ forall id' n', im_ids maps !! id' = Some n' -> im_ids maps' !! id' = Some n'.
Proof.
  intros [Ho Hn] H. unfold normalizeMistralToolCallId in H. destruct (im_ids maps !! id) as [e|] eqn:Ee.
  { rewrite (truthy_name e (Hn _ _ Ee)) in H. injection H as <- <-. split; [by split|]. by split. }
  destruct (free_candidate fuel (im_owners maps) id 0) as [c|] eqn:Ec; [|done]. cbn in H. injection H as <- <-.
  apply candidate_spec in Ec as [[k ->] Hc]. cbn [im_ids im_owners]. split_and!.
  - split; cbn [im_ids im_owners]; intros id' n' Hl.
    + intros Hne. destruct (decide (id = id')) as [->|Hd]; [rewrite lookup_insert_eq in Hl; injection Hl as <-; by rewrite lookup_insert_eq|].
      rewrite lookup_insert_ne in Hl by done. specialize (Ho _ _ Hl Hne). rewrite lookup_insert_ne; [done|].
      intros <-. rewrite Ho in Hc. destruct Hc as [?|?]; congruence.
    + destruct (decide (id = id')) as [->|Hd]; [rewrite lookup_insert_eq in Hl; injection Hl as <-; apply derived_id|].
      rewrite lookup_insert_ne in Hl by done. by eapply Hn.
  - by rewrite lookup_insert_eq.
  - intros id' n' Hl. rewrite lookup_insert_ne; [done|]. intros <-. congruence.
Qed.

(** The answers are what the map holds in the end. *)
Lemma normalize_ids_final fuel ids maps ns maps' :
  maps_ok maps -> normalize_ids fuel maps ids = Some (ns, maps') ->
  maps_ok maps' /\ Forall2 (fun id n => im_ids maps' !! id = Some n) ids ns /\
  forall id n, im_ids maps !! id = Some n -> im_ids maps' !! id = Some n.
Proof.
  revert maps ns maps'. induction ids as [|id ids IH]; intros maps ns maps' Hok H; cbn [normalize_ids] in H.
  { injection H as <- <-. split; [done|]. by split; [constructor|]. }
  destruct (normalizeMistralToolCallId fuel maps id) as [[n maps1]|] eqn:E; [|done]. cbn in H.
  destruct (normalize_ids fuel maps1 ids) as [[ns' maps2]|] eqn:E2; [|done]. cbn in H. injection H as <- <-.
  destruct (normalize_spec _ _ _ _ _ Hok E) as (Hok1 & Hn & Hk). destruct (IH _ _ _ Hok1 E2) as (Hok2 & HF2 & Hk2).
  split; [done|]. split; [constructor; [by apply Hk2|done]|]. intros id' n' Hl. by apply Hk2, Hk.
Qed.

(** Identifiers whose first candidates differ get them at the first attempt. *)
Lemma normalize_first ids maps :
  maps_ok maps -> (forall id n, im_ids maps !! id = Some n -> n = deriveMistralToolCallId id 0) ->
  (forall n id, im_owners maps !! n = Some id -> im_ids maps !! id = Some n) ->
  (forall id id', (id ∈ ids \/ is_Some (im_ids maps !! id)) -> id' ∈ ids -> deriveMistralToolCallId id 0 = deriveMistralToolCallId id' 0 -> id = id') ->
  exists maps', normalize_ids 1 maps ids = Some (map (fun id => deriveMistralToolCallId id 0) ids, maps').
Proof.
  revert maps. induction ids as [|id ids IH]; intros maps Hok H0 Hw Hinj; [by eexists|]. cbn [normalize_ids].
  assert (Hn : exists maps1, normalizeMistralToolCallId 1 maps id = Some (deriveMistralToolCallId id 0, maps1) /\
    (maps1 = maps \/ im_ids maps !! id = None /\
     maps1 = IdMaps (<[id := deriveMistralToolCallId id 0]> (im_ids maps)) (<[deriveMistralToolCallId id 0 := id]> (im_owners maps)))).
  { unfold normalizeMistralToolCallId. destruct (im_ids maps !! id) as [e|] eqn:E.
    - rewrite (truthy_name e (ok_name _ Hok _ _ E)). apply H0 in E as ->. eexists. split; [done|by left].
    - cbn [free_candidate]. destruct (im_owners maps !! deriveMistralToolCallId id 0) as [o|] eqn:Eo.
      + exfalso. pose proof (Hw _ _ Eo) as Hx. pose proof (H0 _ _ Hx) as Hy. assert (o = id); [|congruence].
        apply Hinj; [right; by eexists|left|by symmetry].
      + eexists. split; [done|by right]. }
  destruct Hn as (maps1 & Hn & Hcase). rewrite Hn. cbn [mbind option_bind].
  destruct (normalize_spec _ _ _ _ _ Hok Hn) as (Hok1 & Hid & Hkeep). destruct (IH maps1) as [maps2 H2].
  - done.
  - destruct Hcase as [->|[_ ->]]; [done|]. cbn [im_ids]. intros id' n'. destruct (decide (id = id')) as [<-|]; [rewrite lookup_insert_eq; by intros [= <-]|].
    rewrite lookup_insert_ne by done. apply H0.
  - destruct Hcase as [->|[_ ->]]; [done|]. cbn [im_ids im_owners]. intros n' o. destruct (decide (deriveMistralToolCallId id 0 = n')) as [<-|Hd].
    + rewrite lookup_insert_eq. intros [= <-]. by rewrite lookup_insert_eq.
    + rewrite lookup_insert_ne by done. intros Ho. pose proof (Hw _ _ Ho) as Hx. rewrite lookup_insert_ne; [done|]. intros <-. by apply H0 in Hx.
  - intros a b Ha Hb. apply Hinj; [|by right]. destruct Ha as [Ha|[x Ha]]; [left; by right|].
    destruct Hcase as [->|[_ ->]]; [right; by eexists|]. cbn [im_ids] in Ha. destruct (decide (id = a)) as [<-|]; [left; left|].
    rewrite lookup_insert_ne in Ha by done. right. by eexists.
  - rewrite H2. by eexists.
Qed.

(** The identifiers Mistral gets are two to nine letters and digits; two calls get
    the same exactly when they had the same, as long as none is empty; and the first
    candidates are used when they differ. *)
Theorem mistral_ids_distinct fuel ids :
  (forall ns maps, normalize_ids fuel no_ids ids = Some (ns, maps) ->
     Forall mistral_id ns /\
     (Forall (fun id => id ≠ []) ids -> forall i j a b x y, ids !! i = Some a -> ids !! j = Some b -> ns !! i = Some x -> ns !! j = Some y -> (x = y <-> a = b))) /\
  ((forall a b, a ∈ ids -> b ∈ ids -> deriveMistralToolCallId a 0 = deriveMistralToolCallId b 0 -> a = b) ->
   exists maps, normalize_ids 1 no_ids ids = Some (map (fun id => deriveMistralToolCallId id 0) ids, maps)).
Proof.
  split.
  - intros ns maps H. destruct (normalize_ids_final _ _ _ _ _ no_ids_ok H) as (Hok & HF & _). split.
    + clear H. induction HF as [|id n ids ns Hn HF IH]; constructor; [by eapply ok_name|done].
    + intros Hne i j a b x y Ha Hb Hx Hy.
      pose proof (Forall2_lookup_lr _ _ _ _ _ _ HF Ha Hx) as H1. pose proof (Forall2_lookup_lr _ _ _ _ _ _ HF Hb Hy) as H2. cbn in H1, H2.
      rewrite Forall_lookup in Hne. split; [intros <-|intros <-; congruence].
      pose proof (ok_owner _ Hok _ _ H1 (Hne _ _ Ha)). pose proof (ok_owner _ Hok _ _ H2 (Hne _ _ Hb)). congruence.
  - intros Hinj. apply normalize_first; [apply no_ids_ok|..].
    + intros id n H. cbn in H. by rewrite lookup_empty in H.
    + intros n id H. cbn in H. by rewrite lookup_empty in H.
    + intros a b [Ha|[x Ha]] Hb; [by apply Hinj|]. cbn in Ha. by rewrite lookup_empty in Ha.
Qed.

(** An empty identifier owns nothing: another call is given its name. *)
Lemma mistral_empty_id_shared :
  fst <$> normalize_ids 1 no_ids [[]; js "k4n83c7h0"] = Some [js "k4n83c7h0"; js "k4n83c7h0"].
Proof. vm_compute. reflexivity. Qed.

(** ** Calls and results *)

Definition sent_calls (msg : mistral_message) : list jstr := match msg with MistralAssistant _ calls => map mc_id calls | _ => [] end.
Definition sent_result (msg : mistral_message) : option jstr := match msg with MistralTool id _ _ => Some id | _ => None end.

(** The results that follow at once. *)
Fixpoint sent_results (ms : list mistral_message) : list jstr :=
  match ms with MistralTool id _ _ :: r => id :: sent_results r | _ => [] end.

Fixpoint mistral_paired (ms : list mistral_message) : Prop :=
  match ms with
  | [] => True
  | msg :: r => Forall (fun id => id ∈ sent_results r) (sent_calls msg) /\ mistral_paired r
  end.

Section Pairs.
Context (num_to_string : Q -> jstr) (images : bool).
#[local] Abbreviation sent_turn := (mistral_turn num_to_string images).
#[local] Abbreviation chat_of := (toChatMessages num_to_string images).

Lemma chat_cons msg ms here chat : sent_turn msg = Some here -> chat_of ms = Some chat -> chat_of (msg :: ms) = Some (here ++ chat).
Proof.
  unfold toChatMessages. intros H1 H2. cbn [mapM]. rewrite H1. cbn. destruct (mapM sent_turn ms); [|done]. cbn in *. by injection H2 as <-.
Qed.

Lemma turn_total msg : not_other msg -> exists here, sent_turn msg = Some here.
Proof. destruct msg; [by eexists..|done]. Qed.

Lemma chat_total ms : Forall not_other ms -> exists chat, chat_of ms = Some chat.
Proof.
  induction 1 as [|msg ms Hm HF [chat IH]]; [by eexists|]. destruct (turn_total msg Hm) as [here H]. eexists. by apply chat_cons.
Qed.

(** A user message becomes messages without calls and results; a reply at most one. *)
Lemma user_sent c : Forall (fun msg => sent_calls msg = [] /\ sent_result msg = None) (mistral_user images c).
Proof. unfold mistral_user. destruct c as [s|ps]; [|destruct (0 <? _)%nat; [|destruct (_ && _)]]; by repeat constructor. Qed.

Lemma plain_sent l r :
  Forall (fun msg => sent_calls msg = [] /\ sent_result msg = None) l -> mistral_paired r ->
  mistral_paired (l ++ r) /\ l ≫= sent_calls = [] /\ omap sent_result l = [].
Proof.
  intros HF Hr. induction HF as [|x l [Hc Hs] HF (IH1 & IH2 & IH3)]; [done|]. rewrite bind_cons, Hc, IH2. cbn. rewrite Hc, Hs.
  split_and!; [by constructor|done|done|exact IH3].
Qed.

Lemma assistant_sent a :
  mistral_assistant num_to_string a = [] /\ tool_calls (a_content a) = [] \/
  exists chunks calls, mistral_assistant num_to_string a = [MistralAssistant chunks calls] /\ map mc_id calls = map tc_id (tool_calls (a_content a)).
Proof.
  unfold mistral_assistant. set (calls := map _ (tool_calls _)). assert (Hc : map mc_id calls = map tc_id (tool_calls (a_content a))) by (unfold calls; by rewrite map_map).
  destruct (_ || _) eqn:E; [right; by eexists _, _|]. left. split; [done|]. apply orb_false_iff in E as [_ E%Nat.ltb_ge].
  unfold calls in E. rewrite length_map in E. by apply length_zero_iff_nil; lia.
Qed.

Lemma chat_answers ms chat id : Forall not_other ms -> chat_of ms = Some chat -> answered ms id -> id ∈ sent_results chat.
Proof.
  unfold answered. intros HF. revert chat. induction HF as [|msg ms Hm HF IH]; intros chat Hc Ha; [by apply Exists_nil in Ha|].
  destruct msg as [c t|a|r|x t]; cbn [segment] in Ha; try (by apply Exists_nil in Ha); [|done].
  destruct (chat_total ms HF) as [more Hmore]. rewrite (chat_cons (MToolResult r) ms [mistral_result images r] more eq_refl Hmore) in Hc. injection Hc as <-. cbn.
  apply Exists_cons in Ha as [Ha|Ha]; [cbn in Ha; subst id; left|right; by apply IH].
Qed.

Lemma chat_paired_sent ms chat :
  Forall not_other ms -> all_answered ms -> chat_of ms = Some chat ->
  mistral_paired chat /\ chat ≫= sent_calls = ms ≫= message_calls /\ omap sent_result chat = ms ≫= message_results.
Proof.
  intros HF. revert chat. induction HF as [|msg ms Hm HF IH]; intros chat Ha Hc; [cbn in Hc; by injection Hc as <-|].
  destruct (chat_total ms HF) as [more Hmore]. destruct (turn_total msg Hm) as [here Hh].
  rewrite (chat_cons _ _ _ _ Hh Hmore) in Hc. injection Hc as <-. rewrite !bind_app, !bind_cons, omap_app.
  destruct msg as [c t|a|r|x t]; [..|done]; cbn [all_answered mistral_turn] in Ha, Hh; injection Hh as <-.
  - destruct (IH more Ha Hmore) as (H1 & -> & ->). destruct (plain_sent _ more (user_sent c) H1) as (H2 & -> & ->). by split_and!.
  - destruct Ha as [Ha1 Ha2]. destruct (IH more Ha2 Hmore) as (H1 & -> & ->).
    destruct (assistant_sent a) as [[-> Hn]|(chunks & calls & -> & Hids)]; cbn [message_calls message_results app].
    + split; [done|]. by rewrite Hn.
    + split; [|split; [|done]; cbn; by rewrite Hids, app_nil_r]. cbn. split; [|done]. rewrite Hids. apply Forall_map. eapply Forall_impl; [exact Ha1|].
      intros tc Htc. by eapply chat_answers.
  - destruct (IH more Ha Hmore) as (H1 & -> & ->). by split_and!.
Qed.
End Pairs.

(** In every request to Mistral each tool call of an assistant message is answered by
    one of the tool messages right after it, and the calls and results are those of
    the replayed conversation, in order. *)
Theorem mistral_request_pairs num_to_string fuel m now systemPrompt messages tools o replayed :
  Forall raw_not_other messages -> mistral_replay fuel m now messages = Some replayed ->
  exists chat,
    toChatMessages num_to_string (bool_decide (js "image" ∈ m_input m)) replayed = Some chat /\
    mistral_paired (system_message systemPrompt ++ chat) /\
    chat ≫= sent_calls = replayed ≫= message_calls /\ omap sent_result chat = replayed ≫= message_results /\
    forall payload, buildChatPayload num_to_string m systemPrompt replayed tools o = Some (Ok payload) ->
      lookup_field (js "messages") payload = Some (JArr (map mistral_message_json (system_message systemPrompt ++ chat))).
Proof.
  intros HF H. unfold mistral_replay in H. destruct (normalize_ids _ _ _) as [[ns maps]|]; [|done]. cbn in H. injection H as <-.
  set (norm := Some _). assert (HN : Forall not_other (transformMessages messages m norm now)) by (by apply transformMessages_not_other).
  destruct (chat_total num_to_string (bool_decide (js "image" ∈ m_input m)) _ HN) as [chat Hc]. exists chat. split; [done|].
  destruct (chat_paired_sent _ _ _ chat HN (pair_results_answered _ _ _ _) Hc) as (H1 & H2 & H3). split_and!; [|done|done|].
  - unfold system_message. by destruct (truthy_opt systemPrompt).
  - intros payload Hp. unfold buildChatPayload in Hp. rewrite Hc in Hp. cbn [mbind option_bind] in Hp.
    destruct (match nullish tools [] with [] => Ok None | _ => _ end) as [ts|]; [|done]. cbn [bind] in Hp. by injection Hp as <-.
Qed.

(** ** The wire *)

Lemma lookup_delete_field k k' fs : lookup_field k (delete_field k' fs) = if streq k' k then None else lookup_field k fs.
Proof.
  unfold delete_field. induction fs as [|[x v] fs IH]; [by destruct (streq k' k)|]. cbn [List.filter fst lookup_field].
  destruct (streq x k') eqn:E; cbn [negb lookup_field].
  - rewrite IH. apply streq_true in E as ->. by destruct (streq k' k).
  - destruct (streq x k) eqn:E2; [|done]. apply streq_true in E2 as ->. destruct (streq k' k) eqn:E3; [|done].
    apply streq_true in E3 as ->. by rewrite streq_refl in E.
Qed.

Lemma lookup_remap s t k r :
  js s ≠ js t ->
  lookup_field k (remapMistralProperty r (s, t)) =
  if streq (js s) k then None else if streq (js t) k then from_option Some (lookup_field k r) (lookup_field (js s) r) else lookup_field k r.
Proof.
  intros Hne. unfold remapMistralProperty. cbn [fst snd]. destruct (lookup_field (js s) r) as [v|] eqn:E; cbn [from_option].
  - rewrite lookup_delete_field. destruct (streq (js s) k); [done|]. destruct (streq (js t) k) eqn:Et.
    + apply streq_true in Et as <-. apply lookup_set_field_eq.
    + apply lookup_set_field_ne. intros ->. by rewrite streq_refl in Et.
  - destruct (streq (js s) k) eqn:Es; [apply streq_true in Es as <-; done|]. by destruct (streq (js t) k).
Qed.

Definition sources (names : list (string * string)) : list jstr := map (fun n => js n.1) names.
Definition targets (names : list (string * string)) : list jstr := map (fun n => js n.2) names.

(** Renaming moves each value to its new name and touches nothing else. *)
Lemma remap_all_spec names r :
  NoDup (sources names ++ targets names) ->
  (forall k, k ∈ sources names -> lookup_field k (remap_all names r) = None) /\
  (forall s t v, (s, t) ∈ names -> lookup_field (js s) r = Some v -> lookup_field (js t) (remap_all names r) = Some v) /\
  (forall k, k ∉ sources names ++ targets names -> lookup_field k (remap_all names r) = lookup_field k r).
Proof.
  revert r. induction names as [|[s0 t0] names IH]; intros r HN.
  { split_and!; [intros k H; by apply elem_of_nil in H|intros s t v H; by apply elem_of_nil in H|done]. }
  unfold sources, targets in HN. cbn [map fst snd app] in HN. rewrite NoDup_cons in HN. destruct HN as [Hs HN].
  fold (sources names) in *. fold (targets names) in *.
  assert (Ht : (js t0 ∉ sources names ++ targets names) /\ NoDup (sources names ++ targets names)).
  { rewrite Permutation_app_comm in HN. cbn in HN. rewrite Permutation_app_comm in HN. by apply NoDup_cons in HN. }
  destruct Ht as [Ht HN']. assert (Hne : js s0 ≠ js t0) by (intros E; apply Hs; rewrite E; set_solver).
  assert (Hs' : js s0 ∉ sources names ++ targets names) by set_solver.
  cbn [remap_all foldl]. fold (remap_all names (remapMistralProperty r (s0, t0))).
  destruct (IH (remapMistralProperty r (s0, t0)) HN') as (I1 & I2 & I3). split_and!.
  - intros k Hk. cbn in Hk. apply elem_of_cons in Hk as [->|Hk]; [|by apply I1].
    rewrite I3 by done. rewrite lookup_remap by done. by rewrite streq_refl.
  - intros s t v Hin Hv. apply elem_of_cons in Hin as [[= -> ->]|Hin].
    + rewrite I3 by done. rewrite lookup_remap by done. rewrite streq_refl, Hv. destruct (streq (js s0) (js t0)) eqn:E; [by apply streq_true in E|done].
    + apply (I2 s t v Hin). rewrite lookup_remap by done. assert (Hin' : js s ∈ sources names) by (by apply list_elem_of_fmap_2 with (f := fun n => js n.1) in Hin).
      destruct (streq (js s0) (js s)) eqn:E1; [apply streq_true in E1; exfalso; apply Hs'; rewrite E1; set_solver|].
      destruct (streq (js t0) (js s)) eqn:E2; [apply streq_true in E2; exfalso; apply Ht; rewrite E2; set_solver|done].
  - intros k Hk. cbn in Hk. rewrite I3 by set_solver. rewrite lookup_remap by done.
    destruct (streq (js s0) k) eqn:E1; [apply streq_true in E1 as <-; exfalso; apply Hk; left|].
    destruct (streq (js t0) k) eqn:E2; [apply streq_true in E2 as <-; exfalso; apply Hk; set_solver|done].
Qed.

Lemma payload_names_distinct : NoDup (sources payload_names ++ targets payload_names).
Proof. apply (bool_decide_unpack _). vm_compute. exact I. Qed.

(** What goes on the wire: every option under its wire name, none under the name the
    code uses, the messages rewritten one by one, and everything else as it is. *)
Theorem mistral_wire_payload payload wire :
  toMistralWirePayload payload = Some wire ->
  (forall k, k ∈ sources payload_names -> lookup_field k wire = None) /\
  (forall s t v, (s, t) ∈ payload_names -> t ≠ "response_format"%string -> lookup_field (js s) payload = Some v -> lookup_field (js t) wire = Some v) /\
  (forall k, k ∉ js "messages" :: sources payload_names ++ targets payload_names -> lookup_field k wire = lookup_field k payload) /\
  (exists ms, lookup_field (js "messages") payload = Some (JArr ms) /\ lookup_field (js "messages") wire = Some (JArr (map toMistralWireMessage ms))).
Proof.
  unfold toMistralWirePayload. destruct (lookup_field (js "messages") payload) as [[| | | |ms|]|] eqn:Em; try done. intros [= <-].
  destruct (remap_all_spec payload_names payload payload_names_distinct) as (H1 & H2 & H3).
  set (w := set_field (js "messages") _ _). assert (Hw : forall k, k ≠ js "response_format" -> lookup_field k (wire_response_format w) = lookup_field k w).
  { intros k Hk. unfold wire_response_format. destruct (lookup_field (js "response_format") w) as [[| | | | |fs]|]; try done. by apply lookup_set_field_ne. }
  assert (Hm : forall k, k ≠ js "messages" -> lookup_field k w = lookup_field k (remap_all payload_names payload)) by (intros k Hk; by apply lookup_set_field_ne).
  assert (Hms : js "messages" ∉ sources payload_names ++ targets payload_names) by (apply (bool_decide_unpack _); vm_compute; exact I).
  split_and!.
  - intros k Hk. rewrite Hw, Hm; [by apply H1|by intros ->; apply Hms, elem_of_app; left|].
    intros ->. revert Hk. apply (bool_decide_unpack _). vm_compute. exact I.
  - intros s t v Hin Hr Hv. assert (Ht : js t ∈ targets payload_names) by (by apply list_elem_of_fmap_2 with (f := fun n => js n.2) in Hin).
    rewrite Hw, Hm; [by apply (H2 s t)|by intros E; apply Hms, elem_of_app; right; rewrite <- E|].
    assert (HF : Forall (fun n : string * string => n.2 = "response_format"%string \/ js n.2 ≠ js "response_format") payload_names).
    { apply (bool_decide_unpack _). vm_compute. exact I. }
    rewrite Forall_forall in HF. by destruct (HF _ Hin).
  - intros k Hk. rewrite Hw, Hm; [apply H3; intros Hin; apply Hk; by right|intros ->; apply Hk; left|]. intros ->. apply Hk. right. apply elem_of_app. right.
    apply (bool_decide_unpack _). vm_compute. exact I.
  - exists ms. split; [done|]. rewrite Hw by done. apply lookup_set_field_eq.
Qed.

(** ** Witnesses *)

Definition mistral_model : model :=
  Model (js "mistral-small-latest") (js "Mistral Small") (js "mistral-conversations") (js "mistral") (js "https://api.mistral.ai") true
    [js "text"] 100 10 plain_rates None (Some [(js "low", Some (js "low"))]) None.

(** Two calls of another model, one of them answered. *)
Definition mistral_history : list raw_message :=
  [Complete (MUser (UString (js "hi")) 1);
   Complete (MAssistant (example_assistant (js "other")
     [BText (js "I look.") None; BToolCall (ToolCall (js "call_1|fc_1") (js "ls") (JObj []) None None);
      BToolCall (ToolCall (js "call_2|fc_2") (js "ls") JNull None None)] ToolUse));
   Complete (MToolResult (ToolResult (js "call_1|fc_1") (js "ls") [PText (js " a "); PImage (js "AA") (js "image/png")] true None 6))].

Definition mistral_opts : mistral_options :=
  MistralOptions None (Some 100) (Some (ChooseWord (js "auto"))) None (Some (js "high")) None (Some (js "s1")) None.

Lemma mistral_history_not_other : Forall raw_not_other mistral_history.
Proof. repeat constructor. Qed.

Lemma mistral_request_pairs_witness :
  match mistral_replay 1 mistral_model 9 mistral_history with
  | Some replayed =>
      exists chat, toChatMessages int_num_str false replayed = Some chat /\ mistral_paired (system_message (Some (js "Be brief.")) ++ chat) /\
        chat ≫= sent_calls = [js "198dty0p9"; js "3mm42617e"]
  | None => False
  end.
Proof.
  destruct (mistral_replay 1 mistral_model 9 mistral_history) as [replayed|] eqn:E; [|by vm_compute in E].
  destruct (mistral_request_pairs int_num_str 1 mistral_model 9 (Some (js "Be brief.")) mistral_history None mistral_opts replayed
    mistral_history_not_other E) as (chat & H1 & H2 & H3 & _). exists chat. split; [exact H1|]. split; [exact H2|].
  rewrite H3. vm_compute in E. injection E as <-. vm_compute. reflexivity.
Defined.

Definition mistral_payload : list (jstr * json) :=
  payload_fields mistral_model [MistralUser (MistralChunks [ChunkImage (js "data:")])] None mistral_opts.

Lemma mistral_wire_payload_witness :
  match toMistralWirePayload mistral_payload with
  | Some wire =>
      lookup_field (js "maxTokens") wire = None /\ lookup_field (js "max_tokens") wire = Some (int_json 100) /\
      lookup_field (js "prompt_cache_key") wire = Some (jstring "s1") /\ lookup_field (js "stream") wire = Some (JBool true)
  | None => False
  end.
Proof.
  destruct (toMistralWirePayload mistral_payload) as [wire|] eqn:E; [|by vm_compute in E].
  destruct (mistral_wire_payload mistral_payload wire E) as (H1 & H2 & H3 & _).
  assert (Hk : js "maxTokens" ∈ sources payload_names) by (apply (bool_decide_unpack _); vm_compute; exact I).
  assert (Hs : js "stream" ∉ js "messages" :: sources payload_names ++ targets payload_names) by (apply (bool_decide_unpack _); vm_compute; exact I).
  assert (Hp : ("maxTokens", "max_tokens")%string ∈ payload_names /\ ("promptCacheKey", "prompt_cache_key")%string ∈ payload_names)
    by (split; apply (bool_decide_unpack _); vm_compute; exact I).
  split; [exact (H1 _ Hk)|]. split; [exact (H2 _ _ _ (proj1 Hp) ltac:(discriminate) eq_refl)|].
  split; [exact (H2 _ _ _ (proj2 Hp) ltac:(discriminate) eq_refl)|]. rewrite (H3 _ Hs). reflexivity.
Defined.

(** A request with an image and its headers, as they are sent. *)
Example mistral_wire_ex :
  toMistralWirePayload mistral_payload =
  Some (fields_of
    [(js "model", Some (jstring "mistral-small-latest")); (js "stream", Some (JBool true));
     (js "messages", Some (JArr [JObj [(js "role", jstring "user");
        (js "content", JArr [JObj [(js "type", jstring "image_url"); (js "image_url", jstring "data:")]])]]));
     (js "max_tokens", Some (int_json 100)); (js "tool_choice", Some (jstring "auto")); (js "reasoning_effort", Some (jstring "high"));
     (js "prompt_cache_key", Some (jstring "s1"))]) /\
  buildMistralHeaders lower_ascii (js "pi") mistral_model (js "k")
    (MistralOptions None None None None None None (Some (js "s1")) (Some [(js "X-Affinity", None); (js "Accept", Some (js "*/*"))])) =
  [(js "user-agent", js "pi"); (js "accept", js "*/*"); (js "authorization", js "Bearer k"); (js "content-type", js "application/json")].
Proof. split; vm_compute; reflexivity. Qed.
