(* ===== verification/MistralSse.v ===== *)
(** How Mistral's responses are read: blank lines cut the body into events, whose data
    are JSON (packages/ai, readMistralEvents, findMistralEventBoundary and
    parseMistralEvent of api/mistral-conversations.js, bundled in
    src/drivers/tools/pibridge/bridge.mjs).  However the body is cut into chunks, the
    events are those of its groups of lines. *)
From S2P Require Import Prelude Utf8 Numbers Json Messages Sse ConstrainedSampling MistralMessages.
Open Scope Z_scope.

(** ** Boundaries *)

(** The alternatives of the expression, in order. *)
Definition boundaries : list jstr :=
  [[CR; LF; CR; LF]; [CR; LF; CR]; [CR; LF; LF]; [CR; CR; LF]; [LF; CR; LF]; [CR; CR]; [LF; CR]; [LF; LF]].

Definition boundary_here (s : jstr) : option nat := length <$> List.find (fun b => starts_with b s) boundaries.

(** The index and the length of the first match. *)
Fixpoint findMistralEventBoundary (buffer : jstr) : option (nat * nat) :=
  match boundary_here buffer with
  | Some len => Some (O, len)
  | None => match buffer with [] => None | _ :: r => (fun il => (S il.1, il.2)) <$> findMistralEventBoundary r end
  end.

(** ** Events *)

(** [undefined], [MISTRAL_STREAM_DONE], or the data of an event. *)
Inductive mistral_parsed := NoEvent | StreamDone | ParsedEvent (data : json).

(** [raw.split(/\r\n|\r|\n/u)] *)
Definition split_breaks (raw : jstr) : list jstr := (cut_lines raw).1 ++ [(cut_lines raw).2].

Definition event_data (lines : list jstr) : jstr :=
  trim (join [LF] (map (fun line => trim_start (drop 5 line)) (List.filter (starts_with (js "data:")) lines))).

Section Read.
(** What the engine says of a text that is not JSON. *)
Context (parse_error : jstr -> jstr).

Definition parse_lines (lines : list jstr) : result mistral_error mistral_parsed :=
  let data := event_data lines in
  if negb (truthy data) then Ok NoEvent
  else if streq data (js "[DONE]") then Ok StreamDone
  else
    match JSON_parse data with
    | None => Throw (PlainError (parse_error data))
    | Some parsed =>
        match parsed, get (js "choices") parsed with
        | JObj _, Some (JArr _) => Ok (ParsedEvent parsed)
        | _, _ => Throw (PlainError (js "Invalid Mistral streaming event"))
        end
    end.

Definition parseMistralEvent (raw : jstr) : result mistral_error mistral_parsed := parse_lines (split_breaks raw).

(** The loop over the boundaries of the buffer: the events it yields, and the rest of
    the buffer unless the stream is done.  Every boundary is at least two units long,
    so the length of the buffer is enough fuel. *)
Fixpoint drain_events (fuel : nat) (buffer : jstr) : list json * result mistral_error (option jstr) :=
  match fuel with
  | O => ([], Ok (Some buffer))
  | S fuel =>
      match findMistralEventBoundary buffer with
      | None => ([], Ok (Some buffer))
      | Some (index, len) =>
          let rest := drop (index + len) buffer in
          match parseMistralEvent (take index buffer) with
          | Throw e => ([], Throw e)
          | Ok StreamDone => ([], Ok None)
          | Ok NoEvent => drain_events fuel rest
          | Ok (ParsedEvent v) => let '(vs, r) := drain_events fuel rest in (v :: vs, r)
          end
      end
  end.

(** What is left when the body is done. *)
Definition last_event (buffer : jstr) : list json * result mistral_error () :=
  if truthy (trim buffer) then
    match parseMistralEvent buffer with
    | Throw e => ([], Throw e)
    | Ok (ParsedEvent v) => ([v], Ok ())
    | Ok _ => ([], Ok ())
    end
  else ([], Ok ()).

(** The events that are yielded and how the generator ends.  [ending] is what a read
    or the aborted signal throws after the chunks, if anything. *)
Fixpoint read_mistral (chunks : list (list Z)) (ending : option mistral_error) (decoder : text_decoder) (buffer : jstr)
  : list json * result mistral_error () :=
  match chunks with
  | [] =>
      match ending with
      | Some e => ([], Throw e)
      | None =>
          let buffer := buffer ++ (td_end decoder).1 in
          match drain_events (length buffer) buffer with
          | (vs, Throw e) => (vs, Throw e)
          | (vs, Ok None) => (vs, Ok ())
          | (vs, Ok (Some rest)) => let '(ws, r) := last_event rest in (vs ++ ws, r)
          end
      end
  | value :: more =>
      let '(text, decoder) := td_stream decoder value in
      let buffer := buffer ++ text in
      match drain_events (length buffer) buffer with
      | (vs, Throw e) => (vs, Throw e)
      | (vs, Ok None) => (vs, Ok ())
      | (vs, Ok (Some rest)) => let '(ws, r) := read_mistral more ending decoder rest in (vs ++ ws, r)
      end
  end.

Definition readMistralEvents (chunks : list (list Z)) (ending : option mistral_error) : list json * result mistral_error () :=
  read_mistral chunks ending td_new [].

(** * Facts *)

(** ** The events of a text *)

(** The runs of lines that are not empty. *)
Fixpoint line_groups (acc : list jstr) (lines : list jstr) : list (list jstr) :=
  match lines with
  | [] => match acc with [] => [] | _ => [acc] end
  | [] :: r => match acc with [] => [] | _ => [acc] end ++ line_groups [] r
  | l :: r => line_groups (acc ++ [l]) r
  end.

(** Each group is an event, until the stream is done ([Ok false]) or an error. *)
Fixpoint group_events (groups : list (list jstr)) : list json * result mistral_error bool :=
  match groups with
  | [] => ([], Ok true)
  | g :: r =>
      match parse_lines g with
      | Throw e => ([], Throw e)
      | Ok StreamDone => ([], Ok false)
      | Ok NoEvent => group_events r
      | Ok (ParsedEvent v) => let '(vs, x) := group_events r in (v :: vs, x)
      end
  end.

Definition text_groups (text : jstr) : list (list jstr) := line_groups [] (split_breaks text).

Definition mistral_events (text : jstr) : list json * result mistral_error () :=
  let '(vs, r) := group_events (text_groups text) in (vs, match r with Ok _ => Ok () | Throw e => Throw e end).

Lemma split_breaks_cons c s :
  split_breaks (c :: s) =
  if c =? LF then [] :: split_breaks s
  else if c =? CR then if bool_decide (head s = Some LF) then split_breaks s else [] :: split_breaks s
  else match split_breaks s with [] => [[c]] | l :: ls => (c :: l) :: ls end.
Proof.
  unfold split_breaks. rewrite cut_lines_cons. destruct (cut_lines s) as [ls rest]. cbn [fst snd].
  destruct (c =? LF); [done|]. destruct (c =? CR); [by case_bool_decide|]. by destruct ls.
Qed.

Lemma split_breaks_ne s : split_breaks s ≠ [].
Proof. unfold split_breaks. by destruct (cut_lines s).1. Qed.

(** A line that has begun. *)
Definition begun (p : jstr) (lines : list jstr) : list jstr := match lines with [] => [p] | l :: ls => (p ++ l) :: ls end.

Lemma begun_nil s : begun [] (split_breaks s) = split_breaks s.
Proof. pose proof (split_breaks_ne s). by destruct (split_breaks s). Qed.

Lemma begun_char p c s : c ≠ LF -> c ≠ CR -> begun p (split_breaks (c :: s)) = begun (p ++ [c]) (split_breaks s).
Proof.
  intros Hl Hr. rewrite split_breaks_cons, (proj2 (Z.eqb_neq c LF) Hl), (proj2 (Z.eqb_neq c CR) Hr).
  destruct (split_breaks s); cbn; by rewrite <- ?app_assoc.
Qed.

Lemma boundary_sep s len :
  boundary_here s = Some len -> exists sep, sep ∈ boundaries /\ length sep = len /\ s = sep ++ drop len s.
Proof.
  unfold boundary_here. destruct (List.find _ boundaries) as [sep|] eqn:E; [|done]. intros [= <-]. apply find_some in E as [Hin Hs].
  exists sep. split; [by apply list_elem_of_In|]. split; [done|]. apply starts_with_spec in Hs as [r ->]. by rewrite drop_app_length.
Qed.

(** Two line breaks and what follows: the second may still take a line feed. *)
Lemma boundary_lines sep t :
  sep ∈ boundaries -> exists X, split_breaks (sep ++ t) = [] :: [] :: X /\ line_groups [] X = line_groups [] (split_breaks t).
Proof.
  assert (Hcr : exists X, split_breaks (CR :: t) = [] :: X /\ line_groups [] X = line_groups [] (split_breaks t)).
  { rewrite split_breaks_cons. cbn [Z.eqb CR LF Pos.eqb]. case_bool_decide as Hh; [|by eexists].
    destruct t as [|d t]; [done|]. injection Hh as ->. rewrite split_breaks_cons. by eexists. }
  assert (Hlf : split_breaks (LF :: t) = [] :: split_breaks t) by (by rewrite split_breaks_cons).
  destruct Hcr as (X & HX & HG). unfold boundaries. intros Hin.
  repeat (apply elem_of_cons in Hin as [->|Hin]); [..|by apply elem_of_nil in Hin]; cbn [app];
    repeat (first [rewrite HX | rewrite Hlf | rewrite split_breaks_cons; cbn [Z.eqb CR LF Pos.eqb head app]; rewrite ?bool_decide_true, ?bool_decide_false by done]);
    by eexists.
Qed.

Definition flushed (acc : list jstr) : list (list jstr) := match acc with [] => [] | _ => [acc] end.

Lemma groups_begun acc p lines :
  line_groups acc (p :: lines) = match p with [] => flushed acc ++ line_groups [] lines | _ => line_groups (acc ++ [p]) lines end.
Proof. by destruct p. Qed.

Definition is_break (c : Z) : bool := (c =? CR) || (c =? LF).

Lemma boundary_none s sep r : boundary_here s = None -> sep ∈ boundaries -> s ≠ sep ++ r.
Proof.
  unfold boundary_here. destruct (List.find _ boundaries) eqn:E; [done|]. intros _ Hin ->. apply list_elem_of_In in Hin.
  pose proof (find_none _ _ E _ Hin) as H. cbn in H. by rewrite starts_with_app in H.
Qed.

Ltac in_boundaries := unfold boundaries; repeat first [left | right].

(** After a break that is no boundary with what follows comes the rest of a CRLF or
    something else. *)
Lemma no_boundary c s :
  boundary_here (c :: s) = None -> is_break c = true ->
  match s with [] => True | d :: t => is_break d = false \/ c = CR /\ d = LF /\ match t with [] => True | e :: _ => is_break e = false end end.
Proof.
  intros Hb Hc. destruct s as [|d t]; [done|]. destruct (is_break d) eqn:Hd; [|by left]. right. unfold is_break in Hc, Hd.
  apply orb_true_iff in Hc as [->%Z.eqb_eq| ->%Z.eqb_eq], Hd as [->%Z.eqb_eq| ->%Z.eqb_eq].
  - destruct (boundary_none _ [CR; CR] t Hb ltac:(in_boundaries)). done.
  - split; [done|]. split; [done|]. destruct t as [|e t]; [done|]. apply not_true_iff_false. intros He.
    apply orb_true_iff in He as [->%Z.eqb_eq| ->%Z.eqb_eq].
    + destruct (boundary_none _ [CR; LF; CR] t Hb ltac:(in_boundaries)). done.
    + destruct (boundary_none _ [CR; LF; LF] t Hb ltac:(in_boundaries)). done.
  - destruct (boundary_none _ [LF; CR] t Hb ltac:(in_boundaries)). done.
  - destruct (boundary_none _ [LF; LF] t Hb ltac:(in_boundaries)). done.
Qed.

(** A boundary separates groups, whatever follows. *)
Lemma boundary_splits b index len acc p more :
  findMistralEventBoundary b = Some (index, len) ->
  line_groups acc (begun p (split_breaks (b ++ more))) =
  line_groups acc (begun p (split_breaks (take index b))) ++ line_groups [] (split_breaks (drop (index + len) b ++ more)).
Proof.
  revert index acc p. induction b as [|c b IH]; intros index acc p H; [done|]. cbn [findMistralEventBoundary] in H.
  destruct (boundary_here (c :: b)) as [len0|] eqn:Eb.
  - injection H as <- <-. destruct (boundary_sep _ _ Eb) as (sep & Hin & <- & Hs). rewrite Hs at 1. rewrite <- app_assoc.
    destruct (boundary_lines sep (drop (length sep) (c :: b) ++ more) Hin) as (X & -> & HX). cbn [take Nat.add begun].
    rewrite app_nil_r, !groups_begun. cbn [split_breaks cut_lines fst snd app begun]. rewrite app_nil_r, !groups_begun, HX.
    destruct p as [|x p]; cbn [line_groups]; unfold flushed; [by rewrite app_nil_r|]. by destruct (acc ++ [x :: p]) eqn:E; [destruct acc|].
  - destruct (findMistralEventBoundary b) as [[i l]|] eqn:Ef; [|done]. injection H as <- <-. cbn [fst snd app take Nat.add drop].
    destruct b as [|d b]; [done|]. assert (Hi : is_break c = true -> (0 < i)%nat).
    { intros Hc. destruct i as [|i]; [|lia]. exfalso. pose proof (no_boundary _ _ Eb Hc) as Hn. cbn [findMistralEventBoundary] in Ef.
      destruct (boundary_here (d :: b)) as [l0|] eqn:Ed; [|by destruct (findMistralEventBoundary b) as [[]|]].
      destruct (boundary_sep _ _ Ed) as (sep & Hin & _ & Hs). revert Hs Hn. unfold boundaries in Hin.
      repeat (apply elem_of_cons in Hin as [->|Hin]); [..|by apply elem_of_nil in Hin]; intros [= -> ->] [Hd|(_ & Hd & He)]; done. }
    assert (Hh : is_break c = true -> head (take i (d :: b)) = Some d) by (intros Hc; specialize (Hi Hc); by destruct i; [lia|]).
    assert (Hbreak : line_groups acc (begun p ([] :: split_breaks ((d :: b) ++ more))) =
      line_groups acc (begun p ([] :: split_breaks (take i (d :: b)))) ++ line_groups [] (split_breaks (drop (i + l) (d :: b) ++ more))).
    { cbn [begun]. rewrite app_nil_r, !groups_begun. rewrite <- (begun_nil ((d :: b) ++ more)), <- (begun_nil (take i (d :: b))).
      destruct p; rewrite (IH i _ [] eq_refl); [by rewrite app_assoc|done]. }
    destruct (Z.eqb_spec c LF) as [->|Hl]; [by rewrite !split_breaks_cons with (c := LF)|]. destruct (Z.eqb_spec c CR) as [->|Hr].
    + rewrite !split_breaks_cons with (c := CR), Hh by done. cbn [app head]. case_bool_decide; [by apply IH|done].
    + rewrite !begun_char by done. by apply IH.
Qed.

Lemma starts_with_take sep n s : starts_with sep (take n s) = true -> starts_with sep s = true.
Proof. intros [r Hr]%starts_with_spec. apply starts_with_spec. exists (r ++ drop n s). by rewrite app_assoc, <- Hr, take_drop. Qed.

Lemma boundary_take s n : boundary_here s = None -> boundary_here (take n s) = None.
Proof.
  intros Hb. unfold boundary_here. destruct (List.find _ boundaries) as [sep|] eqn:E; [|done]. apply find_some in E as [Hin Hs].
  apply starts_with_take, starts_with_spec in Hs as [r Hs]. destruct (boundary_none _ sep r Hb); [by apply list_elem_of_In|done].
Qed.

(** What precedes the first boundary has none. *)
Lemma before_boundary b index len : findMistralEventBoundary b = Some (index, len) -> findMistralEventBoundary (take index b) = None.
Proof.
  revert index. induction b as [|c b IH]; intros index H; [done|]. cbn [findMistralEventBoundary] in H.
  destruct (boundary_here (c :: b)) as [len0|] eqn:Eb; [by injection H as <- <-|].
  destruct (findMistralEventBoundary b) as [[i l]|] eqn:Ef; [|done]. injection H as <- <-. cbn [fst snd]. apply (boundary_take _ (S i)) in Eb.
  change (take (S i) (c :: b)) with (c :: take i b) in *. cbn [findMistralEventBoundary]. rewrite Eb. by rewrite (IH i).
Qed.

(** A text without a boundary is one group of lines, or none. *)
Lemma one_group b acc p :
  findMistralEventBoundary b = None -> (p = [] -> acc ≠ [] -> match b with [] => True | c :: _ => is_break c = false end) ->
  line_groups acc (begun p (split_breaks b)) = flushed (acc ++ List.filter truthy (begun p (split_breaks b))).
Proof.
  revert acc p. induction b as [|c b IH]; intros acc p H Hs.
  { cbn. rewrite app_nil_r. destruct p; cbn; rewrite ?app_nil_r; [by destruct acc|by destruct acc]. }
  cbn [findMistralEventBoundary] in H. destruct (boundary_here (c :: b)) eqn:Eb; [done|]. destruct (findMistralEventBoundary b) as [[]|] eqn:Ef; [done|].
  assert (Hbreak : is_break c = true -> (c = CR -> head b ≠ Some LF) ->
    line_groups acc (begun p ([] :: split_breaks b)) = flushed (acc ++ List.filter truthy (begun p ([] :: split_breaks b)))).
  { intros Hc Hcr. cbn [begun]. rewrite app_nil_r, groups_begun. pose proof (no_boundary _ _ Eb Hc) as Hn.
    assert (Hb : match b with [] => True | d :: _ => is_break d = false end).
    { destruct b as [|d b']; [done|]. destruct Hn as [?|(-> & -> & _)]; [done|]. by destruct (Hcr eq_refl). }
    rewrite <- (begun_nil b). destruct p as [|x p].
    - destruct acc as [|a acc]; [|by specialize (Hs eq_refl ltac:(done)); congruence]. cbn [flushed app]. by apply IH.
    - rewrite IH by done. cbn [List.filter truthy]. by rewrite <- app_assoc. }
  destruct (Z.eqb_spec c LF) as [->|Hl]; [rewrite !split_breaks_cons with (c := LF); by apply Hbreak|]. destruct (Z.eqb_spec c CR) as [->|Hr].
  - rewrite !split_breaks_cons with (c := CR). cbn [Z.eqb CR LF Pos.eqb]. case_bool_decide as Hh; [|by apply Hbreak].
    apply IH; [done|]. intros Hp Ha. by specialize (Hs Hp Ha).
  - rewrite !begun_char by done. apply IH; [done|]. intros Hp. by destruct p.
Qed.

Lemma data_nonempty lines : event_data (List.filter truthy lines) = event_data lines.
Proof.
  unfold event_data. do 3 f_equal. induction lines as [|l lines IH]; [done|]. cbn [List.filter]. destruct l as [|c l]; cbn [truthy]; [exact IH|].
  cbn [List.filter]. by rewrite IH.
Qed.

Definition then_events (x y : list json * result mistral_error bool) : list json * result mistral_error bool :=
  match x.2 with Ok true => (x.1 ++ y.1, y.2) | _ => x end.

Lemma group_events_app g h : group_events (g ++ h) = then_events (group_events g) (group_events h).
Proof.
  unfold then_events. induction g as [|x g IH]; cbn [app group_events]; [by destruct (group_events h)|].
  destruct (parse_lines x) as [[| |v]|]; [done|done| |done]. rewrite IH. destruct (group_events g) as [vs [[]|]]; cbn [fst snd]; by destruct (group_events h).
Qed.

(** What an event is as a group. *)
Definition parsed_events (r : result mistral_error mistral_parsed) : list json * result mistral_error bool :=
  match r with
  | Throw e => ([], Throw e) | Ok StreamDone => ([], Ok false) | Ok NoEvent => ([], Ok true) | Ok (ParsedEvent v) => ([v], Ok true)
  end.

Lemma parse_one b : findMistralEventBoundary b = None -> group_events (text_groups b) = parsed_events (parseMistralEvent b).
Proof.
  intros Hb. unfold text_groups, parseMistralEvent. rewrite <- (begun_nil b), one_group by done. cbn [app].
  rewrite begun_nil. assert (Hp : parse_lines (split_breaks b) = parse_lines (List.filter truthy (split_breaks b)))
    by (unfold parse_lines; by rewrite data_nonempty). rewrite Hp.
  destruct (List.filter truthy (split_breaks b)) as [|l ls]; [done|]. cbn [flushed group_events].
  by destruct (parse_lines (l :: ls)) as [[| |v]|].
Qed.

Lemma boundary_length b index len : findMistralEventBoundary b = Some (index, len) -> (length (drop (index + len) b) < length b)%nat.
Proof.
  intros H. rewrite length_drop. revert index H. induction b as [|c b IH]; intros index H; [done|]. cbn [findMistralEventBoundary] in H.
  destruct (boundary_here (c :: b)) as [len0|] eqn:Eb.
  - injection H as <- <-. destruct (boundary_sep _ _ Eb) as (sep & Hin & <- & Hs). cbn [length]. assert (0 < length sep)%nat; [|lia].
    unfold boundaries in Hin. repeat (apply elem_of_cons in Hin as [->|Hin]); [..|by apply elem_of_nil in Hin]; cbn; lia.
  - destruct (findMistralEventBoundary b) as [[i l]|]; [|done]. injection H as <- <-. specialize (IH i eq_refl). cbn [length fst snd] in *. lia.
Qed.

(** The loop over the boundaries: the events of the groups that are complete. *)
Lemma drain_groups fuel buffer more vs r :
  (length buffer <= fuel)%nat -> drain_events fuel buffer = (vs, r) ->
  match r with
  | Ok (Some rest) =>
      findMistralEventBoundary rest = None /\ group_events (text_groups (buffer ++ more)) = then_events (vs, Ok true) (group_events (text_groups (rest ++ more)))
  | Ok None => group_events (text_groups (buffer ++ more)) = (vs, Ok false)
  | Throw e => group_events (text_groups (buffer ++ more)) = (vs, Throw e)
  end.
Proof.
  revert buffer vs. induction fuel as [|fuel IH]; intros buffer vs Hf H; cbn [drain_events] in H.
  { destruct buffer; [|cbn in Hf; lia]. injection H as <- <-. split; [done|]. unfold then_events. by destruct (group_events _). }
  destruct (findMistralEventBoundary buffer) as [[index len]|] eqn:Eb.
  2: { injection H as <- <-. split; [done|]. unfold then_events. by destruct (group_events _). }
  pose proof (boundary_splits _ _ _ [] [] more Eb) as Hs. rewrite !begun_nil in Hs. fold (text_groups (buffer ++ more)) in Hs.
  rewrite Hs, group_events_app. fold (text_groups (take index buffer)). fold (text_groups (drop (index + len) buffer ++ more)).
  rewrite parse_one by (by eapply before_boundary). pose proof (boundary_length _ _ _ Eb) as Hl.
  destruct (parseMistralEvent (take index buffer)) as [[| |v]|e]; cbn [parsed_events].
  - specialize (IH (drop (index + len) buffer) vs ltac:(lia) H). unfold then_events at 1. cbn [fst snd app]. destruct (group_events (text_groups (drop (index + len) buffer ++ more))). exact IH.
  - injection H as <- <-. done.
  - destruct (drain_events fuel (drop (index + len) buffer)) as [ws r'] eqn:Ed. injection H as <- <-. specialize (IH (drop (index + len) buffer) ws ltac:(lia) Ed).
    unfold then_events at 1. cbn [fst snd app]. destruct r' as [[rest|]|e]; [destruct IH as [IH1 IH]; split; [done|]|..]; rewrite IH; done.
  - injection H as <- <-. done.
Qed.

Lemma drop_while_nil {A} (f : A -> bool) l : drop_while f l = [] -> Forall (fun x => f x = true) l.
Proof. induction l as [|x l IH]; [constructor|]. cbn. destruct (f x) eqn:E; [|done]. intros H. constructor; [done|by apply IH]. Qed.

Lemma drop_while_some {A} (f : A -> bool) l : exists t, l = t ++ drop_while f l /\ Forall (fun x => f x = true) t.
Proof.
  induction l as [|x l (t & IH & HF)]; [by exists []|]. cbn. destruct (f x) eqn:E; [|by exists []].
  exists (x :: t). split; [cbn; by f_equal|by constructor].
Qed.

Lemma trim_blank s : trim s = [] -> Forall (fun c => is_space c = true) s.
Proof.
  unfold trim, trim_end, trim_start. intros H. destruct (drop_while_some is_space s) as (t & -> & HF). apply Forall_app. split; [done|].
  assert (H' : drop_while is_space (rev (drop_while is_space s)) = []) by (by rewrite <- rev_involutive, H at 1).
  apply drop_while_nil, Forall_rev in H'. by rewrite rev_involutive in H'.
Qed.

Lemma blank_lines s : Forall (fun c => is_space c = true) s -> Forall (Forall (fun c => is_space c = true)) (split_breaks s).
Proof.
  induction 1 as [|c s Hc HF IH]; [by repeat constructor|]. rewrite split_breaks_cons. destruct (c =? LF); [by constructor|].
  destruct (c =? CR); [case_bool_decide; [done|by constructor]|]. destruct IH as [|l ls Hl HF2]; [by repeat constructor|]. by constructor; [constructor|].
Qed.

Lemma blank_parse s : trim s = [] -> parseMistralEvent s = Ok NoEvent.
Proof.
  intros H%trim_blank%blank_lines. unfold parseMistralEvent, parse_lines, event_data.
  assert (Hf : List.filter (starts_with (js "data:")) (split_breaks s) = []); [|by rewrite Hf].
  induction H as [|l ls Hl HF IH]; [done|]. cbn [List.filter]. destruct (starts_with (js "data:") l) eqn:E; [|done].
  apply starts_with_spec in E as [r ->]. by inversion Hl.
Qed.

Definition ended (x : list json * result mistral_error bool) : list json * result mistral_error () :=
  (x.1, match x.2 with Ok _ => Ok () | Throw e => Throw e end).

Lemma last_event_groups rest : findMistralEventBoundary rest = None -> last_event rest = ended (group_events (text_groups rest)).
Proof.
  intros Hb. rewrite parse_one by done. unfold last_event. destruct (trim rest) eqn:Et; cbn [truthy]; [by rewrite blank_parse|].
  by destruct (parseMistralEvent rest) as [[| |v]|].
Qed.

(** Reading from a buffer: the events of its groups and of those that follow. *)
Lemma read_groups chunks decoder buffer :
  findMistralEventBoundary buffer = None ->
  read_mistral chunks None decoder buffer =
  ended (group_events (text_groups (buffer ++ concat (td_pieces decoder chunks).1 ++ (td_end (td_pieces decoder chunks).2).1))).
Proof.
  revert decoder buffer. induction chunks as [|value chunks IH]; intros decoder buffer Hb; cbn [read_mistral td_pieces].
  - cbn [fst snd concat app]. set (b := buffer ++ _). destruct (drain_events (length b) b) as [vs r] eqn:E.
    pose proof (drain_groups _ b [] _ _ (Nat.le_refl _) E) as H. rewrite app_nil_r in H. destruct r as [[rest|]|e]; [|by rewrite H..].
    destruct H as [Hn H]. rewrite app_nil_r in H. rewrite H, last_event_groups by done. unfold then_events, ended. cbn [fst snd]. done.
  - destruct (td_stream decoder value) as [text d1]. destruct (td_pieces d1 chunks) as [ps d2] eqn:Ep. cbn [fst snd concat].
    set (b := buffer ++ text). destruct (drain_events (length b) b) as [vs r] eqn:E.
    replace (buffer ++ (text ++ concat ps) ++ (td_end d2).1) with (b ++ concat ps ++ (td_end d2).1) by (unfold b; by rewrite <- !app_assoc).
    pose proof (drain_groups _ b (concat ps ++ (td_end d2).1) _ _ (Nat.le_refl _) E) as H. destruct r as [[rest|]|e]; [|by rewrite H..].
    destruct H as [Hn H]. rewrite H, IH by done. rewrite Ep. cbn [fst snd]. done.
Qed.
End Read.

(** The events of a response do not depend on how its body is cut into chunks, not
    even when a cut separates a carriage return from its line feed: they are the data
    of its groups of lines that are not empty, up to the first that says the stream is
    done or is not an event. *)
Theorem mistral_chunking parse_error chunks :
  readMistralEvents parse_error chunks None = mistral_events parse_error (td_decode (concat chunks)).
Proof.
  unfold readMistralEvents. rewrite read_groups by done. cbn [app]. pose proof (td_pieces_decode chunks) as H.
  destruct (td_pieces td_new chunks) as [ps d]. cbn [fst snd]. rewrite H. unfold mistral_events, ended. by destruct (group_events _ _).
Qed.

(** ** Round trip *)

(** The break a server ends its lines with. *)
Inductive line_end := EndLF | EndCRLF | EndCR.
Definition end_text (e : line_end) : jstr := match e with EndLF => [LF] | EndCRLF => [CR; LF] | EndCR => [CR] end.

(** How a server writes an event. *)
Definition event_text (e : line_end) (data : jstr) : jstr := js "data: " ++ data ++ end_text e ++ end_text e.

Definition mistral_body (events : list (line_end * jstr)) (e : line_end) : jstr :=
  (events ≫= fun ev => event_text ev.1 ev.2) ++ event_text e (js "[DONE]").

Lemma split_line l e t :
  plain l -> (e = EndCR -> head t ≠ Some LF) -> split_breaks (l ++ end_text e ++ t) = l :: split_breaks t.
Proof.
  intros [Hc Hl] Ht. induction l as [|x l IH]; cbn [app].
  - destruct e; cbn [end_text app].
    + by rewrite split_breaks_cons.
    + rewrite split_breaks_cons. cbn [Z.eqb CR LF Pos.eqb]. rewrite bool_decide_true by done. by rewrite split_breaks_cons.
    + rewrite split_breaks_cons. cbn [Z.eqb CR LF Pos.eqb]. by rewrite bool_decide_false by auto.
  - rewrite split_breaks_cons, (proj2 (Z.eqb_neq x LF)), (proj2 (Z.eqb_neq x CR)) by set_solver. rewrite IH by set_solver. done.
Qed.

Lemma event_groups e data t :
  plain data -> head t ≠ Some LF -> text_groups (event_text e data ++ t) = [js "data: " ++ data] :: text_groups t.
Proof.
  intros Hp Ht. unfold text_groups, event_text. rewrite <- !app_assoc.
  change (js "data: " ++ data ++ end_text e ++ end_text e ++ t) with ((js "data: " ++ data) ++ end_text e ++ end_text e ++ t).
  rewrite split_line.
  - change (end_text e ++ t) with ([] ++ end_text e ++ t). rewrite split_line; [done|split; set_solver|done].
  - destruct Hp. split; intros Hin; apply elem_of_app in Hin as [Hin|Hin]; try done; revert Hin; apply (bool_decide_unpack _); vm_compute; exact I.
  - intros ->. cbn. done.
Qed.

Lemma drop_while_idem {A} (f : A -> bool) l : drop_while f (drop_while f l) = drop_while f l.
Proof. induction l as [|x l IH]; [done|]. cbn. destruct (f x) eqn:E; [done|]. cbn. by rewrite E. Qed.

Lemma data_of_line data : trim data = data -> event_data [js "data: " ++ data] = data.
Proof.
  intros H. unfold event_data. change (List.filter (starts_with (js "data:")) [js "data: " ++ data]) with [js "data: " ++ data].
  cbn [map join]. change (drop 5 (js "data: " ++ data)) with (32 :: data). unfold trim, trim_start in *. rewrite drop_while_idem. exact H.
Qed.

(** Data that is sent: on one line, JSON, with a list of choices. *)
Definition sends (data : jstr) (v : json) : Prop :=
  plain data /\ trim data = data /\ JSON_parse data = Some v /\ exists fs cs, v = JObj fs /\ get (js "choices") v = Some (JArr cs).

(** What a Mistral server writes is what is read: for all events, whichever break ends
    the lines of each and however the bytes are cut into chunks, exactly these events
    come out, in order, and the stream ends without an error. *)
Theorem mistral_sse_roundtrip parse_error events values e chunks :
  Forall2 (fun ev v => sends ev.2 v) events values -> td_decode (concat chunks) = mistral_body events e ->
  readMistralEvents parse_error chunks None = (values, Ok ()).
Proof.
  intros HF Ht. rewrite mistral_chunking, Ht. clear Ht. unfold mistral_events, mistral_body.
  assert (Hdone : forall t, head t ≠ Some LF -> group_events parse_error (text_groups (event_text e (js "[DONE]") ++ t)) = ([], Ok false)).
  { intros t Ht. rewrite event_groups; [done|split; apply (bool_decide_unpack _); vm_compute; exact I|done]. }
  assert (Hall : group_events parse_error (text_groups ((events ≫= fun ev => event_text ev.1 ev.2) ++ event_text e (js "[DONE]"))) = (values, Ok false)); [|by rewrite Hall].
  induction HF as [|[e0 data] v events values (Hp & Htr & Hj & fs & cs & -> & Hc) HF IH].
  - cbn [mbind list_bind app]. rewrite <- (app_nil_r (event_text e _)). by apply Hdone.
  - rewrite bind_cons, <- app_assoc. cbn [fst snd] in *. rewrite event_groups; [|done|].
    + cbn [group_events]. unfold parse_lines. rewrite data_of_line by done. destruct (truthy data) eqn:Et; [|by destruct data].
      destruct (streq data (js "[DONE]")) eqn:Ed; [apply streq_true in Ed as ->; by vm_compute in Hj|]. cbn [negb]. rewrite Hj, Hc, IH. done.
    + destruct events as [|[e1 d1] events]; done.
Qed.

Definition mistral_sample : list (line_end * jstr) :=
  [(EndLF, js "{" ++ [34] ++ js "choices" ++ [34] ++ js ":[]}"); (EndCRLF, js "{" ++ [34] ++ js "choices" ++ [34] ++ js ": [1]}")].

Lemma mistral_sample_sends :
  Forall2 (fun ev v => sends ev.2 v) mistral_sample [JObj [(js "choices", JArr [])]; JObj [(js "choices", JArr [JNum (Finite 1)])]].
Proof.
  constructor; [|constructor; [|constructor]];
    (split; [split; apply (bool_decide_unpack _); vm_compute; exact I|]); (split; [vm_compute; reflexivity|]); (split; [vm_compute; reflexivity|]); by eexists _, _.
Qed.

(** With a cut inside the last CRLF of an event. *)
Lemma mistral_sse_roundtrip_witness :
  let bytes := utf8_encode (mistral_body mistral_sample EndCR) in
  readMistralEvents (fun _ => []) [take 3 bytes; take 44 (drop 3 bytes); drop 47 bytes] None =
  ([JObj [(js "choices", JArr [])]; JObj [(js "choices", JArr [JNum (Finite 1)])]], Ok ()).
Proof.
  apply (mistral_sse_roundtrip (fun _ => []) mistral_sample _ EndCR); [exact mistral_sample_sends|]. vm_compute. reflexivity.
Defined.
