(* ===== verification/MistralStream.v ===== *)
(** The answer of Mistral: how the events of a response become an assistant message and
    the events of its stream, from the request to the error path (packages/ai,
    consumeChatStream, requestMistralStream and stream of
    api/mistral-conversations.js, bundled in src/drivers/tools/pibridge/bridge.mjs).
    Events are read from JSON as the API documents them; [parse] of the partial-json
    package, the printing of numbers and the server are parameters. *)
From S2P Require Import Prelude Utf8 Numbers Json Messages TransformMessages JsonRepair Sse ConstrainedSampling EventStream Models Faux AnthropicMessages AnthropicStream StreamMonad OpenaiCommon OpenaiCompletions OpenaiStream MistralMessages MistralSse.
Open Scope Z_scope.

(** ** Events *)

Record mistral_usage := MistralUsage { mu_prompt : option Z; mu_completion : option Z; mu_total : option Z; mu_cached : Z }.

(** A piece of the content: a text, the text of a thinking chunk, or something else. *)
Inductive mistral_item := ItemText (text : jstr) | ItemThinking (text : jstr) | ItemOther.

(** A piece of a tool call; its arguments are a string or any other value. *)
Record mistral_delta := MistralDelta {
  md_id : option jstr; md_index : option Z; md_name : jstr; md_arguments : jstr + option json
}.

Record mistral_event := MistralEvent {
  me_id : option jstr; me_usage : option mistral_usage;
  me_choice : option (option jstr * list mistral_item * list mistral_delta)     (* [finish_reason], [content], [tool_calls] *)
}.

(** ** Reading them *)

Definition first_present (vs : list (option json)) : option json :=
  List.find (fun v => match v with JNull => false | _ => true end) (omap id vs).

(** Of the six places where the number may be. *)
Definition cached_field (u : option json) : option json :=
  first_present
    [field "cachedTokens" (field "promptTokensDetails" u); field "cached_tokens" (field "prompt_tokens_details" u);
     field "cachedTokens" (field "promptTokenDetails" u); field "cached_tokens" (field "prompt_token_details" u);
     field "numCachedTokens" u; field "num_cached_tokens" u].

Definition read_cached (u : option json) : option Z :=
  match cached_field u with Some (JNum (Finite q)) => as_int (Some (JNum (Finite q))) | _ => Some 0 end.

Definition read_mistral_usage (u : option json) : option (option mistral_usage) :=
  if negb (truthy_json u) then Some None
  else
    p ← as_opt_int (field "prompt_tokens" u); c ← as_opt_int (field "completion_tokens" u);
    t ← as_opt_int (field "total_tokens" u); k ← read_cached u;
    Some (Some (MistralUsage p c t k)).

(** [part.text ?? ""] *)
Definition read_part_text (v : option json) : option jstr := t ← as_opt_string (field "text" v); Some (nullish t []).

Definition read_content_item (v : json) : option mistral_item :=
  match v with
  | JStr s => Some (ItemText s)
  | _ =>
      if bool_decide (field "type" (Some v) = Some (jstring "thinking")) then
        parts ← match field "thinking" (Some v) with None | Some JNull => Some [] | x => as_list x end;
        texts ← mapM (fun p => read_part_text (Some p)) parts;
        Some (ItemThinking (concat texts))
      else if bool_decide (field "type" (Some v) = Some (jstring "text")) then t ← read_part_text (Some v); Some (ItemText t)
      else Some ItemOther
  end.

Definition read_items (v : option json) : option (list mistral_item) :=
  match v with
  | None | Some JNull => Some []
  | Some (JStr s) => Some [ItemText s]
  | _ => as_list v ≫= mapM read_content_item
  end.

Definition read_call_delta (v : json) : option mistral_delta :=
  let v := Some v in
  id ← as_opt_string (field "id" v); i ← as_opt_int (field "index" v); n ← as_string (field "name" (field "function" v));
  Some (MistralDelta id i n
    (match field "arguments" (field "function" v) with Some (JStr s) => inl s | a => inr a end)).

Definition read_mistral_event (v : json) : option mistral_event :=
  let v := Some v in
  i ← as_opt_string (field "id" v); u ← read_mistral_usage (field "usage" v);
  let choice := match as_list (field "choices" v) with Some (x :: _) => Some x | _ => None end in
  c ← (if truthy_json choice then
         f ← as_opt_string (field "finish_reason" choice);
         items ← read_items (field "content" (field "delta" choice));
         calls ← (if truthy_json (field "tool_calls" (field "delta" choice))
                  then as_list (field "tool_calls" (field "delta" choice)) ≫= mapM read_call_delta else Some []);
         Some (Some (f, items, calls))
       else Some None);
  Some (MistralEvent i u c).

(** ** Usage and stop reasons *)

Definition getMistralCachedPromptTokens (u : mistral_usage) (promptTokens : Z) : Z := Z.min promptTokens (Z.max 0 (mu_cached u)).

Definition mistral_tokens (u : mistral_usage) : usage :=
  let promptTokens := or_zero (mu_prompt u) in
  let cachedPromptTokens := getMistralCachedPromptTokens u promptTokens in
  let input := Z.max 0 (promptTokens - cachedPromptTokens) in
  let output := or_zero (mu_completion u) in
  let total := or_zero (mu_total u) in
  Usage input output cachedPromptTokens 0 (if total =? 0 then input + output + cachedPromptTokens + 0 else total) None zero_cost.

Definition mapChatStopReason (reason : jstr) : stop_reason * option jstr :=
  if streq reason (js "stop") then (Stop, None)
  else if streq reason (js "length") || streq reason (js "model_length") then (Length, None)
  else if streq reason (js "tool_calls") then (ToolUse, None)
  else (Error, Some (js "Provider stopped with: " ++ reason)).

(** ** The state of a stream *)

(** Blocks with their [partialArgs], the position of [currentBlock], and the entries of
    [toolBlocksByKey] in the order of insertion. *)
Definition call_key : Type := Z + jstr.

Record mistral_state := MistralState {
  st_blocks : list (block * jstr); st_current : option nat; st_calls : list (call_key * nat); st_meta : meta
}.

Definition mistral_init : mistral_state := MistralState [] None [] meta_init.

#[local] Abbreviation M := (streamM mistral_state).

Definition push_block (b : block) (s : mistral_state) : mistral_state :=
  MistralState (st_blocks s ++ [(b, [])]) (st_current s) (st_calls s) (st_meta s).
Definition write_block (k : nat) (b : block) (args : jstr) (s : mistral_state) : mistral_state :=
  MistralState (<[k := (b, args)]> (st_blocks s)) (st_current s) (st_calls s) (st_meta s).
Definition point_at (k : option nat) (s : mistral_state) : mistral_state :=
  MistralState (st_blocks s) k (st_calls s) (st_meta s).
Definition add_key (key : call_key) (k : nat) (s : mistral_state) : mistral_state :=
  MistralState (st_blocks s) (st_current s) (st_calls s ++ [(key, k)]) (st_meta s).
Definition mistral_meta (f : meta -> meta) (s : mistral_state) : mistral_state :=
  MistralState (st_blocks s) (st_current s) (st_calls s) (f (st_meta s)).

Definition last_index (s : mistral_state) : Z := Z.of_nat (length (st_blocks s)) - 1.

Definition current_of (s : mistral_state) : option (nat * block) := k ← st_current s; b ← st_blocks s !! k; Some (k, b.1).

Definition lookup_key (key : call_key) (calls : list (call_key * nat)) : option nat :=
  snd <$> List.find (fun kv => bool_decide (kv.1 = key)) calls.

Section Stream.
Context (num_to_string : Q -> jstr) (partial_parse : jstr -> option json) (m : model) (now : Z).

Definition finishCurrentBlock : M () :=
  let* s := state_m in
  match current_of s with
  | Some (_, BText t _) => push_m (EvTextEnd (last_index s) t)
  | Some (_, BThinking t _ _) => push_m (EvThinkingEnd (last_index s) t)
  | _ => ret ()
  end.

(** A piece of text or of thinking: it goes to the open block of its kind. *)
Definition on_piece (thinking : bool) (delta : jstr) : M () :=
  let* s := state_m in
  let fits :=
    match current_of s with Some (_, BText _ _) => negb thinking | Some (_, BThinking _ _ _) => thinking | _ => false end in
  let* _ := when_m (negb fits)
    (let* _ := finishCurrentBlock in
     let* _ := modify_m (fun s => point_at (Some (length (st_blocks s))) (push_block (if thinking then BThinking [] None false else BText [] None) s)) in
     let* s := state_m in
     push_m (if thinking then EvThinkingStart (last_index s) else EvTextStart (last_index s))) in
  let* s := state_m in
  match current_of s with
  | Some (k, BText t sg) => let* _ := modify_m (write_block k (BText (t ++ delta) sg) []) in push_m (EvTextDelta (last_index s) delta)
  | Some (k, BThinking t sg r) => let* _ := modify_m (write_block k (BThinking (t ++ delta) sg r) []) in push_m (EvThinkingDelta (last_index s) delta)
  | _ => ret ()
  end.

Definition on_item (i : mistral_item) : M () :=
  match i with
  | ItemText t => on_piece false (sanitizeSurrogates t)
  | ItemThinking t =>
      let thinkingDelta := sanitizeSurrogates t in
      when_m (truthy thinkingDelta) (on_piece true thinkingDelta)
  | ItemOther => ret ()
  end.

Definition delta_call_id (d : mistral_delta) : jstr :=
  match md_id d with
  | Some id => if truthy id && negb (streq id (js "null")) then id
               else deriveMistralToolCallId (js "toolcall:" ++ num_str (nullish (md_index d) 0)) 0
  | None => deriveMistralToolCallId (js "toolcall:" ++ num_str (nullish (md_index d) 0)) 0
  end.

Definition delta_key (d : mistral_delta) : call_key :=
  match md_index d with Some i => inl i | None => inr (delta_call_id d) end.

Definition args_delta (d : mistral_delta) : jstr :=
  match md_arguments d with
  | inl s => s
  | inr v => JSON_stringify num_to_string (if truthy_json v then nullish v (JObj []) else JObj [])
  end.

(** The block of a key, if it has one that is a call. *)
Definition existing_call (key : call_key) (s : mistral_state) : option (nat * toolCall * jstr) :=
  k ← lookup_key key (st_calls s);
  match st_blocks s !! k with Some (BToolCall tc, args) => Some (k, tc, args) | _ => None end.

Definition on_tool_delta (d : mistral_delta) : M () :=
  let* s := state_m in
  let* _ := when_m (bool_decide (is_Some (st_current s))) (let* _ := finishCurrentBlock in modify_m (point_at None)) in
  let key := delta_key d in
  let* s := state_m in
  let* _ := when_m (bool_decide (existing_call key s = None))
    (let k := length (st_blocks s) in
     let* _ := modify_m (push_block (BToolCall (ToolCall (delta_call_id d) (md_name d) (JObj []) None None))) in
     let* _ := modify_m (add_key key k) in
     push_m (EvToolStart (Z.of_nat k))) in
  let* s := state_m in
  match existing_call key s with
  | Some (k, tc, args) =>
      let partialArgs := args ++ args_delta d in
      let* _ := modify_m (write_block k (BToolCall (with_arguments (parseStreamingJson partial_parse (Some partialArgs)) tc)) partialArgs) in
      push_m (EvToolDelta (Z.of_nat k) (args_delta d))
  | None => ret ()
  end.

Definition with_mistral_id (id : option jstr) (mt : meta) : meta :=
  Meta (if truthy_opt (mt_responseId mt) then mt_responseId mt else id) (mt_responseModel mt) (mt_usage mt) (mt_cost mt) (mt_reasoning mt)
    (mt_stop mt) (mt_rawStop mt) (mt_error mt) (mt_finished mt).

Definition with_mistral_usage (u : mistral_usage) (mt : meta) : meta :=
  Meta (mt_responseId mt) (mt_responseModel mt) (mistral_tokens u) (calculateCost m (mistral_tokens u)) (mt_reasoning mt)
    (mt_stop mt) (mt_rawStop mt) (mt_error mt) (mt_finished mt).

Definition with_mistral_reason (reason : jstr) (mt : meta) : meta :=
  let '(stop, error) := mapChatStopReason reason in
  Meta (mt_responseId mt) (mt_responseModel mt) (mt_usage mt) (mt_cost mt) (mt_reasoning mt) (Some stop) (Some reason)
    (or_option error (mt_error mt)) true.

(** The body of the loop over the events. *)
Definition on_mistral_event (e : mistral_event) : M () :=
  let* _ := modify_m (mistral_meta (with_mistral_id (me_id e))) in
  let* _ := match me_usage e with Some u => modify_m (mistral_meta (with_mistral_usage u)) | None => ret () end in
  match me_choice e with
  | None => ret ()
  | Some (finish, items, calls) =>
      let* _ := match truthy_string finish with Some r => modify_m (mistral_meta (with_mistral_reason r)) | None => ret () end in
      let* _ := each_m on_item items in
      each_m on_tool_delta calls
  end.

(** The end of a call: its arguments are parsed once more. *)
Definition end_call (kv : call_key * nat) : M () :=
  let* s := state_m in
  match st_blocks s !! kv.2 with
  | Some (BToolCall tc, args) =>
      let tc := with_arguments (parseStreamingJson partial_parse (Some args)) tc in
      let* _ := modify_m (write_block kv.2 (BToolCall tc) []) in
      push_m (EvToolEnd (Z.of_nat kv.2) tc)
  | _ => ret ()
  end.

Definition end_calls : M () := let* s := state_m in each_m end_call (st_calls s).

(** [consumeChatStream] over the events and how they end. *)
Definition consumeChatStream (events : list mistral_event) (ending : result jstr ()) : M () :=
  let* _ := each_m on_mistral_event events in
  let* _ := lift_m ending in
  let* _ := finishCurrentBlock in
  end_calls.

Definition mistral_message_of (s : mistral_state) (stop : stop_reason) (error : option jstr) : assistant :=
  let u := mt_usage (st_meta s) in
  Assistant (m_provider m) (m_api m) (m_id m) (map fst (st_blocks s)) stop error
    (Usage (u_input u) (u_output u) (u_cacheRead u) (u_cacheWrite u) (u_totalTokens u) None (finite_cost (mt_cost (st_meta s)))) now.

(** What follows the loop. *)
Definition mistral_reason (aborted : bool) (s : mistral_state) : result jstr stop_reason :=
  if aborted then Throw (js "Request was aborted")
  else
    match mt_stop (st_meta s) with
    | None => Throw (js "Mistral stream ended without a finish reason")
    | Some Aborted | Some Error =>
        Throw (if truthy_opt (mt_error (st_meta s)) then nullish (mt_error (st_meta s)) [] else js "An unknown error occurred")
    | Some stop => Ok stop
    end.

(** The [catch] clause; [e] is the text of the error. *)
Definition mistral_failure (aborted : bool) (es : list event) (s : mistral_state) (e : jstr) : list event * assistant :=
  let stop := if aborted then Aborted else Error in
  let msg := mistral_message_of s stop (Some e) in
  (es ++ [EvError stop msg], msg).

(** [stream] from the outcome of the request on; [aborted] is what the signal says at
    the end. *)
Definition mistral_stream (setup : result jstr ()) (events : list mistral_event) (ending : result jstr ()) (aborted : bool)
  : list event * assistant :=
  match setup with
  | Throw e => mistral_failure aborted [] mistral_init e
  | Ok _ =>
      let '(es, s, r) := consumeChatStream events ending mistral_init in
      match r with
      | Throw e => mistral_failure aborted (EvStart :: es) s e
      | Ok _ =>
          match mistral_reason aborted s with
          | Throw e => mistral_failure aborted (EvStart :: es) s e
          | Ok stop => let msg := mistral_message_of s stop (mt_error (st_meta s)) in (EvStart :: es ++ [EvDone stop msg], msg)
          end
      end
  end.
End Stream.

(** ** The request *)

Record mistral_response := MistralResponse {
  mr_status : Z; mr_ok : bool; mr_statusText : jstr;
  mr_text : result mistral_error jstr;                                  (* [response.text()] *)
  mr_body : option (list (list Z) * option mistral_error)               (* its chunks, and what ends them if not the end *)
}.

Section Request.
Context (num_to_string : Q -> jstr) (partial_parse : jstr -> option json).
Context (toLowerCase : jstr -> jstr) (userAgent : jstr) (parse_url : jstr -> option (jstr * jstr)).
(** What the engine says of a bad URL, of a payload without messages, and of text that is not JSON. *)
Context (url_error payload_error parse_error : jstr -> jstr).
(** [fetch] of the address, the headers and the body; the hooks of the caller. *)
Context (fetch : jstr -> list (jstr * jstr) -> jstr -> result mistral_error mistral_response).
Context (onResponse : mistral_response -> result mistral_error ()).
Context (onPayload : list (jstr * json) -> result mistral_error (list (jstr * json))).

Definition requestMistralStream (m : model) (payload : list (jstr * json)) (apiKey : jstr) (o : mistral_options)
  : result mistral_error (list (list Z) * option mistral_error) :=
  match mistral_url parse_url (m_baseUrl m) with
  | None => Throw (PlainError (url_error (m_baseUrl m)))
  | Some url =>
      let headers := buildMistralHeaders toLowerCase userAgent m apiKey o in
      match toMistralWirePayload payload with
      | None => Throw (PlainError (payload_error []))
      | Some wire =>
          let! response := fetch url headers (JSON_stringify num_to_string (JObj wire)) in
          let! _ := onResponse response in
          if negb (mr_ok response) then
            let! body := mr_text response in Throw (MistralHttpError (mr_status response) body (mr_statusText response))
          else match mr_body response with None => Throw (PlainError (js "Mistral response has no body")) | Some body => Ok body end
      end
  end.

Definition plain_throw {A} (r : result jstr A) : result mistral_error A := match r with Ok a => Ok a | Throw e => Throw (PlainError e) end.
Definition format_throw {A} (r : result mistral_error A) : result jstr A :=
  match r with Ok a => Ok a | Throw e => Throw (formatMistralError num_to_string e) end.

(** [None] for messages or events that are not as documented, and when the renaming of
    calls runs out of attempts. *)
Definition stream8 (fuel : nat) (m : model) (now : Z) (apiKey systemPrompt : option jstr) (messages : list raw_message)
    (tools : option (list api_tool)) (o : mistral_options) (aborted : bool) : option (list event * assistant) :=
  if negb (truthy_opt apiKey) then
    Some (mistral_stream num_to_string partial_parse m now (Throw (js "No API key for provider: " ++ m_provider m)) [] (Ok ()) aborted)
  else
    replayed ← mistral_replay fuel m now messages;
    built ← buildChatPayload num_to_string m systemPrompt replayed tools o;
    let response :=
      let! payload := plain_throw built in
      let! payload := onPayload payload in
      requestMistralStream m payload (nullish apiKey []) o in
    match response with
    | Throw e => Some (mistral_stream num_to_string partial_parse m now (Throw (formatMistralError num_to_string e)) [] (Ok ()) aborted)
    | Ok (chunks, ending) =>
        let '(values, r) := readMistralEvents parse_error chunks ending in
        events ← mapM read_mistral_event values;
        Some (mistral_stream num_to_string partial_parse m now (Ok ()) events (format_throw r) aborted)
    end.
End Request.

(** * Facts *)

Section Facts.
Context (num_to_string : Q -> jstr) (partial_parse : jstr -> option json) (m : model) (now : Z).
#[local] Abbreviation M := (streamM mistral_state).
#[local] Abbreviation on_event_of := (on_mistral_event num_to_string partial_parse m).
#[local] Abbreviation on_delta_of := (on_tool_delta num_to_string partial_parse).

(** ** Nothing but the last event ends the stream *)

Lemma on_piece_quiet th t : quiet (on_piece th t).
Proof. unfold on_piece, finishCurrentBlock. repeat quiet_step. apply emits_push. by destruct th. Qed.

Lemma on_mistral_event_quiet e : quiet (on_event_of e).
Proof.
  unfold on_mistral_event, on_item, on_tool_delta, finishCurrentBlock. repeat first [apply on_piece_quiet | quiet_step].
Qed.

(** Whatever the provider sends and however the request fails, the stream has exactly
    one event that ends it, its last, which carries the message. *)
Theorem mistral_stream_ended setup events ending aborted :
  well_ended (mistral_stream num_to_string partial_parse m now setup events ending aborted).1
    (mistral_stream num_to_string partial_parse m now setup events ending aborted).2.
Proof.
  assert (Hend : forall es e msg, Forall incomplete es -> isComplete e = true -> extractResult e = Ok msg ->
    well_ended (es ++ [e]) msg) by (intros es e msg; by exists es, e).
  unfold mistral_stream. destruct setup as [[]|e]; [|apply Hend; [constructor|done|done]].
  assert (Hq : quiet (consumeChatStream num_to_string partial_parse m events ending)).
  { unfold consumeChatStream, finishCurrentBlock, end_calls, end_call. repeat first [apply on_mistral_event_quiet | quiet_step]. }
  specialize (Hq mistral_init). destruct (consumeChatStream _ _ _ _ _ _) as [[es s] r]. cbn [fst] in Hq.
  assert (Hs : Forall incomplete (EvStart :: es)) by (by constructor).
  destruct r; [|by apply Hend]. destruct (mistral_reason aborted s) as [stop|e]; [|by apply Hend]. by apply (Hend (EvStart :: es)).
Qed.

(** ** What the events say *)

Inductive mistral_piece := TextOf (thinking : bool) (t : jstr) | CallOf (d : mistral_delta).

Definition item_pieces (i : mistral_item) : list mistral_piece :=
  match i with
  | ItemText t => [TextOf false (sanitizeSurrogates t)]
  | ItemThinking t => if truthy (sanitizeSurrogates t) then [TextOf true (sanitizeSurrogates t)] else []
  | ItemOther => []
  end.

Definition event_pieces (e : mistral_event) : list mistral_piece :=
  match me_choice e with Some (_, items, calls) => (items ≫= item_pieces) ++ map CallOf calls | None => [] end.

(** The blocks of a message, the arguments of a call as they were streamed. *)
Inductive said :=
| SaidText (thinking : bool) (t : jstr)
| SaidCall (key : call_key) (id name args : jstr).

(** The texts of one kind at the front, and the arguments of a key. *)
Fixpoint leading (th : bool) (ps : list mistral_piece) : jstr :=
  match ps with TextOf th' t :: r => if bool_decide (th = th') then t ++ leading th r else [] | _ => [] end.

Definition later (key : call_key) (ps : list mistral_piece) : jstr :=
  ps ≫= fun p => match p with CallOf d => if bool_decide (delta_key d = key) then args_delta num_to_string d else [] | TextOf _ _ => [] end.

(** A run of texts of one kind is a block; so is a call, at its first piece, with all
    the arguments that are sent for its key. *)
Fixpoint said_blocks (seen : list call_key) (before : option bool) (ps : list mistral_piece) : list said :=
  match ps with
  | [] => []
  | TextOf th t :: r =>
      if bool_decide (before = Some th) then said_blocks seen before r
      else SaidText th (t ++ leading th r) :: said_blocks seen (Some th) r
  | CallOf d :: r =>
      if bool_decide (delta_key d ∈ seen) then said_blocks seen None r
      else SaidCall (delta_key d) (delta_call_id d) (md_name d) (args_delta num_to_string d ++ later (delta_key d) r) ::
           said_blocks (seen ++ [delta_key d]) None r
  end.

Definition said_block (b : said) : block :=
  match b with
  | SaidText false t => BText t None
  | SaidText true t => BThinking t None false
  | SaidCall _ id name args => BToolCall (ToolCall id name (parseStreamingJson partial_parse (Some args)) None None)
  end.

Definition said_live (b : said) : jstr := match b with SaidText _ t => t | SaidCall _ _ _ args => args end.

(** *** Piece by piece *)

(** The closed blocks and the open text. *)
Definition progress : Type := list said * option (bool * jstr).

Definition opened (o : option (bool * jstr)) : list said := match o with Some (th, t) => [SaidText th t] | None => [] end.
Definition all_said (p : progress) : list said := p.1 ++ opened p.2.

Definition said_key (b : said) : option call_key := match b with SaidCall key _ _ _ => Some key | _ => None end.
Definition keys (bs : list said) : list call_key := omap said_key bs.

Definition add_args (key : call_key) (args : jstr) (b : said) : said :=
  match b with SaidCall k id name a => if bool_decide (k = key) then SaidCall k id name (a ++ args) else b | _ => b end.

Definition piece_step (p : progress) (x : mistral_piece) : progress :=
  match x with
  | TextOf th t =>
      match p.2 with
      | Some (th', t') => if bool_decide (th' = th) then (p.1, Some (th, t' ++ t)) else (all_said p, Some (th, t))
      | None => (p.1, Some (th, t))
      end
  | CallOf d =>
      let bs := all_said p in
      if bool_decide (delta_key d ∈ keys bs) then (map (add_args (delta_key d) (args_delta num_to_string d)) bs, None)
      else (bs ++ [SaidCall (delta_key d) (delta_call_id d) (md_name d) (args_delta num_to_string d)], None)
  end.

Definition extend (ps : list mistral_piece) (b : said) : said :=
  match b with SaidCall key id name args => SaidCall key id name (args ++ later key ps) | _ => b end.

Lemma keys_app a b : keys (a ++ b) = keys a ++ keys b.
Proof. apply omap_app. Qed.

Lemma keys_all p : keys (all_said p) = keys p.1.
Proof. unfold all_said. rewrite keys_app. destruct p.2 as [[]|]; cbn; by rewrite app_nil_r. Qed.

Lemma keys_args key args bs : keys (map (add_args key args) bs) = keys bs.
Proof.
  unfold keys. induction bs as [|b bs IH]; [done|]. cbn [map omap list_omap]. rewrite IH. destruct b as [|k id name a]; [done|]. cbn [add_args]. by case_bool_decide.
Qed.

Lemma extend_call_other d ps b : said_key b ≠ Some (delta_key d) -> extend (CallOf d :: ps) b = extend ps b.
Proof.
  destruct b as [|k id name a]; [done|]. intros H. cbn [extend]. unfold later. rewrite bind_cons. cbn [said_key] in H. by rewrite bool_decide_false by congruence.
Qed.

Lemma extend_args d ps b : extend ps (add_args (delta_key d) (args_delta num_to_string d) b) = extend (CallOf d :: ps) b.
Proof.
  destruct b as [|k id name a]; [done|]. cbn [add_args]. case_bool_decide as E.
  - subst k. cbn [extend]. unfold later. rewrite bind_cons, bool_decide_true by done. by rewrite <- app_assoc.
  - rewrite extend_call_other; [done|]. cbn. congruence.
Qed.

Lemma extend_text th t ps bs : map (extend (TextOf th t :: ps)) bs = map (extend ps) bs.
Proof. apply map_ext. by intros []. Qed.

Lemma extend_fresh d ps bs : delta_key d ∉ keys bs -> map (extend (CallOf d :: ps)) bs = map (extend ps) bs.
Proof.
  intros Hk. apply map_ext_in. intros b Hb%list_elem_of_In. apply extend_call_other. intros E. apply Hk. unfold keys.
  apply list_elem_of_omap. by exists b.
Qed.

(** Piece by piece, the blocks are those that are said. *)
Lemma pieces_said ps bs o :
  all_said (foldl piece_step (bs, o) ps) =
  map (extend ps) bs ++
  match o with
  | Some (th, t) => SaidText th (t ++ leading th ps) :: said_blocks (keys bs) (Some th) ps
  | None => said_blocks (keys bs) None ps
  end.
Proof.
  revert bs o. induction ps as [|x ps IH]; intros bs o.
  { cbn [foldl]. unfold all_said. cbn [fst snd]. f_equal; [|destruct o as [[]|]; cbn; by rewrite ?app_nil_r].
    symmetry. rewrite <- (map_id bs) at 2. apply map_ext. intros []; cbn; by rewrite ?app_nil_r. }
  cbn [foldl]. destruct x as [th t|d]; cbn [piece_step fst snd].
  - rewrite extend_text. destruct o as [[th' t']|].
    + case_bool_decide as E.
      * subst th'. rewrite IH. cbn [leading said_blocks]. rewrite !bool_decide_true by done. by rewrite <- app_assoc.
      * rewrite IH. unfold all_said. cbn [fst snd opened]. rewrite map_app, keys_app, app_nil_r, <- app_assoc. cbn [map extend app leading said_blocks].
        rewrite !bool_decide_false by congruence. by rewrite app_nil_r.
    + rewrite IH. cbn [said_blocks]. by rewrite bool_decide_false by done.
  - assert (Hk : keys (all_said (bs, o)) = keys bs) by apply keys_all. rewrite Hk.
    assert (Hm : forall q, map (extend (CallOf d :: ps)) bs ++
        match o with Some (th, t) => SaidText th (t ++ leading th (CallOf d :: ps)) :: said_blocks (keys bs) (Some th) (CallOf d :: ps)
        | None => said_blocks (keys bs) None (CallOf d :: ps) end = q <->
      map (extend (CallOf d :: ps)) (all_said (bs, o)) ++ said_blocks (keys bs) None (CallOf d :: ps) = q).
    { intros q. unfold all_said. cbn [fst snd]. rewrite map_app, <- app_assoc. destruct o as [[th t]|]; [|done]. cbn [opened map extend app leading said_blocks]. by rewrite app_nil_r. }
    symmetry. apply Hm. cbn [said_blocks]. case_bool_decide as E; rewrite IH.
    + rewrite map_map, keys_args, Hk. f_equal. apply map_ext. intros b. by rewrite extend_args.
    + rewrite map_app, keys_app, Hk, <- app_assoc. cbn [map extend app]. f_equal. apply extend_fresh. by rewrite Hk.
Qed.

(** *** The state follows *)

Definition block_state (b : said) : block * jstr := (said_block b, match b with SaidText _ _ => [] | SaidCall _ _ _ args => args end).

(** The entries of the map: the keys with the positions of their calls. *)
Fixpoint keyed (i : nat) (bs : list said) : list (call_key * nat) :=
  match bs with
  | [] => []
  | b :: r => match said_key b with Some key => (key, i) :: keyed (S i) r | None => keyed (S i) r end
  end.

Record follows (p : progress) (s : mistral_state) : Prop := {
  fl_blocks : st_blocks s = map block_state (all_said p);
  fl_current : st_current s = match p.2 with Some _ => Some (length p.1) | None => None end;
  fl_calls : st_calls s = keyed 0 (all_said p);
  fl_keys : NoDup (keys (all_said p))
}.

Definition streams (p : progress) (es : list event) : Prop :=
  forall j : nat, deltas (Z.of_nat j) es = from_option said_live [] (all_said p !! j).

Lemma keyed_app i a b : keyed i (a ++ b) = keyed i a ++ keyed (i + length a) b.
Proof.
  revert i. induction a as [|x a IH]; intros i; cbn [app keyed length]; [by rewrite Nat.add_0_r|]. rewrite IH. replace (S i + length a)%nat with (i + S (length a))%nat by lia.
  by destruct (said_key x).
Qed.

Lemma keyed_args i key args bs : keyed i (map (add_args key args) bs) = keyed i bs.
Proof.
  revert i. induction bs as [|b bs IH]; intros i; [done|]. cbn [map keyed]. rewrite IH. destruct b as [|k id name a]; [done|]. cbn [add_args]. by case_bool_decide.
Qed.

Lemma find_keyed i bs key :
  lookup_key key (keyed i bs) = (fun jb => (i + jb.1)%nat) <$> list_find (fun b => said_key b = Some key) bs.
Proof.
  revert i. induction bs as [|b bs IH]; intros i; [done|]. cbn [keyed list_find]. destruct (said_key b) as [k|] eqn:Eb.
  - unfold lookup_key. cbn [List.find fst]. case_bool_decide as Ek.
    + subst k. rewrite decide_True by done. cbn. by rewrite Nat.add_0_r.
    + rewrite decide_False by congruence. fold (lookup_key key (keyed (S i) bs)). rewrite IH.
      destruct (list_find _ bs) as [[j x]|]; cbn; [f_equal; lia|done].
  - rewrite decide_False by congruence. rewrite IH. destruct (list_find _ bs) as [[j x]|]; cbn; [f_equal; lia|done].
Qed.

Lemma said_length p s : follows p s -> length (st_blocks s) = length (all_said p).
Proof. intros H. by rewrite (fl_blocks _ _ H), length_map. Qed.

Lemma follows_open p s th t :
  follows p s -> p.2 = Some (th, t) ->
  current_of s = Some (length p.1, said_block (SaidText th t)) /\ last_index s = Z.of_nat (length p.1).
Proof.
  intros H Ho. split.
  - unfold current_of. rewrite (fl_current _ _ H), Ho. cbn [mbind option_bind]. rewrite (fl_blocks _ _ H). unfold all_said. rewrite Ho, map_app.
    rewrite lookup_app_r by (by rewrite length_map). by rewrite length_map, Nat.sub_diag.
  - unfold last_index. rewrite (said_length _ _ H). unfold all_said. rewrite Ho, length_app. cbn. lia.
Qed.

Lemma follows_closed p s : follows p s -> p.2 = None -> current_of s = None.
Proof. intros H Ho. unfold current_of. by rewrite (fl_current _ _ H), Ho. Qed.

Lemma finish_silent s : exists es, finishCurrentBlock s = (es, s, Ok ()) /\ forall j, deltas j es = [].
Proof. unfold finishCurrentBlock, bind_m, state_m, push_m, ret. destruct (current_of s) as [[k []]|]; by eexists. Qed.

Lemma text_state th t : block_state (SaidText th t) = (if th then BThinking t None false else BText t None, []).
Proof. by destruct th. Qed.

(** A piece that continues the open block. *)
Lemma piece_continues th t p s t' :
  follows p s -> p.2 = Some (th, t') ->
  on_piece th t s =
    ([if th then EvThinkingDelta (Z.of_nat (length p.1)) t else EvTextDelta (Z.of_nat (length p.1)) t],
     write_block (length p.1) (said_block (SaidText th (t' ++ t))) [] s, Ok ()).
Proof.
  intros H Ho. destruct (follows_open _ _ _ _ H Ho) as [Hc Hi]. unfold on_piece, bind_m, state_m, modify_m, push_m, when_m, ret. rewrite Hc.
  destruct th; cbn [said_block negb]; cbv beta iota; rewrite ?Hc, ?Hi; done.
Qed.

(** A piece that opens a block. *)
Lemma piece_opens th t p s :
  follows p s -> (forall t', p.2 ≠ Some (th, t')) ->
  exists es, on_piece th t s =
    (es ++ [if th then EvThinkingDelta (Z.of_nat (length (all_said p))) t else EvTextDelta (Z.of_nat (length (all_said p))) t],
     MistralState (st_blocks s ++ [block_state (SaidText th t)]) (Some (length (all_said p))) (st_calls s) (st_meta s), Ok ()) /\
    forall j, deltas j es = [].
Proof.
  intros H Ho. destruct (finish_silent s) as (es & He & Hd).
  exists (es ++ [if th then EvThinkingStart (Z.of_nat (length (all_said p))) else EvTextStart (Z.of_nat (length (all_said p)))]).
  split; [|intros j; rewrite deltas_app, Hd; by destruct th]. unfold on_piece. unfold bind_m at 1. unfold state_m at 1.
  assert (Hf : match current_of s with Some (_, BText _ _) => negb th | Some (_, BThinking _ _ _) => th | _ => false end = false).
  { destruct p.2 as [[th' t']|] eqn:Ep; [|by rewrite (follows_closed _ _ H Ep)]. destruct (follows_open _ _ _ _ H Ep) as [-> _].
    destruct th, th'; try done; by destruct (Ho t'). }
  rewrite Hf. cbn [negb]. unfold when_m, bind_m, state_m, modify_m, push_m. rewrite He. cbn [app fst snd].
  set (s1 := point_at _ _). assert (Hl : last_index s1 = Z.of_nat (length (all_said p))).
  { unfold last_index, s1, point_at, push_block. cbn [st_blocks]. rewrite length_app, (said_length _ _ H). cbn. lia. }
  assert (Hc : current_of s1 = Some (length (all_said p), if th then BThinking [] None false else BText [] None)).
  { unfold current_of, s1, point_at, push_block. cbn [st_blocks st_current]. rewrite (said_length _ _ H). cbn [mbind option_bind].
    rewrite lookup_app_r, (said_length _ _ H), Nat.sub_diag by (rewrite (said_length _ _ H); lia). done. }
  rewrite Hl, Hc. destruct th; cbn [app]; unfold write_block, s1, point_at, push_block; cbn [st_blocks st_current st_calls st_meta];
    rewrite <- (said_length _ _ H), insert_app_r_alt, Nat.sub_diag by lia; done.
Qed.

(** A step of the stream: it does not throw, the state and what was streamed keep up. *)
Definition keeps_up (x : M ()) (p p' : progress) : Prop :=
  forall s es0, follows p s -> streams p es0 ->
  exists es s', x s = (es, s', Ok ()) /\ follows p' s' /\ streams p' (es0 ++ es) /\ st_meta s' = st_meta s.

Lemma delta_text j (th : bool) i t : deltas j [if th then EvThinkingDelta i t else EvTextDelta i t] = if i =? j then t else [].
Proof. destruct th; cbn; by rewrite app_nil_r. Qed.

(** What is streamed grows with the last block or with a new one. *)
Lemma streams_snoc p p' es0 es b (k : nat) t :
  streams p es0 -> k = length (all_said p) -> all_said p' = all_said p ++ [b] -> said_live b = t ->
  (forall j, deltas j es = if Z.of_nat k =? j then t else []) -> streams p' (es0 ++ es).
Proof.
  intros H -> Hp Hb Hd j. rewrite deltas_app, (H j), Hd, Hp. destruct (Z.eqb_spec (Z.of_nat (length (all_said p))) (Z.of_nat j)) as [E|E].
  - apply Nat2Z.inj in E as <-. rewrite lookup_ge_None_2, list_lookup_middle by done. done.
  - rewrite app_nil_r. destruct (decide (j < length (all_said p))%nat) as [Hl|Hl]; [by rewrite lookup_app_l|].
    rewrite (lookup_ge_None_2 (all_said p)), (lookup_ge_None_2 (_ ++ _)) by (rewrite ?length_app; cbn; lia). done.
Qed.

Lemma streams_grow p p' es0 es b b' (k : nat) t :
  streams p es0 -> all_said p !! k = Some b -> all_said p' = <[k := b']> (all_said p) -> said_live b' = said_live b ++ t ->
  (forall j, deltas j es = if Z.of_nat k =? j then t else []) -> streams p' (es0 ++ es).
Proof.
  intros H Hk Hp Hb Hd j. rewrite deltas_app, (H j), Hd, Hp. destruct (Z.eqb_spec (Z.of_nat k) (Z.of_nat j)) as [E|E].
  - apply Nat2Z.inj in E as <-. rewrite list_lookup_insert_eq by (by eapply lookup_lt_Some). by rewrite Hk.
  - rewrite list_lookup_insert_ne by (intros ->; done). by rewrite app_nil_r.
Qed.

Lemma text_keeps_up th t p : keeps_up (on_piece th t) p (piece_step p (TextOf th t)).
Proof.
  intros s es0 H Hs. destruct p as [bs o]. assert (Ho : (exists t', o = Some (th, t')) \/ ~ exists t', o = Some (th, t')).
  { destruct o as [[th' t']|]; [|right; by intros []]. destruct (decide (th' = th)) as [->|]; [left; by eexists|right; by intros [? [= -> _]]]. }
  destruct Ho as [[t' ->]|Hn].
  - rewrite (piece_continues th t (bs, Some (th, t')) s t') by done. eexists _, _. split; [done|]. cbn [piece_step fst snd]. rewrite bool_decide_true by done.
    assert (Ha : all_said (bs, Some (th, t' ++ t)) = <[length bs := SaidText th (t' ++ t)]> (all_said (bs, Some (th, t')))).
    { unfold all_said. cbn [fst snd opened]. by rewrite insert_app_r_alt, Nat.sub_diag. }
    split_and!; [split|..].
    + cbn [write_block st_blocks]. rewrite Ha, (fl_blocks _ _ H), list_fmap_insert. by destruct th.
    + exact (fl_current _ _ H).
    + cbn [write_block st_calls]. rewrite (fl_calls _ _ H). unfold all_said. cbn [fst snd opened]. by rewrite !keyed_app.
    + pose proof (fl_keys _ _ H) as Hk. rewrite !keys_all in *. exact Hk.
    + eapply streams_grow; [exact Hs|by apply list_lookup_middle|exact Ha|done|]. intros j. by rewrite delta_text.
    + done.
  - destruct (piece_opens th t (bs, o) s H) as (es & -> & Hd); [intros t' E; apply Hn; cbn in E; by exists t'|].
    eexists _, _. split; [done|].
    assert (Hp : piece_step (bs, o) (TextOf th t) = (all_said (bs, o), Some (th, t))).
    { cbn [piece_step fst snd]. destruct o as [[th' t']|]; [|unfold all_said; cbn; by rewrite app_nil_r].
      rewrite bool_decide_false; [done|]. intros ->. apply Hn. by exists t'. }
    rewrite Hp. set (p := (bs, o)) in *. split_and!; [split|..].
    + cbn [st_blocks]. rewrite (fl_blocks _ _ H). unfold all_said at 2. cbn [fst snd opened]. by rewrite map_app.
    + done.
    + cbn [st_calls]. rewrite (fl_calls _ _ H). unfold all_said at 2. cbn [fst snd opened]. rewrite keyed_app. cbn. by rewrite app_nil_r.
    + rewrite keys_all. exact (fl_keys _ _ H).
    + eapply streams_snoc; [exact Hs|reflexivity|done|done|]. intros j. by rewrite deltas_app, Hd, delta_text.
    + done.
Qed.

(** A key that is there has one call, which alone is changed. *)
Lemma key_call bs key args :
  key ∈ keys bs -> NoDup (keys bs) ->
  exists j id name a, list_find (fun b => said_key b = Some key) bs = Some (j, SaidCall key id name a) /\ bs !! j = Some (SaidCall key id name a) /\
    map (add_args key args) bs = <[j := SaidCall key id name (a ++ args)]> bs.
Proof.
  induction bs as [|b bs IH]; intros Hin HN; [by apply elem_of_nil in Hin|]. unfold keys in Hin, HN. cbn [omap list_omap] in Hin, HN. cbn [list_find].
  assert (Hsame : key ∉ keys bs -> map (add_args key args) bs = bs).
  { intros Hk. rewrite <- (map_id bs) at 2. apply map_ext_in. intros x Hx%list_elem_of_In. destruct x as [|k id name a]; [done|]. cbn [add_args].
    rewrite bool_decide_false; [done|]. intros ->. apply Hk, list_elem_of_omap. by exists (SaidCall key id name a). }
  destruct b as [th t|k id name a]; cbn [said_key] in *.
  - rewrite decide_False by done. destruct (IH Hin HN) as (j & id & name & a & Hf & Hj & Hm). exists (S j), id, name, a. rewrite Hf. cbn [map]. rewrite Hm. done.
  - destruct (decide (k = key)) as [->|Hk].
    + rewrite decide_True by done. exists 0%nat, id, name, a. split; [done|]. split; [done|]. cbn [map add_args]. rewrite bool_decide_true by done.
      apply NoDup_cons in HN as [Hk _]. by rewrite Hsame.
    + rewrite decide_False by congruence. apply elem_of_cons in Hin as [?|Hin]; [congruence|]. apply NoDup_cons in HN as [_ HN].
      destruct (IH Hin HN) as (j & id' & name' & a' & Hf & Hj & Hm). exists (S j), id', name', a'. rewrite Hf. cbn [map add_args].
      rewrite bool_decide_false by done. rewrite Hm. done.
Qed.

Lemma no_key bs key : key ∉ keys bs -> list_find (fun b => said_key b = Some key) bs = None.
Proof.
  intros Hk. apply list_find_None, Forall_forall. intros b Hb Hs. apply Hk, list_elem_of_omap. by exists b.
Qed.

Lemma existing_follows p s key :
  follows p s ->
  existing_call key s =
  match list_find (fun b => said_key b = Some key) (all_said p) with
  | Some (j, SaidCall _ id name a) => Some (j, ToolCall id name (parseStreamingJson partial_parse (Some a)) None None, a)
  | _ => None
  end.
Proof.
  intros H. unfold existing_call. rewrite (fl_calls _ _ H), find_keyed. destruct (list_find _ _) as [[j b]|] eqn:E; [|done]. cbn [fmap option_fmap option_map fst Nat.add mbind option_bind].
  apply list_find_Some in E as (Hj & Hk & _). rewrite (fl_blocks _ _ H). pose proof (list_lookup_fmap block_state (all_said p) j) as Hl. rewrite Hj in Hl.
  change (map block_state (all_said p) !! j = Some (block_state b)) in Hl. rewrite Hl. by destruct b.
Qed.

Lemma close_keeps_up p :
  keeps_up (let* s := state_m in when_m (bool_decide (is_Some (st_current s))) (let* _ := finishCurrentBlock in modify_m (point_at None))) p (all_said p, None).
Proof.
  intros s es0 H Hs. assert (Ha : all_said (all_said p, None) = all_said p) by (unfold all_said at 1; cbn; by rewrite app_nil_r).
  assert (Hf : follows (all_said p, None) (point_at None s)).
  { split; rewrite ?Ha; cbn [point_at st_blocks st_current st_calls snd]; [apply (fl_blocks _ _ H)|done|apply (fl_calls _ _ H)|apply (fl_keys _ _ H)]. }
  assert (Hq : streams (all_said p, None) es0) by (intros j; rewrite Ha; apply Hs).
  unfold bind_m at 1, state_m, when_m. destruct (st_current s) as [k|] eqn:Ec.
  - rewrite bool_decide_true by (by eexists). destruct (finish_silent s) as (es & He & Hd). unfold bind_m, modify_m. rewrite He.
    eexists _, _. split; [done|]. split; [done|]. split; [|done]. intros j. rewrite app_nil_r, deltas_app, Hd, app_nil_r. apply Hq.
  - rewrite bool_decide_false by (by intros []). eexists _, _. split; [done|]. rewrite app_nil_r. split; [|done]. by destruct s; cbn in *; subst.
Qed.

Lemma args_keep_up d key bs s es0 j id name a :
  follows (bs, None) s -> streams (bs, None) es0 -> list_find (fun b => said_key b = Some key) bs = Some (j, SaidCall key id name a) ->
  bs !! j = Some (SaidCall key id name a) ->
  exists es s',
    (match existing_call key s with
     | Some (k, tc, args) =>
         let* _ := modify_m (write_block k (BToolCall (with_arguments (parseStreamingJson partial_parse (Some (args ++ args_delta num_to_string d))) tc))
           (args ++ args_delta num_to_string d)) in
         push_m (EvToolDelta (Z.of_nat k) (args_delta num_to_string d))
     | None => ret ()
     end) s = (es, s', Ok ()) /\
    follows (<[j := SaidCall key id name (a ++ args_delta num_to_string d)]> bs, None) s' /\
    streams (<[j := SaidCall key id name (a ++ args_delta num_to_string d)]> bs, None) (es0 ++ es) /\ st_meta s' = st_meta s.
Proof.
  intros H Hs Hf Hj. assert (Ha : forall l, all_said (l, None) = l) by (intros l; unfold all_said; cbn; by rewrite app_nil_r).
  rewrite (existing_follows _ _ _ H), Ha, Hf. unfold bind_m, modify_m, push_m. cbv beta iota zeta. eexists _, _. split; [done|]. cbn [write_block with_arguments tc_id tc_name tc_thoughtSignature tc_namespace].
  pose proof (fl_keys _ _ H) as Hk. rewrite Ha in Hk.
  assert (Hsame : keyed 0 (<[j := SaidCall key id name (a ++ args_delta num_to_string d)]> bs) = keyed 0 bs /\
    keys (<[j := SaidCall key id name (a ++ args_delta num_to_string d)]> bs) = keys bs).
  { rewrite <- (take_drop_middle bs j _ Hj) at 2 4. rewrite insert_take_drop by (by eapply lookup_lt_Some).
    rewrite !keyed_app. unfold keys. by rewrite !omap_app. }
  destruct Hsame as [Hk1 Hk2]. split; [split; rewrite ?Ha; unfold write_block, with_arguments; cbn [st_blocks st_current st_calls snd tc_id tc_name tc_thoughtSignature tc_namespace]|split].
  - rewrite (fl_blocks _ _ H), Ha. by rewrite list_fmap_insert.
  - exact (fl_current _ _ H).
  - rewrite Hk1, (fl_calls _ _ H). by rewrite Ha.
  - by rewrite Hk2.
  - eapply streams_grow; [exact Hs|rewrite Ha; exact Hj|by rewrite !Ha|done|]. intros i. cbn. by rewrite app_nil_r.
  - done.
Qed.

Lemma call_keeps_up d p : keeps_up (on_delta_of d) p (piece_step p (CallOf d)).
Proof.
  intros s es0 H Hs. destruct (close_keeps_up p s es0 H Hs) as (es1 & s1 & E1 & H1 & S1 & M1).
  assert (Ha : forall l, all_said (l, None) = l) by (intros l; unfold all_said; cbn; by rewrite app_nil_r).
  unfold on_tool_delta. unfold bind_m at 1 2, state_m at 1. unfold bind_m at 1, state_m at 1 in E1.
  destruct (when_m (bool_decide (is_Some (st_current s))) _ s) as [[e0 s0] r0]. injection E1 as -> -> ->.
  cbn [app]. unfold bind_m at 1, state_m at 1. cbn [piece_step]. set (bs := all_said p) in *. pose proof (fl_keys _ _ H1) as HN. rewrite Ha in HN.
  pose proof (existing_follows _ _ (delta_key d) H1) as Hx. rewrite Ha in Hx.
  destruct (bool_decide_reflect (delta_key d ∈ keys bs)) as [Hin|Hin].
  - destruct (key_call bs _ (args_delta num_to_string d) Hin HN) as (j & id & name & a & Hf & Hj & ->). rewrite bool_decide_false by (by rewrite Hx, Hf).
    unfold when_m. rewrite bind_ret_m. unfold bind_m at 1, state_m at 1. destruct (args_keep_up d _ bs s1 _ j id name a H1 S1 Hf Hj) as (es & s2 & E & H2 & S2 & M2).
    cbv beta iota zeta. rewrite E. eexists _, _. split; [done|]. split; [done|]. split; [by rewrite app_assoc|congruence].
  - rewrite bool_decide_true by (by rewrite Hx, (no_key bs _ Hin)). unfold when_m.
    set (b0 := SaidCall (delta_key d) (delta_call_id d) (md_name d) []).
    set (s2 := MistralState (st_blocks s1 ++ [(BToolCall (ToolCall (delta_call_id d) (md_name d) (JObj []) None None), [])]) (st_current s1)
      (st_calls s1 ++ [(delta_key d, length bs)]) (st_meta s1)).
    assert (H2 : follows (bs ++ [b0], None) s2).
    { split; rewrite ?Ha; cbn [s2 st_blocks st_current st_calls snd].
      - by rewrite (fl_blocks _ _ H1), Ha, map_app.
      - exact (fl_current _ _ H1).
      - rewrite (fl_calls _ _ H1), Ha, keyed_app. done.
      - rewrite keys_app. apply NoDup_app. split; [done|]. split; [|apply NoDup_singleton]. by intros k Hk ->%list_elem_of_singleton. }
    assert (Hl : length (st_blocks s1) = length bs) by (by rewrite (fl_blocks _ _ H1), Ha, length_map).
    assert (Hf : list_find (fun b => said_key b = Some (delta_key d)) (bs ++ [b0]) = Some (length bs, b0)).
    { rewrite list_find_app_r by (by apply no_key). cbn [list_find]. rewrite decide_True by done. done. }
    assert (S2 : streams (bs ++ [b0], None) ((es0 ++ es1) ++ [EvToolStart (Z.of_nat (length bs))])).
    { apply (streams_snoc (bs, None) _ _ _ b0 (length bs) []); [exact S1|by rewrite Ha|by rewrite !Ha|done|]. intros i. cbn. by destruct (_ =? _). }
    destruct (args_keep_up d _ _ s2 _ (length bs) (delta_call_id d) (md_name d) [] H2 S2 Hf ltac:(by apply list_lookup_middle)) as (es & s3 & E & H3 & S3 & M3).
    unfold bind_m at 1. set (create := bind_m (modify_m _) _). assert (Hc : create s1 = ([EvToolStart (Z.of_nat (length bs))], s2, Ok ())).
    { unfold create, bind_m, modify_m, push_m, s2. by rewrite Hl. }
    rewrite Hc. unfold bind_m at 1, state_m at 1. cbv beta iota zeta. rewrite E. rewrite insert_app_r_alt, Nat.sub_diag in H3, S3 by done. cbn [app] in H3, S3.
    eexists _, _. split; [done|]. split; [exact H3|]. split; [|by rewrite M3]. rewrite <- !app_assoc in S3. exact S3.
Qed.

Lemma keeps_up_nothing p : keeps_up (ret ()) p p.
Proof. intros s es0 H Hs. eexists _, _. split; [done|]. by rewrite app_nil_r. Qed.

Lemma keeps_up_bind (x : M ()) (k : () -> M ()) p p1 p2 : keeps_up x p p1 -> keeps_up (k ()) p1 p2 -> keeps_up (bind_m x k) p p2.
Proof.
  intros Hx Hk s es0 H Hs. destruct (Hx s es0 H Hs) as (e1 & s1 & E1 & H1 & S1 & M1). destruct (Hk s1 _ H1 S1) as (e2 & s2 & E2 & H2 & S2 & M2).
  unfold bind_m. rewrite E1, E2. eexists _, _. split; [done|]. split; [done|]. split; [by rewrite app_assoc|congruence].
Qed.

Lemma keeps_up_each {A} (f : A -> M ()) (pieces : A -> list mistral_piece) l p :
  (forall a q, keeps_up (f a) q (foldl piece_step q (pieces a))) -> keeps_up (each_m f l) p (foldl piece_step p (l ≫= pieces)).
Proof.
  intros Hf. revert p. induction l as [|a l IH]; intros p; [apply keeps_up_nothing|]. rewrite bind_cons, foldl_app. cbn [each_m].
  eapply keeps_up_bind; [apply Hf|apply IH].
Qed.

Lemma item_keeps_up i p : keeps_up (on_item i) p (foldl piece_step p (item_pieces i)).
Proof.
  destruct i as [t|t|]; cbn [on_item item_pieces]; [apply text_keeps_up| |apply keeps_up_nothing]. unfold when_m.
  destruct (truthy (sanitizeSurrogates t)); [apply text_keeps_up|apply keeps_up_nothing].
Qed.

(** What an event does to the rest of the message. *)
Definition event_finish (e : mistral_event) : option jstr := match me_choice e with Some (f, _, _) => truthy_string f | None => None end.

Definition event_meta (mt : meta) (e : mistral_event) : meta :=
  let mt := with_mistral_id (me_id e) mt in
  let mt := match me_usage e with Some u => with_mistral_usage m u mt | None => mt end in
  match event_finish e with Some r => with_mistral_reason r mt | None => mt end.

Lemma said_meta p s mt : follows p s -> follows p (MistralState (st_blocks s) (st_current s) (st_calls s) mt).
Proof. intros H. split; [apply (fl_blocks _ _ H)|apply (fl_current _ _ H)|apply (fl_calls _ _ H)|apply (fl_keys _ _ H)]. Qed.

Lemma event_keeps_up e p s es0 :
  follows p s -> streams p es0 ->
  exists es s', on_event_of e s = (es, s', Ok ()) /\ follows (foldl piece_step p (event_pieces e)) s' /\
    streams (foldl piece_step p (event_pieces e)) (es0 ++ es) /\ st_meta s' = event_meta (st_meta s) e.
Proof.
  intros H Hs. set (s1 := MistralState (st_blocks s) (st_current s) (st_calls s) (event_meta (st_meta s) e)).
  assert (H1 : follows p s1) by (by apply said_meta).
  assert (Hx : exists es s', (match me_choice e with
    | None => ret () | Some (_, items, calls) => let* _ := each_m on_item items in each_m on_delta_of calls end) s1 = (es, s', Ok ()) /\
    follows (foldl piece_step p (event_pieces e)) s' /\ streams (foldl piece_step p (event_pieces e)) (es0 ++ es) /\ st_meta s' = st_meta s1).
  { unfold event_pieces. destruct (me_choice e) as [[[f items] calls]|]; [|by apply keeps_up_nothing]. rewrite foldl_app.
    eapply keeps_up_bind; [apply keeps_up_each, item_keeps_up| |done|done].
    replace (map CallOf calls) with (calls ≫= fun d => [CallOf d]) by (clear; induction calls as [|d l IH]; [done|]; rewrite bind_cons, IH; done).
    apply keeps_up_each. intros d q. apply call_keeps_up. }
  destruct Hx as (es & s' & E & Hf & Hst & Hm). exists es, s'. split; [|done]. rewrite <- E. unfold s1, event_meta, event_finish, on_mistral_event.
  rewrite bind_modify_m. destruct (me_usage e) as [u|]; rewrite ?bind_modify_m, ?bind_ret_m; destruct (me_choice e) as [[[f items] calls]|]; try done;
    by destruct (truthy_string f); rewrite ?bind_modify_m, ?bind_ret_m.
Qed.

Lemma events_keep_up events p s es0 :
  follows p s -> streams p es0 ->
  exists es s', each_m on_event_of events s = (es, s', Ok ()) /\ follows (foldl piece_step p (events ≫= event_pieces)) s' /\
    streams (foldl piece_step p (events ≫= event_pieces)) (es0 ++ es) /\ st_meta s' = foldl event_meta (st_meta s) events.
Proof.
  revert p s es0. induction events as [|e events IH]; intros p s es0 H Hs.
  { eexists _, _. split; [done|]. by rewrite app_nil_r. }
  destruct (event_keeps_up e p s es0 H Hs) as (e1 & s1 & E1 & H1 & S1 & M1). destruct (IH _ _ _ H1 S1) as (e2 & s2 & E2 & H2 & S2 & M2).
  cbn [each_m foldl]. rewrite bind_cons, foldl_app. unfold bind_m. rewrite E1, E2. eexists _, _. split; [done|]. split; [done|].
  split; [by rewrite app_assoc|congruence].
Qed.

(** *** The end *)

(** A call whose arguments are those of its text. *)
Definition parsed_call (b : block * jstr) : Prop :=
  match b.1 with BToolCall tc => tc_arguments tc = parseStreamingJson partial_parse (Some b.2) | _ => True end.

Lemma with_same tc : with_arguments (tc_arguments tc) tc = tc.
Proof. by destruct tc. Qed.

Lemma end_calls_same calls s :
  NoDup (map snd calls) -> Forall (fun kv : call_key * nat => forall b, st_blocks s !! kv.2 = Some b -> parsed_call b) calls ->
  exists es s', each_m (end_call partial_parse) calls s = (es, s', Ok ()) /\ map fst (st_blocks s') = map fst (st_blocks s) /\
    st_meta s' = st_meta s /\ forall j, deltas j es = [].
Proof.
  revert s. induction calls as [|[key k] calls IH]; intros s HN HF; [by eexists _, _|]. cbn [map snd] in HN. apply NoDup_cons in HN as [Hk HN].
  apply Forall_cons in HF as [Hp HF]. cbn [snd] in Hp. cbn [each_m].
  assert (Hone : exists e1 s1, end_call partial_parse (key, k) s = (e1, s1, Ok ()) /\ map fst (st_blocks s1) = map fst (st_blocks s) /\
    st_meta s1 = st_meta s /\ (forall j, deltas j e1 = []) /\ forall j, j ≠ k -> st_blocks s1 !! j = st_blocks s !! j).
  { unfold end_call, bind_m, state_m, modify_m, push_m, ret. cbn [snd]. destruct (st_blocks s !! k) as [[[t sg|t sg r|tc] args]|] eqn:Eb;
      try (by eexists _, _; split_and!). specialize (Hp _ eq_refl). unfold parsed_call in Hp. cbn [fst snd] in Hp. rewrite <- Hp, with_same. eexists _, _. split; [done|].
    cbn [write_block st_blocks st_meta]. split; [|split; [done|split; [done|]]].
    - change (fst <$> <[k := (BToolCall tc, [])]> (st_blocks s) = fst <$> st_blocks s). rewrite list_fmap_insert. apply list_insert_id.
      by rewrite list_lookup_fmap, Eb.
    - intros j Hj. by rewrite list_lookup_insert_ne. }
  destruct Hone as (e1 & s1 & E1 & Hb1 & M1 & D1 & Ho). destruct (IH s1 HN) as (e2 & s2 & E2 & Hb2 & M2 & D2).
  { rewrite Forall_forall in HF |- *. intros [key' k'] Hin b. cbn [snd]. rewrite Ho; [by apply (HF _ Hin)|].
    intros ->. apply Hk. by apply list_elem_of_fmap_2 with (f := snd) in Hin. }
  unfold bind_m. rewrite E1, E2. eexists _, _. split; [done|]. split; [congruence|]. split; [congruence|]. intros j. by rewrite deltas_app, D1, D2.
Qed.

Lemma keyed_positions i bs : NoDup (map snd (keyed i bs)) /\ Forall (fun k => (i <= k)%nat) (map snd (keyed i bs)).
Proof.
  revert i. induction bs as [|b bs IH]; intros i; [split; constructor|]. cbn [keyed]. destruct (IH (S i)) as [IH1 IH2].
  assert (Hle : Forall (fun k => (i <= k)%nat) (map snd (keyed (S i) bs))) by (eapply Forall_impl; [exact IH2|]; cbn; lia).
  destruct (said_key b); [|done]. cbn [map snd]. split; constructor; [|done|lia|done].
  intros Hin. rewrite Forall_forall in IH2. specialize (IH2 _ Hin). cbn in IH2. lia.
Qed.

Lemma end_follows p s :
  follows p s ->
  exists es s', (let* _ := finishCurrentBlock in end_calls partial_parse) s = (es, s', Ok ()) /\ map fst (st_blocks s') = map said_block (all_said p) /\
    st_meta s' = st_meta s /\ forall j, deltas j es = [].
Proof.
  intros H. destruct (finish_silent s) as (e1 & E1 & D1). destruct (end_calls_same (st_calls s) s) as (e2 & s2 & E2 & Hb & Hm & D2).
  - rewrite (fl_calls _ _ H). apply keyed_positions.
  - apply Forall_forall. intros kv _ b Hb. rewrite (fl_blocks _ _ H) in Hb.
    change (map block_state (all_said p)) with (block_state <$> all_said p) in Hb. apply list_lookup_fmap_Some in Hb as (x & -> & _). by destruct x as [[]|].
  - unfold bind_m, end_calls, state_m. rewrite E1. unfold bind_m. rewrite E2. eexists _, _. split; [done|]. split; [|split; [done|]].
    + rewrite Hb, (fl_blocks _ _ H), map_map. by apply map_ext.
    + intros j. cbn [app]. by rewrite deltas_app, D1, D2.
Qed.

Lemma stop_after events mt :
  mt_stop (foldl event_meta mt events) = match last (omap event_finish events) with Some r => Some (mapChatStopReason r).1 | None => mt_stop mt end.
Proof.
  induction events as [|e events IH] using rev_ind; [done|]. rewrite foldl_app, omap_app. cbn [foldl omap list_omap]. unfold event_meta at 1.
  destruct (event_finish e) as [r|]; [rewrite last_snoc; unfold with_mistral_reason; by destruct (mapChatStopReason r)|]. rewrite app_nil_r, <- IH. by destruct (me_usage e).
Qed.

Lemma usage_after events mt :
  mt_usage (foldl event_meta mt events) = match last (omap me_usage events) with Some u => mistral_tokens u | None => mt_usage mt end.
Proof.
  induction events as [|e events IH] using rev_ind; [done|]. rewrite foldl_app, omap_app. cbn [foldl omap list_omap]. unfold event_meta at 1.
  destruct (me_usage e) as [u|] eqn:Eu.
  - rewrite last_snoc. destruct (event_finish e) as [r|]; [unfold with_mistral_reason; by destruct (mapChatStopReason r)|done].
  - rewrite app_nil_r, <- IH. destruct (event_finish e) as [r|]; [unfold with_mistral_reason; by destruct (mapChatStopReason r)|done].
Qed.

(** C28: A response of Mistral, however it is cut into events, becomes the message it
    describes: runs of texts of one kind are blocks, a call is a block at its first
    piece with all the arguments sent for its key, what is streamed for a block is its
    text, and the reason and the usage are the last ones reported. *)
Theorem mistral_message_faithful events reason stop :
  last (omap event_finish events) = Some reason -> mapChatStopReason reason = (stop, None) ->
  let blocks := said_blocks [] None (events ≫= event_pieces) in
  exists es msg,
    mistral_stream num_to_string partial_parse m now (Ok ()) events (Ok ()) false = (EvStart :: es ++ [EvDone stop msg], msg) /\
    a_content msg = map said_block blocks /\ a_stopReason msg = stop /\
    (forall j : nat, deltas (Z.of_nat j) es = from_option said_live [] (blocks !! j)) /\
    (forall u, last (omap me_usage events) = Some u ->
       u_output (a_usage msg) = or_zero (mu_completion u) /\
       (0 <= or_zero (mu_prompt u) -> u_input (a_usage msg) + u_cacheRead (a_usage msg) = or_zero (mu_prompt u))).
Proof.
  intros Hr Hs blocks. assert (H0 : follows ([], None) mistral_init) by (split; try done; constructor).
  destruct (events_keep_up events _ _ [] H0) as (e1 & s1 & E1 & H1 & S1 & M1); [by intros j|]. destruct (end_follows _ _ H1) as (e2 & s2 & E2 & Hb & M2 & D2).
  rewrite pieces_said in Hb. cbn [app map keys omap list_omap] in Hb. fold blocks in Hb.
  assert (Hst : mt_stop (st_meta s2) = Some stop) by (rewrite M2, M1, stop_after, Hr, Hs; done).
  assert (Hgood : mistral_reason false s2 = Ok stop).
  { unfold mistral_reason. rewrite Hst. unfold mapChatStopReason in Hs. destruct (streq reason (js "stop")); [by injection Hs as <-|].
    destruct (_ || _); [by injection Hs as <-|]. destruct (streq reason _); [by injection Hs as <-|done]. }
  assert (E : consumeChatStream num_to_string partial_parse m events (Ok ()) mistral_init = (e1 ++ e2, s2, Ok ())).
  { unfold consumeChatStream, bind_m at 1. rewrite E1. unfold bind_m at 1, lift_m. rewrite E2. done. }
  unfold mistral_stream. rewrite E, Hgood. eexists _, _. split; [done|]. cbn [mistral_message_of a_content a_stopReason a_usage u_output u_input u_cacheRead].
  split; [exact Hb|]. split; [done|]. split.
  - intros j. rewrite deltas_app, D2, app_nil_r. specialize (S1 j). rewrite pieces_said in S1. exact S1.
  - intros u Hu. rewrite M2, M1, usage_after, Hu. unfold mistral_tokens, getMistralCachedPromptTokens. cbn [u_output u_input u_cacheRead]. split; [done|lia].
Qed.

(** A response without a reason to stop, or one that fails, is an error. *)
Theorem mistral_unfinished_fails events ending :
  ending ≠ Ok () \/ last (omap event_finish events) = None ->
  exists es msg e, mistral_stream num_to_string partial_parse m now (Ok ()) events ending false = (EvStart :: es ++ [EvError Error msg], msg) /\ a_errorMessage msg = Some e.
Proof.
  intros Hor. assert (H0 : follows ([], None) mistral_init) by (split; try done; constructor).
  destruct (events_keep_up events _ _ [] H0) as (e1 & s1 & E1 & H1 & _ & M1); [by intros j|]. destruct (end_follows _ _ H1) as (e2 & s2 & E2 & _ & M2 & _).
  unfold mistral_stream, consumeChatStream, bind_m at 1. rewrite E1. unfold bind_m at 1, lift_m. destruct ending as [[]|x].
  - rewrite E2. destruct Hor as [?|Hl]; [done|]. cbn [app]. unfold mistral_reason. rewrite M2, M1, stop_after, Hl. cbn. by eexists _, _, _.
  - cbn [app]. by eexists _, _, _.
Qed.
End Facts.

(** ** Witnesses *)

Definition call_delta (id : option string) (i : option Z) (name : string) (args : string) : mistral_delta :=
  MistralDelta (js <$> id) i (js name) (inl (js args)).

(** Thinking, a text in two pieces, and two calls whose arguments are interleaved. *)
Definition mistral_reply : list mistral_event :=
  [MistralEvent (Some (js "r1")) None (Some (None, [ItemThinking (js "hm"); ItemText (js "Hel")], []));
   MistralEvent None None (Some (None, [ItemText (js "lo")], [call_delta (Some "abc"%string) (Some 0) "ls" "{"; call_delta None (Some 1) "ls" "{"]));
   MistralEvent None (Some (MistralUsage (Some 10) (Some 5) None 4)) (Some (Some (js "tool_calls"), [],
     [call_delta (Some "null"%string) (Some 0) "ls" "}"; call_delta None (Some 1) "ls" "}"]))].

Lemma mistral_message_faithful_witness :
  exists es msg,
    mistral_stream int_num_str (fun _ => None) mistral_model 0 (Ok ()) mistral_reply (Ok ()) false = (EvStart :: es ++ [EvDone ToolUse msg], msg) /\
    a_content msg =
      [BThinking (js "hm") None false; BText (js "Hello") None; BToolCall (ToolCall (js "abc") (js "ls") (JObj []) None None);
       BToolCall (ToolCall (js "toolcall1") (js "ls") (JObj []) None None)] /\
    deltas 2 es = js "{}" /\ u_input (a_usage msg) + u_cacheRead (a_usage msg) = 10.
Proof.
  destruct (mistral_message_faithful int_num_str (fun _ => None) mistral_model 0 mistral_reply (js "tool_calls") ToolUse eq_refl eq_refl)
    as (es & msg & H1 & H2 & _ & H3 & H4). exists es, msg. split; [exact H1|]. split; [rewrite H2; vm_compute; reflexivity|].
  split; [exact (H3 2%nat)|]. by destruct (H4 _ eq_refl) as [_ H]; apply H.
Defined.

Lemma mistral_unfinished_fails_witness :
  exists es msg e, mistral_stream int_num_str (fun _ => None) mistral_model 0 (Ok ()) (take 2 mistral_reply) (Ok ()) false =
    (EvStart :: es ++ [EvError Error msg], msg) /\ a_errorMessage msg = Some e.
Proof. apply mistral_unfinished_fails. right. reflexivity. Defined.

(** The identifier made up for a call depends on its index only: the first calls of all
    responses that give none have the same. *)
Lemma mistral_made_ids_repeat name args name' args' :
  delta_call_id (call_delta None None name args) = js "toolcall0" /\ delta_call_id (call_delta None (Some 0) name' args') = js "toolcall0".
Proof. split; vm_compute; reflexivity. Qed.

(** A request and its answer, from the messages to the bytes and back. *)
Definition mistral_server (url : jstr) (headers : list (jstr * jstr)) (body : jstr) : result mistral_error mistral_response :=
  let quote s := [34] ++ js s ++ [34] in
  let data := js "{" ++ quote "choices" ++ js ":[{" ++ quote "finish_reason" ++ js ":" ++ quote "stop" ++ js "," ++ quote "delta" ++ js ":{" ++
              quote "content" ++ js ":" ++ quote "ok" ++ js "}}]}" in
  Ok (MistralResponse 200 true (js "OK") (Ok []) (Some ([utf8_encode (mistral_body [(EndCRLF, data)] EndLF)], None))).

Example mistral_exchange :
  let run apiKey :=
    stream8 int_num_str (fun _ => None) lower_ascii (js "pi") (fun u => Some (u, js "/x//")) (fun _ => []) (fun _ => []) (fun _ => [])
      mistral_server (fun _ => Ok ()) (fun p => Ok p) 1 mistral_model 9 apiKey None mistral_history None mistral_opts false in
  (fun r => (map isComplete r.1, a_content r.2, a_stopReason r.2)) <$> run (Some (js "k")) =
    Some ([false; false; false; false; true], [BText (js "ok") None], Stop) /\
  (fun r => a_errorMessage r.2) <$> run None = Some (Some (js "No API key for provider: mistral")).
Proof. split; vm_compute; reflexivity. Qed.
