(* ===== verification/CodexSockets.v ===== *)
(** The WebSockets of the Codex provider
    (pi [packages/ai/dist/api/openai-codex-responses.js]): a connection is kept
    for the session and account it was opened for, lent to one request at a time,
    closed after five idle minutes or at the age of fifty-five, and the next
    request sends only the items the server does not have yet.

    A state holds the sockets, the objects of the cache, the timers that are set
    and the requests with the point at which each is suspended; an event is one
    turn of the event loop.  The history of a connection, which gives
    [previous_response_id] its meaning, is part of the socket.  Every theorem
    holds for all sequences of events. *)
From S2P Require Import Prelude Numbers Json JsonText Messages TransformMessages Models OpenaiCommon OpenaiCompletions OpenaiResponses.
Open Scope Z_scope.

(** * The items the server does not have yet *)

Abbreviation fields := (list (jstr * json)).

Record continuation := Continuation {
  lastRequestBody : fields;
  lastResponseId : jstr;
  lastResponseItems : list json
}.

(** [body.input ?? []]; the body has an array there. *)
Definition body_input (body : fields) : list json :=
  match lookup_field (js "input") body with Some (JArr l) => l | _ => [] end.

Definition requestBodyWithoutInput (body : fields) : fields :=
  delete_field (js "previous_response_id") (delete_field (js "input") body).

Section Delta.
Context (num_to_string : Q -> jstr).
#[local] Abbreviation text := (JSON_stringify num_to_string).

Definition responseInputsEqual (a b : list json) : bool := streq (text (JArr a)) (text (JArr b)).

Definition requestBodiesMatchExceptInput (a b : fields) : bool :=
  streq (text (JObj (requestBodyWithoutInput a))) (text (JObj (requestBodyWithoutInput b))).

Definition getCachedWebSocketInputDelta (body : fields) (c : continuation) : option (list json) :=
  if negb (requestBodiesMatchExceptInput body (lastRequestBody c)) then None
  else
    let currentInput := body_input body in
    let baseline := body_input (lastRequestBody c) ++ lastResponseItems c in
    if (length currentInput <? length baseline)%nat then None
    else if negb (responseInputsEqual (take (length baseline) currentInput) baseline) then None
    else Some (drop (length baseline) currentInput).

(** The body to send and the continuation the entry has afterwards. *)
Definition buildCachedWebSocketRequestBody (c : option continuation) (body : fields) : fields * option continuation :=
  match c with
  | None => (body, None)
  | Some k =>
      match getCachedWebSocketInputDelta body k with
      | Some delta =>
          if truthy (lastResponseId k)
          then (set_field (js "input") (JArr delta)
                  (set_field (js "previous_response_id") (JStr (lastResponseId k)) body), c)
          else (body, None)
      | None => (body, None)
      end
  end.
End Delta.

(** * The items of a response *)

Definition CODEX_TOOL_CALL_PROVIDERS : list jstr := [js "openai"; js "openai-codex"; js "opencode"].

(** [item.type], an error for [null]. *)
Definition item_type (item : json) : result jstr (option json) :=
  match item with
  | JNull => Throw (js "Cannot read properties of null (reading 'type')")
  | JObj fs => Ok (lookup_field (js "type") fs)
  | _ => Ok None
  end.

(** The filter: [item.type !== "function_call_output" && item.type !== "custom_tool_call_output"]. *)
Fixpoint without_results (items : list json) : result jstr (list json) :=
  match items with
  | [] => Ok []
  | item :: rest =>
      let! type := item_type item in
      let! rest := without_results rest in
      Ok (if bool_decide (type = Some (jstring "function_call_output")) || bool_decide (type = Some (jstring "custom_tool_call_output"))
          then rest else item :: rest)
  end.

Section Items.
(** How finite doubles are printed, and the message of [JSON.parse] for a text
    that is not JSON. *)
Context (num_to_string : Q -> jstr) (syntax_error : jstr -> jstr).

(** [convertResponsesMessages(model, { messages: [output] }, CODEX_TOOL_CALL_PROVIDERS, ...).filter(...)],
    at time [t].  Calls that have no result yet get one, which the filter takes out. *)
Definition response_items (m : model) (grammarToolInputProperties : gmap jstr jstr) (output : assistant) (t : Z) : result jstr (list json) :=
  let! items :=
    convertResponsesMessages num_to_string syntax_error m CODEX_TOOL_CALL_PROVIDERS grammarToolInputProperties [] None
      (ToolOptions None false false false) false None None [Complete (MAssistant output)] t in
  without_results (map input_json items).
End Items.

(** * Sockets, entries, requests *)

Definition SESSION_WEBSOCKET_CACHE_TTL_MS : Z := 5 * 60 * 1000.
Definition SESSION_WEBSOCKET_MAX_AGE_MS : Z := 55 * 60 * 1000.

Inductive ready := CONNECTING | OPEN | CLOSING | CLOSED.

#[export] Instance ready_eq_dec : EqDecision ready.
Proof. solve_decision. Defined.

Definition ready_number (r : ready) : Z :=
  match r with CONNECTING => 0 | OPEN => 1 | CLOSING => 2 | CLOSED => 3 end.

(** A session and an account. *)
Abbreviation key := (jstr * jstr)%type.

(** The history of a connection, which no code reads: for each response given on
    it, by its identifier, the items of the conversation up to and with it, as the
    server has them; and for each response the items the server gave and those
    that the message made of it is sent back as. *)
Record history := History {
  memory : gmap jstr (list json);
  answers : list (list json * list json)
}.

Definition no_history : history := History ∅ [].

(** [sk_home] is the session and account whose headers opened the socket. *)
Record socket := Socket {
  sk_ready : ready;
  sk_url : jstr;
  sk_home : option jstr * jstr;
  sk_history : history
}.

(** An object of [websocketSessionCache]; a timer is its handle. *)
Record entry := Entry {
  en_socket : nat;
  en_busy : bool;
  en_createdAt : Z;
  en_idleTimer : option nat;
  en_continuation : option continuation
}.

(** A timer that is set: the arguments its function closes over. *)
Record timer := Timer { tm_key : key; tm_entry : nat; tm_due : Z }.

(** What [acquireWebSocket] returned, by which of its closures is [release]. *)
Inductive lease :=
| Bare (sock : nat)
| Reused (k : key) (e : nat) (sock : nat)
| Stored (k : key) (e : nat) (sock : nat).

(** Where a request waits: for the constructor of sockets, for the socket to
    open, to go on after it did ([Some k]: the socket is to be kept under [k]),
    with an acquired socket, with its request sent, or nowhere. *)
Inductive phase :=
| Opening (keep : option key) (url : jstr) (home : option jstr * jstr)
| Connecting (keep : option key) (sock : nat)
| Connected (keep : option key) (sock : nat)
| Acquired (l : lease)
| Streaming (l : lease) (useCachedContext : bool) (fullBody sent : fields)
| Ended.

Record socket_pool := Pool {
  sockets : gmap nat socket;
  entries : gmap nat entry;
  timers : gmap nat timer;
  cache : gmap jstr (gmap jstr nat);
  requests : gmap nat phase;
  next : nat;
  now : Z
}.

Definition no_pool : socket_pool := Pool ∅ ∅ ∅ ∅ ∅ 0 0.

Definition set_sockets m s := Pool m (entries s) (timers s) (cache s) (requests s) (next s) (now s).
Definition set_entries m s := Pool (sockets s) m (timers s) (cache s) (requests s) (next s) (now s).
Definition set_timers m s := Pool (sockets s) (entries s) m (cache s) (requests s) (next s) (now s).
Definition set_cache m s := Pool (sockets s) (entries s) (timers s) m (requests s) (next s) (now s).
Definition set_phase r p s := Pool (sockets s) (entries s) (timers s) (cache s) (<[r := p]> (requests s)) (next s) (now s).
Definition pool_tick s := Pool (sockets s) (entries s) (timers s) (cache s) (requests s) (S (next s)) (now s).

(** [Map]s of [Map]s. *)
Definition cached (s : socket_pool) (k : key) : option nat := cache s !! k.1 ≫= fun m => m !! k.2.

(** [accountEntries.delete(accountId)], and the session with the last account. *)
Definition drop_account (k : key) (c : gmap jstr (gmap jstr nat)) : gmap jstr (gmap jstr nat) :=
  match c !! k.1 with
  | None => c
  | Some m => let m' := delete k.2 m in if bool_decide (m' = ∅) then delete k.1 c else <[k.1 := m']> c
  end.

Definition keep_account (k : key) (e : nat) (c : gmap jstr (gmap jstr nat)) : gmap jstr (gmap jstr nat) :=
  <[k.1 := <[k.2 := e]> (default ∅ (c !! k.1))]> c.

Section Pool.
(** Whether [readyState] of the sockets of the runtime is a number, how finite
    doubles are printed, and the message of [JSON.parse]. *)
Context (numbered : bool) (num_to_string : Q -> jstr) (syntax_error : jstr -> jstr).

Definition getWebSocketReadyState (k : socket) : option Z :=
  if numbered then Some (ready_number (sk_ready k)) else None.

Definition isWebSocketReusable (k : socket) : bool :=
  match getWebSocketReadyState k with None => true | Some n => n =? 1 end.

Definition isWebSocketSessionExpired (t : Z) (e : entry) : bool := SESSION_WEBSOCKET_MAX_AGE_MS <=? t - en_createdAt e.

(** [socket.close(1000, reason)] *)
Definition close_socket (k : socket) : socket :=
  Socket (match sk_ready k with CONNECTING | OPEN => CLOSING | r => r end) (sk_url k) (sk_home k) (sk_history k).

Definition closeWebSocketSilently (i : nat) (s : socket_pool) : socket_pool := set_sockets (alter close_socket i (sockets s)) s.

Definition clearTimeout (t : option nat) (s : socket_pool) : socket_pool :=
  match t with Some t => set_timers (delete t (timers s)) s | None => s end.

Definition reusable (i : nat) (s : socket_pool) : bool :=
  match sockets s !! i with Some k => isWebSocketReusable k | None => false end.

Definition with_timer (t : option nat) (e : entry) : entry :=
  Entry (en_socket e) (en_busy e) (en_createdAt e) t (en_continuation e).
Definition with_busy (b : bool) (e : entry) : entry :=
  Entry (en_socket e) b (en_createdAt e) (en_idleTimer e) (en_continuation e).
Definition with_continuation (c : option continuation) (e : entry) : entry :=
  Entry (en_socket e) (en_busy e) (en_createdAt e) (en_idleTimer e) c.

Definition set_entry (e : nat) (f : entry -> entry) (s : socket_pool) : socket_pool := set_entries (alter f e (entries s)) s.

(** [if (currentEntries?.get(accountId) === entry) ...delete] *)
Definition uncache (k : key) (e : nat) (s : socket_pool) : socket_pool :=
  if bool_decide (cached s k = Some e) then set_cache (drop_account k (cache s)) s else s.

Definition scheduleSessionWebSocketExpiry (k : key) (e : nat) (s : socket_pool) : socket_pool :=
  match entries s !! e with
  | None => s
  | Some en =>
      let s := clearTimeout (en_idleTimer en) s in
      let t := next s in
      set_entry e (with_timer (Some t))
        (set_timers (<[t := Timer k e (now s + SESSION_WEBSOCKET_CACHE_TTL_MS)]> (timers s)) (pool_tick s))
  end.

(** The function of the timer. *)
Definition on_expiry (k : key) (e : nat) (s : socket_pool) : socket_pool :=
  match entries s !! e with
  | Some en => if en_busy en then s else uncache k e (closeWebSocketSilently (en_socket en) s)
  | None => s
  end.

(** [closeWebSocketSilently(cached.socket)] and the entry leaves the cache. *)
Definition discard (k : key) (sock : nat) (s : socket_pool) : socket_pool :=
  let s := closeWebSocketSilently sock s in set_cache (drop_account k (cache s)) s.

(** [acquireWebSocket] up to the connection it waits for, if any. *)
Definition acquireWebSocket (url : jstr) (sessionId : option jstr) (accountId : jstr) (s : socket_pool) : socket_pool * phase :=
  match sessionId with
  | None | Some [] => (s, Opening None url (None, accountId))
  | Some sess =>
      let k := (sess, accountId) in
      let connect s := (s, Opening (Some k) url (Some sess, accountId)) in
      match cached s k with
      | None => connect s
      | Some e =>
          match entries s !! e with
          | None => connect s
          | Some en =>
              let s := set_entry e (with_timer None) (clearTimeout (en_idleTimer en) s) in
              let sock := en_socket en in
              let expired := negb (en_busy en) && isWebSocketSessionExpired (now s) en in
              if negb expired && negb (en_busy en) && reusable sock s then
                (set_entry e (with_busy true) s, Acquired (Reused k e sock))
              else
                let s := if expired then discard k sock s else s in
                if en_busy en then (s, Opening None url (Some sess, accountId))
                else connect (if negb (reusable sock s) then discard k sock s else s)
          end
      end
  end.

(** [acquireWebSocket] after [connectWebSocket] resolved. *)
Definition socket_connected (keep : option key) (sock : nat) (s : socket_pool) : socket_pool * phase :=
  match keep with
  | None => (s, Acquired (Bare sock))
  | Some k =>
      let e := next s in
      let s := set_entries (<[e := Entry sock true (now s) None None]> (entries s)) (pool_tick s) in
      (set_cache (keep_account k e (cache s)) s, Acquired (Stored k e sock))
  end.

(** The three closures. *)
Definition release (l : lease) (keep : bool) (s : socket_pool) : socket_pool :=
  match l with
  | Bare sock => closeWebSocketSilently sock s
  | Reused k e sock =>
      if negb keep || negb (reusable sock s) then uncache k e (closeWebSocketSilently sock s)
      else scheduleSessionWebSocketExpiry k e (set_entry e (with_busy false) s)
  | Stored k e sock =>
      if negb keep || negb (reusable sock s)
      then uncache k e (clearTimeout (entries s !! e ≫= en_idleTimer) (closeWebSocketSilently sock s))
      else scheduleSessionWebSocketExpiry k e (set_entry e (with_busy false) s)
  end.

Definition lease_socket (l : lease) : nat := match l with Bare i | Reused _ _ i | Stored _ _ i => i end.
Definition lease_entry (l : lease) : option nat := match l with Bare _ => None | Reused _ e _ | Stored _ e _ => Some e end.

(** How the part of [processWebSocketStream] after the request ends: with a
    response, or with an exception.  A response: the model and the grammar tools
    of the call, the identifier and the message that [output] holds, the items the
    server gave, and whether the signal is aborted. *)
Inductive outcome :=
| Responded (m : model) (grammarToolInputProperties : gmap jstr jstr) (responseId : option jstr) (output : assistant)
    (given : list json) (aborted : bool)
| Failed.

(** What [processWebSocketStream] does with the socket it acquired: the request
    it sends, and the end of it. *)
Definition send_request (l : lease) (useCachedContext : bool) (fullBody : fields) (s : socket_pool) : socket_pool * fields :=
  match lease_entry l with
  | Some e =>
      if useCachedContext then
        let '(body, c) := buildCachedWebSocketRequestBody num_to_string (entries s !! e ≫= en_continuation) fullBody in
        (set_entry e (with_continuation c) s, body)
      else (s, fullBody)
  | None => (s, fullBody)
  end.

Definition on_entry (l : lease) (f : entry -> entry) (s : socket_pool) : socket_pool :=
  match lease_entry l with Some e => set_entry e f s | None => s end.

Definition finish_request (l : lease) (useCachedContext : bool) (fullBody : fields) (o : outcome) (s : socket_pool) : socket_pool :=
  let failed s := release l false (on_entry l (with_continuation None) s) in
  match o with
  | Responded m properties id output _ aborted =>
      if aborted then release l false s
      else match id, lease_entry l with
           | Some id, Some e =>
               if useCachedContext && truthy id then
                 match response_items num_to_string syntax_error m properties output (now s) with
                 | Ok items => release l true (set_entry e (with_continuation (Some (Continuation fullBody id items))) s)
                 | Throw _ => failed s
                 end
               else release l true s
           | _, _ => release l true s
           end
  | Failed => failed s
  end.

(** The input a request stands for on a connection with this history: by the
    documentation of the API, the conversation up to the response that
    [previous_response_id] names, followed by [input]. *)
Definition request_context (h : history) (body : fields) : option (list json) :=
  match lookup_field (js "previous_response_id") body with
  | Some (JStr id) => context ← memory h !! id; Some (context ++ body_input body)
  | Some _ => None
  | None => Some (body_input body)
  end.

(** A response enters the history, under an identifier that is new on the
    connection. *)
Definition record_response (sent : fields) (id : option jstr) (given : list json) (items : result jstr (list json)) (k : socket)
  : option socket :=
  match id with
  | None => Some k
  | Some id =>
      let h := sk_history k in
      context ← request_context h sent;
      if bool_decide (memory h !! id = None)
      then Some (Socket (sk_ready k) (sk_url k) (sk_home k)
                   (History (<[id := context ++ given]> (memory h))
                      (match items with Ok items => (given, items) :: answers h | Throw _ => answers h end)))
      else None
  end.

(** * Events *)

Inductive pool_event :=
| Acquire (url : jstr) (sessionId : option jstr) (accountId : jstr)
| Construct (r : nat) (works : bool)
| Opens (r : nat)
| Fails (r : nat)
| Cancel (r : nat)
| Resume (r : nat)
| Send (r : nat) (useCachedContext : bool) (fullBody : fields)
| Finish (r : nat) (o : outcome)
| IdleTimeout (r : nat)
| Disconnect (sock : nat) (state : ready)
| Fire (t : nat)
| CloseSessions (sessionId : option jstr)
| Wait (d : Z).

Definition set_ready (st : ready) (k : socket) : socket := Socket st (sk_url k) (sk_home k) (sk_history k).

(** [closeEntry] of [closeOpenAICodexWebSocketSessions] *)
Definition close_entry (s : socket_pool) (e : nat) : socket_pool :=
  match entries s !! e with
  | Some en => closeWebSocketSilently (en_socket en) (clearTimeout (en_idleTimer en) s)
  | None => s
  end.

Definition closeOpenAICodexWebSocketSessions (sessionId : option jstr) (s : socket_pool) : socket_pool :=
  match sessionId with
  | Some ((_ :: _) as sess) =>
      let s := foldl close_entry s (map snd (map_to_list (default ∅ (cache s !! sess)))) in
      set_cache (delete sess (cache s)) s
  | _ =>
      let s := foldl close_entry s (map_to_list (cache s) ≫= fun sm => map snd (map_to_list sm.2)) in
      set_cache ∅ s
  end.

Definition pool_step (s : socket_pool) (ev : pool_event) : option socket_pool :=
  match ev with
  | Acquire url sessionId accountId =>
      let '(s', p) := acquireWebSocket url sessionId accountId s in
      Some (set_phase (next s') p (pool_tick s'))
  | Construct r works =>
      match requests s !! r with
      | Some (Opening keep url home) =>
          if works then
            let i := next s in
            Some (set_phase r (Connecting keep i) (set_sockets (<[i := Socket CONNECTING url home no_history]> (sockets s)) (pool_tick s)))
          else Some (set_phase r Ended s)
      | _ => None
      end
  | Opens r =>
      match requests s !! r with
      | Some (Connecting keep i) =>
          if bool_decide (sk_ready <$> sockets s !! i = Some CONNECTING)
          then Some (set_phase r (Connected keep i) (set_sockets (alter (set_ready OPEN) i (sockets s)) s)) else None
      | _ => None
      end
  | Fails r =>
      match requests s !! r with
      | Some (Connecting keep i) => Some (set_phase r Ended (set_sockets (alter (set_ready CLOSED) i (sockets s)) s))
      | _ => None
      end
  | Cancel r =>
      match requests s !! r with
      | Some (Connecting keep i) => Some (set_phase r Ended (closeWebSocketSilently i s))
      | _ => None
      end
  | Resume r =>
      match requests s !! r with
      | Some (Connected keep i) => let '(s', p) := socket_connected keep i s in Some (set_phase r p s')
      | _ => None
      end
  | Send r useCachedContext fullBody =>
      match requests s !! r with
      | Some (Acquired l) =>
          let '(s', sent) := send_request l useCachedContext fullBody s in
          Some (set_phase r (Streaming l useCachedContext fullBody sent) s')
      | _ => None
      end
  | Finish r o =>
      match requests s !! r with
      | Some (Streaming l useCachedContext fullBody sent) =>
          match o with
          | Responded m properties id output given _ =>
              k ← sockets s !! lease_socket l;
              k' ← record_response sent id given (response_items num_to_string syntax_error m properties output (now s)) k;
              let s' := set_sockets (<[lease_socket l := k']> (sockets s)) s in
              Some (set_phase r Ended (finish_request l useCachedContext fullBody o s'))
          | Failed => Some (set_phase r Ended (finish_request l useCachedContext fullBody o s))
          end
      | _ => None
      end
  | IdleTimeout r =>
      match requests s !! r with
      | Some (Streaming l _ _ _) => Some (closeWebSocketSilently (lease_socket l) s)
      | _ => None
      end
  | Disconnect i st =>
      match sk_ready <$> sockets s !! i, st with
      | Some OPEN, (CLOSING | CLOSED) | Some CLOSING, CLOSED => Some (set_sockets (alter (set_ready st) i (sockets s)) s)
      | _, _ => None
      end
  | Fire t =>
      match timers s !! t with
      | Some tm =>
          if tm_due tm <=? now s
          then Some (on_expiry (tm_key tm) (tm_entry tm) (set_timers (delete t (timers s)) s)) else None
      | None => None
      end
  | CloseSessions sessionId => Some (closeOpenAICodexWebSocketSessions sessionId s)
  | Wait d =>
      if 0 <=? d then Some (Pool (sockets s) (entries s) (timers s) (cache s) (requests s) (next s) (now s + d)) else None
  end.

Fixpoint pool_run (s : socket_pool) (evs : list pool_event) : option socket_pool :=
  match evs with
  | [] => Some s
  | ev :: evs => s' ← pool_step s ev; pool_run s' evs
  end.

(** * What holds of every state *)

Definition phase_socket (p : phase) : option nat :=
  match p with
  | Connecting _ i | Connected _ i => Some i
  | Acquired l | Streaming l _ _ _ => Some (lease_socket l)
  | _ => None
  end.

Definition phase_entry (p : phase) : option nat :=
  match p with Acquired l | Streaming l _ _ _ => lease_entry l | _ => None end.

Definition lease_key (l : lease) : option key := match l with Bare _ => None | Reused k _ _ | Stored k _ _ => Some k end.

(** The key a request will keep its socket under, or has it under. *)
Definition phase_key (p : phase) : option key :=
  match p with
  | Opening keep _ _ | Connecting keep _ | Connected keep _ => keep
  | Acquired l | Streaming l _ _ _ => lease_key l
  | Ended => None
  end.

Definition home_key (k : key) : option jstr * jstr := (Some k.1, k.2).

Definition alive_state (st : ready) : bool := match st with CONNECTING | OPEN => true | _ => false end.

(** Views of a state. *)
Definition holds (s : socket_pool) (r : nat) : option nat := requests s !! r ≫= phase_socket.
Definition leases (s : socket_pool) (r : nat) : option nat := requests s !! r ≫= phase_entry.
Definition wants (s : socket_pool) (r : nat) : option key := requests s !! r ≫= phase_key.
Definition asked (s : socket_pool) (r : nat) : option (option jstr * jstr) :=
  match requests s !! r with Some (Opening _ _ home) => Some home | _ => None end.
Definition home_of (s : socket_pool) (i : nat) : option (option jstr * jstr) := sk_home <$> sockets s !! i.
Definition alive (s : socket_pool) (i : nat) : bool := default false ((alive_state ∘ sk_ready) <$> sockets s !! i).
Definition own (s : socket_pool) (e : nat) : option (nat * bool) := (fun en => (en_socket en, en_busy en)) <$> entries s !! e.
Definition idle_handle (s : socket_pool) (e : nat) : option nat := entries s !! e ≫= en_idleTimer.
Definition armed (s : socket_pool) (t : nat) : option (key * nat) := (fun tm => (tm_key tm, tm_entry tm)) <$> timers s !! t.

(** [pl_alive]: a socket that is open or opening is in the hands of a request, or
    it is the socket of an idle entry whose timer is running. *)
Record pool_ok (s : socket_pool) : Prop := PoolOk {
  pl_sockets : forall i, is_Some (home_of s i) -> (i < next s)%nat;
  pl_entries : forall e, is_Some (own s e) -> (e < next s)%nat;
  pl_requests : forall r, is_Some (requests s !! r) -> (r < next s)%nat;
  pl_handles : forall e t, idle_handle s e = Some t -> (t < next s)%nat;
  pl_timers : forall t, is_Some (armed s t) -> (t < next s)%nat;
  pl_asked : forall r home k, asked s r = Some home -> wants s r = Some k -> home = home_key k;
  pl_held : forall r i, holds s r = Some i -> is_Some (home_of s i);
  pl_keyed : forall r i k, holds s r = Some i -> wants s r = Some k -> home_of s i = Some (home_key k);
  pl_unique : forall r1 r2 i, holds s r1 = Some i -> holds s r2 = Some i -> r1 = r2;
  pl_leased : forall r e, leases s r = Some e -> exists i, own s e = Some (i, true) /\ holds s r = Some i;
  pl_bare : forall r i e b, leases s r = None -> holds s r = Some i -> own s e = Some (i, b) -> False;
  pl_distinct : forall e1 e2 i b1 b2, own s e1 = Some (i, b1) -> own s e2 = Some (i, b2) -> e1 = e2;
  pl_owned : forall e i b, own s e = Some (i, b) -> is_Some (home_of s i);
  pl_alive : forall i, alive s i = true ->
    (exists r, holds s r = Some i) \/ (exists e t k, own s e = Some (i, false) /\ armed s t = Some (k, e));
  pl_timer : forall t k e, armed s t = Some (k, e) ->
    exists i, own s e = Some (i, false) /\ idle_handle s e = Some t /\ home_of s i = Some (home_key k);
  pl_handle : forall e t k e', idle_handle s e = Some t -> armed s t = Some (k, e') -> e' = e;
  pl_cached : forall k e, cached s k = Some e ->
    exists i b, own s e = Some (i, b) /\ home_of s i = Some (home_key k) /\
      (b = true -> exists r, leases s r = Some e) /\ (b = false -> exists t k', armed s t = Some (k', e));
  pl_nonempty : forall sess m, cache s !! sess = Some m -> m ≠ ∅
}.

(** ** Changes that keep it *)

Lemma holds_phase r p s r' : holds (set_phase r p s) r' = if decide (r' = r) then phase_socket p else holds s r'.
Proof. unfold holds. simpl. rewrite lookup_insert. by repeat case_decide; subst. Qed.
Lemma leases_phase r p s r' : leases (set_phase r p s) r' = if decide (r' = r) then phase_entry p else leases s r'.
Proof. unfold leases. simpl. rewrite lookup_insert. by repeat case_decide; subst. Qed.
Lemma wants_phase r p s r' : wants (set_phase r p s) r' = if decide (r' = r) then phase_key p else wants s r'.
Proof. unfold wants. simpl. rewrite lookup_insert. by repeat case_decide; subst. Qed.
Lemma asked_phase r p s r' :
  asked (set_phase r p s) r' =
  if decide (r' = r) then match p with Opening _ _ home => Some home | _ => None end else asked s r'.
Proof. unfold asked. simpl. rewrite lookup_insert. by repeat case_decide; subst. Qed.

Lemma ok_sockets s m :
  (forall i, home_of (set_sockets m s) i = home_of s i) ->
  (forall i, alive (set_sockets m s) i = true -> alive s i = true) ->
  pool_ok s -> pool_ok (set_sockets m s).
Proof. intros Hh Ha []. constructor; intros *; repeat setoid_rewrite Hh; by eauto. Qed.

Lemma ok_entries s m :
  (forall e, own (set_entries m s) e = own s e) -> (forall e, idle_handle (set_entries m s) e = idle_handle s e) ->
  pool_ok s -> pool_ok (set_entries m s).
Proof. intros Ho Hh []. constructor; intros *; repeat setoid_rewrite Ho; repeat setoid_rewrite Hh; by eauto. Qed.

Lemma ok_cache s c :
  (forall k e, cached (set_cache c s) k = Some e -> cached s k = Some e) ->
  (forall sess m, c !! sess = Some m -> m ≠ ∅) ->
  pool_ok s -> pool_ok (set_cache c s).
Proof. intros Hc Hn []. constructor; by eauto. Qed.

Lemma ok_tick s : pool_ok s -> pool_ok (pool_tick s).
Proof. intros []. constructor; try by eauto. all: intros * H; simpl; apply Nat.lt_lt_succ_r; eauto. Qed.

Lemma ok_wait s d :
  pool_ok s -> pool_ok (Pool (sockets s) (entries s) (timers s) (cache s) (requests s) (next s) (now s + d)).
Proof. intros []. constructor; by eauto. Qed.

Lemma armed_delete t s t' : armed (set_timers (delete t (timers s)) s) t' = if decide (t' = t) then None else armed s t'.
Proof. unfold armed. simpl. rewrite lookup_delete. by repeat case_decide; subst. Qed.

(** A timer may go when its entry has neither a live socket nor a place in the
    cache. *)
Lemma ok_kill s t e :
  idle_handle s e = Some t -> (forall i b, own s e = Some (i, b) -> alive s i = false) -> (forall k, cached s k ≠ Some e) ->
  pool_ok s -> pool_ok (set_timers (delete t (timers s)) s).
Proof.
  intros He Hd Hc []. constructor; intros *; repeat setoid_rewrite armed_delete; try by eauto.
  - case_decide; [by intros []|]. by eauto.
  - intros Ha. change (alive s i = true) in Ha. destruct (pl_alive0 _ Ha) as [?|(e' & t' & k & Ho & Ht)]; [by eauto|]. right. exists e', t', k.
    case_decide; subst; [|done]. rewrite (pl_handle0 _ _ _ _ He Ht) in Ho. apply Hd in Ho. by rewrite Ho in Ha.
  - case_decide; [done|]. by eauto.
  - intros ?. case_decide; [done|]. by eauto.
  - intros Hk. destruct (pl_cached0 _ _ Hk) as (i & b & Ho & Hh & Hb & Hi). exists i, b. do 3 (split; [done|]).
    intros Hf. destruct (Hi Hf) as (t' & k' & Ht). exists t', k'. case_decide; [subst|done].
    rewrite (pl_handle0 _ _ _ _ He Ht) in Hk. by apply Hc in Hk.
Qed.

Lemma ok_phase s r p p' :
  requests s !! r = Some p ->
  phase_socket p' = phase_socket p -> phase_entry p' = phase_entry p -> phase_key p' = phase_key p ->
  (forall keep url home, p' ≠ Opening keep url home) ->
  pool_ok s -> pool_ok (set_phase r p' s).
Proof.
  intros Hr Hs He Hk Ho [].
  assert (Hh : forall r', holds (set_phase r p' s) r' = holds s r').
  { intros r'. rewrite holds_phase. case_decide; [|done]. subst. unfold holds. by rewrite Hr. }
  assert (Hl : forall r', leases (set_phase r p' s) r' = leases s r').
  { intros r'. rewrite leases_phase. case_decide; [|done]. subst. unfold leases. by rewrite Hr. }
  assert (Hw : forall r', wants (set_phase r p' s) r' = wants s r').
  { intros r'. rewrite wants_phase. case_decide; [|done]. subst. unfold wants. by rewrite Hr. }
  constructor; intros *; repeat setoid_rewrite Hh; repeat setoid_rewrite Hl; repeat setoid_rewrite Hw; try by eauto.
  - simpl. rewrite lookup_insert. case_decide; [subst|by eauto]. intros _. eauto.
  - rewrite asked_phase. case_decide; [|by eauto]. destruct p'; try done. by destruct (Ho keep url home0).
Qed.

(** A request may end when its socket is no longer alive and its entry not in
    the cache. *)
Lemma ok_end s r :
  (forall i, holds s r = Some i -> alive s i = false) ->
  (forall e k, leases s r = Some e -> cached s k ≠ Some e) ->
  is_Some (requests s !! r) ->
  pool_ok s -> pool_ok (set_phase r Ended s).
Proof.
  intros Hd Hc Hr [].
  constructor; intros *; repeat setoid_rewrite holds_phase; repeat setoid_rewrite leases_phase; repeat setoid_rewrite wants_phase;
    try by eauto.
  - simpl. rewrite lookup_insert. case_decide; subst; by eauto.
  - rewrite asked_phase. case_decide; [done|]. by eauto.
  - case_decide; [done|]. by eauto.
  - case_decide; [done|]. by eauto.
  - do 2 (case_decide; [done|]). by eauto.
  - case_decide; [done|]. by eauto.
  - case_decide; [done|]. by eauto.
  - intros Ha. change (alive s i = true) in Ha. destruct (pl_alive0 _ Ha) as [[r' H]|?]; [|by eauto]. left. exists r'.
    case_decide; [|done]. subst. apply Hd in H. congruence.
  - intros Hk. change (cached s k = Some e) in Hk. destruct (pl_cached0 _ _ Hk) as (i & b & Ho & Hh & Hb & Hi).
    exists i, b. do 2 (split; [done|]). split; [|done]. intros Hf. destruct (Hb Hf) as [r' H]. exists r'.
    case_decide; [|done]. subst. by destruct (Hc _ k H).
Qed.

Lemma fresh_request s : pool_ok s -> requests s !! next s = None.
Proof. intros []. destruct (requests s !! next s) eqn:H; [|done]. pose proof (pl_requests0 (next s) ltac:(by eauto)). lia. Qed.

Lemma ok_new s p :
  phase_socket p = None -> phase_entry p = None ->
  (forall keep url home k, p = Opening keep url home -> keep = Some k -> home = home_key k) ->
  pool_ok s -> pool_ok (set_phase (next s) p (pool_tick s)).
Proof.
  intros Hs He Hk Hok. pose proof (fresh_request s Hok) as Hf. apply ok_tick in Hok as [].
  assert (Hh : forall r', holds (set_phase (next s) p (pool_tick s)) r' = holds s r').
  { intros r'. rewrite holds_phase. case_decide; [|done]. subst. unfold holds. by rewrite Hf. }
  assert (Hl : forall r', leases (set_phase (next s) p (pool_tick s)) r' = leases s r').
  { intros r'. rewrite leases_phase. case_decide; [|done]. subst. unfold leases. by rewrite Hf. }
  constructor; intros *; repeat setoid_rewrite Hh; repeat setoid_rewrite Hl; repeat setoid_rewrite wants_phase; try by eauto.
  - simpl. rewrite lookup_insert. case_decide; [subst; lia|]. by eauto.
  - rewrite asked_phase. case_decide; [|by eauto]. destruct p; try done. simpl. naive_solver.
  - intros H. case_decide; [|by eauto]. subst. unfold holds in H. by rewrite Hf in H.
Qed.

Lemma ok_construct s r keep url home :
  requests s !! r = Some (Opening keep url home) -> pool_ok s ->
  pool_ok (set_phase r (Connecting keep (next s)) (set_sockets (<[next s := Socket CONNECTING url home no_history]> (sockets s)) (pool_tick s))).
Proof.
  intros Hr Hok. set (s' := set_phase _ _ _).
  assert (Hh : forall i, home_of s' i = if decide (i = next s) then Some home else home_of s i).
  { intros i. unfold home_of, s'. simpl. rewrite lookup_insert. by repeat case_decide; subst. }
  assert (Ha : forall i, alive s' i = if decide (i = next s) then true else alive s i).
  { intros i. unfold alive, s'. simpl. rewrite lookup_insert. by repeat case_decide; subst. }
  assert (Hl : forall r', leases s' r' = leases s r').
  { intros r'. unfold s'. rewrite leases_phase. case_decide; [|done]. subst. unfold leases. by rewrite Hr. }
  assert (Hw : forall r', wants s' r' = wants s r').
  { intros r'. unfold s'. rewrite wants_phase. case_decide; [|done]. subst. unfold wants. by rewrite Hr. }
  assert (Hf : home_of s (next s) = None).
  { destruct (home_of s (next s)) eqn:H; [|done]. pose proof (pl_sockets s Hok (next s) ltac:(by eauto)). lia. }
  assert (Hhr : forall r', holds s' r' = if decide (r' = r) then Some (next s) else holds s r').
  { intros r'. unfold s'. by rewrite holds_phase. }
  assert (Hk : forall k, keep = Some k -> home = home_key k).
  { intros k ->. apply (pl_asked s Hok r home k); [unfold asked|unfold wants]; by rewrite Hr. }
  assert (Hlr : leases s r = None) by (unfold leases; by rewrite Hr).
  assert (Hfh : forall r', holds s r' ≠ Some (next s)).
  { intros r' H. apply (pl_held s Hok) in H as [? H]. congruence. }
  assert (Hhn : holds s r = None) by (unfold holds; by rewrite Hr).
  assert (Hn : forall n, (n < next s)%nat -> (n < next s')%nat) by (intros n; simpl; lia).
  destruct Hok. constructor; intros *; repeat setoid_rewrite Hh; repeat setoid_rewrite Ha;
    repeat setoid_rewrite Hl; repeat setoid_rewrite Hw; repeat setoid_rewrite Hhr; try by eauto.
  - case_decide; [subst; simpl; lia|]. eauto.
  - simpl. rewrite lookup_insert. case_decide; [subst|by eauto]. intros _. eauto.
  - unfold s'. rewrite asked_phase. case_decide; [done|]. by eauto.
  - repeat case_decide; subst; try by eauto. congruence.
  - repeat case_decide; subst; intros Hx Hy; [|congruence|by apply Hfh in Hx|by eauto].
    unfold wants in Hy. rewrite Hr in Hy. apply Hk in Hy. by subst.
  - repeat case_decide; subst; intros Hx Hy; simplify_eq; [done|by apply Hfh in Hy|by apply Hfh in Hx|by eauto].
  - intros H. destruct (pl_leased0 _ _ H) as (i & ? & ?). exists i. split; [done|]. case_decide; [|done]. congruence.
  - case_decide; [|by eauto]. intros _ [= <-] Hx%pl_owned0. rewrite Hf in Hx. by destruct Hx.
  - intros H%pl_owned0. case_decide; [by eauto|done].
  - case_decide; [intros _; left; exists r; rewrite decide_True by done; congruence|]. intros Hx. destruct (pl_alive0 _ Hx) as [[r' Hr']|?]; [|by eauto].
    left. exists r'. case_decide; [|done]. congruence.
  - intros H. destruct (pl_timer0 _ _ _ H) as (i & ? & ? & Hi). exists i. do 2 (split; [done|]). case_decide; [|done]. congruence.
  - intros H. destruct (pl_cached0 _ _ H) as (i & b & ? & Hi & ?). exists i, b. split; [done|]. split; [|done].
    case_decide; [|done]. congruence.
Qed.

Lemma cached_keep s k e k' : cached (set_cache (keep_account k e (cache s)) s) k' = if decide (k' = k) then Some e else cached s k'.
Proof.
  unfold cached, keep_account. simpl. destruct k as [a b], k' as [a' b']. simpl. rewrite lookup_insert.
  destruct (decide (a = a')) as [->|].
  - simpl. rewrite lookup_insert. repeat case_decide; simplify_eq; try done. by destruct (cache s !! a').
  - case_decide; [congruence|done].
Qed.

Lemma ok_store s r k i :
  requests s !! r = Some (Connected (Some k) i) -> pool_ok s ->
  pool_ok (set_phase r (socket_connected (Some k) i s).2 (socket_connected (Some k) i s).1).
Proof.
  intros Hr Hok. set (s' := set_phase _ _ _).
  assert (Ho : forall e, own s' e = if decide (e = next s) then Some (i, true) else own s e).
  { intros e. unfold own, s'. simpl. rewrite lookup_insert. by repeat case_decide; subst. }
  assert (Hd : forall e, idle_handle s' e = if decide (e = next s) then None else idle_handle s e).
  { intros e. unfold idle_handle, s'. simpl. rewrite lookup_insert. by repeat case_decide; subst. }
  assert (Hh : forall r', holds s' r' = holds s r').
  { intros r'. unfold s'. rewrite holds_phase. case_decide; [|done]. subst. unfold holds. by rewrite Hr. }
  assert (Hl : forall r', leases s' r' = if decide (r' = r) then Some (next s) else leases s r').
  { intros r'. unfold s'. by rewrite leases_phase. }
  assert (Hw : forall r', wants s' r' = wants s r').
  { intros r'. unfold s'. rewrite wants_phase. case_decide; [|done]. subst. unfold wants. by rewrite Hr. }
  assert (Hc : forall k', cached s' k' = if decide (k' = k) then Some (next s) else cached s k').
  { intros k'. apply (cached_keep s). }
  assert (Hi : holds s r = Some i) by (unfold holds; by rewrite Hr).
  assert (Hlr : leases s r = None) by (unfold leases; by rewrite Hr).
  assert (Hhome : home_of s i = Some (home_key k)).
  { apply (pl_keyed s Hok r); [done|]. unfold wants. by rewrite Hr. }
  assert (Hf : own s (next s) = None).
  { destruct (own s (next s)) eqn:H; [|done]. pose proof (pl_entries s Hok (next s) ltac:(by eauto)). lia. }
  assert (Hn : forall n, (n < next s)%nat -> (n < next s')%nat) by (intros n; simpl; lia).
  destruct Hok. constructor; intros *; repeat setoid_rewrite Ho; repeat setoid_rewrite Hd; repeat setoid_rewrite Hh;
    repeat setoid_rewrite Hl; repeat setoid_rewrite Hw; try by eauto.
  - case_decide; [subst; simpl; lia|]. eauto.
  - simpl. rewrite lookup_insert. case_decide; [subst|by eauto]. intros _. eauto.
  - case_decide; [done|]. eauto.
  - unfold s'. rewrite asked_phase. case_decide; [done|]. by eauto.
  - case_decide; [subst; intros [= <-]; exists i; by rewrite decide_True|]. intros Hx.
    destruct (pl_leased0 _ _ Hx) as (j & ? & ?). exists j. case_decide; [congruence|done].
  - case_decide; [done|]. case_decide; [|by eauto]. intros Hx Hy [= -> <-]. by destruct (pl_unique0 _ _ _ Hy Hi).
  - repeat case_decide; subst; try by eauto; intros Hx Hy; simplify_eq; exfalso; by eauto.
  - case_decide; [intros [= <- <-]; by eauto|]. by eauto.
  - intros H. destruct (pl_alive0 _ H) as [?|(e & t & k' & ? & ?)]; [by eauto|]. right. exists e, t, k'. case_decide; [congruence|done].
  - intros H. destruct (pl_timer0 _ _ _ H) as (j & ? & ? & ?). exists j. case_decide; [congruence|done].
  - case_decide; [done|]. by eauto.
  - rewrite Hc. case_decide.
    + intros [= <-]. subst. exists i, true. rewrite decide_True by done. do 2 (split; [done|]). split; [|done].
      intros _. exists r. by rewrite decide_True.
    + intros H'. destruct (pl_cached0 _ _ H') as (j & b & ? & ? & Hb & Hi'). exists j, b. case_decide; [congruence|].
      do 2 (split; [done|]). split; [|done]. intros Hf'. destruct (Hb Hf') as [r' ?]. exists r'. case_decide; congruence.
  - unfold s'. simpl. unfold keep_account. rewrite lookup_insert. case_decide; [|by eauto]. intros [= <-]. apply insert_non_empty.
Qed.

(** What a new request changes in the views when it takes the idle entry [e],
    whose timer [t0] is cleared. *)
Record lends (s s' : socket_pool) (k : key) (e i t0 : nat) : Prop := Lends {
  ld_own : forall e', own s' e' = if decide (e' = e) then Some (i, true) else own s e';
  ld_handle : forall e', idle_handle s' e' = if decide (e' = e) then None else idle_handle s e';
  ld_armed : forall t, armed s' t = if decide (t = t0) then None else armed s t;
  ld_home : forall i, home_of s' i = home_of s i;
  ld_alive : forall i, alive s' i = alive s i;
  ld_holds : forall r, holds s' r = if decide (r = next s) then Some i else holds s r;
  ld_leases : forall r, leases s' r = if decide (r = next s) then Some e else leases s r;
  ld_wants : forall r, wants s' r = if decide (r = next s) then Some k else wants s r;
  ld_asked : forall r, asked s' r = if decide (r = next s) then None else asked s r;
  ld_requests : forall r, is_Some (requests s' !! r) -> r = next s \/ is_Some (requests s !! r);
  ld_cache : cache s' = cache s;
  ld_next : next s' = S (next s)
}.

Lemma idle_free s e i : pool_ok s -> own s e = Some (i, false) -> forall r, holds s r ≠ Some i.
Proof.
  intros Hok Ho r H. destruct (leases s r) as [e'|] eqn:H'; [|by eapply (pl_bare s Hok)].
  destruct (pl_leased s Hok _ _ H') as (j & H1 & H2). assert (j = i) by congruence. subst j.
  assert (e' = e) by (by eapply (pl_distinct s Hok)). congruence.
Qed.

Lemma ok_lends s s' k e i t0 k0 :
  lends s s' k e i t0 -> own s e = Some (i, false) -> home_of s i = Some (home_key k) -> armed s t0 = Some (k0, e) ->
  pool_ok s -> pool_ok s'.
Proof.
  intros [Ho Hd Ha Hh Hal Hhr Hl Hw Hq Hr Hc Hnext] Hown Hhome Ht0 Hok.
  pose proof (idle_free s e i Hok Hown) as Hfree.
  assert (Hother : forall t k', armed s t = Some (k', e) -> t = t0).
  { intros t k' H. destruct (pl_timer s Hok _ _ _ H) as (? & _ & ? & _), (pl_timer s Hok _ _ _ Ht0) as (? & _ & ? & _). congruence. }
  assert (Hf : holds s (next s) = None) by (unfold holds; by rewrite fresh_request).
  assert (Hn : forall n, (n < next s)%nat -> (n < next s')%nat) by (intros n; rewrite Hnext; lia).
  assert (Hck : forall k', cached s' k' = cached s k') by (intros; unfold cached; by rewrite Hc).
  destruct Hok. constructor; intros *; repeat setoid_rewrite Ho; repeat setoid_rewrite Hd; repeat setoid_rewrite Ha;
    repeat setoid_rewrite Hh; repeat setoid_rewrite Hal; repeat setoid_rewrite Hhr; repeat setoid_rewrite Hl;
    repeat setoid_rewrite Hw; rewrite ?Hck, ?Hq; try by eauto.
  - case_decide; subst; eauto.
  - intros [->|H]%Hr; [rewrite Hnext; lia|]. eauto.
  - case_decide; [done|]. eauto.
  - case_decide; [by intros []|]. eauto.
  - case_decide; [done|]. eauto.
  - case_decide; [intros [= <-]|]; eauto.
  - case_decide; [congruence|]. eauto.
  - repeat case_decide; subst; intros Hx Hy; simplify_eq; try done; [by apply Hfree in Hy|by apply Hfree in Hx|by eauto].
  - case_decide; [intros [= <-]; exists i; by rewrite decide_True|]. intros Hx. destruct (pl_leased0 _ _ Hx) as (j & ? & ?).
    exists j. case_decide; [congruence|done].
  - case_decide; [done|]. case_decide; [|by eauto]. intros ? Hx [= ->]. by apply Hfree in Hx.
  - repeat case_decide; subst; intros Hx Hy; simplify_eq; try done; eauto.
  - case_decide; [intros [= <- <-]|]; eauto.
  - intros Hx. destruct (decide (i0 = i)) as [->|]; [left; exists (next s); by rewrite decide_True|].
    destruct (pl_alive0 _ Hx) as [[r ?]|(e' & t & k' & ? & ?)].
    + left. exists r. case_decide; [congruence|done].
    + right. exists e', t, k'. do 2 (case_decide; [congruence|]). done.
  - case_decide; [done|]. intros Hx. destruct (pl_timer0 _ _ _ Hx) as (j & ? & ? & ?). exists j. case_decide; [|done].
    subst. by apply Hother in Hx.
  - case_decide; [done|]. case_decide; [done|]. eauto.
  - intros Hx. destruct (pl_cached0 _ _ Hx) as (j & b & Hj & Hhj & Hb & Hi). case_decide.
    + exists i, true. split; [done|]. split; [congruence|]. split; [|done]. intros _. exists (next s). rewrite decide_True by done. congruence.
    + exists j, b. do 2 (split; [done|]). split; intros Hx'.
      * destruct (Hb Hx') as [r Hr']. exists r. case_decide; [|done]. subst. unfold leases in Hr'. destruct (pl_leased0 _ _ Hr') as (? & _ & ?). congruence.
      * destruct (Hi Hx') as (t & k' & Ht). exists t, k'. case_decide; [congruence|done].
  - rewrite Hc. eauto.
Qed.

(** What changes when the request [r] gives its entry back: a new timer runs. *)
Record returns (s s' : socket_pool) (k : key) (r e i : nat) : Prop := Returns {
  rt_own : forall e', own s' e' = if decide (e' = e) then Some (i, false) else own s e';
  rt_handle : forall e', idle_handle s' e' = if decide (e' = e) then Some (next s) else idle_handle s e';
  rt_armed : forall t, armed s' t = if decide (t = next s) then Some (k, e) else armed s t;
  rt_home : forall i, home_of s' i = home_of s i;
  rt_alive : forall i, alive s' i = alive s i;
  rt_holds : forall r', holds s' r' = if decide (r' = r) then None else holds s r';
  rt_leases : forall r', leases s' r' = if decide (r' = r) then None else leases s r';
  rt_wants : forall r', wants s' r' = if decide (r' = r) then None else wants s r';
  rt_asked : forall r', asked s' r' = if decide (r' = r) then None else asked s r';
  rt_requests : forall r', is_Some (requests s' !! r') -> is_Some (requests s !! r');
  rt_cache : cache s' = cache s;
  rt_next : next s' = S (next s)
}.

Lemma busy_unarmed s e i t k : pool_ok s -> own s e = Some (i, true) -> armed s t ≠ Some (k, e).
Proof. intros Hok Ho Ha. destruct (pl_timer s Hok _ _ _ Ha) as (? & ? & _). congruence. Qed.

Lemma ok_returns s s' k r e i :
  returns s s' k r e i -> leases s r = Some e -> holds s r = Some i -> wants s r = Some k ->
  pool_ok s -> pool_ok s'.
Proof.
  intros [Ho Hd Ha Hh Hal Hhr Hl Hw Hq Hr Hc Hnext] Hlr Hhi Hwr Hok.
  destruct (pl_leased s Hok _ _ Hlr) as (i' & Hown & Hi'). assert (i' = i) by congruence. subst i'.
  pose proof (fun t k => busy_unarmed s e i t k Hok Hown) as Hun.
  assert (Hnh : forall e, idle_handle s e ≠ Some (next s)) by (intros e' H%(pl_handles s Hok); lia).
  assert (Hna : armed s (next s) = None).
  { destruct (armed s (next s)) eqn:H; [|done]. pose proof (pl_timers s Hok (next s) ltac:(by eauto)). lia. }
  assert (Hn : forall n, (n < next s)%nat -> (n < next s')%nat) by (intros n; rewrite Hnext; lia).
  assert (Hck : forall k', cached s' k' = cached s k') by (intros; unfold cached; by rewrite Hc).
  destruct Hok. constructor; intros *; repeat setoid_rewrite Ho; repeat setoid_rewrite Hd; repeat setoid_rewrite Ha;
    repeat setoid_rewrite Hh; repeat setoid_rewrite Hal; repeat setoid_rewrite Hhr; repeat setoid_rewrite Hl;
    repeat setoid_rewrite Hw; rewrite ?Hck, ?Hq; try by eauto.
  - case_decide; subst; eauto.
  - case_decide; [intros [= <-]; rewrite Hnext; lia|]. eauto.
  - case_decide; [rewrite Hnext; lia|]. eauto.
  - case_decide; [done|]. eauto.
  - case_decide; [done|]. eauto.
  - case_decide; [done|]. eauto.
  - do 2 (case_decide; [done|]). eauto.
  - case_decide; [done|]. intros Hx. destruct (pl_leased0 _ _ Hx) as (j & ? & ?). exists j. case_decide; [|done].
    subst. assert (j = i) by congruence. subst. by destruct H; eapply pl_unique0.
  - repeat case_decide; intros Hx Hy; try done; [intros [= -> <-]|]; by eauto.
  - repeat case_decide; subst; intros Hx Hy; simplify_eq; try done; eauto.
  - case_decide; [intros [= <- <-]|]; eauto.
  - intros Hx. destruct (decide (i0 = i)) as [->|]; [right; exists e, (next s), k; by rewrite !decide_True|].
    destruct (pl_alive0 _ Hx) as [[r' ?]|(e' & t & k' & ? & ?)].
    + left. exists r'. case_decide; [congruence|done].
    + right. exists e', t, k'. do 2 (case_decide; [congruence|]). done.
  - case_decide; [intros [= <- <-]; exists i; rewrite !decide_True by done; subst; by eauto 6|]. intros Hx.
    destruct (pl_timer0 _ _ _ Hx) as (j & ? & ? & ?). exists j. case_decide; [|done]. subst. by apply Hun in Hx.
  - repeat case_decide; subst; intros Hx Hy; simplify_eq; try done; eauto. by apply Hnh in Hx.
  - intros Hx. destruct (pl_cached0 _ _ Hx) as (j & b & Hj & Hhj & Hb & Hi). case_decide.
    + exists i, false. split; [done|]. split; [congruence|]. split; [done|]. intros _. exists (next s), k. rewrite decide_True by done. congruence.
    + exists j, b. do 2 (split; [done|]). split; intros Hx'.
      * destruct (Hb Hx') as [r' Hr']. exists r'. case_decide; [congruence|done].
      * destruct (Hi Hx') as (t & k' & Ht). exists t, k'. case_decide; [congruence|done].
  - rewrite Hc. eauto.
Qed.

(** ** The operations in these terms *)

Lemma home_alter f i s i' :
  (forall k, sk_home (f k) = sk_home k) -> home_of (set_sockets (alter f i (sockets s)) s) i' = home_of s i'.
Proof.
  intros Hf. unfold home_of. simpl. destruct (decide (i' = i)) as [->|]; [|by rewrite lookup_alter_ne].
  rewrite lookup_alter_eq. destruct (sockets s !! i) as [k|]; [|done]. simpl. by rewrite Hf.
Qed.

Lemma alive_alter f i s i' :
  (forall k, alive_state (sk_ready (f k)) = false) ->
  alive (set_sockets (alter f i (sockets s)) s) i' = if decide (i' = i) then false else alive s i'.
Proof.
  intros Hf. unfold alive. simpl. case_decide; [subst|by rewrite lookup_alter_ne].
  rewrite lookup_alter_eq. destruct (sockets s !! i) as [k|]; [|done]. simpl. by rewrite Hf.
Qed.

Lemma close_dead k : alive_state (sk_ready (close_socket k)) = false.
Proof. unfold close_socket. by destruct (sk_ready k). Qed.

Lemma ok_dying f i s :
  (forall k, sk_home (f k) = sk_home k) -> (forall k, alive_state (sk_ready (f k)) = false) ->
  pool_ok s -> pool_ok (set_sockets (alter f i (sockets s)) s).
Proof.
  intros Hh Hf. apply ok_sockets; [intros i'; by apply home_alter|]. intros i'. rewrite alive_alter by done. by case_decide.
Qed.

Lemma alive_close i s i' : alive (closeWebSocketSilently i s) i' = if decide (i' = i) then false else alive s i'.
Proof. apply alive_alter, close_dead. Qed.

Lemma ok_close i s : pool_ok s -> pool_ok (closeWebSocketSilently i s).
Proof. apply ok_dying; [done|apply close_dead]. Qed.

Lemma cached_drop s k k' : cached (set_cache (drop_account k (cache s)) s) k' = if decide (k' = k) then None else cached s k'.
Proof.
  unfold cached, drop_account. simpl. destruct k as [a b], k' as [a' b']. simpl. destruct (cache s !! a) as [m|] eqn:Ha.
  - case_bool_decide as Hm.
    + rewrite lookup_delete. destruct (decide (a = a')) as [->|]; [|case_decide; [congruence|done]].
      rewrite Ha. simpl. case_decide as Hd; [done|]. symmetry. assert (b' ≠ b) by congruence.
      rewrite <-(lookup_delete_ne m b b') by done. by rewrite Hm.
    + rewrite lookup_insert. destruct (decide (a = a')) as [->|]; [|case_decide; [congruence|done]].
      rewrite Ha. simpl. rewrite lookup_delete. repeat case_decide; congruence.
  - case_decide; [|done]. simplify_eq. by rewrite Ha.
Qed.

Lemma ok_drop s k : pool_ok s -> pool_ok (set_cache (drop_account k (cache s)) s).
Proof.
  intros Hok. apply ok_cache; [|..|done].
  - intros k' e. rewrite cached_drop. by case_decide.
  - intros sess m. unfold drop_account. destruct (cache s !! k.1) as [m'|] eqn:Hk; [|apply (pl_nonempty s Hok)].
    case_bool_decide as Hm.
    + rewrite lookup_delete. case_decide; [done|]. apply (pl_nonempty s Hok).
    + rewrite lookup_insert. case_decide; [by intros [= <-]|]. apply (pl_nonempty s Hok).
Qed.

Lemma cached_uncache k e s k' :
  cached (uncache k e s) k' = if decide (k' = k /\ cached s k = Some e) then None else cached s k'.
Proof.
  unfold uncache. case_bool_decide as H; [|case_decide; naive_solver]. rewrite cached_drop. repeat case_decide; naive_solver.
Qed.

Lemma ok_uncache k e s : pool_ok s -> pool_ok (uncache k e s).
Proof. unfold uncache. case_bool_decide; [apply ok_drop|done]. Qed.

(** An entry is only cached under its own key. *)
Lemma cached_home s k k' e i b : pool_ok s -> cached s k = Some e -> own s e = Some (i, b) -> home_of s i = Some (home_key k') -> k = k'.
Proof.
  intros Hok Hk Ho Hh. destruct (pl_cached s Hok _ _ Hk) as (j & b' & H1 & H2 & _). assert (j = i) by congruence. subst.
  destruct k, k'. unfold home_key in *. simpl in *. congruence.
Qed.

Lemma ok_clear s e :
  (forall i b, own s e = Some (i, b) -> alive s i = false) -> (forall k, cached s k ≠ Some e) ->
  pool_ok s -> pool_ok (clearTimeout (idle_handle s e) s).
Proof. intros Hd Hc. destruct (idle_handle s e) as [t|] eqn:He; [|done]. by apply (ok_kill s t e). Qed.

Lemma handle_clear t s e : idle_handle (clearTimeout t s) e = idle_handle s e.
Proof. by destruct t. Qed.

Lemma set_timers_id s : set_timers (timers s) s = s.
Proof. by destruct s. Qed.

(** The handle of a busy entry is that of a timer that is gone. *)
Lemma clear_busy s e i : pool_ok s -> own s e = Some (i, true) -> clearTimeout (idle_handle s e) s = s.
Proof.
  intros Hok Ho. destruct (idle_handle s e) as [t|] eqn:He; [|done]. simpl. rewrite delete_id; [apply set_timers_id|].
  destruct (timers s !! t) as [tm|] eqn:Ht; [|done].
  assert (Ha : armed s t = Some (tm_key tm, tm_entry tm)) by (unfold armed; by rewrite Ht).
  pose proof (pl_handle s Hok _ _ _ _ He Ha) as Hte. rewrite Hte in Ha. by apply (busy_unarmed s e i t _ Hok Ho) in Ha.
Qed.

Lemma own_alter f e s e' :
  own (set_entry e f s) e' = if decide (e' = e) then (fun en => (en_socket (f en), en_busy (f en))) <$> entries s !! e else own s e'.
Proof.
  unfold own. simpl. case_decide; [subst; rewrite lookup_alter_eq; by destruct (entries s !! e)|by rewrite lookup_alter_ne].
Qed.

Lemma handle_alter f e s e' :
  idle_handle (set_entry e f s) e' = if decide (e' = e) then entries s !! e ≫= (en_idleTimer ∘ f) else idle_handle s e'.
Proof.
  unfold idle_handle. simpl. case_decide; [subst; rewrite lookup_alter_eq; by destruct (entries s !! e)|by rewrite lookup_alter_ne].
Qed.

Lemma ok_untimed s e : (forall t k, armed s t ≠ Some (k, e)) -> pool_ok s -> pool_ok (set_entry e (with_timer None) s).
Proof.
  intros Ha Hok.
  assert (Ho : forall e', own (set_entry e (with_timer None) s) e' = own s e').
  { intros e'. rewrite own_alter. case_decide; [|done]. subst. unfold own. by destruct (entries s !! e). }
  assert (Hd : forall e', idle_handle (set_entry e (with_timer None) s) e' = if decide (e' = e) then None else idle_handle s e').
  { intros e'. rewrite handle_alter. case_decide; [|done]. by destruct (entries s !! e). }
  destruct Hok. constructor; intros *; repeat setoid_rewrite Ho; repeat setoid_rewrite Hd; try by eauto.
  - case_decide; [done|]. eauto.
  - intros Hx. destruct (pl_timer0 _ _ _ Hx) as (i & ? & ? & ?). exists i. case_decide; [|done]. subst. by apply Ha in Hx.
  - case_decide; [done|]. eauto.
Qed.

Lemma ok_continuation s e c : pool_ok s -> pool_ok (set_entry e (with_continuation c) s).
Proof.
  apply ok_entries; intros e'; fold (set_entry e (with_continuation c) s).
  - rewrite own_alter. case_decide; [|done]. subst. unfold own. by destruct (entries s !! e).
  - rewrite handle_alter. case_decide; [|done]. subst. unfold idle_handle. by destruct (entries s !! e).
Qed.

Lemma lends_reuse s k e en t0 :
  entries s !! e = Some en -> en_idleTimer en = Some t0 ->
  lends s (set_phase (next s) (Acquired (Reused k e (en_socket en)))
    (pool_tick (set_entry e (with_busy true) (set_entry e (with_timer None) (clearTimeout (en_idleTimer en) s))))) k e (en_socket en) t0.
Proof.
  intros He Ht. rewrite Ht. constructor; try done.
  - intros e'. unfold own. simpl. destruct (decide (e' = e)) as [->|]; [by rewrite !lookup_alter_eq, He|by rewrite !lookup_alter_ne].
  - intros e'. unfold idle_handle. simpl. destruct (decide (e' = e)) as [->|]; [by rewrite !lookup_alter_eq, He|by rewrite !lookup_alter_ne].
  - apply armed_delete.
  - intros r. by rewrite holds_phase.
  - intros r. by rewrite leases_phase.
  - intros r. by rewrite wants_phase.
  - intros r. by rewrite asked_phase.
  - intros r. simpl. rewrite lookup_insert. case_decide; [by left|by right].
Qed.

Lemma ok_reuse s k e en :
  cached s k = Some e -> entries s !! e = Some en -> en_busy en = false -> pool_ok s ->
  pool_ok (set_phase (next s) (Acquired (Reused k e (en_socket en)))
    (pool_tick (set_entry e (with_busy true) (set_entry e (with_timer None) (clearTimeout (en_idleTimer en) s))))).
Proof.
  intros Hk He Hb Hok. destruct (pl_cached s Hok _ _ Hk) as (i & b & Hown & Hhome & _ & Harm).
  assert (b = false /\ en_socket en = i) as [-> Hi] by (unfold own in Hown; rewrite He in Hown; simpl in Hown; split; congruence).
  destruct (Harm eq_refl) as (t0 & k0 & Ht0). destruct (pl_timer s Hok _ _ _ Ht0) as (? & _ & Hd0 & _).
  assert (Hen : en_idleTimer en = Some t0) by (unfold idle_handle in Hd0; by rewrite He in Hd0).
  pose proof (lends_reuse s k e en t0 He Hen) as H. subst i. by eapply ok_lends.
Qed.

(** An idle entry goes: its socket is closed, its key free, its timer cleared. *)
Lemma ok_discard s k e en :
  cached s k = Some e -> entries s !! e = Some en -> pool_ok s ->
  pool_ok (discard k (en_socket en) (set_entry e (with_timer None) (clearTimeout (en_idleTimer en) s))).
Proof.
  intros Hk He Hok.
  assert (Hown : own s e = Some (en_socket en, en_busy en)) by (unfold own; by rewrite He).
  pose proof (pl_cached s Hok _ _ Hk) as (i & b & Ho & Hh & _). assert (i = en_socket en) by congruence. subst i.
  set (s1 := discard k (en_socket en) s).
  assert (Hok1 : pool_ok s1) by (apply ok_drop, ok_close, Hok).
  assert (Hc : forall k', cached s1 k' ≠ Some e).
  { intros k'. change (cached s1 k') with (cached (set_cache (drop_account k (cache s)) s) k'). rewrite cached_drop.
    case_decide as Hd; [done|]. intros Hk'. by destruct (cached_home s k' k e _ _ Hok Hk' Ho). }
  assert (Hok2 : pool_ok (clearTimeout (idle_handle s1 e) s1)).
  { apply ok_clear; [|done|done]. intros i b' Hi. change (own s e = Some (i, b')) in Hi. assert (i = en_socket en) by congruence.
    subst. change (alive (closeWebSocketSilently (en_socket en) s) (en_socket en) = false). rewrite alive_close. by rewrite decide_True. }
  assert (Hdis : discard k (en_socket en) (set_entry e (with_timer None) (clearTimeout (en_idleTimer en) s)) =
          set_entry e (with_timer None) (clearTimeout (idle_handle s1 e) s1)).
  { change (idle_handle s1 e) with (idle_handle s e). unfold idle_handle. rewrite He. simpl. by destruct (en_idleTimer en). }
  rewrite Hdis. apply ok_untimed; [|done]. intros t k' Ha.
  destruct (pl_timer _ Hok2 _ _ _ Ha) as (_ & _ & Hd & _).
  rewrite handle_clear in Hd. rewrite Hd in Ha.
  change (armed (set_timers (delete t (timers s1)) s1) t = Some (k', e)) in Ha.
  by rewrite armed_delete, decide_True in Ha.
Qed.

Lemma ok_acquire url sess acc s :
  pool_ok s -> let '(s', p) := acquireWebSocket url sess acc s in pool_ok (set_phase (next s') p (pool_tick s')).
Proof.
  intros Hok. unfold acquireWebSocket.
  assert (Hnone : forall home s, pool_ok s -> pool_ok (set_phase (next s) (Opening None url home) (pool_tick s))).
  { intros home s0 H0. apply ok_new; [done|done| |done]. intros. by simplify_eq. }
  destruct sess as [[|c sess]|]; [by apply Hnone| |by apply Hnone]. set (k := (c :: sess, acc)).
  assert (Hconnect : forall s, pool_ok s -> pool_ok (set_phase (next s) (Opening (Some k) url (Some (c :: sess), acc)) (pool_tick s))).
  { intros s0 H0. apply ok_new; [done|done| |done]. intros. by simplify_eq. }
  destruct (cached s k) as [e|] eqn:Hk; [|by apply Hconnect].
  destruct (entries s !! e) as [en|] eqn:He; [|by apply Hconnect].
  set (s1 := set_entry e _ _). destruct (negb _ && negb _ && _) eqn:Hlend.
  - bool_to_prop. assert (Hn : next (set_entry e (with_busy true) s1) = next s) by (unfold s1; by destruct (en_idleTimer en)).
    rewrite Hn. by apply ok_reuse.
  - destruct (en_busy en) eqn:Hb; cbn [negb andb] in *.
    + apply Hnone. unfold s1.
      assert (Ho : own s e = Some (en_socket en, true)) by (unfold own; rewrite He; simpl; by rewrite Hb).
      pose proof (clear_busy s e _ Hok Ho) as Hc. unfold idle_handle in Hc. rewrite He in Hc. simpl in Hc. rewrite Hc.
      apply ok_untimed; [|done]. intros t k'. by apply (busy_unarmed s e (en_socket en)).
    + pose proof (ok_discard s k e en Hk He Hok) as Hd. fold s1 in Hd. apply Hconnect.
      destruct (isWebSocketSessionExpired _ en) eqn:Hx; cbn [negb andb] in *.
      * destruct (negb _); [|done]. by apply ok_drop, ok_close.
      * destruct (reusable (en_socket en) s1); [done|]. done.
Qed.

(** What [schedule] leaves of the state of a busy entry that becomes idle. *)
Lemma schedule_busy s k e en :
  pool_ok s -> entries s !! e = Some en -> en_busy en = true ->
  scheduleSessionWebSocketExpiry k e (set_entry e (with_busy false) s) =
  Pool (sockets s) (<[e := with_timer (Some (next s)) (with_busy false en)]> (entries s))
    (<[next s := Timer k e (now s + SESSION_WEBSOCKET_CACHE_TTL_MS)]> (timers s)) (cache s) (requests s) (S (next s)) (now s).
Proof.
  intros Hok He Hb. unfold scheduleSessionWebSocketExpiry. set (s1 := set_entry e (with_busy false) s).
  assert (Hl : entries s1 !! e = Some (with_busy false en)) by (unfold s1; simpl; by rewrite lookup_alter_eq, He).
  rewrite Hl. cbn [en_idleTimer with_busy].
  assert (Ho : own s e = Some (en_socket en, true)) by (unfold own; rewrite He; simpl; by rewrite Hb).
  pose proof (clear_busy s e _ Hok Ho) as Hc. unfold idle_handle in Hc. rewrite He in Hc. simpl in Hc.
  assert (Hc1 : clearTimeout (en_idleTimer en) s1 = s1).
  { unfold s1. destruct (en_idleTimer en) as [t|]; [|done]. apply (f_equal timers) in Hc. simpl in Hc. unfold set_entry, clearTimeout, set_timers, set_entries.
    simpl. by rewrite Hc. }
  rewrite Hc1. unfold set_entry, set_timers, set_entries, pool_tick. simpl. f_equal.
  apply map_eq. intros e'. destruct (decide (e' = e)) as [->|].
  - by rewrite lookup_insert_eq, !lookup_alter_eq, He.
  - by rewrite lookup_insert_ne, !lookup_alter_ne by done.
Qed.

Lemma ok_return s r k e i :
  requests s !! r ≠ None -> leases s r = Some e -> holds s r = Some i -> wants s r = Some k -> pool_ok s ->
  pool_ok (set_phase r Ended (scheduleSessionWebSocketExpiry k e (set_entry e (with_busy false) s))).
Proof.
  intros Hr Hl Hh Hw Hok. destruct (pl_leased s Hok _ _ Hl) as (j & Ho & Hj). assert (j = i) by congruence. subst j.
  unfold own in Ho. destruct (entries s !! e) as [en|] eqn:He; [|done]. injection Ho as Hi Hb.
  rewrite (schedule_busy s k e en) by done. set (s' := set_phase _ _ _).
  eapply (ok_returns s s' k r e i); [|done..]. unfold s'. constructor; try done.
  - intros e'. unfold own. simpl. rewrite lookup_insert. repeat case_decide; subst; done.
  - intros e'. unfold idle_handle. simpl. rewrite lookup_insert. repeat case_decide; subst; done.
  - intros t. unfold armed. simpl. rewrite lookup_insert. repeat case_decide; subst; done.
  - intros r'. by rewrite holds_phase.
  - intros r'. by rewrite leases_phase.
  - intros r'. by rewrite wants_phase.
  - intros r'. by rewrite asked_phase.
  - intros r'. simpl. rewrite lookup_insert. case_decide; [|done]. subst. destruct (requests s !! r'); by eauto.
Qed.

(** A request lets go of a cached entry: its socket is closed. *)
Lemma ok_forget s r k e i :
  requests s !! r ≠ None -> leases s r = Some e -> holds s r = Some i -> wants s r = Some k -> pool_ok s ->
  pool_ok (set_phase r Ended (uncache k e (closeWebSocketSilently i s))).
Proof.
  intros Hr Hl Hh Hw Hok. set (s1 := closeWebSocketSilently i s). assert (Hok1 : pool_ok s1) by by apply ok_close.
  assert (Hs : forall i, alive (uncache k e s1) i = alive s1 i) by (intros j; unfold uncache; by case_bool_decide).
  assert (Hq : requests (uncache k e s1) = requests s) by (unfold uncache; by case_bool_decide).
  apply ok_end; [..|by apply ok_uncache].
  - intros j Hj. unfold holds in Hj. rewrite Hq in Hj. change (holds s r = Some j) in Hj. rewrite Hs. unfold s1. rewrite alive_close.
    rewrite decide_True; [done|]. congruence.
  - intros e' k' He'. unfold leases in He'. rewrite Hq in He'. change (leases s r = Some e') in He'. assert (e' = e) by congruence. subst e'.
    rewrite cached_uncache. case_decide as Hd; [done|]. intros Hk'. apply Hd. change (cached s k' = Some e) in Hk'.
    destruct (pl_leased s Hok _ _ Hl) as (j & Ho & Hj). assert (j = i) by congruence. subst j.
    pose proof (cached_home s k' k e i true Hok Hk' Ho (pl_keyed s Hok _ _ _ Hh Hw)) as ->. done.
  - rewrite Hq. by destruct (requests s !! r); eauto.
Qed.

Lemma ok_release s r l keep :
  phase_entry <$> requests s !! r = Some (lease_entry l) -> phase_socket <$> requests s !! r = Some (Some (lease_socket l)) ->
  phase_key <$> requests s !! r = Some (lease_key l) -> pool_ok s ->
  pool_ok (set_phase r Ended (release l keep s)).
Proof.
  intros He Hs Hk Hok. destruct (requests s !! r) as [p|] eqn:Hr; [|done]. injection He as He. injection Hs as Hs. injection Hk as Hk.
  assert (Hh : holds s r = Some (lease_socket l)) by (unfold holds; by rewrite Hr).
  assert (Hl : leases s r = lease_entry l) by (unfold leases; by rewrite Hr).
  assert (Hw : wants s r = lease_key l) by (unfold wants; by rewrite Hr).
  assert (Hr' : requests s !! r ≠ None) by congruence.
  destruct l as [i|k e i|k e i]; simpl in *.
  - apply ok_end; [..|by apply ok_close].
    + intros j Hj. change (holds s r = Some j) in Hj. rewrite alive_close, decide_True; [done|]. congruence.
    + intros e k He'. change (leases s r = Some e) in He'. congruence.
    + simpl. rewrite Hr. eauto.
  - destruct (_ || _); [by apply ok_forget|by eapply ok_return].
  - destruct (_ || _); [|by eapply ok_return].
    assert (Hc : clearTimeout (entries s !! e ≫= en_idleTimer) (closeWebSocketSilently i s) = closeWebSocketSilently i s).
    { destruct (pl_leased s Hok _ _ Hl) as (j & Ho & _). by apply (clear_busy (closeWebSocketSilently i s) e j (ok_close i s Hok)). }
    rewrite Hc. by apply ok_forget.
Qed.

Lemma ok_fire s t tm :
  timers s !! t = Some tm -> pool_ok s -> pool_ok (on_expiry (tm_key tm) (tm_entry tm) (set_timers (delete t (timers s)) s)).
Proof.
  intros Ht Hok. assert (Ha : armed s t = Some (tm_key tm, tm_entry tm)) by (unfold armed; by rewrite Ht).
  destruct (pl_timer s Hok _ _ _ Ha) as (i & Ho & Hd & Hh). set (k := tm_key tm) in *. set (e := tm_entry tm) in *.
  set (s2 := uncache k e (closeWebSocketSilently i s)).
  assert (Hok2 : pool_ok s2) by (apply ok_uncache, ok_close, Hok).
  assert (Hs2 : sockets s2 = sockets (closeWebSocketSilently i s) /\ entries s2 = entries s).
  { unfold s2, uncache. by case_bool_decide. }
  destruct Hs2 as [Hs2 He2].
  assert (Heq : on_expiry k e (set_timers (delete t (timers s)) s) = set_timers (delete t (timers s2)) s2).
  { unfold on_expiry, own in *. simpl. destruct (entries s !! e) as [en|]; [|done]. injection Ho as Hi Hb. rewrite Hb, Hi.
    unfold s2, uncache. change (cached (closeWebSocketSilently i _) k) with (cached s k).
    change (cached (closeWebSocketSilently i s) k) with (cached s k). by case_bool_decide. }
  rewrite Heq. apply (ok_kill s2 t e); [..|done].
  - unfold idle_handle. by rewrite He2.
  - intros j b Hj. unfold own in Hj. rewrite He2 in Hj. change (own s e = Some (j, b)) in Hj. assert (j = i) by congruence. subst j.
    unfold alive. rewrite Hs2. change (alive (closeWebSocketSilently i s) i = false). by rewrite alive_close, decide_True.
  - intros k'. unfold s2. rewrite cached_uncache. case_decide as Hdec; [done|]. intros Hk'. apply Hdec.
    change (cached s k' = Some e) in Hk'. by rewrite <-(cached_home s k' k e i false Hok Hk' Ho Hh).
Qed.

Lemma ok_close_entry s e : (forall k, cached s k ≠ Some e) -> pool_ok s -> pool_ok (close_entry s e).
Proof.
  intros Hc Hok. unfold close_entry. destruct (entries s !! e) as [en|] eqn:He; [|done].
  assert (Heq : closeWebSocketSilently (en_socket en) (clearTimeout (en_idleTimer en) s) =
    clearTimeout (idle_handle (closeWebSocketSilently (en_socket en) s) e) (closeWebSocketSilently (en_socket en) s)).
  { unfold idle_handle. simpl. rewrite He. simpl. by destruct (en_idleTimer en). }
  rewrite Heq. apply ok_clear; [|done|by apply ok_close]. intros i b Hi. change (own s e = Some (i, b)) in Hi. unfold own in Hi.
  rewrite He in Hi. injection Hi as <- <-. by rewrite alive_close, decide_True.
Qed.

Lemma close_entry_cache s e c : close_entry (set_cache c s) e = set_cache c (close_entry s e) /\ cache (close_entry s e) = cache s.
Proof.
  unfold close_entry. change (entries (set_cache c s)) with (entries s). destruct (entries s !! e) as [en|]; [|done].
  by destruct (en_idleTimer en).
Qed.

Lemma close_entries_cache l s c :
  foldl close_entry (set_cache c s) l = set_cache c (foldl close_entry s l) /\ cache (foldl close_entry s l) = cache s.
Proof.
  revert s. induction l as [|e l IH]; intros s; [done|]. simpl. destruct (close_entry_cache s e c) as [-> H].
  destruct (IH (close_entry s e)) as [-> ->]. done.
Qed.

Lemma ok_close_entries l s : Forall (fun e => forall k, cached s k ≠ Some e) l -> pool_ok s -> pool_ok (foldl close_entry s l).
Proof.
  revert s. induction l as [|e l IH]; intros s Hl Hok; [done|]. apply Forall_cons in Hl as [He Hl]. simpl. apply IH; [|by apply ok_close_entry].
  destruct (close_entry_cache s e ∅) as [_ Hc]. unfold cached in *. by rewrite Hc.
Qed.

(** The accounts of a session. *)
Lemma session_entries s sess e :
  e ∈ map snd (map_to_list (default ∅ (cache s !! sess))) -> exists acc, cached s (sess, acc) = Some e.
Proof.
  rewrite list_elem_of_fmap. intros ([acc e'] & -> & H). apply elem_of_map_to_list in H. exists acc. unfold cached. simpl.
  by destruct (cache s !! sess).
Qed.

Lemma ok_close_sessions sess s : pool_ok s -> pool_ok (closeOpenAICodexWebSocketSessions sess s).
Proof.
  intros Hok. unfold closeOpenAICodexWebSocketSessions.
  assert (Hall : forall l c, pool_ok (set_cache c s) -> Forall (fun e => forall k, cached (set_cache c s) k ≠ Some e) l ->
    pool_ok (set_cache c (foldl close_entry s l))).
  { intros l c Hc Hl. rewrite <-(proj1 (close_entries_cache l s c)). by apply ok_close_entries. }
  destruct sess as [[|x sess]|]; simpl.
  1,3: apply Hall; [apply ok_cache; [|intros ? ?; by rewrite lookup_empty|done]|apply Forall_true]; intros *; unfold cached; simpl; by rewrite lookup_empty.
  set (l := map snd _). rewrite (proj2 (close_entries_cache l s ∅)). apply Hall.
  - apply ok_cache; [..|done].
    + intros k e. unfold cached. simpl. rewrite lookup_delete. by case_decide.
    + intros sess' m. rewrite lookup_delete. case_decide; [done|]. apply (pl_nonempty s Hok).
  - apply Forall_forall. intros e He k Hk. apply session_entries in He as [acc He].
    unfold cached in Hk. simpl in Hk. rewrite lookup_delete in Hk. case_decide as Hd; [done|]. change (cached s k = Some e) in Hk.
    destruct (pl_cached s Hok _ _ He) as (i & b & Ho & Hh & _).
    pose proof (cached_home s k (x :: sess, acc) e i b Hok Hk Ho Hh) as ->. by apply Hd.
Qed.

Lemma ok_answered s i k k' : sockets s !! i = Some k -> sk_home k' = sk_home k -> sk_ready k' = sk_ready k ->
  pool_ok s -> pool_ok (set_sockets (<[i := k']> (sockets s)) s).
Proof.
  intros Hi Hh Hr. apply ok_sockets; intros j; unfold home_of, alive; simpl; rewrite lookup_insert; case_decide; subst; try done.
  - rewrite Hi. simpl. by rewrite Hh.
  - rewrite Hi. simpl. by rewrite Hr.
Qed.

Lemma record_same sent id given items k k' :
  record_response sent id given items k = Some k' -> sk_home k' = sk_home k /\ sk_ready k' = sk_ready k.
Proof.
  unfold record_response. destruct id as [id|]; [|by intros [= <-]]. destruct (request_context _ sent); [|done]. simpl.
  case_bool_decide; [|done]. by intros [= <-].
Qed.


Lemma ok_on_entry l c s : pool_ok s -> pool_ok (on_entry l (with_continuation c) s).
Proof. unfold on_entry. destruct (lease_entry l); [apply ok_continuation|done]. Qed.

Lemma ok_finish s r l c full sent o :
  requests s !! r = Some (Streaming l c full sent) -> pool_ok s -> pool_ok (set_phase r Ended (finish_request l c full o s)).
Proof.
  intros Hr Hok.
  assert (Hrel : forall s' keep, requests s' = requests s -> pool_ok s' -> pool_ok (set_phase r Ended (release l keep s'))).
  { intros s' keep Hq Hok'. apply ok_release; rewrite ?Hq, ?Hr; done. }
  assert (Hon : forall c, requests (on_entry l (with_continuation c) s) = requests s) by (intros; unfold on_entry; by destruct (lease_entry l)).
  assert (Hfail : pool_ok (set_phase r Ended (release l false (on_entry l (with_continuation None) s))))
    by (apply Hrel; [apply Hon|by apply ok_on_entry]).
  destruct o as [m props id output given aborted|]; [|done]. cbn [finish_request].
  destruct aborted; [by apply Hrel|]. destruct id as [id|]; [|by apply Hrel].
  destruct (lease_entry l) as [e|] eqn:He; [|by apply Hrel].
  destruct (_ && _); [|by apply Hrel]. destruct (response_items _ _ _ _ _ _) as [items|x]; [|done].
  apply Hrel; [done|by apply ok_continuation].
Qed.

Lemma ok_send s r l c full :
  requests s !! r = Some (Acquired l) -> pool_ok s ->
  let '(s', sent) := send_request l c full s in pool_ok (set_phase r (Streaming l c full sent) s').
Proof.
  intros Hr Hok.
  assert (Hset : forall s' sent, requests s' = requests s -> pool_ok s' -> pool_ok (set_phase r (Streaming l c full sent) s')).
  { intros s' sent Hq Hok'. apply (ok_phase s' r (Acquired l)); try done. by rewrite Hq. }
  unfold send_request. destruct (lease_entry l) as [e|]; [|by apply Hset]. destruct c; [|by apply Hset].
  destruct (buildCachedWebSocketRequestBody _ _ _) as [body c']. apply Hset; [done|by apply ok_continuation].
Qed.

Lemma ok_opens s r keep i :
  requests s !! r = Some (Connecting keep i) -> sk_ready <$> sockets s !! i = Some CONNECTING -> pool_ok s ->
  pool_ok (set_phase r (Connected keep i) (set_sockets (alter (set_ready OPEN) i (sockets s)) s)).
Proof.
  intros Hr Hc Hok. apply (ok_phase _ r (Connecting keep i)); try done. apply ok_sockets; [..|done].
  - intros j. by apply home_alter.
  - intros j. unfold alive. simpl. destruct (decide (j = i)) as [->|]; [|by rewrite lookup_alter_ne].
    rewrite lookup_alter_eq. destruct (sockets s !! i); [|done]. simpl in *. injection Hc as ->. done.
Qed.

Lemma ok_step s ev s' : pool_step s ev = Some s' -> pool_ok s -> pool_ok s'.
Proof.
  intros Hs Hok. destruct ev; simpl in Hs.
  - pose proof (ok_acquire url sessionId accountId s Hok) as H. destruct (acquireWebSocket _ _ _ s). by simplify_eq.
  - destruct (requests s !! r) as [[]|] eqn:Hr; try done. destruct works; simplify_eq; [by apply ok_construct|].
    apply ok_end; [..|done]; unfold holds, leases; rewrite Hr; by eauto.
  - destruct (requests s !! r) as [[]|] eqn:Hr; try done. case_bool_decide; [|done]. simplify_eq. by apply ok_opens.
  - destruct (requests s !! r) as [[]|] eqn:Hr; try done. simplify_eq.
    apply ok_end; [..|by apply ok_dying]; unfold holds, leases; simpl; rewrite Hr; try by eauto.
    intros i [= <-]. rewrite alive_alter by done. by rewrite decide_True.
  - destruct (requests s !! r) as [[]|] eqn:Hr; try done. simplify_eq.
    apply ok_end; [..|by apply ok_close]; unfold holds, leases; simpl; rewrite Hr; try by eauto.
    intros i [= <-]. by rewrite alive_close, decide_True.
  - destruct (requests s !! r) as [[]|] eqn:Hr; try done. destruct keep as [k|]; simpl in Hs; simplify_eq.
    + by apply (ok_store s r k).
    + by apply (ok_phase s r (Connected None sock)).
  - destruct (requests s !! r) as [[]|] eqn:Hr; try done.
    pose proof (ok_send s r l useCachedContext fullBody Hr Hok) as H. destruct (send_request _ _ _ s). by simplify_eq.
  - destruct (requests s !! r) as [[]|] eqn:Hr; try done. destruct o as [m props id output given aborted|]; [|simplify_eq; by apply (ok_finish s r l useCachedContext fullBody sent Failed)].
    destruct (sockets s !! lease_socket l) as [k|] eqn:Hk; [|done]. simpl in Hs.
    destruct (record_response sent id given _ k) as [k'|] eqn:Hk'; [|done]. simpl in Hs. simplify_eq.
    apply record_same in Hk' as [Hh Hrd].
    eapply (ok_finish (set_sockets (<[lease_socket l := k']> (sockets s)) s) r l useCachedContext fullBody sent (Responded m props id output given aborted));
      [done|]. by eapply ok_answered.
  - destruct (requests s !! r) as [[]|] eqn:Hr; try done. simplify_eq. by apply ok_close.
  - destruct (sk_ready <$> sockets s !! sock) as [[]|]; try done; destruct state; simplify_eq; by apply ok_dying.
  - destruct (timers s !! t) as [tm|] eqn:Ht; [|done]. destruct (_ <=? _); [|done]. simplify_eq. by apply ok_fire.
  - simplify_eq. by apply ok_close_sessions.
  - destruct (0 <=? d); [|done]. simplify_eq. by apply ok_wait.
Qed.

Lemma ok_none : pool_ok no_pool.
Proof.
  constructor; unfold holds, leases, wants, asked, home_of, alive, own, idle_handle, armed, cached; intros *; simpl; rewrite ?lookup_empty;
    try done; by intros [].
Qed.

Lemma ok_run evs s : pool_run no_pool evs = Some s -> pool_ok s.
Proof.
  assert (H : forall evs s s', pool_ok s -> pool_run s evs = Some s' -> pool_ok s'); [|apply H, ok_none].
  clear. intros evs. induction evs as [|ev evs IH]; intros s s' Hok; simpl; [by intros [= <-]|].
  destruct (pool_step s ev) as [s1|] eqn:Hs; [|done]. simpl. apply IH. by eapply ok_step.
Qed.

(** * Sockets are lent to one request at a time *)

Lemma acquired_reused url sess acc s s' l :
  acquireWebSocket url sess acc s = (s', Acquired l) ->
  exists ss e en, sess = Some ss /\ l = Reused (ss, acc) e (en_socket en) /\ cached s (ss, acc) = Some e /\ entries s !! e = Some en /\
    en_busy en = false /\ isWebSocketSessionExpired (now s) en = false /\ reusable (en_socket en) s = true.
Proof.
  unfold acquireWebSocket. destruct sess as [[|c sess]|]; try done. destruct (cached s _) as [e|] eqn:Hk; [|done].
  destruct (entries s !! e) as [en|] eqn:He; [|done].
  set (s1 := set_entry _ _ _). assert (Hn : now s1 = now s /\ sockets s1 = sockets s) by (unfold s1; by destruct (en_idleTimer en)).
  destruct (negb _ && negb _ && _) eqn:Hl.
  - intros [= <- <-]. unfold reusable in *. destruct Hn as [Hnow Hs]. rewrite Hnow, Hs in Hl. exists (c :: sess), e, en.
    destruct (en_busy en); [by rewrite andb_false_r in Hl|]. simpl in Hl. destruct (isWebSocketSessionExpired _ _); [done|]. done.
  - by destruct (en_busy en).
Qed.
End Pool.

(** C17: Whatever happened before, a cached WebSocket that is lent to a request was
    opened for the same session and account, is younger than fifty-five minutes,
    is open where the runtime can tell, and is in no other hands; and no two
    requests ever hold one socket. *)
Theorem codex_sockets_exclusive numbered num_to_string syntax_error evs s :
  pool_run numbered num_to_string syntax_error no_pool evs = Some s ->
  (forall r1 r2 i, holds s r1 = Some i -> holds s r2 = Some i -> r1 = r2) /\
  forall url sess acc s' l, acquireWebSocket numbered url sess acc s = (s', Acquired l) ->
    exists ss e en k, sess = Some ss /\ l = Reused (ss, acc) e (en_socket en) /\
      entries s !! e = Some en /\ sockets s !! en_socket en = Some k /\
      sk_home k = (Some ss, acc) /\ now s - en_createdAt en < SESSION_WEBSOCKET_MAX_AGE_MS /\
      (numbered = true -> sk_ready k = OPEN) /\ (forall r, holds s r ≠ Some (en_socket en)) /\
      own s' e = Some (en_socket en, true).
Proof.
  intros Hrun. pose proof (ok_run _ _ _ _ _ Hrun) as Hok. split; [apply (pl_unique s Hok)|]. intros url sess acc s' l Ha.
  pose proof (acquired_reused _ _ _ _ _ _ _ Ha) as (ss & e & en & -> & -> & Hk & He & Hb & Hx & Hr).
  assert (Ho : own s e = Some (en_socket en, false)) by (unfold own; rewrite He; simpl; by rewrite Hb).
  destruct (pl_cached s Hok _ _ Hk) as (i & b & Ho' & Hh & _). assert (i = en_socket en) by congruence. subst i.
  unfold home_of in Hh. destruct (sockets s !! en_socket en) as [k|] eqn:Hs; [|done]. injection Hh as Hh.
  exists ss, e, en, k. split_and!; try done.
  - unfold isWebSocketSessionExpired in Hx. bool_to_prop. lia.
  - intros ->. unfold reusable in Hr. rewrite Hs in Hr. unfold isWebSocketReusable in Hr. simpl in Hr. by destruct (sk_ready k).
  - by apply (idle_free s e).
  - pose proof (ok_acquire numbered syntax_error url (Some ss) acc s Hok) as Hok'. rewrite Ha in Hok'.
    destruct (pl_leased _ Hok' (next s') e) as (j & H1 & H2); [by rewrite leases_phase, decide_True|].
    rewrite holds_phase, decide_True in H2 by done. injection H2 as <-. done.
Qed.

(** * No socket is forgotten *)

Section Drain.
Context (numbered : bool) (num_to_string : Q -> jstr) (syntax_error : jstr -> jstr).

(** No timer waits longer than the time to live. *)
Definition due_soon (s : socket_pool) : Prop :=
  forall t tm, timers s !! t = Some tm -> tm_due tm <= now s + SESSION_WEBSOCKET_CACHE_TTL_MS.

(** The timers of [s'] were set in [s], or are set to the time to live. *)
Definition timers_from (s s' : socket_pool) : Prop := now s' = now s /\
  forall t tm, timers s' !! t = Some tm ->
    timers s !! t = Some tm \/ tm_due tm = now s + SESSION_WEBSOCKET_CACHE_TTL_MS.

#[local] Instance timers_from_preorder : PreOrder timers_from.
Proof.
  split; [by split; eauto|]. intros s1 s2 s3 [H1 H1'] [H2 H2']. split; [congruence|]. intros t tm [H|H]%H2'; [by eauto|].
  right. congruence.
Qed.

Lemma due_from s s' : timers_from s s' -> due_soon s -> due_soon s'.
Proof. intros [Hn Ht] Hd t tm [H|H]%Ht; rewrite Hn; [by eauto|lia]. Qed.

Lemma from_same s s' : now s' = now s -> timers s' = timers s -> timers_from s s'.
Proof. intros Hn Ht. split; [done|]. rewrite Ht. by left. Qed.
#[local] Hint Extern 0 (timers_from _ _) => (apply from_same; reflexivity) : core.

Lemma from_clear t s : timers_from s (clearTimeout t s).
Proof.
  destruct t as [t|]; [|done]. split; [done|]. intros t' tm. simpl. rewrite lookup_delete. case_decide; [done|by left].
Qed.

Lemma from_uncache k e s : timers_from s (uncache k e s).
Proof. unfold uncache. by case_bool_decide. Qed.

Lemma from_schedule k e s : timers_from s (scheduleSessionWebSocketExpiry k e s).
Proof.
  unfold scheduleSessionWebSocketExpiry. destruct (entries s !! e) as [en|]; [|done]. etrans; [apply (from_clear (en_idleTimer en))|].
  split; [done|]. intros t tm. simpl. rewrite lookup_insert. case_decide; [intros [= <-]; by right|by left].
Qed.

Lemma from_acquire url sess acc s s' p : acquireWebSocket numbered url sess acc s = (s', p) -> timers_from s s'.
Proof.
  unfold acquireWebSocket. destruct sess as [[|c sess]|]; [by intros [= <- <-]| |by intros [= <- <-]].
  destruct (cached s _) as [e|]; [|by intros [= <- <-]]. destruct (entries s !! e) as [en|]; [|by intros [= <- <-]].
  set (s1 := set_entry _ _ _). assert (H1 : timers_from s s1) by apply (from_clear (en_idleTimer en)). revert H1. generalize s1. clear s1.
  intros s1 H1. repeat case_goal; intros [= <- <-]; done.
Qed.

Lemma from_release l keep s : timers_from s (release numbered l keep s).
Proof.
  destruct l; simpl; [done|..]; destruct (_ || _).
  - etrans; [|apply from_uncache]. done.
  - etrans; [|apply from_schedule]. done.
  - etrans; [|apply from_uncache]. etrans; [|apply from_clear]. done.
  - etrans; [|apply from_schedule]. done.
Qed.

Lemma from_finish l c full o s : timers_from s (finish_request numbered num_to_string syntax_error l c full o s).
Proof.
  assert (Ho : forall c, timers_from s (on_entry l (with_continuation c) s)) by (intros; unfold on_entry; by destruct (lease_entry l)).
  assert (Hfail : timers_from s (release numbered l false (on_entry l (with_continuation None) s)))
    by (etrans; [|apply from_release]; done).
  destruct o as [m props id output given []|]; cbn [finish_request]; [apply from_release| |done].
  destruct id; [|apply from_release]. destruct (lease_entry l); [|apply from_release].
  destruct (_ && _); [|apply from_release]. destruct (response_items _ _ _ _ _ _); [|done]. etrans; [|apply from_release]. done.
Qed.

Lemma from_sessions sess s : timers_from s (closeOpenAICodexWebSocketSessions sess s).
Proof.
  assert (Hall : forall l s, timers_from s (foldl close_entry s l)).
  { intros l. induction l as [|e l IH]; intros s0; [done|]. simpl. etrans; [|apply IH]. unfold close_entry.
    destruct (entries s0 !! e) as [en|]; [|done]. apply (from_clear (en_idleTimer en)). }
  unfold closeOpenAICodexWebSocketSessions. destruct sess as [[|? ?]|]; apply (Hall _ s).
Qed.

Lemma due_step s ev s' : pool_step numbered num_to_string syntax_error s ev = Some s' -> due_soon s -> due_soon s'.
Proof.
  intros Hs. destruct ev; simpl in Hs.
  - destruct (acquireWebSocket _ _ _ _ s) as [s1 p] eqn:Ha. apply from_acquire in Ha. simplify_eq. by apply due_from.
  - destruct (requests s !! r) as [[]|]; try done. destruct works; simplify_eq; exact id.
  - destruct (requests s !! r) as [[]|]; try done. case_bool_decide; [|done]. simplify_eq. exact id.
  - destruct (requests s !! r) as [[]|]; try done. simplify_eq. exact id.
  - destruct (requests s !! r) as [[]|]; try done. simplify_eq. exact id.
  - destruct (requests s !! r) as [[]|]; try done. destruct keep; simpl in Hs; simplify_eq; exact id.
  - destruct (requests s !! r) as [[]|]; try done. unfold send_request in Hs. destruct (lease_entry l); [|simplify_eq; exact id].
    destruct useCachedContext; [|simplify_eq; exact id]. destruct (buildCachedWebSocketRequestBody _ _ _). simplify_eq; exact id.
  - destruct (requests s !! r) as [[]|]; try done. destruct o as [m props id output given aborted|].
    + destruct (sockets s !! _) as [k|]; [|done]. simpl in Hs. destruct (record_response _ _ _ _ _) as [k'|]; [|done]. simpl in Hs. simplify_eq.
      apply due_from. apply (from_finish l useCachedContext fullBody (Responded m props id output given aborted) (set_sockets _ s)).
    + simplify_eq. apply due_from, (from_finish l useCachedContext fullBody Failed s).
  - destruct (requests s !! r) as [[]|]; try done. simplify_eq. exact id.
  - destruct (sk_ready <$> _) as [[]|]; try done; destruct state; try done; simplify_eq; exact id.
  - destruct (timers s !! t) as [tm|]; [|done]. destruct (_ <=? _); [|done]. simplify_eq. apply due_from.
    etrans; [apply (from_clear (Some t))|]. unfold on_expiry. simpl. destruct (entries s !! _) as [en|]; [|done].
    destruct (en_busy en); [done|]. etrans; [|apply from_uncache]. done.
  - simplify_eq. apply due_from, from_sessions.
  - destruct (0 <=? d) eqn:Hd; [|done]. simplify_eq. bool_to_prop. intros Hdue t tm H. apply Hdue in H. simpl. lia.
Qed.

Lemma due_run evs s s' : due_soon s -> pool_run numbered num_to_string syntax_error s evs = Some s' -> due_soon s'.
Proof.
  revert s. induction evs as [|ev evs IH]; intros s Hd; simpl; [by intros [= <-]|].
  destruct (pool_step _ _ _ s ev) eqn:Hs; [|done]. simpl. apply IH. by eapply due_step.
Qed.

Definition all_ended (s : socket_pool) : Prop := forall r p, requests s !! r = Some p -> p = Ended.

(** Without requests and timers there is neither an open socket nor an entry in
    the cache. *)
Lemma drained s : pool_ok s -> all_ended s -> timers s = ∅ -> (forall i, alive s i = false) /\ cache s = ∅.
Proof.
  intros Hok He Ht.
  assert (Hh : forall r, holds s r = None) by (intros r; unfold holds; destruct (requests s !! r) eqn:H; [by rewrite (He _ _ H)|done]).
  assert (Hl : forall r, leases s r = None) by (intros r; unfold leases; destruct (requests s !! r) eqn:H; [by rewrite (He _ _ H)|done]).
  assert (Ha : forall t, armed s t = None) by (intros t; unfold armed; by rewrite Ht, lookup_empty).
  split.
  - intros i. destruct (alive s i) eqn:Hi; [|done].
    destruct (pl_alive s Hok i Hi) as [[r H]|(e & t & k & _ & H)]; [by rewrite Hh in H|by rewrite Ha in H].
  - apply map_empty. intros sess. destruct (cache s !! sess) as [m|] eqn:Hm; [|done].
    destruct (map_choose m) as (acc & e & Hacc); [by eapply (pl_nonempty s Hok)|].
    assert (Hk : cached s (sess, acc) = Some e) by (unfold cached; simpl; by rewrite Hm).
    destruct (pl_cached s Hok _ _ Hk) as (i & b & _ & _ & Hb & Hi). destruct b.
    + destruct (Hb eq_refl) as [r H]. by rewrite Hl in H.
    + destruct (Hi eq_refl) as (t & k & H). by rewrite Ha in H.
Qed.

Lemma on_expiry_rest k e s : timers (on_expiry k e s) = timers s /\ requests (on_expiry k e s) = requests s /\ now (on_expiry k e s) = now s.
Proof.
  unfold on_expiry. destruct (entries s !! e) as [en|]; [|done]. destruct (en_busy en); [done|]. unfold uncache. by case_bool_decide.
Qed.

Lemma fire_all n s :
  size (timers s) = n -> pool_ok s -> all_ended s -> (forall t tm, timers s !! t = Some tm -> tm_due tm <= now s) ->
  exists ts s', pool_run numbered num_to_string syntax_error s (map Fire ts) = Some s' /\ pool_ok s' /\ all_ended s' /\ timers s' = ∅ /\ now s' = now s.
Proof.
  revert s. induction n as [|n IH]; intros s Hn Hok He Hd.
  { exists [], s. split_and!; try done. by apply map_size_empty_inv. }
  destruct (map_choose (timers s)) as (t & tm & Ht); [intros H; by rewrite H, map_size_empty in Hn|].
  pose proof (Hd t tm Ht) as Hdue. apply Z.leb_le in Hdue.
  set (s1 := on_expiry (tm_key tm) (tm_entry tm) (set_timers (delete t (timers s)) s)).
  assert (Hstep : pool_step numbered num_to_string syntax_error s (Fire t) = Some s1) by (simpl; by rewrite Ht, Hdue).
  destruct (on_expiry_rest (tm_key tm) (tm_entry tm) (set_timers (delete t (timers s)) s)) as (H1 & H2 & H3). fold s1 in H1, H2, H3.
  simpl in H1, H2, H3.
  destruct (IH s1) as (ts & s' & Hrun & Hok' & He' & Hs' & Hnow).
  - rewrite H1, map_size_delete_Some by eauto. lia.
  - by apply ok_fire.
  - intros r p. rewrite H2. apply He.
  - intros t' tm'. rewrite H1, H3, lookup_delete. case_decide; [done|]. apply Hd.
  - exists (t :: ts), s'. split_and!; try done; [|congruence]. cbn [map pool_run]. rewrite Hstep. done.
Qed.
End Drain.

(** C18: No connection is forgotten: whatever happened, once all requests have
    ended every socket is closed and the cache empty after five minutes, by the
    timers that run, and it is empty whenever no timer runs. *)
Theorem codex_sockets_drain numbered num_to_string syntax_error evs s :
  pool_run numbered num_to_string syntax_error no_pool evs = Some s -> all_ended s ->
  (timers s = ∅ -> (forall i, alive s i = false) /\ cache s = ∅) /\
  exists ts s', pool_run numbered num_to_string syntax_error s (Wait SESSION_WEBSOCKET_CACHE_TTL_MS :: map Fire ts) = Some s' /\
    now s' = now s + SESSION_WEBSOCKET_CACHE_TTL_MS /\ timers s' = ∅ /\ (forall i, alive s' i = false) /\ cache s' = ∅.
Proof.
  intros Hrun He. pose proof (ok_run _ _ _ _ _ Hrun) as Hok. split; [by apply drained|].
  assert (Hd : due_soon s) by (by eapply due_run; [|done]).
  set (s1 := Pool (sockets s) (entries s) (timers s) (cache s) (requests s) (next s) (now s + SESSION_WEBSOCKET_CACHE_TTL_MS)).
  destruct (fire_all numbered num_to_string syntax_error (size (timers s1)) s1) as (ts & s' & Hr & Hok' & He' & Ht' & Hn'); [done|by apply ok_wait|done|done|].
  exists ts, s'. destruct (drained s' Hok' He' Ht') as [Ha Hc]. split_and!; done.
Qed.

(** * The whole conversation is sent *)

Section Context.
Context (numbered : bool) (num_to_string : Q -> jstr) (syntax_error : jstr -> jstr).
#[local] Abbreviation text := (JSON_stringify num_to_string).
#[local] Abbreviation printable := (printable num_to_string).

Lemma text_inj a b : printable a -> printable b -> text a = text b -> a = b.
Proof. intros Ha%json_roundtrip Hb%json_roundtrip H. congruence. Qed.

(** A conversation as the server has it and as the client sends it: the same items,
    but for the responses, where the server has the items it gave and the client
    those that it sends their messages back as. *)
Inductive agrees (ans : list (list json * list json)) : list json -> list json -> Prop :=
| agrees_nil : agrees ans [] []
| agrees_same x a b : agrees ans a b -> agrees ans (x :: a) (x :: b)
| agrees_answer given items a b : (given, items) ∈ ans -> agrees ans a b -> agrees ans (given ++ a) (items ++ b).

Lemma agrees_refl ans a : agrees ans a a.
Proof. induction a; by constructor. Qed.

Lemma agrees_app ans a b a' b' : agrees ans a b -> agrees ans a' b' -> agrees ans (a ++ a') (b ++ b').
Proof.
  intros H H'. induction H as [|x a b _ IH|given items a b Hin _ IH]; [done|by apply agrees_same|].
  rewrite <- !app_assoc. by apply agrees_answer.
Qed.

Lemma agrees_one ans given items : (given, items) ∈ ans -> agrees ans given items.
Proof.
  intros H. pose proof (agrees_answer ans given items [] [] H (agrees_nil ans)) as Ha. by rewrite !app_nil_r in Ha.
Qed.

Lemma agrees_grows ans ans' a b : ans ⊆ ans' -> agrees ans a b -> agrees ans' a b.
Proof. intros Hs H. induction H; [constructor|by constructor|]. apply agrees_answer; [by apply Hs|done]. Qed.

(** The events of the run. *)
Context (all : list pool_event).

(** The items of a response of the run, and those its message is sent back as. *)
Definition answer_of (p : list json * list json) : Prop :=
  exists r m properties id output aborted t,
    Finish r (Responded m properties (Some id) output p.1 aborted) ∈ all /\
    response_items num_to_string syntax_error m properties output t = Ok p.2.

(** What a request puts on the wire stands for this input. *)
Definition covers (h : history) (sent : fields) (input : list json) : Prop :=
  exists context, request_context h sent = Some context /\ agrees (answers h) context input.

(** Bodies as [buildRequestBody] makes them: data, without a previous response. *)
Definition plain_body (b : fields) : Prop :=
  printable (JObj b) /\ lookup_field (js "previous_response_id") b = None.

Definition plain_event (ev : pool_event) : Prop :=
  match ev with
  | Send _ _ full => plain_body full
  | Finish _ (Responded m properties _ output _ _) =>
      forall t items, response_items num_to_string syntax_error m properties output t = Ok items -> Forall printable items
  | _ => True
  end.

Lemma lookup_field_in k v (fs : fields) : lookup_field k fs = Some v -> exists kv, kv ∈ fs /\ kv.2 = v.
Proof.
  induction fs as [|[k' w] fs IH]; [done|]. simpl. destruct (streq k' k).
  - intros [= <-]. exists (k', w). split; [apply list_elem_of_here|done].
  - intros (kv & Hin & Hv)%IH. exists kv. split; [by apply list_elem_of_further|done].
Qed.

Lemma input_printable b : printable (JObj b) -> Forall printable (body_input b).
Proof.
  intros Hp. inversion Hp as [| | | | |fs _ _ HF]; subst. unfold body_input.
  destruct (lookup_field (js "input") b) as [[]|] eqn:Hl; try constructor.
  apply lookup_field_in in Hl as ([k v] & Hin & Hv). simpl in Hv. subst v. rewrite Forall_forall in HF. apply HF in Hin as [_ Hin].
  by inversion Hin.
Qed.

(** What the continuation of an entry says of its socket. *)
Definition remembers (h : history) (c : continuation) : Prop :=
  plain_body (lastRequestBody c) /\ Forall printable (lastResponseItems c) /\
  exists context, memory h !! lastResponseId c = Some context /\
    agrees (answers h) context (body_input (lastRequestBody c) ++ lastResponseItems c).

Lemma delta_app body c delta :
  plain_body body -> plain_body (lastRequestBody c) -> Forall printable (lastResponseItems c) ->
  getCachedWebSocketInputDelta num_to_string body c = Some delta ->
  body_input body = (body_input (lastRequestBody c) ++ lastResponseItems c) ++ delta.
Proof.
  intros [Hb _] [Hl _] Hi. unfold getCachedWebSocketInputDelta. destruct (negb _); [done|].
  set (base := body_input (lastRequestBody c) ++ lastResponseItems c). destruct (_ <? _)%nat; [done|].
  destruct (responseInputsEqual _ _ _) eqn:He; [|done]. intros [= <-]. apply streq_true, text_inj in He.
  - injection He as He. by rewrite <-He at 1; rewrite take_drop.
  - constructor. by apply Forall_take, input_printable.
  - constructor. apply Forall_app. split; [by apply input_printable|done].
Qed.

Lemma delete_set_same k v (fs : fields) : delete_field k (set_field k v fs) = delete_field k fs.
Proof.
  unfold delete_field. induction fs as [|[k' w] fs IH]; simpl; [by rewrite streq_refl|].
  destruct (streq k' k) eqn:He; simpl; rewrite He; simpl; [done|]. by rewrite IH.
Qed.

Lemma delete_comm k k' (fs : fields) : delete_field k (delete_field k' fs) = delete_field k' (delete_field k fs).
Proof.
  unfold delete_field. induction fs as [|[a w] fs IH]; [done|]. simpl.
  destruct (streq a k') eqn:H1, (streq a k) eqn:H2; simpl; rewrite ?H1, ?H2; simpl; by rewrite IH.
Qed.

(** The body sent differs in its input only, and the history completes it. *)
Lemma cached_body c h body sent c' :
  plain_body body -> (forall k, c = Some k -> remembers h k) ->
  buildCachedWebSocketRequestBody num_to_string c body = (sent, c') ->
  covers h sent (body_input body) /\ requestBodyWithoutInput sent = requestBodyWithoutInput body /\
  (c' = None \/ c' = c).
Proof.
  intros Hb Hc. unfold buildCachedWebSocketRequestBody.
  assert (Hfull : covers h body (body_input body)).
  { exists (body_input body). unfold request_context. rewrite (proj2 Hb). split; [done|apply agrees_refl]. }
  destruct c as [k|]; [|intros [= <- <-]; by eauto]. specialize (Hc k eq_refl) as (Hl & Hi & ctx & Hm & Ha).
  destruct (getCachedWebSocketInputDelta _ body k) as [delta|] eqn:Hd; [|intros [= <- <-]; by eauto].
  destruct (truthy (lastResponseId k)); intros [= <- <-]; [|by eauto]. split_and!; [| |by eauto].
  - exists (ctx ++ delta). split.
    + unfold request_context. rewrite lookup_set_field_ne by done. rewrite lookup_set_field_eq, Hm. simpl. do 2 f_equal.
      unfold body_input. by rewrite lookup_set_field_eq.
    + rewrite (delta_app body k delta) by done. apply agrees_app; [done|apply agrees_refl].
  - unfold requestBodyWithoutInput. by rewrite delete_set_same, delete_comm, delete_set_same, delete_comm.
Qed.

Record context_ok (s : socket_pool) : Prop := ContextOk {
  cx_entry : forall e en c k, entries s !! e = Some en -> en_continuation en = Some c ->
    sockets s !! en_socket en = Some k -> remembers (sk_history k) c;
  cx_sent : forall r l cached full sent k, requests s !! r = Some (Streaming l cached full sent) ->
    sockets s !! lease_socket l = Some k ->
    plain_body full /\ covers (sk_history k) sent (body_input full) /\
    requestBodyWithoutInput sent = requestBodyWithoutInput full;
  cx_answers : forall i k, sockets s !! i = Some k -> Forall answer_of (answers (sk_history k))
}.

(** [s'] differs from [s] by nothing that matters here: sockets keep their memory,
    entries their continuation or lose it, and no request was sent. *)
Record calm (s s' : socket_pool) : Prop := Calm {
  cm_socket : forall i k', sockets s' !! i = Some k' ->
    sk_history k' = no_history /\ sockets s !! i = None \/ exists k, sockets s !! i = Some k /\ sk_history k' = sk_history k;
  cm_entry : forall e en', entries s' !! e = Some en' -> en_continuation en' = None \/
    exists en, entries s !! e = Some en /\ en_socket en' = en_socket en /\ en_continuation en' = en_continuation en;
  cm_request : forall r l c full sent, requests s' !! r = Some (Streaming l c full sent) -> requests s !! r = Some (Streaming l c full sent)
}.

(** What the operations on entries, timers and the cache do. *)
Record still (s s' : socket_pool) : Prop := Still {
  st_socket : forall i, sk_history <$> sockets s' !! i = sk_history <$> sockets s !! i;
  st_entry : forall e, (fun en => (en_socket en, en_continuation en)) <$> entries s' !! e =
                       (fun en => (en_socket en, en_continuation en)) <$> entries s !! e;
  st_requests : requests s' = requests s
}.

#[local] Instance still_preorder : PreOrder still.
Proof. split; [by constructor|]. intros s1 s2 s3 [] []. constructor; intros; etrans; eauto. Qed.

Lemma still_same s s' : sockets s' = sockets s -> entries s' = entries s -> requests s' = requests s -> still s s'.
Proof. intros H1 H2 H3. constructor; rewrite ?H1, ?H2; done. Qed.
#[local] Hint Extern 0 (still _ _) => (apply still_same; reflexivity) : core.

Lemma still_alter f i s : (forall k, sk_history (f k) = sk_history k) -> still s (set_sockets (alter f i (sockets s)) s).
Proof.
  intros Hf. constructor; try done. intros j. simpl. destruct (decide (j = i)) as [->|]; [|by rewrite lookup_alter_ne].
  rewrite lookup_alter_eq. destruct (sockets s !! i); [|done]. simpl. by rewrite Hf.
Qed.

Lemma still_close i s : still s (closeWebSocketSilently i s).
Proof. by apply still_alter. Qed.

Lemma still_clear t s : still s (clearTimeout t s).
Proof. by destruct t. Qed.

Lemma still_entry f e s :
  (forall en, en_socket (f en) = en_socket en /\ en_continuation (f en) = en_continuation en) -> still s (set_entry e f s).
Proof.
  intros Hf. constructor; try done. intros e'. simpl. destruct (decide (e' = e)) as [->|]; [|by rewrite lookup_alter_ne].
  rewrite lookup_alter_eq. destruct (entries s !! e) as [en|]; [|done]. simpl. by destruct (Hf en) as [-> ->].
Qed.

Lemma still_uncache k e s : still s (uncache k e s).
Proof. unfold uncache. by case_bool_decide. Qed.

Lemma still_discard k i s : still s (discard k i s).
Proof. etrans; [apply (still_close i)|]. done. Qed.

Lemma still_schedule k e s : still s (scheduleSessionWebSocketExpiry k e s).
Proof.
  unfold scheduleSessionWebSocketExpiry. destruct (entries s !! e) as [en|]; [|done]. etrans; [apply (still_clear (en_idleTimer en))|].
  etrans; [|by apply still_entry]. done.
Qed.

Lemma still_acquire url sess acc s s' p : acquireWebSocket numbered url sess acc s = (s', p) -> still s s'.
Proof.
  unfold acquireWebSocket. destruct sess as [[|c sess]|]; [by intros [= <- <-]| |by intros [= <- <-]].
  destruct (cached s _) as [e|]; [|by intros [= <- <-]]. destruct (entries s !! e) as [en|]; [|by intros [= <- <-]].
  set (s1 := set_entry _ _ _).
  assert (H1 : still s s1) by (etrans; [apply (still_clear (en_idleTimer en))|]; by apply still_entry).
  revert H1. generalize s1. clear s1. intros s1 H1.
  assert (H2 : forall k i s0, still s s0 -> still s (discard k i s0)) by (intros * H; etrans; [apply H|apply still_discard]).
  repeat case_goal; intros [= <- <-]; auto. etrans; [done|]. by apply still_entry.
Qed.

Lemma still_release l keep s : still s (release numbered l keep s).
Proof.
  destruct l; simpl; [apply still_close|..]; destruct (_ || _).
  - etrans; [|apply still_uncache]. apply still_close.
  - etrans; [|apply still_schedule]. by apply still_entry.
  - etrans; [|apply still_uncache]. etrans; [|apply still_clear]. apply still_close.
  - etrans; [|apply still_schedule]. by apply still_entry.
Qed.

Lemma still_sessions sess s : still s (closeOpenAICodexWebSocketSessions sess s).
Proof.
  assert (Hall : forall l c s, still s (set_cache c (foldl close_entry s l))).
  { intros l c. induction l as [|e l IH]; intros s0; [done|]. simpl. etrans; [|apply IH]. unfold close_entry.
    destruct (entries s0 !! e) as [en|]; [|done]. etrans; [apply (still_clear (en_idleTimer en))|]. apply still_close. }
  unfold closeOpenAICodexWebSocketSessions. destruct sess as [[|? ?]|]; apply Hall.
Qed.

Lemma calm_of_still s s' : still s s' -> calm s s'.
Proof.
  intros [Hs He Hr]. constructor; [..|by rewrite Hr].
  - intros i k' Hk. specialize (Hs i). rewrite Hk in Hs. simpl in Hs. destruct (sockets s !! i) as [k|]; [|done].
    injection Hs as Hs. eauto.
  - intros e en' Hen. specialize (He e). rewrite Hen in He. simpl in He. destruct (entries s !! e) as [en|]; [|done].
    injection He as H1 H2. eauto.
Qed.

Lemma calm_phase s s' r p : (forall l c full sent, p ≠ Streaming l c full sent) -> calm s s' -> calm s (set_phase r p s').
Proof.
  intros Hp []. constructor; try done. intros r' l c full sent. simpl. rewrite lookup_insert. case_decide; [|by eauto].
  intros [= ->]. by destruct (Hp l c full sent).
Qed.

Lemma calm_still s s' r p : still s s' -> (forall l c full sent, p ≠ Streaming l c full sent) -> calm s (set_phase r p s').
Proof. intros. by apply calm_phase, calm_of_still. Qed.

Lemma context_calm s s' : pool_ok s -> calm s s' -> context_ok s -> context_ok s'.
Proof.
  intros Hok [Hs He Hr] [Cen Csent Cans]. constructor.
  - intros e en' c k' Hen Hc Hk. apply He in Hen as [?|(en & Hen & Hsock & Hcont)]; [congruence|].
    rewrite Hsock in Hk. apply Hs in Hk as [[_ Hk]|(k & Hk & ->)].
    + destruct (pl_owned s Hok e (en_socket en) (en_busy en)) as [x Hx]; [unfold own; by rewrite Hen|].
      unfold home_of in Hx. by rewrite Hk in Hx.
    + eapply Cen; [done| |done]. congruence.
  - intros r l c full sent k' Hreq Hk. apply Hr in Hreq. apply Hs in Hk as [[_ Hk]|(k & Hk & ->)]; [|by eauto].
    destruct (pl_held s Hok r (lease_socket l)) as [x Hx]; [unfold holds; by rewrite Hreq|]. unfold home_of in Hx. by rewrite Hk in Hx.
  - intros i k' Hk. apply Hs in Hk as [[-> _]|(k & Hk & ->)]; [constructor|by eauto].
Qed.

(** Histories only grow. *)
Definition grows (h h' : history) : Prop := memory h ⊆ memory h' /\ answers h ⊆ answers h'.

Lemma remembers_grows h h' c : grows h h' -> remembers h c -> remembers h' c.
Proof.
  intros [Hm Ha] (? & ? & ctx & Hc & Hag). split_and!; try done. exists ctx.
  split; [by eapply lookup_weaken|by eapply agrees_grows].
Qed.

Lemma covers_grows h h' body input : grows h h' -> covers h body input -> covers h' body input.
Proof.
  intros [Hm Ha] (ctx & Hc & Hag). exists ctx. split; [|by eapply agrees_grows]. revert Hc.
  unfold request_context. destruct (lookup_field _ body) as [[]|]; try done.
  destruct (memory h !! s) as [x|] eqn:Hx; [|done]. by rewrite (lookup_weaken _ _ _ _ Hx Hm).
Qed.

Lemma answers_grow sent id given items k k' :
  record_response sent id given items k = Some k' -> grows (sk_history k) (sk_history k').
Proof.
  unfold record_response. destruct id as [id|]; [|by intros [= <-]]. destruct (request_context _ sent); [|done]. simpl.
  case_bool_decide; [|done]. intros [= <-]. split; simpl; [by apply insert_subseteq|]. destruct items; set_solver.
Qed.

Lemma context_answered s i k k' :
  sockets s !! i = Some k -> grows (sk_history k) (sk_history k') -> Forall answer_of (answers (sk_history k')) -> context_ok s -> context_ok (set_sockets (<[i := k']> (sockets s)) s).
Proof.
  intros Hi Hm Hans [Ce Cs Ca]. constructor; simpl.
  - intros e en c k0 He Hc. rewrite lookup_insert. case_decide as Hd; [|by eauto]. intros [= <-]. rewrite Hd in Hi. by eapply remembers_grows, Ce.
  - intros r l c full sent k0 Hr. rewrite lookup_insert. case_decide as Hd; [|by eauto]. intros [= <-]. rewrite Hd in Hi.
    destruct (Cs _ _ _ _ _ _ Hr Hi) as (? & Hx & ?). split_and!; try done. by eapply covers_grows.
  - intros j k0. rewrite lookup_insert. case_decide; [by intros [= <-]|by eauto].
Qed.

(** Setting the continuation of an entry. *)
Lemma context_continuation s e c :
  (forall en k c', entries s !! e = Some en -> sockets s !! en_socket en = Some k -> c = Some c' -> remembers (sk_history k) c') ->
  context_ok s -> context_ok (set_entry e (with_continuation c) s).
Proof.
  intros Hc [Ce Cs Ca]. constructor; [|done|done]. intros e' en' c' k. simpl. destruct (decide (e' = e)) as [->|]; [|rewrite lookup_alter_ne by done; by eauto].
  rewrite lookup_alter_eq. destruct (entries s !! e) as [en|] eqn:He; [|done]. intros [= <-]. simpl. eauto.
Qed.

Lemma context_send s r l c full :
  requests s !! r = Some (Acquired l) -> plain_body full -> pool_ok s -> context_ok s ->
  let '(s', sent) := send_request num_to_string l c full s in context_ok (set_phase r (Streaming l c full sent) s').
Proof.
  intros Hr Hb Hok Hcx.
  assert (Hset : forall s' sent, requests s' = requests s -> context_ok s' ->
    (forall k, sockets s' !! lease_socket l = Some k -> covers (sk_history k) sent (body_input full) /\
       requestBodyWithoutInput sent = requestBodyWithoutInput full) -> context_ok (set_phase r (Streaming l c full sent) s')).
  { intros s' sent Hq [Ce Cs Ca] Hs. constructor; [done| |done]. intros r' l' c' full' sent' k. simpl. rewrite lookup_insert. case_decide; [|by eauto].
    intros [= <- <- <- <-]. by eauto. }
  assert (Hfull : context_ok (set_phase r (Streaming l c full full) s)).
  { apply Hset; [done..|]. intros k _. split; [|done]. exists (body_input full). unfold request_context. rewrite (proj2 Hb).
    split; [done|apply agrees_refl]. }
  unfold send_request. destruct (lease_entry l) as [e|] eqn:Hl; [|done]. destruct c; [|done].
  destruct (pl_leased s Hok r e) as (i & Ho & Hh); [unfold leases; by rewrite Hr|].
  assert (i = lease_socket l) as -> by (unfold holds in Hh; rewrite Hr in Hh; simpl in Hh; congruence).
  unfold own in Ho. destruct (entries s !! e) as [en|] eqn:He; [|done]. injection Ho as Hsock _. simpl.
  destruct (pl_held s Hok _ _ Hh) as [x Hx]. unfold home_of in Hx. destruct (sockets s !! lease_socket l) as [k|] eqn:Hk; [|done].
  assert (Hrem : forall k0, en_continuation en = Some k0 -> remembers (sk_history k) k0).
  { intros k0 Hk0. eapply (cx_entry s Hcx); [done|done|]. by rewrite Hsock. }
  destruct (buildCachedWebSocketRequestBody _ _ _) as [sent c'] eqn:Hbuild.
  pose proof (cached_body _ (sk_history k) _ _ _ Hb Hrem Hbuild) as (Hctx & Hrest & Hc').
  apply Hset; [done| |].
  - apply context_continuation; [|done]. intros en0 k1 c0 H1 H2 ->. simplify_eq. rewrite Hsock in H2. rewrite Hk in H2. simplify_eq.
    destruct Hc' as [?|Hc']; [done|]. by apply Hrem.
  - intros k1. simpl. rewrite Hk. intros [= <-]. done.
Qed.

Lemma context_finish s r l c full sent o :
  requests s !! r = Some (Streaming l c full sent) -> pool_ok s -> context_ok s ->
  (forall m props id output given aborted items k, o = Responded m props (Some id) output given aborted ->
     response_items num_to_string syntax_error m props output (now s) = Ok items -> sockets s !! lease_socket l = Some k ->
     remembers (sk_history k) (Continuation full id items)) ->
  context_ok (set_phase r Ended (finish_request numbered num_to_string syntax_error l c full o s)).
Proof.
  intros Hr Hok Hcx Ho.
  assert (Hrel : forall s' keep, pool_ok s' -> context_ok s' -> context_ok (set_phase r Ended (release numbered l keep s'))).
  { intros s' keep Hok' Hcx'. eapply context_calm; [exact Hok'| |exact Hcx']. apply calm_still; [apply still_release|done]. }
  assert (Hent : forall e en, lease_entry l = Some e -> entries s !! e = Some en -> en_socket en = lease_socket l).
  { intros e en He Hen. destruct (pl_leased s Hok r e) as (i & Hi & Hh); [unfold leases; by rewrite Hr|].
    unfold own in Hi. rewrite Hen in Hi. unfold holds in Hh. rewrite Hr in Hh. simpl in *. congruence. }
  assert (Hfail : context_ok (set_phase r Ended (release numbered l false (on_entry l (with_continuation None) s)))).
  { apply Hrel; [by apply ok_on_entry|]. unfold on_entry. destruct (lease_entry l) as [e|]; [|done]. by apply context_continuation. }
  destruct o as [m props id output given []|]; cbn [finish_request]; [by apply Hrel| |done].
  destruct id as [id|]; [|by apply Hrel]. destruct (lease_entry l) as [e|] eqn:Hl; [|by apply Hrel].
  destruct (_ && _); [|by apply Hrel]. destruct (response_items _ _ _ _ _ _) as [items|x] eqn:Hitems; [|done].
  apply Hrel; [by apply ok_continuation|]. apply context_continuation; [|done].
  intros en k c' He Hk [= <-]. rewrite (Hent e en) in Hk by done. by eapply Ho.
Qed.

Lemma answered_remembers sent id given items full k k' :
  plain_body full -> Forall printable items -> covers (sk_history k) sent (body_input full) ->
  record_response sent (Some id) given (Ok items) k = Some k' -> remembers (sk_history k') (Continuation full id items).
Proof.
  intros Hb Hi (ctx & Hc & Ha). unfold record_response. rewrite Hc. simpl. case_bool_decide; [|done]. intros [= <-].
  split_and!; [done|done|]. exists (ctx ++ given). simpl. split; [apply lookup_insert_eq|]. apply agrees_app.
  - eapply agrees_grows; [|done]. set_solver.
  - apply agrees_one. left.
Qed.

Lemma recorded_answers sent id given items k k' :
  Forall answer_of (answers (sk_history k)) -> (forall i x, id = Some i -> items = Ok x -> answer_of (given, x)) ->
  record_response sent id given items k = Some k' -> Forall answer_of (answers (sk_history k')).
Proof.
  intros Hk Hn. unfold record_response. destruct id as [id|]; [|by intros [= <-]]. destruct (request_context _ sent); [|done]. simpl.
  case_bool_decide; [|done]. intros [= <-]. simpl. destruct items; [|done]. constructor; [by eapply Hn|done].
Qed.

Lemma context_step s ev s' :
  pool_step numbered num_to_string syntax_error s ev = Some s' -> plain_event ev -> ev ∈ all -> pool_ok s -> context_ok s -> context_ok s'.
Proof.
  intros Hs Hev Hin Hok Hcx.
  assert (Hcalm : calm s s' -> context_ok s') by (intros; by eapply context_calm).
  destruct ev; simpl in Hs.
  - destruct (acquireWebSocket _ _ _ _ s) as [s1 p] eqn:Ha. simplify_eq. apply Hcalm.
    apply (calm_still s (pool_tick s1)); [apply still_acquire in Ha; etrans; [exact Ha|done]|].
    intros * ->. unfold acquireWebSocket in Ha. by repeat case_match.
  - destruct (requests s !! r) as [[]|] eqn:Hr; try done. apply Hcalm. destruct works; simplify_eq; [|by apply calm_still].
    apply calm_phase; [done|]. constructor; simpl; try by eauto. intros i k'. rewrite lookup_insert. case_decide; [|by eauto].
    intros [= <-]. left. split; [done|]. subst. destruct (sockets s !! next s) eqn:Hx; [|done].
    pose proof (pl_sockets s Hok (next s)) as Hlt. unfold home_of in Hlt. rewrite Hx in Hlt. specialize (Hlt ltac:(by eauto)). lia.
  - destruct (requests s !! r) as [[]|] eqn:Hr; try done. case_bool_decide; [|done]. simplify_eq. apply Hcalm, calm_still; [by apply still_alter|done].
  - destruct (requests s !! r) as [[]|] eqn:Hr; try done. simplify_eq. apply Hcalm, calm_still; [by apply still_alter|done].
  - destruct (requests s !! r) as [[]|] eqn:Hr; try done. simplify_eq. apply Hcalm, calm_still; [apply still_close|done].
  - destruct (requests s !! r) as [[]|] eqn:Hr; try done. apply Hcalm. destruct keep as [k|]; simpl in Hs; simplify_eq; [|by apply calm_still].
    apply calm_phase; [done|]. constructor; simpl; try by eauto. intros e en'. rewrite lookup_insert. case_decide; [|by eauto].
    intros [= <-]. by left.
  - destruct (requests s !! r) as [[]|] eqn:Hr; try done.
    pose proof (context_send s r l useCachedContext fullBody Hr Hev Hok Hcx) as H. destruct (send_request _ _ _ _ s). by simplify_eq.
  - destruct (requests s !! r) as [[]|] eqn:Hr; try done. destruct o as [m props id output given aborted|].
    2: { simplify_eq. by apply (context_finish s r l useCachedContext fullBody sent Failed). }
    destruct (sockets s !! lease_socket l) as [k|] eqn:Hk; [|done]. simpl in Hs.
    destruct (record_response sent id given _ k) as [k'|] eqn:Hk'; [|done]. simpl in Hs. simplify_eq.
    pose proof (record_same _ _ _ _ _ _ Hk') as [Hh Hrd].
    apply (context_finish (set_sockets (<[lease_socket l := k']> (sockets s)) s) r l useCachedContext fullBody sent (Responded m props id output given aborted));
      [done|by eapply ok_answered|eapply context_answered; [done|by eapply answers_grow| |done]|].
    { eapply recorded_answers; [by eapply (cx_answers s Hcx)| |done]. intros i x -> Hx. eexists _, _, _, _, _, _, _. by split. }
    intros m' props' id' output' given' ab' items k0 [= <- <- -> <- <- <-] Hitems. simpl in Hitems |- *.
    rewrite lookup_insert_eq. intros [= <-]. rewrite Hitems in Hk'.
    destruct (cx_sent s Hcx _ _ _ _ _ _ Hr Hk) as (? & ? & _). eapply answered_remembers; [done|by eapply Hev|done|done].
  - destruct (requests s !! r) as [[]|] eqn:Hr; try done. simplify_eq. apply Hcalm, calm_of_still, still_close.
  - destruct (sk_ready <$> _) as [[]|]; try done; destruct state; simplify_eq; apply Hcalm, calm_of_still; by apply still_alter.
  - destruct (timers s !! t) as [tm|]; [|done]. destruct (_ <=? _); [|done]. simplify_eq. apply Hcalm, calm_of_still.
    etrans; [apply (still_clear (Some t))|]. unfold on_expiry. simpl. destruct (entries s !! _) as [en|]; [|done].
    destruct (en_busy en); [done|]. etrans; [|apply still_uncache]. apply (still_close (en_socket en)).
  - simplify_eq. apply Hcalm, calm_of_still, still_sessions.
  - destruct (0 <=? d); [|done]. simplify_eq. apply Hcalm, calm_of_still. done.
Qed.

Lemma context_run evs s : evs ⊆ all -> Forall plain_event evs -> pool_run numbered num_to_string syntax_error no_pool evs = Some s -> context_ok s.
Proof.
  assert (H : forall evs s s', evs ⊆ all -> Forall plain_event evs -> pool_ok s -> context_ok s ->
    pool_run numbered num_to_string syntax_error s evs = Some s' -> context_ok s').
  { clear. intros evs. induction evs as [|ev evs IH]; intros s s' Hin Hev Hok Hcx; simpl; [by intros [= <-]|].
    apply Forall_cons in Hev as [He Hev]. destruct (pool_step _ _ _ s ev) as [s1|] eqn:Hs; [|done]. simpl.
    apply IH; [set_solver|done|by eapply ok_step|]. eapply context_step; [done|done|set_solver|done|done]. }
  intros Hin Hev. apply H; [done|done|apply ok_none|]. constructor; intros *; simpl; by rewrite lookup_empty.
Qed.
End Context.

(** C19: The whole conversation reaches the server: whatever was sent on the
    connection before, by whichever requests, and whatever failed, what a request
    puts on the wire stands, with the history of this connection, for the input
    the request was built with: item by item the same, but for responses given on
    the connection, which the server has as it gave them where the input has what
    [convertResponsesMessages] makes of their messages; and every other field is
    sent as it is.  The bodies are data without a [previous_response_id], as
    [buildRequestBody] makes them, the numbers in the items are no [NaN] or the
    like, and the server names each response of a connection anew. *)
Theorem codex_context_complete numbered num_to_string syntax_error evs s :
  pool_run numbered num_to_string syntax_error no_pool evs = Some s -> Forall (plain_event num_to_string syntax_error) evs ->
  forall r l useCachedContext full sent, requests s !! r = Some (Streaming l useCachedContext full sent) ->
  exists k context, sockets s !! lease_socket l = Some k /\
    request_context (sk_history k) sent = Some context /\ agrees (answers (sk_history k)) context (body_input full) /\
    Forall (answer_of num_to_string syntax_error evs) (answers (sk_history k)) /\
    requestBodyWithoutInput sent = requestBodyWithoutInput full.
Proof.
  intros Hrun Hev r l c full sent Hr. pose proof (ok_run _ _ _ _ _ Hrun) as Hok. pose proof (context_run _ _ _ evs evs s (reflexivity evs) Hev Hrun) as Hcx.
  destruct (pl_held s Hok r (lease_socket l)) as [x Hx]; [unfold holds; by rewrite Hr|]. unfold home_of in Hx.
  destruct (sockets s !! lease_socket l) as [k|] eqn:Hk; [|done]. destruct (cx_sent _ _ _ _ Hcx _ _ _ _ _ _ Hr Hk) as (_ & (ctx & Hc & Ha) & Hrest).
  exists k, ctx. split_and!; try done. by apply (cx_answers _ _ _ _ Hcx (lease_socket l)).
Qed.

(** ** Runs *)

(** Two turns of a conversation and the events of their requests: a message and a
    call come back; the server had more to say of the message than the client
    sends back. *)
Definition codex_model : model :=
  Model (js "gpt-5") (js "GPT") (js "openai-codex-responses") (js "openai-codex") (js "https://chatgpt.com/backend-api") true
    [js "text"] 200000 64000 (CostRates 3 15 (3 # 10) (15 # 4)) None None None.

Definition hello_output : assistant :=
  Assistant (js "openai-codex") (js "openai-codex-responses") (js "gpt-5")
    [BText (js "hello") (Some (js "msg_1")); BToolCall (ToolCall (js "c1|fc_1") (js "read") (JObj []) None None)] ToolUse None zero_usage 0.

Definition hello_given : list json := [JStr (js "hello, in full"); JStr (js "the call")].
Definition hello_items : list json :=
  [JObj [(js "type", jstring "message"); (js "role", jstring "assistant");
         (js "content", JArr [JObj [(js "type", jstring "output_text"); (js "text", jstring "hello"); (js "annotations", JArr [])]]);
         (js "status", jstring "completed"); (js "id", jstring "msg_1")];
   JObj [(js "type", jstring "function_call"); (js "id", jstring "fc_1"); (js "call_id", jstring "c1"); (js "name", jstring "read");
         (js "arguments", jstring "{}")]].

Definition no_message (_ : jstr) : jstr := [].

Definition first_body : fields := [(js "store", JBool false); (js "input", JArr [JStr (js "hi")])].
Definition second_body : fields :=
  [(js "store", JBool false); (js "input", JArr (JStr (js "hi") :: hello_items ++ [JStr (js "the result")]))].

Definition first_turn : list pool_event :=
  [Acquire (js "wss://a") (Some (js "s")) (js "acc"); Construct 0 true; Opens 0; Resume 0;
   Send 0 true first_body; Finish 0 (Responded codex_model ∅ (Some (js "r1")) hello_output hello_given false)].
Definition second_turn : list pool_event := [Wait 1000; Acquire (js "wss://a") (Some (js "s")) (js "acc"); Send 4 true second_body].

Definition pool_after (evs : list pool_event) : socket_pool := default no_pool (pool_run true int_num_str no_message no_pool evs).

Lemma first_turn_runs : pool_run true int_num_str no_message no_pool first_turn = Some (pool_after first_turn).
Proof. vm_compute. reflexivity. Qed.

Lemma second_turn_runs : pool_run true int_num_str no_message no_pool (first_turn ++ second_turn) = Some (pool_after (first_turn ++ second_turn)).
Proof. vm_compute. reflexivity. Qed.

Example hello_converted : response_items int_num_str no_message codex_model ∅ hello_output 0 = Ok hello_items.
Proof. vm_compute. reflexivity. Qed.

Ltac printable_data :=
  repeat first [apply js_range | apply (bool_decide_unpack _); vm_compute; exact I | reflexivity | constructor].

Lemma bodies_plain : plain_body int_num_str first_body /\ plain_body int_num_str second_body.
Proof. split; (split; [|reflexivity]); printable_data. Qed.

Lemma hello_plain t items : response_items int_num_str no_message codex_model ∅ hello_output t = Ok items -> Forall (printable int_num_str) items.
Proof.
  intros H. assert (E : response_items int_num_str no_message codex_model ∅ hello_output t = Ok hello_items) by (vm_compute; reflexivity).
  rewrite E in H. injection H as <-. printable_data.
Qed.

Lemma codex_sockets_exclusive_witness : (forall r1 r2 i,
  holds (pool_after first_turn) r1 = Some i -> holds (pool_after first_turn) r2 = Some i -> r1 = r2) /\
  exists k, sockets (pool_after first_turn) !! 1%nat = Some k /\ sk_home k = (Some (js "s"), js "acc") /\ sk_ready k = OPEN.
Proof.
  destruct (codex_sockets_exclusive true int_num_str no_message first_turn _ first_turn_runs) as [H1 H2]. split; [exact H1|].
  set (a := acquireWebSocket true (js "wss://a") (Some (js "s")) (js "acc") (pool_after first_turn)).
  destruct (H2 (js "wss://a") (Some (js "s")) (js "acc") a.1 (Reused (js "s", js "acc") 2 1)) as (ss & e & en & k & Hss & Hl & _ & Hk & Hh & _ & Hr & _).
  { vm_compute. reflexivity. }
  injection Hss as Hss. injection Hl as _ _ Hl. rewrite <-Hl in Hk. exists k. split; [exact Hk|]. rewrite Hss. auto.
Defined.

Lemma codex_sockets_drain_witness : exists s', cache s' = ∅ /\ timers s' = ∅ /\ alive (pool_after first_turn) 1 = true /\ alive s' 1 = false.
Proof.
  destruct (codex_sockets_drain true int_num_str no_message first_turn _ first_turn_runs) as [_ (ts & s' & _ & _ & Ht & Ha & Hc)].
  - intros r p. assert (Hr : requests (pool_after first_turn) = {[0%nat := Ended]}) by (vm_compute; reflexivity).
    rewrite Hr, lookup_singleton_Some. intros [_ <-]. reflexivity.
  - exists s'. split; [exact Hc|]. split; [exact Ht|]. split; [vm_compute; reflexivity|apply Ha].
Defined.

Lemma codex_context_complete_witness :
  exists sent k, requests (pool_after (first_turn ++ second_turn)) !! 4%nat = Some (Streaming (Reused (js "s", js "acc") 2 1) true second_body sent) /\
    body_input sent = [JStr (js "the result")] /\ lookup_field (js "previous_response_id") sent = Some (JStr (js "r1")) /\
    request_context (sk_history k) sent = Some (JStr (js "hi") :: hello_given ++ [JStr (js "the result")]) /\
    agrees (answers (sk_history k)) (JStr (js "hi") :: hello_given ++ [JStr (js "the result")]) (body_input second_body).
Proof.
  set (sent := [(js "store", JBool false); (js "input", JArr [JStr (js "the result")]); (js "previous_response_id", JStr (js "r1"))]).
  assert (Hr : requests (pool_after (first_turn ++ second_turn)) !! 4%nat = Some (Streaming (Reused (js "s", js "acc") 2 1) true second_body sent))
    by (vm_compute; reflexivity).
  assert (Hev : Forall (plain_event int_num_str no_message) (first_turn ++ second_turn))
    by (destruct bodies_plain as [H1 H2]; unfold first_turn, second_turn; cbn [app];
        repeat (apply Forall_cons; split; [first [exact I | exact H1 | exact H2 | exact hello_plain]|]); constructor).
  destruct (codex_context_complete true int_num_str no_message _ _ second_turn_runs Hev _ _ _ _ _ Hr) as (k & ctx & Hs & Hk & Ha & _).
  assert (Hc : ctx = JStr (js "hi") :: hello_given ++ [JStr (js "the result")]).
  { vm_compute in Hs. injection Hs as <-. vm_compute in Hk. injection Hk as <-. vm_compute. reflexivity. }
  rewrite Hc in Hk, Ha. exists sent, k. split; [exact Hr|]. split; [reflexivity|]. split; [reflexivity|]. split; [exact Hk|exact Ha].
Defined.

(** A cached socket is lent whatever address the request is for: one opened for
    the server of one model carries the requests to that of another. *)
Lemma cached_socket_other_address numbered s sess acc s' l url url' :
  acquireWebSocket numbered url sess acc s = (s', Acquired l) -> acquireWebSocket numbered url' sess acc s = (s', Acquired l).
Proof.
  unfold acquireWebSocket. destruct sess as [[|c sess]|]; try done. destruct (cached s _) as [e|]; [|done].
  destruct (entries s !! e) as [en|]; [|done]. destruct (negb _ && negb _ && _); [done|]. by destruct (en_busy en).
Qed.

Example socket_of_another_server :
  let s := pool_after first_turn in
  (acquireWebSocket true (js "wss://b") (Some (js "s")) (js "acc") s).2 = Acquired (Reused (js "s", js "acc") 2 1) /\
  sk_url <$> sockets s !! 1%nat = Some (js "wss://a").
Proof. vm_compute. done. Qed.
