(* ===== verification/PiBridge.v ===== *)
(** The bridge process, src/drivers/tools/pibridge/bridge.ts (lines 116485 and
    following of the bundle bridge.mjs): frames, model resolution, generation
    and its error classification, workspace requests under a serialised process
    environment, and the handling of input lines. *)
From S2P Require Import Prelude Utf8 Numbers Json Messages Regex ProviderErrors Models EventStream Faux Estimate.
Open Scope Z_scope.

Definition JInt (n : Z) : json := JNum (Finite (inject_Z n)).
Definition get_opt (key : jstr) (v : option json) : option json := v ≫= get key.

(** * Errors and frames *)

(** A thrown value as [failure] looks at it: its [name] and [message] (those of
    [new Error(String(error))] when it is no [Error]), whether it is a
    [BridgeValidationError], and its [status], [code] and [retryAfterMS]. *)
Record error := Err {
  e_validation : bool;
  e_name : jstr; e_message : jstr;
  e_status : option json; e_code : option json; e_retryAfterMS : option json
}.

Definition new_Error (message : jstr) : error := Err false (js "Error") message None None None.
Definition TypeError (message : jstr) : error := Err false (js "TypeError") message None None None.
Definition BridgeValidationError (message : jstr) : error := Err true (js "Error") message None None None.

(** What the bridge writes, a frame per line. *)
Inductive frame :=
| Ready (node : jstr)
| ProtocolError (detail : jstr)
| ProgressFrame (id : jstr) (event : option json)
| ResultFrame (id : jstr) (value : option json)
| ErrorFrame (id code : jstr) (status : option Z) (provider_code : option jstr)
    (retry_after_ms : option json) (detail : jstr).

Definition frame_json (f : frame) : json :=
  match f with
  | Ready node =>
      obj [(js "kind", Some (JStr (js "ready"))); (js "protocol", Some (JInt 1));
           (js "node", Some (JStr node)); (js "pi", Some (JStr (js "0.85.1")))]
  | ProtocolError d => obj [(js "kind", Some (JStr (js "protocol_error"))); (js "detail", Some (JStr d))]
  | ProgressFrame id e =>
      obj [(js "id", Some (JStr id)); (js "kind", Some (JStr (js "progress"))); (js "event", e)]
  | ResultFrame id v =>
      obj [(js "id", Some (JStr id)); (js "kind", Some (JStr (js "result"))); (js "value", v)]
  | ErrorFrame id code st pc ra d =>
      obj [(js "id", Some (JStr id)); (js "kind", Some (JStr (js "error"))); (js "code", Some (JStr code));
           (js "status", JInt <$> st); (js "provider_code", JStr <$> pc); (js "retry_after_ms", ra);
           (js "detail", Some (JStr d))]
  end.

(** [send(frame)]: the text written to stdout. *)
Definition send (num_to_string : Q -> jstr) (f : frame) : jstr :=
  JSON_stringify num_to_string (frame_json f) ++ [LF].

(** [/^[A-Za-z0-9_.-]{1,80}$/.test(s)] *)
Definition code_char (c : Z) : bool :=
  ((65 <=? c) && (c <=? 90)) || ((97 <=? c) && (c <=? 122)) || is_digit c ||
  (c =? 95) || (c =? 46) || (c =? 45).

Definition safe_code (s : jstr) : bool :=
  (1 <=? length s)%nat && (length s <=? 80)%nat && forallb code_char s.

Definition safe_string (v : option json) : option jstr :=
  match v with Some (JStr s) => if safe_code s then Some s else None | _ => None end.

(** [Number.isInteger(v) ? v : undefined] *)
Definition integer_field (v : option json) : option Z :=
  match v with
  | Some (JNum (Finite q)) => if isInteger (Finite q) then Some (floor q) else None
  | _ => None
  end.

(** The codes of an HTTP status, shared by [failure] and [generate]. *)
Definition status_code (status : option Z) (otherwise : jstr) : jstr :=
  match status with
  | None => otherwise
  | Some s =>
      if s =? 429 then js "rate_limited"
      else if s =? 401 then js "auth"
      else if s =? 403 then js "permission"
      else if s =? 404 then js "model_not_found"
      else if (s =? 400) || (s =? 422) then js "invalid_args"
      else if (s =? 408) || (s =? 409) || (500 <=? s) then js "transient_provider"
      else otherwise
  end.

Definition has_code (c : jstr) (v : option json) : bool := bool_decide (v = Some (JStr c)).

Definition failure (id op : jstr) (e : error) : frame :=
  let code := if starts_with (js "workspace.") op then js "tool_failed" else js "provider_error" in
  let code :=
    if streq (e_name e) (js "AbortError") then js "cancelled"
    else if starts_with (js "unknown or ambiguous model") (e_message e) then js "model_not_found"
    else if starts_with (js "Validation failed for tool") (e_message e) then js "invalid_args"
    else code in
  if streq op (js "llm.generate") then
    let status := integer_field (e_status e) in
    let code :=
      if streq code (js "provider_error") then
        let code := status_code status (js "unknown_provider_error") in
        let code := if has_code (js "transport_error") (e_code e) then js "transport_error" else code in
        if has_code (js "cancelled") (e_code e) then js "cancelled" else code
      else code in
    let code := if e_validation e then js "invalid_args" else code in
    ErrorFrame id code status (safe_string (e_code e)) (e_retryAfterMS e)
      (if e_validation e then e_message e
       else js "Provider request failed (" ++ code ++ js "); raw provider text is not exposed")
  else ErrorFrame id code None None None (e_message e).

(** * Models *)

Definition string_or_empty (v : option json) : jstr := match v with Some (JStr s) => s | _ => [] end.

Definition resolveModel (r : registry) (provider modelId : option json) : option model :=
  let p := string_or_empty provider in
  let m := string_or_empty modelId in
  let '(p, m) :=
    if negb (truthy p) then
      match index_of (js "/") m with
      | Some i => (take i m, drop (i + 1) m)
      | None => (p, m)
      end
    else (p, m) in
  if truthy p && truthy m then getModel p m r
  else if truthy m then
    match List.filter (fun v => streq (m_id v) m) (getModels None r) with
    | [c] => Some c
    | _ => None
    end
  else None.

Definition strings (l : list jstr) : json := JArr (map JStr l).

(** The answer of [llm.models]. *)
Definition model_json (m : model) : json :=
  obj [(js "id", Some (JStr (m_id m))); (js "name", Some (JStr (m_name m)));
       (js "provider", Some (JStr (m_provider m))); (js "api", Some (JStr (m_api m)));
       (js "reasoning", Some (JBool (m_reasoning m))); (js "input", Some (strings (m_input m)));
       (js "contextWindow", Some (JInt (m_contextWindow m))); (js "maxTokens", Some (JInt (m_maxTokens m)));
       (js "thinking_levels",
        Some (strings (map fst (List.filter (fun kv => match kv.2 with None => false | Some _ => true end)
                (nullish (m_thinkingLevelMap m) [])))))].

Definition models_value (r : registry) (args : option json) : json :=
  let provider := match get_opt (js "provider") args with Some (JStr p) => Some p | _ => None end in
  JObj [(js "models", JArr (map model_json (getModels provider r)))].

(** * Images *)

Definition base64_char (c : Z) : bool :=
  ((65 <=? c) && (c <=? 90)) || ((97 <=? c) && (c <=? 122)) || is_digit c || (c =? 43) || (c =? 47).

(** [/^[A-Za-z0-9+/]*={0,2}$/.test(data)] *)
Definition base64_shape (data : jstr) : bool :=
  let body := drop_while (fun c => c =? 61) (rev data) in
  (length data - length body <=? 2)%nat && forallb base64_char body.

(** [Buffer.from(data, "base64").byteLength] of text of that shape whose length
    is a multiple of four. *)
Definition base64_bytes (data : jstr) : Z :=
  let pads := Z.of_nat (length data) - Z.of_nat (length (drop_while (fun c => c =? 61) (rev data))) in
  Z.of_nat (length data) / 4 * 3 - pads.

Definition IMAGE_TYPES : list jstr := map js ["image/png"; "image/jpeg"; "image/gif"; "image/webp"].

Definition valid_image (image : json) : bool :=
  match get (js "data") image, get (js "mimeType") image with
  | Some (JStr data), Some (JStr mime) =>
      (Z.of_nat (length data) mod 4 =? 0) && base64_shape data &&
      (base64_bytes data <=? 10 * 1024 * 1024) && existsb (streq mime) IMAGE_TYPES
  | _, _ => false
  end.

(** [(args.messages || []).flatMap(...).filter(...)]; only an array has
    [flatMap]. *)
Definition message_images (args : json) : result error (list json) :=
  match or_else (get (js "messages") args) (Some (JArr [])) with
  | Some (JArr ms) =>
      let blocks := flat_map (fun m => match get (js "content") m with Some (JArr l) => l | _ => [] end) ms in
      Ok (List.filter (fun b => has_code (js "image") (get (js "type") b)) blocks)
  | _ => Throw (TypeError (js "(args.messages || []).flatMap is not a function"))
  end.

(** * Generation *)

(** What a failed HTTP exchange leaves in [failureInfo]. *)
Record failure_info := FailureInfo {
  fi_status : option Z; fi_retryAfterMS : option Z; fi_code : option jstr
}.

(** The call of [models.streamSimple]: the context, and the options less those
    that are functions ([signal], [fetch]). *)
Record stream_call := StreamCall {
  sc_model : model;
  sc_systemPrompt : option json; sc_messages : option json; sc_tools : option json;
  sc_options : list (jstr * json)
}.

(** [{ ...v }]: the own properties of a value. *)
Definition spread_fields (v : option json) : list (jstr * json) :=
  match v with
  | Some (JObj fs) => fs
  | Some (JArr l) => imap (fun i x => (num_str (Z.of_nat i), x)) l
  | Some (JStr s) => imap (fun i c => (num_str (Z.of_nat i), JStr [c])) s
  | _ => []
  end.

Definition FETCH_APIS : list jstr := map js ["anthropic-messages"; "openai-completions"; "openai-responses"].
Definition uses_fetch (m : model) : bool := existsb (streq (m_api m)) FETCH_APIS.

Definition generate_options (m : model) (args : json) : list (jstr * json) :=
  let given := spread_fields (get (js "options") args) in
  let options := set_field (js "maxRetries") (JInt 0) (delete_field (js "signal") given) in
  let options := if uses_fetch m then delete_field (js "fetch") options else options in
  let options := match get (js "api_key") args with
                 | Some (JStr k) => if truthy k then set_field (js "apiKey") (JStr k) options else options
                 | _ => options
                 end in
  delete_field (js "faux_supports_images")
    (delete_field (js "faux_tool_call") (delete_field (js "faux_response") options)).

(** The response queued on the scripted provider; [random] is [randomId("tool")]. *)
Definition scripted_response (random : jstr) (args : json) : list json * jstr :=
  let options := get (js "options") args in
  let scripted := get_opt (js "faux_tool_call") options in
  match get_opt (js "name") scripted with
  | Some (JStr name) =>
      ([obj [(js "type", Some (JStr (js "toolCall")));
             (js "id", or_nullish (get_opt (js "id") scripted) (Some (JStr random)));
             (js "name", Some (JStr name));
             (js "arguments", or_else (get_opt (js "arguments") scripted) (Some (JObj [])))]], js "toolUse")
  | _ =>
      (match or_else (get_opt (js "faux_response") options) (Some (JStr (js "faux response"))) with
       | Some (JStr t) => [obj [(js "type", Some (JStr (js "text"))); (js "text", Some (JStr t))]]
       | Some (JArr l) => l
       | Some v => [v]
       | None => []
       end, js "stop")
  end.

Section Generate.
Context (num_to_string : Q -> jstr).

(** [`${v || ""}`] *)
Definition or_empty_text (v : option json) : jstr :=
  to_string_opt num_to_string (or_else v (Some (JStr []))).

(** [generate2] up to its first [await]: the call it makes, and what it queues
    on the scripted provider. *)
Definition generate_start (r : registry) (random : jstr) (args : json)
  : result error (stream_call * option (list json * jstr)) :=
  match resolveModel r (get (js "provider") args) (get (js "model") args) with
  | None =>
      Throw (new_Error (js "unknown or ambiguous model " ++ or_empty_text (get (js "provider") args) ++
               js "/" ++ or_empty_text (get (js "model") args)))
  | Some m =>
      let! images := message_images args in
      if match images with [] => false | _ => true end &&
         (negb (existsb (streq (js "image")) (m_input m)) ||
          bool_decide (get_opt (js "faux_supports_images") (get (js "options") args) = Some (JBool false)))
      then Throw (BridgeValidationError (js "model does not support image input"))
      else if negb (forallb valid_image images) then
        Throw (BridgeValidationError
          (js "tool image is invalid, unsupported, or exceeds the 10 MiB decoded limit"))
      else
        let scripted := if streq (m_provider m) (js "faux") then Some (scripted_response random args) else None in
        Ok (StreamCall m (or_else (get (js "system_prompt") args) (Some (JStr [])))
              (or_else (get (js "messages") args) (Some (JArr [])))
              (or_else (get (js "tools") args) (Some (JArr []))) (generate_options m args), scripted)
  end.

(** ** The [fetch] given to the provider *)

(** [errorCode(response)] on the chunks of the body; [None] for a response
    without one. *)
Fixpoint read_chunks (length_ : Z) (chunks : list (list Z)) : option (list Z) :=
  match chunks with
  | [] => Some []
  | c :: r =>
      let length_ := length_ + Z.of_nat (length c) in
      if 65536 <? length_ then None
      else match read_chunks length_ r with Some bs => Some (c ++ bs) | None => None end
  end.

Definition errorCode (body : option (list (list Z))) : option jstr :=
  match body with
  | None => None
  | Some chunks =>
      match read_chunks 0 chunks with
      | None => None
      | Some bytes =>
          match JSON_parse (utf8_decode bytes) with
          | None => None
          | Some b =>
              let error := get (js "error") b in
              safe_string (or_nullish (get_opt (js "code") error)
                             (or_nullish (get_opt (js "type") error) (get (js "code") b)))
          end
      end
  end.

(** The delay a response asks for, in milliseconds; [date_delay] is
    [Date.parse(after) - Date.now()]. *)
Definition retry_delay (date_delay : jstr -> jsnum) (milliseconds after : option jstr) : option Z :=
  let truthy_header h := match h with Some s => if truthy s then Some s else None | None => None end in
  let delay :=
    match truthy_header milliseconds with
    | Some ms => Some (Number ms)
    | None =>
        match truthy_header after with
        | Some a => Some (match Number a with Finite q => fmul q 1000 | _ => date_delay a end)
        | None => None
        end
    end in
  match delay with
  | Some (Finite q) => if Qnum q <? 0 then None else Some (ceil q)
  | _ => None
  end.

Inductive fetch_outcome :=
| Response (status : Z) (retry_after_ms retry_after : option jstr) (body : option (list (list Z)))
| FetchThrew.

(** The wrapper around [fetch]: what it leaves in [failureInfo]. *)
Definition on_fetch (date_delay : jstr -> jsnum) (aborted : bool) (o : fetch_outcome) (fi : option failure_info)
  : option failure_info :=
  match o with
  | Response status ms after body =>
      if (200 <=? status) && (status <=? 299) then fi
      else Some (FailureInfo (Some status) (retry_delay date_delay ms after) (errorCode body))
  | FetchThrew =>
      Some (FailureInfo None None (Some (if aborted then js "cancelled" else js "transport_error")))
  end.

(** ** The end of the stream *)

(** The message a stream ends with: the part of it the bridge reads, and the
    fields of the object. *)
Record final_message := FinalMessage { fm : assistant; fm_fields : list (jstr * json) }.

Definition JQ (q : Q) : json := JNum (Finite q).

Definition usage_json (m : model) (args : json) (u : usage) : json :=
  obj [(js "model", Some (JStr (m_id m))); (js "provider", Some (JStr (m_provider m)));
       (js "effort", match get_opt (js "thinkingLevel") (get (js "options") args) with
                     | Some (JStr l) => Some (JStr l) | _ => None end);
       (js "input", Some (JInt (u_input u))); (js "output", Some (JInt (u_output u)));
       (js "cache_read", Some (JInt (u_cacheRead u))); (js "cache_write", Some (JInt (u_cacheWrite u)));
       (js "total", Some (JInt (calculateContextTokens u)));
       (js "context_tokens", Some (JInt (u_input u + u_cacheRead u + u_cacheWrite u)));
       (js "context_window", Some (JInt (m_contextWindow m)));
       (js "cost", Some (JObj [(js "input", JQ (cost_input (u_cost u))); (js "output", JQ (cost_output (u_cost u)));
                               (js "cache_read", JQ (cost_cacheRead (u_cost u)));
                               (js "cache_write", JQ (cost_cacheWrite (u_cost u)));
                               (js "total", JQ (cost_total (u_cost u)))]))].

Definition fi_status_of (fi : option failure_info) : option Z := fi ≫= fi_status.
Definition fi_code_of (fi : option failure_info) : option jstr := fi ≫= fi_code.

Definition is_failed (m : model) (a : assistant) : bool :=
  bool_decide (a_stopReason a = Error) || bool_decide (a_stopReason a = Aborted) ||
  isContextOverflow a (m_contextWindow m) || isRecoverableLength a (m_maxTokens m).

Definition generate_code (m : model) (a : assistant) (fi : option failure_info) : jstr :=
  if bool_decide (a_stopReason a = Aborted) then js "cancelled"
  else if isContextOverflow a (m_contextWindow m) then js "context_overflow"
  else if isRecoverableLength a (m_maxTokens m) then js "length_recoverable"
  else status_code (fi_status_of fi)
         (if bool_decide (fi_code_of fi = Some (js "transport_error")) then js "transport_error"
          else js "unknown_provider_error").

Definition generate_retryable (m : model) (a : assistant) (fi : option failure_info) : bool :=
  isContextOverflow a (m_contextWindow m) || isRecoverableLength a (m_maxTokens m) ||
  isRetryableAssistantError a ||
  match fi_status_of fi with
  | Some s => (s =? 408) || (s =? 409) || (s =? 429) || (500 <=? s)
  | None => false
  end.

(** [{ ...message, content: ..., errorMessage: ... }] *)
Definition safe_message (code : jstr) (fields : list (jstr * json)) : list (jstr * json) :=
  let content := if streq code (js "context_overflow") then lookup_field (js "content") fields
                 else Some (JArr []) in
  let fields := match content with
                | Some c => set_field (js "content") c fields
                | None => fields
                end in
  set_field (js "errorMessage") (JStr (js "Provider request failed (" ++ code ++ js ")")) fields.

(** [generate2] from the end of the stream on: the value of its result frame. *)
Definition generate_end (m : model) (args : json) (msg : final_message) (fi : option failure_info) : json :=
  let a := fm msg in
  let usage := usage_json m args (a_usage a) in
  if is_failed m a then
    let code := generate_code m a fi in
    obj [(js "provider", Some (JStr (m_provider m))); (js "model", Some (JStr (m_id m)));
         (js "message", Some (JObj (safe_message code (fm_fields msg)))); (js "usage", Some usage);
         (js "error_code", Some (JStr code)); (js "retryable", Some (JBool (generate_retryable m a fi)));
         (js "provider_status", JInt <$> fi_status_of fi); (js "provider_code", JStr <$> fi_code_of fi);
         (js "retry_after_ms", JInt <$> (fi ≫= fi_retryAfterMS))]
  else
    obj [(js "provider", Some (JStr (m_provider m))); (js "model", Some (JStr (m_id m)));
         (js "message", Some (JObj (fm_fields msg))); (js "usage", Some usage)].
End Generate.

(** * Workspace environments *)

Section Platform.
(** [process.platform === "win32"], [toUpperCase], [path.join], and whether a
    path can be executed ([accessSync(p, X_OK)]). *)
Context (win32 : bool) (toUpperCase : jstr -> jstr) (path_join : jstr -> jstr -> jstr) (access : jstr -> bool).

Abbreviation shell_env := (list (jstr * jstr)).

Definition environmentValue (shellEnv : shell_env) (name : jstr) : option jstr :=
  if negb win32 then assoc name shellEnv
  else match List.find (fun kv => streq (toUpperCase kv.1) (toUpperCase name)) shellEnv with
       | Some (key, _) => assoc key shellEnv
       | None => None
       end.

(** The loop of [normalizeEnvironmentNames]. *)
Fixpoint check_names (seen : list jstr) (keys : list jstr) : result error () :=
  match keys with
  | [] => Ok tt
  | key :: r =>
      let folded := toUpperCase key in
      if existsb (streq folded) seen
      then Throw (BridgeValidationError (js "duplicate Windows environment name " ++ key))
      else check_names (folded :: seen) r
  end.

Definition normalizeEnvironmentNames (shellEnv : shell_env) : result error shell_env :=
  if negb win32 then Ok shellEnv
  else let! _ := check_names [] (map fst shellEnv) in Ok shellEnv.

Definition executableAvailable (name : jstr) (shellEnv : shell_env) : bool :=
  let or_default v d := match v with Some s => if truthy s then s else d | None => d end in
  let extensions :=
    if win32 then split_char 59 (or_default (environmentValue shellEnv (js "PATHEXT")) (js ".EXE;.CMD;.BAT;.COM"))
    else [[]] in
  let delimiter := if win32 then 59 else 58 in
  existsb (fun dir => existsb (fun ext => access (path_join dir (name ++ ext))) extensions)
    (split_char delimiter (or_default (environmentValue shellEnv (js "PATH")) [])).

(** The loop of [handle] over [frame.env]; assigning a string to [__proto__]
    changes nothing. *)
Fixpoint shell_env_of (entries : list (jstr * json)) (shellEnv : shell_env) : result error shell_env :=
  match entries with
  | [] => Ok shellEnv
  | (key, JStr v) :: r =>
      shell_env_of r (if streq key (js "__proto__") then shellEnv else shellEnv ++ [(key, v)])
  | _ => Throw (BridgeValidationError (js "workspace env values must be strings"))
  end.

Definition frame_env (env : option json) : result error shell_env :=
  match env with
  | Some (JObj fs) => let! shellEnv := shell_env_of (own_order fs) [] in normalizeEnvironmentNames shellEnv
  | _ => normalizeEnvironmentNames []
  end.

Definition HARNESS_TOOLS : list jstr := map js ["read"; "write"; "edit"; "bash"].

(** Whether [codingTools(cwd, shellEnv)] has a tool. *)
Definition codingTool (name : jstr) (shellEnv : shell_env) : bool :=
  existsb (streq name) (map js ["grep"; "find"; "ls"]) ||
  streq name (js "powershell") &&
    (executableAvailable (js "pwsh") shellEnv || executableAvailable (js "powershell") shellEnv).

(** [args.k !== undefined && (!Number.isInteger(args.k) || args.k < 1)] *)
Definition not_positive (v : option json) : bool :=
  match v with
  | None => false
  | Some _ => match integer_field v with Some n => n <? 1 | None => true end
  end.

(** [workspace] up to the tool it runs; the tool's own preparation, checks and
    execution are its run. *)
Definition workspace_start (name : jstr) (args : json) (shellEnv : shell_env) : result error () :=
  if streq name (js "read") && not_positive (get (js "offset") args) then
    Throw (new_Error (js "Validation failed for tool read: offset must be a positive integer"))
  else if streq name (js "read") && not_positive (get (js "limit") args) then
    Throw (new_Error (js "Validation failed for tool read: limit must be a positive integer"))
  else if existsb (streq name) HARNESS_TOOLS then Ok tt
  else if streq name (js "grep") && negb (executableAvailable (js "rg") shellEnv) then
    Throw (new_Error (js "ripgrep (rg) is not available"))
  else if streq name (js "find") && negb (executableAvailable (js "fd") shellEnv) then
    Throw (new_Error (js "fd is not available"))
  else if codingTool name shellEnv then Ok tt
  else Throw (new_Error (js "unknown or unavailable Pi workspace tool " ++ name)).
End Platform.

(** * The process *)

(** Where a handler of a request is suspended. *)
Inductive phase :=
| Rejecting (e : error)                                     (* [generate] threw before its first [await] *)
| Generating (m : model) (args : json) (fi : option failure_info)
| Waiting (ticket : nat) (name : jstr) (args : json) (shellEnv : list (jstr * jstr))
| Running (ticket : nat) (saved : gmap jstr jstr) (shellEnv : list (jstr * jstr)).

Record handler := Handler { h_aborted : bool; h_op : jstr; h_phase : phase }.

(** [active] maps the id of a request to its controller; its handler is kept
    with it.  The promises [workspaceTail] has held are numbered: [tail] is the
    last one, [released] those that are resolved. *)
Record bridge := Bridge {
  active : list (jstr * handler);
  env : gmap jstr jstr;
  tail : nat;
  released : list nat;
  calls : list stream_call;
  scripted : list (list json * jstr);
  out : list frame;
  exited : bool
}.

Definition set_active (a : list (jstr * handler)) (s : bridge) : bridge :=
  Bridge a (env s) (tail s) (released s) (calls s) (scripted s) (out s) (exited s).

Definition write (f : frame) (s : bridge) : bridge :=
  Bridge (active s) (env s) (tail s) (released s) (calls s) (scripted s) (out s ++ [f]) (exited s).

(** [active.delete(id)] *)
Definition remove (id : jstr) (a : list (jstr * handler)) : list (jstr * handler) :=
  List.filter (fun e => negb (streq e.1 id)) a.

Definition update (id : jstr) (f : handler -> handler) (a : list (jstr * handler)) : list (jstr * handler) :=
  map (fun e => if streq e.1 id then (e.1, f e.2) else e) a.

Definition abort (h : handler) : handler := Handler true (h_op h) (h_phase h).
Definition to_phase (p : phase) (h : handler) : handler := Handler (h_aborted h) (h_op h) p.

(** The handler of [id] ends with a reply. *)
Definition reply (id : jstr) (f : frame) (s : bridge) : bridge :=
  write f (set_active (remove id (active s)) s).

Section Machine.
Context (num_to_string : Q -> jstr) (reg : registry) (date_delay : jstr -> jsnum).
(** The message of the error [JSON.parse] throws, and [randomId("tool")]. *)
Context (parse_error random : jstr -> jstr).
Context (win32 : bool) (toUpperCase : jstr -> jstr) (path_join : jstr -> jstr -> jstr) (access : jstr -> bool).
(** [process.env[key] = value] *)
Context (setenv : jstr -> jstr -> gmap jstr jstr -> gmap jstr jstr).

Definition set_env (entries : list (jstr * jstr)) (e : gmap jstr jstr) : gmap jstr jstr :=
  foldl (fun acc kv => setenv kv.1 kv.2 acc) e entries.

Definition set_process_env (e : gmap jstr jstr) (s : bridge) : bridge :=
  Bridge (active s) e (tail s) (released s) (calls s) (scripted s) (out s) (exited s).

(** The [finally] of [withWorkspaceEnvironment]. *)
Definition leave_workspace (ticket : nat) (saved : gmap jstr jstr) (s : bridge) : bridge :=
  Bridge (active s) (set_env (map_to_list saved) ∅) (tail s) (released s ++ [ticket]) (calls s) (scripted s)
    (out s) (exited s).

(** [handle(frame)] from the creation of its controller on. *)
Definition start_request (id : jstr) (f : json) (s : bridge) : bridge :=
  let op := get (js "op") f in
  let args := nullish (or_else (get (js "args") f) (Some (JObj []))) (JObj []) in
  let opname := string_or_empty op in
  if has_code (js "llm.generate") op then
    match generate_start num_to_string reg (random id) args with
    | Throw e => set_active (active s ++ [(id, Handler false opname (Rejecting e))]) s
    | Ok (call, response) =>
        let s := Bridge (active s ++ [(id, Handler false opname (Generating (sc_model call) args None))])
                   (env s) (tail s) (released s) (calls s ++ [call])
                   (scripted s ++ match response with Some r => [r] | None => [] end) (out s) (exited s) in
        write (ProgressFrame id (Some (JObj [(js "phase", JStr (js "provider_wait"))]))) s
    end
  else if has_code (js "llm.models") op then
    write (ResultFrame id (Some (models_value reg (get (js "args") f)))) s
  else if starts_with (js "workspace.") opname then
    match frame_env win32 toUpperCase (get (js "env") f) with
    | Throw e => write (failure id opname e) s
    | Ok shellEnv =>
        let ticket := S (tail s) in
        Bridge (active s ++
                  [(id, Handler false opname (Waiting ticket (drop (length (js "workspace.")) opname) args shellEnv))])
          (env s) ticket (released s) (calls s) (scripted s) (out s) (exited s)
    end
  else
    write (failure id opname
             (new_Error (js "unsupported bridge operation " ++ to_string_opt num_to_string op))) s.

Definition is_active (id : jstr) (s : bridge) : bool :=
  match assoc id (active s) with Some _ => true | None => false end.

(** Whether a frame is a request [handle] takes on, and its id. *)
Definition takes_on (f : json) (s : bridge) : option jstr :=
  let id := string_or_empty (get (js "id") f) in
  if truthy id && has_code (js "request") (get (js "kind") f) && negb (is_active id s) then Some id else None.

Definition handle (f : json) (s : bridge) : bridge :=
  let id := string_or_empty (get (js "id") f) in
  if negb (truthy id) then s
  else if has_code (js "cancel") (get (js "kind") f) then set_active (update id abort (active s)) s
  else match takes_on f s with
       | Some id => start_request id f s
       | None => s
       end.

(** The [line] handler. *)
Definition on_line (line : jstr) (s : bridge) : bridge :=
  match JSON_parse line with
  | Some f => handle f s
  | None => write (ProtocolError (parse_error line)) s
  end.

(** The promise that [workspace.] request [ticket] awaits has resolved: it
    takes the environment and starts its tool. *)
Definition acquire (id : jstr) (h : handler) (ticket : nat) (name : jstr) (args : json)
    (shellEnv : list (jstr * jstr)) (s : bridge) : bridge :=
  let saved := env s in
  let s := set_process_env (set_env shellEnv ∅) s in
  match workspace_start win32 toUpperCase path_join access name args shellEnv with
  | Ok _ => set_active (update id (to_phase (Running ticket saved shellEnv)) (active s)) s
  | Throw e => reply id (failure id (h_op h) e) (leave_workspace ticket saved s)
  end.

Inductive bridge_event :=
| Line (line : jstr)
| Rejects (id : jstr)                              (* the rejection of [generate] is caught *)
| Fetch (id : jstr) (o : fetch_outcome)            (* an exchange of the provider *)
| StreamEnds (id : jstr) (msg : final_message)
| Acquire (id : jstr)
| ToolUpdate (id : jstr) (v : option json)
| ToolReturns (id : jstr) (v : option json)
| Throws (id : jstr) (e : error)                   (* out of a stream or a tool *)
| Close.

(** The handler of [id] resumes. *)
Definition resume_handler (e : bridge_event) (id : jstr) (h : handler) (s : bridge) : option bridge :=
  match e, h_phase h with
  | Rejects _, Rejecting err => Some (reply id (failure id (h_op h) err) s)
  | Fetch _ o, Generating m args fi =>
      if uses_fetch m then
        Some (set_active (update id (to_phase (Generating m args (on_fetch date_delay (h_aborted h) o fi))) (active s)) s)
      else None
  | StreamEnds _ msg, Generating m args fi => Some (reply id (ResultFrame id (Some (generate_end m args msg fi))) s)
  | Throws _ err, Generating _ _ _ => Some (reply id (failure id (h_op h) err) s)
  | Acquire _, Waiting (S previous as ticket) name args shellEnv =>
      if bool_decide (previous ∈ released s) then Some (acquire id h ticket name args shellEnv s) else None
  | ToolUpdate _ v, Running _ _ _ => Some (write (ProgressFrame id v) s)
  | ToolReturns _ v, Running ticket saved _ => Some (reply id (ResultFrame id v) (leave_workspace ticket saved s))
  | Throws _ err, Running ticket saved _ =>
      Some (reply id (failure id (h_op h) err) (leave_workspace ticket saved s))
  | _, _ => None
  end.

Definition event_id (e : bridge_event) : option jstr :=
  match e with
  | Rejects id | Fetch id _ | StreamEnds id _ | Acquire id | ToolUpdate id _ | ToolReturns id _ | Throws id _ => Some id
  | Line _ | Close => None
  end.

Definition bridge_step (e : bridge_event) (s : bridge) : option bridge :=
  if exited s then None
  else match e with
       | Line line => Some (on_line line s)
       | Close =>
           Some (Bridge (map (fun a => (a.1, abort a.2)) (active s)) (env s) (tail s) (released s) (calls s)
                   (scripted s) (out s) true)
       | _ =>
           match event_id e with
           | None => None
           | Some id => match assoc id (active s) with Some h => resume_handler e id h s | None => None end
           end
       end.

Definition bridge_init (node : jstr) (env0 : gmap jstr jstr) : bridge :=
  Bridge [] env0 0 [0%nat] [] [] [Ready node] false.

(** The id of the request an event makes the bridge take on. *)
Definition taken (e : bridge_event) (s : bridge) : list jstr :=
  match e with
  | Line line =>
      match JSON_parse line with
      | Some f => match takes_on f s with Some id => [id] | None => [] end
      | None => []
      end
  | _ => []
  end.

(** The states of the process, with the ids of the requests taken on so far. *)
Inductive reachable (node : jstr) (env0 : gmap jstr jstr) : list jstr -> bridge -> Prop :=
| ReachInit : reachable node env0 [] (bridge_init node env0)
| ReachStep ids e s s' :
    reachable node env0 ids s -> bridge_step e s = Some s' -> reachable node env0 (ids ++ taken e s) s'.

(** A sequence of events, as a function. *)
Fixpoint bridge_run (es : list bridge_event) (ids : list jstr) (s : bridge) : option (list jstr * bridge) :=
  match es with
  | [] => Some (ids, s)
  | e :: r =>
      match bridge_step e s with
      | Some s' => bridge_run r (ids ++ taken e s) s'
      | None => None
      end
  end.

Lemma bridge_run_reachable node env0 es ids s ids' s' :
  reachable node env0 ids s -> bridge_run es ids s = Some (ids', s') -> reachable node env0 ids' s'.
Proof.
  revert ids s; induction es as [|e es IH]; intros ids s Hr; cbn [bridge_run]; [by intros [= <- <-]|].
  destruct (bridge_step e s) eqn:Hs; [|done]. apply IH. by econstructor.
Qed.

(** ** Replies *)

Definition replies_to (id : jstr) (f : frame) : bool :=
  match f with
  | ResultFrame id' _ | ErrorFrame id' _ _ _ _ _ => streq id' id
  | _ => false
  end.

Definition replies (id : jstr) (s : bridge) : nat := length (List.filter (replies_to id) (out s)).

(** Requests answered or in flight. *)
Definition balance (id : jstr) (s : bridge) : nat := replies id s + (if is_active id s then 1 else 0).

Definition count (id : jstr) (ids : list jstr) : nat := length (List.filter (fun x => streq x id) ids).

Lemma count_app id a b : count id (a ++ b) = (count id a + count id b)%nat.
Proof. unfold count. by rewrite List.filter_app, length_app. Qed.

Lemma replies_write id f s : replies id (write f s) = (replies id s + (if replies_to id f then 1 else 0))%nat.
Proof.
  unfold replies, write. simpl. rewrite List.filter_app, length_app. simpl. by destruct (replies_to id f).
Qed.

Lemma assoc_app {A} id (a b : list (jstr * A)) :
  assoc id (a ++ b) = match assoc id a with Some v => Some v | None => assoc id b end.
Proof. induction a as [|[k v] a IH]; simpl; [done|]. by destruct (streq k id). Qed.

Lemma assoc_remove id id' a : assoc id' (remove id a) = if streq id id' then None else assoc id' a.
Proof.
  unfold remove. induction a as [|[k v] a IH]; simpl; [by destruct (streq id id')|].
  destruct (streq k id) eqn:Hk; simpl.
  - apply streq_true in Hk as ->. rewrite IH. by destruct (streq id id').
  - rewrite IH. destruct (streq k id') eqn:Hk'; [|done].
    apply streq_true in Hk' as ->. apply streq_false in Hk.
    rewrite (proj2 (streq_false _ _)) by congruence. done.
Qed.

Lemma assoc_update id f id' a :
  assoc id' (update id f a) = (if streq id id' then f <$> assoc id' a else assoc id' a).
Proof.
  unfold update. induction a as [|[k v] a IH]; cbn [map assoc fst snd]; [by destruct (streq id id')|].
  destruct (streq k id) eqn:Hk; cbn [assoc fst snd].
  - apply streq_true in Hk as ->. destruct (streq id id'); [done|apply IH].
  - rewrite IH. destruct (streq k id') eqn:Hk'; [|done].
    apply streq_true in Hk' as ->. apply streq_false in Hk.
    rewrite (proj2 (streq_false _ _)) by congruence. done.
Qed.

Lemma is_active_update id f id' s :
  is_active id' (set_active (update id f (active s)) s) = is_active id' s.
Proof.
  unfold is_active, set_active. simpl. rewrite assoc_update.
  destruct (streq id id'); [|done]. by destruct (assoc id' (active s)).
Qed.

Lemma balance_update id f id' s : balance id' (set_active (update id f (active s)) s) = balance id' s.
Proof. unfold balance. by rewrite is_active_update. Qed.

(** A reply to an active request keeps the account, whatever else changed. *)
Lemma balance_reply id f id' s t :
  is_active id s = true -> active t = active s -> out t = out s ->
  (forall x, replies_to x f = streq id x) -> balance id' (reply id f t) = balance id' s.
Proof.
  intros Ha Hact Hout Hf. unfold balance, reply. rewrite replies_write, Hf.
  unfold replies, is_active in *. simpl. rewrite Hact, Hout, assoc_remove.
  destruct (streq id id') eqn:He; [|lia]. apply streq_true in He as ->.
  destruct (assoc id' (active s)); [lia|done].
Qed.

Lemma replies_to_failure id op e x : replies_to x (failure id op e) = streq id x.
Proof. unfold failure. by destruct (streq op (js "llm.generate")). Qed.

Lemma balance_add id h id' s t :
  is_active id s = false -> active t = active s ++ [(id, h)] -> out t = out s ->
  balance id' t = (balance id' s + count id' [id])%nat.
Proof.
  intros Ha Hact Hout. unfold balance, replies, is_active in *. rewrite Hact, Hout, assoc_app.
  unfold count. simpl. destruct (streq id id') eqn:He; simpl.
  - apply streq_true in He as ->. destruct (assoc id' (active s)); [done|lia].
  - destruct (assoc id' (active s)); lia.
Qed.

Lemma balance_answered id f id' s :
  (forall x, replies_to x f = streq id x) -> balance id' (write f s) = (balance id' s + count id' [id])%nat.
Proof.
  intros Hf. unfold balance. rewrite replies_write, Hf. unfold is_active, count. simpl.
  destruct (streq id id'); simpl; lia.
Qed.

Lemma balance_silent f id' s : (forall x, replies_to x f = false) -> balance id' (write f s) = balance id' s.
Proof. intros Hf. unfold balance. by rewrite replies_write, Hf, Nat.add_0_r. Qed.

Lemma start_request_balance id f id' s :
  is_active id s = false -> balance id' (start_request id f s) = (balance id' s + count id' [id])%nat.
Proof.
  intros Ha. unfold start_request. cbv zeta.
  destruct (has_code (js "llm.generate") _).
  - destruct (generate_start _ _ _ _) as [[call response]|e]; [|by eapply balance_add].
    rewrite balance_silent by done. by eapply balance_add.
  - destruct (has_code (js "llm.models") _); [by apply balance_answered|].
    destruct (starts_with _ _).
    + destruct (frame_env _ _ _) as [shellEnv|e]; [by eapply balance_add|].
      apply balance_answered, replies_to_failure.
    + apply balance_answered, replies_to_failure.
Qed.

Lemma takes_on_inactive f s id : takes_on f s = Some id -> is_active id s = false.
Proof.
  unfold takes_on. destruct (_ && negb _) eqn:H; [|done]. intros [= <-]. by bool_to_prop.
Qed.

Lemma handle_balance f id' s :
  balance id' (handle f s) =
  (balance id' s + count id' (match takes_on f s with Some id => [id] | None => [] end))%nat.
Proof.
  unfold handle. destruct (negb (truthy _)) eqn:Ht.
  { unfold takes_on. apply negb_true_iff in Ht. rewrite Ht. simpl. unfold count; simpl; lia. }
  destruct (has_code (js "cancel") _) eqn:Hc.
  - rewrite balance_update. unfold takes_on, has_code in *.
    apply bool_decide_eq_true in Hc. rewrite Hc, andb_false_r. simpl. unfold count; simpl; lia.
  - destruct (takes_on f s) as [id|] eqn:Hto; [|unfold count; simpl; lia].
    apply start_request_balance. by eapply takes_on_inactive.
Qed.

Lemma resume_balance e id h id' s s' :
  assoc id (active s) = Some h -> resume_handler e id h s = Some s' -> balance id' s' = balance id' s.
Proof.
  intros Hh H. assert (is_active id s = true) as Ha by (unfold is_active; by rewrite Hh).
  unfold resume_handler in H.
  destruct e, (h_phase h) as [er|m a fi|[|t] n a sh|t sv sh]; try discriminate H;
    try (injection H as <-; eapply balance_reply; try done; apply replies_to_failure).
  - destruct (uses_fetch m); [|discriminate]. injection H as <-. apply balance_update.
  - destruct (bool_decide _); [|discriminate]. injection H as <-. unfold acquire.
    destruct (workspace_start _ _ _ _ _ _ _); [apply (balance_update id _ id' (set_process_env _ s))|].
    eapply balance_reply; try done; apply replies_to_failure.
  - injection H as <-. by apply balance_silent.
Qed.

(** C1: the bridge answers every request it takes on exactly once: for every
    sequence of input lines, provider and tool events, the number of times it
    took on a request with an id is the number of results and errors it wrote
    for that id, plus one while such a request is in flight.  So it never
    answers twice, never answers what it was not asked, and never runs two
    requests under one id. *)
Theorem replies_accounted (node : jstr) (env0 : gmap jstr jstr) (ids : list jstr) (s : bridge) (id : jstr) :
  reachable node env0 ids s ->
  count id ids = (replies id s + (if is_active id s then 1 else 0))%nat.
Proof.
  change (reachable node env0 ids s -> count id ids = balance id s).
  induction 1 as [|ids e s s' Hr IH Hs]; [done|].
  rewrite count_app, IH. unfold bridge_step in Hs. destruct (exited s); [discriminate|].
  assert (forall x, event_id e = Some x ->
    match assoc x (active s) with Some h => resume_handler e x h s | None => None end = Some s' ->
    balance id s = balance id s') as Hres.
  { intros x _ Hx. destruct (assoc x (active s)) as [h|] eqn:Hh; [|discriminate].
    symmetry. by eapply resume_balance. }
  unfold taken. destruct e; cbn [event_id] in *; try (rewrite Nat.add_0_r; by eapply Hres).
  - injection Hs as <-. unfold on_line. destruct (JSON_parse line) as [f|]; [by rewrite handle_balance|].
    rewrite balance_silent by done. apply Nat.add_0_r.
  - injection Hs as <-. rewrite Nat.add_0_r. unfold balance, is_active, replies. simpl.
    f_equal. clear. induction (active s) as [|[k h] a IHa]; simpl; [done|]. by destruct (streq k id).
Qed.
End Machine.

(** A process with the scripted provider, on a POSIX system whose environment
    takes every name, and with no executable on its path. *)
Definition faux_model : model :=
  Model DEFAULT_MODEL_ID (js "Faux Model") DEFAULT_API DEFAULT_PROVIDER (js "http://localhost:0") false
    [js "text"; js "image"] 128000 16384 (CostRates 0 0 0 0) None None None.

Definition sample_registry : registry := [(DEFAULT_PROVIDER, Some [faux_model])].
Definition sample_env : gmap jstr jstr := {[ js "PATH" := js "/bin" ]}.

Abbreviation sample_run :=
  (bridge_run int_num_str sample_registry (fun _ => NaN) (fun s => s) (fun s => s) false (fun s => s)
     (fun a b => a ++ b) (fun _ => false) (fun k v e => <[k := v]> e)).
Abbreviation sample_reachable :=
  (reachable int_num_str sample_registry (fun _ => NaN) (fun s => s) (fun s => s) false (fun s => s)
     (fun a b => a ++ b) (fun _ => false) (fun k v e => <[k := v]> e)).

Definition request_line (id op : jstr) : jstr :=
  JSON_stringify int_num_str
    (JObj [(js "id", JStr id); (js "kind", JStr (js "request")); (js "op", JStr op);
           (js "env", JObj [(js "HOME", JStr (js "/w"))])]).

(** Two requests under one id, the second one while the first is in flight, a
    listing of the models, and the end of the first request. *)
Definition sample_events : list bridge_event :=
  [Line (request_line (js "a") (js "workspace.ls")); Line (request_line (js "a") (js "workspace.ls"));
   Line (request_line (js "m") (js "llm.models")); Acquire (js "a"); ToolReturns (js "a") (Some (JStr (js "ok")))].

Lemma replies_accounted_witness :
  exists s, sample_reachable (js "v22") sample_env [js "a"; js "m"] s /\ replies (js "a") s = 1%nat.
Proof.
  assert (option_map (fun r => (r.1, is_active (js "a") r.2))
    (sample_run sample_events [] (bridge_init (js "v22") sample_env)) = Some ([js "a"; js "m"], false)) as Hv
    by (vm_compute; reflexivity).
  destruct (sample_run sample_events [] (bridge_init (js "v22") sample_env)) as [[ids s]|] eqn:Hr; [|discriminate Hv].
  injection Hv as Hids Hact.
  assert (sample_reachable (js "v22") sample_env ids s) as Hreach
    by (eapply bridge_run_reachable; [constructor|exact Hr]).
  exists s. rewrite <- Hids. split; [exact Hreach|].
  pose proof (replies_accounted _ _ _ _ _ _ _ _ _ _ _ _ _ _ (js "a") Hreach) as H.
  rewrite Hact, Hids in H. vm_compute (count _ _) in H. rewrite Nat.add_0_r in H. by symmetry.
Defined.
