(* ===== verification/WorkspaceLock.v ===== *)
(** The serialisation of workspace requests by [withWorkspaceEnvironment]
    (src/drivers/tools/pibridge/bridge.ts): an abstract first-come first-served
    lock over the process environment, its invariant, and the refinement of it
    by the bridge process. *)
From S2P Require Import Prelude Utf8 Numbers Json Messages Regex ProviderErrors Models EventStream Faux Estimate PiBridge.
Open Scope Z_scope.

(** * The abstract lock *)

Abbreviation shell_env := (list (jstr * jstr)).

(** A request holds a ticket from when it queues to when it leaves; inside, it
    also holds the environment it found and the one it asked for. *)
Record lock := Lock {
  l_env : gmap jstr jstr;
  l_tail : nat;
  l_released : list nat;
  l_holders : list (jstr * (nat * option (gmap jstr jstr * shell_env)))
}.

Section Lock.
Context (setenv : jstr -> jstr -> gmap jstr jstr -> gmap jstr jstr).

Inductive lock_step : lock -> lock -> Prop :=
| Enqueue id e t r hs : lock_step (Lock e t r hs) (Lock e (S t) r (hs ++ [(id, (S t, None))]))
| Enter id e t r a b k sh :
    k ∈ r ->
    lock_step (Lock e t r (a ++ (id, (S k, None)) :: b))
      (Lock (set_env setenv sh ∅) t r (a ++ (id, (S k, Some (e, sh))) :: b))
| Leave id e t r a b k sv sh :
    lock_step (Lock e t r (a ++ (id, (k, Some (sv, sh))) :: b))
      (Lock (set_env setenv (map_to_list sv) ∅) t (r ++ [k]) (a ++ b)).

Definition tickets (l : lock) : list nat := map (fun h => h.2.1) (l_holders l).

(** The environment [e0] can be written back: starting from none of its
    entries, setting one that it has adds that entry. *)
Definition writable (e0 : gmap jstr jstr) : Prop :=
  forall e k v, e ⊆ e0 -> e0 !! k = Some v -> setenv k v e = <[k := v]> e.

Record lock_inv (e0 : gmap jstr jstr) (l : lock) : Prop := {
  li_zero : 0%nat ∈ l_released l;
  li_closed : forall k, S k ∈ l_released l -> k ∈ l_released l;
  li_bound : forall k, k ∈ l_released l -> (k <= l_tail l)%nat;
  li_nodup : NoDup (tickets l);
  li_pending : forall k, k ∈ tickets l -> (k <= l_tail l)%nat /\ k ∉ l_released l;
  li_cover : forall k, (k <= l_tail l)%nat -> k ∈ l_released l \/ k ∈ tickets l;
  li_inside : forall id k sv sh, (id, (k, Some (sv, sh))) ∈ l_holders l ->
    (exists j, k = S j /\ j ∈ l_released l) /\ sv = e0 /\ l_env l = set_env setenv sh ∅;
  li_idle : Forall (fun h => h.2.2 = None) (l_holders l) -> l_env l = e0
}.

Lemma closed_le (r : list nat) : (forall k, S k ∈ r -> k ∈ r) -> forall j k, (j <= k)%nat -> k ∈ r -> j ∈ r.
Proof. intros Hc j k Hle. induction Hle as [|k Hle IH]; [done|]. intros Hk. by apply IH, Hc. Qed.

Lemma tickets_app e t r a b : tickets (Lock e t r (a ++ b)) = tickets (Lock e t r a) ++ tickets (Lock e t r b).
Proof. unfold tickets. simpl. apply map_app. Qed.

Lemma elem_of_tickets e t r hs x : x ∈ hs -> x.2.1 ∈ tickets (Lock e t r hs).
Proof. intros H. unfold tickets. simpl. by apply (list_elem_of_fmap_2 (fun h => h.2.1)). Qed.

(** The ticket after a released one is the only one that may be inside. *)
Lemma next_ticket e0 l k k' :
  lock_inv e0 l -> k ∈ l_released l -> k' ∈ l_released l ->
  S k ∉ l_released l -> S k' ∉ l_released l -> k = k'.
Proof.
  intros Hi Hk Hk' Hn Hn'. destruct (lt_eq_lt_dec k k') as [[Hlt|]|Hlt]; [|done|]; exfalso.
  - apply Hn. by apply (closed_le _ (li_closed _ _ Hi) (S k) k').
  - apply Hn'. by apply (closed_le _ (li_closed _ _ Hi) (S k') k).
Qed.

Lemma writable_restores e0 : writable e0 -> set_env setenv (map_to_list e0) ∅ = e0.
Proof.
  intros Hw. unfold set_env.
  assert (forall l e, (forall k v, (k, v) ∈ l -> e0 !! k = Some v) -> e ⊆ e0 ->
    foldl (fun acc kv => setenv kv.1 kv.2 acc) e l = list_to_map (reverse l) ∪ e) as H.
  { induction l as [|[k v] l IH]; intros e Hl He; simpl; [by rewrite (left_id_L ∅ (∪))|].
    assert (e0 !! k = Some v) as Hk by (apply Hl; set_solver).
    rewrite Hw by done. rewrite IH; [|intros; apply Hl; set_solver|by apply insert_subseteq_l].
    rewrite reverse_cons. rewrite list_to_map_app. simpl.
    rewrite <- (assoc_L (∪)). f_equal. rewrite insert_union_singleton_l.
    by rewrite insert_empty. }
  rewrite H; [|by intros k v Hkv; apply elem_of_map_to_list|apply map_empty_subseteq].
  rewrite (right_id_L ∅ (∪)). rewrite <- (list_to_map_to_list e0) at 2.
  apply list_to_map_proper; [|apply reverse_Permutation].
  rewrite fmap_reverse, reverse_Permutation. apply NoDup_fst_map_to_list.
Qed.

(** Nobody else has the ticket of a holder. *)
Lemma others_ticket e0 e t r a b id k w x :
  lock_inv e0 (Lock e t r (a ++ (id, (k, w)) :: b)) -> x ∈ a ++ b -> x.2.1 ≠ k.
Proof.
  intros Hi Hx Heq. pose proof (li_nodup _ _ Hi) as Hn. rewrite tickets_app in Hn.
  unfold tickets in Hn. simpl in Hn. apply NoDup_app in Hn as (_ & Hd & Hn2).
  inversion Hn2 as [|? ? Hnb _]; subst. apply elem_of_app in Hx as [Hx|Hx].
  - apply (Hd (x.2.1)); [|set_solver]. by apply (list_elem_of_fmap_2 (fun h => h.2.1) _ _ Hx).
  - apply Hnb. by apply (list_elem_of_fmap_2 (fun h => h.2.1) _ _ Hx).
Qed.

(** Nobody else is inside beside a holder whose predecessor has left. *)
Lemma others_outside e0 e t r a b id k w x :
  lock_inv e0 (Lock e t r (a ++ (id, (S k, w)) :: b)) -> k ∈ r -> x ∈ a ++ b -> x.2.2 = None.
Proof.
  intros Hi Hk Hx. pose proof (others_ticket _ _ _ _ _ _ _ _ _ _ Hi Hx) as Hne.
  destruct x as [id' [k' [[sv sh']|]]]; [|done]. exfalso. apply Hne. simpl.
  assert ((id', (k', Some (sv, sh'))) ∈ a ++ (id, (S k, w)) :: b) as Hx' by set_solver.
  destruct (li_inside _ _ Hi _ _ _ _ Hx') as [(j & -> & Hj) _].
  f_equal. symmetry. apply (next_ticket e0 _ _ _ Hi Hk Hj); apply (li_pending _ _ Hi); simpl.
  - rewrite tickets_app. apply elem_of_app. right. unfold tickets. simpl. set_solver.
  - by apply (elem_of_tickets e t r _ _ Hx').
Qed.

Lemma enqueue_inv e0 id e t r hs :
  lock_inv e0 (Lock e t r hs) -> lock_inv e0 (Lock e (S t) r (hs ++ [(id, (S t, None))])).
Proof.
  intros [Hz Hc Hb Hn Hp Hcv Hin Hid]. split; simpl in *; try done.
  - intros j Hj. specialize (Hb j Hj). lia.
  - rewrite tickets_app. apply NoDup_app. split; [done|]. split; [|apply NoDup_singleton].
    intros j Hj. apply Hp in Hj. unfold tickets. simpl. rewrite list_elem_of_singleton. lia.
  - intros j Hj. rewrite tickets_app in Hj. apply elem_of_app in Hj as [Hj|Hj].
    + destruct (Hp j Hj). split; [lia|done].
    + unfold tickets in Hj. simpl in Hj. apply list_elem_of_singleton in Hj as ->.
      split; [lia|]. intros Hr. apply Hb in Hr. lia.
  - intros j Hj. rewrite tickets_app, elem_of_app. destruct (decide (j = S t)) as [->|].
    + right. right. unfold tickets. simpl. set_solver.
    + destruct (Hcv j ltac:(lia)); tauto.
  - intros i j sv sh Hin'. apply elem_of_app in Hin' as [Hin'|Hin']; [by eapply Hin|set_solver].
  - intros HF. apply Forall_app in HF as [HF _]. by apply Hid.
Qed.

Lemma enter_inv e0 id e t r a b k sh :
  k ∈ r -> lock_inv e0 (Lock e t r (a ++ (id, (S k, None)) :: b)) ->
  lock_inv e0 (Lock (set_env setenv sh ∅) t r (a ++ (id, (S k, Some (e, sh))) :: b)).
Proof.
  intros Hk Hi.
  assert (tickets (Lock (set_env setenv sh ∅) t r (a ++ (id, (S k, Some (e, sh))) :: b)) =
          tickets (Lock e t r (a ++ (id, (S k, None)) :: b))) as Ht
    by (unfold tickets; simpl; by rewrite !map_app).
  assert (forall x, x ∈ a ++ b -> x.2.2 = None) as Hothers by (intros; by eapply others_outside).
  assert (e = e0) as ->.
  { apply (li_idle _ _ Hi). simpl. apply Forall_forall. intros x Hx.
    apply elem_of_app in Hx as [Hx|Hx]; [apply Hothers; set_solver|].
    apply elem_of_cons in Hx as [->|Hx]; [done|apply Hothers; set_solver]. }
  destruct Hi as [Hz Hc Hb Hn Hp Hcv Hin Hid]. split; simpl in *; rewrite ?Ht; try done.
  - intros i j sv sh' Hin'. assert ((i, (j, Some (sv, sh'))) ∉ a ++ b) as Hni
      by (intros Hx; by specialize (Hothers _ Hx)).
    assert ((i, (j, Some (sv, sh'))) = (id, (S k, Some (e0, sh)))) as [= -> -> -> ->] by set_solver.
    split; [by exists k|done].
  - intros HF. rewrite Forall_app, Forall_cons in HF. naive_solver.
Qed.

Lemma leave_inv e0 id e t r a b k sv sh :
  writable e0 -> lock_inv e0 (Lock e t r (a ++ (id, (k, Some (sv, sh))) :: b)) ->
  lock_inv e0 (Lock (set_env setenv (map_to_list sv) ∅) t (r ++ [k]) (a ++ b)).
Proof.
  intros Hw Hi.
  destruct (li_inside _ _ Hi id k sv sh ltac:(set_solver)) as [(j & -> & Hj) [-> He]]. simpl in *.
  pose proof (fun x => others_ticket _ _ _ _ _ _ _ _ _ x Hi) as Hne.
  pose proof (fun x => others_outside _ _ _ _ _ _ _ _ _ x Hi Hj) as Hothers.
  rewrite (writable_restores e0 Hw).
  assert (forall l, tickets (Lock e t r l) = tickets (Lock e0 t (r ++ [S j]) l)) as Htk by done.
  assert (forall i, i ∈ tickets (Lock e0 t (r ++ [S j]) (a ++ b)) -> i ≠ S j /\
            i ∈ tickets (Lock e t r (a ++ (id, (S j, Some (e0, sh))) :: b))) as Hsub.
  { intros i Hx. pose proof Hx as Hx'. unfold tickets in Hx. simpl in Hx.
    apply list_elem_of_fmap in Hx as (y & -> & Hy). split; [by apply Hne|].
    apply elem_of_tickets. set_solver. }
  destruct Hi as [Hz Hc Hb Hn Hp Hcv Hin Hid]. simpl in *.
  assert (S j ∈ tickets (Lock e t r (a ++ (id, (S j, Some (e0, sh))) :: b))) as Hme
    by (apply (elem_of_tickets e t r _ (id, (S j, Some (e0, sh)))); set_solver).
  split; simpl; try done.
  - set_solver.
  - intros i. rewrite !elem_of_app, !list_elem_of_singleton. intros [Hi|[= ->]]; left; auto.
  - intros i. rewrite elem_of_app, list_elem_of_singleton. intros [Hi| ->]; [auto|by apply Hp].
  - rewrite tickets_app in *. unfold tickets in *. simpl in *.
    apply NoDup_app in Hn as (Hna & Hd & Hnb). inversion Hnb; subst. apply NoDup_app.
    repeat split; try done. intros x Hx. specialize (Hd x Hx). set_solver.
  - intros i Hi. destruct (Hsub i Hi) as [Hij Hi']. split; [by apply Hp|].
    rewrite elem_of_app, list_elem_of_singleton. intros [Hr|Hr]; [|done]. by apply (Hp i).
  - intros i Hi. rewrite elem_of_app, list_elem_of_singleton.
    specialize (Hcv i Hi). rewrite tickets_app in *. unfold tickets in *. simpl in *. set_solver.
  - intros i k' sv' sh' Hx. by specialize (Hothers _ Hx).
Qed.

Lemma lock_step_inv e0 l l' : writable e0 -> lock_step l l' -> lock_inv e0 l -> lock_inv e0 l'.
Proof.
  intros Hw [id e t r hs|id e t r a b k sh Hk|id e t r a b k sv sh] Hi.
  - by apply enqueue_inv.
  - by apply enter_inv.
  - by eapply leave_inv.
Qed.

Lemma lock_steps_inv e0 l l' : writable e0 -> rtc lock_step l l' -> lock_inv e0 l -> lock_inv e0 l'.
Proof. intros Hw Hst. induction Hst as [|l l1 l2 H1 Hst IH]; [done|]. intros Hi. by eapply IH, lock_step_inv. Qed.

Lemma lock_init_inv e0 : lock_inv e0 (Lock e0 0 [0%nat] []).
Proof.
  split; simpl; try done.
  - set_solver.
  - set_solver.
  - intros k Hk. apply list_elem_of_singleton in Hk. lia.
  - constructor.
  - set_solver.
  - intros k Hk. left. apply list_elem_of_singleton. lia.
  - set_solver.
Qed.
End Lock.

(** * The bridge implements the lock *)

(** The part of a handler the lock is about. *)
Definition held (h : handler) : option (nat * option (gmap jstr jstr * shell_env)) :=
  match h_phase h with
  | Waiting t _ _ _ => Some (t, None)
  | Running t sv sh => Some (t, Some (sv, sh))
  | _ => None
  end.

Definition holders (a : list (jstr * handler)) : list (jstr * (nat * option (gmap jstr jstr * shell_env))) :=
  omap (fun e => (fun w => (e.1, w)) <$> held e.2) a.

Definition lock_of (s : bridge) : lock := Lock (env s) (tail s) (released s) (holders (active s)).

Definition distinct_ids (s : bridge) : Prop := NoDup (map fst (active s)).

Lemma holders_app a b : holders (a ++ b) = holders a ++ holders b.
Proof. apply omap_app. Qed.

Lemma holders_cons k h a :
  holders ((k, h) :: a) = match held h with Some w => (k, w) :: holders a | None => holders a end.
Proof. unfold holders. simpl. by destruct (held h). Qed.

Lemma assoc_split (a : list (jstr * handler)) id h :
  NoDup (map fst a) -> assoc id a = Some h ->
  exists l1 l2, a = l1 ++ (id, h) :: l2 /\ remove id a = l1 ++ l2 /\
    forall f, update id f a = l1 ++ (id, f h) :: l2.
Proof.
  induction a as [|[k v] a IH]; intros Hn H; [done|]. cbn [assoc] in H. inversion Hn as [|? ? Hk Hn']; subst.
  destruct (streq k id) eqn:He.
  - apply streq_true in He as ->. injection H as ->.
    assert (forall e, e ∈ a -> streq e.1 id = false) as Hout.
    { intros e Hin. apply streq_false. intros <-. apply Hk. by apply (list_elem_of_fmap_2 fst). }
    exists [], a. split; [done|]. unfold remove, update. cbn [List.filter map fst snd].
    rewrite streq_refl. cbn [negb]. split.
    + apply List.forallb_filter_id. apply forallb_forall. intros e Hin.
      by rewrite Hout by by apply list_elem_of_In.
    + intros f. simpl. f_equal. transitivity (map (fun x => x) a); [|apply List.map_id].
      apply map_ext_in. intros e Hin. by rewrite Hout by by apply list_elem_of_In.
  - destruct (IH Hn' H) as (l1 & l2 & -> & Hr & Hu). exists ((k, v) :: l1), l2. split; [done|].
    unfold remove, update in *. cbn [List.filter map fst snd]. rewrite He. cbn [negb]. split.
    + by rewrite Hr.
    + intros f. by rewrite Hu.
Qed.

Section Refinement.
Context (num_to_string : Q -> jstr) (reg : registry) (date_delay : jstr -> jsnum).
Context (parse_error random : jstr -> jstr).
Context (win32 : bool) (toUpperCase : jstr -> jstr) (path_join : jstr -> jstr -> jstr) (access : jstr -> bool).
Context (setenv : jstr -> jstr -> gmap jstr jstr -> gmap jstr jstr).

Abbreviation step := (bridge_step num_to_string reg date_delay parse_error random win32 toUpperCase path_join access setenv).
Abbreviation reach := (reachable num_to_string reg date_delay parse_error random win32 toUpperCase path_join access setenv).
Abbreviation start_req := (start_request num_to_string reg random win32 toUpperCase).

Lemma distinct_add id h a :
  assoc id a = None -> NoDup (map fst a) -> NoDup (map fst (a ++ [(id, h : handler)])).
Proof.
  intros Ha Hn. rewrite map_app. apply NoDup_app. split; [done|]. split; [|apply NoDup_singleton].
  intros k Hk Hin. apply list_elem_of_singleton in Hin as ->. simpl in Hk.
  apply list_elem_of_fmap in Hk as ([k' v] & -> & Hin). clear Hn. simpl in *.
  induction a as [|[k v'] a IH]; simpl in *; [set_solver|].
  destruct (streq k k') eqn:He; [done|]. apply streq_false in He.
  apply elem_of_cons in Hin as [[= -> ->]|Hin]; [done|by apply IH].
Qed.

Lemma start_refines id f s :
  is_active id s = false -> distinct_ids s ->
  distinct_ids (start_req id f s) /\ rtc (lock_step setenv) (lock_of s) (lock_of (start_req id f s)).
Proof.
  intros Ha Hn. assert (assoc id (active s) = None) as Hno.
  { unfold is_active in Ha. by destruct (assoc id (active s)). }
  unfold start_request. cbv zeta. unfold distinct_ids, lock_of in *.
  destruct (has_code (js "llm.generate") _).
  - destruct (generate_start _ _ _ _) as [[call response]|e]; simpl;
      (split; [by apply distinct_add|]); rewrite holders_app; simpl; by rewrite app_nil_r.
  - destruct (has_code (js "llm.models") _); [done|].
    destruct (starts_with _ _); [|done].
    destruct (frame_env _ _ _) as [shellEnv|e]; [|done]. simpl.
    split; [by apply distinct_add|]. rewrite holders_app. apply rtc_once, Enqueue.
Qed.

(** Resuming a handler outside the lock leaves the lock alone. *)
Lemma resume_refines e id h s s' :
  distinct_ids s -> assoc id (active s) = Some h ->
  resume_handler date_delay win32 toUpperCase path_join access setenv e id h s = Some s' ->
  distinct_ids s' /\ rtc (lock_step setenv) (lock_of s) (lock_of s').
Proof.
  intros Hn Hh H. destruct (assoc_split _ _ _ Hn Hh) as (l1 & l2 & Ha & Hr & Hu).
  assert (NoDup (map fst (l1 ++ l2))) as Hn'.
  { unfold distinct_ids in Hn. rewrite Ha, map_app in Hn. rewrite map_app.
    apply NoDup_app in Hn as (H1 & Hd & H2). inversion H2; subst. apply NoDup_app.
    repeat split; try done. intros x Hx. specialize (Hd x Hx). set_solver. }
  assert (forall f, NoDup (map fst (l1 ++ (id, f h) :: l2))) as Hnu.
  { intros f. unfold distinct_ids in Hn. rewrite Ha in Hn. by rewrite map_app in *. }
  unfold resume_handler in H. unfold distinct_ids, lock_of in *.
  assert (forall w, held h = w -> holders (active s) =
    holders l1 ++ match w with Some w => [(id, w)] | None => [] end ++ holders l2) as Hold.
  { intros w Hw. rewrite Ha, holders_app. f_equal. change ((id, h) :: l2) with ([(id, h)] ++ l2).
    rewrite holders_app. f_equal. unfold holders. simpl. rewrite Hw. by destruct w. }
  unfold held in Hold.
  destruct e, (h_phase h) as [er|m a fi|[|t] n a sh|t sv sh] eqn:Hp; try discriminate H;
    specialize (Hold _ eq_refl); rewrite Hold.
  - injection H as <-. simpl. rewrite Hr. split; [done|]. by rewrite holders_app.
  - destruct (uses_fetch m); [|discriminate]. injection H as <-. simpl. rewrite Hu.
    split; [by apply (Hnu (to_phase _))|]. rewrite holders_app. by simpl.
  - injection H as <-. simpl. rewrite Hr. split; [done|]. by rewrite holders_app.
  - destruct (bool_decide (t ∈ released s)) eqn:Hb; [|discriminate]. injection H as <-.
    apply bool_decide_eq_true in Hb. unfold acquire.
    destruct (workspace_start _ _ _ _ _ _ _) as [u|er]; simpl.
    + rewrite Hu. split; [by apply (Hnu (to_phase _))|]. rewrite holders_app. apply rtc_once. by apply Enter.
    + rewrite Hr. split; [done|]. rewrite holders_app.
      eapply rtc_l; [by apply (Enter _ _ _ _ _ _ _ t sh)|]. apply rtc_once, Leave.
  - injection H as <-. simpl. rewrite Ha. split; [by rewrite Ha in Hn|]. rewrite Ha in Hold. by rewrite Hold.
  - injection H as <-. simpl. rewrite Hr. split; [done|]. rewrite holders_app. apply rtc_once, Leave.
  - injection H as <-. simpl. rewrite Hr. split; [done|]. by rewrite holders_app.
  - injection H as <-. simpl. rewrite Hr. split; [done|]. rewrite holders_app. apply rtc_once, Leave.
Qed.

(** Every step of the bridge is a sequence of steps of the abstract lock. *)
Lemma step_refines e s s' :
  distinct_ids s -> step e s = Some s' ->
  distinct_ids s' /\ rtc (lock_step setenv) (lock_of s) (lock_of s').
Proof.
  intros Hn H. unfold bridge_step in H. destruct (exited s); [discriminate|].
  destruct e as [line| | | | | | | |]; cbn [event_id] in H;
    try (destruct (assoc id (active s)) as [h|] eqn:Hh; [by eapply resume_refines|discriminate]).
  - injection H as <-. unfold on_line. destruct (JSON_parse line) as [f|]; [|done].
    unfold handle. destruct (negb _); [done|]. destruct (has_code (js "cancel") _).
    + destruct (assoc (string_or_empty (get (js "id") f)) (active s)) as [h|] eqn:Hh.
      * destruct (assoc_split _ _ _ Hn Hh) as (l1 & l2 & Ha & _ & Hu).
        unfold distinct_ids, lock_of in *. simpl. rewrite Hu. rewrite Ha in *. split; [by rewrite map_app in *|].
        rewrite !holders_app. unfold holders. simpl. by destruct h.
      * assert (forall a : list (jstr * handler), assoc (string_or_empty (get (js "id") f)) a = None ->
          update (string_or_empty (get (js "id") f)) abort a = a) as Hid.
        { induction a as [|[k v] a IH]; simpl; [done|]. destruct (streq _ _) eqn:He; [done|].
          intros Hno. simpl. by rewrite IH. }
        unfold distinct_ids, lock_of. simpl. by rewrite Hid.
    + destruct (takes_on f s) as [id|] eqn:Ht; [|done].
      apply start_refines; [by eapply takes_on_inactive|done].
  - injection H as <-. unfold distinct_ids, lock_of in *. simpl. rewrite map_map. split; [done|].
    replace (holders (map (fun a => (a.1, abort a.2)) (active s))) with (holders (active s)); [done|].
    clear. induction (active s) as [|[k h] a IH]; [done|]. cbn [map fst snd].
    rewrite !holders_cons, <- IH. by destruct h.
Qed.

(** C5: the bridge implements the abstract lock: from its start, whatever
    happens, the environment, tickets and holders of the process evolve by the
    steps of a first-come first-served lock over the process environment. *)
Theorem bridge_refines_lock (node : jstr) (env0 : gmap jstr jstr) (ids : list jstr) (s : bridge) :
  reach node env0 ids s ->
  distinct_ids s /\ rtc (lock_step setenv) (Lock env0 0 [0%nat] []) (lock_of s).
Proof.
  induction 1 as [|ids e s s' Hr [Hn IH] Hs]; [split; [constructor|done]|].
  destruct (step_refines e s s' Hn Hs) as [Hn' Hst]. split; [done|]. by etrans.
Qed.

Lemma reach_inv node env0 ids s :
  writable setenv env0 -> reach node env0 ids s -> distinct_ids s /\ lock_inv setenv env0 (lock_of s).
Proof.
  intros Hw. induction 1 as [|ids e s s' Hr [Hn IH] Hs]; [split; [constructor|apply lock_init_inv]|].
  destruct (step_refines e s s' Hn Hs) as [Hn' Hst]. split; [done|]. by eapply lock_steps_inv.
Qed.

Lemma running_holder s id h t sv sh :
  assoc id (active s) = Some h -> h_phase h = Running t sv sh ->
  (id, (t, Some (sv, sh))) ∈ l_holders (lock_of s).
Proof.
  intros Ha Hp. simpl. unfold holders. apply list_elem_of_omap. exists (id, h).
  split; [|unfold held; simpl; by rewrite Hp].
  clear Hp. induction (active s) as [|[k v] a IH]; [done|]. cbn [assoc] in Ha.
  destruct (streq k id) eqn:He; [|set_solver]. apply streq_true in He as ->. injection Ha as ->. set_solver.
Qed.

Lemma holder_handler s id t w :
  distinct_ids s -> (id, (t, w)) ∈ l_holders (lock_of s) ->
  exists h, assoc id (active s) = Some h /\ held h = Some (t, w).
Proof.
  unfold distinct_ids. simpl. unfold holders. intros Hn Hin.
  apply list_elem_of_omap in Hin as ([k h] & Hin & Hh). simpl in Hh.
  destruct (held h) as [w'|] eqn:Hw; [|done]. injection Hh as -> ->. exists h. split; [|done].
  induction (active s) as [|[k v] a IH]; [set_solver|]. inversion Hn as [|? ? Hk Hn']; subst. cbn [assoc].
  apply elem_of_cons in Hin as [[= -> ->]|Hin]; [by rewrite streq_refl|].
  destruct (streq k id) eqn:He; [|by apply IH]. apply streq_true in He as ->.
  exfalso. apply Hk. by apply (list_elem_of_fmap_2 fst _ _ Hin).
Qed.

(** C2: workspace requests are isolated: at any moment at most one of them
    runs; while one runs, the process environment is exactly the one its frame
    asked for; and whenever none runs, the environment is the one the process
    was started with, whatever the requests before did and however they ended. *)
Theorem workspace_isolated (node : jstr) (env0 : gmap jstr jstr) (ids : list jstr) (s : bridge) :
  writable setenv env0 -> reach node env0 ids s ->
  (forall id h t sv sh, assoc id (active s) = Some h -> h_phase h = Running t sv sh ->
     env s = set_env setenv sh ∅ /\
     forall id' h' t' sv' sh', assoc id' (active s) = Some h' -> h_phase h' = Running t' sv' sh' -> id' = id) /\
  ((forall id h t sv sh, assoc id (active s) = Some h -> h_phase h ≠ Running t sv sh) -> env s = env0).
Proof.
  intros Hw Hr. destruct (reach_inv _ _ _ _ Hw Hr) as [Hn Hi]. split.
  - intros id h t sv sh Ha Hp. pose proof (running_holder _ _ _ _ _ _ Ha Hp) as Hin.
    destruct (li_inside _ _ _ Hi _ _ _ _ Hin) as [(j & -> & Hj) [_ He]]. split; [done|].
    intros id' h' t' sv' sh' Ha' Hp'. pose proof (running_holder _ _ _ _ _ _ Ha' Hp') as Hin'.
    apply list_elem_of_split in Hin as (a & b & Hab).
    unfold lock_of in *. simpl in *. rewrite Hab in *.
    apply elem_of_app in Hin'. rewrite elem_of_cons in Hin'. destruct Hin' as [Hin'|[Hin'|Hin']]; [|congruence|];
      pose proof (others_outside _ _ _ _ _ _ _ _ _ _ (id', (t', Some (sv', sh'))) Hi Hj
        ltac:(apply elem_of_app; tauto)); done.
  - intros Hidle. apply (li_idle _ _ _ Hi). apply Forall_forall. intros [id [t w]] Hin.
    destruct (holder_handler _ _ _ _ Hn Hin) as (h & Ha & Hh). simpl.
    unfold held in Hh. destruct (h_phase h) eqn:Hp; try done; [by injection Hh as <- <-|].
    exfalso. by apply (Hidle _ _ _ _ _ Ha Hp).
Qed.

(** C6: no workspace request waits for ever behind a stuck lock, and none
    overtakes another: while requests wait and none runs, the one that came
    first (no other waiting request has a smaller ticket) can start. *)
Theorem workspace_progress (node : jstr) (env0 : gmap jstr jstr) (ids : list jstr) (s : bridge)
    (id : jstr) (h : handler) (t : nat) (name : jstr) (args : json) (sh : shell_env) :
  writable setenv env0 -> reach node env0 ids s -> exited s = false ->
  assoc id (active s) = Some h -> h_phase h = Waiting t name args sh ->
  (forall id' h' t' sv sh', assoc id' (active s) = Some h' -> h_phase h' ≠ Running t' sv sh') ->
  exists first, is_Some (step (Acquire first) s) /\
    exists hf tf nf af sf, assoc first (active s) = Some hf /\ h_phase hf = Waiting tf nf af sf /\
      forall id' h' t' n' a' s', assoc id' (active s) = Some h' -> h_phase h' = Waiting t' n' a' s' -> (tf <= t')%nat.
Proof.
  intros Hw Hr Hex Ha Hp Hidle. destruct (reach_inv _ _ _ _ Hw Hr) as [Hn Hi].
  assert (forall id' h' t' n' a' s', assoc id' (active s) = Some h' -> h_phase h' = Waiting t' n' a' s' ->
    t' ∈ tickets (lock_of s)) as Htk.
  { intros id' h' t' n' a' s' Ha' Hp'. unfold tickets. simpl.
    apply (list_elem_of_fmap_2 (fun h => h.2.1) _ (id', (t', None))). unfold holders. apply list_elem_of_omap.
    exists (id', h'). split; [|unfold held; simpl; by rewrite Hp'].
    clear -Ha'. induction (active s) as [|[k v] a IH]; [done|]. cbn [assoc] in Ha'.
    destruct (streq k id') eqn:He; [|set_solver]. apply streq_true in He as ->. injection Ha' as ->. set_solver. }
  (* the least ticket that is not released *)
  assert (exists k, k ∈ released s /\ S k ∈ tickets (lock_of s)) as (k & Hk & Hsk).
  { pose proof (Htk _ _ _ _ _ _ Ha Hp) as Ht. destruct (li_pending _ _ _ Hi _ Ht) as [Hle Hnr]. simpl in *.
    clear -Ht Hnr Hle Hi. induction t as [|t IH]; [by destruct Hnr; apply (li_zero _ _ _ Hi)|].
    destruct (decide (t ∈ released s)) as [Hin|Hni]; [by exists t|].
    destruct (li_cover _ _ _ Hi t) as [|Htt]; [simpl in *; lia|done|]. apply IH; [done|lia|done]. }
  unfold tickets in Hsk. apply list_elem_of_fmap in Hsk as ([first [tf w]] & Heq & Hin). simpl in Heq. subst tf.
  destruct (holder_handler _ _ _ _ Hn Hin) as (hf & Hf & Hh). unfold held in Hh.
  destruct (h_phase hf) as [| |tf nf af sf|tf sv sh'] eqn:Hpf; try done;
    [|exfalso; by apply (Hidle _ _ _ _ _ Hf Hpf)].
  injection Hh as -> <-. exists first. split.
  - unfold bridge_step. rewrite Hex. cbn [event_id]. rewrite Hf. unfold resume_handler. rewrite Hpf.
    rewrite bool_decide_true by done. by eexists.
  - exists hf, (S k), nf, af, sf. split; [done|]. split; [done|]. intros id' h' t' n' a' s' Ha' Hp'.
    destruct (li_pending _ _ _ Hi _ (Htk _ _ _ _ _ _ Ha' Hp')) as [_ Hnr].
    destruct (decide (S k <= t')%nat) as [|Hlt]; [done|]. exfalso. apply Hnr.
    apply (closed_le _ (li_closed _ _ _ Hi) t' k); [lia|done].
Qed.
End Refinement.

(** The sample process: its environment takes every name. *)
Lemma sample_writable : writable (fun k v e => <[k := v]> e) sample_env.
Proof. by intros e k v. Qed.

(** Two workspace requests; the first one runs, the second one waits. *)
Definition contended_events : list bridge_event :=
  [Line (request_line (js "a") (js "workspace.ls")); Line (request_line (js "b") (js "workspace.ls"));
   Acquire (js "a")].

Definition phase_of (id : jstr) (s : bridge) : option phase := h_phase <$> assoc id (active s).

Lemma bridge_refines_lock_witness :
  exists ids s, sample_run contended_events [] (bridge_init (js "v22") sample_env) = Some (ids, s) /\
    rtc (lock_step (fun k v e => <[k := v]> e)) (Lock sample_env 0 [0%nat] []) (lock_of s).
Proof.
  destruct (sample_run contended_events [] (bridge_init (js "v22") sample_env)) as [[ids s]|] eqn:Hr;
    [|vm_compute in Hr; discriminate Hr].
  exists ids, s. split; [reflexivity|].
  apply (bridge_refines_lock int_num_str sample_registry (fun _ => NaN) (fun s => s) (fun s => s) false (fun s => s)
     (fun a b => a ++ b) (fun _ => false) (fun k v e => <[k := v]> e) (js "v22") sample_env ids s).
  eapply bridge_run_reachable; [constructor|exact Hr].
Defined.

Lemma workspace_isolated_witness :
  exists ids s, sample_run contended_events [] (bridge_init (js "v22") sample_env) = Some (ids, s) /\
    env s = {[ js "HOME" := js "/w" ]}.
Proof.
  assert (option_map (fun r => phase_of (js "a") r.2)
    (sample_run contended_events [] (bridge_init (js "v22") sample_env)) =
    Some (Some (Running 1 sample_env [(js "HOME", js "/w")]))) as Hv by (vm_compute; reflexivity).
  destruct (sample_run contended_events [] (bridge_init (js "v22") sample_env)) as [[ids s]|] eqn:Hr;
    [|discriminate Hv].
  exists ids, s. split; [reflexivity|]. injection Hv as Hp. unfold phase_of in Hp.
  destruct (assoc (js "a") (active s)) as [h|] eqn:Ha; [|discriminate Hp]. injection Hp as Hp.
  assert (sample_reachable (js "v22") sample_env ids s) as Hreach
    by (eapply bridge_run_reachable; [constructor|exact Hr]).
  destruct (workspace_isolated _ _ _ _ _ _ _ _ _ _ _ _ _ _ sample_writable Hreach) as [H _].
  destruct (H _ _ _ _ _ Ha Hp) as [He _]. rewrite He. vm_compute. reflexivity.
Defined.

Lemma workspace_progress_witness :
  exists ids s first, sample_run (take 2 contended_events) [] (bridge_init (js "v22") sample_env) = Some (ids, s) /\
    is_Some (bridge_step int_num_str sample_registry (fun _ => NaN) (fun s => s) (fun s => s) false (fun s => s)
     (fun a b => a ++ b) (fun _ => false) (fun k v e => <[k := v]> e) (Acquire first) s).
Proof.
  assert (option_map (fun r => (phase_of (js "b") r.2, map (fun e => h_phase e.2) (active r.2), exited r.2))
    (sample_run (take 2 contended_events) [] (bridge_init (js "v22") sample_env)) =
    Some (Some (Waiting 2 (js "ls") (JObj []) [(js "HOME", js "/w")]),
          [Waiting 1 (js "ls") (JObj []) [(js "HOME", js "/w")];
           Waiting 2 (js "ls") (JObj []) [(js "HOME", js "/w")]], false)) as Hv by (vm_compute; reflexivity).
  destruct (sample_run (take 2 contended_events) [] (bridge_init (js "v22") sample_env)) as [[ids s]|] eqn:Hr;
    [|discriminate Hv].
  injection Hv as Hp Hall Hx. unfold phase_of in Hp.
  destruct (assoc (js "b") (active s)) as [h|] eqn:Ha; [|discriminate Hp]. injection Hp as Hp.
  assert (sample_reachable (js "v22") sample_env ids s) as Hreach
    by (eapply bridge_run_reachable; [constructor|exact Hr]).
  destruct (workspace_progress _ _ _ _ _ _ _ _ _ _ _ _ _ _ _ _ _ _ _ _ sample_writable Hreach Hx Ha Hp)
    as (first & Hf & _); [|by exists ids, s, first].
  intros id' h' t' sv' sh' Ha' Hp'. clear -Ha' Hp' Hall.
  destruct (active s) as [|[k1 h1] [|[k2 h2] [|]]]; try discriminate Hall.
  injection Hall as H1 H2. cbn [assoc] in Ha'.
  destruct (streq k1 id'); [congruence|]. destruct (streq k2 id'); [congruence|discriminate].
Defined.
