(* ===== verification/Generation.v ===== *)
(** What the bridge lets out of a failed generation, and how its frames are
    laid out on stdout (src/drivers/tools/pibridge/bridge.ts). *)
From S2P Require Import Prelude Utf8 Numbers Json Messages Regex ProviderErrors Models EventStream Faux Estimate PiBridge.
Open Scope Z_scope.

(** The codes a failed generation is classified as. *)
Definition GENERATE_CODES : list jstr := map js
  ["cancelled"; "context_overflow"; "length_recoverable"; "rate_limited"; "auth"; "permission";
   "model_not_found"; "invalid_args"; "transient_provider"; "transport_error"; "unknown_provider_error"].

(** A literal code is in the list. *)
Ltac known_code := apply elem_of_bool_spec; vm_compute; reflexivity.

Lemma status_code_known st d : d ∈ GENERATE_CODES -> status_code st d ∈ GENERATE_CODES.
Proof.
  intros Hd. unfold status_code. destruct st as [s|]; [|done].
  repeat case_match; try done; known_code.
Qed.

Lemma generate_code_known m a fi : generate_code m a fi ∈ GENERATE_CODES.
Proof.
  unfold generate_code. repeat case_match; try known_code.
  all: apply status_code_known; known_code.
Qed.

Lemma failure_generate id e :
  e_validation e = false ->
  exists code, code ∈ GENERATE_CODES /\
    failure id (js "llm.generate") e =
    ErrorFrame id code (integer_field (e_status e)) (safe_string (e_code e)) (e_retryAfterMS e)
      (js "Provider request failed (" ++ code ++ js "); raw provider text is not exposed").
Proof.
  intros Hv. unfold failure. rewrite streq_refl, Hv. cbv zeta. eexists. split; [|reflexivity].
  assert (streq (js "cancelled") (js "provider_error") = false /\
          streq (js "model_not_found") (js "provider_error") = false /\
          streq (js "invalid_args") (js "provider_error") = false /\
          starts_with (js "workspace.") (js "llm.generate") = false) as (H1 & H2 & H3 & H4) by done.
  rewrite H4. generalize (streq (e_name e) (js "AbortError")).
  generalize (starts_with (js "unknown or ambiguous model") (e_message e)).
  generalize (starts_with (js "Validation failed for tool") (e_message e)).
  generalize (has_code (js "transport_error") (e_code e)), (has_code (js "cancelled") (e_code e)).
  intros c t v u [|]; [rewrite H1; known_code|]. destruct u; [rewrite H2; known_code|].
  destruct v; [rewrite H3; known_code|]. rewrite streq_refl.
  destruct t; [known_code|]. destruct c; [known_code|]. apply status_code_known. known_code.
Qed.

Lemma safe_message_fields code fields :
  lookup_field (js "errorMessage") (safe_message code fields) =
    Some (JStr (js "Provider request failed (" ++ code ++ js ")")) /\
  (code ≠ js "context_overflow" -> lookup_field (js "content") (safe_message code fields) = Some (JArr [])) /\
  (code = js "context_overflow" -> lookup_field (js "content") (safe_message code fields) = lookup_field (js "content") fields) /\
  (forall k, k ≠ js "errorMessage" -> k ≠ js "content" -> lookup_field k (safe_message code fields) = lookup_field k fields).
Proof.
  unfold safe_message. rewrite lookup_set_field_eq. split; [done|]. split; [|split].
  - intros Hc. apply streq_false in Hc. rewrite Hc, lookup_set_field_ne by done. apply lookup_set_field_eq.
  - intros ->. rewrite streq_refl, lookup_set_field_ne by done.
    destruct (lookup_field (js "content") fields) eqn:E; [apply lookup_set_field_eq|done].
  - intros k H1 H2. rewrite lookup_set_field_ne by done. destruct (if streq code _ then _ else _); [by apply lookup_set_field_ne|done].
Qed.

Lemma status_code_not_cancelled st d : d ≠ js "cancelled" -> status_code st d ≠ js "cancelled".
Proof. intros Hd. unfold status_code. destruct st; [|done]. by repeat case_match. Qed.

Lemma cancelled_aborted m a fi : generate_code m a fi = js "cancelled" <-> a_stopReason a = Aborted.
Proof.
  unfold generate_code. case_bool_decide; [done|]. split; [|done]. destruct (isContextOverflow _ _); [done|].
  destruct (isRecoverableLength _ _); [done|]. intros Hc. exfalso. revert Hc. apply status_code_not_cancelled. by case_bool_decide.
Qed.



(** The diagnostics a provider attached to its message do leave the bridge. *)
Lemma diagnostics_exposed code fields d :
  lookup_field (js "diagnostics") fields = Some d ->
  lookup_field (js "diagnostics") (safe_message code fields) = Some d.
Proof.
  intros H. unfold safe_message. rewrite lookup_set_field_ne by done.
  destruct (if streq code _ then _ else _) as [c|]; [|done]. by rewrite lookup_set_field_ne.
Qed.

(** ** Lines *)

Lemma quote_units_no_LF s : Forall is_unit s -> LF ∉ quote_units s.
Proof.
  assert (forall c, is_unit c -> LF ∉ escape_u c) as He.
  { intros c Hc. unfold escape_u, hex_digit, is_unit, LF in *.
    assert (0 <= c / 4096 < 16) by (split; [apply Z.div_pos; lia|apply Z.div_lt_upper_bound; lia]).
    pose proof (Z.mod_pos_bound (c / 256) 16 ltac:(lia)).
    pose proof (Z.mod_pos_bound (c / 16) 16 ltac:(lia)). pose proof (Z.mod_pos_bound c 16 ltac:(lia)).
    change (js "\u") with [92; 117]. cbn [app].
    rewrite !elem_of_cons, elem_of_nil. repeat case_match; bool_to_prop; lia. }
  assert (forall c, is_unit c -> LF ∉ quote_unit c) as Hq.
  { intros c Hc. unfold quote_unit. destruct (c =? 34); [set_solver|]. destruct (c =? 92); [set_solver|].
    destruct (c =? 8); [set_solver|]. destruct (c =? 12); [set_solver|].
    destruct (Z.eqb_spec c 10); [set_solver|]. destruct (c =? 13); [set_solver|].
    destruct (c =? 9); [set_solver|]. destruct (c <? 32); [by apply He|].
    rewrite list_elem_of_singleton. unfold LF. lia. }
  induction s as [s IH] using (induction_ltof1 _ (@length Z)); unfold ltof in IH.
  destruct s as [|c r]; intros Hs; [set_solver|]. inversion Hs as [|? ? Hc Hr]; subst. cbn [quote_units].
  destruct ((55296 <=? c) && (c <=? 56319)) eqn:Hhi; bool_to_prop.
  - destruct r as [|d r']; [by apply He|]. inversion Hr as [|? ? Hd Hr']; subst.
    destruct ((56320 <=? d) && (d <=? 57343)) eqn:Hlo; bool_to_prop.
    + rewrite !elem_of_cons. specialize (IH r' ltac:(simpl; lia) Hr'). unfold LF in *. naive_solver lia.
    + rewrite elem_of_app. intros [Hx|Hx]; [exact (He c Hc Hx)|]. revert Hx. apply IH; [simpl; lia|done].
  - destruct ((56320 <=? c) && (c <=? 57343)); rewrite elem_of_app; (intros [Hx|Hx];
      [first [exact (He c Hc Hx)|exact (Hq c Hc Hx)]|]); revert Hx; apply IH; simpl; try lia; done.
Qed.

(** Every string of a value is made of code units. *)
Fixpoint units_json (j : json) : Prop :=
  match j with
  | JStr s => Forall is_unit s
  | JArr l => (fix go l := match l with [] => True | x :: r => units_json x /\ go r end) l
  | JObj fs =>
      (fix go fs := match fs with
                    | [] => True
                    | (k, x) :: r => Forall is_unit k /\ units_json x /\ go r
                    end) fs
  | _ => True
  end.

Lemma join_no_LF sep ls : LF ∉ sep -> Forall (fun l => LF ∉ l) ls -> LF ∉ join sep ls.
Proof.
  intros Hs HF. induction HF as [|l ls Hl HF IH]; [set_solver|].
  destruct ls; [done|]. rewrite join_cons by done. set_solver.
Qed.

Lemma no_LF_literal s : forallb (fun c => negb (c =? LF)) s = true -> LF ∉ s.
Proof.
  intros H Hin. apply list_elem_of_In in Hin. rewrite forallb_forall in H. by specialize (H _ Hin).
Qed.

Lemma brackets_no_LF a s b :
  forallb (fun c => negb (c =? LF)) a = true -> forallb (fun c => negb (c =? LF)) b = true ->
  LF ∉ s -> LF ∉ a ++ s ++ b.
Proof. intros Ha%no_LF_literal Hb%no_LF_literal Hs. rewrite !elem_of_app. tauto. Qed.

Lemma stringify_no_LF (num_to_string : Q -> jstr) j :
  (forall q, LF ∉ num_to_string q) -> units_json j -> LF ∉ JSON_stringify num_to_string j.
Proof.
  intros Hn. assert (forall s, Forall is_unit s -> LF ∉ quote s) as Hq.
  { intros s Hs. unfold quote. pose proof (quote_units_no_LF s Hs). unfold LF in *. set_solver. }
  induction j as [|[]|[|[]|]|s|l IH|fs IH] using json_ind'; intros Hu; cbn [JSON_stringify];
    try (by apply no_LF_literal); auto.
  - apply brackets_no_LF; [done|done|]. apply join_no_LF; [by apply no_LF_literal|].
    cbn [units_json] in Hu. induction IH as [|x l Hx HF IHl]; cbn [map]; [constructor|].
    destruct Hu as [Hu1 Hu2]. constructor; [by apply Hx|by apply IHl].
  - apply brackets_no_LF; [done|done|]. apply join_no_LF; [by apply no_LF_literal|].
    cbn [units_json] in Hu. induction IH as [|[k x] l Hx HF IHl]; cbn [map]; [constructor|].
    destruct Hu as (Hk & Hu1 & Hu2). constructor; [|by apply IHl]. cbn [fst snd] in *.
    rewrite !elem_of_app. intros [H|[H|H]]; [by eapply Hq|by eapply (no_LF_literal (js ":"))|by apply Hx].
Qed.

(** A frame is one line: what the bridge writes for it has its only line feed
    at the end. *)
Lemma send_one_line (num_to_string : Q -> jstr) f :
  (forall q, LF ∉ num_to_string q) -> units_json (frame_json f) ->
  exists text, send num_to_string f = text ++ [LF] /\ LF ∉ text.
Proof. intros Hn Hu. eexists. split; [reflexivity|]. by apply stringify_no_LF. Qed.
