(* ===== verification/Validation.v ===== *)
(** Validation of tool arguments (packages/ai/dist/utils/validation.js, bundled
    in src/drivers/tools/pibridge/bridge.mjs).  Arguments are cloned before they
    are changed, so each pass is a function from value to value.  Schemas are
    objects or booleans; the schema compiler (the typebox package) is a parameter:
    a schema compiles to a check of values, or its compilation throws. *)
From S2P Require Import Prelude Numbers Json ConstrainedSampling.
Open Scope Z_scope.

Definition getSchemaTypes (schema : json) : list jstr :=
  match get (js "type") schema with
  | Some (JStr t) => [t]
  | Some (JArr l) => omap (fun v => match v with JStr t => Some t | _ => None end) l
  | _ => []
  end.

Definition matchesJsonType (v : json) (type : jstr) : bool :=
  if streq type (js "number") then match v with JNum _ => true | _ => false end
  else if streq type (js "integer") then match v with JNum n => isInteger n | _ => false end
  else if streq type (js "boolean") then match v with JBool _ => true | _ => false end
  else if streq type (js "string") then match v with JStr _ => true | _ => false end
  else if streq type (js "null") then match v with JNull => true | _ => false end
  else if streq type (js "array") then match v with JArr _ => true | _ => false end
  else if streq type (js "object") then match v with JObj _ => true | _ => false end
  else false.

Section Validation.
Context (num_to_string : Q -> jstr).

(** The "number" and "integer" cases; [ok] is [Number.isFinite] or
    [Number.isInteger]. *)
Definition coerce_number (ok : jsnum -> bool) (v : json) : json :=
  match v with
  | JNull => JNum (Finite 0)
  | JStr s => if truthy (trim s) && ok (Number s) then JNum (Number s) else v
  | JBool b => JNum (Finite (if b then 1 else 0))
  | _ => v
  end.

Definition coercePrimitiveByType (v : json) (type : jstr) : json :=
  if streq type (js "number") then coerce_number isFinite v
  else if streq type (js "integer") then coerce_number isInteger v
  else if streq type (js "boolean") then
    match v with
    | JNull => JBool false
    | JStr s => if streq s (js "true") then JBool true else if streq s (js "false") then JBool false else v
    | JNum (Finite q) => if Qeq_bool q 1 then JBool true else if Qeq_bool q 0 then JBool false else v
    | _ => v
    end
  else if streq type (js "string") then
    match v with
    | JNull => JStr []
    | JNum n => JStr (jsnum_string num_to_string n)
    | JBool b => JStr (js (if b then "true" else "false"))
    | _ => v
    end
  else if streq type (js "null") then
    match v with
    | JStr [] => JNull
    | JNum (Finite q) => if Qeq_bool q 0 then JNull else v
    | JBool false => JNull
    | _ => v
    end
  else v.

(** [Compile(schema)], with its [Check], or the message of what it throws;
    [validatorCache] only saves work. *)
Context (Compile : json -> result jstr (json -> bool)).

(** [getSubSchemaValidator(schema)?.Check(value)]; [None] when the schema does
    not compile. *)
Definition check (schema v : json) : option bool :=
  match Compile schema with Ok Check => Some (Check v) | Throw _ => None end.

Definition checks (schema v : json) : bool := bool_decide (check schema v = Some true).

Section Node.
(** The recursive call. *)
Context (rec : json -> json -> json).

Definition has_field (key : jstr) (fs : list (jstr * json)) : bool :=
  match lookup_field key fs with Some _ => true | None => false end.

(** Coerces the field [key] of an object, if it has one. *)
Definition coerce_field (fs : list (jstr * json)) (key : jstr) (schema : json) : list (jstr * json) :=
  match lookup_field key fs with
  | Some v => set_field key (rec v schema) fs
  | None => fs
  end.

Definition applySchemaObjectCoercion (fs : list (jstr * json)) (schema : json) : list (jstr * json) :=
  let properties := match get (js "properties") schema with Some (JObj ps) => own_order ps | _ => [] end in
  let fs := foldl (fun fs kv => coerce_field fs kv.1 kv.2) fs properties in
  match get (js "additionalProperties") schema with
  | Some ((JObj _ | JArr _) as extra) =>
      foldl (fun acc kv => if has_field kv.1 properties then acc else set_field kv.1 (rec kv.2 extra) acc)
        fs (own_order fs)
  | _ => fs
  end.

(** [value2[i] = coerce(value2[i], items[i])] for every index that has a
    schema. *)
Fixpoint coerce_tuple (l items : list json) : list json :=
  match l, items with
  | v :: l, s :: items => (if truthy_json (Some s) then rec v s else v) :: coerce_tuple l items
  | l, [] => l
  | [], _ => []
  end.

Definition applySchemaArrayCoercion (l : list json) (schema : json) : list json :=
  match get (js "items") schema with
  | Some (JArr items) => coerce_tuple l items
  | Some (JObj s) => map (fun v => rec v (JObj s)) l
  | _ => l
  end.

Definition coerceWithUnionSchema (v : json) (schemas : list json) : json :=
  if existsb (fun s => checks s v) schemas then v
  else match List.find (fun s => checks s (rec v s)) schemas with
       | Some s => rec v s
       | None => v
       end.

(** The loop over the types: the first one that changes the value. *)
Fixpoint coerce_types (v : json) (types : list jstr) : json :=
  match types with
  | [] => v
  | t :: r =>
      let candidate := coercePrimitiveByType v t in
      if bool_decide (candidate = v) then coerce_types v r else candidate
  end.

Definition union_of (key : jstr) (schema : json) (v : json) : json :=
  match get key schema with Some (JArr l) => coerceWithUnionSchema v l | _ => v end.

Definition coerce_node (v schema : json) : json :=
  let v := match get (js "allOf") schema with Some (JArr l) => foldl rec v l | _ => v end in
  let v := union_of (js "anyOf") schema v in
  let v := union_of (js "oneOf") schema v in
  let types := getSchemaTypes schema in
  let matchesUnionMember := (1 <? length types)%nat && existsb (matchesJsonType v) types in
  let v := if matchesUnionMember then v else coerce_types v types in
  let v := match v with
           | JObj fs => if existsb (streq (js "object")) types then JObj (applySchemaObjectCoercion fs schema) else v
           | _ => v
           end in
  match v with
  | JArr l => if existsb (streq (js "array")) types then JArr (applySchemaArrayCoercion l schema) else v
  | _ => v
  end.
End Node.

(** The fuel bounds the nesting of the schema. *)
Fixpoint coerce (fuel : nat) (v schema : json) : json :=
  match fuel with
  | O => v
  | S f => coerce_node (coerce f) v schema
  end.

Definition coerceWithJsonSchema (v schema : json) : json := coerce (depth schema) v schema.

(** [normalizeOptionalNulls(value, schema)]: the value it leaves. *)
Fixpoint normalize (fuel : nat) (v schema : json) : json :=
  match fuel with
  | O => v
  | S f =>
      let field required fs kv :=
        match lookup_field kv.1 fs with
        | None => fs
        | Some x =>
            if bool_decide (x = JNull) && negb (existsb (streq kv.1) required) &&
               match get (js "$ref") kv.2 with Some (JStr _) => false | _ => true end &&
               bool_decide (check kv.2 JNull = Some false)
            then delete_field kv.1 fs
            else set_field kv.1 (normalize f x kv.2) fs
        end in
      match v with
      | JArr l =>
          match get (js "items") schema with
          | Some (JArr items) =>
              JArr ((fix go l items :=
                match l, items with
                | v :: l, s :: items => (if truthy_json (Some s) then normalize f v s else v) :: go l items
                | l, [] => l
                | [], _ => []
                end) l items)
          | Some s => if truthy_json (Some s) then JArr (map (fun x => normalize f x s) l) else v
          | None => v
          end
      | JObj fs =>
          match get (js "properties") schema with
          | Some (JObj ps) =>
              let required := match get (js "required") schema with
                              | Some (JArr l) => omap (fun v => match v with JStr t => Some t | _ => None end) l
                              | _ => []
                              end in
              JObj (foldl (field required) fs (own_order ps))
          | _ => v
          end
      | _ => v
      end
  end.

Definition normalizeOptionalNulls (v schema : json) : json := normalize (depth schema) v schema.

(** ** The whole validation *)

(** An error of the validator: its keyword, its path and message, and the
    first of its missing properties. *)
Record validation_error := ValidationError {
  ve_required : bool; ve_instancePath : jstr; ve_requiredProperty : option jstr; ve_message : jstr
}.

(** [path.replace(/^\//, "").replace(/\//g, ".")] *)
Definition dotted (path : jstr) : jstr :=
  replace_unit 47 [46] (match path with 47 :: r => r | p => p end).

Definition formatValidationPath (e : validation_error) : jstr :=
  let path := dotted (ve_instancePath e) in
  match (if ve_required e then ve_requiredProperty e else None) with
  | Some (c :: p) => if truthy path then path ++ [46] ++ c :: p else c :: p
  | _ => if truthy path then path else js "root"
  end.

(** A tool: its schema, and whether it was built with typebox. *)
Context (errors : json -> json -> list validation_error).
(** The change typebox's [Convert] makes to a value in place, and
    [JSON.stringify(v, null, 2)]. *)
Context (Convert : json -> json -> json) (pretty : json -> jstr).

Definition validation_message (name : jstr) (schema original args : json) : jstr :=
  let listed := join [LF] (map (fun e => js "  - " ++ formatValidationPath e ++ js ": " ++ ve_message e)
                             (errors schema args)) in
  let listed := if truthy listed then listed else js "Unknown validation error" in
  js "Validation failed for tool " ++ [34] ++ name ++ [34] ++ js ":" ++ [LF] ++ listed ++ [LF; LF] ++
  js "Received arguments:" ++ [LF] ++ pretty original.

Definition is_object_or_array (v : json) : bool := match v with JObj _ | JArr _ => true | _ => false end.

Definition validateToolArguments (schema : json) (typebox : bool) (name : jstr) (arguments : json)
  : result jstr json :=
  let args := Convert schema (normalizeOptionalNulls arguments schema) in
  let! Check := Compile schema in
  let conclude args :=
    if Check args then Ok args else Throw (validation_message name schema arguments args) in
  if typebox then conclude args
  else
    let coerced := coerceWithJsonSchema args schema in
    if bool_decide (coerced = args) then conclude args
    else if is_object_or_array args && is_object_or_array coerced then conclude coerced
    else Ok (if Check coerced then coerced else args).

(** * Facts *)

(** A value of a type is left alone, and what a coercion changes gets the type. *)
Lemma coercePrimitive_typed v t : matchesJsonType v t = true -> coercePrimitiveByType v t = v.
Proof.
  unfold matchesJsonType, coercePrimitiveByType.
  repeat (case_match; try done); by destruct v.
Qed.

Lemma isInteger_Finite n : isInteger n = true -> exists q, n = Finite q.
Proof. destruct n; try done. eauto. Qed.

Lemma coercePrimitive_changes v t :
  coercePrimitiveByType v t ≠ v -> matchesJsonType (coercePrimitiveByType v t) t = true.
Proof.
  unfold matchesJsonType, coercePrimitiveByType, coerce_number.
  destruct (streq t (js "number")).
  { destruct v; try done. by case_match. }
  destruct (streq t (js "integer")).
  { destruct v as [|[]| | | |]; try done. destruct (_ && _) eqn:Hb; [|done]. by bool_to_prop. }
  destruct (streq t (js "boolean")).
  { destruct v as [|[]|[]| | |]; try done; repeat case_match; done. }
  destruct (streq t (js "string")); [by destruct v|].
  destruct (streq t (js "null")); [|done].
  destruct v as [|[]|[]|[]| |]; try done; repeat case_match; done.
Qed.

Lemma coercePrimitive_object fs t : coercePrimitiveByType (JObj fs) t = JObj fs.
Proof. unfold coercePrimitiveByType, coerce_number. by repeat case_match. Qed.

Lemma coerce_types_object fs types : coerce_types (JObj fs) types = JObj fs.
Proof.
  induction types as [|t r IH]; [done|]. cbn [coerce_types]. rewrite coercePrimitive_object.
  by rewrite bool_decide_true.
Qed.

Definition is_obj (v : json) : Prop := exists fs, v = JObj fs.

Lemma union_object rec v l :
  (forall v s, is_obj v -> is_obj (rec v s)) -> is_obj v -> is_obj (coerceWithUnionSchema rec v l).
Proof.
  intros Hrec Hv. unfold coerceWithUnionSchema. destruct (existsb _ l); [done|].
  destruct (List.find _ l); [by apply Hrec|done].
Qed.

Lemma union_of_object rec key schema v :
  (forall v s, is_obj v -> is_obj (rec v s)) -> is_obj v -> is_obj (union_of rec key schema v).
Proof.
  intros Hrec Hv. unfold union_of. destruct (get key schema) as [[]|]; try done. by apply union_object.
Qed.

(** An object stays an object. *)
Lemma coerce_object f v schema : is_obj v -> is_obj (coerce f v schema).
Proof.
  revert v schema; induction f as [|f IH]; intros v schema Hv; [done|]. cbn [coerce]. unfold coerce_node.
  set (v1 := match get (js "allOf") schema with Some (JArr l) => foldl (coerce f) v l | _ => v end).
  assert (is_obj v1) as H1.
  { unfold v1. destruct (get _ _) as [[]|]; try done. clear v1. revert v Hv.
    induction l as [|s l IHl]; intros v Hv; [done|]. cbn [foldl]. apply IHl. by apply IH. }
  pose proof (union_of_object (coerce f) (js "oneOf") schema _ IH
    (union_of_object (coerce f) (js "anyOf") schema v1 IH H1)) as [fs Hfs].
  cbv zeta. rewrite Hfs. rewrite coerce_types_object. destruct (_ && _), (existsb (streq (js "object")) _); by eexists.
Qed.

(** ** Fuel *)

Lemma foldl_ext_in {A B} (f g : A -> B -> A) l a :
  (forall a x, x ∈ l -> f a x = g a x) -> foldl f a l = foldl g a l.
Proof.
  revert a; induction l as [|x l IH]; intros a H; [done|]. cbn [foldl].
  rewrite H by set_solver. apply IH. intros a' y Hy. apply H. set_solver.
Qed.

Section Fuel.
Context (r1 r2 : json -> json -> json) (n : nat).
Context (agree : forall v t, (depth t < n)%nat -> r1 v t = r2 v t).

Lemma coerceWithUnionSchema_ext v l :
  Forall (fun s => (depth s < n)%nat) l -> coerceWithUnionSchema r1 v l = coerceWithUnionSchema r2 v l.
Proof.
  intros HF. unfold coerceWithUnionSchema. destruct (existsb _ l); [done|].
  induction HF as [|s l Hs HF IH]; [done|]. cbn [List.find]. rewrite (agree v s Hs).
  destruct (checks s (r2 v s)); [by rewrite agree|done].
Qed.

Lemma elements_bounded k s l :
  get k s = Some (JArr l) -> (depth s <= n)%nat -> Forall (fun s => (depth s < n)%nat) l.
Proof.
  intros Hg Hs. apply Forall_forall. intros x Hx. apply depth_get in Hg. apply depth_elem in Hx. lia.
Qed.

Lemma union_of_ext k s v : (depth s <= n)%nat -> union_of r1 k s v = union_of r2 k s v.
Proof.
  intros Hs. unfold union_of. destruct (get k s) as [[]|] eqn:Hg; try done.
  apply coerceWithUnionSchema_ext. by eapply elements_bounded.
Qed.

Lemma object_ext fs s :
  (depth s <= n)%nat -> applySchemaObjectCoercion r1 fs s = applySchemaObjectCoercion r2 fs s.
Proof.
  intros Hs. unfold applySchemaObjectCoercion.
  set (ps := match get (js "properties") s with Some (JObj ps) => own_order ps | _ => [] end).
  assert (foldl (fun fs kv => coerce_field r1 fs kv.1 kv.2) fs ps =
          foldl (fun fs kv => coerce_field r2 fs kv.1 kv.2) fs ps) as ->.
  { apply foldl_ext_in. intros a [k v] Hx. unfold coerce_field. cbn [fst snd].
    destruct (lookup_field k a); [|done]. rewrite agree; [done|]. subst ps.
    destruct (get (js "properties") s) as [[]|] eqn:Hp; try (by apply elem_of_nil in Hx).
    apply depth_get in Hp. apply own_order_elem in Hx. apply depth_field in Hx. lia. }
  destruct (get (js "additionalProperties") s) as [[]|] eqn:Ha; try done; apply depth_get in Ha;
    apply foldl_ext_in; intros a kv _; destruct (has_field kv.1 ps); try done; (rewrite agree; [done|lia]).
Qed.

Lemma array_ext l s :
  (depth s <= n)%nat -> applySchemaArrayCoercion r1 l s = applySchemaArrayCoercion r2 l s.
Proof.
  intros Hs. unfold applySchemaArrayCoercion. destruct (get (js "items") s) as [[]|] eqn:Hi; try done.
  - pose proof (elements_bounded _ _ _ Hi Hs) as HF. clear Hi. revert l.
    induction HF as [|x l0 Hx HF IH]; intros [|v l]; try done. cbn [coerce_tuple]. by rewrite agree, IH.
  - apply depth_get in Hi. apply map_ext. intros v. apply agree. lia.
Qed.

Lemma coerce_node_ext v s : (depth s <= n)%nat -> coerce_node r1 v s = coerce_node r2 v s.
Proof.
  intros Hs. unfold coerce_node.
  assert (match get (js "allOf") s with Some (JArr l) => foldl r1 v l | _ => v end =
          match get (js "allOf") s with Some (JArr l) => foldl r2 v l | _ => v end) as ->.
  { destruct (get (js "allOf") s) as [[]|] eqn:Ha; try done. apply foldl_ext_in. intros a x Hx.
    apply agree. pose proof (elements_bounded _ _ _ Ha Hs) as HF. rewrite Forall_forall in HF. by apply HF. }
  rewrite !union_of_ext by done. cbv zeta. destruct (if _ && _ then _ else _); try done.
  - destruct (existsb _ _); [by rewrite array_ext|done].
  - destruct (existsb _ _); [by rewrite object_ext|done].
Qed.
End Fuel.

(** The depth of the schema is fuel enough: more gives the same. *)
Lemma coerce_fuel f v s : (depth s <= f)%nat -> coerce f v s = coerceWithJsonSchema v s.
Proof.
  unfold coerceWithJsonSchema. assert (forall t, 1 <= depth t)%nat as Hd by (intros t; destruct t; simpl; lia).
  intros Hf. assert (forall f f' v s, (depth s <= f)%nat -> (depth s <= f')%nat -> coerce f v s = coerce f' v s) as H;
    [|by apply H].
  clear f v s Hf. induction f as [|f IH]; intros [|f'] v s H1 H2; try (specialize (Hd s); lia).
  cbn [coerce]. apply (coerce_node_ext _ _ (depth s)); [|done]. intros w t Ht. apply IH; lia.
Qed.

(** ** Flat schemas *)

(** Updates of the fields that a list of properties names. *)
Lemma foldl_fields (g : list (jstr * json) -> jstr * json -> list (jstr * json)) (h : jstr -> json -> option json -> option json) :
  (forall fs kv k, lookup_field k (g fs kv) = if streq kv.1 k then h k kv.2 (lookup_field k fs) else lookup_field k fs) ->
  forall ps fs k, NoDup (map fst ps) ->
  lookup_field k (foldl g fs ps) = match lookup_field k ps with Some s => h k s (lookup_field k fs) | None => lookup_field k fs end.
Proof.
  intros Hg ps. induction ps as [|[k' s] ps IH]; intros fs k Hn; [done|]. cbn [foldl lookup_field map fst] in *.
  apply NoDup_cons in Hn as [Hk Hn]. rewrite IH, Hg by done. cbn [fst snd]. destruct (streq k' k) eqn:E; [|done].
  apply streq_true in E as ->. assert (lookup_field k ps = None) as ->; [|done].
  clear -Hk. induction ps as [|[k' s] ps IH]; [done|]. cbn in *. rewrite (proj2 (streq_false k' k)) by set_solver. apply IH. set_solver.
Qed.

Lemma lookup_elem k v ps : NoDup (map fst ps) -> lookup_field k ps = Some v <-> (k, v) ∈ ps.
Proof.
  induction ps as [|[k' w] ps IH]; intros Hn; cbn [lookup_field map fst] in *; [by rewrite elem_of_nil|].
  apply NoDup_cons in Hn as [Hk Hn]. rewrite elem_of_cons. destruct (streq k' k) eqn:E.
  - apply streq_true in E as ->. split; [intros [= ->]; by left|]. intros [[= ->]|Hin]; [done|]. destruct Hk. by apply (list_elem_of_fmap_2 fst) in Hin.
  - apply streq_false in E. rewrite IH by done. split; [by right|]. intros [[= -> ->]|?]; done.
Qed.

Lemma own_order_Permutation {A} (fs : list (jstr * A)) : own_order fs ≡ₚ fs.
Proof.
  unfold own_order. rewrite sort_by_perm. induction fs as [|kv fs IH]; [done|]. cbn [List.filter].
  destruct (is_index_key kv.1); cbn [negb app]; [by rewrite IH|]. by rewrite <- Permutation_middle, IH.
Qed.

Lemma own_order_keys (ps : list (jstr * json)) : NoDup (map fst ps) -> NoDup (map fst (own_order ps)).
Proof. intros Hn. by rewrite own_order_Permutation. Qed.

Lemma lookup_own_order k (ps : list (jstr * json)) : NoDup (map fst ps) -> lookup_field k (own_order ps) = lookup_field k ps.
Proof.
  intros Hn. pose proof (own_order_keys ps Hn) as Ho. destruct (lookup_field k ps) as [v|] eqn:E.
  - apply lookup_elem; [done|]. rewrite own_order_Permutation. by apply lookup_elem.
  - destruct (lookup_field k (own_order ps)) as [v|] eqn:E'; [|done]. apply lookup_elem in E'; [|done].
    rewrite own_order_Permutation in E'. apply lookup_elem in E'; [|done]. congruence.
Qed.

(** The schema of a value of one type that has no parts. *)
Definition leaf (s : json) (t : jstr) : Prop :=
  get (js "type") s = Some (JStr t) /\ t ≠ js "object" /\ t ≠ js "array" /\ get (js "allOf") s = None /\ get (js "anyOf") s = None /\
  get (js "oneOf") s = None /\ get (js "properties") s = None /\ get (js "items") s = None.

(** The schema of an object of such values, [types] naming their types: that of most tools. *)
Definition flat (schema : json) (ps : list (jstr * json)) (types : jstr -> option jstr) : Prop :=
  get (js "type") schema = Some (JStr (js "object")) /\ get (js "properties") schema = Some (JObj ps) /\ NoDup (map fst ps) /\
  get (js "allOf") schema = None /\ get (js "anyOf") schema = None /\ get (js "oneOf") schema = None /\
  (get (js "additionalProperties") schema = None \/ exists b, get (js "additionalProperties") schema = Some (JBool b)) /\
  (forall k, match lookup_field k ps with Some s => exists t, types k = Some t /\ leaf s t | None => types k = None end).

Definition requires (schema : json) (k : jstr) : Prop := exists l, get (js "required") schema = Some (JArr l) /\ JStr k ∈ l.

Lemma coerce_leaf f v s t : leaf s t -> (1 <= f)%nat -> coerce f v s = coercePrimitiveByType v t.
Proof.
  intros (Ht & Ho & Ha & H1 & H2 & H3 & _) Hf. destruct f as [|f]; [lia|]. cbn [coerce]. unfold coerce_node, union_of, getSchemaTypes.
  rewrite H1, H2, H3, Ht. cbn [length Nat.ltb Nat.leb andb coerce_types existsb orb].
  assert (Hn : streq (js "object") t = false /\ streq (js "array") t = false) by (split; apply streq_false; congruence).
  destruct Hn as [-> ->]. cbv zeta.
  assert (Hv : (if bool_decide (coercePrimitiveByType v t = v) then v else coercePrimitiveByType v t) = coercePrimitiveByType v t)
    by (by case_bool_decide). rewrite Hv. by destruct (coercePrimitiveByType v t).
Qed.

Lemma normalize_leaf f v s t : leaf s t -> normalize f v s = v.
Proof. intros (_ & _ & _ & _ & _ & _ & Hp & Hi). destruct f; [done|]. cbn [normalize]. rewrite Hp, Hi. by destruct v. Qed.

(** A property has its own fuel. *)
Lemma flat_depth schema ps types k s : flat schema ps types -> lookup_field k ps = Some s -> (1 <= pred (depth schema))%nat.
Proof.
  intros (_ & Hp & _) Hk. apply depth_get in Hp. assert (1 <= depth (JObj ps))%nat by (simpl; lia). lia.
Qed.

(** Every property is coerced by its type, and nothing else changes. *)
Lemma coerce_flat schema ps types fs :
  flat schema ps types ->
  exists fs', coerceWithJsonSchema (JObj fs) schema = JObj fs' /\
    forall k, lookup_field k fs' =
      match types k, lookup_field k fs with Some t, Some v => Some (coercePrimitiveByType v t) | _, o => o end.
Proof.
  intros Hf. pose proof Hf as (Ht & Hp & Hn & H1 & H2 & H3 & Hx & Hl). unfold coerceWithJsonSchema.
  destruct (depth schema) as [|f] eqn:Ed; [apply depth_get in Hp; lia|]. cbn [coerce].
  exists (foldl (fun fs kv => coerce_field (coerce f) fs kv.1 kv.2) fs (own_order ps)). split.
  - unfold coerce_node, union_of, getSchemaTypes. rewrite H1, H2, H3, Ht. cbn [length Nat.ltb Nat.leb andb existsb orb]. cbv zeta.
    rewrite coerce_types_object. change (streq (js "object") (js "object")) with true. cbn [orb].
    unfold applySchemaObjectCoercion. rewrite Hp. by destruct Hx as [->|[b ->]].
  - intros k. rewrite (foldl_fields _ (fun k s o => (fun v => coerce f v s) <$> o)).
    + rewrite lookup_own_order by done. specialize (Hl k). destruct (lookup_field k ps) as [s|] eqn:Es; [|rewrite Hl; by destruct (lookup_field k fs)].
      destruct Hl as (t & -> & Hleaf). destruct (lookup_field k fs) as [v|]; [|done]. cbn. f_equal. apply coerce_leaf; [done|].
      pose proof (flat_depth schema ps types k s Hf Es). rewrite Ed in *. simpl in *. lia.
    + intros a [k' s] k0. cbn [fst snd]. unfold coerce_field. destruct (lookup_field k' a) as [v|] eqn:E.
      * destruct (streq k' k0) eqn:Ek; [apply streq_true in Ek as <-; by rewrite lookup_set_field_eq, E|].
        apply streq_false in Ek. by rewrite lookup_set_field_ne by congruence.
      * destruct (streq k' k0) eqn:Ek; [apply streq_true in Ek as <-; by rewrite E|done].
    + by apply own_order_keys.
Qed.

(** A [null] is dropped where the property may be missing and may not be [null];
    nothing else changes. *)
Lemma normalize_flat schema ps types fs :
  flat schema ps types ->
  exists fs', normalizeOptionalNulls (JObj fs) schema = JObj fs' /\
    forall k, let dropped := lookup_field k fs = Some JNull /\ ~ requires schema k /\
                exists s, lookup_field k ps = Some s /\ (forall r, get (js "$ref") s ≠ Some (JStr r)) /\ check s JNull = Some false in
      (dropped -> lookup_field k fs' = None) /\ (~ dropped -> lookup_field k fs' = lookup_field k fs).
Proof.
  intros (Ht & Hp & Hn & _ & _ & _ & _ & Hl). unfold normalizeOptionalNulls.
  destruct (depth schema) as [|f] eqn:Ed; [apply depth_get in Hp; lia|]. cbn [normalize]. rewrite Hp. eexists. split; [reflexivity|]. intros k.
  set (required := match get (js "required") schema with Some (JArr l) => _ | _ => [] end).
  assert (Hreq : existsb (streq k) required = true <-> requires schema k).
  { unfold required, requires. rewrite existsb_exists. destruct (get (js "required") schema) as [[]|];
      try (split; [by intros (? & [] & _)|by intros (? & ? & _)]).
    split.
    - intros (x & Hx & E). apply streq_true in E as <-. exists l. split; [done|]. apply list_elem_of_In, list_elem_of_omap in Hx as (y & Hy & Hj).
      destruct y; try done. by injection Hj as ->.
    - intros (l' & [= ->] & Hk). exists k. split; [|apply streq_refl]. apply list_elem_of_In, list_elem_of_omap. by exists (JStr k). }
  rewrite (foldl_fields _ (fun k s o =>
    match o with
    | None => None
    | Some x => if bool_decide (x = JNull) && negb (existsb (streq k) required) &&
                   match get (js "$ref") s with Some (JStr _) => false | _ => true end && bool_decide (check s JNull = Some false)
                then None else Some (normalize f x s)
    end)).
  - rewrite lookup_own_order by done. specialize (Hl k). cbv zeta. destruct (lookup_field k ps) as [s|] eqn:Es.
    + destruct Hl as (t & _ & Hleaf). destruct (lookup_field k fs) as [x|] eqn:Ex; [|split; [by intros (? & _)|done]].
      rewrite (normalize_leaf f x s t Hleaf). split.
      * intros ([= ->] & Hnr & s' & [= <-] & Href & Hc). rewrite bool_decide_true, (bool_decide_true (check s JNull = _)) by done.
        destruct (existsb (streq k) required) eqn:Ee; [by destruct Hnr; apply Hreq|]. cbn [negb andb].
        destruct (get (js "$ref") s) as [[]|] eqn:Er; try done. by destruct (Href s0).
      * intros Hnot. destruct (_ && _) eqn:Eb; [|done]. destruct Hnot. rewrite !andb_true_iff, !bool_decide_eq_true, negb_true_iff in Eb.
        destruct Eb as (((-> & Ee) & Er) & Ec). split; [done|]. split; [intros H; apply Hreq in H; congruence|].
        exists s. split; [done|]. split; [|done]. intros r0 E0. by rewrite E0 in Er.
    + split; [|done]. intros (_ & _ & s & ? & _). congruence.
  - intros a [k' s] k0. cbn [fst snd]. destruct (lookup_field k' a) as [x|] eqn:E.
    + destruct (streq k' k0) eqn:Ek.
      * apply streq_true in Ek as <-. rewrite E. destruct (_ && _); [|apply lookup_set_field_eq].
        clear. unfold delete_field. induction a as [|[k1 w] a IH]; [done|]. cbn [List.filter fst]. destruct (streq k1 k') eqn:E1; cbn [negb lookup_field]; rewrite ?E1; done.
      * pose proof Ek as Ek'. apply streq_false in Ek'. destruct (_ && _); [|by rewrite lookup_set_field_ne by congruence].
        clear E. unfold delete_field. induction a as [|[k1 w] a IH]; [done|]. cbn [List.filter fst lookup_field].
        destruct (streq k1 k') eqn:E1; cbn [negb lookup_field]; rewrite IH; [|done]. apply streq_true in E1 as ->. by rewrite Ek.
    + destruct (streq k' k0) eqn:Ek; [apply streq_true in Ek as <-; by rewrite E|done].
  - by apply own_order_keys.
Qed.

(** C40: for a tool call whose arguments are an object (as the bridge's always
    are).  Validation prepares the arguments: optional [null]s are dropped, the
    values converted and, for a tool not built with typebox, coerced.  If the schema
    does not compile it fails with the compiler's error; otherwise it returns the
    prepared arguments when the validator accepts them, and fails when not, with a
    text that names the tool, from which the bridge recognises invalid arguments.
    When the schema is that of an object of values without parts, a field is dropped
    just when it is [null], not required, and its schema rejects [null]; every
    property is coerced by its type, and no other field changes; and a coercion
    keeps a value that has the type, and gives the type to one it changes. *)
Theorem validate_sound (schema : json) (typebox : bool) (name : jstr) (fs : list (jstr * json)) :
  (forall s v, is_obj v -> is_obj (Convert s v)) ->
  exists given converted prepared,
    normalizeOptionalNulls (JObj fs) schema = JObj given /\ Convert schema (JObj given) = JObj converted /\
    (typebox = true -> prepared = converted) /\
    match validateToolArguments schema typebox name (JObj fs) with
    | Ok args => args = JObj prepared /\ exists Check, Compile schema = Ok Check /\ Check args = true
    | Throw e =>
        Compile schema = Throw e \/
        exists Check, Compile schema = Ok Check /\ Check (JObj prepared) = false /\
          e = validation_message name schema (JObj fs) (JObj prepared) /\ starts_with (js "Validation failed for tool") e = true
    end /\
    forall ps types, flat schema ps types ->
      (forall k, let dropped := lookup_field k fs = Some JNull /\ ~ requires schema k /\
                   exists s, lookup_field k ps = Some s /\ (forall r, get (js "$ref") s ≠ Some (JStr r)) /\ check s JNull = Some false in
         (dropped -> lookup_field k given = None) /\ (~ dropped -> lookup_field k given = lookup_field k fs)) /\
      (typebox = false -> forall k, lookup_field k prepared =
         match types k, lookup_field k converted with Some t, Some v => Some (coercePrimitiveByType v t) | _, o => o end) /\
      (forall v t, (matchesJsonType v t = true -> coercePrimitiveByType v t = v) /\
         (coercePrimitiveByType v t ≠ v -> matchesJsonType (coercePrimitiveByType v t) t = true)).
Proof.
  intros Hconv.
  assert (is_obj (normalizeOptionalNulls (JObj fs) schema)) as [given Hn].
  { unfold normalizeOptionalNulls. destruct (depth schema); cbn [normalize]; [by eexists|].
    destruct (get (js "properties") schema) as [[]|]; by eexists. }
  destruct (Hconv schema (JObj given) ltac:(by eexists)) as [converted Hc].
  destruct (coerce_object (depth schema) (JObj converted) schema ltac:(by eexists)) as [coerced Hco].
  fold (coerceWithJsonSchema (JObj converted) schema) in Hco.
  exists given, converted, (if typebox then converted else coerced). split; [done|]. split; [done|]. split; [by intros ->|]. split.
  - assert (Hv : validateToolArguments schema typebox name (JObj fs) =
      let! Check := Compile schema in
      let prepared := JObj (if typebox then converted else coerced) in
      if Check prepared then Ok prepared else Throw (validation_message name schema (JObj fs) prepared)).
    { unfold validateToolArguments. rewrite Hn, Hc, Hco. destruct (Compile schema); [|done]. cbn [bind]. destruct typebox; [done|].
      case_bool_decide as E; [by rewrite E|done]. }
    rewrite Hv. destruct (Compile schema) as [Check|e]; cbn [bind]; [|by left]. cbv zeta.
    destruct (Check _) eqn:E; [split; [done|]; by exists Check|]. right. exists Check. split; [done|]. split; [done|]. split; [done|].
    unfold validation_message. change (js "Validation failed for tool ") with (js "Validation failed for tool" ++ [32]).
    rewrite <- app_assoc. apply starts_with_app.
  - intros ps types Hf. split; [|split].
    + destruct (normalize_flat schema ps types fs Hf) as (fs' & E & H). rewrite Hn in E. by injection E as ->.
    + intros -> . destruct (coerce_flat schema ps types converted Hf) as (fs' & E & H). rewrite Hco in E. by injection E as ->.
    + intros v t. split; [apply coercePrimitive_typed|apply coercePrimitive_changes].
Qed.
End Validation.

(** A compiler of schemas for objects whose [path] is a string. *)
Definition path_compile (schema : json) : result jstr (json -> bool) :=
  Ok (fun v => match get (js "path") v with Some (JStr _) => true | _ => false end).

Definition path_schema : json :=
  JObj [(js "type", JStr (js "object"));
        (js "properties", JObj [(js "path", JObj [(js "type", JStr (js "string"))]); (js "limit", JObj [(js "type", JStr (js "number"))])])].

Definition path_types (k : jstr) : option jstr :=
  if streq (js "path") k then Some (js "string") else if streq (js "limit") k then Some (js "number") else None.

Lemma path_flat : flat path_schema
  [(js "path", JObj [(js "type", JStr (js "string"))]); (js "limit", JObj [(js "type", JStr (js "number"))])] path_types.
Proof.
  split; [reflexivity|]. split; [reflexivity|]. split; [apply (bool_decide_unpack _); vm_compute; exact I|].
  split; [reflexivity|]. split; [reflexivity|]. split; [reflexivity|]. split; [by left|].
  intros k. cbn [lookup_field]. unfold path_types. destruct (streq (js "path") k).
  - exists (js "string"). split; [done|]. by split_and!.
  - destruct (streq (js "limit") k); [|done]. exists (js "number"). split; [done|]. by split_and!.
Qed.

(** A number given for a string is coerced, and accepted; an optional [null] is
    dropped. *)
Lemma validate_sound_witness :
  exists args, validateToolArguments int_num_str path_compile (fun _ _ => []) (fun _ v => v) (fun _ => [])
    path_schema false (js "read") (JObj [(js "path", JNum (Finite 7)); (js "limit", JNull)]) = Ok (JObj args) /\
    lookup_field (js "path") args = Some (JStr (js "7")) /\ lookup_field (js "limit") args = None.
Proof.
  destruct (validate_sound int_num_str path_compile (fun _ _ => []) (fun _ v => v) (fun _ => [])
    path_schema false (js "read") [(js "path", JNum (Finite 7)); (js "limit", JNull)] (fun _ _ H => H))
    as (given & converted & prepared & _ & [= ->] & _ & H & Hflat).
  destruct (Hflat _ _ path_flat) as (H1 & H2 & _). exists prepared. split.
  - destruct (validateToolArguments _ _ _ _ _ _ _ _ _) as [args|e] eqn:Hv; [by destruct H as [-> _]|vm_compute in Hv; discriminate Hv].
  - rewrite !H2 by done. destruct (H1 (js "path")) as [_ ->]; [|intros ([=] & _)].
    destruct (H1 (js "limit")) as [-> _]; [split; reflexivity|]. split; [reflexivity|]. split; [intros (l & [=] & _)|].
    eexists. split; [reflexivity|]. split; [discriminate|reflexivity].
Defined.

(** Arguments that are no object can come back unchecked: the text "3" for a
    number from 5 on is neither accepted nor refused. *)
Lemma primitive_arguments_unchecked :
  let Check (v : json) := match v with JNum (Finite q) => Qle_bool 5 q | _ => false end in
  let schema := JObj [(js "type", JStr (js "number")); (js "minimum", JNum (Finite 5))] in
  validateToolArguments int_num_str (fun _ => Ok Check) (fun _ _ => []) (fun _ v => v) (fun _ => []) schema false (js "t")
    (JStr (js "3")) = Ok (JStr (js "3")) /\
  Check (JStr (js "3")) = false.
Proof. vm_compute. auto. Qed.
