(* ===== verification/FileTools.v ===== *)
(** The file tools of the harness (packages/agent/dist/harness/tools: path-utils,
    image, read, write and edit), as bundled in
    src/drivers/tools/pibridge/bridge.mjs.  What the file system answers is an
    argument. *)
From S2P Require Import Prelude Utf8 Numbers Json Truncate EditDiff Messages Regex ProviderErrors Models EventStream Faux Estimate PiBridge.
Open Scope Z_scope.

(** * Paths *)

(** [/[\u00A0\u2000-\u200A\u202F\u205F\u3000]/] *)
Definition unicode_space (c : Z) : bool :=
  (c =? 160) || ((8192 <=? c) && (c <=? 8202)) || (c =? 8239) || (c =? 8287) || (c =? 12288).

Definition normalizeToolPath (path : jstr) : jstr :=
  let normalized := map (fun c => if unicode_space c then 32 else c) path in
  if starts_with (js "@") normalized then drop 1 normalized else normalized.

(** [s.replace(/ (AM|PM)\./gi, "\u202F$1.")] *)
Fixpoint narrow_am_pm (s : jstr) : jstr :=
  match s with
  | [] => []
  | c :: r =>
      match r with
      | a :: m :: d :: r' =>
          if (c =? 32) && ((lower a =? 97) || (lower a =? 112)) && (lower m =? 109) && (d =? 46)
          then 8239 :: a :: m :: d :: narrow_am_pm r'
          else c :: narrow_am_pm r
      | _ => c :: narrow_am_pm r
      end
  end.

(** [resolveReadToolPath] on the absolute path; [NFD] is
    [String.prototype.normalize], [exists_] what the environment says of a path. *)
Definition resolveReadToolPath (NFD : jstr -> jstr) (exists_ : jstr -> bool) (resolved : jstr) : jstr :=
  let variants := [resolved; narrow_am_pm resolved; NFD resolved; replace_unit 39 [8217] resolved;
                   replace_unit 39 [8217] (NFD resolved)] in
  nullish (List.find exists_ variants) resolved.

(** * Images *)

Definition at_ (buffer : list Z) (i : Z) : Z := nth (Z.to_nat i) buffer 0.
Definition len (buffer : list Z) : Z := Z.of_nat (length buffer).

Definition readUint16LE (b : list Z) (o : Z) : Z := at_ b o + Z.shiftl (at_ b (o + 1)) 8.
Definition readUint32BE (b : list Z) (o : Z) : Z :=
  at_ b o * 16777216 + Z.shiftl (at_ b (o + 1)) 16 + Z.shiftl (at_ b (o + 2)) 8 + at_ b (o + 3).
Definition readUint32LE (b : list Z) (o : Z) : Z :=
  at_ b o + Z.shiftl (at_ b (o + 1)) 8 + Z.shiftl (at_ b (o + 2)) 16 + at_ b (o + 3) * 16777216.

(** [startsWith(buffer, bytes)] and [startsWithAscii(buffer, offset, text)] *)
Definition startsWithAscii (buffer : list Z) (offset : Z) (text : jstr) : bool :=
  starts_with text (drop (Z.to_nat offset) buffer).

Definition PNG_SIGNATURE : list Z := [137; 80; 78; 71; 13; 10; 26; 10].

Definition isPng (b : list Z) : bool :=
  (16 <=? len b) && (readUint32BE b 8 =? 13) && startsWithAscii b 12 (js "IHDR").

(** The chunk loop; every turn moves on by twelve bytes at least, so the
    length of the buffer is fuel enough. *)
Fixpoint animated_loop (fuel : nat) (b : list Z) (offset : Z) : bool :=
  match fuel with
  | O => false
  | S f =>
      if offset + 8 <=? len b then
        if startsWithAscii b (offset + 4) (js "acTL") then true
        else if startsWithAscii b (offset + 4) (js "IDAT") then false
        else
          let nextOffset := offset + 8 + readUint32BE b offset + 4 in
          if (nextOffset <=? offset) || (len b <? nextOffset) then false
          else animated_loop f b nextOffset
      else false
  end.

Definition isAnimatedPng (b : list Z) : bool := animated_loop (S (length b)) b 8.

Definition isBmp (b : list Z) : bool :=
  if len b <? 26 then false
  else
    let declaredFileSize := readUint32LE b 2 in
    let pixelDataOffset := readUint32LE b 10 in
    let dibHeaderSize := readUint32LE b 14 in
    if negb (declaredFileSize =? 0) && (declaredFileSize <? 26) then false
    else if pixelDataOffset <? 14 + dibHeaderSize then false
    else if negb (declaredFileSize =? 0) && (declaredFileSize <=? pixelDataOffset) then false
    else
      let planes_ok planes bits := (planes =? 1) && existsb (Z.eqb bits) [1; 4; 8; 16; 24; 32] in
      if dibHeaderSize =? 12 then planes_ok (readUint16LE b 22) (readUint16LE b 24)
      else if (40 <=? dibHeaderSize) && (dibHeaderSize <=? 124) then
        if len b <? 30 then false else planes_ok (readUint16LE b 26) (readUint16LE b 28)
      else false.

Definition detectSupportedImageMimeType (b : list Z) : option jstr :=
  if starts_with [255; 216; 255] b then
    if bool_decide (b !! 3%nat = Some 247) then None else Some (js "image/jpeg")
  else if starts_with PNG_SIGNATURE b then
    if isPng b && negb (isAnimatedPng b) then Some (js "image/png") else None
  else if startsWithAscii b 0 (js "GIF") then Some (js "image/gif")
  else if startsWithAscii b 0 (js "RIFF") && startsWithAscii b 8 (js "WEBP") then Some (js "image/webp")
  else if startsWithAscii b 0 (js "BM") && isBmp b then Some (js "image/bmp")
  else None.

Definition ALPHABET : jstr := js "ABCDEFGHIJKLMNOPQRSTUVWXYZabcdefghijklmnopqrstuvwxyz0123456789+/".
Definition letter (n : Z) : Z := nth (Z.to_nat n) ALPHABET 0.

(** [encodeBase64(bytes)], three bytes at a time. *)
Fixpoint encodeBase64 (bytes : list Z) : jstr :=
  match bytes with
  | [] => []
  | [a] => [letter (Z.shiftr a 2); letter (Z.lor (Z.shiftl (Z.land a 3) 4) (Z.shiftr 0 4)); 61; 61]
  | [a; b] =>
      [letter (Z.shiftr a 2); letter (Z.lor (Z.shiftl (Z.land a 3) 4) (Z.shiftr b 4));
       letter (Z.lor (Z.shiftl (Z.land b 15) 2) (Z.shiftr 0 6)); 61]
  | a :: b :: c :: r =>
      letter (Z.shiftr a 2) :: letter (Z.lor (Z.shiftl (Z.land a 3) 4) (Z.shiftr b 4)) ::
      letter (Z.lor (Z.shiftl (Z.land b 15) 2) (Z.shiftr c 6)) :: letter (Z.land c 63) :: encodeBase64 r
  end.

(** * The read tool *)

(** What a tool returns: text and image parts. *)
Definition image_result (bytes : list Z) (mimeType : jstr) : list part :=
  if streq mimeType (js "image/bmp") then
    [PText (js "Read image file [image/bmp]" ++ [LF] ++
            js "[Image omitted: configure an imageProcessor to convert BMP images.]")]
  else [PText (js "Read image file [" ++ mimeType ++ js "]"); PImage (encodeBase64 bytes) mimeType].

(** What a read of text shows: some lines, and the offset its hint names. *)
Record page := Page { page_text : jstr; page_note : jstr; page_next : option Z }.

Definition read_text (path text : jstr) (offset limit : option Z) : result jstr page :=
  let allLines := split_char LF text in
  let totalFileLines := Z.of_nat (length allLines) in
  let startLine := match offset with Some o => if o =? 0 then 0 else Z.max 0 (o - 1) | None => 0 end in
  let startLineDisplay := startLine + 1 in
  if totalFileLines <=? startLine then
    Throw (js "Offset " ++ num_str (nullish offset 0) ++ js " is beyond end of file (" ++
           num_str totalFileLines ++ js " lines total)")
  else
    let endLine := match limit with Some l => Z.min (startLine + l) totalFileLines | None => totalFileLines end in
    let selectedContent := join [LF] (take (Z.to_nat endLine - Z.to_nat startLine) (drop (Z.to_nat startLine) allLines)) in
    match Harness.truncateHead true selectedContent None None with
    | Throw _ => Throw (js "Cannot read properties of undefined")
    | Ok truncation =>
        let limitText := Harness.formatSize DEFAULT_MAX_BYTES in
        if firstLineExceedsLimit truncation then
          let firstLineSize := Harness.formatSize (Buffer_byteLength (nth (Z.to_nat startLine) allLines [])) in
          Ok (Page [] (js "[Line " ++ num_str startLineDisplay ++ js " is " ++ firstLineSize ++ js ", exceeds " ++
                       limitText ++ js " limit. Use bash: sed -n '" ++ num_str startLineDisplay ++ js "p' " ++ path ++
                       js " | head -c " ++ num_str DEFAULT_MAX_BYTES ++ js "]") None)
        else if truncated truncation then
          let endLineDisplay := startLineDisplay + outputLines truncation - 1 in
          let nextOffset := endLineDisplay + 1 in
          let shown := js "[Showing lines " ++ num_str startLineDisplay ++ js "-" ++ num_str endLineDisplay ++
                       js " of " ++ num_str totalFileLines in
          let why := match truncatedBy truncation with
                     | Some ByLines => []
                     | _ => js " (" ++ limitText ++ js " limit)"
                     end in
          Ok (Page (content truncation)
                ([LF; LF] ++ shown ++ why ++ js ". Use offset=" ++ num_str nextOffset ++ js " to continue.]")
                (Some nextOffset))
        else if match limit with Some _ => endLine <? totalFileLines | None => false end then
          let remaining := totalFileLines - endLine in
          let nextOffset := endLine + 1 in
          Ok (Page (content truncation)
                ([LF; LF] ++ js "[" ++ num_str remaining ++ js " more lines in file. Use offset=" ++
                 num_str nextOffset ++ js " to continue.]") (Some nextOffset))
        else Ok (Page (content truncation) [] None)
    end.

(** [new TextDecoder().decode(bytes)]: a leading byte-order mark is dropped. *)
Definition decode_text (bytes : list Z) : jstr :=
  match utf8_decode bytes with
  | c :: r => if c =? BOM then r else c :: r
  | [] => []
  end.

(** [execute] of the read tool, as the bridge creates it (without an image
    processor), on the bytes it read. *)
Definition read_execute (path : jstr) (bytes : list Z) (offset limit : option Z) : result jstr (list part) :=
  match detectSupportedImageMimeType bytes with
  | Some mime => Ok (image_result bytes mime)
  | None =>
      let! p := read_text path (decode_text bytes) offset limit in
      Ok [PText (page_text p ++ page_note p)]
  end.

(** * The write and edit tools *)

(** The steps of [execute] look at [context.abortSignal] in turn: [aborted k]
    is what look [k] sees.  The result of a call, and what it wrote. *)
Definition write_execute (path content_ : jstr) (write : jstr -> option jstr) (aborted : nat -> bool)
  : result jstr jstr * option jstr :=
  if aborted 0%nat then (Throw (js "Operation aborted"), None)
  else match write content_ with
       | Some e => (Throw e, None)
       | None =>
           if aborted 1%nat then (Throw (js "Operation aborted"), Some content_)
           else (Ok (js "Successfully wrote to " ++ path), Some content_)
       end.

Definition editAccessError (path code : jstr) : jstr :=
  js "Could not edit file: " ++ path ++ js ". Error code: " ++ code ++ js ".".

Definition edit_execute (NFKC : jstr -> jstr) (path : jstr) (edits : list edit)
    (fileInfo readTextFile : result jstr jstr) (write : jstr -> option jstr) (aborted : nat -> bool)
  : result jstr jstr * option jstr :=
  match edits with
  | [] => (Throw (js "Edit tool input is invalid. edits must contain at least one replacement."), None)
  | _ =>
      if aborted 0%nat then (Throw (js "Operation aborted"), None)
      else match fileInfo with
           | Throw code => (Throw (editAccessError path code), None)
           | Ok kind =>
               if negb (streq kind (js "file")) && negb (streq kind (js "symlink")) then
                 (Throw (js "Could not edit file: " ++ path ++ js ". Path is not a file."), None)
               else match readTextFile with
                    | Throw code => (Throw (editAccessError path code), None)
                    | Ok file =>
                        if aborted 1%nat then (Throw (js "Operation aborted"), None)
                        else match edit_text NFKC file edits path with
                             | Throw e => (Throw e, None)
                             | Ok finalContent =>
                                 if aborted 2%nat then (Throw (js "Operation aborted"), None)
                                 else match write finalContent with
                                      | Some code => (Throw (editAccessError path code), None)
                                      | None =>
                                          if aborted 3%nat then (Throw (js "Operation aborted"), Some finalContent)
                                          else (Ok (js "Successfully replaced " ++
                                                    num_str (Z.of_nat (length edits)) ++ js " block(s) in " ++
                                                    path ++ js "."), Some finalContent)
                                      end
                             end
                    end
           end
  end.

(** ** Edit arguments *)

Definition isSingleEditInput (v : option json) : bool :=
  match v with
  | Some (JObj fs) =>
      match lookup_field (js "oldText") fs, lookup_field (js "newText") fs with
      | Some (JStr _), Some (JStr _) => true
      | _, _ => false
      end
  | _ => false
  end.

(** [prepareEditArguments(input)] on an object. *)
Definition prepareEditArguments (fs : list (jstr * json)) : list (jstr * json) :=
  let edits := lookup_field (js "edits") fs in
  let fs :=
    match edits with
    | Some (JStr text) =>
        match JSON_parse text with
        | Some (JArr l) => set_field (js "edits") (JArr l) fs
        | Some parsed =>
            if isSingleEditInput (Some parsed) then set_field (js "edits") (JArr [parsed]) fs else fs
        | None => fs
        end
    | Some e => if isSingleEditInput edits then set_field (js "edits") (JArr [e]) fs else fs
    | None => fs
    end in
  match lookup_field (js "oldText") fs, lookup_field (js "newText") fs with
  | Some (JStr o), Some (JStr n) =>
      let edits := match lookup_field (js "edits") fs with Some (JArr l) => l | _ => [] end in
      set_field (js "edits") (JArr (edits ++ [JObj [(js "oldText", JStr o); (js "newText", JStr n)]]))
        (delete_field (js "newText") (delete_field (js "oldText") fs))
  | _, _ => fs
  end.

(** * Facts: images *)

Definition is_byte (b : Z) : Prop := 0 <= b < 256.

(** What a base64 letter stands for, and reading base64. *)
Definition unletter (c : Z) : Z := match index_of [c] ALPHABET with Some i => Z.of_nat i | None => 0 end.

Fixpoint decodeBase64 (s : jstr) : list Z :=
  match s with
  | a :: b :: c :: d :: r =>
      if c =? 61 then [unletter a * 4 + unletter b / 16]
      else if d =? 61 then [unletter a * 4 + unletter b / 16; unletter b mod 16 * 16 + unletter c / 4]
      else unletter a * 4 + unletter b / 16 :: unletter b mod 16 * 16 + unletter c / 4 ::
           unletter c mod 4 * 64 + unletter d :: decodeBase64 r
  | _ => []
  end.

(** Sums over all bytes, by computation. *)
Lemma forall_byte (P : Z -> bool) : forallb P (seqZ 0 256) = true -> forall b, is_byte b -> P b = true.
Proof.
  intros H b Hb. rewrite forallb_forall in H. apply H. apply list_elem_of_In, elem_of_seqZ. unfold is_byte in Hb. lia.
Qed.

Lemma first_bits a : is_byte a -> Z.shiftr a 2 = a / 4.
Proof. intros _. apply Z.shiftr_div_pow2. lia. Qed.

Lemma second_bits a b : is_byte a -> is_byte b ->
  Z.lor (Z.shiftl (Z.land a 3) 4) (Z.shiftr b 4) = a mod 4 * 16 + b / 16.
Proof.
  intros Ha Hb. apply Z.eqb_eq.
  apply (forall_byte (fun b => Z.lor (Z.shiftl (Z.land a 3) 4) (Z.shiftr b 4) =? a mod 4 * 16 + b / 16)); [|done].
  revert a Ha. apply (forall_byte (fun a => forallb
    (fun b => Z.lor (Z.shiftl (Z.land a 3) 4) (Z.shiftr b 4) =? a mod 4 * 16 + b / 16) (seqZ 0 256))).
  vm_compute. reflexivity.
Qed.

Lemma third_bits b c : is_byte b -> is_byte c ->
  Z.lor (Z.shiftl (Z.land b 15) 2) (Z.shiftr c 6) = b mod 16 * 4 + c / 64.
Proof.
  intros Hb Hc. apply Z.eqb_eq.
  apply (forall_byte (fun c => Z.lor (Z.shiftl (Z.land b 15) 2) (Z.shiftr c 6) =? b mod 16 * 4 + c / 64)); [|done].
  revert b Hb. apply (forall_byte (fun b => forallb
    (fun c => Z.lor (Z.shiftl (Z.land b 15) 2) (Z.shiftr c 6) =? b mod 16 * 4 + c / 64) (seqZ 0 256))).
  vm_compute. reflexivity.
Qed.

Lemma fourth_bits c : is_byte c -> Z.land c 63 = c mod 64.
Proof. intros _. change 63 with (Z.ones 6). by rewrite Z.land_ones by lia. Qed.

Lemma letter_spec n : 0 <= n < 64 -> unletter (letter n) = n /\ base64_char (letter n) = true /\ letter n ≠ 61.
Proof.
  intros Hn. assert (forallb (fun n => (unletter (letter n) =? n) && base64_char (letter n) && negb (letter n =? 61))
    (seqZ 0 64) = true) as H by (vm_compute; reflexivity).
  rewrite forallb_forall in H. specialize (H n). rewrite <- list_elem_of_In, elem_of_seqZ in H.
  specialize (H ltac:(lia)). by bool_to_prop.
Qed.

(** Induction three elements at a time. *)
Lemma triple_ind (P : list Z -> Prop) :
  P [] -> (forall a, P [a]) -> (forall a b, P [a; b]) ->
  (forall a b c r, P r -> P (a :: b :: c :: r)) -> forall l, P l.
Proof.
  intros H0 H1 H2 H3. fix IH 1. intros [|a [|b [|c r]]]; [done|apply H1|apply H2|apply H3, IH].
Qed.

Lemma div_range a n k : is_byte a -> 0 < n -> 256 <= n * k -> 0 <= a / n < k.
Proof. intros Ha Hn Hk. unfold is_byte in Ha. split; [apply Z.div_pos; lia|apply Z.div_lt_upper_bound; lia]. Qed.

(** The four indices of three bytes. *)
Lemma indices a b c : is_byte a -> is_byte b -> is_byte c ->
  0 <= a / 4 < 64 /\ 0 <= a mod 4 * 16 + b / 16 < 64 /\ 0 <= b mod 16 * 4 + c / 64 < 64 /\ 0 <= c mod 64 < 64.
Proof. unfold is_byte. intros. repeat split; Z.to_euclidean_division_equations; lia. Qed.

Lemma encodeBase64_step a b c r : is_byte a -> is_byte b -> is_byte c ->
  encodeBase64 (a :: b :: c :: r) =
  letter (a / 4) :: letter (a mod 4 * 16 + b / 16) :: letter (b mod 16 * 4 + c / 64) :: letter (c mod 64) ::
  encodeBase64 r.
Proof. intros. cbn [encodeBase64]. by rewrite first_bits, second_bits, third_bits, fourth_bits. Qed.

Lemma encodeBase64_last1 a : is_byte a ->
  encodeBase64 [a] = [letter (a / 4); letter (a mod 4 * 16 + 0 / 16); 61; 61].
Proof. intros. cbn [encodeBase64]. by rewrite first_bits, second_bits by (done || by unfold is_byte). Qed.

Lemma encodeBase64_last2 a b : is_byte a -> is_byte b ->
  encodeBase64 [a; b] = [letter (a / 4); letter (a mod 4 * 16 + b / 16); letter (b mod 16 * 4 + 0 / 64); 61].
Proof. intros. cbn [encodeBase64]. by rewrite first_bits, second_bits, third_bits by (done || by unfold is_byte). Qed.

Lemma decode_encode bytes : Forall is_byte bytes -> decodeBase64 (encodeBase64 bytes) = bytes.
Proof.
  induction bytes as [|a|a b|a b c r IH] using triple_ind; intros HF; [done|..].
  - inversion HF; subst. rewrite encodeBase64_last1 by done. cbn [decodeBase64].
    destruct (indices a 0 0) as (I1 & I2 & _); [done|done|done|].
    destruct (letter_spec _ I1) as [-> _], (letter_spec _ I2) as [-> _]. cbn.
    f_equal. unfold is_byte in *. Z.to_euclidean_division_equations; lia.
  - inversion HF as [|? ? Ha HF']; subst. inversion HF' as [|? ? Hb _]; subst.
    rewrite encodeBase64_last2 by done. cbn [decodeBase64].
    destruct (indices a b 0) as (I1 & I2 & I3 & _); [done|done|done|].
    destruct (letter_spec _ I1) as [-> _], (letter_spec _ I2) as [-> _], (letter_spec _ I3) as (-> & _ & Hne).
    rewrite (proj2 (Z.eqb_neq _ _) Hne). cbn [Z.eqb Pos.eqb].
    unfold is_byte in *. repeat f_equal; Z.to_euclidean_division_equations; lia.
  - inversion HF as [|? ? Ha HF1]; subst. inversion HF1 as [|? ? Hb HF2]; subst. inversion HF2 as [|? ? Hc HF3]; subst.
    rewrite encodeBase64_step by done. cbn [decodeBase64].
    destruct (indices a b c) as (I1 & I2 & I3 & I4); [done|done|done|].
    destruct (letter_spec _ I1) as [-> _], (letter_spec _ I2) as [-> _], (letter_spec _ I3) as (-> & _ & Hne3),
      (letter_spec _ I4) as (-> & _ & Hne4).
    rewrite (proj2 (Z.eqb_neq _ _) Hne3), (proj2 (Z.eqb_neq _ _) Hne4), IH by done.
    unfold is_byte in *. repeat f_equal; Z.to_euclidean_division_equations; lia.
Qed.

Definition plain_letter (c : Z) : Prop := base64_char c = true /\ c ≠ 61.

Lemma plain_letter_letter n : 0 <= n < 64 -> plain_letter (letter n).
Proof. intros Hn. destruct (letter_spec n Hn) as (_ & ? & ?). by split. Qed.

Lemma encodeBase64_shape bytes : Forall is_byte bytes ->
  exists ls p, encodeBase64 bytes = ls ++ replicate p 61 /\ Forall plain_letter ls /\ (p <= 2)%nat /\
    Z.of_nat (length ls + p) mod 4 = 0 /\ Z.of_nat (length ls + p) / 4 * 3 - Z.of_nat p = len bytes.
Proof.
  induction bytes as [|a|a b|a b c r IH] using triple_ind; intros HF.
  - exists [], 0%nat. split; [done|]. split; [constructor|]. split; [lia|]. done.
  - inversion HF; subst. destruct (indices a 0 0) as (I1 & I2 & _); [done|done|done|].
    rewrite encodeBase64_last1 by done. exists [letter (a / 4); letter (a mod 4 * 16 + 0 / 16)], 2%nat.
    split; [done|]. split; [repeat constructor; by apply plain_letter_letter|]. split; [lia|]. done.
  - inversion HF as [|? ? Ha HF']; subst. inversion HF' as [|? ? Hb _]; subst.
    destruct (indices a b 0) as (I1 & I2 & I3 & _); [done|done|done|]. rewrite encodeBase64_last2 by done.
    exists [letter (a / 4); letter (a mod 4 * 16 + b / 16); letter (b mod 16 * 4 + 0 / 64)], 1%nat.
    split; [done|]. split; [repeat constructor; by apply plain_letter_letter|]. split; [lia|]. done.
  - inversion HF as [|? ? Ha HF1]; subst. inversion HF1 as [|? ? Hb HF2]; subst.
    inversion HF2 as [|? ? Hc HF3]; subst. rewrite encodeBase64_step by done.
    destruct (indices a b c) as (I1 & I2 & I3 & I4); [done|done|done|].
    destruct (IH HF3) as (ls & p & -> & Hls & Hp & Hmod & Hlen).
    exists (letter (a / 4) :: letter (a mod 4 * 16 + b / 16) :: letter (b mod 16 * 4 + c / 64) ::
            letter (c mod 64) :: ls), p.
    split; [done|]. split; [repeat (apply Forall_cons; split; [by apply plain_letter_letter|]); done|].
    split; [done|]. cbn [length]. unfold len in *. cbn [length].
    replace (Z.of_nat (S (S (S (S (length ls)))) + p)) with (Z.of_nat (length ls + p) + 1 * 4) by lia.
    rewrite Z.mod_add, Z.div_add by lia. split; [done|lia].
Qed.

Lemma drop_pads ls p :
  Forall plain_letter ls -> drop_while (fun c => c =? 61) (rev (ls ++ replicate p 61)) = rev ls.
Proof.
  intros HF. rewrite rev_app_distr. assert (rev (replicate p 61) = replicate p 61) as ->.
  { induction p as [|p IH]; [done|]. cbn [replicate rev]. rewrite IH. clear. induction p; [done|].
    cbn [replicate app]. by rewrite IHp. }
  induction p as [|p IH]; [|done]. cbn [replicate app].
  destruct (rev ls) as [|c r] eqn:Hr; [done|]. cbn [drop_while].
  assert (c ∈ ls) as Hc by (rewrite list_elem_of_In, in_rev, Hr; by left).
  rewrite Forall_forall in HF. destruct (HF c Hc) as [_ Hne]. by rewrite (proj2 (Z.eqb_neq c 61)).
Qed.

Lemma encodeBase64_valid bytes : Forall is_byte bytes ->
  base64_shape (encodeBase64 bytes) = true /\ base64_bytes (encodeBase64 bytes) = len bytes /\
  Z.of_nat (length (encodeBase64 bytes)) mod 4 = 0.
Proof.
  intros HF. destruct (encodeBase64_shape bytes HF) as (ls & p & -> & Hls & Hp & Hmod & Hlen).
  unfold base64_shape, base64_bytes. rewrite drop_pads, length_rev, length_app, length_replicate by done.
  split; [|split; [|done]].
  - apply andb_true_iff. split; [apply Nat.leb_le; lia|]. apply forallb_forall. intros c Hc.
    rewrite <- in_rev in Hc. rewrite Forall_forall in Hls. by apply Hls, list_elem_of_In.
  - rewrite <- Hlen. lia.
Qed.

Lemma detect_types b mime :
  detectSupportedImageMimeType b = Some mime -> mime ≠ js "image/bmp" -> existsb (streq mime) IMAGE_TYPES = true.
Proof.
  unfold detectSupportedImageMimeType. intros H Hb.
  repeat case_match; try done; injection H as <-; try done.
Qed.

(** The block of a tool result as the next request carries it. *)
Definition image_block (data mime : jstr) : json :=
  JObj [(js "type", JStr (js "image")); (js "data", JStr data); (js "mimeType", JStr mime)].

(** an image file the read tool recognises (other than a bitmap, which it
    omits) is returned as an attachment whose base64 text decodes to exactly
    the bytes of the file and which, up to 10 MiB, the bridge's own check of
    image input accepts: what one request returns, the next may send back. *)
Theorem read_image_accepted (path : jstr) (bytes : list Z) (mime : jstr) (offset limit : option Z) :
  Forall is_byte bytes -> detectSupportedImageMimeType bytes = Some mime -> mime ≠ js "image/bmp" ->
  exists text data, read_execute path bytes offset limit = Ok [PText text; PImage data mime] /\
    decodeBase64 data = bytes /\
    (len bytes <= 10 * 1024 * 1024 -> valid_image (image_block data mime) = true).
Proof.
  intros HF Hd Hb. unfold read_execute, image_result. rewrite Hd, (proj2 (streq_false _ _) Hb).
  do 2 eexists. split; [reflexivity|]. split; [by apply decode_encode|]. intros Hlen.
  destruct (encodeBase64_valid bytes HF) as (Hs & Hn & Hm).
  unfold valid_image, image_block.
  change (get (js "data") _) with (Some (JStr (encodeBase64 bytes))). change (get (js "mimeType") _) with (Some (JStr mime)).
  cbv iota beta. rewrite Hs, Hn, Hm, (detect_types _ _ Hd Hb). cbn [Z.eqb andb].
  rewrite andb_true_r. by apply Z.leb_le.
Qed.

Lemma read_image_accepted_witness :
  exists text data, read_execute (js "a.gif") [71; 73; 70; 56; 57; 97; 1] None None =
    Ok [PText text; PImage data (js "image/gif")] /\ valid_image (image_block data (js "image/gif")) = true.
Proof.
  destruct (read_image_accepted (js "a.gif") [71; 73; 70; 56; 57; 97; 1] (js "image/gif") None None)
    as (text & data & H & _ & Hv).
  - repeat constructor; unfold is_byte; lia.
  - reflexivity.
  - discriminate.
  - exists text, data. split; [exact H|]. apply Hv. unfold len. simpl. lia.
Defined.

(** * Facts: pages *)

Lemma join_app_sep sep (a b : list jstr) :
  a ≠ [] -> b ≠ [] -> join sep (a ++ b) = join sep a ++ sep ++ join sep b.
Proof.
  induction a as [|x a IH]; intros Ha Hb; [done|]. destruct a as [|y a].
  - cbn [app]. by rewrite join_cons.
  - change ((x :: y :: a) ++ b) with (x :: ((y :: a) ++ b)).
    rewrite join_cons by (by destruct a). rewrite IH by done.
    rewrite (join_cons sep x (y :: a)) by done. by rewrite <- !app_assoc.
Qed.

(** The lines counted are those of the text, less an empty last one. *)
Lemma counted_lines L :
  L ≠ [] -> Forall (fun l => LF ∉ l) L ->
  let lines := Harness.splitLinesForCounting (join [LF] L) in lines = L \/ L = lines ++ [[]].
Proof.
  intros Hn HF. unfold Harness.splitLinesForCounting. pose proof (split_join LF L Hn HF) as Hs.
  destruct (join [LF] L) as [|c r] eqn:Hj; [right; by rewrite <- Hs|]. rewrite Hs.
  destruct (ends_with [LF] (c :: r)) eqn:He; [|by left]. right.
  apply ends_with_spec in He as [q Hq]. rewrite Hq, split_snoc in Hs. rewrite <- Hs.
  by rewrite removelast_last.
Qed.

(** A line that fits a page. *)
Definition fits (l : jstr) : Prop := Buffer_byteLength l <= DEFAULT_MAX_BYTES.

Lemma first_line_fits s t line0 rest :
  Forall is_unit s -> Harness.splitLinesForCounting s = line0 :: rest -> fits line0 ->
  Harness.truncateHead true s None None = Ok t -> firstLineExceedsLimit t = false.
Proof.
  unfold Harness.truncateHead, fits. cbn [nullish]. intros Hu Hl Hf. rewrite Hl.
  assert (Forall is_unit line0) as Hu0.
  { pose proof (Harness.splitLines_Forall _ s Hu) as HF. rewrite Hl in HF. by inversion HF. }
  rewrite (Harness.utf8ByteLength_buffer true line0 Hu0).
  destruct (_ && _); [by intros [= <-]|]. rewrite (proj2 (Z.ltb_ge _ _)) by lia.
  destruct (Harness.head_loop _ _ _ _ _ _ _) as [[out count] by0]. by intros [= <-].
Qed.

(** A cut page shows at least one line and leaves at least one. *)
Lemma cut_page D s :
  s = join [LF] D -> D ≠ [] -> Forall (fun l => LF ∉ l) D -> Forall is_unit s -> Forall fits D ->
  exists t, Harness.truncateHead true s None None = Ok t /\ firstLineExceedsLimit t = false /\
    (truncated t = false /\ content t = s \/
     truncated t = true /\ exists k, outputLines t = Z.of_nat k /\ (1 <= k < length D)%nat /\
       content t = join [LF] (take k D)).
Proof.
  intros Hs HD Hno Hu Hf. pose proof (counted_lines D HD Hno) as Hlines. cbv zeta in Hlines. rewrite <- Hs in Hlines.
  set (lines := Harness.splitLinesForCounting s) in *.
  destruct (decide (Z.of_nat (length lines) <= DEFAULT_MAX_LINES /\ Buffer_byteLength s <= DEFAULT_MAX_BYTES))
    as [[Hl Hb]|Hcut].
  { eexists. split; [by apply (Harness.truncateHead_fits true s None None)|]. split; [done|]. by left. }
  destruct (Harness.truncateHead_cut true s None None Hu ltac:(done) ltac:(done) Hcut)
    as (t & k & Ht & Htr & Hk & Hkl & HkL & Hc & Hob & HobB & Hmax). fold lines in Hkl, Hc, Hmax.
  assert (exists line0 rest, lines = line0 :: rest /\ fits line0) as (line0 & rest & Hl0 & Hfit).
  { destruct lines as [|l0 ls] eqn:Hl.
    - exfalso. apply Hcut. assert (s = []) as -> by (destruct Hlines as [<-|Hd]; [by subst s|subst s; by rewrite Hd]).
      rewrite byteLength_nil. done.
    - exists l0, ls. split; [done|]. rewrite Forall_forall in Hf. apply Hf. destruct Hlines as [<-| ->]; set_solver. }
  exists t. split; [done|]. split; [by eapply (first_line_fits s t line0 rest)|]. right. split; [done|]. exists k.
  split; [done|]. assert (take k D = take k lines) as Htk.
  { destruct Hlines as [<-| ->]; [done|]. by rewrite take_app_le. }
  split; [split|by rewrite Htk].
  - destruct Hmax as [->|[Hm|Hm]]; [rewrite Hl0; simpl; lia|unfold nullish, DEFAULT_MAX_LINES in Hm; lia|].
    destruct k; [|lia]. exfalso. rewrite Hl0 in Hm. change (join [LF] (take 1 (line0 :: rest))) with line0 in Hm.
    unfold fits in Hfit. unfold nullish in Hm. lia.
  - destruct Hlines as [Heq| ->]; [|rewrite length_app; simpl; lia].
    destruct (decide (k = length lines)) as [->|]; [|rewrite <- Heq; lia]. exfalso. apply Hcut.
    rewrite Hob, Hc, take_ge, Heq, <- Hs in HobB by (rewrite ?Heq; lia). split; [exact HkL|exact HobB].
Qed.

Lemma read_page path text start :
  let L := split_char LF text in
  Forall is_unit text -> Forall fits L -> (start < length L)%nat ->
  exists p, read_text path text (Some (Z.of_nat start + 1)) None = Ok p /\
    (page_next p = None /\ page_text p = join [LF] (drop start L) \/
     exists k, (1 <= k)%nat /\ (start + k < length L)%nat /\
       page_next p = Some (Z.of_nat (start + k) + 1) /\ page_text p = join [LF] (take k (drop start L))).
Proof.
  intros L Hu Hf Hst. unfold read_text. fold L. cbv zeta.
  rewrite (proj2 (Z.eqb_neq (Z.of_nat start + 1) 0)) by lia.
  replace (Z.max 0 (Z.of_nat start + 1 - 1)) with (Z.of_nat start) by lia.
  rewrite (proj2 (Z.leb_gt (Z.of_nat (length L)) (Z.of_nat start))) by lia. rewrite !Nat2Z.id.
  rewrite take_ge by (rewrite length_drop; lia). set (D := drop start L).
  assert (length D = length L - start)%nat as HlD by (apply length_drop).
  assert (Forall (Forall is_unit) L) as HuL by (by apply split_char_Forall).
  assert (Forall is_unit (join [LF] D)) as HuD
    by (apply Harness.join_Forall; [apply Harness.LF_unit|by apply Forall_drop]).
  destruct (cut_page D (join [LF] D) eq_refl) as (t & -> & Hfl & Hcase).
  { intros HD. rewrite HD in HlD. simpl in HlD. lia. }
  { apply Forall_drop, split_char_no_sep. }
  { done. }
  { by apply Forall_drop. }
  rewrite Hfl. destruct Hcase as [[-> Hc]|[-> (k & Hk & Hkr & Hc)]].
  - eexists. split; [reflexivity|]. left. by split.
  - eexists. split; [reflexivity|]. right. exists k. cbn [page_next page_text].
    repeat split; [lia|lia|f_equal; lia|done].
Qed.

(** Reading a file page after page, following the hints. *)
Fixpoint read_pages (fuel : nat) (path text : jstr) (offset : Z) : option (list jstr) :=
  match fuel with
  | O => None
  | S f =>
      match read_text path text (Some offset) None with
      | Throw _ => None
      | Ok p =>
          match page_next p with
          | None => Some [page_text p]
          | Some next => cons (page_text p) <$> read_pages f path text next
          end
      end
  end.

(** C35: reading a long file page after page reads all of it: when no line is
    longer than a page, following the offsets the hints name ends after at most
    as many reads as the file has lines, and the pages joined by line feeds are
    the text of the file, nothing skipped and nothing shown twice. *)
Theorem read_pages_complete (path text : jstr) :
  Forall is_unit text -> Forall fits (split_char LF text) ->
  exists pages, read_pages (length (split_char LF text)) path text 1 = Some pages /\ join [LF] pages = text.
Proof.
  intros Hu Hf. set (L := split_char LF text).
  assert (forall n start, (start < length L)%nat -> (length L - start <= n)%nat ->
    exists pages, read_pages n path text (Z.of_nat start + 1) = Some pages /\ pages ≠ [] /\
      join [LF] pages = join [LF] (drop start L)) as H.
  { induction n as [|n IH]; intros start Hst Hn; [lia|]. cbn [read_pages].
    destruct (read_page path text start Hu Hf Hst) as (p & -> & [[-> Ht]|(k & Hk1 & Hk2 & -> & Ht)]);
      [by eexists; split; [reflexivity|]|]. fold L in Hk2, Ht.
    destruct (IH (start + k)%nat Hk2 ltac:(lia)) as (pages & -> & Hne & Hj). simpl.
    eexists. split; [reflexivity|]. split; [done|]. rewrite join_cons by done. rewrite Ht, Hj.
    rewrite <- join_app_sep.
    - f_equal. rewrite <- drop_drop. apply take_drop.
    - intros HE. apply (f_equal length) in HE. rewrite length_take, length_drop in HE. simpl in HE. lia.
    - intros HE. apply (f_equal length) in HE. rewrite length_drop in HE. simpl in HE. lia. }
  pose proof (split_char_not_nil LF text) as Hn0.
  destruct (H (length L) 0%nat) as (pages & Hp & _ & Hj); [unfold L; destruct (split_char LF text); simpl; [done|lia]|lia|].
  exists pages. split; [exact Hp|]. rewrite Hj. apply join_split.
Qed.

Lemma read_pages_complete_witness :
  exists pages, read_pages 3 (js "f") (js "a" ++ [LF] ++ js "bb" ++ [LF]) 1 = Some pages /\
    join [LF] pages = js "a" ++ [LF] ++ js "bb" ++ [LF].
Proof.
  apply (read_pages_complete (js "f") (js "a" ++ [LF] ++ js "bb" ++ [LF])).
  - by apply all_units_spec.
  - repeat constructor; unfold fits; vm_compute; discriminate.
Defined.

(** An edit writes at most once, and only the edited text of the file it read;
    a call that reports success has written it. *)
Lemma edit_execute_writes NFKC path edits info read write aborted :
  let '(r, written) := edit_execute NFKC path edits info read write aborted in
  (forall c, written = Some c ->
     exists file, read = Ok file /\ edit_text NFKC file edits path = Ok c /\ write c = None) /\
  (forall m, r = Ok m -> is_Some written).
Proof.
  unfold edit_execute. destruct edits as [|e es]; [done|].
  destruct (aborted 0%nat); [done|]. destruct info as [kind|]; [|done]. destruct (_ && _); [done|].
  destruct read as [file|]; [|done]. destruct (aborted 1%nat); [done|].
  destruct (edit_text NFKC file (e :: es) path) as [c|] eqn:He; [|done].
  destruct (aborted 2%nat); [done|]. destruct (write c) eqn:Hw; [done|].
  destruct (aborted 3%nat); (split; [intros c' [= <-]; by exists file|done]).
Qed.
