(* ===== verification/CodexRequest.v ===== *)
(** The requests of the Codex provider
    (pi [packages/ai/dist/api/openai-codex-responses.js]): the account in the
    token, headers, addresses, the body, prices by service tier, and which answers
    are tried again and when.  URL parsing, [Date.parse], [Date.now], the printing
    of numbers and the text of a [SyntaxError] are parameters. *)
From Stdlib Require Import QArith.Qround.
From S2P Require Import Prelude Utf8 Numbers Json JsonText Messages TransformMessages Regex ProviderErrors JsonRepair Sse ConstrainedSampling EventStream Models Faux Estimate AnthropicMessages AnthropicStream StreamMonad OpenaiCommon OpenaiCompletions OpenaiStream OpenaiReplay OpenaiResponses ResponsesStream MistralMessages CodexSockets PiBridge FileTools.
Open Scope Z_scope.

(** * The account in the token *)

Definition JWT_CLAIM_PATH : jstr := js "https://api.openai.com/auth".

Definition ascii_space (c : Z) : bool := (c =? 9) || (c =? 10) || (c =? 12) || (c =? 13) || (c =? 32).

(** At most two [=] at the end. *)
Definition strip_padding (s : jstr) : jstr :=
  match rev s with
  | 61 :: 61 :: r => rev r
  | 61 :: r => rev r
  | _ => s
  end.

Fixpoint atob_bytes (s : jstr) : list Z :=
  match s with
  | a :: b :: c :: d :: r =>
      unletter a * 4 + unletter b / 16 :: unletter b mod 16 * 16 + unletter c / 4 :: unletter c mod 4 * 64 + unletter d :: atob_bytes r
  | [a; b; c] => [unletter a * 4 + unletter b / 16; unletter b mod 16 * 16 + unletter c / 4]
  | [a; b] => [unletter a * 4 + unletter b / 16]
  | _ => []
  end.

(** [atob(s)], one unit per byte; [None] is an [InvalidCharacterError]. *)
Definition atob (s : jstr) : option jstr :=
  let s := List.filter (fun c => negb (ascii_space c)) s in
  let s := if (length s mod 4 =? 0)%nat then strip_padding s else s in
  if (length s mod 4 =? 1)%nat || negb (forallb (fun c => bool_decide (c ∈ ALPHABET)) s) then None
  else Some (atob_bytes s).

Definition account_failure : jstr := js "Failed to extract accountId from token".

Definition extractAccountId (token : jstr) : result jstr json :=
  let parts := split_char 46 token in
  match parts with
  | [_; claims; _] =>
      match atob claims ≫= JSON_parse with
      | Some payload =>
          match get JWT_CLAIM_PATH payload ≫= get (js "chatgpt_account_id") with
          | Some accountId => if truthy_json (Some accountId) then Ok accountId else Throw account_failure
          | None => Throw account_failure
          end
      | None => Throw account_failure
      end
  | _ => Throw account_failure
  end.

(** * Headers *)

(** [headers.append] of the constructor. *)
Definition append_header (headers : list (jstr * jstr)) (kv : jstr * jstr) : list (jstr * jstr) :=
  let name := lower_all kv.1 in
  match assoc name headers with
  | Some old => map_set name (old ++ js ", " ++ kv.2) headers
  | None => map_set name kv.2 headers
  end.

Definition new_Headers (init : option (list (jstr * jstr))) : list (jstr * jstr) := foldl append_header [] (nullish init []).

Definition set_to (name value : jstr) (headers : list (jstr * jstr)) := set_header lower_all name value headers.
Definition without_header (name : jstr) (headers : list (jstr * jstr)) := delete_header lower_all name headers.

Definition OPENAI_BETA_RESPONSES_WEBSOCKETS : jstr := js "responses_websockets=2026-02-06".

Section Headers.
Context (userAgent : jstr).

Definition buildBaseCodexHeaders (initHeaders : option (list (jstr * jstr))) (additionalHeaders : option header_list) (accountId token : jstr)
  : list (jstr * jstr) :=
  let headers := foldl (apply_override lower_all) (new_Headers initHeaders) (nullish additionalHeaders []) in
  let headers := set_to (js "Authorization") (js "Bearer " ++ token) headers in
  let headers := set_to (js "chatgpt-account-id") accountId headers in
  let headers := set_to (js "originator") (js "pi") headers in
  set_to (js "User-Agent") userAgent headers.

Definition buildSSEHeaders (initHeaders : option (list (jstr * jstr))) (additionalHeaders : option header_list) (accountId token : jstr)
    (sessionId : option jstr) : list (jstr * jstr) :=
  let headers := buildBaseCodexHeaders initHeaders additionalHeaders accountId token in
  let headers := set_to (js "OpenAI-Beta") (js "responses=experimental") headers in
  let headers := set_to (js "accept") (js "text/event-stream") headers in
  let headers := set_to (js "content-type") (js "application/json") headers in
  if truthy_opt sessionId
  then set_to (js "x-client-request-id") (nullish sessionId []) (set_to (js "session-id") (nullish sessionId []) headers)
  else headers.

Definition buildWebSocketHeaders (initHeaders : option (list (jstr * jstr))) (additionalHeaders : option header_list) (accountId token requestId : jstr)
  : list (jstr * jstr) :=
  let headers := buildBaseCodexHeaders initHeaders additionalHeaders accountId token in
  let headers := without_header (js "openai-beta") (without_header (js "OpenAI-Beta") (without_header (js "content-type") (without_header (js "accept") headers))) in
  let headers := set_to (js "OpenAI-Beta") OPENAI_BETA_RESPONSES_WEBSOCKETS headers in
  set_to (js "session-id") requestId (set_to (js "x-client-request-id") requestId headers).
End Headers.

(** [headersToRecord(headers)] and [delete wsHeaders["OpenAI-Beta"]] of
    [connectWebSocket]. *)
Definition websocket_headers (headers : list (jstr * jstr)) : list (jstr * jstr) :=
  List.filter (fun kv => negb (streq kv.1 (js "OpenAI-Beta"))) headers.

(** * Addresses *)

Definition DEFAULT_CODEX_BASE_URL : jstr := js "https://chatgpt.com/backend-api".

Definition resolveCodexUrl (baseUrl : jstr) : jstr :=
  let raw := if truthy (trim baseUrl) then baseUrl else DEFAULT_CODEX_BASE_URL in
  let normalized := strip_slashes raw in
  if ends_with (js "/codex/responses") normalized then normalized
  else if ends_with (js "/codex") normalized then normalized ++ js "/responses"
  else normalized ++ js "/codex/responses".

(** [parse_url] splits a URL into its protocol and the rest; an assignment of
    [protocol] is ignored when it would leave the special schemes. *)
Definition resolveCodexWebSocketUrl (parse_url : jstr -> option (jstr * jstr)) (baseUrl : jstr) : option jstr :=
  '(protocol, rest) ← parse_url (resolveCodexUrl baseUrl);
  let protocol := if streq protocol (js "https:") then js "wss:" else protocol in
  let protocol := if streq protocol (js "http:") then js "ws:" else protocol in
  Some (protocol ++ rest).

(** * The body *)

Record codex_options := CodexOptions {
  co_temperature : option Q; co_serviceTier : option jstr; co_toolChoice : option json; co_textVerbosity : option jstr;
  co_reasoningEffort : option jstr; co_reasoningSummary : option jstr; co_sessionId : option jstr;
  co_cacheRetention : option retention; co_headers : option header_list; co_transport : option jstr;
  co_maxRetries : option nat; co_maxRetryDelayMs : option Z
}.

Definition codex_effort (m : model) (level : jstr) : jstr :=
  if streq level (js "none") then match mapped_level m (js "off") with Some (Some v) => v | _ => js "none" end
  else mapped_or_level m level.

Section Body.
Context (num_to_string : Q -> jstr) (syntax_error : jstr -> jstr) (m : model) (c : option responses_options_compat).

Definition codex_request (grammarToolInputProperties : gmap jstr jstr) (now : Z) (messages : list raw_message) (tools : option (list api_tool))
  : result jstr (list input_item * list response_tool) :=
  let deferredToolsMode :=
    if nullish (c ≫= rco_additionalTools) false then Some AdditionalTools
    else if nullish (c ≫= rco_toolSearch) false then Some ToolSearch else None in
  let enabled := bool_decide (deferredToolsMode ≠ None) in
  if enabled && negb (forallb iterable messages) then Throw (js "message.content is not iterable")
  else
    let '(immediate, deferred) := splitDeferredTools (fun n => n) tools (map normalize_content messages) enabled in
    let toolOptions := ToolOptions None (nullish (c ≫= rco_strictMode) true) (nullish (c ≫= rco_grammarTools) false) false in
    let! items :=
      convertResponsesMessages num_to_string syntax_error m CODEX_TOOL_CALL_PROVIDERS grammarToolInputProperties deferred
        deferredToolsMode toolOptions false None None messages now in
    let! ts := convertResponsesTools toolOptions immediate in
    Ok (items, ts).

Definition codex_fields (items : list input_item) (ts : list response_tool) (systemPrompt : option jstr) (o : codex_options)
    (cacheSessionId : option jstr) : list (jstr * option json) :=
    [(js "model", Some (JStr (m_id m)));
     (js "store", Some (JBool false));
     (js "stream", Some (JBool true));
     (js "instructions", Some (JStr (if truthy_opt systemPrompt then nullish systemPrompt [] else js "You are a helpful assistant.")));
     (js "input", Some (JArr (map input_json items)));
     (js "text", Some (JObj [(js "verbosity", JStr (if truthy_opt (co_textVerbosity o) then nullish (co_textVerbosity o) [] else js "low"))]));
     (js "include", Some encrypted_content);
     (js "prompt_cache_key", JStr <$> cacheSessionId);
     (js "tool_choice", Some (nullish (co_toolChoice o) (jstring "auto")));
     (js "parallel_tool_calls", Some (JBool true));
     (js "temperature", (fun q => JNum (Finite q)) <$> co_temperature o);
     (js "service_tier", JStr <$> co_serviceTier o);
     (js "tools", match ts with [] => None | _ => Some (JArr (map response_tool_json ts)) end);
     (js "reasoning", (fun level => JObj [(js "effort", JStr (codex_effort m level));
                                          (js "summary", JStr (nullish (co_reasoningSummary o) (js "auto")))]) <$> co_reasoningEffort o)].

Definition buildRequestBody (grammarToolInputProperties : gmap jstr jstr) (now : Z) (systemPrompt : option jstr) (messages : list raw_message)
    (tools : option (list api_tool)) (o : codex_options) (cacheSessionId : option jstr) : result jstr (list (jstr * json)) :=
  let! request := codex_request grammarToolInputProperties now messages tools in
  let '(items, ts) := request in
  Ok (assign_fields [] (codex_fields items ts systemPrompt o cacheSessionId)).
End Body.

(** * Prices *)

Definition getServiceTierCostMultiplier2 (m : model) (serviceTier : option jstr) : Q :=
  match serviceTier with
  | Some t =>
      if streq t (js "flex") then 1 # 2
      else if streq t (js "priority") then (if streq (m_id m) (js "gpt-5.5") then 5 # 2 else 2) else 1
  | None => 1
  end.

Definition applyServiceTierPricing2 (cost : dollars) (serviceTier : option jstr) (m : model) : dollars :=
  let multiplier := getServiceTierCostMultiplier2 m serviceTier in
  if Qeq_bool multiplier 1 then cost
  else
    let times x := lift2 fmul x (Finite multiplier) in
    let i := times (d_input cost) in
    let o := times (d_output cost) in
    let r := times (d_cacheRead cost) in
    let w := times (d_cacheWrite cost) in
    Dollars i o r w (lift2 fadd (lift2 fadd (lift2 fadd i o) r) w).

Definition resolveCodexServiceTier (responseServiceTier requestServiceTier : option jstr) : option jstr :=
  if bool_decide (responseServiceTier = Some (js "default")) &&
     (bool_decide (requestServiceTier = Some (js "flex")) || bool_decide (requestServiceTier = Some (js "priority")))
  then requestServiceTier else or_option responseServiceTier requestServiceTier.

(** What [processStream] hands to [processResponsesStream]. *)
Definition codex_pricing (m : model) (requestServiceTier tier : option jstr) (cost : dollars) : dollars :=
  applyServiceTierPricing2 cost (resolveCodexServiceTier tier requestServiceTier) m.

(** * Answers that are tried again *)

Definition BASE_DELAY_MS : Z := 1000.
Definition DEFAULT_MAX_RETRY_DELAY_MS2 : Z := 60000.

Definition terminal_limit : regexp :=
  regex (js "GoUsageLimitError|FreeUsageLimitError|Monthly usage limit reached|available balance|insufficient_quota|out of budget|quota exceeded|billing") true.
Definition retryable_text : regexp :=
  regex (js "rate.?limit|overloaded|service.?unavailable|upstream.?connect|connection.?refused") true.

Definition isTerminalRateLimitError (errorText : jstr) : bool := test terminal_limit errorText.

Definition isRetryableError2 (status : Z) (errorText : jstr) : bool :=
  if (status =? 429) && isTerminalRateLimitError errorText then false
  else if (status =? 429) || (status =? 500) || (status =? 502) || (status =? 503) || (status =? 504) then true
  else test retryable_text errorText.

Definition num_max0 (n : jsnum) : jsnum := if num_gt n (Finite 0) then n else Finite 0.
Definition num_finite (n : jsnum) : bool := match n with Finite _ => true | _ => false end.

(** [date_delay] is [Date.parse(s) - Date.now()]. *)
Definition getRetryAfterDelayMs (date_delay : jstr -> jsnum) (headers : list (jstr * jstr)) : option jsnum :=
  let by_seconds :=
    match assoc (js "retry-after") headers with
    | Some retryAfter =>
        if negb (truthy retryAfter) then None
        else match Number retryAfter with
             | Finite seconds => Some (num_max0 (fmul seconds 1000))
             | _ => match date_delay retryAfter with NaN => None | d => Some (num_max0 d) end
             end
    | None => None
    end in
  match assoc (js "retry-after-ms") headers with
  | Some retryAfterMs => match Number retryAfterMs with Finite q => Some (num_max0 (Finite q)) | _ => by_seconds end
  | None => by_seconds
  end.

Definition delay_refused (delayMs maxRetryDelayMs : jsnum) : jstr :=
  js "Server requested " ++ ceil_seconds delayMs ++ js "s retry delay (max: " ++ ceil_seconds maxRetryDelayMs ++ js "s)".

(** [Throw] is a [RetryDelayExceededError]. *)
Definition validateRetryDelayMs (delayMs : jsnum) (maxRetryDelayMs : option Z) : result jstr jsnum :=
  let maxRetryDelayMs := nullish maxRetryDelayMs DEFAULT_MAX_RETRY_DELAY_MS2 in
  if (0 <? maxRetryDelayMs) && num_gt delayMs (Finite (inject_Z maxRetryDelayMs))
  then Throw (delay_refused delayMs (Finite (inject_Z maxRetryDelayMs))) else Ok delayMs.

Definition normalizeTimeoutMs (num_to_string : Q -> jstr) (value : option jsnum) : result jstr (option Z) :=
  match value with
  | None => Ok None
  | Some (Finite q) =>
      if Qle_bool 0 q then Ok (Some (Qfloor q)) else Throw (js "Invalid timeoutMs: " ++ jsnum_string num_to_string (Finite q))
  | Some n => Throw (js "Invalid timeoutMs: " ++ jsnum_string num_to_string n)
  end.

(** * The text of a refusal *)

Definition usage_limit : regexp := regex (js "usage_limit_reached|usage_not_included|rate_limit_exceeded") true.

(** [Math.round] *)
Definition js_round (q : Q) : Z := Qfloor (q + (1 # 2)).

(** [Math.max(0, Math.round((resets_at * 1e3 - Date.now()) / 6e4))], printed. *)
Definition minutes_left (now : Z) (resets_at : jsnum) : jstr :=
  let infinite (q : Q) := if Qle_bool 0 q then js "Infinity" else js "0" in
  match resets_at with
  | Finite q =>
      match fmul q 1000 with
      | Finite ms =>
          match fsub ms (inject_Z now) with
          | Finite d => match fdiv d 60000 with Finite x => num_str (Z.max 0 (js_round x)) | _ => infinite d end
          | _ => infinite q
          end
      | _ => infinite q
      end
  | Infinite negative => if negative then js "0" else js "Infinity"
  | NaN => js "NaN"
  end.

(** A primitive in an arithmetic expression. *)
Definition as_number (v : json) : jsnum :=
  match v with
  | JNum n => n
  | JStr s => Number s
  | JBool b => Finite (if b then 1 else 0)
  | _ => NaN
  end.

Section ErrorResponse.
Context (num_to_string : Q -> jstr) (toLowerCase : jstr -> jstr).

(** [None] where [plan_type] is no string, which throws. *)
Definition friendly_text (now status : Z) (err : json) : option (option jstr) :=
  let code := or_else (get (js "code") err) (or_else (get (js "type") err) (Some (JStr []))) in
  if test usage_limit (to_string_opt num_to_string code) || (status =? 429) then
    plan ← (let p := get (js "plan_type") err in
            if truthy_json p then match p with Some (JStr t) => Some (js " (" ++ toLowerCase t ++ js " plan)") | _ => None end else Some []);
    let when :=
      match get (js "resets_at") err with
      | Some r => if truthy_json (Some r) then js " Try again in ~" ++ minutes_left now (as_number r) ++ js " min." else []
      | None => []
      end in
    Some (Some (trim (js "You have hit your ChatGPT usage limit" ++ plan ++ js "." ++ when)))
  else Some None.

(** [message] and [friendlyMessage]; the message of an error is a string. *)
Definition parseErrorResponse (now status : Z) (statusText raw : jstr) : jstr * option jstr :=
  let message := if truthy raw then raw else if truthy statusText then statusText else js "Request failed" in
  match JSON_parse raw ≫= get (js "error") with
  | Some err =>
      if truthy_json (Some err) then
        match friendly_text now status err with
        | Some friendly =>
            (match get (js "message") err with
             | Some (JStr t) => if truthy t then t else nullish friendly message
             | _ => nullish friendly message
             end, friendly)
        | None => (message, None)
        end
      else (message, None)
  | None => (message, None)
  end.
End ErrorResponse.

(** * Facts *)

(** ** Tokens *)

(** A part of a token: base64 in the alphabet of URLs, without padding. *)
Definition unpadded (bytes : list Z) : jstr := List.filter (fun c => negb (c =? 61)) (encodeBase64 bytes).
Definition url_letter (c : Z) : Z := if c =? 43 then 45 else if c =? 47 then 95 else c.
Definition token_part (bytes : list Z) : jstr := map url_letter (unpadded bytes).

Lemma letter_kept n r :
  0 <= n < 64 -> List.filter (fun c => negb (c =? 61)) (letter n :: r) = letter n :: List.filter (fun c => negb (c =? 61)) r.
Proof. intros Hn. destruct (letter_spec n Hn) as (_ & _ & H). cbn [List.filter]. apply Z.eqb_neq in H. by rewrite H. Qed.

Lemma letter_in n : 0 <= n < 64 -> letter n ∈ ALPHABET.
Proof. intros Hn. unfold letter. apply list_elem_of_In, nth_In. change (length ALPHABET) with 64%nat. lia. Qed.

(** What [atob] asks of its input and what it makes of it. *)
Lemma unpadded_spec bytes : Forall is_byte bytes ->
  atob_bytes (unpadded bytes) = bytes /\ Forall (fun c => c ∈ ALPHABET) (unpadded bytes) /\ (length (unpadded bytes) mod 4 ≠ 1)%nat.
Proof.
  unfold unpadded. induction bytes as [|a|a b|a b c r IH] using triple_ind; intros HF.
  - split_and!; [done|constructor|done].
  - inversion HF; subst. destruct (indices a 0 0) as (I1 & I2 & _); [done|done|done|]. rewrite encodeBase64_last1 by done.
    rewrite !letter_kept by done. cbn [List.filter negb Z.eqb Pos.eqb atob_bytes length]. destruct (letter_spec _ I1) as [-> _], (letter_spec _ I2) as [-> _].
    split_and!; [|repeat (apply Forall_cons; split; [by apply letter_in|]); apply Forall_nil_2|done]. f_equal. Z.to_euclidean_division_equations; lia.
  - inversion HF as [|? ? Ha HF']; subst. inversion HF' as [|? ? Hb _]; subst.
    destruct (indices a b 0) as (I1 & I2 & I3 & _); [done|done|done|]. rewrite encodeBase64_last2 by done.
    rewrite !letter_kept by done. cbn [List.filter negb Z.eqb Pos.eqb atob_bytes length].
    destruct (letter_spec _ I1) as [-> _], (letter_spec _ I2) as [-> _], (letter_spec _ I3) as [-> _].
    split_and!; [|repeat (apply Forall_cons; split; [by apply letter_in|]); apply Forall_nil_2|done]. unfold is_byte in *. f_equal; [|f_equal]; Z.to_euclidean_division_equations; lia.
  - inversion HF as [|? ? Ha HF1]; subst. inversion HF1 as [|? ? Hb HF2]; subst. inversion HF2 as [|? ? Hc HF3]; subst.
    rewrite encodeBase64_step by done. destruct (indices a b c) as (I1 & I2 & I3 & I4); [done|done|done|]. rewrite !letter_kept by done.
    destruct (IH HF3) as (H1 & H2 & H3). cbn [atob_bytes]. rewrite H1.
    destruct (letter_spec _ I1) as [-> _], (letter_spec _ I2) as [-> _], (letter_spec _ I3) as [-> _], (letter_spec _ I4) as [-> _].
    split_and!; [|repeat (apply Forall_cons; split; [by apply letter_in|]); done|].
    + unfold is_byte in *. f_equal; [|f_equal; [|f_equal]]; Z.to_euclidean_division_equations; lia.
    + cbn [length]. change (S (S (S (S ?n)))) with (4 + n)%nat. rewrite <-Nat.Div0.add_mod_idemp_l. simpl (4 mod 4)%nat. by rewrite Nat.add_0_l.
Qed.

Lemma alphabet_plain c : c ∈ ALPHABET -> ascii_space c = false /\ c ≠ 61 /\ c ≠ 46.
Proof.
  intros H. assert (HA : forallb (fun c => negb (ascii_space c) && negb (c =? 61) && negb (c =? 46)) ALPHABET = true) by reflexivity.
  rewrite forallb_forall in HA. apply list_elem_of_In, HA in H. bool_to_prop. done.
Qed.

Lemma strip_plain s : Forall (fun c => c ∈ ALPHABET) s -> strip_padding s = s.
Proof.
  intros HF. unfold strip_padding. apply Forall_rev in HF. destruct (rev s) as [|c r] eqn:E; [done|].
  apply Forall_cons in HF as [Hc _]. apply alphabet_plain in Hc as (_ & Hc & _).
  clear -Hc. destruct c as [|p|p]; try done. do 6 (destruct p as [p|p|]; try done).
Qed.

Lemma atob_unpadded bytes : Forall is_byte bytes -> atob (unpadded bytes) = Some bytes.
Proof.
  intros HF. destruct (unpadded_spec bytes HF) as (Hb & HA & Hm). unfold atob.
  rewrite forallb_filter_id; [|apply forallb_forall; intros c Hc%list_elem_of_In; rewrite Forall_forall in HA; apply HA, alphabet_plain in Hc as (Hs & _); by rewrite Hs].
  rewrite (strip_plain _ HA). assert (forall (b : bool) (x : jstr), (if b then x else x) = x) as -> by by intros [].
  apply Nat.eqb_neq in Hm. rewrite Hm. simpl. rewrite (proj2 (forallb_forall _ _)); [by rewrite Hb|].
  intros c Hc%list_elem_of_In. apply bool_decide_eq_true. rewrite Forall_forall in HA. by apply HA.
Qed.

Lemma token_part_plain bytes : 43 ∉ encodeBase64 bytes -> 47 ∉ encodeBase64 bytes -> token_part bytes = unpadded bytes.
Proof.
  intros H1 H2. unfold token_part. rewrite <-(map_id (unpadded bytes)) at 2. apply map_ext_in. intros c Hc. unfold unpadded in Hc.
  apply filter_In in Hc as [Hc _]. apply list_elem_of_In in Hc. unfold url_letter.
  destruct (Z.eqb_spec c 43); [by subst|]. by destruct (Z.eqb_spec c 47); [subst|].
Qed.

(** The account is read from the token: from a token whose claims are JSON in
    ASCII with the account in them, and whose encoding has neither of the two
    letters in which the alphabet of tokens differs, exactly this account is
    taken; and nothing is taken from a token of other than three parts. *)
Theorem codex_account_read num_to_string header claims signature account :
  46 ∉ header -> 46 ∉ signature -> printable num_to_string claims ->
  Forall (fun c => 0 <= c < 128) (JSON_stringify num_to_string claims) ->
  43 ∉ encodeBase64 (JSON_stringify num_to_string claims) -> 47 ∉ encodeBase64 (JSON_stringify num_to_string claims) ->
  get JWT_CLAIM_PATH claims ≫= get (js "chatgpt_account_id") = Some (JStr account) -> account ≠ [] ->
  extractAccountId (join (js ".") [header; token_part (JSON_stringify num_to_string claims); signature]) = Ok (JStr account).
Proof.
  intros Hh Hs Hp Ha H1 H2 Hg Hn. set (t := JSON_stringify num_to_string claims) in *.
  assert (Hb : Forall is_byte t) by (eapply Forall_impl; [exact Ha|]; unfold is_byte; intros; lia).
  unfold extractAccountId. rewrite token_part_plain by done. change (js ".") with [46]. rewrite split_join; [|done|].
  - rewrite atob_unpadded by done. cbn [mbind option_bind]. unfold t. rewrite json_roundtrip by done. rewrite Hg.
    destruct account; [done|]. done.
  - repeat (apply Forall_cons; split); try done. destruct (unpadded_spec t Hb) as (_ & HA & _). intros Hin.
    rewrite Forall_forall in HA. by apply HA, alphabet_plain in Hin as (_ & _ & ?).
Qed.

Definition claims_of (name account : jstr) : json :=
  JObj [(js "name", JStr name); (JWT_CLAIM_PATH, JObj [(js "chatgpt_account_id", JStr account)])].

Lemma claims_printable name account : printable int_num_str (claims_of (js name) (js account)).
Proof.
  assert (HS : forall s, printable int_num_str (JStr (js s))) by (intros; constructor; apply js_range).
  constructor; [by apply (bool_decide_unpack _)|reflexivity|].
  apply Forall_cons; split; [split; [apply js_range|apply HS]|]. apply Forall_cons; split; [split; [apply js_range|]|constructor].
  constructor; [by apply (bool_decide_unpack _)|reflexivity|]. apply Forall_cons; split; [split; [apply js_range|apply HS]|constructor].
Qed.

Lemma codex_account_read_witness :
  extractAccountId (join (js ".") [js "e30"; token_part (JSON_stringify int_num_str (claims_of (js "Ann") (js "acc"))); js "sig"]) = Ok (JStr (js "acc")).
Proof.
  apply (codex_account_read int_num_str (js "e30") (claims_of (js "Ann") (js "acc")) (js "sig") (js "acc")).
  - apply (bool_decide_unpack _). vm_compute. exact I.
  - apply (bool_decide_unpack _). vm_compute. exact I.
  - apply claims_printable.
  - apply (bool_decide_unpack _). vm_compute. exact I.
  - apply (bool_decide_unpack _). vm_compute. exact I.
  - apply (bool_decide_unpack _). vm_compute. exact I.
  - vm_compute. reflexivity.
  - discriminate.
Defined.

(** Tokens use [-] and [_] where base64 has [+] and [/]; [atob] knows only the
    latter, so the token of a user whose claims hold a [~] in the wrong place has
    no account. *)
Example token_alphabet_refused :
  let token name := join (js ".") [js "e30"; token_part (JSON_stringify int_num_str (claims_of (js name) (js "acc"))); js "sig"] in
  extractAccountId (token "Ann"%string) = Ok (JStr (js "acc")) /\ extractAccountId (token "An~"%string) = Throw account_failure.
Proof. vm_compute. done. Qed.

(** ** Headers *)

Lemma assoc_set name v hs k : assoc k (set_to name v hs) = if streq (lower_all name) k then Some v else assoc k hs.
Proof. apply assoc_map_set. Qed.

Lemma assoc_without name hs k : assoc k (without_header name hs) = if streq (lower_all name) k then None else assoc k hs.
Proof.
  unfold without_header, delete_header. induction hs as [|[k' v] hs IH]; simpl; [by destruct (streq _ _)|].
  destruct (streq k' (lower_all name)) eqn:E; simpl.
  - apply streq_true in E as ->. rewrite IH. by destruct (streq (lower_all name) k).
  - rewrite IH. destruct (streq k' k) eqn:Ek; [|done]. apply streq_true in Ek as ->. apply streq_false in E.
    rewrite (proj2 (streq_false _ _)); done.
Qed.

(** A request goes out in the name of its user: whatever headers the model and
    the caller add, the authorization, the account, the originator, the user agent
    and the version of the protocol are those of this request, over both
    transports, and a session's requests carry its identifier. *)
Theorem codex_headers_own userAgent init extra account token session request :
  let sse := buildSSEHeaders userAgent init extra account token session in
  let ws := websocket_headers (buildWebSocketHeaders userAgent init extra account token request) in
  let own hs := assoc (js "authorization") hs = Some (js "Bearer " ++ token) /\ assoc (js "chatgpt-account-id") hs = Some account /\
    assoc (js "originator") hs = Some (js "pi") /\ assoc (js "user-agent") hs = Some userAgent in
  own sse /\ own ws /\
  assoc (js "openai-beta") sse = Some (js "responses=experimental") /\ assoc (js "openai-beta") ws = Some OPENAI_BETA_RESPONSES_WEBSOCKETS /\
  assoc (js "accept") sse = Some (js "text/event-stream") /\ assoc (js "accept") ws = None /\
  assoc (js "content-type") sse = Some (js "application/json") /\ assoc (js "content-type") ws = None /\
  (forall id, session = Some id -> id ≠ [] -> assoc (js "session-id") sse = Some id) /\ assoc (js "session-id") ws = Some request.
Proof.
  assert (Hws : forall k hs, streq (js "OpenAI-Beta") k = false -> assoc k (websocket_headers hs) = assoc k hs).
  { intros k hs Hk. unfold websocket_headers. induction hs as [|[k' v] hs IH]; [done|]. simpl.
    destruct (streq k' (js "OpenAI-Beta")) eqn:E; simpl; [|by rewrite IH]. apply streq_true in E as ->. by rewrite Hk, IH. }
  cbn zeta. rewrite !Hws by reflexivity. unfold buildSSEHeaders, buildWebSocketHeaders, buildBaseCodexHeaders. set (hs := foldl _ _ _).
  split_and!; try (destruct (truthy_opt session); rewrite ?assoc_set; reflexivity);
    try (repeat rewrite ?assoc_set, ?assoc_without; reflexivity).
  intros id -> Hid. destruct id; [done|]. simpl. rewrite !assoc_set. reflexivity.
Qed.


(** ** Addresses *)

Lemma strip_slashes_snoc s c : c ≠ 47 -> strip_slashes (s ++ [c]) = s ++ [c].
Proof.
  intros Hc. unfold strip_slashes, drop_trailing. rewrite rev_app_distr. cbn [rev app drop_while]. rewrite (proj2 (Z.eqb_neq 47 c)) by done.
  rewrite <-(rev_involutive (s ++ [c])), rev_app_distr. done.
Qed.

Lemma ends_app (p s : jstr) : ends_with p (s ++ p) = true.
Proof. apply ends_with_spec. eauto. Qed.

Lemma resolve_form base : exists p, resolveCodexUrl base = p ++ js "/codex/responses".
Proof.
  unfold resolveCodexUrl. set (n := strip_slashes _). destruct (ends_with (js "/codex/responses") n) eqn:E1; [by apply ends_with_spec in E1|].
  destruct (ends_with (js "/codex") n) eqn:E2; [|by exists n]. apply ends_with_spec in E2 as [p ->]. exists p. by rewrite <-app_assoc.
Qed.

Lemma space_kept s (c : Z) : is_space c = false -> truthy (trim (s ++ [c])) = true.
Proof.
  intros Hc. unfold trim, trim_end, trim_start.
  assert (exists u, drop_while is_space (s ++ [c]) = u ++ [c]) as [u ->].
  { induction s as [|x s [u IH]]; simpl; [rewrite Hc; by exists []|]. destruct (is_space x); [by exists u|by exists (x :: s)]. }
  rewrite rev_app_distr. simpl. rewrite Hc. simpl. by destruct (rev (rev u)).
Qed.

(** The address of an endpoint is a fixed point. *)
Lemma resolve_endpoint p n : resolveCodexUrl (p ++ js "/codex/responses" ++ replicate n 47) = p ++ js "/codex/responses".
Proof.
  assert (Hs : strip_slashes (p ++ js "/codex/responses" ++ replicate n 47) = p ++ js "/codex/responses").
  { unfold strip_slashes, drop_trailing. rewrite !rev_app_distr.
    assert (Hd : forall k (r : jstr), drop_while (Z.eqb 47) (rev (replicate k 47) ++ r) = drop_while (Z.eqb 47) r).
    { intros k. induction k as [|k IH]; intros r; [done|]. cbn [replicate rev]. rewrite <-app_assoc, IH. done. }
    rewrite <-app_assoc, Hd, <-rev_app_distr. change (js "/codex/responses") with (js "/codex/response" ++ js "s"). rewrite app_assoc. apply strip_slashes_snoc. done. }
  unfold resolveCodexUrl. assert (truthy (trim (p ++ js "/codex/responses" ++ replicate n 47)) = true) as ->.
  { destruct n as [|n].
    - rewrite app_nil_r. change (js "/codex/responses") with (js "/codex/response" ++ js "s"). rewrite app_assoc. by apply space_kept.
    - rewrite replicate_S_end, !app_assoc. by apply space_kept. }
  by rewrite Hs, ends_app.
Qed.

(** However the address of the service is written, requests go to its Codex
    endpoint: the address ends in [/codex/responses], is its own resolution with
    or without slashes after it, and with [/codex] already there nothing is doubled. *)
Theorem codex_url_resolved base :
  (exists p, resolveCodexUrl base = p ++ js "/codex/responses") /\
  (forall n, resolveCodexUrl (resolveCodexUrl base ++ replicate n 47) = resolveCodexUrl base) /\
  (forall p, resolveCodexUrl (p ++ js "/codex") = p ++ js "/codex/responses").
Proof.
  destruct (resolve_form base) as [p Hp]. split; [by eauto|]. split.
  - intros n. rewrite Hp, <-app_assoc. apply resolve_endpoint.
  - intros q. unfold resolveCodexUrl. change (js "/codex") with (js "/code" ++ [120]). rewrite app_assoc.
    rewrite space_kept by done. rewrite strip_slashes_snoc by done. rewrite <-app_assoc. change (js "/code" ++ [120]) with (js "/codex").
    rewrite ends_app. destruct (ends_with (js "/codex/responses") (q ++ js "/codex")) eqn:E; [|by rewrite <-app_assoc].
    apply ends_with_spec in E as [r E]. exfalso.
    apply (f_equal (fun l => nth 0 (rev l) 0)) in E. rewrite !rev_app_distr in E. done.
Qed.

(** ** The body *)

Lemma lookup_assign_other k l : forall ps, k ∉ map fst l -> lookup_field k (assign_fields ps l) = lookup_field k ps.
Proof.
  induction l as [|[k' v] l IH]; intros ps Hk; [done|]. cbn [map fst] in Hk. apply not_elem_of_cons in Hk as [Hne Hk].
  change (lookup_field k (assign_fields (match v with Some v => set_field k' v ps | None => ps end) l) = lookup_field k ps).
  rewrite IH by done. destruct v; [|done]. by apply lookup_set_field_ne.
Qed.

Lemma lookup_assign_last k v l1 l2 ps : k ∉ map fst l2 -> lookup_field k (assign_fields ps (l1 ++ (k, Some v) :: l2)) = Some v.
Proof.
  intros Hk. unfold assign_fields. rewrite foldl_app. cbn [foldl]. rewrite (lookup_assign_other k l2) by done. apply lookup_set_field_eq.
Qed.

(** The body of a request carries the whole conversation: in its input every
    call of an assistant message is answered by a result before the next user or
    assistant message, calls and results are those of the conversation as it is
    replayed, nothing is stored at the provider, and no earlier response is
    referred to. *)
Theorem codex_body_complete num_to_string syntax_error m c properties now systemPrompt messages tools o session body :
  buildRequestBody num_to_string syntax_error m c properties now systemPrompt messages tools o session = Ok body ->
  let replayed := transformMessages messages m (Some (fun id _ source => normalizeResponsesId CODEX_TOOL_CALL_PROVIDERS m id source)) now in
  exists items, body_input body = map input_json items /\ items_paired items /\
    omap item_call items = map call_part (replayed ≫= message_calls) /\ omap item_result items = map call_part (replayed ≫= message_results) /\
    lookup_field (js "store") body = Some (JBool false) /\ lookup_field (js "previous_response_id") body = None.
Proof.
  unfold buildRequestBody. destruct (codex_request _ _ _ _ _ _ _ _) as [[items ts]|] eqn:E; [|done]. cbn [bind]. intros Hb. exists items.
  assert (body = assign_fields [] (codex_fields m items ts systemPrompt o session)) as -> by congruence. clear Hb.
  unfold codex_request in E. destruct (_ && negb (forallb _ _)); [done|]. destruct (splitDeferredTools _ _ _ _) as [immediate deferred].
  destruct (convertResponsesMessages _ _ _ _ _ _ _ _ _ _ _ _ _) as [items'|] eqn:Ec; [|done]. cbn [bind] in E.
  destruct (convertResponsesTools _ _); [|done]. cbn [bind] in E. injection E as <- <-.
  unfold convertResponsesMessages in Ec. destruct (responses_loop _ _ _ _ _ _ _ _ _ _) as [out|] eqn:El; [|done]. injection Ec as <-.
  apply responses_loop_paired in El as (H1 & H2 & H3); [|apply pair_results_answered]. change (response_instructions m false None None) with ([] : list input_item).
  cbn [app]. split_and!; try done.
  - unfold body_input. set (l := codex_fields _ _ _ _ _ _).
    assert (l = take 4 l ++ (js "input", Some (JArr (map input_json out))) :: drop 5 l) as -> by reflexivity. rewrite lookup_assign_last; [done|].
    apply (bool_decide_unpack _). vm_compute. exact I.
  - set (l := codex_fields _ _ _ _ _ _).
    assert (l = take 1 l ++ (js "store", Some (JBool false)) :: drop 2 l) as -> by reflexivity.
    rewrite lookup_assign_last; [done|]. apply (bool_decide_unpack _). vm_compute. exact I.
  - rewrite lookup_assign_other; [done|]. apply (bool_decide_unpack _). vm_compute. exact I.
Qed.

Definition no_options : codex_options := CodexOptions None None None None None None None None None None None None.

Lemma codex_body_complete_witness :
  exists body items, buildRequestBody int_num_str (fun _ => []) response_model (Some search_compat) ∅ 9 (Some (js "Be brief.")) response_messages chat_tools
      no_options None = Ok body /\ body_input body = map input_json items /\ omap item_call items = [js "call_1"; js "call_2"].
Proof.
  destruct (buildRequestBody int_num_str (fun _ => []) response_model (Some search_compat) ∅ 9 (Some (js "Be brief.")) response_messages chat_tools
    no_options None) as [body|] eqn:E; [|by vm_compute in E].
  destruct (codex_body_complete _ _ _ _ _ _ _ _ _ _ _ _ E) as (items & H1 & _ & H2 & _). exists body, items. split; [reflexivity|]. split; [exact H1|].
  rewrite H2. vm_compute. reflexivity.
Defined.

(** ** Delays *)

Lemma num_max0_nonneg n : num_gt (Finite 0) (num_max0 n) = false.
Proof.
  unfold num_max0. destruct (num_gt n (Finite 0)) eqn:E; [|done]. destruct n as [|[]|q]; try done.
  unfold num_gt in *. apply negb_true_iff in E. apply negb_false_iff, Qle_bool_iff. apply Qlt_le_weak, Qnot_le_lt. intros H.
  apply Qle_bool_iff in H. congruence.
Qed.

(** A delay the server asks for is not negative, and is only slept when it is
    within the limit. *)
Lemma codex_delay_accepted date_delay headers maxDelay d d' :
  getRetryAfterDelayMs date_delay headers = Some d -> validateRetryDelayMs d maxDelay = Ok d' ->
  d' = d /\ num_gt (Finite 0) d = false /\
  (0 < nullish maxDelay DEFAULT_MAX_RETRY_DELAY_MS2 -> num_gt d (Finite (inject_Z (nullish maxDelay DEFAULT_MAX_RETRY_DELAY_MS2))) = false).
Proof.
  intros Hd Hv. unfold validateRetryDelayMs in Hv. destruct (_ && _) eqn:E; [done|]. injection Hv as <-. split; [done|]. split.
  - unfold getRetryAfterDelayMs in Hd.
    repeat case_hyp Hd; simplify_eq; try done; apply num_max0_nonneg.
  - intros H. apply Z.ltb_lt in H. rewrite H in E. done.
Qed.
