(* ===== verification/CodexEvents.v ===== *)
(** How the events of a Codex response are read
    (pi [packages/ai/dist/api/openai-codex-responses.js]): from the lines of an HTTP
    body ([parseSSE]), from the messages of a WebSocket ([parseWebSocket]), and how
    both become the events of the responses API ([mapCodexEvents]).  The texts of
    engine errors and the printing of numbers are parameters. *)
From S2P Require Import Prelude Utf8 Numbers Json Messages Sse MistralMessages MistralSse.
Open Scope Z_scope.

(** * Errors *)

(** What the provider throws: its own classes, the error an aborted request
    rejects with, and any other error. *)
Inductive codex_error :=
| CodexApiError (message : jstr) (code : option json)
| CodexProtocolError (message : jstr)
| RetryDelayExceededError (message : jstr)
| AbortedFetch (message : jstr)                  (* [name] is ["AbortError"] *)
| OtherError (message : jstr).

Definition error_message (e : codex_error) : jstr :=
  match e with
  | CodexApiError m _ | CodexProtocolError m | RetryDelayExceededError m | AbortedFetch m | OtherError m => m
  end.

Definition WEBSOCKET_CONNECTION_LIMIT_REACHED_CODE : jstr := js "websocket_connection_limit_reached".
Definition PREVIOUS_RESPONSE_NOT_FOUND_CODE : jstr := js "previous_response_not_found".

Definition isCodexNonTransportError (e : codex_error) : bool :=
  match e with CodexApiError _ _ | CodexProtocolError _ => true | _ => false end.

Definition has_code (c : jstr) (e : codex_error) : bool :=
  match e with CodexApiError _ (Some (JStr s)) => streq s c | _ => false end.

Definition isWebSocketConnectionLimitReachedError (e : codex_error) : bool := has_code WEBSOCKET_CONNECTION_LIMIT_REACHED_CODE e.
Definition isPreviousResponseNotFoundError (e : codex_error) : bool := has_code PREVIOUS_RESPONSE_NOT_FOUND_CODE e.

(** * Events of the provider *)

Definition CODEX_RESPONSE_STATUSES : list jstr :=
  map js ["completed"; "incomplete"; "failed"; "cancelled"; "queued"; "in_progress"]%string.

Definition normalizeCodexStatus (status : option json) : option json :=
  match status with
  | Some (JStr s) => if bool_decide (s ∈ CODEX_RESPONSE_STATUSES) then status else None
  | _ => None
  end.

(** A field that is a string. *)
Definition event_string (k : string) (v : json) : option jstr := match get (js k) v with Some (JStr s) => Some s | _ => None end.

(** [code] and [message]. *)
Definition extractCodexEventError (event : json) : option jstr * option jstr :=
  let nested := match get (js "error") event with Some (JObj fs) => JObj fs | _ => JNull end in
  let pick k := match event_string k event with Some s => Some s | None => event_string k nested end in
  (pick "code"%string, pick "message"%string).

Definition put_field (k : string) (v : option json) (fs : list (jstr * json)) : list (jstr * json) :=
  match v with Some v => set_field (js k) v fs | None => delete_field (js k) fs end.

Definition normalized_response (r : json) : json :=
  match r with JObj fs => JObj (put_field "status" (normalizeCodexStatus (lookup_field (js "status") fs)) fs) | _ => r end.

Definition completed_event (event : json) : json :=
  match event with
  | JObj fs =>
      JObj (put_field "response" (normalized_response <$> lookup_field (js "response") fs) (set_field (js "type") (JStr (js "response.completed")) fs))
  | _ => event
  end.

Definition ends_response (type : jstr) : bool :=
  streq type (js "response.done") || streq type (js "response.completed") || streq type (js "response.incomplete").

Section Map.
(** [null_error]: what the engine says of a property of [null]. *)
Context (num_to_string : Q -> jstr) (null_error : jstr).

(** What one event is: skipped, thrown, the last one, or passed on. *)
Inductive mapped := Skipped | Thrown (e : codex_error) | Last (event : json) (endTurn : option bool) | Passed (event : json).

Definition or_text (a b : option jstr) (d : jstr) : jstr :=
  if truthy (nullish a []) then nullish a [] else if truthy (nullish b []) then nullish b [] else d.

Definition map_event (event : json) : mapped :=
  if bool_decide (event = JNull) then Thrown (OtherError null_error)
  else
  match event_string "type" event with
  | None | Some [] => Skipped
  | Some type =>
      if streq type (js "error") then
        let '(code, message) := extractCodexEventError event in
        Thrown (CodexApiError (js "Codex error: " ++ or_text message code (JSON_stringify num_to_string event)) (JStr <$> code))
      else if streq type (js "response.failed") then
        let error := get (js "response") event ≫= get (js "error") in
        let message := match error ≫= get (js "message") with Some (JStr s) => s | _ => [] end in
        Thrown (CodexApiError (if truthy message then message else js "Codex response failed") (error ≫= get (js "code")))
      else if ends_response type then
        Last (completed_event event)
          (match get (js "response") event ≫= get (js "end_turn") with Some (JBool b) => Some b | _ => None end)
      else Passed event
  end.

(** The events that come out, how they end, and [output.endTurn]. *)
Fixpoint mapCodexEvents (events : list json) (ending : option codex_error) : list json * option codex_error * option bool :=
  match events with
  | [] => ([], ending, None)
  | ev :: more =>
      match map_event ev with
      | Skipped => mapCodexEvents more ending
      | Thrown e => ([], Some e, None)
      | Last ev endTurn => ([ev], None, endTurn)
      | Passed ev => let '(vs, e, t) := mapCodexEvents more ending in (ev :: vs, e, t)
      end
  end.
End Map.

(** * Lines *)

Section Lines.
(** What the engine says of a text that is not JSON. *)
Context (syntax_error : jstr -> jstr).

Definition chunk_data (chunk : jstr) : list jstr :=
  map (fun l => trim (drop 5 l)) (List.filter (starts_with (js "data:")) (split_char LF chunk)).

(** The event of a chunk, if it has one. *)
Definition parse_chunk (chunk : jstr) : result codex_error (option json) :=
  match chunk_data chunk with
  | [] => Ok None
  | dataLines =>
      let data := trim (join [LF] dataLines) in
      if truthy data && negb (streq data (js "[DONE]")) then
        match JSON_parse data with
        | Some v => Ok (Some v)
        | None => Throw (CodexProtocolError (js "Invalid Codex SSE JSON: " ++ syntax_error data))
        end
      else Ok None
  end.

(** The inner loop: the events it yields and the rest of the buffer.  Every turn
    takes two units off the buffer, so its length is enough fuel. *)
Fixpoint drain_chunks (fuel : nat) (buffer : jstr) : list json * result codex_error jstr :=
  match fuel with
  | O => ([], Ok buffer)
  | S fuel =>
      match index_of [LF; LF] buffer with
      | None => ([], Ok buffer)
      | Some idx =>
          let rest := drop (idx + 2) buffer in
          match parse_chunk (take idx buffer) with
          | Throw e => ([], Throw e)
          | Ok None => drain_chunks fuel rest
          | Ok (Some v) => let '(vs, r) := drain_chunks fuel rest in (v :: vs, r)
          end
      end
  end.

(** [ending] is what a read or the aborted signal throws after the chunks. *)
Fixpoint read_sse (chunks : list (list Z)) (ending : option codex_error) (decoder : text_decoder) (buffer : jstr)
  : list json * option codex_error :=
  match chunks with
  | [] =>
      match ending with
      | Some e => ([], Some e)
      | None =>
          let buffer := buffer ++ (td_end decoder).1 in
          let buffer := if truthy (trim buffer) then buffer ++ [LF; LF] else buffer in
          let '(vs, r) := drain_chunks (length buffer) buffer in
          (vs, match r with Throw e => Some e | Ok _ => None end)
      end
  | value :: more =>
      let '(text, decoder) := td_stream decoder value in
      let buffer := buffer ++ text in
      match drain_chunks (length buffer) buffer with
      | (vs, Throw e) => (vs, Some e)
      | (vs, Ok rest) => let '(ws, e) := read_sse more ending decoder rest in (vs ++ ws, e)
      end
  end.

Definition parseSSE (chunks : list (list Z)) (ending : option codex_error) : list json * option codex_error :=
  read_sse chunks ending td_new [].
End Lines.

(** * Messages of a socket *)

(** The variables of [parseWebSocket]: [pending] is whether the loop waits, [yielded]
    what it has given out, [ended] how it ended. *)
Record ws_state := WsState {
  ws_queue : list json;
  ws_pending : bool;
  ws_done : bool;
  ws_failed : option codex_error;
  ws_sawCompletion : bool;
  ws_aborted : bool;
  ws_yielded : list json;
  ws_ended : option (option codex_error)
}.

Definition ws_init (aborted : bool) : ws_state := WsState [] false false None false aborted [] None.

(** A message whose data decodes to a text, an error or close event with the error
    it stands for, an abort, the idle timer, and a turn of the loop. *)
Inductive ws_event :=
| WsMessage (text : option jstr)
| WsError (e : codex_error)
| WsClose (e : codex_error)
| WsAbort
| WsIdle (idleTimeoutMs : Z)
| WsTurn.

Section Socket.
(** What the engine says of a text that is not JSON, or [null]. *)
Context (syntax_error : jstr -> jstr).

Definition ends_stream (event : json) : bool :=
  match event_string "type" event with Some type => ends_response type | None => false end.

(** [done = true; wake()] with what else is set. *)
Definition ws_fail (e : codex_error) (s : ws_state) : ws_state :=
  WsState (ws_queue s) false true (Some e) (ws_sawCompletion s) (ws_aborted s) (ws_yielded s) (ws_ended s).

Definition ws_message (text : option jstr) (s : ws_state) : ws_state :=
  match text with
  | None | Some [] => s
  | Some text =>
      match JSON_parse text with
      | None | Some JNull => ws_fail (CodexProtocolError (js "Invalid Codex WebSocket JSON: " ++ syntax_error text)) s
      | Some parsed =>
          let last := ends_stream parsed in
          WsState (ws_queue s ++ [parsed]) false (ws_done s || last) (ws_failed s) (ws_sawCompletion s || last) (ws_aborted s)
            (ws_yielded s) (ws_ended s)
      end
  end.

Definition ws_close (e : codex_error) (s : ws_state) : ws_state :=
  WsState (ws_queue s) false true
    (if ws_sawCompletion s then ws_failed s else match ws_failed s with Some failed => Some failed | None => Some e end)
    (ws_sawCompletion s) (ws_aborted s) (ws_yielded s) (ws_ended s).

Definition ws_end (r : option codex_error) (s : ws_state) : ws_state :=
  WsState (ws_queue s) false (ws_done s) (ws_failed s) (ws_sawCompletion s) (ws_aborted s) (ws_yielded s) (Some r).

Definition codex_aborted : codex_error := OtherError (js "Request was aborted").

(** One turn of [while (true)], when the loop does not wait. *)
Definition ws_turn (s : ws_state) : ws_state :=
  if ws_aborted s then ws_end (Some codex_aborted) s
  else
    match ws_queue s with
    | v :: q =>
        WsState q false (ws_done s) (ws_failed s) (ws_sawCompletion s) (ws_aborted s) (ws_yielded s ++ [v]) (ws_ended s)
    | [] =>
        if ws_done s then
          match ws_failed s with
          | Some e => ws_end (Some e) s
          | None =>
              if ws_sawCompletion s then ws_end None s
              else ws_end (Some (OtherError (js "WebSocket stream closed before response.completed"))) s
          end
        else WsState [] true (ws_done s) (ws_failed s) (ws_sawCompletion s) (ws_aborted s) (ws_yielded s) (ws_ended s)
    end.

(** After the end the listeners are gone. *)
Definition ws_step (s : ws_state) (ev : ws_event) : option ws_state :=
  if bool_decide (ws_ended s ≠ None) then None
  else
    match ev with
    | WsMessage text => Some (ws_message text s)
    | WsError e => Some (ws_fail e s)
    | WsClose e => Some (ws_close e s)
    | WsAbort =>
        let s := ws_fail codex_aborted s in
        Some (WsState (ws_queue s) (ws_pending s) (ws_done s) (ws_failed s) (ws_sawCompletion s) true (ws_yielded s) (ws_ended s))
    | WsIdle ms =>
        if ws_pending s then
          let e := OtherError (js "WebSocket idle timeout after " ++ num_str ms ++ js "ms") in Some (ws_end (Some e) (ws_fail e s))
        else None
    | WsTurn => if ws_pending s then None else Some (ws_turn s)
    end.

Fixpoint ws_run (s : ws_state) (evs : list ws_event) : option ws_state :=
  match evs with
  | [] => Some s
  | ev :: evs => s' ← ws_step s ev; ws_run s' evs
  end.
End Socket.

(** * Facts *)

(** ** Lines, however they are cut *)

Section Chunks.
Context (syntax_error : jstr -> jstr).
#[local] Abbreviation drain := (drain_chunks syntax_error).

Lemma starts_app p s t : starts_with p s = true -> starts_with p (s ++ t) = true.
Proof. rewrite !starts_with_spec. intros [r ->]. exists (r ++ t). by rewrite app_assoc. Qed.

Lemma index_of_app p s t i : index_of p s = Some i -> index_of p (s ++ t) = Some i.
Proof.
  revert i. induction s as [|c s IH]; intros i; cbn [index_of app].
  - destruct (starts_with p []) eqn:E; [|done]. intros [= <-]. pose proof (starts_app p [] t E) as H. cbn [app] in H. destruct t; cbn [index_of]; by rewrite H.
  - destruct (starts_with p (c :: s)) eqn:E.
    + intros [= <-]. pose proof (starts_app p (c :: s) t E) as H. cbn [app] in H. by rewrite H.
    + destruct (index_of p s) as [j|] eqn:Ej; [|done]. intros [= <-]. rewrite (IH j eq_refl).
      destruct (starts_with p (c :: s ++ t)) eqn:E'; [|done]. exfalso.
      apply index_of_Some in Ej as (r & Hr & Hl). apply starts_with_spec in E' as [q Hq].
      (* the whole pattern lies within [c :: s], since a later match does *)
      assert (Hlen : (length p <= length (c :: s))%nat) by (cbn [length]; lia).
      apply (f_equal (take (length p))) in Hq. rewrite take_app_length in Hq. change (c :: s ++ t) with ((c :: s) ++ t) in Hq.
      rewrite take_app_le in Hq by done. pose proof (take_drop (length p) (c :: s)) as Hs. rewrite Hq in Hs.
      rewrite (proj2 (starts_with_spec p (c :: s))) in E; [done|by eexists].
Qed.

Lemma drain_fuel f b : (length b <= f)%nat -> drain f b = drain (length b) b.
Proof.
  revert b. induction f as [f IH] using lt_wf_ind. intros b Hf. destruct f as [|f]; [by destruct b; [|cbn in Hf; lia]|].
  destruct b as [|c b']; [done|]. set (b := c :: b') in *. cbn [length] in *. destruct (index_of [LF; LF] b) as [i|] eqn:Ei.
  - assert (Hl : (length (drop (i + 2) b) < length b)%nat).
    { apply index_of_Some in Ei as (_ & _ & Hl). cbn [length] in Hl. rewrite length_drop. lia. }
    change (length b) with (S (length b')) in *. cbn [drain_chunks]. rewrite Ei.
    rewrite (IH f) by lia. assert (H2 : drain (length b') (drop (i + 2) b) = drain (length (drop (i + 2) b)) (drop (i + 2) b)).
    { destruct (decide (length b' < S f)%nat) as [Hlt|Hge]; [apply IH; [lia|lia]|]. lia. }
    rewrite H2. done.
  - change (length b) with (S (length b')). cbn [drain_chunks]. by rewrite Ei.
Qed.

Definition drained (b : jstr) : list json * result codex_error jstr := drain (length b) b.

Definition and_then (x : list json * result codex_error jstr) (k : jstr -> list json * result codex_error jstr) :=
  match x with
  | (vs, Throw e) => (vs, Throw e)
  | (vs, Ok rest) => let '(ws, r) := k rest in (vs ++ ws, r)
  end.

Definition chunk_events (c : jstr) : list json * result codex_error jstr :=
  match parse_chunk syntax_error c with Throw e => ([], Throw e) | Ok None => ([], Ok []) | Ok (Some v) => ([v], Ok []) end.

Lemma drained_none b : index_of [LF; LF] b = None -> drained b = ([], Ok b).
Proof. unfold drained. intros H. destruct b as [|c b]; [done|]. cbn [length drain_chunks]. by rewrite H. Qed.

Lemma drained_some b i : index_of [LF; LF] b = Some i -> drained b = and_then (chunk_events (take i b)) (fun _ => drained (drop (i + 2) b)).
Proof.
  unfold drained, chunk_events. intros H. destruct b as [|c b']; [done|]. set (b := c :: b') in *.
  assert (Hl : (length (drop (i + 2) b) <= length b')%nat).
  { apply index_of_Some in H as (_ & _ & Hl). cbn [length] in Hl. rewrite length_drop. unfold b. cbn [length]. lia. }
  change (length b) with (S (length b')). cbn [drain_chunks]. rewrite H, drain_fuel by lia.
  destruct (parse_chunk _ _) as [[v|]|e]; cbn [and_then]; [..|done]; by destruct (drain _ (drop (i + 2) b)).
Qed.

Lemma and_then_assoc x k l : and_then (and_then x k) l = and_then x (fun r => and_then (k r) l).
Proof.
  unfold and_then. destruct x as [vs [rest|e]]; [|done]. destruct (k rest) as [ws [rest'|e]]; [|done]. destruct (l rest'). by rewrite app_assoc.
Qed.

Lemma drained_app a b : drained (a ++ b) = and_then (drained a) (fun rest => drained (rest ++ b)).
Proof.
  remember (length a) as n eqn:Hn. revert a Hn. induction n as [n IH] using lt_wf_ind. intros a ->.
  destruct (index_of [LF; LF] a) as [i|] eqn:Ei.
  - rewrite (drained_some a i Ei), (drained_some (a ++ b) i (index_of_app _ _ _ _ Ei)), and_then_assoc.
    pose proof (index_of_Some _ _ _ Ei) as (_ & _ & Hl). cbn [length] in Hl. rewrite take_app_le, drop_app_le by lia.
    destruct (chunk_events (take i a)) as [vs [rest|e]]; [|done].
    rewrite (IH (length (drop (i + 2) a))) by (rewrite ?length_drop; lia). done.
  - rewrite (drained_none a Ei). unfold and_then. by destruct (drained (a ++ b)).
Qed.

Lemma blank_chunk s : Forall (fun c => is_space c = true) s -> parse_chunk syntax_error s = Ok None.
Proof.
  intros HF. unfold parse_chunk, chunk_data. assert (Hl : Forall (Forall (fun c => is_space c = true)) (split_char LF s)).
  { induction HF as [|c s Hc HF IH]; [by repeat constructor|]. cbn [split_char]. destruct (c =? LF); [by constructor|].
    destruct IH as [|l ls H1 H2]; [by repeat constructor|]. constructor; [by constructor|done]. }
  assert (List.filter (starts_with (js "data:")) (split_char LF s) = []) as ->; [|done].
  induction Hl as [|l ls H1 H2 IH]; [done|]. cbn [List.filter]. destruct (starts_with (js "data:") l) eqn:E; [|done].
  apply starts_with_spec in E as [r ->]. by inversion H1.
Qed.

Lemma drained_blank s : Forall (fun c => is_space c = true) s -> exists rest, drained s = ([], Ok rest).
Proof.
  remember (length s) as n eqn:Hn. revert s Hn. induction n as [n IH] using lt_wf_ind. intros s -> HF.
  destruct (index_of [LF; LF] s) as [i|] eqn:Ei; [|rewrite drained_none by done; by eexists].
  rewrite (drained_some s i Ei). unfold chunk_events. rewrite blank_chunk by (by apply Forall_take). cbn [and_then].
  pose proof (index_of_Some _ _ _ Ei) as (_ & _ & Hl). cbn [length] in Hl.
  destruct (IH (length (drop (i + 2) s))) with (s := drop (i + 2) s) as [rest ->]; [rewrite length_drop; lia|done|by apply Forall_drop|]. by exists rest.
Qed.

Definition outcome_of (x : list json * result codex_error jstr) : list json * option codex_error :=
  (x.1, match x.2 with Throw e => Some e | Ok _ => None end).

Lemma read_sse_text chunks d buffer :
  read_sse syntax_error chunks None d buffer =
  outcome_of (drained (buffer ++ (concat (td_pieces d chunks).1 ++ (td_end (td_pieces d chunks).2).1) ++ [LF; LF])).
Proof.
  revert d buffer. induction chunks as [|value chunks IH]; intros d buffer; cbn [read_sse td_pieces].
  - cbn [fst snd concat app]. rewrite app_assoc. set (b := buffer ++ (td_end d).1). destruct (trim b) as [|x y] eqn:Et; cbn [truthy].
    + apply trim_blank in Et. destruct (drained_blank b Et) as [rest H]. unfold drained in H. rewrite H.
      destruct (drained_blank (b ++ [LF; LF])) as [rest' ->]; [apply Forall_app; split; [done|by repeat constructor]|]. done.
    + fold (drained (b ++ [LF; LF])). by destruct (drained (b ++ [LF; LF])) as [vs [r|e]].
  - destruct (td_stream d value) as [text d1]. destruct (td_pieces d1 chunks) as [ps d2] eqn:Ep. cbn [fst snd concat].
    replace (buffer ++ ((text ++ concat ps) ++ (td_end d2).1) ++ [LF; LF]) with ((buffer ++ text) ++ (concat ps ++ (td_end d2).1) ++ [LF; LF])
      by (by rewrite <-!app_assoc). rewrite (drained_app (buffer ++ text)). fold (drained (buffer ++ text)).
    destruct (drained (buffer ++ text)) as [vs [rest|e]]; [|done]. rewrite IH, Ep. cbn [fst snd and_then].
    by destruct (drained (rest ++ _)) as [ws r].
Qed.
End Chunks.

(** The events read from a body do not depend on how it is cut. *)
Lemma parseSSE_text syntax_error chunks :
  parseSSE syntax_error chunks None = outcome_of (drained syntax_error (td_decode (concat chunks) ++ [LF; LF])).
Proof.
  unfold parseSSE. rewrite read_sse_text. pose proof (td_pieces_decode chunks) as H. destruct (td_pieces td_new chunks) as [ps d].
  cbn [fst snd app]. by rewrite H.
Qed.

(** ** Round trip *)

(** How the server writes an event: its name, if it gives one, and its data. *)
Definition codex_lines (ev : option jstr * jstr) : list jstr :=
  (match ev.1 with Some name => [js "event: " ++ name] | None => [] end) ++ [js "data: " ++ ev.2].
Definition codex_body (evs : list (option jstr * jstr)) : jstr := evs ≫= fun ev => join [LF] (codex_lines ev) ++ [LF; LF].

(** An event that can be written so: on one line, and JSON. *)
Definition codex_writes (ev : option jstr * jstr) (v : json) : Prop :=
  (forall name, ev.1 = Some name -> (LF ∉ name)) /\ (LF ∉ ev.2) /\ trim (ev.2) = ev.2 /\ JSON_parse ev.2 = Some v.

Definition text_line (l : jstr) : Prop := (LF ∉ l) /\ l ≠ [].

Lemma index_blank_line lines r : lines ≠ [] -> Forall text_line lines ->
  index_of [LF; LF] (join [LF] lines ++ LF :: LF :: r) = Some (length (join [LF] lines)).
Proof.
  intros Hn HF. induction HF as [|l ls [Hl Hne] HF IH]; [done|]. clear Hn.
  assert (Hline : forall l t, LF ∉ l -> match t with c :: _ => c ≠ LF | [] => True end ->
    index_of [LF; LF] (l ++ LF :: t) = (fun n => length l + S n)%nat <$> index_of [LF; LF] t).
  { clear. intros l t Hl Ht. induction l as [|c l IH]; cbn [app index_of].
    - destruct t as [|d t]; [done|]. cbn [starts_with]. rewrite (proj2 (Z.eqb_neq LF d)) by done. cbn [andb Z.eqb]. rewrite andb_false_r.
      by destruct (index_of _ _).
    - rewrite not_elem_of_cons in Hl. destruct Hl as [Hc Hl]. cbn [starts_with]. rewrite (proj2 (Z.eqb_neq LF c)) by done. cbn [andb].
      rewrite IH by done. by destruct (index_of _ t). }
  destruct ls as [|l' ls].
  - cbn [join]. induction l as [|c l IHl]; [done|]. cbn [app index_of]. rewrite not_elem_of_cons in Hl. destruct Hl as [Hc Hl]. cbn [starts_with].
    rewrite (proj2 (Z.eqb_neq LF c)) by done. cbn [andb]. destruct l as [|d l]; [done|]. rewrite IHl by done. done.
  - specialize (IH ltac:(done)). change (join [LF] (l :: l' :: ls)) with (l ++ [LF] ++ join [LF] (l' :: ls)). rewrite <-!app_assoc. cbn [app].
    rewrite Hline; [|done|].
    + rewrite IH. cbn [fmap option_fmap option_map]. f_equal. rewrite !length_app. cbn [length]. lia.
    + apply Forall_cons in HF as [[Hl' Hne'] _]. destruct l' as [|c l']; [done|]. rewrite not_elem_of_cons in Hl'. destruct ls; cbn; intros ->; naive_solver.
Qed.

Lemma codex_lines_text ev v : codex_writes ev v -> codex_lines ev ≠ [] /\ Forall text_line (codex_lines ev).
Proof.
  intros (Hn & Hd & _). unfold codex_lines. destruct ev as [[name|] d]; cbn [fst snd app] in *; (split; [done|]).
  - repeat (apply Forall_cons; split); [..|constructor]; (split; [|done]).
    + specialize (Hn name eq_refl). rewrite elem_of_app. intros [Hx|?]; [|done]. revert Hx. apply (bool_decide_unpack _). vm_compute. exact I.
    + rewrite elem_of_app. intros [Hx|?]; [|done]. revert Hx. apply (bool_decide_unpack _). vm_compute. exact I.
  - apply Forall_cons. split; [|constructor]. split; [|done]. rewrite elem_of_app. intros [Hx|?]; [|done]. revert Hx.
    apply (bool_decide_unpack _). vm_compute. exact I.
Qed.

Lemma codex_chunk syntax_error ev v : codex_writes ev v -> parse_chunk syntax_error (join [LF] (codex_lines ev)) = Ok (Some v).
Proof.
  intros Hw. destruct (codex_lines_text ev v Hw) as [Hn HF]. destruct Hw as (_ & Hd & Ht & Hj). unfold parse_chunk, chunk_data.
  rewrite split_join; [|done|eapply Forall_impl; [exact HF|by intros l []]].
  assert (Hf : List.filter (starts_with (js "data:")) (codex_lines ev) = [js "data: " ++ ev.2]).
  { unfold codex_lines. by destruct ev as [[name|] d]. }
  assert (Htrim : trim (32 :: ev.2) = ev.2) by exact Ht.
  rewrite Hf. cbn [map join]. change (drop 5 (js "data: " ++ ev.2)) with (32 :: ev.2). rewrite Htrim, Ht.
  destruct ev.2 as [|c d] eqn:E; [done|]. cbn [truthy andb]. destruct (streq (c :: d) (js "[DONE]")) eqn:Es; [|by rewrite Hj].
  apply streq_true in Es. rewrite Es in Hj. by vm_compute in Hj.
Qed.

(** What the server writes is what is read: for all events, with or without
    names, and however the bytes of the body are cut into chunks, exactly their data
    come out, in order, and reading ends without an error. *)
Theorem codex_sse_roundtrip syntax_error evs vs chunks :
  Forall2 codex_writes evs vs -> td_decode (concat chunks) = codex_body evs ->
  parseSSE syntax_error chunks None = (vs, None).
Proof.
  intros HF Ht. rewrite parseSSE_text, Ht. clear Ht.
  assert (Hd : drained syntax_error (codex_body evs) = (vs, Ok [])).
  { induction HF as [|ev v evs vs Hw HF IH]; [done|]. unfold codex_body. rewrite bind_cons. fold (codex_body evs).
    destruct (codex_lines_text ev v Hw) as [Hn HL]. rewrite drained_app.
    rewrite (drained_some _ _ (length (join [LF] (codex_lines ev)))) by (by apply index_blank_line).
    rewrite take_app_length. unfold chunk_events. rewrite (codex_chunk _ _ _ Hw). cbn [and_then].
    rewrite drop_ge by (rewrite length_app; cbn [length]; lia). assert (drained syntax_error [] = ([], Ok [])) as -> by done. cbn [and_then app]. by rewrite IH. }
  rewrite drained_app, Hd. cbn [and_then app]. unfold outcome_of. cbn. by rewrite app_nil_r.
Qed.

Definition codex_sample : list (option jstr * jstr) :=
  [(Some (js "response.created"), js "{" ++ [34] ++ js "type" ++ [34] ++ js ":" ++ [34] ++ js "response.created" ++ [34] ++ js "}"); (None, js "{}")].

Lemma codex_sse_roundtrip_witness :
  let bytes := utf8_encode (codex_body codex_sample) in
  parseSSE (fun _ => []) [take 30 bytes; drop 30 bytes] None = ([JObj [(js "type", JStr (js "response.created"))]; JObj []], None).
Proof.
  apply (codex_sse_roundtrip (fun _ => []) codex_sample).
  - constructor; [|constructor; [|constructor]].
    + split; [intros name [= <-]; apply (bool_decide_unpack _); vm_compute; exact I|].
      split; [apply (bool_decide_unpack _); vm_compute; exact I|]. split; vm_compute; reflexivity.
    + split; [done|]. split; [apply (bool_decide_unpack _); vm_compute; exact I|]. split; vm_compute; reflexivity.
  - vm_compute. reflexivity.
Defined.

(** Only two line feeds end an event: a body whose lines end in CRLF, as the format
    allows, is read as one event, which is not JSON. *)
Example codex_crlf_body :
  let line d := js "data: " ++ d ++ [CR; LF; CR; LF] in
  parseSSE (fun _ => js "!") [utf8_encode (line (js "{}") ++ line (js "{}"))] None =
  ([], Some (CodexProtocolError (js "Invalid Codex SSE JSON: !"))).
Proof. vm_compute. reflexivity. Qed.

(** ** The messages of a socket *)

Section Facts.
Context (syntax_error : jstr -> jstr).

(** The messages among the events of a socket. *)
Definition ws_received (ev : ws_event) : option json :=
  match ev with
  | WsMessage (Some ((_ :: _) as text)) => match JSON_parse text with Some JNull => None | o => o end
  | _ => None
  end.

Record ws_ok (received : list json) (s : ws_state) : Prop := WsOk {
  wk_order : ws_yielded s ++ ws_queue s = received;
  wk_awake : ws_pending s = true -> ws_queue s = [] /\ ws_done s = false;
  wk_saw : ws_sawCompletion s = existsb ends_stream received;
  wk_done : ws_sawCompletion s = true -> ws_done s = true;
  wk_ended : ws_ended s = Some None -> ws_queue s = [] /\ ws_sawCompletion s = true /\ ws_failed s = None
}.

Lemma ws_ok_fail received e s : ws_ended s = None -> ws_ok received s -> ws_ok received (ws_fail e s).
Proof. intros He []. constructor; cbn; try done. congruence. Qed.

Lemma ws_ok_turn received s : ws_ended s = None -> ws_ok received s -> ws_ok received (ws_turn s).
Proof.
  intros He Hok. unfold ws_turn. destruct (ws_aborted s); [destruct Hok; by constructor|]. destruct Hok as [Ho Hw Hs Hd Hn].
  destruct (ws_queue s) as [|v q] eqn:Eq.
  - destruct (ws_done s) eqn:Ed; [|constructor; cbn; try done; congruence].
    destruct (ws_failed s) eqn:Ef; [constructor; cbn; rewrite ?Eq; done|]. destruct (ws_sawCompletion s) eqn:Es; constructor; cbn; rewrite ?Eq, ?Es; done.
  - constructor; cbn; try done; [by rewrite <-Ho, <-app_assoc|]. congruence.
Qed.

Lemma ws_ok_step received s ev s' :
  ws_step syntax_error s ev = Some s' -> ws_ok received s -> ws_ok (received ++ match ws_received ev with Some v => [v] | None => [] end) s'.
Proof.
  unfold ws_step. case_bool_decide as He; [done|]. intros Hs Hok. destruct ev as [text|e|e| |ms|]; cbn [ws_received] in *.
  - simplify_eq. unfold ws_message. destruct text as [[|c text]|]; [by rewrite app_nil_r| |by rewrite app_nil_r].
    assert (Hfail : forall e, ws_ok (received ++ []) (ws_fail e s)) by (intros; rewrite app_nil_r; by apply ws_ok_fail).
    assert (Hpush : forall v, ws_ok (received ++ [v]) (WsState (ws_queue s ++ [v]) false (ws_done s || ends_stream v) (ws_failed s)
      (ws_sawCompletion s || ends_stream v) (ws_aborted s) (ws_yielded s) (ws_ended s))).
    { intros v. destruct Hok as [Ho Hw Hsaw Hd Hn]. constructor; cbn.
      - by rewrite app_assoc, Ho.
      - done.
      - rewrite existsb_app, Hsaw. cbn. by rewrite orb_false_r.
      - rewrite !orb_true_iff. intros [?|?]; [left; auto|by right].
      - congruence. }
    destruct (JSON_parse (c :: text)) as [[]|]; first [apply Hfail | apply Hpush].
  - simplify_eq. rewrite app_nil_r. by apply ws_ok_fail.
  - simplify_eq. rewrite app_nil_r. destruct Hok as [Ho Hw Hsaw Hd Hn]. constructor; cbn; try done. congruence.
  - simplify_eq. rewrite app_nil_r. destruct (ws_ok_fail received codex_aborted s He Hok) as [Ho Hw Hsaw Hd Hn]. by constructor.
  - destruct (ws_pending s); [|done]. simplify_eq. rewrite app_nil_r.
    destruct (ws_ok_fail received (OtherError (js "WebSocket idle timeout after " ++ num_str ms ++ js "ms")) s He Hok) as [Ho Hw Hsaw Hd Hn]. by constructor.
  - destruct (ws_pending s); [done|]. simplify_eq. rewrite app_nil_r. by apply ws_ok_turn.
Qed.

Lemma ws_ok_run evs : forall received s s',
  ws_ok received s -> ws_run syntax_error s evs = Some s' -> ws_ok (received ++ omap ws_received evs) s'.
Proof.
  induction evs as [|ev evs IH]; intros received s s' Hok; cbn [ws_run]; [intros [= <-]; by rewrite app_nil_r|].
  destruct (ws_step _ s ev) as [s1|] eqn:Hs; [|done]. cbn [mbind option_bind]. intros Hr. apply (ws_ok_step received) in Hs; [|done].
  specialize (IH _ _ _ Hs Hr). rewrite <-app_assoc in IH. cbn [omap list_omap]. by destruct (ws_received ev).
Qed.

(** A loop that has something to end with ends. *)
Lemma ws_finishes s :
  ws_ended s = None -> ws_pending s = false -> ws_done s = true -> ws_aborted s = false ->
  exists s', ws_run syntax_error s (replicate (S (length (ws_queue s))) WsTurn) = Some s' /\ ws_yielded s' = ws_yielded s ++ ws_queue s /\
    ws_ended s' = Some (match ws_failed s with
      | Some e => Some e
      | None => if ws_sawCompletion s then None else Some (OtherError (js "WebSocket stream closed before response.completed")) end).
Proof.
  remember (ws_queue s) as q eqn:Hq. revert s Hq. induction q as [|v q IH]; intros s Hq He Hp Hd Ha.
  - cbn [length replicate ws_run ws_step]. unfold ws_step. rewrite bool_decide_false by (by rewrite He; apply dec_stable; naive_solver).
    rewrite Hp. cbn [mbind option_bind]. unfold ws_turn. rewrite Ha, <-Hq, Hd, app_nil_r. eexists. split; [done|].
    destruct (ws_failed s); [done|]. by destruct (ws_sawCompletion s).
  - cbn [length replicate]. change (WsTurn :: WsTurn :: replicate (length q) WsTurn) with (WsTurn :: replicate (S (length q)) WsTurn).
    cbn [ws_run]. unfold ws_step at 1. rewrite bool_decide_false by (by rewrite He; apply dec_stable; naive_solver). rewrite Hp. cbn [mbind option_bind].
    set (s1 := ws_turn s). assert (H1 : s1 = WsState q false (ws_done s) (ws_failed s) (ws_sawCompletion s) (ws_aborted s) (ws_yielded s ++ [v]) (ws_ended s)).
    { unfold s1, ws_turn. by rewrite Ha, <-Hq. }
    destruct (IH s1) as (s' & Hr & Hy & Hend); rewrite H1 in *; try done. exists s'. split; [done|]. cbn in Hy, Hend. rewrite <-app_assoc in Hy. done.
Qed.
End Facts.

(** The messages of a WebSocket are read once and in order, whatever comes
    between them: at every moment those given out and those in the queue are those
    received; the loop never sleeps while there is something to do; it ends without
    an error only after the completion of the response, with everything given out;
    and once the response is complete or the socket is closed, it gives out the rest
    and ends, with the failure if there was one. *)
Theorem codex_socket_read syntax_error aborted evs s :
  ws_run syntax_error (ws_init aborted) evs = Some s ->
  ws_yielded s ++ ws_queue s = omap ws_received evs /\
  (ws_pending s = true -> ws_queue s = [] /\ ws_done s = false) /\
  (ws_ended s = Some None -> ws_yielded s = omap ws_received evs /\ existsb ends_stream (ws_yielded s) = true) /\
  (ws_ended s = None -> ws_done s = true -> ws_aborted s = false ->
   exists n s', ws_run syntax_error s (replicate n WsTurn) = Some s' /\ ws_yielded s' = omap ws_received evs /\
     exists r, ws_ended s' = Some r /\ (r = None <-> ws_failed s = None /\ existsb ends_stream (omap ws_received evs) = true)).
Proof.
  intros Hr. assert (Hok : ws_ok (omap ws_received evs) s).
  { apply (ws_ok_run syntax_error evs [] (ws_init aborted)); [|done]. constructor; done. }
  destruct Hok as [Ho Hw Hs Hd Hn]. split; [done|]. split; [done|]. split.
  - intros He. destruct (Hn He) as (Hq & Hc & _). rewrite Hq, app_nil_r in Ho. rewrite Ho, <-Hs. done.
  - intros He Hdone Ha. assert (Hp : ws_pending s = false) by (destruct (ws_pending s); [|done]; destruct (Hw eq_refl); congruence).
    destruct (ws_finishes syntax_error s He Hp Hdone Ha) as (s' & Hrun & Hy & Hend). exists (S (length (ws_queue s))), s'.
    split; [done|]. split; [congruence|]. eexists. split; [exact Hend|]. rewrite Hs.
    destruct (ws_failed s); [naive_solver|]. destruct (existsb ends_stream _); naive_solver.
Qed.

Definition ws_sample : list ws_event :=
  let text t := js "{" ++ [34] ++ js "type" ++ [34] ++ js ":" ++ [34] ++ js t ++ [34] ++ js "}" in
  [WsTurn; WsMessage (Some (text "response.created"%string)); WsTurn; WsTurn; WsMessage None; WsMessage (Some (text "response.done"%string));
   WsClose (OtherError (js "closed"))].

Lemma codex_socket_read_witness :
  exists s, ws_run (fun _ => []) (ws_init false) ws_sample = Some s /\
    (exists n s', ws_run (fun _ => []) s (replicate n WsTurn) = Some s' /\ ws_ended s' = Some None).
Proof.
  eexists. split; [vm_compute; reflexivity|].
  destruct (codex_socket_read (fun _ => []) false ws_sample _ ltac:(vm_compute; reflexivity)) as (_ & _ & _ & H).
  destruct (H eq_refl eq_refl eq_refl) as (n & s' & Hr & _ & r & He & Hn). exists n, s'. split; [exact Hr|]. rewrite He. f_equal. apply Hn.
  split; vm_compute; reflexivity.
Defined.
