(* ===== verification/CodexStream.v ===== *)
(** The stream of the Codex provider
    (pi [packages/ai/dist/api/openai-codex-responses.js], [stream]): a request over
    a WebSocket with two kinds of retries, the fallback to HTTP with its own
    retries, and the events of the response.  What the transports answer is a
    script of the attempts; the signal, the sleeps, [Date.parse] and the engine's
    texts are parameters. *)
From S2P Require Import Prelude Utf8 Numbers Json JsonText Messages TransformMessages Regex ProviderErrors JsonRepair Sse ConstrainedSampling EventStream Models Faux Estimate AnthropicMessages AnthropicStream StreamMonad OpenaiCommon OpenaiCompletions OpenaiStream OpenaiReplay OpenaiResponses ResponsesStream CodexSockets PiBridge FileTools CodexRequest CodexEvents.
Open Scope Z_scope.

(** * Sessions that have given up on WebSockets *)

Definition isWebSocketSseFallbackActive (sessionId : option jstr) (sessions : gset jstr) : bool :=
  match sessionId with Some ((_ :: _) as id) => bool_decide (id ∈ sessions) | _ => false end.

Definition recordWebSocketFailure (sessionId : option jstr) (sessions : gset jstr) : gset jstr :=
  match sessionId with Some ((_ :: _) as id) => {[id]} ∪ sessions | _ => sessions end.

(** * What the transports answer *)

(** An attempt over a WebSocket: no socket, or the events of [mapCodexEvents] and
    how they ended. *)
Inductive ws_answer :=
| WsRefused (e : codex_error)
| WsEvents (events : list response_event) (ending : option codex_error).

(** A request over HTTP: [fetch] or a callback throws, an answer that is not ok,
    or one that is, whose body may be missing. *)
Inductive http_answer :=
| FetchThrows (e : codex_error)
| Answered (status : Z) (headers : list (jstr * jstr)) (statusText text : jstr)
| Good (body : option (list response_event * option codex_error)).

(** The answers to the attempts, in order, with whether the signal was aborted when
    a WebSocket attempt ended, before a request, and during the sleep after it. *)
Record script := Script {
  sc_ws : nat -> ws_answer * bool;
  sc_http : nat -> http_answer;
  sc_before : nat -> bool;
  sc_sleep : nat -> bool;
  sc_aborted : bool
}.

(** * The stream *)

Section Stream.
Context (num_to_string : Q -> jstr) (partial_parse : jstr -> option json) (syntax_error : jstr -> jstr).
Context (toLowerCase : jstr -> jstr) (date_delay : jstr -> jsnum).
Context (m : model) (properties : gmap jstr jstr) (o : codex_options) (now : Z).

Definition pricing : option jstr -> dollars -> dollars := codex_pricing m (co_serviceTier o).
Definition codex_api : jstr := js "openai-codex-responses".
Definition codex_name : jstr := js "Codex".

#[local] Abbreviation process := (processResponsesStream num_to_string partial_parse syntax_error m properties (Some pricing)).
#[local] Abbreviation on_event := (on_response_event num_to_string partial_parse syntax_error m properties (Some pricing)).

(** [output] is shared by the attempts, the variables of
    [processResponsesStream] are not. *)
Definition fresh_slots (s : resp_state) : resp_state :=
  let mt := rp_meta s in
  RespState (rp_blocks s) ∅ ∅
    (Meta (mt_responseId mt) (mt_responseModel mt) (mt_usage mt) (mt_cost mt) (mt_reasoning mt) (mt_stop mt) (mt_rawStop mt) (mt_error mt) false).

Definition other_throw {A} (r : result jstr A) : result codex_error A := match r with Ok a => Ok a | Throw e => Throw (OtherError e) end.

(** [processResponsesStream] on events that end so. *)
Definition codex_process (events : list response_event) (ending : option codex_error) (s : resp_state)
  : list event * resp_state * result codex_error () :=
  match ending with
  | None => let '(es, s, r) := process events (Ok ()) s in (es, s, other_throw r)
  | Some e =>
      let '(es, s, r) := each_m on_event events s in
      (es, s, match r with Throw t => Throw (OtherError t) | Ok _ => Throw e end)
  end.

(** What was streamed, [output], and [startEmitted]. *)
Record codex_progress := Progress { pg_events : list event; pg_state : resp_state; pg_started : bool }.

Definition no_progress : codex_progress := Progress [] resp_init false.

(** The response and what follows it; [assertSuccessfulOutput] included. *)
Definition codex_respond (events : list response_event) (ending : option codex_error) (aborted : bool) (p : codex_progress)
  : codex_progress * result codex_error stop_reason :=
  let '(es, s, r) := codex_process events ending (fresh_slots (pg_state p)) in
  (Progress (pg_events p ++ es) s (pg_started p),
   match r with Throw e => Throw e | Ok _ => other_throw (response_reason codex_name aborted s) end).

Definition push_start (p : codex_progress) : codex_progress :=
  if pg_started p then p else Progress (pg_events p ++ [EvStart]) (pg_state p) true.

(** ** Over a WebSocket *)

(** One attempt: what it leaves, [websocketStarted], and how it ended. *)
Definition ws_attempt (answer : ws_answer) (aborted : bool) (p : codex_progress) : codex_progress * bool * result codex_error stop_reason :=
  match answer with
  | WsRefused e => (p, false, Throw e)
  | WsEvents [] ending => let '(p, r) := codex_respond [] ending aborted p in (p, false, r)
  | WsEvents events ending => let '(p, r) := codex_respond events ending aborted (push_start p) in (p, true, r)
  end.

(** How the loop ends: with a response, an error ([failure]: the session gives up
    on WebSockets), or the fallback. *)
Inductive ws_outcome := WsDone (stop : stop_reason) | WsThrow (e : codex_error) (failure : bool) | WsFallback (e : codex_error).

(** The loop, with the number of attempts.  Each repetition sets one of the two
    flags, so three turns are enough. *)
Fixpoint ws_loop (sc : script) (fuel k : nat) (missing limit : bool) (p : codex_progress) : nat * codex_progress * ws_outcome :=
  match fuel with
  | O => (k, p, WsThrow codex_aborted false)
  | S fuel =>
      let '(answer, aborted) := sc_ws sc k in
      let '(p, websocketStarted, r) := ws_attempt answer aborted p in
      match r with
      | Ok stop => (S k, p, WsDone stop)
      | Throw e =>
          let connectionLimitBeforeStart := negb websocketStarted && isWebSocketConnectionLimitReachedError e in
          if negb aborted && isPreviousResponseNotFoundError e && negb missing then ws_loop sc fuel (S k) true limit p
          else if negb aborted && connectionLimitBeforeStart && negb limit then ws_loop sc fuel (S k) missing true p
          else if aborted || (isCodexNonTransportError e && negb connectionLimitBeforeStart) then (S k, p, WsThrow e false)
          else if websocketStarted then (S k, p, WsThrow e true)
          else (S k, p, WsFallback e)
      end
  end.

(** ** Over HTTP *)

Definition backoff (k : nat) : jsnum := Finite (inject_Z (BASE_DELAY_MS * 2 ^ Z.of_nat k)).

Definition is_abort (e : codex_error) : bool :=
  match e with AbortedFetch _ => true | _ => streq (error_message e) (js "Request was aborted") end.

Definition worth_retrying (e : codex_error) : bool :=
  match e with RetryDelayExceededError _ => false | _ => negb (includes (js "usage limit") (error_message e)) end.

(** The loop: the requests made, the sleeps, and the body or the error. *)
Fixpoint http_loop (sc : script) (remaining k : nat)
  : nat * list jsnum * result codex_error (option (list response_event * option codex_error)) :=
  if sc_before sc k then (k, [], Throw codex_aborted)
  else
    let sleep_and_retry (delay : jsnum) :=
      match remaining with
      | O => (S k, [], Throw codex_aborted)
      | S remaining =>
          if sc_sleep sc k then (S k, [delay], Throw codex_aborted)
          else let '(n, sleeps, r) := http_loop sc remaining (S k) in (n, delay :: sleeps, r)
      end in
    let caught (e : codex_error) :=
      if is_abort e then (S k, [], Throw codex_aborted)
      else if (0 <? remaining)%nat && worth_retrying e then sleep_and_retry (backoff k)
      else (S k, [], Throw e) in
    match sc_http sc k with
    | Good body => (S k, [], Ok body)
    | FetchThrows e => caught e
    | Answered status headers statusText text =>
        if (0 <? remaining)%nat && isRetryableError2 status text then
          match getRetryAfterDelayMs date_delay headers with
          | None => sleep_and_retry (backoff k)
          | Some d =>
              match validateRetryDelayMs d (co_maxRetryDelayMs o) with
              | Ok d => sleep_and_retry d
              | Throw t => caught (RetryDelayExceededError t)
              end
          end
        else
          let '(message, friendly) := parseErrorResponse num_to_string toLowerCase now status statusText text in
          caught (OtherError (if truthy (nullish friendly []) then nullish friendly [] else message))
    end.

(** ** The whole *)

(** What a call did besides: attempts, requests, sleeps, and the sessions that have
    given up on WebSockets. *)
Record report := Report { rp_attempts : nat; rp_requests : nat; rp_sleeps : list jsnum; rp_sessions : gset jstr }.

Definition finish_done (p : codex_progress) (stop : stop_reason) : list event * assistant :=
  let msg := response_message m codex_api now (pg_state p) stop (mt_error (rp_meta (pg_state p))) in
  (pg_events p ++ [EvDone stop msg], msg).

Definition finish_error (aborted : bool) (p : codex_progress) (e : codex_error) : list event * assistant :=
  response_failure m codex_api now aborted (pg_events p) (pg_state p) (error_message e).

Definition codex_http (sc : script) (p : codex_progress) (attempts : nat) (sessions : gset jstr) : list event * assistant * report :=
  let '(requests, sleeps, r) := http_loop sc (nullish (co_maxRetries o) O) O in
  let rep := Report attempts requests sleeps sessions in
  match r with
  | Throw e => (finish_error (sc_aborted sc) p e, rep)
  | Ok None => (finish_error (sc_aborted sc) p (OtherError (js "No response body")), rep)
  | Ok (Some (events, ending)) =>
      let '(p, r) := codex_respond events ending (sc_aborted sc) (push_start p) in
      match r with
      | Ok stop => (finish_done p stop, rep)
      | Throw e => (finish_error (sc_aborted sc) p e, rep)
      end
  end.

Definition cache_session : option jstr := if bool_decide (co_cacheRetention o = Some NoCache) then None else co_sessionId o.

(** Whether a request over a cached WebSocket may continue the previous response.
    A transport that is not set is ["auto"] elsewhere, but not here. *)
Definition useCachedContext : bool :=
  bool_decide (co_transport o = Some (js "websocket-cached")) || bool_decide (co_transport o = Some (js "auto")).

(** [setup] is how the part before the transports went: the key, the account, the
    body and the timeouts. *)
Definition codex_stream (setup : result jstr ()) (sc : script) (sessions : gset jstr) : list event * assistant * report :=
  match setup with
  | Throw e => (finish_error (sc_aborted sc) no_progress (OtherError e), Report O O [] sessions)
  | Ok _ =>
      let transport := if truthy_opt (co_transport o) then nullish (co_transport o) [] else js "auto" in
      if streq transport (js "sse") || isWebSocketSseFallbackActive cache_session sessions then codex_http sc no_progress O sessions
      else
        let '(attempts, p, r) := ws_loop sc 3 O false false no_progress in
        match r with
        | WsDone stop => (finish_done p stop, Report attempts O [] sessions)
        | WsThrow e failure =>
            (finish_error (sc_aborted sc) p e,
             Report attempts O [] (if failure then recordWebSocketFailure cache_session sessions else sessions))
        | WsFallback e => codex_http sc p attempts (recordWebSocketFailure cache_session sessions)
        end
  end.
End Stream.

(** ** The call *)

Section Call.
Context (num_to_string : Q -> jstr) (partial_parse : jstr -> option json) (syntax_error : jstr -> jstr).
Context (toLowerCase : jstr -> jstr) (date_delay : jstr -> jsnum) (userAgent uuid : jstr).
Context (m : model) (c : option responses_options_compat) (o : codex_options) (now : Z).
(** [options.onPayload], which may replace the body. *)
Context (onPayload : list (jstr * json) -> result jstr (list (jstr * json))).

(** What is sent: the body, the headers of both transports, and the properties of
    the grammar tools. *)
Record codex_sent := CodexSent {
  se_body : list (jstr * json); se_sse : list (jstr * jstr); se_ws : list (jstr * jstr); se_properties : gmap jstr jstr
}.

Definition codex_setup (apiKey systemPrompt : option jstr) (messages : list raw_message) (tools : option (list api_tool))
    (timeoutMs websocketConnectTimeoutMs : option jsnum) : result jstr codex_sent :=
  if negb (truthy_opt apiKey) then Throw (js "No API key for provider: " ++ m_provider m)
  else
    let apiKey := nullish apiKey [] in
    let! account := extractAccountId apiKey in
    let accountId := to_string num_to_string account in
    let! properties := createGrammarToolInputProperties (map at_tool <$> tools) (nullish (c ≫= rco_grammarTools) false) in
    let codexSessionId := clampOpenAIPromptCacheKey (cache_session o) in
    let! body := buildRequestBody num_to_string syntax_error m c properties now systemPrompt messages tools o codexSessionId in
    let! body := onPayload body in
    let websocketRequestId := if truthy_opt codexSessionId then nullish codexSessionId [] else uuid in
    let sse := buildSSEHeaders userAgent (m_headers m) (co_headers o) accountId apiKey codexSessionId in
    let ws := buildWebSocketHeaders userAgent (m_headers m) (co_headers o) accountId apiKey websocketRequestId in
    let! _ := normalizeTimeoutMs num_to_string timeoutMs in
    let! _ := normalizeTimeoutMs num_to_string websocketConnectTimeoutMs in
    Ok (CodexSent body sse ws properties).

Definition stream9 (apiKey systemPrompt : option jstr) (messages : list raw_message) (tools : option (list api_tool))
    (timeoutMs websocketConnectTimeoutMs : option jsnum) (sc : script) (sessions : gset jstr) : list event * assistant * report :=
  match codex_setup apiKey systemPrompt messages tools timeoutMs websocketConnectTimeoutMs with
  | Throw e => codex_stream num_to_string partial_parse syntax_error toLowerCase date_delay m ∅ o now (Throw e) sc sessions
  | Ok sent => codex_stream num_to_string partial_parse syntax_error toLowerCase date_delay m (se_properties sent) o now (Ok ()) sc sessions
  end.

(** The reasoning effort of [streamSimple]. *)
Definition simple_effort8 (reasoning : option jstr) : option jstr :=
  let clamped := if truthy_opt reasoning then clampThinkingLevel m <$> reasoning else None in
  if bool_decide (clamped = Some (js "off")) then None else clamped.
End Call.

(** * Facts *)

Section Facts.
Context (num_to_string : Q -> jstr) (partial_parse : jstr -> option json) (syntax_error : jstr -> jstr).
Context (toLowerCase : jstr -> jstr) (date_delay : jstr -> jsnum).
Context (m : model) (properties : gmap jstr jstr) (o : codex_options) (now : Z).
#[local] Abbreviation cprocess := (codex_process num_to_string partial_parse syntax_error m properties o).
#[local] Abbreviation crespond := (codex_respond num_to_string partial_parse syntax_error m properties o).
#[local] Abbreviation cattempt := (ws_attempt num_to_string partial_parse syntax_error m properties o).
#[local] Abbreviation cws := (ws_loop num_to_string partial_parse syntax_error m properties o).
#[local] Abbreviation chttp := (http_loop num_to_string toLowerCase date_delay o now).
#[local] Abbreviation cstream := (codex_stream num_to_string partial_parse syntax_error toLowerCase date_delay m properties o now).
#[local] Abbreviation ccodex_http := (codex_http num_to_string partial_parse syntax_error toLowerCase date_delay m properties o now).

(** The text of an error that carries neither a status nor a body is its message. *)
Lemma plain_error_text t :
  formatProviderError num_to_string (normalizeProviderError num_to_string
    (inl (SdkError t FAbsent FAbsent FAbsent FAbsent FAbsent FAbsent FAbsent))) None = t.
Proof. done. Qed.

(** ** One event ends the stream *)

Lemma process_inner events ending s : Forall inner (cprocess events ending s).1.1.
Proof.
  assert (Hq : emits inner (processResponsesStream num_to_string partial_parse syntax_error m properties (Some (pricing m o)) events (Ok ()))).
  { unfold processResponsesStream. repeat first [apply response_event_quiet | quiet_step]. }
  assert (He : emits inner (each_m (on_response_event num_to_string partial_parse syntax_error m properties (Some (pricing m o))) events)).
  { repeat first [apply response_event_quiet | quiet_step]. }
  unfold codex_process. destruct ending as [e|].
  - specialize (He s). by destruct (each_m _ events s) as [[es s'] r].
  - specialize (Hq s). by destruct (processResponsesStream _ _ _ _ _ _ events (Ok ()) s) as [[es s'] r].
Qed.

(** What was streamed: nothing before [start], which comes once. *)
Definition streamed (p : codex_progress) : Prop :=
  if pg_started p then exists es, pg_events p = EvStart :: es /\ Forall inner es else pg_events p = [].

Lemma respond_streamed events ending aborted p :
  pg_started p = true -> streamed p -> streamed (crespond events ending aborted p).1 /\ pg_started (crespond events ending aborted p).1 = true.
Proof.
  unfold streamed, codex_respond. intros Hs. rewrite Hs. intros (es & He & HF). pose proof (process_inner events ending (fresh_slots (pg_state p))) as Hq.
  destruct (cprocess events ending _) as [[out s] r]. cbn [fst snd pg_started pg_events] in *. rewrite ?Hs. split; [|done].
  exists (es ++ out). split; [by rewrite He|]. by apply Forall_app.
Qed.

Lemma push_start_streamed p : streamed p -> streamed (push_start p) /\ pg_started (push_start p) = true.
Proof.
  unfold push_start, streamed. destruct (pg_started p) eqn:E; [by rewrite E|]. intros He. cbn. rewrite He. split; [|done]. by exists [].
Qed.

(** Without an event nothing happens to the output. *)
Lemma respond_nothing ending aborted p :
  exists e, crespond [] ending aborted p = (Progress (pg_events p) (fresh_slots (pg_state p)) (pg_started p), Throw e).
Proof. unfold codex_respond, codex_process. destruct ending as [e|]; cbn; rewrite app_nil_r; eauto. Qed.

Lemma attempt_streamed answer aborted p :
  streamed p -> let '(p', started, r) := cattempt answer aborted p in streamed p' /\ (pg_started p = true \/ started = true -> pg_started p' = true).
Proof.
  intros Hp. destruct answer as [e|[|ev events] ending]; cbn [ws_attempt].
  - split; [done|]. by intros [?|?].
  - destruct (respond_nothing ending aborted p) as (e & ->). unfold streamed in *. cbn. split; [done|]. by intros [?|?].
  - destruct (push_start_streamed p Hp) as [H1 H2]. destruct (respond_streamed (ev :: events) ending aborted _ H2 H1) as [H3 H4].
    destruct (crespond _ _ _ _) as [p' r]. done.
Qed.

Lemma loop_streamed sc fuel : forall k missing limit p, streamed p -> streamed (cws sc fuel k missing limit p).1.2.
Proof.
  induction fuel as [|fuel IH]; intros k missing limit p Hp; [done|]. cbn [ws_loop]. destruct (sc_ws sc k) as [answer aborted].
  pose proof (attempt_streamed answer aborted p Hp) as H. destruct (cattempt answer aborted p) as [[p' started] r]. destruct H as [H _].
  destruct r as [stop|e]; [done|]. repeat case_match; try done; by apply IH.
Qed.

Lemma codex_finish_ended p e msg :
  streamed p -> isComplete e = true -> extractResult e = Ok msg -> well_ended (pg_events p ++ [e]) msg.
Proof.
  intros Hp Hc Hr. exists (pg_events p), e. split; [done|]. split; [|done]. unfold streamed in Hp. destruct (pg_started p).
  - destruct Hp as (es & -> & HF). constructor; [done|by apply inner_incomplete].
  - rewrite Hp. constructor.
Qed.

(** A stream that ends, with what precedes its end. *)
Definition good_stream (x : list event * assistant) : Prop := exists p e, x.1 = pg_events p ++ [e] /\ streamed p /\ isComplete e = true /\ extractResult e = Ok x.2.

Lemma finish_done_good p stop : streamed p -> (stop ≠ Error /\ stop ≠ Aborted) -> good_stream (finish_done m now p stop).
Proof. intros Hp Hs. exists p. eexists. split; [done|]. split; [done|]. done. Qed.

Lemma finish_error_good aborted p e : streamed p -> good_stream (finish_error m now aborted p e).
Proof. intros Hp. exists p. eexists. split; [done|]. split; [done|]. done. Qed.

Lemma respond_reason events ending aborted p p' stop :
  crespond events ending aborted p = (p', Ok stop) -> stop ≠ Error /\ stop ≠ Aborted.
Proof.
  unfold codex_respond. destruct (cprocess _ _ _) as [[es s] r]. destruct r; [|done]. unfold response_reason. destruct aborted; [done|].
  destruct (mt_stop (rp_meta s)) as [[]|]; cbn; intros; by simplify_eq.
Qed.

(** ** Attempts *)

Definition flags_left (missing limit : bool) : nat := ((if missing then 0 else 1) + (if limit then 0 else 1))%nat.

(** The fuel of the loop is enough: more changes nothing. *)
Lemma ws_loop_fuel sc f1 : forall f2 k missing limit p,
  (flags_left missing limit < f1)%nat -> (flags_left missing limit < f2)%nat -> cws sc f1 k missing limit p = cws sc f2 k missing limit p.
Proof.
  induction f1 as [|f1 IH]; intros [|f2] k missing limit p H1 H2; [lia..|]. cbn [ws_loop]. destruct (sc_ws sc k) as [answer aborted].
  destruct (cattempt answer aborted p) as [[p' started] [stop|e]]; [done|].
  destruct (negb aborted && _ && negb missing) eqn:E1.
  - bool_to_prop. subst missing. unfold flags_left in *. destruct limit; apply IH; cbn in *; lia.
  - destruct (negb aborted && _ && negb limit) eqn:E2; [|done]. bool_to_prop. subst limit. unfold flags_left in *.
    destruct missing; apply IH; cbn in *; lia.
Qed.

Lemma ws_loop_attempts sc fuel : forall k missing limit p, ((cws sc fuel k missing limit p).1.1 <= k + fuel)%nat.
Proof.
  induction fuel as [|fuel IH]; intros k missing limit p; cbn [ws_loop]; [cbn; lia|]. destruct (sc_ws sc k) as [answer aborted].
  destruct (cattempt answer aborted p) as [[p' started] [stop|e]]; [cbn; lia|].
  repeat case_match; cbn [fst]; try lia; (etrans; [apply IH|lia]).
Qed.

Lemma http_loop_bounds sc remaining : forall k,
  ((chttp sc remaining k).1.1 <= k + S remaining)%nat /\ (length (chttp sc remaining k).1.2 <= remaining)%nat.
Proof.
  assert (Hsleep : forall n k d, (forall k, ((chttp sc n k).1.1 <= k + S n)%nat /\ (length (chttp sc n k).1.2 <= n)%nat) ->
    let x := if sc_sleep sc k then (S k, [d], Throw codex_aborted) else let '(a, sleeps, r) := chttp sc n (S k) in (a, d :: sleeps, r) in
    (x.1.1 <= k + S (S n))%nat /\ (length x.1.2 <= S n)%nat).
  { intros n k d H. cbn zeta. destruct (sc_sleep sc k); [cbn; lia|]. specialize (H (S k)). destruct (chttp sc n (S k)) as [[a sleeps] r].
    cbn in *. lia. }
  induction remaining as [|n IH]; intros k; cbn [http_loop]; (destruct (sc_before sc k); [cbn; lia|]); cbn [Nat.ltb Nat.leb andb];
    (destruct (sc_http sc k) as [e|status headers statusText text|body]; [| |cbn; lia]).
  - destruct (is_abort e); cbn; lia.
  - destruct (parseErrorResponse _ _ _ _ _ _) as [message friendly]. destruct (is_abort _); cbn; lia.
  - destruct (is_abort e); [cbn; lia|]. destruct (worth_retrying e); [|cbn; lia]. by apply Hsleep.
  - destruct (isRetryableError2 status text).
    + destruct (getRetryAfterDelayMs _ _) as [d|]; [|by apply Hsleep]. destruct (validateRetryDelayMs _ _) as [d'|t]; [by apply Hsleep|].
      destruct (is_abort _); [cbn; lia|]. cbn [worth_retrying]. cbn. lia.
    + destruct (parseErrorResponse _ _ _ _ _ _) as [message friendly]. destruct (is_abort _); [cbn; lia|].
      destruct (worth_retrying _); [|cbn; lia]. by apply Hsleep.
Qed.

Lemma ws_loop_done sc fuel : forall k missing limit p n p' stop,
  cws sc fuel k missing limit p = (n, p', WsDone stop) -> stop ≠ Error /\ stop ≠ Aborted.
Proof.
  induction fuel as [|fuel IH]; intros k missing limit p n p' stop; cbn [ws_loop]; [done|]. destruct (sc_ws sc k) as [answer aborted].
  destruct (cattempt answer aborted p) as [[p1 started] [stop'|e]] eqn:E.
  - intros [= <- <- <-]. destruct answer as [e|[|ev events] ending]; cbn [ws_attempt] in E; [done|..].
    + destruct (crespond [] ending aborted p) as [p2 r] eqn:Er. simplify_eq. by eapply respond_reason.
    + destruct (crespond _ ending aborted _) as [p2 r] eqn:Er. simplify_eq. by eapply respond_reason.
  - repeat case_match; try done; apply IH.
Qed.

Lemma http_good sc p attempts sessions : streamed p -> good_stream (ccodex_http sc p attempts sessions).1.
Proof.
  intros Hp. unfold codex_http. destruct (chttp sc _ _) as [[requests sleeps] r]. destruct r as [[[events ending]|]|e]; [|by apply finish_error_good..].
  destruct (push_start_streamed p Hp) as [H1 H2]. destruct (respond_streamed events ending (sc_aborted sc) _ H2 H1) as [H3 _].
  destruct (crespond events ending _ _) as [p' [stop|e]] eqn:E; [|by apply finish_error_good]. apply finish_done_good; [done|by eapply respond_reason].
Qed.

Lemma stream_good setup sc sessions : good_stream (cstream setup sc sessions).1.
Proof.
  assert (H0 : streamed no_progress) by done. unfold codex_stream. destruct setup as [[]|e]; [|by apply finish_error_good].
  destruct (_ || _); [by apply http_good|]. pose proof (loop_streamed sc 3 0 false false no_progress H0) as Hl.
  destruct (cws sc 3 0 false false no_progress) as [[n p] r] eqn:E. cbn [fst snd] in Hl. destruct r as [stop|e f|e].
  - apply finish_done_good; [done|by eapply ws_loop_done].
  - by apply finish_error_good.
  - by apply http_good.
Qed.

(** The stream of a call ends with one event, its last, which carries the message. *)
Lemma codex_stream_ended setup sc sessions : well_ended (cstream setup sc sessions).1.1 (cstream setup sc sessions).1.2.
Proof. destruct (stream_good setup sc sessions) as (p & e & -> & Hp & Hc & Hr). by apply codex_finish_ended. Qed.

(** ** The transports *)

Definition silent (a : ws_answer) : bool := match a with WsRefused _ | WsEvents [] _ => true | _ => false end.

(** The server says that it does not know the previous response after it has sent a
    part of its answer. *)
Definition cut_short (sc : script) (k : nat) : Prop :=
  exists part e, sc_ws sc k = (WsEvents part (Some e), false) /\ part <> [] /\ isPreviousResponseNotFoundError e = true.

(** The answer a call ended with. *)
Definition last_answer (sc : script) (rep : report) : option (list response_event * option codex_error) :=
  match rp_requests rep, rp_attempts rep with
  | S k, _ => match sc_http sc k with Good body => body | _ => None end
  | O, S k => match (sc_ws sc k).1 with WsEvents events ending => Some (events, ending) | WsRefused _ => None end
  | O, O => None
  end.

Definition ending_text (ending : option codex_error) : result jstr () := match ending with None => Ok () | Some e => Throw (error_message e) end.

(** Nothing was streamed and nothing is in [output]. *)
Definition fresh (p : codex_progress) : Prop := pg_events p = [] /\ pg_started p = false /\ fresh_slots (pg_state p) = resp_init.

Lemma respond_response events ending aborted p :
  fresh p ->
  let '(p', r) := crespond events ending aborted (push_start p) in
  match r with Ok stop => finish_done m now p' stop | Throw e => finish_error m now aborted p' e end =
    response_stream num_to_string partial_parse syntax_error m properties (Some (pricing m o)) codex_api codex_name now (Ok ()) events
      (ending_text ending) aborted.
Proof.
  intros (He & Hs & Hf). unfold push_start. rewrite Hs, He. unfold codex_respond. cbn [pg_state pg_events pg_started]. rewrite Hf.
  unfold response_stream, codex_process, processResponsesStream, bind_m, lift_m, state_m. destruct ending as [e|]; cbn [ending_text].
  - destruct (each_m _ events resp_init) as [[es s] [[]|t]]; cbn; rewrite ?app_nil_r; done.
  - destruct (each_m _ events resp_init) as [[es s] [[]|t]]; cbn; [|done]. destruct (mt_finished (rp_meta s)); cbn; rewrite ?app_nil_r; [|done].
    destruct (response_reason _ _ _) as [stop|t]; done.
Qed.

(** An attempt that gets no event changes nothing. *)
Lemma attempt_silent answer aborted p :
  silent answer = true -> fresh p -> exists p' e, cattempt answer aborted p = (p', false, Throw e) /\ fresh p'.
Proof.
  intros Ha (H1 & H2 & H3). destruct answer as [e|[|ev events] ending]; [by exists p, e| |done].
  cbn [ws_attempt]. destruct (respond_nothing ending aborted p) as (e & ->). eexists _, e. split; [done|]. unfold fresh. cbn. rewrite H3. done.
Qed.

Lemma attempt_loud answer aborted p : silent answer = false -> (cattempt answer aborted p).1.2 = true.
Proof. destruct answer as [e|[|ev events] ending]; try done. intros _. cbn [ws_attempt]. by destruct (crespond _ _ _ _). Qed.

(** After an event, only the server's error can say that a response is missing. *)
Lemma respond_missing events ending aborted p p' e :
  crespond events ending aborted p = (p', Throw e) -> isPreviousResponseNotFoundError e = true -> ending = Some e.
Proof.
  unfold codex_respond, codex_process. destruct ending as [x|].
  - destruct (each_m _ events _) as [[es s] [[]|t]]; intros [= <- <-] H; done.
  - destruct (processResponsesStream _ _ _ _ _ _ events _ _) as [[es s] [[]|t]]; cbn; [|by intros [= <- <-]].
    destruct (response_reason _ _ _); cbn; [done|]. by intros [= <- <-].
Qed.

Lemma loop_more sc fuel k missing limit p n p' r : (0 < fuel)%nat -> cws sc fuel k missing limit p = (n, p', r) -> (k < n)%nat.
Proof.
  revert k missing limit p. induction fuel as [|fuel IH]; intros k missing limit p Hf; [lia|]. cbn [ws_loop].
  destruct (sc_ws sc k) as [answer aborted]. destruct (cattempt answer aborted p) as [[p1 started] [stop|e]]; [intros [= <- _ _]; lia|].
  assert (Hrec : forall a b, cws sc fuel (S k) a b p1 = (n, p', r) -> (k < n)%nat).
  { intros a b H. destruct fuel as [|f]; [injection H as <- _ _; lia|]. apply IH in H; lia. }
  destruct (_ && _ && negb missing); [apply Hrec|]. destruct (_ && _ && negb limit); [apply Hrec|].
  destruct (aborted || _); [intros [= <- _ _]; lia|]. destruct started; intros [= <- _ _]; lia.
Qed.

Lemma loop_answer sc fuel k missing limit p n p' r :
  (flags_left missing limit < fuel)%nat -> fresh p -> cws sc fuel k missing limit p = (n, p', r) ->
  (exists j, (S j < n)%nat /\ cut_short sc j) \/
  exists j p0 started res, n = S j /\ fresh p0 /\ cattempt (sc_ws sc j).1 (sc_ws sc j).2 p0 = (p', started, res) /\
    match r with WsDone stop => res = Ok stop | WsThrow e _ => res = Throw e | WsFallback e => res = Throw e /\ started = false end.
Proof.
  revert k missing limit p. induction fuel as [|fuel IH]; intros k missing limit p Hf Hp; [lia|]. cbn [ws_loop].
  destruct (sc_ws sc k) as [answer aborted] eqn:Ek. destruct (cattempt answer aborted p) as [[p1 started] res] eqn:Ea.
  assert (Hend : forall q, (S k, p1, q) = (n, p', r) ->
    match q with WsDone stop => res = Ok stop | WsThrow e _ => res = Throw e | WsFallback e => res = Throw e /\ started = false end ->
    (exists j, (S j < n)%nat /\ cut_short sc j) \/
    exists j p0 started res, n = S j /\ fresh p0 /\ cattempt (sc_ws sc j).1 (sc_ws sc j).2 p0 = (p', started, res) /\
    match r with WsDone stop => res = Ok stop | WsThrow e _ => res = Throw e | WsFallback e => res = Throw e /\ started = false end).
  { intros q [= <- <- <-] Hq. right. exists k, p, started, res. rewrite Ek. done. }
  destruct res as [stop|e]; [intros H; by eapply Hend|].
  assert (Hsame : silent answer = true -> fresh p1).
  { intros Hs. destruct (attempt_silent answer aborted p Hs Hp) as (p2 & e2 & Ha & H2). rewrite Ha in Ea. by injection Ea as <- _ _. }
  destruct (negb aborted && _ && negb missing) eqn:E1.
  - bool_to_prop. subst missing. destruct (silent answer) eqn:Es.
    { apply IH; [destruct limit; cbn in *; lia|by apply Hsame]. }
    intros Hl. left. exists k. split; [apply loop_more in Hl; [lia|destruct limit; cbn in *; lia]|].
    destruct answer as [e0|[|ev events] ending]; try done. cbn [ws_attempt] in Ea.
    destruct (crespond _ _ _ _) as [p2 r2] eqn:Er. injection Ea as -> <- ->.
    match goal with H : isPreviousResponseNotFoundError e = true |- _ => rewrite (respond_missing _ _ _ _ _ _ Er H) in Ek; exists (ev :: events), e end.
    split_and!; [|done|done]. rewrite Ek. f_equal. done.
  - destruct (negb aborted && _ && negb limit) eqn:E2.
    + bool_to_prop. subst limit. apply IH; [destruct missing; cbn in *; lia|]. apply Hsame. destruct (silent answer) eqn:Es; [done|].
      pose proof (attempt_loud answer aborted p Es) as Hl. rewrite Ea in Hl. cbn in Hl. congruence.
    + destruct (aborted || _); [intros H; by eapply Hend|]. destruct started; intros H; by eapply Hend.
Qed.

(** The loop over HTTP ends with its first good answer. *)
Lemma http_loop_last sc remaining : forall j,
  (forall i body, j = S i -> sc_http sc i <> Good body) ->
  let '(n, _, r) := chttp sc remaining j in
  match r with
  | Ok body => exists k, n = S k /\ sc_http sc k = Good body
  | Throw _ => forall k body, n = S k -> sc_http sc k <> Good body
  end.
Proof.
  assert (Hsleep : forall n j d,
    (forall j, (forall i body, j = S i -> sc_http sc i <> Good body) ->
      let '(n, _, r) := chttp sc n j in
      match r with Ok body => exists k, n = S k /\ sc_http sc k = Good body | Throw _ => forall k body, n = S k -> sc_http sc k <> Good body end) ->
    (forall body, sc_http sc j <> Good body) ->
    let '(n, _, r) := if sc_sleep sc j then (S j, [d], Throw codex_aborted) else let '(a, sl, r) := chttp sc n (S j) in (a, d :: sl, r) in
    match r with Ok body => exists k, n = S k /\ sc_http sc k = Good body | Throw _ => forall k body, n = S k -> sc_http sc k <> Good body end).
  { intros n j d IH Hj. destruct (sc_sleep sc j); [by intros k body [= <-]|].
    specialize (IH (S j)). destruct (chttp sc n (S j)) as [[a sl] r]. apply IH. by intros i body [= <-]. }
  induction remaining as [|n IH]; intros j Hj; cbn [http_loop]; (destruct (sc_before sc j); [by intros k body ->; apply Hj|]);
    cbn [Nat.ltb Nat.leb andb]; (destruct (sc_http sc j) as [e|status headers statusText text|body] eqn:Ej; [| |by exists j]);
    (assert (Hb : forall k body, S j = S k -> sc_http sc k <> Good body) by (intros k body [= <-]; by rewrite Ej)).
  - by destruct (is_abort e).
  - destruct (parseErrorResponse _ _ _ _ _ _) as [message friendly]. by destruct (is_abort _).
  - destruct (is_abort e); [done|]. destruct (worth_retrying e); [|done]. apply Hsleep; [exact IH|]. intros body. by apply Hb.
  - destruct (isRetryableError2 status text).
    + destruct (getRetryAfterDelayMs _ _) as [d|]; [|apply Hsleep; [exact IH|intros body; by apply Hb]].
      destruct (validateRetryDelayMs _ _) as [d'|t]; [apply Hsleep; [exact IH|intros body; by apply Hb]|].
      destruct (is_abort _); done.
    + destruct (parseErrorResponse _ _ _ _ _ _) as [message friendly]. destruct (is_abort _); [done|].
      destruct (worth_retrying _); [|done]. apply Hsleep; [exact IH|]. intros body. by apply Hb.
Qed.

(** What a call over HTTP streams is its body. *)
Lemma http_answer_streamed sc p attempts sessions events ending :
  let rep := (ccodex_http sc p attempts sessions).2 in
  fresh p -> (attempts = O \/ silent (sc_ws sc (pred attempts)).1 = true) ->
  last_answer sc rep = Some (events, ending) -> events <> [] ->
  (ccodex_http sc p attempts sessions).1 =
    response_stream num_to_string partial_parse syntax_error m properties (Some (pricing m o)) codex_api codex_name now (Ok ()) events
      (ending_text ending) (sc_aborted sc).
Proof.
  intros rep Hp Hat. pose proof (http_loop_last sc (nullish (co_maxRetries o) O) O) as Hl. unfold rep, codex_http.
  destruct (chttp sc _ O) as [[requests sleeps] r]. specialize (Hl ltac:(done)).
  destruct r as [[[es end']|]|e]; cbn [fst snd].
  - destruct Hl as (k & -> & Hk). pose proof (respond_response es end' (sc_aborted sc) p Hp) as H.
    destruct (crespond _ _ _ _) as [p' [stop|e]]; cbn [fst snd]; unfold last_answer; cbn [rp_requests]; rewrite Hk; intros [= <- <-] _; exact H.
  - destruct Hl as (k & -> & Hk). unfold last_answer. cbn [rp_requests]. by rewrite Hk.
  - unfold last_answer. cbn [rp_requests rp_attempts]. destruct requests as [|k].
    + destruct attempts as [|j]; [done|]. destruct Hat as [?|Hs]; [done|]. cbn in Hs. destruct (sc_ws sc j).1 as [|[] ?]; try done. intros [= <- <-]. done.
    + destruct (sc_http sc k) as [| |body] eqn:Ek; [done..|]. by apply (Hl k body) in Ek.
Qed.

(** What an attempt that got events streams is these. *)
Lemma attempt_response answer aborted p p' started res events ending :
  fresh p -> cattempt answer aborted p = (p', started, res) -> answer = WsEvents events ending -> events <> [] ->
  match res with Ok stop => finish_done m now p' stop | Throw e => finish_error m now aborted p' e end =
    response_stream num_to_string partial_parse syntax_error m properties (Some (pricing m o)) codex_api codex_name now (Ok ()) events
      (ending_text ending) aborted.
Proof.
  intros Hp Ha -> Hne. pose proof (respond_response events ending aborted p Hp) as H. destruct events as [|ev events]; [done|].
  cbn [ws_attempt] in Ha. destruct (crespond _ _ _ _) as [p2 r]. by injection Ha as <- _ <-.
Qed.

Lemma http_bounds sc p attempts sessions :
  let rep := (ccodex_http sc p attempts sessions).2 in
  rp_attempts rep = attempts /\ (rp_requests rep <= S (nullish (co_maxRetries o) O))%nat /\ (length (rp_sleeps rep) <= nullish (co_maxRetries o) O)%nat.
Proof.
  intros rep. pose proof (http_loop_bounds sc (nullish (co_maxRetries o) O) O) as H. unfold rep, codex_http.
  destruct (chttp sc _ O) as [[requests sleeps] r]. cbn in H. repeat case_match; cbn; split; (done || lia).
Qed.

Lemma stream_bounds setup sc sessions :
  let rep := (cstream setup sc sessions).2 in
  (rp_attempts rep <= 3)%nat /\ (rp_requests rep <= S (nullish (co_maxRetries o) O))%nat /\ (length (rp_sleeps rep) <= nullish (co_maxRetries o) O)%nat.
Proof.
  intros rep. unfold rep, codex_stream. destruct setup as [[]|e]; [|cbn; lia].
  destruct (_ || _); [destruct (http_bounds sc no_progress O sessions) as (-> & H); split; [lia|done]|].
  pose proof (ws_loop_attempts sc 3 0 false false no_progress) as Hn. destruct (cws sc 3 O false false no_progress) as [[n p] r]. cbn [fst] in Hn.
  destruct r as [stop|e f|e]; [cbn; lia..|]. destruct (http_bounds sc p n (recordWebSocketFailure (cache_session o) sessions)) as (-> & H). split; [lia|done].
Qed.

(** C30: The stream of a call is orderly, whatever the transports answer: nothing
    precedes [start], which comes at most once for all attempts and transports;
    one event ends the stream, its last, which carries the message; there are at
    most three attempts over a WebSocket, one request more than the retries, and no
    more sleeps than retries; and more turns of the loop would change nothing. *)
Theorem codex_stream_orderly setup sc sessions :
  let '(es, msg, rep) := cstream setup sc sessions in
  (exists init e, es = init ++ [e] /\ isComplete e = true /\ extractResult e = Ok msg /\
    (init = [] \/ exists rest, init = EvStart :: rest /\ Forall inner rest)) /\
  (rp_attempts rep <= 3)%nat /\
  (rp_requests rep <= S (nullish (co_maxRetries o) O))%nat /\
  (length (rp_sleeps rep) <= nullish (co_maxRetries o) O)%nat /\
  forall fuel, (3 <= fuel)%nat -> cws sc fuel O false false no_progress = cws sc 3 O false false no_progress.
Proof.
  pose proof (stream_good setup sc sessions) as (p & e & H1 & H2 & H3 & H4). pose proof (stream_bounds setup sc sessions) as (H5 & H6 & H7).
  destruct (cstream setup sc sessions) as [[es msg] rep]. cbn [fst snd] in *. repeat split; try done.
  - exists (pg_events p), e. repeat split; try done. unfold streamed in H2. destruct (pg_started p); [right|left]; done.
  - intros fuel Hf. apply ws_loop_fuel; cbn; lia.
Qed.

End Facts.

(** * Examples *)

Definition example_options (transport : string) : codex_options :=
  CodexOptions None None None None None None (Some (js "session")) None None (Some (js transport)) (Some 2%nat) None.

(** No WebSocket can be opened, the service is overloaded once, and then answers. *)
Definition fallback_script : script :=
  Script (fun _ => (WsRefused (OtherError (js "connect")), false))
    (fun k => match k with O => Answered 503 [] [] (js "overloaded") | _ => Good (Some (ResponsesStream.sample_events, None)) end)
    (fun _ => false) (fun _ => false) false.

Definition example_call (transport : string) (sc : script) : list event * assistant * report :=
  codex_stream int_num_str (fun _ => Some (JObj [])) (fun _ => []) (fun t => t) (fun _ => NaN) response_model ∅ (example_options transport) 7
    (Ok ()) sc ∅.


(** A request that is refused for good is repeated like any other: the error of an
    answer that is not worth a retry is thrown inside the [try] whose [catch]
    retries. *)
Example unauthorized_repeated :
  let sc := Script (fun _ => (WsRefused (OtherError []), false)) (fun _ => Answered 401 [] (js "Unauthorized") (js "{}"))
              (fun _ => false) (fun _ => false) false in
  isRetryableError2 401 (js "{}") = false /\ rp_requests (example_call "sse" sc).2 = 3%nat /\
  rp_sleeps (example_call "sse" sc).2 = [Finite 1000; Finite 2000].
Proof. vm_compute. done. Qed.

(** A response that a filter ended counts as a failure of the transport: the
    session gives up on WebSockets, though this one worked. *)
Example filtered_response_blamed :
  let filtered := ResponsesStream.Response (Some (js "resp_1")) (Some (js "incomplete")) (Some (js "content_filter")) [] None None in
  let sc := Script (fun _ => (WsEvents [ResponseEnded filtered] None, false)) (fun _ => FetchThrows (OtherError []))
              (fun _ => false) (fun _ => false) false in
  a_errorMessage (example_call "auto" sc).1.2 = Some (js "Response incomplete: content_filter") /\
  isWebSocketSseFallbackActive (Some (js "session")) (rp_sessions (example_call "auto" sc).2) = true.
Proof. vm_compute. done. Qed.

(** When the server misses the previous response after it has sent a part of its
    answer, the repeated request is streamed behind that part. *)
Example repeated_after_a_part :
  let missing := CodexApiError (js "gone") (Some (JStr PREVIOUS_RESPONSE_NOT_FOUND_CODE)) in
  let sc := Script (fun k => (match k with O => WsEvents ResponsesStream.sample_body (Some missing) | _ => WsEvents ResponsesStream.sample_events None end, false))
              (fun _ => FetchThrows (OtherError [])) (fun _ => false) (fun _ => false) false in
  rp_attempts (example_call "auto" sc).2 = 2%nat /\
  omap (fun b => match b with BText t _ => Some t | _ => None end) (a_content (example_call "auto" sc).1.2) = [js "Hello"; js "Hello"].
Proof. vm_compute. done. Qed.

(** A transport that is not set is ["auto"], except for the context a WebSocket
    remembers, which is then sent again with every request. *)
Example unset_transport_forgets :
  let sc := Script (fun _ => (WsEvents ResponsesStream.sample_events None, false)) (fun _ => FetchThrows (OtherError []))
              (fun _ => false) (fun _ => false) false in
  let unset := CodexOptions None None None None None None (Some (js "session")) None None None None None in
  useCachedContext unset = false /\ useCachedContext (example_options "auto") = true /\
  rp_attempts (codex_stream int_num_str (fun _ => Some (JObj [])) (fun _ => []) (fun t => t) (fun _ => NaN) response_model ∅ unset 7 (Ok ()) sc ∅).2 =
    rp_attempts (example_call "auto" sc).2.
Proof. vm_compute. done. Qed.
