(* ===== verification/Providers.v ===== *)
(** What a provider promises to the registry and the bridge, as an interface:
    every stream it starts ends, with exactly one terminal event, the last,
    which carries the stream's result.  The scripted provider, the Anthropic,
    OpenAI completions, OpenAI responses, Google, Mistral and Codex providers and the failures of
    [lazyStream] implement it; what the bridge reads from a stream of [Models.streamSimple]
    (src/drivers/tools/pibridge/bridge.mjs) is proved against it. *)
From S2P Require Import Prelude Numbers Json Messages Regex Models EventStream Faux AnthropicMessages AnthropicStream OpenaiStream OpenaiResponses ResponsesStream GoogleStream MistralStream CodexRequest CodexEvents CodexStream.
Open Scope Z_scope.

Class StreamSource (A : Type) := {
  source_events : A -> list event;
  source_result : A -> assistant;
  source_ended : forall a, well_ended (source_events a) (source_result a)
}.

(** A call of the scripted provider. *)
Record faux_call := FauxCall {
  fc_api : jstr; fc_provider : jstr; fc_random : Z -> nat -> Z; fc_now : Z; fc_model : model;
  fc_context : context; fc_options : stream_options; fc_abort_at : option nat; fc_state : faux
}.

Definition run_faux (c : faux_call) : list event * assistant * faux :=
  faux_stream int_num_str (fc_api c) (fc_provider c) (fc_random c) (fc_now c) (fc_model c) (fc_context c)
    (fc_options c) (fc_abort_at c) (fc_state c).

Lemma run_faux_ended c : well_ended (run_faux c).1.1 (run_faux c).1.2.
Proof.
  unfold run_faux, faux_stream.
  assert (forall m, well_ended [EvError Error m] m) as Hf by (intros m; by eexists [], _).
  destruct (pendingResponses (fc_state c)) as [|step rest];
    (destruct (withUsageEstimate _ _ _ _ _) as [[message cache]|e]; [|apply Hf]); [apply Hf|].
  pose proof (streamWithDeltas_ends int_num_str (fc_random c) DEFAULT_MIN_TOKEN_SIZE (fc_now c) message (fc_abort_at c)) as H.
  destruct (streamWithDeltas _ _ _ _ _ _) as [es r]. by destruct H.
Qed.

#[export] Instance faux_source : StreamSource faux_call := {
  source_events c := (run_faux c).1.1;
  source_result c := (run_faux c).1.2;
  source_ended := run_faux_ended
}.

(** A call of the Anthropic provider: how the request went, the events of the
    response and how they ended. *)
Record anthropic_call := AnthropicCall {
  an_lower : jstr -> jstr; an_partial_parse : jstr -> option json; an_model : model; an_compat : option compat;
  an_tools : option (list api_tool); an_oauth : bool; an_now : Z;
  an_setup : result jstr (); an_events : list api_event; an_ending : result jstr (); an_aborted : bool
}.

Definition run_anthropic (c : anthropic_call) : list event * assistant :=
  anthropic_stream (an_lower c) (an_partial_parse c) (an_model c) (an_compat c) (an_tools c) (an_oauth c) (an_now c)
    (an_setup c) (an_events c) (an_ending c) (an_aborted c).

#[export] Instance anthropic_source : StreamSource anthropic_call := {
  source_events c := (run_anthropic c).1;
  source_result c := (run_anthropic c).2;
  source_ended c := anthropic_stream_ended _ _ _ _ _ _ _ _ _ _ _
}.

(** A call of a chat completions provider. *)
Record chat_call := ChatCall {
  cc_print : Q -> jstr; cc_partial_parse : jstr -> option json; cc_model : model; cc_properties : gmap jstr jstr;
  cc_finishReason : bool; cc_now : Z;
  cc_setup : result jstr (); cc_chunks : list chunk; cc_ending : result jstr (); cc_aborted : bool
}.

Definition run_chat (c : chat_call) : list event * assistant :=
  chat_stream (cc_print c) (cc_partial_parse c) (cc_model c) (cc_properties c) (cc_finishReason c) (cc_now c)
    (cc_setup c) (cc_chunks c) (cc_ending c) (cc_aborted c).

#[export] Instance chat_source : StreamSource chat_call := {
  source_events c := (run_chat c).1;
  source_result c := (run_chat c).2;
  source_ended c := openai_stream_ended _ _ _ _ _ _ _ _ _ _
}.

(** A call of a responses API, with the response it gets. *)
Record response_call := ResponseCall {
  rc_print : Q -> jstr; rc_partial_parse : jstr -> option json; rc_syntax_error : jstr -> jstr; rc_model : model;
  rc_properties : gmap jstr jstr; rc_tierPricing : option (option jstr -> dollars -> dollars); rc_api : jstr; rc_providerName : jstr; rc_now : Z;
  rc_setup : result jstr (); rc_events : list response_event; rc_ending : result jstr (); rc_aborted : bool
}.

Definition run_response (c : response_call) : list event * assistant :=
  response_stream (rc_print c) (rc_partial_parse c) (rc_syntax_error c) (rc_model c) (rc_properties c) (rc_tierPricing c)
    (rc_api c) (rc_providerName c) (rc_now c) (rc_setup c) (rc_events c) (rc_ending c) (rc_aborted c).

#[export] Instance response_source : StreamSource response_call := {
  source_events c := (run_response c).1;
  source_result c := (run_response c).2;
  source_ended c := responses_stream_ended _ _ _ _ _ _ _ _ _ _ _ _ _
}.

(** A call of a Google API, with the response it gets. *)
Record google_call := GoogleCall {
  gq_print : Q -> jstr; gq_model : model; gq_clock : Z -> Z; gq_api : jstr; gq_unfinished : jstr; gq_now : Z; gq_counter : Z;
  gq_setup : result jstr (); gq_chunks : list google_chunk; gq_ending : result jstr (); gq_aborted : bool
}.

Definition run_google (c : google_call) : list event * assistant * Z :=
  google_stream (gq_print c) (gq_model c) (gq_clock c) (gq_api c) (gq_unfinished c) (gq_now c) (gq_counter c)
    (gq_setup c) (gq_chunks c) (gq_ending c) (gq_aborted c).

#[export] Instance google_source : StreamSource google_call := {
  source_events c := (run_google c).1.1;
  source_result c := (run_google c).1.2;
  source_ended c := google_stream_ended _ _ _ _ _ _ _ _ _ _ _
}.

(** A call of Mistral, with the response it gets. *)
Record mistral_run := MistralRun {
  mq_print : Q -> jstr; mq_partial_parse : jstr -> option json; mq_model : model; mq_now : Z;
  mq_setup : result jstr (); mq_events : list mistral_event; mq_ending : result jstr (); mq_aborted : bool
}.

Definition run_mistral (c : mistral_run) : list event * assistant :=
  mistral_stream (mq_print c) (mq_partial_parse c) (mq_model c) (mq_now c) (mq_setup c) (mq_events c) (mq_ending c) (mq_aborted c).

#[export] Instance mistral_source : StreamSource mistral_run := {
  source_events c := (run_mistral c).1;
  source_result c := (run_mistral c).2;
  source_ended c := mistral_stream_ended _ _ _ _ _ _ _ _
}.

(** A call of Codex, with what its transports answer. *)
Record codex_run := CodexRun {
  cx_print : Q -> jstr; cx_partial_parse : jstr -> option json; cx_syntax_error : jstr -> jstr; cx_lower : jstr -> jstr; cx_date : jstr -> jsnum;
  cx_model : model; cx_properties : gmap jstr jstr; cx_options : codex_options; cx_now : Z;
  cx_setup : result jstr (); cx_script : script; cx_sessions : gset jstr
}.

Definition run_codex (c : codex_run) : list event * assistant * report :=
  codex_stream (cx_print c) (cx_partial_parse c) (cx_syntax_error c) (cx_lower c) (cx_date c) (cx_model c) (cx_properties c) (cx_options c)
    (cx_now c) (cx_setup c) (cx_script c) (cx_sessions c).

#[export] Instance codex_source : StreamSource codex_run := {
  source_events c := (run_codex c).1.1;
  source_result c := (run_codex c).1.2;
  source_ended c := codex_stream_ended _ _ _ _ _ _ _ _ _ _ _ _
}.

(** A setup that failed: an unknown provider, missing credentials. *)
Record setup_failure := SetupFailure { sf_now : Z; sf_model : model; sf_error : jstr }.

Definition failure_message (f : setup_failure) : assistant :=
  createSetupErrorMessage (sf_now f) (sf_model f) (sf_error f).

Lemma failure_ended f : well_ended [EvError Error (failure_message f)] (failure_message f).
Proof. by eexists [], _. Qed.

#[export] Instance failure_source : StreamSource setup_failure := {
  source_events f := [EvError Error (failure_message f)];
  source_result f := failure_message f;
  source_ended := failure_ended
}.

(** A source of either kind. *)
#[export] Instance sum_source {A B} `{StreamSource A} `{StreamSource B} : StreamSource (A + B) := {
  source_events x := match x with inl a => source_events a | inr b => source_events b end;
  source_result x := match x with inl a => source_result a | inr b => source_result b end;
  source_ended x := match x with inl a => source_ended a | inr b => source_ended b end
}.

(** ** The client *)

Section Client.
Context {A : Type} `{StreamSource A}.

(** The stream the bridge reads, with the source behind it. *)
Definition outer_stream (now : Z) (m : model) (a : A) : message_stream :=
  lazyStream now m (Inner (source_events a) (Some (source_result a))).

Lemma outer_stream_ended now m a :
  let s := outer_stream now m a in
  queue s = source_events a /\ waiting s = [] /\ done s = true /\ delivered s = [] /\
  final s = Some (source_result a).
Proof.
  unfold outer_stream. rewrite lazyStream_ops. unfold lazy_ops, run_stream. rewrite foldl_app. cbn [foldl].
  destruct (source_ended a) as (init & e & -> & HF & Hc & Hx). unfold pushes. rewrite map_app, foldl_app. cbn [map foldl].
  assert (forall t, done t = false -> waiting t = [] -> delivered t = [] ->
    foldl (stream_step isComplete extractResult) t (map Push init) =
    Stream (queue t ++ init) [] false (final t) []) as Hinit.
  { induction HF as [|x l Hx' HF IH]; intros t Hd Hw Hdel; cbn [map foldl].
    - destruct t; simpl in *; subst. by rewrite app_nil_r.
    - cbn [stream_step]. unfold push. rewrite Hd, Hx'. cbn [fst].
      rewrite IH; unfold offer; rewrite Hw; simpl; try done. by rewrite <- app_assoc. }
  rewrite Hinit by done. cbn [stream_step]. unfold push. cbn [done]. by rewrite Hc, Hx.
Qed.

(** The bridge's [for await] over the stream of any source ends, having seen
    exactly the source's events, and [result()] is the source's result. *)
Lemma bridge_reads_source now m a c :
  let s := outer_stream now m a in
  let s' := foldl (stream_step isComplete extractResult) s
              (replicate (S (length (source_events a))) (Next c)) in
  delivered s' = map (fun e => (c, Some e)) (source_events a) ++ [(c, None)] /\
  final s' = Some (source_result a).
Proof.
  intros s s'. destruct (outer_stream_ended now m a) as (Hq & Hw & Hd & Hdel & Hf). fold s in Hq, Hw, Hd, Hdel, Hf.
  pose proof (next_drains isComplete extractResult c s Hd Hw) as Hn. unfold finished in Hn. rewrite Hdel, Hq in Hn.
  destruct (Hn eq_refl) as [Hdel' _]. split; [exact Hdel'|].
  destruct (steps_done isComplete extractResult (replicate (S (length (source_events a))) (Next c)) s Hd
    (or_intror Hw)) as (_ & _ & Hf'). unfold s'. rewrite Hf', Hf. done.
Qed.
End Client.
